(* ===== verification/_CoqProject ===== *)
-Q . S2P
Prelude.v
Codec.v
QuicVarint.v
QuicFrame.v
QuicFrameSafety.v
QuicFrameRoundTrip.v
CryptoApi.v
QuicPacket.v
QuicPacketProofs.v
QuicCrypto.v
QuicProtect.v
QuicUnprotectSafety.v
StdMap.v
QuicAck.v
QuicRecovery.v
QuicRecoveryProofs.v
QuicRecoveryProps.v
QuicSend.v
QuicSendProps.v
QuicStreamRecv.v
QuicStreamProps.v
FileLike.v
MsgPack.v
MsgPackTypes.v
MsgPackProofs.v
MsgPackRoundTrip.v
MsgPackSafety.v
MsgPackProps.v
Bencode.v
BencodeProofs.v
BencodeRoundTrip.v
BencodeProps.v
NoiseReplay.v
NoiseCrypto.v
Noise.v
NoiseProofs.v
NoiseTokens.v
NoiseHandshake.v
NoiseProps.v
NoiseSession.v
NoiseSessionProofs.v
NoisePinning.v
SliceRing.v
SliceRingProps.v
Hpack.v
HpackProofs.v
HpackHuffman.v
HpackSafety.v
HpackProps.v
Semaphore.v
SemaphoreProps.v
Queue.v
QueueProofs.v
QueueSpec.v
QueueProps.v
DataChannel.v
DataChannelProofs.v
DataChannelSafety.v
DataChannelRuns.v
DataChannelRoute.v
DataChannelProps.v
Kcp.v
KcpProofs.v
KcpState.v
KcpOps.v
KcpSystem.v
KcpProps.v
Utf8.v
WebSocket.v
WebSocketProofs.v
WebSocketExchange.v
WebSocketProps.v
WebSocketAbort.v
Punycode.v
PunycodeProofs.v
PunycodeProps.v
Base64.v
NoiseSocket.v
NoiseSocketSystem.v
NoiseSocketProps.v
