(* ===== verification/Prelude.v ===== *)
(** * qtng: a verification development

    qtng is a networking library in C++ built on coroutines.  This development
    models the parts of it that decide what bytes mean and what state a protocol
    is in, and proves them correct: the QUIC packet layer with its loss recovery,
    the MessagePack and bencode streams, the Noise handshake with its datagram
    sessions and stream sockets, WebSocket connections, the header compression of
    HTTP/2, the double-mapped ring buffer, the semaphores and queues on which
    coroutines wait for each other, the channels that share one connection, the KCP
    transport over datagrams, and the text
    codings (UTF-8, Punycode, Base64).

    ** Conventions

    A byte is a [Z] in [0, 256), a buffer a [list Z], a machine integer the [Z] it
    denotes with every wrap written out ([wrapu], [wraps] and their widths below).
    A computation is a [result]: [Ret] is a normal return, [Reject] the error
    return of the source, [Fault] an access out of bounds or another behaviour the
    language leaves undefined, [OutOfFuel] a loop that was cut off.  Theorems of
    safety exclude [Fault] and [OutOfFuel] for every input.  Code that is not part
    of the sources (the primitives of the crypto library, a datagram link, the
    clock, memory that may not be there, the calls that map pages, the keys that mask WebSocket frames) is a
    parameter; what the code relies on is a
    class with laws ([CryptoLaws], [NoiseCryptoLaws], [ReadContract],
    [WriteContract], [ReaderLaws]), and instances show that the laws can hold.  Code
    that waits is a state machine: an [Action] is a call or an event of the loop, it
    runs the code to the next point where control changes hands, and the theorems are
    about every sequence of actions.

    ** The parts and their files

    Shared: [Prelude] (integers, bytes, [result], tactics, hints), [Codec] (cursor
    parsers and their rules), [StdMap] (ordered maps and sets), [CryptoApi] (AEAD wrappers and HKDF, src/src/aead.cpp), [FileLike]
    (the stream interface and BytesIO, src/src/io_utils.cpp).

    QUIC.  [QuicVarint] is quic_varint.cpp.  [QuicFrame] has the
    frames of quic_frame.cpp; [QuicFrameSafety] shows that decoding any payload
    stays in bounds and returns, [QuicFrameRoundTrip] that it inverts encoding.
    [QuicPacket] has the headers and Retry packets, with [QuicPacketProofs].
    [QuicCrypto] is quic_crypto.cpp; [QuicProtect] shows that
    unprotecting inverts protecting, [QuicUnprotectSafety] what any datagram can do.
    [QuicAck] builds and expands ACK frames.  [QuicRecovery] is quic_recovery.cpp
    and quic_cc.cpp, with [QuicRecoveryProofs] and [QuicRecoveryProps]: the counters
    are exact over any history, an ACK removes what it acknowledges, the timers and
    windows stay in bounds.  [QuicSend] is the send path of quic.cpp, which composes
    the packet layer, recovery and congestion control; [QuicSendProps]
    shows over any history that no nonce repeats under a key and that
    the window is kept.  [QuicStreamRecv] and [QuicStreamProps] are reassembly: what
    is delivered is a prefix of what was sent, and all of it once all has arrived.

    MessagePack.  [MsgPack] and [MsgPackTypes] are msgpack.cpp and msgpack.h over any
    device that keeps the contract of [FileLike].  [MsgPackProofs] has the rules for
    readers and writers.  [MsgPackTypes] also has the template types as data, [MsgType]:
    every nesting of scalars, vectors, maps and variants, each with the operators that the
    compiler would choose.  [MsgPackRoundTrip] and [MsgPackSafety] go through them by
    induction, for values within their ranges ([alt_fits]) and for arbitrary input, and
    [MsgPackProps] has the theorems.

    Bencode.  [Bencode] is bencode.cpp with the numerals it writes.  [BencodeProofs] and
    [BencodeRoundTrip] show that decoding inverts encoding, [BencodeProps] that decoding
    any input returns with a well-formed value inside the limits, and has the theorems.

    Noise.  [NoiseReplay] is the replay window of noise_replay_p.h, equivalent to the
    set of all nonces accepted.  [NoiseCrypto] has the primitives and their wrappers,
    [Noise] the cipher and handshake states of noise.cpp.  [NoiseProofs] relates the
    two peers step by step, [NoiseTokens] goes through the tokens, [NoiseHandshake]
    through the messages, [NoiseProps] states that every supported handshake
    completes with crossing keys.  [NoiseSession] is NoiseDatagram, and
    [NoiseSessionProofs] runs it over a network that loses, reorders and repeats
    packets.  [NoisePinning] shows how a configured key of the peer is got around.
    [NoiseSocket] is NoiseSocket: frames on a stream, the loop of the handshake, sendall
    and recv, and two such sockets with the bytes between them.  [NoiseSocketSystem]
    has the frames and the bytes of one direction and the invariant of
    the two sockets in every order of events, [NoiseSocketProps] states that they are a
    stream each way and that the handshake ends.

    Ring buffer.  [SliceRing] is slice_ring_buffer.cpp: memory in which two addresses
    name one byte.  [SliceRingProps] shows that it refines a deque of bytes, and what
    happens when a growth fails.

    Locks and queues.  [Semaphore] is SemaphorePrivate of locks.cpp with the loop around
    it, where anybody may release anything; [SemaphoreProps] has its invariant, that units
    are conserved (the field [spilt] counts those released by coroutines that did not hold
    them, where a release stops at the initial value) and waiters served in order, that waiters for several units can block each other and
    when destruction ends.  [Queue] is SizedQueueType of locks.h over the events of
    locks.cpp, with coroutines that wait in it, time out or are killed, and the same
    code between threads; [QueueProofs] has the invariant, [QueueSpec] the deque that
    it refines, [QueueProps] the theorems.

    Channels.  [DataChannel] is data_channel.cpp: a connection (SocketChannel), the
    channels in it and in each other (VirtualChannel) and the stream over a channel.  The
    state [World] is a store of objects named by number, since a channel has its parent's
    address and the parent the child's: each object is a [Channel] with its table of
    children, the channels not yet taken, its queue of packets, its gate and its error, and
    a connection adds the state of its three coroutines ([doSend], [doReceive],
    [doKeepalive]).  An action is a call of a user, bytes that arrive, a step of such a
    coroutine, a destructor, or a coroutine that goes on after a wait.  [DataChannelProofs] has the
    frames that the operations keep and that abort ends, [DataChannelSafety] the
    invariant, [DataChannelRuns] that every action keeps it on the condition [honest],
    [DataChannelRoute] follows a packet down from a channel, over the wire and up to its
    peer, also when a queue is full and the receiver waits, and [DataChannelProps] has the
    theorems: such runs touch no freed object, the
    receiver gets what the sender sent, in order, abort takes everything below with it,
    the largest payload is exact, a reader reopens the gate, and a stream is the
    concatenation of its packets.  [honest] excludes three things that do fault,
    [dishonest_runs_fault]: a new channel whose number is taken, a number that the peer
    makes and destroys twice, and a connection destroyed under a sender that waits.  A
    destructor is an action of its own also where the source runs it inside another.

    KCP.  [Kcp] is kcp/ikcp.c, in which the state [ikcpcb] is the control block: queues and
    buffers of both directions, windows, round-trip estimate, probes and clock, with a
    definition per function and per loop.  Its parameters [seg_alloc] and [ikcp_malloc] say
    which allocations succeed.  [KcpProofs] has the sequence numbers modulo 2^32 and reads a
    datagram as the frames in it, [KcpState] the invariant of a control block and what a
    datagram does to it, [KcpOps] the calls of a user and the flush.  [KcpSystem] has two
    ends and a network that keeps every datagram, delivers it at any time, again or never
    (an [Event] is a call, a delivery or a setting; setPacketSize and updateKcp are those of
    kcp.cpp), with the invariant that relates the ends.  [KcpProps] has the theorems: what
    arrives is a prefix of what was sent, with enough memory no segment is lost for good,
    any bytes are survived; and the defects: a segment without memory is acknowledged, and
    one that the sender retired and the receiver lacks stops the stream for ever.  The runs considered ([sane]) have no datagram older than
    2^30 segments or echoing a time stamp older than 2^28 ms, and memory for what is sent.

    WebSocket.  [WebSocket] is websocket.cpp: frames, the receiver over a buffer and a
    socket, the sender.  [WebSocketProofs] reads frames back and shows that chunks do
    not matter, against a class of readers; [WebSocketExchange] goes from sender to
    receiver, for frames no larger than the receiver takes, [WebSocketProps] through
    arbitrary input and has the theorems.  [WebSocketAbort] composes the end of a connection with [Queue].

    Text.  [Utf8] and [Base64] are from string_utils.cpp, [Punycode] is punycode.cpp and
    the domain names of string_utils.cpp, with [PunycodeProofs] (a simulation of the
    encoder by the decoder) and [PunycodeProps].

    HPACK.  [Hpack] has the tables and the functions of hpack.cpp.
    [HpackProofs] reads back integers, strings and blocks, [HpackHuffman] relates the
    Huffman coder and decoder on the level of bits, [HpackSafety] decodes arbitrary
    blocks, says which integers overflow ([overlong]) and keeps the dynamic table exact,
    [HpackProps] has sessions of two ends, each with an encoder and a decoder that a
    setting changes together as in http2.cpp: every block is read back, and the tables of
    the ends are equal as long as settings reach both.

    ** Bounds and fuel

    Loops of the source that are not structural take fuel, and each theorem about
    them shows that the fuel given is enough: the frame loop and the runs of padding
    take one step per byte of the payload; the MessagePack loops are bounded by the
    bytes asked for, since a device delivers at least one or stops; the bencode reader
    takes twice what the stream may still deliver and one step; growth of the ring
    buffer takes one step per doubling of a 64-bit size; an HPACK integer has at most
    five continuation bytes, and every field of a block takes at least one byte.  The
    WebSocket receiver takes one step per byte of the stream and one more.  A packet goes
    up from a channel in at most as many steps as the channel's number, since a parent is
    older than its children, and down in at most one step per byte, since each level takes
    a header off; abort turns one object from working to failed in each call.  Reading a
    stream takes a step per packet in the queue, writing one a step per byte.  The input
    loop of KCP takes a step per byte of the datagram and one more, the compact frames one
    per acknowledgement, the list of these 32 doublings.  The loop of
    Punycode's adapt divides by 35 and needs 8 steps at 32 bits, a number has at most
    40 digits, and a label is read back for up to a hundred code points, beyond what a
    domain name can hold.  The theorems about queues suppose that the sizes offered add
    up to less than 2^32, those about Noise sockets fewer actions than there are nonces and
    texts of 1 to 65519 bytes (a longer one ends the stream, [oversized_text_ends_stream],
    an empty one reads as its end), those about QUIC recovery that each packet number of a
    space is sent once ([retry_repeats_nonce] is the exception).

    ** Behaviours that differ from what the code announces

    Some theorems state a defect: [handshake_done_not_sent], [retry_repeats_nonce],
    [crypto_overlap_ignored], [time_threshold_follows_newest], [landed_not_retried],
    [truncated_vector_accepted], [variant_shadowed], [preepoch_not_restored],
    [timestamp_overflow], [bencode_integer_saturates], [noise_pinned_key_bypassed],
    [ring_failed_growth_overwrites], [hpack_huffman_padding_refused],
    [hpack_settings_break_decoder], [hpack_zero_byte_cuts], [acquireMany_deadlock],
    [delete_ends_iff_units_suffice], [threads_overrun], [abort_strands_receivers],
    [dishonest_runs_fault], [taker_stranded], [exchange_keeps_gate_closed],
    [message_inside_message_accepted], [punycodeDecode_wraps],
    [oversized_text_ends_stream], [kcp_oom_acknowledged], [kcp_stale_ack_overflows],
    [kcp_lost_for_good], [kcp_send_partial] and the first case of [hpack_decode_returns].

    ** What is not modelled

    In the parts above: the receive dispatcher, path validation, connection ids and
    closing of a QUIC connection; the MessagePack operators for unordered containers
    and dates; the bencode operators for C++ containers; the parsing of Noise protocol
    names and recvall of its socket; the upgrade and keepalive of WebSocket,
    exceptions of its socket and the wait of its receiver for room in a full queue; RLock, Gate,
    links between events and ThreadEvent; the Windows mapping of the ring buffer; the
    amounts of the timeouts of channels (a timeout is an action that may come at any time),
    their names and payload size hints, and the streams over several connections
    (multi_stream.cpp); of KCP the release of a control block, logging, and the sockets,
    paths, coroutines, window tuner and segment pool of kcp.cpp.  The
    TLS, SSH, gzip and LMDB wrappers, sockets, the event loop and the switching of
    coroutine stacks depend on code and system calls outside of the sources.  HTTP
    (of HTTP/2 only the effect of a setting on the HPACK tables), uTP, BitTorrent,
    Kademlia, MQTT, STUN, TURN, mDNS, SOCKS5, RPC, URLs and the rest of the text helpers
    have no model yet.  Secrecy is not a subject:
    the laws of the primitives are functional, so the theorems speak of agreement,
    integrity of the bookkeeping and delivery, not of what an adversary learns. *)

From stdpp Require Export base list numbers option.
From Stdlib Require Export ZArith Lia.
From Stdlib Require Ascii String.
Export String.StringSyntax.

Global Open Scope Z_scope.

(** ** Machine integers

    A [w]-bit unsigned value is the [Z] it denotes; every operation of the
    source that can leave the range is followed by an explicit wrap. *)

Definition wrapu (w z : Z) : Z := z mod 2 ^ w.
Definition wraps (w z : Z) : Z := (z + 2 ^ (w - 1)) mod 2 ^ w - 2 ^ (w - 1).

Abbreviation u8 := (wrapu 8).
Abbreviation u16 := (wrapu 16).
Abbreviation u32 := (wrapu 32).
Abbreviation u64 := (wrapu 64).
Abbreviation s8 := (wraps 8).
Abbreviation s16 := (wraps 16).
Abbreviation s32 := (wraps 32).
Abbreviation s64 := (wraps 64).

Definition UINT32_MAX : Z := 4294967295.
Definition INT_MAX : Z := 2147483647.

(** [x] is a value of the unsigned (signed) [w]-bit type. *)
Definition in_u (w x : Z) : Prop := 0 <= x < 2 ^ w.
Definition in_s (w x : Z) : Prop := - 2 ^ (w - 1) <= x < 2 ^ (w - 1).

(** ** Bytes and buffers *)

Definition is_byte (b : Z) : Prop := 0 <= b < 256.
Definition is_bytes (l : list Z) : Prop := Forall is_byte l.

(** [size()] of a container, as the [size_t] the source computes with. *)
Definition zlen {A} (l : list A) : Z := Z.of_nat (length l).

(** The bytes of a string literal. *)
Definition str (s : String.string) : list Z :=
  map (fun a => Z.of_N (Ascii.N_of_ascii a)) (String.list_ascii_of_string s).
Arguments str s%_string_scope.

(** [data + off, n] : the [n] bytes that start at offset [off]. *)
Definition slice {A} (l : list A) (off n : Z) : list A :=
  take (Z.to_nat n) (drop (Z.to_nat off) l).

(** Buffers never exceed the largest object a 64-bit address space holds. *)
Definition fits {A} (l : list A) : Prop := zlen l < 2 ^ 63.

(** Big-endian encoding of [v] on [n] bytes, and decoding. *)
Fixpoint be_encode (n : nat) (v : Z) : list Z :=
  match n with
  | O => []
  | S n' => (v / 2 ^ (8 * Z.of_nat n')) mod 256 :: be_encode n' v
  end.

Definition be_decode (l : list Z) : Z := fold_left (fun v b => v * 256 + b) l 0.

(** ** Results of fallible code

    [Ret] a value; [Reject] the error return of the source ([false]);
    [Fault] an access outside a buffer, which C++ leaves undefined;
    [OutOfFuel] a loop that was cut before it ended.  The theorems of each
    component say when the last two cannot happen. *)

Inductive result (A : Type) : Type :=
| Ret (a : A)
| Reject
| Fault
| OutOfFuel.
Arguments Ret {A} a.
Arguments Reject {A}.
Arguments Fault {A}.
Arguments OutOfFuel {A}.

#[export] Instance result_ret : MRet result := fun A a => Ret a.
#[export] Instance result_bind : MBind result := fun A B k m =>
  match m with
  | Ret a => k a
  | Reject => Reject
  | Fault => Fault
  | OutOfFuel => OutOfFuel
  end.

(** [data[i]], a fault outside the buffer. *)
Definition fetch (data : list Z) (i : Z) : result Z :=
  if i <? 0 then Fault else
  match data !! Z.to_nat i with
  | Some b => Ret b
  | None => Fault
  end.

(** [string.assign(data + off, n)], a fault when the range leaves the buffer. *)
Definition fetch_slice (data : list Z) (off n : Z) : result (list Z) :=
  if (0 <=? off) && (0 <=? n) && (off + n <=? zlen data) then Ret (slice data off n)
  else Fault.

(** ** Automation *)

Create HintDb qtng.
Create Rewrite HintDb zlen.

(** Turn the boolean tests of the source into propositions and case on them. *)
Ltac bool_to_prop :=
  repeat match goal with
  | H : (_ && _)%bool = true |- _ => apply andb_true_iff in H; destruct H
  | H : (_ || _)%bool = false |- _ => apply orb_false_iff in H; destruct H
  | H : negb _ = true |- _ => apply negb_true_iff in H
  | H : negb _ = false |- _ => apply negb_false_iff in H
  | H : (_ <? _) = true |- _ => apply Z.ltb_lt in H
  | H : (_ <? _) = false |- _ => apply Z.ltb_ge in H
  | H : (_ <=? _) = true |- _ => apply Z.leb_le in H
  | H : (_ <=? _) = false |- _ => apply Z.leb_gt in H
  | H : (_ =? _) = true |- _ => apply Z.eqb_eq in H
  | H : (_ =? _) = false |- _ => apply Z.eqb_neq in H
  | H : (_ >? _) = true |- _ => rewrite Z.gtb_ltb in H; apply Z.ltb_lt in H
  | H : (_ >? _) = false |- _ => rewrite Z.gtb_ltb in H; apply Z.ltb_ge in H
  | H : (_ >=? _) = true |- _ => rewrite Z.geb_leb in H; apply Z.leb_le in H
  | H : (_ >=? _) = false |- _ => rewrite Z.geb_leb in H; apply Z.leb_gt in H
  end.

(** Case on the next test of the goal. *)
Ltac case_test :=
  match goal with
  | |- context [if ?b then _ else _] =>
      lazymatch b with
      | context [if _ then _ else _] => fail
      | _ => let E := fresh "E" in destruct b eqn:E; bool_to_prop
      end
  end.

(** Powers of two that appear as widths are closed terms: compute them. *)
Ltac pow2_const :=
  repeat match goal with
  | |- context [2 ^ ?n] =>
      let v := eval vm_compute in (2 ^ n) in
      lazymatch v with Zpos ?p => change (2 ^ n) with v end
  | H : context [2 ^ ?n] |- _ =>
      let v := eval vm_compute in (2 ^ n) in
      lazymatch v with Zpos ?p => change (2 ^ n) with v in H end
  end.

Ltac unfold_width :=
  unfold in_u, in_s, wrapu, wraps, is_byte, fits, UINT32_MAX, INT_MAX in *.

(** Linear arithmetic over machine-width values, and with [/] and [mod]. *)
Ltac width_lia := unfold_width; pow2_const; lia.
Ltac dm_lia := Z.to_euclidean_division_equations; lia.

(** ** Lemmas on lists and lengths *)

Section Lengths.
  Context {A : Type}.
  Implicit Types l : list A.

Lemma zlen_nonneg l : 0 <= zlen l.
Proof. unfold zlen. lia. Qed.

Lemma zlen_nil : zlen (@nil A) = 0.
Proof. done. Qed.

Lemma zlen_cons x l : zlen (x :: l) = 1 + zlen l.
Proof. unfold zlen. cbn [length]. lia. Qed.

Lemma zlen_app l1 l2 : zlen (l1 ++ l2) = zlen l1 + zlen l2.
Proof. unfold zlen. rewrite length_app. lia. Qed.

Lemma zlen_to_nat l : Z.to_nat (zlen l) = length l.
Proof. unfold zlen. lia. Qed.

Lemma zlen_drop l n : 0 <= n <= zlen l -> zlen (drop (Z.to_nat n) l) = zlen l - n.
Proof. unfold zlen. rewrite length_drop. lia. Qed.

Lemma zlen_take l n : 0 <= n <= zlen l -> zlen (take (Z.to_nat n) l) = n.
Proof. unfold zlen. rewrite length_take. lia. Qed.

Lemma zlen_slice l off n :
  0 <= off -> 0 <= n -> off + n <= zlen l -> zlen (slice l off n) = n.
Proof. unfold zlen, slice. rewrite length_take, length_drop. lia. Qed.

Lemma zlen_0_nil l : zlen l = 0 -> l = [].
Proof. destruct l; [done | rewrite zlen_cons; pose proof (zlen_nonneg l); lia]. Qed.

Lemma slice_app_mid (l1 l2 l3 : list A) :
  slice (l1 ++ l2 ++ l3) (zlen l1) (zlen l2) = l2.
Proof.
  unfold slice. rewrite !zlen_to_nat, drop_app_length. apply take_app_length.
Qed.

Lemma slice_app_mid' (l1 l2 l3 : list A) off n :
  off = zlen l1 -> n = zlen l2 -> slice (l1 ++ l2 ++ l3) off n = l2.
Proof. intros -> ->. apply slice_app_mid. Qed.

Lemma slice_prefix (l1 l2 : list A) n : n = zlen l1 -> slice (l1 ++ l2) 0 n = l1.
Proof. intros ->. unfold slice. by rewrite drop_0, zlen_to_nat, take_app_length. Qed.

Lemma drop_zlen_app (l1 l2 : list A) : drop (Z.to_nat (zlen l1)) (l1 ++ l2) = l2.
Proof. rewrite zlen_to_nat. apply drop_app_length. Qed.
End Lengths.

#[export] Hint Rewrite @zlen_nil @zlen_cons @zlen_app @length_app : zlen.

(** [lia] after pushing [zlen] through lists, with the sign of every length. *)
Ltac zlen_pose :=
  repeat match goal with
  | |- context [zlen ?l] =>
      lazymatch goal with
      | H : 0 <= zlen l |- _ => fail
      | _ => pose proof (zlen_nonneg l)
      end
  | H : context [zlen ?l] |- _ =>
      lazymatch type of H with
      | 0 <= zlen l => fail
      | _ => lazymatch goal with
             | H' : 0 <= zlen l |- _ => fail
             | _ => pose proof (zlen_nonneg l)
             end
      end
  end.

Ltac zlen_lia :=
  autorewrite with zlen in *; zlen_pose; lia.

(** Decide the next test of the goal with [lia]. *)
Ltac test_true :=
  match goal with |- context [if ?b then _ else _] => replace b with true by (symmetry; first [lia | zlen_lia]) end.
Ltac test_false :=
  match goal with |- context [if ?b then _ else _] => replace b with false by (symmetry; first [lia | zlen_lia]) end.

(** ** Lemmas on bytes *)

Lemma is_bytes_nil : is_bytes [].
Proof. constructor. Qed.

Lemma is_bytes_cons b l : is_byte b -> is_bytes l -> is_bytes (b :: l).
Proof. by constructor. Qed.

Lemma is_bytes_app l1 l2 : is_bytes (l1 ++ l2) <-> is_bytes l1 /\ is_bytes l2.
Proof. apply Forall_app. Qed.

Lemma is_bytes_app_2 l1 l2 : is_bytes l1 -> is_bytes l2 -> is_bytes (l1 ++ l2).
Proof. intros. by apply is_bytes_app. Qed.

Lemma is_bytes_take n l : is_bytes l -> is_bytes (take n l).
Proof. apply Forall_take. Qed.

Lemma is_bytes_drop n l : is_bytes l -> is_bytes (drop n l).
Proof. apply Forall_drop. Qed.

Lemma is_bytes_slice l off n : is_bytes l -> is_bytes (slice l off n).
Proof. intros. unfold slice. by apply is_bytes_take, is_bytes_drop. Qed.

Lemma is_byte_mod v : is_byte (v mod 256).
Proof. unfold is_byte. dm_lia. Qed.

Lemma str_bytes s : is_bytes (str s).
Proof.
  unfold str. apply Forall_map, Forall_forall. intros a _. simpl. unfold is_byte.
  pose proof (Ascii.N_ascii_bounded a). lia.
Qed.

#[export] Hint Resolve str_bytes is_bytes_nil is_bytes_cons is_bytes_app_2 is_bytes_take
  is_bytes_drop is_bytes_slice is_byte_mod : qtng.

(** ** Fetching *)

Lemma fetch_app_mid l1 b l2 : fetch (l1 ++ b :: l2) (zlen l1) = Ret b.
Proof.
  unfold fetch. pose proof (zlen_nonneg l1). test_false.
  rewrite zlen_to_nat, list_lookup_middle; done.
Qed.

Lemma fetch_in l i : 0 <= i < zlen l -> exists b, l !! Z.to_nat i = Some b /\ fetch l i = Ret b.
Proof.
  intros Hi. destruct (lookup_lt_is_Some_2 l (Z.to_nat i)) as [b Hb].
  { unfold zlen in Hi. lia. }
  exists b. split; [done |]. unfold fetch. test_false. by rewrite Hb.
Qed.

Lemma fetch_byte l i b : is_bytes l -> fetch l i = Ret b -> is_byte b.
Proof.
  unfold fetch. case_test; [done |].
  destruct (l !! Z.to_nat i) eqn:E'; [|done]. intros Hl [= <-].
  by eapply Forall_lookup_1.
Qed.

Lemma fetch_slice_app_mid l1 l2 l3 :
  fetch_slice (l1 ++ l2 ++ l3) (zlen l1) (zlen l2) = Ret l2.
Proof.
  unfold fetch_slice. rewrite slice_app_mid.
  by test_true.
Qed.

(** [r] neither faults nor runs out of fuel, and what it returns satisfies [Q]. *)
Definition safe {A} (Q : A -> Prop) (r : result A) : Prop :=
  match r with
  | Ret a => Q a
  | Reject => True
  | Fault | OutOfFuel => False
  end.

Lemma safe_bind {A B} (P : A -> Prop) (Q : B -> Prop) r (k : A -> result B) :
  safe P r -> (forall a, P a -> safe Q (k a)) -> safe Q (r ≫= k).
Proof. destruct r; simpl; auto. Qed.

Lemma safe_if {A} (Q : A -> Prop) (b : bool) r1 r2 :
  (b = true -> safe Q r1) -> (b = false -> safe Q r2) -> safe Q (if b then r1 else r2).
Proof. destruct b; auto. Qed.

Lemma safe_fetch (Q : Z -> Prop) l i :
  is_bytes l -> 0 <= i < zlen l -> (forall b, is_byte b -> Q b) -> safe Q (fetch l i).
Proof.
  intros Hl Hi HQ. destruct (fetch_in l i Hi) as (b & _ & He). rewrite He. simpl.
  eapply HQ, fetch_byte; eauto.
Qed.

Lemma safe_fetch_slice (Q : list Z -> Prop) l off n :
  is_bytes l -> 0 <= off -> 0 <= n -> off + n <= zlen l ->
  (forall s, is_bytes s -> zlen s = n -> Q s) -> safe Q (fetch_slice l off n).
Proof.
  intros Hl Ho Hn Hs HQ. unfold fetch_slice. test_true. simpl.
  apply HQ; [by apply is_bytes_slice | by apply zlen_slice].
Qed.

(** Concrete byte strings, by evaluation. *)
Definition bytes_ok (l : list Z) : bool := forallb (fun b => (0 <=? b) && (b <? 256)) l.

Lemma bytes_ok_spec l : bytes_ok l = true -> is_bytes l.
Proof.
  unfold bytes_ok, is_bytes. intros H. rewrite forallb_forall in H. apply Forall_forall.
  intros b Hb. specialize (H b Hb). cbv beta in H. bool_to_prop.
  unfold is_byte. lia.
Qed.

Ltac closed_bytes := apply bytes_ok_spec; vm_compute; reflexivity.

(** Concrete bounds, by evaluation. *)
Ltac closed_lia := vm_compute; intuition congruence.

(** ** Bit operations as arithmetic *)

Lemma land_255 x : Z.land x 255 = x mod 256.
Proof. change 255 with (Z.ones 8). by rewrite Z.land_ones. Qed.

Lemma land_63 x : Z.land x 63 = x mod 64.
Proof. change 63 with (Z.ones 6). by rewrite Z.land_ones. Qed.

Lemma land_127 x : Z.land x 127 = x mod 128.
Proof. change 127 with (Z.ones 7). by rewrite Z.land_ones. Qed.

Lemma shiftr_div x k : 0 <= k -> Z.shiftr x k = x / 2 ^ k.
Proof. apply Z.shiftr_div_pow2. Qed.

Lemma shiftl_mul x k : 0 <= k -> Z.shiftl x k = x * 2 ^ k.
Proof. apply Z.shiftl_mul_pow2. Qed.

Lemma testbit_small x k i : 0 <= x < 2 ^ k -> 0 <= k <= i -> Z.testbit x i = false.
Proof.
  intros Hx Hi. rewrite <- (Z.mod_small x (2 ^ k)) by done.
  apply Z.mod_pow2_bits_high. lia.
Qed.

(** Setting bits above [k] of a value below [2 ^ k] is an addition. *)
Lemma lor_high a b k : 0 <= k -> 0 <= b < 2 ^ k -> Z.lor (a * 2 ^ k) b = a * 2 ^ k + b.
Proof.
  intros Hk Hb. symmetry. apply Z.add_nocarry_lor, Z.bits_inj'. intros i Hi.
  rewrite Z.land_spec, Z.bits_0.
  destruct (Z.lt_ge_cases i k).
  - rewrite Z.mul_pow2_bits_low by lia. done.
  - rewrite (testbit_small b k i) by lia. apply andb_false_r.
Qed.

Lemma lor_shiftl a b k : 0 <= k -> 0 <= b < 2 ^ k -> Z.lor (Z.shiftl a k) b = a * 2 ^ k + b.
Proof. intros. rewrite shiftl_mul by lia. by apply lor_high. Qed.

Lemma lor_shiftl_8 a b : is_byte b -> Z.lor (Z.shiftl a 8) b = a * 256 + b.
Proof. intros. rewrite lor_shiftl; [done | lia | unfold is_byte in *; lia]. Qed.

(** A flag bit is set iff [land] with its mask is not zero. *)
Lemma land_pow2_testbit x k : 0 <= k -> Z.land x (2 ^ k) = if Z.testbit x k then 2 ^ k else 0.
Proof.
  intros Hk. apply Z.bits_inj'. intros i Hi. rewrite Z.land_spec, Z.pow2_bits_eqb by lia.
  destruct (Z.eqb_spec k i) as [-> |].
  - rewrite andb_true_r. destruct (Z.testbit x i) eqn:E; rewrite ?Z.bits_0; [|done].
    by rewrite Z.pow2_bits_true.
  - rewrite andb_false_r. destruct (Z.testbit x k); rewrite ?Z.bits_0; [|done].
    by rewrite Z.pow2_bits_false.
Qed.

(** ** Big-endian integers *)

Lemma pow256_pos n : 0 < 256 ^ Z.of_nat n.
Proof. apply Z.pow_pos_nonneg; lia. Qed.

Lemma pow2_8 n : 2 ^ (8 * Z.of_nat n) = 256 ^ Z.of_nat n.
Proof. change 256 with (2 ^ 8). rewrite <- Z.pow_mul_r; lia. Qed.

Lemma length_be_encode n v : length (be_encode n v) = n.
Proof. induction n; simpl; auto. Qed.

Lemma zlen_be_encode n v : zlen (be_encode n v) = Z.of_nat n.
Proof. unfold zlen. by rewrite length_be_encode. Qed.

Lemma be_encode_bytes n v : is_bytes (be_encode n v).
Proof. induction n; simpl; auto with qtng. Qed.

Lemma be_decode_fold l acc :
  fold_left (fun v b => v * 256 + b) l acc = acc * 256 ^ zlen l + be_decode l.
Proof.
  unfold be_decode. revert acc. induction l as [| b l IH]; intros acc; simpl.
  - rewrite zlen_nil. lia.
  - rewrite IH, (IH (0 * 256 + b)), zlen_cons, Z.pow_add_r by zlen_lia. lia.
Qed.

Lemma be_decode_cons b l : be_decode (b :: l) = b * 256 ^ zlen l + be_decode l.
Proof. unfold be_decode at 1. simpl. rewrite be_decode_fold. lia. Qed.

Lemma be_decode_bound l : is_bytes l -> 0 <= be_decode l < 256 ^ zlen l.
Proof.
  induction 1 as [| b l Hb Hl IH]; [by vm_compute |].
  rewrite be_decode_cons, zlen_cons, Z.pow_add_r by zlen_lia. unfold is_byte in *. nia.
Qed.

Lemma be_encode_decode n v : be_decode (be_encode n v) = v mod 256 ^ Z.of_nat n.
Proof.
  induction n as [| n IH]; simpl be_encode; [by rewrite Z.mod_1_r |].
  pose proof (pow256_pos n).
  rewrite be_decode_cons, zlen_be_encode, IH, Nat2Z.inj_succ, Z.pow_succ_r by lia.
  rewrite pow2_8, (Z.mul_comm 256), Z.rem_mul_r by lia. lia.
Qed.

(** Bytes above the ones that are written do not matter. *)
Lemma be_encode_high b d n m : (n <= m)%nat ->
  be_encode n (b * 256 ^ Z.of_nat m + d) = be_encode n d.
Proof.
  induction n as [| n IHn]; intros Hm; [done |]. simpl. f_equal; [|auto with lia].
  pose proof (pow256_pos n). rewrite pow2_8.
  replace (Z.of_nat m) with (Z.of_nat (m - S n) + 1 + Z.of_nat n) by lia.
  rewrite !Z.pow_add_r, (Z.mul_assoc b), Z.div_add_l, Z.pow_1_r by lia.
  rewrite (Z.mul_assoc b), Z.add_comm, Z.mod_add by lia. done.
Qed.

Lemma be_decode_encode l : is_bytes l -> be_encode (length l) (be_decode l) = l.
Proof.
  induction 1 as [| b l Hb Hl IH]; [done |]. simpl.
  pose proof (be_decode_bound l Hl) as Hd. pose proof (pow256_pos (length l)).
  rewrite pow2_8, be_decode_cons. unfold zlen in *. f_equal.
  - rewrite Z.div_add_l, (Z.div_small (be_decode l)), Z.add_0_r by lia.
    apply Z.mod_small. apply Hb.
  - by rewrite be_encode_high.
Qed.

Lemma be_encode_decode_small n v : 0 <= v < 256 ^ Z.of_nat n -> be_decode (be_encode n v) = v.
Proof. intros. rewrite be_encode_decode by lia. by apply Z.mod_small. Qed.

#[export] Hint Resolve be_encode_bytes : qtng.

(** ** Sums over lists *)

Fixpoint total {A} (f : A -> Z) (l : list A) : Z :=
  match l with
  | [] => 0
  | a :: l' => f a + total f l'
  end.

Lemma total_nonneg {A} (f : A -> Z) l : Forall (fun a => 0 <= f a) l -> 0 <= total f l.
Proof. induction 1; cbn; lia. Qed.

Lemma total_insert {A} (f : A -> Z) l i a b : l !! i = Some a ->
  total f (<[i := b]> l) = total f l - f a + f b.
Proof.
  revert i. induction l as [| x l IH]; intros [| i] Hi; cbn in *; try done.
  - injection Hi as ->. lia.
  - rewrite IH by done. lia.
Qed.

Lemma total_ge {A} (f : A -> Z) l i a : Forall (fun a => 0 <= f a) l -> l !! i = Some a -> f a <= total f l.
Proof.
  intros Hl. revert i. induction Hl as [| x l Hx Hl IH]; intros [| i] Hi; cbn in *; try done.
  - injection Hi as ->. pose proof (total_nonneg f l Hl). lia.
  - specialize (IH i Hi). lia.
Qed.

Lemma total_two {A} (f : A -> Z) l i j a b : Forall (fun a => 0 <= f a) l -> l !! i = Some a -> l !! j = Some b ->
  i <> j -> f a + f b <= total f l.
Proof.
  intros Hl. revert i j. induction Hl as [| x l Hx Hl IH]; intros [| i] [| j] Hi Hj Hij; cbn in *; try done.
  - injection Hi as ->. pose proof (total_ge f l j b Hl Hj). lia.
  - injection Hj as ->. pose proof (total_ge f l i a Hl Hi). lia.
  - specialize (IH i j Hi Hj). lia.
Qed.

Lemma total_join {A} (f : A -> Z) l1 l2 : total f (l1 ++ l2) = total f l1 + total f l2.
Proof. induction l1; cbn; lia. Qed.

Lemma total_filter_le {A} (f : A -> Z) (P : A -> Prop) `{forall x, Decision (P x)} l : (forall x, 0 <= f x) ->
  total f (filter P l) <= total f l.
Proof.
  intros Hf. induction l as [| x l IH]; [done |]. pose proof (Hf x).
  destruct (decide (P x)); [rewrite filter_cons_True by done | rewrite filter_cons_False by done]; cbn; lia.
Qed.
