(* ===== verification/Codec.v ===== *)
(** * Cursor parsers

    The decoders of the source walk a buffer with an offset: they take
    [(data, size)] and a cursor, test what is left, read and advance, and
    return [false] on malformed input.  [parser] is that shape as a monad: the
    buffer is read-only, the cursor is threaded, a read that no test guards
    faults.  [wp] is the rule set used to prove that a decoder is safe on every
    input, [reads] the round-trip relation between a decoder and an encoder. *)

From S2P Require Import Prelude.

Definition parser (A : Type) : Type := list Z -> Z -> result (A * Z).

#[export] Instance parser_ret : MRet parser := fun A a _ off => Ret (a, off).
#[export] Instance parser_bind : MBind parser := fun A B k p data off =>
  match p data off with
  | Ret (a, off') => k a data off'
  | Reject => Reject
  | Fault => Fault
  | OutOfFuel => OutOfFuel
  end.

(** What a decoder is handed: bytes, and no more than an object can hold. *)
Definition buffer (data : list Z) : Prop := is_bytes data /\ fits data.

(** [return false]. *)
Definition reject {A} : parser A := fun _ _ => Reject.

(** [if (!test(size, off)) return false;] *)
Definition check (test : Z -> Z -> bool) : parser unit := fun data off =>
  if test (zlen data) off then Ret (tt, off) else Reject.

(** [data[off++]] *)
Definition next_byte : parser Z := fun data off =>
  match fetch data off with
  | Ret b => Ret (b, off + 1)
  | Reject => Reject
  | Fault => Fault
  | OutOfFuel => OutOfFuel
  end.

(** [s.assign(data + off, n); off += n;] *)
Definition next_bytes (n : Z) : parser (list Z) := fun data off =>
  match fetch_slice data off n with
  | Ret s => Ret (s, off + n)
  | Reject => Reject
  | Fault => Fault
  | OutOfFuel => OutOfFuel
  end.

(** ** Safety: weakest preconditions *)

Definition wp {A} (p : parser A) (Q : A -> Z -> Prop) (data : list Z) (off : Z) : Prop :=
  match p data off with
  | Ret (a, off') => Q a off'
  | Reject => True
  | Fault | OutOfFuel => False
  end.

Section Wp.
Context (data : list Z).

Lemma wp_ret {A} (a : A) (Q : A -> Z -> Prop) off : Q a off -> wp (mret a) Q data off.
Proof. done. Qed.

Lemma wp_bind {A B} (p : parser A) (k : A -> parser B) (Q : B -> Z -> Prop) off :
  wp p (fun a off' => wp (k a) Q data off') data off -> wp (p ≫= k) Q data off.
Proof.
  unfold wp, mbind, parser_bind. by destruct (p data off) as [[a off'] | | |].
Qed.

Lemma wp_mono {A} (p : parser A) (P Q : A -> Z -> Prop) off :
  wp p P data off -> (forall a off', P a off' -> Q a off') -> wp p Q data off.
Proof. unfold wp. destruct (p data off) as [[a off'] | | |]; auto. Qed.

Lemma wp_reject {A} (Q : A -> Z -> Prop) off : wp reject Q data off.
Proof. done. Qed.

Lemma wp_check test (Q : unit -> Z -> Prop) off :
  (test (zlen data) off = true -> Q tt off) -> wp (check test) Q data off.
Proof. unfold wp, check. destruct (test (zlen data) off); auto. Qed.

Lemma wp_if {A} (b : bool) (p q : parser A) Q off :
  (b = true -> wp p Q data off) -> (b = false -> wp q Q data off) ->
  wp (if b then p else q) Q data off.
Proof. destruct b; auto. Qed.

Hypothesis Hbytes : is_bytes data.

Lemma wp_next_byte (Q : Z -> Z -> Prop) off :
  0 <= off < zlen data ->
  (forall b, is_byte b -> Q b (off + 1)) -> wp next_byte Q data off.
Proof.
  intros Hoff HQ. unfold wp, next_byte.
  destruct (fetch_in data off Hoff) as (b & _ & Hb). rewrite Hb.
  apply HQ. by eapply fetch_byte.
Qed.

Lemma wp_next_bytes n (Q : list Z -> Z -> Prop) off :
  0 <= off -> 0 <= n -> off + n <= zlen data ->
  (forall s, is_bytes s -> zlen s = n -> Q s (off + n)) -> wp (next_bytes n) Q data off.
Proof.
  intros H1 H2 H3 HQ. unfold wp, next_bytes, fetch_slice.
  replace ((0 <=? off) && (0 <=? n) && (off + n <=? zlen data))%bool with true by lia.
  apply HQ; [auto with qtng | by apply zlen_slice].
Qed.
End Wp.

(** ** Round trips *)

(** [p] reads back exactly the bytes [bs], wherever they lie in a buffer, and
    yields [a] with the cursor just behind them. *)
Definition reads {A} (p : parser A) (bs : list Z) (a : A) : Prop :=
  forall pre post, buffer (pre ++ bs ++ post) ->
    p (pre ++ bs ++ post) (zlen pre) = Ret (a, zlen pre + zlen bs).

Lemma reads_ret {A} (a : A) : reads (mret a) [] a.
Proof. intros pre post _. rewrite zlen_nil, Z.add_0_r. done. Qed.

Lemma reads_bind {A B} (p : parser A) (k : A -> parser B) bs1 bs2 a b :
  reads p bs1 a -> reads (k a) bs2 b -> reads (p ≫= k) (bs1 ++ bs2) b.
Proof.
  intros H1 H2 pre post Hfit. unfold mbind, parser_bind.
  rewrite <- app_assoc in *. rewrite H1 by done.
  specialize (H2 (pre ++ bs1) post). rewrite <- app_assoc in H2.
  rewrite zlen_app in H2. rewrite H2 by done. do 2 f_equal. zlen_lia.
Qed.

(** The last step of a parser returns without reading. *)
Lemma reads_bind_ret {A B} (p : parser A) (f : A -> B) bs a :
  reads p bs a -> reads (p ≫= fun x => mret (f x)) bs (f a).
Proof.
  intros H. rewrite <- (app_nil_r bs). eapply reads_bind; [done | apply reads_ret].
Qed.

Lemma reads_next_byte b : reads next_byte [b] b.
Proof.
  intros pre post _. unfold next_byte. simpl. by rewrite fetch_app_mid.
Qed.

Lemma reads_next_bytes bs n : n = zlen bs -> reads (next_bytes n) bs bs.
Proof. intros -> pre post _. unfold next_bytes. by rewrite fetch_slice_app_mid. Qed.

(** A test that holds wherever [bs] is still ahead may precede reading [bs]. *)
Lemma reads_check {B} test (k : parser B) bs b :
  (forall size off, 0 <= off -> off + zlen bs <= size -> size < 2 ^ 63 -> test size off = true) ->
  reads k bs b -> reads (check test ≫= fun _ => k) bs b.
Proof.
  intros Ht Hk pre post Hfit. unfold mbind, parser_bind, check.
  rewrite Ht; [by apply Hk | zlen_lia.. | apply Hfit].
Qed.

(** The same at a fixed place [o], for parsers that look at their cursor. *)
Definition reads_from {A} (o : Z) (p : parser A) (bs : list Z) (a : A) : Prop :=
  forall pre post, zlen pre = o -> buffer (pre ++ bs ++ post) ->
    p (pre ++ bs ++ post) o = Ret (a, o + zlen bs).

Lemma reads_reads_from {A} o (p : parser A) bs a : reads p bs a -> reads_from o p bs a.
Proof. intros H pre post <- Hbuf. by apply H. Qed.

Lemma reads_from_bind {A B} o (p : parser A) (k : A -> parser B) bs1 bs2 a b :
  reads_from o p bs1 a -> reads_from (o + zlen bs1) (k a) bs2 b ->
  reads_from o (p ≫= k) (bs1 ++ bs2) b.
Proof.
  intros H1 H2 pre post Ho Hbuf. unfold mbind, parser_bind.
  rewrite <- app_assoc in *. rewrite H1 by done.
  specialize (H2 (pre ++ bs1) post). rewrite <- app_assoc, zlen_app in H2.
  rewrite H2 by (done || lia). rewrite zlen_app. do 2 f_equal. lia.
Qed.

(** Apply a round trip at a concrete place. *)
Lemma reads_at {A} (p : parser A) bs a data off post :
  reads p bs a -> buffer data ->
  0 <= off <= zlen data -> drop (Z.to_nat off) data = bs ++ post ->
  p data off = Ret (a, off + zlen bs).
Proof.
  intros Hp Hfit Hoff Hd.
  assert (Hdata : data = take (Z.to_nat off) data ++ bs ++ post)
    by (rewrite <- Hd; symmetry; apply take_drop).
  assert (Hpre : zlen (take (Z.to_nat off) data) = off) by (apply zlen_take; lia).
  rewrite Hdata in Hfit |- * at 1.
  rewrite <- Hpre at 2 3. by apply Hp.
Qed.

Lemma reads_whole {A} (p : parser A) bs a :
  reads p bs a -> buffer bs -> p bs 0 = Ret (a, zlen bs).
Proof.
  intros Hp Hfit. specialize (Hp [] []). rewrite app_nil_l, app_nil_r, zlen_nil in Hp.
  by apply Hp.
Qed.

Create HintDb codec.
#[export] Hint Resolve reads_ret reads_next_byte reads_next_bytes : codec.

(** One symbolic-execution step of a safety proof. *)
Ltac wp_step :=
  lazymatch goal with
  | |- wp (mbind _ _) _ _ _ => apply wp_bind
  | |- wp (mret _) _ _ _ => apply wp_ret
  | |- wp reject _ _ _ => apply wp_reject
  | |- wp (check _) _ _ _ => apply wp_check; intros ?; bool_to_prop
  | |- wp (if _ then _ else _) _ _ _ => apply wp_if; intros ?; bool_to_prop
  | |- wp next_byte _ _ _ => apply wp_next_byte; [done | lia | intros ? ?]
  | |- wp (next_bytes _) _ _ _ =>
      apply wp_next_bytes; [done | lia | lia | lia | intros ? ? ?]
  end.
