(* ===== verification/QuicVarint.v ===== *)
(** * QUIC variable-length integers ([src/src/quic_varint.cpp]) *)

From S2P Require Import Prelude Codec.

(** [quicVarintSize] *)
Definition quicVarintSize (value : Z) : Z :=
  if value <=? 63 then 1
  else if value <=? 16383 then 2
  else if value <=? 1073741823 then 4
  else 8.

(** [static_cast<char>(value >> k & 0xff)] *)
Definition octet (value k : Z) : Z := Z.land (Z.shiftr value k) 255.

(** [quicEncodeVarint]: the flag that is returned and the new contents of [out]. *)
Definition quicEncodeVarint (value : Z) (out : list Z) : bool * list Z :=
  if value <=? 63 then (true, out ++ [u8 value])
  else if value <=? 16383 then
    (true, out ++ [Z.lor 64 (Z.land (Z.shiftr value 8) 63); octet value 0])
  else if value <=? 1073741823 then
    (true, out ++ [Z.lor 128 (Z.land (Z.shiftr value 24) 63);
                   octet value 16; octet value 8; octet value 0])
  else if value >? 4611686018427387903 then (false, out)
  else
    (true, out ++ [Z.lor 192 (Z.land (Z.shiftr value 56) 63);
                   octet value 48; octet value 40; octet value 32;
                   octet value 24; octet value 16; octet value 8; octet value 0]).

(** The loop [for (i = 1; i < len; ++i) v = (v << 8) | data[i]], [n] rounds from [i]. *)
Fixpoint varintLoop (data : list Z) (n : nat) (i v : Z) : result Z :=
  match n with
  | O => Ret v
  | S n' =>
      b ← fetch data i;
      varintLoop data n' (i + 1) (u64 (Z.lor (u64 (Z.shiftl v 8)) b))
  end.

(** [quicDecodeVarint]: the bytes consumed and the value. *)
Definition quicDecodeVarint (data : list Z) : result (Z * Z) :=
  if zlen data =? 0 then Reject else
  b0 ← fetch data 0;
  let prefix := Z.shiftr b0 6 in
  let len := Z.shiftl 1 prefix in
  if zlen data <? len then Reject else
  v ← varintLoop data (Z.to_nat (len - 1)) 1 (Z.land b0 63);
  Ret (len, v).

(** The idiom of every caller: [quicDecodeVarint(data + off, size - off, &c, &x)],
    [return false] on failure, [off += c]. *)
Definition readVarint : parser Z := fun data off =>
  match quicDecodeVarint (drop (Z.to_nat off) data) with
  | Ret (c, v) => Ret (v, off + c)
  | Reject => Reject
  | Fault => Fault
  | OutOfFuel => OutOfFuel
  end.

(** ** What the two functions compute *)

(** The wire form, as a big-endian number with the length in its two top bits. *)
Definition varint_bytes (v : Z) : list Z :=
  if v <=? 63 then be_encode 1 v
  else if v <=? 16383 then be_encode 2 (2 ^ 14 + v)
  else if v <=? 1073741823 then be_encode 4 (2 ^ 31 + v)
  else be_encode 8 (2 ^ 63 + 2 ^ 62 + v).

Lemma octet_mod v k : 0 <= k -> octet v k = (v / 2 ^ k) mod 256.
Proof. intros. unfold octet. by rewrite land_255, shiftr_div. Qed.

(** The byte [0xc0 | (v >> k & 0x3f)] carries the length [p] and the top six bits. *)
Lemma prefix_byte p x : 0 <= p -> Z.lor (p * 64) (Z.land x 63) = p * 64 + x mod 64.
Proof.
  intros. rewrite land_63. change 64 with (2 ^ 6). rewrite lor_high; [done | lia |].
  dm_lia.
Qed.

Lemma quicEncodeVarint_bytes v out :
  0 <= v < 2 ^ 62 -> quicEncodeVarint v out = (true, out ++ varint_bytes v).
Proof.
  intros Hv. unfold quicEncodeVarint, varint_bytes.
  change 64 with (1 * 64) at 1. change 128 with (2 * 64) at 1. change 192 with (3 * 64) at 1.
  rewrite !prefix_byte, !octet_mod, !shiftr_div by lia.
  repeat case_test; try lia; do 3 f_equal; simpl; pow2_const;
    rewrite ?Z.div_1_r; repeat (f_equal; try dm_lia).
  all: unfold wrapu; simpl; dm_lia.
Qed.

Lemma quicEncodeVarint_reject v out : 2 ^ 62 <= v -> quicEncodeVarint v out = (false, out).
Proof. intros. unfold quicEncodeVarint. repeat case_test; done || lia. Qed.

Lemma varintLoop_spec data n i v :
  is_bytes data -> 0 <= i -> i + Z.of_nat n <= zlen data ->
  0 <= v -> v * 256 ^ Z.of_nat n + 256 ^ Z.of_nat n <= 2 ^ 64 ->
  varintLoop data n i v = Ret (v * 256 ^ Z.of_nat n + be_decode (slice data i (Z.of_nat n))).
Proof.
  intros Hb. revert i v. induction n as [| n IH]; intros i v Hi Hlen Hv Hmax.
  - simpl. f_equal. unfold slice. rewrite take_0. unfold be_decode. simpl. lia.
  - simpl varintLoop. destruct (fetch_in data i) as (b & Hlk & Hf); [lia |].
    rewrite Hf. simpl. assert (is_byte b) by (by eapply fetch_byte).
    rewrite Nat2Z.inj_succ, Z.pow_succ_r in * by lia. pose proof (pow256_pos n).
    assert (Hs : slice data i (Z.succ (Z.of_nat n)) = b :: slice data (i + 1) (Z.of_nat n)).
    { unfold slice. replace (Z.to_nat (Z.succ (Z.of_nat n))) with (S n) by lia.
      rewrite (drop_S _ b _ Hlk). replace (Z.to_nat (i + 1)) with (S (Z.to_nat i)) by lia.
      by rewrite Nat2Z.id. }
    assert (Hv' : u64 (Z.lor (u64 (Z.shiftl v 8)) b) = v * 256 + b).
    { unfold is_byte, wrapu in *. rewrite (Z.mod_small (Z.shiftl v 8)).
      - rewrite lor_shiftl_8 by done. apply Z.mod_small. nia.
      - rewrite shiftl_mul by lia. change (2 ^ 8) with 256. nia. }
    rewrite Hv', IH by (unfold is_byte in *; nia || lia).
    rewrite Hs, be_decode_cons, zlen_slice by lia. f_equal. lia.
Qed.

Lemma shiftl_1_prefix b : is_byte b ->
  Z.shiftl 1 (Z.shiftr b 6) = 2 ^ (b / 64) /\ 0 <= b / 64 <= 3.
Proof.
  unfold is_byte. intros Hb. rewrite shiftr_div by lia. change (2 ^ 6) with 64.
  assert (0 <= b / 64 <= 3) by dm_lia. by rewrite Z.shiftl_1_l.
Qed.

(** The whole decoder on a non-empty buffer that starts with [b0]. *)
Lemma quicDecodeVarint_spec b0 rest :
  is_bytes (b0 :: rest) ->
  let len := 2 ^ (b0 / 64) in
  quicDecodeVarint (b0 :: rest) =
    if 1 + zlen rest <? len then Reject
    else Ret (len, (b0 mod 64) * 256 ^ (len - 1) + be_decode (slice rest 0 (len - 1))).
Proof.
  intros Hb len. assert (Hb0 : is_byte b0) by (by inversion Hb).
  destruct (shiftl_1_prefix b0 Hb0) as [Hlen Hp]. fold len in Hlen.
  assert (Hlen8 : 1 <= len <= 8)
    by (unfold len; split; [apply (Z.pow_le_mono_r 2 0) | apply (Z.pow_le_mono_r 2 _ 3)]; lia).
  unfold quicDecodeVarint. rewrite zlen_cons. test_false.
  simpl. rewrite Hlen. case_test; [done |].
  rewrite land_63, varintLoop_spec; rewrite ?zlen_cons; try zlen_lia; [| done | dm_lia |].
  - simpl. rewrite Z2Nat.id by lia. done.
  - rewrite Z2Nat.id by lia.
    assert (256 ^ (len - 1) <= 256 ^ 7) by (apply Z.pow_le_mono_r; lia).
    assert (0 <= b0 mod 64 < 64) by dm_lia. nia.
Qed.

(** ** Safety and round trip of the reader *)

Lemma quicDecodeVarint_value data c v :
  is_bytes data -> quicDecodeVarint data = Ret (c, v) ->
  1 <= c <= zlen data /\ c <= 8 /\ 0 <= v < 2 ^ 62.
Proof.
  intros Hb. destruct data as [| b0 rest]; [done |].
  rewrite quicDecodeVarint_spec by done. case_test; [done |]. intros [= <- <-].
  assert (Hb0 : is_byte b0) by (by inversion Hb).
  destruct (shiftl_1_prefix b0 Hb0) as [_ Hp].
  set (len := 2 ^ (b0 / 64)) in *.
  assert (Hlen8 : 1 <= len <= 8)
    by (unfold len; split; [apply (Z.pow_le_mono_r 2 0) | apply (Z.pow_le_mono_r 2 _ 3)]; lia).
  rewrite zlen_cons. split; [lia | split; [lia |]].
  assert (Hd : 0 <= be_decode (slice rest 0 (len - 1)) < 256 ^ (len - 1)).
  { rewrite <- (zlen_slice rest 0 (len - 1)) at 3 by lia. apply be_decode_bound.
    inversion Hb; subst. auto with qtng. }
  assert (256 ^ (len - 1) <= 256 ^ 7) by (apply Z.pow_le_mono_r; lia).
  assert (0 <= b0 mod 64 < 64) by dm_lia. nia.
Qed.

(** Safety of [readVarint]: no fault, the cursor advances by 1 to 8 and stays in
    the buffer, and the value is below [2 ^ 62]. *)
Lemma wp_readVarint data off (Q : Z -> Z -> Prop) :
  is_bytes data -> 0 <= off <= zlen data ->
  (forall v off', 0 <= v < 2 ^ 62 -> off < off' <= zlen data -> Q v off') ->
  wp readVarint Q data off.
Proof.
  intros Hb Hoff HQ. unfold wp, readVarint.
  set (d := drop (Z.to_nat off) data).
  assert (Hd : is_bytes d) by (unfold d; auto with qtng).
  assert (Hl : zlen d = zlen data - off) by (apply zlen_drop; lia).
  destruct (quicDecodeVarint d) as [[c v] | | |] eqn:E; [| done | |].
  - apply quicDecodeVarint_value in E; [|done]. apply HQ; lia.
  - destruct d as [| b0 rest]; [done |]. rewrite quicDecodeVarint_spec in E by done.
    by destruct (_ <? _).
  - destruct d as [| b0 rest]; [done |]. rewrite quicDecodeVarint_spec in E by done.
    by destruct (_ <? _).
Qed.

Lemma varint_bytes_bytes v : is_bytes (varint_bytes v).
Proof. unfold varint_bytes. repeat case_test; apply be_encode_bytes. Qed.

Lemma zlen_varint_bytes v : zlen (varint_bytes v) = quicVarintSize v.
Proof. unfold varint_bytes, quicVarintSize. repeat case_test; by rewrite zlen_be_encode. Qed.

(** A tagged big-endian number decodes to its value, whatever follows. *)
Lemma decode_tagged n p v post :
  0 <= p <= 3 -> Z.of_nat n = 2 ^ p - 1 -> 0 <= v < 64 * 256 ^ Z.of_nat n ->
  is_bytes post ->
  quicDecodeVarint (be_encode (S n) (p * 64 * 256 ^ Z.of_nat n + v) ++ post)
    = Ret (Z.of_nat (S n), v).
Proof.
  intros Hp Hn Hv Hpost. pose proof (pow256_pos n) as Hpow. simpl be_encode.
  rewrite pow2_8, be_encode_high by done.
  set (b0 := ((p * 64 * 256 ^ Z.of_nat n + v) / 256 ^ Z.of_nat n) mod 256).
  assert (Hq : 0 <= v / 256 ^ Z.of_nat n < 64).
  { split; [apply Z.div_pos; lia | apply Z.div_lt_upper_bound; lia]. }
  assert (Hb0 : b0 = p * 64 + v / 256 ^ Z.of_nat n).
  { unfold b0. rewrite Z.div_add_l by lia. apply Z.mod_small. lia. }
  assert (Hb : is_bytes (b0 :: be_encode n v ++ post))
    by (apply is_bytes_cons; [apply is_byte_mod | auto with qtng]).
  change ((b0 :: be_encode n v) ++ post) with (b0 :: be_encode n v ++ post).
  rewrite quicDecodeVarint_spec by done.
  replace (b0 / 64) with p by (rewrite Hb0; dm_lia). rewrite <- Hn.
  replace (b0 mod 64) with (v / 256 ^ Z.of_nat n) by (rewrite Hb0; dm_lia).
  rewrite zlen_app, zlen_be_encode. test_false.
  replace (2 ^ p) with (Z.of_nat (S n)) by lia.
  do 2 f_equal. unfold slice. rewrite drop_0.
  rewrite Nat2Z.id, take_app_length' by (by rewrite length_be_encode).
  rewrite be_encode_decode by lia. pose proof (Z.div_mod v (256 ^ Z.of_nat n)). lia.
Qed.

Lemma decode_varint_bytes v post :
  0 <= v < 2 ^ 62 -> is_bytes post ->
  quicDecodeVarint (varint_bytes v ++ post) = Ret (quicVarintSize v, v).
Proof.
  intros Hv Hpost. unfold varint_bytes, quicVarintSize. repeat case_test.
  - apply (decode_tagged 0 0); simpl; lia || done.
  - apply (decode_tagged 1 1); simpl; lia || done.
  - apply (decode_tagged 3 2); simpl; lia || done.
  - apply (decode_tagged 7 3); simpl; lia || done.
Qed.

Lemma reads_varint v : 0 <= v < 2 ^ 62 -> reads readVarint (varint_bytes v) v.
Proof.
  intros Hv pre post [Hb _]. unfold readVarint. rewrite drop_zlen_app.
  rewrite !is_bytes_app in Hb. rewrite decode_varint_bytes by tauto.
  by rewrite zlen_varint_bytes.
Qed.
#[export] Hint Resolve reads_varint : codec.
