(* ===== verification/QuicFrame.v ===== *)
(** * QUIC frames ([src/src/quic_frame.cpp])

    [quicEncodeFrame] and [quicDecodeFrames].  The decoder is a loop over the
    payload of a packet; each branch of its body is one definition here. *)

From S2P Require Import Prelude Codec QuicVarint.

(** ** Frame data ([struct QuicFrame] of [src/include/qtng/private/quic_p.h])

    The frame is one struct whose members are shared by all frame types; the
    decoder starts from default members and assigns those of the type it reads. *)

Inductive Type_ : Type :=
| Padding | Ping | Ack | AckEcn | ResetStream | StopSending | Crypto | NewToken | Stream
| MaxData | MaxStreamData | MaxStreamsBidi | MaxStreamsUni | DataBlocked | StreamDataBlocked
| StreamsBlockedBidi | StreamsBlockedUni | NewConnectionId | RetireConnectionId
| PathChallenge | PathResponse | ConnectionClose | ConnectionCloseApp | HandshakeDone
| Unknown.

Record QuicAckRange : Type := mkRange { gap : Z; ackRangeLength : Z }.

(** A [QuicConnectionId] is the byte string it wraps. *)
Record QuicFrame : Type := mkFrame {
  type : Type_;
  rawType : Z;
  largestAcknowledged : Z;
  ackDelay : Z;
  firstAckRange : Z;
  ackRanges : list QuicAckRange;
  offset : Z;
  data : list Z;
  streamId : Z;
  fin : bool;
  hasLength : bool;
  applicationErrorCode : Z;
  finalSize : Z;
  maxData : Z;
  errorCode : Z;
  frameType : Z;
  reasonPhrase : list Z;
  pathData : list Z;
  sequenceNumber : Z;
  retirePriorTo : Z;
  connectionId : list Z;
  statelessResetToken : list Z
}.

(** The default member initialisers. *)
Definition frame0 : QuicFrame :=
  mkFrame Unknown 0 0 0 0 [] 0 [] 0 false false 0 0 0 0 0 [] [] 0 0 [] [].

(** Assignments to one member. *)
Definition set_type (v : Type_) (f : QuicFrame) : QuicFrame :=
  mkFrame v f.(rawType) f.(largestAcknowledged) f.(ackDelay) f.(firstAckRange)
    f.(ackRanges) f.(offset) f.(data) f.(streamId) f.(fin) f.(hasLength)
    f.(applicationErrorCode) f.(finalSize) f.(maxData) f.(errorCode) f.(frameType)
    f.(reasonPhrase) f.(pathData) f.(sequenceNumber) f.(retirePriorTo)
    f.(connectionId) f.(statelessResetToken).
Definition set_rawType (v : Z) (f : QuicFrame) : QuicFrame :=
  mkFrame f.(type) v f.(largestAcknowledged) f.(ackDelay) f.(firstAckRange)
    f.(ackRanges) f.(offset) f.(data) f.(streamId) f.(fin) f.(hasLength)
    f.(applicationErrorCode) f.(finalSize) f.(maxData) f.(errorCode) f.(frameType)
    f.(reasonPhrase) f.(pathData) f.(sequenceNumber) f.(retirePriorTo)
    f.(connectionId) f.(statelessResetToken).
Definition set_largestAcknowledged (v : Z) (f : QuicFrame) : QuicFrame :=
  mkFrame f.(type) f.(rawType) v f.(ackDelay) f.(firstAckRange) f.(ackRanges)
    f.(offset) f.(data) f.(streamId) f.(fin) f.(hasLength) f.(applicationErrorCode)
    f.(finalSize) f.(maxData) f.(errorCode) f.(frameType) f.(reasonPhrase)
    f.(pathData) f.(sequenceNumber) f.(retirePriorTo) f.(connectionId)
    f.(statelessResetToken).
Definition set_ackDelay (v : Z) (f : QuicFrame) : QuicFrame :=
  mkFrame f.(type) f.(rawType) f.(largestAcknowledged) v f.(firstAckRange)
    f.(ackRanges) f.(offset) f.(data) f.(streamId) f.(fin) f.(hasLength)
    f.(applicationErrorCode) f.(finalSize) f.(maxData) f.(errorCode) f.(frameType)
    f.(reasonPhrase) f.(pathData) f.(sequenceNumber) f.(retirePriorTo)
    f.(connectionId) f.(statelessResetToken).
Definition set_firstAckRange (v : Z) (f : QuicFrame) : QuicFrame :=
  mkFrame f.(type) f.(rawType) f.(largestAcknowledged) f.(ackDelay) v f.(ackRanges)
    f.(offset) f.(data) f.(streamId) f.(fin) f.(hasLength) f.(applicationErrorCode)
    f.(finalSize) f.(maxData) f.(errorCode) f.(frameType) f.(reasonPhrase)
    f.(pathData) f.(sequenceNumber) f.(retirePriorTo) f.(connectionId)
    f.(statelessResetToken).
Definition set_ackRanges (v : list QuicAckRange) (f : QuicFrame) : QuicFrame :=
  mkFrame f.(type) f.(rawType) f.(largestAcknowledged) f.(ackDelay) f.(firstAckRange)
    v f.(offset) f.(data) f.(streamId) f.(fin) f.(hasLength) f.(applicationErrorCode)
    f.(finalSize) f.(maxData) f.(errorCode) f.(frameType) f.(reasonPhrase)
    f.(pathData) f.(sequenceNumber) f.(retirePriorTo) f.(connectionId)
    f.(statelessResetToken).
Definition set_offset (v : Z) (f : QuicFrame) : QuicFrame :=
  mkFrame f.(type) f.(rawType) f.(largestAcknowledged) f.(ackDelay) f.(firstAckRange)
    f.(ackRanges) v f.(data) f.(streamId) f.(fin) f.(hasLength)
    f.(applicationErrorCode) f.(finalSize) f.(maxData) f.(errorCode) f.(frameType)
    f.(reasonPhrase) f.(pathData) f.(sequenceNumber) f.(retirePriorTo)
    f.(connectionId) f.(statelessResetToken).
Definition set_data (v : list Z) (f : QuicFrame) : QuicFrame :=
  mkFrame f.(type) f.(rawType) f.(largestAcknowledged) f.(ackDelay) f.(firstAckRange)
    f.(ackRanges) f.(offset) v f.(streamId) f.(fin) f.(hasLength)
    f.(applicationErrorCode) f.(finalSize) f.(maxData) f.(errorCode) f.(frameType)
    f.(reasonPhrase) f.(pathData) f.(sequenceNumber) f.(retirePriorTo)
    f.(connectionId) f.(statelessResetToken).
Definition set_streamId (v : Z) (f : QuicFrame) : QuicFrame :=
  mkFrame f.(type) f.(rawType) f.(largestAcknowledged) f.(ackDelay) f.(firstAckRange)
    f.(ackRanges) f.(offset) f.(data) v f.(fin) f.(hasLength) f.(applicationErrorCode)
    f.(finalSize) f.(maxData) f.(errorCode) f.(frameType) f.(reasonPhrase)
    f.(pathData) f.(sequenceNumber) f.(retirePriorTo) f.(connectionId)
    f.(statelessResetToken).
Definition set_fin (v : bool) (f : QuicFrame) : QuicFrame :=
  mkFrame f.(type) f.(rawType) f.(largestAcknowledged) f.(ackDelay) f.(firstAckRange)
    f.(ackRanges) f.(offset) f.(data) f.(streamId) v f.(hasLength)
    f.(applicationErrorCode) f.(finalSize) f.(maxData) f.(errorCode) f.(frameType)
    f.(reasonPhrase) f.(pathData) f.(sequenceNumber) f.(retirePriorTo)
    f.(connectionId) f.(statelessResetToken).
Definition set_hasLength (v : bool) (f : QuicFrame) : QuicFrame :=
  mkFrame f.(type) f.(rawType) f.(largestAcknowledged) f.(ackDelay) f.(firstAckRange)
    f.(ackRanges) f.(offset) f.(data) f.(streamId) f.(fin) v f.(applicationErrorCode)
    f.(finalSize) f.(maxData) f.(errorCode) f.(frameType) f.(reasonPhrase)
    f.(pathData) f.(sequenceNumber) f.(retirePriorTo) f.(connectionId)
    f.(statelessResetToken).
Definition set_applicationErrorCode (v : Z) (f : QuicFrame) : QuicFrame :=
  mkFrame f.(type) f.(rawType) f.(largestAcknowledged) f.(ackDelay) f.(firstAckRange)
    f.(ackRanges) f.(offset) f.(data) f.(streamId) f.(fin) f.(hasLength) v
    f.(finalSize) f.(maxData) f.(errorCode) f.(frameType) f.(reasonPhrase)
    f.(pathData) f.(sequenceNumber) f.(retirePriorTo) f.(connectionId)
    f.(statelessResetToken).
Definition set_finalSize (v : Z) (f : QuicFrame) : QuicFrame :=
  mkFrame f.(type) f.(rawType) f.(largestAcknowledged) f.(ackDelay) f.(firstAckRange)
    f.(ackRanges) f.(offset) f.(data) f.(streamId) f.(fin) f.(hasLength)
    f.(applicationErrorCode) v f.(maxData) f.(errorCode) f.(frameType)
    f.(reasonPhrase) f.(pathData) f.(sequenceNumber) f.(retirePriorTo)
    f.(connectionId) f.(statelessResetToken).
Definition set_maxData (v : Z) (f : QuicFrame) : QuicFrame :=
  mkFrame f.(type) f.(rawType) f.(largestAcknowledged) f.(ackDelay) f.(firstAckRange)
    f.(ackRanges) f.(offset) f.(data) f.(streamId) f.(fin) f.(hasLength)
    f.(applicationErrorCode) f.(finalSize) v f.(errorCode) f.(frameType)
    f.(reasonPhrase) f.(pathData) f.(sequenceNumber) f.(retirePriorTo)
    f.(connectionId) f.(statelessResetToken).
Definition set_errorCode (v : Z) (f : QuicFrame) : QuicFrame :=
  mkFrame f.(type) f.(rawType) f.(largestAcknowledged) f.(ackDelay) f.(firstAckRange)
    f.(ackRanges) f.(offset) f.(data) f.(streamId) f.(fin) f.(hasLength)
    f.(applicationErrorCode) f.(finalSize) f.(maxData) v f.(frameType)
    f.(reasonPhrase) f.(pathData) f.(sequenceNumber) f.(retirePriorTo)
    f.(connectionId) f.(statelessResetToken).
Definition set_frameType (v : Z) (f : QuicFrame) : QuicFrame :=
  mkFrame f.(type) f.(rawType) f.(largestAcknowledged) f.(ackDelay) f.(firstAckRange)
    f.(ackRanges) f.(offset) f.(data) f.(streamId) f.(fin) f.(hasLength)
    f.(applicationErrorCode) f.(finalSize) f.(maxData) f.(errorCode) v
    f.(reasonPhrase) f.(pathData) f.(sequenceNumber) f.(retirePriorTo)
    f.(connectionId) f.(statelessResetToken).
Definition set_reasonPhrase (v : list Z) (f : QuicFrame) : QuicFrame :=
  mkFrame f.(type) f.(rawType) f.(largestAcknowledged) f.(ackDelay) f.(firstAckRange)
    f.(ackRanges) f.(offset) f.(data) f.(streamId) f.(fin) f.(hasLength)
    f.(applicationErrorCode) f.(finalSize) f.(maxData) f.(errorCode) f.(frameType) v
    f.(pathData) f.(sequenceNumber) f.(retirePriorTo) f.(connectionId)
    f.(statelessResetToken).
Definition set_pathData (v : list Z) (f : QuicFrame) : QuicFrame :=
  mkFrame f.(type) f.(rawType) f.(largestAcknowledged) f.(ackDelay) f.(firstAckRange)
    f.(ackRanges) f.(offset) f.(data) f.(streamId) f.(fin) f.(hasLength)
    f.(applicationErrorCode) f.(finalSize) f.(maxData) f.(errorCode) f.(frameType)
    f.(reasonPhrase) v f.(sequenceNumber) f.(retirePriorTo) f.(connectionId)
    f.(statelessResetToken).
Definition set_sequenceNumber (v : Z) (f : QuicFrame) : QuicFrame :=
  mkFrame f.(type) f.(rawType) f.(largestAcknowledged) f.(ackDelay) f.(firstAckRange)
    f.(ackRanges) f.(offset) f.(data) f.(streamId) f.(fin) f.(hasLength)
    f.(applicationErrorCode) f.(finalSize) f.(maxData) f.(errorCode) f.(frameType)
    f.(reasonPhrase) f.(pathData) v f.(retirePriorTo) f.(connectionId)
    f.(statelessResetToken).
Definition set_retirePriorTo (v : Z) (f : QuicFrame) : QuicFrame :=
  mkFrame f.(type) f.(rawType) f.(largestAcknowledged) f.(ackDelay) f.(firstAckRange)
    f.(ackRanges) f.(offset) f.(data) f.(streamId) f.(fin) f.(hasLength)
    f.(applicationErrorCode) f.(finalSize) f.(maxData) f.(errorCode) f.(frameType)
    f.(reasonPhrase) f.(pathData) f.(sequenceNumber) v f.(connectionId)
    f.(statelessResetToken).
Definition set_connectionId (v : list Z) (f : QuicFrame) : QuicFrame :=
  mkFrame f.(type) f.(rawType) f.(largestAcknowledged) f.(ackDelay) f.(firstAckRange)
    f.(ackRanges) f.(offset) f.(data) f.(streamId) f.(fin) f.(hasLength)
    f.(applicationErrorCode) f.(finalSize) f.(maxData) f.(errorCode) f.(frameType)
    f.(reasonPhrase) f.(pathData) f.(sequenceNumber) f.(retirePriorTo) v
    f.(statelessResetToken).
Definition set_statelessResetToken (v : list Z) (f : QuicFrame) : QuicFrame :=
  mkFrame f.(type) f.(rawType) f.(largestAcknowledged) f.(ackDelay) f.(firstAckRange)
    f.(ackRanges) f.(offset) f.(data) f.(streamId) f.(fin) f.(hasLength)
    f.(applicationErrorCode) f.(finalSize) f.(maxData) f.(errorCode) f.(frameType)
    f.(reasonPhrase) f.(pathData) f.(sequenceNumber) f.(retirePriorTo)
    f.(connectionId) v.

(** ** Encoder *)

(** [a && b] on calls that append to [out]: [b] runs only if [a] succeeded. *)
Definition andThen (r : bool * list Z) (k : list Z -> bool * list Z) : bool * list Z :=
  if r.1 then k r.2 else r.

Notation "r >>> k" := (andThen r k) (at level 61, left associativity).

Definition append (s out : list Z) : bool * list Z := (true, out ++ s).

(** The loop over [frame.ackRanges]. *)
Fixpoint encodeAckRanges (rs : list QuicAckRange) (out : list Z) : bool * list Z :=
  match rs with
  | [] => (true, out)
  | r :: rs' =>
      quicEncodeVarint r.(gap) out >>> quicEncodeVarint r.(ackRangeLength)
        >>> encodeAckRanges rs'
  end.

(** The first byte of a STREAM frame: LEN always, OFF and FIN as needed. *)
Definition streamType (frame : QuicFrame) : Z :=
  let t := Z.lor 8 2 in
  let t := if negb (frame.(offset) =? 0) then Z.lor t 4 else t in
  if frame.(fin) then Z.lor t 1 else t.

Definition encodeStream (frame : QuicFrame) (out : list Z) : bool * list Z :=
  let t := streamType frame in
  append [u8 t] out
    >>> quicEncodeVarint frame.(streamId)
    >>> (fun out => if negb (Z.land t 4 =? 0) then quicEncodeVarint frame.(offset) out
                    else (true, out))
    >>> (fun out => if negb (Z.land t 2 =? 0) then quicEncodeVarint (zlen frame.(data)) out
                    else (true, out))
    >>> append frame.(data).

Definition encodeNewConnectionId (frame : QuicFrame) (out : list Z) : bool * list Z :=
  append [24] out
    >>> quicEncodeVarint frame.(sequenceNumber)
    >>> quicEncodeVarint frame.(retirePriorTo)
    >>> (fun out =>
           if (zlen frame.(connectionId) =? 0) || (zlen frame.(connectionId) >? 20)
              || negb (zlen frame.(statelessResetToken) =? 16)
           then (false, out)
           else (true, out ++ [u8 (zlen frame.(connectionId))]
                           ++ frame.(connectionId) ++ frame.(statelessResetToken))).

Definition quicEncodeFrame (frame : QuicFrame) (out : list Z) : bool * list Z :=
  match frame.(type) with
  | Padding => append [0] out
  | Ping => append [1] out
  | Ack =>
      append [2] out
        >>> quicEncodeVarint frame.(largestAcknowledged)
        >>> quicEncodeVarint frame.(ackDelay)
        >>> quicEncodeVarint (zlen frame.(ackRanges))
        >>> quicEncodeVarint frame.(firstAckRange)
        >>> encodeAckRanges frame.(ackRanges)
  | Crypto =>
      append [6] out
        >>> quicEncodeVarint frame.(offset)
        >>> quicEncodeVarint (zlen frame.(data))
        >>> append frame.(data)
  | Stream => encodeStream frame out
  | ResetStream =>
      append [4] out
        >>> quicEncodeVarint frame.(streamId)
        >>> quicEncodeVarint frame.(applicationErrorCode)
        >>> quicEncodeVarint frame.(finalSize)
  | StopSending =>
      append [5] out
        >>> quicEncodeVarint frame.(streamId)
        >>> quicEncodeVarint frame.(applicationErrorCode)
  | MaxData => append [16] out >>> quicEncodeVarint frame.(maxData)
  | MaxStreamData =>
      append [17] out
        >>> quicEncodeVarint frame.(streamId)
        >>> quicEncodeVarint frame.(maxData)
  | PathChallenge | PathResponse =>
      append [match frame.(type) with PathChallenge => 26 | _ => 27 end] out
        >>> (fun out => if negb (zlen frame.(pathData) =? 8) then (false, out)
                        else append frame.(pathData) out)
  | ConnectionClose =>
      append [28] out
        >>> quicEncodeVarint frame.(errorCode)
        >>> quicEncodeVarint frame.(frameType)
        >>> quicEncodeVarint (zlen frame.(reasonPhrase))
        >>> append frame.(reasonPhrase)
  | HandshakeDone => append [30] out
  | NewConnectionId => encodeNewConnectionId frame out
  | RetireConnectionId => append [25] out >>> quicEncodeVarint frame.(sequenceNumber)
  | _ => (false, out)
  end.

(** ** Decoder *)

(** [if (off + len > size) return false; s.assign(data + off, len); off += len;]
    The sum is computed on 64 bits. *)
Definition readBlock (len : Z) : parser (list Z) :=
  _ ← check (fun size off => negb (u64 (off + len) >? size));
  next_bytes len.

(** [while (off < size && data[off] == 0x00) ++off;] *)
Fixpoint skipPadding (fuel : nat) (data : list Z) (off : Z) : result (unit * Z) :=
  match fuel with
  | O => OutOfFuel
  | S fuel' =>
      if off <? zlen data then
        b ← fetch data off;
        if b =? 0 then skipPadding fuel' data (off + 1) else Ret (tt, off)
      else Ret (tt, off)
  end.

Definition decodePadding (f : QuicFrame) : parser QuicFrame := fun data off =>
  (_ ← (fun d o => skipPadding (S (length d)) d o : result (unit * Z)) : parser unit;
   mret (set_type Padding f)) data off.

(** [for (i = 0; i < ackRangeCount; ++i)] *)
Fixpoint ackRangeLoop (fuel : nat) (i ackRangeCount : Z) (acc : list QuicAckRange) :
    parser (list QuicAckRange) :=
  match fuel with
  | O => fun _ _ => OutOfFuel
  | S fuel' =>
      if i <? ackRangeCount then
        g ← readVarint;
        l ← readVarint;
        ackRangeLoop fuel' (u64 (i + 1)) ackRangeCount (acc ++ [mkRange g l])
      else mret acc
  end.

Definition readAckRanges (ackRangeCount : Z) : parser (list QuicAckRange) := fun data off =>
  ackRangeLoop (S (length data)) 0 ackRangeCount [] data off.

(** Types 0x02 and 0x03; the three ECN counts are skipped. *)
Definition decodeAck (t : Z) (f : QuicFrame) : parser QuicFrame :=
  let f := set_type (if t =? 2 then Ack else AckEcn) f in
  la ← readVarint;
  ad ← readVarint;
  ackRangeCount ← readVarint;
  fr ← readVarint;
  rs ← readAckRanges ackRangeCount;
  _ ← (if t =? 3 then (_ ← readVarint; _ ← readVarint; _ ← readVarint; mret tt) else mret tt);
  mret (set_ackRanges rs (set_firstAckRange fr (set_ackDelay ad (set_largestAcknowledged la f)))).

Definition decodeCrypto (f : QuicFrame) : parser QuicFrame :=
  o ← readVarint;
  len ← readVarint;
  d ← readBlock len;
  mret (set_data d (set_offset o (set_type Crypto f))).

Definition decodeNewToken (f : QuicFrame) : parser QuicFrame :=
  len ← readVarint;
  d ← readBlock len;
  mret (set_data d (set_type NewToken f)).

(** [f.data.assign(data + off, size - off); off = size;] *)
Definition restBytes : parser (list Z) := fun data off => next_bytes (zlen data - off) data off.

Definition decodeStream (t : Z) (f : QuicFrame) : parser QuicFrame :=
  let hasLen := negb (Z.land t 2 =? 0) in
  let hasOff := negb (Z.land t 4 =? 0) in
  let f := set_hasLength hasLen (set_fin (negb (Z.land t 1 =? 0)) (set_type Stream f)) in
  sid ← readVarint;
  let f := set_streamId sid f in
  f ← (if hasOff then (o ← readVarint; mret (set_offset o f)) else mret f);
  d ← (if hasLen then (len ← readVarint; readBlock len) else restBytes);
  mret (set_data d f).

Definition decodeResetStream (f : QuicFrame) : parser QuicFrame :=
  sid ← readVarint;
  e ← readVarint;
  fs ← readVarint;
  mret (set_finalSize fs (set_applicationErrorCode e (set_streamId sid (set_type ResetStream f)))).

Definition decodeStopSending (f : QuicFrame) : parser QuicFrame :=
  sid ← readVarint;
  e ← readVarint;
  mret (set_applicationErrorCode e (set_streamId sid (set_type StopSending f))).

(** The types whose only member is [maxData]. *)
Definition decodeLimit (ty : Type_) (f : QuicFrame) : parser QuicFrame :=
  m ← readVarint;
  mret (set_maxData m (set_type ty f)).

(** The types with a stream id and [maxData]. *)
Definition decodeStreamLimit (ty : Type_) (f : QuicFrame) : parser QuicFrame :=
  sid ← readVarint;
  m ← readVarint;
  mret (set_maxData m (set_streamId sid (set_type ty f))).

Definition decodePath (t : Z) (f : QuicFrame) : parser QuicFrame :=
  d ← readBlock 8;
  mret (set_pathData d (set_type (if t =? 26 then PathChallenge else PathResponse) f)).

Definition decodeConnectionClose (t : Z) (f : QuicFrame) : parser QuicFrame :=
  let f := set_type (if t =? 28 then ConnectionClose else ConnectionCloseApp) f in
  e ← readVarint;
  let f := set_errorCode e f in
  f ← (if t =? 28 then (ft ← readVarint; mret (set_frameType ft f)) else mret f);
  reasonLen ← readVarint;
  r ← readBlock reasonLen;
  mret (set_reasonPhrase r f).

Definition decodeNewConnectionId (f : QuicFrame) : parser QuicFrame :=
  sn ← readVarint;
  rp ← readVarint;
  _ ← check (fun size off => negb (off >=? size));
  cidLen ← next_byte;
  _ ← check (fun size off =>
        negb ((cidLen =? 0) || (cidLen >? 20) || (u64 (off + cidLen + 16) >? size)));
  cid ← next_bytes cidLen;
  tok ← next_bytes 16;
  mret (set_statelessResetToken tok (set_connectionId cid
         (set_retirePriorTo rp (set_sequenceNumber sn (set_type NewConnectionId f))))).

Definition decodeRetireConnectionId (f : QuicFrame) : parser QuicFrame :=
  sn ← readVarint;
  mret (set_sequenceNumber sn (set_type RetireConnectionId f)).

(** The branch for each type, in source order. *)
Definition decodeBranch (t : Z) (f : QuicFrame) : parser QuicFrame :=
  if t =? 0 then decodePadding f
  else if t =? 1 then mret (set_type Ping f)
  else if (t =? 2) || (t =? 3) then decodeAck t f
  else if t =? 6 then decodeCrypto f
  else if t =? 7 then decodeNewToken f
  else if Z.land t 248 =? 8 then decodeStream t f
  else if t =? 4 then decodeResetStream f
  else if t =? 5 then decodeStopSending f
  else if t =? 16 then decodeLimit MaxData f
  else if t =? 17 then decodeStreamLimit MaxStreamData f
  else if (t =? 18) || (t =? 19) then
    decodeLimit (if t =? 18 then MaxStreamsBidi else MaxStreamsUni) f
  else if t =? 20 then decodeLimit DataBlocked f
  else if t =? 21 then decodeStreamLimit StreamDataBlocked f
  else if (t =? 22) || (t =? 23) then
    decodeLimit (if t =? 22 then StreamsBlockedBidi else StreamsBlockedUni) f
  else if (t =? 26) || (t =? 27) then decodePath t f
  else if (t =? 28) || (t =? 29) then decodeConnectionClose t f
  else if t =? 30 then mret (set_type HandshakeDone f)
  else if t =? 24 then decodeNewConnectionId f
  else if t =? 25 then decodeRetireConnectionId f
  else reject.

(** The body of the loop: the type byte, a fresh frame, the branch. *)
Definition decodeFrame : parser QuicFrame :=
  t ← next_byte;
  decodeBranch t (set_rawType t frame0).

(** [while (off < size)] *)
Fixpoint frameLoop (fuel : nat) (frames : list QuicFrame) : parser (list QuicFrame) :=
  fun data off =>
  match fuel with
  | O => OutOfFuel
  | S fuel' =>
      if off <? zlen data then
        (f ← decodeFrame; frameLoop fuel' (frames ++ [f])) data off
      else Ret (frames, off)
  end.

(** [quicDecodeFrames]: the frames, or [Reject] where the source returns [false]
    (its caller then raises a protocol error and handles no frame). *)
Definition quicDecodeFrames (data : list Z) : result (list QuicFrame) :=
  match frameLoop (S (length data)) [] data 0 with
  | Ret (frames, _) => Ret frames
  | Reject => Reject
  | Fault => Fault
  | OutOfFuel => OutOfFuel
  end.
