(* ===== verification/QuicFrameSafety.v ===== *)
(** * Safety of the QUIC frame decoder

    On every input [quicDecodeFrames] terminates and never reads outside the
    payload: the unguarded reads of its branches are all covered by the tests
    before them, and the 64-bit sums of those tests cannot wrap because a varint
    is below [2 ^ 62]. *)

From S2P Require Import Prelude Codec QuicVarint QuicFrame.

Section Safety.
Context (data : list Z).
Hypothesis Hbytes : is_bytes data.
Hypothesis Hfits : fits data.

(** The cursor moved forward, inside the buffer. *)
Definition ahead {A} (off : Z) : A -> Z -> Prop := fun _ off' => off <= off' <= zlen data.

Lemma wp_readBlock len off (Q : list Z -> Z -> Prop) :
  0 <= off <= zlen data -> 0 <= len < 2 ^ 62 ->
  (forall s, is_bytes s -> zlen s = len -> off + len <= zlen data -> Q s (off + len)) ->
  wp (readBlock len) Q data off.
Proof.
  intros Hoff Hlen HQ. unfold readBlock. apply wp_bind, wp_check. intros Ht. bool_to_prop.
  assert (off + len <= zlen data).
  { unfold fits, wrapu in *. rewrite Z.mod_small in Ht by lia. lia. }
  apply wp_next_bytes; try done; try lia. auto.
Qed.

Lemma wp_restBytes off (Q : list Z -> Z -> Prop) :
  0 <= off <= zlen data ->
  (forall s, is_bytes s -> Q s (zlen data)) -> wp restBytes Q data off.
Proof.
  intros Hoff HQ. unfold wp, restBytes.
  assert (H : wp (next_bytes (zlen data - off)) (fun s off' => Q s off') data off).
  { apply wp_next_bytes; try done; try lia. intros s Hs _.
    replace (off + (zlen data - off)) with (zlen data) by lia. auto. }
  exact H.
Qed.

(** Symbolic execution through the two readers. *)
Ltac wp_go :=
  repeat first
    [ wp_step
    | apply wp_readVarint; [done | lia | intros ? ? ? ?]
    | apply wp_readBlock; [lia | lia | intros ? ? ? ?]
    | apply wp_restBytes; [lia | intros ? ?] ];
  try (unfold ahead; lia).

Lemma wp_skipPadding fuel off :
  0 <= off <= zlen data -> zlen data - off < Z.of_nat fuel ->
  wp (skipPadding fuel) (ahead off) data off.
Proof.
  revert off. induction fuel as [| fuel IH]; intros off Hoff Hfuel; [lia |].
  unfold wp in *. cbn [skipPadding]. case_test; [| unfold ahead; lia].
  destruct (fetch_in data off) as (b & _ & ->); [lia |]. simpl.
  case_test; [| unfold ahead; lia].
  specialize (IH (off + 1)).
  destruct (skipPadding fuel data (off + 1)) as [[? ?] | | |];
    unfold ahead in *; (lia || apply IH; lia).
Qed.

Lemma wp_ackRangeLoop fuel i n acc off :
  0 <= i -> 0 <= n < 2 ^ 62 ->
  0 <= off <= zlen data -> zlen data - off < Z.of_nat fuel ->
  wp (ackRangeLoop fuel i n acc) (ahead off) data off.
Proof.
  revert i acc off. induction fuel as [| fuel IH]; intros i acc off Hi Hn Hoff Hfuel; [lia |].
  cbn [ackRangeLoop]. wp_go.
  assert (u64 (i + 1) = i + 1) as -> by (apply Z.mod_small; lia).
  eapply wp_mono; [apply IH; lia |]. unfold ahead. lia.
Qed.

Lemma wp_readAckRanges n off :
  0 <= n < 2 ^ 62 -> 0 <= off <= zlen data ->
  wp (readAckRanges n) (ahead off) data off.
Proof.
  intros Hn Hoff. apply (wp_ackRangeLoop (S (length data)) 0 n []); try done.
  unfold zlen in *. lia.
Qed.

Lemma wp_decodeAck t f off :
  0 <= off <= zlen data -> wp (decodeAck t f) (ahead off) data off.
Proof.
  intros Hoff. unfold decodeAck. wp_go.
  eapply wp_mono; [apply wp_readAckRanges; lia |]. unfold ahead. intros rs o' Ho'. wp_go.
Qed.

Lemma wp_decodePadding f off :
  0 <= off <= zlen data -> wp (decodePadding f) (ahead off) data off.
Proof.
  intros Hoff.
  assert (H : wp (skipPadding (S (length data))) (ahead off) data off)
    by (apply wp_skipPadding; [done | unfold zlen in *; lia]).
  unfold wp, decodePadding in *. unfold mbind, parser_bind.
  by destruct (skipPadding (S (length data)) data off) as [[? ?] | | |].
Qed.

(** Every branch moves the cursor forward inside the payload. *)
Lemma wp_decodeFrame off :
  0 <= off < zlen data -> wp decodeFrame (ahead (off + 1)) data off.
Proof.
  intros Hoff. unfold decodeFrame. apply wp_bind, wp_next_byte; [done | done |].
  intros t Ht. unfold decodeBranch.
  repeat (apply wp_if; intros _);
  first [ apply wp_decodePadding; lia | apply wp_decodeAck; lia
        | unfold decodeCrypto, decodeNewToken, decodeStream, decodeResetStream,
            decodeStopSending, decodeLimit, decodeStreamLimit, decodePath,
            decodeConnectionClose, decodeNewConnectionId, decodeRetireConnectionId;
          cbv zeta; wp_go ].
  all: unfold wrapu, fits, is_byte in *; rewrite Z.mod_small in * by lia; wp_go.
Qed.

Lemma wp_frameLoop fuel frames off :
  0 <= off <= zlen data -> zlen data - off < Z.of_nat fuel ->
  wp (frameLoop fuel frames) (fun _ off' => off' = zlen data) data off.
Proof.
  revert frames off. induction fuel as [| fuel IH]; intros frames off Hoff Hfuel; [lia |].
  unfold wp at 1. cbn [frameLoop]. case_test; [| lia].
  change (wp (f ← decodeFrame; frameLoop fuel (frames ++ [f]))
          (fun _ off' => off' = zlen data) data off).
  apply wp_bind. eapply wp_mono; [apply wp_decodeFrame; lia |].
  unfold ahead. intros f off' Hoff'. apply IH; lia.
Qed.
End Safety.

(** On every byte string the frame decoder terminates within its fuel without an out-
    of-bounds read: it either rejects the payload or returns frames. *)
Theorem quicDecodeFrames_safe (data : list Z) :
  buffer data ->
  quicDecodeFrames data = Reject \/ exists frames, quicDecodeFrames data = Ret frames.
Proof.
  intros [Hb Hf].
  assert (H : wp (frameLoop (S (length data)) []) (fun _ off' => off' = zlen data) data 0)
    by (apply wp_frameLoop; try done; unfold zlen; lia).
  unfold wp, quicDecodeFrames in *.
  destruct (frameLoop (S (length data)) [] data 0) as [[frames o] | | |]; eauto; done.
Qed.

Lemma quicDecodeFrames_safe_witness :
  quicDecodeFrames [2; 255; 255; 255] = Reject
  \/ exists frames, quicDecodeFrames [2; 255; 255; 255] = Ret frames.
Proof. apply quicDecodeFrames_safe. split; [closed_bytes | done]. Defined.
