(* ===== verification/QuicFrameRoundTrip.v ===== *)
(** * Round trip of QUIC frames

    Frames that [quicEncodeFrame] appends to a payload are read back by
    [quicDecodeFrames] with the members of their type, a run of PADDING frames
    as one frame. *)

From S2P Require Import Prelude Codec QuicVarint QuicFrame QuicFrameSafety.

(** The values a C++ [QuicFrame] can hold. *)
Definition range_wf (r : QuicAckRange) : Prop := 0 <= r.(gap) /\ 0 <= r.(ackRangeLength).

Record frame_wf (f : QuicFrame) : Prop := {
  wf_largest : 0 <= f.(largestAcknowledged);
  wf_delay : 0 <= f.(ackDelay);
  wf_first : 0 <= f.(firstAckRange);
  wf_ranges : Forall range_wf f.(ackRanges);
  wf_offset : 0 <= f.(offset);
  wf_data : is_bytes f.(data);
  wf_stream : 0 <= f.(streamId);
  wf_app : 0 <= f.(applicationErrorCode);
  wf_final : 0 <= f.(finalSize);
  wf_max : 0 <= f.(maxData);
  wf_error : 0 <= f.(errorCode);
  wf_ftype : 0 <= f.(frameType);
  wf_reason : is_bytes f.(reasonPhrase);
  wf_path : is_bytes f.(pathData);
  wf_seq : 0 <= f.(sequenceNumber);
  wf_retire : 0 <= f.(retirePriorTo);
  wf_cid : is_bytes f.(connectionId);
  wf_token : is_bytes f.(statelessResetToken)
}.

(** What survives a trip over the wire: the members of the frame's type. *)
Definition canon (f : QuicFrame) : QuicFrame :=
  let g t := set_type f.(type) (set_rawType t frame0) in
  match f.(type) with
  | Padding => g 0
  | Ping => g 1
  | Ack => set_ackRanges f.(ackRanges) (set_firstAckRange f.(firstAckRange)
             (set_ackDelay f.(ackDelay) (set_largestAcknowledged f.(largestAcknowledged) (g 2))))
  | Crypto => set_data f.(data) (set_offset f.(offset) (g 6))
  | Stream => set_data f.(data) (set_offset f.(offset) (set_streamId f.(streamId)
                (set_hasLength true (set_fin f.(fin) (g (streamType f))))))
  | ResetStream => set_finalSize f.(finalSize) (set_applicationErrorCode f.(applicationErrorCode)
                     (set_streamId f.(streamId) (g 4)))
  | StopSending => set_applicationErrorCode f.(applicationErrorCode)
                     (set_streamId f.(streamId) (g 5))
  | MaxData => set_maxData f.(maxData) (g 16)
  | MaxStreamData => set_maxData f.(maxData) (set_streamId f.(streamId) (g 17))
  | PathChallenge => set_pathData f.(pathData) (g 26)
  | PathResponse => set_pathData f.(pathData) (g 27)
  | ConnectionClose => set_reasonPhrase f.(reasonPhrase) (set_frameType f.(frameType)
                         (set_errorCode f.(errorCode) (g 28)))
  | HandshakeDone => g 30
  | NewConnectionId => set_statelessResetToken f.(statelessResetToken)
                         (set_connectionId f.(connectionId)
                            (set_retirePriorTo f.(retirePriorTo)
                               (set_sequenceNumber f.(sequenceNumber) (g 24))))
  | RetireConnectionId => set_sequenceNumber f.(sequenceNumber) (g 25)
  | _ => f
  end.

(** ** The bytes of a frame *)

Definition range_bytes (r : QuicAckRange) : list Z :=
  varint_bytes r.(gap) ++ varint_bytes r.(ackRangeLength).

Definition ranges_bytes (rs : list QuicAckRange) : list Z := flat_map range_bytes rs.

Definition frame_bytes (f : QuicFrame) : list Z :=
  match f.(type) with
  | Padding => [0]
  | Ping => [1]
  | Ack => [2] ++ varint_bytes f.(largestAcknowledged) ++ varint_bytes f.(ackDelay)
             ++ varint_bytes (zlen f.(ackRanges)) ++ varint_bytes f.(firstAckRange)
             ++ ranges_bytes f.(ackRanges)
  | Crypto => [6] ++ varint_bytes f.(offset) ++ varint_bytes (zlen f.(data)) ++ f.(data)
  | Stream => [streamType f] ++ varint_bytes f.(streamId)
                ++ (if f.(offset) =? 0 then [] else varint_bytes f.(offset))
                ++ varint_bytes (zlen f.(data)) ++ f.(data)
  | ResetStream => [4] ++ varint_bytes f.(streamId) ++ varint_bytes f.(applicationErrorCode)
                     ++ varint_bytes f.(finalSize)
  | StopSending => [5] ++ varint_bytes f.(streamId) ++ varint_bytes f.(applicationErrorCode)
  | MaxData => [16] ++ varint_bytes f.(maxData)
  | MaxStreamData => [17] ++ varint_bytes f.(streamId) ++ varint_bytes f.(maxData)
  | PathChallenge => [26] ++ f.(pathData)
  | PathResponse => [27] ++ f.(pathData)
  | ConnectionClose => [28] ++ varint_bytes f.(errorCode) ++ varint_bytes f.(frameType)
                         ++ varint_bytes (zlen f.(reasonPhrase)) ++ f.(reasonPhrase)
  | HandshakeDone => [30]
  | NewConnectionId => [24] ++ varint_bytes f.(sequenceNumber) ++ varint_bytes f.(retirePriorTo)
                         ++ [zlen f.(connectionId)] ++ f.(connectionId)
                         ++ f.(statelessResetToken)
  | RetireConnectionId => [25] ++ varint_bytes f.(sequenceNumber)
  | _ => []
  end.

(** ** Inverting the encoder *)

Lemma andThen_true r k o :
  andThen r k = (true, o) -> exists o1, r = (true, o1) /\ k o1 = (true, o).
Proof. destruct r as [[] o1]; unfold andThen; simpl; [eauto | done]. Qed.

Lemma append_true s out o : append s out = (true, o) -> o = out ++ s.
Proof. by intros [= <-]. Qed.

Lemma quicEncodeVarint_true v out o :
  0 <= v -> quicEncodeVarint v out = (true, o) -> v < 2 ^ 62 /\ o = out ++ varint_bytes v.
Proof.
  intros Hv H. destruct (Z.lt_ge_cases v (2 ^ 62)) as [Hlt | Hge].
  - rewrite quicEncodeVarint_bytes in H by lia. by injection H as <-.
  - by rewrite quicEncodeVarint_reject in H.
Qed.

Lemma encodeAckRanges_true rs out o :
  Forall range_wf rs -> encodeAckRanges rs out = (true, o) ->
  Forall (fun r => 0 <= r.(gap) < 2 ^ 62 /\ 0 <= r.(ackRangeLength) < 2 ^ 62) rs
  /\ o = out ++ ranges_bytes rs.
Proof.
  intros Hwf. revert out. induction Hwf as [| r rs [Hg Hl] Hrs IH]; intros out H; simpl in *.
  - injection H as <-. unfold ranges_bytes. by rewrite app_nil_r.
  - apply andThen_true in H as (o2 & H & H2). apply andThen_true in H as (o1 & H & H1).
    apply quicEncodeVarint_true in H as [? ->]; [|done].
    apply quicEncodeVarint_true in H1 as [? ->]; [|done].
    apply IH in H2 as [? ->]. split; [by constructor |].
    unfold ranges_bytes. simpl. unfold range_bytes. by rewrite !app_assoc.
Qed.

(** Take the chain of [&&] apart, each varint giving its bound and its bytes. *)
Ltac enc_inv :=
  repeat match goal with
  | H : andThen _ _ = (true, _) |- _ => apply andThen_true in H as (? & H & ?)
  | H : append _ _ = (true, _) |- _ => apply append_true in H; subst
  | H : (true, _) = (true, _) |- _ => injection H as H; subst
  | H : quicEncodeVarint _ _ = (true, _) |- _ =>
      apply quicEncodeVarint_true in H as [? ->]; [| try done; apply zlen_nonneg]
  | H : encodeAckRanges _ _ = (true, _) |- _ =>
      apply encodeAckRanges_true in H as [? ->]; [| done]
  end.

(** The side conditions of a frame that was encoded. *)
Definition encodable (f : QuicFrame) : Prop :=
  match f.(type) with
  | Padding | Ping | HandshakeDone => True
  | Ack => 0 <= f.(largestAcknowledged) < 2 ^ 62 /\ 0 <= f.(ackDelay) < 2 ^ 62
           /\ zlen f.(ackRanges) < 2 ^ 62 /\ 0 <= f.(firstAckRange) < 2 ^ 62
           /\ Forall (fun r => 0 <= r.(gap) < 2 ^ 62 /\ 0 <= r.(ackRangeLength) < 2 ^ 62)
                f.(ackRanges)
  | Crypto => 0 <= f.(offset) < 2 ^ 62 /\ zlen f.(data) < 2 ^ 62
  | Stream => 0 <= f.(streamId) < 2 ^ 62 /\ 0 <= f.(offset) < 2 ^ 62 /\ zlen f.(data) < 2 ^ 62
  | ResetStream => 0 <= f.(streamId) < 2 ^ 62 /\ 0 <= f.(applicationErrorCode) < 2 ^ 62
                   /\ 0 <= f.(finalSize) < 2 ^ 62
  | StopSending => 0 <= f.(streamId) < 2 ^ 62 /\ 0 <= f.(applicationErrorCode) < 2 ^ 62
  | MaxData => 0 <= f.(maxData) < 2 ^ 62
  | MaxStreamData => 0 <= f.(streamId) < 2 ^ 62 /\ 0 <= f.(maxData) < 2 ^ 62
  | PathChallenge | PathResponse => zlen f.(pathData) = 8
  | ConnectionClose => 0 <= f.(errorCode) < 2 ^ 62 /\ 0 <= f.(frameType) < 2 ^ 62
                       /\ zlen f.(reasonPhrase) < 2 ^ 62
  | NewConnectionId => 0 <= f.(sequenceNumber) < 2 ^ 62 /\ 0 <= f.(retirePriorTo) < 2 ^ 62
                       /\ 1 <= zlen f.(connectionId) <= 20
                       /\ zlen f.(statelessResetToken) = 16
  | RetireConnectionId => 0 <= f.(sequenceNumber) < 2 ^ 62
  | _ => False
  end.

(** The four type bytes of a STREAM frame. *)
Lemma streamType_cases f :
  streamType f = 10 + (if f.(offset) =? 0 then 0 else 4) + (if f.(fin) then 1 else 0).
Proof. unfold streamType. by destruct (offset f =? 0), (fin f). Qed.

Lemma encodeStream_true f out o :
  frame_wf f -> f.(type) = Stream -> encodeStream f out = (true, o) ->
  encodable f /\ o = out ++ frame_bytes f.
Proof.
  intros [] Ht H. unfold encodeStream, encodable, frame_bytes in *. rewrite Ht.
  pose proof (streamType_cases f) as Hs.
  destruct (offset f =? 0) eqn:Eo, (fin f); bool_to_prop; rewrite Hs in *; simpl in H;
    enc_inv; rewrite ?Eo; simpl; rewrite <- ?app_assoc;
    (split; [repeat split; lia | done]).
Qed.

(** What the encoder appends, and when it succeeds. *)
Lemma quicEncodeFrame_true f out o :
  frame_wf f -> quicEncodeFrame f out = (true, o) -> encodable f /\ o = out ++ frame_bytes f.
Proof.
  intros Hwf H. destruct (type f) eqn:Ht; unfold quicEncodeFrame in H; rewrite Ht in H.
  all: try done.
  all: try (by apply encodeStream_true).
  all: destruct Hwf; unfold encodeNewConnectionId in H; enc_inv.
  all: unfold encodable, frame_bytes; rewrite Ht; rewrite <- ?app_assoc; simpl.
  all: try (split; [repeat split; done || lia | done]).
  - revert H0. case_test; [done |]. intros [= <-].
    assert (u8 (zlen (connectionId f)) = zlen (connectionId f)) as ->
      by (apply Z.mod_small; zlen_pose; lia).
    rewrite <- ?app_assoc. split; [zlen_pose; repeat split; lia | done].
  - revert H0. case_test; [done |]. intros [= <-]. rewrite <- ?app_assoc. split; [lia | done].
  - revert H0. case_test; [done |]. intros [= <-]. rewrite <- ?app_assoc. split; [lia | done].
Qed.

(** ** Reading the bytes back *)

Lemma reads_readBlock s n : n = zlen s -> n < 2 ^ 62 -> reads (readBlock n) s s.
Proof.
  intros -> Hlen. apply reads_check; [|auto with codec].
  intros size off H1 H2 H3. apply negb_true_iff. unfold wrapu. zlen_pose.
  rewrite Z.mod_small by lia. lia.
Qed.

Lemma zlen_varint_pos v : 1 <= zlen (varint_bytes v).
Proof. rewrite zlen_varint_bytes. unfold quicVarintSize. repeat case_test; lia. Qed.

Lemma ranges_bytes_length rs : zlen rs <= zlen (ranges_bytes rs).
Proof.
  induction rs as [| r rs IH]; [done |]. unfold ranges_bytes in *. simpl.
  unfold range_bytes at 1. rewrite !zlen_app, zlen_cons.
  pose proof (zlen_varint_pos (gap r)). pose proof (zlen_varint_pos (ackRangeLength r)). lia.
Qed.

Lemma reads_ackRangeLoop rs fuel i n acc :
  Forall (fun r => 0 <= r.(gap) < 2 ^ 62 /\ 0 <= r.(ackRangeLength) < 2 ^ 62) rs ->
  0 <= i -> n = i + zlen rs -> n < 2 ^ 62 -> (length rs < fuel)%nat ->
  reads (ackRangeLoop fuel i n acc) (ranges_bytes rs) (acc ++ rs).
Proof.
  intros Hrs. revert fuel i acc. induction Hrs as [| r rs [Hg Hl] Hrs IH];
    intros fuel i acc Hi Hn Hmax Hfuel; (destruct fuel as [| fuel]; [simpl in *; lia |]);
    cbn [ackRangeLoop].
  - rewrite zlen_nil in Hn. test_false. rewrite app_nil_r. apply reads_ret.
  - rewrite zlen_cons in Hn. pose proof (zlen_nonneg rs). test_true.
    unfold ranges_bytes. simpl. unfold range_bytes at 1. rewrite <- app_assoc.
    eapply reads_bind; [by apply reads_varint |].
    eapply reads_bind; [by apply reads_varint |].
    assert (u64 (i + 1) = i + 1) as -> by (apply Z.mod_small; lia).
    replace (acc ++ r :: rs) with ((acc ++ [r]) ++ rs) by (by rewrite <- app_assoc).
    destruct r. apply IH; simpl in *; lia.
Qed.

Lemma reads_readAckRanges rs n :
  Forall (fun r => 0 <= r.(gap) < 2 ^ 62 /\ 0 <= r.(ackRangeLength) < 2 ^ 62) rs ->
  n = zlen rs -> n < 2 ^ 62 -> reads (readAckRanges n) (ranges_bytes rs) rs.
Proof.
  intros Hrs -> Hmax pre post Hbuf. unfold readAckRanges.
  apply (reads_ackRangeLoop rs _ 0 (zlen rs) []); try done.
  pose proof (ranges_bytes_length rs). unfold zlen in *. rewrite !length_app. lia.
Qed.

(** The last step of every branch returns: read the rest, then [reads_bind_ret]. *)
Ltac reads_go :=
  repeat first
    [ eapply reads_bind; [solve [auto with codec]|]
    | eapply reads_bind_ret; solve [auto with codec] ].

#[local] Hint Resolve reads_readBlock reads_readAckRanges : codec.

Lemma reads_decodeAck f la ad fr rs :
  0 <= la < 2 ^ 62 -> 0 <= ad < 2 ^ 62 -> 0 <= fr < 2 ^ 62 -> zlen rs < 2 ^ 62 ->
  Forall (fun r => 0 <= r.(gap) < 2 ^ 62 /\ 0 <= r.(ackRangeLength) < 2 ^ 62) rs ->
  reads (decodeAck 2 f)
    (varint_bytes la ++ varint_bytes ad ++ varint_bytes (zlen rs) ++ varint_bytes fr
       ++ ranges_bytes rs)
    (set_ackRanges rs (set_firstAckRange fr (set_ackDelay ad (set_largestAcknowledged la
       (set_type Ack f))))).
Proof.
  intros. pose proof (zlen_nonneg rs). unfold decodeAck.
  do 4 (eapply reads_bind; [solve [auto with codec]|]).
  rewrite <- (app_nil_r (ranges_bytes rs)).
  eapply reads_bind; [solve [auto with codec]|]. apply (reads_bind _ _ [] [] tt); apply reads_ret.
Qed.

Lemma reads_decodeStream f g :
  0 <= f.(streamId) < 2 ^ 62 -> 0 <= f.(offset) < 2 ^ 62 -> zlen f.(data) < 2 ^ 62 ->
  g.(offset) = 0 ->
  reads (decodeStream (streamType f) g)
    (varint_bytes f.(streamId) ++ (if f.(offset) =? 0 then [] else varint_bytes f.(offset))
       ++ varint_bytes (zlen f.(data)) ++ f.(data))
    (set_data f.(data) (set_offset f.(offset) (set_streamId f.(streamId)
       (set_hasLength true (set_fin f.(fin) (set_type Stream g)))))).
Proof.
  intros Hs Ho Hd Hg. pose proof (zlen_nonneg (data f)). rewrite streamType_cases.
  assert (Hblock : reads (len ← readVarint; readBlock len)
                     (varint_bytes (zlen (data f)) ++ data f) (data f))
    by (eapply reads_bind; [|apply reads_readBlock]; auto with codec).
  destruct (offset f =? 0) eqn:Eo; bool_to_prop; destruct (fin f);
    unfold decodeStream; simpl;
    (eapply reads_bind; [solve [auto with codec]|]).
  3,4: eapply reads_bind; [apply reads_bind_ret; solve [auto with codec]|];
       by apply (reads_bind_ret _ (fun d => set_data d _)).
  all: rewrite Eo; destruct g; simpl in Hg; subst;
       rewrite <- (app_nil_l (varint_bytes _ ++ _)); eapply reads_bind; [apply reads_ret |];
       by apply (reads_bind_ret _ (fun d => set_data d _)).
Qed.

Lemma reads_decodeNewConnectionId f sn rp cid tok :
  0 <= sn < 2 ^ 62 -> 0 <= rp < 2 ^ 62 -> 1 <= zlen cid <= 20 -> zlen tok = 16 ->
  reads (decodeNewConnectionId f)
    (varint_bytes sn ++ varint_bytes rp ++ [zlen cid] ++ cid ++ tok)
    (set_statelessResetToken tok (set_connectionId cid
       (set_retirePriorTo rp (set_sequenceNumber sn (set_type NewConnectionId f))))).
Proof.
  intros Hsn Hrp Hcid Htok. unfold decodeNewConnectionId.
  do 2 (eapply reads_bind; [solve [auto with codec]|]).
  apply reads_check.
  { intros size off ? Hsz ?. autorewrite with zlen in Hsz. lia. }
  eapply reads_bind; [apply reads_next_byte |].
  apply reads_check.
  { intros size off ? Hsz ?. rewrite zlen_app in Hsz. unfold wrapu.
    rewrite Z.mod_small by lia. lia. }
  eapply reads_bind; [by apply reads_next_bytes |].
  apply (reads_bind_ret _ (fun t => set_statelessResetToken t _)).
  by apply reads_next_bytes.
Qed.

Lemma reads_decodeFrame_type t bs f :
  reads (decodeBranch t (set_rawType t frame0)) bs f -> reads decodeFrame ([t] ++ bs) f.
Proof. intros. eapply reads_bind; [apply reads_next_byte | done]. Qed.

(** Every frame but PADDING is read back on its own. *)
Lemma reads_decodeFrame f :
  encodable f -> f.(type) <> Padding -> reads decodeFrame (frame_bytes f) (canon f).
Proof.
  intros He Hp. unfold frame_bytes, canon, encodable in *.
  destruct (type f) eqn:Ht; try done; clear Hp; try destruct_and! He.
  all: lazymatch goal with
       | |- reads _ [_] _ => rewrite <- (app_nil_r [_]); apply reads_decodeFrame_type, reads_ret
       | |- _ => apply reads_decodeFrame_type
       end.
  - by apply reads_decodeAck.
  - eapply reads_bind; [auto with codec|]. eapply reads_bind; [auto with codec|].
    by apply (reads_bind_ret _ (fun v => set_finalSize v _)), reads_varint.
  - eapply reads_bind; [auto with codec|].
    by apply (reads_bind_ret _ (fun v => set_applicationErrorCode v _)), reads_varint.
  - pose proof (zlen_nonneg (data f)). do 2 (eapply reads_bind; [auto with codec|]).
    by apply (reads_bind_ret _ (fun v => set_data v _)), reads_readBlock.
  - pose proof (reads_decodeStream f (set_rawType (streamType f) frame0)) as HS.
    rewrite streamType_cases in *. destruct (offset f =? 0), (fin f); by apply HS.
  - by apply (reads_bind_ret _ (fun v => set_maxData v _)), reads_varint.
  - eapply reads_bind; [auto with codec|].
    by apply (reads_bind_ret _ (fun v => set_maxData v _)), reads_varint.
  - by apply reads_decodeNewConnectionId.
  - by apply (reads_bind_ret _ (fun v => set_sequenceNumber v _)), reads_varint.
  - by apply (reads_bind_ret _ (fun v => set_pathData v _)), reads_readBlock.
  - by apply (reads_bind_ret _ (fun v => set_pathData v _)), reads_readBlock.
  - pose proof (zlen_nonneg (reasonPhrase f)). eapply reads_bind; [auto with codec|].
    eapply reads_bind; [by apply (reads_bind_ret _ (fun v => set_frameType v _)), reads_varint |].
    eapply reads_bind; [auto with codec|].
    by apply (reads_bind_ret _ (fun v => set_reasonPhrase v _)), reads_readBlock.
Qed.

(** ** A payload of several frames *)

Definition is_padding (f : QuicFrame) : bool :=
  match f.(type) with Padding => true | _ => false end.

(** A run of PADDING frames becomes one frame. *)
Fixpoint coalesce (prev : bool) (fs : list QuicFrame) : list QuicFrame :=
  match fs with
  | [] => []
  | f :: fs' =>
      if is_padding f && prev then coalesce true fs'
      else f :: coalesce (is_padding f) fs'
  end.

(** Append every frame to the same payload. *)
Fixpoint encodeFrames (fs : list QuicFrame) (out : list Z) : bool * list Z :=
  match fs with
  | [] => (true, out)
  | f :: fs' => quicEncodeFrame f out >>> encodeFrames fs'
  end.

Lemma encodeFrames_true fs out o :
  Forall frame_wf fs -> encodeFrames fs out = (true, o) ->
  Forall encodable fs /\ o = out ++ flat_map frame_bytes fs.
Proof.
  intros Hwf. revert out. induction Hwf as [| f fs Hf Hfs IH]; intros out H; simpl in *.
  - injection H as <-. by rewrite app_nil_r.
  - apply andThen_true in H as (o1 & H & H1).
    apply quicEncodeFrame_true in H as [He ->]; [|done].
    apply IH in H1 as [? ->]. rewrite <- app_assoc. by repeat constructor.
Qed.

(** The first byte tells PADDING from the other types. *)
Lemma frame_bytes_cons f :
  encodable f -> exists b bs, frame_bytes f = b :: bs /\ (b = 0 <-> f.(type) = Padding).
Proof.
  unfold encodable, frame_bytes. intros He.
  destruct (type f) eqn:Ht; try done; eexists _, _; (split; [reflexivity |]); try done.
  pose proof (streamType_cases f). destruct (offset f =? 0), (fin f); split; done || lia.
Qed.

(** The PADDING frames a list starts with. *)
Fixpoint pads (fs : list QuicFrame) : nat :=
  match fs with
  | f :: fs' => if is_padding f then S (pads fs') else O
  | [] => O
  end.

Lemma is_padding_type f : is_padding f = true <-> f.(type) = Padding.
Proof. unfold is_padding. by destruct (type f). Qed.

Lemma is_padding_canon f : is_padding (canon f) = is_padding f.
Proof. unfold is_padding, canon. by destruct (type f) eqn:Ht; simpl; rewrite ?Ht. Qed.

Lemma coalesce_pads fs :
  coalesce true (map canon fs) = coalesce false (map canon (drop (pads fs) fs)).
Proof.
  induction fs as [| f fs IH]; [done |]. simpl. rewrite is_padding_canon.
  destruct (is_padding f) eqn:E; simpl; [done |].
  by rewrite is_padding_canon, E.
Qed.

Lemma bytes_pads fs :
  flat_map frame_bytes fs
  = replicate (pads fs) 0 ++ flat_map frame_bytes (drop (pads fs) fs).
Proof.
  induction fs as [| f fs IH]; [done |]. simpl.
  destruct (is_padding f) eqn:E; [|done]. simpl. rewrite IH at 1.
  apply is_padding_type in E. unfold frame_bytes at 1. by rewrite E.
Qed.

Lemma skipPadding_pads fs fuel pre :
  Forall encodable fs -> (length (flat_map frame_bytes fs) < fuel)%nat ->
  skipPadding fuel (pre ++ flat_map frame_bytes fs) (zlen pre)
  = Ret (tt, zlen pre + Z.of_nat (pads fs)).
Proof.
  intros He. revert fuel pre.
  induction He as [| f fs Hf Hfs IH]; intros fuel pre Hfuel;
    (destruct fuel as [| fuel]; [simpl in *; lia |]); cbn [skipPadding pads].
  - simpl. rewrite app_nil_r, Z.add_0_r. by test_false.
  - simpl flat_map in *. destruct (frame_bytes_cons f Hf) as (b & bs & Hb & Hpad).
    rewrite Hb in *. simpl in *. test_true. rewrite fetch_app_mid. simpl.
    destruct (is_padding f) eqn:E.
    + apply is_padding_type in E. rewrite (proj2 Hpad E) in *.
      unfold frame_bytes in Hb. rewrite E in Hb. injection Hb as <-. simpl.
      specialize (IH fuel (pre ++ [0])). rewrite <- app_assoc, zlen_app in IH.
      change (zlen [0]) with 1 in IH. simpl in IH. rewrite IH by (simpl in *; lia).
      do 2 f_equal. lia.
    + assert (b <> 0) by (intros Hb0; apply Hpad, is_padding_type in Hb0; congruence).
      test_false. do 2 f_equal. lia.
Qed.

Lemma decodeFrame_padding fs pre :
  Forall encodable fs ->
  decodeFrame (pre ++ 0 :: flat_map frame_bytes fs) (zlen pre)
  = Ret (set_type Padding (set_rawType 0 frame0), zlen pre + 1 + Z.of_nat (pads fs)).
Proof.
  intros He. unfold decodeFrame, mbind, parser_bind, next_byte. rewrite fetch_app_mid.
  change (decodeBranch 0) with decodePadding.
  unfold decodePadding, mbind, parser_bind.
  pose proof (skipPadding_pads fs (S (length (pre ++ 0 :: flat_map frame_bytes fs))) (pre ++ [0]) He)
    as HS.
  rewrite <- app_assoc, zlen_app in HS. change (zlen [0]) with 1 in HS.
  change ([0] ++ flat_map frame_bytes fs) with (0 :: flat_map frame_bytes fs) in HS.
  rewrite HS by (rewrite length_app; simpl; lia). done.
Qed.

Lemma frameLoop_frames n fs fuel pre acc :
  (length fs <= n)%nat -> Forall encodable fs ->
  buffer (pre ++ flat_map frame_bytes fs) ->
  (length (flat_map frame_bytes fs) < fuel)%nat ->
  exists o, frameLoop fuel acc (pre ++ flat_map frame_bytes fs) (zlen pre)
            = Ret (acc ++ coalesce false (map canon fs), o).
Proof.
  revert fs fuel pre acc. induction n as [| n IH]; intros fs fuel pre acc Hn He Hbuf Hfuel;
    (destruct fuel as [| fuel]; [lia |]); cbn [frameLoop].
  { destruct fs; [| simpl in *; lia]. simpl. rewrite !app_nil_r. test_false. eauto. }
  destruct fs as [| f fs]; [simpl; rewrite !app_nil_r; test_false; eauto |].
  inversion He as [| ? ? Hf Hfs]; subst. simpl flat_map in *. simpl in Hn.
  destruct (frame_bytes_cons f Hf) as (b & bs & Hb & Hpad).
  assert (zlen pre < zlen (pre ++ frame_bytes f ++ flat_map frame_bytes fs))
    by (rewrite Hb; zlen_lia).
  test_true.
  destruct (is_padding f) eqn:E.
  - assert (Ht : type f = Padding) by (by apply is_padding_type).
    assert (Hfb : frame_bytes f = [0]) by (unfold frame_bytes; by rewrite Ht).
    rewrite Hfb in *. simpl app in *. unfold mbind, parser_bind.
    rewrite decodeFrame_padding by done.
    replace (pre ++ 0 :: flat_map frame_bytes fs) with
      ((pre ++ [0] ++ replicate (pads fs) 0) ++ flat_map frame_bytes (drop (pads fs) fs)) in *
      by (rewrite <- !app_assoc; simpl; by rewrite <- bytes_pads).
    replace (zlen pre + 1 + Z.of_nat (pads fs)) with (zlen (pre ++ [0] ++ replicate (pads fs) 0))
      by (rewrite !zlen_app; unfold zlen; simpl; rewrite length_replicate; lia).
    destruct (IH (drop (pads fs) fs) fuel (pre ++ [0] ++ replicate (pads fs) 0)
                (acc ++ [canon f])) as [o Ho]; try done.
    { rewrite length_drop. lia. }
    { by apply Forall_drop. }
    { rewrite (bytes_pads fs) in Hfuel. simpl in Hfuel. rewrite length_app in Hfuel. lia. }
    exists o. simpl map. cbn [coalesce]. rewrite is_padding_canon, E. simpl andb.
    rewrite coalesce_pads. replace (canon f) with (set_type Padding (set_rawType 0 frame0)) in *
      by (unfold canon; by rewrite Ht).
    rewrite Ho, <- app_assoc. done.
  - assert (Hnp : type f <> Padding) by (intros Ht; apply is_padding_type in Ht; congruence).
    unfold mbind, parser_bind. rewrite (reads_decodeFrame f Hf Hnp) by done.
    rewrite app_assoc in Hbuf |- *.
    replace (zlen pre + zlen (frame_bytes f)) with (zlen (pre ++ frame_bytes f))
      by (by rewrite zlen_app).
    destruct (IH fs fuel (pre ++ frame_bytes f) (acc ++ [canon f])) as [o Ho]; try done; try lia.
    { rewrite Hb, length_app in Hfuel. simpl in Hfuel. lia. }
    exists o. rewrite Ho, <- app_assoc. simpl map. cbn [coalesce].
    by rewrite is_padding_canon, E.
Qed.

(** C17: Whatever sequence of frames the encoder accepts, the decoder reads the payload
    back as the same frames, up to the members that are not on the wire and runs of
    PADDING that become one frame. *)
Theorem quicDecodeFrames_encode (fs : list QuicFrame) (out : list Z) :
  Forall frame_wf fs -> encodeFrames fs [] = (true, out) -> buffer out ->
  quicDecodeFrames out = Ret (coalesce false (map canon fs)).
Proof.
  intros Hwf Henc Hbuf. apply encodeFrames_true in Henc as [He ->]; [|done]. simpl in *.
  destruct (frameLoop_frames (length fs) fs (S (length (flat_map frame_bytes fs))) [] [])
    as [o Ho]; try done; [lia |].
  unfold quicDecodeFrames. change (zlen []) with 0 in Ho. rewrite !app_nil_l in Ho.
  by rewrite Ho.
Qed.

(** A payload of four frames: two of PADDING, a CRYPTO and a STREAM frame. *)
Definition sample_frames : list QuicFrame :=
  [set_type Padding frame0; set_type Padding frame0;
   set_data [1; 2; 3] (set_offset 300 (set_type Crypto frame0));
   set_data [4; 5] (set_fin true (set_offset 70000 (set_streamId 4 (set_type Stream frame0))))].

Lemma quicDecodeFrames_encode_witness :
  quicDecodeFrames (encodeFrames sample_frames []).2
  = Ret (coalesce false (map canon sample_frames)).
Proof.
  apply quicDecodeFrames_encode; [| vm_compute; reflexivity | split; [closed_bytes | done]].
  repeat (constructor; [split; simpl; first [lia | closed_bytes | by constructor] |]). constructor.
Defined.
