(* ===== verification/CryptoApi.v ===== *)
(** * The cryptographic primitives the code calls

    [src/src/aead.cpp] wraps OpenSSL; the primitives themselves are parameters.
    [Crypto] lists the ones that are used, [CryptoLaws] what their documentation
    promises and the callers rely on.  The wrappers, with their argument checks,
    and HKDF over any HMAC are translated below. *)

From S2P Require Import Prelude.

Class Crypto : Type := {
  (** AES-128-GCM: key, nonce, additional data, text; ciphertext followed by the tag *)
  gcm_seal : list Z -> list Z -> list Z -> list Z -> list Z;
  gcm_open : list Z -> list Z -> list Z -> list Z -> option (list Z);
  (** one AES block: key, 16 bytes *)
  ecb_block : list Z -> list Z -> list Z;
  (** HMAC-SHA256: key, message *)
  hmac_sha256 : list Z -> list Z -> list Z
}.

Class CryptoLaws {C : Crypto} : Prop := {
  gcm_seal_length k n a p : zlen (gcm_seal k n a p) = zlen p + 16;
  gcm_seal_bytes k n a p : is_bytes p -> is_bytes (gcm_seal k n a p);
  gcm_open_seal k n a p : gcm_open k n a (gcm_seal k n a p) = Some p;
  ecb_block_length k b : zlen (ecb_block k b) = 16;
  ecb_block_bytes k b : is_bytes (ecb_block k b);
  hmac_sha256_length k m : zlen (hmac_sha256 k m) = 32;
  hmac_sha256_bytes k m : is_bytes (hmac_sha256 k m)
}.

(** ** HKDF (RFC 5869) over the HMAC of a hash with [hlen] bytes of output *)

Section Hkdf.
Context (hmac : list Z -> list Z -> list Z) (hlen : nat).

(** [hkdfExtract]: an empty salt is replaced by [hlen] zero bytes. *)
Definition hkdfExtractWith (salt ikm : list Z) : list Z :=
  if zlen salt >? INT_MAX then []
  else hmac (if zlen salt =? 0 then replicate hlen 0 else salt) ikm.

(** The loop of [hkdfExpand]: [t] the last block, [counter] an unsigned char. *)
Fixpoint hkdfExpandLoop (fuel : nat) (prk info : list Z) (outLen : Z) (out t : list Z)
  (counter : Z) : list Z :=
  match fuel with
  | O => out
  | S fuel' =>
    if zlen out <? outLen then
      let t := hmac prk (t ++ info ++ [counter]) in
      hkdfExpandLoop fuel' prk info outLen (out ++ t) t (u8 (counter + 1))
    else out
  end.

Definition hkdfExpandWith (prk info : list Z) (outLen : Z) : list Z :=
  if (zlen prk =? 0) || (zlen prk >? INT_MAX) || (outLen =? 0) then []
  else take (Z.to_nat outLen)
       (hkdfExpandLoop (Z.to_nat outLen) prk info outLen [] [] 1).

(** [hkdf] *)
Definition hkdfWith (ikm salt info : list Z) (outLen : Z) : list Z :=
  hkdfExpandWith (hkdfExtractWith salt ikm) info outLen.

Hypothesis hmac_length : forall k m, zlen (hmac k m) = Z.of_nat hlen.

(** The loop gathers at least [outLen] bytes: every round adds a block. *)
Lemma hkdfExpandLoop_length fuel prk info outLen out t counter : (0 < hlen)%nat ->
  outLen <= zlen out + Z.of_nat fuel ->
  outLen <= zlen (hkdfExpandLoop fuel prk info outLen out t counter).
Proof.
  intros Hh. revert out t counter. induction fuel as [| fuel IH]; intros out t counter Hf; simpl; [lia |].
  case_test; [| done]. apply IH. rewrite zlen_app, hmac_length. lia.
Qed.

Lemma hkdfExpandWith_length prk info outLen : (0 < hlen)%nat ->
  1 <= zlen prk <= INT_MAX -> 0 < outLen -> zlen (hkdfExpandWith prk info outLen) = outLen.
Proof.
  intros Hh Hp Ho. unfold hkdfExpandWith. test_false. apply zlen_take.
  split; [lia |]. apply hkdfExpandLoop_length; [done |]. rewrite zlen_nil. lia.
Qed.
End Hkdf.

Section Wrappers.
Context `{C : Crypto}.

(** [Aead(Aes128Gcm)] after [setKey(key)], [Aead::seal]. *)
Definition aead_setKey (key : list Z) : bool := zlen key =? 16.

Definition aead_seal (key nonce aad plaintext : list Z) : result (list Z) :=
  if (zlen key =? 0) || negb (zlen nonce =? 12) || (zlen aad >? INT_MAX)
     || (zlen plaintext >? INT_MAX)
  then Reject
  else Ret (gcm_seal key nonce aad plaintext).

(** [Aead::open] *)
Definition aead_open (key nonce aad ct : list Z) : result (list Z) :=
  if (zlen key =? 0) || negb (zlen nonce =? 12) || (zlen ct <? 16)
     || (zlen aad >? INT_MAX) || (zlen ct >? INT_MAX)
  then Reject
  else match gcm_open key nonce aad ct with
       | Some p => Ret p
       | None => Reject
       end.

(** [aesEcbEncryptBlock]: the empty string on failure. *)
Definition aesEcbEncryptBlock (key block16 : list Z) : list Z :=
  if (negb (zlen key =? 16) && negb (zlen key =? 32)) || negb (zlen block16 =? 16)
  then [] else ecb_block key block16.

(** The SHA-256 instances. *)
Definition hkdfExtract (salt ikm : list Z) : list Z := hkdfExtractWith hmac_sha256 32 salt ikm.
Definition hkdfExpand (prk info : list Z) (outLen : Z) : list Z := hkdfExpandWith hmac_sha256 prk info outLen.

(** [hkdfExpandLabel] *)
Definition hkdfExpandLabel (secret label context : list Z) (outLen : Z) : list Z :=
  let fullLabel := str "tls13 " ++ label in
  if (zlen fullLabel <? 7) || (zlen fullLabel >? 255) || (zlen context >? 255)
   || (outLen >? 65535)
  then []
  else
  let info := [Z.land (Z.shiftr outLen 8) 255; Z.land outLen 255; u8 (zlen fullLabel)]
                ++ fullLabel ++ [u8 (zlen context)] ++ context in
  hkdfExpand secret info outLen.
End Wrappers.

(** ** Lengths *)

Section Facts.
Context `{CryptoLaws}.

Lemma hkdfExpand_length prk info outLen :
  1 <= zlen prk <= INT_MAX -> 0 < outLen -> zlen (hkdfExpand prk info outLen) = outLen.
Proof. apply (hkdfExpandWith_length hmac_sha256 32 hmac_sha256_length). lia. Qed.

Lemma hkdfExpandLabel_length secret label context outLen :
  1 <= zlen secret <= INT_MAX -> 1 <= zlen label <= 249 -> zlen context <= 255 ->
  0 < outLen <= 65535 ->
  zlen (hkdfExpandLabel secret label context outLen) = outLen.
Proof.
  intros. unfold hkdfExpandLabel. rewrite zlen_app. change (zlen (str "tls13 ")) with 6.
  test_false. apply hkdfExpand_length; lia.
Qed.
End Facts.

(** ** A concrete instance, for the witnesses *)

Section Toy.
(** No secrecy, but all the laws: the tag and the masks are constant. *)
Definition toy_crypto : Crypto := {|
  gcm_seal := fun _ _ _ p => p ++ replicate 16 7;
  gcm_open := fun _ _ _ c => Some (take (length c - 16) c);
  ecb_block := fun _ _ => replicate 16 165;
  hmac_sha256 := fun _ _ => replicate 32 9
|}.

Lemma toy_crypto_laws : @CryptoLaws toy_crypto.
Proof.
  split; simpl; intros.
  - by rewrite zlen_app.
  - apply is_bytes_app_2; [done |]. repeat constructor; unfold is_byte; lia.
  - rewrite length_app. simpl. rewrite Nat.add_sub. by rewrite take_app_length.
  - done.
  - repeat constructor; unfold is_byte; lia.
  - done.
  - repeat constructor; unfold is_byte; lia.
Qed.
End Toy.
