(* ===== verification/QuicPacket.v ===== *)
(** * QUIC packet headers ([src/src/quic_frame.cpp], second half)

    Building and parsing of long and short headers and of Retry packets. *)

From S2P Require Import Prelude Codec QuicVarint CryptoApi.

Inductive QuicLongPacketType : Type :=
| QuicLongInitial | QuicLongZeroRtt | QuicLongHandshake | QuicLongRetry.

(** The enumerator's value, and the cast back from two bits. *)
Definition longType_value (t : QuicLongPacketType) : Z :=
  match t with
  | QuicLongInitial => 0 | QuicLongZeroRtt => 1 | QuicLongHandshake => 2 | QuicLongRetry => 3
  end.

Definition longType_cast (z : Z) : QuicLongPacketType :=
  if z =? 0 then QuicLongInitial
  else if z =? 1 then QuicLongZeroRtt
  else if z =? 2 then QuicLongHandshake
  else QuicLongRetry.

Definition is_initial (t : QuicLongPacketType) : bool :=
  match t with QuicLongInitial => true | _ => false end.

Record QuicPacketHeader : Type := mkHeader {
  isLong : bool;
  longType : QuicLongPacketType;
  version : Z;
  dcid : list Z;
  scid : list Z;
  token : list Z;
  packetNumber : Z;
  pnLength : Z;
  headerLength : Z;
  pnOffset : Z;
  payloadLength : Z;
  keyPhase : bool
}.

Definition header0 : QuicPacketHeader :=
  mkHeader false QuicLongInitial 0 [] [] [] 0 0 0 0 0 false.

(** ** Building *)

(** [encodeConnId]: on failure nothing is appended; the callers ignore the flag. *)
Definition encodeConnId (id out : list Z) : bool * list Z :=
  if zlen id >? 20 then (false, out) else (true, out ++ [u8 (zlen id)] ++ id).

(** [writePn]: the low [pnLength] bytes, most significant first. *)
Fixpoint writePnLoop (n : nat) (pn : Z) (out : list Z) : list Z :=
  match n with
  | O => out
  | S n' => writePnLoop n' pn (out ++ [Z.land (Z.shiftr pn (8 * Z.of_nat n')) 255])
  end.

Definition writePn (out : list Z) (pn pnLength : Z) : list Z :=
  writePnLoop (Z.to_nat pnLength) pn out.

(** The four version bytes. *)
Definition versionBytes (version : Z) : list Z :=
  [Z.land (Z.shiftr version 24) 255; Z.land (Z.shiftr version 16) 255;
   Z.land (Z.shiftr version 8) 255; Z.land version 255].

Definition quicBuildLongHeader (type : QuicLongPacketType) (version : Z)
    (dcid scid token : list Z) (packetNumber pnLength payloadAndTagLen : Z) : list Z :=
  let first := 192 in
  let first := Z.lor first (u8 (Z.shiftl (Z.land (longType_value type) 3) 4)) in
  let first := Z.lor first (u8 (Z.land (pnLength - 1) 3)) in
  let out := [first] ++ versionBytes version in
  let out := (encodeConnId dcid out).2 in
  let out := (encodeConnId scid out).2 in
  let out := if is_initial type then (quicEncodeVarint (zlen token) out).2 ++ token else out in
  let lengthField := u64 (payloadAndTagLen + pnLength) in
  let out := (quicEncodeVarint lengthField out).2 in
  writePn out packetNumber pnLength.

Definition quicBuildShortHeader (dcid : list Z) (packetNumber pnLength : Z) (keyPhase : bool) :
    list Z :=
  let first := 64 in
  let first := if keyPhase then Z.lor first 4 else first in
  let first := Z.lor first (u8 (Z.land (pnLength - 1) 3)) in
  writePn ([first] ++ dcid) packetNumber pnLength.

(** ** Parsing *)

(** [decodeConnId] *)
Definition decodeConnId : parser (list Z) :=
  _ ← check (fun size off => negb (off >=? size));
  len ← next_byte;
  _ ← check (fun size off => negb ((len >? 20) || (u64 (off + len) >? size)));
  next_bytes len.

(** The big-endian version in [data[1..4]]. *)
Definition fetchVersion (data : list Z) : result Z :=
  b1 ← fetch data 1;
  b2 ← fetch data 2;
  b3 ← fetch data 3;
  b4 ← fetch data 4;
  Ret (Z.lor (Z.lor (Z.lor (Z.shiftl b1 24) (Z.shiftl b2 16)) (Z.shiftl b3 8)) b4).

(** The Initial token: a length and that many bytes. *)
Definition readToken : parser (list Z) :=
  tokenLen ← readVarint;
  _ ← check (fun size off => negb (u64 (off + tokenLen) >? size));
  next_bytes tokenLen.

(** [for (i = 0; i < pnLength; ++i) pn = (pn << 8) | data[off + i]] *)
Fixpoint readPnLoop (n : nat) (pn : Z) : parser Z :=
  match n with
  | O => mret pn
  | S n' => b ← next_byte; readPnLoop n' (Z.lor (u64 (Z.shiftl pn 8)) b)
  end.

(** The current offset. *)
Definition cursor : parser Z := fun _ off => Ret (off, off).

(** The long-header branch, from the connection ids on; the members it does not
    assign keep their value in [h]. *)
Definition parseLongHeader (first ver : Z) (skipPn : bool) (h : QuicPacketHeader) :
    parser QuicPacketHeader :=
  let ty := longType_cast (Z.land (Z.shiftr first 4) 3) in
  d ← decodeConnId;
  s ← decodeConnId;
  tok ← (if is_initial ty then readToken else mret h.(token));
  length ← readVarint;
  off ← cursor;
  let pnLen := Z.land first 3 + 1 in
  if skipPn then
    mret (mkHeader true ty ver d s tok h.(packetNumber) pnLen off off length h.(keyPhase))
  else
    _ ← check (fun size off => negb (u64 (off + pnLen) >? size));
    pn ← readPnLoop (Z.to_nat pnLen) 0;
    mret (mkHeader true ty ver d s tok pn pnLen (off + pnLen) off length h.(keyPhase)).

Definition quicParsePacketHeader (data : list Z) (h : QuicPacketHeader) (skipPn : bool) :
    result QuicPacketHeader :=
  if zlen data <? 1 then Reject else
  first ← fetch data 0;
  if negb (Z.land first 128 =? 0) then
    if zlen data <? 5 then Reject else
    ver ← fetchVersion data;
    r ← parseLongHeader first ver skipPn h data 5;
    Ret r.1
  else
    Ret (mkHeader false h.(longType) h.(version) h.(dcid) h.(scid) h.(token)
           h.(packetNumber) (Z.land first 3 + 1) 1 1 h.(payloadLength) h.(keyPhase)).

(** ** Retry packets *)

Section Retry.
Context `{C : Crypto}.

(** [quicRetryIntegrityTag]: the empty string on failure. *)
Definition quicRetryIntegrityTag (odcid pseudoPacket : list Z) : list Z :=
  let secret := hkdfExtract [] odcid in
  let key := hkdfExpandLabel secret (str "quic key") [] 16 in
  let iv := hkdfExpandLabel secret (str "quic iv") [] 12 in
  if negb (aead_setKey key) then []
  else match aead_seal key iv [] pseudoPacket with
       | Ret sealed => if zlen sealed <? 16 then []
                       else drop (Z.to_nat (zlen sealed - 16)) sealed
       | _ => []
       end.

Definition pseudoPacket (odcid packet : list Z) : list Z :=
  [u8 (zlen odcid)] ++ odcid ++ packet.

(** [quicBuildRetryPacket]: the empty string on failure. *)
Definition quicBuildRetryPacket (version : Z) (dcid scid token odcid : list Z) : list Z :=
  let out := [240] ++ versionBytes version in
  let out := (encodeConnId dcid out).2 in
  let out := (encodeConnId scid out).2 in
  let out := out ++ token in
  let tag := quicRetryIntegrityTag odcid (pseudoPacket odcid out) in
  if negb (zlen tag =? 16) then [] else out ++ tag.

(** [quicParseRetryPacket]: version, dcid, scid and token.  The comparison of
    the tag is part of the result. *)
Definition quicParseRetryPacket (data odcid : list Z) :
  result (Z * list Z * list Z * list Z) :=
  if zlen data <? 5 then Reject else
  first ← fetch data 0;
  if (Z.land first 128 =? 0) || negb (Z.land (Z.shiftr first 4) 3 =? 3)
   || (Z.land first 64 =? 0)
  then Reject else
  ver ← fetchVersion data;
  r ← (d ← decodeConnId; s ← decodeConnId; mret (d, s)) data 5;
  let '(d, s, off) := r in
  if u64 (off + 16) >? zlen data then Reject else
  let tokenLen := zlen data - off - 16 in
  tok ← fetch_slice data off tokenLen;
  pseudo ← fetch_slice data 0 (zlen data - 16);
  let tag := quicRetryIntegrityTag odcid (pseudoPacket odcid pseudo) in
  wire ← fetch_slice data (off + tokenLen) 16;
  if (zlen tag =? 16) && bool_decide (tag = wire) then Ret (ver, d, s, tok) else Reject.
End Retry.
