(* ===== verification/QuicPacketProofs.v ===== *)
(** * Round trip and safety of QUIC packet headers and Retry packets *)

From S2P Require Import Prelude Codec QuicVarint CryptoApi QuicPacket QuicFrameSafety.

(** ** The bytes of a header *)

Lemma writePn_bytes out pn n : 0 <= n -> writePn out pn n = out ++ be_encode (Z.to_nat n) pn.
Proof.
  intros _. unfold writePn. generalize (Z.to_nat n) as k. intros k. revert out.
  induction k as [| k IH]; intros out; simpl; [by rewrite app_nil_r |].
  rewrite IH, <- app_assoc, land_255, shiftr_div by lia. done.
Qed.

Lemma versionBytes_be v : versionBytes v = be_encode 4 v.
Proof.
  unfold versionBytes. rewrite !land_255, !shiftr_div by lia. simpl.
  by rewrite Z.div_1_r.
Qed.

Definition cid_bytes (id : list Z) : list Z := zlen id :: id.

Lemma encodeConnId_bytes id out :
  zlen id <= 20 -> encodeConnId id out = (true, out ++ cid_bytes id).
Proof.
  intros. unfold encodeConnId. test_false.
  unfold wrapu. rewrite Z.mod_small by (zlen_pose; lia). done.
Qed.

(** Everything between the version and the packet number. *)
Definition long_body (ty : QuicLongPacketType) (d s tok : list Z) (len : Z) : list Z :=
  cid_bytes d ++ cid_bytes s
    ++ (if is_initial ty then varint_bytes (zlen tok) ++ tok else []) ++ varint_bytes len.

Lemma long_first_byte ty n : 1 <= n <= 4 ->
  Z.lor (Z.lor 192 (u8 (Z.shiftl (Z.land (longType_value ty) 3) 4))) (u8 (Z.land (n - 1) 3))
  = 192 + 16 * longType_value ty + (n - 1).
Proof.
  intros Hn. assert (n = 1 \/ n = 2 \/ n = 3 \/ n = 4) as [-> | [-> | [-> | ->]]] by lia;
    by destruct ty.
Qed.

Lemma quicBuildLongHeader_bytes ty v d s tok pn n len :
  zlen d <= 20 -> zlen s <= 20 -> zlen tok < 2 ^ 62 -> 1 <= n <= 4 ->
  0 <= len -> len + n < 2 ^ 62 ->
  quicBuildLongHeader ty v d s tok pn n len =
    (192 + 16 * longType_value ty + (n - 1)) :: be_encode 4 v
      ++ long_body ty d s tok (len + n) ++ be_encode (Z.to_nat n) pn.
Proof.
  intros Hd Hs Htok Hn Hlen Hmax. unfold quicBuildLongHeader, long_body.
  rewrite long_first_byte, versionBytes_be, !encodeConnId_bytes by done. cbn [snd].
  assert (u64 (len + n) = len + n) as -> by (apply Z.mod_small; lia).
  rewrite writePn_bytes by lia. pose proof (zlen_nonneg tok).
  destruct (is_initial ty); rewrite !quicEncodeVarint_bytes by lia; cbn [snd];
    rewrite <- ?app_assoc; done.
Qed.

(** ** Reading a header back *)

Lemma fetchVersion_be b0 v post :
  0 <= v < 2 ^ 32 -> fetchVersion (b0 :: be_encode 4 v ++ post) = Ret v.
Proof.
  intros Hv. unfold fetchVersion, fetch. simpl. f_equal.
  pow2_const. rewrite (Z.div_1_r v).
  set (b1 := (v / 16777216) mod 256). set (b2 := (v / 65536) mod 256).
  set (b3 := (v / 256) mod 256). set (b4 := v mod 256).
  assert (0 <= b1 < 256 /\ 0 <= b2 < 256 /\ 0 <= b3 < 256 /\ 0 <= b4 < 256)
    as (H1 & H2 & H3 & H4) by (unfold b1, b2, b3, b4; split_and!; dm_lia).
  replace (Z.shiftl b1 24) with (Z.shiftl (b1 * 256) 16)
    by (rewrite !shiftl_mul by lia; pow2_const; lia).
  assert (Z.lor (Z.shiftl (b1 * 256) 16) (Z.shiftl b2 16) = Z.shiftl (b1 * 256 + b2) 16) as ->.
  { rewrite <- Z.shiftl_lor. f_equal. change 256 with (2 ^ 8). apply lor_high; lia. }
  replace (Z.shiftl (b1 * 256 + b2) 16) with (Z.shiftl ((b1 * 256 + b2) * 256) 8)
    by (rewrite !shiftl_mul by lia; pow2_const; lia).
  assert (Z.lor (Z.shiftl ((b1 * 256 + b2) * 256) 8) (Z.shiftl b3 8)
          = Z.shiftl ((b1 * 256 + b2) * 256 + b3) 8) as ->.
  { rewrite <- Z.shiftl_lor. f_equal. change 256 with (2 ^ 8) at 2.
    rewrite lor_high; [done | lia | lia]. }
  rewrite lor_shiftl_8 by done. unfold b1, b2, b3, b4.
  dm_lia.
Qed.

Lemma reads_decodeConnId id : zlen id <= 20 -> reads decodeConnId (cid_bytes id) id.
Proof.
  intros Hid. unfold decodeConnId, cid_bytes. change (zlen id :: id) with ([zlen id] ++ id).
  apply reads_check. { intros size off ? Hsz ?. zlen_lia. }
  eapply reads_bind; [apply reads_next_byte |].
  apply reads_check; [| by apply reads_next_bytes].
  intros size off ? Hsz ?. pose proof (zlen_nonneg id). unfold wrapu.
  rewrite Z.mod_small by lia. lia.
Qed.

Lemma reads_readToken tok : zlen tok < 2 ^ 62 ->
  reads readToken (varint_bytes (zlen tok) ++ tok) tok.
Proof.
  intros Htok. pose proof (zlen_nonneg tok). unfold readToken.
  eapply reads_bind; [apply reads_varint; lia |].
  apply reads_check; [| by apply reads_next_bytes].
  intros size off ? Hsz ?. unfold wrapu. rewrite Z.mod_small by lia. lia.
Qed.

Lemma reads_readPnLoop bs acc :
  is_bytes bs -> 0 <= acc -> (acc + 1) * 256 ^ zlen bs <= 2 ^ 64 ->
  reads (readPnLoop (length bs) acc) bs (acc * 256 ^ zlen bs + be_decode bs).
Proof.
  intros Hbs. revert acc. induction Hbs as [| b bs Hb Hbs IH]; intros acc Hacc Hmax; simpl.
  - rewrite zlen_nil. replace (acc * 256 ^ 0 + be_decode []) with acc by (unfold be_decode; simpl; lia).
    apply reads_ret.
  - change (b :: bs) with ([b] ++ bs). eapply reads_bind; [apply reads_next_byte |].
    change ([b] ++ bs) with (b :: bs). rewrite zlen_cons in *.
    rewrite Z.pow_add_r, Z.pow_1_r in * by zlen_lia.
    assert (0 < 256 ^ zlen bs) by (apply Z.pow_pos_nonneg; zlen_lia).
    assert (Hstep : Z.lor (u64 (Z.shiftl acc 8)) b = acc * 256 + b).
    { unfold wrapu. rewrite Z.mod_small.
      - by apply lor_shiftl_8.
      - rewrite shiftl_mul by lia. change (2 ^ 8) with 256. nia. }
    rewrite Hstep, be_decode_cons.
    replace (acc * (256 * 256 ^ zlen bs) + (b * 256 ^ zlen bs + be_decode bs))
      with ((acc * 256 + b) * 256 ^ zlen bs + be_decode bs) by lia.
    unfold is_byte in *. apply IH; nia.
Qed.

(** The type bits of the first byte. *)
Definition first_type (first : Z) : QuicLongPacketType :=
  longType_cast (Z.land (Z.shiftr first 4) 3).

Section LongHeader.
Context (first v : Z) (d s tok : list Z) (len : Z) (h : QuicPacketHeader).
Hypothesis Hd : zlen d <= 20.
Hypothesis Hs : zlen s <= 20.
Hypothesis Htok : zlen tok < 2 ^ 62.
Hypothesis Hlen : 0 <= len < 2 ^ 62.

Abbreviation ty := (first_type first).
Abbreviation body := (long_body ty d s tok len).
Abbreviation tok' := (if is_initial ty then tok else h.(token)).

Lemma reads_token_opt :
  reads (if is_initial ty then readToken else mret h.(token))
    (if is_initial ty then varint_bytes (zlen tok) ++ tok else []) tok'.
Proof. destruct (is_initial ty); [by apply reads_readToken | apply reads_ret]. Qed.

(** The parse up to the packet number. *)
Lemma parseLongHeader_body {B} (K : list Z -> list Z -> list Z -> Z -> Z -> parser B) b bs o :
  reads_from (o + zlen body) (K d s tok' len (o + zlen body)) bs b ->
  reads_from o
    (d ← decodeConnId; s ← decodeConnId;
     tk ← (if is_initial ty then readToken else mret h.(token));
     l ← readVarint; off ← cursor; K d s tk l off)
    (body ++ bs) b.
Proof.
  intros HK. unfold long_body in *. rewrite <- !app_assoc. rewrite !zlen_app in HK.
  eapply reads_from_bind; [by apply reads_reads_from, reads_decodeConnId |].
  eapply reads_from_bind; [by apply reads_reads_from, reads_decodeConnId |].
  eapply reads_from_bind; [apply reads_reads_from, reads_token_opt |].
  eapply reads_from_bind; [by apply reads_reads_from, reads_varint |].
  rewrite <- !Z.add_assoc.
  apply (reads_from_bind _ cursor _ [] bs (o + (zlen (cid_bytes d) + (zlen (cid_bytes s) +
    (zlen (if is_initial ty then varint_bytes (zlen tok) ++ tok else [])
     + zlen (varint_bytes len))))));
    [| by rewrite zlen_nil, Z.add_0_r].
  intros pre post Ho _. unfold cursor. by rewrite zlen_nil, Z.add_0_r.
Qed.

Lemma parseLongHeader_skip :
  reads_from 5 (parseLongHeader first v true h) body
    (mkHeader true ty v d s tok' h.(packetNumber) (Z.land first 3 + 1)
       (5 + zlen body) (5 + zlen body) len h.(keyPhase)).
Proof.
  unfold parseLongHeader. fold ty. rewrite <- (app_nil_r body) at 1.
  apply (parseLongHeader_body
    (fun d s tk l off => mret (mkHeader true ty v d s tk h.(packetNumber)
       (Z.land first 3 + 1) off off l h.(keyPhase)))).
  apply reads_reads_from, reads_ret.
Qed.

Lemma parseLongHeader_pn pnb :
  is_bytes pnb -> zlen pnb = Z.land first 3 + 1 -> zlen pnb <= 4 ->
  reads_from 5 (parseLongHeader first v false h) (body ++ pnb)
  (mkHeader true ty v d s tok' (be_decode pnb) (zlen pnb)
     (5 + zlen body + zlen pnb) (5 + zlen body) len h.(keyPhase)).
Proof.
  intros Hpnb Hlenpn H4. unfold parseLongHeader. fold ty. rewrite <- Hlenpn.
  apply (parseLongHeader_body
  (fun d s tk l off =>
    _ ← check (fun size off => negb (u64 (off + zlen pnb) >? size));
    pn ← readPnLoop (Z.to_nat (zlen pnb)) 0;
    mret (mkHeader true ty v d s tk pn (zlen pnb) (off + zlen pnb) off l h.(keyPhase)))).
  apply reads_reads_from, reads_check.
  { intros size off ? Hsz ?. unfold wrapu. zlen_pose. rewrite Z.mod_small by lia. lia. }
  apply (reads_bind_ret _ (fun pn => mkHeader true ty v d s tok' pn _ _ _ len _)).
  rewrite zlen_to_nat. replace (be_decode pnb) with (0 * 256 ^ zlen pnb + be_decode pnb) by lia.
  apply reads_readPnLoop; [done | lia |].
  assert (256 ^ zlen pnb <= 256 ^ 4) by (apply Z.pow_le_mono_r; lia). lia.
Qed.
End LongHeader.

(** The header-form bit. *)
Lemma land_128_high b : 128 <= b < 256 -> Z.land b 128 = 128.
Proof.
  intros Hb. change 128 with (2 ^ 7). rewrite land_pow2_testbit by lia.
  assert (Z.testbit b 7 = true) as ->; [| done].
  apply Z.testbit_true; [lia |]. change (2 ^ 7) with 128. dm_lia.
Qed.

(** A buffer that starts with a long-header byte and a version goes through the
    long-header branch at offset 5. *)
Lemma parse_long_at first v bs post h skipPn r :
  128 <= first < 256 -> 0 <= v < 2 ^ 32 ->
  reads_from 5 (parseLongHeader first v skipPn h) bs r ->
  buffer (first :: be_encode 4 v ++ bs ++ post) ->
  quicParsePacketHeader (first :: be_encode 4 v ++ bs ++ post) h skipPn = Ret r.
Proof.
  intros Hf Hv Hr Hbuf. unfold quicParsePacketHeader.
  rewrite zlen_cons, !zlen_app, zlen_be_encode. change (Z.of_nat 4) with 4. test_false.
  change (fetch (first :: be_encode 4 v ++ bs ++ post) 0) with (Ret first). cbn [mbind result_bind].
  rewrite land_128_high by done. test_true. test_false. rewrite fetchVersion_be by done. cbn [mbind result_bind].
  specialize (Hr (first :: be_encode 4 v) post).
  rewrite <- app_comm_cons in Hr. rewrite Hr; done.
Qed.

Lemma first_type_value ty n : 1 <= n <= 4 ->
  first_type (192 + 16 * longType_value ty + (n - 1)) = ty
  /\ Z.land (192 + 16 * longType_value ty + (n - 1)) 3 + 1 = n.
Proof.
  intros Hn. assert (n = 1 \/ n = 2 \/ n = 3 \/ n = 4) as [-> | [-> | [-> | ->]]] by lia;
    by destruct ty.
Qed.

(** A long header that was built is parsed back to the same type, version, connection
    ids, token, truncated packet number and length, with the offsets of its packet number
    and payload. *)
Theorem quicParsePacketHeader_build ty v d s tok pn n len post :
  zlen d <= 20 -> zlen s <= 20 -> zlen tok < 2 ^ 62 -> 0 <= v < 2 ^ 32 -> 0 <= pn ->
  1 <= n <= 4 -> 0 <= len -> len + n < 2 ^ 62 ->
  let hdr := quicBuildLongHeader ty v d s tok pn n len in
  buffer (hdr ++ post) ->
  quicParsePacketHeader (hdr ++ post) header0 false =
    Ret (mkHeader true ty v d s (if is_initial ty then tok else []) (pn mod 256 ^ n) n
           (zlen hdr) (zlen hdr - n) (len + n) false).
Proof.
  intros Hd Hs Htok Hv Hpn Hn Hlen Hmax hdr Hbuf. unfold hdr in *.
  destruct (first_type_value ty n Hn) as [Hty Hn3].
  rewrite quicBuildLongHeader_bytes in Hbuf |- * by done.
  rewrite <- app_comm_cons, <- !app_assoc, (app_assoc (long_body _ _ _ _ _)) in Hbuf |- *.
  rewrite zlen_cons, !zlen_app, !zlen_be_encode.
  set (first := 192 + 16 * longType_value ty + (n - 1)) in *.
  assert (128 <= first < 256) by (unfold first; destruct ty; simpl; lia).
  assert (Hpnlen : zlen (be_encode (Z.to_nat n) pn) = n) by (rewrite zlen_be_encode; lia).
  pose proof (parseLongHeader_pn first v d s tok (len + n) header0 Hd Hs Htok
                ltac:(lia) (be_encode (Z.to_nat n) pn) (be_encode_bytes _ _)
                ltac:(lia) ltac:(lia)) as Hr.
  rewrite Hty, Hpnlen, be_encode_decode in Hr by lia.
  rewrite (parse_long_at _ _ _ _ _ _ _ ltac:(done) Hv Hr Hbuf).
  rewrite Z2Nat.id by lia. f_equal. f_equal; simpl; lia.
Qed.

(** ** Safety of the header parser *)

Section Safety.
Context (data : list Z).
Hypothesis Hbytes : is_bytes data.
Hypothesis Hfits : fits data.

Lemma wp_decodeConnId off (Q : list Z -> Z -> Prop) :
  0 <= off <= zlen data ->
  (forall id off', is_bytes id -> zlen id <= 20 -> off < off' <= zlen data ->
     off' = off + 1 + zlen id -> Q id off') ->
  wp decodeConnId Q data off.
Proof.
  intros Hoff HQ. unfold decodeConnId. unfold fits in *.
  wp_step. wp_step. wp_step. wp_step. unfold is_byte in *. wp_step. wp_step.
  unfold wrapu in *. rewrite Z.mod_small in * by lia. wp_step. apply HQ; done || lia.
Qed.

Lemma wp_readToken off (Q : list Z -> Z -> Prop) :
  0 <= off <= zlen data ->
  (forall tok off', is_bytes tok -> off < off' <= zlen data -> Q tok off') ->
  wp readToken Q data off.
Proof.
  intros Hoff HQ. unfold readToken. wp_step. apply wp_readVarint; [done | lia |].
  intros len off' Hlen Hoff'. wp_step. wp_step. unfold fits, wrapu in *.
  rewrite Z.mod_small in * by lia. wp_step. apply HQ; done || lia.
Qed.

Lemma wp_readPnLoop n pn off (Q : Z -> Z -> Prop) :
  0 <= off -> off + Z.of_nat n <= zlen data ->
  (forall v, Q v (off + Z.of_nat n)) -> wp (readPnLoop n pn) Q data off.
Proof.
  revert pn off. induction n as [| n IH]; intros pn off H1 H2 HQ; cbn [readPnLoop].
  - wp_step. by replace off with (off + Z.of_nat 0) by lia.
  - wp_step. wp_step. apply IH; try lia.
    intros v. by replace (off + 1 + Z.of_nat n) with (off + Z.of_nat (S n)) by lia.
Qed.

Definition header_bounds (h : QuicPacketHeader) : Prop :=
  h.(isLong) = true /\ zlen h.(dcid) <= 20 /\ zlen h.(scid) <= 20
  /\ 1 <= h.(pnLength) <= 4 /\ 0 <= h.(pnOffset) <= h.(headerLength)
  /\ h.(headerLength) <= zlen data /\ 0 <= h.(payloadLength) < 2 ^ 62.

Lemma wp_parseLongHeader first v skipPn h off :
  0 <= off <= zlen data ->
  wp (parseLongHeader first v skipPn h) (fun h' _ => header_bounds h') data off.
Proof.
  intros Hoff. unfold parseLongHeader.
  assert (Hpn : 0 <= Z.land first 3 < 4)
  by (change 3 with (Z.ones 2); rewrite Z.land_ones by lia; dm_lia).
  wp_step. apply wp_decodeConnId; [done |]. intros d o1 Hd Hd20 Ho1 _.
  wp_step. apply wp_decodeConnId; [lia |]. intros s o2 Hs Hs20 Ho2 _.
  wp_step. apply (wp_mono _ _ (fun _ o3 => o2 <= o3 <= zlen data)).
  { apply wp_if; intros _; [apply wp_readToken; intros; lia | wp_step; lia]. }
  intros tok o3 Ho3.
  wp_step. apply wp_readVarint; [done | lia |]. intros len o4 Hlen Ho4.
  wp_step. unfold wp, cursor. fold (@wp QuicPacketHeader).
  apply wp_if; intros _.
  - wp_step. unfold header_bounds. simpl. lia.
  - wp_step. wp_step. unfold fits, wrapu in *. rewrite Z.mod_small in * by lia.
  wp_step. apply wp_readPnLoop; try lia. intros pn. wp_step.
  unfold header_bounds. simpl. lia.
Qed.
End Safety.

Lemma fetchVersion_in data :
  5 <= zlen data -> exists v, fetchVersion data = Ret v.
Proof.
  intros H. unfold fetchVersion.
  destruct (fetch_in data 1 ltac:(lia)) as (b1 & _ & ->).
  destruct (fetch_in data 2 ltac:(lia)) as (b2 & _ & ->).
  destruct (fetch_in data 3 ltac:(lia)) as (b3 & _ & ->).
  destruct (fetch_in data 4 ltac:(lia)) as (b4 & _ & ->). eauto.
Qed.

(** On any buffer the header parser stays in bounds, and so do the offsets it
    reports. *)
Lemma parse_header_safe data h skipPn :
  buffer data ->
  safe (fun h' => h'.(isLong) = false \/ header_bounds data h')
    (quicParsePacketHeader data h skipPn).
Proof.
  intros [Hb Hf]. unfold quicParsePacketHeader. apply safe_if; intros; [done |]. bool_to_prop.
  eapply safe_bind; [by apply (safe_fetch is_byte); [done | lia |] |]. intros b0 Hb0.
  apply safe_if; intros _; [| by left].
  apply safe_if; intros; [done |]. bool_to_prop.
  destruct (fetchVersion_in data ltac:(lia)) as [v ->]. cbn [mbind result_bind].
  pose proof (wp_parseLongHeader data Hb Hf b0 v skipPn h 5 ltac:(lia)) as Hwp.
  unfold wp in Hwp. destruct (parseLongHeader b0 v skipPn h data 5) as [[h' o] | | |]; try done.
  by right.
Qed.

Lemma quicParsePacketHeader_build_witness :
  let hdr := quicBuildLongHeader QuicLongHandshake 1 [1; 2; 3] [4] [] 77 1 30 in
  quicParsePacketHeader (hdr ++ [9; 9]) header0 false
  = Ret (mkHeader true QuicLongHandshake 1 [1; 2; 3] [4] [] (77 mod 256 ^ 1) 1
           (zlen hdr) (zlen hdr - 1) (30 + 1) false).
Proof.
  apply (quicParsePacketHeader_build QuicLongHandshake 1 [1; 2; 3] [4] [] 77 1 30 [9; 9]);
    first [split; [closed_bytes | done] | closed_lia].
Defined.

(** ** Retry packets: round trip and authenticity *)

Section Retry.
Context `{L : CryptoLaws}.

Lemma quicRetryIntegrityTag_length od p :
  zlen p <= INT_MAX -> zlen (quicRetryIntegrityTag od p) = 16.
Proof.
  intros Hp. unfold quicRetryIntegrityTag, hkdfExtract, hkdfExtractWith.
  change (zlen [] >? INT_MAX) with false. change (zlen [] =? 0) with true. cbv iota.
  set (secret := hmac_sha256 (replicate 32 0) od).
  assert (Hsec : zlen secret = 32) by apply hmac_sha256_length.
  assert (Hkey : zlen (hkdfExpandLabel secret (str "quic key") [] 16) = 16)
  by (apply hkdfExpandLabel_length; rewrite ?Hsec; vm_compute; intuition congruence).
  assert (Hiv : zlen (hkdfExpandLabel secret (str "quic iv") [] 12) = 12)
  by (apply hkdfExpandLabel_length; rewrite ?Hsec; vm_compute; intuition congruence).
  unfold aead_setKey, aead_seal. rewrite Hkey, Hiv. change (zlen []) with 0.
  unfold INT_MAX in *. repeat test_false. rewrite gcm_seal_length. zlen_pose. test_false.
  rewrite zlen_drop, gcm_seal_length by (rewrite gcm_seal_length; lia). lia.
Qed.

(** The packet without its tag. *)
Definition retry_body (v : Z) (d s tok : list Z) : list Z :=
  240 :: be_encode 4 v ++ cid_bytes d ++ cid_bytes s ++ tok.

Definition retry_tag (od body : list Z) : list Z :=
  quicRetryIntegrityTag od (pseudoPacket od body).

Lemma quicBuildRetryPacket_bytes v d s tok od :
  zlen d <= 20 -> zlen s <= 20 -> zlen od + zlen tok <= 2 ^ 30 ->
  quicBuildRetryPacket v d s tok od
  = retry_body v d s tok ++ retry_tag od (retry_body v d s tok).
Proof.
  intros Hd Hs Hlen. unfold quicBuildRetryPacket, retry_tag.
  rewrite versionBytes_be, !encodeConnId_bytes by done. cbn [snd].
  replace ((((([240] ++ be_encode 4 v) ++ cid_bytes d) ++ cid_bytes s) ++ tok))
    with (retry_body v d s tok) by (unfold retry_body; by rewrite <- !app_assoc).
  rewrite quicRetryIntegrityTag_length; [done |].
  unfold pseudoPacket, retry_body, cid_bytes, INT_MAX. autorewrite with zlen.
  rewrite zlen_be_encode. change (Z.of_nat 4) with 4. zlen_lia.
Qed.

Lemma reads_two_cids d s :
  zlen d <= 20 -> zlen s <= 20 ->
  reads (d ← decodeConnId; s ← decodeConnId; mret (d, s)) (cid_bytes d ++ cid_bytes s) (d, s).
Proof.
  intros. eapply reads_bind; [by apply reads_decodeConnId |].
  by apply (reads_bind_ret _ (fun s => (d, s))), reads_decodeConnId.
Qed.

(** The parser on a body followed by any 16 bytes: it accepts iff they are the tag. *)
Lemma quicParseRetryPacket_body v d s tok od wire :
  zlen d <= 20 -> zlen s <= 20 -> 0 <= v < 2 ^ 32 -> zlen wire = 16 ->
  buffer (retry_body v d s tok ++ wire) ->
  zlen (retry_tag od (retry_body v d s tok)) = 16 ->
  quicParseRetryPacket (retry_body v d s tok ++ wire) od =
  if bool_decide (retry_tag od (retry_body v d s tok) = wire)
  then Ret (v, d, s, tok) else Reject.
Proof.
  intros Hd Hs Hv Hw Hbuf Htag.
  set (data := retry_body v d s tok ++ wire) in *.
  set (pre := 240 :: be_encode 4 v).
  assert (Hdata : data = pre ++ (cid_bytes d ++ cid_bytes s) ++ (tok ++ wire)).
  { unfold data, retry_body, pre. rewrite <- app_comm_cons, <- !app_assoc. done. }
  assert (Hpre : zlen pre = 5) by (unfold pre; rewrite zlen_cons, zlen_be_encode; done).
  set (off := 5 + zlen (cid_bytes d ++ cid_bytes s)).
  assert (Hoff5 : 5 <= off) by (unfold off; zlen_pose; lia).
  assert (Hsize : zlen data = off + zlen tok + 16)
  by (rewrite Hdata, !zlen_app; unfold off; rewrite Hpre, Hw, zlen_app; lia).
  assert (Hbl : zlen (retry_body v d s tok) = off + zlen tok)
  by (unfold data in Hsize; rewrite zlen_app, Hw in Hsize; lia).
  pose proof (zlen_nonneg tok).
  unfold quicParseRetryPacket. rewrite Hsize. test_false.
  assert (fetch data 0 = Ret 240) as -> by (by rewrite Hdata).
  cbn [mbind result_bind]. change ((Z.land 240 128 =? 0) || _ || _)%bool with false. cbv iota.
  assert (fetchVersion data = Ret v) as ->
  by (rewrite Hdata; unfold pre; rewrite <- app_comm_cons; by apply fetchVersion_be).
  cbn [mbind result_bind].
  pose proof (reads_two_cids d s Hd Hs pre (tok ++ wire)) as Hr. rewrite Hpre, <- Hdata in Hr.
  unfold mbind in Hr |- *. rewrite Hr by done. clear Hr. cbn [result_bind]. fold off.
  assert (Hf : zlen data < 2 ^ 63) by apply Hbuf.
  assert (u64 (off + 16) = off + 16) as -> by (apply Z.mod_small; lia).
  test_false. replace (off + zlen tok + 16 - off - 16) with (zlen tok) by lia.
  assert (fetch_slice data off (zlen tok) = Ret tok) as ->.
  { rewrite Hdata. rewrite app_assoc.
  replace off with (zlen (pre ++ cid_bytes d ++ cid_bytes s))
    by (rewrite zlen_app, Hpre; done).
  apply fetch_slice_app_mid. }
  assert (fetch_slice data 0 (off + zlen tok + 16 - 16) = Ret (retry_body v d s tok)) as ->.
  { pose proof (fetch_slice_app_mid [] (retry_body v d s tok) wire) as Hm.
  rewrite Hbl in Hm. replace (off + zlen tok + 16 - 16) with (off + zlen tok) by lia.
  exact Hm. }
  cbn [result_bind]. fold (retry_tag od (retry_body v d s tok)).
  assert (fetch_slice data (off + zlen tok) 16 = Ret wire) as ->.
  { pose proof (fetch_slice_app_mid (retry_body v d s tok) wire []) as Hm.
  rewrite app_nil_r, Hbl, Hw in Hm. exact Hm. }
  cbn [result_bind]. rewrite Htag. done.
Qed.
End Retry.

(** A Retry packet that was built is accepted by the client that used the same
    original connection id, and gives back version, connection ids and token. *)
Theorem quicParseRetryPacket_build `{L : CryptoLaws} v d s tok od :
  zlen d <= 20 -> zlen s <= 20 -> 0 <= v < 2 ^ 32 -> zlen od + zlen tok <= 2 ^ 30 ->
  is_bytes (quicBuildRetryPacket v d s tok od) ->
  quicParseRetryPacket (quicBuildRetryPacket v d s tok od) od = Ret (v, d, s, tok).
Proof.
  intros Hd Hs Hv Hlen Hb. rewrite quicBuildRetryPacket_bytes in * by done.
  assert (Hpl : zlen (pseudoPacket od (retry_body v d s tok)) <= INT_MAX).
  { unfold pseudoPacket, retry_body, cid_bytes, INT_MAX. autorewrite with zlen.
    rewrite zlen_be_encode. change (Z.of_nat 4) with 4. zlen_lia. }
  pose proof (quicRetryIntegrityTag_length od _ Hpl) as Htag. fold (retry_tag od (retry_body v d s tok)) in Htag.
  rewrite quicParseRetryPacket_body; try done.
  - by rewrite bool_decide_true.
  - split; [done |]. unfold fits. rewrite zlen_app, Htag.
    unfold retry_body, cid_bytes. autorewrite with zlen. rewrite zlen_be_encode.
    change (Z.of_nat 4) with 4. zlen_lia.
Qed.

Lemma quicParseRetryPacket_build_witness :
  let _ := toy_crypto in
  quicParseRetryPacket (quicBuildRetryPacket 1 [1; 2] [3; 4] [5; 6; 7] [8; 9]) [8; 9]
  = Ret (1, [1; 2], [3; 4], [5; 6; 7]).
Proof.
  apply (@quicParseRetryPacket_build toy_crypto toy_crypto_laws); first [closed_bytes | closed_lia].
Defined.
