(* ===== verification/QuicCrypto.v ===== *)
(** * QUIC packet protection ([src/src/quic_crypto.cpp])

    Nonces, header protection, packet-number reconstruction, and the two entry
    points [quicProtectPacket] and [quicUnprotectPacket]. *)

From S2P Require Import Prelude Codec QuicVarint CryptoApi QuicPacket.

Record QuicTrafficKeys : Type := mkKeys { key : list Z; iv : list Z; hp : list Z }.

(** [QuicTrafficKeys::valid] *)
Definition keys_valid (k : QuicTrafficKeys) : bool :=
  (zlen k.(key) =? 16) && (zlen k.(iv) =? 12) && (zlen k.(hp) =? 16).

(** [for (i = 0; i < 8; ++i) nonce[11 - i] ^= (packetNumber >> (8 * i)) & 0xff],
    the [n] last rounds. *)
Fixpoint nonceLoop (n : nat) (i pn : Z) (nonce : list Z) : result (list Z) :=
  match n with
  | O => Ret nonce
  | S n' =>
      b ← fetch nonce (11 - i);
      nonceLoop n' (i + 1) pn
        (<[Z.to_nat (11 - i) := Z.lxor b (Z.land (Z.shiftr pn (8 * i)) 255)]> nonce)
  end.

Definition quicNonceFromIv (iv : list Z) (packetNumber : Z) : result (list Z) :=
  if negb (zlen iv =? 12) then Ret [] else nonceLoop 8 0 packetNumber iv.

(** [quicDecodePacketNumber], RFC 9000 A.3, on 64 bits. *)
Definition quicDecodePacketNumber (largestPn truncated pnLength : Z) : Z :=
  let pnNbits := pnLength * 8 in
  let expectedPn := u64 (largestPn + 1) in
  let pnWin := u64 (Z.shiftl 1 pnNbits) in
  let pnHwin := pnWin / 2 in
  let pnMask := u64 (pnWin - 1) in
  let candidate := Z.lor (Z.land expectedPn (u64 (Z.lnot pnMask))) truncated in
  if (u64 (candidate + pnHwin) <=? expectedPn) && (u64 (candidate + pnWin) <? Z.shiftl 1 62)
  then u64 (candidate + pnWin)
  else if (candidate >? u64 (expectedPn + pnHwin)) && (candidate >=? pnWin)
  then u64 (candidate - pnWin)
  else candidate.

(** The packet-number loop of [applyHeaderProtection]; an out-of-range index makes
    it return the empty string. *)
Fixpoint maskPnLoop (n : nat) (i : Z) (mask : list Z) (pnOffset : Z) (header : list Z) :
    result (list Z) :=
  match n with
  | O => Ret header
  | S n' =>
      if pnOffset + i >=? zlen header then Ret [] else
      b ← fetch header (pnOffset + i);
      m ← fetch mask (1 + i);
      maskPnLoop n' (i + 1) mask pnOffset (<[Z.to_nat (pnOffset + i) := Z.lxor b m]> header)
  end.

(** The RFC 9001 salt of QUIC version 1. *)
Definition quicInitialSalt : list Z :=
  [0x38; 0x76; 0x2c; 0xf7; 0xf5; 0x59; 0x34; 0xb3; 0x4d; 0x17;
   0x9a; 0xe6; 0xa4; 0xc8; 0x0c; 0xad; 0xcc; 0xbb; 0x7f; 0x0a].

Section Protection.
Context `{C : Crypto}.

Definition quicDeriveInitialSecret (dcid : list Z) (isClient : bool) : list Z :=
  let initialSecret := hkdfExtract quicInitialSalt dcid in
  hkdfExpandLabel initialSecret (if isClient then str "client in" else str "server in") [] 32.

(** [quicDeriveTrafficKeys] *)
Definition quicDeriveTrafficKeys (secret : list Z) : QuicTrafficKeys :=
  mkKeys (hkdfExpandLabel secret (str "quic key") [] 16)
         (hkdfExpandLabel secret (str "quic iv") [] 12)
         (hkdfExpandLabel secret (str "quic hp") [] 16).

(** [applyHeaderProtection]: the empty string on failure. *)
Definition applyHeaderProtection (hpKey sample header : list Z) (pnOffset pnLength : Z) :
    result (list Z) :=
  if (zlen sample <? 16) || negb (zlen hpKey =? 16) || (pnOffset >=? zlen header) then Ret []
  else
  let mask := aesEcbEncryptBlock hpKey (slice sample 0 16) in
  if negb (zlen mask =? 16) then Ret [] else
  first ← fetch header 0;
  m0 ← fetch mask 0;
  let first := if negb (Z.land first 128 =? 0) then Z.lxor first (Z.land m0 15)
               else Z.lxor first (Z.land m0 31) in
  maskPnLoop (Z.to_nat pnLength) 0 mask pnOffset (<[0%nat := first]> header).

(** [removeHeaderProtection]: the header with the members it assigns, and the
    additional data. *)
Definition removeHeaderProtection (keys : QuicTrafficKeys) (data : list Z)
    (h : QuicPacketHeader) (expectedPn : Z) : result (QuicPacketHeader * list Z) :=
  if zlen data <? h.(pnOffset) + 4 + 16 then Reject else
  sample ← fetch_slice data (h.(pnOffset) + 4) 16;
  hdr ← fetch_slice data 0 (h.(pnOffset) + 4);
  unprotected ← applyHeaderProtection keys.(hp) sample hdr h.(pnOffset) 4;
  if zlen unprotected =? 0 then Reject else
  first ← fetch unprotected 0;
  let pnLen := Z.land first 3 + 1 in
  r ← readPnLoop (Z.to_nat pnLen) 0 unprotected h.(pnOffset);
  let truncated := r.1 in
  let headerLen := h.(pnOffset) + pnLen in
  let h' := mkHeader h.(isLong)
              (if h.(isLong) then longType_cast (Z.land (Z.shiftr first 4) 3) else h.(longType))
              h.(version) h.(dcid) h.(scid) h.(token)
              (quicDecodePacketNumber expectedPn truncated pnLen) pnLen headerLen
              h.(pnOffset) h.(payloadLength) (negb (Z.land first 4 =? 0)) in
  Ret (h', slice unprotected 0 headerLen).

(** [openPacketPayload] *)
Definition openPacketPayload (keys : QuicTrafficKeys) (aad ct : list Z) (packetNumber : Z) :
    result (list Z) :=
  nonce ← quicNonceFromIv keys.(iv) packetNumber;
  if negb (aead_setKey keys.(key)) then Reject else aead_open keys.(key) nonce aad ct.

Definition quicProtectPacket (keys : QuicTrafficKeys) (header payload : list Z)
    (packetNumber pnLength : Z) : result (list Z) :=
  if negb (keys_valid keys) || (pnLength <? 1) || (pnLength >? 4) then Reject else
  nonce ← quicNonceFromIv keys.(iv) packetNumber;
  if negb (aead_setKey keys.(key)) then Reject else
  sealed ← aead_seal keys.(key) nonce header payload;
  let pnOffset := u64 (zlen header - pnLength) in
  let packet := header ++ sealed in
  if zlen packet <? u64 (pnOffset + 4 + 16) then Reject else
  sample ← fetch_slice packet (pnOffset + 4) 16;
  protectedHeader ← applyHeaderProtection keys.(hp) sample header pnOffset pnLength;
  if zlen protectedHeader =? 0 then Reject else Ret (protectedHeader ++ sealed).

(** [quicUnprotectPacket]: header, payload and bytes consumed.  [h0] is the
    header the caller passes in, whose [dcid] has the length to expect. *)
Definition quicUnprotectPacket (keys : QuicTrafficKeys) (data : list Z)
  (h0 : QuicPacketHeader) (expectedPn : Z) : result (QuicPacketHeader * list Z * Z) :=
  if negb (keys_valid keys) || (zlen data <? 20) then Reject else
  h ← quicParsePacketHeader data header0 true;
  if negb h.(isLong) then
  let dcidLen := zlen h0.(dcid) in
  if zlen data <? 1 + dcidLen + 1 then Reject else
  d ← fetch_slice data 1 dcidLen;
  let h := mkHeader false h.(longType) h.(version) d h.(scid) h.(token) h.(packetNumber)
             h.(pnLength) h.(headerLength) (1 + dcidLen) h.(payloadLength) h.(keyPhase) in
  r ← removeHeaderProtection keys data h expectedPn;
  let '(h, aad) := r in
  let ctLen := zlen data - h.(headerLength) in
  ct ← fetch_slice data h.(headerLength) ctLen;
  plain ← openPacketPayload keys aad ct h.(packetNumber);
  Ret (h, plain, zlen data)
  else
  if (zlen data <? u64 (h.(pnOffset) + h.(payloadLength))) || (h.(payloadLength) <? 20)
  then Reject else
  let packetLen := u64 (h.(pnOffset) + h.(payloadLength)) in
  r ← removeHeaderProtection keys data h expectedPn;
  let '(h, aad) := r in
  if h.(payloadLength) <? h.(pnLength) + 16 then Reject else
  let ctLen := h.(payloadLength) - h.(pnLength) in
  if h.(headerLength) + ctLen >? packetLen then Reject else
  ct ← fetch_slice data h.(headerLength) ctLen;
  plain ← openPacketPayload keys aad ct h.(packetNumber);
  Ret (h, plain, packetLen).
End Protection.

(** ** Packet-number reconstruction *)

(** Clearing the low bits and putting others there. *)
Lemma replace_low a t k :
  0 <= k -> 0 <= a < 2 ^ 64 -> k <= 64 -> 0 <= t < 2 ^ k ->
  Z.lor (Z.land a (u64 (Z.lnot (2 ^ k - 1)))) t = a / 2 ^ k * 2 ^ k + t.
Proof.
  intros Hk Ha Hk64 Ht.
  assert (Hland : Z.land a (u64 (Z.lnot (2 ^ k - 1))) = a / 2 ^ k * 2 ^ k).
  { apply Z.bits_inj'. intros i Hi. rewrite Z.land_spec. unfold wrapu.
    replace (2 ^ k - 1) with (Z.ones k) by (rewrite Z.ones_equiv; lia).
    destruct (Z.lt_ge_cases i 64) as [Hi64 | Hi64].
    - rewrite Z.mod_pow2_bits_low, Z.lnot_spec by lia.
      destruct (Z.lt_ge_cases i k).
      + rewrite Z.ones_spec_low, Z.mul_pow2_bits_low by lia. apply andb_false_r.
      + rewrite Z.ones_spec_high by lia. simpl. rewrite andb_true_r, Z.mul_pow2_bits by lia.
        rewrite Z.div_pow2_bits by lia. f_equal. lia.
    - rewrite (testbit_small a 64) by lia. simpl. symmetry.
      apply (testbit_small _ 64); [| lia]. assert (0 < 2 ^ k) by (apply Z.pow_pos_nonneg; lia).
      assert (0 <= a / 2 ^ k) by (apply Z.div_pos; lia).
      pose proof (Z.mul_div_le a (2 ^ k) ltac:(lia)). lia. }
  rewrite Hland. by apply lor_high.
Qed.

Lemma window_even n : 1 <= n <= 4 -> 2 ^ (8 * n) = 2 * (2 ^ (8 * n) / 2).
Proof.
  intros Hn. replace (8 * n) with (Z.succ (8 * n - 1)) by lia.
  rewrite Z.pow_succ_r by lia. rewrite Z.mul_comm, Z.div_mul by lia. lia.
Qed.

(** The three outcomes of the reconstruction, without wrap-around. *)
Lemma decode_pn_cases largest t n :
  1 <= n <= 4 -> 0 <= largest < 2 ^ 62 -> 0 <= t < 2 ^ (8 * n) ->
  let win := 2 ^ (8 * n) in
  let c := (largest + 1) / win * win + t in
  let pn := quicDecodePacketNumber largest t n in
  (pn = c + win /\ c + win / 2 <= largest + 1 /\ c + win < 2 ^ 62)
  \/ (pn = c - win /\ c > largest + 1 + win / 2 /\ win <= c)
  \/ (pn = c /\ (largest + 1 < c + win / 2 \/ 2 ^ 62 <= c + win)
      /\ (c <= largest + 1 + win / 2 \/ c < win)).
Proof.
  intros Hn Hl Ht win c pn.
  assert (Hwin : 2 <= win <= 2 ^ 32)
    by (split; [apply (Z.pow_le_mono_r 2 1) | apply Z.pow_le_mono_r]; lia).
  assert (Hhw : 0 <= win / 2 <= 2 ^ 31) by dm_lia.
  pose proof (Z.mul_div_le (largest + 1) win ltac:(lia)).
  assert (0 <= (largest + 1) / win) by (apply Z.div_pos; lia).
  assert (0 <= (largest + 1) / win * win) by (apply Z.mul_nonneg_nonneg; lia).
  assert (0 <= c <= 2 ^ 62 + 2 ^ 32) by lia.
  assert (Hpn : pn = if (c + win / 2 <=? largest + 1) && (c + win <? 2 ^ 62) then c + win
                else if (c >? largest + 1 + win / 2) && (c >=? win) then u64 (c - win) else c).
  { unfold pn, quicDecodePacketNumber. rewrite Z.shiftl_1_l, (Z.mul_comm n 8). fold win.
    assert (u64 (largest + 1) = largest + 1) as -> by (apply Z.mod_small; lia).
    assert (u64 win = win) as -> by (apply Z.mod_small; lia).
    assert (u64 (win - 1) = win - 1) as -> by (apply Z.mod_small; lia).
    assert (Z.lor (Z.land (largest + 1) (u64 (Z.lnot (win - 1)))) t = c) as ->
      by (apply replace_low; lia).
    rewrite (Z.shiftl_1_l 62). unfold wrapu.
    by rewrite (Z.mod_small (c + win / 2)), (Z.mod_small (c + win)),
      (Z.mod_small (largest + 1 + win / 2)) by lia. }
  rewrite Hpn. repeat case_test; bool_to_prop.
  - left. lia.
  - right; left. unfold wrapu. rewrite Z.mod_small by lia. lia.
  - right; right. lia.
Qed.

(** A packet number in the window around the expected one is recovered. *)
Lemma decode_pn_window largest pn n :
  1 <= n <= 4 -> 0 <= largest < 2 ^ 62 -> 0 <= pn < 2 ^ 62 ->
  let hwin := 2 ^ (8 * n) / 2 in
  largest + 1 - hwin < pn <= largest + 1 + hwin ->
  quicDecodePacketNumber largest (pn mod 2 ^ (8 * n)) n = pn.
Proof.
  intros Hn Hl Hpn hwin Hw. set (win := 2 ^ (8 * n)) in *.
  assert (Hwin : 2 <= win <= 2 ^ 32)
    by (split; [apply (Z.pow_le_mono_r 2 1) | apply Z.pow_le_mono_r]; lia).
  assert (Hwe : win = 2 * hwin) by (by apply window_even).
  pose proof (Z.mod_pos_bound pn win ltac:(lia)) as Hmod.
  pose proof (decode_pn_cases largest (pn mod win) n Hn Hl Hmod) as Hc. cbv zeta in Hc. fold win hwin in Hc.
  pose proof (Z.div_mod pn win ltac:(lia)) as Hq.
  pose proof (Z.div_mod (largest + 1) win ltac:(lia)) as He.
  pose proof (Z.mod_pos_bound (largest + 1) win ltac:(lia)) as Hemod.
  set (q := pn / win) in *. set (e := (largest + 1) / win) in *.
  assert (0 <= e) by (apply Z.div_pos; lia). assert (0 <= q) by (apply Z.div_pos; lia).
  assert (0 <= q * win) by (apply Z.mul_nonneg_nonneg; lia).
  assert (q - e < 2) by (apply (Z.mul_lt_mono_pos_l win); lia).
  assert (-2 < q - e) by (apply (Z.mul_lt_mono_pos_l win); lia).
  assert (q = e - 1 \/ q = e \/ q = e + 1) as [Hqe | [Hqe | Hqe]] by lia; rewrite Hqe in *; lia.
Qed.
