(* ===== verification/QuicProtect.v ===== *)
(** * Packet protection is undone by packet unprotection

    Header protection is an exclusive or with a mask computed from bytes that it
    does not change, so applying it twice restores the header; with the packet
    number reconstructed in its window, the nonce and the additional data are
    those of the sender and the AEAD opens what was sealed. *)

From S2P Require Import Prelude Codec QuicVarint CryptoApi QuicPacket QuicPacketProofs QuicCrypto.

(** ** Exclusive or with a mask *)

Definition xor_mask (bs mask : list Z) : list Z := zip_with Z.lxor bs mask.

Lemma length_xor_mask bs mask :
  (length bs <= length mask)%nat -> length (xor_mask bs mask) = length bs.
Proof. intros. unfold xor_mask. rewrite length_zip_with. lia. Qed.

Lemma zlen_xor_mask bs mask : zlen bs <= zlen mask -> zlen (xor_mask bs mask) = zlen bs.
Proof. unfold zlen. intros. rewrite length_xor_mask; lia. Qed.

Lemma xor_mask_twice bs mask :
  (length bs <= length mask)%nat -> xor_mask (xor_mask bs mask) mask = bs.
Proof.
  unfold xor_mask. revert mask. induction bs as [| b bs IH]; intros mask Hl; [done |].
  destruct mask as [| m mask]; simpl in *; [lia |].
  rewrite Z.lxor_assoc, Z.lxor_nilpotent, Z.lxor_0_r, IH by lia. done.
Qed.

Lemma lxor_byte a b : is_byte a -> is_byte b -> is_byte (Z.lxor a b).
Proof.
  unfold is_byte. intros Ha Hb. change 256 with (2 ^ 8) in *.
  assert (0 <= Z.lxor a b) by (apply Z.lxor_nonneg; lia). split; [done |].
  apply Z.nle_gt. intros Hge.
  assert (Hl : 8 <= Z.log2 (Z.lxor a b)) by (apply Z.log2_le_pow2; lia).
  assert (Hbit : Z.testbit (Z.lxor a b) (Z.log2 (Z.lxor a b)) = true)
    by (apply Z.bit_log2; lia).
  rewrite Z.lxor_spec, (testbit_small a 8), (testbit_small b 8) in Hbit by lia. done.
Qed.

Lemma xor_mask_bytes bs mask : is_bytes bs -> is_bytes mask -> is_bytes (xor_mask bs mask).
Proof.
  unfold xor_mask. intros Hb. revert mask. induction Hb as [| b bs Hb Hbs IH]; intros mask Hm;
    destruct mask as [| m mask]; simpl; try (by constructor).
  inversion Hm; subst. constructor; [by apply lxor_byte | by apply IH].
Qed.

Lemma xor_mask_app b1 b2 m1 m2 : length b1 = length m1 ->
  xor_mask (b1 ++ b2) (m1 ++ m2) = xor_mask b1 m1 ++ xor_mask b2 m2.
Proof. intros. unfold xor_mask. by rewrite zip_with_app. Qed.

(** ** The loops *)

Lemma maskPnLoop_spec pnb i mask off pre post :
  0 <= off -> 0 <= i -> zlen pre = off + i -> 1 + i + zlen pnb <= zlen mask ->
  maskPnLoop (length pnb) i mask off (pre ++ pnb ++ post)
  = Ret (pre ++ xor_mask pnb (drop (Z.to_nat (1 + i)) mask) ++ post).
Proof.
  intros Hoff. revert i pre. induction pnb as [| b pnb IH]; intros i pre Hi Hpre Hm.
  { simpl. unfold xor_mask. done. }
  simpl. rewrite zlen_cons in Hm. rewrite <- Hpre. test_false.
  rewrite fetch_app_mid. cbn [mbind result_bind].
  destruct (fetch_in mask (1 + i)) as (m & Hlk & ->); [zlen_lia |]. cbn [mbind result_bind].
  rewrite zlen_to_nat, insert_app_r_alt, Nat.sub_diag by done.
  change (<[0%nat:=Z.lxor b m]> (b :: pnb ++ post)) with ([Z.lxor b m] ++ pnb ++ post).
  rewrite (app_assoc pre), IH; [| lia | rewrite zlen_app; change (zlen [Z.lxor b m]) with 1; lia | lia].
  replace (Z.to_nat (1 + (i + 1))) with (S (Z.to_nat (1 + i))) by lia.
  rewrite (drop_S mask m _ Hlk). unfold xor_mask. simpl. by rewrite <- app_assoc.
Qed.

(** What [aesEcbEncryptBlock] gives for a sample of 16 bytes. *)
Definition hp_mask `{Crypto} (hpKey sample : list Z) : list Z := ecb_block hpKey sample.

(** The bits of the first byte that header protection changes. *)
Definition first_mask (first m0 : Z) : Z :=
  if negb (Z.land first 128 =? 0) then Z.land m0 15 else Z.land m0 31.

Lemma first_mask_bound f m : 0 <= first_mask f m < 32.
Proof.
  unfold first_mask. destruct (negb _).
  - change 15 with (Z.ones 4). rewrite Z.land_ones by lia. change (2 ^ 4) with 16. dm_lia.
  - change 31 with (Z.ones 5). rewrite Z.land_ones by lia. change (2 ^ 5) with 32. dm_lia.
Qed.

(** The header-form bit is not one of them. *)
Lemma first_mask_form f m : Z.land (Z.lxor f (first_mask f m)) 128 = Z.land f 128.
Proof.
  change 128 with (2 ^ 7). rewrite !land_pow2_testbit by lia. rewrite Z.lxor_spec.
  rewrite (testbit_small (first_mask f m) 5) by (pose proof (first_mask_bound f m); lia).
  by rewrite xorb_false_r.
Qed.

Lemma first_mask_twice f m :
  Z.lxor (Z.lxor f (first_mask f m)) (first_mask (Z.lxor f (first_mask f m)) m) = f.
Proof.
  assert (first_mask (Z.lxor f (first_mask f m)) m = first_mask f m) as ->.
  { unfold first_mask at 1 3. by rewrite first_mask_form. }
  by rewrite Z.lxor_assoc, Z.lxor_nilpotent, Z.lxor_0_r.
Qed.

Lemma first_mask_type f m :
  Z.land f 128 <> 0 -> first_type (Z.lxor f (first_mask f m)) = first_type f.
Proof.
  intros Hf. unfold first_type, first_mask.
  assert (negb (Z.land f 128 =? 0) = true) as -> by lia.
  rewrite Z.shiftr_lxor.
  assert (Z.shiftr (Z.land m 15) 4 = 0) as ->; [| by rewrite Z.lxor_0_r].
  rewrite shiftr_div by lia. apply Z.div_small. change 15 with (Z.ones 4).
  rewrite Z.land_ones by lia. change (2 ^ 4) with 16. dm_lia.
Qed.

Section Apply.
Context `{L : CryptoLaws}.

Lemma applyHeaderProtection_spec hpKey sample f mid pnb post off n :
  zlen hpKey = 16 -> zlen sample = 16 -> off = 1 + zlen mid -> n = zlen pnb ->
  1 <= n <= 4 ->
  let mask := hp_mask hpKey sample in
  exists m0 mrest, mask = m0 :: mrest /\
  applyHeaderProtection hpKey sample (f :: mid ++ pnb ++ post) off n
  = Ret (Z.lxor f (first_mask f m0) :: mid ++ xor_mask pnb mrest ++ post).
Proof.
  intros Hk Hs Hoff Hn H4 mask.
  assert (Hmask : zlen mask = 16) by apply ecb_block_length.
  destruct mask as [| m0 mrest] eqn:Em; [done |]. exists m0, mrest. split; [done |].
  rewrite zlen_cons in Hmask. unfold applyHeaderProtection. rewrite Hs, Hk.
  rewrite zlen_cons, !zlen_app, Hoff. zlen_pose. test_false.
  assert (slice sample 0 16 = sample) as ->.
  { unfold slice. rewrite drop_0. apply take_ge. unfold zlen in Hs. lia. }
  assert (aesEcbEncryptBlock hpKey sample = m0 :: mrest) as ->.
  { unfold aesEcbEncryptBlock. rewrite Hs, Hk. test_false. done. }
  rewrite zlen_cons, Hmask. test_false.
  change (fetch (f :: mid ++ pnb ++ post) 0) with (Ret f).
  change (fetch (m0 :: mrest) 0) with (Ret m0). cbn [mbind result_bind].
  change (<[0%nat:=?x]> (f :: mid ++ pnb ++ post)) with ((x :: mid) ++ pnb ++ post).
  rewrite Hn, zlen_to_nat.
  replace (if negb (Z.land f 128 =? 0) then Z.lxor f (Z.land m0 15) else Z.lxor f (Z.land m0 31))
with (Z.lxor f (first_mask f m0)) by (unfold first_mask; by destruct (negb _)).
  rewrite maskPnLoop_spec; [done | lia | lia | rewrite zlen_cons; lia |].
  rewrite zlen_cons. lia.
Qed.
End Apply.

(** ** Sealing *)

Lemma nonceLoop_total n i pn nonce :
  0 <= i -> i + Z.of_nat n <= 8 -> zlen nonce = 12 ->
  exists nonce', nonceLoop n i pn nonce = Ret nonce' /\ zlen nonce' = 12.
Proof.
  revert i nonce. induction n as [| n IH]; intros i nonce Hi Hn Hl; simpl; [eauto |].
  destruct (fetch_in nonce (11 - i)) as (b & _ & ->); [lia |]. cbn [mbind result_bind].
  apply IH; [lia | lia |]. unfold zlen in *. by rewrite length_insert.
Qed.

Lemma quicNonceFromIv_total iv pn :
  zlen iv = 12 -> exists nonce, quicNonceFromIv iv pn = Ret nonce /\ zlen nonce = 12.
Proof.
  intros Hiv. unfold quicNonceFromIv. rewrite Hiv. test_false.
  apply nonceLoop_total; [lia | simpl; lia | done].
Qed.

Lemma keys_valid_spec k : keys_valid k = true ->
  zlen k.(key) = 16 /\ zlen k.(iv) = 12 /\ zlen k.(hp) = 16.
Proof. unfold keys_valid. intros. bool_to_prop. lia. Qed.

Section RoundTrip.
Context `{L : CryptoLaws}.
Context (keys : QuicTrafficKeys) (f : Z) (mid pnb payload : list Z) (pn n : Z).
Hypothesis Hkeys : keys_valid keys = true.
Hypothesis Hn : 1 <= n <= 4.
Hypothesis Hpnb : zlen pnb = n.
Hypothesis Hsizes : zlen mid + zlen payload <= 2 ^ 30.
Hypothesis Hshort : 4 <= n + zlen payload.

Abbreviation header := (f :: mid ++ pnb).

(** The shape of a protected packet. *)
Definition protected (nonce : list Z) (m0 : Z) (mrest sealed packet : list Z) : Prop :=
  quicNonceFromIv keys.(iv) pn = Ret nonce /\ zlen nonce = 12
  /\ sealed = gcm_seal keys.(key) nonce header payload
  /\ hp_mask keys.(hp) (slice sealed (4 - n) 16) = m0 :: mrest
  /\ packet = Z.lxor f (first_mask f m0) :: mid ++ xor_mask pnb mrest ++ sealed.

Lemma sealed_length nonce : zlen (gcm_seal keys.(key) nonce header payload) = zlen payload + 16.
Proof. apply gcm_seal_length. Qed.

Lemma header_length : zlen header = 1 + zlen mid + n.
Proof. rewrite zlen_cons, zlen_app. lia. Qed.

(** The sample lies inside the sealed text. *)
Lemma sample_slice hdr sealed off :
  zlen hdr = off + n -> 0 <= off -> 20 <= n + zlen sealed ->
  fetch_slice (hdr ++ sealed) (off + 4) 16 = Ret (slice sealed (4 - n) 16).
Proof.
  intros Hh Hoff Hs. unfold fetch_slice. rewrite zlen_app. test_true. f_equal.
  unfold slice. f_equal. rewrite drop_app_ge by (unfold zlen in *; lia).
  f_equal. unfold zlen in *. lia.
Qed.

Lemma quicProtectPacket_total :
  exists nonce m0 mrest sealed packet,
    protected nonce m0 mrest sealed packet
    /\ quicProtectPacket keys header payload pn n = Ret packet.
Proof.
  destruct (keys_valid_spec keys Hkeys) as (Hk & Hiv & Hhp).
  destruct (quicNonceFromIv_total keys.(iv) pn Hiv) as (nonce & Hnonce & Hnl).
  set (sealed := gcm_seal keys.(key) nonce header payload).
  assert (Hsl : zlen sealed = zlen payload + 16) by apply sealed_length.
  pose proof header_length as Hhl. pose proof (zlen_nonneg mid). pose proof (zlen_nonneg payload).
  assert (Hsample : zlen (slice sealed (4 - n) 16) = 16) by (apply zlen_slice; lia).
  destruct (applyHeaderProtection_spec keys.(hp) (slice sealed (4 - n) 16) f mid pnb []
              (1 + zlen mid) n Hhp Hsample eq_refl ltac:(lia) Hn) as (m0 & mrest & Hmask & Happ).
  rewrite app_nil_r in Happ.
  exists nonce, m0, mrest, sealed,
    (Z.lxor f (first_mask f m0) :: mid ++ xor_mask pnb mrest ++ sealed).
  split; [by repeat split |].
  unfold quicProtectPacket. rewrite Hkeys. simpl negb. test_false.
  rewrite Hnonce. cbn [mbind result_bind]. unfold aead_setKey. rewrite Hk. test_false.
  unfold aead_seal. rewrite Hk, Hnl, Hhl. unfold INT_MAX. test_false.
  cbn [mbind result_bind]. fold sealed.
  assert (u64 (1 + zlen mid + n - n) = 1 + zlen mid) as ->
    by (unfold wrapu; rewrite Z.mod_small by lia; lia).
  assert (u64 (1 + zlen mid + 4 + 16) = 1 + zlen mid + 4 + 16) as ->
    by (apply Z.mod_small; lia).
  rewrite zlen_app, Hhl, Hsl. test_false. rewrite sample_slice by lia.
  cbn [mbind result_bind]. rewrite Happ. cbn [mbind result_bind].
  rewrite zlen_cons. zlen_pose. test_false. rewrite app_nil_r.
  by rewrite <- app_comm_cons, <- app_assoc.
Qed.

(** ** Opening *)

Context (post : list Z) (largest : Z).
Hypothesis Hpnbv : pnb = be_encode (Z.to_nat n) pn.
Hypothesis Hfn : Z.land f 3 + 1 = n.
Hypothesis Hf : is_byte f.
Hypothesis Hmid : is_bytes mid.
Hypothesis Hpayload : is_bytes payload.
Hypothesis Hlargest : 0 <= largest < 2 ^ 62.
Hypothesis Hpn : 0 <= pn < 2 ^ 62.
Hypothesis Hwindow : largest + 1 - 2 ^ (8 * n) / 2 < pn <= largest + 1 + 2 ^ (8 * n) / 2.

(** [h] once the header protection is off. *)
Definition opened (h : QuicPacketHeader) : QuicPacketHeader :=
  mkHeader h.(isLong) (if h.(isLong) then first_type f else h.(longType))
    h.(version) h.(dcid) h.(scid) h.(token) pn n (1 + zlen mid + n)
    h.(pnOffset) h.(payloadLength) (negb (Z.land f 4 =? 0)).

(** The masked four bytes after [mid] and what precedes them. *)
Lemma unmask_header nonce m0 mrest sealed packet :
  protected nonce m0 mrest sealed packet ->
  exists junk,
  applyHeaderProtection keys.(hp) (slice sealed (4 - n) 16)
    (slice (packet ++ post) 0 (1 + zlen mid + 4)) (1 + zlen mid) 4
  = Ret (header ++ junk) /\ is_bytes junk /\ zlen junk = 4 - n.
Proof.
  intros (_ & _ & Hsealed & Hmask & ->).
  destruct (keys_valid_spec keys Hkeys) as (_ & _ & Hhp).
  assert (Hsl : zlen sealed = zlen payload + 16) by (rewrite Hsealed; apply sealed_length).
  assert (Hmrest : zlen mrest = 15).
  { pose proof (ecb_block_length keys.(hp) (slice sealed (4 - n) 16)) as Hl.
  unfold hp_mask in Hmask. rewrite Hmask, zlen_cons in Hl. lia. }
  assert (Hmb : is_bytes mrest).
  { pose proof (ecb_block_bytes keys.(hp) (slice sealed (4 - n) 16)) as Hb.
  unfold hp_mask in Hmask. rewrite Hmask in Hb. by inversion Hb. }
  set (tl := take (Z.to_nat (4 - n)) sealed).
  assert (Htl : zlen tl = 4 - n) by (apply zlen_take; lia).
  assert (Hx : zlen (xor_mask pnb mrest) = n) by (rewrite zlen_xor_mask; lia).
  set (f' := Z.lxor f (first_mask f m0)).
  assert (slice ((f' :: mid ++ xor_mask pnb mrest ++ sealed) ++ post) 0 (1 + zlen mid + 4)
        = f' :: mid ++ (xor_mask pnb mrest ++ tl) ++ []) as ->.
  { rewrite <- (take_drop (Z.to_nat (4 - n)) sealed). fold tl. rewrite app_nil_r.
  rewrite <- app_comm_cons, <- !app_assoc.
  rewrite (app_assoc (xor_mask pnb mrest)), (app_assoc mid), app_comm_cons.
  apply slice_prefix. rewrite zlen_cons, !zlen_app. lia. }
  destruct (applyHeaderProtection_spec keys.(hp) (slice sealed (4 - n) 16) f' mid
  (xor_mask pnb mrest ++ tl) [] (1 + zlen mid) 4 Hhp ltac:(apply zlen_slice; lia) eq_refl
  ltac:(rewrite zlen_app; lia) ltac:(lia)) as (m0' & mrest' & Hmask' & ->).
  rewrite Hmask in Hmask'. injection Hmask' as <- <-.
  exists (xor_mask tl (drop (length pnb) mrest)). unfold f'. rewrite first_mask_twice.
  rewrite <- (take_drop (length pnb) mrest) at 2.
  assert (length (xor_mask pnb mrest) = length (take (length pnb) mrest))
  by (unfold zlen in *; rewrite length_take; lia).
  rewrite xor_mask_app by done. split_and!.
  - rewrite app_nil_r, <- app_comm_cons, <- app_assoc. do 4 f_equal.
  rewrite <- (take_drop (length pnb) mrest) at 1. unfold xor_mask.
  rewrite <- (app_nil_r pnb) at 1. rewrite zip_with_app by (unfold zlen in *; rewrite length_take; lia).
  simpl. rewrite app_nil_r. apply xor_mask_twice. unfold zlen in *. rewrite length_take. lia.
  - apply xor_mask_bytes; [| by apply is_bytes_drop]. apply is_bytes_take.
  rewrite Hsealed. by apply gcm_seal_bytes.
  - rewrite zlen_xor_mask; [done |]. unfold zlen in *. rewrite length_drop. lia.
Qed.

Lemma header_bytes : is_bytes header.
Proof.
  apply is_bytes_cons; [done |]. apply is_bytes_app_2; [done |].
  rewrite Hpnbv. apply be_encode_bytes.
Qed.

(** The packet number behind the unmasked header. *)
Lemma read_header_pn junk :
  is_bytes junk -> zlen junk <= 3 ->
  readPnLoop (Z.to_nat n) 0 (header ++ junk) (1 + zlen mid)
  = Ret (pn mod 2 ^ (8 * n), 1 + zlen mid + n).
Proof.
  intros Hj Hjl.
  assert (Hv : 0 * 256 ^ zlen pnb + be_decode pnb = pn mod 2 ^ (8 * n)).
  { rewrite Z.add_0_l, Hpnbv, be_encode_decode by lia.
  by rewrite <- pow2_8, Z2Nat.id by lia. }
  rewrite <- Hv. replace (Z.to_nat n) with (length pnb) by (unfold zlen in *; lia).
  replace (1 + zlen mid + n) with (1 + zlen mid + zlen pnb) by lia.
  eapply reads_at; [apply reads_readPnLoop| | |].
  - rewrite Hpnbv. apply be_encode_bytes.
  - lia.
  - assert (256 ^ zlen pnb <= 256 ^ 4) by (apply Z.pow_le_mono_r; lia). lia.
  - split; [apply is_bytes_app_2; [apply header_bytes | done] |].
  unfold fits. rewrite zlen_app, header_length. zlen_lia.
  - rewrite zlen_app, header_length. zlen_lia.
  - rewrite <- app_comm_cons, <- app_assoc, app_comm_cons.
  rewrite <- zlen_cons with (x := f). apply drop_zlen_app.
Qed.

Lemma removeHeaderProtection_spec nonce m0 mrest sealed packet h :
  protected nonce m0 mrest sealed packet -> h.(pnOffset) = 1 + zlen mid ->
  removeHeaderProtection keys (packet ++ post) h largest = Ret (opened h, header).
Proof.
  intros Hp Hoff. destruct (unmask_header _ _ _ _ _ Hp) as (junk & Happ & Hjb & Hjl).
  destruct Hp as (_ & _ & Hsealed & Hmask & ->).
  assert (Hsl : zlen sealed = zlen payload + 16) by (rewrite Hsealed; apply sealed_length).
  assert (Hmrest : zlen mrest = 15).
  { pose proof (ecb_block_length keys.(hp) (slice sealed (4 - n) 16)) as Hl.
  unfold hp_mask in Hmask. rewrite Hmask, zlen_cons in Hl. lia. }
  assert (Hx : zlen (xor_mask pnb mrest) = n) by (rewrite zlen_xor_mask; lia).
  set (packet := _ :: mid ++ xor_mask pnb mrest ++ sealed) in *.
  assert (Hpl : zlen packet = 1 + zlen mid + n + zlen payload + 16)
  by (unfold packet; rewrite zlen_cons, !zlen_app; lia).
  pose proof (zlen_nonneg post). pose proof (zlen_nonneg mid).
  unfold removeHeaderProtection. rewrite Hoff, zlen_app, Hpl. test_false.
  assert (fetch_slice (packet ++ post) (1 + zlen mid + 4) 16 = Ret (slice sealed (4 - n) 16)) as ->.
  { unfold packet. rewrite (app_assoc mid), app_comm_cons, <- app_assoc.
  rewrite sample_slice; [| rewrite zlen_cons, zlen_app; lia | lia | rewrite zlen_app; lia].
  f_equal. unfold slice. rewrite drop_app_le by (unfold zlen in *; lia).
  apply take_app_le. rewrite length_drop. unfold zlen in *. lia. }
  cbn [mbind result_bind].
  assert (fetch_slice (packet ++ post) 0 (1 + zlen mid + 4)
        = Ret (slice (packet ++ post) 0 (1 + zlen mid + 4))) as ->.
  { unfold fetch_slice. rewrite zlen_app, Hpl. by test_true. }
  cbn [mbind result_bind]. rewrite Happ. cbn [mbind result_bind].
  rewrite zlen_app, header_length. test_false.
  change (fetch (header ++ junk) 0) with (Ret f). cbn [mbind result_bind].
  rewrite Hfn, read_header_pn by (done || lia). cbn [mbind result_bind].
  cbn [fst]. rewrite decode_pn_window by done.
  rewrite slice_prefix by (by rewrite header_length). unfold opened. by rewrite Hoff.
Qed.

Lemma openPacketPayload_sealed nonce :
  quicNonceFromIv keys.(iv) pn = Ret nonce -> zlen nonce = 12 ->
  openPacketPayload keys header (gcm_seal keys.(key) nonce header payload) pn = Ret payload.
Proof.
  intros Hnonce Hnl. destruct (keys_valid_spec keys Hkeys) as (Hk & _ & _).
  unfold openPacketPayload. rewrite Hnonce. cbn [mbind result_bind].
  unfold aead_setKey, aead_open. rewrite Hk, Hnl, header_length, sealed_length.
  unfold INT_MAX. zlen_pose. test_false. test_false. by rewrite gcm_open_seal.
Qed.

(** Where the ciphertext lies. *)
Lemma protected_shape nonce m0 mrest sealed packet :
  protected nonce m0 mrest sealed packet ->
  zlen packet = 1 + zlen mid + n + zlen payload + 16
  /\ fetch_slice (packet ++ post) (1 + zlen mid + n) (zlen payload + 16) = Ret sealed
  /\ (exists tl, is_bytes tl /\ packet = Z.lxor f (first_mask f m0) :: mid ++ tl)
  /\ is_byte (Z.lxor f (first_mask f m0)).
Proof.
  intros (_ & _ & Hsealed & Hmask & ->).
  assert (Hsl : zlen sealed = zlen payload + 16) by (rewrite Hsealed; apply sealed_length).
  pose proof (ecb_block_length keys.(hp) (slice sealed (4 - n) 16)) as Hl.
  pose proof (ecb_block_bytes keys.(hp) (slice sealed (4 - n) 16)) as Hb.
  unfold hp_mask in Hmask. rewrite Hmask in Hb, Hl. rewrite zlen_cons in Hl. inversion Hb; subst x l.
  assert (Hx : zlen (xor_mask pnb mrest) = n) by (rewrite zlen_xor_mask; lia).
  split_and!.
  - rewrite zlen_cons, !zlen_app. lia.
  - rewrite <- Hsl, (app_assoc mid), app_comm_cons, <- app_assoc.
  replace (1 + zlen mid + n)
    with (zlen (Z.lxor f (first_mask f m0) :: mid ++ xor_mask pnb mrest))
    by (rewrite zlen_cons, zlen_app; lia).
  apply fetch_slice_app_mid.
  - eexists. split; [| done]. apply is_bytes_app_2; [apply xor_mask_bytes; [| done] |].
  + rewrite Hpnbv. apply be_encode_bytes.
  + rewrite Hsealed. by apply gcm_seal_bytes.
  - apply lxor_byte; [done |]. pose proof (first_mask_bound f m0). unfold is_byte. lia.
Qed.
End RoundTrip.

Lemma quicBuildShortHeader_bytes dcid pn n kp : 1 <= n <= 4 ->
  quicBuildShortHeader dcid pn n kp
  = (64 + (if kp then 4 else 0) + (n - 1)) :: dcid ++ be_encode (Z.to_nat n) pn.
Proof.
  intros Hn. unfold quicBuildShortHeader. rewrite writePn_bytes by lia. simpl. f_equal.
  assert (n = 1 \/ n = 2 \/ n = 3 \/ n = 4) as [-> | [-> | [-> | ->]]] by lia; by destruct kp.
Qed.

(** A short-header packet built, sealed and header-protected is unprotected to the
    same connection id, key phase, full packet number and payload, consuming the whole
    datagram. *)
Theorem quicUnprotectPacket_protect_short `{L : CryptoLaws} keys dcid payload pn n kp h0 largest :
  keys_valid keys = true ->
  is_bytes dcid -> zlen dcid <= 20 -> zlen h0.(QuicPacket.dcid) = zlen dcid ->
  is_bytes payload -> zlen payload <= 2 ^ 29 -> 1 <= n <= 4 -> 4 <= n + zlen payload ->
  0 <= pn < 2 ^ 62 -> 0 <= largest < 2 ^ 62 ->
  largest + 1 - 2 ^ (8 * n) / 2 < pn <= largest + 1 + 2 ^ (8 * n) / 2 ->
  let header := quicBuildShortHeader dcid pn n kp in
  exists packet,
    quicProtectPacket keys header payload pn n = Ret packet
    /\ quicUnprotectPacket keys packet h0 largest
       = Ret (mkHeader false header0.(longType) 0 dcid [] [] pn n (zlen header) (1 + zlen dcid) 0 kp,
              payload, zlen packet).
Proof.
  intros Hkeys Hdb Hd Hh0 Hpb Hpl Hn Hmin Hpn Hlg Hwin header.
  unfold header. rewrite quicBuildShortHeader_bytes by done.
  set (f := 64 + (if kp then 4 else 0) + (n - 1)).
  set (pnb := be_encode (Z.to_nat n) pn).
  assert (Hpnb : zlen pnb = n) by (unfold pnb; rewrite zlen_be_encode; lia).
  assert (Hfacts : Z.land f 3 + 1 = n /\ negb (Z.land f 4 =? 0) = kp /\ Z.land f 128 = 0 /\ is_byte f).
  { unfold f. assert (n = 1 \/ n = 2 \/ n = 3 \/ n = 4) as [-> | [-> | [-> | ->]]] by lia;
      destruct kp; vm_compute; intuition congruence. }
  destruct Hfacts as (Hf3 & Hf4 & Hf128 & Hfb).
  destruct (quicProtectPacket_total keys f dcid pnb payload pn n) as
    (nonce & m0 & mrest & sealed & packet & Hprot & ->); try (done || lia).
  exists packet. split; [done |].
  destruct (protected_shape keys f dcid pnb payload pn n Hn Hpnb [] eq_refl Hfb Hpb
              _ _ _ _ _ Hprot) as (Hlen & Hct & (tl & Htl & Hpk) & Hf'b).
  rewrite app_nil_r in Hct. pose proof (zlen_nonneg dcid). pose proof (zlen_nonneg payload).
  unfold quicUnprotectPacket. rewrite Hkeys, Hlen. test_false.
  assert (quicParsePacketHeader packet header0 true
    = Ret (mkHeader false header0.(longType) 0 [] [] [] 0
             (Z.land (Z.lxor f (first_mask f m0)) 3 + 1) 1 1 0 false)) as ->.
  { unfold quicParsePacketHeader. rewrite Hlen. test_false. rewrite Hpk.
    change (fetch (?x :: ?l) 0) with (Ret x). cbn [mbind result_bind].
    rewrite first_mask_form, Hf128. done. }
  cbn [mbind result_bind isLong negb]. rewrite Hh0. test_false.
  assert (fetch_slice packet 1 (zlen dcid) = Ret dcid) as ->.
  { rewrite Hpk. apply (fetch_slice_app_mid [_]). }
  cbn [mbind result_bind longType version scid token packetNumber pnLength headerLength
       payloadLength keyPhase].
  rewrite <- (app_nil_r packet) at 1.
  erewrite (removeHeaderProtection_spec keys f dcid pnb payload pn n); try (done || lia).
  cbn [mbind result_bind opened isLong longType version scid token packetNumber pnLength
       headerLength QuicPacket.dcid pnOffset payloadLength keyPhase].
  replace (1 + zlen dcid + n + zlen payload + 16 - (1 + zlen dcid + n))
    with (zlen payload + 16) by lia.
  rewrite Hct. cbn [mbind result_bind].
  destruct Hprot as (Hnonce & Hnl & -> & _).
  rewrite (openPacketPayload_sealed keys f dcid pnb payload pn n); try (done || lia).
  cbn [mbind result_bind]. unfold opened. rewrite Hf4, zlen_cons, zlen_app, Hpnb, Z.add_assoc. done.
Qed.

(** A long header, protected, still parses up to its packet number. *)
Lemma parse_protected_long ty v d s tok n len m0 tl :
  zlen d <= 20 -> zlen s <= 20 -> zlen tok < 2 ^ 62 -> 0 <= v < 2 ^ 32 -> 1 <= n <= 4 ->
  0 <= len < 2 ^ 62 ->
  let f := 192 + 16 * longType_value ty + (n - 1) in
  let f' := Z.lxor f (first_mask f m0) in
  let data := f' :: (be_encode 4 v ++ long_body ty d s tok len) ++ tl in
  is_byte f' -> buffer data ->
  quicParsePacketHeader data header0 true
  = Ret (mkHeader true ty v d s (if is_initial ty then tok else []) 0 (Z.land f' 3 + 1)
           (5 + zlen (long_body ty d s tok len)) (5 + zlen (long_body ty d s tok len)) len false).
Proof.
  intros Hd Hs Htok Hv Hn Hlen f f' data Hf' Hbuf.
  destruct (first_type_value ty n Hn) as [Hty _]. fold f in Hty.
  assert (Hf : 128 <= f < 256) by (unfold f; destruct ty; simpl; lia).
  assert (Hty' : first_type f' = ty).
  { unfold f'. rewrite first_mask_type; [done |]. rewrite land_128_high; lia. }
  assert (128 <= f' < 256).
  { pose proof (first_mask_form f m0) as Hform. fold f' in Hform.
    rewrite (land_128_high f) in Hform by done. unfold is_byte in Hf'. split; [| lia].
    apply Z.nlt_ge. intros Hlt. change 128 with (2 ^ 7) in Hform.
    rewrite land_pow2_testbit, (testbit_small f' 7) in Hform by lia. done. }
  pose proof (parseLongHeader_skip f' v d s tok len header0 Hd Hs Htok Hlen) as Hr.
  rewrite Hty' in Hr. unfold data in *. rewrite <- app_assoc in Hbuf |- *.
  by rewrite (parse_long_at _ _ _ _ _ _ _ ltac:(done) Hv Hr Hbuf).
Qed.

Lemma varint_size_bound v : 0 <= quicVarintSize v <= 8.
Proof. unfold quicVarintSize. repeat case_test; lia. Qed.

Lemma long_body_buffer ty d s tok len :
  is_bytes d -> zlen d <= 20 -> is_bytes s -> zlen s <= 20 -> is_bytes tok ->
  0 <= len < 2 ^ 62 -> zlen tok < 2 ^ 62 ->
  is_bytes (long_body ty d s tok len) /\ zlen (long_body ty d s tok len) <= 58 + zlen tok.
Proof.
  intros Hdb Hd Hsb Hs Htb Hlen Htok. unfold long_body, cid_bytes.
  pose proof (zlen_nonneg d). pose proof (zlen_nonneg s). pose proof (zlen_nonneg tok).
  pose proof (varint_size_bound len). pose proof (varint_size_bound (zlen tok)). split.
  - repeat apply is_bytes_app_2; try (apply is_bytes_cons; [unfold is_byte; lia | done]);
      [destruct (is_initial ty); [apply is_bytes_app_2; [| done] | constructor] |];
      apply varint_bytes_bytes.
  - rewrite !zlen_app, !zlen_cons. destruct (is_initial ty); rewrite ?zlen_app, ?zlen_nil, !zlen_varint_bytes; lia.
Qed.

(** The first byte of a long header has no key phase. *)
Lemma long_first_flags ty n : 1 <= n <= 4 ->
  Z.land (192 + 16 * longType_value ty + (n - 1)) 4 = 0 /\ is_byte (192 + 16 * longType_value ty + (n - 1)).
Proof.
  intros Hn. assert (n = 1 \/ n = 2 \/ n = 3 \/ n = 4) as [-> | [-> | [-> | ->]]] by lia;
    destruct ty; vm_compute; intuition congruence.
Qed.

(** C5: A long-header packet built, sealed and header-protected is unprotected, also with
    other packets coalesced behind it, to the same header fields, the full packet number
    (if it lies in the window around the largest one received), the payload and the exact
    number of bytes consumed. *)
Theorem quicUnprotectPacket_protect_long `{L : CryptoLaws} keys ty v d s tok payload pn n h0
    largest post :
  keys_valid keys = true ->
  is_bytes d -> zlen d <= 20 -> is_bytes s -> zlen s <= 20 -> is_bytes tok -> zlen tok <= 2 ^ 28 ->
  0 <= v < 2 ^ 32 -> is_bytes payload -> zlen payload <= 2 ^ 28 ->
  1 <= n <= 4 -> 4 <= n + zlen payload ->
  0 <= pn < 2 ^ 62 -> 0 <= largest < 2 ^ 62 ->
  largest + 1 - 2 ^ (8 * n) / 2 < pn <= largest + 1 + 2 ^ (8 * n) / 2 ->
  is_bytes post -> zlen post <= 2 ^ 32 ->
  let header := quicBuildLongHeader ty v d s tok pn n (zlen payload + 16) in
  exists packet,
    quicProtectPacket keys header payload pn n = Ret packet
    /\ quicUnprotectPacket keys (packet ++ post) h0 largest
       = Ret (mkHeader true ty v d s (if is_initial ty then tok else []) pn n
                (zlen header) (zlen header - n) (zlen payload + 16 + n) false,
              payload, zlen packet).
Proof.
  intros Hkeys Hdb Hd Hsb Hs Htb Htok Hv Hpb Hpl Hn Hmin Hpn Hlg Hwin Hpostb Hpost header.
  pose proof (zlen_nonneg payload). pose proof (zlen_nonneg post).
  unfold header. rewrite quicBuildLongHeader_bytes, (app_assoc (be_encode 4 v)) by lia.
  set (len := zlen payload + 16 + n).
  destruct (long_body_buffer ty d s tok len) as [Hbb Hbl]; try (done || lia).
  set (mid := be_encode 4 v ++ long_body ty d s tok len).
  set (f := 192 + 16 * longType_value ty + (n - 1)).
  set (pnb := be_encode (Z.to_nat n) pn).
  assert (Hpnb : zlen pnb = n) by (unfold pnb; rewrite zlen_be_encode; lia).
  assert (Hmid : zlen mid = 4 + zlen (long_body ty d s tok len))
    by (unfold mid; rewrite zlen_app, zlen_be_encode; lia).
  assert (Hmidb : is_bytes mid) by (apply is_bytes_app_2; [apply be_encode_bytes | done]).
  destruct (first_type_value ty n Hn) as [Hty Hf3]. fold f in Hty, Hf3.
  destruct (long_first_flags ty n Hn) as [Hf4 Hfb]. fold f in Hf4, Hfb. pose proof (zlen_nonneg (long_body ty d s tok len)).
  destruct (quicProtectPacket_total keys f mid pnb payload pn n) as
    (nonce & m0 & mrest & sealed & packet & Hprot & ->); try (done || lia).
  exists packet. split; [done |].
  destruct (protected_shape keys f mid pnb payload pn n Hn Hpnb post eq_refl Hfb Hpb
              _ _ _ _ _ Hprot) as (Hlen & Hct & (tl & Htl & Hpk) & Hf'b).
  unfold quicUnprotectPacket. rewrite Hkeys, zlen_app, Hlen. test_false.
  assert (quicParsePacketHeader (packet ++ post) header0 true
    = Ret (mkHeader true ty v d s (if is_initial ty then tok else []) 0
             (Z.land (Z.lxor f (first_mask f m0)) 3 + 1) (1 + zlen mid) (1 + zlen mid) len false)) as ->.
  { assert (Hfit : fits (packet ++ post)) by (unfold fits; rewrite zlen_app; lia).
    rewrite Hpk in Hfit |- *. rewrite <- app_comm_cons, <- app_assoc in Hfit |- *.
    unfold mid in Hfit |- * at 1. unfold f at 1 2.
    rewrite parse_protected_long; try (done || lia).
    - fold f. rewrite Hmid, Z.add_assoc. done.
    - split; [| done]. apply is_bytes_cons; [done |].
      apply is_bytes_app_2; [done | by apply is_bytes_app_2]. }
  cbn [mbind result_bind isLong negb pnOffset payloadLength].
  assert (u64 (1 + zlen mid + len) = 1 + zlen mid + len) as -> by (apply Z.mod_small; lia).
  test_false.
  erewrite (removeHeaderProtection_spec keys f mid pnb payload pn n); try (done || lia).
  cbn [mbind result_bind]. unfold opened.
  cbn [isLong longType version scid token packetNumber pnLength
       headerLength QuicPacket.dcid pnOffset payloadLength keyPhase].
  test_false. test_false. replace (len - n) with (zlen payload + 16) by lia.
  rewrite Hct. cbn [mbind result_bind].
  destruct Hprot as (Hnonce & Hnl & -> & _).
  rewrite (openPacketPayload_sealed keys f mid pnb payload pn n); try (done || lia).
  cbn [mbind result_bind]. rewrite Hty, Hf4, zlen_cons, zlen_app, Hpnb.
  replace (1 + (zlen mid + n) - n) with (1 + zlen mid) by lia. rewrite (Z.add_assoc 1).
  by replace (1 + zlen mid + n + zlen payload + 16) with (1 + zlen mid + len) by lia.
Qed.

(** ** Concrete packets *)

Definition toy_keys : QuicTrafficKeys := mkKeys (replicate 16 1) (replicate 12 2) (replicate 16 3).

Definition toy_header : QuicPacketHeader :=
  mkHeader false header0.(longType) 0 [9; 9; 9; 9] [] [] 0 0 0 0 0 false.

Lemma quicUnprotectPacket_protect_short_witness :
  let header := quicBuildShortHeader [1; 2; 3; 4] 70000 2 true in
  exists packet,
    @quicProtectPacket toy_crypto toy_keys header [1; 2; 3] 70000 2 = Ret packet
    /\ @quicUnprotectPacket toy_crypto toy_keys packet toy_header 69990
       = Ret (mkHeader false header0.(longType) 0 [1; 2; 3; 4] [] [] 70000 2 (zlen header)
                (1 + zlen [1; 2; 3; 4]) 0 true,
              [1; 2; 3], zlen packet).
Proof.
  refine (@quicUnprotectPacket_protect_short toy_crypto toy_crypto_laws toy_keys [1; 2; 3; 4]
            [1; 2; 3] 70000 2 true toy_header 69990 _ _ _ _ _ _ _ _ _ _ _);
    first [closed_bytes | closed_lia].
Defined.

Lemma quicUnprotectPacket_protect_long_witness :
  let header := quicBuildLongHeader QuicLongInitial 1 [1; 2] [3; 4; 5] [6] 300 2
                  (zlen [1; 0; 0; 0] + 16) in
  exists packet,
    @quicProtectPacket toy_crypto toy_keys header [1; 0; 0; 0] 300 2 = Ret packet
    /\ @quicUnprotectPacket toy_crypto toy_keys (packet ++ [7; 7]) header0 299
       = Ret (mkHeader true QuicLongInitial 1 [1; 2] [3; 4; 5] [6] 300 2
                (zlen header) (zlen header - 2) (zlen [1; 0; 0; 0] + 16 + 2) false,
              [1; 0; 0; 0], zlen packet).
Proof.
  refine (@quicUnprotectPacket_protect_long toy_crypto toy_crypto_laws toy_keys QuicLongInitial 1
            [1; 2] [3; 4; 5] [6] [1; 0; 0; 0] 300 2 header0 299 [7; 7]
            _ _ _ _ _ _ _ _ _ _ _ _ _ _ _ _ _);
    first [closed_bytes | closed_lia].
Defined.
