(* ===== verification/QuicUnprotectSafety.v ===== *)
(** * Unprotecting arbitrary datagrams

    [quicUnprotectPacket] is the first code that touches bytes from the network.
    On any datagram it stays in bounds, consumes at least one byte when it
    succeeds, and never consumes more than the datagram.  Packet-number
    reconstruction gives, for any truncated number, the full number closest to
    the expected one. *)

From S2P Require Import Prelude Codec QuicVarint CryptoApi QuicPacket QuicPacketProofs QuicCrypto.
From S2P Require Import QuicProtect.

Section Safety.
Context `{L : CryptoLaws}.

Lemma maskPnLoop_safe n i mask off header :
  is_bytes mask -> is_bytes header -> 0 <= off -> 0 <= i -> 1 + i + Z.of_nat n <= zlen mask ->
  safe (fun l => is_bytes l /\ (l = [] \/ zlen l = zlen header)) (maskPnLoop n i mask off header).
Proof.
  intros Hm. revert i header. induction n as [| n IH]; intros i header Hh Hoff Hi Hn; simpl.
  { auto. }
  apply safe_if; intros; [simpl; split; [constructor | auto] |]. bool_to_prop.
  eapply safe_bind; [by apply (safe_fetch is_byte); [done | lia |] |]. intros b Hb.
  eapply safe_bind; [by apply (safe_fetch is_byte); [done | lia |] |]. intros m Hmb.
  set (header' := <[_ := _]> header).
  assert (Hl : zlen header' = zlen header) by (unfold header', zlen; by rewrite length_insert).
  rewrite <- Hl. apply IH; try lia. apply Forall_insert; [done | by apply lxor_byte].
Qed.

Lemma applyHeaderProtection_safe hpKey sample header off n :
  is_bytes header -> 0 <= off -> 0 <= n <= 4 ->
  safe (fun l => is_bytes l /\ (l = [] \/ zlen l = zlen header))
    (applyHeaderProtection hpKey sample header off n).
Proof.
  intros Hh Hoff Hn. unfold applyHeaderProtection.
  apply safe_if; intros; [simpl; split; [constructor | auto] |]. bool_to_prop.
  assert (Hmb : is_bytes (aesEcbEncryptBlock hpKey (slice sample 0 16))).
  { unfold aesEcbEncryptBlock. case_test; [constructor | apply ecb_block_bytes]. }
  apply safe_if; intros; [simpl; split; [constructor | auto] |]. bool_to_prop.
  eapply safe_bind; [by apply (safe_fetch is_byte); [done | lia |] |]. intros b Hb.
  eapply safe_bind; [by apply (safe_fetch is_byte); [done | lia |] |]. intros m Hmb0.
  set (header' := <[_ := _]> header).
  assert (Hl : zlen header' = zlen header) by (unfold header', zlen; by rewrite length_insert).
  rewrite <- Hl. apply maskPnLoop_safe; try (done || lia).
  apply Forall_insert; [done |]. change 15 with (Z.ones 4). change 31 with (Z.ones 5).
  rewrite !Z.land_ones by lia.
  case_test; apply lxor_byte; try done; unfold is_byte.
  - change (2 ^ 4) with 16. dm_lia.
  - change (2 ^ 5) with 32. dm_lia.
Qed.

Definition removed (data : list Z) (h h' : QuicPacketHeader) : Prop :=
  1 <= h'.(pnLength) <= 4 /\ h'.(headerLength) = h.(pnOffset) + h'.(pnLength)
  /\ h'.(pnOffset) = h.(pnOffset) /\ h'.(payloadLength) = h.(payloadLength)
  /\ h'.(isLong) = h.(isLong) /\ h.(pnOffset) + 20 <= zlen data.

Lemma removeHeaderProtection_safe keys data h expected :
  buffer data -> 0 <= h.(pnOffset) ->
  safe (fun r => removed data h r.1) (removeHeaderProtection keys data h expected).
Proof.
  intros [Hb Hfit] Hoff. unfold removeHeaderProtection, fits in *.
  apply safe_if; intros; [done |]. bool_to_prop.
  eapply safe_bind; [apply (safe_fetch_slice (fun _ => True)); try (done || lia) |]. intros sample _.
  eapply safe_bind.
  { apply (safe_fetch_slice (fun s => is_bytes s /\ zlen s = h.(pnOffset) + 4)); try (done || lia). }
  intros hdr [Hhb Hhl].
  eapply safe_bind; [by apply applyHeaderProtection_safe; [done | lia | lia] |].
  intros l [Hlb Hl]. apply safe_if; intros; [done |]. bool_to_prop.
  destruct Hl as [-> | Hl]; [done |].
  eapply safe_bind; [by apply (safe_fetch is_byte); [done | lia |] |]. intros b Hb'.
  assert (Hpn : 0 <= Z.land b 3 < 4)
  by (change 3 with (Z.ones 2); rewrite Z.land_ones by lia; dm_lia).
  eapply safe_bind.
  - pose proof (wp_readPnLoop l Hlb (Z.to_nat (Z.land b 3 + 1)) 0 h.(pnOffset) (fun _ _ => True)) as Hwp.
  specialize (Hwp ltac:(lia) ltac:(lia)). unfold wp in Hwp.
  instantiate (1 := fun _ => True).
  by destruct (readPnLoop _ _ _ _) as [[] | | |]; [| | apply Hwp..].
  - intros r _. simpl. unfold removed. simpl. split_and!; done || lia.
Qed.
End Safety.

Lemma openPacketPayload_safe `{L : CryptoLaws} keys aad ct pn :
  keys_valid keys = true -> safe (fun _ => True) (openPacketPayload keys aad ct pn).
Proof.
  intros Hk. destruct (keys_valid_spec keys Hk) as (_ & Hiv & _).
  unfold openPacketPayload. destruct (quicNonceFromIv_total keys.(iv) pn Hiv) as (nonce & -> & _).
  cbn [mbind result_bind]. apply safe_if; intros; [done |]. unfold aead_open.
  apply safe_if; intros; [done |]. by destruct (gcm_open _ _ _ _).
Qed.

(** C33: On every datagram, with any keys, unprotecting stays in bounds; when it succeeds
    the packet number has 1 to 4 bytes, the header is not empty and lies inside the bytes
    consumed, and these lie inside the datagram. *)
Theorem quicUnprotectPacket_safe `{L : CryptoLaws} keys data h0 expected :
  buffer data -> fits h0.(dcid) ->
  safe (fun r => let '(h, _, consumed) := r in
          1 <= h.(pnLength) <= 4 /\ h.(pnOffset) + h.(pnLength) = h.(headerLength)
          /\ 0 < h.(headerLength) <= consumed /\ consumed <= zlen data)
    (quicUnprotectPacket keys data h0 expected).
Proof.
  intros Hbuf Hd. pose proof Hbuf as [Hb Hfit]. pose proof (zlen_nonneg h0.(dcid)) as Hd0.
  unfold quicUnprotectPacket, fits in *. destruct (keys_valid keys) eqn:Hk; [| done].
  apply safe_if; intros; [done |]. simpl in *. bool_to_prop.
  eapply safe_bind; [by apply parse_header_safe |]. intros h Hh.
  apply safe_if; intros Hlong; bool_to_prop.
  - apply safe_if; intros; [done |]. bool_to_prop.
    eapply safe_bind; [by apply (safe_fetch_slice (fun _ => True)); try (done || lia) |]. intros d _.
    eapply safe_bind; [apply removeHeaderProtection_safe; [done | simpl; lia] |].
    intros [h' aad] (R1 & R2 & R3 & R4 & R5 & R6). simpl in *.
    eapply safe_bind; [by apply (safe_fetch_slice (fun _ => True)); try (done || lia) |]. intros ct _.
    eapply safe_bind; [by apply openPacketPayload_safe |]. intros plain _. simpl. lia.
  - destruct Hh as [Hh | (_ & _ & _ & Hpn & Hoff & Hhl & Hpay)]; [by rewrite Hh in Hlong |].
    unfold wrapu. rewrite !Z.mod_small by lia.
    apply safe_if; intros; [done |]. bool_to_prop.
    eapply safe_bind; [apply removeHeaderProtection_safe; [done | lia] |].
    intros [h' aad] (R1 & R2 & R3 & R4 & R5 & R6). simpl in *.
    apply safe_if; intros; [done |]. bool_to_prop.
    apply safe_if; intros; [done |]. bool_to_prop.
    eapply safe_bind; [by apply (safe_fetch_slice (fun _ => True)); try (done || lia) |]. intros ct _.
    eapply safe_bind; [by apply openPacketPayload_safe |]. intros plain _. simpl. lia.
Qed.

(** For every truncated packet number the reconstruction has the given low bits and
    is the number closest to the expected one, except where that would be negative or
    leave the 62-bit range. *)
Theorem quicDecodePacketNumber_nearest largest t n :
  1 <= n <= 4 -> 0 <= largest < 2 ^ 62 -> 0 <= t < 2 ^ (8 * n) ->
  let win := 2 ^ (8 * n) in
  let pn := quicDecodePacketNumber largest t n in
  pn mod win = t /\ 0 <= pn
  /\ (largest + 1 - win / 2 < pn \/ 2 ^ 62 <= pn + win)
  /\ (pn <= largest + 1 + win / 2 \/ pn < win).
Proof.
  intros Hn Hl Ht win pn.
  assert (Hwin : 2 <= win <= 2 ^ 32)
    by (split; [apply (Z.pow_le_mono_r 2 1) | apply Z.pow_le_mono_r]; lia).
  assert (Hwe : win = 2 * (win / 2)) by (by apply window_even).
  pose proof (decode_pn_cases largest t n Hn Hl Ht) as Hpn. cbv zeta in Hpn. fold win pn in Hpn. clearbody pn.
  pose proof (Z.div_mod (largest + 1) win ltac:(lia)) as He.
  pose proof (Z.mod_pos_bound (largest + 1) win ltac:(lia)) as Hr.
  set (e := (largest + 1) / win) in *.
  assert (0 <= e * win) by (apply Z.mul_nonneg_nonneg; [apply Z.div_pos |]; lia).
  assert (Hmod : forall q, (q * win + t) mod win = t)
    by (intros; rewrite Z.add_comm, Z.mod_add by lia; apply Z.mod_small; lia).
  destruct Hpn as [(Hpn & ? & ?) | [(Hpn & ? & ?) | (Hpn & ? & ?)]]; rewrite Hpn in *.
  - replace (e * win + t + win) with ((e + 1) * win + t) by lia. rewrite Hmod. lia.
  - replace (e * win + t - win) with ((e - 1) * win + t) by lia. rewrite Hmod. lia.
  - rewrite Hmod. lia.
Qed.

(** The keys of both sides derived from any connection id have the lengths the AEAD
    and the header protection need. *)
Theorem initial_keys_valid `{L : CryptoLaws} dcid isClient :
  keys_valid (quicDeriveTrafficKeys (quicDeriveInitialSecret dcid isClient)) = true.
Proof.
  assert (Hsecret : zlen (quicDeriveInitialSecret dcid isClient) = 32).
  { unfold quicDeriveInitialSecret. assert (zlen (hkdfExtract quicInitialSalt dcid) = 32).
    { unfold hkdfExtract, hkdfExtractWith. change (zlen quicInitialSalt) with 20. simpl. apply hmac_sha256_length. }
    apply hkdfExpandLabel_length; [unfold INT_MAX; lia | | done | lia].
    by destruct isClient. }
  unfold keys_valid, quicDeriveTrafficKeys; cbn [key iv hp].
  rewrite !hkdfExpandLabel_length; rewrite ?Hsecret; try (vm_compute; intuition congruence).
Qed.

Lemma quicUnprotectPacket_safe_witness :
  let _ := toy_crypto in
  safe (fun r => let '(h, _, consumed) := r in
          1 <= h.(pnLength) <= 4 /\ h.(pnOffset) + h.(pnLength) = h.(headerLength)
          /\ 0 < h.(headerLength) <= consumed /\ consumed <= 40)
    (quicUnprotectPacket toy_keys (replicate 40 200) header0 0).
Proof.
  apply (@quicUnprotectPacket_safe toy_crypto toy_crypto_laws).
  - split; [closed_bytes | done].
  - done.
Defined.

Lemma quicDecodePacketNumber_nearest_witness :
  let pn := quicDecodePacketNumber 0xa82f30ea 0x9b32 2 in
  pn mod 2 ^ 16 = 0x9b32 /\ 0 <= pn
  /\ (0xa82f30ea + 1 - 2 ^ 16 / 2 < pn \/ 2 ^ 62 <= pn + 2 ^ 16)
  /\ (pn <= 0xa82f30ea + 1 + 2 ^ 16 / 2 \/ pn < 2 ^ 16).
Proof. apply (quicDecodePacketNumber_nearest 0xa82f30ea 0x9b32 2); closed_lia. Defined.

Lemma initial_keys_valid_witness :
  keys_valid (@quicDeriveTrafficKeys toy_crypto
                (@quicDeriveInitialSecret toy_crypto [1; 2; 3; 4; 5; 6; 7; 8] true)) = true.
Proof. exact (@initial_keys_valid toy_crypto toy_crypto_laws [1; 2; 3; 4; 5; 6; 7; 8] true). Defined.
