(* ===== verification/StdMap.v ===== *)
(** * [std::set] and [std::map] with integer keys

    The source iterates over these containers in key order, so they are modelled
    as the sorted sequences an iteration visits.  The operations keep the order;
    the lemmas give membership, lookup and sums over the values. *)

From Stdlib Require Sorting.Sorted.
From S2P Require Import Prelude.
From stdpp Require Import sets list.
#[local] Open Scope Z_scope.

(** ** Sets *)

(** [s.insert(k)] *)
Fixpoint set_insert (k : Z) (s : list Z) : list Z :=
  match s with
  | [] => [k]
  | x :: s' => if k <? x then k :: s else if k =? x then s else x :: set_insert k s'
  end.

(** [s.count(k) != 0] *)
Definition set_count (k : Z) (s : list Z) : bool := existsb (Z.eqb k) s.

Definition set_sorted (s : list Z) : Prop := Sorted.StronglySorted Z.lt s.

Lemma set_count_spec k s : set_count k s = true <-> k ∈ s.
Proof.
  unfold set_count. rewrite existsb_exists. split.
  - intros (x & Hx & He). apply Z.eqb_eq in He. subst. by apply list_elem_of_In.
  - intros. exists k. rewrite Z.eqb_refl. split; [by apply list_elem_of_In | done].
Qed.

Lemma elem_of_set_insert k x s : x ∈ set_insert k s <-> x = k \/ x ∈ s.
Proof.
  induction s as [| y s IH]; simpl; [set_solver |].
  repeat case_test; [set_solver | subst; set_solver |].
  rewrite !elem_of_cons, IH. set_solver.
Qed.

Lemma set_insert_sorted k s : set_sorted s -> set_sorted (set_insert k s).
Proof.
  unfold set_sorted. induction 1 as [| x s Hs IH Hx]; simpl; [by repeat constructor |].
  repeat case_test.
  - constructor; [by constructor |]. constructor; [lia |].
    eapply Forall_impl; [done |]. simpl. intros. lia.
  - by constructor.
  - constructor; [done |]. apply Forall_forall. intros y Hy.
    apply elem_of_set_insert in Hy as [-> | Hy]; [lia |].
    rewrite Forall_forall in Hx. auto.
Qed.

(** Ordered sequences with the same members are equal. *)
Lemma set_sorted_ext s1 s2 :
  set_sorted s1 -> set_sorted s2 -> (forall x, x ∈ s1 <-> x ∈ s2) -> s1 = s2.
Proof.
  unfold set_sorted. intros H1. revert s2.
  induction H1 as [| x s1 Hs1 IH Hx]; intros s2 H2 Heq.
  - destruct s2 as [| y s2]; [done |]. specialize (Heq y). set_solver.
  - destruct H2 as [| y s2 Hs2 Hy]; [specialize (Heq x); set_solver |].
    rewrite Forall_forall in Hx, Hy.
    assert (x = y).
    { pose proof (proj1 (Heq x) (list_elem_of_here _ _)) as Hin.
      pose proof (proj2 (Heq y) (list_elem_of_here _ _)) as Hin'.
      apply elem_of_cons in Hin as [| Hin], Hin' as [| Hin']; try done.
      specialize (Hx _ Hin'). specialize (Hy _ Hin). lia. }
    subst. f_equal. apply IH; [done |]. intros z. specialize (Heq z). rewrite !elem_of_cons in Heq.
    split; intros Hz.
    + destruct (proj1 Heq (or_intror Hz)) as [-> |]; [specialize (Hx _ Hz); lia | done].
    + destruct (proj2 Heq (or_intror Hz)) as [-> |]; [specialize (Hy _ Hz); lia | done].
Qed.

(** ** Maps *)

Section Maps.
  Context {V : Type}.
  Implicit Types (m : list (Z * V)) (k : Z) (v : V).

Abbreviation keys m := (map fst m).

(** [m.find(k)] *)
Fixpoint map_find k m : option V :=
  match m with
  | [] => None
  | (x, v) :: m' => if k =? x then Some v else map_find k m'
  end.

(** [m[k] = v] *)
Fixpoint map_assign k v m : list (Z * V) :=
  match m with
  | [] => [(k, v)]
  | (x, w) :: m' =>
      if k <? x then (k, v) :: m else if k =? x then (k, v) :: m' else (x, w) :: map_assign k v m'
  end.

(** [m.erase(k)] *)
Fixpoint map_erase k m : list (Z * V) :=
  match m with
  | [] => []
  | (x, w) :: m' => if k =? x then m' else (x, w) :: map_erase k m'
  end.

Definition map_sorted m : Prop := Sorted.StronglySorted Z.lt (keys m).

Lemma map_sorted_cons x v m :
  map_sorted ((x, v) :: m) <-> map_sorted m /\ Forall (fun kv => x < kv.1) m.
Proof.
  unfold map_sorted. simpl. rewrite <- (Forall_map fst (fun y => x < y)). split.
  - intros H. by apply Sorted.StronglySorted_inv in H.
  - intros [H1 H2]. by constructor.
Qed.

Lemma map_find_below k m : Forall (fun kv => k < kv.1) m -> map_find k m = None.
Proof.
  induction 1 as [| [x v] m Hx Hm IH]; simpl in *; [done |]. test_false. done.
Qed.

Lemma map_find_in k v m : map_sorted m -> map_find k m = Some v <-> (k, v) ∈ m.
Proof.
  induction m as [| [x w] m IH]; intros Hs; simpl; [set_solver |].
  apply map_sorted_cons in Hs as [Hs Hx]. case_test.
  - subst. rewrite elem_of_cons. split; [intros; simplify_eq; by left |].
  intros [? | Hin]; [by simplify_eq |]. rewrite Forall_forall in Hx.
  specialize (Hx _ Hin). simpl in Hx. lia.
  - rewrite elem_of_cons, IH by done. split; [by right |]. intros [? | ?]; [by simplify_eq | done].
Qed.

Lemma map_assign_find k v m k' :
  map_find k' (map_assign k v m) = if k' =? k then Some v else map_find k' m.
Proof.
  induction m as [| [x w] m IH]; simpl; [done |].
  destruct (Z.ltb_spec k x); simpl; [done |].
  destruct (Z.eqb_spec k x); simpl.
  - subst. by destruct (k' =? x).
  - rewrite IH. destruct (Z.eqb_spec k' x), (Z.eqb_spec k' k); subst; done || lia.
Qed.

Lemma map_assign_forall (P : Z * V -> Prop) k v m :
  P (k, v) -> Forall P m -> Forall P (map_assign k v m).
Proof.
  intros Hk. induction 1 as [| [x w] m Hx Hm IH]; simpl; [by constructor |].
  repeat case_test; repeat (constructor; [done |]); done.
Qed.

Lemma map_assign_sorted k v m : map_sorted m -> map_sorted (map_assign k v m).
Proof.
  induction m as [| [x w] m IH]; intros Hs; simpl; [by repeat constructor |].
  pose proof Hs as Hs'. apply map_sorted_cons in Hs' as [Hm Hx].
  repeat case_test; apply map_sorted_cons; subst; auto; split; auto.
  - constructor; [done |]. eapply Forall_impl; [done |]. simpl. intros. lia.
  - apply map_assign_forall; [simpl; lia | done].
Qed.

Lemma map_erase_forall (P : Z * V -> Prop) k m : Forall P m -> Forall P (map_erase k m).
Proof.
  induction 1 as [| [x w] m Hx Hm IH]; simpl; [by constructor |].
  case_test; [done | by constructor].
Qed.

Lemma map_erase_sorted k m : map_sorted m -> map_sorted (map_erase k m).
Proof.
  induction m as [| [x w] m IH]; intros Hs; simpl; [done |].
  apply map_sorted_cons in Hs as [Hm Hx]. case_test; [done |].
  apply map_sorted_cons. split; [auto | by apply map_erase_forall].
Qed.

Lemma map_erase_find k m k' : map_sorted m ->
  map_find k' (map_erase k m) = if k' =? k then None else map_find k' m.
Proof.
  induction m as [| [x w] m IH]; intros Hs; simpl; [by destruct (k' =? k) |].
  apply map_sorted_cons in Hs as [Hm Hx].
  destruct (Z.eqb_spec k x); simpl.
  - subst. destruct (Z.eqb_spec k' x); [subst; by apply map_find_below | done].
  - rewrite IH by done. destruct (Z.eqb_spec k' x), (Z.eqb_spec k' k); subst; done || lia.
Qed.

(** Sums over the values, as accumulated by a loop over the map. *)
Definition map_sum (f : V -> Z) m : Z := foldr (fun kv acc => f kv.2 + acc) 0 m.

Lemma map_sum_nonneg f m : (forall v, 0 <= f v) -> 0 <= map_sum f m.
Proof. intros Hf. induction m as [| [x v] m IH]; simpl; [lia |]. specialize (Hf v). lia. Qed.

Lemma map_sum_assign f k v m : map_find k m = None ->
  map_sum f (map_assign k v m) = map_sum f m + f v.
Proof.
  induction m as [| [x w] m IH]; intros Hk; simpl in *; [lia |].
  destruct (Z.eqb_spec k x); [done |]. destruct (Z.ltb_spec k x); simpl; [lia |].
  rewrite IH by done. lia.
Qed.

Lemma map_sum_erase f k v m : map_find k m = Some v ->
  map_sum f (map_erase k m) = map_sum f m - f v.
Proof.
  induction m as [| [x w] m IH]; intros Hk; simpl in *; [done |].
  destruct (k =? x); simplify_eq; [simpl; lia |]. simpl. rewrite IH by done. lia.
Qed.

Lemma map_sum_find f k v m : (forall v, 0 <= f v) -> map_find k m = Some v -> f v <= map_sum f m.
Proof.
  intros Hf. induction m as [| [x w] m IH]; intros Hk; simpl in *; [done |].
  pose proof (map_sum_nonneg f m Hf). specialize (Hf w).
  destruct (k =? x); simplify_eq; [lia |]. specialize (IH Hk). lia.
Qed.

(** A sub-map has a smaller sum. *)
Lemma map_sum_sub f m1 m2 :
  (forall v, 0 <= f v) -> map_sorted m1 -> map_sorted m2 ->
  (forall k v, map_find k m1 = Some v -> map_find k m2 = Some v) ->
  map_sum f m1 <= map_sum f m2.
Proof.
  intros Hf. revert m2. induction m1 as [| [k v] m1 IH]; intros m2 H1 H2 Hsub.
  { by apply map_sum_nonneg. }
  apply map_sorted_cons in H1 as [H1 Hk].
  assert (Hkv : map_find k m2 = Some v) by (apply Hsub; simpl; by rewrite Z.eqb_refl).
  pose proof (map_sum_erase f k v m2 Hkv). simpl.
  assert (map_sum f m1 <= map_sum f (map_erase k m2)); [| lia].
  apply IH; [done | by apply map_erase_sorted |]. intros k' v' Hk'.
  rewrite map_erase_find by done. destruct (Z.eqb_spec k' k) as [-> |].
  - by rewrite map_find_below in Hk'.
  - apply Hsub. simpl. by test_false.
Qed.
End Maps.
