(* ===== verification/QuicAck.v ===== *)
(** * ACK frames: building and expanding

    [quicBuildAckFrame] ([src/src/quic.cpp]) describes a set of received packet
    numbers by ranges and gaps; the first half of
    [QuicLossRecovery::onAckReceived] ([src/src/quic_recovery.cpp]) turns the
    ranges of a frame back into a set, clamping every walk because the frame
    comes from the network. *)

From S2P Require Import Prelude StdMap QuicFrame.
From stdpp Require Import sets list.
#[local] Open Scope Z_scope.

(** ** Building *)

(** [while (low > 0 && received.count(low - 1)) --low;] from [low = n]. *)
Fixpoint lowerRun (received : list Z) (n : nat) : Z :=
  match n with
  | O => 0
  | S n' => if set_count (Z.of_nat n') received then lowerRun received n' else Z.of_nat n
  end.

(** [while (gapLow > 0 && !received.count(gapLow - 1)) --gapLow;] *)
Fixpoint lowerGap (received : list Z) (n : nat) : Z :=
  match n with
  | O => 0
  | S n' => if negb (set_count (Z.of_nat n') received) then lowerGap received n' else Z.of_nat n
  end.

(** The loop that appends one range per round, [ackRanges] being what is there
    already. *)
Fixpoint ackGapLoop (fuel : nat) (received : list Z) (prevLow : Z) (ackRanges : list QuicAckRange) :
    result (list QuicAckRange) :=
  match fuel with
  | O => OutOfFuel
  | S fuel' =>
      if negb (prevLow >? 0) then Ret ackRanges else
      if set_count (prevLow - 1) received then Ret ackRanges else
      let gapLow := lowerGap received (Z.to_nat (prevLow - 1)) in
      if gapLow =? 0 then Ret ackRanges else
      let rangeHigh := gapLow - 1 in
      let rangeLow := lowerRun received (Z.to_nat rangeHigh) in
      let r := mkRange (u64 ((prevLow - 1) - rangeHigh - 1)) (rangeHigh - rangeLow) in
      let ackRanges := ackRanges ++ [r] in
      if zlen ackRanges >=? 255 then Ret ackRanges
      else ackGapLoop fuel' received rangeLow ackRanges
  end.

(** [*received.rbegin()] of a non-empty set *)
Definition rbegin (received : list Z) : Z := List.last received 0.

Definition quicBuildAckFrame (received : list Z) (ack : QuicFrame) : result QuicFrame :=
  if bool_decide (received = []) then Ret ack else
  let largest := rbegin received in
  let low := lowerRun received (Z.to_nat largest) in
  rs ← ackGapLoop (S (Z.to_nat low)) received low ack.(ackRanges);
  Ret (set_ackRanges rs (set_firstAckRange (largest - low) (set_ackDelay 0
         (set_largestAcknowledged largest (set_type Ack ack))))).

(** ** Expanding *)

(** [for (i = 0; i <= len; ++i) acked.insert(high - i);], the [n] last rounds. *)
Fixpoint insertRange (n : nat) (high i : Z) (acked : list Z) : list Z :=
  match n with
  | O => acked
  | S n' => insertRange n' high (i + 1) (set_insert (high - i) acked)
  end.

(** The loop over [ack.ackRanges]. *)
Fixpoint expandRanges (rs : list QuicAckRange) (cursor : Z) (acked : list Z) : list Z :=
  match rs with
  | [] => acked
  | r :: rs' =>
      if u64 (r.(gap) + 2) >? cursor then acked else
      let cursor := cursor - u64 (r.(gap) + 2) in
      let rangeLen := Z.min r.(ackRangeLength) cursor in
      let acked := insertRange (Z.to_nat (rangeLen + 1)) cursor 0 acked in
      let cursor := cursor - rangeLen in
      if cursor =? 0 then acked else expandRanges rs' cursor acked
  end.

(** The set of acknowledged packet numbers, [largest] being clamped already. *)
Definition expandAck (ack : QuicFrame) (largest : Z) : list Z :=
  let firstRange := Z.min ack.(firstAckRange) largest in
  let acked := insertRange (Z.to_nat (firstRange + 1)) largest 0 [] in
  expandRanges ack.(ackRanges) (largest - firstRange) acked.

(** ** What the loops compute *)

Lemma lowerRun_spec received n :
  0 <= lowerRun received n <= Z.of_nat n
  /\ (forall x, lowerRun received n <= x < Z.of_nat n -> x ∈ received)
  /\ (0 < lowerRun received n -> lowerRun received n - 1 ∉ received).
Proof.
  induction n as [| n IH]; [cbn; split_and!; intros; lia |]. cbn [lowerRun].
  destruct (set_count (Z.of_nat n) received) eqn:E.
  - destruct IH as (H1 & H2 & H3). split; [lia |]; split; [| done].
    intros x Hx. destruct (decide (x = Z.of_nat n)) as [-> |]; [by apply set_count_spec |].
    apply H2. lia.
  - split; [lia |]; split; [intros; lia |]. intros _ Hin.
    replace (Z.of_nat (S n) - 1) with (Z.of_nat n) in Hin by lia.
    apply set_count_spec in Hin. congruence.
Qed.

Lemma lowerGap_spec received n :
  0 <= lowerGap received n <= Z.of_nat n
  /\ (forall x, lowerGap received n <= x < Z.of_nat n -> x ∉ received)
  /\ (0 < lowerGap received n -> lowerGap received n - 1 ∈ received).
Proof.
  induction n as [| n IH]; [cbn; split_and!; intros; lia |]. cbn [lowerGap].
  destruct (set_count (Z.of_nat n) received) eqn:E; simpl negb; cbv iota.
  - split; [lia |]; split; [intros; lia |]. intros _.
    replace (Z.of_nat (S n) - 1) with (Z.of_nat n) by lia. by apply set_count_spec.
  - destruct IH as (H1 & H2 & H3). split; [lia |]; split; [| done].
    intros x Hx. destruct (decide (x = Z.of_nat n)) as [-> |]; [| apply H2; lia].
    intros Hin. apply set_count_spec in Hin. congruence.
Qed.

Lemma elem_of_insertRange n high i acked x :
  x ∈ insertRange n high i acked <-> x ∈ acked \/ high - i - Z.of_nat n < x <= high - i.
Proof.
  revert i acked. induction n as [| n IH]; intros i acked; cbn [insertRange].
  - split; [by left |]. intros [? | ?]; [done | lia].
  - rewrite IH, elem_of_set_insert. split; intros; destruct_or?; auto.
    + right. lia.
    + right. lia.
    + destruct (decide (x = high - i)); [auto | right; lia].
Qed.

Lemma insertRange_sorted n high i acked : set_sorted acked -> set_sorted (insertRange n high i acked).
Proof.
  revert i acked. induction n as [| n IH]; intros; cbn [insertRange]; [done |].
  by apply IH, set_insert_sorted.
Qed.

Lemma expandRanges_sorted rs cursor acked : set_sorted acked -> set_sorted (expandRanges rs cursor acked).
Proof.
  revert cursor acked. induction rs as [| r rs IH]; intros; cbn [expandRanges]; [done |].
  repeat case_test; try apply IH; by try apply insertRange_sorted.
Qed.

(** One round, on a range that lies above zero. *)
Lemma expandRanges_cons r rs cursor acked :
  0 <= r.(gap) < 2 ^ 63 -> 0 <= r.(ackRangeLength) ->
  r.(gap) + 2 + r.(ackRangeLength) <= cursor ->
  let high := cursor - r.(gap) - 2 in
  let low := high - r.(ackRangeLength) in
  let acked' := insertRange (Z.to_nat (r.(ackRangeLength) + 1)) high 0 acked in
  expandRanges (r :: rs) cursor acked = (if low =? 0 then acked' else expandRanges rs low acked').
Proof.
  intros Hg Hl Hc high low acked'. cbn [expandRanges].
  assert (u64 (r.(gap) + 2) = r.(gap) + 2) as -> by (apply Z.mod_small; lia).
  test_false. replace (cursor - (r.(gap) + 2)) with high by lia.
  replace (Z.min r.(ackRangeLength) high) with r.(ackRangeLength) by lia. done.
Qed.

(** What is acknowledged already stays. *)
Lemma expandRanges_mono rs cursor acked x : x ∈ acked -> x ∈ expandRanges rs cursor acked.
Proof.
  revert cursor acked. induction rs as [| r rs IH]; intros cursor acked Hx; cbn [expandRanges]; [done |].
  repeat case_test; [done | | apply IH]; rewrite elem_of_insertRange; by left.
Qed.

(** The ranges the builder appends below [prevLow] expand to received numbers
    below [prevLow], and to all of them unless the limit of 255 was reached. *)
Definition describes (received : list Z) (prevLow : Z) (full : Prop) (rs : list QuicAckRange) : Prop :=
  forall acked,
    (forall x, x ∈ expandRanges rs prevLow acked -> x ∈ acked \/ (x ∈ received /\ x < prevLow))
    /\ (full -> forall x, x ∈ received -> x < prevLow -> x ∈ expandRanges rs prevLow acked).

Lemma describes_nil received prevLow full :
  (forall x, x ∈ received -> 0 <= x) ->
  (full -> forall x, x ∈ received -> ~ x < prevLow) -> describes received prevLow full [].
Proof.
  intros Hpos Hnone acked. split; [by left |]. intros Hf x Hx Hlt. by destruct (Hnone Hf x Hx).
Qed.

Lemma describes_cons received prevLow full rangeHigh rangeLow rs :
  (forall x, x ∈ received -> 0 <= x) -> prevLow < 2 ^ 63 ->
  0 <= rangeLow <= rangeHigh -> rangeHigh + 2 <= prevLow ->
  (forall x, rangeHigh < x < prevLow -> x ∉ received) ->
  (forall x, rangeLow <= x <= rangeHigh -> x ∈ received) ->
  describes received rangeLow full rs ->
  describes received prevLow full
    (mkRange (prevLow - 1 - rangeHigh - 1) (rangeHigh - rangeLow) :: rs).
Proof.
  intros Hpos Hmax Hlow Hhigh Hgap Hrun Hrs acked.
  rewrite expandRanges_cons by (simpl; lia). simpl.
  replace (prevLow - (prevLow - 1 - rangeHigh - 1) - 2) with rangeHigh by lia.
  replace (rangeHigh - (rangeHigh - rangeLow)) with rangeLow by lia.
  set (acked' := insertRange _ _ _ _).
  assert (Hacked' : forall x, x ∈ acked' <-> x ∈ acked \/ rangeLow <= x <= rangeHigh).
  { intros x. unfold acked'. rewrite elem_of_insertRange. split; (intros [? | ?]; [by left |]); right; lia. }
  destruct (Hrs acked') as [Hin Hall].
  assert (Hcover : forall x, x ∈ received -> x < prevLow -> x ∈ acked' \/ x < rangeLow).
  { intros x Hx Hlt. destruct (decide (x < rangeLow)); [by right |]. left. apply Hacked'. right.
    split; [lia |]. apply Z.nlt_ge. intros ?. by apply (Hgap x). }
  case_test.
  - split.
    + intros x Hx. apply Hacked' in Hx as [? | ?]; [by left | right]. split; [by apply Hrun | lia].
    + intros _ x Hx Hlt. destruct (Hcover x Hx Hlt) as [? | ?]; [done |].
      specialize (Hpos x Hx). lia.
  - split.
    + intros x Hx. apply Hin in Hx as [Hx | [? ?]]; [| right; split; [done | lia]].
      apply Hacked' in Hx as [? | ?]; [by left | right]. split; [by apply Hrun | lia].
    + intros Hf x Hx Hlt. destruct (Hcover x Hx Hlt) as [? | ?]; [by apply expandRanges_mono | auto].
Qed.

Lemma ackGapLoop_describes received fuel prevLow acc :
  (forall x, x ∈ received -> 0 <= x) -> 0 <= prevLow < 2 ^ 63 -> (Z.to_nat prevLow < fuel)%nat ->
  (0 < prevLow -> prevLow - 1 ∉ received) -> zlen acc < 255 ->
  exists rs, ackGapLoop fuel received prevLow acc = Ret (acc ++ rs)
    /\ zlen (acc ++ rs) <= 255
    /\ describes received prevLow (zlen (acc ++ rs) < 255) rs.
Proof.
  intros Hpos. revert prevLow acc. induction fuel as [| fuel IH]; intros prevLow acc Hp Hf Hn Hacc; [lia |].
  cbn [ackGapLoop]. case_test.
  { exists []. rewrite app_nil_r. split_and!; [done | lia |]. apply describes_nil; [done |].
    intros _ x Hx. specialize (Hpos x Hx). lia. }
  destruct (set_count (prevLow - 1) received) eqn:Ec.
  { apply set_count_spec in Ec. by destruct Hn; [lia |]. }
  pose proof (lowerGap_spec received (Z.to_nat (prevLow - 1))) as (G1 & G2 & G3).
  set (gapLow := lowerGap _ _) in *. rewrite Z2Nat.id in * by lia.
  assert (Hgap : forall x, gapLow <= x < prevLow -> x ∉ received).
  { intros x Hx. destruct (decide (x = prevLow - 1)) as [-> |]; [apply Hn; lia | apply G2; lia]. }
  case_test.
  { exists []. rewrite app_nil_r. split_and!; [done | lia |]. apply describes_nil; [done |].
    intros _ x Hx Hlt. apply (Hgap x); [| done]. specialize (Hpos x Hx). lia. }
  pose proof (lowerRun_spec received (Z.to_nat (gapLow - 1))) as (R1 & R2 & R3).
  set (rangeLow := lowerRun _ _) in *. rewrite Z2Nat.id in * by lia.
  assert (Hrun : forall x, rangeLow <= x <= gapLow - 1 -> x ∈ received).
  { intros x Hx. destruct (decide (x = gapLow - 1)) as [-> |]; [apply G3; lia | apply R2; lia]. }
  assert (u64 (prevLow - 1 - (gapLow - 1) - 1) = prevLow - 1 - (gapLow - 1) - 1) as ->
    by (apply Z.mod_small; lia).
  set (r := mkRange _ _). rewrite zlen_app. change (zlen [r]) with 1.
  assert (Hcons : forall full rs, describes received rangeLow full rs ->
                    describes received prevLow full (r :: rs)).
  { intros full rs Hrs. apply describes_cons; try (done || lia). intros x Hx. apply Hgap. lia. }
  case_test.
  - exists [r]. rewrite zlen_app. change (zlen [r]) with 1. split_and!; [done | lia |].
    apply Hcons, describes_nil; [done | lia].
  - destruct (IH rangeLow (acc ++ [r])) as (rs & He & Hl & Hd); try (done || lia).
    { rewrite zlen_app. change (zlen [r]) with 1. lia. }
    rewrite <- app_assoc in He, Hl, Hd. exists (r :: rs). split_and!; [done | done |].
    by apply Hcons.
Qed.

Lemma rbegin_spec received :
  set_sorted received -> received <> [] ->
  rbegin received ∈ received /\ (forall x, x ∈ received -> x <= rbegin received).
Proof.
  unfold rbegin, set_sorted. induction 1 as [| x s Hs IH Hx]; [done |]. intros _.
  destruct s as [| y s]; [simpl; split; [set_solver |]; intros z Hz; set_solver by lia |].
  destruct IH as [H1 H2]; [done |]. change (List.last (x :: y :: s) 0) with (List.last (y :: s) 0).
  split; [by apply list_elem_of_further |]. intros z Hz.
  apply elem_of_cons in Hz as [-> | Hz]; [| auto].
  rewrite Forall_forall in Hx. specialize (Hx _ H1). lia.
Qed.

(** The numbers a frame acknowledges never exceed the clamped largest one, and
    the expansion is ordered. *)
Lemma expandAck_bound ack largest x :
  0 <= ack.(firstAckRange) -> 0 <= largest -> Forall (fun r => 0 <= r.(ackRangeLength)) ack.(ackRanges) ->
  x ∈ expandAck ack largest -> 0 <= x <= largest.
Proof.
  intros Hf Hl Hrs. unfold expandAck. set (fr := Z.min _ _).
  assert (Hgen : forall rs cursor acked,
    Forall (fun r => 0 <= r.(ackRangeLength)) rs ->
    0 <= cursor <= largest -> (forall x, x ∈ acked -> 0 <= x <= largest) ->
    forall x, x ∈ expandRanges rs cursor acked -> 0 <= x <= largest).
  { induction rs as [| r rs IH]; intros cursor acked Hr Hc Ha y; cbn [expandRanges]; [auto |].
    inversion Hr; subst. case_test; [auto |].
    assert (0 <= u64 (r.(gap) + 2)) by (apply Z.mod_pos_bound; lia).
    set (cursor' := cursor - u64 (r.(gap) + 2)) in *.
    assert (Ha' : forall z, z ∈ insertRange (Z.to_nat (Z.min r.(ackRangeLength) cursor' + 1)) cursor' 0 acked ->
                    0 <= z <= largest).
    { intros z Hz. apply elem_of_insertRange in Hz as [? | ?]; [auto | lia]. }
    case_test; [auto |]. apply IH; [done | lia | done]. }
  apply Hgen; [done | lia |]. intros y Hy. apply elem_of_insertRange in Hy as [Hy | ?]; [| lia].
  by apply not_elem_of_nil in Hy.
Qed.

Lemma expandAck_sorted ack largest : set_sorted (expandAck ack largest).
Proof. apply expandRanges_sorted, insertRange_sorted. constructor. Qed.

(** C28: The ACK frame built from a set of received packet numbers, expanded by the
    sender, acknowledges only received numbers, and exactly the received set unless the
    limit of 255 ranges was reached. *)
Theorem quicBuildAckFrame_expand received largestSent :
  set_sorted received -> received <> [] ->
  (forall x, x ∈ received -> 0 <= x < 2 ^ 62) -> rbegin received <= largestSent ->
  exists ack,
    quicBuildAckFrame received frame0 = Ret ack
    /\ type ack = Ack /\ ack.(largestAcknowledged) = rbegin received
    /\ zlen ack.(ackRanges) <= 255
    /\ let acked := expandAck ack (Z.min ack.(largestAcknowledged) largestSent) in
       (forall pn, pn ∈ acked -> pn ∈ received)
       /\ (zlen ack.(ackRanges) < 255 -> acked = received).
Proof.
  intros Hs Hne Hr Hmax. destruct (rbegin_spec received Hs Hne) as [Hlin Hlmax].
  pose proof (Hr _ Hlin) as Hlr.
  pose proof (lowerRun_spec received (Z.to_nat (rbegin received))) as (R1 & R2 & R3).
  unfold quicBuildAckFrame. rewrite bool_decide_false by done.
  set (low := lowerRun _ _) in *. rewrite Z2Nat.id in * by lia.
  change (ackRanges frame0) with (@nil QuicAckRange).
  destruct (ackGapLoop_describes received (S (Z.to_nat low)) low []) as (rs & -> & Hl & Hd);
    [intros; by apply Hr | lia | lia | done | done |].
  cbn [app] in *. cbn [mbind result_bind]. eexists. split; [done |].
  simpl. do 3 (split; [done |]).
  rewrite Z.min_l by lia. unfold expandAck. simpl. rewrite Z.min_l by lia.
  replace (rbegin received - (rbegin received - low)) with low by lia.
  set (acked0 := insertRange _ _ _ _).
  assert (Ha0 : forall x, x ∈ acked0 <-> low <= x <= rbegin received).
  { intros x. unfold acked0. rewrite elem_of_insertRange. split.
    - intros [Hx | ?]; [by apply not_elem_of_nil in Hx | lia].
    - right. lia. }
  destruct (Hd acked0) as [Hin Hall].
  assert (Hsound : forall pn, pn ∈ expandRanges rs low acked0 -> pn ∈ received).
  { intros pn Hpn. apply Hin in Hpn as [Hpn | [? _]]; [| done]. apply Ha0 in Hpn.
    destruct (decide (pn = rbegin received)) as [-> |]; [done | apply R2; lia]. }
  split; [done |]. intros Hfull. apply set_sorted_ext; [| done |].
  - apply expandRanges_sorted, insertRange_sorted. constructor.
  - intros x. split; [apply Hsound |]. intros Hx. specialize (Hlmax x Hx).
    destruct (decide (x < low)); [by apply Hall | apply expandRanges_mono, Ha0; lia].
Qed.

Lemma quicBuildAckFrame_expand_witness :
  exists ack,
    quicBuildAckFrame [0; 1; 4; 5; 6; 9] frame0 = Ret ack
    /\ type ack = Ack /\ ack.(largestAcknowledged) = 9
    /\ zlen ack.(ackRanges) <= 255
    /\ let acked := expandAck ack (Z.min ack.(largestAcknowledged) 12) in
       (forall pn, pn ∈ acked -> pn ∈ [0; 1; 4; 5; 6; 9])
       /\ (zlen ack.(ackRanges) < 255 -> acked = [0; 1; 4; 5; 6; 9]).
Proof.
  apply (quicBuildAckFrame_expand [0; 1; 4; 5; 6; 9] 12).
  - unfold set_sorted. repeat constructor; lia.
  - done.
  - intros x Hx. set_unfold in Hx. lia.
  - closed_lia.
Defined.
