(* ===== verification/QuicRecovery.v ===== *)
(** * Loss recovery and congestion control

    [QuicRttStats] and [QuicLossRecovery] ([src/src/quic_recovery.cpp]) and
    [QuicRenoCongestionControl] ([src/src/quic_cc.cpp]).  Times are microseconds
    in a [uint64_t], sizes are [size_t]; both wrap at 64 bits. *)

From S2P Require Import Prelude StdMap QuicFrame QuicAck.

Inductive QuicPacketNumberSpace : Type := QuicPnInitial | QuicPnHandshake | QuicPnApplication.

#[export] Instance QuicPacketNumberSpace_eq_dec : EqDecision QuicPacketNumberSpace.
Proof. solve_decision. Defined.

(** Arrays indexed by the space, and [a[space] = v]. *)
Definition upd {A} (s : QuicPacketNumberSpace) (v : A) (a : QuicPacketNumberSpace -> A) :
    QuicPacketNumberSpace -> A :=
  fun s' => if decide (s' = s) then v else a s'.

(** ** RTT estimation *)

Module Rtt.
Record QuicRttStats : Type := mk {
  latestRttUs : Z;
  minRttUs : Z;
  smoothedRttUs : Z;
  rttvarUs : Z;
  maxAckDelayUs : Z
}.

Definition init : QuicRttStats := mk 0 0 0 0 (25 * 1000).

Definition onAckSample (timeSentUs ackDelayUs nowUs : Z) (r : QuicRttStats) : QuicRttStats :=
  if (timeSentUs =? 0) || (nowUs <? timeSentUs) then r else
  let latest := nowUs - timeSentUs in
  let latest := if ackDelayUs <? latest then latest - Z.min ackDelayUs r.(maxAckDelayUs)
                else latest in
  let minRtt := if (r.(minRttUs) =? 0) || (latest <? r.(minRttUs)) then latest
                else r.(minRttUs) in
  if r.(smoothedRttUs) =? 0 then mk latest minRtt latest (latest / 2) r.(maxAckDelayUs)
  else
    let delta := if r.(smoothedRttUs) >? latest then r.(smoothedRttUs) - latest
                 else latest - r.(smoothedRttUs) in
    mk latest minRtt
       (u64 (u64 (7 * r.(smoothedRttUs)) / 8 + latest / 8))
       (u64 (u64 (3 * r.(rttvarUs)) / 4 + delta / 4)) r.(maxAckDelayUs).

Definition ptoUs (r : QuicRttStats) : Z :=
  let base := u64 (4 * r.(rttvarUs)) in
  let base := if base <? 1000 then 1000 else base in
  u64 (u64 (r.(smoothedRttUs) + base) + r.(maxAckDelayUs)).
End Rtt.

(** ** Loss recovery *)

Record QuicSentPacket : Type := mkSent {
  pn : Z;
  space : QuicPacketNumberSpace;
  raw : list Z;
  ackEliciting : bool;
  inFlight : bool;
  timeSentUs : Z
}.

Definition landed (p : QuicSentPacket) : QuicSentPacket :=
  mkSent p.(pn) p.(space) p.(raw) p.(ackEliciting) false p.(timeSentUs).

Record QuicLossRecovery : Type := mkRecovery {
  m_sent : QuicPacketNumberSpace -> list (Z * QuicSentPacket);
  m_largestAcked : QuicPacketNumberSpace -> Z;
  m_largestSent : QuicPacketNumberSpace -> Z;
  m_lastSentTimeUs : QuicPacketNumberSpace -> Z;
  m_ptoCount : QuicPacketNumberSpace -> Z;
  m_earliestLostTimeUs : QuicPacketNumberSpace -> Z;
  m_bytesInFlight : Z;
  m_rtt : Rtt.QuicRttStats
}.

Definition recovery0 : QuicLossRecovery :=
  mkRecovery (fun _ => []) (fun _ => 0) (fun _ => 0) (fun _ => 0) (fun _ => 0) (fun _ => 0) 0 Rtt.init.

Definition kPacketThreshold : Z := 3.
Definition kTimeThresholdDenominator : Z := 8.

Definition onPacketSent (pkt : QuicSentPacket) (d : QuicLossRecovery) : QuicLossRecovery :=
  let s := pkt.(space) in
  mkRecovery
    (upd s (map_assign pkt.(pn) pkt (d.(m_sent) s)) d.(m_sent))
    d.(m_largestAcked)
    (if pkt.(pn) >? d.(m_largestSent) s then upd s pkt.(pn) d.(m_largestSent) else d.(m_largestSent))
    (if pkt.(timeSentUs) >? d.(m_lastSentTimeUs) s then upd s pkt.(timeSentUs) d.(m_lastSentTimeUs)
     else d.(m_lastSentTimeUs))
    d.(m_ptoCount) d.(m_earliestLostTimeUs)
    (if pkt.(inFlight) then u64 (d.(m_bytesInFlight) + zlen pkt.(raw)) else d.(m_bytesInFlight))
    d.(m_rtt).

(** The loop over [acked]: the remaining map, the bytes in flight and the packets
    found, in the order of the set. *)
Fixpoint ackLoop (acked : list Z) (sent : list (Z * QuicSentPacket)) (bytes : Z)
    (newlyAcked : list QuicSentPacket) : list (Z * QuicSentPacket) * Z * list QuicSentPacket :=
  match acked with
  | [] => (sent, bytes, newlyAcked)
  | pn :: acked' =>
      match map_find pn sent with
      | None => ackLoop acked' sent bytes newlyAcked
      | Some p =>
          let bytes := if p.(inFlight) then bytes - Z.min bytes (zlen p.(raw)) else bytes in
          let p := if p.(inFlight) then landed p else p in
          ackLoop acked' (map_erase pn sent) bytes (newlyAcked ++ [p])
      end
  end.

(** [sort] by packet number: insertion into an ordered list. *)
Fixpoint insertByPn (p : QuicSentPacket) (l : list QuicSentPacket) : list QuicSentPacket :=
  match l with
  | [] => [p]
  | q :: l' => if p.(pn) <? q.(pn) then p :: l else q :: insertByPn p l'
  end.

Definition sortByPn (l : list QuicSentPacket) : list QuicSentPacket :=
  foldl (fun acc p => insertByPn p acc) [] l.

(** The newest in-flight packet number and its send time. *)
Definition newestInFlight (sent : list (Z * QuicSentPacket)) : Z * Z :=
  foldl (fun acc kv => if kv.2.(inFlight) && (kv.1 >? acc.1) then (kv.1, kv.2.(timeSentUs)) else acc)
    (0, 0) sent.

Definition lossDelay (r : Rtt.QuicRttStats) : Z :=
  if r.(Rtt.smoothedRttUs) >? 0 then
    let maxRtt := Z.max r.(Rtt.latestRttUs) r.(Rtt.smoothedRttUs) in
    let d := u64 (9 * maxRtt) / kTimeThresholdDenominator in
    if d <? 1000 then 1000 else d
  else 0.

(** The two thresholds. *)
Definition isLost (largestAcked nowUs lossDelayUs newestPn newestTime key : Z) : bool :=
  if (largestAcked >=? kPacketThreshold) && (key <=? largestAcked - kPacketThreshold) then true
  else (lossDelayUs >? 0) && (newestTime >? 0) && (nowUs >=? u64 (newestTime + lossDelayUs))
       && (key <? newestPn).

(** The loop over the sent packets: the updated map, the bytes in flight, the
    earliest loss time and the lost packets. *)
Fixpoint lostLoop (largestAcked nowUs lossDelayUs newestPn newestTime : Z)
    (todo : list (Z * QuicSentPacket)) (bytes earliest : Z) :
    list (Z * QuicSentPacket) * Z * Z * list QuicSentPacket :=
  match todo with
  | [] => ([], bytes, earliest, [])
  | (key, p) :: todo' =>
      if negb p.(inFlight) then
        let '(sent, bytes, earliest, lost) :=
          lostLoop largestAcked nowUs lossDelayUs newestPn newestTime todo' bytes earliest in
        ((key, p) :: sent, bytes, earliest, lost)
      else if isLost largestAcked nowUs lossDelayUs newestPn newestTime key then
        let '(sent, bytes, earliest, lost) :=
          lostLoop largestAcked nowUs lossDelayUs newestPn newestTime todo'
            (bytes - Z.min bytes (zlen p.(raw))) earliest in
        ((key, landed p) :: sent, bytes, earliest, landed p :: lost)
      else
        let lossTime := u64 (newestTime + lossDelayUs) in
        let earliest :=
          if (lossDelayUs >? 0) && (newestTime >? 0) && (newestPn >? 0)
             && ((lossTime >? nowUs) && ((earliest =? 0) || (lossTime <? earliest)))
          then lossTime else earliest in
        let '(sent, bytes, earliest, lost) :=
          lostLoop largestAcked nowUs lossDelayUs newestPn newestTime todo' bytes earliest in
        ((key, p) :: sent, bytes, earliest, lost)
  end.

Definition detectLostPackets (s : QuicPacketNumberSpace) (nowUs : Z) (d : QuicLossRecovery) :
    QuicLossRecovery * list QuicSentPacket :=
  let newest := newestInFlight (d.(m_sent) s) in
  let '(sent, bytes, earliest, lost) :=
    lostLoop (d.(m_largestAcked) s) nowUs (lossDelay d.(m_rtt)) newest.1 newest.2
      (d.(m_sent) s) d.(m_bytesInFlight) 0 in
  (mkRecovery (upd s sent d.(m_sent)) d.(m_largestAcked) d.(m_largestSent) d.(m_lastSentTimeUs)
     d.(m_ptoCount) (upd s earliest d.(m_earliestLostTimeUs)) bytes d.(m_rtt),
   lost).

(** The RTT sample of [onAckReceived]: only a new largest number that is still
    recorded gives one. *)
Definition sampleRtt (s : QuicPacketNumberSpace) (ack : QuicFrame) (largest nowUs : Z)
    (d : QuicLossRecovery) : QuicLossRecovery :=
  if largest >? d.(m_largestAcked) s then
    match map_find largest (d.(m_sent) s) with
    | Some p =>
        mkRecovery d.(m_sent) d.(m_largestAcked) d.(m_largestSent) d.(m_lastSentTimeUs)
          (upd s 0 d.(m_ptoCount)) d.(m_earliestLostTimeUs) d.(m_bytesInFlight)
          (Rtt.onAckSample p.(timeSentUs) ack.(ackDelay) nowUs d.(m_rtt))
    | None => d
    end
  else d.

Definition onAckReceived (s : QuicPacketNumberSpace) (ack : QuicFrame) (nowUs : Z)
    (d : QuicLossRecovery) : QuicLossRecovery * list QuicSentPacket * list (list Z) :=
  let largest := Z.min ack.(largestAcknowledged) (d.(m_largestSent) s) in
  let d := sampleRtt s ack largest nowUs d in
  let acked := expandAck ack largest in
  let '(sent, bytes, newlyAcked) := ackLoop acked (d.(m_sent) s) d.(m_bytesInFlight) [] in
  let d := mkRecovery (upd s sent d.(m_sent))
             (if largest >? d.(m_largestAcked) s then upd s largest d.(m_largestAcked)
              else d.(m_largestAcked))
             d.(m_largestSent) d.(m_lastSentTimeUs) d.(m_ptoCount) d.(m_earliestLostTimeUs)
             bytes d.(m_rtt) in
  let '(d, lost) := detectLostPackets s nowUs d in
  (d, sortByPn newlyAcked, map raw lost).

Definition packetsToRetransmitOnPto (s : QuicPacketNumberSpace) (d : QuicLossRecovery) :
    list (list Z) :=
  map (fun kv => kv.2.(raw))
    (List.filter (fun kv => kv.2.(inFlight) && kv.2.(ackEliciting)) (d.(m_sent) s)).

(** [bytesInFlight(space)] *)
Definition bytesInFlight (s : QuicPacketNumberSpace) (d : QuicLossRecovery) : Z :=
  foldl (fun total kv => if kv.2.(inFlight) then u64 (total + zlen kv.2.(raw)) else total) 0
    (d.(m_sent) s).

Definition hasInFlight (s : QuicPacketNumberSpace) (d : QuicLossRecovery) : bool :=
  existsb (fun kv => kv.2.(inFlight)) (d.(m_sent) s).

Definition detectLostOnAlarm (s : QuicPacketNumberSpace) (nowUs : Z) (d : QuicLossRecovery) :
    QuicLossRecovery * list QuicSentPacket :=
  let '(d, lost) := detectLostPackets s nowUs d in
  (mkRecovery d.(m_sent) d.(m_largestAcked) d.(m_largestSent) d.(m_lastSentTimeUs) d.(m_ptoCount)
     (upd s 0 d.(m_earliestLostTimeUs)) d.(m_bytesInFlight) d.(m_rtt), lost).

Definition ptoTimeoutUs (s : QuicPacketNumberSpace) (d : QuicLossRecovery) : Z :=
  let base := if d.(m_rtt).(Rtt.smoothedRttUs) >? 0 then Rtt.ptoUs d.(m_rtt) else 1000 * 1000 in
  let backoff := Z.shiftl 1 (Z.min (d.(m_ptoCount) s) 8) in
  u64 (base * backoff).

Definition onPtoExpired (s : QuicPacketNumberSpace) (d : QuicLossRecovery) : QuicLossRecovery :=
  mkRecovery d.(m_sent) d.(m_largestAcked) d.(m_largestSent) d.(m_lastSentTimeUs)
    (upd s (u64 (d.(m_ptoCount) s + 1)) d.(m_ptoCount)) d.(m_earliestLostTimeUs)
    d.(m_bytesInFlight) d.(m_rtt).

Definition resetPtoCounters (d : QuicLossRecovery) : QuicLossRecovery :=
  mkRecovery d.(m_sent) d.(m_largestAcked) d.(m_largestSent) d.(m_lastSentTimeUs) (fun _ => 0)
    d.(m_earliestLostTimeUs) d.(m_bytesInFlight) d.(m_rtt).

(** ** Reno congestion control *)

Module Reno.
Record Private : Type := mk { m_mss : Z; m_cwnd : Z; m_ssthresh : Z }.

(** [numeric_limits<size_t>::max()] *)
Definition SIZE_MAX : Z := 2 ^ 64 - 1.

Definition initialCwnd (mss : Z) : Z :=
  let a := u64 (10 * mss) in
  let b := Z.max (u64 (2 * mss)) 14720 in
  Z.min a b.

Definition create (maxDatagramSize : Z) : Private :=
  let mss := if maxDatagramSize >? 0 then maxDatagramSize else 1200 in
  mk mss (initialCwnd mss) SIZE_MAX.

Definition canSend (bytesInFlight : Z) (d : Private) : bool := bytesInFlight <? d.(m_cwnd).

(** [onAckReceived]; the division by a zero window is a fault. *)
Definition onAckReceived (bytesAcked : Z) (d : Private) : result Private :=
  if bytesAcked =? 0 then Ret d else
  if d.(m_cwnd) <? d.(m_ssthresh) then
    Ret (mk d.(m_mss) (u64 (d.(m_cwnd) + bytesAcked)) d.(m_ssthresh))
  else if d.(m_cwnd) =? 0 then Fault else
    let increment := u64 (d.(m_mss) * bytesAcked) / d.(m_cwnd) in
    Ret (mk d.(m_mss) (u64 (d.(m_cwnd) + Z.max increment 1)) d.(m_ssthresh)).

Definition onLossDetected (bytesInFlight : Z) (d : Private) : Private :=
  let ssthresh := Z.max (bytesInFlight / 2) (u64 (2 * d.(m_mss))) in
  mk d.(m_mss) ssthresh ssthresh.

Definition onPersistentCongestion (d : Private) : Private :=
  let cwnd := u64 (2 * d.(m_mss)) in
  mk d.(m_mss) cwnd cwnd.
End Reno.
