(* ===== verification/QuicRecoveryProofs.v ===== *)
(** * The bookkeeping of loss recovery

    The counter [m_bytesInFlight] is the total size of the packets in flight in
    all spaces, so the clamped subtractions never clamp; an ACK removes exactly
    the acknowledged packets and the loss detector marks exactly the packets
    beyond a threshold. *)

From S2P Require Import Prelude StdMap QuicFrame QuicAck QuicRecovery.
From stdpp Require Import sets list.
From Stdlib Require Sorting.Sorted.
#[local] Open Scope Z_scope.

(** ** Invariant *)

Definition flying (p : QuicSentPacket) : Z := if p.(inFlight) then zlen p.(raw) else 0.

Definition total_flying (sent : QuicPacketNumberSpace -> list (Z * QuicSentPacket)) : Z :=
  map_sum flying (sent QuicPnInitial) + map_sum flying (sent QuicPnHandshake)
  + map_sum flying (sent QuicPnApplication).

Definition entry_ok (s : QuicPacketNumberSpace) (top : Z) (kv : Z * QuicSentPacket) : Prop :=
  kv.2.(pn) = kv.1 /\ kv.2.(space) = s /\ 0 <= kv.1 <= top.

Record recovery_inv (d : QuicLossRecovery) : Prop := {
  inv_sorted s : map_sorted (d.(m_sent) s);
  inv_entries s : Forall (entry_ok s (d.(m_largestSent) s)) (d.(m_sent) s);
  inv_bytes : d.(m_bytesInFlight) = total_flying d.(m_sent);
  inv_bound : d.(m_bytesInFlight) < 2 ^ 64;
  inv_acked s : 0 <= d.(m_largestAcked) s <= d.(m_largestSent) s
}.

Lemma flying_nonneg p : 0 <= flying p.
Proof. unfold flying. pose proof (zlen_nonneg p.(raw)). case_test; lia. Qed.
#[export] Hint Resolve flying_nonneg : qtng.

Lemma flying_landed p : flying (landed p) = 0.
Proof. done. Qed.

Lemma upd_same {A} s (v : A) a : upd s v a s = v.
Proof. unfold upd. by rewrite decide_True. Qed.

Lemma upd_other {A} s s' (v : A) a : s' <> s -> upd s v a s' = a s'.
Proof. unfold upd. intros. by rewrite decide_False. Qed.

Lemma total_flying_upd s m sent :
  total_flying (upd s m sent) = total_flying sent - map_sum flying (sent s) + map_sum flying m.
Proof.
  unfold total_flying. destruct s; unfold upd; repeat case_decide; try done; lia.
Qed.

Lemma total_flying_ge s sent : 0 <= map_sum flying (sent s) <= total_flying sent.
Proof.
  unfold total_flying.
  pose proof (map_sum_nonneg flying (sent QuicPnInitial) flying_nonneg).
  pose proof (map_sum_nonneg flying (sent QuicPnHandshake) flying_nonneg).
  pose proof (map_sum_nonneg flying (sent QuicPnApplication) flying_nonneg).
  destruct s; lia.
Qed.

Lemma recovery0_inv : recovery_inv recovery0.
Proof. split; intros; simpl; try constructor; try lia; done. Qed.

(** ** The loops *)

Lemma landed_id p : p.(inFlight) = false -> landed p = p.
Proof. destruct p. simpl. by intros ->. Qed.

Lemma omap_ext_in {A B} (f g : A -> option B) (l : list A) :
  (forall x, x ∈ l -> f x = g x) -> omap f l = omap g l.
Proof.
  induction l as [| x l IH]; intros H; [done |]. cbn. rewrite (H x) by set_solver.
  by rewrite IH by set_solver.
Qed.

Lemma omap_none {A B} (f : A -> option B) (l : list A) :
  (forall x, x ∈ l -> f x = None) -> omap f l = [].
Proof.
  induction l as [| x l IH]; intros H; [done |]. cbn. rewrite (H x) by set_solver.
  apply IH. set_solver.
Qed.

Lemma ackLoop_spec acked sent bytes acc :
  set_sorted acked -> map_sorted sent -> map_sum flying sent <= bytes ->
  exists sent',
    ackLoop acked sent bytes acc
    = (sent', bytes - (map_sum flying sent - map_sum flying sent'),
       acc ++ omap (fun k => landed <$> map_find k sent) acked)
    /\ map_sorted sent'
    /\ (forall k, map_find k sent' = if decide (k ∈ acked) then None else map_find k sent).
Proof.
  intros Hs. revert sent bytes acc. unfold set_sorted in Hs.
  induction Hs as [| k acked Hacked IH Hk]; intros sent bytes acc Hsent Hb; cbn [ackLoop].
  { exists sent. rewrite Z.sub_diag, Z.sub_0_r, app_nil_r. split_and!; [done | done |].
    intros. rewrite decide_False; [done | apply not_elem_of_nil]. }
  rewrite Forall_forall in Hk.
  cbn [omap list_omap]. destruct (map_find k sent) as [p |] eqn:Ek; cbn [fmap option_fmap option_map].
  - pose proof (map_sum_erase flying k p sent Ek) as Hsum.
    pose proof (map_sum_find flying k p sent flying_nonneg Ek) as Hle.
    pose proof (flying_nonneg p) as Hp0.
    destruct (IH (map_erase k sent)
                (if p.(inFlight) then bytes - Z.min bytes (zlen p.(raw)) else bytes)
                (acc ++ [if p.(inFlight) then landed p else p])) as (sent' & He & Hs' & Hf').
    { by apply map_erase_sorted. }
    { rewrite Hsum. unfold flying in *. destruct (p.(inFlight)); lia. }
    exists sent'. rewrite He. split_and!; [| done |].
    + assert (Hl : (if p.(inFlight) then landed p else p) = landed p).
      { destruct (p.(inFlight)) eqn:Ei; [done | by rewrite landed_id]. }
      rewrite Hl, <- app_assoc, Hsum. cbn [app]. f_equal; [f_equal |].
      * unfold flying in *. destruct (p.(inFlight)); lia.
      * do 2 f_equal. apply omap_ext_in. intros k' Hk'. specialize (Hk k' Hk').
        rewrite map_erase_find by done. by test_false.
    + intros k'. rewrite Hf', map_erase_find by done.
      destruct (Z.eqb_spec k' k) as [-> |].
      * rewrite (decide_True (P := k ∈ k :: acked)) by set_solver. by case_decide.
      * repeat case_decide; set_solver.
  - destruct (IH sent bytes acc Hsent Hb) as (sent' & He & Hs' & Hf').
    exists sent'. split_and!; [done | done |].
    intros k'. rewrite Hf'. destruct (decide (k' = k)) as [-> |].
    + rewrite (decide_True (P := k ∈ k :: acked)) by set_solver. case_decide; done.
    + repeat case_decide; set_solver.
Qed.

(** What the detector does to one entry, [lost] being the threshold test. *)
Definition mark (lost : Z -> bool) (kv : Z * QuicSentPacket) : Z * QuicSentPacket :=
  (kv.1, if kv.2.(inFlight) && lost kv.1 then landed kv.2 else kv.2).

Definition lost_of (lost : Z -> bool) (kv : Z * QuicSentPacket) : option QuicSentPacket :=
  if kv.2.(inFlight) && lost kv.1 then Some (landed kv.2) else None.

Lemma mark_pair lost k p :
  mark lost (k, p) = (k, if p.(inFlight) && lost k then landed p else p).
Proof. done. Qed.

Lemma lost_of_pair lost k p :
  lost_of lost (k, p) = if p.(inFlight) && lost k then Some (landed p) else None.
Proof. done. Qed.

(** Two result tuples that differ in the byte count only. *)
Ltac tuple_lia :=
  match goal with |- (_, ?a, _, _) = (_, ?b, _, _) => replace a with b by lia end;
  rewrite mark_pair, lost_of_pair;
  repeat match goal with H : _ = _ :> bool |- _ => rewrite H end; done.

Lemma lostLoop_spec la now delay npn ntime todo bytes earliest :
  map_sum flying todo <= bytes ->
  let lost := isLost la now delay npn ntime in
  exists earliest',
    lostLoop la now delay npn ntime todo bytes earliest
    = (map (mark lost) todo,
       bytes - (map_sum flying todo - map_sum flying (map (mark lost) todo)),
       earliest', omap (lost_of lost) todo).
Proof.
  intros Hb lost. revert bytes earliest Hb.
  induction todo as [| [k p] todo IH]; intros bytes earliest Hb; cbn [lostLoop].
  { exists earliest. simpl. by rewrite Z.sub_0_r. }
  fold lost. cbn [map map_sum foldr mark lost_of omap list_omap fst snd] in *.
  fold (map_sum flying todo) (map_sum flying (map (mark lost) todo)) in *.
  pose proof (flying_nonneg p).
  destruct (p.(inFlight)) eqn:Ei; cbn [negb andb].
  - change (isLost la now delay npn ntime k) with (lost k). destruct (lost k) eqn:El.
    + assert (Hp : flying p = zlen p.(raw)) by (unfold flying; by rewrite Ei).
      destruct (IH (bytes - Z.min bytes (zlen p.(raw))) earliest) as [e' ->].
      { pose proof (map_sum_nonneg flying todo flying_nonneg). lia. }
      exists e'. rewrite flying_landed.
      pose proof (map_sum_nonneg flying todo flying_nonneg). tuple_lia.
    + destruct (IH bytes (if (delay >? 0) && (ntime >? 0) && (npn >? 0)
             && ((u64 (ntime + delay) >? now) && ((earliest =? 0) || (u64 (ntime + delay) <? earliest)))
          then u64 (ntime + delay) else earliest)) as [e' ->]; [lia |].
      exists e'. tuple_lia.
  - destruct (IH bytes earliest) as [e' ->]; [lia |]. exists e'. tuple_lia.
Qed.

Lemma map_fst_mark lost sent : map fst (map (mark lost) sent) = map fst sent.
Proof. induction sent as [| kv sent IH]; simpl; [done | by rewrite IH]. Qed.

Lemma mark_sorted lost sent : map_sorted sent -> map_sorted (map (mark lost) sent).
Proof. unfold map_sorted. by rewrite map_fst_mark. Qed.

(** Marking only lands packets. *)
Lemma mark_flying lost sent : map_sum flying (map (mark lost) sent) <= map_sum flying sent.
Proof.
  induction sent as [| [k p] sent IH]; [done |]. simpl map. rewrite mark_pair. simpl.
  fold (map_sum flying sent) (map_sum flying (map (mark lost) sent)) in *.
  pose proof (flying_nonneg p). destruct (_ && _); rewrite ?flying_landed; lia.
Qed.

Lemma mark_entries s top lost sent :
  Forall (entry_ok s top) sent -> Forall (entry_ok s top) (map (mark lost) sent).
Proof.
  intros H. rewrite Forall_map. eapply Forall_impl; [done |]. intros [k p].
  unfold entry_ok, mark. simpl. by destruct (_ && _).
Qed.

(** Sorting a list that is ordered already. *)
Abbreviation pn_ordered := (Sorted.StronglySorted (fun p q => p.(pn) < q.(pn))).

Lemma insertByPn_last acc p :
  Forall (fun q => q.(pn) < p.(pn)) acc -> insertByPn p acc = acc ++ [p].
Proof.
  induction 1 as [| q acc Hq Hacc IH]; simpl; [done |]. test_false. by rewrite IH.
Qed.

Lemma sortByPn_sorted l : pn_ordered l -> sortByPn l = l.
Proof.
  assert (Hgen : forall acc, (forall p q, p ∈ acc -> q ∈ l -> p.(pn) < q.(pn)) -> pn_ordered l ->
            foldl (fun acc p => insertByPn p acc) acc l = acc ++ l).
  { induction l as [| p l IH]; intros acc Hlt Hl; simpl; [by rewrite app_nil_r |].
    apply Sorted.StronglySorted_inv in Hl as [Hl Hp]. rewrite Forall_forall in Hp.
    rewrite insertByPn_last by (apply Forall_forall; intros q Hq; apply Hlt; set_solver).
    rewrite IH; [by rewrite <- app_assoc | | done].
    intros q r Hq Hr. apply elem_of_app in Hq as [Hq | Hq]; [apply Hlt; set_solver |].
    apply list_elem_of_singleton in Hq as ->. by apply Hp. }
  intros Hl. unfold sortByPn. rewrite Hgen; [done | set_solver | done].
Qed.

(** ** Every operation keeps the invariant *)

Lemma onPacketSent_inv p d :
  recovery_inv d -> map_find p.(pn) (d.(m_sent) p.(space)) = None -> 0 <= p.(pn) ->
  d.(m_bytesInFlight) + zlen p.(raw) < 2 ^ 64 ->
  recovery_inv (onPacketSent p d).
Proof.
  intros [Hsort Hent Hbytes Hbound Hack] Hfresh Hpn Hsize.
  pose proof (total_flying_ge p.(space) d.(m_sent)). pose proof (zlen_nonneg p.(raw)).
  assert (Htop : forall s, d.(m_largestSent) s <= (onPacketSent p d).(m_largestSent) s).
  { intros s. simpl. case_test; [| lia]. unfold upd. case_decide; [subst |]; lia. }
  assert (Hsum : (onPacketSent p d).(m_bytesInFlight) = d.(m_bytesInFlight) + flying p).
  { simpl. unfold flying. destruct (p.(inFlight)); [| lia]. apply Z.mod_small. lia. }
  split.
  - intros s. simpl. unfold upd. case_decide; subst; [by apply map_assign_sorted | done].
  - intros s. pose proof (Htop s) as Ht.
    assert (Hold : Forall (entry_ok s ((onPacketSent p d).(m_largestSent) s)) (d.(m_sent) s)).
    { eapply Forall_impl; [apply Hent |]. intros [k q] (? & ? & ?). unfold entry_ok. simpl in *. split_and!; done || lia. }
    simpl m_sent. unfold upd at 1. case_decide; subst; [| done].
    apply map_assign_forall; [| done]. unfold entry_ok. simpl.
    do 2 (split; [done |]). split; [done |].
    case_test; [| lia]. rewrite upd_same. lia.
  - rewrite Hsum. simpl m_sent. rewrite total_flying_upd, map_sum_assign by done. lia.
  - rewrite Hsum. unfold flying. case_test; lia.
  - intros s. pose proof (Htop s). specialize (Hack s). change ((onPacketSent p d).(m_largestAcked) s)
      with (d.(m_largestAcked) s). lia.
Qed.

Lemma detectLostPackets_spec s now d :
  recovery_inv d ->
  let newest := newestInFlight (d.(m_sent) s) in
  let lost := isLost (d.(m_largestAcked) s) now (lossDelay d.(m_rtt)) newest.1 newest.2 in
  exists earliest,
    detectLostPackets s now d =
      (mkRecovery (upd s (map (mark lost) (d.(m_sent) s)) d.(m_sent)) d.(m_largestAcked)
         d.(m_largestSent) d.(m_lastSentTimeUs) d.(m_ptoCount)
         (upd s earliest d.(m_earliestLostTimeUs))
         (total_flying (upd s (map (mark lost) (d.(m_sent) s)) d.(m_sent))) d.(m_rtt),
       omap (lost_of lost) (d.(m_sent) s))
    /\ recovery_inv (detectLostPackets s now d).1.
Proof.
  intros [Hsort Hent Hbytes Hbound Hack] newest lost.
  pose proof (total_flying_ge s d.(m_sent)) as Hge.
  destruct (lostLoop_spec (d.(m_largestAcked) s) now (lossDelay d.(m_rtt)) newest.1 newest.2
              (d.(m_sent) s) d.(m_bytesInFlight) 0 ltac:(lia)) as [earliest He].
  fold lost in He. exists earliest. unfold detectLostPackets. fold newest. rewrite He.
  assert (Hb : d.(m_bytesInFlight) - (map_sum flying (d.(m_sent) s)
              - map_sum flying (map (mark lost) (d.(m_sent) s)))
            = total_flying (upd s (map (mark lost) (d.(m_sent) s)) d.(m_sent)))
    by (rewrite total_flying_upd; lia).
  rewrite Hb. split; [done |]. cbn [fst]. split; simpl.
  - intros s'. unfold upd. case_decide; subst; [by apply mark_sorted | done].
  - intros s'. unfold upd. case_decide; subst; [by apply mark_entries | done].
  - done.
  - rewrite <- Hb. pose proof (mark_flying lost (d.(m_sent) s)). lia.
  - done.
Qed.

(** ** Acknowledgement *)

Definition ack_wf (ack : QuicFrame) : Prop :=
  0 <= ack.(largestAcknowledged) /\ 0 <= ack.(firstAckRange)
  /\ Forall (fun r => 0 <= r.(ackRangeLength)) ack.(ackRanges).

Lemma sampleRtt_fields s ack largest now d :
  let d' := sampleRtt s ack largest now d in
  d'.(m_sent) = d.(m_sent) /\ d'.(m_largestAcked) = d.(m_largestAcked)
  /\ d'.(m_largestSent) = d.(m_largestSent) /\ d'.(m_bytesInFlight) = d.(m_bytesInFlight).
Proof. unfold sampleRtt. case_test; [| done]. by destruct (map_find _ _). Qed.

(** The packets found, in the order of their numbers. *)
Lemma found_ordered (acked : list Z) (sent : list (Z * QuicSentPacket)) s top :
  set_sorted acked -> map_sorted sent -> Forall (entry_ok s top) sent ->
  pn_ordered (omap (fun k => landed <$> map_find k sent) acked).
Proof.
  intros Hacked Hs Hent. unfold set_sorted in Hacked.
  assert (Hpn : forall k p, map_find k sent = Some p -> p.(pn) = k).
  { intros k p Hk. apply map_find_in in Hk; [| done]. rewrite Forall_forall in Hent.
    by destruct (Hent _ Hk). }
  induction Hacked as [| k acked Hacked IH Hk]; cbn; [constructor |].
  destruct (map_find k sent) as [p |] eqn:Ek; [| done]. cbn. constructor; [done |].
  apply Forall_forall. intros q Hq. apply list_elem_of_omap in Hq as (k' & Hk' & Hq).
  destruct (map_find k' sent) as [p' |] eqn:Ek'; [| done]. simpl in Hq. simplify_eq. simpl.
  rewrite (Hpn _ _ Ek), (Hpn _ _ Ek'). rewrite Forall_forall in Hk. by apply Hk.
Qed.

(** The state between the acknowledgement and the loss detection. *)
Lemma onAckReceived_split s ack now d :
  recovery_inv d -> ack_wf ack ->
  let largest := Z.min ack.(largestAcknowledged) (d.(m_largestSent) s) in
  let acked := expandAck ack largest in
  exists d1,
    onAckReceived s ack now d
    = ((detectLostPackets s now d1).1, omap (fun k => landed <$> map_find k (d.(m_sent) s)) acked,
       map raw (detectLostPackets s now d1).2)
    /\ recovery_inv d1
    /\ d1.(m_largestAcked) s = Z.max (d.(m_largestAcked) s) largest
    /\ (forall s', s' <> s -> d1.(m_sent) s' = d.(m_sent) s')
    /\ (forall k, map_find k (d1.(m_sent) s)
                  = if decide (k ∈ acked) then None else map_find k (d.(m_sent) s)).
Proof.
  intros Hinv (Hw1 & Hw2 & Hw3) largest acked. pose proof Hinv as [Hsort Hent Hbytes Hbound Hack].
  pose proof (total_flying_ge s d.(m_sent)) as Hge. pose proof (Hack s) as Has.
  destruct (sampleRtt_fields s ack largest now d) as (S1 & S2 & S3 & S4).
  assert (Hao : set_sorted acked) by apply expandAck_sorted.
  destruct (ackLoop_spec acked (d.(m_sent) s) d.(m_bytesInFlight) [] Hao (Hsort s) ltac:(lia)) as (sent' & He & Hs' & Hf').
  unfold onAckReceived. fold largest acked. rewrite S1, S2, S3, S4, He.
  set (d1 := mkRecovery _ _ _ _ _ _ _ _). exists d1.
  destruct (detectLostPackets s now d1) as [d2 lost] eqn:Ed. cbn [fst snd app].
  split; [by rewrite (sortByPn_sorted _ (found_ordered acked _ _ _ Hao (Hsort s) (Hent s))) |].
  assert (Hsum : map_sum flying sent' <= map_sum flying (d.(m_sent) s)).
  { by apply map_sum_sub; [apply flying_nonneg | | | intros k p; rewrite Hf'; case_decide]. }
  split_and!; [| unfold d1; simpl; case_test; rewrite ?upd_same; lia
               | intros s' Hne; unfold d1; simpl; by rewrite upd_other
               | intros k; unfold d1; simpl; by rewrite upd_same].
  unfold d1. split; simpl.
  - intros s'. unfold upd. case_decide; subst; done.
  - intros s'. unfold upd. case_decide; subst; [| done].
    apply Forall_forall. intros [k p] Hin. apply map_find_in in Hin; [| done].
    rewrite Hf' in Hin. case_decide; [done |]. apply map_find_in in Hin; [| done].
    specialize (Hent s). rewrite Forall_forall in Hent. by apply Hent.
  - rewrite total_flying_upd. lia.
  - lia.
  - intros s'. specialize (Hack s'). case_test; [| done]. unfold upd. case_decide; subst; lia.
Qed.

Lemma map_find_mark lost k p sent :
  map_find k sent = Some p ->
  map_find k (map (mark lost) sent) = Some (if p.(inFlight) && lost k then landed p else p).
Proof.
  induction sent as [| [x q] sent IH]; [done |]. simpl. destruct (Z.eqb_spec k x) as [-> |]; [| done].
  by intros [= ->].
Qed.

Lemma map_find_mark_none lost k sent :
  map_find k sent = None -> map_find k (map (mark lost) sent) = None.
Proof.
  induction sent as [| [x q] sent IH]; [done |]. simpl. by destruct (Z.eqb_spec k x).
Qed.
