(* ===== verification/QuicRecoveryProps.v ===== *)
(** * Properties of loss recovery and congestion control *)

From S2P Require Import Prelude StdMap QuicFrame QuicAck QuicRecovery QuicRecoveryProofs.
From stdpp Require Import sets list relations.
#[local] Open Scope Z_scope.

(** ** Any history of operations *)

(** One call of the public interface.  A packet number is used once per space and
    the sizes add up to less than [2^64]. *)
Inductive recovery_step : QuicLossRecovery -> QuicLossRecovery -> Prop :=
  | step_sent p d :
      map_find p.(pn) (d.(m_sent) p.(space)) = None -> 0 <= p.(pn) ->
      d.(m_bytesInFlight) + zlen p.(raw) < 2 ^ 64 -> recovery_step d (onPacketSent p d)
  | step_ack s ack now d :
      ack_wf ack -> recovery_step d (onAckReceived s ack now d).1.1
  | step_alarm s now d : recovery_step d (detectLostOnAlarm s now d).1
  | step_pto s d : recovery_step d (onPtoExpired s d)
  | step_reset d : recovery_step d (resetPtoCounters d).

Lemma recovery_step_inv d d' : recovery_step d d' -> recovery_inv d -> recovery_inv d'.
Proof.
  intros Hstep Hinv. destruct Hstep as [p d Hf Hpn Hsz | s ack now d Hw | s now d | s d | d].
  - by apply onPacketSent_inv.
  - destruct (onAckReceived_split s ack now d Hinv Hw) as (d1 & -> & H1 & _). simpl.
    by destruct (detectLostPackets_spec s now d1 H1) as (e & _ & H2).
  - unfold detectLostOnAlarm.
    destruct (detectLostPackets_spec s now d Hinv) as (e & _ & H2).
    destruct (detectLostPackets s now d) as [d2 lost]. simpl in *. by destruct H2; split.
  - by destruct Hinv; split.
  - by destruct Hinv; split.
Qed.

(** [bytesInFlight(space)] adds up without wrapping. *)
Lemma bytesInFlight_sum s d :
  recovery_inv d -> bytesInFlight s d = map_sum flying (d.(m_sent) s).
Proof.
  intros [_ _ Hb Hlt _]. pose proof (total_flying_ge s d.(m_sent)) as Hge.
  unfold bytesInFlight.
  assert (Hgen : forall l acc, 0 <= acc -> acc + map_sum flying l < 2 ^ 64 ->
    foldl (fun total kv => if kv.2.(inFlight) then u64 (total + zlen kv.2.(raw)) else total) acc l
    = acc + map_sum flying l).
  { induction l as [| [k p] l IH]; intros acc Ha Hl; simpl in *; [lia |].
    pose proof (map_sum_nonneg flying l flying_nonneg). pose proof (flying_nonneg p).
    fold (map_sum flying l) in *. pose proof (zlen_nonneg p.(raw)).
    assert (Hp : flying p = if p.(inFlight) then zlen p.(raw) else 0) by done. rewrite Hp in *.
    destruct (p.(inFlight)); [| rewrite IH by lia; lia].
    unfold wrapu. rewrite Z.mod_small by lia. rewrite IH by lia. lia. }
  rewrite Hgen by lia. lia.
Qed.

(** C20: After any history of sends, each packet number of a space once, of ACKs, loss
    alarms and probe timeouts the bytes-in-flight counter is the sum of the sizes in
    flight per space, stays in 64 bits, and is zero unless some packet is in flight. *)
Theorem recovery_bytes_exact d :
  rtc recovery_step recovery0 d ->
  d.(m_bytesInFlight)
  = bytesInFlight QuicPnInitial d + bytesInFlight QuicPnHandshake d + bytesInFlight QuicPnApplication d
  /\ 0 <= d.(m_bytesInFlight) < 2 ^ 64
  /\ (d.(m_bytesInFlight) = 0 \/ exists s, hasInFlight s d = true).
Proof.
  intros Hreach.
  assert (Hinv : recovery_inv d).
  { assert (Hgen : forall x, rtc recovery_step x d -> recovery_inv x -> recovery_inv d).
    { intros x. induction 1; eauto using recovery_step_inv. }
    eauto using recovery0_inv. }
  rewrite !bytesInFlight_sum by done. pose proof Hinv as [_ _ Hb Hlt _].
  pose proof (total_flying_ge QuicPnInitial d.(m_sent)). unfold total_flying in *.
  split_and!; [done | lia | lia |].
  assert (Hzero : forall s, hasInFlight s d = true \/ map_sum flying (d.(m_sent) s) = 0).
  { intros s. unfold hasInFlight. induction (d.(m_sent) s) as [| [k p] l IH]; simpl; [by right |].
    fold (map_sum flying l).
    assert (Hp : flying p = if p.(inFlight) then zlen p.(raw) else 0) by done. rewrite Hp.
    destruct (p.(inFlight)); [by left |].
    destruct IH as [-> | ->]; [by left | by right]. }
  destruct (Hzero QuicPnInitial), (Hzero QuicPnHandshake), (Hzero QuicPnApplication); eauto.
  left. lia.
Qed.

(** ** Acknowledgements *)

(** An ACK removes exactly the recorded packets whose numbers it acknowledges,
    reports them in increasing order and no longer in flight, raises the largest
    acknowledged number, and leaves the other spaces alone. *)
Theorem onAckReceived_acks s ack now d :
  recovery_inv d -> ack_wf ack ->
  let largest := Z.min ack.(largestAcknowledged) (d.(m_largestSent) s) in
  let '(d', acked, lost) := onAckReceived s ack now d in
  recovery_inv d'
  /\ d'.(m_largestAcked) s = Z.max (d.(m_largestAcked) s) largest
  /\ pn_ordered acked
  /\ (forall p, p ∈ acked <->
        exists q, p = landed q /\ q.(pn) ∈ expandAck ack largest
                  /\ map_find q.(pn) (d.(m_sent) s) = Some q)
  /\ (forall k, k ∈ expandAck ack largest -> map_find k (d'.(m_sent) s) = None)
  /\ (forall s', s' <> s -> d'.(m_sent) s' = d.(m_sent) s').
Proof.
  intros Hinv Hw largest. pose proof Hinv as [Hsort Hent _ _ _].
  destruct (onAckReceived_split s ack now d Hinv Hw) as (d1 & -> & H1 & Hla & Hoth & Hf). fold largest in Hla, Hf |- *.
  destruct (detectLostPackets_spec s now d1 H1) as (e & Hd & H2). rewrite Hd in *. simpl in *.
  split_and!; [done | done | | | |].
  - eapply found_ordered; [apply expandAck_sorted | done | apply Hent].
  - intros p. rewrite list_elem_of_omap. split.
    + intros (k & Hk & Hq). destruct (map_find k (d.(m_sent) s)) as [q |] eqn:Ek; [| done].
      simpl in Hq. injection Hq as <-. exists q. assert (q.(pn) = k) as ->; [| done].
      apply map_find_in in Ek; [| done]. specialize (Hent s). rewrite Forall_forall in Hent.
      by destruct (Hent _ Ek).
    + intros (q & -> & Hk & Hq). exists q.(pn). by rewrite Hq.
  - intros k Hk. rewrite upd_same. specialize (Hf k). rewrite decide_True in Hf by done.
    by apply map_find_mark_none.
  - intros s' Hne. rewrite upd_other by done. by apply Hoth.
Qed.

(** Packets reported lost by an ACK were in flight and not acknowledged by it; every
    such packet at least three below the largest acknowledged number is reported and taken
    out of flight. *)
Theorem onAckReceived_losses s ack now d :
  recovery_inv d -> ack_wf ack ->
  let largest := Z.min ack.(largestAcknowledged) (d.(m_largestSent) s) in
  let '(d', _, lost) := onAckReceived s ack now d in
  (** a packet reported lost was in flight and not acknowledged *)
  (forall bytes, bytes ∈ lost ->
     exists q, map_find q.(pn) (d.(m_sent) s) = Some q /\ q.(inFlight) = true /\ q.(raw) = bytes
               /\ q.(pn) ∉ expandAck ack largest)
  (** the packet threshold reports every packet it should *)
  /\ (forall q, map_find q.(pn) (d.(m_sent) s) = Some q -> q.(inFlight) = true ->
        q.(pn) ∉ expandAck ack largest -> q.(pn) + kPacketThreshold <= d'.(m_largestAcked) s ->
        q.(raw) ∈ lost /\ map_find q.(pn) (d'.(m_sent) s) = Some (landed q)).
Proof.
  intros Hinv Hw largest. pose proof Hinv as [Hsort Hent _ _ Hack].
  destruct (onAckReceived_split s ack now d Hinv Hw) as (d1 & -> & H1 & Hla & Hoth & Hf). fold largest in Hla, Hf |- *.
  pose proof H1 as [Hsort1 Hent1 _ _ Hack1].
  destruct (detectLostPackets_spec s now d1 H1) as (e & Hd & H2). rewrite Hd in *. simpl in *.
  set (lost := isLost _ _ _ _ _) in *. split.
  - intros bytes Hb. apply list_elem_of_fmap in Hb as (p & -> & Hp).
    apply list_elem_of_omap in Hp as ([k q] & Hin & Hq). rewrite lost_of_pair in Hq.
    destruct (q.(inFlight)) eqn:Ei; simpl in Hq; [| done].
    destruct (lost k); [| done]. simplify_eq.
    pose proof (Hent1 s) as He. rewrite Forall_forall in He. destruct (He _ Hin) as (Hpn & _ & _).
    simpl in Hpn. apply map_find_in in Hin; [| done]. rewrite Hf in Hin.
    case_decide as Hk; [done |]. exists q. rewrite Hpn. done.
  - intros q Hq Hi Hk Hthr. specialize (Hf q.(pn)). rewrite decide_False in Hf by done.
    rewrite Hq in Hf. rewrite upd_same.
    assert (Hl : lost q.(pn) = true).
    { unfold lost, isLost. pose proof Hf as Hin. apply map_find_in in Hin; [| done].
      pose proof (Hent1 s) as He. rewrite Forall_forall in He. destruct (He _ Hin) as (_ & _ & ?).
      simpl in *. unfold kPacketThreshold in *. by test_true. }
    rewrite (map_find_mark _ _ _ _ Hf). rewrite Hi, Hl. split; [| done].
    apply list_elem_of_fmap. exists (landed q). split; [done |].
    apply list_elem_of_omap. exists (q.(pn), q). apply map_find_in in Hf; [| done].
    split; [done |]. rewrite lost_of_pair. by rewrite Hi, Hl.
Qed.

(** While the newest packet in flight is younger than the loss delay, the time
    threshold declares nothing lost, however long ago the other packets were sent. *)
Theorem time_threshold_follows_newest s now d k p :
  recovery_inv d ->
  let newest := newestInFlight (d.(m_sent) s) in
  0 <= newest.2 -> newest.2 + lossDelay d.(m_rtt) < 2 ^ 64 -> 0 <= lossDelay d.(m_rtt) ->
  now < newest.2 + lossDelay d.(m_rtt) ->
  map_find k (d.(m_sent) s) = Some p -> d.(m_largestAcked) s < k + kPacketThreshold ->
  map_find k ((detectLostPackets s now d).1.(m_sent) s) = Some p.
Proof.
  intros Hinv newest Hn Hmax Hd Hnow Hk Hthr.
  destruct (detectLostPackets_spec s now d Hinv) as (e & -> & _). simpl. rewrite upd_same.
  rewrite (map_find_mark _ _ _ _ Hk). fold newest.
  assert (isLost (d.(m_largestAcked) s) now (lossDelay d.(m_rtt)) newest.1 newest.2 k = false) as ->.
  { unfold isLost, kPacketThreshold, wrapu in *. rewrite Z.mod_small by lia.
    destruct (Z.geb_spec (d.(m_largestAcked) s) 3); test_false; lia. }
  by rewrite andb_false_r.
Qed.

(** Once no packet of a space is in flight, neither the loss detector nor the probe
    timeout retransmits anything for it, although packets declared lost may still be
    unacknowledged. *)
Theorem landed_not_retried s now d :
  recovery_inv d -> hasInFlight s d = false ->
  (detectLostPackets s now d).2 = [] /\ packetsToRetransmitOnPto s d = [].
Proof.
  intros Hinv Hnone.
  assert (Hall : forall kv, kv ∈ d.(m_sent) s -> kv.2.(inFlight) = false).
  { intros kv Hin. apply not_true_is_false. intros Hi. unfold hasInFlight in Hnone.
    rewrite <- not_true_iff_false in Hnone. apply Hnone, existsb_exists. exists kv.
    split; [by apply list_elem_of_In | done]. }
  destruct (detectLostPackets_spec s now d Hinv) as (e & -> & _). simpl. split.
  - apply omap_none. intros kv Hin. unfold lost_of. by rewrite Hall.
  - unfold packetsToRetransmitOnPto. induction (d.(m_sent) s) as [| kv l IH]; [done |]. simpl.
    rewrite (Hall kv) by set_solver. simpl. apply IH. set_solver.
Qed.

(** ** RTT and probe timeouts *)

Definition rtt_wf (M : Z) (r : Rtt.QuicRttStats) : Prop :=
  0 <= r.(Rtt.latestRttUs) <= M /\ 0 <= r.(Rtt.minRttUs) <= M
  /\ 0 <= r.(Rtt.smoothedRttUs) <= M /\ 0 <= r.(Rtt.rttvarUs) <= M
  /\ 0 <= r.(Rtt.maxAckDelayUs) <= M.

(** An RTT sample keeps all estimates below any bound on the samples so far, without
    wrap-around; the minimum does not exceed the latest sample, and the latest sample is
    the elapsed time less at most the maximum ACK delay. *)
Theorem onAckSample_bounded r sent ackDelay now M :
  rtt_wf M r -> M < 2 ^ 60 -> 0 <= ackDelay -> 0 < sent <= now -> now - sent <= M ->
  let r' := Rtt.onAckSample sent ackDelay now r in
  rtt_wf M r'
  /\ r'.(Rtt.minRttUs) <= r'.(Rtt.latestRttUs)
  /\ now - sent - r.(Rtt.maxAckDelayUs) <= r'.(Rtt.latestRttUs) <= now - sent.
Proof.
  intros (Hl & Hm & Hs & Hv & Hd) HM Ha Ht Hnow r'.
  unfold r', Rtt.onAckSample. test_false.
  set (latest := if ackDelay <? now - sent then _ else _).
  assert (Hlat : 0 <= latest <= now - sent /\ now - sent - r.(Rtt.maxAckDelayUs) <= latest)
    by (unfold latest; case_test; lia).
  set (minRtt := if orb _ _ then latest else r.(Rtt.minRttUs)).
  assert (Hmin : 0 <= minRtt <= latest).
  { unfold minRtt. destruct ((r.(Rtt.minRttUs) =? 0) || (latest <? r.(Rtt.minRttUs))) eqn:E; lia. }
  clearbody latest minRtt. unfold rtt_wf. case_test; simpl.
  - split_and!; try lia; dm_lia.
  - set (delta := if r.(Rtt.smoothedRttUs) >? latest then _ else _).
    assert (0 <= delta <= M) by (unfold delta; case_test; lia). clearbody delta.
    unfold wrapu. rewrite (Z.mod_small (7 * _)), (Z.mod_small (3 * _)) by lia.
    rewrite !Z.mod_small by (split; dm_lia). split_and!; try lia; dm_lia.
Qed.

(** The probe timeout is at least one millisecond, does not wrap, and doubles with
    each expiry until the eighth, after which it stays. *)
Theorem pto_backoff s d :
  rtt_wf (2 ^ 50) d.(m_rtt) -> 0 <= d.(m_ptoCount) s < 2 ^ 64 - 1 ->
  1000 <= ptoTimeoutUs s d
  /\ ptoTimeoutUs s (onPtoExpired s d)
     = (if d.(m_ptoCount) s <? 8 then 2 else 1) * ptoTimeoutUs s d.
Proof.
  intros (Hl & Hm & Hs & Hv & Hd) Hc. unfold ptoTimeoutUs. simpl. rewrite upd_same.
  set (base := if d.(m_rtt).(Rtt.smoothedRttUs) >? 0 then _ else _).
  assert (Hbase : 1000 <= base <= 2 ^ 53).
  { unfold base. case_test; [| lia]. unfold Rtt.ptoUs, wrapu.
    rewrite (Z.mod_small (4 * _)) by lia.
    set (b := if _ <? 1000 then 1000 else _). assert (1000 <= b <= 2 ^ 52) by (unfold b; case_test; lia).
    rewrite (Z.mod_small (_ + b)) by lia. rewrite Z.mod_small by lia. lia. }
  clearbody base. set (c := d.(m_ptoCount) s) in *.
  assert (u64 (c + 1) = c + 1) as -> by (apply Z.mod_small; lia).
  rewrite !Z.shiftl_1_l.
  assert (Hpow : forall k, 0 <= k -> 1 <= 2 ^ Z.min k 8 <= 2 ^ 8).
  { intros k Hk. split; [apply (Z.pow_le_mono_r 2 0) | apply Z.pow_le_mono_r]; lia. }
  assert (Hmul : forall k, 0 <= k -> 1000 <= base * 2 ^ Z.min k 8 < 2 ^ 64).
  { intros k Hk. specialize (Hpow k Hk). nia. }
  unfold wrapu. rewrite !Z.mod_small by (split; [pose proof (Hmul c); pose proof (Hmul (c + 1)); lia
                                                | apply Hmul; lia]).
  split; [apply Hmul; lia |]. case_test.
  - rewrite !Z.min_l by lia. rewrite Z.pow_add_r by lia. lia.
  - rewrite !Z.min_r by lia. lia.
Qed.

(** ** The congestion window *)

Inductive reno_step : Reno.Private -> Reno.Private -> Prop :=
  | reno_ack acked d d' :
      0 <= acked -> d.(Reno.m_cwnd) + acked < 2 ^ 64 -> d.(Reno.m_mss) * acked < 2 ^ 64 ->
      Reno.onAckReceived acked d = Ret d' -> reno_step d d'
  | reno_loss inflight d : 0 <= inflight < 2 ^ 64 -> reno_step d (Reno.onLossDetected inflight d)
  | reno_persistent d : reno_step d (Reno.onPersistentCongestion d).

Definition reno_inv (d : Reno.Private) : Prop :=
  0 < d.(Reno.m_mss) < 2 ^ 32 /\ 2 * d.(Reno.m_mss) <= d.(Reno.m_cwnd) < 2 ^ 64
  /\ 2 * d.(Reno.m_mss) <= d.(Reno.m_ssthresh).

(** An acknowledgement opens the window, by at most what was acknowledged. *)
Lemma reno_ack_spec acked d :
  reno_inv d -> 0 <= acked -> d.(Reno.m_cwnd) + acked < 2 ^ 64 -> d.(Reno.m_mss) * acked < 2 ^ 64 ->
  exists d', Reno.onAckReceived acked d = Ret d' /\ reno_inv d'
    /\ d'.(Reno.m_mss) = d.(Reno.m_mss)
    /\ d.(Reno.m_cwnd) <= d'.(Reno.m_cwnd) <= d.(Reno.m_cwnd) + acked
    /\ (0 < acked -> d.(Reno.m_cwnd) < d'.(Reno.m_cwnd)).
Proof.
  intros (Hm & Hc & Hs) Ha Hsum Hprod. unfold Reno.onAckReceived, reno_inv, wrapu.
  case_test; [exists d; split_and!; done || lia |]. case_test.
  - rewrite Z.mod_small by lia. eexists. split; [done |]. simpl. lia.
  - test_false. rewrite (Z.mod_small (d.(Reno.m_mss) * acked)) by nia.
    set (inc := d.(Reno.m_mss) * acked / d.(Reno.m_cwnd)).
    assert (0 <= inc <= acked).
    { unfold inc. split; [apply Z.div_pos; nia |].
      apply Z.div_le_upper_bound; [lia | nia]. }
    rewrite Z.mod_small by lia. eexists. split; [done |]. simpl. lia.
Qed.

Lemma reno_step_inv d d' : reno_step d d' -> reno_inv d -> reno_inv d'.
Proof.
  intros Hstep Hinv. destruct Hstep as [acked d d' Ha H1 H2 He | inflight d Hi | d].
  - destruct (reno_ack_spec acked d) as (d'' & He' & Hd'' & _); try done. congruence.
  - destruct Hinv as (Hm & Hc & Hs). unfold reno_inv, Reno.onLossDetected, Reno.onPersistentCongestion, wrapu.
    cbn [Reno.m_mss Reno.m_cwnd Reno.m_ssthresh].
    rewrite !(Z.mod_small (2 * _)) by lia. assert (inflight / 2 < 2 ^ 64) by dm_lia. lia.
  - destruct Hinv as (Hm & Hc & Hs). unfold reno_inv, Reno.onLossDetected, Reno.onPersistentCongestion, wrapu.
    cbn [Reno.m_mss Reno.m_cwnd Reno.m_ssthresh].
    rewrite !(Z.mod_small (2 * _)) by lia. lia.
Qed.

(** After any history of acknowledgements, losses and persistent congestion the Reno
    window holds at least two datagrams, so sending never stops with nothing in flight, no
    update divides by zero, a loss does not widen it and an ACK opens it by at most the
    acknowledged bytes. *)
Theorem reno_window maxDatagramSize d :
  0 <= maxDatagramSize < 2 ^ 32 -> rtc reno_step (Reno.create maxDatagramSize) d ->
  2 * d.(Reno.m_mss) <= d.(Reno.m_cwnd) < 2 ^ 64
  /\ Reno.canSend 0 d = true
  /\ (forall inflight, 0 <= inflight <= 2 * d.(Reno.m_cwnd) ->
        (Reno.onLossDetected inflight d).(Reno.m_cwnd) <= d.(Reno.m_cwnd))
  /\ (forall acked, 0 <= acked -> d.(Reno.m_cwnd) + acked < 2 ^ 64 -> d.(Reno.m_mss) * acked < 2 ^ 64 ->
        exists d', Reno.onAckReceived acked d = Ret d'
          /\ d.(Reno.m_cwnd) <= d'.(Reno.m_cwnd) <= d.(Reno.m_cwnd) + acked
          /\ (0 < acked -> d.(Reno.m_cwnd) < d'.(Reno.m_cwnd))).
Proof.
  intros Hmax Hreach.
  assert (Hinv : reno_inv d).
  { assert (H0 : reno_inv (Reno.create maxDatagramSize)).
    { unfold Reno.create. set (mss := if maxDatagramSize >? 0 then maxDatagramSize else 1200).
      assert (0 < mss < 2 ^ 32) by (unfold mss; case_test; lia). clearbody mss.
      unfold reno_inv, Reno.initialCwnd, wrapu, Reno.SIZE_MAX.
      cbn [Reno.m_mss Reno.m_cwnd Reno.m_ssthresh].
      rewrite !Z.mod_small by lia. lia. }
    induction Hreach; eauto using reno_step_inv. }
  pose proof Hinv as (Hm & Hc & Hs). split_and!; [lia | lia | | |].
  - unfold Reno.canSend. apply Z.ltb_lt. lia.
  - intros inflight Hi. unfold Reno.onLossDetected, wrapu.
    cbn [Reno.m_mss Reno.m_cwnd Reno.m_ssthresh]. rewrite Z.mod_small by lia.
    assert (inflight / 2 <= d.(Reno.m_cwnd)) by dm_lia. lia.
  - intros acked Ha H1 H2. destruct (reno_ack_spec acked d Hinv Ha H1 H2) as (d' & ? & ? & ? & ? & ?). eauto.
Qed.

(** ** Concrete states *)

Definition sample_packet (n t : Z) : QuicSentPacket :=
  mkSent n QuicPnApplication [1; 2; 3] true true t.

(** Packets 1 to 5, sent one millisecond apart. *)
Definition sample_recovery : QuicLossRecovery :=
  foldl (fun d n => onPacketSent (sample_packet n (n * 1000)) d) recovery0 [1; 2; 3; 4; 5].

Lemma sample_reachable : rtc recovery_step recovery0 sample_recovery.
Proof.
  unfold sample_recovery. cbn [foldl].
  repeat (eapply rtc_r; [| apply step_sent; [reflexivity | simpl; lia | closed_lia]]).
  apply rtc_refl.
Qed.

Lemma sample_inv : recovery_inv sample_recovery.
Proof.
  unfold sample_recovery. cbn [foldl].
  repeat (apply onPacketSent_inv; [| reflexivity | simpl; lia | closed_lia]).
  apply recovery0_inv.
Qed.

(** An ACK of packet 5 alone. *)
Definition sample_ack : QuicFrame := set_largestAcknowledged 5 (set_type Ack frame0).

Lemma sample_ack_wf : ack_wf sample_ack.
Proof. repeat split; simpl; try lia. constructor. Qed.

Lemma recovery_bytes_exact_witness :
  sample_recovery.(m_bytesInFlight)
  = bytesInFlight QuicPnInitial sample_recovery + bytesInFlight QuicPnHandshake sample_recovery
    + bytesInFlight QuicPnApplication sample_recovery
  /\ 0 <= sample_recovery.(m_bytesInFlight) < 2 ^ 64
  /\ (sample_recovery.(m_bytesInFlight) = 0 \/ exists s, hasInFlight s sample_recovery = true).
Proof. apply recovery_bytes_exact. apply sample_reachable. Defined.

Lemma onAckReceived_acks_witness :
  (onAckReceived QuicPnApplication sample_ack 9000 sample_recovery).1.2
  = [landed (sample_packet 5 5000)]
  /\ let '(d', acked, lost) := onAckReceived QuicPnApplication sample_ack 9000 sample_recovery in
     recovery_inv d'.
Proof.
  split; [vm_compute; reflexivity |].
  pose proof (onAckReceived_acks QuicPnApplication sample_ack 9000 sample_recovery
                sample_inv sample_ack_wf) as H. cbv zeta in H.
  destruct (onAckReceived QuicPnApplication sample_ack 9000 sample_recovery) as [[d' acked] lost].
  apply H.
Defined.

Lemma onAckReceived_losses_witness :
  let '(d', _, lost) := onAckReceived QuicPnApplication sample_ack 9000 sample_recovery in
  raw (sample_packet 2 2000) ∈ lost
  /\ map_find 2 (d'.(m_sent) QuicPnApplication) = Some (landed (sample_packet 2 2000)).
Proof.
  pose proof (onAckReceived_losses QuicPnApplication sample_ack 9000 sample_recovery
                sample_inv sample_ack_wf) as H. cbv zeta in H.
  assert (Hla : (onAckReceived QuicPnApplication sample_ack 9000 sample_recovery).1.1.(m_largestAcked)
                  QuicPnApplication = 5) by (vm_compute; reflexivity).
  destruct (onAckReceived QuicPnApplication sample_ack 9000 sample_recovery) as [[d' acked] lost].
  destruct H as [_ H]. apply (H (sample_packet 2 2000)); [reflexivity | reflexivity | |].
  - rewrite <- set_count_spec. vm_compute. discriminate.
  - simpl in *. rewrite Hla. closed_lia.
Defined.

Lemma time_threshold_follows_newest_witness :
  map_find 4 ((detectLostPackets QuicPnApplication 4500 sample_recovery).1.(m_sent) QuicPnApplication)
  = Some (sample_packet 4 4000).
Proof.
  apply (time_threshold_follows_newest QuicPnApplication 4500 sample_recovery 4);
    first [apply sample_inv | closed_lia].
Defined.

Lemma landed_not_retried_witness :
  (detectLostPackets QuicPnInitial 9000 sample_recovery).2 = []
  /\ packetsToRetransmitOnPto QuicPnInitial sample_recovery = [].
Proof. apply landed_not_retried; [apply sample_inv | reflexivity]. Defined.

Lemma onAckSample_bounded_witness :
  let r' := Rtt.onAckSample 1000 500 31000 Rtt.init in
  rtt_wf 40000 r' /\ r'.(Rtt.minRttUs) <= r'.(Rtt.latestRttUs)
  /\ 31000 - 1000 - 25000 <= r'.(Rtt.latestRttUs) <= 31000 - 1000.
Proof. apply (onAckSample_bounded Rtt.init 1000 500 31000 40000); closed_lia. Defined.

Lemma pto_backoff_witness :
  1000 <= ptoTimeoutUs QuicPnInitial recovery0
  /\ ptoTimeoutUs QuicPnInitial (onPtoExpired QuicPnInitial recovery0)
     = 2 * ptoTimeoutUs QuicPnInitial recovery0.
Proof. apply (pto_backoff QuicPnInitial recovery0); closed_lia. Defined.

Lemma reno_window_witness :
  2 * 1200 <= (Reno.create 1200).(Reno.m_cwnd) < 2 ^ 64 /\ Reno.canSend 0 (Reno.create 1200) = true.
Proof.
  destruct (reno_window 1200 (Reno.create 1200)) as (H1 & H2 & _); [closed_lia | apply rtc_refl |].
  split; [exact H1 | exact H2].
Defined.
