(* ===== verification/QuicSend.v ===== *)
(** * The send path of a connection

    The parts of [QuicConnectionPrivate] ([src/src/quic.cpp]) that number, seal,
    queue, send, acknowledge and retransmit packets: they tie the packet codec,
    the loss recovery and the congestion controller together.  The datagram
    link and the clock are arguments: [sendto] gives the number of bytes the link
    accepted, [now] is [quicNowUs()]. *)

From S2P Require Import Prelude StdMap QuicFrame CryptoApi QuicPacket QuicCrypto.
From S2P Require Import QuicAck QuicRecovery.
#[local] Open Scope Z_scope.

Record QuicOutgoingPacket : Type := mkOut {
  out_space : QuicPacketNumberSpace;
  out_pn : Z;
  out_raw : list Z;
  out_ackEliciting : bool
}.

(** The members the send path reads and writes; the per-space members are
    functions of the space.  [wire] is what the link accepted and [sealed] the
    history of (space, packet number, keys) given to the AEAD. *)
Record Conn : Type := mkConn {
  recovery : QuicLossRecovery;
  cc : Reno.Private;
  sendQueue : list QuicOutgoingPacket;
  nextPn : QuicPacketNumberSpace -> Z;
  sendKeys : QuicPacketNumberSpace -> QuicTrafficKeys;
  isClient : bool;
  hasHsKeys : bool;
  hasAppKeys : bool;
  sendAppSecret : list Z;
  sendKeyPhase : bool;
  appPacketsSent : Z;
  remoteCid : list Z;
  localCid : list Z;
  retryToken : list Z;
  cryptoSend : QuicPacketNumberSpace -> list Z;
  cryptoSendOff : QuicPacketNumberSpace -> Z;
  socketError : bool;
  wire : list (list Z);
  sealed : list (QuicPacketNumberSpace * Z * QuicTrafficKeys)
}.

Definition set_recovery r (c : Conn) : Conn :=
  mkConn r c.(cc) c.(sendQueue) c.(nextPn) c.(sendKeys) c.(isClient) c.(hasHsKeys)
    c.(hasAppKeys) c.(sendAppSecret) c.(sendKeyPhase) c.(appPacketsSent) c.(remoteCid)
    c.(localCid) c.(retryToken) c.(cryptoSend) c.(cryptoSendOff) c.(socketError)
    c.(wire) c.(sealed).

Definition set_cc v (c : Conn) : Conn :=
  mkConn c.(recovery) v c.(sendQueue) c.(nextPn) c.(sendKeys) c.(isClient) c.(hasHsKeys)
    c.(hasAppKeys) c.(sendAppSecret) c.(sendKeyPhase) c.(appPacketsSent) c.(remoteCid)
    c.(localCid) c.(retryToken) c.(cryptoSend) c.(cryptoSendOff) c.(socketError)
    c.(wire) c.(sealed).

Definition set_sendQueue v (c : Conn) : Conn :=
  mkConn c.(recovery) c.(cc) v c.(nextPn) c.(sendKeys) c.(isClient) c.(hasHsKeys)
    c.(hasAppKeys) c.(sendAppSecret) c.(sendKeyPhase) c.(appPacketsSent) c.(remoteCid)
    c.(localCid) c.(retryToken) c.(cryptoSend) c.(cryptoSendOff) c.(socketError)
    c.(wire) c.(sealed).

Definition set_nextPn v (c : Conn) : Conn :=
  mkConn c.(recovery) c.(cc) c.(sendQueue) v c.(sendKeys) c.(isClient) c.(hasHsKeys)
    c.(hasAppKeys) c.(sendAppSecret) c.(sendKeyPhase) c.(appPacketsSent) c.(remoteCid)
    c.(localCid) c.(retryToken) c.(cryptoSend) c.(cryptoSendOff) c.(socketError)
    c.(wire) c.(sealed).

Definition set_appKeys keys secret phase count (c : Conn) : Conn :=
  mkConn c.(recovery) c.(cc) c.(sendQueue) c.(nextPn) (upd QuicPnApplication keys
    c.(sendKeys)) c.(isClient) c.(hasHsKeys) c.(hasAppKeys) secret phase count
    c.(remoteCid) c.(localCid) c.(retryToken) c.(cryptoSend) c.(cryptoSendOff)
    c.(socketError) c.(wire) c.(sealed).

Definition set_appPacketsSent v (c : Conn) : Conn :=
  mkConn c.(recovery) c.(cc) c.(sendQueue) c.(nextPn) c.(sendKeys) c.(isClient) c.(hasHsKeys)
    c.(hasAppKeys) c.(sendAppSecret) c.(sendKeyPhase) v c.(remoteCid) c.(localCid)
    c.(retryToken) c.(cryptoSend) c.(cryptoSendOff) c.(socketError) c.(wire) c.(sealed).

Definition set_peer remote token (c : Conn) : Conn :=
  mkConn c.(recovery) c.(cc) c.(sendQueue) c.(nextPn) c.(sendKeys) c.(isClient) c.(hasHsKeys)
    c.(hasAppKeys) c.(sendAppSecret) c.(sendKeyPhase) c.(appPacketsSent) remote
    c.(localCid) token c.(cryptoSend) c.(cryptoSendOff) c.(socketError) c.(wire)
    c.(sealed).

Definition set_crypto buf off (c : Conn) : Conn :=
  mkConn c.(recovery) c.(cc) c.(sendQueue) c.(nextPn) c.(sendKeys) c.(isClient) c.(hasHsKeys)
    c.(hasAppKeys) c.(sendAppSecret) c.(sendKeyPhase) c.(appPacketsSent) c.(remoteCid)
    c.(localCid) c.(retryToken) buf off c.(socketError) c.(wire) c.(sealed).

Definition set_socketError (c : Conn) : Conn :=
  mkConn c.(recovery) c.(cc) c.(sendQueue) c.(nextPn) c.(sendKeys) c.(isClient) c.(hasHsKeys)
    c.(hasAppKeys) c.(sendAppSecret) c.(sendKeyPhase) c.(appPacketsSent) c.(remoteCid)
    c.(localCid) c.(retryToken) c.(cryptoSend) c.(cryptoSendOff) true c.(wire)
    c.(sealed).

Definition add_wire d (c : Conn) : Conn :=
  mkConn c.(recovery) c.(cc) c.(sendQueue) c.(nextPn) c.(sendKeys) c.(isClient) c.(hasHsKeys)
    c.(hasAppKeys) c.(sendAppSecret) c.(sendKeyPhase) c.(appPacketsSent) c.(remoteCid)
    c.(localCid) c.(retryToken) c.(cryptoSend) c.(cryptoSendOff) c.(socketError)
    (c.(wire) ++ [d]) c.(sealed).

Definition add_sealed e (c : Conn) : Conn :=
  mkConn c.(recovery) c.(cc) c.(sendQueue) c.(nextPn) c.(sendKeys) c.(isClient) c.(hasHsKeys)
    c.(hasAppKeys) c.(sendAppSecret) c.(sendKeyPhase) c.(appPacketsSent) c.(remoteCid)
    c.(localCid) c.(retryToken) c.(cryptoSend) c.(cryptoSendOff) c.(socketError)
    c.(wire) (c.(sealed) ++ [e]).

Definition kQuicVersion1 : Z := 1.

Section Send.
Context `{C : Crypto}.

(** [maybeUpdateSendKeys] *)
Definition maybeUpdateSendKeys (c : Conn) : Conn :=
  if negb c.(hasAppKeys) then c else
  let secret := hkdfExpandLabel c.(sendAppSecret) (str "quic ku") [] 32 in
  set_appKeys (quicDeriveTrafficKeys secret) secret (negb c.(sendKeyPhase)) 0 c.

(** [sendNow] *)
Definition sendNow (sendto : list Z -> Z) (now : Z) (s : QuicPacketNumberSpace) (pn : Z)
    (packet : list Z) (ackEliciting : bool) (c : Conn) : bool * Conn :=
  if negb (sendto packet =? s32 (zlen packet)) then (false, set_socketError c) else
  let c := add_wire packet c in
  let c :=
    if bool_decide (s = QuicPnApplication) && c.(hasAppKeys) then
      let c := set_appPacketsSent (u32 (c.(appPacketsSent) + 1)) c in
      if c.(appPacketsSent) >=? 10000 then maybeUpdateSendKeys c else c
    else c in
  (true, set_recovery (onPacketSent (mkSent pn s packet ackEliciting true now) c.(recovery)) c).

Definition longTypeOf (s : QuicPacketNumberSpace) : QuicLongPacketType :=
  match s with QuicPnInitial => QuicLongInitial | _ => QuicLongHandshake end.

(** The header of a packet of the space, with a two-byte packet number. *)
Definition packetHeader (s : QuicPacketNumberSpace) (pn payloadSize : Z) (c : Conn) : list Z :=
  match s with
  | QuicPnApplication => quicBuildShortHeader c.(remoteCid) pn 2 c.(sendKeyPhase)
  | _ => quicBuildLongHeader (longTypeOf s) kQuicVersion1 c.(remoteCid) c.(localCid)
           (match s with QuicPnInitial => c.(retryToken) | _ => [] end) pn 2 (payloadSize + 16)
  end.

(** [sendPacket]: [false] when nothing was sent or queued. *)
Definition sendPacket (sendto : list Z -> Z) (now : Z) (s : QuicPacketNumberSpace)
    (payload : list Z) (ackEliciting cwndControlled : bool) (c : Conn) : result (bool * Conn) :=
  let keys := c.(sendKeys) s in
  if negb (keys_valid keys) then Ret (false, c) else
  let pn := c.(nextPn) s in
  let c := set_nextPn (upd s (u64 (pn + 1)) c.(nextPn)) c in
  let header := packetHeader s pn (zlen payload) c in
  match quicProtectPacket keys header payload pn 2 with
  | Ret packet =>
      let c := add_sealed (s, pn, keys) c in
      if cwndControlled then
        Ret (true, set_sendQueue (c.(sendQueue) ++ [mkOut s pn packet ackEliciting]) c)
      else Ret (sendNow sendto now s pn packet ackEliciting c)
  | Reject => Ret (false, c)
  | Fault => Fault
  | OutOfFuel => OutOfFuel
  end.

(** The inner loop of [sendLoop]: send from the queue while the window allows. *)
Fixpoint drainQueue (sendto : list Z -> Z) (now : Z) (queue : list QuicOutgoingPacket) (c : Conn) :
    Conn :=
  match queue with
  | [] => set_sendQueue [] c
  | out :: queue' =>
      if negb (Reno.canSend c.(recovery).(m_bytesInFlight) c.(cc)) then set_sendQueue queue c else
      if zlen out.(out_raw) =? 0 then drainQueue sendto now queue' c else
      let '(ok, c) := sendNow sendto now out.(out_space) out.(out_pn) out.(out_raw)
                        out.(out_ackEliciting) c in
      if ok then drainQueue sendto now queue' c else set_sendQueue queue' c
  end.

Definition sendLoop_round (sendto : list Z -> Z) (now : Z) (c : Conn) : Conn :=
  drainQueue sendto now c.(sendQueue) c.

(** [link->sendto] whose result is not looked at. *)
Definition sendto_ignored (sendto : list Z -> Z) (pkt : list Z) (c : Conn) : Conn :=
  if sendto pkt =? s32 (zlen pkt) then add_wire pkt c else c.

Definition total_size (l : list (list Z)) : Z := foldl (fun acc b => u64 (acc + zlen b)) 0 l.

(** The ACK branch of [handleFrame]. *)
Definition handleAck (sendto : list Z -> Z) (now : Z) (s : QuicPacketNumberSpace) (frame : QuicFrame)
    (c : Conn) : result Conn :=
  let '(r, acked, lost) := onAckReceived s frame now c.(recovery) in
  let c := set_recovery r c in
  let bytesAcked := total_size (map raw acked) in
  cc' ← (if bytesAcked >? 0 then Reno.onAckReceived bytesAcked c.(cc) else Ret c.(cc));
  let c := set_cc cc' c in
  let lostBytes := total_size lost in
  Ret (if lostBytes >? 0 then
         let c := set_cc (Reno.onLossDetected
                            (u64 (c.(recovery).(m_bytesInFlight) + lostBytes)) c.(cc)) c in
         foldl (fun c pkt => sendto_ignored sendto pkt c) c lost
       else c).

(** The body of [ptoLoop] for one space: the loss-detection alarm, then the probe
  timeout. *)
Definition lossAlarm (sendto : list Z -> Z) (now : Z) (s : QuicPacketNumberSpace) (c : Conn) : Conn :=
  let lossTime := c.(recovery).(m_earliestLostTimeUs) s in
  if (lossTime >? 0) && (now >=? lossTime) then
    let '(r, lost) := detectLostOnAlarm s now c.(recovery) in
    foldl (fun c p => sendto_ignored sendto p.(raw)
             (set_cc (Reno.onLossDetected c.(recovery).(m_bytesInFlight) c.(cc)) c))
      (set_recovery r c) lost
  else c.

Definition ptoExpiry (sendto : list Z -> Z) (now : Z) (s : QuicPacketNumberSpace) (c : Conn) : Conn :=
  if negb (hasInFlight s c.(recovery)) then c else
  let lastSent := c.(recovery).(m_lastSentTimeUs) s in
  if (lastSent >? 0) && (now >=? u64 (lastSent + ptoTimeoutUs s c.(recovery))) then
    let c := set_recovery (onPtoExpired s c.(recovery)) c in
    let c := if c.(recovery).(m_ptoCount) s >=? 2 then set_cc (Reno.onPersistentCongestion c.(cc)) c
             else c in
    match packetsToRetransmitOnPto s c.(recovery) with
    | pkt :: _ => sendto_ignored sendto pkt c
    | [] => c
    end
  else c.

Definition ptoRound (sendto : list Z -> Z) (now : Z) (c : Conn) : Conn :=
  foldl (fun c s => ptoExpiry sendto now s (lossAlarm sendto now s c)) c
    [QuicPnInitial; QuicPnHandshake; QuicPnApplication].

(** [sendZeroRttPacket]; the early keys are an argument. *)
Definition sendZeroRttPacket (earlyKeys : QuicTrafficKeys) (payload : list Z) (ackEliciting : bool)
    (c : Conn) : result (bool * Conn) :=
  if negb (keys_valid earlyKeys) then Ret (false, c) else
  let pn := c.(nextPn) QuicPnApplication in
  let c := set_nextPn (upd QuicPnApplication (u64 (pn + 1)) c.(nextPn)) c in
  let header := quicBuildLongHeader QuicLongZeroRtt kQuicVersion1 c.(remoteCid) c.(localCid) [] pn 2
                  (zlen payload + 16) in
  match quicProtectPacket earlyKeys header payload pn 2 with
  | Ret packet =>
      let c := add_sealed (QuicPnApplication, pn, earlyKeys) c in
      Ret (true, set_sendQueue (c.(sendQueue) ++ [mkOut QuicPnApplication pn packet ackEliciting]) c)
  | Reject => Ret (false, c)
  | Fault => Fault
  | OutOfFuel => OutOfFuel
  end.

(** ** Handshake data *)

Definition kMaxCryptoChunk : Z := 1000.

(** [while (payload.size() < minPlain) payload.push_back(0);] *)
Definition padTo (minPlain : Z) (payload : list Z) : list Z :=
  payload ++ replicate (Z.to_nat (minPlain - zlen payload)) 0.

(** The lambda [sendCrypto] of [flushCrypto]. *)
Fixpoint sendCrypto (fuel : nat) (sendto : list Z -> Z) (now : Z) (s : QuicPacketNumberSpace)
    (c : Conn) : result (bool * Conn) :=
  match fuel with
  | O => OutOfFuel
  | S fuel' =>
      let buf := c.(cryptoSend) s in
      if zlen buf =? 0 then Ret (true, c) else
      let chunk := Z.min (zlen buf) kMaxCryptoChunk in
      let f := set_data (slice buf 0 chunk) (set_offset (c.(cryptoSendOff) s) (set_type QuicFrame.Crypto frame0)) in
      let payload := (quicEncodeFrame f []).2 in
      let payload := if bool_decide (s = QuicPnInitial) && c.(isClient)
                     then padTo (1200 - 28 - 16) payload else payload in
      r ← sendPacket sendto now s payload true true c;
      let '(ok, c) := (r : bool * Conn) in
      if ok then
        sendCrypto fuel' sendto now s
          (set_crypto (upd s (drop (Z.to_nat chunk) buf) c.(cryptoSend))
             (upd s (u64 (c.(cryptoSendOff) s + chunk)) c.(cryptoSendOff)) c)
      else Ret (false, c)
  end.

Definition sendCryptoAll (sendto : list Z -> Z) (now : Z) (s : QuicPacketNumberSpace) (c : Conn) :
    result (bool * Conn) :=
  sendCrypto (S (length (c.(cryptoSend) s))) sendto now s c.

Definition flushCrypto (sendto : list Z -> Z) (now : Z) (c : Conn) : result (bool * Conn) :=
  r ← sendCryptoAll sendto now QuicPnInitial c;
  let '(ok, c) := (r : bool * Conn) in
  if negb ok then Ret (false, c) else
  r ← (if c.(hasHsKeys) then sendCryptoAll sendto now QuicPnHandshake c else Ret (true, c));
  let '(ok, c) := (r : bool * Conn) in
  if negb ok then Ret (false, c) else
  if c.(hasAppKeys) then sendCryptoAll sendto now QuicPnApplication c else Ret (true, c).

(** [handleRetryPacket]: [None] when it raises a protocol error. *)
Definition handleRetryPacket (sendto : list Z -> Z) (now : Z) (odcid data : list Z) (c : Conn) :
    result (option Conn) :=
  match quicParseRetryPacket data odcid with
  | Ret (version, dcid, scid, token) =>
      if negb (version =? 0) && negb (version =? kQuicVersion1) then Ret None else
      if negb (bool_decide (dcid = c.(localCid))) then Ret None else
      let c := set_peer scid token c in
      let c := set_crypto c.(cryptoSend)
                 (upd QuicPnHandshake 0 (upd QuicPnInitial 0 c.(cryptoSendOff))) c in
      let c := set_nextPn (upd QuicPnHandshake 0 (upd QuicPnInitial 0 c.(nextPn))) c in
      r ← flushCrypto sendto now c;
      Ret (Some r.2)
  | Reject => Ret None
  | Fault => Fault
  | OutOfFuel => OutOfFuel
  end.
End Send.
