(* ===== verification/QuicSendProps.v ===== *)
(** * The send path over any history

    Every handler keeps the invariant of the first part; from it, over any
    sequence of handlers: unique nonces, consistent counters.  The last part
    shows three behaviours that differ from what the code announces. *)

From S2P Require Import Prelude QuicFrame CryptoApi QuicPacket QuicPacketProofs.
From S2P Require Import QuicCrypto QuicProtect QuicUnprotectSafety StdMap QuicAck QuicRecovery.
From S2P Require Import QuicRecoveryProofs QuicRecoveryProps QuicSend.
From stdpp Require Import sets list relations.

(** ** Packet numbers and counters

    Packet numbers are used once, so no nonce repeats under a key; the counters
    of loss recovery and congestion control stay consistent; the send loop
    respects the congestion window. *)

#[local] Open Scope Z_scope.

(** ** Invariant *)

Definition slot (e : QuicPacketNumberSpace * Z * QuicTrafficKeys) : QuicPacketNumberSpace * Z := e.1.
Definition out_slot (o : QuicOutgoingPacket) : QuicPacketNumberSpace * Z := (o.(out_space), o.(out_pn)).

(** [e] has been handed out by the packet-number counter. *)
Definition issued (next : QuicPacketNumberSpace -> Z) (e : QuicPacketNumberSpace * Z) : Prop :=
  0 <= e.2 < next e.1.

(** Sent, queued and sealed packet numbers against the counters. *)
Record numbers_inv (next : QuicPacketNumberSpace -> Z)
    (sent : QuicPacketNumberSpace -> list (Z * QuicSentPacket)) (queue : list QuicOutgoingPacket)
    (log : list (QuicPacketNumberSpace * Z * QuicTrafficKeys)) : Prop := {
  num_log : Forall (fun e => issued next (slot e)) log;
  num_nodup : NoDup (slot <$> log);
  num_sent s k p : map_find k (sent s) = Some p -> issued next (s, k);
  num_queue : Forall (fun o => issued next (out_slot o)) queue;
  num_queue_nodup : NoDup (out_slot <$> queue);
  num_fresh o : o ∈ queue -> map_find o.(out_pn) (sent o.(out_space)) = None
}.

Record conn_inv (c : Conn) : Prop := {
  ci_recovery : recovery_inv c.(recovery);
  ci_reno : reno_inv c.(cc);
  ci_next s : 0 <= c.(nextPn) s < 2 ^ 63;
  ci_numbers : numbers_inv c.(nextPn) c.(recovery).(m_sent) c.(sendQueue) c.(sealed)
}.

(** ** Sending *)

Section Proofs.
Context `{C : Crypto}.

Lemma maybeUpdateSendKeys_fields c :
  let c' := maybeUpdateSendKeys c in
  c'.(recovery) = c.(recovery) /\ c'.(cc) = c.(cc) /\ c'.(nextPn) = c.(nextPn)
  /\ c'.(sendQueue) = c.(sendQueue) /\ c'.(sealed) = c.(sealed) /\ c'.(wire) = c.(wire)
  /\ c'.(socketError) = c.(socketError).
Proof. unfold maybeUpdateSendKeys. by destruct (negb _). Qed.

(** What a send changes, besides keys and counters. *)
Lemma sendNow_spec sendto now s n pkt ae c :
  let '(ok, c') := sendNow sendto now s n pkt ae c in
  c'.(cc) = c.(cc) /\ c'.(nextPn) = c.(nextPn) /\ c'.(sendQueue) = c.(sendQueue)
  /\ c'.(sealed) = c.(sealed)
  /\ if ok then c'.(recovery) = onPacketSent (mkSent n s pkt ae true now) c.(recovery)
                /\ c'.(wire) = c.(wire) ++ [pkt]
     else c'.(recovery) = c.(recovery) /\ c'.(wire) = c.(wire) /\ c'.(socketError) = true.
Proof.
  unfold sendNow. destruct (negb _); [done |].
  destruct (bool_decide _ && _); [| done]. case_test; [| done].
  match goal with |- context [maybeUpdateSendKeys ?x] =>
    destruct (maybeUpdateSendKeys_fields x) as (H1 & H2 & H3 & H4 & H5 & H6 & H7) end.
  simpl in *. by rewrite H1, H2, H3, H4, H5, H6.
Qed.

Lemma numbers_sent next sent queue log s n p :
  numbers_inv next sent queue log -> issued next (s, n) -> (s, n) ∉ out_slot <$> queue ->
  map_sorted (sent s) ->
  numbers_inv next (upd s (map_assign n p (sent s)) sent) queue log.
Proof.
  intros [H1 H2 H3 H4 H5 H6] Hn Hq Hs. split; try done.
  - intros s' k q. unfold upd. case_decide; [subst | apply H3].
    rewrite map_assign_find. destruct (Z.eqb_spec k n) as [-> |]; [done | apply H3].
  - intros o Ho. unfold upd. case_decide as Hs'; [| by apply H6].
    rewrite map_assign_find. destruct (Z.eqb_spec (out_pn o) n) as [Hp |].
    + destruct Hq. apply list_elem_of_fmap. exists o. split; [| done].
      unfold out_slot. by rewrite Hs', Hp.
    + rewrite <- Hs'. by apply H6.
Qed.

Lemma numbers_queue next sent queue1 queue2 log :
  numbers_inv next sent (queue1 ++ queue2) log -> numbers_inv next sent queue2 log.
Proof.
  intros [H1 H2 H3 H4 H5 H6]. split; try done.
  - by apply Forall_app in H4 as [_ ?].
  - rewrite fmap_app in H5. by apply NoDup_app in H5 as (_ & _ & ?).
  - intros o Ho. apply H6. apply elem_of_app. by right.
Qed.

Lemma sendNow_inv sendto now s n pkt ae c :
  conn_inv c -> issued c.(nextPn) (s, n) -> (s, n) ∉ out_slot <$> c.(sendQueue) ->
  map_find n (c.(recovery).(m_sent) s) = None ->
  c.(recovery).(m_bytesInFlight) + zlen pkt < 2 ^ 64 ->
  conn_inv (sendNow sendto now s n pkt ae c).2.
Proof.
  intros [Hr Hc Hx Hn] Hi Hq Hf Hb.
  pose proof (sendNow_spec sendto now s n pkt ae c) as Hs.
  destruct (sendNow sendto now s n pkt ae c) as [ok c']. destruct Hs as (E1 & E2 & E3 & E4 & E5).
  destruct ok; destruct E5 as (E5 & E6); split; simpl; rewrite ?E1, ?E2, ?E3, ?E4, ?E5; try done.
  - apply onPacketSent_inv; try done. by destruct Hi.
  - simpl. apply numbers_sent; try done. apply Hr.
Qed.

(** ** The send loop *)

Definition queue_size (queue : list QuicOutgoingPacket) : Z :=
  foldr (fun o acc => zlen o.(out_raw) + acc) 0 queue.

Lemma queue_size_nonneg queue : 0 <= queue_size queue.
Proof.
  induction queue as [| o queue IH]; simpl; [done |]. pose proof (zlen_nonneg o.(out_raw)). lia.
Qed.

Lemma onPacketSent_bytes p d :
  p.(inFlight) = true -> 0 <= d.(m_bytesInFlight) -> d.(m_bytesInFlight) + zlen p.(raw) < 2 ^ 64 ->
  (onPacketSent p d).(m_bytesInFlight) = d.(m_bytesInFlight) + zlen p.(raw).
Proof.
  intros Hi H0 Hb. simpl. rewrite Hi. apply Z.mod_small. pose proof (zlen_nonneg p.(raw)). lia.
Qed.

Lemma recovery_bytes_nonneg d : recovery_inv d -> 0 <= d.(m_bytesInFlight).
Proof. intros [_ _ -> _ _]. pose proof (total_flying_ge QuicPnInitial d.(m_sent)). lia. Qed.

(** The state [c] while [queue] is what is left to send. *)
Lemma drainQueue_inv sendto now queue c :
  conn_inv (set_sendQueue queue c) ->
  c.(recovery).(m_bytesInFlight) + queue_size queue < 2 ^ 64 ->
  conn_inv (drainQueue sendto now queue c).
Proof.
  revert c. induction queue as [| o queue IH]; intros c Hinv Hb; cbn [drainQueue]; [done |].
  case_test; [done |]. cbn [queue_size foldr] in Hb. fold (queue_size queue) in Hb.
  pose proof (queue_size_nonneg queue). pose proof (zlen_nonneg o.(out_raw)).
  destruct Hinv as [Hr Hc Hx Hn]. simpl in *.
  assert (Htail : conn_inv (set_sendQueue queue c)).
  { split; try done. by apply (numbers_queue _ _ [o]) in Hn. }
  case_test; [apply IH; [done | lia] |].
  pose proof (recovery_bytes_nonneg _ Hr).
  pose proof (sendNow_spec sendto now o.(out_space) o.(out_pn) o.(out_raw) o.(out_ackEliciting) c) as Hs.
  destruct (sendNow sendto now _ _ _ _ c) as [ok c']. destruct Hs as (E1 & E2 & E3 & E4 & E5).
  pose proof Hn as [N1 N2 N3 N4 N5 N6].
  assert (Hslot : out_slot o ∉ out_slot <$> queue) by (simpl in N5; by apply NoDup_cons in N5 as [? _]).
  assert (Hiss : issued c.(nextPn) (out_slot o)) by (by apply Forall_cons in N4 as [? _]).
  assert (Hfresh : map_find o.(out_pn) (c.(recovery).(m_sent) o.(out_space)) = None) by (apply N6; set_solver).
  destruct ok; destruct E5 as (E5 & E6).
  - apply IH.
    + split; simpl; rewrite ?E1, ?E2, ?E4, ?E5; try done.
      * apply onPacketSent_inv; simpl; try (done || lia). by destruct Hiss.
      * apply numbers_sent; try done; [by apply (numbers_queue _ _ [o]) in Hn | apply Hr].
    + rewrite E5, onPacketSent_bytes; simpl; done || lia.
  - split; simpl; rewrite ?E1, ?E2, ?E4, ?E5; try done. by apply (numbers_queue _ _ [o]) in Hn.
Qed.

(** The window is respected: what is in flight exceeds it by less than one packet,
  and the loop stops early only when the window is full or the link failed. *)
Lemma drainQueue_window sendto now queue c M :
  0 <= c.(recovery).(m_bytesInFlight) ->
  c.(recovery).(m_bytesInFlight) + queue_size queue < 2 ^ 64 ->
  (forall o, o ∈ queue -> zlen o.(out_raw) <= M) ->
  let c' := drainQueue sendto now queue c in
  c'.(recovery).(m_bytesInFlight)
    <= Z.max c.(recovery).(m_bytesInFlight) (c.(cc).(Reno.m_cwnd) - 1 + M)
  /\ c'.(cc) = c.(cc)
  /\ (c'.(sendQueue) = [] \/ Reno.canSend c'.(recovery).(m_bytesInFlight) c'.(cc) = false
      \/ c'.(socketError) = true).
Proof.
  revert c. induction queue as [| o queue IH]; intros c H0 Hb HM; cbn [drainQueue].
  { simpl. split_and!; [lia | done | by left]. }
  destruct (Reno.canSend c.(recovery).(m_bytesInFlight) c.(cc)) eqn:Ecan; cbn [negb]; cycle 1.
  { simpl. split_and!; [lia | done | by right; left]. }
  cbn [queue_size foldr] in Hb. fold (queue_size queue) in Hb.
  pose proof (queue_size_nonneg queue). pose proof (zlen_nonneg o.(out_raw)).
  pose proof (HM o ltac:(set_solver)) as Ho.
  case_test; [apply IH; [done | lia | set_solver..] |].
  pose proof (sendNow_spec sendto now o.(out_space) o.(out_pn) o.(out_raw) o.(out_ackEliciting) c) as Hs.
  destruct (sendNow sendto now _ _ _ _ c) as [ok c']. destruct Hs as (E1 & E2 & E3 & E4 & E5).
  destruct ok; destruct E5 as (E5 & E6).
  - pose proof (onPacketSent_bytes (mkSent o.(out_pn) o.(out_space) o.(out_raw) o.(out_ackEliciting)
                  true now) c.(recovery) eq_refl H0 ltac:(simpl; lia)) as Hbytes.
    rewrite <- E5 in Hbytes. simpl in Hbytes.
    destruct (IH c') as (I1 & I2 & I3); [lia | lia | set_solver |].
    unfold Reno.canSend in Ecan. rewrite E1 in *. bool_to_prop.
    split_and!; [lia | done | done].
  - simpl. rewrite E1, E5. split_and!; [lia | done | right; right; by destruct E6].
Qed.
End Proofs.

#[local] Open Scope Z_scope.

(** Fewer recorded packets are consistent too. *)
Lemma numbers_sub next sent sent' queue log :
  numbers_inv next sent queue log ->
  (forall s k p, map_find k (sent' s) = Some p -> exists q, map_find k (sent s) = Some q) ->
  numbers_inv next sent' queue log.
Proof.
  intros [H1 H2 H3 H4 H5 H6] Hsub. split; try done.
  - intros s k p Hp. destruct (Hsub _ _ _ Hp) as [q Hq]. eauto.
  - intros o Ho. destruct (map_find o.(out_pn) (sent' o.(out_space))) eqn:E; [| done].
    destruct (Hsub _ _ _ E) as [p' Hp']. rewrite H6 in Hp' by done. done.
Qed.

Lemma map_find_mark_inv lost k p sent :
  map_find k (map (mark lost) sent) = Some p -> exists q, map_find k sent = Some q.
Proof.
  intros H. destruct (map_find k sent) as [q |] eqn:E; [eauto |].
  rewrite (map_find_mark_none _ _ _ E) in H. done.
Qed.

Lemma detectLost_keys s now d s' k p :
  recovery_inv d -> map_find k ((detectLostPackets s now d).1.(m_sent) s') = Some p ->
  exists q, map_find k (d.(m_sent) s') = Some q.
Proof.
  intros Hinv. destruct (detectLostPackets_spec s now d Hinv) as (e & -> & _). simpl.
  unfold upd. case_decide; [subst; apply map_find_mark_inv | eauto].
Qed.

Lemma onAck_keys s ack now d s' k p :
  recovery_inv d -> ack_wf ack ->
  map_find k ((onAckReceived s ack now d).1.1.(m_sent) s') = Some p ->
  exists q, map_find k (d.(m_sent) s') = Some q.
Proof.
  intros Hinv Hw. destruct (onAckReceived_split s ack now d Hinv Hw) as (d1 & -> & H1 & _ & Ho & Hf).
  simpl. intros Hp. apply detectLost_keys in Hp as [q Hq]; [| done].
  destruct (decide (s' = s)) as [-> |]; [| rewrite Ho in Hq by done; eauto].
  rewrite Hf in Hq. case_decide; [done | eauto].
Qed.

Lemma total_size_range l : 0 <= total_size l < 2 ^ 64.
Proof.
  unfold total_size. assert (Hgen : forall acc, 0 <= acc < 2 ^ 64 ->
    0 <= foldl (fun acc b => u64 (acc + zlen b)) acc l < 2 ^ 64); [| apply Hgen; lia].
  induction l as [| b l IH]; intros acc Ha; simpl; [done |].
  apply IH. apply Z.mod_pos_bound. lia.
Qed.

(** Handlers change recovery and congestion state only through their interfaces. *)
Lemma conn_inv_update c r v :
  conn_inv c -> recovery_inv r -> reno_inv v ->
  (forall s k p, map_find k (r.(m_sent) s) = Some p -> exists q, map_find k (c.(recovery).(m_sent) s) = Some q) ->
  conn_inv (set_cc v (set_recovery r c)).
Proof.
  intros [Hr Hc Hx Hn] Hr' Hv Hsub. split; try done. by eapply numbers_sub.
Qed.

Lemma sendto_ignored_inv sendto pkt c : conn_inv c -> conn_inv (sendto_ignored sendto pkt c).
Proof. unfold sendto_ignored. intros H. case_test; [| done]. by destruct H; split. Qed.

Lemma set_cc_inv v c : conn_inv c -> reno_inv v -> conn_inv (set_cc v c).
Proof. intros [H1 H2 H3 H4] Hv. by split. Qed.

Lemma reno_loss_inv b d : reno_inv d -> 0 <= b < 2 ^ 64 -> reno_inv (Reno.onLossDetected b d).
Proof. intros Hd Hb. eapply reno_step_inv; [by apply reno_loss | done]. Qed.

Section Handlers.
Context `{C : Crypto}.

Lemma handleAck_inv sendto now s frame c :
  conn_inv c -> ack_wf frame ->
  let acked := total_size (map raw (onAckReceived s frame now c.(recovery)).1.2) in
  c.(cc).(Reno.m_cwnd) + acked < 2 ^ 64 -> c.(cc).(Reno.m_mss) * acked < 2 ^ 64 ->
  exists c', handleAck sendto now s frame c = Ret c' /\ conn_inv c'.
Proof.
  intros Hinv Hw acked Hb1 Hb2. pose proof Hinv as [Hr Hc Hx Hn].
  assert (Hkeys : forall s' k p, map_find k ((onAckReceived s frame now c.(recovery)).1.1.(m_sent) s') = Some p ->
            exists q, map_find k (c.(recovery).(m_sent) s') = Some q)
    by (intros; by eapply onAck_keys).
  assert (Hr' : recovery_inv (onAckReceived s frame now c.(recovery)).1.1)
    by (eapply recovery_step_inv; [by apply step_ack | done]).
  unfold handleAck. destruct (onAckReceived s frame now c.(recovery)) as [[r ackedPkts] lost].
  cbn [fst snd] in *. fold acked. cbn [cc set_recovery].
  assert (Hcc : exists v, (if acked >? 0 then Reno.onAckReceived acked c.(cc) else Ret c.(cc)) = Ret v
                  /\ reno_inv v).
  { case_test; [| eauto]. pose proof (total_size_range (map raw ackedPkts)).
    destruct (reno_ack_spec acked c.(cc) Hc) as (v & ? & ? & _); [lia | done | done |]. eauto. }
  destruct Hcc as (v & -> & Hv). cbn [mbind result_bind]. eexists. split; [done |].
  assert (H1 : conn_inv (set_cc v (set_recovery r c))) by (by apply conn_inv_update).
  case_test; [| done].
  assert (Hfold : forall c, conn_inv c -> conn_inv (foldl (fun c pkt => sendto_ignored sendto pkt c) c lost)).
  { clear. induction lost as [| l lost IH]; intros c Hc; simpl; [done |].
    by apply IH, sendto_ignored_inv. }
  apply Hfold, set_cc_inv; [done |]. apply reno_loss_inv; [done |]. apply Z.mod_pos_bound. lia.
Qed.

Lemma lossAlarm_inv sendto now s c : conn_inv c -> conn_inv (lossAlarm sendto now s c).
Proof.
  intros Hinv. pose proof Hinv as [Hr Hc Hx Hn]. unfold lossAlarm. case_test; [| done].
  assert (Hr' : recovery_inv (detectLostOnAlarm s now c.(recovery)).1)
    by (eapply recovery_step_inv; [by apply step_alarm | done]).
  assert (Hsub : forall s' k p, map_find k ((detectLostOnAlarm s now c.(recovery)).1.(m_sent) s') = Some p ->
            exists q, map_find k (c.(recovery).(m_sent) s') = Some q).
  { intros s' k p. unfold detectLostOnAlarm.
    pose proof (detectLost_keys s now c.(recovery) s' k p Hr) as Hk.
    by destruct (detectLostPackets s now c.(recovery)). }
  destruct (detectLostOnAlarm s now c.(recovery)) as [r lost]. cbn [fst] in *.
  assert (H1 : conn_inv (set_recovery r c)).
  { pose proof (conn_inv_update c r c.(cc) Hinv Hr' Hc Hsub) as [? ? ? ?]. by split. }
  revert H1. generalize (set_recovery r c). clear - C.
  induction lost as [| p lost IH]; intros c Hc; simpl; [done |].
  apply IH, sendto_ignored_inv, set_cc_inv; [done |]. destruct Hc as [Hr Hc _ _].
  apply reno_loss_inv; [done |]. pose proof (recovery_bytes_nonneg _ Hr). destruct Hr. lia.
Qed.

Lemma ptoExpiry_inv sendto now s c : conn_inv c -> conn_inv (ptoExpiry sendto now s c).
Proof.
  intros Hinv. pose proof Hinv as [Hr Hc Hx Hn]. unfold ptoExpiry. case_test; [done |].
  case_test; [| done].
  assert (H1 : conn_inv (set_recovery (onPtoExpired s c.(recovery)) c)).
  { split; try done. eapply recovery_step_inv; [by apply step_pto | done]. }
  set (c1 := set_recovery _ c) in *. set (c2 := if _ >=? 2 then _ else c1).
  assert (H2 : conn_inv c2).
  { unfold c2. case_test; [| done]. apply set_cc_inv; [done |].
    eapply reno_step_inv; [by apply reno_persistent |]. apply H1. }
  destruct (packetsToRetransmitOnPto s c2.(recovery)); [done | by apply sendto_ignored_inv].
Qed.

Lemma ptoRound_inv sendto now c : conn_inv c -> conn_inv (ptoRound sendto now c).
Proof. intros. unfold ptoRound. simpl. repeat apply ptoExpiry_inv, lossAlarm_inv. done. Qed.
End Handlers.

(** ** Numbering and sealing *)

Lemma issued_upd next s e : issued next e -> issued (upd s (next s + 1) next) e.
Proof.
  unfold issued. destruct e as [s' k]. simpl. intros H. unfold upd. case_decide; subst; lia.
Qed.

Lemma issued_self next s : 0 <= next s -> issued (upd s (next s + 1) next) (s, next s).
Proof. unfold issued. simpl. rewrite upd_same. lia. Qed.

Lemma not_issued_self next s : ~ issued next (s, next s).
Proof. unfold issued. simpl. lia. Qed.

(** The counter moves on; nothing was sealed. *)
Lemma numbers_skip next sent queue log s :
  numbers_inv next sent queue log -> numbers_inv (upd s (next s + 1) next) sent queue log.
Proof.
  intros [H1 H2 H3 H4 H5 H6]. split; try done.
  - eapply Forall_impl; [done |]. intros. by apply issued_upd.
  - intros s' k p Hp. by eapply issued_upd, H3.
  - eapply Forall_impl; [done |]. intros. by apply issued_upd.
Qed.

Lemma numbers_seal next sent queue log s keys :
  numbers_inv next sent queue log -> 0 <= next s ->
  numbers_inv (upd s (next s + 1) next) sent queue (log ++ [(s, next s, keys)]).
Proof.
  intros Hinv H0. pose proof Hinv as [H1 H2 _ _ _ _].
  destruct (numbers_skip _ _ _ _ s Hinv) as [H1' _ H3 H4 H5 H6]. split; try done.
  - apply Forall_app. split; [done |]. constructor; [by apply issued_self | constructor].
  - rewrite fmap_app. apply NoDup_app. split_and!; [done | | apply NoDup_singleton].
    intros e He Hs. apply list_elem_of_singleton in Hs. change (slot (s, next s, keys)) with (s, next s) in Hs.
    subst. apply list_elem_of_fmap in He as (e & He & Hin). rewrite Forall_forall in H1.
    specialize (H1 _ Hin). rewrite <- He in H1. by eapply not_issued_self.
Qed.

(** The number just issued is neither queued nor recorded. *)
Lemma numbers_new next sent queue log s :
  numbers_inv next sent queue log ->
  (s, next s) ∉ out_slot <$> queue /\ map_find (next s) (sent s) = None.
Proof.
  intros [_ _ H3 H4 _ _]. split.
  - intros Hin. apply list_elem_of_fmap in Hin as (o & He & Hin). rewrite Forall_forall in H4.
    specialize (H4 _ Hin). rewrite <- He in H4. by eapply not_issued_self.
  - destruct (map_find (next s) (sent s)) eqn:E; [| done]. apply H3 in E. by apply not_issued_self in E.
Qed.

Lemma numbers_enqueue next sent queue log o :
  numbers_inv next sent queue log -> issued next (out_slot o) -> out_slot o ∉ out_slot <$> queue ->
  map_find o.(out_pn) (sent o.(out_space)) = None -> numbers_inv next sent (queue ++ [o]) log.
Proof.
  intros [H1 H2 H3 H4 H5 H6] Hi Hq Hf. split; try done.
  - apply Forall_app. split; [done |]. constructor; [done | constructor].
  - rewrite fmap_app. apply NoDup_app. split_and!; [done | | apply NoDup_singleton].
    intros e He Hs. apply list_elem_of_singleton in Hs. by subst.
  - intros o' Ho. apply elem_of_app in Ho as [? | Ho]; [by apply H6 |].
    apply list_elem_of_singleton in Ho. by subst.
Qed.

Lemma sendPacket_inv `{C : Crypto} sendto now s payload ae cw c ok c' :
  conn_inv c -> c.(nextPn) s + 1 < 2 ^ 63 ->
  (forall packet, quicProtectPacket (c.(sendKeys) s) (packetHeader s (c.(nextPn) s) (zlen payload) c)
                    payload (c.(nextPn) s) 2 = Ret packet ->
     c.(recovery).(m_bytesInFlight) + zlen packet < 2 ^ 64) ->
  sendPacket sendto now s payload ae cw c = Ret (ok, c') -> conn_inv c'.
Proof.
  intros Hinv Hnext Hsize. pose proof Hinv as [Hr Hc Hx Hn]. unfold sendPacket.
  destruct (keys_valid (c.(sendKeys) s)); cbn [negb]; [| by intros [= <- <-]].
  pose proof (Hx s) as Hxs. destruct (numbers_new _ _ _ _ s Hn) as [Hq Hf].
  assert (u64 (c.(nextPn) s + 1) = c.(nextPn) s + 1) as -> by (apply Z.mod_small; lia).
  assert (Hx' : forall s', 0 <= upd s (c.(nextPn) s + 1) c.(nextPn) s' < 2 ^ 63).
  { intros s'. unfold upd. case_decide; subst; [lia | apply Hx]. }
  change (packetHeader s (c.(nextPn) s) (zlen payload) (set_nextPn _ c))
    with (packetHeader s (c.(nextPn) s) (zlen payload) c).
  destruct (quicProtectPacket _ _ _ _ _) as [packet | | |] eqn:E; try done; cycle 1.
  { intros [= <- <-]. split; try done. by apply numbers_skip. }
  pose proof (numbers_seal _ _ _ _ s (c.(sendKeys) s) Hn ltac:(lia)) as Hseal.
  destruct cw.
  - intros [= <- <-]. split; try done. apply numbers_enqueue; try done. apply issued_self; lia.
  - intros Heq. set (c1 := add_sealed _ _) in *.
    pose proof (sendNow_inv sendto now s (c.(nextPn) s) packet ae c1) as Hi.
    injection Heq as Heq. rewrite Heq in Hi. apply Hi; try done.
    + apply issued_self; lia.
    + by apply Hsize.
Qed.

Lemma sendZeroRttPacket_inv `{C : Crypto} keys payload ae c ok c' :
  conn_inv c -> c.(nextPn) QuicPnApplication + 1 < 2 ^ 63 ->
  sendZeroRttPacket keys payload ae c = Ret (ok, c') -> conn_inv c'.
Proof.
  intros Hinv Hnext. pose proof Hinv as [Hr Hc Hx Hn]. unfold sendZeroRttPacket.
  destruct (keys_valid keys); cbn [negb]; [| by intros [= <- <-]].
  set (s := QuicPnApplication) in *.
  pose proof (Hx s) as Hxs. destruct (numbers_new _ _ _ _ s Hn) as [Hq Hf].
  assert (u64 (c.(nextPn) s + 1) = c.(nextPn) s + 1) as -> by (apply Z.mod_small; lia).
  assert (Hx' : forall s', 0 <= upd s (c.(nextPn) s + 1) c.(nextPn) s' < 2 ^ 63).
  { intros s'. unfold upd. case_decide; subst; [lia | apply Hx]. }
  destruct (quicProtectPacket _ _ _ _ _) as [packet | | |] eqn:E; try done; intros [= <- <-].
  - split; try done. apply numbers_enqueue; try done; [| apply issued_self; lia].
    apply numbers_seal; [done | lia].
  - split; try done. by apply numbers_skip.
Qed.

(** ** Any history *)

Section Histories.
Context `{C : Crypto}.

(** One handler.  The side conditions keep the sums in 64 bits. *)
Inductive conn_step : Conn -> Conn -> Prop :=
  | cs_packet sendto now s payload ae cw c ok c' :
      c.(nextPn) s + 1 < 2 ^ 63 ->
      (forall packet, quicProtectPacket (c.(sendKeys) s)
                        (packetHeader s (c.(nextPn) s) (zlen payload) c)
                        payload (c.(nextPn) s) 2 = Ret packet ->
         c.(recovery).(m_bytesInFlight) + zlen packet < 2 ^ 64) ->
      sendPacket sendto now s payload ae cw c = Ret (ok, c') -> conn_step c c'
  | cs_zero keys payload ae c ok c' :
      c.(nextPn) QuicPnApplication + 1 < 2 ^ 63 ->
      sendZeroRttPacket keys payload ae c = Ret (ok, c') -> conn_step c c'
  | cs_loop sendto now c :
      c.(recovery).(m_bytesInFlight) + queue_size c.(sendQueue) < 2 ^ 64 ->
      conn_step c (sendLoop_round sendto now c)
  | cs_ack sendto now s frame c c' :
      ack_wf frame ->
      (let acked := total_size (map raw (onAckReceived s frame now c.(recovery)).1.2) in
       c.(cc).(Reno.m_cwnd) + acked < 2 ^ 64 /\ c.(cc).(Reno.m_mss) * acked < 2 ^ 64) ->
      handleAck sendto now s frame c = Ret c' -> conn_step c c'
  | cs_pto sendto now c : conn_step c (ptoRound sendto now c)
  | cs_keys c : conn_step c (maybeUpdateSendKeys c)
  | cs_crypto buf off c : conn_step c (set_crypto buf off c).

Lemma conn_step_inv c c' : conn_step c c' -> conn_inv c -> conn_inv c'.
Proof.
  intros Hstep Hinv.
  destruct Hstep as [sendto now s payload ae cw c ok c' H1 H2 H3 | keys payload ae c ok c' H1 H2
    | sendto now c H1 | sendto now s frame c c' H1 [H2 H3] H4 | sendto now c | c | buf off c].
  - by eapply sendPacket_inv.
  - by eapply sendZeroRttPacket_inv.
  - apply drainQueue_inv; [| done]. by destruct Hinv; split.
  - destruct (handleAck_inv sendto now s frame c Hinv H1 H2 H3) as (c'' & He & Hc). congruence.
  - by apply ptoRound_inv.
  - destruct (maybeUpdateSendKeys_fields c) as (E1 & E2 & E3 & E4 & E5 & _).
    destruct Hinv; split; by rewrite ?E1, ?E2, ?E3, ?E4, ?E5.
  - by destruct Hinv; split.
Qed.

Lemma conn_steps_inv c c' : rtc conn_step c c' -> conn_inv c -> conn_inv c'.
Proof. induction 1; eauto using conn_step_inv. Qed.
End Histories.

(** A connection that has not sent anything. *)
Definition conn_start (c : Conn) : Prop :=
  c.(recovery) = recovery0 /\ (exists m, 0 <= m < 2 ^ 32 /\ c.(cc) = Reno.create m)
  /\ c.(sendQueue) = [] /\ c.(nextPn) = (fun _ => 0) /\ c.(sealed) = [].

Lemma reno_create_inv m : 0 <= m < 2 ^ 32 -> reno_inv (Reno.create m).
Proof.
  intros Hm. unfold Reno.create. set (mss := if m >? 0 then m else 1200).
  assert (0 < mss < 2 ^ 32) by (unfold mss; case_test; lia). clearbody mss.
  unfold reno_inv, Reno.initialCwnd, wrapu, Reno.SIZE_MAX.
  cbn [Reno.m_mss Reno.m_cwnd Reno.m_ssthresh]. rewrite !Z.mod_small by lia. lia.
Qed.

Lemma conn_start_inv c : conn_start c -> conn_inv c.
Proof.
  intros (H1 & (m & Hm & H2) & H3 & H4 & H5). split; rewrite ?H1, ?H2, ?H3, ?H4, ?H5.
  - apply recovery0_inv.
  - by apply reno_create_inv.
  - intros s. lia.
  - split; try constructor; simpl; intros; done || set_solver.
Qed.

(** C29: After any history of sends, queue rounds, ACKs and timer rounds no packet number
    of a space was sealed twice, the bytes-in-flight counter equals the sizes in flight,
    the congestion window holds two datagrams, and no queued packet is already recorded as
    sent. *)
Theorem send_history_sound `{C : Crypto} c0 c :
  conn_start c0 -> rtc conn_step c0 c ->
  NoDup (slot <$> c.(sealed))
  /\ c.(recovery).(m_bytesInFlight) = total_flying c.(recovery).(m_sent)
  /\ 2 * c.(cc).(Reno.m_mss) <= c.(cc).(Reno.m_cwnd)
  /\ (forall o, o ∈ c.(sendQueue) -> map_find o.(out_pn) (c.(recovery).(m_sent) o.(out_space)) = None).
Proof.
  intros Hs Hreach.
  destruct (conn_steps_inv _ _ Hreach (conn_start_inv _ Hs)) as [Hr (_ & Hc & _) _ Hn].
  split_and!; [apply Hn | apply Hr | lia | apply Hn].
Qed.

(** A round of the send loop overshoots the congestion window by less than one
    packet, and it stops only with the queue empty, the window full or a socket error. *)
Theorem sendLoop_respects_window `{C : Crypto} sendto now c0 c M :
  conn_start c0 -> rtc conn_step c0 c ->
  c.(recovery).(m_bytesInFlight) + queue_size c.(sendQueue) < 2 ^ 64 ->
  (forall o, o ∈ c.(sendQueue) -> zlen o.(out_raw) <= M) ->
  let c' := sendLoop_round sendto now c in
  c'.(recovery).(m_bytesInFlight)
    <= Z.max c.(recovery).(m_bytesInFlight) (c.(cc).(Reno.m_cwnd) - 1 + M)
  /\ (c'.(sendQueue) = [] \/ Reno.canSend c'.(recovery).(m_bytesInFlight) c'.(cc) = false
      \/ c'.(socketError) = true).
Proof.
  intros Hs Hreach Hb HM c'.
  destruct (conn_steps_inv _ _ Hreach (conn_start_inv _ Hs)) as [Hr _ _ _].
  destruct (drainQueue_window sendto now c.(sendQueue) c M) as (H1 & _ & H3);
    [by apply recovery_bytes_nonneg | done | done |]. done.
Qed.

(** ** Payloads that are too short to protect *)

Lemma quicProtectPacket_short `{L : CryptoLaws} keys header payload pn :
  keys_valid keys = true -> 2 <= zlen header <= 2 ^ 30 -> zlen payload < 2 ->
  quicProtectPacket keys header payload pn 2 = Reject.
Proof.
  intros Hkeys Hh Hp. destruct (keys_valid_spec keys Hkeys) as (Hk & Hiv & _).
  destruct (quicNonceFromIv_total keys.(iv) pn Hiv) as (nonce & Hnonce & Hnl).
  pose proof (zlen_nonneg payload).
  unfold quicProtectPacket. rewrite Hkeys. simpl negb. test_false.
  rewrite Hnonce. cbn [mbind result_bind]. unfold aead_setKey. rewrite Hk. test_false.
  unfold aead_seal. rewrite Hk, Hnl. unfold INT_MAX. test_false. cbn [mbind result_bind].
  assert (u64 (zlen header - 2) = zlen header - 2) as -> by (apply Z.mod_small; lia).
  assert (u64 (zlen header - 2 + 4 + 16) = zlen header + 18) as ->
    by (unfold wrapu; rewrite Z.mod_small by lia; lia).
  rewrite zlen_app, gcm_seal_length. by test_true.
Qed.

Lemma packetHeader_length `{C : Crypto} n size c :
  zlen c.(remoteCid) <= 20 ->
  2 <= zlen (packetHeader QuicPnApplication n size c) <= 2 ^ 30.
Proof.
  intros Hc. unfold packetHeader. rewrite quicBuildShortHeader_bytes by lia.
  rewrite zlen_cons, zlen_app, zlen_be_encode. pose proof (zlen_nonneg c.(remoteCid)). lia.
Qed.

(** A packet whose payload is HANDSHAKE_DONE alone, or the empty encoding of
    NEW_TOKEN, is too short to be header-protected: sendPacket reports failure and nothing
    is sent or queued. *)
Theorem handshake_done_not_sent `{L : CryptoLaws} sendto now token ae cw c :
  keys_valid (c.(sendKeys) QuicPnApplication) = true -> zlen c.(remoteCid) <= 20 ->
  let done := quicEncodeFrame (set_type HandshakeDone frame0) [] in
  let tkn := quicEncodeFrame (set_data token (set_type NewToken frame0)) [] in
  done = (true, [30]) /\ tkn = (false, [])
  /\ (forall payload, payload = done.2 \/ payload = tkn.2 ->
      exists c', sendPacket sendto now QuicPnApplication payload ae cw c = Ret (false, c')
        /\ c'.(wire) = c.(wire) /\ c'.(sendQueue) = c.(sendQueue)).
Proof.
  intros Hk Hc done tkn. split_and!; [done | done |].
  intros payload Hp. unfold sendPacket. rewrite Hk. cbn [negb].
  rewrite quicProtectPacket_short; [eauto | done | by apply packetHeader_length |].
  destruct Hp as [-> | ->]; done.
Qed.

(** ** Packet numbers after a Retry *)

Lemma sendCrypto_empty `{C : Crypto} fuel sendto now s c :
  c.(cryptoSend) s = [] -> sendCrypto (S fuel) sendto now s c = Ret (true, c).
Proof. intros H. cbn [sendCrypto]. by rewrite H. Qed.

Lemma flushCrypto_empty `{C : Crypto} sendto now c :
  c.(cryptoSend) = (fun _ => []) -> flushCrypto sendto now c = Ret (true, c).
Proof.
  intros H. unfold flushCrypto, sendCryptoAll.
  rewrite sendCrypto_empty by (by rewrite H). cbn [mbind result_bind negb].
  destruct (c.(hasHsKeys)); [rewrite sendCrypto_empty by (by rewrite H) |]; cbn [mbind result_bind negb];
    (destruct (c.(hasAppKeys)); [by rewrite sendCrypto_empty by (by rewrite H) | done]).
Qed.

(** With its handshake data already flushed, a client that accepts a Retry sends
    nothing, and the next Initial packet it seals repeats packet number 0 under unchanged
    keys. *)
Theorem retry_repeats_nonce `{C : Crypto} sendto now odcid data payload ae cw c c1 c2 :
  let keys := c.(sendKeys) QuicPnInitial in
  (QuicPnInitial, 0, keys) ∈ c.(sealed) -> c.(cryptoSend) = (fun _ => []) ->
  handleRetryPacket sendto now odcid data c = Ret (Some c1) ->
  sendPacket sendto now QuicPnInitial payload ae cw c1 = Ret (true, c2) ->
  c1.(wire) = c.(wire) /\ c1.(sendQueue) = c.(sendQueue)
  /\ exists i j, i <> j /\ c2.(sealed) !! i = Some (QuicPnInitial, 0, keys)
       /\ c2.(sealed) !! j = Some (QuicPnInitial, 0, keys).
Proof.
  intros keys Hin Hempty Hretry Hsend. unfold handleRetryPacket in Hretry.
  destruct (quicParseRetryPacket data odcid) as [[[[version dcid] scid] token] | | |]; try done.
  destruct (_ && _); [done |]. destruct (negb _); [done |].
  rewrite flushCrypto_empty in Hretry by done. cbn [mbind result_bind snd] in Hretry.
  injection Hretry as <-. split_and!; [done | done |].
  unfold sendPacket in Hsend. cbn [sendKeys set_nextPn set_crypto set_peer nextPn] in Hsend.
  fold keys in Hsend. destruct (keys_valid keys); cbn [negb] in Hsend; [| done].
  change (upd QuicPnHandshake 0 (upd QuicPnInitial 0 c.(nextPn)) QuicPnInitial) with 0 in Hsend.
  destruct (quicProtectPacket _ _ _ _ _) as [packet | | |]; try done.
  set (c3 := add_sealed _ _) in *.
  assert (Hlog : c2.(sealed) = c.(sealed) ++ [(QuicPnInitial, 0, keys)]).
  { destruct cw; [by injection Hsend as <- |].
    pose proof (sendNow_spec sendto now QuicPnInitial 0 packet ae c3) as Hs.
    injection Hsend as Hsend. rewrite Hsend in Hs. destruct Hs as (_ & _ & _ & -> & _). done. }
  apply list_elem_of_lookup in Hin as [i Hi].
  exists i, (length c.(sealed)). rewrite Hlog. split_and!.
  - apply lookup_lt_Some in Hi. lia.
  - by apply lookup_app_l_Some.
  - by rewrite list_lookup_middle.
Qed.

(** ** Concrete connections *)

Definition toy_conn : Conn :=
  mkConn recovery0 (Reno.create 1200) [] (fun _ => 0) (fun _ => toy_keys) true true true [1] false 0
    [5; 6; 7; 8] [9; 9] [] (fun _ => []) (fun _ => 0) false [] [].

Definition toy_send (s : QuicPacketNumberSpace) (payload : list Z) (c : Conn) : Conn :=
  match @sendPacket toy_crypto zlen 1000 s payload true true c with
  | Ret (_, c') => c'
  | _ => c
  end.

(** One packet queued. *)
Definition toy_queued : Conn := toy_send QuicPnApplication [1; 0; 0] toy_conn.

Lemma toy_start : conn_start toy_conn.
Proof. split_and!; try done. exists 1200. split; [lia | done]. Qed.

Lemma toy_reach : rtc (@conn_step toy_crypto) toy_conn toy_queued.
Proof.
  eapply rtc_once, (cs_packet zlen 1000 QuicPnApplication [1; 0; 0] true true _ true).
  - simpl. lia.
  - intros packet H. vm_compute in H. injection H as <-. closed_lia.
  - vm_compute. reflexivity.
Qed.

Lemma send_history_sound_witness :
  NoDup (slot <$> toy_queued.(sealed))
  /\ toy_queued.(recovery).(m_bytesInFlight) = total_flying toy_queued.(recovery).(m_sent)
  /\ 2 * toy_queued.(cc).(Reno.m_mss) <= toy_queued.(cc).(Reno.m_cwnd)
  /\ (forall o, o ∈ toy_queued.(sendQueue) ->
        map_find o.(out_pn) (toy_queued.(recovery).(m_sent) o.(out_space)) = None).
Proof. exact (@send_history_sound toy_crypto toy_conn toy_queued toy_start toy_reach). Defined.

Lemma sendLoop_respects_window_witness :
  let c' := @sendLoop_round toy_crypto zlen 2000 toy_queued in
  c'.(recovery).(m_bytesInFlight)
    <= Z.max toy_queued.(recovery).(m_bytesInFlight) (toy_queued.(cc).(Reno.m_cwnd) - 1 + 1500)
  /\ (c'.(sendQueue) = [] \/ Reno.canSend c'.(recovery).(m_bytesInFlight) c'.(cc) = false
      \/ c'.(socketError) = true).
Proof.
  refine (@sendLoop_respects_window toy_crypto zlen 2000 toy_conn toy_queued 1500
            toy_start toy_reach _ _).
  - closed_lia.
  - intros o Ho. assert (Hall : Forall (fun o => zlen o.(out_raw) <= 1500) toy_queued.(sendQueue)).
    { vm_compute. repeat constructor. discriminate. }
    rewrite Forall_forall in Hall. by apply Hall.
Defined.

Lemma handshake_done_not_sent_witness :
  exists c', @sendPacket toy_crypto zlen 1000 QuicPnApplication [30] true false toy_conn = Ret (false, c')
    /\ c'.(wire) = [] /\ c'.(sendQueue) = [].
Proof.
  destruct (@handshake_done_not_sent toy_crypto toy_crypto_laws zlen 1000 [1; 2; 3] true false toy_conn
              ltac:(reflexivity) ltac:(closed_lia)) as (H1 & H2 & H3).
  apply (H3 [30]). left. reflexivity.
Defined.

(** An Initial packet, and the state after the Retry that answers it. *)
Definition toy_initial : Conn := toy_send QuicPnInitial [6; 0; 1; 9] toy_conn.

Definition toy_retried : Conn :=
  match @handleRetryPacket toy_crypto zlen 1500 [5; 6; 7; 8]
          (@quicBuildRetryPacket toy_crypto 1 [9; 9] [4; 4; 4] [7; 7] [5; 6; 7; 8]) toy_initial with
  | Ret (Some c) => c
  | _ => toy_initial
  end.

Lemma retry_repeats_nonce_witness :
  exists i j, i <> j
    /\ (toy_send QuicPnInitial [6; 0; 1; 9] toy_retried).(sealed) !! i = Some (QuicPnInitial, 0, toy_keys)
    /\ (toy_send QuicPnInitial [6; 0; 1; 9] toy_retried).(sealed) !! j = Some (QuicPnInitial, 0, toy_keys).
Proof.
  refine (proj2 (proj2 (@retry_repeats_nonce toy_crypto zlen 1000 [5; 6; 7; 8]
            (@quicBuildRetryPacket toy_crypto 1 [9; 9] [4; 4; 4] [7; 7] [5; 6; 7; 8])
            [6; 0; 1; 9] true true toy_initial toy_retried
            (toy_send QuicPnInitial [6; 0; 1; 9] toy_retried) _ _ _ _))).
  - vm_compute. left.
  - vm_compute. reflexivity.
  - vm_compute. reflexivity.
  - vm_compute. reflexivity.
Defined.
