(* ===== verification/QuicStreamRecv.v ===== *)
(** * Reassembly of stream and handshake data

    The receive side of [QuicStreamPrivate] and the CRYPTO buffers of
    [QuicConnectionPrivate] ([src/src/quic.cpp]): frames arrive in any order and
    more than once; fragments are kept by offset and moved to the receive buffer
    as soon as they are next in line. *)

From S2P Require Import Prelude StdMap QuicFrame.
From stdpp Require Import sets list relations.
#[local] Open Scope Z_scope.

(** [while (fragments.count(off)) { buf.append(it->second); off += it->second.size();
    fragments.erase(it); }]: every round erases one fragment. *)
Fixpoint drainFragments (fuel : nat) (off : Z) (buf : list Z) (fragments : list (Z * list Z)) :
    Z * list Z * list (Z * list Z) :=
  match fuel with
  | O => (off, buf, fragments)
  | S fuel' =>
      match map_find off fragments with
      | None => (off, buf, fragments)
      | Some d => drainFragments fuel' (u64 (off + zlen d)) (buf ++ d) (map_erase off fragments)
      end
  end.

(** ** Streams *)

Record StreamRecv : Type := mkStream {
  recvOffset : Z;
  recvBuf : list Z;
  recvFragments : list (Z * list Z);
  finReceived : bool;
  finBoundary : Z;
  hasFinBoundary : bool
}.

Definition stream0 : StreamRecv := mkStream 0 [] [] false 0 false.

(** The data part of [onStreamFrame]. *)
Definition storeData (off : Z) (d : list Z) (sd : StreamRecv) : StreamRecv :=
  if u64 (off + zlen d) >? sd.(recvOffset) then
    let newDataStart := Z.max off sd.(recvOffset) in
    let fragments :=
      if u64 (off + zlen d) >? newDataStart
      then map_assign newDataStart (drop (Z.to_nat (newDataStart - off)) d) sd.(recvFragments)
      else sd.(recvFragments) in
    let '(o, b, fr) := drainFragments (S (length fragments)) sd.(recvOffset) sd.(recvBuf) fragments in
    mkStream o b fr sd.(finReceived) sd.(finBoundary) sd.(hasFinBoundary)
  else sd.

(** The FIN part of [onStreamFrame]. *)
Definition storeFin (finEnd : Z) (fin : bool) (sd : StreamRecv) : StreamRecv :=
  let sd :=
    if fin && (negb sd.(finReceived) && (finEnd >? sd.(finBoundary)))
    then mkStream sd.(recvOffset) sd.(recvBuf) sd.(recvFragments) sd.(finReceived) finEnd true
    else sd in
  if negb sd.(finReceived) && sd.(hasFinBoundary) && (sd.(recvOffset) >=? sd.(finBoundary))
  then mkStream sd.(recvOffset) sd.(recvBuf) sd.(recvFragments) true sd.(finBoundary) sd.(hasFinBoundary)
  else sd.

Definition onStreamData (frame : QuicFrame) (sd : StreamRecv) : StreamRecv :=
  storeFin (u64 (frame.(offset) + zlen frame.(data))) frame.(fin)
    (storeData frame.(offset) frame.(data) sd).

(** [QuicStream::recv] once it no longer waits: the number returned, the bytes stored and
    what stays.  A negative number of bytes, from [size] or from a buffer of 2^31 bytes,
    makes [memcpy] run out of bounds. *)
Definition recv (size : Z) (sd : StreamRecv) : result (Z * list Z * StreamRecv) :=
  if zlen sd.(recvBuf) =? 0 then Ret (if sd.(finReceived) then 0 else -1, [], sd) else
  let n := Z.min size (s32 (zlen sd.(recvBuf))) in
  if n <? 0 then Fault else
  Ret (n, take (Z.to_nat n) sd.(recvBuf),
       mkStream sd.(recvOffset) (drop (Z.to_nat n) sd.(recvBuf)) sd.(recvFragments)
         sd.(finReceived) sd.(finBoundary) sd.(hasFinBoundary)).

(** ** The streams of a connection *)

Record RecvConn : Type := mkRecvConn {
  streams : list (Z * StreamRecv);
  recvIsClient : bool;
  maxStreamsLocalUni : Z;
  maxStreamsLocalBidi : Z;
  maxStreamDataLocal : Z;
  recvDataTotal : Z;
  protocolError : bool
}.

Definition fail_protocol (c : RecvConn) : RecvConn :=
  mkRecvConn c.(streams) c.(recvIsClient) c.(maxStreamsLocalUni) c.(maxStreamsLocalBidi)
    c.(maxStreamDataLocal) c.(recvDataTotal) true.

Definition with_streams (m : list (Z * StreamRecv)) (c : RecvConn) : RecvConn :=
  mkRecvConn m c.(recvIsClient) c.(maxStreamsLocalUni) c.(maxStreamsLocalBidi)
    c.(maxStreamDataLocal) c.(recvDataTotal) c.(protocolError).

Definition peerInitiated (client : bool) (id : Z) : bool :=
  if client then Z.land id 1 =? 1 else Z.land id 1 =? 0.

(** [getOrCreateStream]: [None] when the peer exceeds its stream count. *)
Definition getOrCreateStream (id : Z) (c : RecvConn) : option StreamRecv * RecvConn :=
  match map_find id c.(streams) with
  | Some sd => (Some sd, c)
  | None =>
      let index := Z.shiftr id 2 in
      let maxStreams := if negb (Z.land id 2 =? 0) then c.(maxStreamsLocalUni)
                        else c.(maxStreamsLocalBidi) in
      if peerInitiated c.(recvIsClient) id && (index >=? maxStreams) then (None, fail_protocol c)
      else (Some stream0, with_streams (map_assign id stream0 c.(streams)) c)
  end.

Definition onStreamFrame (frame : QuicFrame) (c : RecvConn) : RecvConn :=
  match getOrCreateStream frame.(streamId) c with
  | (None, c) => c
  | (Some sd, c) =>
      if u64 (frame.(offset) + zlen frame.(data)) >? c.(maxStreamDataLocal) then fail_protocol c else
      mkRecvConn (map_assign frame.(streamId) (onStreamData frame sd) c.(streams)) c.(recvIsClient)
        c.(maxStreamsLocalUni) c.(maxStreamsLocalBidi) c.(maxStreamDataLocal)
        (u64 (c.(recvDataTotal) + zlen frame.(data))) c.(protocolError)
  end.

(** ** Handshake data *)

Record CryptoRecv : Type := mkCryptoRecv {
  cryptoRecvOff : Z;
  cryptoRecvBuf : list Z;
  cryptoRecvFragments : list (Z * list Z)
}.

(** [onCryptoFrame] in the Initial and Handshake spaces, up to [driveTls]. *)
Definition onCryptoData (off : Z) (d : list Z) (cr : CryptoRecv) : CryptoRecv :=
  if zlen d =? 0 then cr else
  if u64 (off + zlen d) <=? cr.(cryptoRecvOff) then cr else
  let fragments := map_assign off d cr.(cryptoRecvFragments) in
  let '(o, b, fr) := drainFragments (S (length fragments)) cr.(cryptoRecvOff) cr.(cryptoRecvBuf) fragments in
  mkCryptoRecv o b fr.

(** [onCryptoFrame] in the application space: in order only. *)
Definition onCryptoAppData (off : Z) (d : list Z) (recvOff : Z) (buf : list Z) : Z * list Z :=
  if u64 (off + zlen d) <=? recvOff then (recvOff, buf) else
  if off >? recvOff then (recvOff, buf) else
  let skip := recvOff - off in
  (u64 (recvOff + (zlen d - skip)), buf ++ drop (Z.to_nat skip) d).

(** ** Fragments of a given stream *)

Section Content.
(** [S] is what the peer sends on the stream. *)
Context (S : list Z).
Hypothesis Hmax : zlen S < 2 ^ 62.

(** [d] is the part of [S] at [off]. *)
Definition part (off : Z) (d : list Z) : Prop :=
  0 <= off /\ off + zlen d <= zlen S /\ d = slice S off (zlen d).

Definition frags_ok (fr : list (Z * list Z)) : Prop :=
  map_sorted fr /\ forall k d, map_find k fr = Some d -> part k d /\ 0 < zlen d.

Lemma slice_0_take {A} (l : list A) n : slice l 0 n = take (Z.to_nat n) l.
Proof. unfold slice. by rewrite drop_0. Qed.

Lemma take_part off d : part off d -> take (Z.to_nat off) S ++ d = take (Z.to_nat (off + zlen d)) S.
Proof.
  intros (H0 & H1 & H2). rewrite H2 at 1. unfold slice, zlen in *.
  rewrite take_take_drop. f_equal. lia.
Qed.

Lemma part_drop off d k : part off d -> 0 <= k <= zlen d -> part (off + k) (drop (Z.to_nat k) d).
Proof.
  intros (H0 & H1 & H2) Hk. unfold part. rewrite zlen_drop by lia. split_and!; [lia | lia |].
  rewrite H2 at 1. unfold slice. rewrite skipn_firstn_comm, drop_drop.
  f_equal; [unfold zlen in *; lia | f_equal; lia].
Qed.

Lemma frags_assign k d fr : frags_ok fr -> part k d -> 0 < zlen d -> frags_ok (map_assign k d fr).
Proof.
  intros [Hs Hf] Hp Hd. split; [by apply map_assign_sorted |]. intros k' d'. rewrite map_assign_find.
  destruct (Z.eqb_spec k' k) as [-> |]; [intros [= <-]; done | apply Hf].
Qed.

Lemma frags_erase k fr : frags_ok fr -> frags_ok (map_erase k fr).
Proof.
  intros [Hs Hf]. split; [by apply map_erase_sorted |]. intros k' d'. rewrite map_erase_find by done.
  destruct (k' =? k); [done | apply Hf].
Qed.

Lemma map_erase_length {V} k (m : list (Z * V)) v :
  map_find k m = Some v -> Datatypes.S (length (map_erase k m)) = length m.
Proof.
  induction m as [| [x w] m IH]; simpl; [done |]. destruct (k =? x); [done |].
  intros. simpl. by rewrite IH.
Qed.

(** The loop moves the bytes that are next in line, and stops at a gap.  [pre] is
  what was there already. *)
Lemma drainFragments_spec fuel off buf fr pre :
  (length fr < fuel)%nat -> frags_ok fr -> 0 <= off <= zlen S ->
  pre ++ buf = take (Z.to_nat off) S ->
  let '(o, b, fr') := drainFragments fuel off buf fr in
  off <= o <= zlen S /\ pre ++ b = take (Z.to_nat o) S /\ frags_ok fr'
  /\ map_find o fr' = None
  /\ (forall k d, map_find k fr' = Some d -> map_find k fr = Some d)
  /\ (forall k d, map_find k fr = Some d -> o <= k -> map_find k fr' = Some d).
Proof.
  revert off buf fr. induction fuel as [| fuel IH]; intros off buf fr Hl Hfr Hoff Hb; [lia |].
  cbn [drainFragments]. destruct (map_find off fr) as [d |] eqn:E; cycle 1.
  { split_and!; try (done || lia); eauto. }
  pose proof Hfr as [Hs Hf]. pose proof (Hf _ _ E) as [Hp Hd]. pose proof Hp as (P1 & P2 & P3).
  assert (u64 (off + zlen d) = off + zlen d) as -> by (apply Z.mod_small; lia).
  specialize (IH (off + zlen d) (buf ++ d) (map_erase off fr)).
  destruct (drainFragments fuel (off + zlen d) (buf ++ d) (map_erase off fr)) as [[o b] fr'].
  destruct IH as (I1 & I2 & I3 & I4 & I5 & I6).
  - pose proof (map_erase_length off fr d E). lia.
  - by apply frags_erase.
  - lia.
  - rewrite app_assoc, Hb. by apply take_part.
  - split_and!; try (done || lia).
    + intros k d' Hk. apply I5 in Hk. rewrite map_erase_find in Hk by done.
      by destruct (k =? off).
    + intros k d' Hk Ho. apply I6; [| done]. rewrite map_erase_find by done.
      destruct (Z.eqb_spec k off) as [-> |]; [lia | done].
Qed.

(** ** What a stream delivers *)

(** [read] is what the application has taken so far. *)
Record stream_inv (read : list Z) (sd : StreamRecv) : Prop := {
  si_off : 0 <= sd.(recvOffset) <= zlen S;
  si_data : read ++ sd.(recvBuf) = take (Z.to_nat sd.(recvOffset)) S;
  si_frags : frags_ok sd.(recvFragments);
  si_gap : map_find sd.(recvOffset) sd.(recvFragments) = None;
  si_fin : sd.(hasFinBoundary) = true -> sd.(finBoundary) = zlen S;
  si_done : sd.(finReceived) = true -> sd.(recvOffset) = zlen S
}.

(** A frame of this stream: a part of [S], with FIN only at its end. *)
Definition frame_of (f : QuicFrame) : Prop :=
  part f.(offset) f.(data) /\ (f.(fin) = true -> f.(offset) + zlen f.(data) = zlen S).

Lemma stream0_inv : stream_inv [] stream0.
Proof.
  split; simpl; try done. - zlen_lia. - split; [constructor | done].
Qed.

Lemma storeData_spec read off d sd :
  stream_inv read sd -> part off d ->
  let sd' := storeData off d sd in
  stream_inv read sd'
  /\ sd.(recvOffset) <= sd'.(recvOffset)
  /\ (forall k e, map_find k sd.(recvFragments) = Some e -> sd'.(recvOffset) <= k -> k <> off ->
        map_find k sd'.(recvFragments) = Some e)
  /\ (sd'.(recvOffset) <= off -> 0 < zlen d -> map_find off sd'.(recvFragments) = Some d).
Proof.
  intros Hinv Hp. pose proof Hinv as [I1 I2 I3 I4 I5 I6]. pose proof Hp as (P1 & P2 & P3).
  pose proof (zlen_nonneg d). unfold storeData.
  assert (u64 (off + zlen d) = off + zlen d) as -> by (apply Z.mod_small; lia).
  case_test; [| split_and!; try (done || lia); intros; lia].
  set (start := Z.max off sd.(recvOffset)).
  set (fr := if off + zlen d >? start then _ else sd.(recvFragments)).
  assert (Hfr : frags_ok fr /\ (forall k e, map_find k sd.(recvFragments) = Some e -> k <> start ->
                    map_find k fr = Some e)
                /\ (0 < zlen d -> start = off -> map_find off fr = Some d)).
  { unfold fr. case_test; [| split_and!; [done | done | lia]].
    split_and!.
    - apply frags_assign; [done | | rewrite zlen_drop; lia].
      replace start with (off + (start - off)) at 1 by lia. apply part_drop; [done | lia].
    - intros k e Hk Hne. rewrite map_assign_find. by test_false.
    - intros _ Heq. rewrite map_assign_find, Heq, Z.eqb_refl, Z.sub_diag. done. }
  destruct Hfr as (F1 & F2 & F3). clearbody fr.
  pose proof (drainFragments_spec (Datatypes.S (length fr)) sd.(recvOffset) sd.(recvBuf) fr read
    ltac:(lia) F1 I1 I2) as Hdrain.
  destruct (drainFragments _ _ _ _) as [[o b] fr']. destruct Hdrain as (D1 & D2 & D3 & D4 & D5 & D6).
  simpl. split_and!.
  - split; simpl; try done; [lia |]. intros Hf. specialize (I6 Hf). lia.
  - lia.
  - intros k e Hk Ho Hne. apply D6; [| done]. apply F2; [done |]. intros ->.
    destruct (decide (start = sd.(recvOffset))) as [Heq |]; [congruence | lia].
  - intros Ho Hd. apply D6; [| done]. apply F3; lia.
Qed.

Lemma storeFin_spec read finEnd fin sd :
  stream_inv read sd -> (fin = true -> finEnd = zlen S) ->
  let sd' := storeFin finEnd fin sd in
  stream_inv read sd' /\ sd'.(recvOffset) = sd.(recvOffset) /\ sd'.(recvFragments) = sd.(recvFragments).
Proof.
  intros Hinv Hfin. unfold storeFin.
  set (sd1 := if fin && _ then _ else sd).
  assert (H1 : stream_inv read sd1 /\ sd1.(recvOffset) = sd.(recvOffset)
               /\ sd1.(recvFragments) = sd.(recvFragments)).
  { unfold sd1. case_test; [| done]. destruct Hinv. split; [| done]. split; simpl; try done. intros _. auto. }
  destruct H1 as ([I1 I2 I3 I4 I5 I6] & E1 & E2). case_test; [| done].
  split; [| done]. split; simpl; try done. intros _. rewrite I5 in * by done. lia.
Qed.

Lemma onStreamData_spec read f sd :
  stream_inv read sd -> frame_of f ->
  let sd' := onStreamData f sd in
  stream_inv read sd'
  /\ sd.(recvOffset) <= sd'.(recvOffset)
  /\ (forall k e, map_find k sd.(recvFragments) = Some e -> sd'.(recvOffset) <= k -> k <> f.(offset) ->
        map_find k sd'.(recvFragments) = Some e)
  /\ (sd'.(recvOffset) <= f.(offset) -> 0 < zlen f.(data) ->
       map_find f.(offset) sd'.(recvFragments) = Some f.(data)).
Proof.
  intros Hinv [Hp Hfin]. pose proof Hp as (P1 & P2 & P3). pose proof (zlen_nonneg f.(data)).
  unfold onStreamData.
  assert (u64 (f.(offset) + zlen f.(data)) = f.(offset) + zlen f.(data)) as -> by (apply Z.mod_small; lia).
  destruct (storeData_spec read f.(offset) f.(data) sd Hinv Hp) as (D1 & D2 & D3 & D4).
  destruct (storeFin_spec read (f.(offset) + zlen f.(data)) f.(fin) _ D1 Hfin) as (F1 & F2 & F3).
  by rewrite F2, F3.
Qed.

Lemma recv_spec read size sd n bytes sd' :
  stream_inv read sd -> recv size sd = Ret (n, bytes, sd') -> stream_inv (read ++ bytes) sd'.
Proof.
  intros [I1 I2 I3 I4 I5 I6]. unfold recv. destruct (_ =? 0); [intros [= <- <- <-]; rewrite app_nil_r; by split |].
  destruct (_ <? 0); [done |]. intros [= <- <- <-]. split; simpl; try done. by rewrite <- app_assoc, take_drop.
Qed.

(** Frames of the stream and reads of the application, in any order. *)
Inductive stream_step : list Z * StreamRecv -> list Z * StreamRecv -> Prop :=
  | ss_frame f read sd : frame_of f -> stream_step (read, sd) (read, onStreamData f sd)
  | ss_recv size read sd n bytes sd' :
      recv size sd = Ret (n, bytes, sd') -> stream_step (read, sd) (read ++ bytes, sd').
End Content.

(** C19: Whatever frames of a stream arrive, duplicated, overlapping and out of order,
    interleaved with reads, what was read followed by the receive buffer is a prefix of
    what the peer sent, and the whole of it once FIN is declared. *)
Theorem stream_delivers_prefix content read sd :
  zlen content < 2 ^ 62 -> rtc (stream_step content) ([], stream0) (read, sd) ->
  read ++ sd.(recvBuf) = take (Z.to_nat sd.(recvOffset)) content
  /\ (sd.(finReceived) = true -> read ++ sd.(recvBuf) = content).
Proof.
  intros Hmax Hreach.
  assert (Hinv : stream_inv content read sd).
  { remember ([], stream0) as x eqn:Ex. remember (read, sd) as y eqn:Ey.
    assert (Hx : stream_inv content x.1 x.2) by (subst; apply stream0_inv). clear Ex.
    assert (Hy : stream_inv content y.1 y.2); [| by subst].
    clear Ey. induction Hreach as [| x z y Hstep _ IH]; [done |]. apply IH.
    destruct Hstep as [f r d Hf | size r d n bytes d' Hs]; simpl in *.
    - by apply onStreamData_spec.
    - by eapply recv_spec. }
  destruct Hinv as [I1 I2 I3 I4 I5 I6]. split; [done |]. intros Hf. rewrite I2, (I6 Hf).
  rewrite zlen_to_nat. by rewrite firstn_all.
Qed.
