(* ===== verification/QuicStreamProps.v ===== *)
(** * Completeness of reassembly, and where handshake data gets stuck *)

From S2P Require Import Prelude StdMap QuicFrame QuicStreamRecv.
From stdpp Require Import sets list relations.
#[local] Open Scope Z_scope.

(** ** Segments *)

Section Segments.
(** The sender cut the stream into these non-empty segments, one per frame. *)
Context (segs : list (list Z)).
Hypothesis Hne : Forall (fun d => 0 < zlen d) segs.

Definition content : list Z := concat segs.
Definition start (i : nat) : Z := zlen (concat (take i segs)).

Definition segment (off : Z) (d : list Z) : Prop := exists i, segs !! i = Some d /\ off = start i.
Definition boundary (b : Z) : Prop := exists i, (i <= length segs)%nat /\ b = start i.

Lemma start_S i d : segs !! i = Some d -> start (S i) = start i + zlen d.
Proof.
  intros Hi. unfold start. rewrite (take_S_r _ _ _ Hi), concat_app, zlen_app. simpl.
  by rewrite app_nil_r.
Qed.

Lemma start_end : start (length segs) = zlen content.
Proof. unfold start, content. by rewrite firstn_all. Qed.

Lemma start_lt i j : (i < j)%nat -> (j <= length segs)%nat -> start i < start j.
Proof.
  intros Hij. induction Hij as [| j Hij IH]; intros Hj.
  - destruct (lookup_lt_is_Some_2 segs i ltac:(lia)) as [d Hd]. rewrite (start_S _ _ Hd).
    rewrite Forall_lookup in Hne. specialize (Hne _ _ Hd). lia.
  - destruct (lookup_lt_is_Some_2 segs j ltac:(lia)) as [d Hd]. rewrite (start_S _ _ Hd).
    specialize (IH ltac:(lia)). pose proof (zlen_nonneg d). lia.
Qed.

Lemma start_0 : start 0 = 0.
Proof. done. Qed.

Lemma segment_part off d : segment off d -> part content off d /\ 0 < zlen d.
Proof.
  intros (i & Hi & ->). pose proof (start_S _ _ Hi) as HS.
  assert (Hc : concat segs = concat (take i segs) ++ d ++ concat (drop (S i) segs)).
  { rewrite <- (take_drop_middle segs i d Hi) at 1. by rewrite concat_app. }
  rewrite Forall_lookup in Hne. split; [| by eapply Hne]. unfold part, content, start.
  rewrite Hc. split_and!.
  - apply zlen_nonneg.
  - rewrite !zlen_app. pose proof (zlen_nonneg (concat (drop (S i) segs))). lia.
  - symmetry. apply slice_app_mid.
Qed.

Lemma segment_next off d : segment off d -> boundary off /\ boundary (off + zlen d).
Proof.
  intros (i & Hi & ->). pose proof (lookup_lt_Some _ _ _ Hi). split; [exists i; split; [lia | done] |].
  exists (S i). split; [lia |]. by rewrite (start_S _ _ Hi).
Qed.

(** No boundary lies strictly inside a segment. *)
Lemma segment_boundary off d b : segment off d -> boundary b -> off < b -> off + zlen d <= b.
Proof.
  intros (i & Hi & ->) (j & Hj & ->) Hlt. pose proof (lookup_lt_Some _ _ _ Hi) as Hil.
  assert (i < j)%nat.
  { destruct (Nat.lt_trichotomy i j) as [? | [-> | Hji]]; [done | lia |].
    pose proof (start_lt j i Hji ltac:(lia)). lia. }
  rewrite <- (start_S _ _ Hi). destruct (decide (S i = j)) as [-> |]; [done |].
  apply Z.lt_le_incl, start_lt; lia.
Qed.

(** At a boundary before the end a segment starts. *)
Lemma boundary_segment b : boundary b -> b < zlen content -> exists d, segment b d.
Proof.
  intros (i & Hi & ->) Hlt. rewrite <- start_end in Hlt.
  destruct (decide (i = length segs)) as [-> |]; [lia |].
  destruct (lookup_lt_is_Some_2 segs i ltac:(lia)) as [d Hd]. exists d, i. done.
Qed.

Lemma segment_det off d e : segment off d -> segment off e -> d = e.
Proof.
  intros (i & Hi & ->) (j & Hj & He). pose proof (lookup_lt_Some _ _ _ Hi).
  pose proof (lookup_lt_Some _ _ _ Hj).
  destruct (Nat.lt_trichotomy i j) as [Hij | [-> | Hji]]; [| congruence |].
  - pose proof (start_lt i j Hij ltac:(lia)). lia.
  - pose proof (start_lt j i Hji ltac:(lia)). lia.
Qed.

(** ** Frames that carry whole segments *)

Hypothesis Hmax : zlen content < 2 ^ 62.

Definition seg_frags (fr : list (Z * list Z)) : Prop :=
  forall k d, map_find k fr = Some d -> segment k d.

Lemma drain_boundary fuel off buf fr :
  map_sorted fr -> seg_frags fr -> boundary off ->
  boundary (drainFragments fuel off buf fr).1.1.
Proof.
  revert off buf fr. induction fuel as [| fuel IH]; intros off buf fr Hs Hf Hb; cbn [drainFragments]; [done |].
  destruct (map_find off fr) as [d |] eqn:E; [| done]. pose proof (Hf _ _ E) as Hseg.
  destruct (segment_part _ _ Hseg) as [(P1 & P2 & _) Hd].
  assert (u64 (off + zlen d) = off + zlen d) as -> by (apply Z.mod_small; lia).
  apply IH; [by apply map_erase_sorted | | by apply segment_next].
  intros k e. rewrite map_erase_find by done. destruct (k =? off); [done | apply Hf].
Qed.

Lemma drain_frags fuel off buf fr k d :
  map_sorted fr -> map_find k (drainFragments fuel off buf fr).2 = Some d -> map_find k fr = Some d.
Proof.
  revert off buf fr. induction fuel as [| fuel IH]; intros off buf fr Hs; cbn [drainFragments]; [done |].
  destruct (map_find off fr) as [e |] eqn:E; [| done]. intros Hk. apply IH in Hk; [| by apply map_erase_sorted].
  rewrite map_erase_find in Hk by done. by destruct (k =? off).
Qed.

(** [arrived]: the offsets of the frames so far. *)
Record aligned (arrived : list Z) (sd : StreamRecv) : Prop := {
  al_inv : stream_inv content [] sd;
  al_boundary : boundary sd.(recvOffset);
  al_frags : seg_frags sd.(recvFragments);
  al_kept k : k ∈ arrived -> sd.(recvOffset) <= k -> exists d, map_find k sd.(recvFragments) = Some d
}.

Lemma onStreamData_aligned arrived f sd :
  aligned arrived sd -> segment f.(offset) f.(data) ->
  (f.(fin) = true -> f.(offset) + zlen f.(data) = zlen content) ->
  aligned (f.(offset) :: arrived) (onStreamData f sd).
Proof.
  intros [A1 A2 A3 A4] Hseg Hfin. destruct (segment_part _ _ Hseg) as [Hp Hd].
  destruct (onStreamData_spec content Hmax [] f sd A1 (conj Hp Hfin)) as (S1 & S2 & S3 & S4).
  assert (Hstep : (onStreamData f sd).(recvOffset) = (storeData f.(offset) f.(data) sd).(recvOffset)
            /\ (onStreamData f sd).(recvFragments) = (storeData f.(offset) f.(data) sd).(recvFragments)).
  { unfold onStreamData, storeFin. by repeat case_test. }
  destruct Hstep as [E1 E2].
  assert (Hst : boundary (storeData f.(offset) f.(data) sd).(recvOffset)
                /\ seg_frags (storeData f.(offset) f.(data) sd).(recvFragments)).
  { clear S1 S2 S3 S4 E1 E2. unfold storeData. destruct Hp as (P1 & P2 & P3).
    assert (u64 (f.(offset) + zlen f.(data)) = f.(offset) + zlen f.(data)) as -> by (apply Z.mod_small; lia).
    case_test; [| done]. assert (Hge : sd.(recvOffset) <= f.(offset)).
    { apply Z.nlt_ge. intros Hlt. pose proof (segment_boundary _ _ _ Hseg A2 Hlt). lia. }
    rewrite Z.max_l by done. test_true. rewrite Z.sub_diag. cbn [Z.to_nat drop].
    set (fr := map_assign _ _ _). assert (Hs : map_sorted fr) by (apply map_assign_sorted, A1).
    assert (Hf : seg_frags fr).
    { intros k e. unfold fr. rewrite map_assign_find. destruct (Z.eqb_spec k f.(offset)) as [-> |].
      - by intros [= <-].
      - apply A3. }
    pose proof (drain_boundary (S (length fr)) sd.(recvOffset) sd.(recvBuf) fr Hs Hf A2) as Hb.
    pose proof (fun k e => drain_frags (S (length fr)) sd.(recvOffset) sd.(recvBuf) fr k e Hs) as Hfr'.
    destruct (drainFragments _ _ _ _) as [[o b] fr']. simpl in *. split; [done |].
    intros k e Hk. by apply Hf, Hfr'. }
  rewrite <- E1, <- E2 in Hst. destruct Hst as [H1 H2]. split; [done | done | done |].
  intros k Hk Hle. destruct (decide (k = f.(offset))) as [-> |]; [eauto |].
  apply elem_of_cons in Hk as [? | Hk]; [done |].
  destruct (A4 k Hk ltac:(lia)) as [d Hkd]. eauto.
Qed.
End Segments.

(** When every segment of a stream has arrived at least once, in any order and with
    any repetitions, the whole content is reassembled. *)
Theorem stream_complete segs fs :
  Forall (fun d => 0 < zlen d) segs -> zlen (concat segs) < 2 ^ 62 ->
  (** every frame carries one segment, FIN only on the last one *)
  Forall (fun f => segment segs f.(offset) f.(data)
                   /\ (f.(fin) = true -> f.(offset) + zlen f.(data) = zlen (concat segs))) fs ->
  (** and every segment is in some frame *)
  (forall i, (i < length segs)%nat -> start segs i ∈ map offset fs) ->
  (foldl (fun sd f => onStreamData f sd) stream0 fs).(recvBuf) = concat segs.
Proof.
  intros Hne Hmax Hfs Hall.
  assert (Hgen : forall fs arrived sd, aligned segs arrived sd ->
    Forall (fun f => segment segs f.(offset) f.(data)
                   /\ (f.(fin) = true -> f.(offset) + zlen f.(data) = zlen (concat segs))) fs ->
    aligned segs (rev (map offset fs) ++ arrived) (foldl (fun sd f => onStreamData f sd) sd fs)).
  { clear - Hne Hmax. induction fs as [| f fs IH]; intros arrived sd Ha Hf; simpl; [done |].
    inversion Hf as [| ? ? [Hseg Hfin] Hfs]; subst. rewrite <- app_assoc. apply IH; [| done].
    by apply onStreamData_aligned. }
  assert (H0 : aligned segs [] stream0).
  { split; [apply stream0_inv | exists O; split; [lia | done] | done |]. intros k Hk. set_solver. }
  specialize (Hgen fs [] stream0 H0 Hfs). set (sd := foldl _ _ _) in *.
  destruct Hgen as [A1 A2 A3 A4]. pose proof A1 as [I1 I2 _ I4 _ _]. simpl in I2. rewrite I2.
  assert (sd.(recvOffset) = zlen (concat segs)) as ->; [| by rewrite zlen_to_nat, firstn_all].
  destruct (Z.lt_ge_cases sd.(recvOffset) (zlen (concat segs))) as [Hlt |]; [| unfold content in I1; lia].
  destruct (boundary_segment segs _ A2 Hlt) as (d & i & Hi & He).
  destruct (A4 sd.(recvOffset)) as [e Hk]; [| lia | congruence].
  rewrite app_nil_r, He. apply list_elem_of_In. rewrite <- in_rev. apply list_elem_of_In, Hall. by eapply lookup_lt_Some.
Qed.

(** A CRYPTO frame that starts before the reassembled offset does not advance it,
    even when it carries new bytes, as long as no stored fragment starts at that offset. *)
Theorem crypto_overlap_ignored off d cr :
  0 <= off < cr.(cryptoRecvOff) -> off + zlen d < 2 ^ 64 ->
  map_find cr.(cryptoRecvOff) cr.(cryptoRecvFragments) = None ->
  (onCryptoData off d cr).(cryptoRecvOff) = cr.(cryptoRecvOff)
  /\ (onCryptoData off d cr).(cryptoRecvBuf) = cr.(cryptoRecvBuf).
Proof.
  intros Hoff Hmax Hgap. unfold onCryptoData. repeat case_test; try done.
  cbn [drainFragments]. rewrite map_assign_find. test_false. by rewrite Hgap.
Qed.

(** ** Concrete streams *)

Definition stream_frame (off : Z) (d : list Z) (last : bool) : QuicFrame :=
  set_data d (set_offset off (set_fin last (set_type Stream frame0))).

Lemma stream_complete_witness :
  (foldl (fun sd f => onStreamData f sd) stream0
     [stream_frame 3 [4; 5] true; stream_frame 0 [1; 2; 3] false; stream_frame 3 [4; 5] true]).(recvBuf)
  = [1; 2; 3; 4; 5].
Proof.
  apply (stream_complete [[1; 2; 3]; [4; 5]]).
  - repeat constructor.
  - reflexivity.
  - repeat (constructor; [split; [| vm_compute; congruence] |]); [.. | constructor].
    + exists 1%nat. split; reflexivity.
    + exists 0%nat. split; reflexivity.
    + exists 1%nat. split; reflexivity.
  - intros i Hi. simpl in Hi.
    destruct i as [| [| i]]; [vm_compute; right; left | vm_compute; left | lia].
Defined.

(** Handshake bytes 0 to 6 are there; a frame with bytes 5 to 9 adds none. *)
Definition sample_crypto : CryptoRecv := mkCryptoRecv 7 [0; 1; 2; 3; 4; 5; 6] [].

Lemma crypto_overlap_ignored_witness :
  (onCryptoData 5 [5; 6; 7; 8; 9] sample_crypto).(cryptoRecvOff) = 7
  /\ (onCryptoData 5 [5; 6; 7; 8; 9] sample_crypto).(cryptoRecvBuf) = [0; 1; 2; 3; 4; 5; 6].
Proof.
  apply (crypto_overlap_ignored 5 [5; 6; 7; 8; 9] sample_crypto); first [reflexivity | closed_lia].
Defined.

Lemma stream_delivers_prefix_witness :
  let sd := onStreamData (stream_frame 0 [1; 2; 3] false) (onStreamData (stream_frame 3 [4; 5] true) stream0) in
  [] ++ sd.(recvBuf) = take (Z.to_nat sd.(recvOffset)) [1; 2; 3; 4; 5]
  /\ (sd.(finReceived) = true -> [] ++ sd.(recvBuf) = [1; 2; 3; 4; 5]).
Proof.
  apply (stream_delivers_prefix [1; 2; 3; 4; 5] []); [reflexivity |].
  eapply rtc_l; [apply ss_frame | eapply rtc_l; [apply ss_frame | apply rtc_refl]].
  - split; [split_and!; [closed_lia | closed_lia | reflexivity] | closed_lia].
  - split; [split_and!; [closed_lia | closed_lia | reflexivity] | closed_lia].
Defined.
