(* ===== verification/FileLike.v ===== *)
(** * Byte streams

    The interface [FileLike] of [src/include/qtng/io_utils.h] with the contract
    its header states, and [BytesIO] ([src/src/io_utils.cpp]), which implements
    it over a string.  Clients are proved against the contract. *)

From S2P Require Import Prelude.

(** [read(data, size)] gives the return value, the bytes it placed at [data] and
    the stream after it; [write(data, size)] the return value and the stream. *)
Class FileLike (D : Type) : Type := {
  dev_read : Z -> D -> result (Z * list Z * D);
  dev_write : list Z -> D -> result (Z * D)
}.

(** What a reader may rely on in the states that are [sound].  [pending] are the
    bytes that will still arrive; a device may deliver them in pieces of any size,
    and it fails only when it is not [healthy]. *)
Class ReadContract (D : Type) `{FileLike D} : Type := {
  sound : D -> Prop;
  healthy : D -> Prop;
  pending : D -> list Z;
  healthy_sound d : healthy d -> sound d;
  read_conforms n d : 0 <= n < 2 ^ 31 -> sound d ->
    exists k bs d', dev_read n d = Ret (k, bs, d') /\ sound d'
      /\ k <= n /\ (0 <= k -> zlen bs = k /\ is_bytes bs);
  read_delivers n d : 0 < n < 2 ^ 31 -> healthy d ->
    exists bs d', dev_read n d = Ret (zlen bs, bs, d') /\ healthy d'
      /\ zlen bs <= n /\ pending d = bs ++ pending d'
      /\ (bs = [] -> pending d = [])
}.

(** What a writer may rely on: a device with [room] takes the whole buffer. *)
Class WriteContract (D : Type) `{FileLike D} : Type := {
  room : D -> Z -> Prop;
  written : D -> list Z;
  write_conforms n bs d : room d n -> zlen bs <= n -> is_bytes bs ->
    exists d', dev_write bs d = Ret (zlen bs, d')
      /\ written d' = written d ++ bs /\ room d' (n - zlen bs)
}.

Module BytesIO.
(** [BytesIOPrivate]; [buf] is the string the members point to. *)
Record t : Type := mk { buf : list Z; pos : Z }.

(** [BytesIO(const char *, size_t, int32_t)] and [BytesIO()] *)
Definition create (data : list Z) (pos : Z) : t := mk data pos.
Definition empty : t := mk [] 0.

Definition read (size : Z) (d : t) : result (Z * list Z * t) :=
  let available := s32 (s32 (zlen d.(buf)) - d.(pos)) in
  if available <=? 0 then Ret (0, [], d) else
  let toRead := Z.min size available in
  bytes ← fetch_slice d.(buf) d.(pos) toRead;
  Ret (toRead, bytes, mk d.(buf) (s32 (d.(pos) + toRead))).

(** [buf->resize(n)] *)
Definition resize (n : Z) (l : list Z) : list Z :=
  take (Z.to_nat n) l ++ replicate (Z.to_nat n - length l) 0.

(** [memcpy(&buf[pos], data, size)], a fault outside the buffer. *)
Definition memcpy_at (l : list Z) (pos : Z) (data : list Z) : result (list Z) :=
  if (0 <=? pos) && (pos + zlen data <=? zlen l) then
    Ret (take (Z.to_nat pos) l ++ data ++ drop (Z.to_nat (pos + zlen data)) l)
  else Fault.

(** The signed additions of [pos] and [size] are a fault when they overflow. *)
Definition write (data : list Z) (d : t) : result (Z * t) :=
  let size := zlen data in
  if d.(pos) + size >? INT_MAX then Fault else
  let buf := if d.(pos) >? s32 (zlen d.(buf)) then resize d.(pos) d.(buf) else d.(buf) in
  let buf := if d.(pos) + size >? s32 (zlen buf) then resize (d.(pos) + size) buf else buf in
  buf ← memcpy_at buf d.(pos) data;
  Ret (size, mk buf (d.(pos) + size)).

Definition size (d : t) : Z := zlen d.(buf).
Definition data (d : t) : list Z := d.(buf).

Definition readall (d : t) : list Z :=
  if d.(pos) >=? s32 (zlen d.(buf)) then [] else drop (Z.to_nat d.(pos)) d.(buf).

(** The states reachable from a string that an [int32_t] can index. *)
Definition inv (d : t) : Prop :=
  0 <= d.(pos) <= INT_MAX /\ zlen d.(buf) <= INT_MAX /\ is_bytes d.(buf).

(** A string that is being appended to. *)
Definition appending (d : t) (n : Z) : Prop :=
  inv d /\ d.(pos) = zlen d.(buf) /\ d.(pos) + n <= INT_MAX.

#[global] Instance bytesio_filelike : FileLike t := {| dev_read := read; dev_write := write |}.

Lemma s32_id x : - 2 ^ 31 <= x < 2 ^ 31 -> s32 x = x.
Proof. intros. unfold wraps. change (32 - 1) with 31. rewrite Z.mod_small; lia. Qed.

Lemma read_spec n d : 0 <= n < 2 ^ 31 -> inv d ->
  let k := Z.max 0 (Z.min n (zlen d.(buf) - d.(pos))) in
  read n d = Ret (k, slice d.(buf) d.(pos) k, mk d.(buf) (d.(pos) + k)) /\
  inv (mk d.(buf) (d.(pos) + k)).
Proof.
  intros Hn (Hp & Hl & Hb) k. unfold read, INT_MAX in *. pose proof (zlen_nonneg d.(buf)).
  rewrite (s32_id (zlen _)), (s32_id (_ - _)) by lia. split.
  - case_test.
    + replace k with 0 by (unfold k; lia). unfold slice. rewrite Z.add_0_r. by destruct d.
    + replace (Z.min n _) with k by (unfold k; lia). unfold fetch_slice. replace (_ && _)%bool with true by (unfold k; lia).
      cbn [mbind result_bind]. by rewrite s32_id by (unfold k; lia).
  - split_and!; simpl; try done; unfold INT_MAX, k; lia.
Qed.

#[global, refine] Instance bytesio_reads : ReadContract t := {|
  sound := inv; healthy := inv;
  pending d := drop (Z.to_nat d.(pos)) d.(buf)
|}.
Proof.
  - done.
  - intros n d Hn Hd. cbn [dev_read bytesio_filelike]. destruct (read_spec n d Hn Hd) as [-> Hi].
    destruct Hd as (Hp & _ & Hb). do 3 eexists. do 2 (split; [done |]).
    pose proof (zlen_nonneg d.(buf)). split; [lia |]. intros _. split; [| auto with qtng].
    destruct (Z.le_gt_cases (zlen d.(buf)) d.(pos)).
    + by replace (Z.max _ _) with 0 by lia.
    + apply zlen_slice; lia.
  - intros n d Hn Hd. destruct (read_spec n d ltac:(lia) Hd) as [Hr Hi].
    pose proof Hd as (Hp & _ & _). pose proof (zlen_nonneg d.(buf)).
    set (k := Z.max _ _) in *. assert (Hk : zlen (slice d.(buf) d.(pos) k) = k).
    { destruct (Z.le_gt_cases (zlen d.(buf)) d.(pos)).
      - by replace k with 0 by lia.
      - apply zlen_slice; lia. }
    exists (slice d.(buf) d.(pos) k), (mk d.(buf) (d.(pos) + k)). rewrite Hk.
    split; [done |]. split; [done |]. split; [lia |]. cbn [buf pos]. split.
    + unfold slice. rewrite Z2Nat.inj_add, <- drop_drop by lia. symmetry. apply take_drop.
    + intros E. rewrite E, zlen_nil in Hk. apply drop_ge. unfold zlen in *. lia.
Defined.

Lemma resize_grow n l : zlen l <= n -> resize n l = l ++ replicate (Z.to_nat n - length l) 0.
Proof. intros. unfold resize. rewrite take_ge; [done | unfold zlen in *; lia]. Qed.

Lemma write_append n bs d : appending d n -> zlen bs <= n ->
  write bs d = Ret (zlen bs, mk (d.(buf) ++ bs) (d.(pos) + zlen bs)).
Proof.
  intros ((Hp & Hl & _) & He & Hn) Hbs. unfold write, INT_MAX in *.
  pose proof (zlen_nonneg bs). test_false. rewrite (s32_id (zlen d.(buf))) by lia. test_false.
  rewrite (s32_id (zlen d.(buf))) by lia.
  assert (Hm : forall b, take (length d.(buf)) b = d.(buf) -> zlen b = zlen d.(buf) + zlen bs ->
    memcpy_at b d.(pos) bs = Ret (d.(buf) ++ bs)).
  { intros b Hb Hz. unfold memcpy_at. test_true. rewrite He, zlen_to_nat, Hb.
    rewrite (drop_ge b) by (unfold zlen in *; lia). by rewrite app_nil_r. }
  case_test; rewrite Hm; try done.
  - rewrite resize_grow by lia. by rewrite take_app_length.
  - rewrite resize_grow by lia. rewrite zlen_app. f_equal. unfold zlen in *.
    rewrite length_replicate. lia.
  - by rewrite take_ge by lia.
  - lia.
Qed.

#[global, refine] Instance bytesio_writes : WriteContract t := {|
  room := appending; written d := d.(buf)
|}.
Proof.
  intros n bs d Hd Hn Hb. eexists. split; [by eapply write_append |]. split; [done |].
  destruct Hd as ((Hp & Hl & Hbb) & He & Hr). pose proof (zlen_nonneg bs).
  split; [split |]; cbn [pos buf room]; rewrite ?zlen_app; unfold INT_MAX in *; [lia | | lia].
  split; [lia | by apply is_bytes_app_2].
Defined.
End BytesIO.
