(* ===== verification/MsgPack.v ===== *)
(** * MessagePack streams

    [src/src/msgpack.cpp] and [src/include/qtng/msgpack.h]: the stream state, its
    raw reads and writes over any [FileLike] device, and the typed operators.
    The members [version], [userData] and [flushWrites] are stored and never
    looked at, so they are left out.  [float] and [double] are their bit
    patterns. *)

From S2P Require Import Prelude FileLike.

Inductive Status : Type := Ok | ReadPastEnd | ReadCorruptData | WriteFailed.

#[export] Instance Status_eq_dec : EqDecision Status.
Proof. solve_decision. Defined.

Definition isOk (st : Status) : bool := match st with Ok => true | _ => false end.

(** [MsgPackStreamPrivate]; [dev] is [None] for a null device. *)
Record Stream (D : Type) : Type := mkStream {
  dev : option D;
  status : Status;
  limit : Z;
  pos : Z;
  hasPeekByte : bool;
  peekByteCache : Z
}.
Arguments mkStream {D}.
Arguments dev {D}.
Arguments status {D}.
Arguments limit {D}.
Arguments pos {D}.
Arguments hasPeekByte {D}.
Arguments peekByteCache {D}.

(** What a member function that returns [bool] leaves behind: its out-parameter
    on success; on failure the value it stored there before it failed, if any. *)
Inductive outcome (A : Type) : Type :=
| Done (a : A)
| Failed (left : option A).
Arguments Done {A} a.
Arguments Failed {A} left.

Definition io (D A : Type) : Type := Stream D -> result (outcome A * Stream D).

#[export] Instance io_ret D : MRet (io D) := fun A a s => Ret (Done a, s).
#[export] Instance io_bind D : MBind (io D) := fun A B k m s =>
  match m s with
  | Ret (Done a, s') => k a s'
  | Ret (Failed _, s') => Ret (Failed None, s')
  | Reject => Reject
  | Fault => Fault
  | OutOfFuel => OutOfFuel
  end.

Module FirstByte.
Definition POSITIVE_FIXINT := 0x7f.
Definition FIXMAP := 0x80.
Definition FIXARRAY := 0x90.
Definition FIXSTR := 0xa0.
Definition NIL := 0xc0.
Definition MFALSE := 0xc2.
Definition MTRUE := 0xc3.
Definition BIN8 := 0xc4.
Definition BIN16 := 0xc5.
Definition BIN32 := 0xc6.
Definition EXT8 := 0xc7.
Definition EXT16 := 0xc8.
Definition EXT32 := 0xc9.
Definition FLOAT32 := 0xca.
Definition FLOAT64 := 0xcb.
Definition UINT8 := 0xcc.
Definition UINT16 := 0xcd.
Definition UINT32 := 0xce.
Definition UINT64 := 0xcf.
Definition INT8 := 0xd0.
Definition INT16 := 0xd1.
Definition INT32 := 0xd2.
Definition INT64 := 0xd3.
Definition FIXEXT1 := 0xd4.
Definition FIXEXT2 := 0xd5.
Definition FIXEXT4 := 0xd6.
Definition FIXEXT8 := 0xd7.
Definition FIXEX16 := 0xd8.
Definition STR8 := 0xd9.
Definition STR16 := 0xda.
Definition STR32 := 0xdb.
Definition ARRAY16 := 0xdc.
Definition ARRAY32 := 0xdd.
Definition MAP16 := 0xde.
Definition MAP32 := 0xdf.
Definition NEGATIVE_FIXINT := 0xe0.
End FirstByte.
Export FirstByte.

Section Stream.
Context {D : Type} `{F : FileLike D}.

Definition set_dev d (s : Stream D) : Stream D :=
  mkStream (Some d) s.(status) s.(limit) s.(pos) s.(hasPeekByte) s.(peekByteCache).
Definition setStatus st (s : Stream D) : Stream D :=
  mkStream s.(dev) st s.(limit) s.(pos) s.(hasPeekByte) s.(peekByteCache).
Definition set_pos p (s : Stream D) : Stream D :=
  mkStream s.(dev) s.(status) s.(limit) p s.(hasPeekByte) s.(peekByteCache).
Definition set_peek h b (s : Stream D) : Stream D :=
  mkStream s.(dev) s.(status) s.(limit) s.(pos) h b.

(** [status = st; return false;] after the out-parameter was set to [left] *)
Definition fail {A} (st : Status) (left : option A) : io D A :=
  fun s => Ret (Failed left, setStatus st s).

(** A step that cannot fail but may fault, and [pos += len]. *)
Definition lift {A} (r : result A) : io D A := fun s => a ← r; Ret (Done a, s).
Definition advance (len : Z) : io D unit := fun s => Ret (Done tt, set_pos (u32 (s.(pos) + len)) s).

(** The constructors: over a device, and over a string to read. *)
Definition on_device (d : D) : Stream D := mkStream (Some d) Ok UINT32_MAX 0 false 0.
Definition on_string (d : D) (size : Z) : Stream D := mkStream (Some d) Ok (u32 size) 0 false 0.

Definition atEnd (s : Stream D) : bool :=
  match s.(dev) with Some _ => s.(pos) >=? s.(limit) | None => true end.

(** ** Reading *)

(** The loop of [readRawBytes]: [left] bytes are missing, [acc] was read.  A
  negative size or a count beyond the size asked for breaks the device
  contract, so it is a fault. *)
Fixpoint readLoop (fuel : nat) (left : Z) (metZero : bool) (acc : list Z) (d : D) :
    io D (list Z) := fun s =>
  if left <=? 0 then Ret (Done acc, set_dev d s) else
  match fuel with
  | O => OutOfFuel
  | S fuel' =>
      let size := s32 left in
      if size <? 0 then Fault else
      r ← dev_read size d;
      let '(bs, data, d) := (r : Z * list Z * D) in
      if bs <? 0 then fail ReadPastEnd None (set_dev d s)
      else if bs =? 0 then
        if negb metZero then readLoop fuel' left true acc d s
        else fail ReadPastEnd None (set_dev d s)
      else if size <? bs then Fault
      else readLoop fuel' (left - bs) metZero (acc ++ data) d s
  end.

Definition readRawBytes (len : Z) : io D (list Z) := fun s =>
  if negb (isOk s.(status)) then Ret (Failed None, s) else
  match s.(dev) with
  | None => fail ReadPastEnd None s
  | Some d =>
      if s.(pos) + len >? s.(limit) then fail ReadPastEnd None s else
      let peeked := s.(hasPeekByte) && (len >? 0) in
      let acc := if peeked then [s.(peekByteCache)] else [] in
      let s := if peeked then set_peek false s.(peekByteCache) s else s in
      (data ← readLoop (Z.to_nat len + 2) (len - zlen acc) false acc d;
       _ ← advance len;
       mret data) s
  end.

(** [readRawBytes(p, 1)] *)
Definition readByte : io D Z :=
  p ← readRawBytes 1; lift (fetch p 0).

(** [readRawBytes(p, n)] and a big-endian load *)
Definition readBE (n : Z) : io D Z := p ← readRawBytes n; mret (be_decode p).

Fixpoint peekLoop (fuel : nat) (metZero : bool) (d : D) : io D unit := fun s =>
  match fuel with
  | O => OutOfFuel
  | S fuel' =>
      r ← dev_read 1 d;
      let '(bs, data, d) := (r : Z * list Z * D) in
      if bs <? 0 then fail ReadPastEnd None (set_dev d s)
      else if bs =? 0 then
        if negb metZero then peekLoop fuel' true d s else fail ReadPastEnd None (set_dev d s)
      else byte ← fetch data 0; Ret (Done tt, set_peek true byte (set_dev d s))
  end.

Definition ensurePeekCached : io D unit := fun s =>
  if s.(hasPeekByte) then Ret (Done tt, s) else
  match s.(dev) with
  | None => Ret (Failed None, s)
  | Some d =>
      if negb (isOk s.(status)) then Ret (Failed None, s) else
      if s.(pos) >=? s.(limit) then Ret (Failed None, s) else
      peekLoop 2 false d s
  end.

Definition cachedByte : io D Z := fun s => Ret (Done s.(peekByteCache), s).

Definition peekByte : io D Z := _ ← ensurePeekCached; cachedByte.

Definition lengthFitsRemaining (len pos limit : Z) : bool :=
  if len >? INT_MAX then false else (pos <=? limit) && (len <=? limit - pos).

(** The test that ends the three header readers; [len] is already stored. *)
Definition checkLength (len : Z) : io D Z := fun s =>
  if lengthFitsRemaining len s.(pos) s.(limit) then Ret (Done len, s)
  else fail ReadCorruptData (Some len) s.

Definition readArrayHeader : io D Z :=
  p ← readByte;
  if (p >=? FIXARRAY) && (p <=? FIXARRAY + 0xf) then checkLength (Z.land p 0xf)
  else if p =? ARRAY16 then len ← readBE 2; checkLength len
  else if p =? ARRAY32 then len ← readBE 4; checkLength len
  else fail ReadCorruptData None.

Definition readMapHeader : io D Z :=
  p ← readByte;
  if (p >=? FIXMAP) && (p <=? FIXMAP + 0xf) then checkLength (Z.land p 0xf)
  else if p =? MAP16 then len ← readBE 2; checkLength len
  else if p =? MAP32 then len ← readBE 4; checkLength len
  else fail ReadCorruptData None.

(** [if (!dev || status != Ok) return false;], which is also what
  [CHECK_STREAM_PRECOND] does in a function that returns [bool] *)
Definition precond {A} (m : io D A) : io D A := fun s =>
  match s.(dev) with
  | None => Ret (Failed None, s)
  | Some _ => if negb (isOk s.(status)) then Ret (Failed None, s) else m s
  end.

(** The length and the type. *)
Definition readExtHeader : io D (Z * Z) := precond (
  typeByte ← readByte;
  '(len, typeByte) ←
    (if (FIXEXT1 <=? typeByte) && (typeByte <=? FIXEX16) then
       t ← readByte; mret (u32 (Z.shiftl 1 (typeByte - FIXEXT1)), t)
     else if typeByte =? EXT8 then len ← readByte; t ← readByte; mret (len, t)
     else if typeByte =? EXT16 then len ← readBE 2; t ← readByte; mret (len, t)
     else if typeByte =? EXT32 then len ← readBE 4; t ← readByte; mret (len, t)
     else fail ReadCorruptData None);
  len ← checkLength len;
  mret (len, typeByte)).

Definition unpack_longlong : io D Z :=
  p ← readByte;
  if p <=? POSITIVE_FIXINT then mret p
  else if p >=? NEGATIVE_FIXINT then mret (s8 p)
  else if p =? UINT8 then v ← readByte; mret v
  else if p =? INT8 then v ← readByte; mret (s8 v)
  else if p =? UINT16 then readBE 2
  else if p =? INT16 then v ← readBE 2; mret (s16 v)
  else if p =? UINT32 then readBE 4
  else if p =? INT32 then v ← readBE 4; mret (s32 v)
  else if p =? UINT64 then
    v ← readBE 8;
    if v >? 2 ^ 63 - 1 then fail ReadCorruptData None else mret v
  else if p =? INT64 then v ← readBE 8; mret (s64 v)
  else fail ReadCorruptData None.

(** A signed value read where an unsigned one is wanted. *)
Definition nonNegative (i : Z) : io D Z :=
  if i <? 0 then fail ReadCorruptData None else mret i.

Definition unpack_ulonglong : io D Z :=
  p ← readByte;
  if p <=? POSITIVE_FIXINT then mret p
  else if p >=? NEGATIVE_FIXINT then fail ReadCorruptData None
  else if p =? UINT8 then v ← readByte; mret v
  else if p =? INT8 then v ← readByte; nonNegative (s8 v)
  else if p =? UINT16 then readBE 2
  else if p =? INT16 then v ← readBE 2; nonNegative (s16 v)
  else if p =? UINT32 then readBE 4
  else if p =? INT32 then v ← readBE 4; nonNegative (s32 v)
  else if p =? UINT64 then readBE 8
  else if p =? INT64 then
    v ← readBE 8;
    if s64 v <? 0 then fail ReadCorruptData (Some v) else mret v
  else fail ReadCorruptData None.

Definition readPayload (len : Z) : io D (list Z) := fun s =>
  if negb (lengthFitsRemaining len s.(pos) s.(limit)) then fail ReadCorruptData None s
  else if len >? 0 then readRawBytes len s else Ret (Done [], s).

Definition unpackString : io D (list Z) :=
  p ← readByte;
  len ←
    (if (p >=? FIXSTR) && (p <=? FIXSTR + 0x1f) then mret (p - FIXSTR)
     else if p =? STR8 then readByte
     else if p =? STR16 then readBE 2
     else if p =? STR32 then readBE 4
     else fail ReadCorruptData None);
  readPayload len.

Definition unpackBin : io D (list Z) :=
  p ← readByte;
  len ←
    (if p =? BIN8 then readByte
     else if p =? BIN16 then readBE 2
     else if p =? BIN32 then readBE 4
     else fail ReadCorruptData None);
  readPayload len.

(** ** Writing *)

Fixpoint writeLoop (fuel : nat) (data : list Z) (left : Z) (d : D) : io D unit := fun s =>
  if left <=? 0 then Ret (Done tt, set_dev d s) else
  match fuel with
  | O => OutOfFuel
  | S fuel' =>
      let size := s32 left in
      if size <? 0 then Fault else
      r ← dev_write (take (Z.to_nat size) data) d;
      let '(bs, d) := (r : Z * D) in
      if bs <? 0 then fail WriteFailed None (set_dev d s)
      else writeLoop fuel' (drop (Z.to_nat bs) data) (left - bs) d s
  end.

Definition writeRawBytes (data : list Z) : io D unit := fun s =>
  if negb (isOk s.(status)) then Ret (Failed None, s) else
  match s.(dev) with
  | None => fail WriteFailed None s
  | Some d => writeLoop (length data) data (zlen data) d s
  end.

(** [m; return status == Ok;] *)
Definition thenOk (m : io D unit) : io D unit := fun s =>
  r ← m s;
  let '(_, s) := (r : outcome unit * Stream D) in
  Ret (if isOk s.(status) then Done tt else Failed None, s).

Definition writeArrayHeader (len : Z) : io D unit := thenOk (
  if len <=? 15 then writeRawBytes [Z.lor FIXARRAY len]
  else if len <=? 0xffff then writeRawBytes (ARRAY16 :: be_encode 2 len)
  else writeRawBytes (ARRAY32 :: be_encode 4 len)).

Definition writeMapHeader (len : Z) : io D unit := thenOk (
  if len <=? 15 then writeRawBytes [Z.lor FIXMAP len]
  else if len <=? 0xffff then writeRawBytes (MAP16 :: be_encode 2 len)
  else writeRawBytes (MAP32 :: be_encode 4 len)).

Definition writeExtHeader (len msgpackType : Z) : io D unit := fun s =>
  if negb (isOk s.(status)) then Ret (Failed None, s) else
  match s.(dev) with
  | None => fail WriteFailed None s
  | Some _ =>
      let p :=
        if len =? 1 then [FIXEXT1; msgpackType]
        else if len =? 2 then [FIXEXT2; msgpackType]
        else if len =? 4 then [FIXEXT4; msgpackType]
        else if len =? 8 then [FIXEXT8; msgpackType]
        else if len =? 16 then [FIXEX16; msgpackType]
        else if len <=? 0xff then [EXT8; u8 len; msgpackType]
        else if len <=? 0xffff then EXT16 :: be_encode 2 len ++ [msgpackType]
        else EXT32 :: be_encode 4 len ++ [msgpackType] in
      writeRawBytes p s
  end.

Definition writeBytes (data : list Z) : io D unit := precond
  (let len := zlen data in
   if len >? UINT32_MAX then fail WriteFailed None else
   _ ← writeRawBytes (if len <=? 0xff then [BIN8; len]
                      else if len <=? 0xffff then BIN16 :: be_encode 2 len
                      else BIN32 :: be_encode 4 len);
   writeRawBytes data).

(** The size is narrowed to 32 bits, and that many bytes are written. *)
Definition writeString (data : list Z) : io D unit := precond
  (let len := u32 (zlen data) in
   _ ← writeRawBytes (if len <=? 31 then [Z.lor FIXSTR len]
                      else if len <=? 0xff then [STR8; len]
                      else if len <=? 0xffff then STR16 :: be_encode 2 len
                      else STR32 :: be_encode 4 len);
   writeRawBytes (take (Z.to_nat len) data)).

(** ** The typed operators

  [s >> x] maps the old value of [x] to the new one; [s << x] only changes the
  stream.  Neither reports success: callers look at the status. *)

Definition rdop (A : Type) : Type := A -> Stream D -> result (A * Stream D).
Definition wrop (A : Type) : Type := A -> Stream D -> result (Stream D).

Definition assign {A} (m : io D A) : rdop A := fun old s =>
  r ← m s;
  let '(o, s) := (r : outcome A * Stream D) in
  Ret (match o with Done a => a | Failed (Some a) => a | Failed None => old end, s).

Definition ignore (m : io D unit) : Stream D -> result (Stream D) := fun s =>
  r ← m s; Ret r.2.

Definition ready (s : Stream D) : bool :=
  match s.(dev) with Some _ => isOk s.(status) | None => false end.

Definition read_bool : rdop bool := fun b s =>
  if negb (ready s) then Ret (b, s) else
  r ← readByte s;
  let '(o, s) := (r : outcome Z * Stream D) in
  Ret (match o with
       | Failed _ => (false, setStatus ReadPastEnd s)
       | Done p => if p =? MTRUE then (true, s)
                   else if p =? MFALSE then (false, s)
                   else (b, setStatus ReadCorruptData s)
       end).

(** A wider value narrowed to a type whose values lie in [lo .. hi]. *)
Definition narrow (lo hi : Z) (m : io D Z) : io D Z :=
  v ← m; if (lo <=? v) && (v <=? hi) then mret v else fail ReadCorruptData None.

Definition read_u8 : rdop Z := assign (precond (narrow 0 0xff unpack_ulonglong)).
Definition read_u16 : rdop Z := assign (precond (narrow 0 0xffff unpack_ulonglong)).
Definition read_u32 : rdop Z := assign (precond (narrow 0 0xffffffff unpack_ulonglong)).
Definition read_u64 : rdop Z := assign (precond unpack_ulonglong).
Definition read_i8 : rdop Z := assign (precond (narrow (-0x80) 0x7f unpack_longlong)).
Definition read_i16 : rdop Z := assign (precond (narrow (-0x8000) 0x7fff unpack_longlong)).
Definition read_i32 : rdop Z := assign (precond (narrow (-0x80000000) 0x7fffffff unpack_longlong)).
Definition read_i64 : rdop Z := assign (precond unpack_longlong).

Definition read_float : rdop Z := assign (precond (
  p ← readByte; if negb (p =? FLOAT32) then fail ReadCorruptData None else readBE 4)).
Definition read_double : rdop Z := assign (precond (
  p ← readByte; if negb (p =? FLOAT64) then fail ReadCorruptData None else readBE 8)).

Definition readString : rdop (list Z) := assign unpackString.
Definition readBytes : rdop (list Z) := assign unpackBin.

Definition write_bool : wrop bool := fun b =>
  ignore (precond (writeRawBytes [if b then MTRUE else MFALSE])).

Definition write_u8 : wrop Z := fun v => ignore (precond (
  writeRawBytes (if v <=? POSITIVE_FIXINT then [v] else [UINT8; v]))).
Definition write_u16 : wrop Z := fun v s =>
  if negb (ready s) then Ret s else
  if v <=? 0xff then write_u8 v s else ignore (writeRawBytes (UINT16 :: be_encode 2 v)) s.
Definition write_u32 : wrop Z := fun v s =>
  if negb (ready s) then Ret s else
  if v <=? 0xffff then write_u16 v s else ignore (writeRawBytes (UINT32 :: be_encode 4 v)) s.
Definition write_u64 : wrop Z := fun v s =>
  if negb (ready s) then Ret s else
  if v <=? 0xffffffff then write_u32 v s else ignore (writeRawBytes (UINT64 :: be_encode 8 v)) s.

Definition write_i8 : wrop Z := fun v => ignore (precond (
  writeRawBytes (if -32 <=? v then [u8 v] else [if v >? 0 then UINT8 else INT8; u8 v]))).
Definition write_i16 : wrop Z := fun v s =>
  if negb (ready s) then Ret s else
  if (-0x80 <=? v) && (v <=? 0x7f) then write_i8 v s
  else if (0x7f <=? v) && (v <=? 0xff) then ignore (writeRawBytes [UINT8; u8 v]) s
  else ignore (writeRawBytes ((if v >? 0 then UINT16 else INT16) :: be_encode 2 v)) s.
Definition write_i32 : wrop Z := fun v s =>
  if negb (ready s) then Ret s else
  if (-0x8000 <=? v) && (v <=? 0x7fff) then write_i16 v s
  else if (0x7fff <=? v) && (v <=? 0xffff) then ignore (writeRawBytes (UINT16 :: be_encode 2 v)) s
  else ignore (writeRawBytes ((if v >? 0 then UINT32 else INT32) :: be_encode 4 v)) s.
Definition write_i64 : wrop Z := fun v s =>
  if negb (ready s) then Ret s else
  if (-0x80000000 <=? v) && (v <=? 0x7fffffff) then write_i32 v s
  else if (0x7fffffff <=? v) && (v <=? 0xffffffff)
  then ignore (writeRawBytes (UINT32 :: be_encode 4 v)) s
  else ignore (writeRawBytes ((if v >? 0 then UINT64 else INT64) :: be_encode 8 v)) s.

Definition write_float : wrop Z := fun v =>
  ignore (precond (writeRawBytes (FLOAT32 :: be_encode 4 v))).
Definition write_double : wrop Z := fun v =>
  ignore (precond (writeRawBytes (FLOAT64 :: be_encode 8 v))).
End Stream.
