(* ===== verification/MsgPackTypes.v ===== *)
(** * MessagePack values built from others

    The extension, timestamp and container operators of [src/src/msgpack.cpp] and
    [src/include/qtng/msgpack.h].  A [Packer] is what the templates ask of an
    element type: its default value and its two stream operators. *)

From S2P Require Import Prelude FileLike MsgPack.

(** ** Extension data *)

Record MsgPackExtData : Type := mkExt { ext_type : Z; ext_payload : list Z }.

(** [utils::DateTime]: a [system_clock] time point in nanoseconds.  The
    conversion from milliseconds is a fault when it leaves 64 bits. *)
Record DateTime : Type := mkDateTime { tp : Z; valid : bool; local : bool }.

Definition noDateTime : DateTime := mkDateTime 0 false false.

Definition fromMSecsSinceEpoch (msecs : Z) : result DateTime :=
  let ns := msecs * 1000000 in
  if (- 2 ^ 63 <=? ns) && (ns <? 2 ^ 63) then Ret (mkDateTime ns true false) else Fault.

Definition toMSecsSinceEpoch (dt : DateTime) : Z :=
  if dt.(valid) then Z.quot dt.(tp) 1000000 else 0.

Definition unpackDatetime (bs : list Z) : result DateTime :=
  '(seconds, nanoseconds) ←
    (if zlen bs =? 4 then Ret (be_decode bs, 0)
     else if zlen bs =? 8 then
       let t := be_decode bs in Ret (Z.land t 0x3ffffffff, Z.shiftr t 34)
     else if zlen bs =? 12 then
       Ret (u64 (s64 (be_decode (drop 4 bs))), be_decode (take 4 bs))
     else Fault);
  fromMSecsSinceEpoch (s64 (u64 (u64 (seconds * 1000) + nanoseconds / 1000000))).

Definition packDatetime (dt : DateTime) : list Z :=
  if negb dt.(valid) then [] else
  let msecs := u64 (toMSecsSinceEpoch dt) in
  be_encode 8 (Z.lor (u64 (Z.shiftl ((msecs mod 1000) * 1000000) 34)) (msecs / 1000)).

Section Operators.
Context {D : Type} `{F : FileLike D}.

Definition read_ext (ext : MsgPackExtData) (s : Stream D) : result (MsgPackExtData * Stream D) :=
  r ← readExtHeader s;
  let '(o, s) := (r : outcome (Z * Z) * Stream D) in
  match o with
  | Failed _ => Ret (ext, s)
  | Done (len, msgpackType) =>
      let ext := mkExt msgpackType ext.(ext_payload) in
      if len >? 0 then
        r ← readRawBytes len s;
        let '(o, s) := (r : outcome (list Z) * Stream D) in
        Ret (match o with Done payload => mkExt msgpackType payload | Failed _ => ext end, s)
      else Ret (mkExt msgpackType [], s)
  end.

Definition write_ext (ext : MsgPackExtData) : Stream D -> result (Stream D) :=
  ignore (precond (
    _ ← writeExtHeader (u32 (zlen ext.(ext_payload))) ext.(ext_type);
    writeRawBytes ext.(ext_payload))).

(** A length other than 4, 8 and 12 spoils the status and falls through to
  [readRawBytes], which then refuses. *)
Definition read_datetime (dt : DateTime) (s : Stream D) : result (DateTime * Stream D) :=
  if negb (ready s) then Ret (dt, s) else
  r ← readExtHeader s;
  let '(o, s) := (r : outcome (Z * Z) * Stream D) in
  match o with
  | Failed _ => Ret (noDateTime, setStatus ReadCorruptData s)
  | Done (len, msgpackType) =>
      if negb (msgpackType =? 0xff) then Ret (noDateTime, setStatus ReadCorruptData s) else
      let s := if negb (len =? 4) && negb (len =? 8) && negb (len =? 12)
               then setStatus ReadCorruptData s else s in
      r ← readRawBytes len s;
      let '(o, s) := (r : outcome (list Z) * Stream D) in
      match o with
      | Failed _ => Ret (noDateTime, s)
      | Done p => dt ← unpackDatetime p; Ret (dt, s)
      end
  end.

Definition write_datetime (dt : DateTime) : Stream D -> result (Stream D) :=
  ignore (precond (
    let bs := packDatetime dt in
    if zlen bs =? 0 then fail WriteFailed None else
    _ ← writeExtHeader (u32 (zlen bs)) 0xff;
    writeRawBytes bs)).

(** [std::monostate] *)
Definition read_nil (u : unit) (s : Stream D) : result (unit * Stream D) :=
  r ← readByte s;
  let '(o, s) := (r : outcome Z * Stream D) in
  Ret (tt, match o with
           | Done b => if b =? NIL then s else setStatus ReadCorruptData s
           | Failed _ => s
           end).

Definition write_nil (u : unit) : Stream D -> result (Stream D) := ignore (writeRawBytes [NIL]).
End Operators.

(** ** Element types *)

Record Packer (A : Type) : Type := mkPacker {
  p_default : A;
  p_read : forall {D} `{FileLike D}, A -> Stream D -> result (A * Stream D);
  p_write : forall {D} `{FileLike D}, A -> Stream D -> result (Stream D)
}.
Arguments mkPacker {A}.
Arguments p_default {A}.
Arguments p_read {A} _ {D H}.
Arguments p_write {A} _ {D H}.

Definition bool_packer : Packer bool := mkPacker false (@read_bool) (@write_bool).
Definition u8_packer : Packer Z := mkPacker 0 (@read_u8) (@write_u8).
Definition u16_packer : Packer Z := mkPacker 0 (@read_u16) (@write_u16).
Definition u32_packer : Packer Z := mkPacker 0 (@read_u32) (@write_u32).
Definition u64_packer : Packer Z := mkPacker 0 (@read_u64) (@write_u64).
Definition i8_packer : Packer Z := mkPacker 0 (@read_i8) (@write_i8).
Definition i16_packer : Packer Z := mkPacker 0 (@read_i16) (@write_i16).
Definition i32_packer : Packer Z := mkPacker 0 (@read_i32) (@write_i32).
Definition i64_packer : Packer Z := mkPacker 0 (@read_i64) (@write_i64).
Definition float_packer : Packer Z := mkPacker 0 (@read_float) (@write_float).
Definition double_packer : Packer Z := mkPacker 0 (@read_double) (@write_double).
Definition ext_packer : Packer MsgPackExtData := mkPacker (mkExt 0 []) (@read_ext) (@write_ext).
Definition datetime_packer : Packer DateTime :=
  mkPacker noDateTime (@read_datetime) (@write_datetime).
Definition nil_packer : Packer unit := mkPacker tt (@read_nil) (@write_nil).

(** [variant_read_value] and [variant_write_value] of [std::string] *)
Definition string_packer : Packer (list Z) :=
  mkPacker [] (@readString) (fun D H data => ignore (writeString data)).

(** The bin functions, in the same shape. *)
Definition bin_packer : Packer (list Z) :=
  mkPacker [] (@readBytes) (fun D H data => ignore (writeBytes data)).

(** ** Containers *)

Section Containers.
Context {A : Type} (P : Packer A) {D : Type} `{F : FileLike D}.

Fixpoint writeItems (l : list A) (s : Stream D) : result (Stream D) :=
  match l with
  | [] => Ret s
  | item :: l' =>
      s ← P.(p_write) item s;
      if isOk s.(status) then writeItems l' s else Ret s
  end.

Definition write_vector (l : list A) (s : Stream D) : result (Stream D) :=
  r ← writeArrayHeader (u32 (zlen l)) s;
  let '(o, s) := (r : outcome unit * Stream D) in
  match o with Failed _ => Ret s | Done _ => writeItems l s end.

(** The loop of the reader; [n] items are announced, [l] were read. *)
Fixpoint readItems (n : nat) (l : list A) (s : Stream D) : result (list A * Stream D) :=
  match n with
  | O => Ret (l, s)
  | S n' =>
      r ← P.(p_read) P.(p_default) s;
      let '(t, s) := (r : A * Stream D) in
      if negb (isOk s.(status)) then Ret (l, s) else
      let l := l ++ [t] in
      if atEnd s then Ret (l, s) else readItems n' l s
  end.

Definition read_vector (l : list A) (s : Stream D) : result (list A * Stream D) :=
  r ← readArrayHeader s;
  let '(o, s) := (r : outcome Z * Stream D) in
  match o with
  | Failed _ => Ret (l, s)
  | Done len => readItems (Z.to_nat len) [] s
  end.
End Containers.

Definition vector_packer {A} (P : Packer A) : Packer (list A) :=
  mkPacker [] (@read_vector A P) (@write_vector A P).

(** [std::map<K, V>] as its entries in key order, [lt] being [operator<]. *)
Section Map.
Context {K V : Type} (lt : K -> K -> bool) (PK : Packer K) (PV : Packer V).

Fixpoint emplace (k : K) (v : V) (m : list (K * V)) : list (K * V) :=
  match m with
  | [] => [(k, v)]
  | (k', v') :: m' =>
      if lt k k' then (k, v) :: m
      else if lt k' k then (k', v') :: emplace k v m'
      else m
  end.

Context {D : Type} `{F : FileLike D}.

Fixpoint writeEntries (m : list (K * V)) (s : Stream D) : result (Stream D) :=
  match m with
  | [] => Ret s
  | (k, v) :: m' =>
      s ← PK.(p_write) k s;
      s ← PV.(p_write) v s;
      if isOk s.(status) then writeEntries m' s else Ret s
  end.

Definition write_map (m : list (K * V)) (s : Stream D) : result (Stream D) :=
  r ← writeMapHeader (u32 (zlen m)) s;
  let '(o, s) := (r : outcome unit * Stream D) in
  match o with Failed _ => Ret s | Done _ => writeEntries m s end.

Fixpoint readEntries (n : nat) (m : list (K * V)) (s : Stream D) :
    result (list (K * V) * Stream D) :=
  match n with
  | O => Ret (m, s)
  | S n' =>
      r ← PK.(p_read) PK.(p_default) s;
      let '(k, s) := (r : K * Stream D) in
      if negb (isOk s.(status)) then Ret (m, s) else
      r ← PV.(p_read) PV.(p_default) s;
      let '(v, s) := (r : V * Stream D) in
      if negb (isOk s.(status)) then Ret (m, s) else
      readEntries n' (emplace k v m) s
  end.

Definition read_map (m : list (K * V)) (s : Stream D) : result (list (K * V) * Stream D) :=
  r ← readMapHeader s;
  let '(o, s) := (r : outcome Z * Stream D) in
  match o with
  | Failed _ => Ret (m, s)
  | Done len => readEntries (Z.to_nat len) [] s
  end.
End Map.

Definition map_packer {K V} (lt : K -> K -> bool) (PK : Packer K) (PV : Packer V) :
    Packer (list (K * V)) :=
  mkPacker [] (@read_map K V lt PK PV) (@write_map K V PK PV).

(** ** Variants *)

Inductive MsgPackWireKind : Type :=
| Unknown | Nil | Bool | Int | Float | String | Bin | Array | Map | Ext.

#[export] Instance MsgPackWireKind_eq_dec : EqDecision MsgPackWireKind.
Proof. solve_decision. Defined.

Definition msgpack_wire_kind (b : Z) : MsgPackWireKind :=
  if b <=? POSITIVE_FIXINT then Int
  else if b >=? NEGATIVE_FIXINT then Int
  else if (b >=? FIXSTR) && (b <=? FIXSTR + 0x1f) then String
  else if (b >=? FIXARRAY) && (b <=? FIXARRAY + 0x0f) then Array
  else if (b >=? FIXMAP) && (b <=? FIXMAP + 0x0f) then Map
  else if (b >=? FIXEXT1) && (b <=? FIXEX16) then Ext
  else if b =? NIL then Nil
  else if (b =? MFALSE) || (b =? MTRUE) then Bool
  else if (b =? FLOAT32) || (b =? FLOAT64) then Float
  else if (b =? BIN8) || (b =? BIN16) || (b =? BIN32) then Bin
  else if (b =? STR8) || (b =? STR16) || (b =? STR32) then String
  else if (b =? UINT8) || (b =? UINT16) || (b =? UINT32) || (b =? UINT64)
       || (b =? INT8) || (b =? INT16) || (b =? INT32) || (b =? INT64) then Int
  else if (b =? ARRAY16) || (b =? ARRAY32) then Array
  else if (b =? MAP16) || (b =? MAP32) then Map
  else if (b =? EXT8) || (b =? EXT16) || (b =? EXT32) then Ext
  else Unknown.

(** [variant_wire_match<T>::accepts] is equality with the kind of [T]. *)
Record Alternative (A : Type) : Type := mkAlt { alt_kind : MsgPackWireKind; alt_packer : Packer A }.
Arguments mkAlt {A}.
Arguments alt_kind {A}.
Arguments alt_packer {A}.

Definition accepts {A} (a : Alternative A) (kind : MsgPackWireKind) : bool :=
  bool_decide (kind = a.(alt_kind)).

(** A variant over a list of alternatives is a nested sum that ends in [False]:
    the dispatch over the indices, and [std::visit] for the writer. *)
Record Variant (V : Type) : Type := mkVariant {
  variant_read_dispatch : forall {D} `{FileLike D}, MsgPackWireKind -> Stream D ->
    result (option V * Stream D);
  variant_write : forall {D} `{FileLike D}, V -> Stream D -> result (Stream D)
}.
Arguments mkVariant {V}.
Arguments variant_read_dispatch {V} _ {D H}.
Arguments variant_write {V} _ {D H}.

Definition variant_end : Variant False :=
  mkVariant (fun D H kind s => Ret (None, s)) (fun D H v s => Ret s).

(** [variant_read_if]: the value of the alternative when it matched *)
Definition variant_read_if {A} (a : Alternative A) {D} `{FileLike D} (kind : MsgPackWireKind)
    (s : Stream D) : result (option A * Stream D) :=
  if negb (accepts a kind) then Ret (None, s) else
  r ← a.(alt_packer).(p_read) a.(alt_packer).(p_default) s;
  let '(val, s) := (r : A * Stream D) in
  Ret (if isOk s.(status) then Some val else None, s).

(** One more alternative in front: it is tried first. *)
Definition variant_dispatch_cons {A R} (a : Alternative A) (rest : Variant R) {D} `{FileLike D}
    (kind : MsgPackWireKind) (s : Stream D) : result (option (A + R) * Stream D) :=
  r ← variant_read_if a kind s;
  let '(o, s) := (r : option A * Stream D) in
  match o with
  | Some val => Ret (Some (inl val), s)
  | None =>
      r ← rest.(variant_read_dispatch) kind s;
      let '(o, s) := (r : option R * Stream D) in
      Ret (option_map inr o, s)
  end.

Definition variant_alt {A R} (a : Alternative A) (rest : Variant R) : Variant (A + R) :=
  mkVariant (fun D H => variant_dispatch_cons a rest)
    (fun D H v s =>
       match v with
       | inl val => a.(alt_packer).(p_write) val s
       | inr v => rest.(variant_write) v s
       end).

Definition read_variant {V} (W : Variant V) {D} `{FileLike D} (v : V) (s : Stream D) :
    result (V * Stream D) :=
  r ← peekByte s;
  let '(o, s) := (r : outcome Z * Stream D) in
  match o with
  | Failed _ => Ret (v, if isOk s.(status) then setStatus ReadPastEnd s else s)
  | Done b =>
      let kind := msgpack_wire_kind b in
      if bool_decide (kind = Unknown) then Ret (v, setStatus ReadCorruptData s) else
      r ← W.(variant_read_dispatch) kind s;
      let '(o, s) := (r : option V * Stream D) in
      match o with
      | Some v' => Ret (v', s)
      | None => Ret (v, if isOk s.(status) then setStatus ReadCorruptData s else s)
      end
  end.

Definition variant_packer {V} (W : Variant V) (default : V) : Packer V :=
  mkPacker default (@read_variant V W) (@variant_write V W).

(** ** The types that can be written and read

    What the templates accept, as data: a [MsgType] has the two stream operators.
    [std::string] has none of its own and comes in only as an alternative of a variant.
    The keys of a map are integers or [bool], whose [operator<] is the order of [Z]. *)

Inductive Width : Type := W8 | W16 | W32 | W64.

Inductive KeyType : Type := KBool | KUInt (w : Width) | KInt (w : Width).

Inductive MsgType : Type :=
| TKey (k : KeyType)
| TFloat
| TDouble
| TExt
| TDateTime
| TNil
| TVector (t : MsgType)
| TMap (k : KeyType) (t : MsgType)
| TVariant (a : Alternatives)
with Alternatives : Type :=
| Only (x : AltType)
| Or (x : AltType) (a : Alternatives)
with AltType : Type :=
| AString
| AType (t : MsgType).

Definition key (k : KeyType) : Type := match k with KBool => bool | _ => Z end.

Fixpoint value (t : MsgType) : Type :=
  match t with
  | TKey k => key k
  | TFloat | TDouble => Z
  | TExt => MsgPackExtData
  | TDateTime => DateTime
  | TNil => unit
  | TVector t => list (value t)
  | TMap k t => list (key k * value t)
  | TVariant a => choice a
  end
with choice (a : Alternatives) : Type :=
  match a with Only x => alt_value x + False | Or x a => alt_value x + choice a end
with alt_value (x : AltType) : Type :=
  match x with AString => list Z | AType t => value t end.

Definition key_packer (k : KeyType) : Packer (key k) :=
  match k with
  | KBool => bool_packer
  | KUInt W8 => u8_packer | KUInt W16 => u16_packer | KUInt W32 => u32_packer | KUInt W64 => u64_packer
  | KInt W8 => i8_packer | KInt W16 => i16_packer | KInt W32 => i32_packer | KInt W64 => i64_packer
  end.

Definition key_rank (k : KeyType) : key k -> Z :=
  match k with KBool => fun b => if b then 1 else 0 | _ => fun z => z end.

Definition key_lt (k : KeyType) (x y : key k) : bool := key_rank k x <? key_rank k y.

(** [variant_wire_match<T>]; a variant inside a variant matches nothing. *)
Definition kind_of (t : MsgType) : MsgPackWireKind :=
  match t with
  | TKey KBool => Bool
  | TKey _ => Int
  | TFloat | TDouble => Float
  | TExt | TDateTime => Ext
  | TNil => Nil
  | TVector _ => Array
  | TMap _ _ => Map
  | TVariant _ => Unknown
  end.

Definition alt_kind_of (x : AltType) : MsgPackWireKind :=
  match x with AString => String | AType t => kind_of t end.

Fixpoint packer (t : MsgType) : Packer (value t) :=
  match t with
  | TKey k => key_packer k
  | TFloat => float_packer
  | TDouble => double_packer
  | TExt => ext_packer
  | TDateTime => datetime_packer
  | TNil => nil_packer
  | TVector t => vector_packer (packer t)
  | TMap k t => map_packer (key_lt k) (key_packer k) (packer t)
  | TVariant a => variant_packer (variant_of a)
      (match a as a return choice a with
       | Only x => inl (alt_packer_of x).(p_default)
       | Or x _ => inl (alt_packer_of x).(p_default)
       end)
  end
with variant_of (a : Alternatives) : Variant (choice a) :=
  match a with
  | Only x => variant_alt (mkAlt (alt_kind_of x) (alt_packer_of x)) variant_end
  | Or x a => variant_alt (mkAlt (alt_kind_of x) (alt_packer_of x)) (variant_of a)
  end
with alt_packer_of (x : AltType) : Packer (alt_value x) :=
  match x with AString => string_packer | AType t => packer t end.

Scheme MsgType_mut := Induction for MsgType Sort Prop
  with Alternatives_mut := Induction for Alternatives Sort Prop
  with AltType_mut := Induction for AltType Sort Prop.
Combined Scheme msgtype_mutind from MsgType_mut, Alternatives_mut, AltType_mut.
