(* ===== verification/MsgPackProofs.v ===== *)
(** * MessagePack: rules for reading and writing

    [reads_io] relates a reader to the bytes it consumes and [writes] a writer to
    the bytes it appends, over any device that keeps its contract; the rules
    below follow the structure of the operators. *)

From S2P Require Import Prelude FileLike MsgPack.

(** Decide the tests of a dispatch on a known first byte. *)
Ltac byte_tests :=
  cbv beta;
  repeat match goal with
  | |- context [if ?b then _ else _] =>
      let v := eval vm_compute in b in
      lazymatch v with
      | true => replace b with true by (vm_compute; reflexivity); cbv iota
      | false => replace b with false by (vm_compute; reflexivity); cbv iota
      end
  end.

Section Reading.
Context {D : Type} `{F : FileLike D} `{R : !ReadContract D}.

(** The stream is in order and will deliver exactly [bs], all within its limit. *)
Definition holds (s : Stream D) (bs : list Z) : Prop :=
  exists d, s.(dev) = Some d /\ healthy d /\ s.(status) = Ok /\ is_bytes bs
    /\ 0 <= s.(pos) /\ s.(pos) + zlen bs <= s.(limit) /\ s.(limit) <= UINT32_MAX
    /\ (if s.(hasPeekByte) then [s.(peekByteCache)] else []) ++ pending d = bs.

(** [s'] is [s] after [n] bytes, with [post] still to come. *)
Definition advanced (s s' : Stream D) (n : Z) (post : list Z) : Prop :=
  holds s' post /\ s'.(pos) = s.(pos) + n /\ s'.(limit) = s.(limit).

(** [m] consumes [bs] and yields [a] when at least [n] bytes follow. *)
Definition reads_io {A} (n : Z) (m : io D A) (bs : list Z) (a : A) : Prop :=
  forall s post, holds s (bs ++ post) -> n <= zlen post ->
    exists s', m s = Ret (Done a, s') /\ advanced s s' (zlen bs) post.

Lemma holds_ready s bs : holds s bs -> ready s = true.
Proof. intros (d & Hd & _ & Hs & _). unfold ready. by rewrite Hd, Hs. Qed.

Lemma readLoop_reads fuel bs post left met acc d s :
  left = zlen bs -> left <= INT_MAX -> (length bs < fuel)%nat -> healthy d ->
  pending d = bs ++ post ->
  exists d', readLoop fuel left met acc d s = Ret (Done (acc ++ bs), set_dev d' s)
    /\ healthy d' /\ pending d' = post.
Proof.
  revert bs left acc d. induction fuel as [| fuel IH]; intros bs left acc d -> Hl Hf Hd Hp; [lia |].
  cbn [readLoop]. case_test.
  { assert (bs = []) as -> by (apply zlen_0_nil; zlen_lia). rewrite app_nil_r. eauto. }
  unfold INT_MAX in *. rewrite BytesIO.s32_id by zlen_lia. test_false.
  destruct (read_delivers (zlen bs) d) as (k & d' & -> & Hd' & Hk & Hpk & Hne); [lia | done |].
  cbn [mbind result_bind].
  assert (0 < zlen k).
  { destruct k; [| zlen_lia]. rewrite Hp in Hne. specialize (Hne eq_refl).
    apply app_nil in Hne as [-> _]. zlen_lia. }
  repeat test_false. rewrite Hp in Hpk.
  assert (exists rest, bs = k ++ rest /\ pending d' = rest ++ post) as (rest & -> & Hrest).
  { apply app_eq_inv in Hpk as [(k' & -> & ->) | (k' & -> & ->)]; [eauto |].
    rewrite zlen_app in Hk. assert (k' = []) as -> by (apply zlen_0_nil; zlen_lia).
    exists []. by rewrite !app_nil_r. }
  destruct (IH rest (zlen (k ++ rest) - zlen k) (acc ++ k) d') as (d'' & -> & ?); try done.
  - zlen_lia.
  - zlen_lia.
  - rewrite length_app in Hf. unfold zlen in *. lia.
  - rewrite <- app_assoc. eauto.
Qed.

Lemma readLoop_zero fuel left met acc d s : left <= 0 ->
  readLoop fuel left met acc d s = Ret (Done acc, set_dev d s).
Proof. intros. destruct fuel; cbn [readLoop]; by test_true. Qed.

Lemma reads_io_raw bs n : n = zlen bs -> n <= INT_MAX -> reads_io 0 (readRawBytes n) bs bs.
Proof.
  intros -> Hn s post (d & Hd & Hh & Hs & Hb & Hp & Hlim & Hmax & Hrem) _.
  unfold readRawBytes. rewrite Hs, Hd. cbn [isOk negb].
  rewrite zlen_app in Hlim. pose proof (zlen_nonneg post). pose proof (zlen_nonneg bs). test_false.
  apply is_bytes_app in Hb as [Hbs Hpost].
  assert (Hw : u32 (s.(pos) + zlen bs) = s.(pos) + zlen bs)
    by (unfold wrapu; apply Z.mod_small; unfold UINT32_MAX in *; lia).
  destruct bs as [| b bs].
  { rewrite andb_false_r. unfold mbind at 1, io_bind at 1. rewrite readLoop_zero by done.
    eexists. split; [done |]. split; [| by cbn; rewrite Hw].
    exists d. cbn. rewrite Hw. repeat split; try done; lia. }
  replace (zlen (b :: bs) >? 0) with true by zlen_lia. rewrite andb_true_r.
  assert (Hpeek : exists acc rest, b :: bs = acc ++ rest /\ pending d = rest ++ post
    /\ acc = (if s.(hasPeekByte) then [s.(peekByteCache)] else [])).
  { destruct (s.(hasPeekByte)); simpl in Hrem.
    - injection Hrem as -> Hrem. by exists [b], bs.
    - by exists [], (b :: bs). }
  destruct Hpeek as (acc & rest & Hbs' & Hpend & <-).
  set (s1 := if s.(hasPeekByte) then _ else s).
  destruct (readLoop_reads (Z.to_nat (zlen (b :: bs)) + 2) rest post (zlen (b :: bs) - zlen acc)
    false acc d s1) as (d' & E1 & Hh' & Hp'); [| | | done | done |].
  - rewrite Hbs'. zlen_lia.
  - pose proof (zlen_nonneg acc). lia.
  - rewrite zlen_to_nat, Hbs', length_app. lia.
  - unfold mbind at 1, io_bind at 1. rewrite E1. cbn [advance].
    rewrite <- Hbs'. eexists. split; [done |].
    assert (Es : s1.(pos) = s.(pos) /\ s1.(limit) = s.(limit) /\ s1.(status) = Ok
      /\ s1.(hasPeekByte) = false).
    { unfold s1. by destruct (s.(hasPeekByte)) eqn:Ep. }
    destruct Es as (E2 & E3 & E4 & E5). cbn. rewrite E2, Hw. split; [| done].
    exists d'. cbn. rewrite E3, E4, E5. repeat split; try done; lia.
Qed.

Lemma reads_io_ret {A} (a : A) : reads_io 0 (mret a) [] a.
Proof. intros s post H _. eexists. split; [done |]. split; [done |]. rewrite zlen_nil. lia. Qed.

Lemma reads_io_bind {A B} n1 n2 (m : io D A) (k : A -> io D B) bs1 bs2 a b :
  reads_io n1 m bs1 a -> reads_io n2 (k a) bs2 b -> n1 <= zlen bs2 + n2 ->
  reads_io n2 (m ≫= k) (bs1 ++ bs2) b.
Proof.
  intros H1 H2 Hn s post Hs Hp. rewrite <- app_assoc in Hs.
  destruct (H1 s (bs2 ++ post) Hs) as (s1 & E1 & Hs1 & Hp1 & Hl1); [zlen_lia |].
  destruct (H2 s1 post Hs1 Hp) as (s2 & E2 & Hs2 & Hp2 & Hl2).
  exists s2. unfold mbind, io_bind. rewrite E1. split; [done |]. split; [done |].
  rewrite zlen_app. split; [lia | congruence].
Qed.

(** The last step returns without reading. *)
Lemma reads_io_last {A B} n1 (m : io D A) (k : A -> io D B) bs a b :
  reads_io n1 m bs a -> reads_io n1 (k a) [] b -> reads_io n1 (m ≫= k) bs b.
Proof. intros. rewrite <- (app_nil_r bs). eapply reads_io_bind; [done.. | zlen_lia]. Qed.

Lemma reads_io_lift {A} (a : A) : reads_io 0 (lift (Ret a)) [] a.
Proof. apply (reads_io_ret a). Qed.

Lemma reads_io_byte b : reads_io 0 readByte [b] b.
Proof.
  unfold readByte. eapply reads_io_last; [by apply reads_io_raw | apply reads_io_lift].
Qed.

Lemma reads_io_be k n v w : k = Z.of_nat n -> (n <= 8)%nat -> v mod 256 ^ k = w ->
  reads_io 0 (readBE k) (be_encode n v) w.
Proof.
  intros -> Hn <-. unfold readBE. eapply reads_io_last.
  - apply reads_io_raw; [by rewrite zlen_be_encode | unfold INT_MAX; lia].
  - rewrite be_encode_decode. apply reads_io_ret.
Qed.

Lemma reads_io_be_then {B} k n v w (c : Z -> io D B) b :
  k = Z.of_nat n -> (n <= 8)%nat -> v mod 256 ^ k = w -> reads_io 0 (c w) [] b ->
  reads_io 0 (readBE k ≫= c) (be_encode n v) b.
Proof. intros. eapply reads_io_last; [by apply reads_io_be | done]. Qed.

(** Dispatch on the first byte. *)
Lemma reads_io_first {B} n b (c : Z -> io D B) bs a :
  reads_io n (c b) bs a -> 0 <= n -> reads_io n (readByte ≫= c) (b :: bs) a.
Proof. intros. eapply (reads_io_bind 0 n _ _ [b]); [apply reads_io_byte | done | zlen_lia]. Qed.

(** Looking at the next byte leaves it to be read. *)
Lemma peekByte_reads s b post : holds s (b :: post) ->
  exists s', peekByte s = Ret (Done b, s') /\ advanced s s' 0 (b :: post).
Proof.
  intros (d & Hd & Hh & Hs & Hb & Hp & Hlim & Hmax & Hrem).
  unfold peekByte, ensurePeekCached, advanced. unfold mbind, io_bind at 1.
  destruct (s.(hasPeekByte)) eqn:Epk.
  - injection Hrem as <- Hrem. exists s. split; [done |]. split; [| lia].
    exists d. rewrite Epk. simpl. by rewrite Hrem.
  - pose proof (zlen_nonneg post). rewrite Hd, Hs. cbn [isOk negb]. rewrite zlen_cons in Hlim.
    test_false. cbn [peekLoop].
    destruct (read_delivers 1 d) as (bs & d' & -> & Hh' & Hk & Hpk & Hne); [lia | done |].
    simpl in Hrem. rewrite Hrem in Hpk, Hne.
    destruct bs as [| b' bs]; [by specialize (Hne eq_refl) |].
    assert (bs = []) as -> by (apply zlen_0_nil; zlen_lia). injection Hpk as <- Hpk.
    eexists. split; [reflexivity |]. cbn. split; [| lia].
    exists d'. cbn. rewrite zlen_cons. repeat split; try done; try lia. by rewrite Hpk.
Qed.

Lemma reads_io_precond {A} n (m : io D A) bs a : reads_io n m bs a -> reads_io n (precond m) bs a.
Proof.
  intros H s post Hs Hp. destruct (H s post Hs Hp) as (s' & E & Hs').
  exists s'. split; [| done]. destruct Hs as (d & Hd & _ & Ho & _).
  unfold precond. by rewrite Hd, Ho.
Qed.

Lemma reads_io_length len : 0 <= len <= INT_MAX -> reads_io len (checkLength len) [] len.
Proof.
  intros Hl s post Hs Hp. pose proof Hs as (d & _ & _ & _ & _ & Hpos & Hlim & _).
  exists s. unfold checkLength, lengthFitsRemaining. simpl in Hlim.
  replace (len >? INT_MAX) with false by lia. test_true. split; [done |]. split; [done |].
  rewrite zlen_nil. lia.
Qed.
End Reading.

(** ** The bytes of integers *)

Definition wire_u8 (v : Z) : list Z := if v <=? POSITIVE_FIXINT then [v] else [UINT8; v].
Definition wire_u16 (v : Z) : list Z := if v <=? 0xff then wire_u8 v else UINT16 :: be_encode 2 v.
Definition wire_u32 (v : Z) : list Z :=
  if v <=? 0xffff then wire_u16 v else UINT32 :: be_encode 4 v.
Definition wire_u64 (v : Z) : list Z :=
  if v <=? 0xffffffff then wire_u32 v else UINT64 :: be_encode 8 v.

Definition wire_i8 (v : Z) : list Z := if -32 <=? v then [u8 v] else [INT8; u8 v].
Definition wire_i16 (v : Z) : list Z :=
  if (-0x80 <=? v) && (v <=? 0x7f) then wire_i8 v
  else if (0x7f <=? v) && (v <=? 0xff) then [UINT8; u8 v]
  else (if v >? 0 then UINT16 else INT16) :: be_encode 2 v.
Definition wire_i32 (v : Z) : list Z :=
  if (-0x8000 <=? v) && (v <=? 0x7fff) then wire_i16 v
  else if (0x7fff <=? v) && (v <=? 0xffff) then UINT16 :: be_encode 2 v
  else (if v >? 0 then UINT32 else INT32) :: be_encode 4 v.
Definition wire_i64 (v : Z) : list Z :=
  if (-0x80000000 <=? v) && (v <=? 0x7fffffff) then wire_i32 v
  else if (0x7fffffff <=? v) && (v <=? 0xffffffff) then UINT32 :: be_encode 4 v
  else (if v >? 0 then UINT64 else INT64) :: be_encode 8 v.

(** ** The bytes of headers *)

Definition wire_array (len : Z) : list Z :=
  if len <=? 15 then [Z.lor FIXARRAY len]
  else if len <=? 0xffff then ARRAY16 :: be_encode 2 len
  else ARRAY32 :: be_encode 4 len.

Definition wire_map (len : Z) : list Z :=
  if len <=? 15 then [Z.lor FIXMAP len]
  else if len <=? 0xffff then MAP16 :: be_encode 2 len
  else MAP32 :: be_encode 4 len.

Definition wire_ext (len msgpackType : Z) : list Z :=
  if len =? 1 then [FIXEXT1; msgpackType]
  else if len =? 2 then [FIXEXT2; msgpackType]
  else if len =? 4 then [FIXEXT4; msgpackType]
  else if len =? 8 then [FIXEXT8; msgpackType]
  else if len =? 16 then [FIXEX16; msgpackType]
  else if len <=? 0xff then [EXT8; u8 len; msgpackType]
  else if len <=? 0xffff then EXT16 :: be_encode 2 len ++ [msgpackType]
  else EXT32 :: be_encode 4 len ++ [msgpackType].

Definition wire_strlen (len : Z) : list Z :=
  if len <=? 31 then [Z.lor FIXSTR len]
  else if len <=? 0xff then [STR8; len]
  else if len <=? 0xffff then STR16 :: be_encode 2 len
  else STR32 :: be_encode 4 len.

Definition wire_binlen (len : Z) : list Z :=
  if len <=? 0xff then [BIN8; len]
  else if len <=? 0xffff then BIN16 :: be_encode 2 len
  else BIN32 :: be_encode 4 len.

Section Integers.
Context {D : Type} `{F : FileLike D} `{R : !ReadContract D}.

Lemma wraps_mod w v : 0 < w -> in_s w v -> wraps w (v mod 2 ^ w) = v.
Proof.
  intros Hw Hv. unfold in_s, wraps in *.
  rewrite Zplus_mod_idemp_l, Z.mod_small; [lia |].
  replace (2 ^ w) with (2 * 2 ^ (w - 1)); [lia |]. rewrite <- Z.pow_succ_r by lia. f_equal. lia.
Qed.

Lemma reads_byte_ret b : reads_io 0 (v ← readByte; mret v) [b] b.
Proof. eapply reads_io_last; [apply reads_io_byte | apply reads_io_ret]. Qed.

Lemma reads_s8_ret v : -128 <= v <= 127 -> reads_io 0 (x ← readByte; mret (s8 x)) [u8 v] v.
Proof.
  intros Hv. eapply reads_io_last; [apply reads_io_byte |]. unfold wrapu.
  rewrite wraps_mod by (unfold in_s; lia). apply reads_io_ret.
Qed.

Lemma reads_signed_be k n w v : k = Z.of_nat n -> (n <= 8)%nat -> (0 < n)%nat -> w = 8 * k ->
  in_s w v -> reads_io 0 (x ← readBE k; mret (wraps w x)) (be_encode n v) v.
Proof.
  intros -> Hn Hn' -> Hv.
  apply (reads_io_be_then _ n v (v mod 256 ^ Z.of_nat n)); [done | done | done |].
  rewrite <- pow2_8, wraps_mod; [apply reads_io_ret | lia | done].
Qed.

Lemma reads_unsigned_be k n v : k = Z.of_nat n -> (n <= 8)%nat -> 0 <= v < 256 ^ k ->
  reads_io 0 (readBE k) (be_encode n v) v.
Proof. intros. apply reads_io_be; [done | done |]. by apply Z.mod_small. Qed.

Ltac int_read :=
  lazymatch goal with
  | |- reads_io _ (readBE _) _ _ => apply reads_unsigned_be; [done | lia | lia]
  | |- reads_io _ (readBE _ ≫= fun x => mret _) _ _ =>
      apply reads_signed_be; [done | lia | lia | done | unfold in_s; lia]
  | |- _ => idtac
  end.

Lemma reads_fixint v : 0 <= v <= 127 -> reads_io 0 unpack_ulonglong [v] v.
Proof.
  intros. unfold unpack_ulonglong. apply reads_io_first; [| done].
  unfold POSITIVE_FIXINT. test_true. apply reads_io_ret.
Qed.

Lemma reads_ulonglong v : 0 <= v < 2 ^ 64 -> reads_io 0 unpack_ulonglong (wire_u64 v) v.
Proof.
  intros Hv. unfold wire_u64, wire_u32, wire_u16, wire_u8.
  repeat case_test; unfold POSITIVE_FIXINT in *; [apply reads_fixint; lia | ..];
    unfold unpack_ulonglong; (apply reads_io_first; [| done]); byte_tests; int_read.
  apply reads_byte_ret.
Qed.

Lemma reads_i8_fix v : -32 <= v <= 127 -> reads_io 0 unpack_longlong [u8 v] v.
Proof.
  intros Hv. unfold unpack_longlong. apply reads_io_first; [| done]. cbv beta.
  destruct (Z.lt_ge_cases v 0).
  - assert (Hw : u8 v = v + 256).
    { unfold wrapu. rewrite <- (Z.mod_add v 1) by done. change (1 * 2 ^ 8) with 256.
      apply Z.mod_small. lia. }
    unfold POSITIVE_FIXINT, NEGATIVE_FIXINT.
    replace (u8 v <=? 127) with false by lia. replace (u8 v >=? 224) with true by lia.
    unfold wrapu. rewrite wraps_mod by (unfold in_s; lia). apply reads_io_ret.
  - assert (Hw : u8 v = v) by (apply Z.mod_small; lia). rewrite Hw.
    unfold POSITIVE_FIXINT. test_true. apply reads_io_ret.
Qed.

Lemma reads_i8 v : -128 <= v <= 127 -> reads_io 0 unpack_longlong (wire_i8 v) v.
Proof.
  intros Hv. unfold wire_i8. case_test; [apply reads_i8_fix; lia |].
  unfold unpack_longlong. apply reads_io_first; [| done]. byte_tests. by apply reads_s8_ret.
Qed.

Lemma reads_longlong v : - 2 ^ 63 <= v < 2 ^ 63 -> reads_io 0 unpack_longlong (wire_i64 v) v.
Proof.
  intros Hv. unfold wire_i64, wire_i32, wire_i16.
  repeat case_test; try lia; try (apply reads_i8; lia);
    unfold unpack_longlong; (apply reads_io_first; [| done]); byte_tests; int_read.
  - assert (Hw : u8 v = v) by (apply Z.mod_small; lia). rewrite Hw. apply reads_byte_ret.
  - apply (reads_io_be_then _ 8 v v); [done | lia | apply Z.mod_small; lia |].
    replace (v >? 2 ^ 63 - 1) with false by lia. apply reads_io_ret.
Qed.

(** A narrowed read. *)
Lemma reads_narrow lo hi (m : io D Z) bs v :
  reads_io 0 m bs v -> lo <= v <= hi -> reads_io 0 (narrow lo hi m) bs v.
Proof.
  intros Hm Hv. unfold narrow. eapply reads_io_last; [done |]. cbv beta. test_true.
  apply reads_io_ret.
Qed.

(** ** Headers and payloads *)

Lemma reads_be_length n len : 0 <= len <= INT_MAX -> (n <= 8)%nat -> len < 256 ^ Z.of_nat n ->
  reads_io len (l ← readBE (Z.of_nat n); checkLength l) (be_encode n len) len.
Proof.
  intros Hl Hn Hlt. rewrite <- (app_nil_r (be_encode n len)).
  apply (reads_io_bind 0 len _ _ _ [] len).
  - by apply reads_unsigned_be; [done | done | lia].
  - by apply reads_io_length.
  - change (zlen (@nil Z)) with 0. lia.
Qed.

Lemma reads_array_header len : 0 <= len <= INT_MAX ->
  reads_io len readArrayHeader (wire_array len) len.
Proof.
  intros Hl. unfold wire_array, readArrayHeader. repeat case_test;
    (apply reads_io_first; [| lia]); cbv beta.
  - change FIXARRAY with (9 * 2 ^ 4). rewrite lor_high by lia. test_true.
    change 15 with (Z.ones 4). rewrite Z.land_ones, Z.add_comm, Z.mod_add, Z.mod_small by lia.
    by apply reads_io_length.
  - byte_tests. apply (reads_be_length 2); unfold INT_MAX in *; lia.
  - byte_tests. apply (reads_be_length 4); unfold INT_MAX in *; lia.
Qed.

Lemma reads_map_header len : 0 <= len <= INT_MAX ->
  reads_io len readMapHeader (wire_map len) len.
Proof.
  intros Hl. unfold wire_map, readMapHeader. repeat case_test;
    (apply reads_io_first; [| lia]); cbv beta.
  - change FIXMAP with (8 * 2 ^ 4). rewrite lor_high by lia. test_true.
    change 15 with (Z.ones 4). rewrite Z.land_ones, Z.add_comm, Z.mod_add, Z.mod_small by lia.
    by apply reads_io_length.
  - byte_tests. apply (reads_be_length 2); unfold INT_MAX in *; lia.
  - byte_tests. apply (reads_be_length 4); unfold INT_MAX in *; lia.
Qed.

Lemma reads_ext_tail len ty (m : io D (Z * Z)) bs : 0 <= len <= INT_MAX ->
  reads_io 0 m bs (len, ty) ->
  reads_io len ('(l, t) ← m; l ← checkLength l; mret (l, t)) bs (len, ty).
Proof.
  intros Hl Hm. rewrite <- (app_nil_r bs). apply (reads_io_bind 0 len _ _ _ [] (len, ty)).
  - done.
  - apply (reads_io_bind len len _ _ [] [] len).
    + by apply reads_io_length.
    + intros s post Hs _. apply reads_io_ret; [done |]. apply zlen_nonneg.
    + change (zlen (@nil Z)) with 0. lia.
  - change (zlen (@nil Z)) with 0. lia.
Qed.

Lemma reads_then_type (m : io D Z) bs len ty :
  reads_io 0 m bs len -> reads_io 0 (l ← m; t ← readByte; mret (l, t)) (bs ++ [ty]) (len, ty).
Proof.
  intros Hm. apply (reads_io_bind 0 0 _ _ _ _ len); [done | | done].
  eapply reads_io_last; [apply reads_io_byte | apply reads_io_ret].
Qed.

Lemma reads_ext_header len ty : 0 <= len <= INT_MAX ->
  reads_io len readExtHeader (wire_ext len ty) (len, ty).
Proof.
  intros Hl. apply reads_io_precond.
  unfold wire_ext. repeat case_test; subst; (apply reads_io_first; [| lia]); byte_tests;
    (apply reads_ext_tail; [done |]).
  1-5: eapply reads_io_last; [apply reads_io_byte | apply reads_io_ret].
  - change [u8 len; ty] with ([u8 len] ++ [ty]). replace (u8 len) with len.
    + apply reads_then_type, reads_io_byte.
    + symmetry. apply Z.mod_small. lia.
  - apply reads_then_type. apply reads_unsigned_be; [done | lia | lia].
  - apply reads_then_type. apply reads_unsigned_be; [done | lia | unfold INT_MAX in *; lia].
Qed.

Lemma reads_payload bs : zlen bs <= INT_MAX -> reads_io 0 (readPayload (zlen bs)) bs bs.
Proof.
  intros Hl s post Hs Hp. pose proof Hs as (d & _ & _ & _ & _ & Hpos & Hlim & _).
  unfold readPayload, lengthFitsRemaining. rewrite zlen_app in Hlim. pose proof (zlen_nonneg bs).
  replace (zlen bs >? INT_MAX) with false by lia.
  replace (s.(pos) <=? s.(limit)) with true by lia.
  replace (zlen bs <=? s.(limit) - s.(pos)) with true by lia. cbn [andb negb].
  case_test; [by apply reads_io_raw |].
  destruct bs; [| zlen_lia]. by apply reads_io_ret.
Qed.

Lemma reads_string bs : zlen bs <= INT_MAX ->
  reads_io 0 unpackString (wire_strlen (zlen bs) ++ bs) bs.
Proof.
  intros Hl. pose proof (zlen_nonneg bs). unfold wire_strlen, unpackString.
  pose proof (reads_payload bs Hl) as Hp.
  repeat case_test; cbn [app]; (apply reads_io_first; [| done]); cbv beta.
  - change FIXSTR with (5 * 2 ^ 5). rewrite lor_high by lia. test_true.
    replace (5 * 2 ^ 5 + zlen bs - 5 * 2 ^ 5) with (zlen bs) by lia.
    apply (reads_io_bind 0 0 _ _ [] bs (zlen bs)); [apply reads_io_ret | done | lia].
  - byte_tests. apply (reads_io_bind 0 0 _ _ [_] bs (zlen bs)); [apply reads_io_byte | done | lia].
  - byte_tests. apply (reads_io_bind 0 0 _ _ _ bs (zlen bs)); [| done | lia].
    apply reads_unsigned_be; [done | lia | lia].
  - byte_tests. apply (reads_io_bind 0 0 _ _ _ bs (zlen bs)); [| done | lia].
    apply reads_unsigned_be; [done | lia | unfold INT_MAX in *; lia].
Qed.

Lemma reads_bin bs : zlen bs <= INT_MAX ->
  reads_io 0 unpackBin (wire_binlen (zlen bs) ++ bs) bs.
Proof.
  intros Hl. pose proof (zlen_nonneg bs). unfold wire_binlen, unpackBin.
  pose proof (reads_payload bs Hl) as Hp.
  repeat case_test; cbn [app]; (apply reads_io_first; [| done]); byte_tests.
  - apply (reads_io_bind 0 0 _ _ [_] bs (zlen bs)); [apply reads_io_byte | done | lia].
  - apply (reads_io_bind 0 0 _ _ _ bs (zlen bs)); [| done | lia].
    apply reads_unsigned_be; [done | lia | lia].
  - apply (reads_io_bind 0 0 _ _ _ bs (zlen bs)); [| done | lia].
    apply reads_unsigned_be; [done | lia | unfold INT_MAX in *; lia].
Qed.
End Integers.

(** ** Writing *)

Section Writing.
Context {D : Type} `{F : FileLike D} `{W : !WriteContract D}.

(** The stream is in order and its device takes [n] more bytes. *)
Definition takes (s : Stream D) (d : D) (n : Z) : Prop :=
  s.(dev) = Some d /\ s.(status) = Ok /\ room d n.

(** The device went from [d] to [d'] by taking [bs]. *)
Definition appended (d d' : D) (n : Z) (bs : list Z) : Prop :=
  written d' = written d ++ bs /\ room d' (n - zlen bs).

Definition writes_io (m : io D unit) (bs : list Z) : Prop :=
  forall s d n, takes s d n -> zlen bs <= n ->
    exists d', m s = Ret (Done tt, set_dev d' s) /\ appended d d' n bs.

Definition writes (m : Stream D -> result (Stream D)) (bs : list Z) : Prop :=
  forall s d n, takes s d n -> zlen bs <= n ->
    exists d', m s = Ret (set_dev d' s) /\ appended d d' n bs.

Lemma takes_ready s d n : takes s d n -> ready s = true.
Proof. intros (Hd & Hs & _). unfold ready. by rewrite Hd, Hs. Qed.

Lemma writes_io_raw bs : is_bytes bs -> zlen bs <= INT_MAX -> writes_io (writeRawBytes bs) bs.
Proof.
  intros Hb Hl s d n (Hd & Hs & Hr) Hn. unfold writeRawBytes. rewrite Hs, Hd. cbn [isOk negb].
  destruct bs as [| b bs].
  { exists d. cbn. split; [done |]. split; [by rewrite app_nil_r |]. by rewrite Z.sub_0_r. }
  destruct (write_conforms n (b :: bs) d) as (d' & E & Ha & Hr'); [done.. |].
  exists d'. split; [| done]. cbn [length writeLoop].
  assert (0 < zlen (b :: bs)) by zlen_lia. test_false. unfold INT_MAX in *.
  rewrite BytesIO.s32_id by lia. test_false. rewrite zlen_to_nat, take_ge, E by lia.
  cbn [mbind result_bind]. test_false.
  rewrite Z.sub_diag. by destruct (length bs).
Qed.

Lemma writes_io_bind (m1 m2 : io D unit) bs1 bs2 :
  writes_io m1 bs1 -> writes_io m2 bs2 -> writes_io (_ ← m1; m2) (bs1 ++ bs2).
Proof.
  intros H1 H2 s d n (Hd & Hs & Hr) Hn. rewrite zlen_app in Hn.
  destruct (H1 s d n) as (d1 & E1 & Ha1 & Hr1); [done | zlen_lia |].
  destruct (H2 (set_dev d1 s) d1 (n - zlen bs1)) as (d2 & E2 & Ha2 & Hr2); [done | lia |].
  exists d2. unfold mbind, io_bind. rewrite E1, E2. split; [done |]. split.
  - by rewrite Ha2, Ha1, app_assoc.
  - rewrite zlen_app. by replace (n - (zlen bs1 + zlen bs2)) with (n - zlen bs1 - zlen bs2) by lia.
Qed.

Lemma writes_io_precond m bs : writes_io m bs -> writes_io (precond m) bs.
Proof.
  intros H s d n Ht Hn. destruct (H s d n Ht Hn) as (d' & E & Ha). exists d'. split; [| done].
  destruct Ht as (Hd & Hs & _). unfold precond. by rewrite Hd, Hs.
Qed.

Lemma writes_io_thenOk m bs : writes_io m bs -> writes_io (thenOk m) bs.
Proof.
  intros H s d n Ht Hn. destruct (H s d n Ht Hn) as (d' & E & Ha). exists d'. split; [| done].
  unfold thenOk. rewrite E. cbn. destruct Ht as (_ & -> & _). done.
Qed.

Lemma writes_ignore m bs : writes_io m bs -> writes (ignore m) bs.
Proof.
  intros H s d n Ht Hn. destruct (H s d n Ht Hn) as (d' & E & Ha). exists d'. split; [| done].
  unfold ignore. by rewrite E.
Qed.

Lemma writes_seq (m1 m2 : Stream D -> result (Stream D)) bs1 bs2 :
  writes m1 bs1 -> writes m2 bs2 -> writes (fun s => s ← m1 s; m2 s) (bs1 ++ bs2).
Proof.
  intros H1 H2 s d n (Hd & Hs & Hr) Hn. rewrite zlen_app in Hn.
  destruct (H1 s d n) as (d1 & E1 & Ha1 & Hr1); [done | zlen_lia |].
  destruct (H2 (set_dev d1 s) d1 (n - zlen bs1)) as (d2 & E2 & Ha2 & Hr2); [done | lia |].
  exists d2. rewrite E1. cbn [mbind result_bind]. rewrite E2. split; [done |]. split.
  - by rewrite Ha2, Ha1, app_assoc.
  - rewrite zlen_app. by replace (n - (zlen bs1 + zlen bs2)) with (n - zlen bs1 - zlen bs2) by lia.
Qed.

(** A guard that a stream in order passes. *)
Lemma writes_ready (m : Stream D -> result (Stream D)) bs :
  writes m bs -> writes (fun s => if negb (ready s) then Ret s else m s) bs.
Proof. intros H s d n Ht Hn. rewrite (takes_ready _ _ _ Ht). by apply H. Qed.

Lemma writes_if (b : bool) (m1 m2 : Stream D -> result (Stream D)) bs1 bs2 :
  (b = true -> writes m1 bs1) -> (b = false -> writes m2 bs2) ->
  writes (fun s => if b then m1 s else m2 s) (if b then bs1 else bs2).
Proof. destruct b; auto. Qed.
End Writing.
