(* ===== verification/MsgPackRoundTrip.v ===== *)
(** * MessagePack round trips

    [Packs P] is what an element type promises to the containers: the bytes of
    every value it can pack, that its writer appends exactly these bytes to any
    device, and that its reader turns them back into the value.  The instances
    follow the operators, so that a nested type is covered by resolution. *)

From S2P Require Import Prelude FileLike MsgPack MsgPackTypes MsgPackProofs.

(** An operator consumes [bs] and stores [a], whatever was stored before. *)
Definition reads_op {A D} `{F : FileLike D} `{R : !ReadContract D}
    (rd : A -> Stream D -> result (A * Stream D)) (bs : list Z) (a : A) : Prop :=
  forall old s post, holds s (bs ++ post) ->
    exists s', rd old s = Ret (a, s') /\ advanced s s' (zlen bs) post.

Class Packs {A : Type} (P : Packer A) : Type := {
  wire : A -> list Z;
  packable : A -> Prop;
  wire_bytes a : packable a -> is_bytes (wire a) /\ 0 < zlen (wire a);
  pack_writes a {D} `{F : FileLike D} `{W : !WriteContract D} :
    packable a -> writes (P.(p_write) a) (wire a);
  pack_reads a {D} `{F : FileLike D} `{R : !ReadContract D} :
    packable a -> reads_op P.(p_read) (wire a) a
}.
Arguments wire {A} P {Packs}.
Arguments packable {A} P {Packs}.

Lemma reads_assign {A D} `{F : FileLike D} `{R : !ReadContract D} (m : io D A) bs a :
  reads_io 0 m bs a -> reads_op (assign m) bs a.
Proof.
  intros H old s post Hs. destruct (H s post Hs (zlen_nonneg post)) as (s' & E & Ha).
  exists s'. unfold assign. by rewrite E.
Qed.

(** ** Booleans and numbers *)

Lemma wire_u8_bytes v : 0 <= v < 2 ^ 8 -> is_bytes (wire_u8 v) /\ 0 < zlen (wire_u8 v).
Proof.
  intros Hv. unfold wire_u8. case_test; split; try done;
    repeat (apply is_bytes_cons; [unfold is_byte, UINT8; lia |]); apply is_bytes_nil.
Qed.

Lemma cons_bytes b n v : is_byte b -> is_bytes (b :: be_encode n v) /\ 0 < zlen (b :: be_encode n v).
Proof. intros. split; [auto with qtng | zlen_lia]. Qed.

Ltac first_byte := unfold is_byte; closed_lia.

Lemma wire_u64_bytes v : 0 <= v < 2 ^ 64 -> is_bytes (wire_u64 v) /\ 0 < zlen (wire_u64 v).
Proof.
  intros Hv. unfold wire_u64, wire_u32, wire_u16.
  repeat case_test; try (apply cons_bytes; first_byte). apply wire_u8_bytes. lia.
Qed.

Lemma wire_i64_bytes v : is_bytes (wire_i64 v) /\ 0 < zlen (wire_i64 v).
Proof.
  unfold wire_i64, wire_i32, wire_i16, wire_i8, wrapu.
  repeat case_test; try (apply cons_bytes; first_byte); split; try done;
    repeat (apply is_bytes_cons; [first [first_byte | unfold is_byte; dm_lia] |]); apply is_bytes_nil.
Qed.

(** The narrower operators produce the bytes of the widest one. *)
Lemma wire_u8_u64 v : v < 2 ^ 8 -> wire_u64 v = wire_u8 v.
Proof. intros. unfold wire_u64, wire_u32, wire_u16. by repeat test_true. Qed.
Lemma wire_u16_u64 v : v < 2 ^ 16 -> wire_u64 v = wire_u16 v.
Proof. intros. unfold wire_u64, wire_u32. by repeat test_true. Qed.
Lemma wire_u32_u64 v : v < 2 ^ 32 -> wire_u64 v = wire_u32 v.
Proof. intros. unfold wire_u64. by test_true. Qed.
Lemma wire_i8_i64 v : in_s 8 v -> wire_i64 v = wire_i8 v.
Proof. unfold in_s. intros. unfold wire_i64, wire_i32, wire_i16. by repeat test_true. Qed.
Lemma wire_i16_i64 v : in_s 16 v -> wire_i64 v = wire_i16 v.
Proof. unfold in_s. intros. unfold wire_i64, wire_i32. by repeat test_true. Qed.
Lemma wire_i32_i64 v : in_s 32 v -> wire_i64 v = wire_i32 v.
Proof. unfold in_s. intros. unfold wire_i64. by test_true. Qed.

Section Writers.
Context {D : Type} `{F : FileLike D} `{W : !WriteContract D}.

Lemma writes_raw_ignore bs : is_bytes bs -> zlen bs <= INT_MAX -> writes (ignore (writeRawBytes bs)) bs.
Proof. intros. by apply writes_ignore, writes_io_raw. Qed.

Lemma writes_be b n v : is_byte b -> (n <= 8)%nat ->
  writes (ignore (writeRawBytes (b :: be_encode n v))) (b :: be_encode n v).
Proof.
  intros. apply writes_raw_ignore; [by apply cons_bytes |].
  rewrite zlen_cons, zlen_be_encode. unfold INT_MAX. lia.
Qed.

Lemma writes_u8 v : 0 <= v < 2 ^ 8 -> writes (write_u8 v) (wire_u8 v).
Proof.
  intros Hv. apply writes_ignore, writes_io_precond, writes_io_raw; [by apply wire_u8_bytes |].
  unfold wire_u8. by case_test.
Qed.

Lemma writes_u16 v : 0 <= v < 2 ^ 16 -> writes (write_u16 v) (wire_u16 v).
Proof.
  intros Hv. apply writes_ready, writes_if; intros; bool_to_prop.
  - apply writes_u8. lia.
  - apply writes_be; [first_byte | lia].
Qed.

Lemma writes_u32 v : 0 <= v < 2 ^ 32 -> writes (write_u32 v) (wire_u32 v).
Proof.
  intros Hv. apply writes_ready, writes_if; intros; bool_to_prop.
  - apply writes_u16. lia.
  - apply writes_be; [first_byte | lia].
Qed.

Lemma writes_u64 v : 0 <= v < 2 ^ 64 -> writes (write_u64 v) (wire_u64 v).
Proof.
  intros Hv. apply writes_ready, writes_if; intros; bool_to_prop.
  - apply writes_u32. lia.
  - apply writes_be; [first_byte | lia].
Qed.

Lemma writes_i8 v : in_s 8 v -> writes (write_i8 v) (wire_i8 v).
Proof.
  intros Hv. apply writes_ignore, writes_io_precond.
  replace (if -32 <=? v then _ else _) with (wire_i8 v).
  - apply writes_io_raw; [rewrite <- wire_i8_i64 by done; apply wire_i64_bytes |].
    unfold wire_i8. by case_test.
  - unfold wire_i8. case_test; [done |]. by test_false.
Qed.

Lemma writes_signed_be (b : bool) x y n v : is_byte x -> is_byte y -> (n <= 8)%nat ->
  writes (ignore (writeRawBytes ((if b then x else y) :: be_encode n v)))
    ((if b then x else y) :: be_encode n v).
Proof. intros. apply writes_be; [by destruct b | done]. Qed.

Lemma writes_i16 v : in_s 16 v -> writes (write_i16 v) (wire_i16 v).
Proof.
  intros Hv. apply writes_ready, writes_if; intros; [| apply writes_if; intros]; bool_to_prop.
  - apply writes_i8. unfold in_s. lia.
  - apply writes_raw_ignore; [| done]. unfold wrapu.
    apply is_bytes_cons; [first_byte | auto with qtng].
  - apply writes_signed_be; [first_byte | first_byte | lia].
Qed.

Lemma writes_i32 v : in_s 32 v -> writes (write_i32 v) (wire_i32 v).
Proof.
  intros Hv. apply writes_ready, writes_if; intros; [| apply writes_if; intros]; bool_to_prop.
  - apply writes_i16. unfold in_s. lia.
  - apply writes_be; [first_byte | lia].
  - apply writes_signed_be; [first_byte | first_byte | lia].
Qed.

Lemma writes_i64 v : in_s 64 v -> writes (write_i64 v) (wire_i64 v).
Proof.
  intros Hv. apply writes_ready, writes_if; intros; [| apply writes_if; intros]; bool_to_prop.
  - apply writes_i32. unfold in_s. lia.
  - apply writes_be; [first_byte | lia].
  - apply writes_signed_be; [first_byte | first_byte | lia].
Qed.
End Writers.

(** The integer types: all have the wire format of the widest one. *)

#[export, refine] Instance u8_packs : Packs u8_packer :=
  {| wire := wire_u64; packable v := in_u 8 v |}.
Proof.
  all: unfold in_u.
  - intros a Ha. apply wire_u64_bytes. lia.
  - intros a D F W Ha. rewrite wire_u8_u64 by lia. by apply writes_u8.
  - intros a D F R Ha. apply reads_assign, reads_io_precond, reads_narrow; [apply reads_ulonglong |]; lia.
Defined.

#[export, refine] Instance u16_packs : Packs u16_packer :=
  {| wire := wire_u64; packable v := in_u 16 v |}.
Proof.
  all: unfold in_u.
  - intros a Ha. apply wire_u64_bytes. lia.
  - intros a D F W Ha. rewrite wire_u16_u64 by lia. by apply writes_u16.
  - intros a D F R Ha. apply reads_assign, reads_io_precond, reads_narrow; [apply reads_ulonglong |]; lia.
Defined.

#[export, refine] Instance u32_packs : Packs u32_packer :=
  {| wire := wire_u64; packable v := in_u 32 v |}.
Proof.
  all: unfold in_u.
  - intros a Ha. apply wire_u64_bytes. lia.
  - intros a D F W Ha. rewrite wire_u32_u64 by lia. by apply writes_u32.
  - intros a D F R Ha. apply reads_assign, reads_io_precond, reads_narrow; [apply reads_ulonglong |]; lia.
Defined.

#[export, refine] Instance u64_packs : Packs u64_packer :=
  {| wire := wire_u64; packable v := in_u 64 v |}.
Proof.
  all: unfold in_u.
  - intros a Ha. apply wire_u64_bytes. lia.
  - intros a D F W Ha. by apply writes_u64.
  - intros a D F R Ha. by apply reads_assign, reads_io_precond, reads_ulonglong.
Defined.

#[export, refine] Instance i8_packs : Packs i8_packer :=
  {| wire := wire_i64; packable v := in_s 8 v |}.
Proof.
  - intros a Ha. apply wire_i64_bytes.
  - intros a D F W Ha. rewrite wire_i8_i64 by done. by apply writes_i8.
  - intros a D F R Ha. unfold in_s in Ha. apply reads_assign, reads_io_precond, reads_narrow; [apply reads_longlong |]; lia.
Defined.

#[export, refine] Instance i16_packs : Packs i16_packer :=
  {| wire := wire_i64; packable v := in_s 16 v |}.
Proof.
  - intros a Ha. apply wire_i64_bytes.
  - intros a D F W Ha. rewrite wire_i16_i64 by done. by apply writes_i16.
  - intros a D F R Ha. unfold in_s in Ha. apply reads_assign, reads_io_precond, reads_narrow; [apply reads_longlong |]; lia.
Defined.

#[export, refine] Instance i32_packs : Packs i32_packer :=
  {| wire := wire_i64; packable v := in_s 32 v |}.
Proof.
  - intros a Ha. apply wire_i64_bytes.
  - intros a D F W Ha. rewrite wire_i32_i64 by done. by apply writes_i32.
  - intros a D F R Ha. unfold in_s in Ha. apply reads_assign, reads_io_precond, reads_narrow; [apply reads_longlong |]; lia.
Defined.

#[export, refine] Instance i64_packs : Packs i64_packer :=
  {| wire := wire_i64; packable v := in_s 64 v |}.
Proof.
  - intros a Ha. apply wire_i64_bytes.
  - intros a D F W Ha. by apply writes_i64.
  - intros a D F R Ha. unfold in_s in Ha. by apply reads_assign, reads_io_precond, reads_longlong.
Defined.

(** A value between a first byte and a fixed number of big-endian bytes. *)
Lemma reads_tagged_be {D} `{F : FileLike D} `{R : !ReadContract D} tag n v :
  (n <= 8)%nat -> 0 <= v < 256 ^ Z.of_nat n ->
  reads_io 0 (p ← (readByte : io D Z); if negb (p =? tag) then fail ReadCorruptData (None : option Z)
                            else readBE (Z.of_nat n)) (tag :: be_encode n v) v.
Proof.
  intros. apply reads_io_first; [| done]. rewrite Z.eqb_refl. by apply reads_unsigned_be.
Qed.

#[export, refine] Instance float_packs : Packs float_packer :=
  {| wire v := FLOAT32 :: be_encode 4 v; packable v := in_u 32 v |}.
Proof.
  all: unfold in_u.
  - intros a Ha. apply cons_bytes. first_byte.
  - intros a D F W Ha. apply writes_ignore, writes_io_precond, writes_io_raw; [| done].
    by apply cons_bytes; first_byte.
  - intros a D F R Ha. by apply reads_assign, reads_io_precond, (reads_tagged_be _ 4); [lia |].
Defined.

#[export, refine] Instance double_packs : Packs double_packer :=
  {| wire v := FLOAT64 :: be_encode 8 v; packable v := in_u 64 v |}.
Proof.
  all: unfold in_u.
  - intros a Ha. apply cons_bytes. first_byte.
  - intros a D F W Ha. apply writes_ignore, writes_io_precond, writes_io_raw; [| done].
    by apply cons_bytes; first_byte.
  - intros a D F R Ha. by apply reads_assign, reads_io_precond, (reads_tagged_be _ 8); [lia |].
Defined.

#[export, refine] Instance bool_packs : Packs bool_packer :=
  {| wire (b : bool) := [if b then MTRUE else MFALSE]; packable _ := True |}.
Proof.
  - intros [] _; split; done || closed_bytes.
  - intros a D F W _. apply writes_ignore, writes_io_precond, writes_io_raw; [| done].
    destruct a; closed_bytes.
  - intros a D F R _ old s post Hs. cbn [p_read bool_packer]. unfold read_bool.
    rewrite (holds_ready _ _ Hs). cbn [negb].
    destruct (reads_io_byte (if a then MTRUE else MFALSE) s post Hs (zlen_nonneg post)) as (s' & -> & Ha).
    exists s'. split; [| done]. by destruct a.
Defined.

#[export, refine] Instance nil_packs : Packs nil_packer :=
  {| wire _ := [NIL]; packable _ := True |}.
Proof.
  - intros _ _. split; done || closed_bytes.
  - intros a D F W _. apply writes_ignore, writes_io_raw; [closed_bytes | done].
  - intros [] D F R _ old s post Hs. cbn [p_read nil_packer]. unfold read_nil.
    destruct (reads_io_byte NIL s post Hs (zlen_nonneg post)) as (s' & -> & Ha).
    by exists s'.
Defined.

(** ** Strings and extensions *)

Lemma u32_id x : 0 <= x <= INT_MAX -> u32 x = x.
Proof. intros. unfold wrapu, INT_MAX in *. apply Z.mod_small. lia. Qed.

(** The bytes of a header, one by one. *)
Ltac header_bytes :=
  repeat first
    [ apply is_bytes_nil | apply be_encode_bytes | apply is_bytes_app_2
    | apply is_bytes_cons;
      [first [assumption | apply is_byte_mod | unfold is_byte; lia | first_byte] |] ].

Lemma strlen_bytes len : 0 <= len <= INT_MAX ->
  is_bytes (wire_strlen len) /\ 0 < zlen (wire_strlen len) <= 5.
Proof.
  intros Hl. unfold wire_strlen. change FIXSTR with (5 * 2 ^ 5).
  repeat case_test; rewrite ?lor_high by lia;
    (split; [header_bytes | unfold zlen; simpl; lia]).
Qed.

Lemma binlen_bytes len : 0 <= len <= INT_MAX ->
  is_bytes (wire_binlen len) /\ 0 < zlen (wire_binlen len) <= 5.
Proof.
  intros Hl. unfold wire_binlen. repeat case_test;
    (split; [header_bytes | unfold zlen; simpl; lia]).
Qed.

Lemma array_bytes len : 0 <= len <= INT_MAX ->
  is_bytes (wire_array len) /\ 0 < zlen (wire_array len) <= 5.
Proof.
  intros Hl. unfold wire_array. change FIXARRAY with (9 * 2 ^ 4).
  repeat case_test; rewrite ?lor_high by lia;
    (split; [header_bytes | unfold zlen; simpl; lia]).
Qed.

Lemma map_bytes len : 0 <= len <= INT_MAX ->
  is_bytes (wire_map len) /\ 0 < zlen (wire_map len) <= 5.
Proof.
  intros Hl. unfold wire_map. change FIXMAP with (8 * 2 ^ 4).
  repeat case_test; rewrite ?lor_high by lia;
    (split; [header_bytes | unfold zlen; simpl; lia]).
Qed.

Lemma ext_bytes len ty : 0 <= len <= INT_MAX -> is_byte ty ->
  is_bytes (wire_ext len ty) /\ 0 < zlen (wire_ext len ty) <= 6.
Proof.
  intros Hl Hty. unfold wire_ext, wrapu. repeat case_test;
    (split; [header_bytes | unfold zlen; simpl; rewrite ?length_app; simpl; lia]).
Qed.

(** What the three length-prefixed types accept. *)
Definition short_bytes (bs : list Z) : Prop := is_bytes bs /\ zlen bs <= INT_MAX.

#[export, refine] Instance string_packs : Packs string_packer :=
  {| wire bs := wire_strlen (zlen bs) ++ bs; packable := short_bytes |}.
Proof.
  - intros a [Hb Hl]. pose proof (zlen_nonneg a). destruct (strlen_bytes (zlen a)) as [H1 H2]; [lia |].
    split; [auto with qtng | zlen_lia].
  - intros a D F W [Hb Hl]. pose proof (zlen_nonneg a).
    destruct (strlen_bytes (zlen a)) as [H1 H2]; [lia |].
    apply writes_ignore, writes_io_precond. cbv zeta. rewrite u32_id, zlen_to_nat, take_ge by lia.
    apply writes_io_bind; apply writes_io_raw; try done. unfold wire_strlen, INT_MAX in *. lia.
  - intros a D F R [Hb Hl]. by apply reads_assign, reads_string.
Defined.

#[export, refine] Instance bin_packs : Packs bin_packer :=
  {| wire bs := wire_binlen (zlen bs) ++ bs; packable := short_bytes |}.
Proof.
  - intros a [Hb Hl]. pose proof (zlen_nonneg a). destruct (binlen_bytes (zlen a)) as [H1 H2]; [lia |].
    split; [auto with qtng | zlen_lia].
  - intros a D F W [Hb Hl]. pose proof (zlen_nonneg a).
    destruct (binlen_bytes (zlen a)) as [H1 H2]; [lia |].
    apply writes_ignore, writes_io_precond. cbv zeta. unfold INT_MAX, UINT32_MAX in *. test_false.
    apply writes_io_bind; apply writes_io_raw; try done. unfold wire_binlen, INT_MAX in *. lia.
  - intros a D F R [Hb Hl]. by apply reads_assign, reads_bin.
Defined.

(** An extension header and what follows it. *)
Lemma reads_ext_then {D} `{F : FileLike D} `{R : !ReadContract D} s ty payload post :
  zlen payload <= INT_MAX -> holds s ((wire_ext (zlen payload) ty ++ payload) ++ post) ->
  exists s1 s2, readExtHeader s = Ret (Done (zlen payload, ty), s1)
    /\ readRawBytes (zlen payload) s1 = Ret (Done payload, s2)
    /\ advanced s s1 (zlen (wire_ext (zlen payload) ty)) (payload ++ post)
    /\ advanced s s2 (zlen (wire_ext (zlen payload) ty ++ payload)) post.
Proof.
  intros Hl Hs. rewrite <- app_assoc in Hs. pose proof (zlen_nonneg payload).
  destruct (reads_ext_header (zlen payload) ty) with (s := s) (post := payload ++ post)
    as (s1 & E1 & Ha1); [lia | done | zlen_lia |].
  pose proof Ha1 as (Hs1 & Hp1 & Hl1).
  destruct (reads_io_raw payload (zlen payload) eq_refl Hl s1 post Hs1 (zlen_nonneg post))
    as (s2 & E2 & Hs2 & Hp2 & Hl2).
  exists s1, s2. split_and!; try done. rewrite zlen_app. split_and!; [done | lia | congruence].
Qed.

Lemma writes_ext {D} `{F : FileLike D} `{W : !WriteContract D} ty payload :
  is_byte ty -> short_bytes payload ->
  writes_io (_ ← writeExtHeader (u32 (zlen payload)) ty; writeRawBytes payload)
    (wire_ext (zlen payload) ty ++ payload).
Proof.
  intros Hty [Hb Hl]. pose proof (zlen_nonneg payload). rewrite u32_id by lia.
  destruct (ext_bytes (zlen payload) ty) as [H1 H2]; [lia | done |].
  apply writes_io_bind; [| by apply writes_io_raw].
  intros s d n Ht Hn. pose proof Ht as (Hd & Hs & _). unfold writeExtHeader. rewrite Hs, Hd.
  cbn [isOk negb]. apply writes_io_raw; [done | unfold wire_ext, INT_MAX in *; lia | done | done].
Qed.

#[export, refine] Instance ext_packs : Packs ext_packer :=
  {| wire e := wire_ext (zlen e.(ext_payload)) e.(ext_type) ++ e.(ext_payload);
     packable e := is_byte e.(ext_type) /\ short_bytes e.(ext_payload) |}.
Proof.
  - intros [ty p] [Hty [Hb Hl]]. cbn [ext_type ext_payload] in *. pose proof (zlen_nonneg p).
    destruct (ext_bytes (zlen p) ty) as [H1 H2]; [lia | done |].
    split; [auto with qtng | zlen_lia].
  - intros [ty p] D F W [Hty Hp]. by apply writes_ignore, writes_io_precond, writes_ext.
  - intros [ty p] D F R [Hty [Hb Hl]] old s post Hs. cbn [ext_type ext_payload] in *.
    destruct (reads_ext_then s ty p post Hl Hs) as (s1 & s2 & E1 & E2 & Ha1 & Ha2).
    cbn [p_read ext_packer]. unfold read_ext. rewrite E1. cbn [mbind result_bind].
    case_test; [rewrite E2; by exists s2 |].
    destruct p; [| zlen_lia]. exists s1. split; [done |]. by rewrite app_nil_r.
Defined.

(** ** Timestamps *)

(** The time points the format carries: whole milliseconds from 1970 on. *)
Definition stampable (dt : DateTime) : Prop :=
  dt.(valid) = true /\ dt.(local) = false /\ 0 <= dt.(tp) < 2 ^ 63 /\ dt.(tp) mod 1000000 = 0.

Lemma packDatetime_stamp dt : stampable dt ->
  let msecs := dt.(tp) / 1000000 in
  packDatetime dt = be_encode 8 ((msecs mod 1000) * 1000000 * 2 ^ 34 + msecs / 1000)
  /\ 0 <= msecs /\ msecs / 1000 < 2 ^ 34.
Proof.
  intros (Hv & _ & Ht & _) msecs. unfold packDatetime, toMSecsSinceEpoch. rewrite Hv. cbn [negb].
  rewrite Z.quot_div_nonneg by lia. fold msecs.
  assert (Hm : 0 <= msecs < 2 ^ 63) by (subst msecs; dm_lia).
  assert (Hs : 0 <= msecs / 1000 < 2 ^ 34) by (subst msecs; dm_lia).
  assert (Hf : 0 <= (msecs mod 1000) * 1000000 < 2 ^ 30) by dm_lia.
  unfold wrapu. rewrite (Z.mod_small msecs), shiftl_mul by lia.
  rewrite (Z.mod_small (_ * 2 ^ 34)) by lia. rewrite lor_high by lia. split; [done | lia].
Qed.

Lemma unpack_pack dt : stampable dt -> unpackDatetime (packDatetime dt) = Ret dt.
Proof.
  intros Hs. destruct (packDatetime_stamp dt Hs) as (-> & Hm & Hsec).
  destruct Hs as (Hv & Hl & Ht & Hms). set (msecs := dt.(tp) / 1000000) in *.
  unfold unpackDatetime. rewrite zlen_be_encode.
  set (f := (msecs mod 1000) * 1000000) in *.
  assert (Hf : 0 <= f < 2 ^ 30) by (subst f; dm_lia).
  assert (0 <= msecs / 1000) by (subst msecs; dm_lia).
  rewrite be_encode_decode_small by (change (256 ^ Z.of_nat 8) with (2 ^ 64); lia).
  change (Z.of_nat 8 =? 4) with false. change (Z.of_nat 8 =? 8) with true. cbv iota zeta.
  cbn [mbind result_bind]. change 0x3ffffffff with (Z.ones 34).
  rewrite Z.land_ones, shiftr_div by lia.
  rewrite (Z.add_comm (f * _)), Z.mod_add, Z.mod_small by lia.
  rewrite Z.div_add, (Z.div_small (msecs / 1000)), Z.add_0_l by lia.
  assert (Hsum : msecs / 1000 * 1000 + f / 1000000 = msecs).
  { subst f. rewrite Z.div_mul by done. pose proof (Z.div_mod msecs 1000). lia. }
  assert (msecs < 2 ^ 45)
    by (pose proof (Z.div_mod msecs 1000); pose proof (Z.mod_pos_bound msecs 1000); lia).
  unfold wrapu at 2. rewrite (Z.mod_small (_ * 1000)) by lia. rewrite Hsum.
  unfold wrapu. rewrite (Z.mod_small msecs) by lia.
  unfold wraps. rewrite Z.mod_small by lia. unfold fromMSecsSinceEpoch.
  assert (Htp : msecs * 1000000 = dt.(tp)) by (subst msecs; dm_lia).
  replace (msecs + 2 ^ (64 - 1) - 2 ^ (64 - 1)) with msecs by lia. rewrite Htp. test_true.
  clearbody msecs. destruct dt; simpl in *. by subst.
Qed.

#[export, refine] Instance datetime_packs : Packs datetime_packer :=
  {| wire dt := wire_ext 8 0xff ++ packDatetime dt; packable := stampable |}.
Proof.
  - intros dt Hs. destruct (packDatetime_stamp dt Hs) as (-> & _).
    split; [apply is_bytes_app_2; [closed_bytes | auto with qtng] | done].
  - intros dt D F W Hs. cbn [p_write datetime_packer]. destruct (packDatetime_stamp dt Hs) as (E & _).
    apply writes_ignore, writes_io_precond. cbv zeta. rewrite E. set (bs := be_encode _ _).
    assert (Hz : zlen bs = 8) by apply zlen_be_encode. rewrite Hz. cbn [Z.eqb].
    rewrite <- Hz. apply writes_ext; [first_byte |]. split; [apply be_encode_bytes |]. by rewrite Hz.
  - intros dt D F R Hst old s post Hs. cbn [p_read datetime_packer].
    destruct (packDatetime_stamp dt Hst) as (E & _).
    assert (Hz : zlen (packDatetime dt) = 8) by (rewrite E; apply zlen_be_encode).
    destruct (reads_ext_then s 0xff (packDatetime dt) post) as (s1 & s2 & E1 & E2 & _ & Ha2);
      rewrite Hz in *; [done | done |].
    unfold read_datetime. rewrite (holds_ready _ _ Hs), E1. cbn [negb mbind result_bind].
    change (negb (255 =? 255)) with false. change (negb (8 =? 4) && negb (8 =? 8) && _)%bool with false.
    cbv iota zeta. rewrite E2. cbn [mbind result_bind].
    rewrite unpack_pack by done. by exists s2.
Defined.

(** ** Containers *)

Section Vector.
Context {A : Type} (P : Packer A) `{HP : !Packs P}.

Definition wire_items (l : list A) : list Z := concat (map (wire P) l).

Lemma wire_items_bytes l : Forall (packable P) l ->
  is_bytes (wire_items l) /\ zlen l <= zlen (wire_items l).
Proof.
  unfold wire_items. induction 1 as [| a l Ha _ [IHb IHl]]; [split; [apply is_bytes_nil | done] |].
  cbn [map concat].
  destruct (wire_bytes a Ha). split; [auto with qtng | rewrite zlen_app, zlen_cons; lia].
Qed.

Lemma writes_items {D} `{F : FileLike D} `{W : !WriteContract D} l :
  Forall (packable P) l -> writes (writeItems P l) (wire_items l).
Proof.
  unfold wire_items. induction 1 as [| a l Ha _ IH]; cbn [map concat].
  - intros s d n (Hd & Hs & Hr) _. exists d. split; [destruct s; simpl in *; by subst |].
    split; [by rewrite app_nil_r | by rewrite Z.sub_0_r].
  - intros s d n Ht Hn.
    destruct (writes_seq _ _ _ _ (pack_writes a Ha) IH s d n Ht Hn) as (d' & E & Hap).
    exists d'. split; [| done]. rewrite <- E. cbn [writeItems].
    destruct (pack_writes a Ha s d n Ht) as (d1 & E1 & _); [zlen_lia |].
    rewrite E1. cbn [mbind result_bind]. destruct Ht as (_ & Hs & _). cbn. by rewrite Hs.
Qed.

Lemma reads_items {D} `{F : FileLike D} `{R : !ReadContract D} l acc s post :
  Forall (packable P) l -> holds s (wire_items l ++ post) ->
  exists s', readItems P (length l) acc s = Ret (acc ++ l, s')
    /\ advanced s s' (zlen (wire_items l)) post.
Proof.
  intros Hl. revert acc s. induction Hl as [| a l Ha Hl IH]; intros acc s Hs.
  - exists s. rewrite app_nil_r. split; [done |]. split; [done |].
    change (zlen (wire_items [])) with 0. lia.
  - unfold wire_items in *. cbn [map concat] in *. rewrite <- app_assoc in Hs.
    destruct (pack_reads a Ha P.(p_default) s _ Hs) as (s1 & E1 & Hs1 & Hp1 & Hl1).
    cbn [readItems length]. rewrite E1. cbn [mbind result_bind].
    pose proof Hs1 as (d & Hd & _ & Ho & _ & _ & Hlim & _). rewrite Ho. cbn [isOk negb].
    destruct (IH (acc ++ [a]) s1 Hs1) as (s2 & E2 & Hs2 & Hp2 & Hl2).
    rewrite E2, <- app_assoc. cbn [app].
    assert (Hadv : advanced s s2 (zlen (wire P a ++ concat (map (wire P) l))) post).
    { split_and!; [done | rewrite zlen_app; lia | congruence]. }
    unfold atEnd. rewrite Hd. case_test; [| eauto].
    destruct l as [| b l]; [injection E2 as _ <-; by exists s1 |].
    pose proof (Forall_inv Hl) as Hb. destruct (wire_bytes b Hb). cbn [map concat] in Hlim. zlen_lia.
Qed.

#[export, refine] Instance vector_packs : Packs (vector_packer P) :=
  {| wire l := wire_array (zlen l) ++ wire_items l;
     packable l := Forall (packable P) l /\ zlen l <= INT_MAX |}.
Proof.
  - intros l [Hl Hn]. pose proof (zlen_nonneg l). destruct (wire_items_bytes l Hl).
    destruct (array_bytes (zlen l)); [lia |]. split; [auto with qtng | zlen_lia].
  - intros l D F W [Hl Hn]. cbn [p_write vector_packer]. pose proof (zlen_nonneg l).
    destruct (array_bytes (zlen l)) as [Hb Hb']; [lia |].
    assert (Hh : writes_io (writeArrayHeader (u32 (zlen l))) (wire_array (zlen l))).
    { rewrite u32_id by lia. apply writes_io_thenOk. unfold wire_array in *.
      repeat case_test; apply writes_io_raw; try done; unfold INT_MAX in *; lia. }
    intros s d n Ht Hn'. unfold write_vector.
    destruct (writes_seq _ _ _ _ (writes_ignore _ _ Hh) (writes_items l Hl) s d n Ht Hn') as (d' & E & Ha).
    exists d'. split; [| done]. rewrite <- E. unfold ignore.
    destruct (Hh s d n Ht) as (d1 & -> & _); [zlen_lia | done].
  - intros l D F R [Hl Hn] old s post Hs. cbn [p_read vector_packer].
    rewrite <- app_assoc in Hs. pose proof (zlen_nonneg l). destruct (wire_items_bytes l Hl).
    destruct (reads_array_header (zlen l) ltac:(lia) s (wire_items l ++ post) Hs) as (s1 & E1 & Hs1 & Hp1 & Hl1);
      [zlen_lia |].
    destruct (reads_items l [] s1 post Hl Hs1) as (s2 & E2 & Hs2 & Hp2 & Hl2).
    exists s2. unfold read_vector. rewrite E1. cbn [mbind result_bind]. rewrite zlen_to_nat, E2.
    split; [done |]. rewrite zlen_app. split_and!; [done | lia | congruence].
Defined.
End Vector.

Section MapLaws.
Context {K V : Type} (lt : K -> K -> bool) (PK : Packer K) (PV : Packer V).
Context `{HK : !Packs PK} `{HV : !Packs PV}.
(** [operator<] of the key type. *)
Context (lt_asym : forall k k', lt k k' = true -> lt k' k = false).

Definition entry_packable (e : K * V) : Prop := packable PK e.1 /\ packable PV e.2.
Definition wire_entries (m : list (K * V)) : list Z :=
  concat (map (fun e => wire PK e.1 ++ wire PV e.2) m).

(** Entries in strictly increasing key order, each before all the later ones. *)
Fixpoint ordered (m : list (K * V)) : Prop :=
  match m with
  | [] => True
  | e :: m' => Forall (fun e' => lt e.1 e'.1 = true) m' /\ ordered m'
  end.

Lemma emplace_last k (v : V) m : Forall (fun e => lt e.1 k = true) m -> emplace lt k v m = m ++ [(k, v)].
Proof.
  induction 1 as [| [k' v'] m Hk _ IH]; [done |]. cbn [emplace app fst] in *.
  by rewrite (lt_asym _ _ Hk), Hk, IH.
Qed.

Lemma wire_entries_bytes m : Forall entry_packable m ->
  is_bytes (wire_entries m) /\ zlen m <= zlen (wire_entries m).
Proof.
  unfold wire_entries. induction 1 as [| [k v] m [Hk Hv] _ [IHb IHl]];
    [split; [apply is_bytes_nil | done] |].
  cbn [map concat fst snd]. destruct (wire_bytes k Hk), (wire_bytes v Hv).
  split; [auto 6 with qtng | rewrite !zlen_app, zlen_cons; lia].
Qed.

Lemma writes_entries {D} `{F : FileLike D} `{W : !WriteContract D} m :
  Forall entry_packable m -> writes (writeEntries PK PV m) (wire_entries m).
Proof.
  unfold wire_entries. induction 1 as [| [k v] m [Hk Hv] _ IH]; cbn [map concat fst snd].
  - intros s d n (Hd & Hs & Hr) _. exists d. split; [destruct s; simpl in *; by subst |].
    split; [by rewrite app_nil_r | by rewrite Z.sub_0_r].
  - intros s d n Ht Hn. pose proof (writes_seq _ _ _ _ (pack_writes k Hk) (pack_writes v Hv)) as Hkv.
    destruct (writes_seq _ _ _ _ Hkv IH s d n Ht Hn) as (d' & E & Hap).
    exists d'. split; [| done]. rewrite <- E. cbn [writeEntries].
    destruct (Hkv s d n Ht) as (d1 & E1 & _); [zlen_lia |]. rewrite E1.
    destruct (p_write PK k s) as [s1 | | |]; try done. cbn [mbind result_bind] in E1 |- *.
    rewrite E1. cbn [mbind result_bind]. destruct Ht as (_ & Hs & _). cbn. by rewrite Hs.
Qed.

Lemma reads_entries {D} `{F : FileLike D} `{R : !ReadContract D} m acc s post :
  Forall entry_packable m -> ordered (acc ++ m) -> holds s (wire_entries m ++ post) ->
  exists s', readEntries lt PK PV (length m) acc s = Ret (acc ++ m, s')
    /\ advanced s s' (zlen (wire_entries m)) post.
Proof.
  intros Hm. revert acc s. induction Hm as [| [k v] m [Hk Hv] Hm IH]; intros acc s Ho Hs.
  - exists s. rewrite app_nil_r. split; [done |]. split; [done |].
    change (zlen (wire_entries [])) with 0. lia.
  - unfold wire_entries in *. cbn [map concat fst snd] in *. rewrite <- !app_assoc in Hs.
    destruct (pack_reads k Hk PK.(p_default) s _ Hs) as (s1 & E1 & Hs1 & Hp1 & Hl1).
    destruct (pack_reads v Hv PV.(p_default) s1 _ Hs1) as (s2 & E2 & Hs2 & Hp2 & Hl2).
    cbn [readEntries length]. rewrite E1. cbn [mbind result_bind].
    pose proof Hs1 as (? & _ & _ & -> & _). cbn [isOk negb]. rewrite E2. cbn [mbind result_bind].
    pose proof Hs2 as (? & _ & _ & -> & _). cbn [isOk negb].
    rewrite emplace_last.
    + replace (acc ++ (k, v) :: m) with ((acc ++ [(k, v)]) ++ m) in * by (by rewrite <- app_assoc).
      destruct (IH _ s2 Ho Hs2) as (s3 & E3 & Hs3 & Hp3 & Hl3). exists s3. split; [done |].
      rewrite !zlen_app. split_and!; [done | lia | congruence].
    + clear -Ho. induction acc as [| e acc IHa]; [constructor |]. destruct Ho as [He Ho].
      constructor; [| by apply IHa]. rewrite Forall_app in He. apply (Forall_inv (proj2 He)).
Qed.

#[export, refine] Instance map_packs : Packs (map_packer lt PK PV) :=
  {| wire m := wire_map (zlen m) ++ wire_entries m;
     packable m := Forall entry_packable m /\ ordered m /\ zlen m <= INT_MAX |}.
Proof.
  - intros m (Hm & _ & Hn). pose proof (zlen_nonneg m). destruct (wire_entries_bytes m Hm).
    destruct (map_bytes (zlen m)); [lia |]. split; [auto with qtng | zlen_lia].
  - intros m D F W (Hm & _ & Hn). cbn [p_write map_packer]. pose proof (zlen_nonneg m).
    destruct (map_bytes (zlen m)) as [Hb Hb']; [lia |].
    assert (Hh : writes_io (writeMapHeader (u32 (zlen m))) (wire_map (zlen m))).
    { rewrite u32_id by lia. apply writes_io_thenOk. unfold wire_map in *.
      repeat case_test; apply writes_io_raw; try done; unfold INT_MAX in *; lia. }
    intros s d n Ht Hn'. unfold write_map.
    destruct (writes_seq _ _ _ _ (writes_ignore _ _ Hh) (writes_entries m Hm) s d n Ht Hn') as (d' & E & Ha).
    exists d'. split; [| done]. rewrite <- E. unfold ignore.
    destruct (Hh s d n Ht) as (d1 & -> & _); [zlen_lia | done].
  - intros m D F R (Hm & Ho & Hn) old s post Hs. cbn [p_read map_packer].
    rewrite <- app_assoc in Hs. pose proof (zlen_nonneg m). destruct (wire_entries_bytes m Hm).
    destruct (reads_map_header (zlen m) ltac:(lia) s (wire_entries m ++ post) Hs) as (s1 & E1 & Hs1 & Hp1 & Hl1);
      [zlen_lia |].
    destruct (reads_entries m [] s1 post Hm Ho Hs1) as (s2 & E2 & Hs2 & Hp2 & Hl2).
    exists s2. unfold read_map. rewrite E1. cbn [mbind result_bind]. rewrite zlen_to_nat, E2.
    split; [done |]. rewrite zlen_app. split_and!; [done | lia | congruence].
Defined.
End MapLaws.

(** ** Variants *)

(** The first byte of every value of the alternative announces its kind. *)
Class PacksAlt {A : Type} (a : Alternative A) : Type := {
  alt_packs :: Packs a.(alt_packer);
  alt_first v : a.(alt_kind) <> Unknown -> packable a.(alt_packer) v ->
    msgpack_wire_kind (hd 0 (wire a.(alt_packer) v)) = a.(alt_kind)
}.

(** A variant value is carried when no earlier alternative has the same kind. *)
Class PacksVariant {V : Type} (W : Variant V) : Type := {
  v_wire : V -> list Z;
  v_kind : V -> MsgPackWireKind;
  v_packable : V -> Prop;
  v_bytes v : v_packable v -> is_bytes (v_wire v) /\ 0 < zlen (v_wire v);
  v_first v : v_packable v -> v_kind v <> Unknown /\ msgpack_wire_kind (hd 0 (v_wire v)) = v_kind v;
  v_writes v {D} `{F : FileLike D} `{WC : !WriteContract D} :
    v_packable v -> writes (W.(variant_write) v) (v_wire v);
  v_reads v {D} `{F : FileLike D} `{R : !ReadContract D} s post :
    v_packable v -> holds s (v_wire v ++ post) ->
    exists s', W.(variant_read_dispatch) (v_kind v) s = Ret (Some v, s')
      /\ advanced s s' (zlen (v_wire v)) post
}.
Arguments v_wire {V} W {PacksVariant}.
Arguments v_kind {V} W {PacksVariant}.
Arguments v_packable {V} W {PacksVariant}.

#[export, refine] Instance variant_end_packs : PacksVariant variant_end :=
  {| v_wire (v : False) := match v with end; v_kind (v : False) := match v with end;
     v_packable _ := False |}.
Proof. all: by intros []. Defined.

#[export, refine] Instance variant_alt_packs {A R} (a : Alternative A) (W : Variant R)
    `{Ha : !PacksAlt a} `{HW : !PacksVariant W} : PacksVariant (variant_alt a W) :=
  {| v_wire v := match v with inl x => wire a.(alt_packer) x | inr y => v_wire W y end;
     v_kind v := match v with inl x => a.(alt_kind) | inr y => v_kind W y end;
     v_packable v := match v with
                     | inl x => a.(alt_kind) <> Unknown /\ packable a.(alt_packer) x
                     | inr y => v_packable W y /\ v_kind W y <> a.(alt_kind)
                     end |}.
Proof.
  - intros [x | y] Hv; [by apply wire_bytes, Hv | by apply v_bytes, Hv].
  - intros [x | y] Hv; [split; [apply Hv | by apply alt_first; apply Hv] | by apply v_first, Hv].
  - intros [x | y] D F WC Hv s d n Ht Hn; cbn [variant_write variant_alt].
    + by apply (pack_writes x (proj2 Hv)).
    + by apply (v_writes y (proj1 Hv)).
  - intros [x | y] D F RC s post Hv Hs; cbn [variant_read_dispatch variant_alt];
      unfold variant_dispatch_cons, variant_read_if, accepts.
    + rewrite bool_decide_true by done. cbn [negb].
      destruct (pack_reads x (proj2 Hv) a.(alt_packer).(p_default) s post Hs) as (s' & E & Had).
      rewrite E. cbn [mbind result_bind]. pose proof (proj1 Had) as (? & _ & _ & -> & _).
      by exists s'.
    + rewrite bool_decide_false by apply Hv. cbn [negb mbind result_bind].
      destruct (v_reads y s post (proj1 Hv) Hs) as (s' & -> & Had). by exists s'.
Defined.

#[export, refine] Instance variant_packs {V} (W : Variant V) (v0 : V) `{HW : !PacksVariant W} :
    Packs (variant_packer W v0) :=
  {| wire := v_wire W; packable := v_packable W |}.
Proof.
  - apply v_bytes.
  - intros v D F WC Hv. by apply v_writes.
  - intros v D F R Hv old s post Hs. cbn [p_read variant_packer]. unfold read_variant.
    destruct (v_bytes v Hv) as [_ Hlen]. destruct (v_first v Hv) as [Hk Hf].
    destruct (v_wire W v) as [| b rest] eqn:Ew; [by change (zlen (@nil Z)) with 0 in Hlen |].
    cbn [app hd] in *. destruct (peekByte_reads s b (rest ++ post) Hs) as (s1 & -> & Hs1 & Hp1 & Hl1).
    cbn [mbind result_bind]. rewrite Hf, bool_decide_false by done.
    change (b :: rest ++ post) with ((b :: rest) ++ post) in Hs1. rewrite <- Ew in Hs1.
    destruct (v_reads v s1 post Hv Hs1) as (s2 & -> & Hs2 & Hp2 & Hl2).
    cbn [mbind result_bind]. exists s2. split; [done |]. rewrite <- Ew. split_and!; [done | lia | congruence].
Defined.

(** The alternatives of the element types. *)
Lemma wire_u64_kind v : 0 <= v < 2 ^ 64 -> msgpack_wire_kind (hd 0 (wire_u64 v)) = Int.
Proof.
  intros Hv. unfold wire_u64, wire_u32, wire_u16, wire_u8. repeat case_test; try done.
  cbn [hd]. unfold msgpack_wire_kind. by test_true.
Qed.

Lemma wire_i64_kind v : in_s 64 v -> msgpack_wire_kind (hd 0 (wire_i64 v)) = Int.
Proof.
  intros Hv. unfold wire_i64, wire_i32, wire_i16, wire_i8. repeat case_test; try done.
  cbn [hd]. unfold msgpack_wire_kind, wrapu. change (2 ^ 8) with 256.
  destruct (Z.lt_ge_cases v 0).
  - replace (v mod 256) with (v + 256) by dm_lia. unfold POSITIVE_FIXINT, NEGATIVE_FIXINT.
    test_false. by test_true.
  - rewrite Z.mod_small by lia. unfold POSITIVE_FIXINT. by test_true.
Qed.

Lemma wire_strlen_kind len (bs : list Z) : 0 <= len ->
  msgpack_wire_kind (hd 0 (wire_strlen len ++ bs)) = String.
Proof.
  intros Hl. unfold wire_strlen. repeat case_test; try done. cbn [hd app].
  change FIXSTR with (5 * 2 ^ 5). rewrite lor_high by lia.
  unfold msgpack_wire_kind, POSITIVE_FIXINT, NEGATIVE_FIXINT, FIXSTR. do 2 test_false. by test_true.
Qed.

Lemma wire_array_kind len (bs : list Z) : 0 <= len ->
  msgpack_wire_kind (hd 0 (wire_array len ++ bs)) = Array.
Proof.
  intros Hl. unfold wire_array. repeat case_test; try done. cbn [hd app].
  change FIXARRAY with (9 * 2 ^ 4). rewrite lor_high by lia.
  unfold msgpack_wire_kind, POSITIVE_FIXINT, NEGATIVE_FIXINT, FIXSTR, FIXARRAY.
  do 3 test_false. by test_true.
Qed.

Lemma wire_ext_kind len ty (bs : list Z) : msgpack_wire_kind (hd 0 (wire_ext len ty ++ bs)) = Ext.
Proof. unfold wire_ext. repeat case_test; done. Qed.

Definition float_alt : Alternative Z := mkAlt Float float_packer.
Definition double_alt : Alternative Z := mkAlt Float double_packer.
Definition string_alt : Alternative (list Z) := mkAlt String string_packer.

Lemma wire_map_kind len (bs : list Z) : 0 <= len -> msgpack_wire_kind (hd 0 (wire_map len ++ bs)) = Map.
Proof.
  intros Hl. unfold wire_map. repeat case_test; try done. cbn [hd app].
  change FIXMAP with (8 * 2 ^ 4). rewrite lor_high by lia.
  unfold msgpack_wire_kind, POSITIVE_FIXINT, NEGATIVE_FIXINT, FIXSTR, FIXARRAY, FIXMAP.
  do 4 test_false. by test_true.
Qed.

(** ** The types of the templates

    The bytes of a value and the values that have them, by the type alone. *)

Definition bits (w : Width) : Z := match w with W8 => 8 | W16 => 16 | W32 => 32 | W64 => 64 end.

Definition key_encoding (k : KeyType) : key k -> list Z :=
  match k with
  | KBool => fun b => [if b then MTRUE else MFALSE]
  | KUInt _ => wire_u64
  | KInt _ => wire_i64
  end.

Definition key_fits (k : KeyType) : key k -> Prop :=
  match k with KBool => fun _ => True | KUInt w => in_u (bits w) | KInt w => in_s (bits w) end.

Fixpoint encoding (t : MsgType) : value t -> list Z :=
  match t with
  | TKey k => key_encoding k
  | TFloat => fun v => FLOAT32 :: be_encode 4 v
  | TDouble => fun v => FLOAT64 :: be_encode 8 v
  | TExt => fun e => wire_ext (zlen e.(ext_payload)) e.(ext_type) ++ e.(ext_payload)
  | TDateTime => fun dt => wire_ext 8 0xff ++ packDatetime dt
  | TNil => fun _ => [NIL]
  | TVector t => fun l => wire_array (zlen l) ++ concat (map (encoding t) l)
  | TMap k t => fun m => wire_map (zlen m) ++ concat (map (fun e => key_encoding k e.1 ++ encoding t e.2) m)
  | TVariant a => choice_encoding a
  end
with choice_encoding (a : Alternatives) : choice a -> list Z :=
  match a with
  | Only x => fun v => match v with inl y => alt_encoding x y | inr z => match z : False with end end
  | Or x a => fun v => match v with inl y => alt_encoding x y | inr z => choice_encoding a z end
  end
with alt_encoding (x : AltType) : alt_value x -> list Z :=
  match x with AString => fun bs => wire_strlen (zlen bs) ++ bs | AType t => encoding t end.

(** The kind of the alternative that a variant holds. *)
Fixpoint choice_kind (a : Alternatives) : choice a -> MsgPackWireKind :=
  match a with
  | Only x => fun v => match v with inl _ => alt_kind_of x | inr z => match z : False with end end
  | Or x a => fun v => match v with inl _ => alt_kind_of x | inr z => choice_kind a z end
  end.

(** The values that the format carries: integers of the type, lengths that an [int] holds,
    times that are whole milliseconds from 1970 on, maps in key order as [std::map] keeps
    them, and variants in which no alternative before the one they hold has its kind. *)
Fixpoint fits (t : MsgType) : value t -> Prop :=
  match t with
  | TKey k => key_fits k
  | TFloat => in_u 32
  | TDouble => in_u 64
  | TExt => fun e => is_byte e.(ext_type) /\ short_bytes e.(ext_payload)
  | TDateTime => stampable
  | TNil => fun _ => True
  | TVector t => fun l => Forall (fits t) l /\ zlen l <= INT_MAX
  | TMap k t => fun m => Forall (fun e => key_fits k e.1 /\ fits t e.2) m /\ ordered (key_lt k) m /\ zlen m <= INT_MAX
  | TVariant a => choice_fits a
  end
with choice_fits (a : Alternatives) : choice a -> Prop :=
  match a with
  | Only x => fun v => match v with inl y => alt_kind_of x <> Unknown /\ alt_fits x y | inr z => False end
  | Or x a => fun v =>
      match v with
      | inl y => alt_kind_of x <> Unknown /\ alt_fits x y
      | inr z => choice_fits a z /\ choice_kind a z <> alt_kind_of x
      end
  end
with alt_fits (x : AltType) : alt_value x -> Prop :=
  match x with AString => short_bytes | AType t => fits t end.

Lemma key_lt_asym k x y : key_lt k x y = true -> key_lt k y x = false.
Proof. unfold key_lt. intros. apply Z.ltb_ge. apply Z.ltb_lt in H. lia. Qed.

Lemma encoding_kind t v : kind_of t <> Unknown -> fits t v -> msgpack_wire_kind (hd 0 (encoding t v)) = kind_of t.
Proof.
  intros Hk. destruct t as [[| w | w] | | | | | | t | k t | a]; cbn [kind_of encoding fits key_encoding key_fits] in *; intros Hv; try done.
  - by destruct v.
  - apply wire_u64_kind. unfold in_u in Hv. destruct w; cbn [bits] in Hv; lia.
  - apply wire_i64_kind. unfold in_s in *. destruct w; cbn [bits] in Hv; lia.
  - apply wire_ext_kind.
  - apply wire_array_kind, zlen_nonneg.
  - apply wire_map_kind, zlen_nonneg.
Qed.

Definition lawful (t : MsgType) : Prop := exists P : Packs (packer t), @wire _ _ P = encoding t /\ forall v, fits t v -> @packable _ _ P v.

Definition lawful_alt (x : AltType) : Prop :=
  exists P : Packs (alt_packer_of x), @wire _ _ P = alt_encoding x /\ forall v, alt_fits x v -> @packable _ _ P v.

Definition lawful_choice (a : Alternatives) : Prop := exists P : PacksVariant (variant_of a),
  @v_wire _ _ P = choice_encoding a /\ (forall v, choice_fits a v -> @v_packable _ _ P v) /\ @v_kind _ _ P = choice_kind a.

Lemma key_lawful k : exists P : Packs (key_packer k), @wire _ _ P = key_encoding k /\ forall v, key_fits k v -> @packable _ _ P v.
Proof.
  destruct k as [| [] | []]; [exists bool_packs | exists u8_packs | exists u16_packs | exists u32_packs | exists u64_packs
    | exists i8_packs | exists i16_packs | exists i32_packs | exists i64_packs]; by split.
Qed.

(** What an alternative carries is what its type carries, with the bytes of that type. *)
Definition carried (x : AltType) (P : Packs (alt_packer_of x)) : Packs (alt_packer_of x) := {|
  wire := @wire _ _ P; packable v := alt_fits x v /\ @packable _ _ P v;
  wire_bytes v H := @wire_bytes _ _ P v (proj2 H);
  pack_writes v D F W H := @pack_writes _ _ P v D F W (proj2 H);
  pack_reads v D F R H := @pack_reads _ _ P v D F R (proj2 H) |}.

Lemma alt_lawful x : lawful_alt x -> exists A : PacksAlt (mkAlt (alt_kind_of x) (alt_packer_of x)),
  @wire _ _ (@alt_packs _ _ A) = alt_encoding x /\ forall v, alt_fits x v -> @packable _ _ (@alt_packs _ _ A) v.
Proof.
  intros (P & Ew & Ef). unshelve eexists (Build_PacksAlt _ (mkAlt (alt_kind_of x) (alt_packer_of x)) (carried x P) _).
  2: { split; [done |]. intros v Hv. split; [done | by apply Ef]. }
  cbn. rewrite Ew. intros v Hk [Hv _]. destruct x as [| t]; [apply wire_strlen_kind, zlen_nonneg | by apply encoding_kind].
Qed.

Lemma all_lawful : (forall t, lawful t) /\ (forall a, lawful_choice a) /\ (forall x, lawful_alt x).
Proof.
  apply msgtype_mutind.
  - intros k. apply key_lawful.
  - by exists float_packs.
  - by exists double_packs.
  - by exists ext_packs.
  - by exists datetime_packs.
  - by exists nil_packs.
  - intros t (P & Ew & Ef). exists (@vector_packs _ _ P). cbn. unfold wire_items. rewrite Ew. split; [done |].
    intros l [Hl Hn]. split; [| done]. eapply Forall_impl; [apply Ef | exact Hl].
  - intros k t (P & Ew & Ef). destruct (key_lawful k) as (K & Kw & Kf).
    exists (@map_packs _ _ (key_lt k) _ _ K P (key_lt_asym k)). cbn. unfold wire_entries. rewrite Ew, Kw. split; [done |].
    intros m (Hm & Ho & Hn). split; [| done]. eapply Forall_impl; [| exact Hm]. intros e [H1 H2]. split; [by apply Kf | by apply Ef].
  - intros a (P & Ew & Ef & Ek). unshelve eexists (@variant_packs _ _ _ P). by split.
  - intros x Hx. destruct (alt_lawful x Hx) as (A & Ew & Ef). cbn [alt_packer] in Ew, Ef.
    exists (@variant_alt_packs _ _ _ _ A variant_end_packs). cbn. rewrite Ew. split; [done |]. split; [| done].
    intros [y | []] Hv. split; [apply Hv | by apply Ef, Hv].
  - intros x Hx a (P & Pw & Pf & Pk). destruct (alt_lawful x Hx) as (A & Ew & Ef). cbn [alt_packer] in Ew, Ef.
    exists (@variant_alt_packs _ _ _ _ A P). cbn. rewrite Ew, Pw, Pk. split; [done |]. split; [| done].
    intros [y | z] Hv; (split; [try by apply Pf, Hv | try by apply Ef, Hv]); apply Hv.
  - by exists string_packs.
  - intros t (P & Ew & Ef). by exists P.
Qed.
