(* ===== verification/MsgPackSafety.v ===== *)
(** * MessagePack: reading arbitrary input

    Every reader returns on every device that keeps the read contract, whatever
    bytes it delivers: no access leaves a buffer, no loop runs on.  [SafePacker]
    is that promise of an element type, with the latch of the error status. *)

From S2P Require Import Prelude FileLike MsgPack MsgPackTypes.

Section Safety.
Context {D : Type} `{F : FileLike D} `{R : !ReadContract D}.

(** Every reachable stream: the members hold values of their types. *)
Definition wf (s : Stream D) : Prop :=
  (forall d, s.(dev) = Some d -> sound d) /\ 0 <= s.(pos) <= UINT32_MAX
  /\ 0 <= s.(limit) <= UINT32_MAX /\ is_byte s.(peekByteCache).

(** [s'] is a later state of the same stream. *)
Definition later (s s' : Stream D) : Prop :=
  wf s' /\ s.(pos) <= s'.(pos) /\ s'.(limit) = s.(limit).

Definition safe_io {A} (Q : A -> Stream D -> Prop) (m : io D A) : Prop :=
  forall s, wf s -> exists o s', m s = Ret (o, s') /\ later s s'
    /\ match o with Done a => Q a s' | Failed _ => True end.

(** Nothing but the code of an error changed. *)
Definition frozen (s s' : Stream D) : Prop := exists st, st <> Ok /\ s' = setStatus st s.

(** An operator that returns, and does nothing once an error was recorded. *)
Definition safe_op {A} (rd : A -> Stream D -> result (A * Stream D)) : Prop :=
  forall old s, wf s -> exists a s', rd old s = Ret (a, s') /\ later s s'
    /\ (s.(status) <> Ok -> a = old /\ frozen s s').

Definition latched {A} (m : io D A) : Prop :=
  forall s, s.(status) <> Ok -> m s = Ret (Failed None, s).

Lemma wf_later s : wf s -> later s s.
Proof. intros. split; [done | lia]. Qed.

Lemma later_trans s1 s2 s3 : later s1 s2 -> later s2 s3 -> later s1 s3.
Proof. intros (_ & ? & ?) (? & ? & ?). split_and!; [done | lia | congruence]. Qed.

Lemma frozen_refl s : s.(status) <> Ok -> frozen s s.
Proof. intros Hs. exists s.(status). split; [done |]. by destruct s. Qed.

Lemma frozen_status s st : s.(status) <> Ok -> st <> Ok -> frozen s (setStatus st s).
Proof. intros. by exists st. Qed.

Lemma frozen_trans s1 s2 s3 : frozen s1 s2 -> frozen s2 s3 -> frozen s1 s3.
Proof. intros (st & _ & ->) (st' & ? & ->). by exists st'. Qed.

Lemma frozen_not_ok s s' : frozen s s' -> s'.(status) <> Ok.
Proof. by intros (st & ? & ->). Qed.

Lemma not_ok st : st <> Ok -> isOk st = false.
Proof. by destruct st. Qed.

Lemma safe_mono {A} (Q Q' : A -> Stream D -> Prop) m :
  safe_io Q m -> (forall a s, Q a s -> Q' a s) -> safe_io Q' m.
Proof.
  intros H HQ s Hs. destruct (H s Hs) as (o & s' & E & Hl & Ho).
  exists o, s'. split_and!; [done | done |]. destruct o; auto.
Qed.

Lemma safe_ret {A} (Q : A -> Stream D -> Prop) a : (forall s, wf s -> Q a s) -> safe_io Q (mret a).
Proof. intros HQ s Hs. exists (Done a), s. split; [done |]. split; [by apply wf_later | auto]. Qed.

Lemma safe_fail {A} (Q : A -> Stream D -> Prop) st left : safe_io Q (fail st left).
Proof.
  intros s Hs. do 2 eexists. split; [done |]. split; [| done]. split; [apply Hs | cbn; lia].
Qed.

Lemma safe_io_bind {A B} (P : A -> Stream D -> Prop) (Q : B -> Stream D -> Prop) m k :
  safe_io P m ->
  (forall a s, wf s -> P a s -> exists o s', k a s = Ret (o, s') /\ later s s'
     /\ match o with Done b => Q b s' | Failed _ => True end) ->
  safe_io Q (m ≫= k).
Proof.
  intros Hm Hk s Hs. destruct (Hm s Hs) as (o & s1 & E & Hl & Ho).
  unfold mbind, io_bind. rewrite E. destruct o as [a |].
  - destruct (Hk a s1 (proj1 Hl) Ho) as (o & s2 & E2 & Hl2 & Ho2).
    exists o, s2. split_and!; [done | by eapply later_trans | done].
  - by exists (Failed None), s1.
Qed.

(** The continuation does not depend on the state it starts in. *)
Lemma safe_then {A B} (P : A -> Stream D -> Prop) (Q : B -> Stream D -> Prop) m k :
  safe_io P m -> (forall a, (exists s, P a s) -> safe_io Q (k a)) -> safe_io Q (m ≫= k).
Proof. intros Hm Hk. eapply safe_io_bind; [done |]. intros a s Hs Ha. apply Hk; eauto. Qed.

Lemma safe_io_if {A} (Q : A -> Stream D -> Prop) (b : bool) m1 m2 :
  (b = true -> safe_io Q m1) -> (b = false -> safe_io Q m2) -> safe_io Q (if b then m1 else m2).
Proof. destruct b; auto. Qed.

Lemma readLoop_safe fuel left (met : bool) acc d s :
  left <= INT_MAX -> (Z.to_nat left + (if met then 1 else 2) <= fuel)%nat -> wf s -> sound d ->
  is_bytes acc ->
  exists o s', readLoop fuel left met acc d s = Ret (o, s') /\ later s s'
    /\ s'.(pos) = s.(pos)
    /\ match o with Done a => is_bytes a /\ zlen a = zlen acc + Z.max 0 left | Failed _ => True end.
Proof.
  intros Hl Hf Hs. revert left met acc d Hl Hf.
  induction fuel as [| fuel IH]; intros left met acc d Hl Hf Hd Hacc; [destruct met; lia |].
  assert (Hset : forall d, sound d -> later s (set_dev d s)).
  { intros d' Hd'. split; [| cbn; lia]. split; [by intros ? [= <-] | apply Hs]. }
  cbn [readLoop]. case_test.
  { do 2 eexists. split; [done |]. split; [auto |]. split; [done |]. split; [done | lia]. }
  unfold INT_MAX in *. rewrite BytesIO.s32_id by lia. test_false.
  destruct (read_conforms left d) as (k & bs & d' & -> & Hd' & Hk & Hbs); [lia | done |].
  cbn [mbind result_bind]. case_test.
  { do 2 eexists. split; [done |]. split; [| done]. apply (Hset d' Hd'). }
  case_test.
  { destruct met; cbn [negb].
    - do 2 eexists. split; [done |]. split; [| done]. apply (Hset d' Hd').
    - apply IH; try done; lia. }
  test_false. destruct Hbs as [Hz Hb]; [lia |].
  destruct (IH (left - k) met (acc ++ bs) d') as (o & s' & E' & Hlat & Hp & Ho); try done; try lia.
  - auto with qtng.
  - exists o, s'. split_and!; try done. destruct o; [| done].
    rewrite zlen_app in Ho. destruct Ho. split; [done | lia].
Qed.

Lemma readRaw_safe len : 0 <= len <= INT_MAX ->
  safe_io (fun bs s => is_bytes bs /\ zlen bs = len /\ s.(pos) <= s.(limit)) (readRawBytes len).
Proof.
  intros Hl s Hs. unfold readRawBytes. case_test; [by exists (Failed None), s; split_and!; [| apply wf_later |] |].
  destruct (s.(dev)) as [d |] eqn:Hd; [| by apply (safe_fail (A := list Z))].
  case_test; [by apply (safe_fail (A := list Z)) |].
  pose proof Hs as (Hsd & Hp & Hlim & Hpk).
  set (peeked := (s.(hasPeekByte) && (len >? 0))%bool).
  set (acc := if peeked then _ else []). set (s1 := if peeked then _ else s).
  assert (Hacc : is_bytes acc /\ zlen acc <= len /\ (zlen acc = 0 \/ zlen acc = 1)).
  { unfold acc, peeked. destruct (s.(hasPeekByte)); cbn [andb]; [case_test |].
    1: split; [by apply is_bytes_cons; [| apply is_bytes_nil] | unfold zlen; simpl; lia].
    all: split; [apply is_bytes_nil | unfold zlen; simpl; lia]. }
  assert (Hs1 : wf s1 /\ s1.(pos) = s.(pos) /\ s1.(limit) = s.(limit)).
  { unfold s1. destruct peeked; [| done]. split; [| done]. done. }
  destruct Hs1 as (Hw1 & Hp1 & Hl1). destruct Hacc as (Hab & Hal & Haz).
  destruct (readLoop_safe (Z.to_nat len + 2) (len - zlen acc) false acc d s1)
    as (o & s2 & E2 & (Hw2 & _ & Hl2) & Hp2 & Ho); try done; try lia; [auto |].
  unfold mbind, io_bind at 1. rewrite E2. destruct o as [bs |].
  - unfold advance, wrapu. cbn. rewrite Hp2, Hp1.
    rewrite (Z.mod_small (_ + _)) by (unfold UINT32_MAX in *; lia).
    do 2 eexists. split; [done |]. cbn. split; [split |].
    + destruct Hw2 as (? & ? & ? & ?). split_and!; cbn; try done; unfold UINT32_MAX in *; lia.
    + cbn. split; [lia | congruence].
    + cbn. destruct Ho. split_and!; [done | lia |]. rewrite Hl2, Hl1. lia.
  - exists (Failed None), s2. split; [done |]. split; [| done]. split; [done |]. split; [lia | congruence].
Qed.

Lemma readByte_safe : safe_io (fun b _ => is_byte b) readByte.
Proof.
  unfold readByte. eapply safe_then; [by apply readRaw_safe |].
  intros p (s0 & Hb & Hz & _) s Hs. destruct (fetch_in p 0) as (b & _ & E); [lia |].
  exists (Done b), s. unfold lift. rewrite E. split; [done |].
  split; [by apply wf_later | by eapply fetch_byte].
Qed.

Lemma readBE_safe n : 0 <= n <= 8 -> safe_io (fun v _ => 0 <= v < 256 ^ n) (readBE n).
Proof.
  intros Hn. unfold readBE. eapply safe_then; [apply readRaw_safe; unfold INT_MAX; lia |].
  intros p (s & Hb & Hz & _). apply safe_ret. intros _ _. rewrite <- Hz. by apply be_decode_bound.
Qed.

Lemma peekLoop_safe (met : bool) fuel d : ((if met then 1 else 2) <= fuel)%nat -> sound d ->
  safe_io (fun _ _ => True) (peekLoop fuel met d).
Proof.
  revert met d. induction fuel as [| fuel IH]; intros met d Hf Hd s Hs; [destruct met; lia |].
  cbn [peekLoop]. destruct (read_conforms 1 d) as (k & bs & d' & -> & Hd' & Hk & Hbs); [lia | done |].
  cbn [mbind result_bind].
  assert (Hset : wf (set_dev d' s)) by (split; [by intros ? [= <-] | apply Hs]).
  assert (Hfail : exists o s', fail ReadPastEnd (None : option unit) (set_dev d' s) = Ret (o, s')
    /\ later s s' /\ match o with Done _ => True | Failed _ => True end).
  { do 2 eexists. split; [done |]. split; [split; [apply Hset | cbn; lia] | done]. }
  case_test; [done |]. case_test.
  { destruct met; cbn [negb]; [done | apply IH; [lia | done | done]]. }
  destruct Hbs as [Hz Hb]; [lia |]. destruct (fetch_in bs 0) as (b & _ & E1); [lia |]. rewrite E1.
  cbn [mbind result_bind]. do 2 eexists. split; [done |]. split; [| done].
  split; [| cbn; lia]. destruct Hset as (? & ? & ? & ?).
  do 3 (split; [done |]). exact (fetch_byte bs 0 b Hb E1).
Qed.

Lemma peekByte_safe : safe_io (fun b _ => is_byte b) peekByte.
Proof.
  unfold peekByte. apply (safe_then (fun _ _ => True)).
  - intros s Hs. unfold ensurePeekCached.
    assert (Hno : forall o, exists o' s', Ret (o : outcome unit, s) = Ret (o', s') /\ later s s'
      /\ match o' with Done _ => True | Failed _ => True end).
    { intros o. exists o, s. split; [done |]. split; [by apply wf_later | by destruct o]. }
    destruct (s.(hasPeekByte)); [apply Hno |]. destruct (s.(dev)) as [d |] eqn:Hd; [| apply Hno].
    destruct (isOk _); [| apply Hno]. cbn [negb]. case_test; [apply Hno |].
    apply peekLoop_safe; [lia | by apply Hs | done].
  - intros _ _ s Hs. exists (Done s.(peekByteCache)), s. split; [done |].
    split; [by apply wf_later | apply Hs].
Qed.

(** What a length that was accepted is good for: a [resize] to it is no larger
  than what the stream may still deliver. *)
Definition bounded (len : Z) (s : Stream D) : Prop :=
  0 <= len <= INT_MAX /\ s.(pos) + len <= s.(limit).

Lemma checkLength_safe len : 0 <= len -> safe_io (fun l s => l = len /\ bounded l s) (checkLength len).
Proof.
  intros Hl s Hs. unfold checkLength, lengthFitsRemaining.
  case_test; [by apply (safe_fail (A := Z)) |]. case_test; [| by apply (safe_fail (A := Z))].
  exists (Done len), s. split; [done |]. split; [by apply wf_later |]. split; [done |]. split; lia.
Qed.

End Safety.

(** A dispatch on the first byte: one rule per step of a branch. *)
Ltac safe_io_step :=
  lazymatch goal with
  | |- safe_io _ (if _ then _ else _) => apply safe_io_if; intros; bool_to_prop
  | |- safe_io _ (fail _ _) => apply safe_fail
  | |- safe_io _ (mret _) => apply safe_ret; intros
  | |- safe_io _ (readByte ≫= _) => eapply safe_then; [apply readByte_safe | intros ? [_ ?]]
  | |- safe_io _ (readBE _ ≫= _) => eapply safe_then; [apply readBE_safe; lia | intros ? [_ ?]]
  | |- safe_io _ (readBE _) => eapply safe_mono; [apply readBE_safe; lia | intros]
  | |- safe_io _ readByte => eapply safe_mono; [apply readByte_safe | intros]
  end.
Ltac safe_io_solve := repeat safe_io_step; unfold is_byte in *.

Section Readers.
Context {D : Type} `{F : FileLike D} `{R : !ReadContract D}.

Lemma readArrayHeader_safe : safe_io (D := D) bounded readArrayHeader.
Proof.
  unfold readArrayHeader. safe_io_solve; (eapply safe_mono; [apply checkLength_safe |]); try lia;
    try (by intros ? ? [_ ?]). apply Z.land_nonneg. lia.
Qed.

Lemma readMapHeader_safe : safe_io (D := D) bounded readMapHeader.
Proof.
  unfold readMapHeader. safe_io_solve; (eapply safe_mono; [apply checkLength_safe |]); try lia;
    try (by intros ? ? [_ ?]). apply Z.land_nonneg. lia.
Qed.

Lemma precond_safe {A} (Q : A -> Stream D -> Prop) m : safe_io Q m -> safe_io Q (precond m).
Proof.
  intros H s Hs. unfold precond. destruct (s.(dev)), (isOk s.(status)); cbn [negb];
    [by apply H | ..]; by exists (Failed None), s; split_and!; [| apply wf_later |].
Qed.

Lemma readExtHeader_safe : safe_io (D := D) (fun lt s => bounded lt.1 s /\ is_byte lt.2) readExtHeader.
Proof.
  apply precond_safe. eapply safe_then; [apply readByte_safe |]. intros b [_ Hb].
  apply (safe_then (fun lt _ => 0 <= lt.1 /\ is_byte lt.2)).
  - safe_io_solve; cbn [fst snd]; try lia. split; [| lia]. unfold wrapu. apply Z.mod_pos_bound. lia.
  - intros [len ty] (_ & H1 & H2). eapply safe_io_bind; [by apply checkLength_safe |].
    intros l s Hs [-> Hl]. exists (Done (len, ty)), s. split; [done |]. split; [by apply wf_later | done].
Qed.

Lemma unpack_ulonglong_safe : safe_io (D := D) (fun _ _ => True) unpack_ulonglong.
Proof. unfold unpack_ulonglong, nonNegative. by safe_io_solve. Qed.

Lemma unpack_longlong_safe : safe_io (D := D) (fun _ _ => True) unpack_longlong.
Proof. unfold unpack_longlong. by safe_io_solve. Qed.

Lemma readPayload_safe len : 0 <= len -> safe_io (D := D) (fun _ _ => True) (readPayload len).
Proof.
  intros Hl s Hs. unfold readPayload, lengthFitsRemaining.
  case_test; [by apply (safe_fail (A := list Z)) |].
  destruct (_ && _)%bool; cbn [negb]; [| by apply (safe_fail (A := list Z))].
  case_test.
  - by eapply safe_mono; [apply readRaw_safe; lia | | done].
  - by apply (safe_ret (fun _ _ => True) []).
Qed.

Lemma unpackString_safe : safe_io (D := D) (fun _ _ => True) unpackString.
Proof.
  unfold unpackString. eapply safe_then; [apply readByte_safe |]. intros b [_ Hb].
  apply (safe_then (fun len _ => 0 <= len)).
  - safe_io_solve; lia.
  - intros len [_ Hl]. by apply readPayload_safe.
Qed.

Lemma unpackBin_safe : safe_io (D := D) (fun _ _ => True) unpackBin.
Proof.
  unfold unpackBin. eapply safe_then; [apply readByte_safe |]. intros b [_ Hb].
  apply (safe_then (fun len _ => 0 <= len)).
  - safe_io_solve; lia.
  - intros len [_ Hl]. by apply readPayload_safe.
Qed.

(** ** The latch *)

Lemma latched_raw len : latched (D := D) (readRawBytes len).
Proof. intros s Hs. unfold readRawBytes. by rewrite (not_ok _ Hs). Qed.

Lemma latched_bind {A B} (m : io D A) (k : A -> io D B) : latched m -> latched (m ≫= k).
Proof. intros H s Hs. unfold mbind, io_bind. by rewrite H. Qed.

Lemma latched_precond {A} (m : io D A) : latched (precond m).
Proof. intros s Hs. unfold precond. rewrite (not_ok _ Hs). by destruct (s.(dev)). Qed.

Lemma latched_byte : latched (D := D) readByte.
Proof. apply latched_bind, latched_raw. Qed.

Lemma latched_ext : latched (D := D) readExtHeader.
Proof. apply latched_precond. Qed.

Lemma assign_safe {A} (m : io D A) : safe_io (fun _ _ => True) m -> latched m -> safe_op (assign m).
Proof.
  intros Hm Hl old s Hs. unfold assign. destruct (Hm s Hs) as (o & s' & E & Hlat & _).
  rewrite E. cbn [mbind result_bind]. do 2 eexists. split; [done |]. split; [done |].
  intros Hst. rewrite (Hl s Hst) in E. injection E as <- <-. split; [done | by apply frozen_refl].
Qed.

Lemma checked_safe {A} (m : io D A) : safe_io (fun _ _ => True) m -> safe_op (assign (precond m)).
Proof. intros. apply assign_safe; [by apply precond_safe | apply latched_precond]. Qed.

Lemma narrow_safe lo hi (m : io D Z) :
  safe_io (fun _ _ => True) m -> safe_io (fun _ _ => True) (narrow lo hi m).
Proof. intros. unfold narrow. eapply safe_then; [done |]. intros v _. by safe_io_solve. Qed.

End Readers.

Class SafePacker {A : Type} (P : Packer A) : Prop := {
  packer_safe {D} `{F : FileLike D} `{R : !ReadContract D} : safe_op (D := D) P.(p_read)
}.

#[export] Instance u8_safe : SafePacker u8_packer.
Proof. split; intros. apply checked_safe, narrow_safe, unpack_ulonglong_safe. Qed.
#[export] Instance u16_safe : SafePacker u16_packer.
Proof. split; intros. apply checked_safe, narrow_safe, unpack_ulonglong_safe. Qed.
#[export] Instance u32_safe : SafePacker u32_packer.
Proof. split; intros. apply checked_safe, narrow_safe, unpack_ulonglong_safe. Qed.
#[export] Instance u64_safe : SafePacker u64_packer.
Proof. split; intros. apply checked_safe, unpack_ulonglong_safe. Qed.
#[export] Instance i8_safe : SafePacker i8_packer.
Proof. split; intros. apply checked_safe, narrow_safe, unpack_longlong_safe. Qed.
#[export] Instance i16_safe : SafePacker i16_packer.
Proof. split; intros. apply checked_safe, narrow_safe, unpack_longlong_safe. Qed.
#[export] Instance i32_safe : SafePacker i32_packer.
Proof. split; intros. apply checked_safe, narrow_safe, unpack_longlong_safe. Qed.
#[export] Instance i64_safe : SafePacker i64_packer.
Proof. split; intros. apply checked_safe, unpack_longlong_safe. Qed.
#[export] Instance float_safe : SafePacker float_packer.
Proof. split; intros. apply checked_safe. by safe_io_solve. Qed.
#[export] Instance double_safe : SafePacker double_packer.
Proof. split; intros. apply checked_safe. by safe_io_solve. Qed.
#[export] Instance string_safe : SafePacker string_packer.
Proof. split; intros. apply assign_safe; [apply unpackString_safe | apply latched_bind, latched_byte]. Qed.
#[export] Instance bin_safe : SafePacker bin_packer.
Proof. split; intros. apply assign_safe; [apply unpackBin_safe | apply latched_bind, latched_byte]. Qed.

#[export] Instance bool_safe : SafePacker bool_packer.
Proof.
  split. intros D F R old s Hs. cbn [p_read bool_packer]. unfold read_bool, ready.
  assert (Hno : exists a s', Ret (old, s) = Ret (a, s') /\ later s s'
    /\ (s.(status) <> Ok -> a = old /\ frozen s s')).
  { exists old, s. split; [done |]. split; [by apply wf_later |]. intros. split; [done | by apply frozen_refl]. }
  destruct (s.(dev)); [| done]. destruct (s.(status)) eqn:Est; try done. cbn [isOk negb].
  destruct (readByte_safe s Hs) as (o & s' & -> & Hl & Ho). cbn [mbind result_bind].
  destruct o; repeat case_test; do 2 eexists; (split; [done |]); split; done || apply Hl.
Qed.

#[export] Instance nil_safe : SafePacker nil_packer.
Proof.
  split. intros D F R [] s Hs. cbn [p_read nil_packer]. unfold read_nil.
  destruct (readByte_safe s Hs) as (o & s' & E & Hl & Ho). rewrite E. cbn [mbind result_bind].
  do 2 eexists. split; [done |]. split; [destruct o; [case_test |]; apply Hl |].
  intros Hst. rewrite (latched_byte s Hst) in E. injection E as <- <-.
  split; [done | by apply frozen_refl].
Qed.

#[export] Instance ext_safe : SafePacker ext_packer.
Proof.
  split. intros D F R old s Hs. cbn [p_read ext_packer]. unfold read_ext.
  destruct (readExtHeader_safe s Hs) as (o & s1 & E & Hl & Ho). rewrite E. cbn [mbind result_bind].
  destruct o as [[len ty] |].
  2: { do 2 eexists. split; [done |]. split; [done |]. intros Hst.
       rewrite (latched_ext s Hst) in E. injection E as _ <-.
       split; [done | by apply frozen_refl]. }
  assert (Hst : s.(status) <> Ok -> False).
  { intros Hst. by rewrite (latched_ext s Hst) in E. }
  destruct Ho as [[Hlen _] _]. cbn [fst] in Hlen. case_test.
  - destruct (readRaw_safe len ltac:(lia) s1 (proj1 Hl)) as (o & s2 & -> & Hl2 & _).
    cbn [mbind result_bind]. do 2 eexists. split; [done |]. split; [by eapply later_trans | tauto].
  - do 2 eexists. split; [done |]. split; [done | tauto].
Qed.

#[export] Instance vector_safe {A} (P : Packer A) `{HP : !SafePacker P} : SafePacker (vector_packer P).
Proof.
  split. intros D F R old s Hs. cbn [p_read vector_packer]. unfold read_vector.
  destruct (readArrayHeader_safe s Hs) as (o & s1 & E & Hl & _). rewrite E. cbn [mbind result_bind].
  assert (Hlat : latched (D := D) readArrayHeader) by apply latched_bind, latched_byte.
  destruct o as [len |].
  2: { do 2 eexists. split; [done |]. split; [done |]. intros Hst.
       rewrite (Hlat s Hst) in E. injection E as _ <-. split; [done | by apply frozen_refl]. }
  assert (Hitems : forall n acc s, wf s -> exists l s', readItems P n acc s = Ret (l, s') /\ later s s').
  { clear -HP. induction n as [| n IH]; intros acc s Hs; cbn [readItems].
    - exists acc, s. split; [done | by apply wf_later].
    - destruct (packer_safe P.(p_default) s Hs) as (a & s1 & -> & Hl & _). cbn [mbind result_bind].
      case_test; [eauto |]. case_test; [eauto |].
      destruct (IH (acc ++ [a]) s1 (proj1 Hl)) as (l & s2 & -> & Hl2).
      do 2 eexists. split; [done | by eapply later_trans]. }
  destruct (Hitems (Z.to_nat len) [] s1 (proj1 Hl)) as (l & s2 & -> & Hl2).
  do 2 eexists. split; [done |]. split; [by eapply later_trans |].
  intros Hst. by rewrite (Hlat s Hst) in E.
Qed.

#[export] Instance map_safe {K V} lt (PK : Packer K) (PV : Packer V)
  `{HK : !SafePacker PK} `{HV : !SafePacker PV} : SafePacker (map_packer lt PK PV).
Proof.
  split. intros D F R old s Hs. cbn [p_read map_packer]. unfold read_map.
  destruct (readMapHeader_safe s Hs) as (o & s1 & E & Hl & _). rewrite E. cbn [mbind result_bind].
  assert (Hlat : latched (D := D) readMapHeader) by apply latched_bind, latched_byte.
  destruct o as [len |].
  2: { do 2 eexists. split; [done |]. split; [done |]. intros Hst.
       rewrite (Hlat s Hst) in E. injection E as _ <-. split; [done | by apply frozen_refl]. }
  assert (Hent : forall n acc s, wf s ->
    exists m s', readEntries lt PK PV n acc s = Ret (m, s') /\ later s s').
  { clear -HK HV. induction n as [| n IH]; intros acc s Hs; cbn [readEntries].
    - exists acc, s. split; [done | by apply wf_later].
    - destruct (packer_safe PK.(p_default) s Hs) as (k & s1 & -> & Hl & _). cbn [mbind result_bind].
      case_test; [eauto |].
      destruct (packer_safe PV.(p_default) s1 (proj1 Hl)) as (v & s2 & -> & Hl2 & _).
      cbn [mbind result_bind]. pose proof (later_trans _ _ _ Hl Hl2). case_test; [eauto |].
      destruct (IH (emplace lt k v acc) s2 (proj1 Hl2)) as (m & s3 & -> & Hl3).
      do 2 eexists. split; [done | by eapply later_trans]. }
  destruct (Hent (Z.to_nat len) [] s1 (proj1 Hl)) as (m & s2 & -> & Hl2).
  do 2 eexists. split; [done |]. split; [by eapply later_trans |].
  intros Hst. by rewrite (Hlat s Hst) in E.
Qed.

(** The dispatch of a variant. *)
Class SafeVariant {V : Type} (W : Variant V) : Prop := {
  variant_safe {D} `{F : FileLike D} `{R : !ReadContract D} kind s :
    wf s -> exists o s', W.(variant_read_dispatch) (D := D) kind s = Ret (o, s') /\ later s s'
      /\ (s.(status) <> Ok -> o = None /\ frozen s s')
}.

#[export] Instance variant_end_safe : SafeVariant variant_end.
Proof.
  split. intros D F R kind s Hs. exists None, s. split; [done |]. split; [by apply wf_later |].
  intros. split; [done | by apply frozen_refl].
Qed.

#[export] Instance variant_alt_safe {A R} (a : Alternative A) (W : Variant R)
  `{Ha : !SafePacker a.(alt_packer)} `{HW : !SafeVariant W} : SafeVariant (variant_alt a W).
Proof.
  split. intros D F RC kind s Hs. cbn [variant_read_dispatch variant_alt].
  unfold variant_dispatch_cons, variant_read_if.
  assert (Hrest : forall s1, later s s1 -> (s.(status) <> Ok -> frozen s s1) ->
    exists o s', (r ← W.(variant_read_dispatch) kind s1;
                  let '(o, s) := (r : option R * Stream D) in Ret (option_map inr o : option (A + R), s))
                 = Ret (o, s') /\ later s s' /\ (s.(status) <> Ok -> o = None /\ frozen s s')).
  { intros s1 Hl He. destruct (variant_safe kind s1 (proj1 Hl)) as (o & s' & -> & Hl' & Hst).
    cbn [mbind result_bind]. do 2 eexists. split; [done |]. split; [by eapply later_trans |].
    intros Hn. pose proof (He Hn) as Hf. destruct (Hst (frozen_not_ok _ _ Hf)) as [-> Hf'].
    split; [done | by eapply frozen_trans]. }
  case_test; [apply Hrest; [by apply wf_later | apply frozen_refl] |].
  destruct (packer_safe a.(alt_packer).(p_default) s Hs) as (v & s1 & -> & Hl & Hst).
  cbn [mbind result_bind]. case_test.
  - do 2 eexists. split; [done |]. split; [done |]. intros Hn.
    by rewrite not_ok in E0 by apply (frozen_not_ok s), Hst, Hn.
  - apply Hrest; [done |]. intros Hn. by apply Hst.
Qed.

Lemma peekByte_latched {D} `{F : FileLike D} (s s' : Stream D) o :
  s.(status) <> Ok -> peekByte s = Ret (o, s') -> s' = s.
Proof.
  intros Hn. unfold peekByte, ensurePeekCached, mbind, io_bind.
  destruct (s.(hasPeekByte)); [by intros [= _ ->] |]. rewrite (not_ok _ Hn).
  destruct (s.(dev)); by intros [= _ ->].
Qed.

#[export] Instance variant_packer_safe {V} (W : Variant V) v0 `{HW : !SafeVariant W} :
  SafePacker (variant_packer W v0).
Proof.
  split. intros D F R old s Hs. cbn [p_read variant_packer]. unfold read_variant.
  destruct (peekByte_safe s Hs) as (o & s1 & E & Hl & _). rewrite E. cbn [mbind result_bind].
  assert (Hs1 : s.(status) <> Ok -> s1 = s) by (intros Hn; by eapply peekByte_latched).
  assert (Hend : forall s2, later s s2 -> (s.(status) <> Ok -> frozen s s2) -> forall st, st <> Ok ->
    exists a s', Ret (old, if isOk s2.(status) then setStatus st s2 else s2) = Ret (a, s')
      /\ later s s' /\ (s.(status) <> Ok -> a = old /\ frozen s s')).
  { intros s2 Hl2 Hf st Hst. do 2 eexists. split; [done |].
    split; [destruct (isOk _); apply Hl2 |]. intros Hn. split; [done |].
    rewrite not_ok by apply (frozen_not_ok s), Hf, Hn. by apply Hf. }
  destruct o as [b |]; [| apply Hend; try done; intros Hn; rewrite (Hs1 Hn); by apply frozen_refl].
  case_test.
  { do 2 eexists. split; [done |]. split; [apply Hl |]. intros Hn. rewrite (Hs1 Hn).
    split; [done | by apply frozen_status]. }
  destruct (variant_safe (msgpack_wire_kind b) s1 (proj1 Hl)) as (o & s2 & -> & Hl2 & Hst).
  cbn [mbind result_bind].
  assert (Hf : s.(status) <> Ok -> o = None /\ frozen s s2).
  { intros Hn. rewrite (Hs1 Hn) in Hst. by apply Hst. }
  destruct o as [v |].
  - do 2 eexists. split; [done |]. split; [by eapply later_trans |]. intros Hn. by destruct (Hf Hn).
  - apply Hend; [by eapply later_trans | by intros; apply Hf | done].
Qed.

(** ** The types of the templates *)

(** No timestamp anywhere: the conversion of one can overflow. *)
Fixpoint timeless (t : MsgType) : bool :=
  match t with
  | TDateTime => false
  | TVector t | TMap _ t => timeless t
  | TVariant a => timeless_choice a
  | _ => true
  end
with timeless_choice (a : Alternatives) : bool :=
  match a with Only x => timeless_alt x | Or x a => timeless_alt x && timeless_choice a end
with timeless_alt (x : AltType) : bool := match x with AString => true | AType t => timeless t end.

#[export] Instance key_safe k : SafePacker (key_packer k).
Proof. destruct k as [| [] | []]; apply _. Qed.

Lemma timeless_safe : (forall t, timeless t = true -> SafePacker (packer t))
  /\ (forall a, timeless_choice a = true -> SafeVariant (variant_of a))
  /\ (forall x, timeless_alt x = true -> SafePacker (alt_packer_of x)).
Proof.
  apply msgtype_mutind; cbn [timeless timeless_choice timeless_alt packer variant_of alt_packer_of]; try done; intros; try apply _.
  - apply vector_safe. auto.
  - apply map_safe; [apply _ | auto].
  - apply variant_packer_safe. auto.
  - apply variant_alt_safe; [cbn; auto | apply _].
  - apply andb_true_iff in H1 as [H1 H2]. apply variant_alt_safe; [cbn; auto | auto].
Qed.
