(* ===== verification/MsgPackProps.v ===== *)
(** * Properties of the MessagePack streams *)

From S2P Require Import Prelude FileLike MsgPack MsgPackTypes MsgPackProofs MsgPackRoundTrip.
From S2P Require Import MsgPackSafety.

(** C10: Values of any nesting of integers, bools, floats, extensions, times, vectors,
    maps and variants (these with strings), in range (lengths to INT_MAX, whole ms from
    1970, sorted integer or bool keys, no earlier alternative of the same kind), are
    written as bytes that read back as the value. *)
Theorem msgpack_roundtrip (x : AltType) (a old : alt_value x)
    {D1} `{F1 : FileLike D1} `{W : !WriteContract D1} {D2} `{F2 : FileLike D2} `{R : !ReadContract D2}
    (s : Stream D1) d n (t : Stream D2) post :
  alt_fits x a -> takes s d n -> zlen (alt_encoding x a) <= n -> holds t (alt_encoding x a ++ post) ->
  exists d' t', (alt_packer_of x).(p_write) a s = Ret (set_dev d' s) /\ written d' = written d ++ alt_encoding x a
    /\ (alt_packer_of x).(p_read) old t = Ret (a, t') /\ holds t' post /\ t'.(pos) = t.(pos) + zlen (alt_encoding x a).
Proof.
  intros Ha Ht Hn Hh. destruct all_lawful as (_ & _ & L). destruct (L x) as (P & Ew & Ef). rewrite <- Ew in *.
  destruct (pack_writes a (Ef a Ha) s d n Ht Hn) as (d' & E & Hw & _).
  destruct (pack_reads a (Ef a Ha) old t post Hh) as (t' & E' & Hh' & Hp & _). by exists d', t'.
Qed.

(** C34: On any device that keeps the read contract and any bytes, reading a value of any
    nesting of these types without times returns without leaving a buffer or looping; once
    an error is recorded, further reads change neither the value nor the device. *)
Theorem msgpack_read_safe (x : AltType) (old : alt_value x) {D} `{F : FileLike D} `{R : !ReadContract D} (s : Stream D) :
  timeless_alt x = true -> wf s ->
  exists a s', (alt_packer_of x).(p_read) old s = Ret (a, s') /\ wf s' /\ s.(pos) <= s'.(pos)
    /\ (s.(status) <> Ok -> a = old /\ s'.(dev) = s.(dev) /\ s'.(status) <> Ok).
Proof.
  intros Ht Hs. destruct timeless_safe as (_ & _ & L). destruct (L x Ht) as [Hx].
  destruct (Hx D F R old s Hs) as (a & s' & E & (Hw & Hp & _) & Hf).
  exists a, s'. split_and!; try done. intros Hn. destruct (Hf Hn) as (-> & st & Hst & ->). done.
Qed.

(** A length that an array, map or extension header reader accepts is at most INT_MAX
    and fits into what the stream limit still allows, so no allocation is driven past it. *)
Theorem announced_length_bounded {D} `{F : FileLike D} `{R : !ReadContract D} (s s' : Stream D) len :
  wf s ->
  readArrayHeader s = Ret (Done len, s') \/ readMapHeader s = Ret (Done len, s')
    \/ (exists ty, readExtHeader s = Ret (Done (len, ty), s')) ->
  0 <= len <= INT_MAX /\ s'.(pos) + len <= s'.(limit).
Proof.
  intros Hs [E | [E | [ty E]]].
  - destruct (readArrayHeader_safe s Hs) as (o & s1 & E1 & _ & Ho). rewrite E1 in E.
    by injection E as -> ->.
  - destruct (readMapHeader_safe s Hs) as (o & s1 & E1 & _ & Ho). rewrite E1 in E.
    by injection E as -> ->.
  - destruct (readExtHeader_safe s Hs) as (o & s1 & E1 & _ & Ho). rewrite E1 in E.
    injection E as -> ->. apply Ho.
Qed.

(** ** Where the format and the code part *)

Lemma readItems_truncated {A} (P : Packer A) `{HP : !Packs P} {D} `{F : FileLike D}
    `{R : !ReadContract D} l acc k (s : Stream D) :
  Forall (packable P) l -> l <> [] -> holds s (wire_items P l) ->
  s.(limit) = s.(pos) + zlen (wire_items P l) ->
  exists s', readItems P (length l + k) acc s = Ret (acc ++ l, s') /\ s'.(status) = Ok.
Proof.
  intros Hl. revert acc s. induction Hl as [| a l Ha Hl IH]; intros acc s Hne Hs Hlim; [done |].
  unfold wire_items in *. cbn [map concat length Nat.add readItems] in *.
  destruct (pack_reads a Ha P.(p_default) s _ Hs) as (s1 & -> & Hs1 & Hp1 & Hl1).
  cbn [mbind result_bind]. pose proof Hs1 as (d & Hd & _ & Ho & _ & _ & _ & _). rewrite Ho.
  cbn [isOk negb]. unfold atEnd. rewrite Hd, Hl1, Hp1, Hlim, zlen_app. destruct l as [| b l].
  - change (zlen (concat (map (wire P) []))) with 0. test_true. by exists s1.
  - pose proof (Forall_inv Hl) as Hb. destruct (wire_bytes b Hb). cbn [map concat] in *.
    rewrite zlen_app in *. pose proof (zlen_nonneg (concat (map (wire P) l))). test_false.
    destruct (IH (acc ++ [a]) s1) as (s2 & E2 & Ho2); [done | done | rewrite zlen_app in Hlim; lia |].
    exists s2. by rewrite E2, <- app_assoc.
Qed.

(** An array that announces more items than the string holds is accepted with status
    Ok and yields the items that are there, because the vector reader stops at the end of
    the stream. *)
Theorem truncated_vector_accepted {A} (P : Packer A) `{HP : !Packs P} {D} `{F : FileLike D}
    `{R : !ReadContract D} n l old (s : Stream D) :
  Forall (packable P) l -> l <> [] -> zlen l < n <= INT_MAX -> n <= zlen (wire_items P l) ->
  holds s (wire_array n ++ wire_items P l) ->
  s.(limit) = s.(pos) + zlen (wire_array n ++ wire_items P l) ->
  exists s', read_vector P old s = Ret (l, s') /\ s'.(status) = Ok.
Proof.
  intros Hl Hne Hn Hlen Hs Hlim. pose proof (zlen_nonneg l). unfold read_vector.
  destruct (reads_array_header n ltac:(lia) s _ Hs Hlen) as (s1 & -> & Hs1 & Hp1 & Hl1).
  cbn [mbind result_bind].
  replace (Z.to_nat n) with (length l + (Z.to_nat n - length l))%nat by (unfold zlen in *; lia).
  apply (readItems_truncated P l []); try done. rewrite Hl1, Hp1, Hlim, zlen_app. lia.
Qed.

(** The eight-byte form: seconds in the low 34 bits. *)
Lemma unpackDatetime_8 bs : zlen bs = 8 -> is_bytes bs ->
  exists q, 0 <= q < 2 ^ 30
    /\ unpackDatetime bs = fromMSecsSinceEpoch (be_decode bs mod 2 ^ 34 * 1000 + q).
Proof.
  intros Hz Hb. pose proof (be_decode_bound bs Hb) as Hd. rewrite Hz in Hd.
  unfold unpackDatetime. rewrite Hz. replace (8 =? 4) with false by done.
  replace (8 =? 8) with true by done. set (v := be_decode bs) in *. clearbody v.
  replace (Z.land v 17179869183) with (v mod 2 ^ 34) by (symmetry; apply (Z.land_ones v 34); lia).
  rewrite shiftr_div by lia. cbn [mbind result_bind].
  assert (0 <= v mod 2 ^ 34 < 2 ^ 34) by (apply Z.mod_pos_bound; lia).
  assert (0 <= v / 2 ^ 34 < 2 ^ 30) by (split; [apply Z.div_pos | apply Z.div_lt_upper_bound]; lia).
  assert (0 <= v / 2 ^ 34 / 1000000 < 2 ^ 30)
    by (split; [apply Z.div_pos | apply Z.div_lt_upper_bound]; lia).
  exists (v / 2 ^ 34 / 1000000). split; [done |].
  set (q := v / 2 ^ 34 / 1000000) in *. set (m := v mod 2 ^ 34) in *. clearbody q m.
  unfold wrapu, wraps. rewrite (Z.mod_small (m * 1000)), (Z.mod_small (m * 1000 + q)) by lia.
  rewrite Z.mod_small by lia. f_equal. lia.
Qed.

Lemma packDatetime_8 dt : dt.(valid) = true -> exists x, packDatetime dt = be_encode 8 x.
Proof. intros Hv. unfold packDatetime. rewrite Hv. eexists. reflexivity. Qed.

Lemma unpackDatetime_after_1970 bs dt : zlen bs = 8 -> is_bytes bs ->
  unpackDatetime bs = Ret dt -> 0 <= dt.(tp).
Proof.
  intros Hz Hb. destruct (unpackDatetime_8 bs Hz Hb) as (q & Hq & ->).
  pose proof (Z.mod_pos_bound (be_decode bs) (2 ^ 34) ltac:(lia)).
  unfold fromMSecsSinceEpoch. case_test; [| done].
  intros Heq. injection Heq as <-. cbn [tp]. lia.
Qed.

(** A valid time point before 1970 never survives packing and unpacking as a
    MessagePack timestamp. *)
Theorem preepoch_not_restored dt : dt.(valid) = true -> dt.(tp) < 0 ->
  unpackDatetime (packDatetime dt) <> Ret dt.
Proof.
  intros Hv Hneg E. destruct (packDatetime_8 dt Hv) as [x Hx]. rewrite Hx in E.
  apply unpackDatetime_after_1970 in E; [lia | apply zlen_be_encode | apply be_encode_bytes].
Qed.

(** An eight-byte timestamp of 9223372037 seconds or more overflows the 64-bit
    nanosecond count of the clock when it is converted. *)
Theorem timestamp_overflow bs : zlen bs = 8 -> is_bytes bs ->
  9223372037 <= be_decode bs mod 2 ^ 34 -> unpackDatetime bs = Fault.
Proof.
  intros Hz Hb Hbig. destruct (unpackDatetime_8 bs Hz Hb) as (q & Hq & ->).
  unfold fromMSecsSinceEpoch. by test_false.
Qed.

(** [std::variant<float, double>] *)
Definition float_or_double : Variant (Z + (Z + False)) :=
  variant_alt float_alt (variant_alt double_alt variant_end).

(** A double written from std::variant<float, double> cannot be read back: the float
    alternative accepts the kind, fails and leaves ReadCorruptData before the double
    alternative is tried. *)
Theorem variant_shadowed {D} `{F : FileLike D} `{R : !ReadContract D} v old (s : Stream D) post :
  in_u 64 v -> holds s (wire double_packer v ++ post) ->
  exists s', read_variant float_or_double old s = Ret (old, s') /\ s'.(status) = ReadCorruptData.
Proof.
  intros Hv Hs. unfold read_variant. cbn [wire double_packs app] in Hs.
  destruct (peekByte_reads s _ _ Hs) as (s1 & -> & Hs1 & _). cbn [mbind result_bind].
  change (msgpack_wire_kind FLOAT64) with Float. cbn [variant_read_dispatch float_or_double variant_alt].
  rewrite bool_decide_false by done.
  assert (Hf : exists s2, read_float 0 s1 = Ret (0, s2) /\ s2.(status) = ReadCorruptData).
  { unfold read_float, assign, precond. pose proof Hs1 as (d & -> & _ & -> & _). cbn [isOk negb].
    destruct (reads_io_byte FLOAT64 s1 _ Hs1 (zlen_nonneg _)) as (s2 & E & _).
    unfold mbind at 2, io_bind. rewrite E. by eexists. }
  destruct Hf as (s2 & Ef & Hst).
  assert (Hd : read_double 0 s2 = Ret (0, s2)).
  { unfold read_double, assign. by rewrite latched_precond by (by rewrite Hst). }
  assert (E1 : variant_read_if float_alt Float s1 = Ret (None, s2)).
  { unfold variant_read_if. change (accepts float_alt Float) with true. cbn [negb].
    cbn [alt_packer float_alt p_read p_default float_packer]. rewrite Ef. cbn. by rewrite Hst. }
  assert (E2 : variant_read_if double_alt Float s2 = Ret (None, s2)).
  { unfold variant_read_if. change (accepts double_alt Float) with true. cbn [negb].
    cbn [alt_packer double_alt p_read p_default double_packer]. rewrite Hd. cbn. by rewrite Hst. }
  exists s2. unfold variant_dispatch_cons at 1. rewrite E1. cbn [mbind result_bind].
  cbn [variant_read_dispatch variant_alt]. unfold variant_dispatch_cons. rewrite E2.
  cbn. by rewrite Hst.
Qed.

(** ** Concrete streams *)

(** [std::map<int64_t, std::vector<std::variant<std::monostate, int64_t, std::string>>>] *)
Definition message_type : AltType :=
  AType (TMap (KInt W64) (TVector (TVariant (Or (AType TNil) (Or (AType (TKey (KInt W64))) (Only AString)))))).

Definition message : alt_value message_type :=
  [(-5, [inl tt; inr (inl 300); inr (inr (inl (str "ab")))]); (7, [])].
Definition message_bytes : list Z :=
  [0x82; 0xfb; 0x93; 0xc0; 0xcd; 1; 44; 0xa2; 97; 98; 7; 0x90].

Definition writer : Stream BytesIO.t := on_device BytesIO.empty.
Definition reader (bytes : list Z) : Stream BytesIO.t :=
  on_string (BytesIO.create bytes 0) (zlen bytes).

Lemma writer_takes : takes writer BytesIO.empty 1000.
Proof. split; [done |]. split; [done |]. split; [split; [| split] | split]; try closed_lia. apply is_bytes_nil. Qed.

Lemma reader_holds bytes : bytes_ok bytes = true -> zlen bytes <= INT_MAX ->
  holds (reader bytes) bytes.
Proof.
  intros Hb Hl. pose proof (bytes_ok_spec _ Hb). pose proof (zlen_nonneg bytes).
  assert (Hu : u32 (zlen bytes) = zlen bytes) by (apply u32_id; lia).
  exists (BytesIO.create bytes 0). unfold reader, on_string. cbn. rewrite Hu.
  unfold INT_MAX, UINT32_MAX in *. repeat split; try done; cbn; try lia.
Qed.

Lemma reader_wf bytes : bytes_ok bytes = true -> zlen bytes <= INT_MAX -> wf (reader bytes).
Proof.
  intros Hb Hl. pose proof (bytes_ok_spec _ Hb). pose proof (zlen_nonneg bytes).
  assert (Hu : u32 (zlen bytes) = zlen bytes) by (apply u32_id; lia).
  unfold reader, on_string. split; [| cbn; rewrite Hu; unfold is_byte, INT_MAX, UINT32_MAX in *; lia].
  intros d [= <-]. unfold INT_MAX in *. repeat split; try done; cbn; lia.
Qed.

Lemma message_fits : alt_fits message_type message.
Proof.
  split; [| split; [| closed_lia]].
  - repeat constructor; cbn; unfold in_s, bits; try lia; try done; try (by vm_compute); try closed_bytes.
  - cbn. repeat constructor.
Qed.

Lemma msgpack_roundtrip_witness :
  alt_encoding message_type message = message_bytes
  /\ exists d' t', (alt_packer_of message_type).(p_write) message writer = Ret (set_dev d' writer)
       /\ written d' = written BytesIO.empty ++ alt_encoding message_type message
       /\ (alt_packer_of message_type).(p_read) [] (reader message_bytes) = Ret (message, t')
       /\ holds t' [] /\ t'.(pos) = (reader message_bytes).(pos) + zlen (alt_encoding message_type message).
Proof.
  split; [vm_compute; reflexivity |].
  apply (msgpack_roundtrip message_type message [] writer BytesIO.empty 1000 (reader message_bytes) [] message_fits writer_takes).
  - closed_lia.
  - rewrite app_nil_r. apply reader_holds; closed_lia.
Defined.

Lemma msgpack_read_safe_witness :
  exists a s', (alt_packer_of message_type).(p_read) [] (reader [0x82; 1; 0x93; 0xd9; 9]) = Ret (a, s') /\ wf s'
    /\ (reader [0x82; 1; 0x93; 0xd9; 9]).(pos) <= s'.(pos)
    /\ ((reader [0x82; 1; 0x93; 0xd9; 9]).(status) <> Ok ->
        a = [] /\ s'.(dev) = (reader [0x82; 1; 0x93; 0xd9; 9]).(dev) /\ s'.(status) <> Ok).
Proof.
  apply (msgpack_read_safe message_type [] (reader [0x82; 1; 0x93; 0xd9; 9])); [reflexivity |].
  apply reader_wf; closed_lia.
Defined.

Lemma announced_length_bounded_witness :
  exists s', readArrayHeader (reader [0x92; 1; 2]) = Ret (Done 2, s')
    /\ 0 <= 2 <= INT_MAX /\ s'.(pos) + 2 <= s'.(limit).
Proof.
  eexists. split; [reflexivity |].
  refine (announced_length_bounded (reader [0x92; 1; 2]) _ 2 _ (or_introl eq_refl)).
  apply reader_wf; closed_lia.
Defined.

Lemma truncated_vector_accepted_witness :
  exists s', read_vector u8_packer [] (reader [0x92; 0xcc; 200]) = Ret ([200], s') /\ s'.(status) = Ok.
Proof.
  refine (truncated_vector_accepted u8_packer 2 [200] [] (reader [0x92; 0xcc; 200]) _ _ _ _ _ _).
  - repeat constructor; closed_lia.
  - done.
  - closed_lia.
  - closed_lia.
  - apply reader_holds; closed_lia.
  - closed_lia.
Defined.

Lemma preepoch_not_restored_witness :
  unpackDatetime (packDatetime (mkDateTime (-1000000000) true false))
  <> Ret (mkDateTime (-1000000000) true false).
Proof. refine (preepoch_not_restored (mkDateTime (-1000000000) true false) _ _); closed_lia. Defined.

Lemma timestamp_overflow_witness : unpackDatetime [0; 0; 0; 3; 255; 255; 255; 255] = Fault.
Proof. refine (timestamp_overflow [0; 0; 0; 3; 255; 255; 255; 255] _ _ _); [done | closed_bytes | closed_lia]. Defined.

Lemma variant_shadowed_witness :
  exists s', read_variant float_or_double (inl 0) (reader (FLOAT64 :: be_encode 8 0x3ff8000000000000))
    = Ret (inl 0, s') /\ s'.(status) = ReadCorruptData.
Proof.
  refine (variant_shadowed 0x3ff8000000000000 (inl 0) (reader (FLOAT64 :: be_encode 8 0x3ff8000000000000)) [] _ _).
  - closed_lia.
  - apply reader_holds; closed_lia.
Defined.
