(* ===== verification/Bencode.v ===== *)
(** * Bencode streams

    [src/src/bencode.cpp] and [src/include/qtng/bencode.h].  A bencode stream is
    the raw stream of [MsgPack] (the reads, the look-ahead byte and the status
    are the same code) with an allowance for what decoding may allocate.  The decimal
    numerals it reads and writes come first. *)

From S2P Require Import Prelude FileLike MsgPack.

(** ** Decimal numerals

    [std::to_string] and [strtoll] / [strtoull] as the text protocols use them, and the
    round trip between the two. *)

Definition char_0 : Z := 48.
Definition char_9 : Z := 57.
Definition char_minus : Z := 45.

(** [isdigit(static_cast<unsigned char>(c))] *)
Definition isdigit (c : Z) : bool := (char_0 <=? c) && (c <=? char_9).

(** The digits of [n >= 0], most significant first; [fuel] bounds their number. *)
Fixpoint digits_of (fuel : nat) (n : Z) : list Z :=
  match fuel with
  | O => []
  | S fuel' => if n <? 10 then [char_0 + n]
               else digits_of fuel' (n / 10) ++ [char_0 + n mod 10]
  end.

(** A 64-bit value has at most 20 digits. *)
Definition to_string (i : Z) : list Z :=
  if i <? 0 then char_minus :: digits_of 20 (- i) else digits_of 20 i.

(** The value of a string of digits. *)
Definition digits_value (l : list Z) : Z := fold_left (fun v c => v * 10 + (c - char_0)) l 0.

(** [strtoll] on an optional minus sign and digits: out of range it saturates. *)
Definition strtoll (l : list Z) : Z :=
  let v := match l with
           | c :: l' => if c =? char_minus then - digits_value l' else digits_value l
           | [] => 0
           end in
  Z.max (- 2 ^ 63) (Z.min (2 ^ 63 - 1) v).

(** [strtoull] on digits. *)
Definition strtoull (l : list Z) : Z := Z.min (2 ^ 64 - 1) (digits_value l).

Definition all_digits (l : list Z) : Prop := Forall (fun c => isdigit c = true) l.

Lemma isdigit_range c : isdigit c = true <-> 48 <= c <= 57.
Proof. unfold isdigit, char_0, char_9. lia. Qed.

Lemma digits_value_app l c : digits_value (l ++ [c]) = digits_value l * 10 + (c - char_0).
Proof. unfold digits_value. by rewrite fold_left_app. Qed.

Lemma digits_of_spec fuel n : (0 < fuel)%nat -> 0 <= n < 10 ^ Z.of_nat fuel ->
  digits_value (digits_of fuel n) = n /\ all_digits (digits_of fuel n)
  /\ 0 < zlen (digits_of fuel n) <= Z.of_nat fuel.
Proof.
  revert n. induction fuel as [| fuel IH]; intros n Hf Hn; [lia |]. cbn [digits_of]. case_test.
  - unfold digits_value. cbn. split_and!; try (unfold zlen; simpl; lia).
    repeat constructor. apply isdigit_range. unfold char_0. lia.
  - destruct fuel as [| fuel]; [cbn in Hn; lia |].
    rewrite Nat2Z.inj_succ, Z.pow_succ_r in Hn by lia.
    destruct (IH (n / 10)) as (Hv & Hd & Hl); [lia | dm_lia |].
    rewrite digits_value_app, Hv, zlen_app. split_and!.
    + pose proof (Z.div_mod n 10). lia.
    + apply Forall_app. split; [done |]. repeat constructor. apply isdigit_range.
      pose proof (Z.mod_pos_bound n 10). unfold char_0. lia.
    + change (zlen [char_0 + n mod 10]) with 1. lia.
    + change (zlen [char_0 + n mod 10]) with 1. lia.
Qed.

(** No leading zero, except for zero itself. *)
Lemma digits_of_head fuel n : (0 < fuel)%nat -> 0 <= n < 10 ^ Z.of_nat fuel ->
  exists c l, digits_of fuel n = c :: l /\ (c = char_0 -> l = [] /\ n = 0).
Proof.
  revert n. induction fuel as [| fuel IH]; intros n Hf Hn; [lia |]. cbn [digits_of]. case_test.
  - exists (char_0 + n), []. split; [done |]. intros. split; [done | lia].
  - destruct fuel as [| fuel]; [cbn in Hn; lia |].
    rewrite Nat2Z.inj_succ, Z.pow_succ_r in Hn by lia.
    destruct (IH (n / 10)) as (c & l & -> & Hc); [lia | dm_lia |].
    exists c, (l ++ [char_0 + n mod 10]). split; [done |].
    intros E'. destruct (Hc E') as [_ H0]. dm_lia.
Qed.

(** The number of digits grows with the value. *)
Lemma digits_of_length fuel n k : (0 < k)%nat -> 0 <= n < 10 ^ Z.of_nat k ->
  zlen (digits_of fuel n) <= Z.of_nat k.
Proof.
  revert n k. induction fuel as [| fuel IH]; intros n k Hk Hn; cbn [digits_of].
  - change (zlen (@nil Z)) with 0. lia.
  - case_test; [change (zlen [char_0 + n]) with 1; lia |].
    destruct k as [| [| k]]; [lia | cbn in Hn; lia |].
    rewrite (Nat2Z.inj_succ (S k)), Z.pow_succ_r in Hn by lia.
    specialize (IH (n / 10) (S k)). rewrite zlen_app.
    change (zlen [char_0 + n mod 10]) with 1. rewrite (Nat2Z.inj_succ (S k)).
    assert (0 <= n / 10 < 10 ^ Z.of_nat (S k)) by dm_lia. lia.
Qed.

Lemma all_digits_bytes l : all_digits l -> is_bytes l.
Proof. apply Forall_impl. intros c Hc%isdigit_range. unfold is_byte. lia. Qed.

(** A value; a dictionary is its entries in key order. *)
Inductive Bencode : Type :=
| Invalid
| Integer (i : Z)
| String (s : list Z)
| List (l : list Bencode)
| Dict (m : list (list Z * Bencode)).

(** [operator<] of [std::string]: lexicographic on unsigned characters. *)
Fixpoint string_lt (a b : list Z) : bool :=
  match a, b with
  | _, [] => false
  | [], _ :: _ => true
  | x :: a', y :: b' => (x <? y) || ((x =? y) && string_lt a' b')
  end.

(** [m[key] = value] *)
Fixpoint dict_assign (k : list Z) (v : Bencode) (m : list (list Z * Bencode)) :
    list (list Z * Bencode) :=
  match m with
  | [] => [(k, v)]
  | (k', v') :: m' =>
      if string_lt k k' then (k, v) :: m
      else if string_lt k' k then (k', v') :: dict_assign k v m'
      else (k', v) :: m'
  end.

(** The accessors give a default for a value of another type. *)
Definition toInteger (defaultValue : Z) (v : Bencode) : Z :=
  match v with Integer i => i | _ => defaultValue end.
Definition toString (v : Bencode) : list Z := match v with String s => s | _ => [] end.
Definition toList (v : Bencode) : list Bencode := match v with List l => l | _ => [] end.
Definition toMap (v : Bencode) : list (list Z * Bencode) := match v with Dict m => m | _ => [] end.

(** [BencodeStreamPrivate] *)
Record BStream (D : Type) : Type := mkB {
  raw : Stream D;
  allocLimit : Z;
  bytesAllocated : Z
}.
Arguments mkB {D}.
Arguments raw {D}.
Arguments allocLimit {D}.
Arguments bytesAllocated {D}.

Definition bio (D A : Type) : Type := BStream D -> result (outcome A * BStream D).

#[export] Instance bio_ret D : MRet (bio D) := fun A a s => Ret (Done a, s).
#[export] Instance bio_bind D : MBind (bio D) := fun A B k m s =>
  match m s with
  | Ret (Done a, s') => k a s'
  | Ret (Failed _, s') => Ret (Failed None, s')
  | Reject => Reject
  | Fault => Fault
  | OutOfFuel => OutOfFuel
  end.

Definition char_i : Z := 105.
Definition char_l : Z := 108.
Definition char_d : Z := 100.
Definition char_e : Z := 101.
Definition char_colon : Z := 58.

Section BStream.
Context {D : Type} `{F : FileLike D}.

Definition with_raw (r : Stream D) (s : BStream D) : BStream D :=
  mkB r s.(allocLimit) s.(bytesAllocated).

Definition raw_io {A} (m : io D A) : bio D A := fun s =>
  r ← m s.(raw);
  let '(o, b) := (r : outcome A * Stream D) in
  Ret (o, with_raw b s).

(** [status = st; return false;] *)
Definition bfail {A} (st : Status) : bio D A := raw_io (fail st None).

(** The constructors over a device and over a string to read. *)
Definition b_on_device (d : D) : BStream D := mkB (on_device d) (16 * 1024 * 1024) 0.
Definition b_on_string (d : D) (size : Z) : BStream D := mkB (on_string d size) (16 * 1024 * 1024) 0.
Definition setLengthLimit (l : Z) (s : BStream D) : BStream D := mkB s.(raw) l s.(bytesAllocated).

Definition bReadBytes (len : Z) : bio D (list Z) := raw_io (readRawBytes len).
Definition bReadByte : bio D Z := raw_io readByte.

(** [peekByte], and its use that turns a failure into [ReadPastEnd] *)
Definition bPeekByte : bio D Z := raw_io peekByte.

Definition peekOrEnd : bio D Z := fun s =>
  r ← bPeekByte s;
  let '(o, s) := (r : outcome Z * BStream D) in
  match o with
  | Done c => Ret (Done c, s)
  | Failed _ => bfail ReadPastEnd s
  end.

Definition consumeByte (expected : Z) : bio D unit :=
  c ← bReadByte;
  if negb (c =? expected) then bfail ReadCorruptData else mret tt.

Definition account (n : Z) : bio D unit := fun s =>
  if (s.(bytesAllocated) >? s.(allocLimit)) || (n >? u64 (s.(allocLimit) - s.(bytesAllocated)))
  then bfail ReadCorruptData s
  else Ret (Done tt, mkB s.(raw) s.(allocLimit) (u64 (s.(bytesAllocated) + n))).

(** The digits up to the closing [e]; at most 20 characters are kept, so the loop
    makes at most 20 rounds. *)
Fixpoint integerLoop (fuel : nat) (digits : list Z) : bio D (list Z) :=
  match fuel with
  | O => fun _ => OutOfFuel
  | S fuel' =>
      c ← bReadByte;
      if c =? char_e then mret digits
      else if negb (isdigit c) then bfail ReadCorruptData
      else
        let digits := digits ++ [c] in
        if zlen digits >? 20 then bfail ReadCorruptData else integerLoop fuel' digits
  end.

(** The sign is kept apart from the first digit that follows it. *)
Definition readSign : bio D (list Z * Z) :=
  c ← bReadByte;
  if c =? char_minus then c' ← bReadByte; mret ([char_minus], c') else mret ([], c).

Definition readInteger : bio D Z :=
  _ ← consumeByte char_i;
  sc ← readSign;
  let '(digits, c) := (sc : list Z * Z) in
  if negb (isdigit c) then bfail ReadCorruptData else
  if c =? char_0 then
    c ← bReadByte;
    if negb (c =? char_e) then bfail ReadCorruptData else mret 0
  else
    digits ← integerLoop 21 (digits ++ [c]);
    if bool_decide (digits = [char_minus; char_0]) then bfail ReadCorruptData
    else mret (strtoll digits).

(** [while (peekByte(&c) && isdigit(c))]: more than 10 digits are an error *)
Fixpoint lengthLoop (fuel : nat) (lenDigits : list Z) : bio D (list Z) :=
  match fuel with
  | O => fun _ => OutOfFuel
  | S fuel' => fun s =>
      r ← bPeekByte s;
      let '(o, s) := (r : outcome Z * BStream D) in
      match o with
      | Failed _ => Ret (Done lenDigits, s)
      | Done c =>
          if negb (isdigit c) then Ret (Done lenDigits, s) else
          (c ← bReadByte;
           let lenDigits := lenDigits ++ [c] in
           if zlen lenDigits >? 10 then bfail ReadCorruptData else lengthLoop fuel' lenDigits) s
      end
  end.

Definition checkAllocLimit (len : Z) : bio D unit := fun s =>
  if len >? s.(allocLimit) then bfail ReadCorruptData s else Ret (Done tt, s).

Definition bReadString : bio D (list Z) :=
  c ← peekOrEnd;
  if negb (isdigit c) then bfail ReadCorruptData else
  lenDigits ← lengthLoop 11 [];
  if (zlen lenDigits =? 0) || ((zlen lenDigits >? 1) && (hd 0 lenDigits =? char_0))
  then bfail ReadCorruptData else
  _ ← consumeByte char_colon;
  let len := strtoull lenDigits in
  _ ← checkAllocLimit len;
  _ ← account len;
  if len >? 0 then bReadBytes len else mret [].

(** [readValue] with the loops of its list and dictionary branches. *)
Fixpoint readValue (fuel : nat) : bio D Bencode :=
  match fuel with
  | O => fun _ => OutOfFuel
  | S fuel' =>
      c ← peekOrEnd;
      if c =? char_i then i ← readInteger; mret (Integer i)
      else if c =? char_l then _ ← consumeByte char_l; readListItems fuel' []
      else if c =? char_d then _ ← consumeByte char_d; readDictEntries fuel' []
      else if isdigit c then s ← bReadString; mret (String s)
      else bfail ReadCorruptData
  end
with readListItems (fuel : nat) (l : list Bencode) : bio D Bencode :=
  match fuel with
  | O => fun _ => OutOfFuel
  | S fuel' =>
      c ← peekOrEnd;
      if c =? char_e then _ ← consumeByte char_e; mret (List l) else
      item ← readValue fuel';
      _ ← account 1;
      readListItems fuel' (l ++ [item])
  end
with readDictEntries (fuel : nat) (m : list (list Z * Bencode)) : bio D Bencode :=
  match fuel with
  | O => fun _ => OutOfFuel
  | S fuel' =>
      c ← peekOrEnd;
      if c =? char_e then _ ← consumeByte char_e; mret (Dict m) else
      key ← bReadString;
      value ← readValue fuel';
      _ ← account 1;
      readDictEntries fuel' (dict_assign key value m)
  end.

(** ** Writing *)

Definition bAdvance (len : Z) : bio D unit := raw_io (advance len).

Definition bWriteBytes (data : list Z) : bio D unit :=
  _ ← raw_io (writeRawBytes data); bAdvance (zlen data).

Definition writeInteger (i : Z) : bio D unit := bWriteBytes (char_i :: to_string i ++ [char_e]).
Definition bWriteString (data : list Z) : bio D unit :=
  bWriteBytes (to_string (zlen data) ++ char_colon :: data).

Fixpoint writeValue (v : Bencode) : bio D unit :=
  match v with
  | Integer i => writeInteger i
  | String s => bWriteString s
  | List l =>
      _ ← bWriteBytes [char_l];
      _ ← (fix items (l : list Bencode) : bio D unit :=
             match l with
             | [] => mret tt
             | v :: l' => _ ← writeValue v; items l'
             end) l;
      bWriteBytes [char_e]
  | Dict m =>
      _ ← bWriteBytes [char_d];
      _ ← (fix entries (m : list (list Z * Bencode)) : bio D unit :=
             match m with
             | [] => mret tt
             | (k, v) :: m' => _ ← bWriteString k; _ ← writeValue v; entries m'
             end) m;
      bWriteBytes [char_e]
  | Invalid => bfail WriteFailed
  end.

(** [operator>>] and [operator<<]: a failure that left the status alone spoils it. *)
Definition bready (s : BStream D) : bool := ready s.(raw).

Definition spoil (st : Status) (s : BStream D) : BStream D :=
  if isOk s.(raw).(status) then with_raw (setStatus st s.(raw)) s else s.

(** The operators [>>]; after a failure the source may leave a part of a container
    in the variable, which no caller that looks at the status uses. *)
Definition bRead {A} (m : bio D A) (old : A) (s : BStream D) : result (A * BStream D) :=
  if negb (bready s) then Ret (old, s) else
  r ← m s;
  let '(o, s) := (r : outcome A * BStream D) in
  Ret (match o with
       | Done a => (a, s)
       | Failed _ => (old, spoil ReadCorruptData s)
       end).

Definition bWrite (m : bio D unit) (s : BStream D) : result (BStream D) :=
  if negb (bready s) then Ret s else
  r ← m s;
  let '(o, s) := (r : outcome unit * BStream D) in
  Ret (match o with Done _ => s | Failed _ => spoil WriteFailed s end).
End BStream.

(** ** [Bencode::encode] and [Bencode::decode] *)

Definition encode (v : Bencode) : result (list Z) :=
  s ← bWrite (writeValue v) (b_on_device BytesIO.empty);
  Ret (match s.(raw).(dev) with Some d => BytesIO.data d | None => [] end).

(** [2 * size + 2] rounds are enough for any input of [size] bytes. *)
Definition decodeFuel (size : Z) : nat := 2 * Z.to_nat size + 2.

Definition decode (data : list Z) (lengthLimit : Z) : result Bencode :=
  let s := setLengthLimit lengthLimit (b_on_string (BytesIO.create data 0) (zlen data)) in
  r ← bRead (readValue (decodeFuel (zlen data))) Invalid s;
  let '(value, s) := (r : Bencode * BStream BytesIO.t) in
  Ret (if negb (isOk s.(raw).(status)) then Invalid
       else if negb (atEnd s.(raw)) then Invalid
       else value).
