(* ===== verification/BencodeProofs.v ===== *)
(** * Bencode: values, their bytes and their allocation

    The well-formed values, the bytes the writer produces for them and what
    decoding them charges to the allowance, with the rules that connect the
    reader to these bytes. *)

From S2P Require Import Prelude FileLike MsgPack MsgPackProofs Bencode.

(** ** The order on keys *)

Lemma string_lt_irrefl a : string_lt a a = false.
Proof. induction a as [| x a IH]; [done |]. cbn [string_lt]. rewrite IH. lia. Qed.

Lemma string_lt_trans a b c : string_lt a b = true -> string_lt b c = true -> string_lt a c = true.
Proof.
  revert b c. induction a as [| x a IH]; intros [| y b] [| z c]; cbn [string_lt]; try done.
  intros H1 H2. apply orb_true_iff in H1, H2. apply orb_true_iff.
  destruct H1 as [H1 | H1], H2 as [H2 | H2]; bool_to_prop; subst; [left; lia .. |].
  right. rewrite Z.eqb_refl. by eapply IH.
Qed.

Lemma string_lt_asym a b : string_lt a b = true -> string_lt b a = false.
Proof.
  intros H. destruct (string_lt b a) eqn:E; [| done].
  pose proof (string_lt_trans _ _ _ H E) as Haa. by rewrite string_lt_irrefl in Haa.
Qed.

Lemma string_lt_total a b : string_lt a b = false -> string_lt b a = false -> a = b.
Proof.
  revert b. induction a as [| x a IH]; intros [| y b]; cbn [string_lt]; try done.
  intros H1 H2. bool_to_prop. assert (x = y) as -> by lia. rewrite Z.eqb_refl in *. cbn [andb] in *.
  f_equal. by apply IH.
Qed.

(** Keys strictly increasing: each entry is before all the later ones. *)
Fixpoint ordered_keys (m : list (list Z * Bencode)) : Prop :=
  match m with
  | [] => True
  | e :: m' => Forall (fun e' => string_lt e.1 e'.1 = true) m' /\ ordered_keys m'
  end.

Lemma dict_assign_forall (P : list Z * Bencode -> Prop) k v m :
  Forall P m -> P (k, v) -> (forall k' v', k' = k -> P (k', v') -> P (k', v)) ->
  Forall P (dict_assign k v m).
Proof.
  intros Hm Hk Hr. induction Hm as [| [k' v'] m Hp Hm IH]; cbn [dict_assign]; [by constructor |].
  destruct (string_lt k k') eqn:E1; [by repeat constructor |].
  destruct (string_lt k' k) eqn:E2; [by constructor |]. constructor; [| done].
  eapply Hr; [| done]. symmetry. by apply string_lt_total.
Qed.

Lemma dict_assign_ordered k v m : ordered_keys m -> ordered_keys (dict_assign k v m).
Proof.
  induction m as [| [k' v'] m IH]; [done |]. intros [Hf Ho]. cbn [dict_assign fst] in *.
  destruct (string_lt k k') eqn:E1.
  - split; [| done]. constructor; [done |]. eapply Forall_impl; [| exact Hf].
    intros e He. by eapply string_lt_trans.
  - destruct (string_lt k' k) eqn:E2; [| done]. split; [| by apply IH].
    by apply dict_assign_forall.
Qed.

Lemma dict_assign_last k v m :
  Forall (fun e => string_lt e.1 k = true) m -> dict_assign k v m = m ++ [(k, v)].
Proof.
  induction 1 as [| [k' v'] m Hk _ IH]; [done |]. cbn [dict_assign app fst] in *.
  by rewrite (string_lt_asym _ _ Hk), Hk, IH.
Qed.

(** ** Induction on values *)

Section Induction.
Context (P : Bencode -> Prop).
Context (HInv : P Invalid) (HInt : forall i, P (Integer i)) (HStr : forall s, P (String s)).
Context (HList : forall l, Forall P l -> P (List l)).
Context (HDict : forall m, Forall (fun e => P e.2) m -> P (Dict m)).

Fixpoint Bencode_nested_ind (v : Bencode) : P v :=
  match v with
  | Invalid => HInv
  | Integer i => HInt i
  | String s => HStr s
  | List l => HList l ((fix go (l : list Bencode) : Forall P l :=
      match l with
      | [] => Forall_nil_2 P
      | v :: l' => Forall_cons_2 P v l' (Bencode_nested_ind v) (go l')
      end) l)
  | Dict m => HDict m ((fix go (m : list (list Z * Bencode)) : Forall (fun e => P e.2) m :=
      match m with
      | [] => Forall_nil_2 _
      | e :: m' => Forall_cons_2 (fun e => P e.2) e m' (Bencode_nested_ind e.2) (go m')
      end) m)
  end.
End Induction.

(** ** Well-formed values *)

Fixpoint well_formed (v : Bencode) : Prop :=
  match v with
  | Invalid => False
  | Integer i => in_s 64 i
  | String s => is_bytes s
  | List l => (fix go l := match l with [] => True | v :: l' => well_formed v /\ go l' end) l
  | Dict m =>
      ordered_keys m
      /\ (fix go (m : list (list Z * Bencode)) :=
            match m with [] => True | e :: m' => (is_bytes e.1 /\ well_formed e.2) /\ go m' end) m
  end.

Lemma well_formed_list l : well_formed (List l) <-> Forall well_formed l.
Proof.
  induction l as [| v l IH]; [by split; constructor |]. rewrite Forall_cons_iff, <- IH. done.
Qed.

Lemma well_formed_dict m :
  well_formed (Dict m) <-> ordered_keys m /\ Forall (fun e => is_bytes e.1 /\ well_formed e.2) m.
Proof.
  cbn [well_formed]. apply and_iff_compat_l.
  induction m as [| e m IH]; [by split; constructor |]. rewrite Forall_cons_iff, <- IH. done.
Qed.

(** What decoding the value charges to the allowance: the bytes of its strings
    and one per element. *)
Fixpoint alloc_size (v : Bencode) : Z :=
  match v with
  | Invalid | Integer _ => 0
  | String s => zlen s
  | List l => (fix go l := match l with [] => 0 | v :: l' => alloc_size v + 1 + go l' end) l
  | Dict m => (fix go (m : list (list Z * Bencode)) :=
      match m with [] => 0 | e :: m' => zlen e.1 + alloc_size e.2 + 1 + go m' end) m
  end.

Definition items_size (l : list Bencode) : Z := foldr (fun v acc => alloc_size v + 1 + acc) 0 l.
Definition entries_size (m : list (list Z * Bencode)) : Z :=
  foldr (fun e acc => zlen e.1 + alloc_size e.2 + 1 + acc) 0 m.

Lemma alloc_size_list l : alloc_size (List l) = items_size l.
Proof.
  induction l as [| v l IH]; [done |].
  change (alloc_size (List (v :: l))) with (alloc_size v + 1 + alloc_size (List l)). by rewrite IH.
Qed.

Lemma alloc_size_dict m : alloc_size (Dict m) = entries_size m.
Proof.
  induction m as [| e m IH]; [done |].
  change (alloc_size (Dict (e :: m))) with (zlen e.1 + alloc_size e.2 + 1 + alloc_size (Dict m)).
  by rewrite IH.
Qed.

Lemma alloc_size_nonneg v : 0 <= alloc_size v.
Proof.
  induction v as [| i | s | l Hl | m Hm] using Bencode_nested_ind; try done.
  - apply zlen_nonneg.
  - rewrite alloc_size_list. induction Hl; [done |]. unfold items_size in *. cbn [foldr]. lia.
  - rewrite alloc_size_dict. induction Hm as [| e m He _ IH]; [done |].
    unfold entries_size in *. cbn [foldr]. pose proof (zlen_nonneg e.1). lia.
Qed.

Lemma items_size_app l v : items_size (l ++ [v]) = items_size l + alloc_size v + 1.
Proof. unfold items_size. induction l as [| x l IH]; cbn [foldr app]; lia. Qed.

Lemma entries_size_assign k v m :
  entries_size (dict_assign k v m) <= entries_size m + zlen k + alloc_size v + 1.
Proof.
  unfold entries_size. induction m as [| [k' v'] m IH]; cbn [dict_assign foldr fst snd]; [lia |].
  destruct (string_lt k k') eqn:E1; [cbn [foldr fst snd]; lia |].
  destruct (string_lt k' k) eqn:E2; cbn [foldr fst snd]; [lia |].
  pose proof (alloc_size_nonneg v'). pose proof (zlen_nonneg k). lia.
Qed.

(** ** The bytes of a value *)

Definition wire_int (i : Z) : list Z := char_i :: to_string i ++ [char_e].
Definition wire_str (s : list Z) : list Z := to_string (zlen s) ++ char_colon :: s.

Fixpoint wire_value (v : Bencode) : list Z :=
  match v with
  | Invalid => []
  | Integer i => wire_int i
  | String s => wire_str s
  | List l => char_l :: (fix go l := match l with [] => [] | v :: l' => wire_value v ++ go l' end) l
                ++ [char_e]
  | Dict m => char_d :: (fix go (m : list (list Z * Bencode)) :=
      match m with [] => [] | e :: m' => (wire_str e.1 ++ wire_value e.2) ++ go m' end) m ++ [char_e]
  end.

Definition wire_list (l : list Bencode) : list Z := concat (map wire_value l).
Definition wire_dict (m : list (list Z * Bencode)) : list Z :=
  concat (map (fun e => wire_str e.1 ++ wire_value e.2) m).

Lemma wire_value_list l : wire_value (List l) = char_l :: wire_list l ++ [char_e].
Proof.
  cbn [wire_value]. do 2 f_equal. unfold wire_list.
  induction l as [| v l IH]; cbn [map concat]; [done |]. by rewrite IH.
Qed.

Lemma wire_value_dict m : wire_value (Dict m) = char_d :: wire_dict m ++ [char_e].
Proof.
  cbn [wire_value]. do 2 f_equal. unfold wire_dict.
  induction m as [| e m IH]; cbn [map concat]; [done |]. by rewrite IH.
Qed.
