(* ===== verification/BencodeRoundTrip.v ===== *)
(** * Bencode: reading back what was written *)

From S2P Require Import Prelude FileLike MsgPack MsgPackProofs Bencode BencodeProofs.

(** ** The reader on the bytes of a value *)

Section Reading.
Context {D : Type} `{F : FileLike D} `{R : !ReadContract D}.

Definition bholds (s : BStream D) (bs : list Z) : Prop :=
  holds s.(raw) bs /\ 0 <= s.(bytesAllocated) <= s.(allocLimit) /\ s.(allocLimit) <= UINT32_MAX.

(** [s'] is [s] after the bytes [bs], having charged [cost]. *)
Definition bafter (s s' : BStream D) (bs : list Z) (cost : Z) (post : list Z) : Prop :=
  bholds s' post /\ s'.(raw).(pos) = s.(raw).(pos) + zlen bs
  /\ s'.(raw).(limit) = s.(raw).(limit)
  /\ s'.(allocLimit) = s.(allocLimit) /\ s'.(bytesAllocated) = s.(bytesAllocated) + cost.

Definition breads {A} (m : bio D A) (bs : list Z) (a : A) (cost : Z) : Prop :=
  forall s post, bholds s (bs ++ post) -> s.(bytesAllocated) + cost <= s.(allocLimit) ->
    exists s', m s = Ret (Done a, s') /\ bafter s s' bs cost post.

Lemma breads_raw {A} (m : io D A) bs a : reads_io 0 m bs a -> breads (raw_io m) bs a 0.
Proof.
  intros H s post (Hs & Ha & Hm) Hc.
  destruct (H _ _ Hs (zlen_nonneg post)) as (r & E & Hh & Hp & Hl).
  exists (with_raw r s). unfold raw_io. rewrite E. cbn.
  do 2 (split; [done |]). cbn. split_and!; try done. lia.
Qed.

Lemma breads_ret {A} (a : A) : breads (mret a) [] a 0.
Proof.
  intros s post Hs _. exists s. split; [done |]. split; [done |].
  split_and!; try done; change (zlen (@nil Z)) with 0; lia.
Qed.

Lemma breads_bind {A B} (m : bio D A) (k : A -> bio D B) bs1 bs2 a b c1 c2 :
  breads m bs1 a c1 -> breads (k a) bs2 b c2 -> 0 <= c2 ->
  breads (m ≫= k) (bs1 ++ bs2) b (c1 + c2).
Proof.
  intros H1 H2 Hc2 s post Hs Hc. rewrite <- app_assoc in Hs.
  destruct (H1 s _ Hs ltac:(lia)) as (s1 & E1 & Hs1 & Hp1 & Hl1 & Ha1 & Hb1).
  destruct (H2 s1 post Hs1) as (s2 & E2 & Hs2 & Hp2 & Hl2 & Ha2 & Hb2); [lia |].
  exists s2. unfold mbind, bio_bind. rewrite E1. split; [done |].
  split; [done |]. rewrite zlen_app. split_and!; try congruence; lia.
Qed.

(** The same when one of the parts charges nothing or reads nothing. *)
Lemma breads_then {A B} (m : bio D A) (k : A -> bio D B) bs1 bs2 a b c :
  breads m bs1 a 0 -> breads (k a) bs2 b c -> 0 <= c -> breads (m ≫= k) (bs1 ++ bs2) b c.
Proof. intros. replace c with (0 + c) by lia. by eapply breads_bind. Qed.

Lemma breads_last {A B} (m : bio D A) (k : A -> bio D B) bs a b c :
  breads m bs a c -> breads (k a) [] b 0 -> breads (m ≫= k) bs b c.
Proof.
  intros. rewrite <- (app_nil_r bs). replace c with (c + 0) by lia. by eapply breads_bind.
Qed.

Lemma breads_byte c : breads bReadByte [c] c 0.
Proof. apply breads_raw, reads_io_byte. Qed.

Lemma breads_consume c : breads (consumeByte c) [c] tt 0.
Proof.
  unfold consumeByte. eapply breads_last; [apply breads_byte |]. rewrite Z.eqb_refl. apply breads_ret.
Qed.

Lemma breads_account n : 0 <= n -> breads (account n) [] tt n.
Proof.
  intros Hn s post (Hs & Ha & Hm) Hc. unfold account, wrapu, UINT32_MAX in *.
  rewrite (Z.mod_small (_ - _)), (Z.mod_small (_ + n)) by lia.
  replace (_ || _)%bool with false by lia.
  eexists. split; [done |]. split.
  - split; [done |]. cbn. unfold UINT32_MAX. lia.
  - change (zlen (@nil Z)) with 0. cbn. lia.
Qed.

Lemma bPeek_holds s c post : bholds s (c :: post) ->
  exists s', bPeekByte s = Ret (Done c, s') /\ bafter s s' [] 0 (c :: post).
Proof.
  intros (Hs & Ha & Hm). destruct (peekByte_reads _ _ _ Hs) as (r & E & Hh & Hp & Hl).
  exists (with_raw r s). unfold bPeekByte, raw_io. rewrite E. split; [done |].
  change (zlen (@nil Z)) with 0. split; [done |]. cbn. split_and!; try done; lia.
Qed.

(** A look at the next byte in front of a reader of it. *)
Lemma breads_peek {A} c (k : Z -> bio D A) bs a n :
  breads (k c) (c :: bs) a n -> breads (peekOrEnd ≫= k) (c :: bs) a n.
Proof.
  intros H s post Hs Hc. cbn [app] in Hs.
  destruct (bPeek_holds s c (bs ++ post) Hs) as (s1 & E1 & Hs1 & Hp1 & Hl1 & Ha1 & Hb1).
  destruct (H s1 post Hs1) as (s2 & E2 & Hs2 & Hp2 & Hl2 & Ha2 & Hb2); [lia |].
  exists s2. unfold mbind, bio_bind, peekOrEnd. rewrite E1. cbn [mbind result_bind].
  rewrite E2. split; [done |]. split; [done |]. change (zlen (@nil Z)) with 0 in Hp1.
  split_and!; try congruence; lia.
Qed.

(** ** Integers *)

Lemma breads_integerLoop fuel acc ds :
  all_digits ds -> zlen acc + zlen ds <= 20 -> (length ds < fuel)%nat ->
  breads (integerLoop fuel acc) (ds ++ [char_e]) (acc ++ ds) 0.
Proof.
  revert acc fuel. induction ds as [| c ds IH]; intros acc [| fuel] Hd Hl Hf;
    cbn [length app integerLoop] in *; try lia.
  - rewrite app_nil_r. eapply breads_last; [apply breads_byte |]. apply breads_ret.
  - apply Forall_cons_iff in Hd as [Hc Hd]. pose proof (proj1 (isdigit_range c) Hc).
    rewrite zlen_cons in Hl. pose proof (zlen_nonneg ds).
    apply (breads_then _ _ [c] (ds ++ [char_e]) c); [apply breads_byte | | done].
    replace (c =? char_e) with false by (unfold char_e; lia). rewrite Hc. cbn [negb]. cbv zeta.
    replace (zlen (acc ++ [c]) >? 20) with false
      by (rewrite zlen_app; change (zlen [c]) with 1; lia).
    replace (acc ++ c :: ds) with ((acc ++ [c]) ++ ds) by (by rewrite <- app_assoc).
    apply IH; [done | rewrite zlen_app; change (zlen [c]) with 1; lia | lia].
Qed.

(** What follows the sign. *)
Lemma breads_magnitude sign c ds :
  all_digits (c :: ds) -> c <> char_0 -> zlen sign + zlen (c :: ds) <= 20 ->
  breads (if negb (isdigit c) then bfail ReadCorruptData else
          if c =? char_0 then
            c ← bReadByte;
            if negb (c =? char_e) then bfail ReadCorruptData else mret 0
          else
            digits ← integerLoop 21 (sign ++ [c]);
            if bool_decide (digits = [char_minus; char_0]) then bfail ReadCorruptData
            else mret (strtoll digits))
    (ds ++ [char_e]) (strtoll (sign ++ c :: ds)) 0.
Proof.
  intros Hd Hc Hl. pose proof Hd as [Hdc Hds]%Forall_cons_iff. rewrite Hdc. cbn [negb].
  rewrite zlen_cons in Hl. pose proof (zlen_nonneg ds). pose proof (zlen_nonneg sign).
  replace (c =? char_0) with false by lia.
  eapply breads_last.
  - apply breads_integerLoop; [done | rewrite zlen_app; change (zlen [c]) with 1; lia |].
    unfold zlen in *. lia.
  - replace ((sign ++ [c]) ++ ds) with (sign ++ c :: ds) by (by rewrite <- app_assoc).
    rewrite bool_decide_false; [apply breads_ret |].
    intros E. destruct sign as [| x [| y sign]]; cbn [app] in E.
    + injection E as -> E. destruct ds as [| d ds]; [done |]. injection E as ->.
      apply isdigit_range in Hdc. unfold char_minus in Hdc. lia.
    + injection E as -> E. done.
    + injection E as -> -> E. by destruct sign.
Qed.

(** Digits without a sign: a number above the range gives its upper end. *)
Lemma breads_natural n : 0 <= n < 10 ^ 20 ->
  breads readInteger (char_i :: digits_of 20 n ++ [char_e]) (Z.min (2 ^ 63 - 1) n) 0.
Proof.
  intros Hn. apply (breads_then _ _ [char_i] _ tt); [apply breads_consume | | done].
  destruct (digits_of_spec 20 n) as (Hv & Hd & Hl); [lia | lia |].
  destruct (digits_of_head 20 n) as (c & ds & E1 & Hc); [lia | lia |]. rewrite E1 in *.
  change ((c :: ds) ++ [char_e]) with ([c] ++ (ds ++ [char_e])).
  pose proof Hd as [Hdc _]%Forall_cons_iff. apply isdigit_range in Hdc as Hcr.
  eapply (breads_then readSign _ [c] (ds ++ [char_e]) ([], c)); [| | done].
  - unfold readSign. eapply breads_last; [apply breads_byte |].
    replace (c =? char_minus) with false by (unfold char_minus; lia). apply breads_ret.
  - cbv beta iota. destruct (Z.eq_dec c char_0) as [-> | Hc0].
    + destruct (Hc eq_refl) as [-> ->]. cbn [app]. change (isdigit char_0) with true.
      rewrite Z.eqb_refl. cbn [negb]. eapply breads_last; [apply breads_byte |]. apply breads_ret.
    + replace (Z.min _ n) with (strtoll ([] ++ c :: ds)).
      { apply breads_magnitude; [done | done | change (zlen (@nil Z)) with 0; lia]. }
      unfold strtoll. cbn [app]. replace (c =? char_minus) with false by (unfold char_minus; lia).
      rewrite Hv. lia.
Qed.

Lemma breads_integer i : in_s 64 i -> breads readInteger (wire_int i) i 0.
Proof.
  unfold in_s. intros Hi. unfold wire_int, to_string. case_test.
  - apply (breads_then _ _ [char_i] _ tt); [apply breads_consume | | done].
    destruct (digits_of_spec 20 (- i)) as (Hv & Hd & Hl); [lia | lia |].
    destruct (digits_of_head 20 (- i)) as (c & ds & E1 & Hc); [lia | lia |].
    pose proof (digits_of_length 20 (- i) 19 ltac:(lia) ltac:(lia)) as Hl'. rewrite E1 in *.
    change ((char_minus :: c :: ds) ++ [char_e]) with ([char_minus; c] ++ (ds ++ [char_e])).
    eapply (breads_then readSign _ [char_minus; c] (ds ++ [char_e]) ([char_minus], c)); [| | done].
    + unfold readSign. apply (breads_then _ _ [char_minus] [c] char_minus); [apply breads_byte | | done].
      eapply breads_last; [apply breads_byte | apply breads_ret].
    + cbv beta iota. replace i with (strtoll ([char_minus] ++ c :: ds)).
      * apply breads_magnitude; [done | intros ->; destruct Hc; [done | lia] |].
        change (zlen [char_minus]) with 1. lia.
      * unfold strtoll. cbn [app]. rewrite Z.eqb_refl, Hv. lia.
  - replace i with (Z.min (2 ^ 63 - 1) i) at 2 by lia. apply breads_natural. lia.
Qed.

(** ** Strings *)

Lemma lengthLoop_reads fuel acc ds s post :
  all_digits ds -> zlen acc + zlen ds <= 10 -> (length ds < fuel)%nat ->
  bholds s (ds ++ char_colon :: post) ->
  exists s', lengthLoop fuel acc s = Ret (Done (acc ++ ds), s')
    /\ bafter s s' ds 0 (char_colon :: post).
Proof.
  revert acc fuel s. induction ds as [| c ds IH]; intros acc [| fuel] s Hd Hl Hf Hs;
    cbn [length app lengthLoop] in *; try lia.
  - destruct (bPeek_holds _ _ _ Hs) as (s1 & -> & Ha). cbn [mbind result_bind].
    change (isdigit char_colon) with false. cbn [negb]. rewrite app_nil_r. by exists s1.
  - apply Forall_cons_iff in Hd as [Hc Hd]. rewrite zlen_cons in Hl. pose proof (zlen_nonneg ds).
    destruct (bPeek_holds _ _ _ Hs) as (s1 & -> & Hs1 & Hp1 & Hl1 & Ha1 & Hb1).
    cbn [mbind result_bind]. rewrite Hc. cbn [negb].
    destruct (breads_byte c s1 (ds ++ char_colon :: post) Hs1) as (s2 & E2 & Hs2 & Hp2 & Hl2 & Ha2 & Hb2).
    { destruct Hs1 as (_ & ? & _). lia. }
    unfold mbind, bio_bind. rewrite E2.
    replace (zlen (acc ++ [c]) >? 10) with false
      by (rewrite zlen_app; change (zlen [c]) with 1; lia).
    destruct (IH (acc ++ [c]) fuel s2) as (s3 & E3 & Hs3 & Hp3 & Hl3 & Ha3 & Hb3); try done; try lia.
    { rewrite zlen_app. change (zlen [c]) with 1. lia. }
    exists s3. rewrite E3, <- app_assoc. split; [done |]. split; [done |].
    change (zlen (@nil Z)) with 0 in Hp1. change (zlen [c]) with 1 in Hp2. rewrite zlen_cons.
    split_and!; try congruence; lia.
Qed.

Lemma breads_payload n d : n = zlen d -> n <= UINT32_MAX -> is_bytes d -> n <= INT_MAX ->
  breads (if n >? 0 then bReadBytes n else mret []) d d 0.
Proof.
  intros -> Hn Hd Hm. case_test.
  - by apply breads_raw, reads_io_raw.
  - destruct d; [apply breads_ret | zlen_lia].
Qed.

Lemma breads_after_length n d : n = zlen d -> is_bytes d -> n <= INT_MAX ->
  breads (_ ← consumeByte char_colon; _ ← checkAllocLimit n; _ ← account n;
          if n >? 0 then bReadBytes n else mret []) (char_colon :: d) d n.
Proof.
  intros -> Hd Hm. pose proof (zlen_nonneg d).
  apply (breads_then _ _ [char_colon] d tt); [apply breads_consume | | lia].
  assert (Hrest : breads (_ ← account (zlen d); if zlen d >? 0 then bReadBytes (zlen d) else mret [])
    d d (zlen d + 0)).
  { apply (breads_bind _ _ [] d tt); [by apply breads_account | | done].
    apply breads_payload; unfold INT_MAX, UINT32_MAX in *; done || lia. }
  rewrite Z.add_0_r in Hrest.
  intros s post Hs Hc. destruct (Hrest s post Hs Hc) as (s' & E & Ha). exists s'. split; [| done].
  rewrite <- E. unfold mbind at 1, bio_bind at 1, checkAllocLimit. destruct Hs as (_ & ? & _).
  by test_false.
Qed.

Lemma breads_string d : is_bytes d -> zlen d <= INT_MAX -> breads bReadString (wire_str d) d (zlen d).
Proof.
  intros Hd Hl. pose proof (zlen_nonneg d). unfold wire_str, to_string, INT_MAX in *. test_false.
  destruct (digits_of_spec 20 (zlen d)) as (Hv & Hds & Hlen); [lia | lia |].
  destruct (digits_of_head 20 (zlen d)) as (c & ds & E1 & Hc); [lia | lia |].
  pose proof (digits_of_length 20 (zlen d) 10 ltac:(lia) ltac:(lia)) as Hlen'.
  rewrite E1 in *. pose proof Hds as [Hdc _]%Forall_cons_iff.
  unfold bReadString. cbn [app]. apply breads_peek. rewrite Hdc. cbn [negb].
  change (c :: ds ++ char_colon :: d) with ((c :: ds) ++ char_colon :: d).
  intros s post Hs Hcost. rewrite <- app_assoc in Hs. cbn [app] in Hs.
  destruct (lengthLoop_reads 11 [] (c :: ds) s (d ++ post)) as (s1 & Eloop & Hs1 & Hp1 & Hl1 & Ha1 & Hb1);
    try done. { unfold zlen in Hlen'. lia. }
  unfold mbind at 1, bio_bind at 1. rewrite Eloop. cbn [app].
  replace (_ || _)%bool with false.
  2: { symmetry. apply orb_false_intro; [lia |]. apply andb_false_iff.
       destruct (Z.eqb_spec c char_0) as [-> |]; [left | right; cbn; lia].
       destruct (Hc eq_refl) as [-> _]. done. }
  destruct (breads_after_length (strtoull (c :: ds)) d) with (s := s1) (post := post)
    as (s2 & E2 & Hs2 & Hp2 & Hl2 & Ha2 & Hb2); try done.
  { unfold strtoull. rewrite Hv. lia. }
  { unfold strtoull, INT_MAX. rewrite Hv. lia. }
  { rewrite Ha1, Hb1. unfold strtoull. rewrite Hv. lia. }
  exists s2. split; [exact E2 |]. split; [done |]. rewrite zlen_cons in *. rewrite zlen_app, zlen_cons.
  replace (strtoull (c :: ds)) with (zlen d) in Hb2 by (unfold strtoull; rewrite Hv; lia).
  split_and!; try congruence; lia.
Qed.

(** ** Values *)

Lemma wire_str_head d : zlen d <= INT_MAX -> exists c bs, wire_str d = c :: bs /\ isdigit c = true.
Proof.
  intros Hl. pose proof (zlen_nonneg d). unfold wire_str, to_string, INT_MAX in *. test_false.
  destruct (digits_of_spec 20 (zlen d)) as (_ & Hds & _); [lia | lia |].
  destruct (digits_of_head 20 (zlen d)) as (c & ds & E1 & _); [lia | lia |]. rewrite E1 in *.
  apply Forall_cons_iff in Hds as [Hc _]. by exists c, (ds ++ char_colon :: d).
Qed.

Lemma wire_str_length d : zlen d < zlen (wire_str d).
Proof. unfold wire_str. rewrite zlen_app, zlen_cons. pose proof (zlen_nonneg (to_string (zlen d))). lia. Qed.

Lemma wire_value_head v : well_formed v -> zlen (wire_value v) <= INT_MAX ->
  exists c bs, wire_value v = c :: bs /\ c <> char_e.
Proof.
  intros Hv Hl. destruct v as [| i | s | l | m]; [done | ..].
  - by exists char_i, (to_string i ++ [char_e]).
  - cbn [wire_value] in *. pose proof (wire_str_length s). destruct (wire_str_head s) as (c & bs & E & Hc); [lia |].
    exists c, bs. split; [done |]. apply isdigit_range in Hc. unfold char_e. lia.
  - rewrite wire_value_list. by eexists char_l, _.
  - rewrite wire_value_dict. by eexists char_d, _.
Qed.

Definition value_ok (v : Bencode) : Prop :=
  well_formed v -> zlen (wire_value v) <= INT_MAX ->
  forall fuel, 2 * zlen (wire_value v) + 1 <= Z.of_nat fuel ->
  breads (readValue fuel) (wire_value v) v (alloc_size v).

(** The next item, its charge, and the rest. *)
Lemma breads_items l acc fuel :
  Forall value_ok l -> Forall well_formed l -> zlen (wire_list l) < INT_MAX ->
  2 * (zlen (wire_list l) + 1) + 2 <= Z.of_nat fuel ->
  breads (readListItems fuel acc) (wire_list l ++ [char_e]) (List (acc ++ l)) (items_size l).
Proof.
  intros Hok. revert acc fuel. induction Hok as [| v l Hv Hok IH]; intros acc fuel Hwf Hl Hf;
    (destruct fuel as [| fuel]; [zlen_lia |]); cbn [readListItems].
  - rewrite app_nil_r. apply breads_peek. rewrite Z.eqb_refl.
    eapply breads_last; [apply breads_consume | apply breads_ret].
  - apply Forall_cons_iff in Hwf as [Hvwf Hwf]. unfold wire_list in *. cbn [map concat] in *.
    rewrite zlen_app in *. pose proof (zlen_nonneg (concat (map wire_value l))).
    destruct (wire_value_head v Hvwf) as (c & bs & Ev & Hc); [lia |].
    assert (0 < zlen (wire_value v)) by (rewrite Ev, zlen_cons; pose proof (zlen_nonneg bs); lia).
    rewrite <- app_assoc. rewrite Ev at 1. cbn [app]. apply breads_peek.
    replace (c =? char_e) with false by lia.
    change (c :: bs ++ concat (map wire_value l) ++ [char_e])
      with ((c :: bs) ++ concat (map wire_value l) ++ [char_e]). rewrite <- Ev.
    unfold items_size. cbn [foldr]. fold (items_size l). rewrite <- Z.add_assoc.
    assert (0 <= items_size l) by (rewrite <- alloc_size_list; apply alloc_size_nonneg).
    apply (breads_bind _ _ _ _ v); [apply Hv; [done | lia | lia] | | lia].
    apply (breads_bind _ _ [] _ tt); [by apply breads_account | | lia].
    replace (acc ++ v :: l) with ((acc ++ [v]) ++ l) by (by rewrite <- app_assoc).
    apply IH; [done | lia | lia].
Qed.

Lemma breads_entries m acc fuel :
  Forall (fun e => value_ok e.2) m -> Forall (fun e => is_bytes e.1 /\ well_formed e.2) m ->
  ordered_keys (acc ++ m) -> zlen (wire_dict m) < INT_MAX ->
  2 * (zlen (wire_dict m) + 1) + 2 <= Z.of_nat fuel ->
  breads (readDictEntries fuel acc) (wire_dict m ++ [char_e]) (Dict (acc ++ m)) (entries_size m).
Proof.
  intros Hok. revert acc fuel. induction Hok as [| [k v] m Hv Hok IH]; intros acc fuel Hwf Ho Hl Hf;
    (destruct fuel as [| fuel]; [zlen_lia |]); cbn [readDictEntries].
  - rewrite app_nil_r. apply breads_peek. rewrite Z.eqb_refl.
    eapply breads_last; [apply breads_consume | apply breads_ret].
  - apply Forall_cons_iff in Hwf as [[Hk Hvwf] Hwf]. unfold wire_dict in *.
    cbn [map concat fst snd] in *. rewrite !zlen_app in *.
    set (rest := concat (map (fun e => wire_str e.1 ++ wire_value e.2) m)) in *.
    pose proof (zlen_nonneg rest). pose proof (zlen_nonneg (wire_value v)).
    pose proof (wire_str_length k). pose proof (zlen_nonneg k).
    destruct (wire_str_head k) as (c & bs & Ek & Hc); [lia |].
    rewrite <- !app_assoc. rewrite Ek at 1. cbn [app]. apply breads_peek.
    apply isdigit_range in Hc. replace (c =? char_e) with false by (unfold char_e; lia).
    change (c :: bs ++ wire_value v ++ rest ++ [char_e])
      with ((c :: bs) ++ wire_value v ++ rest ++ [char_e]). rewrite <- Ek.
    unfold entries_size. cbn [foldr fst snd]. fold (entries_size m). rewrite <- !Z.add_assoc.
    assert (0 <= entries_size m) by (rewrite <- alloc_size_dict; apply alloc_size_nonneg).
    pose proof (alloc_size_nonneg v).
    apply (breads_bind _ _ _ _ k); [apply breads_string; [done | lia] | | lia].
    apply (breads_bind _ _ _ _ v); [apply Hv; [done | lia | cbn [snd]; lia] | | lia].
    apply (breads_bind _ _ [] _ tt); [by apply breads_account | | lia].
    replace (acc ++ (k, v) :: m) with ((acc ++ [(k, v)]) ++ m) in * by (by rewrite <- app_assoc).
    rewrite dict_assign_last; [apply IH; [done | done | lia | lia] |].
    clear -Ho. induction acc as [| e acc IHa]; [constructor |]. destruct Ho as [He Ho].
    constructor; [| by apply IHa]. rewrite <- app_assoc in He. apply Forall_app in He as [_ He].
    apply (Forall_inv He).
Qed.

Lemma breads_value v : value_ok v.
Proof.
  induction v as [| i | s | l Hl | m Hm] using Bencode_nested_ind; intros Hwf Hlen fuel Hf; [done | ..];
    (destruct fuel as [| fuel]; [zlen_lia |]);
    cbn [readValue].
  - cbn [wire_value] in *. unfold wire_int at 1. apply breads_peek. rewrite Z.eqb_refl.
    eapply breads_last; [by apply breads_integer | apply breads_ret].
  - cbn [wire_value] in *. pose proof (wire_str_length s).
    destruct (wire_str_head s) as (c & bs & E & Hc); [lia |]. rewrite E. apply breads_peek.
    apply isdigit_range in Hc as Hr. unfold char_i, char_l, char_d. repeat test_false. rewrite Hc, <- E.
    eapply breads_last; [apply breads_string; [done | lia] | apply breads_ret].
  - rewrite wire_value_list, alloc_size_list in *. apply well_formed_list in Hwf.
    rewrite zlen_cons, zlen_app in *. change (zlen [char_e]) with 1 in *.
    apply breads_peek. change (char_l =? char_i) with false. rewrite Z.eqb_refl. cbv iota.
    assert (0 <= items_size l) by (rewrite <- alloc_size_list; apply alloc_size_nonneg).
    apply (breads_then _ _ [char_l] _ tt); [apply breads_consume | | done].
    apply (breads_items l []); [done | done | lia | lia].
  - rewrite wire_value_dict, alloc_size_dict in *. apply well_formed_dict in Hwf as [Ho Hwf].
    rewrite zlen_cons, zlen_app in *. change (zlen [char_e]) with 1 in *.
    apply breads_peek. change (char_d =? char_i) with false. change (char_d =? char_l) with false.
    rewrite Z.eqb_refl. cbv iota.
    assert (0 <= entries_size m) by (rewrite <- alloc_size_dict; apply alloc_size_nonneg).
    apply (breads_then _ _ [char_d] _ tt); [apply breads_consume | | done].
    apply (breads_entries m []); [done | done | done | lia | lia].
Qed.
End Reading.

(** ** The writer *)

Section Writing.
Context {D : Type} `{F : FileLike D} `{W : !WriteContract D}.

Definition bwrites (m : bio D unit) (bs : list Z) : Prop :=
  forall s d n, takes s.(raw) d n -> zlen bs <= n -> exists d' s', m s = Ret (Done tt, s')
    /\ takes s'.(raw) d' (n - zlen bs) /\ written d' = written d ++ bs.

Lemma bwrites_bytes bs : is_bytes bs -> zlen bs <= INT_MAX -> bwrites (bWriteBytes bs) bs.
Proof.
  intros Hb Hl s d n Ht Hn. destruct (writes_io_raw bs Hb Hl _ d n Ht Hn) as (d' & E & Ha & Hr).
  unfold bWriteBytes, bAdvance, raw_io, mbind, bio_bind. rewrite E. cbn.
  do 2 eexists. split; [done |]. destruct Ht as (_ & Hs & _). by split.
Qed.

Lemma bwrites_seq (m1 m2 : bio D unit) bs1 bs2 :
  bwrites m1 bs1 -> bwrites m2 bs2 -> bwrites (_ ← m1; m2) (bs1 ++ bs2).
Proof.
  intros H1 H2 s d n Ht Hn. rewrite zlen_app in *. pose proof (zlen_nonneg bs2).
  destruct (H1 s d n Ht ltac:(lia)) as (d1 & s1 & E1 & Ht1 & Hw1).
  destruct (H2 s1 d1 _ Ht1 ltac:(lia)) as (d2 & s2 & E2 & Ht2 & Hw2).
  exists d2, s2. unfold mbind, bio_bind. rewrite E1. split; [done |].
  rewrite Hw2, Hw1, app_assoc. split; [| done].
  by replace (n - (zlen bs1 + zlen bs2)) with (n - zlen bs1 - zlen bs2) by lia.
Qed.

Lemma bwrites_nil : bwrites (mret tt) [].
Proof.
  intros s d n Ht Hn. exists d, s. split; [done |].
  rewrite app_nil_r. change (zlen (@nil Z)) with 0. by rewrite Z.sub_0_r.
Qed.

Lemma to_string_bytes i : - 2 ^ 63 <= i < 2 ^ 63 -> is_bytes (to_string i) /\ zlen (to_string i) <= 20.
Proof.
  intros Hi. unfold to_string. case_test.
  - destruct (digits_of_spec 20 (- i)) as (_ & Hd & _); [lia | lia |].
    pose proof (digits_of_length 20 (- i) 19 ltac:(lia) ltac:(lia)). rewrite zlen_cons.
    split; [| lia]. apply is_bytes_cons; [unfold is_byte, char_minus; lia | by apply all_digits_bytes].
  - destruct (digits_of_spec 20 i) as (_ & Hd & ?); [lia | lia |]. split; [by apply all_digits_bytes | lia].
Qed.

Lemma bwrites_integer i : in_s 64 i -> bwrites (writeInteger i) (wire_int i).
Proof.
  unfold in_s. intros Hi. destruct (to_string_bytes i) as [Hb Hl]; [lia |]. apply bwrites_bytes.
  - apply is_bytes_cons; [unfold is_byte, char_i; lia |]. apply is_bytes_app_2; [done |].
    apply is_bytes_cons; [unfold is_byte, char_e; lia | apply is_bytes_nil].
  - change (zlen (char_i :: to_string i ++ [char_e]) <= INT_MAX). rewrite zlen_cons, zlen_app.
    change (zlen [char_e]) with 1. unfold INT_MAX. lia.
Qed.

Lemma bwrites_string s : is_bytes s -> zlen (wire_str s) <= INT_MAX -> bwrites (bWriteString s) (wire_str s).
Proof.
  intros Hs Hl. pose proof (wire_str_length s). pose proof (zlen_nonneg s).
  destruct (to_string_bytes (zlen s)) as [Hb _]; [unfold INT_MAX in *; lia |].
  apply bwrites_bytes; [| done]. apply is_bytes_app_2; [done |].
  apply is_bytes_cons; [unfold is_byte, char_colon; lia | done].
Qed.

Lemma bwrites_mark c : is_byte c -> bwrites (bWriteBytes [c]) [c].
Proof. intros. apply bwrites_bytes; [by apply is_bytes_cons; [| apply is_bytes_nil] | done]. Qed.

Lemma bwrites_value v : well_formed v -> zlen (wire_value v) <= INT_MAX ->
  bwrites (writeValue v) (wire_value v).
Proof.
  induction v as [| i | s | l Hl | m Hm] using Bencode_nested_ind; intros Hwf Hlen; [done | ..].
  - by apply bwrites_integer.
  - by apply bwrites_string.
  - rewrite wire_value_list in *. apply well_formed_list in Hwf. rewrite zlen_cons, zlen_app in Hlen.
    change (zlen [char_e]) with 1 in Hlen. cbn [writeValue].
    apply (bwrites_seq _ _ [char_l]); [apply bwrites_mark; unfold is_byte, char_l; lia |].
    apply bwrites_seq; [| apply bwrites_mark; unfold is_byte, char_e; lia].
    unfold wire_list in *. clear -Hl Hwf Hlen W.
    induction Hl as [| v l Hv Hl IH]; cbn [map concat] in *; [apply bwrites_nil |].
    apply Forall_cons_iff in Hwf as [Hvwf Hwf]. rewrite zlen_app in Hlen.
    pose proof (zlen_nonneg (wire_value v)). pose proof (zlen_nonneg (concat (map wire_value l))).
    apply bwrites_seq; [apply Hv; [done | lia] | apply IH; [done | lia]].
  - rewrite wire_value_dict in *. apply well_formed_dict in Hwf as [_ Hwf]. rewrite zlen_cons, zlen_app in Hlen.
    change (zlen [char_e]) with 1 in Hlen. cbn [writeValue].
    apply (bwrites_seq _ _ [char_d]); [apply bwrites_mark; unfold is_byte, char_d; lia |].
    apply bwrites_seq; [| apply bwrites_mark; unfold is_byte, char_e; lia].
    unfold wire_dict in *. clear -Hm Hwf Hlen W.
    induction Hm as [| [k v] m Hv Hm IH]; cbn [map concat fst snd] in *; [apply bwrites_nil |].
    apply Forall_cons_iff in Hwf as [[Hk Hvwf] Hwf]. rewrite !zlen_app in Hlen.
    set (rest := concat _) in *. pose proof (zlen_nonneg (wire_value v)).
    pose proof (zlen_nonneg rest). pose proof (zlen_nonneg (wire_str k)). rewrite <- app_assoc.
    apply bwrites_seq; [apply bwrites_string; [done | lia] |].
    apply bwrites_seq; [apply Hv; [done | lia] | apply IH; [done | lia]].
Qed.
End Writing.

(** [encode] gives the bytes of the value. *)
Lemma encode_wire v : well_formed v -> zlen (wire_value v) <= INT_MAX -> encode v = Ret (wire_value v).
Proof.
  intros Hv Hl. unfold encode, bWrite.
  destruct (bwrites_value v Hv Hl (b_on_device BytesIO.empty) BytesIO.empty INT_MAX)
    as (d & s & E & (Hd & Hs & _) & Hw).
  - split; [done |]. split; [done |]. split; [| done]. split; [done |]. split; [done | apply is_bytes_nil].
  - done.
  - rewrite E. cbn. rewrite Hd. cbn in Hw. unfold BytesIO.data. by rewrite Hw.
Qed.
