(* ===== verification/BencodeProps.v ===== *)
(** * Bencode: the theorems of [Bencode::encode] and [Bencode::decode] *)

From S2P Require Import Prelude FileLike MsgPack MsgPackTypes MsgPackProofs MsgPackSafety Bencode.
From S2P Require Import BencodeProofs BencodeRoundTrip.

(** ** Reading arbitrary input

    On every device that keeps the read contract the reader returns, within fuel
    linear in what the stream may still deliver.  A value it gives is well formed,
    ends within the limit of the stream and was charged to the allocation limit. *)

Section Position.
Context {D : Type} `{F : FileLike D}.

Lemma readLoop_pos fuel left met acc d (s : Stream D) o s' :
  readLoop fuel left met acc d s = Ret (o, s') -> s'.(pos) = s.(pos) /\ s'.(limit) = s.(limit).
Proof.
  revert left met acc d. induction fuel as [| fuel IH]; intros left met acc d; cbn [readLoop];
    (case_test; [by intros [= <- <-] |]); [done |].
  case_test; [done |]. destruct (dev_read _ _) as [[[k bs] d'] | | |]; try done. cbn [mbind result_bind].
  case_test; [by intros [= <- <-] |]. case_test.
  - destruct met; cbn [negb]; [by intros [= <- <-] | apply IH].
  - case_test; [done | apply IH].
Qed.

(** A read either delivers and moves the position within the limit, or leaves it. *)
Lemma readRaw_pos len (s : Stream D) o s' : 0 <= s.(pos) -> 0 <= len -> s.(limit) <= UINT32_MAX ->
  readRawBytes len s = Ret (o, s') ->
  match o with
  | Done _ => s'.(pos) = s.(pos) + len /\ s.(pos) + len <= s.(limit)
  | Failed _ => s'.(pos) = s.(pos)
  end.
Proof.
  intros Hp Hl Hm. unfold readRawBytes. case_test; [by intros [= <- <-] |].
  destruct (s.(dev)) as [d |]; [| by intros [= <- <-]]. case_test; [by intros [= <- <-] |].
  set (peeked := (_ && _)%bool). set (acc := if peeked then _ else _). set (s1 := if peeked then _ else _).
  assert (Hs1 : s1.(pos) = s.(pos)) by (unfold s1; by destruct peeked). clearbody s1 acc.
  unfold mbind, io_bind at 1. destruct (readLoop _ _ _ _ _ _) as [[o1 s2] | | |] eqn:E1; try done.
  apply readLoop_pos in E1 as [Hp2 _]. destruct o1 as [data |].
  - unfold io_bind, advance, mret, io_ret. intros [= <- <-]. cbn [pos set_pos].
    rewrite Hp2, Hs1. unfold wrapu, UINT32_MAX in *. rewrite Z.mod_small; lia.
  - intros [= <- <-]. by rewrite Hp2, Hs1.
Qed.

Lemma readByte_pos (s : Stream D) o s' : 0 <= s.(pos) -> s.(limit) <= UINT32_MAX ->
  readByte s = Ret (o, s') ->
  match o with
  | Done _ => s'.(pos) = s.(pos) + 1 /\ s.(pos) + 1 <= s.(limit)
  | Failed _ => s'.(pos) = s.(pos)
  end.
Proof.
  intros Hp Hl. unfold readByte, mbind, io_bind.
  destruct (readRawBytes 1 s) as [[o1 s1] | | |] eqn:E; try done.
  apply readRaw_pos in E; [| lia..]. destruct o1 as [p |]; [| by intros [= <- <-]].
  unfold lift. destruct (fetch p 0); try done. by intros [= <- <-].
Qed.

Lemma peekLoop_pos fuel met d (s : Stream D) o s' :
  peekLoop fuel met d s = Ret (o, s') -> s'.(pos) = s.(pos).
Proof.
  revert met d. induction fuel as [| fuel IH]; intros met d; cbn [peekLoop]; [done |].
  destruct (dev_read _ _) as [[[k bs] d'] | | |]; try done. cbn [mbind result_bind].
  case_test; [by intros [= <- <-] |]. case_test.
  - destruct met; cbn [negb]; [by intros [= <- <-] | apply IH].
  - destruct (fetch _ _); try done. by intros [= <- <-].
Qed.

Lemma peekByte_pos (s : Stream D) o s' : peekByte s = Ret (o, s') -> s'.(pos) = s.(pos).
Proof.
  unfold peekByte, mbind, io_bind. destruct (ensurePeekCached s) as [[[u | l] s1] | | |] eqn:E; try done;
    intros [= <- <-]; revert E; unfold ensurePeekCached;
    (destruct (s.(hasPeekByte)); [by inversion 1 |]); (destruct (s.(dev)); [| by inversion 1]);
    (destruct (isOk _); cbn [negb]; [| by inversion 1]); (case_test; [by inversion 1 |]);
    apply peekLoop_pos.
Qed.

(** A byte that was peeked at is the one the next read gives. *)
Lemma peekLoop_cached fuel met d (s : Stream D) u s' :
  peekLoop fuel met d s = Ret (Done u, s') -> s'.(hasPeekByte) = true.
Proof.
  revert met d. induction fuel as [| fuel IH]; intros met d; cbn [peekLoop]; [done |].
  destruct (dev_read _ _) as [[[k bs] d'] | | |]; try done. cbn [mbind result_bind].
  case_test; [done |]. case_test.
  - destruct met; cbn [negb]; [done | apply IH].
  - destruct (fetch _ _); try done. by intros [= <- <-].
Qed.

Lemma peekByte_cached (s : Stream D) c s' :
  peekByte s = Ret (Done c, s') -> s'.(hasPeekByte) = true /\ s'.(peekByteCache) = c.
Proof.
  unfold peekByte, mbind, io_bind. destruct (ensurePeekCached s) as [[[u | l] s1] | | |] eqn:E; try done.
  intros [= <- <-]. split; [| done]. revert E. unfold ensurePeekCached.
  destruct (s.(hasPeekByte)) eqn:Hh; [by intros [= <- <-] |]. destruct (s.(dev)); [| done].
  destruct (isOk _); cbn [negb]; [| done]. case_test; [done |]. apply peekLoop_cached.
Qed.

Lemma readByte_cached (s : Stream D) c s' :
  s.(hasPeekByte) = true -> readByte s = Ret (Done c, s') -> c = s.(peekByteCache).
Proof.
  intros Hh. unfold readByte, readRawBytes, mbind, io_bind. case_test; [done |].
  destruct (s.(dev)); [| done]. case_test; [done |]. rewrite Hh. by intros [= <- _].
Qed.
End Position.

Section Safety.
Context {D : Type} `{F : FileLike D} `{R : !ReadContract D}.

(** The streams [decode] works with. *)
Definition bwf (s : BStream D) : Prop :=
  wf s.(raw) /\ s.(raw).(pos) <= s.(raw).(limit) /\ s.(allocLimit) <= INT_MAX
  /\ 0 <= s.(bytesAllocated) <= s.(allocLimit).

Definition bstep (s s' : BStream D) : Prop :=
  bwf s' /\ s.(raw).(pos) <= s'.(raw).(pos) /\ s'.(raw).(limit) = s.(raw).(limit)
  /\ s'.(allocLimit) = s.(allocLimit) /\ s.(bytesAllocated) <= s'.(bytesAllocated).

(** [m] returns from [s], and its result satisfies [Q]. *)
Definition bruns {A} (m : bio D A) (s : BStream D) (Q : A -> BStream D -> Prop) : Prop :=
  exists o s', m s = Ret (o, s') /\ bstep s s' /\ match o with Done a => Q a s' | Failed _ => True end.

Lemma bstep_refl s : bwf s -> bstep s s.
Proof. intros. split; [done | lia]. Qed.

Lemma bstep_trans s1 s2 s3 : bstep s1 s2 -> bstep s2 s3 -> bstep s1 s3.
Proof. intros (_ & ? & ? & ? & ?) (? & ? & ? & ? & ?). split; [done |]. split_and!; try congruence; lia. Qed.

Lemma bruns_ret {A} (a : A) s (Q : A -> BStream D -> Prop) : bwf s -> Q a s -> bruns (mret a) s Q.
Proof. intros. exists (Done a), s. split; [done |]. split; [by apply bstep_refl | done]. Qed.

Lemma bruns_fail {A} st s (Q : A -> BStream D -> Prop) : bwf s -> bruns (bfail st) s Q.
Proof. intros Hs. do 2 eexists. split; [done |]. split; [| done]. split; [apply Hs | cbn; lia]. Qed.

Lemma bruns_bind {A B} (m : bio D A) (k : A -> bio D B) s (P : A -> BStream D -> Prop) Q :
  bruns m s P -> (forall a s', bstep s s' -> bwf s' -> P a s' -> bruns (k a) s' Q) -> bruns (m ≫= k) s Q.
Proof.
  intros (o & s1 & E & H1 & Ho) Hk. unfold mbind, bio_bind, bruns. rewrite E. destruct o as [a |].
  - destruct (Hk a s1 H1 (proj1 H1) Ho) as (o2 & s2 & -> & H2 & Ho2).
    exists o2, s2. split; [done |]. split; [by eapply bstep_trans | done].
  - exists (Failed None), s1. by split.
Qed.

Lemma bruns_mono {A} (m : bio D A) s (P Q : A -> BStream D -> Prop) :
  bruns m s P -> (forall a s', bstep s s' -> P a s' -> Q a s') -> bruns m s Q.
Proof.
  intros (o & s1 & E & H1 & Ho) H. exists o, s1. do 2 (split; [done |]). destruct o; [by apply H | done].
Qed.

Lemma bruns_bytes len s : 0 <= len <= INT_MAX -> bwf s ->
  bruns (bReadBytes len) s (fun bs s' => is_bytes bs /\ zlen bs = len
    /\ s'.(raw).(pos) = s.(raw).(pos) + len /\ s'.(bytesAllocated) = s.(bytesAllocated)).
Proof.
  intros Hl (Hw & Hp & Ha & Hb). destruct (readRaw_safe len Hl _ Hw) as (o & r & E & (Hr & Hle & Hlim) & Ho).
  pose proof Hw as (_ & Hp0 & Hl0 & _).
  pose proof (readRaw_pos len _ _ _ (proj1 Hp0) (proj1 Hl) (proj2 Hl0) E) as Hpos.
  exists o, (with_raw r s). unfold bReadBytes, raw_io. rewrite E. split; [done |]. split.
  - split; [split; [done |]; cbn | cbn; lia]. split; [| lia]. rewrite Hlim. destruct o; lia.
  - destruct o; [| done]. cbn. by destruct Ho as (? & ? & _), Hpos.
Qed.

Lemma bruns_byte s : bwf s -> bruns bReadByte s (fun c s' => is_byte c
  /\ s'.(raw).(pos) = s.(raw).(pos) + 1 /\ s'.(bytesAllocated) = s.(bytesAllocated)).
Proof.
  intros (Hw & Hp & Ha & Hb). destruct (readByte_safe _ Hw) as (o & r & E & (Hr & Hle & Hlim) & Ho).
  pose proof Hw as (_ & Hp0 & Hl0 & _). pose proof (readByte_pos _ _ _ (proj1 Hp0) (proj2 Hl0) E) as Hpos.
  exists o, (with_raw r s). unfold bReadByte, raw_io. rewrite E. split; [done |]. split.
  - split; [split; [done |]; cbn | cbn; lia]. split; [| lia]. rewrite Hlim. destruct o; lia.
  - destruct o; [| done]. cbn. by destruct Hpos.
Qed.

Lemma bruns_peek s : bwf s ->
  exists o s', bPeekByte s = Ret (o, s') /\ bstep s s' /\ s'.(raw).(pos) = s.(raw).(pos)
    /\ s'.(bytesAllocated) = s.(bytesAllocated) /\ match o with Done c => is_byte c | Failed _ => True end.
Proof.
  intros (Hw & Hp & Ha & Hb). destruct (peekByte_safe _ Hw) as (o & r & E & (Hr & Hle & Hlim) & Ho).
  pose proof (peekByte_pos _ _ _ E) as Hpos. exists o, (with_raw r s). unfold bPeekByte, raw_io. rewrite E.
  split; [done |]. split; [| done]. split; [split; [done |]; cbn; lia | cbn; lia].
Qed.

Definition cached (c : Z) (s : BStream D) : Prop :=
  s.(raw).(hasPeekByte) = true /\ s.(raw).(peekByteCache) = c.

Lemma bPeek_cached c s s' : bPeekByte s = Ret (Done c, s') -> cached c s'.
Proof.
  unfold bPeekByte, raw_io. destruct (peekByte s.(raw)) as [[o r] | | |] eqn:E; try done.
  intros [= -> <-]. by apply peekByte_cached in E.
Qed.

Lemma bruns_next c s : bwf s -> cached c s ->
  bruns bReadByte s (fun c' s' => c' = c /\ s'.(bytesAllocated) = s.(bytesAllocated)).
Proof.
  intros Hs [Hh Hc]. destruct (bruns_byte s Hs) as (o & s1 & E & H1 & Ho). exists o, s1. do 2 (split; [done |]).
  destruct o as [c' |]; [| done]. split; [| apply Ho]. revert E. unfold bReadByte, raw_io.
  destruct (readByte s.(raw)) as [[o r] | | |] eqn:E; try done. intros [= -> _].
  apply readByte_cached in E; [congruence | done].
Qed.

Lemma bruns_peekOrEnd s : bwf s -> bruns peekOrEnd s (fun c s' => is_byte c
  /\ s'.(raw).(pos) = s.(raw).(pos) /\ s'.(bytesAllocated) = s.(bytesAllocated)).
Proof.
  intros Hs. destruct (bruns_peek s Hs) as (o & s1 & E & H1 & Hp & Ha & Ho). unfold bruns, peekOrEnd.
  rewrite E. cbn [mbind result_bind]. destruct o as [c |]; [by exists (Done c), s1 |].
  exists (Failed None), (with_raw (setStatus ReadPastEnd s1.(raw)) s1). split; [done |]. split; [| done].
  eapply bstep_trans; [exact H1 |]. split; [apply H1 | cbn; lia].
Qed.

Lemma bruns_consume c s : bwf s -> bruns (consumeByte c) s (fun _ s' =>
  s'.(raw).(pos) = s.(raw).(pos) + 1 /\ s'.(bytesAllocated) = s.(bytesAllocated)).
Proof.
  intros Hs. eapply bruns_bind; [by apply bruns_byte |]. intros b s1 _ H1 (_ & Hp & Ha).
  case_test; [by apply bruns_fail | by apply bruns_ret].
Qed.

Lemma bruns_account n s : 0 <= n -> bwf s -> bruns (account n) s (fun _ s' =>
  s'.(raw).(pos) = s.(raw).(pos) /\ s'.(bytesAllocated) = s.(bytesAllocated) + n).
Proof.
  intros Hn Hs. unfold bruns, account. pose proof Hs as (Hw & Hp & Ha & Hb). unfold wrapu, INT_MAX in *.
  rewrite (Z.mod_small (_ - _)) by lia. case_test.
  - do 2 eexists. split; [done |]. split; [| done]. split; [apply Hs | cbn; lia].
  - rewrite Z.mod_small by lia. do 2 eexists. split; [done |]. split; [| done].
    split; [split; [done |]; cbn; unfold INT_MAX; lia | cbn; lia].
Qed.

(** The digits are collected one by one up to a length the fuel covers. *)
Lemma bruns_integerLoop fuel digits s : bwf s -> 0 < zlen digits -> 21 - zlen digits <= Z.of_nat fuel ->
  zlen digits <= 20 -> bruns (integerLoop fuel digits) s (fun _ s' => s'.(bytesAllocated) = s.(bytesAllocated)).
Proof.
  revert digits s. induction fuel as [| fuel IH]; intros digits s Hs Hd Hf Hl; [lia |]. cbn [integerLoop].
  eapply bruns_bind; [by apply bruns_byte |]. intros c s1 _ H1 (_ & _ & Ha).
  case_test; [by apply bruns_ret |]. case_test; [by apply bruns_fail |].
  case_test; [by apply bruns_fail |]. rewrite <- Ha.
  rewrite zlen_app in *. change (zlen [c]) with 1 in *.
  apply IH; rewrite ?zlen_app; change (zlen [c]) with 1; try done; lia.
Qed.

Lemma strtoll_range l : in_s 64 (strtoll l).
Proof. unfold in_s, strtoll. lia. Qed.

Lemma bruns_readInteger s : bwf s -> bruns readInteger s (fun i s' => in_s 64 i
  /\ s.(raw).(pos) < s'.(raw).(pos) /\ s'.(bytesAllocated) = s.(bytesAllocated)).
Proof.
  intros Hs. unfold readInteger. eapply bruns_bind; [by apply bruns_consume |]. intros _ s1 _ H1 (Hp1 & Ha1).
  apply (bruns_bind _ _ _ (fun sc s' => zlen (sc : list Z * Z).1 <= 1 /\ s'.(bytesAllocated) = s.(bytesAllocated))).
  { unfold readSign. eapply bruns_bind; [by apply bruns_byte |]. intros c s2 _ H2 (_ & _ & Ha2). case_test.
    - eapply bruns_bind; [by apply bruns_byte |]. intros c' s3 _ H3 (_ & _ & Ha3).
      apply bruns_ret; [done |]. split; [done | congruence].
    - apply bruns_ret; [done |]. split; [done | congruence]. }
  intros [digits c] s2 H12 H2 [Hd Ha2]. cbn [fst] in Hd. pose proof (zlen_nonneg digits).
  destruct H12 as (_ & Hp2 & _). case_test; [by apply bruns_fail |]. case_test.
  - eapply bruns_bind; [by apply bruns_byte |]. intros c' s3 _ H3 (_ & Hp3 & Ha3). case_test; [by apply bruns_fail |].
    apply bruns_ret; [done |]. split; [unfold in_s; lia |]. split; [lia | congruence].
  - eapply bruns_bind.
    { apply bruns_integerLoop; try done; rewrite ?zlen_app; change (zlen [c]) with 1; lia. }
    intros ds s3 (_ & Hp3 & _) H3 Ha3. destruct (bool_decide _); [by apply bruns_fail |].
    apply bruns_ret; [done |]. split; [apply strtoll_range |]. split; [lia | congruence].
Qed.

Lemma bruns_lengthLoop fuel digits s : bwf s -> all_digits digits -> 11 - zlen digits <= Z.of_nat fuel ->
  zlen digits <= 10 ->
  bruns (lengthLoop fuel digits) s (fun ds s' => all_digits ds /\ s'.(bytesAllocated) = s.(bytesAllocated)).
Proof.
  revert digits s. induction fuel as [| fuel IH]; intros digits s Hs Hd Hf Hl; [lia |].
  destruct (bruns_peek s Hs) as (o & s1 & E & H1 & Hp & Ha & Ho). unfold bruns. cbn [lengthLoop].
  rewrite E. cbn [mbind result_bind]. destruct o as [c |]; [| by exists (Done digits), s1].
  case_test; [by exists (Done digits), s1 |].
  destruct (bruns_next c s1) as (o2 & s2 & E2 & H2 & Ho2); [by apply H1 | by eapply bPeek_cached |].
  unfold mbind, bio_bind. rewrite E2. destruct o2 as [c' |].
  2: { exists (Failed None), s2. split; [done |]. split; [by eapply bstep_trans | done]. }
  destruct Ho2 as [-> Ha2]. case_test.
  { do 2 eexists. split; [done |]. split; [| done].
    eapply bstep_trans; [exact H1 |]. eapply bstep_trans; [exact H2 |]. split; [apply H2 | cbn; lia]. }
  rewrite zlen_app in *. change (zlen [c]) with 1 in *.
  destruct (IH (digits ++ [c]) s2) as (o3 & s3 & E3 & H3 & Ho3).
  - apply H2.
  - apply Forall_app. split; [done |]. by repeat constructor.
  - rewrite zlen_app. change (zlen [c]) with 1. lia.
  - rewrite zlen_app. change (zlen [c]) with 1. lia.
  - exists o3, s3. split; [done |]. split; [eapply bstep_trans; [exact H1 |]; by eapply bstep_trans |].
    destruct o3; [| done]. destruct Ho3. split; [done | congruence].
Qed.

Lemma digits_value_nonneg l : all_digits l -> 0 <= digits_value l.
Proof.
  induction l as [| c l IH] using rev_ind; intros Hl; [done |]. apply Forall_app in Hl as [Hl Hc].
  rewrite digits_value_app. apply Forall_inv in Hc. apply isdigit_range in Hc. specialize (IH Hl).
  unfold char_0. lia.
Qed.

Lemma bruns_readString s : bwf s -> bruns bReadString s (fun bs s' => is_bytes bs
  /\ s.(raw).(pos) < s'.(raw).(pos) /\ s.(bytesAllocated) + zlen bs = s'.(bytesAllocated)).
Proof.
  intros Hs. unfold bReadString. eapply bruns_bind; [by apply bruns_peekOrEnd |].
  intros c s1 _ H1 (_ & Hp1 & Ha1). case_test; [by apply bruns_fail |].
  eapply bruns_bind; [apply bruns_lengthLoop; [done | constructor | done | done] |].
  intros ds s2 (_ & Hp2 & _) H2 [Hds Ha2]. case_test; [by apply bruns_fail |].
  eapply bruns_bind; [by apply bruns_consume |]. intros _ s3 _ H3 [Hp3 Ha3].
  assert (0 <= strtoull ds) by (pose proof (digits_value_nonneg ds Hds); unfold strtoull; lia).
  set (len := strtoull ds) in *. clearbody len.
  apply (bruns_bind _ _ _ (fun _ s' => s' = s3 /\ len <= INT_MAX)).
  { unfold bruns, checkAllocLimit. case_test; [by apply bruns_fail |].
    exists (Done tt), s3. split; [done |]. split; [by apply bstep_refl |]. split; [done |]. destruct H3. lia. }
  intros _ ? _ _ [-> Hlen]. eapply bruns_bind; [by apply bruns_account |]. intros _ s4 _ Hw4 [Hp4 Ha4]. case_test.
  - eapply bruns_mono; [by apply bruns_bytes |]. intros bs s5 _ (Hb & Hz & Hp5 & Ha5). split; [done |]. lia.
  - apply bruns_ret; [done |]. split; [apply is_bytes_nil |]. change (zlen (@nil Z)) with 0. lia.
Qed.

(** The three readers of a value, with the fuel each needs for what is left. *)
Definition remaining (s : BStream D) : Z := s.(raw).(limit) - s.(raw).(pos).

Definition gives_value (s : BStream D) (v : Bencode) (s' : BStream D) : Prop :=
  well_formed v /\ s.(raw).(pos) < s'.(raw).(pos) /\ s.(bytesAllocated) + alloc_size v <= s'.(bytesAllocated).

(** The same for a loop that has already charged [n]. *)
Definition gives_rest (n : Z) (s : BStream D) (v : Bencode) (s' : BStream D) : Prop :=
  well_formed v /\ s.(raw).(pos) < s'.(raw).(pos) /\ s.(bytesAllocated) + alloc_size v <= s'.(bytesAllocated) + n.

Definition value_safe (fuel : nat) : Prop := forall s, bwf s -> 2 * remaining s + 1 <= Z.of_nat fuel ->
  bruns (readValue fuel) s (gives_value s).
Definition items_safe (fuel : nat) : Prop := forall s l, bwf s -> 2 * remaining s + 2 <= Z.of_nat fuel ->
  Forall well_formed l -> bruns (readListItems fuel l) s (gives_rest (items_size l) s).
Definition entries_safe (fuel : nat) : Prop := forall s m, bwf s -> 2 * remaining s + 2 <= Z.of_nat fuel ->
  ordered_keys m -> Forall (fun e => is_bytes e.1 /\ well_formed e.2) m ->
  bruns (readDictEntries fuel m) s (gives_rest (entries_size m) s).

Lemma bwf_remaining s : bwf s -> 0 <= remaining s.
Proof. intros (_ & ? & _). unfold remaining. lia. Qed.

Lemma bstep_remaining s s' : bstep s s' -> remaining s' = remaining s - (s'.(raw).(pos) - s.(raw).(pos)).
Proof. intros (_ & _ & E & _). unfold remaining. lia. Qed.

Lemma value_safe_step fuel : items_safe fuel -> entries_safe fuel -> value_safe (S fuel).
Proof.
  intros Hi He s Hs Hf. cbn [readValue]. eapply bruns_bind; [by apply bruns_peekOrEnd |].
  intros c s1 S1 H1 (_ & Hp1 & Ha1). apply bstep_remaining in S1. unfold gives_value. case_test.
  { eapply bruns_bind; [by apply bruns_readInteger |]. intros i s2 _ H2 (Hi2 & Hp2 & Ha2).
    apply bruns_ret; [done |]. cbn [well_formed alloc_size]. split; [done | lia]. }
  case_test.
  { eapply bruns_bind; [by apply bruns_consume |]. intros _ s2 S2 H2 (Hp2 & Ha2). apply bstep_remaining in S2.
    eapply bruns_mono; [apply Hi; [done | lia | constructor] |]. intros v s3 _ (Hv & Hp3 & Ha3).
    change (items_size []) with 0 in Ha3. split; [done | lia]. }
  case_test.
  { eapply bruns_bind; [by apply bruns_consume |]. intros _ s2 S2 H2 (Hp2 & Ha2). apply bstep_remaining in S2.
    eapply bruns_mono; [apply He; [done | lia | done | constructor] |]. intros v s3 _ (Hv & Hp3 & Ha3).
    change (entries_size []) with 0 in Ha3. split; [done | lia]. }
  case_test; [| by apply bruns_fail].
  eapply bruns_bind; [by apply bruns_readString |]. intros bs s2 _ H2 (Hb & Hp2 & Ha2).
  apply bruns_ret; [done |]. cbn [well_formed alloc_size]. split; [done | lia].
Qed.

Lemma items_safe_step fuel : value_safe fuel -> items_safe fuel -> items_safe (S fuel).
Proof.
  intros Hv Hi s l Hs Hf Hl. cbn [readListItems]. eapply bruns_bind; [by apply bruns_peekOrEnd |].
  intros c s1 S1 H1 (_ & Hp1 & Ha1). apply bstep_remaining in S1. unfold gives_rest. case_test.
  { eapply bruns_bind; [by apply bruns_consume |]. intros _ s2 _ H2 (Hp2 & Ha2). apply bruns_ret; [done |].
    rewrite alloc_size_list. split; [by apply well_formed_list | lia]. }
  eapply bruns_bind; [apply Hv; [done | lia] |]. intros v s2 S2 H2 (Hwv & Hp2 & Ha2). apply bstep_remaining in S2.
  eapply bruns_bind; [by apply bruns_account |]. intros _ s3 S3 H3 (Hp3 & Ha3). apply bstep_remaining in S3.
  eapply bruns_mono; [apply Hi; [done | lia |] |].
  - apply Forall_app. split; [done |]. by repeat constructor.
  - intros w s4 _ (Hw & Hp4 & Ha4). rewrite items_size_app in Ha4. split; [done | lia].
Qed.

Lemma entries_safe_step fuel : value_safe fuel -> entries_safe fuel -> entries_safe (S fuel).
Proof.
  intros Hv He s m Hs Hf Ho Hm. cbn [readDictEntries]. eapply bruns_bind; [by apply bruns_peekOrEnd |].
  intros c s1 S1 H1 (_ & Hp1 & Ha1). apply bstep_remaining in S1. unfold gives_rest. case_test.
  { eapply bruns_bind; [by apply bruns_consume |]. intros _ s2 _ H2 (Hp2 & Ha2). apply bruns_ret; [done |].
    rewrite alloc_size_dict. split; [by apply well_formed_dict | lia]. }
  eapply bruns_bind; [by apply bruns_readString |]. intros k s2 S2 H2 (Hk & Hp2 & Ha2). apply bstep_remaining in S2.
  eapply bruns_bind; [apply Hv; [done | lia] |]. intros v s3 S3 H3 (Hwv & Hp3 & Ha3). apply bstep_remaining in S3.
  eapply bruns_bind; [by apply bruns_account |]. intros _ s4 S4 H4 (Hp4 & Ha4). apply bstep_remaining in S4.
  eapply bruns_mono; [apply He; [done | lia | by apply dict_assign_ordered |] |].
  - apply dict_assign_forall; [done | done |]. by intros k' v' _ [? _].
  - intros w s5 _ (Hw & Hp5 & Ha5). pose proof (entries_size_assign k v m). split; [done | lia].
Qed.

(** Every reader returns, whatever the device delivers. *)
Lemma readers_safe fuel : value_safe fuel /\ items_safe fuel /\ entries_safe fuel.
Proof.
  induction fuel as [| fuel (Hv & Hi & He)].
  - split; [| split]; intros s ? ?; intros; pose proof (bwf_remaining s ltac:(done)); lia.
  - split; [by apply value_safe_step |]. split; [by apply items_safe_step | by apply entries_safe_step].
Qed.

Lemma readValue_safe fuel : value_safe fuel.
Proof. apply readers_safe. Qed.
End Safety.

(** The stream [decode] starts with, as the readers want it. *)
Lemma decode_holds data lengthLimit : is_bytes data -> zlen data <= INT_MAX -> 0 <= lengthLimit <= UINT32_MAX ->
  bholds (setLengthLimit lengthLimit (b_on_string (BytesIO.create data 0) (zlen data))) data.
Proof.
  intros Hb Hl Hm. pose proof (zlen_nonneg data). unfold INT_MAX, UINT32_MAX in *.
  assert (Hu : u32 (zlen data) = zlen data) by (unfold wrapu; rewrite Z.mod_small; lia).
  split; [| cbn; unfold UINT32_MAX; lia]. exists (BytesIO.create data 0). cbn. rewrite Hu.
  unfold UINT32_MAX. split_and!; try done; lia.
Qed.

(** What the reader gives on all of [data] is what [decode] returns. *)
Lemma decode_reads data v cost lengthLimit :
  breads (readValue (decodeFuel (zlen data))) data v cost ->
  is_bytes data -> zlen data <= INT_MAX -> 0 <= cost <= lengthLimit -> lengthLimit <= UINT32_MAX ->
  decode data lengthLimit = Ret v.
Proof.
  intros H Hb Hl Hc Hm. unfold decode, bRead.
  pose proof (decode_holds data lengthLimit Hb Hl ltac:(lia)) as Hs. set (s := setLengthLimit _ _) in *.
  assert (Hr : bready s = true) by done. assert (Hp : s.(raw).(pos) = 0) by done.
  assert (Hlim : s.(raw).(limit) = u32 (zlen data)) by done.
  rewrite Hr. cbn [negb]. destruct (H s []) as (s' & E & (Hd & _) & Hp' & Hl' & _).
  { by rewrite app_nil_r. }
  { subst s. cbn. lia. }
  rewrite E. cbn [mbind result_bind]. destruct Hd as (d & Hdev & _ & Hst & _). rewrite Hst. cbn [isOk negb].
  unfold atEnd. rewrite Hdev, Hp', Hl', Hlim, Hp. pose proof (zlen_nonneg data).
  unfold wrapu, INT_MAX in *. rewrite Z.mod_small by lia. replace (_ >=? _) with true by lia. done.
Qed.

Lemma wire_is_bytes v : well_formed v -> zlen (wire_value v) <= INT_MAX -> is_bytes (wire_value v).
Proof.
  intros Hv Hl. destruct (bwrites_value v Hv Hl (b_on_device BytesIO.empty) BytesIO.empty INT_MAX)
    as (d & s & E & (Hd & Hs & ((_ & _ & Hb) & _)) & Hw); [| done |].
  - split; [done |]. split; [done |]. split; [| done]. split; [done |]. split; [done | apply is_bytes_nil].
  - cbn in Hw. by rewrite <- Hw.
Qed.

(** C27: A well-formed bencode value whose encoding an int can index is encoded to its
    canonical bytes, and decoding those under a limit that covers its strings and items
    gives the value back. *)
Theorem bencode_roundtrip v lengthLimit :
  well_formed v -> zlen (wire_value v) <= INT_MAX -> alloc_size v <= lengthLimit <= UINT32_MAX ->
  exists data, encode v = Ret data /\ data = wire_value v /\ decode data lengthLimit = Ret v.
Proof.
  intros Hv Hl Ha. exists (wire_value v). split; [by apply encode_wire |]. split; [done |].
  pose proof (alloc_size_nonneg v). pose proof (zlen_nonneg (wire_value v)).
  eapply decode_reads; [apply breads_value; try done | by apply wire_is_bytes | done | lia | lia].
  unfold decodeFuel. lia.
Qed.

Definition sample_torrent : Bencode :=
  Dict [([97], List [Integer (-7); String [1; 2]; Dict []]); ([98], Integer (2 ^ 63 - 1))].

Lemma bencode_roundtrip_witness :
  exists data, encode sample_torrent = Ret data /\ data = wire_value sample_torrent
    /\ decode data 4096 = Ret sample_torrent.
Proof.
  refine (bencode_roundtrip sample_torrent 4096 _ _ _).
  - cbn. unfold in_s, is_bytes. repeat first [split | constructor | lia].
  - vm_compute. discriminate.
  - split; vm_compute; discriminate.
Defined.

(** C18: On every input string decode returns: its recursion on nested lists and
    dictionaries ends within twice the input size, and the result is the invalid value or
    a well-formed one whose strings and items stay within the length limit. *)
Theorem bencode_decode_returns data lengthLimit :
  is_bytes data -> zlen data <= INT_MAX -> 0 <= lengthLimit <= INT_MAX ->
  exists v, decode data lengthLimit = Ret v
    /\ (v = Invalid \/ well_formed v /\ alloc_size v <= lengthLimit).
Proof.
  intros Hb Hl Hm. pose proof (zlen_nonneg data). unfold decode, bRead. set (s := setLengthLimit _ _).
  assert (Hu : u32 (zlen data) = zlen data) by (unfold wrapu, INT_MAX in *; rewrite Z.mod_small; lia).
  assert (Hs : bwf s).
  { split; [| cbn; rewrite Hu; lia]. split; [by intros d [= <-] |]. cbn. rewrite Hu.
    unfold UINT32_MAX, INT_MAX, is_byte in *. lia. }
  replace (bready s) with true by done. cbn [negb].
  destruct (readValue_safe (decodeFuel (zlen data)) s Hs) as (o & s' & E & (Hs' & _ & _ & Ha & _) & Ho).
  { unfold remaining, decodeFuel. subst s. cbn. rewrite Hu. lia. }
  rewrite E. cbn [mbind result_bind]. destruct o as [v |].
  - eexists. split; [done |]. case_test; [by left |]. case_test; [by left |]. right.
    destruct Ho as (Hv & _ & Hal). split; [done |]. destruct Hs' as (_ & _ & _ & Hb').
    subst s. cbn in Hal, Ha. lia.
  - eexists. split; [done |]. left. by repeat case_test.
Qed.

Lemma bencode_decode_returns_witness :
  exists v, decode [108; 105; 49; 101; 108; 108] 1000 = Ret v
    /\ (v = Invalid \/ well_formed v /\ alloc_size v <= 1000).
Proof.
  refine (bencode_decode_returns _ 1000 _ _ _).
  - unfold is_bytes. repeat constructor; lia.
  - vm_compute. discriminate.
  - split; vm_compute; discriminate.
Defined.

(** An integer of up to 20 digits beyond the range of int64_t is accepted and decoded
    as the largest value instead of being refused. *)
Theorem bencode_integer_saturates n lengthLimit :
  2 ^ 63 <= n < 10 ^ 20 -> 0 <= lengthLimit <= UINT32_MAX ->
  decode (char_i :: digits_of 20 n ++ [char_e]) lengthLimit = Ret (Integer (2 ^ 63 - 1)).
Proof.
  intros Hn Hm. set (data := char_i :: _).
  destruct (digits_of_spec 20 n) as (_ & Hd & Hl); [lia | lia |].
  assert (Hz : 2 < zlen data <= 22).
  { unfold data. rewrite zlen_cons, zlen_app. change (zlen [char_e]) with 1. lia. }
  eapply (decode_reads data _ 0); [| | unfold INT_MAX; lia | lia | lia].
  - unfold decodeFuel. destruct (2 * Z.to_nat (zlen data) + 2)%nat as [| fuel] eqn:E; [lia |].
    cbn [readValue]. apply breads_peek. rewrite Z.eqb_refl.
    replace (2 ^ 63 - 1) with (Z.min (2 ^ 63 - 1) n) by lia.
    eapply breads_last; [apply breads_natural; lia | apply breads_ret].
  - apply is_bytes_cons; [unfold is_byte, char_i; lia |]. apply is_bytes_app_2; [by apply all_digits_bytes |].
    apply is_bytes_cons; [unfold is_byte, char_e; lia | apply is_bytes_nil].
Qed.

Lemma bencode_integer_saturates_witness :
  decode (char_i :: digits_of 20 (10 ^ 19) ++ [char_e]) 100 = Ret (Integer (2 ^ 63 - 1)).
Proof. refine (bencode_integer_saturates (10 ^ 19) 100 _ _); split; vm_compute; done. Defined.
