(* ===== verification/NoiseReplay.v ===== *)
(** * The replay window of Noise datagrams

    [ReplayCounter] of [src/include/qtng/private/noise_replay_p.h]: a ring of 128
    words of 64 bits records which packet counters were seen.  The reference keeps
    the set of all of them; the two accept the same packets. *)

From stdpp Require Import gmap.
From S2P Require Import Prelude.

Definition kCounterWordBits : Z := 64.
Definition kCounterBitsTotal : Z := 8192.
Definition kCounterWords : Z := kCounterBitsTotal / kCounterWordBits.
Definition kCounterWindowSize : Z := kCounterBitsTotal - kCounterWordBits.
Definition kRejectAfterMessages : Z := u64 (2 ^ 64 - 1 - kCounterWindowSize - 1).

Record ReplayCounter : Type := mkReplay { counter : Z; backtrack : list Z }.

(** [reset] *)
Definition replay_reset : ReplayCounter := mkReplay 0 (replicate (Z.to_nat kCounterWords) 0).

Definition exhausted (r : ReplayCounter) : bool := r.(counter) >=? u64 (kRejectAfterMessages + 1).

(** The index into [backtrack] of the word with number [i]. *)
Definition wordSlot (i : Z) : nat := Z.to_nat (Z.land i (kCounterWords - 1)).

(** [for (i = 1; i <= top; ++i)], with [n] rounds to go. *)
Fixpoint clearWords (n : nat) (i indexCurrent : Z) (b : list Z) : list Z :=
  match n with
  | O => b
  | S n' => clearWords n' (i + 1) indexCurrent (<[wordSlot (i + indexCurrent) := 0]> b)
  end.

Definition validate (nonce : Z) (r : ReplayCounter) : bool * ReplayCounter :=
  if exhausted r || (nonce >=? kRejectAfterMessages) then (false, r) else
  let theirCounter := u64 (nonce + 1) in
  if u64 (kCounterWindowSize + theirCounter) <? r.(counter) then (false, r) else
  let index := theirCounter / kCounterWordBits in
  let r :=
    if theirCounter >? r.(counter) then
      let indexCurrent := r.(counter) / kCounterWordBits in
      let top := u64 (index - indexCurrent) in
      let top := if top >? kCounterWords then kCounterWords else top in
      mkReplay theirCounter (clearWords (Z.to_nat top) 1 indexCurrent r.(backtrack))
    else r in
  let word := wordSlot index in
  let bit := u64 (Z.shiftl 1 (theirCounter mod kCounterWordBits)) in
  let w := default 0 (r.(backtrack) !! word) in
  if negb (Z.land w bit =? 0) then (false, r)
  else (true, mkReplay r.(counter) (<[word := Z.lor w bit]> r.(backtrack))).

(** ** The reference: every counter that was accepted is remembered *)

Record Seen : Type := mkSeen { newest : Z; seen : gset Z }.
Definition seen_nothing : Seen := mkSeen 0 ∅.

Definition accept (nonce : Z) (r : Seen) : bool * Seen :=
  if nonce >=? kRejectAfterMessages then (false, r)
  else if nonce + 1 + kCounterWindowSize <? r.(newest) then (false, r)
  else if bool_decide (nonce ∈ r.(seen)) then (false, r)
  else (true, mkSeen (Z.max r.(newest) (nonce + 1)) ({[nonce]} ∪ r.(seen))).

(** What is returned for a sequence of packets. *)
Fixpoint verdicts {S} (step : Z -> S -> bool * S) (nonces : list Z) (s : S) : list bool * S :=
  match nonces with
  | [] => ([], s)
  | n :: rest =>
      let '(b, s) := step n s in
      let '(bs, s) := verdicts step rest s in
      (b :: bs, s)
  end.

(** ** The two agree *)

(** Whether the counter [t] is marked. *)
Definition marked (b : list Z) (t : Z) : bool :=
  Z.testbit (default 0 (b !! wordSlot (t / 64))) (t mod 64).

(** The words that stand for the counters [64 * (i - 127)] up to [64 * i + 63],
    [i] the word of the newest one, mark what was seen. *)
Definition same_window (r : ReplayCounter) (a : Seen) : Prop :=
  length r.(backtrack) = 128%nat /\ r.(counter) = a.(newest)
  /\ 0 <= a.(newest) <= kRejectAfterMessages
  /\ (forall t, t ∈ a.(seen) -> 0 <= t < a.(newest))
  /\ (forall t, 0 < t -> r.(counter) / 64 - 127 <= t / 64 <= r.(counter) / 64 ->
      marked r.(backtrack) t = bool_decide (t - 1 ∈ a.(seen))).

Lemma wordSlot_mod i : 0 <= i -> wordSlot i = Z.to_nat (i mod 128).
Proof. intros. unfold wordSlot. change (kCounterWords - 1) with (Z.ones 7). by rewrite Z.land_ones. Qed.

Lemma wordSlot_lt i : 0 <= i -> (wordSlot i < 128)%nat.
Proof. intros. rewrite wordSlot_mod by done. pose proof (Z.mod_pos_bound i 128). lia. Qed.

(** Words less than a whole ring apart have different slots. *)
Lemma wordSlot_inj i j : 0 <= i -> 0 <= j -> i - 127 <= j <= i + 127 -> wordSlot i = wordSlot j -> i = j.
Proof.
  intros Hi Hj Hd. rewrite !wordSlot_mod by done. intros E%Z2Nat.inj; [| apply Z.mod_pos_bound; lia..].
  pose proof (Z.div_mod i 128). pose proof (Z.div_mod j 128). lia.
Qed.

Lemma clearWords_length n i c b : length (clearWords n i c b) = length b.
Proof. revert i b. induction n as [| n IH]; intros; cbn [clearWords]; [done |]. by rewrite IH, length_insert. Qed.

Lemma clearWords_kept n i c b w : 0 <= c -> 0 <= i ->
  (forall k, i <= k < i + Z.of_nat n -> wordSlot (k + c) <> w) -> clearWords n i c b !! w = b !! w.
Proof.
  revert i b. induction n as [| n IH]; intros i b Hc Hi Hw; cbn [clearWords]; [done |].
  rewrite IH; [| done | lia | intros; apply Hw; lia]. apply list_lookup_insert_ne. apply Hw. lia.
Qed.

Lemma clearWords_cleared n i c b k : 0 <= c -> 0 <= i -> length b = 128%nat -> i <= k < i + Z.of_nat n ->
  clearWords n i c b !! wordSlot (k + c) = Some 0.
Proof.
  revert i b. induction n as [| n IH]; intros i b Hc Hi Hl Hk; cbn [clearWords]; [lia |].
  destruct (decide (i = k)) as [<- | Hne].
  - set (b' := <[_ := 0]> b). assert (Hb' : b' !! wordSlot (i + c) = Some 0).
    { apply list_lookup_insert_eq. rewrite Hl. apply wordSlot_lt. lia. }
    assert (Hl' : length b' = 128%nat) by (unfold b'; by rewrite length_insert). clearbody b'.
    clear IH Hk. generalize (i + 1) at 1. revert b' Hb' Hl'.
    induction n as [| n IH]; intros b' Hb' Hl' j; cbn [clearWords]; [done |]. apply IH.
    + destruct (decide (wordSlot (j + c) = wordSlot (i + c))) as [-> | ?].
      * apply list_lookup_insert_eq. rewrite Hl'. apply wordSlot_lt. lia.
      * by rewrite list_lookup_insert_ne.
    + by rewrite length_insert.
  - apply IH; [done | lia | by rewrite length_insert | lia].
Qed.

Lemma wordSlot_period i k : 0 <= i -> 0 <= k -> wordSlot (i + 128 * k) = wordSlot i.
Proof. intros. rewrite !wordSlot_mod by lia. by rewrite Z.mul_comm, Z_mod_plus_full. Qed.

(** Moving on to a newer counter keeps the marks and frees the words it enters. *)
Lemma advance_window b c t (a : gset Z) :
  length b = 128%nat -> 0 <= c < t -> (forall u, u ∈ a -> 0 <= u < c) ->
  (forall u, 0 < u -> c / 64 - 127 <= u / 64 <= c / 64 -> marked b u = bool_decide (u - 1 ∈ a)) ->
  forall u, 0 < u -> t / 64 - 127 <= u / 64 <= t / 64 ->
  marked (clearWords (Z.to_nat (Z.min (t / 64 - c / 64) 128)) 1 (c / 64) b) u = bool_decide (u - 1 ∈ a).
Proof.
  intros Hl Hct Ha Hm u Hu Hw.
  assert (0 <= c / 64 <= t / 64) by (split; [apply Z.div_pos | apply Z.div_le_mono]; lia).
  assert (0 <= u / 64) by (apply Z.div_pos; lia).
  destruct (Z.le_gt_cases (u / 64) (c / 64)) as [Hle | Hgt].
  - rewrite <- (Hm u) by lia. unfold marked. do 2 f_equal. apply clearWords_kept; [lia | lia |].
    intros k Hk E. apply wordSlot_inj in E; lia.
  - rewrite bool_decide_false; [| intros Hin%Ha; assert (u <= c) by lia;
      pose proof (Z.div_le_mono u c 64); lia].
    unfold marked. set (k := (u / 64 - c / 64 - 1) mod 128 + 1).
    pose proof (Z.mod_pos_bound (u / 64 - c / 64 - 1) 128). pose proof (Z.div_mod (u / 64 - c / 64 - 1) 128).
    assert (Hq : 0 <= (u / 64 - c / 64 - 1) / 128) by (apply Z.div_pos; lia).
    assert (Hk : k <= Z.min (t / 64 - c / 64) 128) by (unfold k; lia).
    replace (u / 64) with (k + c / 64 + 128 * ((u / 64 - c / 64 - 1) / 128)) by (unfold k; lia).
    rewrite wordSlot_period by (unfold k; lia).
    rewrite clearWords_cleared by (unfold k in *; lia). cbn. apply Z.bits_0.
Qed.

Lemma bit_marked w t : 0 <= t -> negb (Z.land w (u64 (Z.shiftl 1 (t mod 64))) =? 0) = Z.testbit w (t mod 64).
Proof.
  intros Ht. pose proof (Z.mod_pos_bound t 64). rewrite shiftl_mul, Z.mul_1_l by lia. unfold wrapu.
  assert (2 ^ (t mod 64) < 2 ^ 64) by (apply Z.pow_lt_mono_r; lia).
  rewrite Z.mod_small by (split; [apply Z.pow_nonneg |]; lia). rewrite land_pow2_testbit by lia.
  assert (0 < 2 ^ (t mod 64)) by (apply Z.pow_pos_nonneg; lia).
  destruct (Z.testbit _ _); [| done]. destruct (2 ^ (t mod 64)) eqn:E; [lia | done | done].
Qed.

(** Marking [t] marks no other counter of the window. *)
Lemma mark_window b t u : length b = 128%nat -> 0 <= t -> 0 <= u -> t / 64 - 127 <= u / 64 <= t / 64 + 127 ->
  marked (<[wordSlot (t / 64) := Z.lor (default 0 (b !! wordSlot (t / 64))) (u64 (Z.shiftl 1 (t mod 64)))]> b) u
  = marked b u || (u =? t).
Proof.
  intros Hl Ht Hu Hw. unfold marked. pose proof (Z.mod_pos_bound t 64). pose proof (Z.mod_pos_bound u 64).
  assert (0 <= t / 64) by (apply Z.div_pos; lia). assert (0 <= u / 64) by (apply Z.div_pos; lia).
  destruct (decide (u / 64 = t / 64)) as [E | Hne].
  - rewrite E, list_lookup_insert_eq by (rewrite Hl; by apply wordSlot_lt). cbn [from_option id].
    rewrite Z.lor_spec. f_equal. rewrite shiftl_mul, Z.mul_1_l by lia. unfold wrapu.
    assert (2 ^ (t mod 64) < 2 ^ 64) by (apply Z.pow_lt_mono_r; lia).
    rewrite Z.mod_small by (split; [apply Z.pow_nonneg |]; lia). rewrite Z.pow2_bits_eqb by lia.
    pose proof (Z.div_mod t 64). pose proof (Z.div_mod u 64). lia.
  - rewrite list_lookup_insert_ne; [| intros E; apply wordSlot_inj in E; lia].
    replace (u =? t) with false by (symmetry; apply Z.eqb_neq; by intros ->). by rewrite orb_false_r.
Qed.

(** [counter] is at most [kRejectAfterMessages], so [exhausted] is never true. *)
Lemma not_exhausted r a : same_window r a -> exhausted r = false.
Proof.
  intros (_ & Hc & Ha & _). unfold exhausted.
  change (u64 (kRejectAfterMessages + 1)) with (2 ^ 64 - 8129).
  change kRejectAfterMessages with (2 ^ 64 - 8130) in Ha. lia.
Qed.

Lemma div64_window c t : c <= t + 8128 -> c / 64 - 127 <= t / 64.
Proof.
  intros H. assert (E : (t + 127 * 64) / 64 = t / 64 + 127) by (apply Z.div_add; lia).
  pose proof (Z.div_le_mono c (t + 127 * 64) 64). lia.
Qed.

(** The state before the mark is tested. *)
Lemma validate_window r a t (r' := if t >? r.(counter)
    then mkReplay t (clearWords (Z.to_nat (if u64 (t / 64 - r.(counter) / 64) >? kCounterWords
                                           then kCounterWords else u64 (t / 64 - r.(counter) / 64)))
                                1 (r.(counter) / 64) r.(backtrack)) else r) :
  same_window r a -> 0 < t <= kRejectAfterMessages -> r.(counter) <= t + 8128 ->
  length r'.(backtrack) = 128%nat /\ r'.(counter) = Z.max a.(newest) t
  /\ (forall u, 0 < u -> r'.(counter) / 64 - 127 <= u / 64 <= r'.(counter) / 64 ->
      marked r'.(backtrack) u = bool_decide (u - 1 ∈ a.(seen)))
  /\ r'.(counter) / 64 - 127 <= t / 64 <= r'.(counter) / 64.
Proof.
  intros (Hl & Hc & Hn & Hs & Hm) Ht Hw. subst r'. rewrite Z.gtb_ltb. destruct (Z.ltb_spec r.(counter) t) as [Hlt | Hge].
  - cbn [backtrack counter]. rewrite clearWords_length. split; [done |]. split; [lia |]. split; [| lia].
    assert (Hd : 0 <= r.(counter) / 64 <= t / 64) by (split; [apply Z.div_pos | apply Z.div_le_mono]; lia).
    assert (t / 64 <= t) by (apply Z.div_le_upper_bound; lia). change kRejectAfterMessages with (2 ^ 64 - 8130) in *.
    unfold wrapu. rewrite Z.mod_small by lia. change kCounterWords with 128.
    replace (if _ >? 128 then 128 else _) with (Z.min (t / 64 - r.(counter) / 64) 128) by (case_test; lia).
    apply advance_window; try done; [lia |]. by rewrite Hc.
  - split; [done |]. split; [lia |]. split; [done |]. split; [by apply div64_window |]. apply Z.div_le_mono; lia.
Qed.

Lemma validate_accepts r a nonce : same_window r a -> 0 <= nonce < 2 ^ 64 ->
  (validate nonce r).1 = (accept nonce a).1 /\ same_window (validate nonce r).2 (accept nonce a).2.
Proof.
  intros Hr Hn. unfold validate, accept. rewrite (not_exhausted r a Hr). cbn [orb].
  case_test; [done |]. change kRejectAfterMessages with (2 ^ 64 - 8130) in *.
  replace (u64 (nonce + 1)) with (nonce + 1) by (unfold wrapu; rewrite Z.mod_small; lia).
  change kCounterWindowSize with 8128. change kCounterWordBits with 64.
  replace (u64 (8128 + (nonce + 1))) with (nonce + 1 + 8128) by (unfold wrapu; rewrite Z.mod_small; lia).
  pose proof Hr as (Hl & Hc & Hnew & Hseen & Hm). rewrite Hc. case_test; [done |]. rewrite <- Hc.
  pose proof (validate_window r a (nonce + 1) Hr) as Hw. cbv zeta in *.
  set (r1 := if nonce + 1 >? r.(counter) then _ else _) in *.
  destruct Hw as (Hl1 & Hc1 & Hm1 & Ht1); [change kRejectAfterMessages with (2 ^ 64 - 8130); lia | lia |].
  rewrite bit_marked by lia. change (Z.testbit _ _) with (marked r1.(backtrack) (nonce + 1)).
  rewrite Hm1 by lia. replace (nonce + 1 - 1) with nonce by lia. case_bool_decide as Hin.
  - split; [done |]. pose proof (Hseen _ Hin). cbn [snd]. unfold r1. rewrite Z.gtb_ltb.
    destruct (Z.ltb_spec r.(counter) (nonce + 1)); [lia | done].
  - split; [done |]. cbn [snd]. split; [cbn; by rewrite length_insert |]. split; [cbn; lia |]. cbn [newest seen counter backtrack].
    change kRejectAfterMessages with (2 ^ 64 - 8130) in *. split; [lia |]. split; [set_unfold; intros u [-> | Hu%Hseen]; lia |].
    intros u Hu Hur. assert (0 <= u / 64) by (apply Z.div_pos; lia).
    rewrite mark_window by (try lia; pose proof (Z.div_le_mono r1.(counter) r1.(counter) 64); lia).
    rewrite Hm1 by lia. apply eq_true_iff_eq. rewrite orb_true_iff, !bool_decide_eq_true, Z.eqb_eq. set_unfold.
    split; intros [? | ?]; [by right | left; lia | right; lia | by left].
Qed.

Lemma same_window_reset : same_window replay_reset seen_nothing.
Proof.
  split; [done |]. split; [done |]. split; [done |]. split; [set_solver |].
  intros t Ht Hw. rewrite bool_decide_false by set_solver. unfold marked, replay_reset. cbn [backtrack].
  assert (0 <= t / 64) by (apply Z.div_pos; lia).
  rewrite lookup_replicate_2 by (change (Z.to_nat kCounterWords) with 128%nat; by apply wordSlot_lt).
  apply Z.bits_0.
Qed.

Lemma verdicts_agree nonces r a : Forall (fun n => 0 <= n < 2 ^ 64) nonces -> same_window r a ->
  (verdicts validate nonces r).1 = (verdicts accept nonces a).1
  /\ same_window (verdicts validate nonces r).2 (verdicts accept nonces a).2.
Proof.
  intros Hn. revert r a. induction Hn as [| n nonces Hn _ IH]; intros r a Hr; [done |]. cbn [verdicts].
  destruct (validate_accepts r a n Hr Hn) as [Eb Hr']. destruct (validate n r) as [b r1], (accept n a) as [b' a1].
  cbn [fst snd] in *. destruct (IH r1 a1 Hr') as [Es Hr'']. subst b'.
  destruct (verdicts validate nonces r1) as [bs r2], (verdicts accept nonces a1) as [bs' a2].
  cbn [fst snd] in *. by subst.
Qed.

(** The packets that went through. *)
Fixpoint accepted (nonces : list Z) (verdict : list bool) : list Z :=
  match nonces, verdict with
  | n :: nonces', b :: verdict' => if b : bool then n :: accepted nonces' verdict' else accepted nonces' verdict'
  | _, _ => []
  end.

(** What the reference lets through is new, and not let through again. *)
Lemma accepted_fresh nonces a :
  NoDup (accepted nonces (verdicts accept nonces a).1)
  /\ (forall n, n ∈ accepted nonces (verdicts accept nonces a).1 -> n ∉ a.(seen)).
Proof.
  revert a. induction nonces as [| n nonces IH]; intros a; cbn [verdicts]; [split; [constructor | set_solver] |].
  destruct (accept n a) as [b a'] eqn:E. destruct (IH a') as [Hd Hf].
  destruct (verdicts accept nonces a') as [bs a2]. cbn [fst accepted] in *.
  assert (Ha : if b then n ∉ a.(seen) /\ n ∈ a'.(seen) /\ a.(seen) ⊆ a'.(seen) else a' = a).
  { revert E. unfold accept. case_test; [by intros [= <- <-] |]. case_test; [by intros [= <- <-] |].
    case_bool_decide; intros [= <- <-]; [done |]. cbn [seen]. set_solver. }
  destruct b; [| by subst]. destruct Ha as (Hn & Hn' & Hsub). split.
  - constructor; [| done]. intros Hin. by apply (Hf n).
  - intros m [-> | Hm]%elem_of_cons; [done |]. intros Hin. apply (Hf m Hm). set_solver.
Qed.

(** C26: The 8192-bit replay window accepts, for every sequence of 64-bit nonces, exactly
    what the reference with the set of all accepted nonces and the same width accepts; so
    no nonce is accepted twice. *)
Theorem replay_window_exact nonces : Forall (fun n => 0 <= n < 2 ^ 64) nonces ->
  let bs := (verdicts validate nonces replay_reset).1 in
  bs = (verdicts accept nonces seen_nothing).1 /\ NoDup (accepted nonces bs).
Proof.
  intros Hn bs. destruct (verdicts_agree nonces _ _ Hn same_window_reset) as [E _]. fold bs in E.
  split; [done |]. rewrite E. apply accepted_fresh.
Qed.

Lemma replay_window_exact_witness :
  let bs := (verdicts validate [5; 9000; 5; 871; 872; 872] replay_reset).1 in
  bs = (verdicts accept [5; 9000; 5; 871; 872; 872] seen_nothing).1
  /\ NoDup (accepted [5; 9000; 5; 871; 872; 872] bs).
Proof. refine (replay_window_exact [5; 9000; 5; 871; 872; 872] _). repeat constructor; lia. Defined.
