(* ===== verification/NoiseCrypto.v ===== *)
(** * The cryptographic primitives of Noise

    [src/src/noise.cpp] uses X25519, two AEADs and four hashes of OpenSSL; these
    are the parameters of [NoiseCrypto], and [NoiseCryptoLaws] is what their
    documentation promises.  The wrappers of [src/src/aead.cpp],
    [src/src/md.cpp] and [NoiseKey] are translated. *)

From S2P Require Import Prelude CryptoApi.

(** [Aead::Algorithm] *)
Inductive Algorithm : Type := Aes128Gcm | Aes256Gcm | ChaCha20Poly1305.

(** The [MessageDigest::Algorithm]s that Noise names. *)
Inductive Md : Type := Sha256 | Sha512 | Blake2s_256 | Blake2b_512.

#[global] Instance Algorithm_eq : EqDecision Algorithm.
Proof. solve_decision. Defined.
#[global] Instance Md_eq : EqDecision Md.
Proof. solve_decision. Defined.

(** [EVP_MD_size] *)
Definition md_size (md : Md) : nat :=
  match md with Sha256 | Blake2s_256 => 32 | Sha512 | Blake2b_512 => 64 end.

Class NoiseCrypto : Type := {
  (** key, nonce, additional data, text; ciphertext followed by the tag *)
  evp_seal : Algorithm -> list Z -> list Z -> list Z -> list Z -> list Z;
  evp_open : Algorithm -> list Z -> list Z -> list Z -> list Z -> option (list Z);
  (** whether the library was built with the hash *)
  md_available : Md -> bool;
  evp_digest : Md -> list Z -> list Z;
  evp_hmac : Md -> list Z -> list Z -> list Z;
  (** the public key of a private one, and the shared secret of a private and a
      public key, if there is one *)
  x25519_public : list Z -> list Z;
  x25519 : list Z -> list Z -> option (list Z)
}.

Class NoiseCryptoLaws {C : NoiseCrypto} : Prop := {
  evp_seal_length a k n ad p : zlen (evp_seal a k n ad p) = zlen p + 16;
  evp_open_seal a k n ad p : evp_open a k n ad (evp_seal a k n ad p) = Some p;
  evp_digest_length md m : zlen (evp_digest md m) = Z.of_nat (md_size md);
  evp_hmac_length md k m : zlen (evp_hmac md k m) = Z.of_nat (md_size md);
  x25519_public_length k : zlen k = 32 -> zlen (x25519_public k) = 32;
  x25519_agree a b : zlen a = 32 -> zlen b = 32 ->
    exists z, x25519 a (x25519_public b) = Some z /\ x25519 b (x25519_public a) = Some z /\ zlen z = 32
}.

Definition kDhLen : Z := 32.
Definition kCipherKeyLen : Z := 32.
Definition kPskLen : Z := 32.
Definition kTagLen : Z := 16.
Definition kWireNonceLen : Z := 8.
Definition kMaxFramePayload : Z := 65535.

Section Wrappers.
Context `{C : NoiseCrypto}.

(** [AeadPrivate]: the key length of an algorithm *)
Definition aead_keyLen (a : Algorithm) : Z :=
  match a with Aes128Gcm => 16 | Aes256Gcm | ChaCha20Poly1305 => 32 end.

(** [Aead::seal], with the key the object holds *)
Definition aeadSeal (a : Algorithm) (key nonce aad plaintext : list Z) : option (list Z) :=
  if (zlen key =? 0) || negb (zlen nonce =? 12) || (zlen aad >? INT_MAX) || (zlen plaintext >? INT_MAX)
  then None else Some (evp_seal a key nonce aad plaintext).

(** [Aead::open] *)
Definition aeadOpen (a : Algorithm) (key nonce aad ct : list Z) : option (list Z) :=
  if (zlen key =? 0) || negb (zlen nonce =? 12) || (zlen ct <? 16) || (zlen aad >? INT_MAX)
     || (zlen ct >? INT_MAX)
  then None else evp_open a key nonce aad ct.

(** [MessageDigest::digest]: the empty string without the hash *)
Definition digest (md : Md) (data : list Z) : list Z := if md_available md then evp_digest md data else [].

(** [qtng::hkdf] *)
Definition hkdf (md : Md) (ikm salt info : list Z) (outLen : Z) : list Z :=
  if md_available md then hkdfWith (evp_hmac md) (md_size md) ikm salt info outLen else [].

Record NoiseKey : Type := mkNoiseKey { privateKey : list Z; publicKey : list Z }.
Definition noKey : NoiseKey := mkNoiseKey [] [].
Definition isValidKey (k : NoiseKey) : bool := (zlen k.(privateKey) =? 32) && (zlen k.(publicKey) =? 32).

(** [NoiseKey::generate], given what the generator of the library draws; [None]
    when it fails *)
Definition generate (draw : option (list Z)) : NoiseKey :=
  match draw with
  | None => noKey
  | Some priv =>
      let pub := x25519_public priv in
      if negb (zlen priv =? kDhLen) || negb (zlen pub =? kDhLen) then noKey else mkNoiseKey priv pub
  end.

Definition fromPrivateKey (priv : list Z) : NoiseKey :=
  if negb (zlen priv =? kDhLen) then noKey else
  let pub := x25519_public priv in
  if negb (zlen pub =? kDhLen) then noKey else mkNoiseKey priv pub.

(** [NoiseKey::dh]: the empty string on failure *)
Definition dh (priv pub : list Z) : list Z :=
  if negb (zlen priv =? kDhLen) || negb (zlen pub =? kDhLen) then [] else
  match x25519 priv pub with
  | None => []
  | Some z => if negb (zlen z =? kDhLen) then [] else z
  end.
End Wrappers.

Section Facts.
Context `{L : NoiseCryptoLaws}.

Lemma md_size_pos md : (0 < md_size md)%nat.
Proof. destruct md; simpl; lia. Qed.

Lemma digest_length md m : md_available md = true -> zlen (digest md m) = Z.of_nat (md_size md).
Proof. intros H. unfold digest. rewrite H. apply evp_digest_length. Qed.

Lemma hkdf_length md ikm salt info outLen :
  md_available md = true -> zlen salt <= INT_MAX -> 0 < outLen -> zlen (hkdf md ikm salt info outLen) = outLen.
Proof.
  intros Ha Hs Ho. unfold hkdf, hkdfWith. rewrite Ha.
  apply (hkdfExpandWith_length _ _ (evp_hmac_length md)); [apply md_size_pos | | done].
  unfold hkdfExtractWith. test_false. rewrite evp_hmac_length. destruct md; unfold INT_MAX; simpl; lia.
Qed.

(** A key whose public half belongs to its private half. *)
Definition proper_key (k : NoiseKey) : Prop :=
  zlen k.(privateKey) = 32 /\ k.(publicKey) = x25519_public k.(privateKey).

Lemma proper_public k : proper_key k -> zlen k.(publicKey) = 32.
Proof. intros [Hl ->]. by apply x25519_public_length. Qed.

Lemma proper_valid k : proper_key k -> isValidKey k = true.
Proof. intros Hk. unfold isValidKey. by rewrite (proper_public k Hk), (proj1 Hk). Qed.

Lemma generate_proper priv : zlen priv = 32 -> proper_key (generate (Some priv)).
Proof.
  intros Hl. unfold generate, kDhLen. rewrite (x25519_public_length _ Hl), Hl. done.
Qed.

(** Two proper keys agree on a secret. *)
Lemma dh_agree a b : proper_key a -> proper_key b ->
  dh a.(privateKey) b.(publicKey) = dh b.(privateKey) a.(publicKey)
  /\ zlen (dh a.(privateKey) b.(publicKey)) = 32.
Proof.
  intros Ha Hb. pose proof (proper_public a Ha) as Hpa. pose proof (proper_public b Hb) as Hpb.
  destruct Ha as [Hla Ea], Hb as [Hlb Eb]. unfold dh, kDhLen. rewrite Hla, Hlb, Hpa, Hpb. cbn [orb negb Z.eqb Pos.eqb].
  destruct (x25519_agree a.(privateKey) b.(privateKey) Hla Hlb) as (z & E1 & E2 & Hz).
  rewrite Eb, Ea, E1, E2, Hz. by split.
Qed.

Lemma aead_roundtrip a key nonce aad p : zlen key = 32 -> zlen nonce = 12 -> zlen aad <= INT_MAX ->
  zlen p <= INT_MAX - 16 ->
  exists c, aeadSeal a key nonce aad p = Some c /\ zlen c = zlen p + 16 /\ aeadOpen a key nonce aad c = Some p.
Proof.
  intros Hk Hn Ha Hp. unfold aeadSeal, aeadOpen. rewrite Hk, Hn. unfold INT_MAX in *. cbn [orb negb Z.eqb Pos.eqb].
  pose proof (zlen_nonneg p). exists (evp_seal a key nonce aad p). rewrite evp_seal_length.
  split; [by test_false |]. split; [done |]. test_false. apply evp_open_seal.
Qed.
End Facts.

(** ** A concrete instance, for the witnesses: all laws, no secrecy *)

Definition toy_noise : NoiseCrypto := {|
  evp_seal := fun _ _ _ _ p => p ++ replicate 16 7;
  evp_open := fun _ _ _ _ c => Some (take (length c - 16) c);
  md_available := fun _ => true;
  evp_digest := fun md m => replicate (md_size md) (zlen m mod 256);
  evp_hmac := fun md _ _ => replicate (md_size md) 9;
  x25519_public := fun k => k;
  x25519 := fun _ _ => Some (replicate 32 3)
|}.

Lemma toy_noise_laws : @NoiseCryptoLaws toy_noise.
Proof.
  split; simpl; intros.
  - by rewrite zlen_app.
  - rewrite length_app. simpl. by rewrite Nat.add_sub, take_app_length.
  - unfold zlen. by rewrite length_replicate.
  - unfold zlen. by rewrite length_replicate.
  - done.
  - eexists. by split.
Qed.
