(* ===== verification/Noise.v ===== *)
(** * Noise: cipher states and the handshake

    [NoiseCipherState] and [NoiseHandshakeState] of [src/src/noise.cpp].  An
    operation that fails leaves its message in [error] and the state as it is at
    that point. *)

From S2P Require Import Prelude CryptoApi NoiseCrypto.

(** ** Patterns *)

Inductive NoisePattern : Type := XX | IK | XK | KK.
Inductive NoisePskModifier : Type := NoPsk | Psk0 | Psk1 | Psk2 | Psk3.
Inductive NoiseHash : Type := HSha256 | HSha512 | HBlake2s | HBlake2b.
Inductive NoiseRole : Type := Initiator | Responder.

(** [enum class Token] *)
Module Token.
Inductive t : Type := E | S | Ee | Es | Se | Ss | Psk.
End Token.

#[global] Instance NoiseRole_eq : EqDecision NoiseRole.
Proof. solve_decision. Defined.

Definition noiseHandshakeName (pattern : NoisePattern) (pskModifier : NoisePskModifier) : list Z :=
  let pat := match pattern with IK => str "IK" | XK => str "XK" | KK => str "KK" | XX => str "XX" end in
  let mod_ := match pskModifier with
              | Psk0 => str "psk0" | Psk1 => str "psk1" | Psk2 => str "psk2" | Psk3 => str "psk3"
              | NoPsk => []
              end in
  pat ++ mod_.

(** The three messages of the array; the last is unused by the short patterns. *)
Record PatternTokens : Type := mkTokens {
  preInitiatorS : bool;
  preResponderS : bool;
  nMessages : Z;
  messages : list (list Token.t)
}.

Definition patternTokens (pattern : NoisePattern) : PatternTokens :=
  match pattern with
  | XX => mkTokens false false 3 [[Token.E]; [Token.E; Token.Ee; Token.S; Token.Es]; [Token.S; Token.Se]]
  | IK => mkTokens false true 2 [[Token.E; Token.Es; Token.S; Token.Ss]; [Token.E; Token.Ee; Token.Se]; []]
  | XK => mkTokens false true 3 [[Token.E; Token.Es]; [Token.E; Token.Ee]; [Token.S; Token.Se]]
  | KK => mkTokens true true 2 [[Token.E; Token.Es; Token.Ss]; [Token.E; Token.Ee; Token.Se]; []]
  end.

Record NoiseHashInfo : Type := mkHashInfo { hmd : Md; hlen : Z; hname : list Z }.

Definition noiseHashInfo (hash : NoiseHash) : NoiseHashInfo :=
  match hash with
  | HSha256 => mkHashInfo Sha256 32 (str "SHA256")
  | HSha512 => mkHashInfo Sha512 64 (str "SHA512")
  | HBlake2s => mkHashInfo Blake2s_256 32 (str "BLAKE2s")
  | HBlake2b => mkHashInfo Blake2b_512 64 (str "BLAKE2b")
  end.

Definition isNoiseAead (cipher : Algorithm) : bool :=
  bool_decide (cipher = ChaCha20Poly1305) || bool_decide (cipher = Aes256Gcm).

Definition noiseProtocolName (pattern : NoisePattern) (pskModifier : NoisePskModifier)
    (cipher : Algorithm) (hash : NoiseHash) : list Z :=
  str "Noise_" ++ noiseHandshakeName pattern pskModifier ++ str "_25519_"
  ++ (if bool_decide (cipher = Aes256Gcm) then str "AESGCM" else str "ChaChaPoly")
  ++ str "_" ++ (noiseHashInfo hash).(hname).

(** Four zero bytes and the counter, little-endian for ChaChaPoly. *)
Definition encodeNonce (algo : Algorithm) (n : Z) : list Z :=
  [0; 0; 0; 0] ++ (if bool_decide (algo = Aes256Gcm) then be_encode 8 n else rev (be_encode 8 n)).

(** ** [NoiseCipherState] *)

Definition MaxNonce : Z := 2 ^ 64 - 2.
Definition kRekeyNonce : Z := 2 ^ 64 - 1.
Definition transportNonceAllowed (n : Z) : bool := n <=? MaxNonce.

(** [aeadKey] is the key the [Aead] object holds. *)
Record CipherState : Type := mkCipher {
  algorithm : Algorithm;
  aeadKey : list Z;
  lastDecryptOk : bool;
  ckey : list Z;
  nonce : Z
}.

Definition newCipher (algo : Algorithm) : CipherState := mkCipher algo [] false [] 0.

Definition syncAeadKey (c : CipherState) : CipherState :=
  if zlen c.(ckey) =? 0 then c
  else if zlen c.(ckey) =? aead_keyLen c.(algorithm)
  then mkCipher c.(algorithm) c.(ckey) c.(lastDecryptOk) c.(ckey) c.(nonce)
  else mkCipher c.(algorithm) c.(aeadKey) c.(lastDecryptOk) [] c.(nonce).

Definition initializeKey (key32 : list Z) (c : CipherState) : CipherState :=
  let key := if isNoiseAead c.(algorithm) && (zlen key32 =? kCipherKeyLen) then key32 else [] in
  syncAeadKey (mkCipher c.(algorithm) c.(aeadKey) c.(lastDecryptOk) key 0).

Definition hasKey (c : CipherState) : bool := negb (zlen c.(ckey) =? 0).
Definition withNonce (n : Z) (c : CipherState) : CipherState :=
  mkCipher c.(algorithm) c.(aeadKey) c.(lastDecryptOk) c.(ckey) n.
Definition withOk (b : bool) (c : CipherState) : CipherState :=
  mkCipher c.(algorithm) c.(aeadKey) b c.(ckey) c.(nonce).

Definition setNonce (n : Z) (c : CipherState) : CipherState :=
  if negb (transportNonceAllowed n) then c else withNonce n c.

Section Cipher.
Context `{C : NoiseCrypto}.

Definition rekey (c : CipherState) : bool * CipherState :=
  if negb (hasKey c) then (false, c) else
  match aeadSeal c.(algorithm) c.(aeadKey) (encodeNonce c.(algorithm) kRekeyNonce) [] (replicate 32 0) with
  | None => (false, c)
  | Some out =>
      if zlen out <? kCipherKeyLen then (false, c) else
      let c := syncAeadKey (mkCipher c.(algorithm) c.(aeadKey) c.(lastDecryptOk)
                                     (take (Z.to_nat kCipherKeyLen) out) c.(nonce)) in
      let c := withNonce 0 c in
      (hasKey c, c)
  end.

(** The ciphertext with the nonce that was used; empty on failure. *)
Definition encryptWithAd (ad plaintext : list Z) (c : CipherState) : list Z * Z * CipherState :=
  if negb (hasKey c) then ([], 0, c)
  else if negb (transportNonceAllowed c.(nonce)) then ([], 0, c)
  else
    let n := c.(nonce) in
    match aeadSeal c.(algorithm) c.(aeadKey) (encodeNonce c.(algorithm) n) ad plaintext with
    | None => ([], 0, c)
    | Some out => (out, n, withNonce (u64 (n + 1)) c)
    end.

(** The overload with the nonce of the packet *)
Definition decryptWithNonce (ad ct : list Z) (n : Z) (c : CipherState) : list Z * CipherState :=
  let c := withOk false c in
  if negb (hasKey c) then ([], c)
  else if zlen ct <? kTagLen then ([], c)
  else if negb (transportNonceAllowed n) then ([], c)
  else match aeadOpen c.(algorithm) c.(aeadKey) (encodeNonce c.(algorithm) n) ad ct with
       | None => ([], c)
       | Some out => (out, withOk true c)
       end.

(** The sequential overload *)
Definition decryptWithAd (ad ct : list Z) (c : CipherState) : list Z * CipherState :=
  let '(out, c) := decryptWithNonce ad ct c.(nonce) c in
  (out, if c.(lastDecryptOk) then withNonce (u64 (c.(nonce) + 1)) c else c).
End Cipher.

(** ** [NoiseHandshakeState] *)

Record NoiseConfig : Type := mkConfig {
  localStatic : NoiseKey;
  cfg_pattern : NoisePattern;
  cfg_role : NoiseRole;
  cfg_remoteStatic : list Z;
  cfg_psk : list Z;
  cfg_pskModifier : NoisePskModifier;
  prologue : list Z;
  cfg_cipher : Algorithm;
  cfg_hash : NoiseHash
}.

(** [NoiseHandshakeStatePrivate] *)
Record HS : Type := mkHS {
  role : NoiseRole;
  tokens : PatternTokens;
  complete : bool;
  usesPsk : bool;
  msgIndex : Z;
  hashAlgo : Md;
  hashLen : Z;
  error : String.string;
  s : NoiseKey;
  e : NoiseKey;
  rs : list Z;
  re : list Z;
  psk : list Z;
  ck : list Z;
  h : list Z;
  cs : CipherState
}.

Definition newHS : HS :=
  mkHS Initiator (mkTokens false false 0 [[]; []; []]) false false 0 Sha256 32 String.EmptyString noKey noKey [] [] [] [] []
       (newCipher ChaCha20Poly1305).

(** Assignments to the members. *)
Definition set_progress (done : bool) (i : Z) (d : HS) : HS :=
  mkHS d.(role) d.(tokens) done d.(usesPsk) i d.(hashAlgo) d.(hashLen) d.(error) d.(s) d.(e) d.(rs) d.(re)
       d.(psk) d.(ck) d.(h) d.(cs).
Definition set_error (m : String.string) (d : HS) : HS :=
  mkHS d.(role) d.(tokens) d.(complete) d.(usesPsk) d.(msgIndex) d.(hashAlgo) d.(hashLen) m d.(s) d.(e) d.(rs)
       d.(re) d.(psk) d.(ck) d.(h) d.(cs).
Definition set_keys (e' : NoiseKey) (rs' re' : list Z) (d : HS) : HS :=
  mkHS d.(role) d.(tokens) d.(complete) d.(usesPsk) d.(msgIndex) d.(hashAlgo) d.(hashLen) d.(error) d.(s) e' rs'
       re' d.(psk) d.(ck) d.(h) d.(cs).
Definition set_symmetric (ck' h' : list Z) (cs' : CipherState) (d : HS) : HS :=
  mkHS d.(role) d.(tokens) d.(complete) d.(usesPsk) d.(msgIndex) d.(hashAlgo) d.(hashLen) d.(error) d.(s) d.(e)
       d.(rs) d.(re) d.(psk) ck' h' cs'.
Definition set_e (k : NoiseKey) (d : HS) : HS := set_keys k d.(rs) d.(re) d.
Definition set_rs (k : list Z) (d : HS) : HS := set_keys d.(e) k d.(re) d.
Definition set_re (k : list Z) (d : HS) : HS := set_keys d.(e) d.(rs) k d.
Definition set_ck (k : list Z) (d : HS) : HS := set_symmetric k d.(h) d.(cs) d.
Definition set_h (k : list Z) (d : HS) : HS := set_symmetric d.(ck) k d.(cs) d.
Definition set_cs (c : CipherState) (d : HS) : HS := set_symmetric d.(ck) d.(h) c d.

(** A member function: [None] when it returns false (or sets [error]). *)
Definition hio (A : Type) : Type := HS -> option A * HS.

#[export] Instance hio_ret : MRet hio := fun A a d => (Some a, d).
#[export] Instance hio_bind : MBind hio := fun A B k m d =>
  match m d with
  | (Some a, d') => k a d'
  | (None, d') => (None, d')
  end.

Definition hfail {A} (m : String.string) : hio A := fun d => (None, set_error m d).
Definition hget {A} (f : HS -> A) : hio A := fun d => (Some (f d), d).
Definition hset (f : HS -> HS) : hio unit := fun d => (Some tt, f d).
Definition hguard (b : bool) (m : String.string) : hio unit := if b then mret tt else hfail m.
Arguments hfail {A} m%_string_scope.
Arguments hguard b m%_string_scope.

(** [outMessage] and what the generator draws, or [inMessage] and [*pos]. *)
Inductive Direction : Type :=
| Writing (draw : option (list Z)) (outMessage : list Z)
| Reading (inMessage : list Z) (pos : Z).

(** [n > inMessageSize || *pos > inMessageSize - n] *)
Definition missing (n : Z) (inMessage : list Z) (pos : Z) : bool :=
  (n >? zlen inMessage) || (pos >? zlen inMessage - n).

Definition substr (l : list Z) (pos n : Z) : list Z := take (Z.to_nat n) (drop (Z.to_nat pos) l).

Section Handshake.
Context `{C : NoiseCrypto}.

Definition mixHash (data : list Z) : hio unit := fun d =>
  let next := digest d.(hashAlgo) (d.(h) ++ data) in
  if negb (zlen next =? d.(hashLen)) then hfail "mixHash failed" d else hset (set_h next) d.

(** [NoiseHandshakeStatePrivate::hkdf] *)
Definition hs_hkdf (material : list Z) (numOutputs : Z) (d : HS) : list Z :=
  if (numOutputs <? 2) || (numOutputs >? 3) then []
  else hkdf d.(hashAlgo) material d.(ck) [] (numOutputs * d.(hashLen)).

(** [cs.initializeKey(key)] and the test that it was accepted *)
Definition takeKey (key : list Z) (m : String.string) : hio unit :=
  _ ← hset (fun d => set_cs (initializeKey key d.(cs)) d);
  c ← hget cs;
  hguard (hasKey c) m.
#[local] Arguments takeKey key m%_string_scope.

Definition mixKey (material : list Z) : hio unit := fun d =>
  let outputs := hs_hkdf material 2 d in
  if negb (zlen outputs =? d.(hashLen) * 2) then hfail "mixKey HKDF failed" d else
  (_ ← hset (set_ck (substr outputs 0 d.(hashLen)));
   takeKey (substr outputs d.(hashLen) kCipherKeyLen) "mixKey failed to set cipher key") d.

Definition mixKeyAndHash (material : list Z) : hio unit := fun d =>
  let outputs := hs_hkdf material 3 d in
  if negb (zlen outputs =? d.(hashLen) * 3) then hfail "mixKeyAndHash HKDF failed" d else
  (_ ← hset (set_ck (substr outputs 0 d.(hashLen)));
   _ ← mixHash (substr outputs d.(hashLen) d.(hashLen));
   takeKey (substr outputs (d.(hashLen) * 2) kCipherKeyLen) "mixKeyAndHash failed to set cipher key") d.

Definition dhMix (priv pub : list Z) : hio unit :=
  let secret := dh priv pub in
  _ ← hguard (negb (zlen secret =? 0)) "DH failed";
  mixKey secret.

Definition encryptAndHash (plaintext : list Z) : hio (list Z) := fun d =>
  if hasKey d.(cs) then
    let '(ciphertext, _, c) := encryptWithAd d.(h) plaintext d.(cs) in
    (_ ← hset (set_cs c);
     _ ← hguard (negb (zlen ciphertext =? 0)) "encryptAndHash failed";
     _ ← mixHash ciphertext;
     mret ciphertext) d
  else (_ ← mixHash plaintext; mret plaintext) d.

Definition decryptAndHash (ct : list Z) : hio (list Z) := fun d =>
  if hasKey d.(cs) then
    if zlen ct <? kTagLen then hfail "decryptAndHash truncated" d else
    let '(plaintext, c) := decryptWithAd d.(h) ct d.(cs) in
    (_ ← hset (set_cs c);
     _ ← hguard c.(lastDecryptOk) "decryptAndHash failed";
     _ ← mixHash ct;
     mret plaintext) d
  else (_ ← mixHash ct; mret ct) d.
Definition checkRemoteStatic (expectedRs : list Z) : hio unit := fun d =>
  if negb (zlen expectedRs =? 0) && bool_decide (expectedRs <> d.(rs))
  then hfail "remote static public key mismatch" d else (Some tt, d).

(** [Token::E] *)
Definition tokenE (dir : Direction) : hio Direction :=
  psk_used ← hget usesPsk;
  match dir with
  | Writing draw out =>
      let k := generate draw in
      _ ← hset (set_e k);
      _ ← hguard (isValidKey k) "failed to generate ephemeral key";
      let out := out ++ k.(publicKey) in
      _ ← mixHash k.(publicKey);
      _ ← (if psk_used : bool then mixKey k.(publicKey) else mret tt);
      mret (Writing draw out)
  | Reading msg pos =>
      if missing kDhLen msg pos then hfail "missing remote ephemeral" else
      let k := substr msg pos kDhLen in
      _ ← hset (set_re k);
      _ ← mixHash k;
      _ ← (if psk_used : bool then mixKey k else mret tt);
      mret (Reading msg (pos + kDhLen))
  end.

(** [Token::S] *)
Definition tokenS (dir : Direction) : hio Direction :=
  match dir with
  | Writing draw out =>
      spk ← hget (fun d => d.(s).(publicKey));
      encS ← encryptAndHash spk;
      _ ← hguard (negb (zlen encS =? 0)) "encrypt static key failed";
      mret (Writing draw (out ++ encS))
  | Reading msg pos =>
      c ← hget cs;
      let n := if hasKey c then kDhLen + kTagLen else kDhLen in
      if missing n msg pos then hfail "missing remote static" else
      expectedRs ← hget rs;
      r ← (fun d => match decryptAndHash (substr msg pos n) d with
                    | (Some r, d') => (Some r, set_rs r d')
                    | (None, d') => (None, set_rs [] d')
                    end);
      _ ← hguard (zlen (r : list Z) =? kDhLen) "decrypt remote static failed";
      _ ← checkRemoteStatic expectedRs;
      mret (Reading msg (pos + n))
  end.

Definition applyToken (token : Token.t) (dir : Direction) : hio Direction :=
  match token with
  | Token.E => tokenE dir
  | Token.S => tokenS dir
  | Token.Ee => fun d => (_ ← dhMix d.(e).(privateKey) d.(re); mret dir) d
  | Token.Es => fun d =>
      (_ ← (if bool_decide (d.(role) = Initiator) then dhMix d.(e).(privateKey) d.(rs)
            else dhMix d.(s).(privateKey) d.(re)); mret dir) d
  | Token.Se => fun d =>
      (_ ← (if bool_decide (d.(role) = Initiator) then dhMix d.(s).(privateKey) d.(re)
            else dhMix d.(e).(privateKey) d.(rs)); mret dir) d
  | Token.Ss => fun d => (_ ← dhMix d.(s).(privateKey) d.(rs); mret dir) d
  | Token.Psk => fun d => (_ ← mixKeyAndHash d.(psk); mret dir) d
  end.

Fixpoint applyTokens (ts : list Token.t) (dir : Direction) : hio Direction :=
  match ts with
  | [] => mret dir
  | t :: ts' => dir ← applyToken t dir; applyTokens ts' dir
  end.

(** The message whose turn it is. *)
Definition currentTokens (d : HS) : list Token.t := default [] (d.(tokens).(messages) !! Z.to_nat d.(msgIndex)).

Definition ourTurn (d : HS) : bool := Bool.eqb (bool_decide (d.(role) = Initiator)) (d.(msgIndex) mod 2 =? 0).

(** [++msgIndex] and the test for the last message *)
Definition stepMessage (d : HS) : HS :=
  set_progress (if d.(msgIndex) + 1 >=? d.(tokens).(nMessages) then true else d.(complete)) (d.(msgIndex) + 1) d.

Definition writeMessage (draw : option (list Z)) (payload : list Z) (d : HS) : option (list Z) * HS :=
  let d := set_error String.EmptyString d in
  if d.(complete) then hfail "handshake already complete" d
  else if negb (ourTurn d) || (d.(msgIndex) >=? d.(tokens).(nMessages))
  then hfail "writeMessage called at unexpected handshake step" d
  else
    (dir ← applyTokens (currentTokens d) (Writing draw []);
     cipherPayload ← encryptAndHash payload;
     _ ← hset stepMessage;
     mret (match dir with Writing _ out => out ++ cipherPayload | Reading _ _ => cipherPayload end)) d.

Definition readMessage (message : list Z) (d : HS) : option (list Z) * HS :=
  let d := set_error String.EmptyString d in
  if d.(complete) then hfail "handshake already complete" d
  else if ourTurn d || (d.(msgIndex) >=? d.(tokens).(nMessages))
  then hfail "readMessage called at unexpected handshake step" d
  else
    (dir ← applyTokens (currentTokens d) (Reading message 0);
     let pos := match dir with Reading _ pos => pos | Writing _ _ => 0 end in
     if pos >? zlen message then hfail "readMessage truncated after tokens" else
     payload ← decryptAndHash (drop (Z.to_nat pos) message);
     _ ← hset stepMessage;
     mret payload) d.

(** The two ciphers, for sending and for receiving. *)
Definition split (d : HS) : option (CipherState * CipherState) * HS :=
  let d := set_error String.EmptyString d in
  if negb d.(complete) then hfail "handshake not complete" d else
  let outputs := hs_hkdf [] 2 d in
  if negb (zlen outputs =? d.(hashLen) * 2) then hfail "split HKDF failed" d else
  let c1 := initializeKey (substr outputs 0 kCipherKeyLen) (newCipher d.(cs).(algorithm)) in
  let c2 := initializeKey (substr outputs d.(hashLen) kCipherKeyLen) (newCipher d.(cs).(algorithm)) in
  if negb (hasKey c1) || negb (hasKey c2) then hfail "split failed to initialize cipher keys" d
  else (Some (if bool_decide (d.(role) = Initiator) then (c1, c2) else (c2, c1)), d).
(** The members as [initialize] sets them before its checks. *)
Definition freshHS (config : NoiseConfig) : HS :=
  let hashInfo := noiseHashInfo config.(cfg_hash) in
  mkHS config.(cfg_role) (patternTokens config.(cfg_pattern)) false
       (match config.(cfg_pskModifier) with NoPsk => false | _ => true end) 0
       hashInfo.(hmd) hashInfo.(hlen) String.EmptyString config.(localStatic) noKey config.(cfg_remoteStatic) []
       config.(cfg_psk) [] [] (newCipher config.(cfg_cipher)).

(** [static_cast<int>(pskModifier) - static_cast<int>(Psk0)] *)
Definition pskSlot (m : NoisePskModifier) : Z :=
  match m with NoPsk => -1 | Psk0 => 0 | Psk1 => 1 | Psk2 => 2 | Psk3 => 3 end.

(** The token at the beginning of the first message, or at the end of a message. *)
Definition insertPsk (slot : Z) (t : PatternTokens) : PatternTokens :=
  mkTokens t.(preInitiatorS) t.(preResponderS) t.(nMessages)
    (if slot =? 0 then alter (cons Token.Psk) 0%nat t.(messages)
     else alter (fun l => l ++ [Token.Psk]) (Z.to_nat (slot - 1)) t.(messages)).

Definition set_tokens (t : PatternTokens) (d : HS) : HS :=
  mkHS d.(role) t d.(complete) d.(usesPsk) d.(msgIndex) d.(hashAlgo) d.(hashLen) d.(error) d.(s) d.(e) d.(rs) d.(re)
       d.(psk) d.(ck) d.(h) d.(cs).

(** The tests of the keys, and of the pre-shared key with the place of its token. *)
Definition checkKeys (config : NoiseConfig) : hio unit :=
  let initiator := bool_decide (config.(cfg_role) = Initiator) in
  let t := patternTokens config.(cfg_pattern) in
  let rsSize := zlen config.(cfg_remoteStatic) in
  _ ← hguard (isNoiseAead config.(cfg_cipher)) "Noise AEAD must be ChaCha20Poly1305 or Aes256Gcm";
  _ ← hguard (isValidKey config.(localStatic)) "local static key is invalid";
  _ ← hguard ((rsSize =? 0) || (rsSize =? kDhLen)) "remote static public key must be 32 bytes";
  _ ← hguard (negb (t.(preResponderS) && initiator && negb (rsSize =? kDhLen)))
        "initiator requires remote static public key";
  hguard (negb (t.(preInitiatorS) && negb initiator && negb (rsSize =? kDhLen)))
    "responder requires remote static public key".

Definition placePsk (config : NoiseConfig) : hio unit :=
  let t := patternTokens config.(cfg_pattern) in
  match config.(cfg_pskModifier) with
  | NoPsk => hguard (zlen config.(cfg_psk) =? 0) "PSK requires a psk0/psk1/psk2/psk3 modifier"
  | modifier =>
      let slot := pskSlot modifier in
      _ ← hguard (zlen config.(cfg_psk) =? kPskLen) "PSK must be 32 bytes";
      _ ← hguard (negb ((slot <? 0) || (slot >? t.(nMessages)))) "PSK modifier is not valid for this pattern";
      hset (set_tokens (insertPsk slot t))
  end.

(** The first value of [h]: the name, padded, or its hash. *)
Definition nameHash (config : NoiseConfig) : hio (list Z) :=
  let info := noiseHashInfo config.(cfg_hash) in
  let name := noiseProtocolName config.(cfg_pattern) config.(cfg_pskModifier) config.(cfg_cipher) config.(cfg_hash) in
  if zlen name <=? info.(hlen) then mret (name ++ replicate (Z.to_nat (info.(hlen) - zlen name)) 0)
  else
    let h := digest info.(hmd) name in
    _ ← hguard (zlen h =? info.(hlen)) "failed to hash Noise protocol name";
    mret h.

Definition initialize (config : NoiseConfig) : option unit * HS :=
  let initiator := bool_decide (config.(cfg_role) = Initiator) in
  let t := patternTokens config.(cfg_pattern) in
  let info := noiseHashInfo config.(cfg_hash) in
  let localPub := config.(localStatic).(publicKey) in
  (_ ← checkKeys config;
   _ ← placePsk config;
   _ ← hguard (zlen (digest info.(hmd) []) =? info.(hlen)) "Noise hash is unavailable in this crypto backend";
   h0 ← nameHash config;
   _ ← hset (set_h h0);
   _ ← hset (set_ck h0);
   _ ← mixHash config.(prologue);
   _ ← (if t.(preInitiatorS) then mixHash (if initiator then localPub else config.(cfg_remoteStatic)) else mret tt);
   (if t.(preResponderS) then mixHash (if initiator then config.(cfg_remoteStatic) else localPub) else mret tt))
  (freshHS config).
End Handshake.
