(* ===== verification/NoiseProofs.v ===== *)
(** * Noise: two peers in step

    The writer and the reader of a handshake message go through the same symmetric
    states.  [twins] relates them, [link] says which keys one knows of the other;
    every token keeps both, and leaves the reader behind what the writer wrote. *)

From S2P Require Import Prelude CryptoApi NoiseCrypto Noise.

(** ** The symmetric state *)

(** Equal but for the result of the last decryption. *)
Definition same_cipher (c c' : CipherState) : Prop :=
  c'.(algorithm) = c.(algorithm) /\ c'.(aeadKey) = c.(aeadKey) /\ c'.(ckey) = c.(ckey) /\ c'.(nonce) = c.(nonce).

(** A cipher that is empty or keyed, after at most [n] messages. *)
Definition good_cipher (n : Z) (c : CipherState) : Prop :=
  isNoiseAead c.(algorithm) = true /\ 0 <= c.(nonce) <= n
  /\ (c.(ckey) = [] \/ zlen c.(ckey) = 32 /\ c.(aeadKey) = c.(ckey)).

Definition twins (a b : HS) : Prop :=
  b.(tokens) = a.(tokens) /\ b.(complete) = a.(complete) /\ b.(usesPsk) = a.(usesPsk)
  /\ b.(msgIndex) = a.(msgIndex) /\ b.(hashAlgo) = a.(hashAlgo) /\ b.(hashLen) = a.(hashLen)
  /\ b.(psk) = a.(psk) /\ b.(ck) = a.(ck) /\ b.(h) = a.(h) /\ same_cipher a.(cs) b.(cs)
  /\ b.(role) <> a.(role).

(** Only the symmetric state changed. *)
Definition framed (a a' : HS) : Prop := exists ck' h' cs', a' = set_symmetric ck' h' cs' a.

Lemma framed_refl a : framed a a.
Proof. exists a.(ck), a.(h), a.(cs). by destruct a. Qed.

Lemma framed_trans a b c : framed a b -> framed b c -> framed a c.
Proof. intros (? & ? & ? & ->) (k & i & j & ->). by exists k, i, j. Qed.

Section Twins.
Context `{L : NoiseCryptoLaws}.

Definition good (n : Z) (a : HS) : Prop :=
  md_available a.(hashAlgo) = true /\ a.(hashLen) = Z.of_nat (md_size a.(hashAlgo))
  /\ zlen a.(h) = a.(hashLen) /\ zlen a.(ck) = a.(hashLen) /\ good_cipher n a.(cs).

(** Both went on in step. *)
Definition in_step (n : Z) (a b a' b' : HS) : Prop :=
  framed a a' /\ framed b b' /\ twins a' b' /\ good n a'.

Lemma in_step_refl n a b : twins a b -> good n a -> in_step n a b a b.
Proof. intros. split; [apply framed_refl |]. split; [apply framed_refl |]. done. Qed.

Lemma in_step_trans n n' a b a1 b1 a2 b2 :
  in_step n a b a1 b1 -> in_step n' a1 b1 a2 b2 -> in_step n' a b a2 b2.
Proof.
  intros (Ha & Hb & _) (Ha' & Hb' & Ht & Hg).
  split; [by eapply framed_trans |]. split; [by eapply framed_trans |]. done.
Qed.

Lemma hash_bound a : md_available a.(hashAlgo) = true -> a.(hashLen) = Z.of_nat (md_size a.(hashAlgo)) ->
  a.(hashLen) = 32 \/ a.(hashLen) = 64.
Proof. intros _ ->. destruct (hashAlgo a); simpl; auto. Qed.

(** [mixHash] of the same data. *)
Lemma mixHash_twins n a b data : twins a b -> good n a ->
  exists a' b', mixHash data a = (Some tt, a') /\ mixHash data b = (Some tt, b') /\ in_step n a b a' b'
    /\ a'.(cs) = a.(cs) /\ b'.(cs) = b.(cs).
Proof.
  intros (Ht & Hco & Hu & Hm & Ha & Hl & Hp & Hck & Hh & Hcs & Hr) (Hav & Hlen & Hzh & Hzc & Hc).
  set (next := digest a.(hashAlgo) (a.(h) ++ data)).
  assert (Hn : zlen next = a.(hashLen)) by (unfold next; rewrite digest_length; done).
  exists (set_h next a), (set_h next b). unfold mixHash. rewrite Ha, Hh, Hl. fold next. rewrite Hn, Z.eqb_refl.
  do 2 (split; [done |]). split; [| done]. split; [by exists a.(ck), next, a.(cs) |].
  split; [by exists b.(ck), next, b.(cs) |]. split; [| done]. unfold twins; cbn. done.
Qed.

Lemma substr_length l pos n : 0 <= pos -> 0 <= n -> pos + n <= zlen l -> zlen (substr l pos n) = n.
Proof.
  intros Hp Hn Hl. unfold substr. apply zlen_take. split; [done |]. unfold zlen in *. rewrite length_drop. lia.
Qed.

Lemma initializeKey_good key c : isNoiseAead c.(algorithm) = true -> zlen key = 32 ->
  initializeKey key c = mkCipher c.(algorithm) key c.(lastDecryptOk) key 0.
Proof.
  intros Ha Hk. unfold initializeKey, syncAeadKey, kCipherKeyLen. rewrite Ha, Hk. cbn [andb Z.eqb Pos.eqb ckey algorithm].
  rewrite Hk. cbn [Z.eqb]. destruct (algorithm c); [by vm_compute in Ha | done..].
Qed.

Lemma takeKey_twins n a b key m : twins a b -> good n a -> zlen key = 32 ->
  exists a' b', takeKey key m a = (Some tt, a') /\ takeKey key m b = (Some tt, b') /\ in_step 0 a b a' b'
    /\ hasKey a'.(cs) = true.
Proof.
  intros (Ht & Hco & Hu & Hm & Ha & Hl & Hp & Hck & Hh & (Hca & Hcb & Hcc & Hcd) & Hr) (Hav & Hlen & Hzh & Hzc & Hc) Hk.
  assert (Hia : isNoiseAead a.(cs).(algorithm) = true) by apply Hc.
  unfold takeKey, mbind, hio_bind, hset, hget. cbn [cs set_cs set_symmetric].
  rewrite !initializeKey_good by (try done; by rewrite Hca). unfold hguard, hasKey. cbn [ckey]. rewrite Hk. cbn.
  do 2 eexists. do 2 (split; [done |]). split; [| unfold hasKey; cbn; by rewrite Hk].
  split; [by do 3 eexists |]. split; [by do 3 eexists |]. split.
  - unfold twins, same_cipher. cbn. done.
  - unfold good, good_cipher. cbn. repeat (split; [done |]). by right.
Qed.

Lemma hs_hkdf_twins a b m k : twins a b -> hs_hkdf m k b = hs_hkdf m k a.
Proof.
  intros (Ht & Hco & Hu & Hm & Ha & Hl & Hp & Hck & Hh & Hcs & Hr). unfold hs_hkdf. by rewrite Ha, Hl, Hck.
Qed.

Lemma hs_hkdf_length n a m k : good n a -> 2 <= k <= 3 -> zlen (hs_hkdf m k a) = a.(hashLen) * k.
Proof.
  intros (Hav & Hlen & Hzh & Hzc & Hc) Hk. destruct (hash_bound a Hav Hlen). 
  all: unfold hs_hkdf; test_false; rewrite hkdf_length by (unfold INT_MAX; (done || lia)); lia.
Qed.

Lemma bind_some {A B} (m : hio A) (k : A -> hio B) d a d' : m d = (Some a, d') -> (m ≫= k) d = k a d'.
Proof. intros Hm. unfold mbind, hio_bind. by rewrite Hm. Qed.

Lemma bind_set {B} (f : HS -> HS) (k : unit -> hio B) d : (hset f ≫= k) d = k tt (f d).
Proof. done. Qed.

Lemma bind_guard {B} (c : bool) m (k : unit -> hio B) d : c = true -> (hguard c m ≫= k) d = k tt d.
Proof. by intros ->. Qed.

(** A new chaining key of the right size keeps both in step. *)
Lemma set_ck_twins n a b k : twins a b -> good n a -> zlen k = a.(hashLen) ->
  in_step n a b (set_ck k a) (set_ck k b).
Proof.
  intros (Ht & Hco & Hu & Hm & Ha & Hl & Hp & Hck & Hh & Hcs & Hr) (Hav & Hlen & Hzh & Hzc & Hc) Hk.
  split; [by do 3 eexists |]. split; [by do 3 eexists |]. split; unfold twins, good; cbn; done.
Qed.

Lemma mixKey_twins n a b m : twins a b -> good n a ->
  exists a' b', mixKey m a = (Some tt, a') /\ mixKey m b = (Some tt, b') /\ in_step 0 a b a' b'
    /\ hasKey a'.(cs) = true.
Proof.
  intros Ht Hg. unfold mixKey. rewrite (hs_hkdf_twins a b) by done.
  assert (Hl : b.(hashLen) = a.(hashLen)) by apply Ht. rewrite Hl.
  pose proof (hs_hkdf_length n a m 2 Hg ltac:(lia)) as Hz. rewrite Hz, Z.eqb_refl. cbn [negb].
  set (outputs := hs_hkdf m 2 a) in *. rewrite !bind_set.
  assert (Hb : a.(hashLen) = 32 \/ a.(hashLen) = 64) by (apply hash_bound; apply Hg).
  assert (H1 : in_step n a b (set_ck (substr outputs 0 a.(hashLen)) a) (set_ck (substr outputs 0 a.(hashLen)) b)).
  { apply set_ck_twins; [done | done |]. apply substr_length; lia. }
  pose proof H1 as (_ & _ & Ht1 & Hg1).
  match goal with |- context [takeKey ?k ?t] =>
    destruct (takeKey_twins n _ _ k t Ht1 Hg1) as (a' & b' & Ea & Eb & Hs & Hk) end.
  { apply substr_length; unfold kCipherKeyLen; lia. }
  exists a', b'. do 2 (split; [done |]). split; [| done]. eapply in_step_trans. 1: exact H1. exact Hs.
Qed.

Lemma mixKeyAndHash_twins n a b m : twins a b -> good n a ->
  exists a' b', mixKeyAndHash m a = (Some tt, a') /\ mixKeyAndHash m b = (Some tt, b') /\ in_step 0 a b a' b'.
Proof.
  intros Ht Hg. unfold mixKeyAndHash. rewrite (hs_hkdf_twins a b) by done.
  assert (Hl : b.(hashLen) = a.(hashLen)) by apply Ht. rewrite Hl.
  pose proof (hs_hkdf_length n a m 3 Hg ltac:(lia)) as Hz. rewrite Hz, Z.eqb_refl. cbn [negb].
  set (outputs := hs_hkdf m 3 a) in *. rewrite !bind_set.
  assert (Hb : a.(hashLen) = 32 \/ a.(hashLen) = 64) by (apply hash_bound; apply Hg).
  assert (H1 : in_step n a b (set_ck (substr outputs 0 a.(hashLen)) a) (set_ck (substr outputs 0 a.(hashLen)) b)).
  { apply set_ck_twins; [done | done |]. apply substr_length; lia. }
  pose proof H1 as (_ & _ & Ht1 & Hg1).
  destruct (mixHash_twins n _ _ (substr outputs a.(hashLen) a.(hashLen)) Ht1 Hg1)
    as (a2 & b2 & Ea2 & Eb2 & H2 & _). pose proof H2 as (_ & _ & Ht2 & Hg2).
  rewrite (bind_some _ _ _ _ _ Ea2), (bind_some _ _ _ _ _ Eb2).
  match goal with |- context [takeKey ?k ?t] =>
    destruct (takeKey_twins n _ _ k t Ht2 Hg2) as (a' & b' & Ea & Eb & Hs & Hk) end.
  { apply substr_length; unfold kCipherKeyLen; lia. }
  exists a', b'. do 2 (split; [done |]). eapply in_step_trans; [exact H1 |]. eapply in_step_trans; eassumption.
Qed.

Lemma dhMix_twins n a b x y : twins a b -> good n a -> proper_key x -> proper_key y ->
  exists a' b', dhMix x.(privateKey) y.(publicKey) a = (Some tt, a')
    /\ dhMix y.(privateKey) x.(publicKey) b = (Some tt, b') /\ in_step 0 a b a' b'.
Proof.
  intros Ht Hg Hx Hy. unfold dhMix. destruct (dh_agree x y Hx Hy) as [E Hl]. rewrite <- E, Hl. rewrite !bind_guard by done.
  destruct (mixKey_twins n a b (dh x.(privateKey) y.(publicKey)) Ht Hg) as (a' & b' & Ea & Eb & Hs & _).
  by exists a', b'.
Qed.

Lemma encodeNonce_length a n : zlen (encodeNonce a n) = 12.
Proof. unfold encodeNonce. case_bool_decide; unfold zlen; rewrite length_app, ?length_rev, length_be_encode; done. Qed.

Lemma set_cs_twins n a b c c' : twins a b -> good n a -> same_cipher c c' -> good_cipher (n + 1) c ->
  in_step (n + 1) a b (set_cs c a) (set_cs c' b).
Proof.
  intros (Ht & Hco & Hu & Hm & Ha & Hl & Hp & Hck & Hh & Hcs & Hr) (Hav & Hlen & Hzh & Hzc & Hc) Hs Hg.
  split; [by do 3 eexists |]. split; [by do 3 eexists |]. split; unfold twins, good; cbn; done.
Qed.

Lemma good_mono n n' a : n <= n' -> good n a -> good n' a.
Proof.
  intros Hn (Hav & Hlen & Hzh & Hzc & Hi & Hb & Hc). do 4 (split; [done |]). split; [done |]. split; [lia | done].
Qed.

Lemma same_hasKey c c' : same_cipher c c' -> hasKey c' = hasKey c.
Proof. intros (_ & _ & E & _). unfold hasKey. by rewrite E. Qed.

(** What one side encrypts the other decrypts. *)
Lemma cipher_twins n c c' ad p : same_cipher c c' -> good_cipher n c -> n < 2 ^ 32 -> hasKey c = true ->
  zlen ad <= INT_MAX -> zlen p <= INT_MAX - 16 ->
  exists ct k d d', encryptWithAd ad p c = (ct, k, d) /\ decryptWithAd ad ct c' = (p, d')
    /\ zlen ct = zlen p + 16 /\ d'.(lastDecryptOk) = true /\ same_cipher d d' /\ good_cipher (n + 1) d.
Proof.
  intros (Ha & Hak & Hk & Hn) (Hi & Hb & [He | (Hz & Hke)]) Hn32 Hh Had Hp.
  { unfold hasKey in Hh. by rewrite He in Hh. }
  destruct (aead_roundtrip c.(algorithm) c.(aeadKey) (encodeNonce c.(algorithm) c.(nonce)) ad p)
    as (ct & Es & Hl & Eo); [congruence | apply encodeNonce_length | done | done |].
  assert (Hh' : hasKey c' = true) by (unfold hasKey in *; by rewrite Hk).
  assert (Hu : u64 (c.(nonce) + 1) = c.(nonce) + 1) by (unfold wrapu; rewrite Z.mod_small; lia).
  unfold encryptWithAd, decryptWithAd, decryptWithNonce, transportNonceAllowed. rewrite Hh. cbn [negb].
  replace (c.(nonce) <=? MaxNonce) with true by (unfold MaxNonce; lia). rewrite Es, Hu. cbn [negb].
  exists ct, c.(nonce), (withNonce (c.(nonce) + 1) c), (withNonce (c.(nonce) + 1) (withOk true c')).
  split; [done |]. replace (hasKey (withOk false c')) with (hasKey c') by done. rewrite Hh', Hn. cbn [negb].
  unfold kTagLen. pose proof (zlen_nonneg p). replace (zlen ct <? 16) with false by lia.
  replace (c.(nonce) <=? MaxNonce) with true by (unfold MaxNonce; lia). cbn [negb withOk algorithm aeadKey].
  rewrite Ha, Hak, Eo. cbn [lastDecryptOk]. split; [cbn; by rewrite ?Hn, Hu |]. split; [done |]. split; [done |].
  split; [done |]. split; [done |]. split; [cbn; lia |]. right. done.
Qed.

Lemma crypt_twins n a b p : twins a b -> good n a -> n < 2 ^ 32 -> zlen p <= INT_MAX - 16 ->
  exists ct a' b', encryptAndHash p a = (Some ct, a') /\ decryptAndHash ct b = (Some p, b')
    /\ zlen ct = zlen p + (if hasKey a.(cs) then 16 else 0) /\ in_step (n + 1) a b a' b'.
Proof.
  intros Ht Hg Hn Hp. assert (Hcs : same_cipher a.(cs) b.(cs)) by apply Ht. assert (Hh : b.(h) = a.(h)) by apply Ht.
  unfold encryptAndHash, decryptAndHash. rewrite (same_hasKey _ _ Hcs), Hh. pose proof (zlen_nonneg p).
  destruct (hasKey a.(cs)) eqn:Hk.
  - assert (Hah : zlen a.(h) <= INT_MAX).
    { destruct Hg as (Hav & Hlen & -> & _). destruct (hash_bound a Hav Hlen); unfold INT_MAX; lia. }
    assert (Hgc : good_cipher n a.(cs)) by apply Hg.
    destruct (cipher_twins n _ _ a.(h) p Hcs Hgc Hn Hk Hah Hp) as (ct & k & d & d' & Ee & Ed & Hl & Hok & Hsd & Hgd).
    rewrite Ee. pose proof (set_cs_twins n a b d d' Ht Hg Hsd Hgd) as H1. pose proof H1 as (_ & _ & Ht1 & Hg1).
    destruct (mixHash_twins _ _ _ ct Ht1 Hg1) as (a' & b' & Ea & Eb & H2 & _).
    exists ct, a', b'. rewrite Ed. unfold kTagLen. replace (zlen ct <? 16) with false by lia.
    rewrite !bind_set, !bind_guard by (try done; lia). rewrite (bind_some _ _ _ _ _ Ea), (bind_some _ _ _ _ _ Eb).
    do 3 (split; [done |]). eapply in_step_trans; [exact H1 | exact H2].
  - apply (good_mono n (n + 1)) in Hg; [| lia].
    destruct (mixHash_twins _ _ _ p Ht Hg) as (a' & b' & Ea & Eb & H2 & _). exists p, a', b'.
    rewrite (bind_some _ _ _ _ _ Ea), (bind_some _ _ _ _ _ Eb). do 2 (split; [done |]). split; [lia | done].
Qed.
End Twins.
