(* ===== verification/NoiseTokens.v ===== *)
(** * Noise: the tokens of a handshake message *)

From S2P Require Import Prelude CryptoApi NoiseCrypto Noise NoiseProofs.

(** Whose ephemeral and static public keys have reached the other side, and which
    static key the other side expects, where it is not the true one. *)
Record Known : Type := mkKnown {
  e_of : NoiseRole -> bool;
  s_of : NoiseRole -> bool;
  expected : NoiseRole -> option (list Z)
}.

Definition learn (r : NoiseRole) (f : NoiseRole -> bool) (x : NoiseRole) : bool := bool_decide (x = r) || f x.

(** What a token of a message of [w] needs to be known, and what it makes known. *)
Definition allowed (w : NoiseRole) (t : Token.t) (k : Known) : option Known :=
  match t with
  | Token.E => Some (mkKnown (learn w k.(e_of)) k.(s_of) k.(expected))
  | Token.S => match k.(expected) w with
               | None => Some (mkKnown k.(e_of) (learn w k.(s_of)) k.(expected))
               | Some _ => None
               end
  | Token.Ee => if k.(e_of) Initiator && k.(e_of) Responder then Some k else None
  | Token.Es => if k.(e_of) Initiator && k.(s_of) Responder then Some k else None
  | Token.Se => if k.(s_of) Initiator && k.(e_of) Responder then Some k else None
  | Token.Ss => if k.(s_of) Initiator && k.(s_of) Responder then Some k else None
  | Token.Psk => Some k
  end.

Definition all_allowed (w : NoiseRole) (ts : list Token.t) (k : Known) : option Known :=
  foldl (fun o t => k ← o; allowed w t k) (Some k) ts.

Section Tokens.
Context `{L : NoiseCryptoLaws}.

(** What [y] knows of [x]. *)
Definition link (k : Known) (x y : HS) : Prop :=
  proper_key x.(s)
  /\ (k.(e_of) x.(role) = true -> proper_key x.(e) /\ y.(re) = x.(e).(publicKey))
  /\ (k.(s_of) x.(role) = true -> y.(rs) = x.(s).(publicKey))
  /\ match k.(expected) x.(role) with
     | None => y.(rs) = [] \/ y.(rs) = x.(s).(publicKey)
     | Some key => y.(rs) = key
     end.

(** The state of a conversation. *)
Definition peers (n : Z) (k : Known) (w r : HS) : Prop :=
  twins w r /\ good n w /\ link k w r /\ link k r w.

(** What a token does not change. *)
Definition kept (a a' : HS) : Prop :=
  a'.(role) = a.(role) /\ a'.(tokens) = a.(tokens) /\ a'.(complete) = a.(complete)
  /\ a'.(msgIndex) = a.(msgIndex) /\ a'.(s) = a.(s).

Lemma framed_kept a a' : framed a a' -> kept a a'.
Proof. by intros (? & ? & ? & ->). Qed.

Lemma kept_trans a b c : kept a b -> kept b c -> kept a c.
Proof. unfold kept. intuition congruence. Qed.

Lemma framed_link k a b a' b' : framed a a' -> framed b b' -> link k a b -> link k a' b'.
Proof. by intros (? & ? & ? & ->) (? & ? & ? & ->). Qed.

(** After a step that touches only the symmetric states. *)
Lemma peers_step n n' k a b a' b' : peers n k a b -> in_step n' a b a' b' ->
  peers n' k a' b' /\ kept a a' /\ kept b b'.
Proof.
  intros (_ & _ & Hl & Hl') (Fa & Fb & Ht & Hg). split; [| split; by apply framed_kept].
  do 2 (split; [done |]). split; by eapply framed_link.
Qed.

Lemma other_role (a b : HS) : b.(role) <> a.(role) ->
  (a.(role) = Initiator /\ b.(role) = Responder) \/ (a.(role) = Responder /\ b.(role) = Initiator).
Proof. destruct (a.(role)), (b.(role)); auto; done. Qed.

Lemma slice_mid (pre added post : list Z) : substr (pre ++ added ++ post) (zlen pre) (zlen added) = added.
Proof. unfold substr, zlen. rewrite !Nat2Z.id, drop_app_length, take_app_length. done. Qed.

Lemma missing_mid n (pre added post : list Z) : zlen added = n -> missing n (pre ++ added ++ post) (zlen pre) = false.
Proof.
  intros <-. unfold missing. rewrite !zlen_app. pose proof (zlen_nonneg pre). pose proof (zlen_nonneg post).
  pose proof (zlen_nonneg added). lia.
Qed.

(** The optional [mixKey] of an ephemeral key. *)
Lemma pskKey_twins n a b (u : bool) key : twins a b -> good n a -> 0 <= n ->
  exists a' b', (if u then mixKey key else mret tt) a = (Some tt, a')
    /\ (if u then mixKey key else mret tt) b = (Some tt, b') /\ in_step n a b a' b'.
Proof.
  intros Ht Hg Hn. destruct u; [| by exists a, b; do 2 (split; [done |]); apply in_step_refl].
  destruct (mixKey_twins n a b key Ht Hg) as (a' & b' & Ea & Eb & (Fa & Fb & Ht' & Hg') & _).
  exists a', b'. do 2 (split; [done |]). do 3 (split; [done |]). by apply (good_mono 0).
Qed.

Definition passes (t : Token.t) (n : Z) (k' : Known) (draw : list Z) (out : list Z) (w r : HS) : Prop :=
  exists added w' r',
    applyToken t (Writing (Some draw) out) w = (Some (Writing (Some draw) (out ++ added)), w')
    /\ (forall msg pre post, msg = pre ++ added ++ post ->
          applyToken t (Reading msg (zlen pre)) r = (Some (Reading msg (zlen pre + zlen added)), r'))
    /\ peers n k' w' r' /\ kept w w' /\ kept r r' /\ zlen added <= 48.

Lemma learn_link k w r key : link k w r -> proper_key key -> r.(role) <> w.(role) -> link k r w ->
  let k' := mkKnown (learn w.(role) k.(e_of)) k.(s_of) k.(expected) in
  link k' (set_e key w) (set_re key.(publicKey) r) /\ link k' (set_re key.(publicKey) r) (set_e key w).
Proof.
  intros (Hs & He & Hks & Hx) Hkey Hr (Hs' & He' & Hks' & Hx') k'. split.
  - split; [done |]. split; [done |]. split; done.
  - split; [done |]. split; [| done]. cbn. unfold learn. rewrite bool_decide_false by done. exact He'.
Qed.

Lemma tokenE_passes n k draw out w r : peers n k w r -> 0 <= n -> zlen draw = 32 ->
  passes Token.E n (mkKnown (learn w.(role) k.(e_of)) k.(s_of) k.(expected)) draw out w r.
Proof.
  intros (Ht & Hg & Hl & Hl') Hn Hd. pose proof (generate_proper draw Hd) as Hk. set (key := generate (Some draw)) in *.
  assert (Hr : r.(role) <> w.(role)) by apply Ht. assert (Hu : r.(usesPsk) = w.(usesPsk)) by apply Ht.
  pose proof (learn_link k w r key Hl Hk Hr Hl') as [L1 L2].
  set (w1 := set_e key w) in *. set (r1 := set_re key.(publicKey) r) in *.
  destruct (mixHash_twins n w1 r1 key.(publicKey)) as (w2 & r2 & E2 & E2' & (Fw & Fr & Ht2 & Hg2) & _); [done | done |].
  destruct (pskKey_twins n w2 r2 w.(usesPsk) key.(publicKey) Ht2 Hg2 Hn) as (w3 & r3 & E3 & E3' & (Fw3 & Fr3 & Ht3 & Hg3)).
  pose proof (proper_public key Hk) as Hz.
  exists key.(publicKey), w3, r3. split; [| split; [| split; [| split; [| split; [| lia]]]]].
  - cbn [applyToken]. unfold tokenE. rewrite (bind_some _ _ _ _ _ (eq_refl : hget usesPsk w = (Some w.(usesPsk), w))).
    fold key. rewrite bind_set, bind_guard by (by apply proper_valid). fold w1.
    by rewrite (bind_some _ _ _ _ _ E2), (bind_some _ _ _ _ _ E3).
  - intros msg pre post ->. cbn [applyToken]. unfold tokenE.
    rewrite (bind_some _ _ _ _ _ (eq_refl : hget usesPsk r = (Some r.(usesPsk), r))). unfold kDhLen.
    rewrite missing_mid by done. rewrite <- Hz, slice_mid, bind_set. fold r1. rewrite Hu.
    by rewrite (bind_some _ _ _ _ _ E2'), (bind_some _ _ _ _ _ E3').
  - pose proof (framed_trans _ _ _ Fw Fw3). pose proof (framed_trans _ _ _ Fr Fr3).
    do 2 (split; [done |]). split; by eapply framed_link.
  - eapply kept_trans; [| apply framed_kept, (framed_trans _ _ _ Fw Fw3)]. done.
  - eapply kept_trans; [| apply framed_kept, (framed_trans _ _ _ Fr Fr3)]. done.
Qed.

(** A token that only mixes: both sides do it, and nothing is sent. *)
Lemma mixing_passes t n n' k draw out w r (mw mr : hio unit) : peers n k w r ->
  (forall dir, applyToken t dir w = (_ ← mw; mret dir) w) ->
  (forall dir, applyToken t dir r = (_ ← mr; mret dir) r) ->
  (exists w' r', mw w = (Some tt, w') /\ mr r = (Some tt, r') /\ in_step n' w r w' r') ->
  passes t n' k draw out w r.
Proof.
  intros Hp Hw Hr (w' & r' & Ew & Er & Hs). destruct (peers_step n n' k w r w' r' Hp Hs) as (Hp' & Kw & Kr).
  exists [], w', r'. split; [| split; [| done]].
  - by rewrite Hw, (bind_some _ _ _ _ _ Ew), app_nil_r.
  - intros msg pre post ->. rewrite Hr, (bind_some _ _ _ _ _ Er). change (zlen (@nil Z)) with 0. by rewrite Z.add_0_r.
Qed.

Lemma knows_e k x y ro : link k x y -> x.(role) = ro -> k.(e_of) ro = true ->
  proper_key x.(e) /\ y.(re) = x.(e).(publicKey).
Proof. intros (_ & H & _) <-. exact H. Qed.

Lemma knows_s k x y ro : link k x y -> x.(role) = ro -> k.(s_of) ro = true ->
  proper_key x.(s) /\ y.(rs) = x.(s).(publicKey).
Proof. intros (Hs & _ & H & _) <- Hk. split; [exact Hs | exact (H Hk)]. Qed.

(** The role decides which key of [Es] and [Se] is ours. *)
Ltac learn_keys k :=
  repeat match goal with
  | Hl : link k ?x ?y, Hr : role ?x = ?ro, Hk : e_of k ?ro = true |- _ =>
      pose proof (knows_e k x y ro Hl Hr Hk) as [? ?]; clear Hk
  | Hl : link k ?x ?y, Hr : role ?x = ?ro, Hk : s_of k ?ro = true |- _ =>
      pose proof (knows_s k x y ro Hl Hr Hk) as [? ?]; clear Hk
  end.

Lemma dh_passes t n k k' draw out w r : peers n k w r -> allowed w.(role) t k = Some k' ->
  match t with Token.Ee | Token.Es | Token.Se | Token.Ss => True | _ => False end -> passes t 0 k' draw out w r.
Proof.
  intros Hp Ha Hm. pose proof Hp as (Ht & Hg & Hl & Hl'). assert (Hr : r.(role) <> w.(role)) by apply Ht.
  assert (Hk : k' = k) by (destruct t; try done; cbn [allowed] in Ha; by destruct (_ && _)%bool; simplify_eq). subst k'.
  destruct (other_role w r Hr) as [[Ew Er] | [Ew Er]]; destruct t; try done; cbn [allowed] in Ha;
    destruct (_ && _)%bool eqn:Hb; try done; apply andb_true_iff in Hb as [H1 H2]; learn_keys k;
    (eapply mixing_passes; [exact Hp | intros dir; cbn [applyToken]; rewrite ?Ew; reflexivity
         | intros dir; cbn [applyToken]; rewrite ?Er; reflexivity |]);
    change (bool_decide (Initiator = Initiator)) with true; change (bool_decide (Responder = Initiator)) with false.
  all: repeat match goal with E : _ = publicKey _ |- _ => rewrite E end; by apply (dhMix_twins n).
Qed.

Lemma psk_passes n k draw out w r : peers n k w r -> passes Token.Psk 0 k draw out w r.
Proof.
  intros Hp. pose proof Hp as (Ht & Hg & _). assert (Hk : r.(psk) = w.(psk)) by apply Ht.
  eapply mixing_passes; [exact Hp | done | done |]. rewrite Hk. by apply (mixKeyAndHash_twins n).
Qed.

Lemma expected_static k x y : link k x y -> k.(expected) x.(role) = None ->
  negb (zlen y.(rs) =? 0) && bool_decide (y.(rs) <> x.(s).(publicKey)) = false.
Proof.
  intros (_ & _ & _ & Hw) Hk. rewrite Hk in Hw. destruct Hw as [-> | ->]; [done |]. rewrite (bool_decide_false (_ <> _)) by (intros H; by apply H).
  apply andb_false_r.
Qed.

Lemma tokenS_passes n k draw out w r : peers n k w r -> n < 2 ^ 32 -> k.(expected) w.(role) = None ->
  passes Token.S (n + 1) (mkKnown k.(e_of) (learn w.(role) k.(s_of)) k.(expected)) draw out w r.
Proof.
  intros (Ht & Hg & Hl & Hl') Hn Hex. set (spk := w.(s).(publicKey)). assert (Hz : zlen spk = 32) by apply proper_public, Hl.
  assert (Hr : r.(role) <> w.(role)) by apply Ht. assert (Hcs : same_cipher w.(cs) r.(cs)) by apply Ht.
  destruct (crypt_twins n w r spk Ht Hg Hn) as (ct & w' & r' & Ew & Er & Hlen & (Fw & Fr & Ht' & Hg')); [rewrite Hz; unfold INT_MAX; lia |].
  pose proof (framed_kept _ _ Fw) as Kw. pose proof (framed_kept _ _ Fr) as Kr.
  exists ct, w', (set_rs spk r'). split; [| split; [| split; [| split; [done | split; [| destruct (hasKey w.(cs)); lia]]]]].
  - cbn [applyToken]. unfold tokenS.
    rewrite (bind_some _ _ _ _ _ (eq_refl : hget (fun d => d.(s).(publicKey)) w = (Some spk, w))).
    rewrite (bind_some _ _ _ _ _ Ew), bind_guard by (destruct (hasKey w.(cs)); lia). done.
  - intros msg pre post ->. cbn [applyToken]. unfold tokenS.
    rewrite (bind_some _ _ _ _ _ (eq_refl : hget cs r = (Some r.(cs), r))). rewrite (same_hasKey _ _ Hcs).
    replace (if hasKey w.(cs) then kDhLen + kTagLen else kDhLen) with (zlen ct)
      by (rewrite Hlen, Hz; by destruct (hasKey w.(cs))).
    rewrite missing_mid by done. rewrite (bind_some _ _ _ _ _ (eq_refl : hget rs r = (Some r.(rs), r))).
    rewrite slice_mid. unfold mbind at 1, hio_bind at 1. rewrite Er, bind_guard by (by rewrite Hz).
    assert (Ec : checkRemoteStatic r.(rs) (set_rs spk r') = (Some tt, set_rs spk r')).
    { unfold checkRemoteStatic. cbn [rs set_rs set_keys]. unfold spk. by rewrite (expected_static k w r Hl Hex). }
    by rewrite (bind_some _ _ _ _ _ Ec).
  - destruct Fw as (? & ? & ? & ->), Fr as (? & ? & ? & ->). do 2 (split; [done |]).
    destruct Hl as (Hs & He & Hks & Hx), Hl' as (Hs' & He' & Hks' & Hx'). split.
    + split; [done |]. split; [done |]. split; [done |]. cbn. rewrite Hex. by right.
    + split; [done |]. split; [done |]. split; [| done]. cbn. unfold learn. rewrite bool_decide_false by done. exact Hks'.
  - by eapply kept_trans.
Qed.

Lemma passes_mono t n n' k draw out w r : n <= n' -> passes t n k draw out w r -> passes t n' k draw out w r.
Proof.
  intros Hn (added & w' & r' & Ew & Er & (Ht & Hg & Hl) & Hk). exists added, w', r'.
  do 2 (split; [done |]). split; [| done]. split; [done |]. split; [by eapply good_mono | done].
Qed.

Lemma token_passes t n k k' draw out w r : peers n k w r -> 0 <= n < 2 ^ 32 -> zlen draw = 32 ->
  allowed w.(role) t k = Some k' -> passes t (n + 1) k' draw out w r.
Proof.
  intros Hp Hn Hd Ha. destruct t; cbn [allowed] in Ha.
  1: injection Ha as <-; eapply (passes_mono _ n); [lia |]; apply tokenE_passes; [done | lia | done].
  1: destruct (expected k (role w)) eqn:Hex; [done |]; injection Ha as <-; apply tokenS_passes; [done | lia | done].
  1-4: eapply (passes_mono _ 0); [lia |]; by eapply dh_passes.
  injection Ha as <-. eapply (passes_mono _ 0); [lia |]. by eapply psk_passes.
Qed.

(** All the tokens of a message. *)
Lemma tokens_pass ts n k k' draw out w r : peers n k w r -> 0 <= n -> n + zlen ts < 2 ^ 32 -> zlen draw = 32 ->
  all_allowed w.(role) ts k = Some k' ->
  exists added w' r',
    applyTokens ts (Writing (Some draw) out) w = (Some (Writing (Some draw) (out ++ added)), w')
    /\ (forall msg pre post, msg = pre ++ added ++ post ->
          applyTokens ts (Reading msg (zlen pre)) r = (Some (Reading msg (zlen pre + zlen added)), r'))
    /\ peers (n + zlen ts) k' w' r' /\ kept w w' /\ kept r r' /\ zlen added <= 48 * zlen ts.
Proof.
  revert n k out w r. induction ts as [| t ts IH]; intros n k out w r Hp Hn Hb Hd Ha.
  - injection Ha as <-. exists [], w, r. rewrite app_nil_r. split; [done |]. change (zlen (@nil Token.t)) with 0.
    change (zlen (@nil Z)) with 0. rewrite Z.add_0_r. split; [intros; by rewrite Z.add_0_r | done].
  - rewrite zlen_cons in *. pose proof (zlen_nonneg ts). unfold all_allowed in Ha. cbn [foldl mbind option_bind] in Ha.
    destruct (allowed w.(role) t k) as [k1 |] eqn:E1; [| exfalso; clear -Ha; induction ts; [done | auto]].
    destruct (token_passes t n k k1 draw out w r Hp ltac:(lia) Hd E1) as (x & w1 & r1 & Ew & Er & Hp1 & Kw & Kr & Hx).
    destruct (IH (n + 1) k1 (out ++ x) w1 r1) as (y & w2 & r2 & Ew2 & Er2 & Hp2 & Kw2 & Kr2 & Hy); [done | lia | lia | done | |].
    { by rewrite (proj1 Kw). }
    exists (x ++ y), w2, r2. split; [| split; [| split; [| do 2 (split; [by eapply kept_trans |]); rewrite zlen_app; lia]]].
    + cbn [applyTokens]. rewrite (bind_some _ _ _ _ _ Ew), Ew2. by rewrite <- app_assoc.
    + intros msg pre post Hm. cbn [applyTokens].
      rewrite (bind_some _ _ _ _ _ (Er msg pre (y ++ post) ltac:(by rewrite Hm, <- app_assoc))).
      specialize (Er2 msg (pre ++ x) post). rewrite !zlen_app in *. rewrite Er2; [by rewrite Z.add_assoc |].
      by rewrite Hm, <- !app_assoc.
    + rewrite Z.add_assoc. exact Hp2.
Qed.
End Tokens.
