(* ===== verification/NoiseHandshake.v ===== *)
(** * Noise: whole handshakes *)

From S2P Require Import Prelude CryptoApi NoiseCrypto Noise NoiseProofs NoiseTokens.

Definition other (r : NoiseRole) : NoiseRole := match r with Initiator => Responder | Responder => Initiator end.

(** The messages from the current one on. *)
Definition remainingMessages (d : HS) : list (list Token.t) :=
  drop (Z.to_nat d.(msgIndex)) (take (Z.to_nat d.(tokens).(nMessages)) d.(tokens).(messages)).

(** What is known after messages that [w] and the other side write in turn. *)
Fixpoint script (w : NoiseRole) (ms : list (list Token.t)) (k : Known) : option Known :=
  match ms with
  | [] => Some k
  | ts :: ms' => k ← all_allowed w ts k; script (other w) ms' k
  end.

(** The encryptions that the messages can take. *)
Definition budget (ms : list (list Token.t)) : Z := foldr (fun ts n => zlen ts + 1 + n) 0 ms.

Section Conversation.
Context `{C : NoiseCrypto}.

(** [w] writes a message with each input, a draw for its key and a payload; the
    other side reads it and is the next to write. *)
Fixpoint exchange (inputs : list (list Z * list Z)) (w r : HS) : option (list (list Z) * HS * HS) :=
  match inputs with
  | [] => Some ([], w, r)
  | (draw, payload) :: inputs' =>
      match writeMessage (Some draw) payload w with
      | (Some msg, w') =>
          match readMessage msg r with
          | (Some got, r') =>
              match exchange inputs' r' w' with
              | Some (rest, x, y) => Some (got :: rest, x, y)
              | None => None
              end
          | (None, _) => None
          end
      | (None, _) => None
      end
  end.
End Conversation.

Section Messages.
Context `{L : NoiseCryptoLaws}.

Lemma peers_clear n k w r : peers n k w r ->
  peers n k (set_error String.EmptyString w) (set_error String.EmptyString r).
Proof. done. Qed.

Lemma peers_sym_turn (w r : HS) : twins w r -> ourTurn w = true -> ourTurn r = false.
Proof.
  intros Ht. assert (Hr : r.(role) <> w.(role)) by apply Ht. assert (Hm : r.(msgIndex) = w.(msgIndex)) by apply Ht.
  unfold ourTurn. rewrite Hm. destruct (w.(role)), (r.(role)); try done; destruct (_ =? 0); done.
Qed.

Lemma peers_progress n k w r b i : peers n k w r -> peers n k (set_progress b i w) (set_progress b i r).
Proof.
  intros ((Ht & Hco & Hu & Hm & Ha & Hl & Hp & Hck & Hh & Hcs & Hr) & Hg & Hl1 & Hl2). split; [| done]. done.
Qed.

Lemma peers_swap n k w r : peers n k w r -> peers n k r w.
Proof.
  intros ((Ht & Hco & Hu & Hm & Ha & Hl & Hp & Hck & Hh & (Hc1 & Hc2 & Hc3 & Hc4) & Hr)
    & (Hav & Hlen & Hzh & Hzc & Hi & Hb & Hc) & Hl1 & Hl2).
  split; [| split; [| done]].
  - unfold twins, same_cipher. do 9 (split; [done |]). split; [done |]. by intros E.
  - unfold good, good_cipher. rewrite Ha, Hl, Hh, Hck, Hc1, Hc2, Hc3, Hc4. done.
Qed.

Definition moved (a a' : HS) : Prop :=
  a'.(role) = a.(role) /\ a'.(tokens) = a.(tokens) /\ a'.(msgIndex) = a.(msgIndex) + 1
  /\ a'.(complete) = (a.(msgIndex) + 1 >=? a.(tokens).(nMessages)) /\ a'.(s) = a.(s).

Lemma step_moved a a' : kept a a' -> a.(complete) = false -> moved a (stepMessage a').
Proof.
  intros (Hr & Ht & Hc & Hm & Hs) Hf. unfold moved, stepMessage. cbn. rewrite Hr, Ht, Hm, Hs, Hc, Hf.
  do 3 (split; [done |]). split; [by case_test | done].
Qed.

Lemma message_passes n k k' draw payload w r ts : peers n k w r -> 0 <= n -> n + zlen ts + 1 < 2 ^ 32 ->
  zlen draw = 32 -> zlen payload <= INT_MAX - 16 -> w.(complete) = false -> ourTurn w = true ->
  w.(msgIndex) < w.(tokens).(nMessages) -> currentTokens w = ts -> all_allowed w.(role) ts k = Some k' ->
  exists msg w' r', writeMessage (Some draw) payload w = (Some msg, w') /\ readMessage msg r = (Some payload, r')
    /\ peers (n + zlen ts + 1) k' w' r' /\ moved w w' /\ moved r r' /\ zlen msg <= 48 * zlen ts + zlen payload + 16.
Proof.
  intros Hp Hn Hb Hd Hpl Hc Ho Hi Hts Ha. apply peers_clear in Hp. set (w0 := set_error _ w) in *. set (r0 := set_error _ r) in *.
  pose proof (zlen_nonneg ts). assert (Ht : twins w0 r0) by apply Hp.
  assert (Hcr : r0.(complete) = false) by (rewrite <- Hc; apply Ht).
  assert (Hir : r0.(msgIndex) = w.(msgIndex)) by apply Ht. assert (Htr : r0.(tokens) = w.(tokens)) by apply Ht.
  destruct (tokens_pass ts n k k' draw [] w0 r0 Hp Hn ltac:(lia) Hd Ha) as (added & w1 & r1 & Ew & Er & Hp1 & Kw & Kr & Hadd).
  pose proof Hp1 as (Ht1 & Hg1 & _).
  destruct (crypt_twins _ w1 r1 payload Ht1 Hg1 ltac:(lia) Hpl) as (ct & w2 & r2 & Ew2 & Er2 & Hlen & Hs).
  destruct (peers_step _ _ _ _ _ _ _ Hp1 Hs) as (Hp2 & Kw2 & Kr2).
  assert (Mw : moved w (stepMessage w2)) by (apply (step_moved w0); [by eapply kept_trans | done]).
  assert (Mr : moved r (stepMessage r2)) by (apply (step_moved r0); [by eapply kept_trans | done]).
  exists (added ++ ct), (stepMessage w2), (stepMessage r2).
  split; [| split; [| split; [| do 2 (split; [done |]); rewrite zlen_app; destruct (hasKey w1.(cs)); lia]]].
  - unfold writeMessage. fold w0. replace (w0.(complete)) with false by done. replace (ourTurn w0) with true by done.
    cbn [negb orb]. replace (_ >=? _) with false by (cbn; lia). change (currentTokens w0) with (currentTokens w).
    rewrite Hts, (bind_some _ _ _ _ _ Ew). cbn [app]. by rewrite (bind_some _ _ _ _ _ Ew2).
  - unfold readMessage. fold r0. rewrite Hcr, (peers_sym_turn w0 r0 Ht Ho). cbn [orb].
    rewrite Hir, Htr. replace (_ >=? _) with false by lia.
    replace (currentTokens r0) with ts by (unfold currentTokens in *; by rewrite Hir, Htr).
    rewrite (bind_some _ _ _ _ _ (Er (added ++ ct) [] ct eq_refl)). cbv beta iota.
    change (zlen (@nil Z)) with 0. rewrite zlen_app. pose proof (zlen_nonneg ct).
    replace (0 + zlen added >? _) with false by lia. rewrite Z.add_0_l, zlen_to_nat, drop_app_length.
    by rewrite (bind_some _ _ _ _ _ Er2).
  - assert (E : stepMessage r2 = set_progress (stepMessage w2).(complete) (stepMessage w2).(msgIndex) r2).
    { destruct Hp2 as (Ht2 & _). unfold stepMessage. cbn. destruct Ht2 as (-> & -> & _ & -> & _). done. }
    rewrite E. by apply peers_progress.
Qed.

Lemma remaining_head d ts ms : 0 <= d.(msgIndex) -> remainingMessages d = ts :: ms ->
  currentTokens d = ts /\ d.(msgIndex) < d.(tokens).(nMessages)
  /\ drop (Z.to_nat (d.(msgIndex) + 1)) (take (Z.to_nat d.(tokens).(nMessages)) d.(tokens).(messages)) = ms.
Proof.
  unfold remainingMessages, currentTokens. intros Hi E. set (l := d.(tokens).(messages)) in *.
  assert (E0 : take (Z.to_nat d.(tokens).(nMessages)) l !! Z.to_nat d.(msgIndex) = Some ts).
  { rewrite <- (Nat.add_0_r (Z.to_nat d.(msgIndex))), <- lookup_drop, E. done. }
  apply lookup_take_Some in E0 as [E0 Hlt]. rewrite E0. split; [done |]. split; [lia |].
  replace (Z.to_nat (d.(msgIndex) + 1)) with (Z.to_nat d.(msgIndex) + 1)%nat by lia.
  by rewrite <- drop_drop, E.
Qed.

Lemma turn_next (w r w' r' : HS) : twins w r -> ourTurn w = true -> moved w w' -> moved r r' -> ourTurn r' = true.
Proof.
  intros Ht Ho (Ew & _ & Mw & _) (Er & _ & Mr & _). assert (Hr : r.(role) <> w.(role)) by apply Ht.
  assert (Hm : r.(msgIndex) = w.(msgIndex)) by apply Ht. unfold ourTurn in *. rewrite Er, Mr, Hm.
  assert (E : ((w.(msgIndex) + 1) mod 2 =? 0) = negb (w.(msgIndex) mod 2 =? 0)).
  { pose proof (Z.mod_pos_bound w.(msgIndex) 2). pose proof (Z.mod_pos_bound (w.(msgIndex) + 1) 2).
    pose proof (Z.div_mod w.(msgIndex) 2). pose proof (Z.div_mod (w.(msgIndex) + 1) 2). lia. }
  rewrite E. destruct (w.(role)), (r.(role)), (_ =? 0); done.
Qed.

(** [w] writes next, and the messages that remain end with [k'] known. *)
Definition on_turn (k' : Known) (w r : HS) : Prop :=
  exists n k, peers n k w r /\ 0 <= n /\ 0 <= w.(msgIndex) /\ n + budget (remainingMessages w) < 2 ^ 32
    /\ w.(complete) = bool_decide (remainingMessages w = []) /\ ourTurn w = true
    /\ script w.(role) (remainingMessages w) k = Some k'
    /\ w.(tokens).(nMessages) = Z.of_nat (length (remainingMessages w)) + w.(msgIndex).

Lemma budget_nonneg ms : 0 <= budget ms.
Proof. unfold budget. induction ms as [| x ms IH]; cbn [foldr]; [lia |]. pose proof (zlen_nonneg x). lia. Qed.

Lemma turn_passes k' w r ts ms draw payload : on_turn k' w r -> remainingMessages w = ts :: ms ->
  zlen draw = 32 -> zlen payload <= INT_MAX - 16 ->
  exists msg w' r', writeMessage (Some draw) payload w = (Some msg, w') /\ readMessage msg r = (Some payload, r')
    /\ on_turn k' r' w' /\ remainingMessages r' = ms /\ moved w w' /\ moved r r'
    /\ zlen msg <= 48 * zlen ts + zlen payload + 16.
Proof.
  intros (n & k & Hp & Hn & Hi & Hb & Hc & Ho & Hs & Hm) Er Hd Hpl. rewrite Er in *. cbn [script] in Hs.
  destruct (all_allowed w.(role) ts k) as [k1 |] eqn:Ea; [| done]. cbn [mbind option_bind] in Hs.
  cbn [budget foldr] in Hb. fold (budget ms) in Hb. pose proof (budget_nonneg ms).
  destruct (remaining_head w ts ms Hi Er) as (Et & Hlt & Enext). rewrite bool_decide_false in Hc by done.
  destruct (message_passes n k k1 draw payload w r ts) as (msg & w' & r' & Ew & Er' & Hp' & Mw & Mr & Hz); try done; [lia |].
  pose proof (peers_swap _ _ _ _ Hp') as Hp2. pose proof (zlen_nonneg ts).
  assert (Ht : twins w r) by apply Hp. pose proof (turn_next w r w' r' Ht Ho Mw Mr) as Ho'.
  pose proof Mr as (Rr & Rt & Rm & Rc & Rs).
  assert (Htok : r.(tokens) = w.(tokens)) by apply Ht. assert (Hmsg : r.(msgIndex) = w.(msgIndex)) by apply Ht.
  assert (Hrole : r.(role) = other w.(role)).
  { assert (r.(role) <> w.(role)) by apply Ht. by destruct (w.(role)), (r.(role)). }
  assert (Erem : remainingMessages r' = ms) by (unfold remainingMessages; by rewrite Rt, Rm, Htok, Hmsg).
  exists msg, w', r'. do 2 (split; [done |]). split; [| done]. exists (n + zlen ts + 1), k1. rewrite Erem.
  cbn [length] in Hm. split; [done |]. do 3 (split; [lia |]). split; [| split; [done | split]].
  - rewrite Rc, Htok, Hmsg. destruct ms; cbn [length] in Hm; [rewrite bool_decide_true by done | rewrite bool_decide_false by done]; lia.
  - by rewrite Rr, Hrole.
  - rewrite Rt, Htok, Rm, Hmsg. lia.
Qed.

Lemma exchange_passes inputs k' w r : on_turn k' w r -> length inputs = length (remainingMessages w) ->
  Forall (fun x => zlen x.1 = 32 /\ zlen x.2 <= INT_MAX - 16) inputs ->
  exists x y, exchange inputs w r = Some (map snd inputs, x, y) /\ on_turn k' x y /\ remainingMessages x = []
    /\ (forall d, d = x \/ d = y -> exists o, (o = w \/ o = r) /\ d.(role) = o.(role) /\ d.(s) = o.(s)).
Proof.
  revert w r. induction inputs as [| [draw payload] inputs IH]; intros w r Ht Hl Hf.
  - exists w, r. split; [done |]. split; [done |]. split; [by destruct (remainingMessages w) |]. intros d [-> | ->]; eauto.
  - destruct (remainingMessages w) as [| ts ms] eqn:Er; [done |]. apply Forall_cons_iff in Hf as [[Hd Hpl] Hf].
    destruct (turn_passes k' w r ts ms draw payload Ht Er Hd Hpl) as (msg & w' & r' & Ew & Er' & Ht' & Erem & Mw & Mr & _).
    cbn [exchange]. rewrite Ew, Er'. destruct (IH r' w' Ht') as (x & y & Ex & Hx & Hrx & Hback); [| done |].
    { rewrite Erem. by injection Hl. }
    exists x, y. rewrite Ex. do 3 (split; [done |]). destruct Mw as (Wr & _ & _ & _ & Ws), Mr as (Rr & _ & _ & _ & Rs).
    intros d Hdd. destruct (Hback d Hdd) as (o & [-> | ->] & Hro & Hso); [exists r | exists w]; split; auto; split; congruence.
Qed.

(** The ciphers of the two sides are each other's. *)
Lemma split_crosses n k x y : peers n k x y -> x.(complete) = true ->
  exists c1 c2, (split x).1 = Some (c1, c2) /\ (split y).1 = Some (c2, c1)
    /\ hasKey c1 = true /\ hasKey c2 = true /\ c1.(nonce) = 0 /\ c2.(nonce) = 0.
Proof.
  intros (Ht & Hg & _) Hc. assert (Hr : y.(role) <> x.(role)) by apply Ht.
  assert (Hcy : y.(complete) = true) by (rewrite <- Hc; apply Ht).
  unfold split. replace (complete _) with true by done. replace (complete (set_error _ y)) with true by (by rewrite <- Hcy).
  cbn [negb]. change (hs_hkdf [] 2 (set_error String.EmptyString x)) with (hs_hkdf [] 2 x).
  change (hs_hkdf [] 2 (set_error String.EmptyString y)) with (hs_hkdf [] 2 y). rewrite (hs_hkdf_twins x y) by done.
  cbn [hashLen set_error cs role]. assert (Hl : y.(hashLen) = x.(hashLen)) by apply Ht. rewrite Hl.
  pose proof (hs_hkdf_length n x [] 2 Hg ltac:(lia)) as Hz. rewrite Hz, Z.eqb_refl. cbn [negb].
  assert (Hb : x.(hashLen) = 32 \/ x.(hashLen) = 64) by (apply hash_bound; apply Hg).
  assert (Hal : y.(cs).(algorithm) = x.(cs).(algorithm)) by apply Ht. rewrite Hal. set (o := hs_hkdf [] 2 x) in *.
  assert (Hi : isNoiseAead x.(cs).(algorithm) = true) by apply Hg. unfold kCipherKeyLen.
  assert (H1 : zlen (substr o 0 32) = 32) by (apply substr_length; lia).
  assert (H2 : zlen (substr o x.(hashLen) 32) = 32) by (apply substr_length; lia).
  rewrite !initializeKey_good by done. unfold hasKey. cbn [ckey newCipher algorithm]. rewrite H1, H2. cbn [Z.eqb negb orb fst].
  destruct (x.(role)), (y.(role)); try done; do 2 eexists; do 2 (split; [reflexivity |]); cbn [ckey nonce];
    rewrite H1, H2; done.
Qed.
End Messages.
