(* ===== verification/NoiseProps.v ===== *)
(** * Noise: the theorems of the handshake *)

From S2P Require Import Prelude CryptoApi NoiseCrypto Noise NoiseProofs NoiseTokens NoiseHandshake.

(** The tokens after [initialize]. *)
Definition configTokens (c : NoiseConfig) : PatternTokens :=
  match c.(cfg_pskModifier) with
  | NoPsk => patternTokens c.(cfg_pattern)
  | m => insertPsk (pskSlot m) (patternTokens c.(cfg_pattern))
  end.

Section Initialize.
Context `{L : NoiseCryptoLaws}.

(** A configuration that [initialize] takes, for a peer with public key [peer]. *)
Definition acceptable (c : NoiseConfig) (peer : list Z) : Prop :=
  isNoiseAead c.(cfg_cipher) = true /\ proper_key c.(localStatic) /\ zlen peer = 32
  /\ (zlen c.(cfg_remoteStatic) = 0 \/ zlen c.(cfg_remoteStatic) = 32)
  /\ (match c.(cfg_role) with
      | Initiator => (patternTokens c.(cfg_pattern)).(preResponderS)
      | Responder => (patternTokens c.(cfg_pattern)).(preInitiatorS)
      end = true -> c.(cfg_remoteStatic) = peer)
  /\ (match c.(cfg_pskModifier) with
      | NoPsk => c.(cfg_psk) = []
      | m => zlen c.(cfg_psk) = 32 /\ pskSlot m <= (patternTokens c.(cfg_pattern)).(nMessages)
      end)
  /\ md_available (noiseHashInfo c.(cfg_hash)).(hmd) = true.

(** What [c] is configured to expect of the peer with configuration [peer]. *)
Definition expects (other : option (list Z)) (c peer : NoiseConfig) : Prop :=
  match other with
  | None => c.(cfg_remoteStatic) = [] \/ c.(cfg_remoteStatic) = peer.(localStatic).(publicKey)
  | Some key => c.(cfg_remoteStatic) = key
  end.

(** The two sides of a conversation; [xk] says which other key one is configured
    to expect. *)
Definition matching_for (xk : NoiseRole -> option (list Z)) (ci cr : NoiseConfig) : Prop :=
  ci.(cfg_role) = Initiator /\ cr.(cfg_role) = Responder /\ cr.(cfg_pattern) = ci.(cfg_pattern)
  /\ cr.(cfg_psk) = ci.(cfg_psk) /\ cr.(cfg_pskModifier) = ci.(cfg_pskModifier)
  /\ cr.(prologue) = ci.(prologue) /\ cr.(cfg_cipher) = ci.(cfg_cipher) /\ cr.(cfg_hash) = ci.(cfg_hash)
  /\ acceptable ci cr.(localStatic).(publicKey) /\ acceptable cr ci.(localStatic).(publicKey)
  /\ expects (xk Responder) ci cr /\ expects (xk Initiator) cr ci.

Definition matching : NoiseConfig -> NoiseConfig -> Prop := matching_for (fun _ => None).

Lemma checkKeys_ok c peer d : acceptable c peer -> checkKeys c d = (Some tt, d).
Proof.
  intros (Ha & Hk & Hp & Hr & Hpre & _). unfold checkKeys, kDhLen. rewrite Ha, (proper_valid _ Hk).
  do 2 (rewrite bind_guard by done).
  rewrite bind_guard by lia. destruct (c.(cfg_role)), (c.(cfg_pattern)); cbn in *; try done;
    rewrite Hpre by done; by rewrite Hp.
Qed.

Lemma placePsk_ok c peer : acceptable c peer ->
  placePsk c (freshHS c) = (Some tt, set_tokens (configTokens c) (freshHS c)).
Proof.
  intros (_ & _ & _ & _ & _ & Hp & _). unfold placePsk, configTokens, kPskLen.
  destruct (c.(cfg_pskModifier)); [by rewrite Hp |..]; destruct Hp as [-> Hs];
    cbn [pskSlot] in Hs; rewrite !bind_guard by (cbn [pskSlot]; lia); done.
Qed.

Lemma nameHash_ok c peer : acceptable c peer ->
  exists h0, (forall d, nameHash c d = (Some h0, d)) /\ zlen h0 = (noiseHashInfo c.(cfg_hash)).(hlen).
Proof.
  intros (_ & _ & _ & _ & _ & _ & Hav). unfold nameHash. set (name := noiseProtocolName _ _ _ _).
  case_test.
  - eexists. split; [done |]. unfold zlen in *. rewrite length_app, length_replicate. lia.
  - assert (Hd : zlen (digest (hmd (noiseHashInfo c.(cfg_hash))) name) = (noiseHashInfo c.(cfg_hash)).(hlen)).
    { rewrite digest_length by done. by destruct (c.(cfg_hash)). }
    eexists. split; [| exact Hd]. intros d. by rewrite bind_guard by lia.
Qed.

Definition pre_known (t : PatternTokens) (xk : NoiseRole -> option (list Z)) : Known :=
  mkKnown (fun _ => false) (fun r => match r with Initiator => t.(preInitiatorS) | Responder => t.(preResponderS) end) xk.

(** The optional hash of a key known beforehand. *)
Lemma preHash_twins n a b (pre : bool) data : twins a b -> good n a ->
  exists a' b', (if pre then mixHash data else mret tt) a = (Some tt, a')
    /\ (if pre then mixHash data else mret tt) b = (Some tt, b') /\ in_step n a b a' b'.
Proof.
  intros Ht Hg. destruct pre; [| by exists a, b; do 2 (split; [done |]); apply in_step_refl].
  destruct (mixHash_twins n a b data Ht Hg) as (a' & b' & Ea & Eb & Hs & _). by exists a', b'.
Qed.

(** The state after the checks. *)
Definition baseHS (c : NoiseConfig) (h0 : list Z) : HS :=
  set_ck h0 (set_h h0 (set_tokens (configTokens c) (freshHS c))).

Definition preMix (pre : bool) (key : list Z) : hio unit := if pre then mixHash key else mret tt.

Lemma initialize_run c peer h0 : acceptable c peer -> (forall d, nameHash c d = (Some h0, d)) ->
  initialize c =
  (_ ← mixHash c.(prologue);
   _ ← preMix (patternTokens c.(cfg_pattern)).(preInitiatorS)
         (match c.(cfg_role) with Initiator => c.(localStatic).(publicKey) | Responder => peer end);
   preMix (patternTokens c.(cfg_pattern)).(preResponderS)
     (match c.(cfg_role) with Initiator => peer | Responder => c.(localStatic).(publicKey) end)) (baseHS c h0).
Proof.
  intros Ac Hn. unfold initialize.
  rewrite (bind_some _ _ _ _ _ (checkKeys_ok c _ _ Ac)), (bind_some _ _ _ _ _ (placePsk_ok c _ Ac)).
  destruct Ac as (_ & _ & _ & _ & Hpre & _ & Hav). rewrite bind_guard.
  2: { rewrite digest_length by done. by destruct (c.(cfg_hash)). }
  rewrite (bind_some _ _ _ _ _ (Hn _)), !bind_set. fold (baseHS c h0). unfold preMix.
  destruct (c.(cfg_role)), (c.(cfg_pattern)); cbn in Hpre |- *; rewrite ?Hpre by done; reflexivity.
Qed.

Lemma base_twins xk ci cr h0 : matching_for xk ci cr -> zlen h0 = (noiseHashInfo ci.(cfg_hash)).(hlen) ->
  twins (baseHS ci h0) (baseHS cr h0) /\ good 0 (baseHS ci h0).
Proof.
  intros (Hri & Hrr & Hpat & Hpsk & Hmod & Hpro & Hci & Hh & Ai & Ar & Wi & Wr) Hz. split.
  - unfold twins, baseHS, same_cipher, configTokens. cbn. rewrite Hmod, Hh, Hpsk, Hci, Hri, Hrr, Hpat. done.
  - unfold good, good_cipher, baseHS. cbn. split; [apply Ai |]. split; [by destruct (ci.(cfg_hash)) |].
    do 2 (split; [done |]). split; [apply Ai |]. split; [done |]. by left.
Qed.

Lemma base_links xk ci cr h0 : matching_for xk ci cr ->
  let k := pre_known (patternTokens ci.(cfg_pattern)) xk in
  link k (baseHS ci h0) (baseHS cr h0) /\ link k (baseHS cr h0) (baseHS ci h0).
Proof.
  intros (Hri & Hrr & Hpat & _ & _ & _ & _ & _ & (_ & Pi & _ & _ & Ki & _) & (_ & Pr & _ & _ & Kr & _) & Wi & Wr).
  rewrite Hri in Ki. rewrite Hrr, Hpat in Kr.
  split; (split; [done |]; split; [done |]); unfold baseHS; cbn; [rewrite Hri | rewrite Hrr]; done.
Qed.

Lemma initialize_matching xk ci cr : matching_for xk ci cr ->
  exists i r, initialize ci = (Some tt, i) /\ initialize cr = (Some tt, r)
    /\ peers 0 (pre_known (patternTokens ci.(cfg_pattern)) xk) i r
    /\ kept (set_tokens (configTokens ci) (freshHS ci)) i /\ kept (set_tokens (configTokens ci) (freshHS cr)) r.
Proof.
  intros Hm. pose proof Hm as (Hri & Hrr & Hpat & Hpsk & Hmod & Hpro & Hci & Hh & Ai & Ar & Wi & Wr).
  destruct (nameHash_ok ci _ Ai) as (h0 & Eni & Hz).
  assert (Enr : forall d, nameHash cr d = (Some h0, d)).
  { intros d. rewrite <- (Eni d). unfold nameHash. by rewrite Hpat, Hmod, Hci, Hh. }
  destruct (base_twins xk ci cr h0 Hm Hz) as [Ht Hg]. destruct (base_links xk ci cr h0 Hm) as [L1 L2].
  set (a := baseHS ci h0) in *. set (b := baseHS cr h0) in *.
  destruct (mixHash_twins 0 a b ci.(prologue) Ht Hg) as (a1 & b1 & E1 & E1' & S1 & _). pose proof S1 as (_ & _ & Ht1 & Hg1).
  destruct (preHash_twins 0 a1 b1 (patternTokens ci.(cfg_pattern)).(preInitiatorS) ci.(localStatic).(publicKey) Ht1 Hg1)
    as (a2 & b2 & E2 & E2' & S2). pose proof S2 as (_ & _ & Ht2 & Hg2).
  destruct (preHash_twins 0 a2 b2 (patternTokens ci.(cfg_pattern)).(preResponderS) cr.(localStatic).(publicKey) Ht2 Hg2)
    as (a3 & b3 & E3 & E3' & S3).
  assert (Si : in_step 0 a b a3 b3).
  { eapply in_step_trans; [exact S1 |]. eapply in_step_trans; [exact S2 | exact S3]. }
  exists a3, b3. split; [| split; [| split; [| split]]].
  - rewrite (initialize_run ci _ h0 Ai Eni), Hri. fold a. rewrite (bind_some _ _ _ _ _ E1), (bind_some _ _ _ _ _ E2). exact E3.
  - rewrite (initialize_run cr _ h0 Ar Enr), Hrr, Hpat, Hpro. fold b.
    rewrite (bind_some _ _ _ _ _ E1'), (bind_some _ _ _ _ _ E2'). exact E3'.
  - exact (proj1 (peers_step 0 0 _ a b a3 b3 (conj Ht (conj Hg (conj L1 L2))) Si)).
  - by apply framed_kept, Si.
  - assert (Hct : configTokens cr = configTokens ci) by (unfold configTokens; by rewrite Hmod, Hpat).
    destruct Si as (_ & Fb & _). apply framed_kept in Fb. subst b. unfold baseHS in Fb. rewrite Hct in Fb. exact Fb.
Qed.

(** Every pattern, with every modifier it admits, makes known what it needs. *)
Lemma patterns_complete c : (match c.(cfg_pskModifier) with NoPsk => True
    | m => pskSlot m <= (patternTokens c.(cfg_pattern)).(nMessages) end) ->
  let t := configTokens c in
  exists k, script Initiator (take (Z.to_nat t.(nMessages)) t.(messages)) (pre_known (patternTokens c.(cfg_pattern)) (fun _ => None)) = Some k
    /\ k.(s_of) Initiator = true /\ k.(s_of) Responder = true
    /\ t.(nMessages) = Z.of_nat (length (take (Z.to_nat t.(nMessages)) t.(messages)))
    /\ budget (take (Z.to_nat t.(nMessages)) t.(messages)) < 2 ^ 31
    /\ (patternTokens c.(cfg_pattern)).(nMessages) = t.(nMessages) /\ 0 < t.(nMessages).
Proof.
  unfold configTokens. destruct (c.(cfg_pattern)), (c.(cfg_pskModifier)); cbv zeta; cbn [pskSlot patternTokens nMessages];
    intros Hs; try lia; eexists; (split; [reflexivity |]); by vm_compute.
Qed.
End Initialize.

(** The configuration of the side with a role. *)
Definition side (ci cr : NoiseConfig) (r : NoiseRole) : NoiseConfig :=
  match r with Initiator => ci | Responder => cr end.

(** What both sides have at the end of a handshake. *)
Definition agreement `{C : NoiseCrypto} (ci cr : NoiseConfig) (x y : HS) : Prop :=
  x.(complete) = true /\ y.(complete) = true /\ y.(role) <> x.(role) /\ x.(h) = y.(h)
  /\ x.(rs) = (side ci cr y.(role)).(localStatic).(publicKey)
  /\ y.(rs) = (side ci cr x.(role)).(localStatic).(publicKey)
  /\ exists c1 c2, (split x).1 = Some (c1, c2) /\ (split y).1 = Some (c2, c1)
       /\ hasKey c1 = true /\ hasKey c2 = true /\ c1.(nonce) = 0 /\ c2.(nonce) = 0.

(** Two peers before their first message. *)
Lemma handshake_starts `{L : NoiseCryptoLaws} ci cr : matching ci cr ->
  exists i r k, initialize ci = (Some tt, i) /\ initialize cr = (Some tt, r) /\ on_turn k i r
    /\ (forall ro, k.(s_of) ro = true) /\ i.(role) = Initiator /\ r.(role) = Responder
    /\ i.(s) = ci.(localStatic) /\ r.(s) = cr.(localStatic)
    /\ remainingMessages i = take (Z.to_nat (configTokens ci).(nMessages)) (configTokens ci).(messages)
    /\ Z.of_nat (length (remainingMessages i)) = (patternTokens ci.(cfg_pattern)).(nMessages).
Proof.
  intros Hm. destruct (initialize_matching _ ci cr Hm) as (i & r & Ei & Er & Hp & Ki & Kr).
  destruct Hm as (Hri & Hrr & _ & _ & _ & _ & _ & _ & Ai & _ & _ & _).
  assert (Hslot : match ci.(cfg_pskModifier) with NoPsk => True
    | m => pskSlot m <= (patternTokens ci.(cfg_pattern)).(nMessages) end).
  { destruct Ai as (_ & _ & _ & _ & _ & Hs & _). destruct (ci.(cfg_pskModifier)); [done | apply Hs..]. }
  destruct (patterns_complete ci Hslot) as (k & Es & Ki1 & Kr1 & Hn & Hb & Hnm & Hpos).
  destruct Ki as (Iro & Ito & Ico & Imi & Is). destruct Kr as (Rro & _ & _ & _ & Rs). cbn in Iro, Ito, Ico, Imi, Is, Rro, Rs.
  assert (Hrem : remainingMessages i = take (Z.to_nat (configTokens ci).(nMessages)) (configTokens ci).(messages)).
  { unfold remainingMessages. by rewrite Imi, Ito. }
  rewrite Hri in Iro. rewrite Hrr in Rro. exists i, r, k. do 2 (split; [done |]). split; [| split; [by intros [] |]].
  - exists 0, (pre_known (patternTokens ci.(cfg_pattern)) (fun _ => None)). rewrite Hrem, Imi, Ito, Iro, Ico. set (ms := take _ _) in *.
    split; [done |]. do 3 (split; [lia |]). split; [| split; [unfold ourTurn; by rewrite Iro, Imi | split; [done | lia]]].
    rewrite bool_decide_false; [done |]. intros E. rewrite E in Hn. cbn in Hn. lia.
  - do 5 (split; [done |]). rewrite Hrem. lia.
Qed.

(** Two peers after their last message. *)
Lemma ended_agrees `{L : NoiseCryptoLaws} ci cr k x y : on_turn k x y -> remainingMessages x = [] ->
  (forall ro, k.(s_of) ro = true) ->
  (forall d, d = x \/ d = y -> d.(s) = (side ci cr d.(role)).(localStatic)) -> agreement ci cr x y.
Proof.
  intros (n & k0 & Hp & _ & _ & _ & Hcx & _ & Hs & _) Hrem Hall Hside. rewrite Hrem in *. injection Hs as ->.
  rewrite bool_decide_true in Hcx by done. pose proof Hp as (Ht & _ & (_ & _ & Lx & _) & (_ & _ & Ly & _)).
  split; [done |]. split; [rewrite <- Hcx; apply Ht |]. split; [apply Ht |]. split; [symmetry; apply Ht |].
  split; [rewrite <- (Hside y) by auto; by apply Ly |]. split; [rewrite <- (Hside x) by auto; by apply Lx |].
  by eapply split_crosses.
Qed.

Lemma handshake_agrees `{L : NoiseCryptoLaws} ci cr inputs :
  matching ci cr -> Z.of_nat (length inputs) = (patternTokens ci.(cfg_pattern)).(nMessages) ->
  Forall (fun x => zlen x.1 = 32 /\ zlen x.2 <= INT_MAX - 16) inputs ->
  exists i r x y, initialize ci = (Some tt, i) /\ initialize cr = (Some tt, r)
    /\ exchange inputs i r = Some (map snd inputs, x, y) /\ agreement ci cr x y.
Proof.
  intros Hm Hlen Hin. destruct (handshake_starts ci cr Hm) as (i & r & k & Ei & Er & Ht & Hall & Iro & Rro & Is & Rs & _ & Hl).
  destruct (exchange_passes inputs k i r Ht) as (x & y & Ex & Hx & Hrx & Hback); [lia | done |].
  exists i, r, x, y. do 3 (split; [done |]). eapply ended_agrees; [done.. |].
  intros d Hd. destruct (Hback d Hd) as (o & [-> | ->] & -> & ->); [by rewrite Is, Iro | by rewrite Rs, Rro].
Qed.

(** C16: For XX, IK, XK and KK, every admitted PSK modifier, both AEADs and all four
    hashes, two peers with matching configurations complete the handshake over a faithful
    channel: each payload arrives, both know the other static key, the hashes are equal
    and the transport keys cross. *)
Theorem noise_handshake_agrees `{L : NoiseCryptoLaws} ci cr inputs :
  matching ci cr -> Z.of_nat (length inputs) = (patternTokens ci.(cfg_pattern)).(nMessages) ->
  Forall (fun x => zlen x.1 = 32 /\ zlen x.2 <= INT_MAX - 16) inputs ->
  exists i r x y, initialize ci = (Some tt, i) /\ initialize cr = (Some tt, r)
    /\ exchange inputs i r = Some (map snd inputs, x, y) /\ agreement ci cr x y.
Proof. apply handshake_agrees. Qed.

(** Two toy peers, with a pre-shared key. *)
Definition toy_key (b : Z) : NoiseKey := mkNoiseKey (replicate 32 b) (replicate 32 b).
Definition toy_config (ro : NoiseRole) : NoiseConfig :=
  match ro with
  | Initiator => mkConfig (toy_key 1) IK Initiator (replicate 32 2) (replicate 32 5) Psk2 [1; 2] ChaCha20Poly1305 HSha512
  | Responder => mkConfig (toy_key 2) IK Responder [] (replicate 32 5) Psk2 [1; 2] ChaCha20Poly1305 HSha512
  end.

Lemma toy_matching : @matching toy_noise (toy_config Initiator) (toy_config Responder).
Proof.
  assert (Hp : forall b, @proper_key toy_noise (toy_key b)) by (intros; by split).
  do 8 (split; [done |]). split; [| split; [| split; [by right | by left]]].
  - split; [done |]. split; [apply Hp |]. split; [done |]. split; [by right |]. done.
  - split; [done |]. split; [apply Hp |]. split; [done |]. split; [by left |]. done.
Qed.

Lemma noise_handshake_agrees_witness :
  exists i r x y, @initialize toy_noise (toy_config Initiator) = (Some tt, i)
    /\ @initialize toy_noise (toy_config Responder) = (Some tt, r)
    /\ @exchange toy_noise [(replicate 32 11, [7]); (replicate 32 12, [8; 9])] i r = Some ([[7]; [8; 9]], x, y)
    /\ @agreement toy_noise (toy_config Initiator) (toy_config Responder) x y.
Proof.
  refine (@noise_handshake_agrees toy_noise toy_noise_laws (toy_config Initiator) (toy_config Responder)
    [(replicate 32 11, [7]); (replicate 32 12, [8; 9])] toy_matching _ _).
  - reflexivity.
  - repeat constructor; vm_compute; congruence.
Defined.
