(* ===== verification/NoiseSession.v ===== *)
(** * Noise datagrams

    [NoiseDatagram] of [src/src/noise.cpp]: the handshake, then packets that carry
    their nonce and may be lost, reordered or repeated on the way. *)

From S2P Require Import Prelude CryptoApi NoiseReplay NoiseCrypto Noise.

(** [NoiseDatagramPrivate] *)
Record Datagram : Type := mkDatagram {
  dg_hs : HS;
  dg_send : CipherState;
  dg_recv : CipherState;
  dg_replay : ReplayCounter;
  handshaking : bool;
  dg_ready : bool;
  dg_lastOk : bool;
  gotPeerPayload : bool;
  peerPayload : list Z;
  dg_error : String.string
}.

(** The 8-byte nonce in front of the ciphertext. *)
Definition packTransport (n : Z) (ct : list Z) : list Z := be_encode 8 n ++ ct.

Definition unpackTransport (wire : list Z) : option (Z * list Z) :=
  if zlen wire <? kWireNonceLen + kTagLen then None
  else Some (be_decode (take (Z.to_nat kWireNonceLen) wire), drop (Z.to_nat kWireNonceLen) wire).

Definition set_dg_error (m : String.string) (d : Datagram) : Datagram :=
  mkDatagram d.(dg_hs) d.(dg_send) d.(dg_recv) d.(dg_replay) d.(handshaking) d.(dg_ready) d.(dg_lastOk)
             d.(gotPeerPayload) d.(peerPayload) m.
Arguments set_dg_error m%_string_scope d.
Definition set_dg_hs (hs : HS) (d : Datagram) : Datagram :=
  mkDatagram hs d.(dg_send) d.(dg_recv) d.(dg_replay) d.(handshaking) d.(dg_ready) d.(dg_lastOk)
             d.(gotPeerPayload) d.(peerPayload) d.(dg_error).
Definition set_dg_session (s r : CipherState) (w : ReplayCounter) (hsk rdy : bool) (d : Datagram) : Datagram :=
  mkDatagram d.(dg_hs) s r w hsk rdy d.(dg_lastOk) d.(gotPeerPayload) d.(peerPayload) d.(dg_error).
Definition set_dg_payload (p : list Z) (d : Datagram) : Datagram :=
  mkDatagram d.(dg_hs) d.(dg_send) d.(dg_recv) d.(dg_replay) d.(handshaking) d.(dg_ready) d.(dg_lastOk) true p
             d.(dg_error).
Definition set_dg_ok (b : bool) (d : Datagram) : Datagram :=
  mkDatagram d.(dg_hs) d.(dg_send) d.(dg_recv) d.(dg_replay) d.(handshaking) d.(dg_ready) b
             d.(gotPeerPayload) d.(peerPayload) d.(dg_error).
Definition set_dg_send (c : CipherState) (d : Datagram) : Datagram :=
  set_dg_session c d.(dg_recv) d.(dg_replay) d.(handshaking) d.(dg_ready) d.
Definition set_dg_recv (c : CipherState) (d : Datagram) : Datagram :=
  set_dg_session d.(dg_send) c d.(dg_replay) d.(handshaking) d.(dg_ready) d.
Definition set_dg_replay (w : ReplayCounter) (d : Datagram) : Datagram :=
  set_dg_session d.(dg_send) d.(dg_recv) w d.(handshaking) d.(dg_ready) d.

Section Datagrams.
Context `{C : NoiseCrypto}.

Definition dg_initialize (config : NoiseConfig) : bool * Datagram :=
  let '(ok, hs) := initialize config in
  let d := mkDatagram hs (newCipher config.(cfg_cipher)) (newCipher config.(cfg_cipher)) replay_reset false false false
             false [] String.EmptyString in
  match ok with
  | None => (false, set_dg_error hs.(error) d)
  | Some _ => (true, set_dg_session d.(dg_send) d.(dg_recv) d.(dg_replay) true d.(dg_ready) d)
  end.

(** [splitIfHandshakeComplete] and [finishIfComplete] *)
Definition finishIfComplete (d : Datagram) : bool * Datagram :=
  if negb d.(dg_hs).(complete) then
    (true, if d.(dg_ready) then set_dg_session d.(dg_send) d.(dg_recv) replay_reset false d.(dg_ready) d else d)
  else
    let '(o, hs) := split d.(dg_hs) in
    let d := set_dg_hs hs d in
    match o with
    | None => (false, set_dg_session d.(dg_send) d.(dg_recv) d.(dg_replay) false false (set_dg_error hs.(error) d))
    | Some (s, r) => (true, set_dg_session s r replay_reset false true d)
    end.

(** The message, if the call returned true; [finishIfComplete] failing leaves it in
    [*outMessage], which the callers do not send then. *)
Definition writeHandshake (draw : option (list Z)) (payload : list Z) (d : Datagram) : option (list Z) * Datagram :=
  let d := set_dg_error String.EmptyString d in
  if negb d.(handshaking) then (None, set_dg_error "not handshaking" d) else
  let '(o, hs) := writeMessage draw payload d.(dg_hs) in
  let d := set_dg_hs hs d in
  match o with
  | None => (None, set_dg_error hs.(error) d)
  | Some msg => let '(ok, d) := finishIfComplete d in (if ok : bool then Some msg else None, d)
  end.

Definition readHandshake (message : list Z) (d : Datagram) : option (list Z) * Datagram :=
  let d := set_dg_error String.EmptyString d in
  if negb d.(handshaking) then (None, set_dg_error "not handshaking" d) else
  let '(o, hs) := readMessage message d.(dg_hs) in
  let d := set_dg_hs hs d in
  match o with
  | None => (None, set_dg_error hs.(error) d)
  | Some payload =>
      let d := if negb d.(gotPeerPayload) then set_dg_payload payload d else d in
      let '(ok, d) := finishIfComplete d in (if ok : bool then Some payload else None, d)
  end.

(** The packet; empty on failure. *)
Definition dg_encrypt (plaintext : list Z) (d : Datagram) : list Z * Datagram :=
  let d := set_dg_error String.EmptyString d in
  if negb d.(dg_ready) then ([], set_dg_error "handshake not complete" d)
  else if d.(dg_send).(nonce) >=? kRejectAfterMessages then ([], set_dg_error "nonce exhausted" d)
  else
    let '(cipher, n, c) := encryptWithAd [] plaintext d.(dg_send) in
    let d := set_dg_send c d in
    if zlen cipher <? kTagLen then ([], set_dg_error "encrypt failed" d)
    else (packTransport n cipher, d).

(** [lastDecryptOk] tells an empty packet from a failure. *)
Definition dg_decrypt (packet : list Z) (d : Datagram) : list Z * Datagram :=
  let d := set_dg_ok false (set_dg_error String.EmptyString d) in
  if negb d.(dg_ready) then ([], set_dg_error "handshake not complete" d) else
  match unpackTransport packet with
  | None => ([], set_dg_error "truncated datagram" d)
  | Some (n, ct) =>
      if exhausted d.(dg_replay) then ([], set_dg_error "nonce exhausted" d) else
      let '(plain, c) := decryptWithNonce [] ct n d.(dg_recv) in
      let d := set_dg_recv c d in
      if negb c.(lastDecryptOk) then ([], set_dg_error "decrypt failed" d) else
      let '(ok, w) := validate n d.(dg_replay) in
      let d := set_dg_replay w d in
      if negb ok then ([], set_dg_error "replay or stale nonce" d)
      else (plain, set_dg_ok true d)
  end.

(** ** Conversations *)

(** As [exchange], with datagrams. *)
Fixpoint dg_exchange (inputs : list (list Z * list Z)) (w r : Datagram) : option (list (list Z) * Datagram * Datagram) :=
  match inputs with
  | [] => Some ([], w, r)
  | (draw, payload) :: inputs' =>
      match writeHandshake (Some draw) payload w with
      | (Some msg, w') =>
          match readHandshake msg r with
          | (Some got, r') =>
              match dg_exchange inputs' r' w' with
              | Some (rest, x, y) => Some (got :: rest, x, y)
              | None => None
              end
          | (None, _) => None
          end
      | (None, _) => None
      end
  end.

(** The packets of a list of messages. *)
Fixpoint encryptAll (plaintexts : list (list Z)) (d : Datagram) : list (list Z) * Datagram :=
  match plaintexts with
  | [] => ([], d)
  | p :: ps => let '(c, d) := dg_encrypt p d in let '(cs, d) := encryptAll ps d in (c :: cs, d)
  end.

(** What the packets that arrive give, in the order of their arrival. *)
Fixpoint decryptAll (packets : list (list Z)) (d : Datagram) : list (option (list Z)) * Datagram :=
  match packets with
  | [] => ([], d)
  | c :: cs =>
      let '(p, d) := dg_decrypt c d in
      let o := if d.(dg_lastOk) then Some p else None in
      let '(os, d) := decryptAll cs d in (o :: os, d)
  end.
End Datagrams.
