(* ===== verification/NoiseSessionProofs.v ===== *)
(** * Noise datagrams: packets over an unreliable network *)

From stdpp Require Import gmap.
From S2P Require Import Prelude CryptoApi NoiseReplay NoiseCrypto Noise NoiseProofs NoiseTokens NoiseHandshake.
From S2P Require Import NoiseProps NoiseSession.

Section Transport.
Context `{L : NoiseCryptoLaws}.

(** The packet of the plaintext [p] with number [n]. *)
Definition packet_of (c : CipherState) (n : Z) (p : list Z) : list Z :=
  packTransport n (evp_seal c.(algorithm) c.(aeadKey) (encodeNonce c.(algorithm) n) [] p).

(** A cipher with a key. *)
Definition keyed (c : CipherState) : Prop := hasKey c = true /\ zlen c.(aeadKey) = 32.

Lemma good_keyed n c : good_cipher n c -> hasKey c = true -> keyed c.
Proof.
  intros (_ & _ & [He | [Hz Hk]]) Hh; [unfold hasKey in Hh; by rewrite He in Hh |].
  split; [done | by rewrite Hk].
Qed.

Lemma encrypt_packet c p : keyed c -> 0 <= c.(nonce) < MaxNonce -> zlen p <= INT_MAX - 16 ->
  encryptWithAd [] p c = (evp_seal c.(algorithm) c.(aeadKey) (encodeNonce c.(algorithm) c.(nonce)) [] p, c.(nonce),
                          withNonce (c.(nonce) + 1) c).
Proof.
  intros [Hh Hk] Hn Hp. unfold encryptWithAd, transportNonceAllowed, aeadSeal. rewrite Hh, Hk, encodeNonce_length.
  pose proof (zlen_nonneg p). unfold MaxNonce, INT_MAX, wrapu in *. cbn [negb]. test_false.
  change (zlen (@nil Z)) with 0. cbn [Z.eqb Pos.eqb negb orb]. test_false. by rewrite Z.mod_small by lia.
Qed.

Lemma packTransport_unpack n ct : 0 <= n < 2 ^ 64 -> 16 <= zlen ct -> unpackTransport (packTransport n ct) = Some (n, ct).
Proof.
  intros Hn Hc. unfold unpackTransport, packTransport, kWireNonceLen, kTagLen. rewrite zlen_app, zlen_be_encode.
  change (Z.of_nat 8) with 8. test_false. change (Z.to_nat 8) with 8%nat.
  rewrite <- (length_be_encode 8 n) at 1. rewrite take_app_length.
  rewrite <- (length_be_encode 8 n) at 2. rewrite drop_app_length.
  by rewrite be_encode_decode_small.
Qed.

Lemma encryptAll_packets ps d : d.(dg_ready) = true -> keyed d.(dg_send) -> 0 <= d.(dg_send).(nonce) ->
  d.(dg_send).(nonce) + Z.of_nat (length ps) <= kRejectAfterMessages ->
  Forall (fun p => zlen p <= INT_MAX - 16) ps ->
  (encryptAll ps d).1 = imap (fun j p => packet_of d.(dg_send) (d.(dg_send).(nonce) + Z.of_nat j) p) ps.
Proof.
  revert d. induction ps as [| p ps IH]; intros d Hr Hk Hn Hb Hf; [done |]. cbn [encryptAll].
  apply Forall_cons_iff in Hf as [Hp Hf]. cbn [length] in Hb. pose proof (zlen_nonneg p).
  change kRejectAfterMessages with (2 ^ 64 - 8130) in Hb.
  unfold dg_encrypt. replace (dg_ready (set_dg_error _ d)) with true by done. cbn [negb].
  change (dg_send (set_dg_error _ d)) with (dg_send d). change kRejectAfterMessages with (2 ^ 64 - 8130).
  replace (nonce (dg_send d) >=? 2 ^ 64 - 8130) with false by lia.
  rewrite encrypt_packet by (try done; unfold MaxNonce; lia). rewrite evp_seal_length. unfold kTagLen.
  replace (zlen p + 16 <? 16) with false by lia.
  set (d1 := set_dg_send _ _). specialize (IH d1).
  destruct (encryptAll ps d1) as [cs d2] eqn:E. cbn [fst] in *. rewrite imap_cons. f_equal.
  - unfold packet_of. by rewrite Z.add_0_r.
  - rewrite IH; try done; [| cbn; lia | cbn; change kRejectAfterMessages with (2 ^ 64 - 8130); lia].
    apply imap_ext. intros j x Hx. unfold packet_of, compose. cbn [d1 dg_send set_dg_send set_dg_session algorithm aeadKey nonce withNonce].
    by replace (nonce (dg_send d) + 1 + Z.of_nat j) with (nonce (dg_send d) + Z.of_nat (Datatypes.S j)) by lia.
Qed.

(** A receiver that holds the key of [c] and whose window is that of [a]. *)
Definition receiving (c : CipherState) (a : Seen) (d : Datagram) : Prop :=
  d.(dg_ready) = true /\ d.(dg_recv).(algorithm) = c.(algorithm) /\ d.(dg_recv).(aeadKey) = c.(aeadKey)
  /\ hasKey d.(dg_recv) = true /\ same_window d.(dg_replay) a.

Lemma decrypt_packet c a d n p : keyed c -> receiving c a d -> 0 <= n < kRejectAfterMessages -> zlen p <= INT_MAX - 16 ->
  let '(ok, a') := accept n a in
  exists d', dg_decrypt (packet_of c n p) d = (if ok : bool then p else [], d') /\ d'.(dg_lastOk) = ok /\ receiving c a' d'.
Proof.
  intros [Hh Hk] (Hr & Ha & Hak & Hhk & Hw) Hn Hp. change kRejectAfterMessages with (2 ^ 64 - 8130) in Hn.
  pose proof (zlen_nonneg p). destruct (validate_accepts _ a n Hw ltac:(lia)) as [Ev Hw'].
  unfold dg_decrypt, packet_of. set (d0 := set_dg_ok false _). replace (dg_ready d0) with true by done. cbn [negb].
  rewrite packTransport_unpack by (rewrite ?evp_seal_length; lia).
  change (dg_replay d0) with (dg_replay d). rewrite (not_exhausted _ _ Hw). change (dg_recv d0) with (dg_recv d).
  unfold decryptWithNonce, transportNonceAllowed, MaxNonce, kTagLen, aeadOpen. cbn [algorithm aeadKey withOk].
  change (hasKey (withOk false (dg_recv d))) with (hasKey (dg_recv d)).
  rewrite Hhk, Ha, Hak, Hk, evp_seal_length, encodeNonce_length. change (zlen (@nil Z)) with 0. unfold INT_MAX in *.
  cbn [negb Z.eqb Pos.eqb orb]. replace (zlen p + 16 <? 16) with false by lia.
  replace (n <=? 2 ^ 64 - 2) with true by lia. replace (zlen p + 16 >? 2147483647) with false by lia. cbn [negb orb Z.gtb Z.compare].
  rewrite evp_open_seal. cbn [lastDecryptOk withOk negb]. change (dg_replay (set_dg_recv _ d0)) with (dg_replay d).
  destruct (validate n (dg_replay d)) as [ok w], (accept n a) as [ok' a']. cbn [fst snd] in *. subst ok'.
  destruct ok; cbn [negb]; eexists; (split; [reflexivity |]); (split; [done |]); by do 3 (split; [done |]).
Qed.

(** What the reference says about packets that arrive in the order [js]. *)
Definition delivered (ps : list (list Z)) (js : list nat) (verdict : list bool) : list (option (list Z)) :=
  zip_with (fun j (ok : bool) => if ok then ps !! j else None) js verdict.

Lemma decryptAll_delivers c ps js a d : keyed c -> receiving c a d ->
  Z.of_nat (length ps) <= kRejectAfterMessages -> Forall (fun p => zlen p <= INT_MAX - 16) ps ->
  Forall (fun j => (j < length ps)%nat) js ->
  (decryptAll (map (fun j => packet_of c (Z.of_nat j) (default [] (ps !! j))) js) d).1
  = delivered ps js (verdicts accept (map Z.of_nat js) a).1.
Proof.
  intros Hk Hd Hb Hps Hjs. revert a d Hd. induction Hjs as [| j js Hj _ IH]; intros a d Hd; [done |].
  cbn [map decryptAll verdicts]. destruct (lookup_lt_is_Some_2 ps j Hj) as [p Ep]. rewrite Ep. cbn [from_option id].
  pose proof (Forall_lookup_1 _ _ _ _ Hps Ep) as Hp. cbn in Hp.
  pose proof (decrypt_packet c a d (Z.of_nat j) p Hk Hd ltac:(lia) Hp) as H.
  destruct (accept (Z.of_nat j) a) as [ok a']. destruct H as (d' & E & Hok & Hd'). rewrite E, Hok.
  specialize (IH a' d' Hd'). destruct (decryptAll _ d') as [os d2]. destruct (verdicts accept _ a') as [bs a2].
  cbn [fst] in *. rewrite IH. unfold delivered. cbn [zip_with]. f_equal. by destruct ok.
Qed.

(** [imap] with the numbers of the packets. *)
Lemma packets_lookup c ps j : (j < length ps)%nat ->
  imap (fun j p => packet_of c (0 + Z.of_nat j) p) ps !! j = Some (packet_of c (Z.of_nat j) (default [] (ps !! j))).
Proof. intros Hj. rewrite list_lookup_imap. by destruct (lookup_lt_is_Some_2 ps j Hj) as [p ->]. Qed.

(** ** The handshake of two datagram sessions *)

(** A session in the middle of a handshake, and one that has finished it. *)
Definition shaking (hs : HS) (d : Datagram) : Prop := d.(dg_hs) = hs /\ d.(handshaking) = true /\ d.(dg_ready) = false.

Definition finished (hs : HS) (d : Datagram) : Prop :=
  d.(dg_ready) = true /\ d.(dg_replay) = replay_reset /\ (split hs).1 = Some (d.(dg_send), d.(dg_recv))
  /\ d.(dg_hs).(rs) = hs.(rs).

Lemma split_rs hs : (split hs).2.(rs) = hs.(rs).
Proof. unfold split. by destruct (negb _); [| destruct (negb _); [| destruct (_ || _)%bool]]. Qed.

Lemma finish_shaking hs d : shaking hs d -> hs.(complete) = false ->
  exists d', finishIfComplete d = (true, d') /\ shaking hs d'.
Proof. intros (<- & Hh & Hr) Hc. exists d. unfold finishIfComplete. by rewrite Hc, Hr. Qed.

Lemma finish_finished hs d : shaking hs d -> hs.(complete) = true -> is_Some (split hs).1 ->
  exists d', finishIfComplete d = (true, d') /\ finished hs d'.
Proof.
  intros (<- & Hh & Hr) Hc [[c1 c2] Hs]. unfold finishIfComplete, finished. rewrite Hc. cbn [negb].
  pose proof (split_rs (dg_hs d)) as Hrs. destruct (split (dg_hs d)) as [o hs']. cbn [fst snd] in *. subst o. by eexists.
Qed.

Lemma writeHandshake_step d w payload draw msg w' : shaking w d -> writeMessage draw payload w = (Some msg, w') ->
  exists d', shaking w' d' /\ writeHandshake draw payload d
    = (let '(ok, d2) := finishIfComplete d' in (if ok : bool then Some msg else None, d2)).
Proof.
  intros (Hw & Hh & Hr) E. exists (set_dg_hs w' (set_dg_error String.EmptyString d)). split; [done |].
  unfold writeHandshake. replace (handshaking (set_dg_error _ d)) with true by done. cbn [negb].
  change (dg_hs (set_dg_error _ d)) with (dg_hs d). by rewrite Hw, E.
Qed.

Lemma readHandshake_step d r msg payload r' : shaking r d -> readMessage msg r = (Some payload, r') ->
  exists d', shaking r' d' /\ readHandshake msg d
    = (let '(ok, d2) := finishIfComplete d' in (if ok : bool then Some payload else None, d2)).
Proof.
  intros (Hr & Hh & Hrd) E. set (d1 := set_dg_hs r' (set_dg_error String.EmptyString d)).
  exists (if negb (gotPeerPayload d1) then set_dg_payload payload d1 else d1). split.
  - by destruct (gotPeerPayload d1).
  - unfold readHandshake. replace (handshaking (set_dg_error _ d)) with true by done. cbn [negb].
    change (dg_hs (set_dg_error _ d)) with (dg_hs d). by rewrite Hr, E.
Qed.

Lemma readHandshake_refused d r msg m r' : shaking r d -> readMessage msg r = (None, set_error m r') ->
  exists d', readHandshake msg d = (None, d') /\ shaking (set_error m r') d' /\ d'.(dg_error) = m.
Proof.
  intros (Hr & Hh & Hrd) E. unfold readHandshake. replace (handshaking (set_dg_error _ d)) with true by done. cbn [negb].
  change (dg_hs (set_dg_error _ d)) with (dg_hs d). rewrite Hr, E. by eexists.
Qed.

(** A message in the middle of a handshake. *)
Lemma readHandshake_goes_on d r msg payload r' : shaking r d -> readMessage msg r = (Some payload, r') ->
  r'.(complete) = false -> exists d', readHandshake msg d = (Some payload, d') /\ shaking r' d'.
Proof.
  intros Hd E Hc. destruct (readHandshake_step _ _ _ _ _ Hd E) as (d1 & Hd1 & ->).
  destruct (finish_shaking _ _ Hd1 Hc) as (d2 & -> & Hd2). by exists d2.
Qed.

Lemma writeHandshake_goes_on d w payload draw msg w' : shaking w d -> writeMessage draw payload w = (Some msg, w') ->
  w'.(complete) = false -> exists d', writeHandshake draw payload d = (Some msg, d') /\ shaking w' d'.
Proof.
  intros Hd E Hc. destruct (writeHandshake_step _ _ _ _ _ _ Hd E) as (d1 & Hd1 & ->).
  destruct (finish_shaking _ _ Hd1 Hc) as (d2 & -> & Hd2). by exists d2.
Qed.

(** A handshake between the states is one between the sessions. *)
Lemma dg_exchange_finishes inputs w r qs x y dw dr :
  exchange inputs w r = Some (qs, x, y) -> inputs <> [] -> shaking w dw -> shaking r dr ->
  x.(complete) = true -> y.(complete) = true -> is_Some (split x).1 -> is_Some (split y).1 ->
  exists dx dy, dg_exchange inputs dw dr = Some (qs, dx, dy) /\ finished x dx /\ finished y dy.
Proof.
  intros E Hne Hw Hr Hcx Hcy Hsx Hsy. revert w r qs dw dr E Hne Hw Hr.
  induction inputs as [| [draw payload] inputs IH]; intros w r qs dw dr E Hne Hw Hr; [done |]. cbn [exchange dg_exchange] in *.
  destruct (writeMessage (Some draw) payload w) as [[msg |] w'] eqn:Ew; [| done].
  destruct (readMessage msg r) as [[got |] r'] eqn:Er; [| done].
  destruct (exchange inputs r' w') as [[[rest x'] y'] |] eqn:Ee; [| done]. injection E as <- -> ->.
  destruct (writeHandshake_step _ _ _ _ _ _ Hw Ew) as (d1 & Hd1 & ->).
  destruct (readHandshake_step _ _ _ _ _ Hr Er) as (d2 & Hd2 & Er2).
  destruct inputs as [| [draw' payload'] inputs].
  - injection Ee as <- <- <-. destruct (finish_finished w' d1 Hd1 Hcy Hsy) as (dy & -> & Hy). rewrite Er2.
    destruct (finish_finished r' d2 Hd2 Hcx Hsx) as (dx & -> & Hx). by exists dx, dy.
  - assert (Hc : r'.(complete) = false /\ w'.(complete) = false).
    { cbn [exchange] in Ee. destruct (writeMessage (Some draw') payload' r') as [[m |] r2] eqn:E1; [| done].
      destruct (readMessage m w') as [[g |] w2] eqn:E2; [| done]. split.
      - destruct (complete r') eqn:Hc; [| done]. exfalso. revert E1. unfold writeMessage.
        replace (complete (set_error _ r')) with true by done. done.
      - destruct (complete w') eqn:Hc; [| done]. exfalso. revert E2. unfold readMessage.
        replace (complete (set_error _ w')) with true by done. done. }
    destruct Hc as [Hc1 Hc2]. destruct (finish_shaking w' d1 Hd1 Hc2) as (d3 & -> & Hd3). rewrite Er2.
    destruct (finish_shaking r' d2 Hd2 Hc1) as (d4 & -> & Hd4).
    destruct (IH r' w' rest d4 d3 Ee ltac:(done) Hd4 Hd3) as (dx & dy & E' & Hx & Hy).
    exists dx, dy. by rewrite E'.
Qed.
End Transport.

(** ** A whole session *)

Lemma dg_initialize_shaking `{C : NoiseCrypto} config hs : initialize config = (Some tt, hs) ->
  exists d, dg_initialize config = (true, d) /\ shaking hs d.
Proof. intros E. unfold dg_initialize. rewrite E. by eexists. Qed.

(** The keys of a split that worked. *)
Lemma split_good `{C : NoiseCrypto} hs c1 c2 : (split hs).1 = Some (c1, c2) ->
  keyed c1 /\ keyed c2 /\ c1.(nonce) = 0 /\ c2.(nonce) = 0.
Proof.
  assert (Hi : forall key a, hasKey (initializeKey key (newCipher a)) = true ->
    keyed (initializeKey key (newCipher a)) /\ (initializeKey key (newCipher a)).(nonce) = 0).
  { intros key a. unfold keyed, initializeKey, syncAeadKey, kCipherKeyLen. cbn [algorithm ckey newCipher].
    destruct (isNoiseAead a) eqn:Ha; cbn [andb]; [| done]. destruct (Z.eqb_spec (zlen key) 32) as [Hk | Hk]; [| done].
    rewrite Hk. cbn [Z.eqb]. destruct a; [done | ..]; cbn [aead_keyLen Z.eqb Pos.eqb]; done. }
  unfold split. destruct (negb _); [done |]. destruct (negb _); [done |].
  set (a := newCipher _). set (k1 := substr _ 0 _). set (k2 := substr _ _ kCipherKeyLen).
  destruct (hasKey (initializeKey k1 a)) eqn:H1; [| done]. destruct (hasKey (initializeKey k2 a)) eqn:H2; [| done].
  cbn [negb orb fst]. destruct (Hi _ _ H1) as [G1 N1], (Hi _ _ H2) as [G2 N2].
  destruct (bool_decide _); intros [= <- <-]; done.
Qed.

(** C21: After the handshake of two datagram sessions, packets that are lost, reordered or
    repeated give exactly the plaintexts that a reference which remembers every accepted
    nonce lets through, and nothing else. *)
Theorem noise_datagrams_delivered `{L : NoiseCryptoLaws} ci cr inputs ps js :
  matching ci cr -> Z.of_nat (length inputs) = (patternTokens ci.(cfg_pattern)).(nMessages) ->
  Forall (fun x => zlen x.1 = 32 /\ zlen x.2 <= INT_MAX - 16) inputs ->
  Forall (fun p => zlen p <= INT_MAX - 16) ps -> Z.of_nat (length ps) <= kRejectAfterMessages ->
  Forall (fun j => (j < length ps)%nat) js ->
  exists di dr dx dy packets, dg_initialize ci = (true, di) /\ dg_initialize cr = (true, dr)
    /\ dg_exchange inputs di dr = Some (map snd inputs, dx, dy)
    /\ packets = (encryptAll ps dx).1
    /\ (decryptAll (map (fun j => default [] (packets !! j)) js) dy).1
       = delivered ps js (verdicts accept (map Z.of_nat js) seen_nothing).1.
Proof.
  intros Hm Hlen Hin Hps Hb Hjs.
  destruct (handshake_agrees ci cr inputs Hm Hlen Hin) as (i & r & x & y & Ei & Er & Ex & Hag).
  destruct Hag as (Hcx & Hcy & _ & _ & _ & _ & c1 & c2 & Sx & Sy & _).
  destruct (dg_initialize_shaking ci i Ei) as (di & Edi & Hdi). destruct (dg_initialize_shaking cr r Er) as (dr & Edr & Hdr).
  assert (Hne : inputs <> []) by (intros ->; destruct (cfg_pattern ci); cbn in Hlen; lia).
  destruct (dg_exchange_finishes inputs i r _ x y di dr Ex Hne Hdi Hdr Hcx Hcy) as (dx & dy & Edg & Fx & Fy);
    [by rewrite Sx | by rewrite Sy |].
  exists di, dr, dx, dy, (encryptAll ps dx).1. do 4 (split; [done |]).
  destruct Fx as (Rx & _ & Kx & _), Fy as (Ry & Wy & Ky & _). rewrite Sx in Kx. rewrite Sy in Ky. injection Kx as Kx1 Kx2. injection Ky as Ky1 Ky2.
  destruct (split_good x c1 c2 Sx) as (G1 & _ & N1 & _). rewrite encryptAll_packets; rewrite <- ?Kx1, ?N1; try done; try lia.
  erewrite map_ext_in; [apply (decryptAll_delivers c1 ps js seen_nothing dy); try done |].
  - split; [done |]. rewrite <- Ky2, Wy. destruct G1. do 3 (split; [done |]). apply same_window_reset.
  - intros j Hj. rewrite packets_lookup; [done |]. rewrite Forall_forall in Hjs. by apply Hjs.
Qed.

Lemma noise_datagrams_delivered_witness :
  exists di dr dx dy packets, @dg_initialize toy_noise (toy_config Initiator) = (true, di)
    /\ @dg_initialize toy_noise (toy_config Responder) = (true, dr)
    /\ @dg_exchange toy_noise [(replicate 32 11, [7]); (replicate 32 12, [8; 9])] di dr = Some ([[7]; [8; 9]], dx, dy)
    /\ packets = (@encryptAll toy_noise [[1]; [2; 2]; [3]] dx).1
    /\ (@decryptAll toy_noise (map (fun j => default [] (packets !! j)) [2; 0; 2; 1]%nat) dy).1
       = delivered [[1]; [2; 2]; [3]] [2; 0; 2; 1]%nat (verdicts accept (map Z.of_nat [2; 0; 2; 1]%nat) seen_nothing).1.
Proof.
  refine (@noise_datagrams_delivered toy_noise toy_noise_laws (toy_config Initiator) (toy_config Responder)
    [(replicate 32 11, [7]); (replicate 32 12, [8; 9])] [[1]; [2; 2]; [3]] [2; 0; 2; 1]%nat toy_matching _ _ _ _ _).
  - reflexivity.
  - repeat constructor; vm_compute; congruence.
  - repeat constructor; vm_compute; congruence.
  - vm_compute. congruence.
  - repeat constructor; cbn; lia.
Defined.
