(* ===== verification/NoisePinning.v ===== *)
(** * Noise: the configured key of the peer

    A side that is configured with the static key of its peer refuses another one.
    The refusal leaves the other key in [rs], where the next message is compared
    with it: a peer with another key gets through at its second attempt. *)

From S2P Require Import Prelude CryptoApi NoiseReplay NoiseCrypto Noise NoiseProofs NoiseTokens NoiseHandshake.
From S2P Require Import NoiseProps NoiseSession NoiseSessionProofs.

#[local] Delimit Scope string_scope with string.

Section Pinning.
Context `{L : NoiseCryptoLaws} (K : list Z).

Definition mismatch : String.string := "remote static public key mismatch"%string.

(** The token of a static key that is not the configured one: the reader fails, and
    is then the peer of the writer all the same. *)
Lemma tokenS_refused n k draw out w r : peers n k w r -> n < 2 ^ 32 -> r.(rs) <> [] -> r.(rs) <> w.(s).(publicKey) ->
  exists added w' r',
    applyToken Token.S (Writing (Some draw) out) w = (Some (Writing (Some draw) (out ++ added)), w')
    /\ (forall msg pre post, msg = pre ++ added ++ post ->
          applyToken Token.S (Reading msg (zlen pre)) r = (None, set_error mismatch r'))
    /\ peers (n + 1) (mkKnown k.(e_of) (learn w.(role) k.(s_of)) (fun ro => if bool_decide (ro = w.(role)) then None else k.(expected) ro)) w' r'
    /\ kept w w' /\ kept r r'.
Proof.
  intros (Ht & Hg & Hl & Hl') Hn Hne Hx. set (spk := w.(s).(publicKey)) in *. assert (Hz : zlen spk = 32) by apply proper_public, Hl.
  assert (Hr : r.(role) <> w.(role)) by apply Ht. assert (Hcs : same_cipher w.(cs) r.(cs)) by apply Ht.
  destruct (crypt_twins n w r spk Ht Hg Hn) as (ct & w' & r' & Ew & Er & Hlen & (Fw & Fr & Ht' & Hg')); [rewrite Hz; unfold INT_MAX; lia |].
  pose proof (framed_kept _ _ Fw) as Kw. pose proof (framed_kept _ _ Fr) as Kr.
  exists ct, w', (set_rs spk r'). split; [| split; [| split; [| split; [done |]]]].
  - cbn [applyToken]. unfold tokenS.
    rewrite (bind_some _ _ _ _ _ (eq_refl : hget (fun d => d.(s).(publicKey)) w = (Some spk, w))).
    rewrite (bind_some _ _ _ _ _ Ew), bind_guard by (destruct (hasKey w.(cs)); lia). done.
  - intros msg pre post ->. cbn [applyToken]. unfold tokenS.
    rewrite (bind_some _ _ _ _ _ (eq_refl : hget cs r = (Some r.(cs), r))). rewrite (same_hasKey _ _ Hcs).
    replace (if hasKey w.(cs) then kDhLen + kTagLen else kDhLen) with (zlen ct)
      by (rewrite Hlen, Hz; by destruct (hasKey w.(cs))).
    rewrite missing_mid by done. rewrite (bind_some _ _ _ _ _ (eq_refl : hget rs r = (Some r.(rs), r))).
    rewrite slice_mid. unfold mbind at 1, hio_bind at 1. rewrite Er, bind_guard by (by rewrite Hz).
    unfold mbind, hio_bind, checkRemoteStatic. cbn [rs set_rs set_keys]. rewrite bool_decide_true by done.
    assert (Hzr : zlen r.(rs) <> 0) by (destruct r.(rs); [done | unfold zlen; cbn; lia]).
    replace (zlen r.(rs) =? 0) with false by lia. done.
  - destruct Fw as (? & ? & ? & ->), Fr as (? & ? & ? & ->). do 2 (split; [done |]).
    destruct Hl as (Hs & He & Hks & Hw), Hl' as (Hs' & He' & Hks' & Hw'). split.
    + split; [done |]. split; [done |]. split; [done |]. cbn. rewrite bool_decide_true by done. by right.
    + split; [done |]. split; [done |]. cbn. unfold learn. rewrite !bool_decide_false by done. done.
  - by eapply kept_trans.
Qed.

(** The first two messages of [XX], between an initiator and a responder that
    expects another static key. *)
Definition pinned (ro : NoiseRole) : option (list Z) := match ro with Initiator => Some K | Responder => None end.

(** What is known before, between and after them. *)
Definition xx_known (n : nat) : Known :=
  let k0 := pre_known (patternTokens XX) pinned in
  let k1 := mkKnown (learn Initiator k0.(e_of)) k0.(s_of) k0.(expected) in
  match n with
  | O => k0
  | 1%nat => k1
  | _ => mkKnown (learn Responder k1.(e_of)) (learn Responder k1.(s_of)) k1.(expected)
  end.

Lemma xx_opening ca cr (draw draw' payload : list Z) : matching_for pinned ca cr ->
  ca.(cfg_pattern) = XX -> ca.(cfg_pskModifier) = NoPsk -> zlen draw = 32 -> zlen draw' = 32 ->
  zlen payload <= INT_MAX - 16 ->
  exists r m0 r1 m1 r2 w2, initialize cr = (Some tt, r) /\ readMessage m0 r = (Some [], r1)
    /\ writeMessage (Some draw') payload r1 = (Some m1, r2) /\ peers 7 (xx_known 2) w2 r2
    /\ r1.(complete) = false /\ r2.(complete) = false /\ w2.(complete) = false
    /\ w2.(msgIndex) = 2 /\ w2.(tokens) = patternTokens XX /\ w2.(role) = Initiator /\ w2.(s) = ca.(localStatic).
Proof.
  intros Hm Hp Hk Hd Hd' Hpl. destruct (initialize_matching _ ca cr Hm) as (i & r & Ei & Er & Hpe & Ki & Kr).
  assert (Hct : configTokens ca = patternTokens XX) by (unfold configTokens; by rewrite Hk, Hp).
  assert (Hri : ca.(cfg_role) = Initiator) by apply Hm. rewrite Hp in Hpe.
  destruct Ki as (Iro & Ito & Ico & Imi & Is). cbn in Iro, Ito, Ico, Imi, Is. rewrite Hct in Ito. rewrite Hri in Iro.
  destruct (message_passes 0 (xx_known 0) (xx_known 1) draw [] i r [Token.E] Hpe) as (m0 & i1 & r1 & Ew0 & Er0 & Hp1 & Mi & Mr & _); try done.
  { unfold ourTurn. by rewrite Iro, Imi. }
  { rewrite Imi, Ito. done. }
  { unfold currentTokens. by rewrite Imi, Ito. }
  { rewrite Iro. reflexivity. }
  apply peers_swap in Hp1. assert (Ht0 : twins i r) by apply Hpe.
  assert (Hrt : r.(tokens) = i.(tokens)) by apply Ht0. assert (Hrm : r.(msgIndex) = i.(msgIndex)) by apply Ht0.
  assert (Hrr : r.(role) = Responder) by (assert (r.(role) <> i.(role)) by apply Ht0; rewrite Iro in *; by destruct (r.(role))).
  destruct Mi as (Iro1 & Ito1 & Imi1 & Ico1 & Is1), Mr as (Rro1 & Rto1 & Rmi1 & Rco1 & Rs1).
  rewrite Hrm, Imi in Rmi1, Rco1. rewrite Hrt, Ito in Rto1, Rco1. rewrite Imi in Imi1, Ico1. rewrite Ito in Ito1, Ico1.
  destruct (message_passes 2 (xx_known 1) (xx_known 2) draw' payload r1 i1 [Token.E; Token.Ee; Token.S; Token.Es] Hp1)
    as (m1 & r2 & i2 & Ew1 & Er1 & Hp2 & Mr2 & Mi2 & _); try done.
  { unfold ourTurn. by rewrite Rro1, Hrr, Rmi1. }
  { rewrite Rmi1, Rto1. done. }
  { unfold currentTokens. by rewrite Rmi1, Rto1. }
  { rewrite Rro1, Hrr. reflexivity. }
  apply peers_swap in Hp2. destruct Mr2 as (_ & _ & _ & Rco2 & _), Mi2 as (Iro2 & Ito2 & Imi2 & Ico2 & Is2).
  exists r, m0, r1, m1, r2, i2. do 3 (split; [done |]). split; [exact Hp2 |].
  rewrite Rto1, Rmi1 in Rco2. rewrite Ito1, Imi1, ?Ito in *. split; [done |]. split; [done |]. split; [done |].
  split; [done |]. split; [done |]. split; congruence.
Qed.

(** A message of which the first token is refused. *)
Lemma refused_message n k draw w r ts : peers n k w r -> n < 2 ^ 32 -> k.(expected) w.(role) = Some K ->
  K <> [] -> K <> w.(s).(publicKey) -> r.(complete) = false -> ourTurn w = true ->
  r.(msgIndex) < r.(tokens).(nMessages) -> currentTokens r = Token.S :: ts ->
  exists msg w' r',
    applyToken Token.S (Writing (Some draw) []) w = (Some (Writing (Some draw) msg), w')
    /\ readMessage msg r = (None, set_error mismatch r')
    /\ peers (n + 1) (mkKnown k.(e_of) (learn w.(role) k.(s_of))
                        (fun ro => if bool_decide (ro = w.(role)) then None else k.(expected) ro)) w' r'
    /\ kept w w' /\ kept r r'.
Proof.
  intros Hp Hn Hk Hne Hx Hc Ho Hi Ht. set (r0 := set_error String.EmptyString r).
  assert (Hp0 : peers n k w r0) by exact Hp.
  assert (Hrs : r0.(rs) = K) by (destruct Hp0 as (_ & _ & (_ & _ & _ & H) & _); by rewrite Hk in H).
  destruct (tokenS_refused n k draw [] w r0 Hp0 Hn) as (msg & w' & r' & Ew & Er & Hp' & Kw & Kr);
    [by rewrite Hrs | by rewrite Hrs |].
  exists msg, w', r'. split; [exact Ew |]. split; [| by split].
  unfold readMessage. fold r0. change (complete r0) with (complete r). rewrite Hc.
  rewrite (peers_sym_turn w r0) by (try done; apply Hp0). cbn [orb]. change (msgIndex r0) with (msgIndex r).
  change (tokens r0) with (tokens r). replace (_ >=? _) with false by lia.
  change (currentTokens r0) with (currentTokens r). rewrite Ht. cbn [applyTokens].
  specialize (Er msg [] [] ltac:(by rewrite app_nil_r)). change (zlen (@nil Z)) with 0 in Er.
  unfold mbind, hio_bind. by rewrite Er.
Qed.
End Pinning.

(** C37: A responder of XX that is configured with the static key of its peer refuses
    another key once, but the refusal stores that key; the next message is compared with
    it, so an initiator with the other key completes the handshake at its second attempt. *)
Theorem noise_pinned_key_bypassed `{L : NoiseCryptoLaws} K ca cr (draw draw' payload : list Z) :
  matching_for (pinned K) ca cr -> ca.(cfg_pattern) = XX -> ca.(cfg_pskModifier) = NoPsk ->
  K <> [] -> K <> ca.(localStatic).(publicKey) ->
  zlen draw = 32 -> zlen draw' = 32 -> zlen payload <= INT_MAX - 16 ->
  exists d m0 d1 m1 d2 bad d3 good d4, dg_initialize cr = (true, d) /\ cr.(cfg_remoteStatic) = K
    /\ readHandshake m0 d = (Some [], d1) /\ writeHandshake (Some draw') payload d1 = (Some m1, d2)
    /\ readHandshake bad d2 = (None, d3) /\ d3.(dg_error) = mismatch
    /\ readHandshake good d3 = (Some [], d4) /\ d4.(dg_ready) = true
    /\ d4.(dg_hs).(rs) = ca.(localStatic).(publicKey).
Proof.
  intros Hm Hp Hk Hne Hx Hd Hd' Hpl. assert (HK : cr.(cfg_remoteStatic) = K) by apply Hm.
  destruct (xx_opening K ca cr draw draw' payload Hm Hp Hk Hd Hd' Hpl)
    as (r & m0 & r1 & m1 & r2 & w2 & Ei & Er0 & Ew1 & Hp2 & C1 & C2 & Cw & Mw & Tw & Rw & Sw).
  destruct (dg_initialize_shaking cr r Ei) as (d & Ed & Hsd).
  destruct (readHandshake_goes_on d r m0 [] r1 Hsd Er0 C1) as (d1 & Ed1 & Hsd1).
  destruct (writeHandshake_goes_on d1 r1 payload _ m1 r2 Hsd1 Ew1 C2) as (d2 & Ed2 & Hsd2).
  assert (Ht2 : r2.(tokens) = w2.(tokens) /\ r2.(msgIndex) = w2.(msgIndex)) by (split; apply Hp2). destruct Ht2 as [Tr Mr].
  assert (Hturn : ourTurn w2 = true) by (unfold ourTurn; by rewrite Rw, Mw).
  destruct (refused_message K 7 (xx_known K 2) draw w2 r2 [Token.Se] Hp2) as (bad & w3 & r3 & _ & Er3 & Hp3 & Kw & Kr); try done.
  { by rewrite Rw. }
  { by rewrite Sw. }
  { rewrite Tr, Mr, Mw, Tw. done. }
  { unfold currentTokens. by rewrite Tr, Mr, Mw, Tw. }
  destruct (readHandshake_refused d2 r2 bad _ _ Hsd2 Er3) as (d3 & Ed3 & Hsd3 & He3).
  destruct Kw as (Rw3 & Tw3 & Cw3 & Mw3 & Sw3). rewrite Rw in *. rewrite Tw in *. rewrite Mw in *.
  destruct (message_passes 8 _ (mkKnown (xx_known K 2).(e_of) (learn Initiator (learn Initiator (xx_known K 2).(s_of)))
      (fun ro => if bool_decide (ro = Initiator) then None else (xx_known K 2).(expected) ro))
      draw [] w3 (set_error mismatch r3) [Token.S; Token.Se] Hp3) as (good & w4 & r4 & _ & Er4 & Hp4 & Mw4 & _); try done.
  { congruence. }
  { unfold ourTurn. by rewrite Rw3, Mw3. }
  { rewrite Mw3, Tw3. done. }
  { unfold currentTokens. by rewrite Mw3, Tw3. }
  { rewrite Rw3. reflexivity. }
  destruct Mw4 as (Rw4 & _ & _ & Cw4 & Sw4). rewrite Mw3, Tw3 in Cw4. change (_ >=? _) with true in Cw4.
  destruct (split_crosses _ _ _ _ Hp4 Cw4) as (c1 & c2 & _ & Sr4 & _).
  assert (C4 : r4.(complete) = true) by (rewrite <- Cw4; apply Hp4).
  destruct (readHandshake_step d3 _ good [] r4 Hsd3 Er4) as (d4 & Hsd4 & Ed4).
  destruct (finish_finished r4 d4 Hsd4 C4) as (d5 & Ef & (Rd5 & _ & _ & Rs5)); [by rewrite Sr4 |].
  exists d, m0, d1, m1, d2, bad, d3, good, d5. rewrite Ed4, Ef. do 8 (split; [done |]).
  rewrite Rs5. destruct Hp4 as (_ & _ & (_ & _ & Hs4 & _) & _). rewrite Hs4; [congruence |]. by rewrite Rw4, Rw3.
Qed.

(** A responder that expects the key [4, 4, ...], and an initiator with another. *)
Definition toy_pinned (ro : NoiseRole) : NoiseConfig :=
  match ro with
  | Initiator => mkConfig (toy_key 1) XX Initiator [] [] NoPsk [] ChaCha20Poly1305 HSha256
  | Responder => mkConfig (toy_key 2) XX Responder (replicate 32 4) [] NoPsk [] ChaCha20Poly1305 HSha256
  end.

Lemma toy_pinned_matching : @matching_for toy_noise (pinned (replicate 32 4)) (toy_pinned Initiator) (toy_pinned Responder).
Proof.
  assert (Hp : forall b, @proper_key toy_noise (toy_key b)) by (intros; by split).
  do 8 (split; [done |]). split; [| split; [| split; [by left | done]]].
  - split; [done |]. split; [apply Hp |]. split; [done |]. split; [by left |]. done.
  - split; [done |]. split; [apply Hp |]. split; [done |]. split; [by right |]. done.
Qed.

Lemma noise_pinned_key_bypassed_witness :
  exists d m0 d1 m1 d2 bad d3 good d4, @dg_initialize toy_noise (toy_pinned Responder) = (true, d)
    /\ (toy_pinned Responder).(cfg_remoteStatic) = replicate 32 4
    /\ @readHandshake toy_noise m0 d = (Some [], d1)
    /\ @writeHandshake toy_noise (Some (replicate 32 12)) [5] d1 = (Some m1, d2)
    /\ @readHandshake toy_noise bad d2 = (None, d3) /\ d3.(dg_error) = mismatch
    /\ @readHandshake toy_noise good d3 = (Some [], d4) /\ d4.(dg_ready) = true
    /\ d4.(dg_hs).(rs) = (toy_pinned Initiator).(localStatic).(publicKey).
Proof.
  refine (@noise_pinned_key_bypassed toy_noise toy_noise_laws (replicate 32 4) (toy_pinned Initiator) (toy_pinned Responder)
    (replicate 32 11) (replicate 32 12) [5] toy_pinned_matching _ _ _ _ _ _ _); vm_compute; congruence.
Defined.
