(* ===== verification/SliceRing.v ===== *)
(** * The double-mapped ring buffer

    [SliceRingBufferPrivate] of [src/src/utils/slice_ring_buffer.cpp].  Two halves
    of a virtual region map the same physical bytes, so a write through one address
    is seen through the other; the window [head, tail) is addressed as if it were
    contiguous.  Offsets are relative to [base].  The size of a page and whether the
    system can make a mapping are parameters. *)

From S2P Require Import Prelude.

Record Ring : Type := mkRing { capacity : Z; phys : list Z; head : Z; tail : Z }.

(** The byte behind a virtual offset. *)
Definition slot (cap v : Z) : nat := Z.to_nat (v mod cap).

(** [n] bytes from the offset [pos] on. *)
Fixpoint bytes_at (cap : Z) (m : list Z) (pos : Z) (n : nat) : list Z :=
  match n with
  | O => []
  | S n' => default 0 (m !! slot cap pos) :: bytes_at cap m (pos + 1) n'
  end.

(** The same bytes stored one by one. *)
Fixpoint store_at (cap : Z) (m : list Z) (pos : Z) (data : list Z) : list Z :=
  match data with
  | [] => m
  | b :: data' => store_at cap (<[slot cap pos := b]> m) (pos + 1) data'
  end.

Definition roundUp (value align : Z) : Z := u64 (u64 (value + align - 1) / align * align).

Definition size (r : Ring) : Z := u64 (r.(tail) - r.(head)).
Definition empty (r : Ring) : bool := r.(head) =? r.(tail).

(** [memcpy] out of the region and into it; outside of the mapping is a fault. *)
Definition load (r : Ring) (pos n : Z) : result (list Z) :=
  if (0 <=? pos) && (pos + n <=? 2 * r.(capacity)) then Ret (bytes_at r.(capacity) r.(phys) pos (Z.to_nat n)) else Fault.

Definition store (r : Ring) (pos : Z) (data : list Z) : result (list Z) :=
  if (0 <=? pos) && (pos + zlen data <=? 2 * r.(capacity)) then Ret (store_at r.(capacity) r.(phys) pos data) else Fault.

Definition resetWindow (r : Ring) : Ring :=
  let middle := r.(capacity) * 2 / 2 in mkRing r.(capacity) r.(phys) middle middle.

(** [while (newCap < need) newCap *= 2;]  After 64 rounds a [size_t] has wrapped to
    zero, and the loop of the source does not end. *)
Fixpoint growLoop (fuel : nat) (newCap need : Z) : result Z :=
  if newCap <? need then
    match fuel with
    | O => OutOfFuel
    | S fuel' => growLoop fuel' (u64 (newCap * 2)) need
    end
  else Ret newCap.

Section Ring.
Context (page : Z) (mapOk : Z -> bool).

(** The constructor throws [bad_alloc] without a mapping; a new one is zeroed. *)
Definition create (cap : Z) : result Ring :=
  let want := if negb (cap =? 0) then roundUp cap page else page in
  if negb (mapOk want) then Reject
  else Ret (resetWindow (mkRing want (replicate (Z.to_nat want) 0) 0 0)).

Definition reserve (need : Z) (r : Ring) : result Ring :=
  if need <=? r.(capacity) then Ret r else
  newCap ← growLoop 64 (if negb (r.(capacity) =? 0) then r.(capacity) else page) need;
  let newCap := roundUp newCap page in
  if newCap =? r.(capacity) then Ret r else
  let s := size r in
  let p := (newCap * 2 - s) / 2 in
  if negb (mapOk newCap) then Ret r else
  let fresh := mkRing newCap (replicate (Z.to_nat newCap) 0) p (p + s) in
  if s =? 0 then Ret fresh else
  live ← load r r.(head) s;
  m ← store fresh p live;
  Ret (mkRing newCap m p (p + s)).

Definition center (r : Ring) : result Ring :=
  let s := size r in
  let newHead := (r.(capacity) * 2 - s) / 2 in
  m ← (if negb (s =? 0) && negb (newHead =? r.(head)) then tmp ← load r r.(head) s; store r newHead tmp
       else Ret r.(phys));
  Ret (mkRing r.(capacity) m newHead (newHead + s)).

Definition pushBack (data : list Z) (r : Ring) : result Ring :=
  let n := zlen data in
  if n =? 0 then Ret r else
  r ← reserve (u64 (size r + n)) r;
  r ← (if r.(tail) + n >? r.(capacity) * 2 then center r else Ret r);
  m ← store r r.(tail) data;
  Ret (mkRing r.(capacity) m r.(head) (r.(tail) + n)).

Definition pushFront (data : list Z) (r : Ring) : result Ring :=
  let n := zlen data in
  if n =? 0 then Ret r else
  r ← reserve (u64 (size r + n)) r;
  r ← (if r.(head) - n <? 0 then center r else Ret r);
  m ← store r (r.(head) - n) data;
  Ret (mkRing r.(capacity) m (r.(head) - n) r.(tail)).

Definition popFront (n : Z) (r : Ring) : Ring :=
  let c := if n <? size r then n else size r in
  let r := mkRing r.(capacity) r.(phys) (r.(head) + c) r.(tail) in
  if empty r then resetWindow r else r.

Definition popBack (n : Z) (r : Ring) : Ring :=
  let c := if n <? size r then n else size r in
  let r := mkRing r.(capacity) r.(phys) r.(head) (r.(tail) - c) in
  if empty r then resetWindow r else r.

Definition clear (r : Ring) : Ring := resetWindow r.

(** [front] and [back] *)
Definition front (r : Ring) : Z := if empty r then 0 else default 0 (r.(phys) !! slot r.(capacity) r.(head)).
Definition back (r : Ring) : Z := if empty r then 0 else default 0 (r.(phys) !! slot r.(capacity) (r.(tail) - 1)).

(** What [data()] and [size()] show. *)
Definition contents (r : Ring) : list Z := bytes_at r.(capacity) r.(phys) r.(head) (Z.to_nat (r.(tail) - r.(head))).

(** ** The interface as a deque of bytes *)

Inductive op : Type :=
| PushBack (data : list Z)
| PushFront (data : list Z)
| PopFront (n : Z)
| PopBack (n : Z)
| Clear.

Definition step (o : op) (r : Ring) : result Ring :=
  match o with
  | PushBack data => pushBack data r
  | PushFront data => pushFront data r
  | PopFront n => Ret (popFront n r)
  | PopBack n => Ret (popBack n r)
  | Clear => Ret (clear r)
  end.

Fixpoint run (ops : list op) (r : Ring) : result Ring :=
  match ops with
  | [] => Ret r
  | o :: ops' => r ← step o r; run ops' r
  end.
End Ring.

(** The deque. *)
Definition deque_step (o : op) (l : list Z) : list Z :=
  match o with
  | PushBack data => l ++ data
  | PushFront data => data ++ l
  | PopFront n => drop (Z.to_nat n) l
  | PopBack n => take (length l - Z.to_nat n) l
  | Clear => []
  end.

Definition deque_run (ops : list op) (l : list Z) : list Z := foldl (fun l o => deque_step o l) l ops.
