(* ===== verification/SliceRingProps.v ===== *)
(** * The ring buffer: refinement of a deque, and a growth that fails *)

From S2P Require Import Prelude SliceRing.

(** ** Bytes behind virtual addresses *)

Section Memory.
Context (cap : Z) (Hcap : 0 < cap).

(** Two addresses that show the same byte. *)
Definition alias (v w : Z) : Prop := v mod cap = w mod cap.

Lemma slot_lt v : (slot cap v < Z.to_nat cap)%nat.
Proof. unfold slot. pose proof (Z.mod_pos_bound v cap Hcap). lia. Qed.

Lemma slot_alias v w : slot cap v = slot cap w -> alias v w.
Proof. unfold slot, alias. pose proof (Z.mod_pos_bound v cap Hcap). pose proof (Z.mod_pos_bound w cap Hcap). lia. Qed.

(** Addresses less than a whole capacity apart are different bytes. *)
Lemma alias_near v w : alias v w -> - cap < v - w < cap -> v = w.
Proof.
  unfold alias. intros E Hd. pose proof (Z.div_mod v cap). pose proof (Z.div_mod w cap).
  assert (v - w = cap * (v / cap - w / cap)) by lia. assert (v / cap - w / cap = 0) by nia. lia.
Qed.

Lemma store_at_length m pos data : length (store_at cap m pos data) = length m.
Proof.
  revert m pos. induction data as [| b data IH]; intros m pos; cbn [store_at]; [done |]. by rewrite IH, length_insert.
Qed.

Lemma store_at_other m pos data v : (forall i, pos <= i < pos + zlen data -> ~ alias i v) ->
  store_at cap m pos data !! slot cap v = m !! slot cap v.
Proof.
  revert m pos. induction data as [| b data IH]; intros m pos Hv; cbn [store_at]; [done |]. rewrite zlen_cons in Hv.
  pose proof (zlen_nonneg data). rewrite IH by (intros i Hi; apply Hv; lia).
  apply list_lookup_insert_ne. intros E. apply (Hv pos); [lia |]. by apply slot_alias.
Qed.

Lemma bytes_at_length m pos n : length (bytes_at cap m pos n) = n.
Proof. revert pos. induction n as [| n IH]; intros; cbn; [done |]. by rewrite IH. Qed.

Lemma bytes_at_app m pos n k :
  bytes_at cap m pos (n + k) = bytes_at cap m pos n ++ bytes_at cap m (pos + Z.of_nat n) k.
Proof.
  revert pos. induction n as [| n IH]; intros pos; cbn [Nat.add bytes_at app]; [by rewrite Z.add_0_r |].
  rewrite IH. by replace (pos + Z.of_nat (S n)) with (pos + 1 + Z.of_nat n) by lia.
Qed.

(** Reading elsewhere is not disturbed. *)
Lemma bytes_at_other m pos data q n :
  (forall i j, pos <= i < pos + zlen data -> q <= j < q + Z.of_nat n -> ~ alias i j) ->
  bytes_at cap (store_at cap m pos data) q n = bytes_at cap m q n.
Proof.
  revert q. induction n as [| n IH]; intros q H; cbn [bytes_at]; [done |]. f_equal.
  - rewrite store_at_other; [done |]. intros i Hi. apply H; lia.
  - apply IH. intros i j Hi Hj. apply H; lia.
Qed.

(** What was written is read, if it does not wrap onto itself. *)
Lemma bytes_at_stored m pos data : length m = Z.to_nat cap -> zlen data <= cap ->
  bytes_at cap (store_at cap m pos data) pos (length data) = data.
Proof.
  revert m pos. induction data as [| b data IH]; intros m pos Hm Hl; cbn [store_at bytes_at length]; [done |].
  rewrite zlen_cons in Hl. f_equal.
  - rewrite store_at_other.
    + rewrite list_lookup_insert_eq; [done |]. rewrite Hm. apply slot_lt.
    + intros i Hi Ha. apply alias_near in Ha; lia.
  - apply IH; [by rewrite length_insert | lia].
Qed.

(** The two ends of a window do not meet within the capacity. *)
Lemma bytes_at_behind m pos n data : pos + Z.of_nat n + zlen data <= pos + cap ->
  length m = Z.to_nat cap ->
  bytes_at cap (store_at cap m (pos + Z.of_nat n) data) pos (n + length data) = bytes_at cap m pos n ++ data.
Proof.
  intros Hc Hm. pose proof (zlen_nonneg data). rewrite bytes_at_app. f_equal.
  - apply bytes_at_other. intros i j Hi Hj Ha. apply alias_near in Ha; lia.
  - apply bytes_at_stored; [done | lia].
Qed.

Lemma bytes_at_before m pos n data : Z.of_nat n + zlen data <= cap -> length m = Z.to_nat cap ->
  bytes_at cap (store_at cap m (pos - zlen data) data) (pos - zlen data) (length data + n) = data ++ bytes_at cap m pos n.
Proof.
  intros Hc Hm. pose proof (zlen_nonneg data). rewrite bytes_at_app. f_equal.
  - apply bytes_at_stored; [done | lia].
  - replace (pos - zlen data + Z.of_nat (length data)) with pos by (unfold zlen; lia).
    apply bytes_at_other. intros i j Hi Hj Ha. apply alias_near in Ha; lia.
Qed.
End Memory.

(** ** The operations *)

(** The states between calls; capacities stay far below the range of [size_t]. *)
Definition ring_ok (r : Ring) : Prop :=
  0 < r.(capacity) <= 2 ^ 50 /\ length r.(phys) = Z.to_nat r.(capacity)
  /\ 0 <= r.(head) <= r.(tail) /\ r.(tail) <= 2 * r.(capacity) /\ r.(tail) - r.(head) <= r.(capacity).

(** [r'] shows the same bytes as [r]. *)
Definition same_bytes (r r' : Ring) : Prop := ring_ok r' /\ contents r' = contents r.

Lemma ring_size r : ring_ok r -> size r = r.(tail) - r.(head).
Proof. intros (Hc & _ & Hh & Ht & Hs). unfold size, wrapu. rewrite Z.mod_small; lia. Qed.

Lemma contents_length r : length (contents r) = Z.to_nat (r.(tail) - r.(head)).
Proof. apply bytes_at_length. Qed.

Lemma load_window r : ring_ok r -> load r r.(head) (size r) = Ret (contents r).
Proof.
  intros Hr. rewrite (ring_size r Hr). destruct Hr as (Hc & _ & Hh & Ht & Hs). unfold load. by test_true.
Qed.

(** A window of [s] bytes in the middle of a region of twice the capacity. *)
Lemma middle_bounds cap s p : 0 <= s <= cap -> p = (cap * 2 - s) / 2 -> 0 <= p /\ cap - s <= p /\ p + cap <= 2 * cap.
Proof. intros Hs ->. pose proof (Z.div_mod (cap * 2 - s) 2). pose proof (Z.mod_pos_bound (cap * 2 - s) 2). lia. Qed.

(** The bytes moved to the middle of a mapping that holds them. *)
Lemma moved_window cap m p (l : list Z) : 0 < cap <= 2 ^ 50 -> length m = Z.to_nat cap -> zlen l <= cap -> 0 <= p -> p + cap <= 2 * cap ->
  let r := mkRing cap (store_at cap m p l) p (p + zlen l) in ring_ok r /\ contents r = l.
Proof.
  intros Hc Hm Hl Hp Hpc r. pose proof (zlen_nonneg l). split.
  - unfold ring_ok, r. cbn. rewrite store_at_length. split_and!; try done; lia.
  - unfold contents, r. cbn. replace (Z.to_nat (p + zlen l - p)) with (length l) by (unfold zlen; lia).
    apply bytes_at_stored; [lia | done | done].
Qed.

Lemma center_same r : ring_ok r -> exists r', center r = Ret r' /\ same_bytes r r' /\ r'.(capacity) = r.(capacity)
  /\ r.(capacity) - size r <= r'.(head) /\ r'.(tail) <= 2 * r.(capacity) - (r.(capacity) - size r).
Proof.
  intros Hr. pose proof (load_window r Hr) as El. pose proof (ring_size r Hr) as Es.
  pose proof Hr as (Hc & Hm & Hh & Ht & Hs). pose proof (contents_length r) as Hcl. unfold center.
  set (p := (r.(capacity) * 2 - size r) / 2). destruct (middle_bounds r.(capacity) (size r) p ltac:(lia) eq_refl) as (H0 & H1 & H2).
  destruct (moved_window r.(capacity) r.(phys) p (contents r)) as [Hok Hco]; try done; [unfold zlen; lia |].
  assert (Hz : zlen (contents r) = size r) by (unfold zlen; lia). rewrite Hz in Hok, Hco.
  destruct (negb (size r =? 0) && negb (p =? head r))%bool eqn:E.
  - rewrite El. cbn [mbind result_bind]. unfold store. rewrite Hz. test_true. cbn [mbind result_bind].
    eexists. split; [done |]. split; [done |]. cbn. lia.
  - cbn [mbind result_bind]. eexists. split; [done |]. cbn. split; [| lia]. split.
    + unfold ring_ok. cbn. lia.
    + unfold contents. cbn. rewrite Z.add_simpl_l. apply andb_false_iff in E as [E | E].
      * replace (size r) with 0 by lia. replace (tail r - head r) with 0 by lia. done.
      * replace p with (head r) by lia. by rewrite Es.
Qed.

(** The loop ends with the first doubling that is large enough. *)
Lemma growLoop_ends fuel c need : 0 < c -> c <= 2 ^ 50 -> need <= 2 ^ 49 -> need <= c * 2 ^ Z.of_nat fuel ->
  exists c', growLoop fuel c need = Ret c' /\ need <= c' /\ c <= c' /\ (c' <= 2 * need \/ c' = c).
Proof.
  revert c. induction fuel as [| fuel IH]; intros c Hc Hb Hn Hf.
  - unfold growLoop. change (2 ^ Z.of_nat 0) with 1 in Hf. test_false. exists c. split; [done |]. lia.
  - cbn [growLoop]. case_test; [| exists c; split; [done |]; lia].
    assert (Hu : u64 (c * 2) = c * 2) by (unfold wrapu; rewrite Z.mod_small; lia). rewrite Hu.
    rewrite Nat2Z.inj_succ, Z.pow_succ_r in Hf by lia.
    destruct (IH (c * 2)) as (c' & Ec & H1 & H2 & H3); [lia | lia | lia | lia |]. exists c'. split; [done |]. lia.
Qed.

Lemma roundUp_bounds v align : 0 < v <= 2 ^ 50 -> 0 < align <= 2 ^ 32 -> v <= roundUp v align < v + align.
Proof.
  intros Hv Ha. unfold roundUp, wrapu. rewrite (Z.mod_small (v + align - 1)) by lia.
  pose proof (Z.div_mod (v + align - 1) align). pose proof (Z.mod_pos_bound (v + align - 1) align).
  rewrite Z.mod_small by lia. lia.
Qed.

Section Operations.
Context (page : Z) (mapOk : Z -> bool).
Hypothesis Hpage : 0 < page <= 2 ^ 32.
Hypothesis Hmap : forall c, c <= 2 ^ 50 -> mapOk c = true.

(** Everything the pushes need room for. *)
Definition limit : Z := 2 ^ 48.

Lemma create_ok cap : 0 <= cap <= limit -> exists r, create page mapOk cap = Ret r /\ ring_ok r /\ contents r = [].
Proof.
  intros Hc. unfold create, limit in *. set (want := if negb (cap =? 0) then _ else _).
  assert (Hw : 0 < want <= 2 ^ 49).
  { unfold want. destruct (Z.eqb_spec cap 0); cbn [negb]; [lia |]. pose proof (roundUp_bounds cap page). lia. }
  clearbody want. rewrite Hmap by lia. cbn [negb]. eexists. split; [done |]. unfold resetWindow, ring_ok, contents. cbn [capacity phys head tail].
  rewrite length_replicate, Z.div_mul by lia. rewrite Z.sub_diag. split; [| done]. split_and!; lia.
Qed.

Lemma reserve_ok need r : ring_ok r -> r.(tail) - r.(head) <= need <= limit ->
  exists r', reserve page mapOk need r = Ret r' /\ same_bytes r r' /\ need <= r'.(capacity).
Proof.
  intros Hr Hn. pose proof Hr as (Hc & Hm & Hh & Ht & Hs). unfold reserve, limit in *. case_test.
  { exists r. split; [done |]. by split. }
  replace (negb (capacity r =? 0)) with true by lia.
  destruct (growLoop_ends 64 r.(capacity) need) as (c & Ec & H1 & H2 & H3); [lia | lia | lia | change (2 ^ Z.of_nat 64) with (2 ^ 64); lia |].
  rewrite Ec. cbn [mbind result_bind]. pose proof (roundUp_bounds c page ltac:(lia) Hpage).
  set (newCap := roundUp c page) in *. clearbody newCap. replace (newCap =? capacity r) with false by lia.
  rewrite Hmap by lia. cbn [negb]. rewrite (load_window r Hr). rewrite (ring_size r Hr).
  destruct (middle_bounds newCap (tail r - head r) ((newCap * 2 - (tail r - head r)) / 2)) as (M0 & M1 & M2); [lia | done |].
  set (p := (newCap * 2 - _) / 2) in *. pose proof (contents_length r) as Hl.
  destruct (moved_window newCap (replicate (Z.to_nat newCap) 0) p (contents r)) as [Hok Hco];
    [lia | apply length_replicate | unfold zlen; lia | lia | lia |].
  assert (Hz : zlen (contents r) = tail r - head r) by (unfold zlen; lia). rewrite Hz in Hok, Hco.
  destruct (Z.eqb_spec (tail r - head r) 0) as [E0 | E0].
  - eexists. split; [done |]. assert (En : contents r = []) by (destruct (contents r); [done | unfold zlen in Hz; cbn in Hz; lia]).
    rewrite En in Hok, Hco. cbn [store_at] in Hok, Hco. split; [split; [exact Hok | by rewrite En] | cbn; lia].
  - cbn [mbind result_bind]. unfold store. cbn [capacity phys]. rewrite Hz. test_true. cbn [mbind result_bind].
    eexists. split; [done |]. split; [by split | cbn; lia].
Qed.

Lemma same_size r r' : ring_ok r -> same_bytes r r' -> r'.(tail) - r'.(head) = r.(tail) - r.(head).
Proof.
  intros (_ & _ & Hr & _) [(_ & _ & Hr' & _) E]. pose proof (contents_length r') as Hl.
  rewrite E, contents_length in Hl. lia.
Qed.

Lemma contents_size r : ring_ok r -> zlen (contents r) = r.(tail) - r.(head).
Proof. intros (_ & _ & Hr & _). unfold zlen. rewrite contents_length. lia. Qed.

(** The window is moved if an end has no room for [n] bytes. *)
Lemma make_room n r (tight : bool) : ring_ok r -> r.(tail) - r.(head) + n <= r.(capacity) ->
  exists r', (if tight then center r else Ret r) = Ret r' /\ same_bytes r r' /\ r'.(capacity) = r.(capacity)
    /\ (tight = true -> n <= r'.(head) /\ r'.(tail) + n <= 2 * r'.(capacity)) /\ (tight = false -> r' = r).
Proof.
  intros Hr Hn. destruct tight; [| by exists r; split_and!].
  destruct (center_same r Hr) as (r' & E & HS & HC & HH & HT). rewrite (ring_size r Hr) in HH, HT.
  exists r'. split_and!; try done; rewrite ?HC; lia.
Qed.

(** The part both pushes share. *)
Lemma push_reserve n r : ring_ok r -> 0 <= n -> zlen (contents r) + n <= limit ->
  exists r', reserve page mapOk (u64 (size r + n)) r = Ret r' /\ same_bytes r r' /\ r'.(tail) - r'.(head) + n <= r'.(capacity).
Proof.
  intros Hr Hn Hl. rewrite (contents_size r Hr) in Hl. rewrite (ring_size r Hr). pose proof Hr as (_ & _ & Hh & _).
  replace (u64 _) with (tail r - head r + n) by (unfold wrapu, limit in *; rewrite Z.mod_small; lia).
  destruct (reserve_ok (tail r - head r + n) r Hr) as (r' & E & HS & HN); [lia |]. exists r'. do 2 (split; [done |]).
  by rewrite (same_size r r' Hr HS).
Qed.

Lemma zlen_zero (l : list Z) : zlen l = 0 -> l = [].
Proof. destruct l; [done |]. unfold zlen. cbn. lia. Qed.

Lemma pushBack_ok data r : ring_ok r -> zlen (contents r) + zlen data <= limit ->
  exists r', pushBack page mapOk data r = Ret r' /\ ring_ok r' /\ contents r' = contents r ++ data.
Proof.
  intros Hr Hl. pose proof (zlen_nonneg data). unfold pushBack. destruct (Z.eqb_spec (zlen data) 0) as [E | E].
  { exists r. split; [done |]. split; [done |]. by rewrite (zlen_zero data E), app_nil_r. }
  destruct (push_reserve (zlen data) r Hr) as (r1 & E1 & HS1 & N1); [done | done |]. rewrite E1. cbn [mbind result_bind].
  pose proof HS1 as [H1 C1]. destruct (make_room (zlen data) r1 (r1.(tail) + zlen data >? r1.(capacity) * 2) H1 N1)
    as (r2 & -> & HS2 & K2 & T2 & F2). cbn [mbind result_bind]. pose proof HS2 as [H2 C2]. pose proof (same_size r1 r2 H1 HS2) as S2.
  assert (T : r2.(tail) + zlen data <= 2 * r2.(capacity)).
  { destruct (r1.(tail) + zlen data >? r1.(capacity) * 2) eqn:Et; [by apply T2 |]. rewrite (F2 eq_refl). lia. }
  pose proof H2 as (Hc2 & Hm2 & Hh2 & Ht2 & Hs2). unfold store. test_true. cbn [mbind result_bind]. eexists. split; [done |]. split.
  - unfold ring_ok. cbn. rewrite store_at_length. split_and!; try done; lia.
  - rewrite <- C1, <- C2. unfold contents. cbn [capacity phys head tail].
    replace (Z.to_nat (tail r2 + zlen data - head r2)) with (Z.to_nat (tail r2 - head r2) + length data)%nat by (unfold zlen; lia).
    replace (tail r2) with (head r2 + Z.of_nat (Z.to_nat (tail r2 - head r2))) at 1 by lia.
    apply bytes_at_behind; [lia | lia | done].
Qed.

Lemma pushFront_ok data r : ring_ok r -> zlen (contents r) + zlen data <= limit ->
  exists r', pushFront page mapOk data r = Ret r' /\ ring_ok r' /\ contents r' = data ++ contents r.
Proof.
  intros Hr Hl. pose proof (zlen_nonneg data). unfold pushFront. destruct (Z.eqb_spec (zlen data) 0) as [E | E].
  { exists r. split; [done |]. split; [done |]. by rewrite (zlen_zero data E). }
  destruct (push_reserve (zlen data) r Hr) as (r1 & E1 & HS1 & N1); [done | done |]. rewrite E1. cbn [mbind result_bind].
  pose proof HS1 as [H1 C1]. destruct (make_room (zlen data) r1 (r1.(head) - zlen data <? 0) H1 N1)
    as (r2 & -> & HS2 & K2 & T2 & F2). cbn [mbind result_bind]. pose proof HS2 as [H2 C2]. pose proof (same_size r1 r2 H1 HS2) as S2.
  assert (T : zlen data <= r2.(head)).
  { destruct (r1.(head) - zlen data <? 0) eqn:Et; [by apply T2 |]. rewrite (F2 eq_refl). lia. }
  pose proof H2 as (Hc2 & Hm2 & Hh2 & Ht2 & Hs2). unfold store. test_true. cbn [mbind result_bind]. eexists. split; [done |]. split.
  - unfold ring_ok. cbn. rewrite store_at_length. split_and!; try done; lia.
  - rewrite <- C1, <- C2. unfold contents. cbn [capacity phys head tail].
    replace (Z.to_nat (tail r2 - (head r2 - zlen data))) with (length data + Z.to_nat (tail r2 - head r2))%nat by (unfold zlen; lia).
    apply bytes_at_before; [lia | lia | done].
Qed.
End Operations.

(** An empty window may be moved. *)
Lemma reset_empty r : ring_ok r -> ring_ok (resetWindow r) /\ contents (resetWindow r) = [].
Proof.
  intros (Hc & Hm & _). unfold resetWindow, ring_ok, contents. cbn. rewrite Z.div_mul, Z.sub_diag by lia.
  split; [| done]. split_and!; try done; lia.
Qed.

Lemma bytes_at_drop cap m pos n k : (k <= n)%nat ->
  drop k (bytes_at cap m pos n) = bytes_at cap m (pos + Z.of_nat k) (n - k).
Proof.
  intros Hk. replace n with (k + (n - k))%nat at 1 by lia. rewrite bytes_at_app.
  rewrite drop_app_ge; rewrite bytes_at_length; [| lia]. by rewrite Nat.sub_diag.
Qed.

Lemma bytes_at_take cap m pos n k : (k <= n)%nat -> take k (bytes_at cap m pos n) = bytes_at cap m pos k.
Proof.
  intros Hk. replace n with (k + (n - k))%nat by lia. rewrite bytes_at_app.
  rewrite take_app_le by (rewrite bytes_at_length; lia). apply take_ge. by rewrite bytes_at_length.
Qed.

Lemma popFront_ok n r : ring_ok r -> 0 <= n -> ring_ok (popFront n r) /\ contents (popFront n r) = drop (Z.to_nat n) (contents r).
Proof.
  intros Hr Hn. unfold popFront. rewrite (ring_size r Hr). set (c := if n <? _ then n else _).
  pose proof Hr as (Hc & Hm & Hh & Ht & Hs). assert (Hcc : 0 <= c <= tail r - head r) by (unfold c; case_test; lia).
  set (r' := mkRing _ _ (head r + c) _). assert (Hr' : ring_ok r') by (unfold ring_ok, r'; cbn; lia).
  assert (E : contents r' = drop (Z.to_nat n) (contents r)).
  { unfold contents, r'. cbn. unfold c. case_test.
    - rewrite bytes_at_drop by lia. f_equal; lia.
    - rewrite drop_ge by (rewrite bytes_at_length; lia). by replace (Z.to_nat _) with 0%nat by lia. }
  destruct (empty r') eqn:Ee; [| done]. destruct (reset_empty r' Hr') as [Ho ->]. split; [done |]. rewrite <- E.
  unfold contents. unfold empty in Ee. by replace (Z.to_nat _) with 0%nat by lia.
Qed.

Lemma popBack_ok n r : ring_ok r -> 0 <= n ->
  ring_ok (popBack n r) /\ contents (popBack n r) = take (length (contents r) - Z.to_nat n) (contents r).
Proof.
  intros Hr Hn. unfold popBack. rewrite (ring_size r Hr). set (c := if n <? _ then n else _).
  pose proof Hr as (Hc & Hm & Hh & Ht & Hs). assert (Hcc : 0 <= c <= tail r - head r) by (unfold c; case_test; lia).
  set (r' := mkRing _ _ _ (tail r - c)). assert (Hr' : ring_ok r') by (unfold ring_ok, r'; cbn; lia).
  assert (E : contents r' = take (length (contents r) - Z.to_nat n) (contents r)).
  { rewrite contents_length. unfold contents, r'. cbn. unfold c. rewrite bytes_at_take by lia. f_equal. case_test; lia. }
  destruct (empty r') eqn:Ee; [| done]. destruct (reset_empty r' Hr') as [Ho ->]. split; [done |]. rewrite <- E.
  unfold contents. unfold empty in Ee. by replace (Z.to_nat _) with 0%nat by lia.
Qed.

(** The bytes that a sequence of operations pushes; the counts are [size_t]. *)
Definition pushed (ops : list op) : Z :=
  foldr (fun o n => match o with PushBack l | PushFront l => zlen l | _ => 0 end + n) 0 ops.

Definition op_ok (o : op) : Prop := match o with PopFront n | PopBack n => 0 <= n | _ => True end.

Lemma pushed_nonneg ops : 0 <= pushed ops.
Proof.
  unfold pushed. induction ops as [| [l | l | n | n |] ops IH]; cbn [foldr]; try (pose proof (zlen_nonneg l)); lia.
Qed.

Lemma front_hd r : ring_ok r -> front r = hd 0 (contents r).
Proof.
  intros (_ & _ & Hh & _). unfold front, empty, contents. destruct (Z.eqb_spec (head r) (tail r)).
  - by replace (Z.to_nat _) with 0%nat by lia.
  - by destruct (Z.to_nat _) as [| k] eqn:E; [lia |].
Qed.

Lemma back_last r : ring_ok r -> back r = List.last (contents r) 0.
Proof.
  intros (_ & _ & Hh & _). unfold back, empty, contents. destruct (Z.eqb_spec (head r) (tail r)).
  - by replace (Z.to_nat _) with 0%nat by lia.
  - replace (Z.to_nat (tail r - head r)) with (Z.to_nat (tail r - head r - 1) + 1)%nat by lia. rewrite bytes_at_app.
    cbn [bytes_at]. rewrite last_last. by replace (head r + Z.of_nat _) with (tail r - 1) by lia.
Qed.

Section Refinement.
Context (page : Z) (mapOk : Z -> bool).
Hypothesis Hpage : 0 < page <= 2 ^ 32.
Hypothesis Hmap : forall c, c <= 2 ^ 50 -> mapOk c = true.

(** One operation: the ring follows the deque. *)
Lemma step_refines o r l : ring_ok r -> contents r = l -> op_ok o -> zlen l + pushed [o] <= limit ->
  exists r', step page mapOk o r = Ret r' /\ ring_ok r' /\ contents r' = deque_step o l
    /\ zlen (deque_step o l) <= zlen l + pushed [o].
Proof.
  intros Hr <- Ho Hl. unfold pushed in *. destruct o as [data | data | n | n |]; cbn [foldr step deque_step op_ok] in *.
  - destruct (pushBack_ok page mapOk Hpage Hmap data r Hr ltac:(lia)) as (r' & E & H1 & H2). exists r'. rewrite zlen_app. split_and!; try done. lia.
  - destruct (pushFront_ok page mapOk Hpage Hmap data r Hr ltac:(lia)) as (r' & E & H1 & H2). exists r'. rewrite zlen_app. split_and!; try done. lia.
  - destruct (popFront_ok n r Hr Ho) as [H1 H2]. eexists. split_and!; try done. unfold zlen. rewrite length_drop. lia.
  - destruct (popBack_ok n r Hr Ho) as [H1 H2]. eexists. split_and!; try done. unfold zlen. rewrite length_take. lia.
  - destruct (reset_empty r Hr) as [H1 H2]. eexists. split_and!; try done. unfold zlen. cbn. lia.
Qed.

Lemma run_refines ops r l : ring_ok r -> contents r = l -> Forall op_ok ops -> zlen l + pushed ops <= limit ->
  exists r', run page mapOk ops r = Ret r' /\ ring_ok r' /\ contents r' = deque_run ops l.
Proof.
  intros Hr Hc Ho. revert r l Hr Hc. induction Ho as [| o ops Ho _ IH]; intros r l Hr Hc Hl; [by exists r |].
  pose proof (pushed_nonneg ops). change (pushed (o :: ops)) with (match o with PushBack l | PushFront l => zlen l | _ => 0 end + pushed ops) in Hl.
  destruct (step_refines o r l Hr Hc Ho) as (r1 & E1 & H1 & C1 & L1); [unfold pushed; cbn; lia |].
  destruct (IH r1 (deque_step o l) H1 C1) as (r2 & E2 & H2 & C2); [unfold pushed in L1; cbn [foldr] in L1; lia |].
  exists r2. cbn [run]. rewrite E1. cbn [mbind result_bind]. done.
Qed.
End Refinement.

(** C11: While mappings can be made, every sequence of pushes and pops at both ends keeps
    the double-mapped ring buffer a deque of bytes: data() shows its contents as one
    contiguous region, and size, front and back are those of the deque. *)
Theorem ring_refines_deque page mapOk cap ops :
  0 < page <= 2 ^ 32 -> (forall c, c <= 2 ^ 50 -> mapOk c = true) -> 0 <= cap <= limit ->
  Forall op_ok ops -> pushed ops <= limit ->
  exists r, (r0 ← create page mapOk cap; run page mapOk ops r0) = Ret r
    /\ load r r.(head) (size r) = Ret (deque_run ops []) /\ size r = zlen (deque_run ops [])
    /\ front r = hd 0 (deque_run ops []) /\ back r = List.last (deque_run ops []) 0.
Proof.
  intros Hp Hm Hc Ho Hl. destruct (create_ok page mapOk Hp Hm cap Hc) as (r0 & E0 & H0 & C0). rewrite E0. cbn [mbind result_bind].
  destruct (run_refines page mapOk Hp Hm ops r0 [] H0 C0 Ho) as (r & E & Hr & Cr); [done |]. exists r. split; [done |].
  rewrite (load_window r Hr), (front_hd r Hr), (back_last r Hr), Cr. split; [done |].
  rewrite (ring_size r Hr), <- (contents_size r Hr), Cr. done.
Qed.

Lemma ring_refines_deque_witness :
  let ops := [PushBack [1; 2; 3]; PushFront [9]; PopFront 2; PushBack [4; 5; 6; 7]; PopBack 1] in
  exists r, (r0 ← create 4 (fun _ => true) 0; run 4 (fun _ => true) ops r0) = Ret r
    /\ load r r.(head) (size r) = Ret (deque_run ops []) /\ size r = zlen (deque_run ops [])
    /\ front r = hd 0 (deque_run ops []) /\ back r = List.last (deque_run ops []) 0.
Proof.
  intros ops. refine (ring_refines_deque 4 (fun _ => true) 0 ops _ _ _ _ _).
  - lia.
  - done.
  - unfold limit. lia.
  - repeat constructor; cbn; lia.
  - vm_compute. discriminate.
Defined.

(** ** When the system has no memory for a larger mapping *)

Lemma reserve_failed page r : 0 < page <= 2 ^ 32 -> ring_ok r -> r.(capacity) < 2 ^ 48 ->
  reserve page (fun _ => false) (r.(capacity) + 1) r = Ret r.
Proof.
  intros Hp Hr Hb. pose proof Hr as (Hc & _). unfold reserve. test_false. replace (negb (capacity r =? 0)) with true by lia.
  destruct (growLoop_ends 64 r.(capacity) (r.(capacity) + 1)) as (c & Ec & H1 & H2 & H3); [lia | lia | lia | change (2 ^ Z.of_nat 64) with (2 ^ 64); lia |].
  rewrite Ec. cbn [mbind result_bind negb]. by case_test.
Qed.

(** One byte behind a full window overwrites the byte at its head. *)
Lemma full_wraps r b : ring_ok r -> r.(tail) = r.(head) + r.(capacity) ->
  bytes_at r.(capacity) (store_at r.(capacity) r.(phys) r.(tail) [b]) r.(head) (Z.to_nat (r.(capacity) + 1))
  = b :: tl (contents r) ++ [b].
Proof.
  intros (Hc & Hm & Hh & Ht & Hs) Hf. set (cap := capacity r) in *. cbn [store_at].
  assert (Ea : slot cap (tail r) = slot cap (head r)).
  { unfold slot. rewrite Hf. f_equal. rewrite <- (Z.mul_1_l cap) at 1. apply Z_mod_plus_full. }
  rewrite Ea. replace (Z.to_nat (cap + 1)) with (1 + (Z.to_nat (cap - 1) + 1))%nat by lia. rewrite bytes_at_app, bytes_at_app.
  assert (Hi : <[slot cap (head r):=b]> (phys r) !! slot cap (head r) = Some b).
  { apply list_lookup_insert_eq. rewrite Hm. apply slot_lt. lia. }
  cbn [bytes_at]. replace (head r + Z.of_nat 1 + Z.of_nat (Z.to_nat (cap - 1))) with (tail r) by lia.
  rewrite Ea, Hi. cbn [from_option id app]. do 2 f_equal.
  change (<[slot cap (head r):=b]> (phys r)) with (store_at cap (phys r) (head r) [b]).
  rewrite bytes_at_other by (try lia; intros i j Hi' Hj Hal; change (zlen [b]) with 1 in Hi'; apply alias_near in Hal; lia).
  unfold contents. fold cap. replace (Z.to_nat (tail r - head r)) with (1 + Z.to_nat (cap - 1))%nat by lia.
  rewrite bytes_at_app. done.
Qed.

(** When a full ring buffer cannot get a larger mapping, push_back reports nothing:
    it writes through the alias over the oldest byte and announces one byte more than the
    capacity. *)
Theorem ring_failed_growth_overwrites page r b :
  0 < page <= 2 ^ 32 -> ring_ok r -> 2 <= r.(capacity) < 2 ^ 48 -> size r = r.(capacity) ->
  exists r', pushBack page (fun _ => false) [b] r = Ret r' /\ size r' = r.(capacity) + 1
    /\ contents r' = b :: tl (contents r) ++ [b].
Proof.
  intros Hp Hr Hc Hs. unfold pushBack. change (zlen [b]) with 1. rewrite Hs.
  replace (u64 (capacity r + 1)) with (capacity r + 1) by (unfold wrapu; rewrite Z.mod_small; lia).
  cbn [Z.eqb]. rewrite (reserve_failed page r Hp Hr) by lia. cbn [mbind result_bind]. rewrite (ring_size r Hr) in Hs.
  assert (H2 : exists r2, (if r.(tail) + 1 >? r.(capacity) * 2 then center r else Ret r) = Ret r2
    /\ same_bytes r r2 /\ r2.(capacity) = r.(capacity) /\ r2.(tail) + 1 <= 2 * r.(capacity)).
  { case_test; [| exists r; split; [done |]; split; [done |]; lia].
    destruct (center_same r Hr) as (r2 & Ec & HS & HC & _). exists r2. do 3 (split; [done |]).
    revert Ec. unfold center. rewrite (ring_size r Hr), Hs. destruct (if _ : bool then _ else _); try done.
    cbn [mbind result_bind]. intros [= <-]. cbn. pose proof (Z.div_mod (capacity r * 2 - capacity r) 2).
    pose proof (Z.mod_pos_bound (capacity r * 2 - capacity r) 2). lia. }
  destruct H2 as (r2 & -> & HS & K & T). cbn [mbind result_bind]. pose proof (same_size r r2 Hr HS) as S2. destruct HS as [H2 C2].
  pose proof H2 as (_ & _ & Hh & _). unfold store. change (zlen [b]) with 1. rewrite K. test_true. cbn [mbind result_bind].
  eexists. split; [done |]. split; [unfold size, wrapu; cbn; rewrite Z.mod_small; lia |].
  rewrite <- C2. unfold contents at 1. cbn [capacity phys head tail].
  replace (Z.to_nat (tail r2 + 1 - head r2)) with (Z.to_nat (capacity r + 1)) by lia.
  rewrite <- K. apply full_wraps; [done | lia].
Qed.

Definition toy_ring : Ring := mkRing 4 [1; 2; 3; 4] 4 8.

Lemma ring_failed_growth_overwrites_witness :
  exists r', pushBack 4 (fun _ => false) [7] toy_ring = Ret r' /\ size r' = 4 + 1
    /\ contents r' = 7 :: tl (contents toy_ring) ++ [7].
Proof.
  refine (ring_failed_growth_overwrites 4 toy_ring 7 _ _ _ _); [lia | | cbn; lia | done].
  unfold ring_ok. cbn. lia.
Defined.
