(* ===== verification/Hpack.v ===== *)
(** * HPACK ([src/src/hpack.cpp], [src/include/qtng/private/hpack_p.h])

    Integers and strings of the header compression of HTTP/2, its Huffman code,
    the dynamic table, [HpackEncoder] and [HpackDecoder].  The two classes have
    the same members and the same functions on them: both are [Table] here. *)

From S2P Require Import Prelude Codec.

(** ** The tables

    The static table of header fields and the Huffman code, as the source lists
    them. *)

Section Tables.
#[local] Open Scope string_scope.

(** [StaticEntry]: name and value, as C strings. *)
Definition kStaticTable : list (list Z * list Z) := map (fun e => (str e.1, str e.2)) [
  (":authority", String.EmptyString);
  (":method", "GET");
  (":method", "POST");
  (":path", "/");
  (":path", "/index.html");
  (":scheme", "http");
  (":scheme", "https");
  (":status", "200");
  (":status", "204");
  (":status", "206");
  (":status", "304");
  (":status", "400");
  (":status", "404");
  (":status", "500");
  ("accept-charset", String.EmptyString);
  ("accept-encoding", "gzip, deflate");
  ("accept-language", String.EmptyString);
  ("accept-ranges", String.EmptyString);
  ("accept", String.EmptyString);
  ("access-control-allow-origin", String.EmptyString);
  ("age", String.EmptyString);
  ("allow", String.EmptyString);
  ("authorization", String.EmptyString);
  ("cache-control", String.EmptyString);
  ("content-disposition", String.EmptyString);
  ("content-encoding", String.EmptyString);
  ("content-language", String.EmptyString);
  ("content-length", String.EmptyString);
  ("content-location", String.EmptyString);
  ("content-range", String.EmptyString);
  ("content-type", String.EmptyString);
  ("cookie", String.EmptyString);
  ("date", String.EmptyString);
  ("etag", String.EmptyString);
  ("expect", String.EmptyString);
  ("expires", String.EmptyString);
  ("from", String.EmptyString);
  ("host", String.EmptyString);
  ("if-match", String.EmptyString);
  ("if-modified-since", String.EmptyString);
  ("if-none-match", String.EmptyString);
  ("if-range", String.EmptyString);
  ("if-unmodified-since", String.EmptyString);
  ("last-modified", String.EmptyString);
  ("link", String.EmptyString);
  ("location", String.EmptyString);
  ("max-forwards", String.EmptyString);
  ("proxy-authenticate", String.EmptyString);
  ("proxy-authorization", String.EmptyString);
  ("range", String.EmptyString);
  ("referer", String.EmptyString);
  ("refresh", String.EmptyString);
  ("retry-after", String.EmptyString);
  ("server", String.EmptyString);
  ("set-cookie", String.EmptyString);
  ("strict-transport-security", String.EmptyString);
  ("transfer-encoding", String.EmptyString);
  ("user-agent", String.EmptyString);
  ("vary", String.EmptyString);
  ("via", String.EmptyString);
  ("www-authenticate", String.EmptyString)].

Definition kStaticTableSize : Z := zlen kStaticTable.

(** [HuffmanCode]: the code of a symbol and its number of bits. *)
Definition kHuffmanTable : list (Z * Z) := [
  (0x1ff8, 13); (0x7fffd8, 23); (0xfffffe2, 28); (0xfffffe3, 28); (0xfffffe4, 28);
  (0xfffffe5, 28); (0xfffffe6, 28); (0xfffffe7, 28); (0xfffffe8, 28); (0xffffea, 24);
  (0x3ffffffc, 30); (0xfffffe9, 28); (0xfffffea, 28); (0x3ffffffd, 30); (0xfffffeb, 28);
  (0xfffffec, 28); (0xfffffed, 28); (0xfffffee, 28); (0xfffffef, 28); (0xffffff0, 28);
  (0xffffff1, 28); (0xffffff2, 28); (0x3ffffffe, 30); (0xffffff3, 28); (0xffffff4, 28);
  (0xffffff5, 28); (0xffffff6, 28); (0xffffff7, 28); (0xffffff8, 28); (0xffffff9, 28);
  (0xffffffa, 28); (0xffffffb, 28); (0x14, 6); (0x3f8, 10); (0x3f9, 10); (0xffa, 12);
  (0x1ff9, 13); (0x15, 6); (0xf8, 8); (0x7fa, 11); (0x3fa, 10); (0x3fb, 10); (0xf9, 8);
  (0x7fb, 11); (0xfa, 8); (0x16, 6); (0x17, 6); (0x18, 6); (0x0, 5); (0x1, 5); (0x2, 5);
  (0x19, 6); (0x1a, 6); (0x1b, 6); (0x1c, 6); (0x1d, 6); (0x1e, 6); (0x1f, 6); (0x5c, 7);
  (0xfb, 8); (0x7ffc, 15); (0x20, 6); (0xffb, 12); (0x3fc, 10); (0x1ffa, 13); (0x21, 6);
  (0x5d, 7); (0x5e, 7); (0x5f, 7); (0x60, 7); (0x61, 7); (0x62, 7); (0x63, 7); (0x64, 7);
  (0x65, 7); (0x66, 7); (0x67, 7); (0x68, 7); (0x69, 7); (0x6a, 7); (0x6b, 7); (0x6c, 7);
  (0x6d, 7); (0x6e, 7); (0x6f, 7); (0x70, 7); (0x71, 7); (0x72, 7); (0xfc, 8); (0x73, 7);
  (0xfd, 8); (0x1ffb, 13); (0x7fff0, 19); (0x1ffc, 13); (0x3ffc, 14); (0x22, 6);
  (0x7ffd, 15); (0x3, 5); (0x23, 6); (0x4, 5); (0x24, 6); (0x5, 5); (0x25, 6); (0x26, 6);
  (0x27, 6); (0x6, 5); (0x74, 7); (0x75, 7); (0x28, 6); (0x29, 6); (0x2a, 6); (0x7, 5);
  (0x2b, 6); (0x76, 7); (0x2c, 6); (0x8, 5); (0x9, 5); (0x2d, 6); (0x77, 7); (0x78, 7);
  (0x79, 7); (0x7a, 7); (0x7b, 7); (0x7ffe, 15); (0x7fc, 11); (0x3ffd, 14); (0x1ffd, 13);
  (0xffffffc, 28); (0xfffe6, 20); (0x3fffd2, 22); (0xfffe7, 20); (0xfffe8, 20);
  (0x3fffd3, 22); (0x3fffd4, 22); (0x3fffd5, 22); (0x7fffd9, 23); (0x3fffd6, 22);
  (0x7fffda, 23); (0x7fffdb, 23); (0x7fffdc, 23); (0x7fffdd, 23); (0x7fffde, 23);
  (0xffffeb, 24); (0x7fffdf, 23); (0xffffec, 24); (0xffffed, 24); (0x3fffd7, 22);
  (0x7fffe0, 23); (0xffffee, 24); (0x7fffe1, 23); (0x7fffe2, 23); (0x7fffe3, 23);
  (0x7fffe4, 23); (0x1fffdc, 21); (0x3fffd8, 22); (0x7fffe5, 23); (0x3fffd9, 22);
  (0x7fffe6, 23); (0x7fffe7, 23); (0xffffef, 24); (0x3fffda, 22); (0x1fffdd, 21);
  (0xfffe9, 20); (0x3fffdb, 22); (0x3fffdc, 22); (0x7fffe8, 23); (0x7fffe9, 23);
  (0x1fffde, 21); (0x7fffea, 23); (0x3fffdd, 22); (0x3fffde, 22); (0xfffff0, 24);
  (0x1fffdf, 21); (0x3fffdf, 22); (0x7fffeb, 23); (0x7fffec, 23); (0x1fffe0, 21);
  (0x1fffe1, 21); (0x3fffe0, 22); (0x1fffe2, 21); (0x7fffed, 23); (0x3fffe1, 22);
  (0x7fffee, 23); (0x7fffef, 23); (0xfffea, 20); (0x3fffe2, 22); (0x3fffe3, 22);
  (0x3fffe4, 22); (0x7ffff0, 23); (0x3fffe5, 22); (0x3fffe6, 22); (0x7ffff1, 23);
  (0x3ffffe0, 26); (0x3ffffe1, 26); (0xfffeb, 20); (0x7fff1, 19); (0x3fffe7, 22);
  (0x7ffff2, 23); (0x3fffe8, 22); (0x1ffffec, 25); (0x3ffffe2, 26); (0x3ffffe3, 26);
  (0x3ffffe4, 26); (0x7ffffde, 27); (0x7ffffdf, 27); (0x3ffffe5, 26); (0xfffff1, 24);
  (0x1ffffed, 25); (0x7fff2, 19); (0x1fffe3, 21); (0x3ffffe6, 26); (0x7ffffe0, 27);
  (0x7ffffe1, 27); (0x3ffffe7, 26); (0x7ffffe2, 27); (0xfffff2, 24); (0x1fffe4, 21);
  (0x1fffe5, 21); (0x3ffffe8, 26); (0x3ffffe9, 26); (0xffffffd, 28); (0x7ffffe3, 27);
  (0x7ffffe4, 27); (0x7ffffe5, 27); (0xfffec, 20); (0xfffff3, 24); (0xfffed, 20);
  (0x1fffe6, 21); (0x3fffe9, 22); (0x1fffe7, 21); (0x1fffe8, 21); (0x7ffff3, 23);
  (0x3fffea, 22); (0x3fffeb, 22); (0x1ffffee, 25); (0x1ffffef, 25); (0xfffff4, 24);
  (0xfffff5, 24); (0x3ffffea, 26); (0x7ffff4, 23); (0x3ffffeb, 26); (0x7ffffe6, 27);
  (0x3ffffec, 26); (0x3ffffed, 26); (0x7ffffe7, 27); (0x7ffffe8, 27); (0x7ffffe9, 27);
  (0x7ffffea, 27); (0x7ffffeb, 27); (0xffffffe, 28); (0x7ffffec, 27); (0x7ffffed, 27);
  (0x7ffffee, 27); (0x7ffffef, 27); (0x7fffff0, 27); (0x3ffffee, 26); (0x3fffffff, 30)].
End Tables.

(** ** Integers *)

(** The loop of [encodeInteger] and the last byte; a [uint32_t] needs at most
    four rounds, so the loop is over when [rounds] is. *)
Fixpoint integerTail (rounds : nat) (value : Z) : list Z :=
  match rounds with
  | O => [u8 value]
  | S rounds' =>
      if value >=? 128 then u8 (Z.lor (Z.land value 127) 128) :: integerTail rounds' (Z.shiftr value 7)
      else [u8 value]
  end.

Definition encodeInteger (out : list Z) (value prefixBits firstByte : Z) : list Z :=
  let maxPrefix := Z.shiftl 1 prefixBits - 1 in
  if value <? maxPrefix then out ++ [u8 (Z.lor firstByte value)]
  else out ++ u8 (Z.lor firstByte maxPrefix) :: integerTail 4 (value - maxPrefix).

(** The loop of [decodeInteger].  The shift is one of [int]: it is undefined when
    the result does not fit in 32 bits. *)
Fixpoint integerLoop (fuel : nat) (v m : Z) : parser Z :=
  match fuel with
  | O => fun _ _ => OutOfFuel
  | S fuel' =>
      _ ← check (fun size pos => pos <? size);
      b ← next_byte;
      let term := Z.shiftl (Z.land b 127) m in
      if term >? UINT32_MAX then (fun _ _ => Fault) : parser Z else
      let v := u32 (v + term) in
      let m := m + 7 in
      if Z.land b 128 =? 0 then mret v
      else if m >? 28 then reject
      else integerLoop fuel' v m
  end.

Definition decodeInteger (prefixBits : Z) : parser Z :=
  _ ← check (fun size pos => negb (pos >=? size));
  let maxPrefix := Z.shiftl 1 prefixBits - 1 in
  b ← next_byte;
  let v := Z.land b maxPrefix in
  if v <? maxPrefix then mret v else integerLoop 5 v 0.

(** ** The Huffman code *)

(** [while (bits >= 8)]: a code has at most 30 bits, so four rounds empty the
    buffer. *)
Fixpoint flushBits (rounds : nat) (buffer bits : Z) (out : list Z) : Z * list Z :=
  match rounds with
  | O => (bits, out)
  | S rounds' =>
      if bits >=? 8 then
        let bits := bits - 8 in
        flushBits rounds' buffer bits (out ++ [Z.land (Z.shiftr buffer bits) 255])
      else (bits, out)
  end.

(** [kHuffmanTable[ch]] *)
Definition huffmanCode (ch : Z) : Z * Z := default (0, 0) (kHuffmanTable !! Z.to_nat ch).

Fixpoint huffmanLoop (input : list Z) (buffer bits : Z) (out : list Z) : list Z :=
  match input with
  | ch :: input' =>
      let '(code, n) := huffmanCode ch in
      let buffer := Z.lor (u64 (Z.shiftl buffer n)) code in
      let '(bits, out) := flushBits 4 buffer (bits + n) out in
      huffmanLoop input' buffer bits out
  | [] =>
      if bits >? 0 then
        let buffer := Z.lor (u64 (Z.shiftl buffer (8 - bits))) (Z.shiftr 255 bits) in
        out ++ [Z.land buffer 255]
      else out
  end.

Definition huffmanEncode (input : list Z) : list Z := huffmanLoop input 0 0 [].

Record HuffmanNode : Type := mkNode { symbol : Z; left : Z; right : Z }.

(** [nodes[idx]] *)
Definition nodeAt (nodes : list HuffmanNode) (idx : Z) : result HuffmanNode :=
  if idx <? 0 then Fault else
  match nodes !! Z.to_nat idx with
  | Some n => Ret n
  | None => Fault
  end.

Definition child (n : HuffmanNode) (bit : bool) : Z := if bit then n.(right) else n.(left).

Definition setChild (n : HuffmanNode) (bit : bool) (c : Z) : HuffmanNode :=
  if bit then mkNode n.(symbol) n.(left) c else mkNode n.(symbol) c n.(right).

(** The loop over the bits of a code, from bit [i - 1] down. *)
Fixpoint insertBits (i : nat) (code idx : Z) (nodes : list HuffmanNode) :
    result (Z * list HuffmanNode) :=
  match i with
  | O => Ret (idx, nodes)
  | S i' =>
      let bit := Z.testbit code (Z.of_nat i') in
      n ← nodeAt nodes idx;
      let c := child n bit in
      if c <? 0 then
        let c := zlen nodes in
        let nodes := nodes ++ [mkNode (-1) (-1) (-1)] in
        insertBits i' code c (<[Z.to_nat idx := setChild n bit c]> nodes)
      else insertBits i' code c nodes
  end.

Fixpoint insertCodes (codes : list (Z * Z)) (sym : Z) (nodes : list HuffmanNode) :
    result (list HuffmanNode) :=
  match codes with
  | [] => Ret nodes
  | (code, bitLen) :: codes' =>
      r ← insertBits (Z.to_nat bitLen) code 0 nodes;
      let '(idx, nodes) := r in
      n ← nodeAt nodes idx;
      insertCodes codes' (sym + 1) (<[Z.to_nat idx := mkNode sym n.(left) n.(right)]> nodes)
  end.

Definition buildHuffmanTree : result (list HuffmanNode) :=
  insertCodes kHuffmanTable 0 [mkNode (-1) (-1) (-1)].

(** The tree is built once. *)
Definition huffmanTree : list HuffmanNode :=
  Eval vm_compute in match buildHuffmanTree with Ret nodes => nodes | _ => [] end.

(** The loop over the bits of a byte: [inl out] when the code of the end of the
    string returns from the function. *)
Fixpoint huffmanByte (i : nat) (byte idx : Z) (out : list Z) : result (list Z + Z * list Z) :=
  match i with
  | O => Ret (inr (idx, out))
  | S i' =>
      let bit := Z.testbit byte (Z.of_nat i') in
      n ← nodeAt huffmanTree idx;
      let idx := child n bit in
      if idx <? 0 then Reject else
      n ← nodeAt huffmanTree idx;
      if n.(symbol) >=? 0 then
        if n.(symbol) =? 256 then Ret (inl out)
        else huffmanByte i' byte 0 (out ++ [u8 n.(symbol)])
      else huffmanByte i' byte idx out
  end.

Fixpoint huffmanBytes (input : list Z) (idx : Z) (out : list Z) : result (list Z) :=
  match input with
  | [] =>
      n ← nodeAt huffmanTree idx;
      if (idx =? 0) || (n.(symbol) =? 256) then Ret out else Reject
  | byte :: input' =>
      r ← huffmanByte 8 byte idx out;
      match r with
      | inl out => Ret out
      | inr (idx, out) => huffmanBytes input' idx out
      end
  end.

Definition huffmanDecode (input : list Z) : result (list Z) := huffmanBytes input 0 [].

(** ** Strings *)

(** A function that fails or returns a value, between reads. *)
Definition lift {A} (r : result A) : parser A := fun _ pos => a ← r; Ret (a, pos).

Definition decodeString : parser (list Z) :=
  _ ← check (fun size pos => negb (pos >=? size));
  huffman ← (fun data pos => b ← fetch data pos; Ret (negb (Z.land b 128 =? 0), pos));
  length ← decodeInteger 7;
  _ ← check (fun size pos => negb (u64 (pos + length) >? size));
  raw ← next_bytes length;
  if huffman : bool then lift (huffmanDecode raw) else mret raw.

Definition encodeString (out value : list Z) (useHuffman : bool) : list Z :=
  if useHuffman then
    let encoded := huffmanEncode value in
    encodeInteger out (u32 (zlen encoded)) 7 128 ++ encoded
  else encodeInteger out (u32 (zlen value)) 7 0 ++ value.

(** ** Header fields and the two tables *)

Record HpackHeader : Type := mkHeader { name : list Z; value : list Z }.

#[export] Instance HpackHeader_eq_dec : EqDecision HpackHeader.
Proof. solve_decision. Defined.

Record Table : Type := mkTable {
  dynamicTable : list HpackHeader;
  maxDynamicTableSize : Z;
  dynamicTableSize : Z
}.

(** The constructors of [HpackEncoder] and [HpackDecoder]. *)
Definition newTable : Table := mkTable [] 4096 0.

Definition entrySize (h : HpackHeader) : Z := u32 (zlen h.(name) + zlen h.(value) + 32).

(** [strcmp] stops at the first zero byte. *)
Fixpoint c_str (s : list Z) : list Z :=
  match s with
  | [] => []
  | b :: s' => if b =? 0 then [] else b :: c_str s'
  end.

Definition strcmp_eq (a b : list Z) : bool := bool_decide (c_str a = c_str b).

(** [nameIndex]: the first entry with the name. *)
Definition firstIndex (sameName : bool) (i nameIndex : Z) : Z :=
  if sameName && (nameIndex <? 0) then i + 1 else nameIndex.

(** The loop of [findStaticIndex]: the index and [nameOnly]. *)
Fixpoint findLoop (table : list (list Z * list Z)) (i nameIndex : Z) (h : HpackHeader) : Z * bool :=
  match table with
  | [] => if nameIndex >? 0 then (nameIndex, true) else (-1, false)
  | e :: table' =>
      let sameName := strcmp_eq e.1 h.(name) in
      if sameName && strcmp_eq e.2 h.(value) then (i + 1, false)
      else findLoop table' (i + 1) (firstIndex sameName i nameIndex) h
  end.

Definition findStaticIndex (h : HpackHeader) : Z * bool := findLoop kStaticTable 0 (-1) h.

(** [evict]: the loop ends at the latest when the table is empty. *)
Fixpoint evictLoop (rounds : nat) (t : Table) : Table :=
  match rounds with
  | O => t
  | S rounds' =>
      if t.(dynamicTableSize) >? t.(maxDynamicTableSize) then
        match t.(dynamicTable) !! (length t.(dynamicTable) - 1)%nat with
        | Some h =>
            evictLoop rounds' (mkTable (take (length t.(dynamicTable) - 1) t.(dynamicTable))
                                 t.(maxDynamicTableSize) (u32 (t.(dynamicTableSize) - entrySize h)))
        | None => t
        end
      else t
  end.

Definition evict (t : Table) : Table := evictLoop (length t.(dynamicTable)) t.

Definition setMaxDynamicTableSize (size : Z) (t : Table) : Table :=
  evict (mkTable t.(dynamicTable) size t.(dynamicTableSize)).

Definition addToDynamicTable (h : HpackHeader) (t : Table) : Table :=
  let size := entrySize h in
  if size >? t.(maxDynamicTableSize) then mkTable [] t.(maxDynamicTableSize) 0
  else evict (mkTable (h :: t.(dynamicTable)) t.(maxDynamicTableSize) (u32 (t.(dynamicTableSize) + size))).

(** ** The encoder *)

(** One header of [HpackEncoder::encode]. *)
Definition encodeHeader (h : HpackHeader) (out : list Z) (t : Table) : list Z * Table :=
  let '(staticIndex, nameOnly) := findStaticIndex h in
  if (staticIndex >? 0) && negb nameOnly then (encodeInteger out staticIndex 7 128, t)
  else
    let out := if (staticIndex >? 0) && nameOnly then encodeInteger out staticIndex 6 64
               else encodeString (out ++ [64]) h.(name) false in
    (encodeString out h.(value) false, addToDynamicTable h t).

Fixpoint encodeLoop (headers : list HpackHeader) (out : list Z) (t : Table) : list Z * Table :=
  match headers with
  | [] => (out, t)
  | h :: headers' => let '(out, t) := encodeHeader h out t in encodeLoop headers' out t
  end.

Definition encode (headers : list HpackHeader) (t : Table) : list Z * Table := encodeLoop headers [] t.

(** ** The decoder *)

Definition lookup (index : Z) (t : Table) : option HpackHeader :=
  if index =? 0 then None
  else if index <=? kStaticTableSize then
    e ← kStaticTable !! Z.to_nat (index - 1); Some (mkHeader e.1 e.2)
  else
    let dynIndex := u32 (index - kStaticTableSize - 1) in
    if dynIndex >=? zlen t.(dynamicTable) then None else t.(dynamicTable) !! Z.to_nat dynIndex.

Definition lookupIn (index : Z) (t : Table) : parser HpackHeader :=
  match lookup index t with
  | Some h => mret h
  | None => reject
  end.

(** A literal field: the name by index or as a string, then the value. *)
Definition decodeLiteral (prefixBits : Z) (t : Table) : parser HpackHeader :=
  index ← decodeInteger prefixBits;
  n ← (if index =? 0 then decodeString else h ← lookupIn index t; mret h.(name));
  v ← decodeString;
  mret (mkHeader n v).

(** [if (!f(data, &pos, ...)) return false;] with what the caller then sees. *)
Definition attempt {A B} (failed : B) (r : result A) (k : A -> result B) : result B :=
  match r with
  | Ret a => k a
  | Reject => Ret failed
  | Fault => Fault
  | OutOfFuel => OutOfFuel
  end.

(** [HpackDecoder::decode]: the result, [*headers] and the table. *)
Fixpoint decodeLoop (fuel : nat) (data : list Z) (pos : Z) (headers : list HpackHeader) (t : Table) :
    result (bool * list HpackHeader * Table) :=
  match fuel with
  | O => OutOfFuel
  | S fuel' =>
      if negb (pos <? zlen data) then Ret (true, headers, t) else
      b ← fetch data pos;
      if negb (Z.land b 128 =? 0) then
        attempt (false, [], t) ((index ← decodeInteger 7; lookupIn index t) data pos)
          (fun '(h, pos) => decodeLoop fuel' data pos (headers ++ [h]) t)
      else if Z.land b 192 =? 64 then
        attempt (false, headers, t) (decodeLiteral 6 t data pos)
          (fun '(h, pos) => decodeLoop fuel' data pos (headers ++ [h]) (addToDynamicTable h t))
      else if Z.land b 224 =? 32 then
        attempt (false, headers, t) (decodeInteger 5 data pos)
          (fun '(size, pos) => decodeLoop fuel' data pos headers (setMaxDynamicTableSize size t))
      else
        attempt (false, headers, t) (decodeLiteral 4 t data pos)
          (fun '(h, pos) => decodeLoop fuel' data pos (headers ++ [h]) t)
  end.

Definition decode (data : list Z) (t : Table) : result (bool * list HpackHeader * Table) :=
  decodeLoop (length data + 1) data 0 [] t.

(** A SETTINGS_HEADER_TABLE_SIZE of the peer
    ([Http2ClientSessionPrivate::handleFrame] of [src/src/http2.cpp]). *)
Definition onHeaderTableSize (size : Z) (encoder decoder : Table) : Table * Table :=
  (setMaxDynamicTableSize size encoder, setMaxDynamicTableSize size decoder).
