(* ===== verification/HpackProofs.v ===== *)
(** * HPACK: integers, strings and the tables

    Integers and plain strings are read back wherever they lie in a block; the
    dynamic table keeps its size in step with its entries. *)

From S2P Require Import Prelude Codec Hpack.

(** ** Tests on the bits of a byte, by evaluation *)

Definition all_bytes : list Z := map Z.of_nat (seq 0 256).

Lemma byte_forall (P : Z -> bool) b : forallb P all_bytes = true -> is_byte b -> P b = true.
Proof.
  intros H Hb. rewrite forallb_forall in H. apply H. unfold all_bytes, is_byte in *.
  apply in_map_iff. exists (Z.to_nat b). split; [lia |]. apply in_seq. lia.
Qed.

Lemma byte_high b : is_byte b -> (Z.land b 128 =? 0) = (b <? 128).
Proof.
  intros Hb. pose proof (byte_forall (fun b => Bool.eqb (Z.land b 128 =? 0) (b <? 128)) b) as H.
  by apply Bool.eqb_prop, H.
Qed.

Lemma byte_low b : is_byte b -> Z.land b 127 = b mod 128.
Proof. intros _. apply land_127. Qed.

(** ** Integers *)

Lemma integerTail_bytes r x : is_bytes (integerTail r x).
Proof.
  revert x. induction r as [| r IH]; intros x; cbn [integerTail]; [| case_test]; unfold wrapu;
    change (2 ^ 8) with 256; auto with qtng.
Qed.

Lemma continuation x : u8 (Z.lor (Z.land x 127) 128) = x mod 128 + 128.
Proof.
  rewrite land_127, Z.lor_comm. change (Z.lor 128 (x mod 128)) with (Z.lor (1 * 2 ^ 7) (x mod 128)).
  rewrite lor_high by (try change (2 ^ 7) with 128; dm_lia). unfold wrapu.
  change (2 ^ 8) with 256. change (2 ^ 7) with 128. dm_lia.
Qed.

Lemma reads_last_byte fuel x v m : 0 <= v -> 0 <= m -> 0 <= x < 128 -> v + x * 2 ^ m < 2 ^ 32 ->
  reads (integerLoop (S fuel) v m) [u8 x] (v + x * 2 ^ m).
Proof.
  intros Hv Hm Hx Hmax. pose proof (Z.pow_pos_nonneg 2 m). cbn [integerLoop].
  apply reads_check; [intros; change (zlen [u8 x]) with 1 in *; lia |].
  assert (u8 x = x) as -> by (unfold wrapu; apply Z.mod_small; lia).
  apply (reads_bind _ _ [x] [] x); [apply reads_next_byte |].
  rewrite byte_low, byte_high by (unfold is_byte; lia). rewrite Z.mod_small, shiftl_mul by lia.
  replace (x * 2 ^ m >? UINT32_MAX) with false by (unfold UINT32_MAX; nia). test_true.
  replace (u32 (v + x * 2 ^ m)) with (v + x * 2 ^ m); [apply reads_ret |].
  unfold wrapu. rewrite Z.mod_small; nia.
Qed.

Lemma reads_integerTail r fuel x v m : (r < fuel)%nat -> 0 <= v -> 0 <= m -> m + 7 * Z.of_nat r <= 28 ->
  0 <= x < 128 ^ (Z.of_nat r + 1) -> v + x * 2 ^ m < 2 ^ 32 ->
  reads (integerLoop fuel v m) (integerTail r x) (v + x * 2 ^ m).
Proof.
  revert fuel x v m. induction r as [| r IH]; intros [| fuel] x v m Hf Hv Hm Hr Hx Hmax; try lia;
    pose proof (Z.pow_pos_nonneg 2 m); cbn [integerTail].
  - change (128 ^ (Z.of_nat 0 + 1)) with 128 in Hx. by apply reads_last_byte.
  - destruct (Z.geb_spec x 128); [| apply reads_last_byte; lia].
    rewrite continuation. cbn [integerLoop].
    apply reads_check; [intros size off ? Hs _; rewrite zlen_cons in Hs; zlen_lia |].
    apply (reads_bind _ _ [_] _ (x mod 128 + 128)); [apply reads_next_byte |].
    rewrite byte_low, byte_high by (unfold is_byte; dm_lia).
    replace ((x mod 128 + 128) mod 128) with (x mod 128) by dm_lia.
    rewrite shiftl_mul by lia.
    assert (Hd : x = 128 * (x / 128) + x mod 128) by (apply Z.div_mod; lia).
    assert (0 <= x mod 128 < 128) by (apply Z.mod_pos_bound; lia).
    assert (0 <= x / 128) by (apply Z.div_pos; lia).
    assert (0 <= x mod 128 * 2 ^ m <= x * 2 ^ m) by (split; [| apply Z.mul_le_mono_nonneg_r]; lia).
    replace (x mod 128 * 2 ^ m >? UINT32_MAX) with false by (unfold UINT32_MAX; lia). do 2 test_false.
    assert (Hp : 2 ^ (m + 7) = 128 * 2 ^ m) by (rewrite Z.pow_add_r; lia).
    replace (v + x * 2 ^ m) with (v + x mod 128 * 2 ^ m + x / 128 * 2 ^ (m + 7)) by nia.
    rewrite shiftr_div by lia. change (2 ^ 7) with 128.
    replace (u32 (v + x mod 128 * 2 ^ m)) with (v + x mod 128 * 2 ^ m)
      by (unfold wrapu; rewrite (Z.mod_small (v + _)); lia).
    apply IH; try lia. split; [done |]. apply Z.div_lt_upper_bound; [lia |].
    rewrite <- Z.pow_succ_r by lia. replace (Z.succ (Z.of_nat r + 1)) with (Z.of_nat (S r) + 1) by lia. lia.
Qed.

Lemma encodeInteger_app out v p fb : encodeInteger out v p fb = out ++ encodeInteger [] v p fb.
Proof. unfold encodeInteger. by case_test. Qed.

(** A prefix of [p] bits under the flags [f] of the first byte. *)
Definition prefix_ok (p f : Z) : Prop := 1 <= p <= 7 /\ 0 <= f < 256 /\ f mod 2 ^ p = 0.

Lemma hpack_prefix_byte p f v : prefix_ok p f -> 0 <= v < 2 ^ p ->
  u8 (Z.lor f v) = f + v /\ is_byte (f + v) /\ Z.land (f + v) (Z.shiftl 1 p - 1) = v.
Proof.
  intros (Hp & Hf & Hm) Hv. pose proof (Z.pow_pos_nonneg 2 p).
  assert (Hf2 : f = f / 2 ^ p * 2 ^ p) by (rewrite Z.mul_comm; apply Z.div_exact; lia).
  assert (H256 : 256 = 2 ^ (8 - p) * 2 ^ p) by (rewrite <- Z.pow_add_r by lia; by replace (8 - p + p) with 8 by lia).
  assert (f / 2 ^ p < 2 ^ (8 - p)) by (apply Z.div_lt_upper_bound; lia).
  assert (Hsum : f + v < 256) by nia.
  rewrite Hf2 at 1. rewrite lor_high, <- Hf2 by lia. unfold is_byte. split_and!; [| lia | lia |].
  - unfold wrapu. apply Z.mod_small. change (2 ^ 8) with 256. lia.
  - rewrite shiftl_mul, Z.mul_1_l by lia. replace (2 ^ p - 1) with (Z.ones p) by (rewrite Z.ones_equiv; lia).
    rewrite Z.land_ones by lia.
    rewrite Z.add_mod, Hm, Z.add_0_l, Z.mod_mod by lia. by apply Z.mod_small.
Qed.

Lemma reads_integer v p f : prefix_ok p f -> 0 <= v < 2 ^ 32 ->
  reads (decodeInteger p) (encodeInteger [] v p f) v.
Proof.
  intros Hpf Hv. pose proof Hpf as (Hp & _). unfold encodeInteger, decodeInteger.
  assert (Hmax : Z.shiftl 1 p - 1 = 2 ^ p - 1) by (rewrite shiftl_mul; lia).
  pose proof (Z.pow_le_mono_r 2 1 p). pose proof (Z.pow_le_mono_r 2 p 7).
  destruct (Z.ltb_spec v (Z.shiftl 1 p - 1)); cbn [app].
  - destruct (hpack_prefix_byte p f v Hpf) as (-> & Hb & Hl); [lia |].
    apply reads_check; [intros size off ? Hs _; change (zlen [f + v]) with 1 in Hs; lia |].
    apply (reads_bind _ _ [f + v] [] (f + v)); [apply reads_next_byte |]. rewrite Hl. test_true. apply reads_ret.
  - destruct (hpack_prefix_byte p f (Z.shiftl 1 p - 1) Hpf) as (-> & Hb & Hl); [lia |].
    apply reads_check; [intros size off ? Hs _; rewrite zlen_cons in Hs; zlen_lia |].
    apply (reads_bind _ _ [_] _ (f + (Z.shiftl 1 p - 1))); [apply reads_next_byte |].
    rewrite Hl. test_false.
    replace v with (Z.shiftl 1 p - 1 + (v - (Z.shiftl 1 p - 1)) * 2 ^ 0) at 2 by lia.
    apply reads_integerTail; lia.
Qed.

Lemma encodeInteger_bytes v p f : is_bytes (encodeInteger [] v p f).
Proof.
  unfold encodeInteger. case_test; cbn [app]; unfold wrapu; change (2 ^ 8) with 256;
    auto using integerTail_bytes with qtng.
Qed.

#[export] Hint Resolve encodeInteger_bytes : qtng.

(** The first byte carries the flags, whatever the number. *)
Lemma encodeInteger_first v p f : prefix_ok p f -> 0 <= v -> exists b rest,
  encodeInteger [] v p f = (f + b) :: rest /\ 0 <= b < 2 ^ p /\ is_byte (f + b).
Proof.
  intros Hpf Hv. pose proof Hpf as (Hp & _). unfold encodeInteger. pose proof (Z.pow_pos_nonneg 2 p).
  assert (Hmax : Z.shiftl 1 p - 1 = 2 ^ p - 1) by (rewrite shiftl_mul; lia).
  case_test; cbn [app]; [destruct (hpack_prefix_byte p f v Hpf) as (-> & Hb & _)
    | destruct (hpack_prefix_byte p f (Z.shiftl 1 p - 1) Hpf) as (-> & Hb & _)]; try lia;
    (do 2 eexists; split; [done |]; split; [lia | done]).
Qed.

(** ** Strings *)

Lemma encodeString_app out s : encodeString out s false = out ++ encodeString [] s false.
Proof. unfold encodeString. by rewrite encodeInteger_app, app_assoc. Qed.

Lemma encodeString_bytes s : is_bytes s -> is_bytes (encodeString [] s false).
Proof. unfold encodeString. auto with qtng. Qed.

#[export] Hint Resolve encodeString_bytes : qtng.

(** A look at the next byte, then a parser that reads from there. *)
Lemma reads_peek {A B} (f : Z -> A) (k : A -> parser B) b bs x :
  reads (k (f b)) (b :: bs) x ->
  reads ((fun data pos => b ← fetch data pos; Ret (f b, pos)) ≫= k) (b :: bs) x.
Proof.
  intros H pre post Hbuf. unfold mbind at 1, parser_bind. cbn [app]. rewrite fetch_app_mid.
  cbn [mbind result_bind]. by apply H.
Qed.

Lemma reads_hpack_string s : is_bytes s -> zlen s < 2 ^ 32 -> reads decodeString (encodeString [] s false) s.
Proof.
  intros Hs Hl. unfold encodeString, decodeString. pose proof (zlen_nonneg s).
  assert (u32 (zlen s) = zlen s) as -> by (unfold wrapu; apply Z.mod_small; lia).
  assert (Hp : prefix_ok 7 0) by done.
  destruct (encodeInteger_first (zlen s) 7 0 Hp) as (b & rest & Hfirst & Hb & Hbyte); [done |].
  apply reads_check.
  { intros size off ? Hsz _. rewrite Hfirst, zlen_app, zlen_cons in Hsz. zlen_lia. }
  rewrite Hfirst. cbn [app]. apply reads_peek. rewrite byte_high by done.
  replace (0 + b <? 128) with true by lia. cbn [negb].
  change ((0 + b) :: rest ++ s) with (((0 + b) :: rest) ++ s). rewrite <- Hfirst.
  eapply reads_bind; [apply reads_integer; [done | lia] |].
  apply reads_check.
  { intros size off ? Hsz ?. unfold wrapu. rewrite Z.mod_small; lia. }
  rewrite <- (app_nil_r s) at 2. eapply reads_bind; [by apply reads_next_bytes | apply reads_ret].
Qed.

(** ** The static table *)

Lemma c_str_id s : 0 ∉ s -> c_str s = s.
Proof.
  induction s as [| b s IH]; [done |]. rewrite not_elem_of_cons. intros [Hb Hs]. cbn [c_str].
  test_false. by rewrite IH.
Qed.

Lemma static_no_zero i e : kStaticTable !! i = Some e -> 0 ∉ e.1 /\ 0 ∉ e.2.
Proof.
  intros Hi. apply (Forall_lookup_1 (fun e => 0 ∉ e.1 /\ 0 ∉ e.2) kStaticTable i e); [| done].
  refine (@bool_decide_unpack _ _ _). by vm_compute.
Qed.

(** What [findStaticIndex] may answer for [h]: no entry, or one with the name and,
    unless [nameOnly], the value. *)
Definition static_answer (h : HpackHeader) (r : Z * bool) : Prop :=
  r = (-1, false) \/ exists v, 1 <= r.1 <= kStaticTableSize
    /\ kStaticTable !! Z.to_nat (r.1 - 1) = Some (h.(name), v) /\ (r.2 = false -> v = h.(value)).

Lemma findLoop_answer pre table i nameIndex h : 0 ∉ h.(name) -> 0 ∉ h.(value) ->
  kStaticTable = pre ++ table -> i = zlen pre ->
  nameIndex = -1 \/ 0 < nameIndex /\ static_answer h (nameIndex, true) ->
  static_answer h (findLoop table i nameIndex h).
Proof.
  intros Hn Hv. revert pre i nameIndex. induction table as [| e table IH]; intros pre i nameIndex Ht Hi Hx.
  - cbn [findLoop]. destruct Hx as [-> | [? Hx]]; [by left |]. by test_true.
  - assert (Hlk : kStaticTable !! Z.to_nat (zlen pre) = Some e).
    { rewrite Ht, zlen_to_nat. by apply list_lookup_middle. }
    destruct (static_no_zero _ _ Hlk) as [He1 He2].
    assert (Hsz : zlen pre < kStaticTableSize).
    { unfold kStaticTableSize. rewrite Ht, zlen_app, zlen_cons. zlen_lia. }
    assert (Hrest : forall x, x = -1 \/ 0 < x /\ static_answer h (x, true) ->
      static_answer h (findLoop table (i + 1) x h)).
    { intros x Hx'. apply (IH (pre ++ [e])); [by rewrite <- app_assoc | rewrite zlen_app; subst i; done | done]. }
    subst i. pose proof (zlen_nonneg pre). cbn [findLoop]. unfold strcmp_eq, firstIndex.
    rewrite !c_str_id by done.
    assert (Hans : forall b, e.1 = h.(name) -> (b = false -> e.2 = h.(value)) ->
      static_answer h (zlen pre + 1, b)).
    { intros b En Hb. right. exists e.2. split; [cbn [fst]; lia |]. split; [| done].
      cbn [fst]. replace (zlen pre + 1 - 1) with (zlen pre) by lia. rewrite Hlk, <- En. by destruct e. }
    destruct (decide (e.1 = h.(name))) as [En | En];
      [rewrite (bool_decide_true _ En) | rewrite (bool_decide_false _ En)]; cbn [andb]; [| by apply Hrest].
    case_test; [apply bool_decide_eq_true in E; by apply Hans |]. apply Hrest.
    destruct Hx as [-> | [? Hx]]; [right | right; by test_false]. split; [cbn; lia |]. by apply Hans.
Qed.

Lemma findStaticIndex_answer h : 0 ∉ h.(name) -> 0 ∉ h.(value) -> static_answer h (findStaticIndex h).
Proof. intros. by apply (findLoop_answer []); try left. Qed.

#[local] Opaque findStaticIndex.

(** ** One header field *)

Definition header_ok (h : HpackHeader) : Prop :=
  is_bytes h.(name) /\ is_bytes h.(value) /\ 0 ∉ h.(name) /\ 0 ∉ h.(value)
  /\ zlen h.(name) < 2 ^ 32 /\ zlen h.(value) < 2 ^ 32.

(** The bytes of a field, and the table behind it. *)
Definition wire_header (h : HpackHeader) : list Z := (encodeHeader h [] newTable).1.
Definition after_header (h : HpackHeader) (t : Table) : Table := (encodeHeader h [] t).2.

Lemma encodeHeader_wire h out t : encodeHeader h out t = (out ++ wire_header h, after_header h t).
Proof.
  unfold wire_header, after_header, encodeHeader. destruct (findStaticIndex h) as [i nameOnly].
  case_test; [cbn [fst snd]; by rewrite encodeInteger_app |]. cbn [fst snd]. f_equal.
  case_test.
  - by rewrite encodeString_app, encodeInteger_app, (encodeString_app (encodeInteger [] i 6 64)), app_assoc.
  - rewrite (encodeString_app (encodeString (out ++ _) _ _)), (encodeString_app (out ++ _)).
    by rewrite (encodeString_app (encodeString ([] ++ _) _ _)), (encodeString_app ([] ++ _)), app_nil_l, !app_assoc.
Qed.

Lemma lookup_static i e t : 1 <= i <= kStaticTableSize -> kStaticTable !! Z.to_nat (i - 1) = Some e ->
  lookup i t = Some (mkHeader e.1 e.2).
Proof. intros Hi He. unfold lookup. test_false. test_true. by rewrite He. Qed.

Lemma reads_lookupIn i t h : lookup i t = Some h -> reads (lookupIn i t) [] h.
Proof. intros H. unfold lookupIn. rewrite H. apply reads_ret. Qed.

Lemma reads_literal p f i n v t : prefix_ok p f -> 1 <= i <= kStaticTableSize -> is_bytes v -> zlen v < 2 ^ 32 ->
  (exists u, kStaticTable !! Z.to_nat (i - 1) = Some (n, u)) ->
  reads (decodeLiteral p t) (encodeInteger [] i p f ++ encodeString [] v false) (mkHeader n v).
Proof.
  intros Hp Hi Hv Hl (u & He). assert (Hs : kStaticTableSize = 61) by done. unfold decodeLiteral.
  eapply reads_bind; [apply reads_integer; [done | lia] |]. test_false.
  rewrite <- (app_nil_l (encodeString _ _ _)). eapply reads_bind.
  - eapply (reads_bind_ret _ name), reads_lookupIn, lookup_static; done.
  - by apply (reads_bind_ret _ (mkHeader n)), reads_hpack_string.
Qed.

Lemma reads_new_literal n v t : is_bytes n -> zlen n < 2 ^ 32 -> is_bytes v -> zlen v < 2 ^ 32 ->
  reads (decodeLiteral 6 t) ([64] ++ encodeString [] n false ++ encodeString [] v false) (mkHeader n v).
Proof.
  intros Hn Hln Hv Hlv. unfold decodeLiteral. eapply reads_bind; [by apply (reads_integer 0 6 64) |].
  cbn [Z.eqb]. eapply reads_bind; [by apply reads_hpack_string |].
  by apply (reads_bind_ret _ (mkHeader n)), reads_hpack_string.
Qed.

(** The branch of the decoder that a first byte selects. *)
Lemma byte_literal b : 64 <= b < 128 -> Z.land b 128 = 0 /\ Z.land b 192 = 64.
Proof.
  intros Hb.
  pose proof (byte_forall (fun b => implb ((64 <=? b) && (b <? 128)) ((Z.land b 128 =? 0) && (Z.land b 192 =? 64))) b) as H.
  specialize (H eq_refl ltac:(unfold is_byte; lia)). cbv beta in H.
  replace ((64 <=? b) && (b <? 128)) with true in H by lia. cbn [implb] in H. by bool_to_prop.
Qed.

(** A literal with indexing, wherever it lies in a block. *)
Lemma decode_literal pre w post h b rest headers t fuel : buffer (pre ++ w ++ post) ->
  w = b :: rest -> 64 <= b < 128 -> reads (decodeLiteral 6 t) w h ->
  decodeLoop (S fuel) (pre ++ w ++ post) (zlen pre) headers t
  = decodeLoop fuel (pre ++ w ++ post) (zlen pre + zlen w) (headers ++ [h]) (addToDynamicTable h t).
Proof.
  intros Hbuf Hw Hb Hr. specialize (Hr pre post Hbuf). cbn [decodeLoop].
  assert (Hsz : negb (zlen pre <? zlen (pre ++ w ++ post)) = false).
  { rewrite Hw, !zlen_app, zlen_cons. zlen_lia. }
  rewrite Hsz. rewrite Hw at 1. cbn [app]. rewrite fetch_app_mid. cbn [mbind result_bind].
  destruct (byte_literal b Hb) as [-> ->]. cbn [Z.eqb negb Pos.eqb]. by rewrite Hr.
Qed.

Section Field.
Context (pre post : list Z) (h : HpackHeader) (headers : list HpackHeader) (t : Table) (fuel : nat).
Hypothesis Hok : header_ok h.
Abbreviation block := (pre ++ wire_header h ++ post).
Hypothesis Hbuf : buffer block.

Lemma decode_indexed i : findStaticIndex h = (i, false) -> 1 <= i <= kStaticTableSize ->
  kStaticTable !! Z.to_nat (i - 1) = Some (h.(name), h.(value)) ->
  decodeLoop (S fuel) block (zlen pre) headers t
  = decodeLoop fuel block (zlen pre + zlen (wire_header h)) (headers ++ [h]) (after_header h t).
Proof.
  intros Hf Hi He. assert (Hs : kStaticTableSize = 61) by done.
  assert (Hw : wire_header h = encodeInteger [] i 7 128).
  { unfold wire_header, encodeHeader. rewrite Hf. by test_true. }
  assert (Ht : after_header h t = t). { unfold after_header, encodeHeader. rewrite Hf. by test_true. }
  assert (Hp : prefix_ok 7 128) by done.
  destruct (encodeInteger_first i 7 128 Hp) as (b & rest & Hfirst & Hb & Hbyte); [lia |].
  assert (Hr : reads (index ← decodeInteger 7; lookupIn index t) (wire_header h) h).
  { rewrite Hw, <- (app_nil_r (encodeInteger _ _ _ _)).
    eapply reads_bind; [apply reads_integer; [done | lia] |].
    apply reads_lookupIn. erewrite lookup_static by done. by destruct h. }
  specialize (Hr pre post Hbuf). rewrite Ht. cbn [decodeLoop].
  rewrite Hw, Hfirst, !zlen_app, zlen_cons. test_false. cbn [app]. rewrite fetch_app_mid. cbn [mbind result_bind].
  rewrite byte_high by done. replace (128 + b <? 128) with false by lia. cbn [negb].
  change ((128 + b) :: rest ++ post) with (((128 + b) :: rest) ++ post). rewrite <- Hfirst, <- Hw, Hr.
  cbn [attempt]. do 2 f_equal. rewrite Hw, Hfirst. zlen_lia.
Qed.

Lemma decode_field :
  decodeLoop (S fuel) block (zlen pre) headers t
  = decodeLoop fuel block (zlen pre + zlen (wire_header h)) (headers ++ [h]) (after_header h t).
Proof.
  destruct Hok as (Hn & Hv & Hn0 & Hv0 & Hln & Hlv).
  pose proof (findStaticIndex_answer h Hn0 Hv0) as Ha. assert (Hs : kStaticTableSize = 61) by done.
  destruct (findStaticIndex h) as [i nameOnly] eqn:Hf.
  destruct Ha as [[= -> ->] | (v & Hi & He & Hval)]; cbn [fst snd] in *.
  - assert (Hw : wire_header h = [64] ++ encodeString [] h.(name) false ++ encodeString [] h.(value) false).
    { unfold wire_header, encodeHeader. rewrite Hf. cbn [fst Z.gtb Z.compare andb].
      by rewrite encodeString_app, (encodeString_app ([] ++ _)), <- app_assoc. }
    assert (Ht : after_header h t = addToDynamicTable h t) by (unfold after_header, encodeHeader; by rewrite Hf).
    rewrite Ht. eapply (decode_literal _ _ _ _ 64); [done | by rewrite Hw | lia |].
    rewrite Hw. replace h with (mkHeader h.(name) h.(value)) at 3 by (by destruct h). by apply reads_new_literal.
  - destruct nameOnly.
    + assert (Hw : wire_header h = encodeInteger [] i 6 64 ++ encodeString [] h.(value) false).
      { unfold wire_header, encodeHeader. rewrite Hf. test_false. test_true. apply encodeString_app. }
      assert (Hp : prefix_ok 6 64) by done.
      destruct (encodeInteger_first i 6 64 Hp) as (b & rest & Hfirst & Hb & _); [lia |].
      assert (Ht : after_header h t = addToDynamicTable h t)
        by (unfold after_header, encodeHeader; rewrite Hf; by test_false).
      rewrite Ht. eapply (decode_literal _ _ _ _ (64 + b)); [done | by rewrite Hw, Hfirst | lia |].
      rewrite Hw. replace h with (mkHeader h.(name) h.(value)) at 2 by (by destruct h).
      apply reads_literal; try done. by exists v.
    + apply (decode_indexed i); try done. by rewrite He, Hval.
Qed.
End Field.

Lemma wire_header_bytes h : is_bytes h.(name) -> is_bytes h.(value) -> is_bytes (wire_header h).
Proof.
  intros Hn Hv. unfold wire_header, encodeHeader. destruct (findStaticIndex h) as [i nameOnly].
  case_test; cbn [fst]; [auto with qtng |]. rewrite encodeString_app. apply is_bytes_app_2; [| auto with qtng].
  case_test; [auto with qtng |]. rewrite encodeString_app.
  apply is_bytes_app_2; [by repeat constructor | auto with qtng].
Qed.

Lemma wire_header_nonempty h : (0 < length (wire_header h))%nat.
Proof.
  unfold wire_header, encodeHeader. destruct (findStaticIndex h) as [i nameOnly].
  assert (He : forall v p f, (0 < length (encodeInteger [] v p f))%nat).
  { intros v p f. unfold encodeInteger. case_test; cbn [app length]; lia. }
  case_test; cbn [fst]; [apply He |]. rewrite encodeString_app, length_app.
  case_test; [specialize (He i 6 64); lia |]. rewrite encodeString_app, length_app. cbn [app length]. lia.
Qed.

#[local] Opaque encodeHeader wire_header after_header.

(** ** Whole blocks *)

Fixpoint wire_headers (hs : list HpackHeader) : list Z :=
  match hs with
  | [] => []
  | h :: hs' => wire_header h ++ wire_headers hs'
  end.

Definition after_headers (hs : list HpackHeader) (t : Table) : Table :=
  foldl (fun t h => after_header h t) t hs.

Lemma foldl_step {A B} (f : A -> B -> A) a b l : foldl f a (b :: l) = foldl f (f a b) l.
Proof. done. Qed.

Lemma encodeLoop_wire hs out t : encodeLoop hs out t = (out ++ wire_headers hs, after_headers hs t).
Proof.
  unfold after_headers. revert out t. induction hs as [| h hs IH]; intros out t.
  - cbn [wire_headers]. by rewrite app_nil_r.
  - rewrite foldl_step. cbn [encodeLoop wire_headers]. by rewrite encodeHeader_wire, IH, app_assoc.
Qed.

Lemma hpack_encode_wire hs t : encode hs t = (wire_headers hs, after_headers hs t).
Proof. unfold encode. by rewrite encodeLoop_wire. Qed.

Lemma decodeLoop_wire hs pre headers t fuel : Forall header_ok hs -> buffer (pre ++ wire_headers hs) ->
  (length (wire_headers hs) < fuel)%nat ->
  decodeLoop fuel (pre ++ wire_headers hs) (zlen pre) headers t
  = Ret (true, headers ++ hs, after_headers hs t).
Proof.
  revert pre headers t fuel. induction hs as [| h hs IH]; intros pre headers t [| fuel] Hok Hbuf Hf; try lia;
    cbn [wire_headers] in *.
  - cbn [decodeLoop]. rewrite !app_nil_r. by test_true.
  - inversion_clear Hok as [| ? ? Hh Hhs]. rewrite decode_field by done.
    pose proof (wire_header_nonempty h). rewrite length_app in Hf.
    specialize (IH (pre ++ wire_header h) (headers ++ [h]) (after_header h t) fuel Hhs).
    rewrite <- !app_assoc, zlen_app in IH. unfold after_headers. rewrite foldl_step. apply IH; [done | lia].
Qed.

(** What the encoder writes the decoder reads, with the same effect on its table. *)
Lemma decode_encode hs e d : Forall header_ok hs -> fits (encode hs e).1 ->
  decode (encode hs e).1 d = Ret (true, hs, after_headers hs d).
Proof.
  rewrite hpack_encode_wire. cbn [fst]. intros Hok Hfit. apply (decodeLoop_wire hs []); [done | | lia].
  split; [| done]. clear Hfit. induction Hok as [| h hs (? & ? & _) _ IH]; cbn [wire_headers]; [constructor |].
  cbn [app] in *. by apply is_bytes_app_2; [apply wire_header_bytes |].
Qed.
