(* ===== verification/HpackHuffman.v ===== *)
(** * HPACK: the Huffman code

    Encoder and decoder are related on the level of bits.  The decoder reads back
    exactly the strings whose code fills whole bytes: the padding of the others is
    refused. *)

From S2P Require Import Prelude Codec Hpack HpackProofs.

(** ** Bits, most significant first *)

Fixpoint msb (n : nat) (v : Z) : list bool :=
  match n with
  | O => []
  | S n' => Z.testbit v (Z.of_nat n') :: msb n' v
  end.

Definition bits_of (bytes : list Z) : list bool := bytes ≫= msb 8.

Lemma bits_of_app l1 l2 : bits_of (l1 ++ l2) = bits_of l1 ++ bits_of l2.
Proof. apply bind_app. Qed.

Lemma bits_of_cons b l : bits_of (b :: l) = msb 8 b ++ bits_of l.
Proof. done. Qed.

Lemma msb_ext n v w : (forall i, 0 <= i < Z.of_nat n -> Z.testbit v i = Z.testbit w i) -> msb n v = msb n w.
Proof.
  induction n as [| n IH]; intros H; [done |]. cbn [msb]. f_equal; [apply H; lia |].
  apply IH. intros. apply H. lia.
Qed.

Lemma msb_app k n v : msb (k + n) v = msb k (Z.shiftr v (Z.of_nat n)) ++ msb n v.
Proof.
  induction k as [| k IH]; [done |]. cbn [Nat.add msb app]. rewrite IH. f_equal.
  rewrite Z.shiftr_spec by lia. f_equal. lia.
Qed.

Lemma length_msb n v : length (msb n v) = n.
Proof. induction n; simpl; auto. Qed.

(** Bits shifted in below those of a buffer. *)
Lemma msb_shift k n b c : (k + n <= 64)%nat -> 0 <= c < 2 ^ Z.of_nat n ->
  msb (k + n) (Z.lor (u64 (Z.shiftl b (Z.of_nat n))) c) = msb k b ++ msb n c.
Proof.
  intros Hk Hc. rewrite msb_app.
  assert (Hbit : forall i, 0 <= i < 64 -> Z.testbit (Z.lor (u64 (Z.shiftl b (Z.of_nat n))) c) i
    = Z.testbit b (i - Z.of_nat n) || Z.testbit c i).
  { intros i Hi. rewrite Z.lor_spec. unfold wrapu. by rewrite Z.mod_pow2_bits_low, Z.shiftl_spec by lia. }
  f_equal; apply msb_ext; intros i Hi.
  - rewrite Z.shiftr_spec, Hbit, (testbit_small c (Z.of_nat n)), orb_false_r by lia. f_equal. lia.
  - by rewrite Hbit, (Z.testbit_neg_r b) by lia.
Qed.

Lemma msb_byte k v : msb (8 + k) v = msb 8 (Z.land (Z.shiftr v (Z.of_nat k)) 255) ++ msb k v.
Proof.
  rewrite msb_app. f_equal. apply msb_ext. intros i Hi.
  change 255 with (Z.ones 8). by rewrite Z.land_spec, Z.ones_spec_low, andb_true_r by lia.
Qed.

(** ** The encoder *)

Definition code_bits (ch : Z) : list bool := msb (Z.to_nat (huffmanCode ch).2) (huffmanCode ch).1.

(** The number of bits of a string. *)
Definition huffman_size (s : list Z) : Z := zlen (s ≫= code_bits).

Lemma huffmanCode_ok ch : is_byte ch ->
  5 <= (huffmanCode ch).2 <= 30 /\ 0 <= (huffmanCode ch).1 < 2 ^ (huffmanCode ch).2.
Proof.
  intros Hch. unfold huffmanCode.
  assert (Hall : Forall (fun e => 5 <= e.2 <= 30 /\ 0 <= e.1 < 2 ^ e.2) kHuffmanTable).
  { refine (@bool_decide_unpack _ _ _). by vm_compute. }
  destruct (kHuffmanTable !! Z.to_nat ch) as [e |] eqn:He; [by apply (Forall_lookup_1 _ _ _ _ Hall He) |].
  apply lookup_ge_None in He. change (length kHuffmanTable) with 257%nat in He. unfold is_byte in Hch. lia.
Qed.

Lemma flushBits_bits rounds buffer bits out : 0 <= bits < 8 * (Z.of_nat rounds + 1) ->
  let r := flushBits rounds buffer bits out in
  0 <= r.1 < 8 /\ r.1 = bits mod 8
  /\ bits_of r.2 ++ msb (Z.to_nat r.1) buffer = bits_of out ++ msb (Z.to_nat bits) buffer.
Proof.
  revert bits out. induction rounds as [| rounds IH]; intros bits out Hb; cbn [flushBits];
    [| case_test]; try (split_and!; [cbn; dm_lia.. | done]).
  destruct (IH (bits - 8) (out ++ [Z.land (Z.shiftr buffer (bits - 8)) 255])) as (H1 & H2 & H3); [lia |].
  split_and!; [apply H1.. | rewrite H2; dm_lia |]. rewrite H3, bits_of_app, <- app_assoc. f_equal.
  replace (Z.to_nat bits) with (8 + Z.to_nat (bits - 8))%nat by lia. rewrite msb_byte.
  by rewrite Z2Nat.id by lia.
Qed.

(** The ones that fill the last byte after [n] bits. *)
Definition padding (n : Z) : list bool := replicate (Z.to_nat ((- n) mod 8)) true.

Lemma padding_mod a b : a mod 8 = b mod 8 -> padding a = padding b.
Proof. intros H. unfold padding. do 2 f_equal. dm_lia. Qed.

Lemma last_byte bits buffer : 0 < bits < 8 ->
  msb 8 (Z.land (Z.lor (u64 (Z.shiftl buffer (8 - bits))) (Z.shiftr 255 bits)) 255)
  = msb (Z.to_nat bits) buffer ++ padding bits.
Proof.
  intros Hb. set (v := Z.lor _ _).
  assert (Hones : 0 <= Z.shiftr 255 bits < 2 ^ Z.of_nat (Z.to_nat (8 - bits))
    /\ msb (Z.to_nat (8 - bits)) (Z.shiftr 255 bits) = padding bits).
  { assert (Hc : bits = 1 \/ bits = 2 \/ bits = 3 \/ bits = 4 \/ bits = 5 \/ bits = 6 \/ bits = 7) by lia.
    by repeat destruct Hc as [-> | Hc]; try subst. }
  destruct Hones as [Hr <-]. rewrite <- msb_shift by (done || lia). rewrite Z2Nat.id by lia. fold v.
  replace (Z.to_nat bits + Z.to_nat (8 - bits))%nat with 8%nat by lia. apply msb_ext. intros i Hi.
  change 255 with (Z.ones 8). by rewrite Z.land_spec, Z.ones_spec_low, andb_true_r by lia.
Qed.

Lemma huffmanLoop_bits input buffer bits out : is_bytes input -> 0 <= bits < 8 ->
  bits_of (huffmanLoop input buffer bits out)
  = bits_of out ++ msb (Z.to_nat bits) buffer ++ (input ≫= code_bits) ++ padding (bits + huffman_size input).
Proof.
  intros Hin. revert buffer bits out. induction Hin as [| ch input Hch Hin IH]; intros buffer bits out Hb; cbn [huffmanLoop].
  - change (huffman_size []) with 0. cbn [mbind list_bind app]. rewrite Z.add_0_r. case_test.
    + rewrite bits_of_app, <- last_byte by lia. by rewrite bits_of_cons, app_nil_r.
    + assert (bits = 0) as -> by lia. by rewrite !app_nil_r.
  - destruct (huffmanCode_ok ch Hch) as [Hn Hc]. rewrite bind_cons. unfold huffman_size.
    rewrite bind_cons, zlen_app. unfold code_bits at 1 3. destruct (huffmanCode ch) as [code n]. cbn [fst snd] in *.
    set (buffer' := Z.lor _ code).
    pose proof (flushBits_bits 4 buffer' (bits + n) out ltac:(lia)) as (H1 & H2 & H3).
    destruct (flushBits 4 buffer' (bits + n) out) as [bits' out']. cbn [fst snd] in *.
    rewrite IH, (app_assoc (bits_of out')), H3, <- app_assoc by done. f_equal.
    replace (Z.to_nat (bits + n)) with (Z.to_nat bits + Z.to_nat n)%nat by lia.
    assert (Hsplit : msb (Z.to_nat bits + Z.to_nat n) buffer' = msb (Z.to_nat bits) buffer ++ msb (Z.to_nat n) code).
    { rewrite <- msb_shift by (rewrite ?Z2Nat.id by lia; lia). by rewrite Z2Nat.id by lia. }
    rewrite Hsplit, <- !app_assoc. do 3 f_equal. apply padding_mod.
    assert (zlen (msb (Z.to_nat n) code) = n) as -> by (unfold zlen; rewrite length_msb; lia).
    fold (huffman_size input). dm_lia.
Qed.

Lemma huffmanEncode_bits s : is_bytes s ->
  bits_of (huffmanEncode s) = (s ≫= code_bits) ++ padding (huffman_size s).
Proof. intros Hs. unfold huffmanEncode. by rewrite huffmanLoop_bits. Qed.

(** ** The decoder *)

(** The walk of the decoder along a list of bits. *)
Fixpoint walk (bits : list bool) (idx : Z) (out : list Z) : result (list Z + Z * list Z) :=
  match bits with
  | [] => Ret (inr (idx, out))
  | bit :: bits' =>
      n ← nodeAt huffmanTree idx;
      let idx := child n bit in
      if idx <? 0 then Reject else
      n ← nodeAt huffmanTree idx;
      if n.(symbol) >=? 0 then
        if n.(symbol) =? 256 then Ret (inl out) else walk bits' 0 (out ++ [u8 n.(symbol)])
      else walk bits' idx out
  end.

(** What is returned at the end of the input. *)
Definition finish (r : list Z + Z * list Z) : result (list Z) :=
  match r with
  | inl out => Ret out
  | inr (idx, out) => n ← nodeAt huffmanTree idx; if (idx =? 0) || (n.(symbol) =? 256) then Ret out else Reject
  end.

#[local] Opaque huffmanTree.

Lemma huffmanByte_walk i byte idx out : huffmanByte i byte idx out = walk (msb i byte) idx out.
Proof.
  revert idx out. induction i as [| i IH]; intros idx out; [done |]. cbn [huffmanByte msb walk].
  destruct (nodeAt huffmanTree idx) as [n | | |]; try done. cbn [mbind result_bind]. case_test; [done |].
  destruct (nodeAt huffmanTree _) as [m | | |]; try done. cbn [mbind result_bind].
  repeat case_test; by rewrite ?IH.
Qed.

Lemma walk_app bits1 bits2 idx out : walk (bits1 ++ bits2) idx out =
  r ← walk bits1 idx out; match r with inl o => Ret (inl o) | inr (i, o) => walk bits2 i o end.
Proof.
  revert idx out. induction bits1 as [| bit bits1 IH]; intros idx out; [done |]. cbn [app walk].
  destruct (nodeAt huffmanTree idx) as [n | | |]; try done. cbn [mbind result_bind]. case_test; [done |].
  destruct (nodeAt huffmanTree _) as [m | | |]; try done. cbn [mbind result_bind].
  repeat case_test; try done; by rewrite IH.
Qed.

Lemma huffmanBytes_walk input idx out : huffmanBytes input idx out = walk (bits_of input) idx out ≫= finish.
Proof.
  revert idx out. induction input as [| byte input IH]; intros idx out; [done |].
  cbn [huffmanBytes]. rewrite bits_of_cons, walk_app, huffmanByte_walk.
  destruct (walk (msb 8 byte) idx out) as [[o | [i o]] | | |]; try done. cbn [mbind result_bind]. apply IH.
Qed.

(** The output only grows at its end. *)
Definition prepend (pre : list Z) (r : list Z + Z * list Z) : list Z + Z * list Z :=
  match r with inl o => inl (pre ++ o) | inr (i, o) => inr (i, pre ++ o) end.

Lemma walk_prepend bits idx pre out : walk bits idx (pre ++ out) = r ← walk bits idx out; Ret (prepend pre r).
Proof.
  revert idx out. induction bits as [| bit bits IH]; intros idx out; [done |]. cbn [walk].
  destruct (nodeAt huffmanTree idx) as [n | | |]; try done. cbn [mbind result_bind]. case_test; [done |].
  destruct (nodeAt huffmanTree _) as [m | | |]; try done. cbn [mbind result_bind].
  repeat case_test; try done; by rewrite <- ?app_assoc, IH.
Qed.

#[local] Transparent huffmanTree.

(** Every code of a byte leads from the root to the leaf of that byte. *)
Lemma walk_code ch : is_byte ch -> walk (code_bits ch) 0 [] = Ret (inr (0, [ch])).
Proof.
  intros Hch.
  pose proof (byte_forall (fun ch => match walk (code_bits ch) 0 [] with
    | Ret (inr (i, [c])) => (i =? 0) && (c =? ch) | _ => false end) ch) as H.
  specialize (H ltac:(by vm_compute) Hch). cbv beta in H.
  destruct (walk (code_bits ch) 0 []) as [[o | [i [| c [| ]]]] | | |]; try done.
  bool_to_prop. by subst.
Qed.

(** One to seven ones lead to no leaf. *)
Lemma walk_padding n : 0 < n mod 8 -> exists i, walk (padding n) 0 [] = Ret (inr (i, []))
  /\ forall out, finish (inr (i, out)) = Reject.
Proof.
  intros Hn. unfold padding. assert (Hm : 0 < (- n) mod 8 < 8) by dm_lia. revert Hm. generalize ((- n) mod 8).
  intros k Hk. assert (Hc : k = 1 \/ k = 2 \/ k = 3 \/ k = 4 \/ k = 5 \/ k = 6 \/ k = 7) by lia.
  repeat destruct Hc as [-> | Hc]; try subst; (eexists; split; [by vm_compute | done]).
Qed.

#[local] Opaque huffmanTree.

Lemma walk_string s out : is_bytes s -> walk (s ≫= code_bits) 0 out = Ret (inr (0, out ++ s)).
Proof.
  intros Hs. revert out. induction Hs as [| ch s Hch Hs IH]; intros out; [by rewrite app_nil_r |].
  rewrite bind_cons, walk_app. rewrite <- (app_nil_r out) at 1. rewrite walk_prepend, walk_code by done.
  cbn [mbind result_bind prepend]. by rewrite IH, <- app_assoc.
Qed.

(** The decoder returns a string that was encoded iff its code fills whole bytes. *)
Lemma huffmanDecode_encode s : is_bytes s ->
  huffmanDecode (huffmanEncode s) = if huffman_size s mod 8 =? 0 then Ret s else Reject.
Proof.
  intros Hs. unfold huffmanDecode. rewrite huffmanBytes_walk, huffmanEncode_bits, walk_app, walk_string by done.
  cbn [mbind result_bind app]. case_test.
  - assert (padding (huffman_size s) = []) as ->.
    { unfold padding. replace ((- huffman_size s) mod 8) with 0 by dm_lia. done. }
    done.
  - destruct (walk_padding (huffman_size s)) as (i & Hw & Hf).
    { pose proof (Z.mod_pos_bound (huffman_size s) 8). lia. }
    rewrite <- (app_nil_r s) at 2. rewrite walk_prepend, Hw. apply Hf.
Qed.

(** ** Any input *)

#[local] Transparent huffmanTree.

Lemma tree_closed idx n : huffmanTree !! idx = Some n -> forall bit, child n bit < zlen huffmanTree.
Proof.
  assert (Hall : Forall (fun n => n.(left) < zlen huffmanTree /\ n.(right) < zlen huffmanTree) huffmanTree).
  { refine (@bool_decide_unpack _ _ _). by vm_compute. }
  intros Hn bit. destruct (Forall_lookup_1 _ _ _ _ Hall Hn). by destruct bit.
Qed.

Lemma tree_nonempty : 0 < zlen huffmanTree.
Proof. by vm_compute. Qed.

Lemma tree_built : buildHuffmanTree = Ret huffmanTree.
Proof. by vm_compute. Qed.

#[local] Opaque huffmanTree.

Lemma nodeAt_in idx : 0 <= idx < zlen huffmanTree -> exists n, nodeAt huffmanTree idx = Ret n
  /\ huffmanTree !! Z.to_nat idx = Some n.
Proof.
  intros Hi. unfold nodeAt. test_false.
  destruct (lookup_lt_is_Some_2 huffmanTree (Z.to_nat idx)) as [n Hn]; [unfold zlen in Hi; lia |].
  rewrite Hn. eauto.
Qed.

Definition walk_state (r : list Z + Z * list Z) : Prop :=
  match r with
  | inl out => is_bytes out
  | inr (idx, out) => 0 <= idx < zlen huffmanTree /\ is_bytes out
  end.

Lemma walk_safe bits idx out : 0 <= idx < zlen huffmanTree -> is_bytes out -> safe walk_state (walk bits idx out).
Proof.
  revert idx out. induction bits as [| bit bits IH]; intros idx out Hi Ho; [done |]. cbn [walk].
  destruct (nodeAt_in idx Hi) as (n & -> & Hn). cbn [mbind result_bind]. pose proof (tree_closed _ _ Hn bit).
  case_test; [done |]. destruct (nodeAt_in (child n bit)) as (m & -> & _); [lia |]. cbn [mbind result_bind].
  repeat case_test; [done | apply IH; [| apply is_bytes_app_2] | by apply IH].
  - pose proof tree_nonempty. lia.
  - done.
  - apply is_bytes_cons; [| constructor]. unfold wrapu. apply is_byte_mod.
Qed.

Lemma huffmanDecode_safe input : safe is_bytes (huffmanDecode input).
Proof.
  unfold huffmanDecode. rewrite huffmanBytes_walk. pose proof tree_nonempty.
  eapply safe_bind; [apply walk_safe; [lia | constructor] |]. intros [out | [idx out]]; [done |].
  intros [Hi Ho]. cbn [finish]. destruct (nodeAt_in idx Hi) as (n & -> & _). cbn [mbind result_bind]. by case_test.
Qed.
