(* ===== verification/HpackSafety.v ===== *)
(** * HPACK: decoding arbitrary blocks

    The decoder stays in bounds and returns on every block, except where it reads an
    integer with a fifth byte whose bits it shifts beyond 32 bits; whatever it does to
    the dynamic table keeps the recorded size in step with the entries. *)

From S2P Require Import Prelude Codec Hpack HpackProofs HpackHuffman.

(** ** The dynamic table *)

Definition total (l : list HpackHeader) : Z := foldr (fun h n => entrySize h + n) 0 l.

Definition header_bytes (h : HpackHeader) : Prop := is_bytes h.(name) /\ is_bytes h.(value).

(** The recorded size is that of the entries, at 32 bits, and within the limit. *)
Definition table_inv (t : Table) : Prop :=
  t.(dynamicTableSize) = u32 (total t.(dynamicTable))
  /\ t.(dynamicTableSize) <= t.(maxDynamicTableSize)
  /\ in_u 32 t.(maxDynamicTableSize) /\ Forall header_bytes t.(dynamicTable).

Lemma newTable_inv : table_inv newTable.
Proof. split_and!; done. Qed.

Lemma total_app l1 l2 : total (l1 ++ l2) = total l1 + total l2.
Proof. induction l1 as [| h l1 IH]; cbn [total app foldr]; [done |]. unfold total in *. lia. Qed.

Lemma total_drop_last l h : l !! (length l - 1)%nat = Some h ->
  total l = total (take (length l - 1) l) + entrySize h /\ length (take (length l - 1) l) = (length l - 1)%nat.
Proof.
  intros Hh. pose proof (lookup_lt_Some _ _ _ Hh). split; [| rewrite length_take; lia].
  rewrite <- (take_drop (length l - 1) l) at 1. rewrite total_app. f_equal.
  rewrite (drop_S _ _ _ Hh), drop_ge by lia. cbn. lia.
Qed.

Lemma evictLoop_inv rounds t : (length t.(dynamicTable) <= rounds)%nat ->
  t.(dynamicTableSize) = u32 (total t.(dynamicTable)) -> in_u 32 t.(maxDynamicTableSize) ->
  Forall header_bytes t.(dynamicTable) -> table_inv (evictLoop rounds t).
Proof.
  revert t. induction rounds as [| rounds IH]; intros t Hr Hs Hm Hb; cbn [evictLoop].
  - assert (He : t.(dynamicTable) = []) by (apply nil_length_inv; lia). split_and!; try done.
    rewrite Hs, He. cbn. by destruct Hm.
  - case_test; [| by split_and!]. destruct (_ !! _) as [h |] eqn:Hh.
    + destruct (total_drop_last _ _ Hh) as [Ht Hl]. pose proof (lookup_lt_Some _ _ _ Hh).
      apply IH; cbn [dynamicTable maxDynamicTableSize dynamicTableSize]; [lia | | done | by apply Forall_take].
      rewrite Hs, Ht. unfold wrapu. rewrite Zminus_mod_idemp_l. f_equal. lia.
    + apply lookup_ge_None in Hh. assert (He : t.(dynamicTable) = []) by (apply nil_length_inv; lia).
      rewrite Hs, He in E. change (u32 (total [])) with 0 in E. destruct Hm. lia.
Qed.

Lemma setMax_inv size t : in_u 32 size -> table_inv t -> table_inv (setMaxDynamicTableSize size t).
Proof. intros Hs (H1 & H2 & H3 & H4). unfold setMaxDynamicTableSize, evict. by apply evictLoop_inv. Qed.

Lemma add_inv h t : header_bytes h -> table_inv t -> table_inv (addToDynamicTable h t).
Proof.
  intros Hh (H1 & H2 & H3 & H4). unfold addToDynamicTable, evict. case_test.
  - split_and!; try done. cbn. by destruct H3.
  - apply evictLoop_inv; cbn [dynamicTable maxDynamicTableSize dynamicTableSize]; [lia | | done | by constructor].
    rewrite H1. unfold wrapu. rewrite Zplus_mod_idemp_l. f_equal. cbn [total foldr]. unfold total. lia.
Qed.

(** ** The size without wrapping

    While the limit is below 2^31 the recorded size is the sum of the entries. *)

Definition fieldSize (h : HpackHeader) : Z := zlen h.(name) + zlen h.(value) + 32.
Definition occupied (l : list HpackHeader) : Z := foldr (fun h n => fieldSize h + n) 0 l.

Record exact (t : Table) : Prop := {
  ex_size : t.(dynamicTableSize) = occupied t.(dynamicTable);
  ex_limit : t.(dynamicTableSize) <= t.(maxDynamicTableSize);
  ex_max : 0 <= t.(maxDynamicTableSize) < 2 ^ 31;
  ex_fields : Forall (fun h => fieldSize h < 2 ^ 32) t.(dynamicTable)
}.

Lemma newTable_exact : exact newTable.
Proof. by split. Qed.

Lemma fieldSize_pos h : 32 <= fieldSize h.
Proof. unfold fieldSize. pose proof (zlen_nonneg h.(name)). pose proof (zlen_nonneg h.(value)). lia. Qed.

Lemma occupied_app l1 l2 : occupied (l1 ++ l2) = occupied l1 + occupied l2.
Proof. induction l1 as [| h l1 IH]; cbn [occupied app foldr]; [done |]. unfold occupied in *. lia. Qed.

Lemma occupied_nonneg l : 0 <= occupied l.
Proof. induction l as [| h l IH]; [done |]. cbn [occupied foldr]. pose proof (fieldSize_pos h). unfold occupied in IH. lia. Qed.

Lemma evictLoop_exact rounds : forall t, (length t.(dynamicTable) <= rounds)%nat -> t.(dynamicTableSize) = occupied t.(dynamicTable) ->
  t.(dynamicTableSize) < 2 ^ 32 -> 0 <= t.(maxDynamicTableSize) < 2 ^ 31 -> Forall (fun h => fieldSize h < 2 ^ 32) t.(dynamicTable) -> exact (evictLoop rounds t).
Proof.
  induction rounds as [| rounds IH]; intros t Hr Hs Hsm Hm Hf; cbn [evictLoop].
  - assert (He : t.(dynamicTable) = []) by (apply nil_length_inv; lia). split; try done. rewrite Hs, He. cbn. lia.
  - case_test; [| by split]. destruct (_ !! _) as [h |] eqn:Hh.
    + pose proof (lookup_lt_Some _ _ _ Hh) as Hlt. set (l := t.(dynamicTable)) in *.
      assert (occupied l = occupied (take (length l - 1) l) + fieldSize h) as Ho.
      { rewrite <- (take_drop (length l - 1) l) at 1. rewrite occupied_app. f_equal. rewrite (drop_S _ _ _ Hh), drop_ge by lia. cbn. lia. }
      pose proof (Forall_lookup_1 _ _ _ _ Hf Hh) as Hfh. cbn in Hfh. pose proof (fieldSize_pos h). pose proof (occupied_nonneg (take (length l - 1) l)).
      assert (entrySize h = fieldSize h) as -> by (unfold entrySize, fieldSize in *; apply Z.mod_small; lia).
      assert (u32 (t.(dynamicTableSize) - fieldSize h) = occupied (take (length l - 1) l)) as -> by (rewrite Hs, Ho; unfold wrapu; rewrite Z.mod_small; lia).
      apply IH; cbn [dynamicTable maxDynamicTableSize dynamicTableSize]; [rewrite length_take; lia | done | lia | done | by apply Forall_take].
    + apply lookup_ge_None in Hh. assert (He : t.(dynamicTable) = []) by (apply nil_length_inv; lia). rewrite Hs, He in E. cbn in E. lia.
Qed.

Lemma setMax_exact size t : 0 <= size < 2 ^ 31 -> exact t -> exact (setMaxDynamicTableSize size t).
Proof. intros Hs [H1 H2 H3 H4]. unfold setMaxDynamicTableSize, evict. apply evictLoop_exact; cbn; (done || lia). Qed.

Lemma add_exact h t : fieldSize h < 2 ^ 32 -> exact t -> exact (addToDynamicTable h t).
Proof.
  intros Hh [H1 H2 H3 H4]. pose proof (fieldSize_pos h). unfold addToDynamicTable, evict.
  assert (entrySize h = fieldSize h) as -> by (unfold entrySize, fieldSize in *; apply Z.mod_small; lia). case_test.
  - split; cbn; (done || lia).
  - pose proof (occupied_nonneg t.(dynamicTable)).
    assert (u32 (t.(dynamicTableSize) + fieldSize h) = t.(dynamicTableSize) + fieldSize h) as -> by (unfold wrapu; apply Z.mod_small; lia).
    apply evictLoop_exact; cbn [dynamicTable maxDynamicTableSize dynamicTableSize]; [done | rewrite H1; cbn [occupied foldr]; unfold occupied; lia | lia | done | by constructor].
Qed.

(** ** Integers that are too long *)

(** [n] bytes that ask for another one, and a byte with bits that a 32-bit shift loses. *)
Fixpoint tail_overlong (n : nat) (data : list Z) (off : Z) : bool :=
  match data !! Z.to_nat off with
  | None => false
  | Some b =>
      match n with
      | O => 16 <=? b mod 128
      | S n => (128 <=? b) && tail_overlong n data (off + 1)
      end
  end.

(** The integer with a prefix of [p] bits at [off]. *)
Definition overlong_at (p : Z) (data : list Z) (off : Z) : bool :=
  match data !! Z.to_nat off with
  | None => false
  | Some b => (Z.land b (Z.shiftl 1 p - 1) =? Z.shiftl 1 p - 1) && tail_overlong 4 data (off + 1)
  end.

(** [f] of where a parser ends, if it succeeds. *)
Definition after {A} (r : result (A * Z)) (f : A -> Z -> bool) : bool := match r with Ret (a, off) => f a off | _ => false end.

(** One of the integers of a literal field: the index, the length of the name, that of the
    value. *)
Definition literal_overlong (p : Z) (t : Table) (data : list Z) (off : Z) : bool :=
  overlong_at p data off
  || after (decodeInteger p data off) (fun index off =>
       ((index =? 0) && overlong_at 7 data off)
       || after ((if index =? 0 then decodeString else h ← lookupIn index t; mret h.(name)) data off)
            (fun _ off => overlong_at 7 data off)).

(** One of the integers that the decoder reads in a block. *)
Fixpoint overlong_from (fuel : nat) (data : list Z) (off : Z) (t : Table) : bool :=
  match fuel with
  | O => false
  | S fuel =>
      if negb (off <? zlen data) then false else
      match fetch data off with
      | Ret b =>
          if negb (Z.land b 128 =? 0) then
            overlong_at 7 data off || after ((index ← decodeInteger 7; lookupIn index t) data off) (fun _ off => overlong_from fuel data off t)
          else if Z.land b 192 =? 64 then
            literal_overlong 6 t data off || after (decodeLiteral 6 t data off) (fun h off => overlong_from fuel data off (addToDynamicTable h t))
          else if Z.land b 224 =? 32 then
            overlong_at 5 data off || after (decodeInteger 5 data off) (fun size off => overlong_from fuel data off (setMaxDynamicTableSize size t))
          else
            literal_overlong 4 t data off || after (decodeLiteral 4 t data off) (fun _ off => overlong_from fuel data off t)
      | _ => false
      end
  end.

Definition overlong (data : list Z) (t : Table) : bool := overlong_from (length data + 1) data 0 t.

Section Safety.
Context (data : list Z) (Hbuf : buffer data).

(** The parser faults exactly if [bad]; otherwise it keeps to [Q]. *)
Definition exactly {A} (bad : bool) (p : parser A) (Q : A -> Z -> Prop) (off : Z) : Prop :=
  if bad then p data off = Fault else wp p Q data off.

Lemma exactly_mono {A} bad (p : parser A) (P Q : A -> Z -> Prop) off : exactly bad p P off -> (forall a off', P a off' -> Q a off') ->
  exactly bad p Q off.
Proof. destruct bad; [done |]. apply wp_mono. Qed.

Lemma exactly_bind {A B} bad (f : A -> Z -> bool) (p : parser A) (k : A -> parser B) P (Q : B -> Z -> Prop) off :
  exactly bad p P off -> (forall a off', P a off' -> exactly (f a off') (k a) Q off') ->
  exactly (bad || after (p data off) f) (p ≫= k) Q off.
Proof.
  intros Hp Hk. destruct bad; cbn [orb exactly] in *.
  - unfold mbind, parser_bind. by rewrite Hp.
  - unfold after. pose proof Hp as Hp'. unfold wp in Hp. destruct (p data off) as [[a off'] | | |] eqn:E; try done.
    + specialize (Hk a off' Hp). unfold exactly in *. destruct (f a off').
      * unfold mbind, parser_bind. by rewrite E.
      * apply wp_bind. unfold wp at 1. by rewrite E.
    + apply wp_bind. unfold wp. by rewrite E.
Qed.

(** A parser that reads no integer does not fault. *)
Lemma exactly_safe {A} (p : parser A) Q off : wp p Q data off -> exactly false p Q off.
Proof. done. Qed.

(** What follows reads no integer. *)
Lemma exactly_then {A B} bad (p : parser A) (k : A -> parser B) P (Q : B -> Z -> Prop) off :
  exactly bad p P off -> (forall a off', P a off' -> wp (k a) Q data off') -> exactly bad (p ≫= k) Q off.
Proof.
  intros Hp Hk. pose proof (exactly_bind bad (fun _ _ => false) p k P Q off Hp Hk) as H.
  assert (after (p data off) (fun _ _ => false) = false) as Hf by (unfold after; by destruct (p data off) as [[] | | |]).
  by rewrite Hf, orb_false_r in H.
Qed.

(** A cursor that moved on and is still in the block. *)
Definition moved (off off' : Z) : Prop := off < off' <= zlen data.

(** Of a byte at [off], or the end of the block. *)
Lemma exactly_byte {A} bad (k : Z -> parser A) Q off : 0 <= off <= zlen data -> (data !! Z.to_nat off = None -> bad = false) ->
  (forall b, data !! Z.to_nat off = Some b -> is_byte b -> exactly bad (k b) Q (off + 1)) ->
  exactly bad (_ ← check (fun size pos => pos <? size); b ← next_byte; k b) Q off.
Proof.
  intros Ho Hn Hk. destruct (decide (off < zlen data)) as [Hlt | Hge].
  - destruct (fetch_in data off) as (b & Hl & Hb); [lia |]. assert (is_byte b) as Hbyte by (eapply fetch_byte; [apply Hbuf | done]).
    specialize (Hk b Hl Hbyte). unfold exactly, wp in *. unfold check, next_byte, mbind, parser_bind in *.
    rewrite (proj2 (Z.ltb_lt _ _) Hlt), Hb. exact Hk.
  - rewrite Hn by (apply lookup_ge_None; unfold zlen in *; lia). unfold exactly. apply wp_bind, wp_check. intros H. exfalso. lia.
Qed.

Lemma exactly_loop fuel : forall k v off, (k + S fuel = 5)%nat -> in_u 32 v -> 0 <= off <= zlen data ->
  exactly (tail_overlong fuel data off) (integerLoop (S fuel) v (7 * Z.of_nat k)) (fun v' off' => in_u 32 v' /\ moved off off') off.
Proof.
  induction fuel as [| fuel IH]; intros k v off Hk Hv Ho; cbn [integerLoop tail_overlong];
    (apply exactly_byte; [done | by intros -> |]); intros b Hb Hbyte; rewrite Hb;
    pose proof (lookup_lt_Some _ _ _ Hb) as Hlt; (assert (off < zlen data) as Hoff by (unfold zlen; lia));
    rewrite byte_low, byte_high, shiftl_mul by (done || lia); pose proof (Z.mod_pos_bound b 128);
    assert (forall x, in_u 32 (u32 x)) as Hmod by (intros x; apply Z.mod_pos_bound; lia).
  - assert (k = 4%nat) as -> by lia. change (2 ^ (7 * Z.of_nat 4)) with 268435456. unfold exactly. destruct (16 <=? b mod 128) eqn:Hbad.
    + rewrite (proj2 (Z.gtb_lt _ _)) by (unfold UINT32_MAX; lia). done.
    + rewrite Z.gtb_ltb, (proj2 (Z.ltb_ge _ _)) by (unfold UINT32_MAX; lia). wp_step; [wp_step; unfold moved; split; [done | lia] |].
      apply wp_reject.
  - assert (b mod 128 * 2 ^ (7 * Z.of_nat k) <= UINT32_MAX) as Hterm.
    { pose proof (Z.pow_le_mono_r 2 (7 * Z.of_nat k) 21). pose proof (Z.pow_pos_nonneg 2 (7 * Z.of_nat k)).
      change (2 ^ 21) with 2097152 in *. unfold UINT32_MAX. nia. }
    rewrite Z.gtb_ltb, (proj2 (Z.ltb_ge _ _)) by done. destruct (b <? 128) eqn:Hend.
    + rewrite (proj2 (Z.leb_gt 128 b)) by lia. cbn [andb negb]. unfold exactly. wp_step. unfold moved. split; [done | lia].
    + rewrite (proj2 (Z.leb_le 128 b)) by lia. cbn [andb negb]. replace (7 * Z.of_nat k + 7 >? 28) with false by lia.
      replace (7 * Z.of_nat k + 7) with (7 * Z.of_nat (S k)) by lia. eapply exactly_mono; [apply IH; [lia | done | lia] |].
      unfold moved. intros ? ? [? ?]. split; [done | lia].
Qed.

Lemma static_bytes i e : kStaticTable !! i = Some e -> is_bytes e.1 /\ is_bytes e.2.
Proof.
  intros Hi. apply (Forall_lookup_1 (fun e => is_bytes e.1 /\ is_bytes e.2) kStaticTable i e); [| done].
  unfold kStaticTable. apply Forall_map, Forall_true. intros x. split; apply str_bytes.
Qed.

Lemma lookup_bytes i t h : table_inv t -> lookup i t = Some h -> header_bytes h.
Proof.
  intros (_ & _ & _ & Ht). unfold lookup. repeat case_test; try done.
  - destruct (kStaticTable !! _) as [e |] eqn:He; [| done]. intros [= <-]. by apply (static_bytes _ _ He).
  - intros Hh. by apply (Forall_lookup_1 _ _ _ _ Ht Hh).
Qed.

Lemma wp_lookupIn i t off : table_inv t -> wp (lookupIn i t) (fun h off' => header_bytes h /\ off' = off) data off.
Proof.
  intros Ht. unfold lookupIn. destruct (lookup i t) as [h |] eqn:Hh; [| apply wp_reject].
  apply wp_ret. split; [by eapply lookup_bytes | done].
Qed.

Lemma exactly_integer p off : 1 <= p <= 7 -> 0 <= off <= zlen data ->
  exactly (overlong_at p data off) (decodeInteger p) (fun v off' => in_u 32 v /\ moved off off') off.
Proof.
  intros Hp Ho. unfold decodeInteger, overlong_at.
  assert (forall size pos, negb (pos >=? size) = (pos <? size)) as Hck by (intros; lia).
  destruct (decide (off < zlen data)) as [Hlt | Hge].
  2: { rewrite (proj2 (lookup_ge_None data _)) by (unfold zlen in *; lia). apply exactly_safe. apply wp_bind, wp_check. intros H. exfalso. lia. }
  destruct (fetch_in data off) as (b & Hl & Hb); [lia |]. rewrite Hl. assert (is_byte b) as Hbyte by (eapply fetch_byte; [apply Hbuf | done]).
  pose proof (Z.pow_le_mono_r 2 p 7). pose proof (Z.pow_pos_nonneg 2 p). rewrite shiftl_mul, Z.mul_1_l by lia.
  assert (0 <= Z.land b (2 ^ p - 1) <= 2 ^ p - 1) as Hv.
  { replace (2 ^ p - 1) with (Z.ones p) by (rewrite Z.ones_equiv; lia). rewrite Z.land_ones by lia. pose proof (Z.mod_pos_bound b (2 ^ p)).
    rewrite Z.ones_equiv. lia. }
  pose proof (exactly_loop 4 0 (Z.land b (2 ^ p - 1)) (off + 1) eq_refl ltac:(unfold in_u; lia) ltac:(lia)) as Hloop.
  unfold exactly, wp, check, next_byte, mbind, parser_bind in *. rewrite Hck, (proj2 (Z.ltb_lt _ _) Hlt), Hb. cbn [result_bind].
  destruct (Z.land b (2 ^ p - 1) <? 2 ^ p - 1) eqn:Hs.
  - replace (_ =? _) with false by lia. cbn. unfold in_u, moved. lia.
  - replace (Z.land b (2 ^ p - 1) =? 2 ^ p - 1) with true by lia. cbn [andb]. change (7 * Z.of_nat 0) with 0 in Hloop.
    destruct (tail_overlong 4 data (off + 1)); [done |]. destruct (integerLoop _ _ _ _ _) as [[v off'] | | |]; try done.
    unfold moved in *. destruct Hloop. split; [done | lia].
Qed.

Lemma wp_lift {A} (r : result A) (P : A -> Prop) off : safe P r -> wp (lift r) (fun a off' => P a /\ off' = off) data off.
Proof. unfold wp, lift. by destruct r. Qed.

Lemma exactly_string off : 0 <= off <= zlen data ->
  exactly (overlong_at 7 data off) decodeString (fun s off' => is_bytes s /\ moved off off') off.
Proof.
  intros Ho. destruct (decide (off < zlen data)) as [Hlt | Hge].
  2: { unfold overlong_at. rewrite (proj2 (lookup_ge_None data _)) by (unfold zlen in *; lia). apply exactly_safe. apply wp_bind, wp_check. intros H. exfalso. lia. }
  destruct (fetch_in data off) as (b & Hl & Hb); [lia |]. set (huffman := negb (Z.land b 128 =? 0)).
  assert (decodeString data off = (length ← decodeInteger 7; _ ← check (fun size pos => negb (u64 (pos + length) >? size));
    raw ← next_bytes length; if huffman then lift (huffmanDecode raw) else mret raw) data off) as Eq.
  { unfold decodeString, check, mbind, parser_bind. rewrite Z.geb_leb, (proj2 (Z.leb_gt _ _)) by lia. cbn [negb]. by rewrite Hb. }
  unfold exactly, wp. rewrite Eq.
  refine (exactly_then _ (decodeInteger 7) _ _ (fun s off' => is_bytes s /\ moved off off') off (exactly_integer 7 off ltac:(lia) Ho) _).
  clear Eq. intros len off1 [Hlen Hm]. unfold moved in Hm.
  destruct Hbuf as [Hbytes Hfits]. unfold fits, in_u in *.
  wp_step. wp_step. assert (Hu : u64 (off1 + len) = off1 + len) by (unfold wrapu; apply Z.mod_small; lia).
  rewrite Hu in *. wp_step. wp_step. destruct huffman.
  - eapply wp_mono; [apply wp_lift, huffmanDecode_safe |]. intros s' off2 [? ->]. unfold moved. split; [done | lia].
  - wp_step. unfold moved. split; [done | lia].
Qed.

Lemma exactly_literal p t off : 1 <= p <= 7 -> table_inv t -> 0 <= off <= zlen data ->
  exactly (literal_overlong p t data off) (decodeLiteral p t) (fun h off' => header_bytes h /\ moved off off') off.
Proof.
  intros Hp Ht Ho. unfold decodeLiteral, literal_overlong.
  eapply exactly_bind; [by apply exactly_integer |]. intros index off1 [_ Hm1]. unfold moved in Hm1.
  eapply (exactly_bind _ _ _ _ (fun n off' => is_bytes n /\ off1 <= off' <= zlen data)).
  - destruct (index =? 0); cbn [andb].
    + eapply exactly_mono; [apply exactly_string; lia |]. unfold moved. intros n off2 [? ?]. split; [done | lia].
    + apply exactly_safe. wp_step. eapply wp_mono; [by apply wp_lookupIn |]. intros h off2 [[? _] ->]. wp_step. split; [done | lia].
  - intros n off2 [Hn Hm2].
    eapply exactly_then; [apply exactly_string; lia |]. unfold moved. intros v off3 [Hv Hm3]. wp_step. split; [done | lia].
Qed.

(** ** The loop *)

Definition decoded (r : bool * list HpackHeader * Table) : Prop :=
  Forall header_bytes r.1.2 /\ table_inv r.2.

(** [r] is a normal return, and its value satisfies [Q]. *)
Definition returns {A} (Q : A -> Prop) (r : result A) : Prop :=
  match r with
  | Ret a => Q a
  | _ => False
  end.

(** A field that is too long faults; one that fails returns; otherwise the rest of the
    block follows. *)
Definition decodes (bad : bool) (r : result (bool * list HpackHeader * Table)) : Prop :=
  if bad then r = Fault else returns decoded r.

Lemma decodes_attempt {A} bad f (p : parser A) (Q : A -> Z -> Prop) off failed k :
  exactly bad p Q off -> decoded failed -> (forall a off', Q a off' -> decodes (f a off') (k (a, off'))) ->
  decodes (bad || after (p data off) f) (attempt failed (p data off) k).
Proof.
  intros Hp Hf Hk. unfold decodes, exactly, after, attempt in *. destruct bad; cbn [orb]; [by rewrite Hp |].
  unfold wp in Hp. destruct (p data off) as [[a off'] | | |]; try done. by apply Hk.
Qed.

Lemma decodeLoop_exact fuel : forall off headers t, 0 <= off <= zlen data -> zlen data - off < Z.of_nat fuel ->
  Forall header_bytes headers -> table_inv t -> decodes (overlong_from fuel data off t) (decodeLoop fuel data off headers t).
Proof.
  induction fuel as [| fuel IH]; intros off headers t Ho Hf Hh Ht; [lia |]. cbn [decodeLoop overlong_from].
  assert (Hgo : forall off' headers' t', moved off off' -> Forall header_bytes headers' -> table_inv t' ->
    decodes (overlong_from fuel data off' t') (decodeLoop fuel data off' headers' t')) by (unfold moved; intros; apply IH; [lia | lia | done | done]).
  assert (Hsnoc : forall h, header_bytes h -> Forall header_bytes (headers ++ [h]))
    by (intros; apply Forall_app; split; [done | by constructor]).
  case_test; [done |]. destruct (fetch_in data off) as (b & _ & ->); [lia |]. cbn [mbind result_bind].
  destruct (negb (Z.land b 128 =? 0)); [| destruct (Z.land b 192 =? 64); [| destruct (Z.land b 224 =? 32)]].
  - apply (decodes_attempt _ _ _ (fun h off' => header_bytes h /\ moved off off')); [| done | intros h off' [??]; apply Hgo; auto].
    eapply exactly_then; [by apply exactly_integer |]. intros index off1 [_ Hm]. eapply wp_mono; [by apply wp_lookupIn |]. by intros ? ? [? ->].
  - eapply decodes_attempt; [by apply exactly_literal | done |]. intros h off' [??]. apply Hgo; auto using add_inv.
  - eapply decodes_attempt; [by apply exactly_integer | done |]. intros size off' [??]. apply Hgo; auto using setMax_inv.
  - eapply decodes_attempt; [by apply exactly_literal | done |]. intros h off' [??]. apply Hgo; auto.
Qed.

Lemma decode_exact t : table_inv t -> decodes (overlong data t) (decode data t).
Proof.
  intros Ht. unfold decode, overlong. apply decodeLoop_exact; try done; pose proof (zlen_nonneg data); [lia |].
  unfold zlen. lia.
Qed.
End Safety.
