(* ===== verification/HpackProps.v ===== *)
(** * HPACK: the theorems of the encoder and the decoder *)

From S2P Require Import Prelude Codec Hpack HpackProofs HpackHuffman HpackSafety.

(** ** A connection: header blocks and settings, in order

    Two ends that run this code, with an encoder and a decoder each; [true] is the first.
    A SETTINGS_HEADER_TABLE_SIZE that arrives at an end changes both of its tables. *)

Record Endpoint : Type := mkEndpoint { encoder : Table; decoder : Table }.

Definition newEndpoint : Endpoint := mkEndpoint newTable newTable.

Inductive session_op : Type :=
| Block (side : bool) (hs : list HpackHeader)   (* [side] sends a header block *)
| Settings (side : bool) (size : Z).            (* the setting arrives at [side] *)

(** What the blocks decode to, each with its sender, and the two ends. *)
Definition Outcome : Type := list (bool * list HpackHeader) * Endpoint * Endpoint.

Definition got (side : bool) (hs : list HpackHeader) (r : Outcome) : Outcome := ((side, hs) :: r.1.1, r.1.2, r.2).

Definition configure (size : Z) (p : Endpoint) : Endpoint :=
  let '(e, d) := onHeaderTableSize size p.(encoder) p.(decoder) in mkEndpoint e d.

(** A block from [p] to [q]. *)
Definition transfer (hs : list HpackHeader) (p q : Endpoint) : result (list HpackHeader * Endpoint * Endpoint) :=
  let '(block, e) := encode hs p.(encoder) in
  r ← decode block q.(decoder);
  let '(ok, hs', d) := r in
  if ok : bool then Ret (hs', mkEndpoint e p.(decoder), mkEndpoint q.(encoder) d) else Reject.

Fixpoint session (ops : list session_op) (p q : Endpoint) : result Outcome :=
  match ops with
  | [] => Ret ([], p, q)
  | Block true hs :: ops => '(hs', p, q) ← transfer hs p q; r ← session ops p q; Ret (got true hs' r)
  | Block false hs :: ops => '(hs', q, p) ← transfer hs q p; r ← session ops p q; Ret (got false hs' r)
  | Settings true size :: ops => session ops (configure size p) q
  | Settings false size :: ops => session ops p (configure size q)
  end.

(** No zero bytes; lengths that 32 bits hold; limits below 2^31. *)
Definition op_ok (op : session_op) : Prop :=
  match op with
  | Block _ hs => Forall header_ok hs /\ Forall (fun h => fieldSize h < 2 ^ 32) hs /\ fits (encode hs newTable).1
  | Settings _ size => 0 <= size < 2 ^ 31
  end.

Definition sent (ops : list session_op) : list (bool * list HpackHeader) :=
  omap (fun op => match op with Block side hs => Some (side, hs) | Settings _ _ => None end) ops.

(** Between two blocks both ends get the same settings. *)
Fixpoint paired (ops : list session_op) : bool :=
  match ops with
  | [] => true
  | Block _ _ :: ops => paired ops
  | Settings a n :: Settings b m :: ops => xorb a b && (n =? m) && paired ops
  | [Settings _ _] | Settings _ _ :: Block _ _ :: _ => false
  end.

Definition in_step (p q : Endpoint) : Prop := q.(decoder) = p.(encoder) /\ p.(decoder) = q.(encoder).

Definition exact_end (p : Endpoint) : Prop := exact p.(encoder) /\ exact p.(decoder).

Lemma after_header_exact h t : fieldSize h < 2 ^ 32 -> exact t -> exact (after_header h t).
Proof.
  intros Hh Ht. unfold after_header, encodeHeader. destruct (findStaticIndex h) as [i nameOnly].
  case_test; [done |]. by apply add_exact.
Qed.

Lemma after_headers_exact hs t : Forall (fun h => fieldSize h < 2 ^ 32) hs -> exact t -> exact (after_headers hs t).
Proof.
  unfold after_headers. intros Hs. revert t. induction Hs as [| h hs Hh Hs IH]; intros t Ht; [done |].
  rewrite foldl_step. by apply IH, after_header_exact.
Qed.

Lemma transfer_ok hs p q : Forall header_ok hs -> fits (encode hs newTable).1 ->
  transfer hs p q = Ret (hs, mkEndpoint (after_headers hs p.(encoder)) p.(decoder), mkEndpoint q.(encoder) (after_headers hs q.(decoder))).
Proof.
  intros Hhs Hfit. unfold transfer. pose proof (decode_encode hs p.(encoder) q.(decoder) Hhs) as Hd. rewrite !hpack_encode_wire in *.
  cbn [fst] in *. by rewrite Hd.
Qed.

Lemma configure_exact size p : 0 <= size < 2 ^ 31 -> exact_end p -> exact_end (configure size p).
Proof. intros Hs [H1 H2]. unfold configure, onHeaderTableSize. split; by apply setMax_exact. Qed.

Lemma session_returns ops : forall p q, Forall op_ok ops -> exact_end p -> exact_end q ->
  exists p' q', session ops p q = Ret (sent ops, p', q') /\ exact_end p' /\ exact_end q'.
Proof.
  induction ops as [| [[] hs | [] size] ops IH]; intros p q Hops Hp Hq; cbn [session]; [by exists p, q | ..];
    apply Forall_cons_iff in Hops as [Hop Hops].
  - destruct Hop as (Hhs & Hsz & Hfit). rewrite transfer_ok by done. cbn [mbind result_bind]. destruct Hp, Hq.
    edestruct IH as (p' & q' & -> & ? & ?); [done | | | by exists p', q']; split; cbn; auto using after_headers_exact.
  - destruct Hop as (Hhs & Hsz & Hfit). rewrite transfer_ok by done. cbn [mbind result_bind]. destruct Hp, Hq.
    edestruct IH as (p' & q' & -> & ? & ?); [done | | | by exists p', q']; split; cbn; auto using after_headers_exact.
  - apply IH; [done | by apply configure_exact | done].
  - apply IH; [done | done | by apply configure_exact].
Qed.

Lemma session_in_step n : forall ops p q r, (length ops <= n)%nat -> Forall op_ok ops -> paired ops = true -> in_step p q ->
  session ops p q = Ret r -> in_step r.1.2 r.2.
Proof.
  induction n as [| n IH]; intros [| [a hs | a size] ops] p q r Hn Hops Hp Hs H; cbn [session length] in *; try lia; try (by injection H as <-).
  - apply Forall_cons_iff in Hops as [(Hhs & Hsz & Hfit) Hops]. destruct Hs as [S1 S2]. cbn [paired] in Hp.
    destruct a; rewrite transfer_ok in H by done; cbn [mbind result_bind] in H;
      (destruct (session ops _ _) as [r1 | | |] eqn:E; try done); injection H as <-; apply (IH _ _ _ r1) in E; try done; try lia; split; cbn; congruence.
  - destruct ops as [| [b hs | b m] ops]; [done | done |]. cbn [paired] in Hp. apply andb_true_iff in Hp as [Hp Hp3]. apply andb_true_iff in Hp as [Hp1 Hp2].
    apply Z.eqb_eq in Hp2 as <-. apply Forall_cons_iff in Hops as [_ Hops]. apply Forall_cons_iff in Hops as [_ Hops].
    destruct Hs as [S1 S2]. destruct a, b; try done; cbn [session length] in *; apply (IH _ _ _ r) in H; try done; try lia;
      unfold configure, onHeaderTableSize; split; cbn; by rewrite ?S1, ?S2.
Qed.

(** C15: Whatever header blocks (no zero bytes, fields below 2^32) and table-size settings
    below 2^31 two HTTP/2 ends send, each block decodes to the headers encoded; the
    dynamic tables keep exact sizes within their limits, and those of both ends are equal
    if each setting reaches both at once. *)
Theorem hpack_session_in_step ops : Forall op_ok ops -> exists p q,
  session ops newEndpoint newEndpoint = Ret (sent ops, p, q) /\ exact_end p /\ exact_end q /\ (paired ops = true -> in_step p q).
Proof.
  intros Hops. destruct (session_returns ops newEndpoint newEndpoint Hops) as (p & q & E & Hp & Hq); [by split; apply newTable_exact.. |].
  exists p, q. split; [done |]. split; [done |]. split; [done |]. intros Hpair.
  exact (session_in_step (length ops) ops newEndpoint newEndpoint _ ltac:(lia) Hops Hpair ltac:(by split) E).
Qed.

Definition demo_ops : list session_op :=
  [Block true [mkHeader (str ":method") (str "GET"); mkHeader (str "cookie") (str "a=1"); mkHeader (str "x-id") (str "7")];
   Settings false 40; Settings true 40; Block true [mkHeader (str "cookie") (str "a=2")]; Block false [mkHeader (str ":status") (str "404")]].

Lemma hpack_session_in_step_witness : exists p q,
  session demo_ops newEndpoint newEndpoint = Ret (sent demo_ops, p, q) /\ exact_end p /\ exact_end q /\ (paired demo_ops = true -> in_step p q).
Proof.
  refine (hpack_session_in_step demo_ops _). unfold demo_ops.
  repeat constructor; try closed_bytes; try (vm_compute; congruence);
    try (apply (bool_decide_unpack _); by vm_compute).
Defined.

(** ** Arbitrary blocks *)

(** C32: Decoding any block with any table returns in bounds, with byte strings and a
    consistent table, unless one of the integers that it reads on the way has a fifth
    continuation byte of 16 or more in its low seven bits: exactly then a shift is
    undefined. *)
Theorem hpack_decode_returns data t : buffer data -> table_inv t ->
  if overlong data t then decode data t = Fault
  else exists ok hs t', decode data t = Ret (ok, hs, t') /\ Forall header_bytes hs /\ table_inv t'.
Proof.
  intros Hbuf Ht. pose proof (decode_exact data Hbuf t Ht) as H. unfold decodes in H. destruct (overlong data t); [done |].
  destruct (decode data t) as [[[ok hs] t'] | | |]; try done. destruct H. by exists ok, hs, t'.
Qed.

(** The same bytes, as an index and as part of a value. *)
Definition too_long : list Z := [255; 128; 128; 128; 128; 16].

Lemma hpack_decode_returns_witness :
  decode too_long newTable = Fault
  /\ exists ok hs t', decode (encode [mkHeader (str "x-id") too_long] newTable).1 newTable = Ret (ok, hs, t')
       /\ Forall header_bytes hs /\ table_inv t'.
Proof.
  split.
  - refine (hpack_decode_returns too_long newTable _ newTable_inv). split; [closed_bytes | by vm_compute].
  - refine (hpack_decode_returns (encode [mkHeader (str "x-id") too_long] newTable).1 newTable _ newTable_inv). split; [closed_bytes | by vm_compute].
Defined.

(** ** Huffman strings *)

Lemma flushBits_bytes rounds buffer bits out : is_bytes out -> is_bytes (flushBits rounds buffer bits out).2.
Proof.
  revert bits out. induction rounds as [| rounds IH]; intros bits out Ho; cbn [flushBits]; [done |].
  case_test; [| done]. apply IH, is_bytes_app_2; [done |]. rewrite land_255. auto with qtng.
Qed.

Lemma huffmanLoop_bytes input buffer bits out : is_bytes out -> is_bytes (huffmanLoop input buffer bits out).
Proof.
  revert buffer bits out. induction input as [| ch input IH]; intros buffer bits out Ho; cbn [huffmanLoop].
  - case_test; [| done]. apply is_bytes_app_2; [done |]. rewrite land_255. auto with qtng.
  - destruct (huffmanCode ch) as [code n].
    pose proof (flushBits_bytes 4 (Z.lor (u64 (Z.shiftl buffer n)) code) (bits + n) out Ho).
    destruct (flushBits _ _ _ _). by apply IH.
Qed.

Lemma huffmanEncode_bytes s : is_bytes (huffmanEncode s).
Proof. unfold huffmanEncode. apply huffmanLoop_bytes, is_bytes_nil. Qed.

Lemma zlen_encodeInteger v p f : zlen (encodeInteger [] v p f) <= 6.
Proof.
  assert (Ht : forall r x, zlen (integerTail r x) <= 1 + Z.of_nat r).
  { induction r as [| r IH]; intros x; cbn [integerTail]; [done |].
    case_test; [| change (zlen [u8 x]) with 1; lia]. rewrite zlen_cons. specialize (IH (Z.shiftr x 7)). lia. }
  unfold encodeInteger. case_test; cbn [app]; [by vm_compute |]. rewrite zlen_cons.
  specialize (Ht 4%nat (v - (Z.shiftl 1 p - 1))). lia.
Qed.

Lemma decodeString_huffman raw : is_bytes raw -> zlen raw < 2 ^ 32 ->
  let wire := encodeInteger [] (zlen raw) 7 128 ++ raw in
  decodeString wire 0 = s ← huffmanDecode raw; Ret (s, zlen wire).
Proof.
  intros Hr Hl wire. pose proof (zlen_nonneg raw). assert (Hp : prefix_ok 7 128) by done.
  pose proof (zlen_encodeInteger (zlen raw) 7 128) as Hsz.
  assert (Hbuf : buffer wire).
  { unfold wire. split; [auto with qtng |]. unfold fits. rewrite zlen_app. lia. }
  pose proof (reads_integer (zlen raw) 7 128 Hp ltac:(lia) [] raw) as Hint. rewrite app_nil_l in Hint.
  specialize (Hint Hbuf). fold wire in Hint. rewrite zlen_nil, Z.add_0_l in Hint.
  destruct (encodeInteger_first (zlen raw) 7 128 Hp) as (b & rest & Hfirst & Hb & Hbyte); [done |].
  assert (Hw : zlen wire = zlen (encodeInteger [] (zlen raw) 7 128) + zlen raw) by apply zlen_app.
  assert (Hpos : 0 < zlen wire) by (rewrite Hw, Hfirst, zlen_cons; zlen_lia).
  assert (Hfetch : fetch wire 0 = Ret (128 + b)).
  { unfold wire. rewrite Hfirst. exact (fetch_app_mid [] (128 + b) (rest ++ raw)). }
  unfold decodeString, check, mbind, parser_bind. test_true. rewrite Hfetch. cbn [result_bind].
  rewrite byte_high by done. replace (128 + b <? 128) with false by lia. cbn [negb]. rewrite Hint.
  assert (Hu : u64 (zlen (encodeInteger [] (zlen raw) 7 128) + zlen raw) = zlen wire).
  { rewrite Hw. apply Z.mod_small. zlen_lia. }
  rewrite Hu. test_true. unfold next_bytes.
  assert (Hs : fetch_slice wire (zlen (encodeInteger [] (zlen raw) 7 128)) (zlen raw) = Ret raw).
  { unfold wire. rewrite <- (app_nil_r raw) at 2. apply fetch_slice_app_mid. }
  rewrite Hs. unfold lift, mbind. rewrite <- Hw. done.
Qed.

(** A Huffman-coded string is read back exactly when its code fills whole bytes: the
    padding that every other string ends with is refused, although the encoder of the same
    file writes it. *)
Theorem hpack_huffman_padding_refused s : is_bytes s -> zlen (huffmanEncode s) < 2 ^ 32 ->
  let wire := encodeString [] s true in
  decodeString wire 0 = if huffman_size s mod 8 =? 0 then Ret (s, zlen wire) else Reject.
Proof.
  intros Hs Hl wire. unfold wire, encodeString. pose proof (zlen_nonneg (huffmanEncode s)).
  assert (u32 (zlen (huffmanEncode s)) = zlen (huffmanEncode s)) as -> by (apply Z.mod_small; lia).
  rewrite decodeString_huffman, huffmanDecode_encode by (done || apply huffmanEncode_bytes). by case_test.
Qed.

(** The example of RFC 7541, C.4.1: www.example.com takes 89 bits. *)
Lemma hpack_huffman_padding_refused_witness :
  decodeString (encodeString [] (str "www.example.com") true) 0 = Reject.
Proof.
  refine (hpack_huffman_padding_refused (str "www.example.com") _ _); [closed_bytes | by vm_compute].
Defined.

(** ** The table size the peer sets for its own decoder *)

(** The table size that the peer announces for its own decoder is applied to ours as
    well: an entry the peer has just put into the table, and may refer to, is gone and the
    reference is refused. *)
Theorem hpack_settings_break_decoder h e :
  header_bytes h -> zlen h.(name) + zlen h.(value) + 32 <= 4096 ->
  let literal := [64] ++ encodeString [] h.(name) false ++ encodeString [] h.(value) false in
  let t := mkTable [h] 4096 (entrySize h) in
  decode literal newTable = Ret (true, [h], t)
  /\ decode [190] t = Ret (true, [h], t)
  /\ decode [190] (onHeaderTableSize 0 e t).2 = Ret (false, [], mkTable [] 0 0).
Proof.
  intros [Hn Hv] Hsz literal t. pose proof (zlen_nonneg h.(name)). pose proof (zlen_nonneg h.(value)).
  assert (He : entrySize h = zlen h.(name) + zlen h.(value) + 32) by (apply Z.mod_small; lia).
  assert (Hadd : addToDynamicTable h newTable = t).
  { unfold addToDynamicTable, evict, newTable, t. cbn [maxDynamicTableSize dynamicTableSize dynamicTable length].
    rewrite He. test_false. cbn [evictLoop dynamicTableSize maxDynamicTableSize].
    rewrite Z.add_0_l. unfold wrapu. rewrite Z.mod_small by lia. by test_false. }
  split_and!; [| done |].
  - assert (Hr : reads (decodeLiteral 6 newTable) literal h).
    { replace h with (mkHeader h.(name) h.(value)) by (by destruct h). apply reads_new_literal; (done || lia). }
    assert (Hbuf : buffer literal).
    { split; [unfold literal; apply is_bytes_app_2; [by repeat constructor | auto with qtng] |].
      unfold fits, literal, encodeString. rewrite !zlen_app. change (zlen [64]) with 1.
      pose proof (zlen_encodeInteger (u32 (zlen h.(name))) 7 0). pose proof (zlen_encodeInteger (u32 (zlen h.(value))) 7 0).
      lia. }
    pose proof (decode_literal [] literal [] h 64 (tail literal) [] newTable (length literal)) as Hl.
    rewrite app_nil_l, app_nil_r, zlen_nil, Z.add_0_l, Hadd in Hl. unfold decode. rewrite Nat.add_1_r, Hl by done.
    change (length literal) with (S (length (tail literal))). cbn [decodeLoop]. by test_true.
  - unfold onHeaderTableSize, setMaxDynamicTableSize, evict, t. cbn. test_true. rewrite Z.sub_diag. done.
Qed.

Lemma hpack_settings_break_decoder_witness :
  let h := mkHeader (str "x-id") (str "7") in let t := mkTable [h] 4096 (entrySize h) in
  decode ([64] ++ encodeString [] h.(name) false ++ encodeString [] h.(value) false) newTable = Ret (true, [h], t)
  /\ decode [190] t = Ret (true, [h], t)
  /\ decode [190] (onHeaderTableSize 0 newTable t).2 = Ret (false, [], mkTable [] 0 0).
Proof.
  refine (hpack_settings_break_decoder (mkHeader (str "x-id") (str "7")) newTable _ _).
  - split; closed_bytes.
  - vm_compute. discriminate.
Defined.

(** ** A zero byte ends a value for the search of the static table *)

Lemma c_str_cut a s : 0 ∉ a -> c_str (a ++ 0 :: s) = a.
Proof.
  induction a as [| b a IH]; [done |]. rewrite not_elem_of_cons. intros [Hb Ha]. cbn [app c_str].
  test_false. by rewrite IH.
Qed.

Lemma findLoop_c_str table i nameIndex h h' : c_str h.(name) = c_str h'.(name) -> c_str h.(value) = c_str h'.(value) ->
  findLoop table i nameIndex h = findLoop table i nameIndex h'.
Proof.
  intros Hn Hv. revert i nameIndex. induction table as [| e table IH]; intros i nameIndex; [done |].
  cbn [findLoop]. unfold strcmp_eq. by rewrite Hn, Hv, IH.
Qed.

(** A value of the static table followed by a zero byte and anything else is encoded as
    the entry of the table: the rest is lost. *)
Theorem hpack_zero_byte_cuts i e s t : kStaticTable !! i = Some e ->
  encode [mkHeader e.1 (e.2 ++ 0 :: s)] t = encode [mkHeader e.1 e.2] t.
Proof.
  intros Hi. destruct (static_no_zero _ _ Hi) as [_ Hz].
  assert (Hf : findStaticIndex (mkHeader e.1 (e.2 ++ 0 :: s)) = findStaticIndex (mkHeader e.1 e.2)).
  { apply findLoop_c_str; [done |]. cbn [value]. by rewrite c_str_cut, c_str_id. }
  assert (Hall : Forall (fun e => (findStaticIndex (mkHeader e.1 e.2)).1 > 0
    /\ (findStaticIndex (mkHeader e.1 e.2)).2 = false) kStaticTable).
  { refine (@bool_decide_unpack _ _ _). by vm_compute. }
  destruct (Forall_lookup_1 _ _ _ _ Hall Hi) as [H1 H2]. unfold encode. cbn [encodeLoop]. unfold encodeHeader.
  rewrite Hf. destruct (findStaticIndex (mkHeader e.1 e.2)) as [k b]. cbn [fst snd] in *. subst b. by test_true.
Qed.
