(* ===== verification/Semaphore.v ===== *)
(** * Semaphores of coroutines ([src/src/locks.cpp])

    [SemaphorePrivate] with the event loop around it.  Coroutines run one at a time
    and give way only where they call [yield]; the loop runs the functor that
    [release] schedules, and the timers of [acquire].  An execution is a sequence of
    [Action]s, each of which runs the code up to the next point where control
    changes hands. *)

From S2P Require Import Prelude.

(** ** The semaphore *)

Definition UINT_MAX : Z := 4294967295.

(** [notified] is the id of a scheduled call, or zero. *)
Record Semaphore : Type := mkSem {
  waiters : list nat;
  init_value : Z;
  counter : Z;
  notified : bool
}.

Definition newSemaphore (value : Z) : Semaphore := mkSem [] (Z.max 1 value) value false.

Definition set_waiters (l : list nat) (s : Semaphore) : Semaphore :=
  mkSem l s.(init_value) s.(counter) s.(notified).
Definition set_counter (n : Z) (s : Semaphore) : Semaphore :=
  mkSem s.(waiters) s.(init_value) n s.(notified).
Definition set_notified (b : bool) (s : Semaphore) : Semaphore :=
  mkSem s.(waiters) s.(init_value) s.(counter) b.

(** [release]; the scheduled functor is the one of [Notify] below. *)
Definition release (value : Z) (s : Semaphore) : Semaphore :=
  if value <=? 0 then s else
  let n := if s.(counter) >? INT_MAX - value then INT_MAX else s.(counter) + value in
  let s := set_counter (Z.min n s.(init_value)) s in
  if negb s.(notified) && negb (bool_decide (s.(waiters) = [])) then set_notified true s else s.

(** How a call of [acquire] goes on: it returns [true] or [false], or it yields with
    [gotNum] units taken and [remain] to go. *)
Inductive Attempt : Type :=
| Granted
| Denied
| Blocked (gotNum remain : Z).

(** The first pass of the loop of [acquire]. *)
Definition enqueue (c : nat) (gotNum remain : Z) (s : Semaphore) : Attempt * Semaphore :=
  (Blocked gotNum remain, set_waiters (s.(waiters) ++ [c]) s).

(** A negative [value] adds units; the overflow that this can lead to is shown wrapped. *)
Definition acquire (c : nat) (value msecs : Z) (s : Semaphore) : Attempt * Semaphore :=
  if s.(counter) >=? value then (Granted, set_counter (s32 (s.(counter) - value)) s)
  else if msecs =? 0 then (Denied, s)
  else enqueue c s.(counter) (value - s.(counter)) (set_counter 0 s).

(** What follows the [yield] in the loop of [acquire]: a coroutine that is still
    among the waiters was woken by its timer. *)
Definition resumed (c : nat) (gotNum remain : Z) (s : Semaphore) : Attempt * Semaphore :=
  let found := bool_decide (c ∈ s.(waiters)) in
  let s := set_waiters (filter (fun w => w <> c) s.(waiters)) s in
  if found then (Denied, release gotNum s)
  else if s.(counter) >=? remain then (Granted, set_counter (s.(counter) - remain) s)
  else enqueue c (gotNum + s.(counter)) (remain - s.(counter)) (set_counter 0 s).

(** [Semaphore::acquireMany] refuses more than there can ever be. *)
Definition acquireMany (c : nat) (value msecs : Z) (s : Semaphore) : Attempt * Semaphore :=
  if value >? s.(init_value) then (Denied, s) else acquire c value msecs s.

Definition isLocked (s : Semaphore) : bool := s.(counter) <=? 0.
Definition isUsed (s : Semaphore) : bool := s.(counter) <? s.(init_value).
Definition getting (s : Semaphore) : Z := zlen s.(waiters).

(** ** Coroutines and the loop *)

(** A coroutine in [acquire] keeps what it took; [timed] when a timer will end the
    wait.  [held] counts the units that its calls were granted less those that it
    released: the code does not record it, and lets anybody release. *)
Inductive Status : Type :=
| Free
| Waiting (gotNum remain : Z) (timed : bool).

Record Coroutine : Type := mkCo { status : Status; held : Z }.

(** [cur] is the running coroutine, [None] for the loop; [active] while the loop is
    inside the functor that wakes waiters; [spilt] counts the units that [release] dropped
    because the counter does not exceed the initial value. *)
Record System : Type := mkSys {
  sem : Semaphore;
  cos : list Coroutine;
  cur : option nat;
  active : bool;
  spilt : Z
}.

Inductive Action : Type :=
| Run (c : nat)                 (* the loop resumes a coroutine that is not in acquire *)
| Leave                         (* the running coroutine yields elsewhere or ends *)
| Acquire (value msecs : Z)     (* the running coroutine calls acquireMany *)
| Release (value : Z)           (* the running coroutine calls release, whatever it holds *)
| Notify                        (* the loop calls the functor *)
| Wake                          (* the functor resumes the first waiter *)
| Done                          (* the functor ends *)
| Timeout (c : nat)             (* the timer of a waiter resumes it *)
| Kill (c : nat).               (* an exception is raised in a waiter *)

(** The condition of the functor's loop, without [doDelete]. *)
Definition more (s : Semaphore) : bool :=
  s.(notified) && (s.(counter) >? 0) && negb (bool_decide (s.(waiters) = [])).

(** What [release] drops. *)
Definition spill (value : Z) (s : Semaphore) : Z := s.(counter) + Z.max 0 value - (release value s).(counter).

(** What a call of [acquire] leaves: the coroutine runs on, or waits; [lost] units were
    dropped. *)
Definition settle (c : nat) (timed : bool) (units lost : Z) (r : Attempt * Semaphore) (co : Coroutine)
    (sys : System) : System :=
  match r.1 with
  | Granted => mkSys r.2 (<[c := mkCo Free (co.(held) + units)]> sys.(cos)) (Some c) sys.(active) (sys.(spilt) + lost)
  | Denied => mkSys r.2 (<[c := mkCo Free co.(held)]> sys.(cos)) (Some c) sys.(active) (sys.(spilt) + lost)
  | Blocked g r' => mkSys r.2 (<[c := mkCo (Waiting g r' timed) co.(held)]> sys.(cos)) None sys.(active) (sys.(spilt) + lost)
  end.

Definition exec (a : Action) (sys : System) : option System :=
  match a, sys.(cur) with
  | Run c, None =>
      co ← sys.(cos) !! c;
      if sys.(active) then None else
      match co.(status) with Free => Some (mkSys sys.(sem) sys.(cos) (Some c) false sys.(spilt)) | _ => None end
  | Leave, Some c => Some (mkSys sys.(sem) sys.(cos) None sys.(active) sys.(spilt))
  | Acquire value msecs, Some c =>
      co ← sys.(cos) !! c;
      Some (settle c (negb (msecs =? UINT_MAX)) value 0 (acquireMany c value msecs sys.(sem)) co sys)
  | Release value, Some c =>
      co ← sys.(cos) !! c;
      Some (mkSys (release value sys.(sem)) (<[c := mkCo co.(status) (co.(held) - Z.max 0 value)]> sys.(cos))
                  (Some c) sys.(active) (sys.(spilt) + spill value sys.(sem)))
  | Notify, None =>
      if sys.(active) || negb sys.(sem).(notified) then None
      else Some (mkSys sys.(sem) sys.(cos) None true sys.(spilt))
  | Wake, None =>
      if negb (sys.(active) && more sys.(sem)) then None else
      match sys.(sem).(waiters) with
      | [] => None
      | w :: ws =>
          co ← sys.(cos) !! w;
          match co.(status) with
          | Free => None
          | Waiting g r timed => Some (settle w timed (g + r) 0 (resumed w g r (set_waiters ws sys.(sem))) co sys)
          end
      end
  | Done, None =>
      if negb sys.(active) || more sys.(sem) then None
      else Some (mkSys (set_notified false sys.(sem)) sys.(cos) None false sys.(spilt))
  | Timeout c, None =>
      co ← sys.(cos) !! c;
      if sys.(active) then None else
      match co.(status) with
      | Waiting g r true => Some (settle c true (g + r) (spill g sys.(sem)) (resumed c g r sys.(sem)) co sys)
      | _ => None
      end
  | Kill c, None =>
      co ← sys.(cos) !! c;
      if sys.(active) then None else
      match co.(status) with
      | Waiting g r timed => Some (settle c timed (g + r) (spill g sys.(sem)) (resumed c g r sys.(sem)) co sys)
      | _ => None
      end
  | _, _ => None
  end.

(** [n] coroutines before a new semaphore. *)
Definition start (n : nat) (value : Z) : System :=
  mkSys (newSemaphore value) (replicate n (mkCo Free 0)) None false 0.

Fixpoint execs (l : list Action) (sys : System) : option System :=
  match l with
  | [] => Some sys
  | a :: l' => sys' ← exec a sys; execs l' sys'
  end.

(** ** Destruction *)

(** [scheduleDelete], then its functor with [doDelete]: it resumes the first waiter as
    long as there is one.  [asked] has [gotNum] and [remain] of each waiter; a
    coroutine that is granted its units leaves. *)
Definition scheduleDelete (s : Semaphore) : Semaphore :=
  set_notified true (set_counter s.(init_value) s).

Fixpoint deleteLoop (fuel : nat) (asked : list (Z * Z)) (s : Semaphore) : result Semaphore :=
  match fuel with
  | O => OutOfFuel
  | S fuel' =>
      match s.(waiters), asked with
      | w :: ws, (g, r) :: asked' =>
          match resumed w g r (set_waiters ws s) with
          | (Blocked g' r', s) => deleteLoop fuel' (asked' ++ [(g', r')]) s
          | (_, s) => deleteLoop fuel' asked' s
          end
      | _, _ => Ret (set_notified false s)
      end
  end.
