(* ===== verification/SemaphoreProps.v ===== *)
(** * Semaphores: what an execution guarantees

    Over every execution of coroutines and loop: units are conserved, no wake-up is
    lost and, if nobody releases what it does not hold, a lock excludes.  Waiters that ask for one unit are served in the order
    they came; with [acquireMany] they can starve each other for good, and the
    destructor ends only when the waiters ask for no more than there is. *)

From S2P Require Import Prelude Semaphore.

(** ** The invariant of every execution

    Units are neither lost nor made: those in the counter, those held, those that
    waiters keep and those that [release] dropped add up to the initial value.  A unit
    that is free while somebody waits has a wake-up under way. *)

(** ** The invariant *)

(** Units that a coroutine keeps while it waits. *)
Definition kept (co : Coroutine) : Z :=
  match co.(status) with Free => 0 | Waiting g _ _ => g end.

Definition co_ok (init : Z) (co : Coroutine) : Prop :=
  match co.(status) with
  | Free => True
  | Waiting g r _ => 0 <= g /\ 1 <= r /\ g + r <= init
  end.

Definition is_waiting (co : Coroutine) : Prop :=
  match co.(status) with Free => False | _ => True end.

Record inv (sys : System) : Prop := {
  inv_init : 1 <= sys.(sem).(init_value) <= INT_MAX;
  inv_counter : 0 <= sys.(sem).(counter) <= sys.(sem).(init_value);
  inv_units : sys.(sem).(counter) + total held sys.(cos) + total kept sys.(cos) + sys.(spilt) = sys.(sem).(init_value);
  inv_cos : Forall (co_ok sys.(sem).(init_value)) sys.(cos);
  inv_nodup : NoDup sys.(sem).(waiters);
  inv_waiters : forall c, c ∈ sys.(sem).(waiters) <-> exists co, sys.(cos) !! c = Some co /\ is_waiting co;
  inv_cur : forall c, sys.(cur) = Some c -> exists co, sys.(cos) !! c = Some co /\ co.(status) = Free;
  inv_wakeup : 0 < sys.(sem).(counter) -> sys.(sem).(waiters) <> [] -> sys.(sem).(notified) = true;
  inv_active : sys.(active) = true -> sys.(sem).(notified) = true;
  inv_spilt : 0 <= sys.(spilt)
}.

(** Nobody asks for a negative number of units. *)
Definition asks (a : Action) : bool := match a with Acquire value _ => 0 <=? value | _ => true end.

Lemma kept_nonneg init l : Forall (co_ok init) l -> Forall (fun co => 0 <= kept co) l.
Proof. apply Forall_impl. intros co H. unfold co_ok in H. unfold kept. destruct (status co); [done | lia]. Qed.

Lemma inv_start n value : 1 <= value <= INT_MAX -> inv (start n value).
Proof.
  intros Hv. assert (Hz : forall f, f (mkCo Free 0) = 0 -> total f (replicate n (mkCo Free 0)) = 0).
  { intros f Hf. induction n as [| n IH]; cbn; lia. }
  split; cbn; try done; try lia.
  - rewrite !Hz by done. lia.
  - apply Forall_replicate. done.
  - constructor.
  - intros c. split; [by intros ?%not_elem_of_nil |].
    intros (co & Hco & Hw). apply lookup_replicate in Hco as [-> _]. done.
Qed.

(** ** One coroutine changes *)

Lemma inv_update sys c co co' s' cur' active' spilt' : inv sys -> sys.(cos) !! c = Some co ->
  s'.(init_value) = sys.(sem).(init_value) -> 0 <= s'.(counter) <= s'.(init_value) ->
  s'.(counter) + co'.(held) + kept co' + spilt' = sys.(sem).(counter) + co.(held) + kept co + sys.(spilt) -> 0 <= spilt' ->
  co_ok s'.(init_value) co' -> NoDup s'.(waiters) ->
  (c ∈ s'.(waiters) <-> is_waiting co') ->
  (forall d, d <> c -> d ∈ s'.(waiters) <-> d ∈ sys.(sem).(waiters)) ->
  (forall d, cur' = Some d -> d = c /\ co'.(status) = Free) ->
  (0 < s'.(counter) -> s'.(waiters) <> [] -> s'.(notified) = true) ->
  (active' = true -> s'.(notified) = true) ->
  inv (mkSys s' (<[c := co']> sys.(cos)) cur' active' spilt').
Proof.
  intros I Hc Hi Hcnt Hunits Hsp Hok Hnd Hw Hws Hcur Hwake Hact. pose proof (lookup_lt_Some _ _ _ Hc) as Hlt.
  destruct I as [I1 I2 I3 I4 I5 I6 I7 I8 I9 I10]. split; cbn [sem cos cur active spilt]; try done.
  - by rewrite Hi.
  - rewrite !(total_insert _ _ _ _ _ Hc). lia.
  - rewrite Hi in *. by apply Forall_insert.
  - intros d. destruct (decide (d = c)) as [-> | Hd].
    + rewrite Hw. rewrite list_lookup_insert_eq by done. naive_solver.
    + rewrite Hws, I6 by done. by rewrite list_lookup_insert_ne.
  - intros d Hd. destruct (Hcur d Hd) as [-> ?]. exists co'. by rewrite list_lookup_insert_eq.
Qed.

(** ** The operations of the semaphore *)

(** What is released is there afterwards, up to the initial value. *)
Lemma release_units value s : 0 <= s.(counter) <= s.(init_value) -> s.(init_value) <= INT_MAX ->
  (release value s).(counter) = Z.min (s.(counter) + Z.max 0 value) s.(init_value) /\ (release value s).(init_value) = s.(init_value)
  /\ (release value s).(waiters) = s.(waiters)
  /\ (0 < value -> s.(waiters) <> [] -> (release value s).(notified) = true)
  /\ (s.(notified) = true -> (release value s).(notified) = true).
Proof.
  intros Hc Hi. unfold release. destruct s as [ws i n b]. cbn in *. destruct (value <=? 0) eqn:Hv; cbn; [split; [lia |]; split_and!; try done; lia |].
  assert (Z.min (if n >? INT_MAX - value then INT_MAX else n + value) i = Z.min (n + Z.max 0 value) i) as -> by (case_test; lia).
  destruct b; [done |]. by case_bool_decide.
Qed.

Lemma spill_units value s : 0 <= s.(counter) <= s.(init_value) -> s.(init_value) <= INT_MAX ->
  spill value s = Z.max 0 (s.(counter) + Z.max 0 value - s.(init_value)).
Proof. intros Hc Hi. unfold spill. destruct (release_units value s Hc Hi) as [-> _]. lia. Qed.

Lemma filter_other (l : list nat) c d : d <> c -> d ∈ filter (fun w => w <> c) l <-> d ∈ l.
Proof. intros Hd. rewrite list_elem_of_filter. naive_solver. Qed.

Lemma filter_absent (l : list nat) c : c ∉ l -> filter (fun w => w <> c) l = l.
Proof.
  induction l as [| x l IH]; [done |]. rewrite not_elem_of_cons. intros [Hx Hl].
  rewrite filter_cons_True by done. by rewrite IH.
Qed.

(** A coroutine that keeps [g] units and waits for [r] more is resumed by the functor. *)
Lemma resumed_popped c g r s : c ∉ s.(waiters) -> 0 <= s.(counter) ->
  resumed c g r s = if s.(counter) >=? r then (Granted, set_counter (s.(counter) - r) s)
                    else enqueue c (g + s.(counter)) (r - s.(counter)) (set_counter 0 s).
Proof.
  intros Hc Hn. unfold resumed. rewrite bool_decide_false by done. rewrite filter_absent by done.
  by destruct s.
Qed.

(** A coroutine that is still among the waiters gives back what it kept. *)
Lemma resumed_found c g r s : c ∈ s.(waiters) ->
  resumed c g r s = (Denied, release g (set_waiters (filter (fun w => w <> c) s.(waiters)) s)).
Proof. intros Hc. unfold resumed. by rewrite bool_decide_true by done. Qed.

(** Joining the waiters with all that is left. *)
Lemma inv_enqueue sys c co g r timed s : inv sys -> sys.(cos) !! c = Some co ->
  s.(init_value) = sys.(sem).(init_value) -> s.(notified) = sys.(sem).(notified) ->
  c ∉ s.(waiters) -> NoDup s.(waiters) ->
  (forall d, d <> c -> d ∈ s.(waiters) <-> d ∈ sys.(sem).(waiters)) ->
  g = kept co + sys.(sem).(counter) -> 1 <= r -> g + r <= s.(init_value) ->
  inv (settle c timed (g + r) 0 (enqueue c g r (set_counter 0 s)) co sys).
Proof.
  intros I Hc Hi Hn Hcw Hnd Hws Hg Hr Hmax. pose proof I as [I1 I2 I3 I4 I5 I6 I7 I8 I9 I10].
  assert (Hk : 0 <= kept co) by (apply (Forall_lookup_1 _ _ _ _ (kept_nonneg _ _ I4) Hc)).
  unfold settle, enqueue. cbn [fst snd]. eapply inv_update; try done; cbn.
  - lia.
  - change (kept (mkCo (Waiting g r timed) (held co))) with g. lia.
  - lia.
  - unfold co_ok. cbn. lia.
  - apply list.NoDup_app. split; [done |]. split; [by intros x Hx ->%list_elem_of_singleton | apply NoDup_singleton].
  - split; [done |]. intros _. apply elem_of_app. right. by apply list_elem_of_singleton.
  - intros d Hd. rewrite elem_of_app, list_elem_of_singleton, Hws by done. naive_solver.
  - rewrite Hn. apply I9.
Qed.

(** Taking all that is asked for. *)
Lemma inv_granted sys c co r s : inv sys -> sys.(cos) !! c = Some co ->
  s.(init_value) = sys.(sem).(init_value) -> s.(notified) = sys.(sem).(notified) ->
  s.(counter) = sys.(sem).(counter) -> c ∉ s.(waiters) -> NoDup s.(waiters) ->
  (forall d, d <> c -> d ∈ s.(waiters) <-> d ∈ sys.(sem).(waiters)) ->
  0 <= r <= sys.(sem).(counter) ->
  inv (mkSys (set_counter (s.(counter) - r) s)
             (<[c := mkCo Free (co.(held) + (kept co + r))]> sys.(cos)) (Some c) sys.(active) (sys.(spilt) + 0)).
Proof.
  intros I Hc Hi Hn Hcnt Hcw Hnd Hws Hr. pose proof I as [I1 I2 I3 I4 I5 I6 I7 I8 I9 I10].
  assert (Hk : 0 <= kept co) by (apply (Forall_lookup_1 _ _ _ _ (kept_nonneg _ _ I4) Hc)).
  eapply inv_update; try done; cbn.
  - lia.
  - change (kept (mkCo Free (held co + (kept co + r)))) with 0. lia.
  - lia.
  - intros d [= ->]. done.
  - rewrite Hn. intros Hp Hw. apply I8; [lia |]. intros Hnil. apply Hw.
    destruct s.(waiters) as [| d l] eqn:E; [done |]. exfalso.
    apply (not_elem_of_nil d). rewrite <- Hnil. apply Hws; [| by constructor].
    intros ->. apply Hcw. by constructor.
  - rewrite Hn. apply I9.
Qed.

(** A timer or an exception ends a wait. *)
Lemma inv_found sys c co g r timed : inv sys -> sys.(cos) !! c = Some co -> co.(status) = Waiting g r timed ->
  forall b units, inv (settle c b units (spill g sys.(sem)) (resumed c g r sys.(sem)) co sys).
Proof.
  intros I Hc Hst b units. pose proof I as [I1 I2 I3 I4 I5 I6 I7 I8 I9 I10].
  assert (Hcw : c ∈ sys.(sem).(waiters)) by (apply I6; exists co; unfold is_waiting; by rewrite Hst).
  rewrite resumed_found by done. unfold settle. cbn [fst snd].
  pose proof (Forall_lookup_1 _ _ _ _ I4 Hc) as Hok. unfold co_ok in Hok. rewrite Hst in Hok.
  rewrite spill_units by lia.
  destruct (release_units g (set_waiters (filter (fun w => w <> c) sys.(sem).(waiters)) sys.(sem))) as (R1 & R2 & R3 & R4 & R5); cbn in *; try lia.
  eapply inv_update; try done; cbn.
  - lia.
  - rewrite R1. unfold kept. cbn. rewrite Hst. lia.
  - lia.
  - rewrite R3. by apply list.NoDup_filter.
  - rewrite R3, list_elem_of_filter. unfold is_waiting. cbn. naive_solver.
  - intros d Hd. rewrite R3. by apply filter_other.
  - intros d [= ->]. done.
  - rewrite R3. intros Hp Hw. destruct (decide (g = 0)) as [-> | Hz]; [| apply R4; [lia | done]].
    apply R5, I8; [lia |]. intros Hnil. by rewrite Hnil in Hw.
  - intros Ha. by apply R5, I9.
Qed.

(** ** Every action *)

(** [acquireMany] by a coroutine that runs. *)
Lemma inv_acquire sys c co value msecs b : inv sys -> sys.(cur) = Some c -> sys.(cos) !! c = Some co ->
  0 <= value -> inv (settle c b value 0 (acquireMany c value msecs sys.(sem)) co sys).
Proof.
  intros I Hcur Hc Hv. pose proof I as [I1 I2 I3 I4 I5 I6 I7 I8 I9 I10].
  destruct (I7 c Hcur) as (co' & Hco & Hst). rewrite Hc in Hco. injection Hco as <-.
  assert (Hk : kept co = 0) by (unfold kept; by rewrite Hst).
  assert (Hcw : c ∉ sys.(sem).(waiters)).
  { rewrite I6. intros (co' & Hco & Hw). rewrite Hc in Hco. injection Hco as <-.
    unfold is_waiting in Hw. by rewrite Hst in Hw. }
  assert (Hden : inv (settle c b value 0 (Denied, sys.(sem)) co sys)).
  { unfold settle. cbn [fst snd]. rewrite list_insert_id by (rewrite Hc; destruct co; cbn in *; by subst).
    split; cbn; try done; try lia. intros d [= <-]. by exists co. }
  unfold acquireMany. case_test; [done |]. unfold acquire. case_test.
  - unfold settle. cbn [fst snd]. assert (s32 (sys.(sem).(counter) - value) = sys.(sem).(counter) - value) as ->.
    { unfold wraps. rewrite Z.mod_small; unfold INT_MAX in *; lia. }
    replace value with (kept co + value) at 2 by lia.
    apply inv_granted; try done; lia.
  - case_test; [done |]. replace value with (sys.(sem).(counter) + (value - sys.(sem).(counter))) at 1 by lia.
    apply inv_enqueue; try done; lia.
Qed.

(** The functor resumes the first waiter. *)
Lemma inv_wake sys w ws co g r timed : inv sys -> sys.(sem).(waiters) = w :: ws ->
  sys.(cos) !! w = Some co -> co.(status) = Waiting g r timed ->
  inv (settle w timed (g + r) 0 (resumed w g r (set_waiters ws sys.(sem))) co sys).
Proof.
  intros I Hws Hc Hst. pose proof I as [I1 I2 I3 I4 I5 I6 I7 I8 I9 I10].
  rewrite Hws in I5. apply list.NoDup_cons in I5 as [Hw Hnd].
  pose proof (Forall_lookup_1 _ _ _ _ I4 Hc) as Hok. unfold co_ok in Hok. rewrite Hst in Hok.
  assert (Hk : kept co = g) by (unfold kept; by rewrite Hst).
  assert (Hot : forall d, d <> w -> d ∈ ws <-> d ∈ sys.(sem).(waiters)).
  { intros d Hd. rewrite Hws, elem_of_cons. naive_solver. }
  rewrite resumed_popped by (done || cbn; lia). cbn [counter set_waiters]. case_test.
  - unfold settle. cbn [fst snd]. rewrite <- Hk.
    apply (inv_granted sys w co r (set_waiters ws sys.(sem))); try done. cbn. lia.
  - replace (g + r) with ((g + sys.(sem).(counter)) + (r - sys.(sem).(counter))) by lia.
    apply (inv_enqueue sys w co _ _ timed (set_waiters ws sys.(sem))); try done; cbn; lia.
Qed.

Lemma inv_release sys c co value : inv sys -> sys.(cur) = Some c -> sys.(cos) !! c = Some co ->
  inv (mkSys (release value sys.(sem)) (<[c := mkCo co.(status) (co.(held) - Z.max 0 value)]> sys.(cos))
             (Some c) sys.(active) (sys.(spilt) + spill value sys.(sem))).
Proof.
  intros I Hcur Hc. pose proof I as [I1 I2 I3 I4 I5 I6 I7 I8 I9 I10].
  destruct (I7 c Hcur) as (co' & Hco & Hst). rewrite Hc in Hco. injection Hco as <-. rewrite spill_units by lia.
  destruct (release_units value sys.(sem)) as (R1 & R2 & R3 & R4 & R5); try lia.
  eapply inv_update; try done; cbn.
  - lia.
  - change (kept (mkCo co.(status) (co.(held) - Z.max 0 value))) with (kept co). lia.
  - lia.
  - rewrite R2. exact (Forall_lookup_1 _ _ _ _ I4 Hc).
  - by rewrite R3.
  - rewrite R3, I6. unfold is_waiting. cbn. naive_solver.
  - intros d _. by rewrite R3.
  - intros d [= ->]. done.
  - rewrite R3. intros Hp Hw. destruct (decide (0 < value)); [by apply R4 |]. apply R5, I8; [lia | done].
  - intros Ha. by apply R5, I9.
Qed.

Lemma inv_exec a sys sys' : inv sys -> asks a = true -> exec a sys = Some sys' -> inv sys'.
Proof.
  intros I Hask. pose proof I as [I1 I2 I3 I4 I5 I6 I7 I8 I9 I10]. destruct sys as [s l cu ac sp]. cbn in *.
  destruct a as [c | | value msecs | value | | | | c | c]; destruct cu as [d |]; cbn; try done.
  - destruct (l !! c) as [co |] eqn:Hc; cbn; [| done]. destruct ac; [done |].
    destruct co.(status) eqn:Hst; [| done]. intros [= <-]. split; try done. cbn. intros ? [= <-]. by exists co.
  - intros [= <-]. by split.
  - destruct (l !! d) as [co |] eqn:Hc; cbn; [| done]. intros [= <-].
    cbn in Hask. apply (inv_acquire (mkSys s l (Some d) ac sp)); try done. lia.
  - destruct (l !! d) as [co |] eqn:Hc; cbn; [| done]. intros [= <-].
    by apply (inv_release (mkSys s l (Some d) ac sp) d co).
  - destruct (ac || negb (notified s)) eqn:Hn; [done |]. intros [= <-].
    apply orb_false_iff in Hn as [-> Hn]. split; try done. cbn. intros _. by destruct (notified s).
  - destruct (negb (ac && more s)); [done |]. destruct s.(waiters) as [| w ws] eqn:Hws; [done |].
    destruct (l !! w) as [co |] eqn:Hc; cbn; [| done]. destruct co.(status) eqn:Hst; [done |].
    intros [= <-]. by apply (inv_wake (mkSys s l None ac sp)).
  - destruct (negb ac || more s) eqn:Hm; [done |]. intros [= <-].
    apply orb_false_iff in Hm as [Hac Hm]. destruct ac; [| done].
    split; try done. cbn. intros Hp Hw. exfalso. unfold more in Hm. rewrite I9 in Hm by done.
    rewrite bool_decide_false in Hm by done. replace (counter s >? 0) with true in Hm by lia. done.
  - destruct (l !! c) as [co |] eqn:Hc; cbn; [| done]. destruct ac; [done |].
    destruct co.(status) as [| g r []] eqn:Hst; try done. intros [= <-].
    by eapply (inv_found (mkSys s l None false sp)).
  - destruct (l !! c) as [co |] eqn:Hc; cbn; [| done]. destruct ac; [done |].
    destruct co.(status) as [| g r t] eqn:Hst; try done. intros [= <-].
    by eapply (inv_found (mkSys s l None false sp)).
Qed.

Lemma inv_execs l : forall sys sys', inv sys -> forallb asks l = true -> execs l sys = Some sys' -> inv sys'.
Proof.
  induction l as [| a l IH]; cbn; intros sys sys' I Hl; [by intros [= <-] |]. apply andb_true_iff in Hl as [H1 H2].
  destruct (exec a sys) as [sys1 |] eqn:E; cbn; [| done]. apply IH; [by eapply inv_exec | done].
Qed.

(** The number of units never changes. *)

Lemma release_init value s : (release value s).(init_value) = s.(init_value).
Proof. unfold release. case_test; [done |]. by destruct (_ && _). Qed.

Lemma resumed_init c g r s : (resumed c g r s).2.(init_value) = s.(init_value).
Proof. unfold resumed. case_bool_decide; cbn; [by rewrite release_init |]. by case_test. Qed.

Lemma acquireMany_init c value msecs s : (acquireMany c value msecs s).2.(init_value) = s.(init_value).
Proof. unfold acquireMany, acquire. repeat (case_test; [done |]). done. Qed.

Lemma settle_init c b u z r co sys : (settle c b u z r co sys).(sem) = r.2.
Proof. unfold settle. by destruct (fst r). Qed.

#[export] Hint Rewrite @settle_init @resumed_init @acquireMany_init @release_init : sem_init.

Lemma exec_init a sys sys' : exec a sys = Some sys' -> sys'.(sem).(init_value) = sys.(sem).(init_value).
Proof.
  intros H. destruct a; cbn in H; destruct (cur sys); cbn in H; try done;
    repeat match type of H with
    | mbind _ ?o = _ => destruct o; cbn in H; [| done]
    | (if ?b then _ else _) = _ => destruct b
    | match ?l with [] => _ | _ :: _ => _ end = _ => destruct l
    | match ?l with Free => _ | Waiting _ _ _ => _ end = _ => destruct l as [| ? ? []]
    end; try done; injection H as <-; cbn; autorewrite with sem_init; done.
Qed.

Lemma execs_init l : forall sys sys', execs l sys = Some sys' -> sys'.(sem).(init_value) = sys.(sem).(init_value).
Proof.
  induction l as [| a l IH]; cbn; intros sys sys'; [by intros [= <-] |].
  destruct (exec a sys) as [sys1 |] eqn:E; cbn; [| done]. intros H. rewrite (IH _ _ H). by eapply exec_init.
Qed.

(** ** Requests of one unit *)

Definition unit_co (co : Coroutine) : Prop :=
  match co.(status) with Free => True | Waiting g r _ => g = 0 /\ r = 1 end.

Definition unit_request (a : Action) : Prop :=
  match a with Acquire value _ => value = 1 | _ => True end.

Lemma unit_asks l : Forall unit_request l -> forallb asks l = true.
Proof.
  intros H. apply forallb_forall. intros a Ha. rewrite Forall_forall in H. specialize (H a Ha). destruct a; try done. cbn in *. by subst.
Qed.

Lemma unit_exec a sys sys' : inv sys -> unit_request a -> Forall unit_co sys.(cos) ->
  exec a sys = Some sys' -> Forall unit_co sys'.(cos).
Proof.
  intros I Ha Hu H. pose proof I as [I1 I2 I3 I4 I5 I6 I7 I8 I9 I10].
  assert (Hin : forall c st h, unit_co (mkCo st h) -> Forall unit_co (<[c := mkCo st h]> sys.(cos)))
    by (intros; by apply Forall_insert).
  assert (Hfound : forall c co g r t b u z, sys.(cos) !! c = Some co -> co.(status) = Waiting g r t ->
    Forall unit_co (settle c b u z (resumed c g r sys.(sem)) co sys).(cos)).
  { intros c co g r t b u z Hc Hst. rewrite resumed_found; [by apply Hin |].
    apply I6. exists co. unfold is_waiting. by rewrite Hst. }
  destruct a as [c | | value msecs | value | | | | c | c]; cbn in H; destruct (cur sys) as [d |] eqn:Hcur;
    try done.
  - destruct (cos sys !! c) as [co |]; cbn in H; [| done]. destruct (active sys); [done |].
    destruct (status co); [| done]. by injection H as <-.
  - by injection H as <-.
  - cbn in Ha. subst. destruct (cos sys !! d) as [co |]; cbn in H; [| done]. injection H as <-.
    unfold acquireMany. case_test; [by apply Hin |]. unfold acquire. case_test; [by apply Hin |].
    case_test; [by apply Hin |]. unfold enqueue, settle. cbn. apply Hin. unfold unit_co. cbn. lia.
  - destruct (cos sys !! d) as [co |] eqn:Hc; cbn in H; [| done].
    injection H as <-. cbn. apply Hin. unfold unit_co. cbn. apply (Forall_lookup_1 _ _ _ _ Hu Hc).
  - destruct (_ || _); [done |]. by injection H as <-.
  - destruct (negb _) eqn:Hm; [done |]. destruct (waiters (sem sys)) as [| w ws] eqn:Hws; [done |].
    destruct (cos sys !! w) as [co |] eqn:Hc; cbn in H; [| done].
    pose proof (Forall_lookup_1 _ _ _ _ Hu Hc) as Hco. unfold unit_co in Hco.
    destruct (status co) as [| g r t]; [done |]. injection H as <-. destruct Hco as [-> ->].
    rewrite resumed_popped; [| cbn; by inversion I5 | cbn; lia]. cbn.
    apply negb_false_iff, andb_true_iff in Hm as [_ Hm]. unfold more in Hm. bool_to_prop.
    rewrite (proj2 (Z.geb_le _ _)) by lia. by apply Hin.
  - destruct (_ || _); [done |]. by injection H as <-.
  - destruct (cos sys !! c) as [co |] eqn:Hc; cbn in H; [| done]. destruct (active sys); [done |].
    destruct (status co) as [| g r []] eqn:Hst; try done. injection H as <-. by eapply Hfound.
  - destruct (cos sys !! c) as [co |] eqn:Hc; cbn in H; [| done]. destruct (active sys); [done |].
    destruct (status co) as [| g r t] eqn:Hst; try done. injection H as <-. by eapply Hfound.
Qed.

Lemma unit_execs l : forall sys sys', inv sys -> Forall unit_request l -> Forall unit_co sys.(cos) ->
  execs l sys = Some sys' -> Forall unit_co sys'.(cos).
Proof.
  induction l as [| a l IH]; cbn; intros sys sys' I Hl Hu; [by intros [= <-] |].
  inversion Hl; subst. destruct (exec a sys) as [sys1 |] eqn:E; cbn; [| done].
  apply IH; [| done | by eapply unit_exec]. eapply inv_exec; [done | | done]. destruct a; try done. cbn in *. by subst.
Qed.

Lemma execs_app l1 l2 : forall sys, execs (l1 ++ l2) sys = sys' ← execs l1 sys; execs l2 sys'.
Proof.
  induction l1 as [| a l1 IH]; cbn; intros sys; [done |].
  by destruct (exec a sys) as [sys1 |]; cbn.
Qed.

(** The loop inside the functor hands one unit to the first waiter. *)
Lemma wake_unit sys w ws : inv sys -> Forall unit_co sys.(cos) -> sys.(cur) = None -> sys.(active) = true ->
  sys.(sem).(waiters) = w :: ws -> 0 < sys.(sem).(counter) ->
  exists co, sys.(cos) !! w = Some co /\
  execs [Wake; Leave] sys = Some (mkSys (set_counter (sys.(sem).(counter) - 1) (set_waiters ws sys.(sem)))
                                        (<[w := mkCo Free (co.(held) + 1)]> sys.(cos)) None true (sys.(spilt) + 0)).
Proof.
  intros I Hu Hcur Hact Hws Hp. pose proof I as [I1 I2 I3 I4 I5 I6 I7 I8 I9 I10].
  destruct (proj1 (I6 w)) as (co & Hc & Hw); [rewrite Hws; by constructor |].
  exists co. split; [done |]. pose proof (Forall_lookup_1 _ _ _ _ Hu Hc) as Hco. unfold unit_co, is_waiting in *.
  destruct (status co) as [| g r t] eqn:Hst; [done |]. destruct Hco as [-> ->].
  assert (Hn : notified (sem sys) = true) by (by apply I9).
  cbn. rewrite Hcur, Hact. unfold more. rewrite Hws, Hn, bool_decide_false by done.
  rewrite (proj2 (Z.gtb_lt _ _)) by lia. cbn. rewrite Hc. cbn. rewrite Hst.
  rewrite resumed_popped; [| cbn; rewrite Hws in I5; by inversion I5 | cbn; lia]. cbn.
  rewrite (proj2 (Z.geb_le _ _)) by lia. cbn. by rewrite Hact.
Qed.

Definition handOver (k : nat) : list Action := concat (replicate k [Wake; Leave]).

Lemma handOver_serves k : forall sys, inv sys -> Forall unit_co sys.(cos) -> sys.(cur) = None ->
  sys.(active) = true -> (k <= length sys.(sem).(waiters))%nat -> Z.of_nat k <= sys.(sem).(counter) ->
  exists sys', execs (handOver k) sys = Some sys'
  /\ sys'.(cur) = None /\ sys'.(active) = true
  /\ sys'.(sem).(waiters) = drop k sys.(sem).(waiters)
  /\ sys'.(sem).(counter) = sys.(sem).(counter) - Z.of_nat k
  /\ (forall i w, (i < k)%nat -> sys.(sem).(waiters) !! i = Some w ->
        exists co, sys.(cos) !! w = Some co /\ sys'.(cos) !! w = Some (mkCo Free (co.(held) + 1)))
  /\ (forall w, w ∉ take k sys.(sem).(waiters) -> sys'.(cos) !! w = sys.(cos) !! w).
Proof.
  induction k as [| k IH]; intros sys I Hu Hcur Hact Hk Hc.
  { exists sys. split_and!; try done; try lia. }
  destruct (waiters (sem sys)) as [| w ws] eqn:Hws; [cbn in Hk; lia |].
  destruct (wake_unit sys w ws) as (co & Hco & He); try done; try lia.
  assert (Hw : w ∉ ws) by (pose proof (inv_nodup _ I) as Hnd; rewrite Hws in Hnd; by inversion Hnd).
  destruct (IH _ (inv_execs [Wake; Leave] _ _ I eq_refl He) (unit_execs [Wake; Leave] _ _ I ltac:(by repeat constructor) Hu He))
    as (sys' & H1 & H2 & H3 & H4 & H5 & H6 & H7); try done; try (cbn in *; lia).
  exists sys'. split; [| cbn in H4, H5, H6, H7; split_and!; try done; try lia].
  - change (handOver (S k)) with ([Wake; Leave] ++ handOver k). by rewrite execs_app, He.
  - intros [| i] x Hi; cbn; [intros [= ->] | intros Hx].
    + exists co. split; [done |]. rewrite H7; [by apply list_lookup_insert_eq, (lookup_lt_Some _ _ co) |].
      intros Hin. apply Hw. apply elem_of_take in Hin as (i & Hi' & _). by eapply list_elem_of_lookup_2.
    + destruct (H6 i x) as (co' & G1 & G2); [lia | done |]. exists co'.
      rewrite list_lookup_insert_ne in G1; [done |]. intros ->. apply Hw. by apply list_elem_of_lookup_2 in Hx.
  - cbn. intros x Hx. rewrite H7 by (intros ?; apply Hx; by constructor).
    apply list_lookup_insert_ne. intros ->. apply Hx. constructor.
Qed.

(** ** Executions in which only what is held is released *)

Definition fair (a : Action) (sys : System) : bool :=
  asks a && match a, sys.(cur) with
            | Release value, Some c => match sys.(cos) !! c with Some co => value <=? co.(held) | None => true end
            | _, _ => true
            end.

Fixpoint fair_run (l : list Action) (sys : System) : bool :=
  match l with
  | [] => true
  | a :: l => fair a sys && match exec a sys with Some sys => fair_run l sys | None => true end
  end.

Lemma fair_asks l : forall sys sys', fair_run l sys = true -> execs l sys = Some sys' -> forallb asks l = true.
Proof.
  induction l as [| a l IH]; cbn; intros sys sys' Hf H; [done |]. apply andb_true_iff in Hf as [H1 H2].
  destruct (exec a sys) as [sys1 |] eqn:E; cbn in H; [| done]. apply andb_true_iff in H1 as [-> _]. by eapply IH.
Qed.

(** Nobody owes units and none was dropped. *)
Definition thrifty (sys : System) : Prop := sys.(spilt) = 0 /\ Forall (fun co => 0 <= co.(held)) sys.(cos).

Lemma thrifty_room sys c co : inv sys -> thrifty sys -> sys.(cos) !! c = Some co ->
  sys.(sem).(counter) + co.(held) <= sys.(sem).(init_value) /\ sys.(sem).(counter) + kept co <= sys.(sem).(init_value).
Proof.
  intros [I1 I2 I3 I4 _ _ _ _ _ _] [T1 T2] Hc.
  pose proof (total_nonneg _ _ T2). pose proof (total_nonneg _ _ (kept_nonneg _ _ I4)).
  pose proof (total_ge held _ _ _ T2 Hc). pose proof (total_ge kept _ _ _ (kept_nonneg _ _ I4) Hc). lia.
Qed.

Lemma thrifty_exec a sys sys' : inv sys -> fair a sys = true -> thrifty sys -> exec a sys = Some sys' -> thrifty sys'.
Proof.
  intros I Hf T H. pose proof I as [I1 I2 I3 I4 I5 I6 I7 I8 I9 I10]. pose proof T as [T1 T2].
  assert (Hin : forall c s h sm cu ac z, 0 <= h -> z = 0 -> thrifty (mkSys sm (<[c := mkCo s h]> sys.(cos)) cu ac (sys.(spilt) + z))).
  { intros c s h sm cu ac z Hh ->. split; cbn; [lia | by apply Forall_insert]. }
  assert (Hfound : forall c co g r t b u, sys.(cos) !! c = Some co -> co.(status) = Waiting g r t ->
    thrifty (settle c b u (spill g sys.(sem)) (resumed c g r sys.(sem)) co sys)).
  { intros c co g r t b u Hc Hst. rewrite resumed_found by (apply I6; exists co; unfold is_waiting; by rewrite Hst).
    pose proof (Forall_lookup_1 _ _ _ _ T2 Hc) as Hh. destruct (thrifty_room sys c co I T Hc) as [_ Hk]. unfold kept in Hk. rewrite Hst in Hk.
    pose proof (Forall_lookup_1 _ _ _ _ I4 Hc) as Hok. unfold co_ok in Hok. rewrite Hst in Hok.
    apply Hin; [done |]. rewrite spill_units by lia. lia. }
  unfold fair in Hf. apply andb_true_iff in Hf as [Hask Hf].
  destruct a as [c | | value msecs | value | | | | c | c]; cbn in H, Hask; destruct (cur sys) as [d |] eqn:Hcur; try done.
  - destruct (cos sys !! c) as [co |]; cbn in H; [| done]. destruct (active sys); [done |]. destruct (status co); [| done]. by injection H as <-.
  - by injection H as <-.
  - destruct (cos sys !! d) as [co |] eqn:Hc; cbn in H; [| done]. injection H as <-. pose proof (Forall_lookup_1 _ _ _ _ T2 Hc) as Hh. cbn in Hh.
    unfold settle. destruct (fst _); apply Hin; lia.
  - destruct (cos sys !! d) as [co |] eqn:Hc; cbn in H; [| done]. injection H as <-. pose proof (Forall_lookup_1 _ _ _ _ T2 Hc) as Hh. cbn in Hh.
    destruct (thrifty_room sys d co I T Hc) as [Hk _]. apply Hin; [lia |]. rewrite spill_units by lia. lia.
  - destruct (_ || _); [done |]. by injection H as <-.
  - destruct (negb _); [done |]. destruct (waiters (sem sys)) as [| w ws]; [done |]. destruct (cos sys !! w) as [co |] eqn:Hc; cbn in H; [| done].
    pose proof (Forall_lookup_1 _ _ _ _ T2 Hc) as Hh. pose proof (Forall_lookup_1 _ _ _ _ I4 Hc) as Hok. unfold co_ok in Hok. cbn in Hh.
    destruct (status co) as [| g r t]; [done |]. injection H as <-. unfold settle. destruct (fst _); apply Hin; lia.
  - destruct (_ || _); [done |]. by injection H as <-.
  - destruct (cos sys !! c) as [co |] eqn:Hc; cbn in H; [| done]. destruct (active sys); [done |].
    destruct (status co) as [| g r []] eqn:Hst; try done. injection H as <-. by eapply Hfound.
  - destruct (cos sys !! c) as [co |] eqn:Hc; cbn in H; [| done]. destruct (active sys); [done |].
    destruct (status co) as [| g r t] eqn:Hst; try done. injection H as <-. by eapply Hfound.
Qed.

Lemma thrifty_execs l : forall sys sys', inv sys -> fair_run l sys = true -> thrifty sys -> execs l sys = Some sys' -> thrifty sys'.
Proof.
  induction l as [| a l IH]; cbn; intros sys sys' I Hf T; [by intros [= <-] |]. apply andb_true_iff in Hf as [H1 H2].
  destruct (exec a sys) as [sys1 |] eqn:E; cbn; [| done]. apply IH; [| done | by eapply thrifty_exec].
  eapply inv_exec; [done | | done]. unfold fair in H1. by apply andb_true_iff in H1 as [? _].
Qed.

(** ** Units that nobody can give back *)

(** No unit is free, nobody holds one, and no timer will return any. *)
Record stuck (sys : System) : Prop := {
  stuck_inv : inv sys;
  stuck_counter : sys.(sem).(counter) = 0;
  stuck_held : Forall (fun co => co.(held) = 0) sys.(cos);
  stuck_kept : Forall (fun co => match co.(status) with Waiting g _ true => g = 0 | _ => True end) sys.(cos)
}.

Definition not_kill (a : Action) : Prop := match a with Kill _ => False | _ => True end.

Lemma stuck_exec a sys sys' : stuck sys -> not_kill a -> fair a sys = true -> exec a sys = Some sys' -> stuck sys'.
Proof.
  intros [I Hz Hh Hk] Ha Hf H. unfold fair in Hf. apply andb_true_iff in Hf as [Hask Hf]. pose proof (inv_exec _ _ _ I Hask H) as I'.
  destruct a as [c | | value msecs | value | | | | c | c]; cbn in H, Hask; destruct (cur sys) as [d |] eqn:Hcur;
    try done.
  - destruct (cos sys !! c) as [co |]; cbn in H; [| done]. destruct (active sys); [done |].
    destruct (status co); [| done]. injection H as <-. by split.
  - injection H as <-. by split.
  - destruct (cos sys !! d) as [co |] eqn:Hc; cbn in H; [| done].
    pose proof (Forall_lookup_1 _ _ _ _ Hh Hc) as Hco. cbn in Hco. injection H as <-. revert I'.
    unfold acquireMany, acquire. rewrite Hz. intros I'.
    destruct (value >? _); [| destruct (0 >=? value) eqn:Hv; [| destruct (msecs =? 0)]]; cbn in *; split; try done;
      try (apply Forall_insert; try done; cbn); try lia; try (by destruct (negb _)).
    cbn. assert (value = 0) as -> by lia. done.
  - destruct (cos sys !! d) as [co |] eqn:Hc; cbn in H; [| done].
    pose proof (Forall_lookup_1 _ _ _ _ Hh Hc) as Hco. cbn in Hco. injection H as <-. revert I'.
    unfold release. replace (value <=? 0) with true by lia. intros I'. split; cbn; try done; (apply Forall_insert; [done |]); [cbn; lia |].
    apply (Forall_lookup_1 _ _ _ _ Hk Hc).
  - destruct (_ || _); [done |]. injection H as <-. by split.
  - unfold more in H. rewrite Hz in H. by rewrite !andb_false_r in H.
  - destruct (_ || _); [done |]. injection H as <-. by split.
  - destruct (cos sys !! c) as [co |] eqn:Hc; cbn in H; [| done]. destruct (active sys); [done |].
    destruct (status co) as [| g r []] eqn:Hst; try done. injection H as <-.
    pose proof (Forall_lookup_1 _ _ _ _ Hk Hc) as Hg. cbn in Hg. rewrite Hst in Hg. subst g.
    pose proof (Forall_lookup_1 _ _ _ _ Hh Hc) as Hco.
    assert (Hcw : c ∈ sys.(sem).(waiters)) by (apply (inv_waiters _ I); exists co; unfold is_waiting; by rewrite Hst).
    revert I'. rewrite resumed_found by done. intros I'.
    split; try done; cbn; by apply Forall_insert.
Qed.

Lemma stuck_execs l : forall sys sys', stuck sys -> Forall not_kill l -> fair_run l sys = true -> execs l sys = Some sys' -> stuck sys'.
Proof.
  induction l as [| a l IH]; cbn; intros sys sys' Hs Hl Hf; [by intros [= <-] |]. apply andb_true_iff in Hf as [F1 F2].
  inversion Hl; subst. destruct (exec a sys) as [sys1 |] eqn:E; cbn; [| done].
  apply IH; [by eapply stuck_exec | done | done].
Qed.

(** ** Destruction *)

Definition remains (asked : list (Z * Z)) : Z := total snd asked.

(** What the waiters lack beyond the free units stays as it is. *)
Lemma deleteLoop_stuck fuel : forall asked s, NoDup s.(waiters) -> length asked = length s.(waiters) ->
  Forall (fun p => 1 <= p.2) asked -> 0 <= s.(counter) < remains asked ->
  deleteLoop fuel asked s = OutOfFuel.
Proof.
  induction fuel as [| fuel IH]; intros asked s Hnd Hlen Hr Hc; [done |]. cbn.
  destruct s.(waiters) as [| w ws] eqn:Hws, asked as [| [g r] asked]; cbn in *; try lia.
  apply list.NoDup_cons in Hnd as [Hw Hnd]. inversion Hr as [| ? ? Hr1 Hr2]; subst. cbn in *.
  unfold remains in Hc. cbn in Hc. rewrite resumed_popped by (cbn; done || lia). cbn. case_test.
  - apply IH; cbn; try done; [lia |]. unfold remains. lia.
  - apply IH; cbn.
    + apply list.NoDup_app. split; [done |].
      split; [by intros x Hx ->%list_elem_of_singleton | apply NoDup_singleton].
    + rewrite !length_app. cbn. lia.
    + apply Forall_app. split; [done |]. repeat constructor. cbn. lia.
    + unfold remains. rewrite total_join. cbn. lia.
Qed.

Lemma deleteLoop_ends asked : forall fuel s, (length asked < fuel)%nat -> NoDup s.(waiters) ->
  length asked = length s.(waiters) -> Forall (fun p => 1 <= p.2) asked -> remains asked <= s.(counter) ->
  deleteLoop fuel asked s =
    Ret (mkSem [] s.(init_value) (s.(counter) - remains asked) false).
Proof.
  induction asked as [| [g r] asked IH]; intros fuel s Hf Hnd Hlen Hr Hc; destruct fuel as [| fuel]; try (cbn in Hf; lia).
  - cbn in *. destruct s.(waiters) eqn:Hws; [| done]. unfold remains. cbn.
    destruct s. cbn in *. subst. by rewrite Z.sub_0_r.
  - cbn in *. destruct s.(waiters) as [| w ws] eqn:Hws; cbn in *; [lia |].
    apply list.NoDup_cons in Hnd as [Hw Hnd]. inversion Hr as [| ? ? Hr1 Hr2]; subst. cbn in *.
    unfold remains in *. cbn in *.
    assert (Ht : 0 <= total snd asked) by (apply total_nonneg; eapply Forall_impl, Hr2; cbn; lia).
    rewrite resumed_popped by (cbn; done || lia). cbn. test_true. rewrite IH; cbn; try done; try lia.
    do 2 f_equal. lia.
Qed.

(** ** Safety *)

(** C14: Over every execution without negative requests the counter stays between 0 and
    the initial value (positive), a release by anybody counts up to it, and a wake-up is
    due when units are free and somebody waits; if only units held are released, units
    free, held and taken by waiters add up to it. *)
Theorem semaphore_conserves_units n value l sys : 1 <= value <= INT_MAX -> forallb asks l = true ->
  execs l (start n value) = Some sys ->
  0 <= sys.(sem).(counter) <= value
  /\ sys.(sem).(counter) + total held sys.(cos) + total kept sys.(cos) + sys.(spilt) = value /\ 0 <= sys.(spilt)
  /\ (forall v, (release v sys.(sem)).(counter) = Z.min (sys.(sem).(counter) + Z.max 0 v) value)
  /\ (0 < sys.(sem).(counter) -> sys.(sem).(waiters) <> [] -> sys.(sem).(notified) = true)
  /\ (fair_run l (start n value) = true -> sys.(spilt) = 0
      /\ forall i j a b, sys.(cos) !! i = Some a -> sys.(cos) !! j = Some b -> i <> j ->
           0 <= a.(held) /\ a.(held) + b.(held) <= value).
Proof.
  intros Hv Ha Hl. pose proof (inv_start n value Hv) as I0. pose proof (inv_execs _ _ _ I0 Ha Hl) as I.
  assert (Hi : sys.(sem).(init_value) = value).
  { rewrite (execs_init _ _ _ Hl). cbn. lia. }
  pose proof I as [I1 I2 I3 I4 I5 I6 I7 I8 I9 I10]. rewrite Hi in *. split_and!; try done; try lia.
  - intros v. destruct (release_units v sys.(sem)) as [-> _]; rewrite Hi; lia.
  - intros Hf. assert (thrifty (start n value)) as T0 by (split; [done | by apply Forall_replicate]).
    destruct (thrifty_execs _ _ _ I0 Hf T0 Hl) as [T1 T2]. split; [done |]. intros i j a b Hai Hb Hij.
    split; [by apply (Forall_lookup_1 _ _ _ _ T2 Hai) |].
    pose proof (total_two held _ _ _ _ _ T2 Hai Hb Hij). pose proof (total_nonneg _ _ (kept_nonneg _ _ I4)). lia.
Qed.

(** Two coroutines and a lock: the second waits, gets the lock when the first lets go, and
    the first then releases it again, which is dropped. *)
Definition lock_passed : list Action :=
  [Run 0; Acquire 1 UINT_MAX; Leave; Run 1; Acquire 1 UINT_MAX; Run 0; Release 1; Leave; Notify; Wake; Release 1; Release 1].

Lemma semaphore_conserves_units_witness : exists sys,
  execs lock_passed (start 2 1) = Some sys /\ map held sys.(cos) = [0; -1] /\ sys.(spilt) = 1
  /\ sys.(sem).(counter) + total held sys.(cos) + total kept sys.(cos) + sys.(spilt) = 1.
Proof.
  eexists. split; [by vm_compute |]. split; [by vm_compute |]. split; [by vm_compute |].
  eapply (semaphore_conserves_units 2 1 lock_passed); [done | by vm_compute | by vm_compute].
Defined.

(** Without the releases of what is not held. *)
Lemma lock_passed_fair : fair_run (take 10 lock_passed) (start 2 1) = true /\ fair_run lock_passed (start 2 1) = false.
Proof. vm_compute. done. Qed.

(** ** Progress *)

(** When all requests are for one unit, the next run of the functor gives the free
    units to the first waiters, in the order they came, and changes nothing for the
    others. *)
Theorem semaphore_serves_in_order n value l sys : 1 <= value <= INT_MAX -> Forall unit_request l ->
  execs l (start n value) = Some sys -> sys.(cur) = None -> 0 < sys.(sem).(counter) ->
  sys.(sem).(waiters) <> [] ->
  let k := Nat.min (Z.to_nat sys.(sem).(counter)) (length sys.(sem).(waiters)) in
  exists sys', execs ((if sys.(active) then [] else [Notify]) ++ handOver k ++ [Done]) sys = Some sys'
  /\ sys'.(sem) = mkSem (drop k sys.(sem).(waiters)) value (sys.(sem).(counter) - Z.of_nat k) false
  /\ (forall i w, (i < k)%nat -> sys.(sem).(waiters) !! i = Some w ->
        exists co, sys.(cos) !! w = Some co /\ sys'.(cos) !! w = Some (mkCo Free (co.(held) + 1)))
  /\ (forall w, w ∉ take k sys.(sem).(waiters) -> sys'.(cos) !! w = sys.(cos) !! w).
Proof.
  intros Hv Hl H Hcur Hp Hw k. pose proof (inv_start n value Hv) as I0.
  assert (I : inv sys) by (eapply inv_execs; [exact I0 | by apply unit_asks | done]).
  assert (Hu : Forall unit_co sys.(cos)).
  { eapply unit_execs; [exact I0 | done | by apply Forall_replicate | done]. }
  assert (Hn : sys.(sem).(notified) = true) by (by apply (inv_wakeup _ I)).
  assert (Ha : execs (if sys.(active) then [] else [Notify]) sys = Some (mkSys sys.(sem) sys.(cos) None true sys.(spilt))).
  { destruct sys as [s cs cu [] sp]; cbn in *; subst; [done |]. by rewrite Hn. }
  destruct (handOver_serves k (mkSys sys.(sem) sys.(cos) None true sys.(spilt)))
    as (sys1 & H1 & H2 & H3 & H4 & H5 & H6 & H7); try (cbn; lia); try done.
  { refine (inv_execs _ _ _ I _ Ha). by destruct (active sys). }
  assert (Hi : sys1.(sem).(init_value) = value).
  { rewrite (execs_init _ _ _ H1). cbn. rewrite (execs_init _ _ _ H). cbn. lia. }
  rewrite execs_app, Ha. cbn [mbind option_bind]. rewrite execs_app, H1. cbn [mbind option_bind execs exec].
  rewrite H2, H3. cbn in H4, H5. assert (Hm : more sys1.(sem) = false).
  { unfold more. destruct (decide (sys.(sem).(counter) <= Z.of_nat (length sys.(sem).(waiters)))).
    - replace (counter (sem sys1) >? 0) with false by lia. by rewrite andb_false_r.
    - rewrite (bool_decide_true _); [by rewrite andb_false_r |]. rewrite H4. apply drop_ge. lia. }
  rewrite Hm. cbn. eexists. split; [done |]. split_and!; try done.
  destruct (sem sys1); cbn in *. by subst.
Qed.

(** A semaphore of two with three waiters behind two holders: when both let go, the
    first two waiters are served. *)
Lemma semaphore_serves_in_order_witness : exists sys, let ask c := [Run c; Acquire 1 UINT_MAX] in
  let l := ask 0%nat ++ [Leave] ++ ask 1%nat ++ [Leave] ++ ask 4%nat ++ ask 2%nat ++ ask 3%nat
           ++ [Run 0; Release 1; Leave; Run 1; Release 1; Leave] in
  execs l (start 5 2) = Some sys /\ sys.(sem).(waiters) = [4; 2; 3]%nat /\
  exists sys', execs ([Notify] ++ handOver 2 ++ [Done]) sys = Some sys' /\ sys'.(sem) = mkSem [3]%nat 2 0 false
  /\ map held sys'.(cos) = [0; 0; 1; 0; 1].
Proof.
  eexists. cbv zeta. split; [by vm_compute |]. split; [by vm_compute |].
  edestruct (semaphore_serves_in_order 5 2
    ([Run 0; Acquire 1 UINT_MAX; Leave; Run 1; Acquire 1 UINT_MAX; Leave; Run 4; Acquire 1 UINT_MAX; Run 2;
      Acquire 1 UINT_MAX; Run 3; Acquire 1 UINT_MAX; Run 0; Release 1; Leave; Run 1; Release 1; Leave]))
    as (sys' & H1 & H2 & H3); [done | by repeat constructor | by vm_compute | done | done | done |].
  exists sys'. split; [exact H1 |]. split; [exact H2 |]. vm_compute in H1. by injection H1 as <-.
Defined.

(** ** Partial grants *)

(** C39: Two coroutines that each ask for three of three units can end with two and one of
    them: no unit is free, both wait, and whatever happens but an exception or a release
    of units not held, it stays so. *)
Theorem acquireMany_deadlock : exists l sys,
  execs l (start 3 3) = Some sys
  /\ map status sys.(cos) = [Free; Waiting 2 1 false; Waiting 1 2 false]
  /\ forall l' sys', Forall not_kill l' -> fair_run l' sys = true -> execs l' sys = Some sys' ->
       sys'.(sem).(counter) = 0 /\ Forall (fun co => co.(held) = 0) sys'.(cos).
Proof.
  exists [Run 0; Acquire 3 UINT_MAX; Leave; Run 1; Acquire 3 UINT_MAX; Run 2; Acquire 3 UINT_MAX;
          Run 0; Release 1; Leave; Notify; Wake; Done; Run 0; Release 1; Leave; Notify; Wake; Done;
          Run 0; Release 1; Leave; Notify; Wake; Done].
  eexists. split; [by vm_compute |]. split; [by vm_compute |]. intros l' sys' Hl Hf H.
  refine (let S := stuck_execs l' _ _ _ Hl Hf H in conj (stuck_counter _ S) (stuck_held _ S)).
  split; cbn; try done; [| by repeat constructor | by repeat constructor].
  eapply (inv_execs [Run 0; Acquire 3 UINT_MAX; Leave; Run 1; Acquire 3 UINT_MAX; Run 2; Acquire 3 UINT_MAX;
    Run 0; Release 1; Leave; Notify; Wake; Done; Run 0; Release 1; Leave; Notify; Wake; Done;
    Run 0; Release 1; Leave; Notify; Wake; Done]); [by apply (inv_start 3 3) | by vm_compute | by vm_compute].
Qed.

(** ** Destruction *)

(** The functor that the destructor schedules ends exactly when what the waiters
    still ask for is not more than the initial value; two waiters of a lock make it run
    for ever. *)
Theorem delete_ends_iff_units_suffice s asked : NoDup s.(waiters) -> length asked = length s.(waiters) ->
  Forall (fun p => 1 <= p.2) asked -> 1 <= s.(init_value) ->
  (exists fuel s', deleteLoop fuel asked (scheduleDelete s) = Ret s') <-> remains asked <= s.(init_value).
Proof.
  intros Hnd Hlen Hr Hi. split.
  - intros (fuel & s' & H). destruct (decide (remains asked <= s.(init_value))) as [| Hlt]; [done |].
    rewrite deleteLoop_stuck in H; [done | done | done | done | cbn; lia].
  - intros Hle. exists (S (length asked)). eexists. apply deleteLoop_ends; try done. lia.
Qed.

(** A lock with two waiters cannot be destroyed; with one it can. *)
Lemma delete_ends_iff_units_suffice_witness :
  (~ exists fuel s', deleteLoop fuel [(0, 1); (0, 1)] (scheduleDelete (mkSem [1; 2]%nat 1 0 false)) = Ret s')
  /\ exists fuel s', deleteLoop fuel [(0, 1)] (scheduleDelete (mkSem [1]%nat 1 0 false)) = Ret s'.
Proof.
  split.
  - intros H. apply (delete_ends_iff_units_suffice (mkSem [1; 2]%nat 1 0 false) [(0, 1); (0, 1)]) in H;
      [by vm_compute in H | refine (bool_decide_unpack _ _); by vm_compute | done | by repeat constructor | done].
  - apply (delete_ends_iff_units_suffice (mkSem [1]%nat 1 0 false) [(0, 1)]);
      [refine (bool_decide_unpack _ _); by vm_compute | done | by repeat constructor | done | done].
Defined.
