(* ===== verification/Queue.v ===== *)
(** * Queues of coroutines ([src/include/qtng/locks.h])

    [SizedQueueType] over [Event], with the coroutines that wait in it.  An [Event] is
    a latch with waiters: [set] moves all of them to the loop, which resumes them one by
    one, and a resumed waiter looks at the latch again ([EventPrivate::wait] over
    [Condition]).  A coroutine runs its call until it returns or waits, so an
    execution is a sequence of calls and resumptions. *)

From S2P Require Import Prelude.

(** ** Events *)

(** [waiters] are those of [Condition]; [woken] are those that [notifyAll] released and
    that the loop has yet to resume. *)
Record Event : Type := mkEvent {
  flag : bool;
  waiting : list nat;
  woken : list nat
}.

Definition newEvent : Event := mkEvent false [] [].

(** [EventPrivate::set] without links. *)
Definition set (ev : Event) : Event :=
  if ev.(flag) then ev else mkEvent true [] (ev.(woken) ++ ev.(waiting)).

Definition unset (ev : Event) : Event := mkEvent false ev.(waiting) ev.(woken).

(** [Condition::wait] up to its [yield]. *)
Definition park (c : nat) (ev : Event) : Event := mkEvent ev.(flag) (ev.(waiting) ++ [c]) ev.(woken).

(** A coroutine that goes on, for whatever reason, is no longer listed. *)
Definition leave (c : nat) (ev : Event) : Event :=
  mkEvent ev.(flag) (filter (fun w => w <> c) ev.(waiting)) (filter (fun w => w <> c) ev.(woken)).

Section Queue.
Context {T : Type} (sizeOf : T -> Z) (eqT : T -> T -> bool).

(** ** The queue *)

Record Queue : Type := mkQueue {
  queue : list T;
  notEmpty : Event;
  notFull : Event;
  mCapacity : Z;
  currentSize : Z;
  m_closed : bool
}.

Definition newQueue (capacity : Z) : Queue :=
  mkQueue [] newEvent (set newEvent) capacity 0 false.

Definition with_notEmpty (f : Event -> Event) (q : Queue) : Queue :=
  mkQueue q.(queue) (f q.(notEmpty)) q.(notFull) q.(mCapacity) q.(currentSize) q.(m_closed).
Definition with_notFull (f : Event -> Event) (q : Queue) : Queue :=
  mkQueue q.(queue) q.(notEmpty) (f q.(notFull)) q.(mCapacity) q.(currentSize) q.(m_closed).
Definition with_items (l : list T) (size : Z) (q : Queue) : Queue :=
  mkQueue l q.(notEmpty) q.(notFull) q.(mCapacity) size q.(m_closed).

Definition setCapacity (capacity : Z) (q : Queue) : Queue :=
  let q := mkQueue q.(queue) q.(notEmpty) q.(notFull) capacity q.(currentSize) q.(m_closed) in
  with_notFull (if (q.(currentSize) >=? q.(mCapacity)) && negb q.(m_closed) then unset else set) q.

Definition close (q : Queue) : Queue :=
  let q := mkQueue q.(queue) q.(notEmpty) q.(notFull) q.(mCapacity) q.(currentSize) true in
  with_notFull set (with_notEmpty set q).

Definition clear (q : Queue) : Queue :=
  let q := with_notFull set (with_items [] 0 q) in
  if q.(m_closed) then q else with_notEmpty unset q.

(** The loop of [remove], from the back: what is left, the size and the number of what
    is removed. *)
Fixpoint sweep (e : T) (l : list T) : list T * Z * Z :=
  match l with
  | [] => ([], 0, 0)
  | x :: l' =>
      let '(kept, size, n) := sweep e l' in
      if eqT x e then (kept, wrapu 32 (size + sizeOf x), n + 1) else (x :: kept, size, n)
  end.

Definition remove (e : T) (q : Queue) : bool * Queue :=
  let '(kept, removedSize, n) := sweep e q.(queue) in
  if n >? 0 then
    let q := with_items kept (wrapu 32 (q.(currentSize) - removedSize)) q in
    let q := match kept with
             | [] => if q.(m_closed) then q else with_notEmpty unset q
             | _ => with_notEmpty set q
             end in
    (true, with_notFull (if (q.(currentSize) >=? q.(mCapacity)) && negb q.(m_closed) then unset else set) q)
  else (false, q).

(** What follows a successful wait in [put] and [returns], and all of [putForcedly]
    and [returnsForcely]. *)
Definition insert (back : bool) (e : T) (q : Queue) : bool * Queue :=
  if q.(m_closed) then (false, q) else
  let l := if back then q.(queue) ++ [e] else e :: q.(queue) in
  let q := with_notEmpty set (with_items l (wrapu 32 (q.(currentSize) + sizeOf e)) q) in
  (true, if q.(currentSize) >=? q.(mCapacity) then with_notFull unset q else q).

(** What follows the loop of [get]. *)
Definition take_front (e : T) (l : list T) (q : Queue) : Queue :=
  let q := with_items l (wrapu 32 (q.(currentSize) - sizeOf e)) q in
  let q := match l with
           | [] => if q.(m_closed) then q else with_notEmpty unset q
           | _ => q
           end in
  if q.(currentSize) <? q.(mCapacity) then with_notFull set q else q.

Definition peek (q : Queue) : option T := head q.(queue).
Definition isEmpty (q : Queue) : bool := match q.(queue) with [] => true | _ => false end.
Definition isFull (q : Queue) : bool := q.(currentSize) >=? q.(mCapacity).
Definition getting (q : Queue) : Z := zlen q.(notEmpty).(waiting).
Definition contains (e : T) (q : Queue) : bool := existsb (fun x => eqT x e) q.(queue).

(** ** Coroutines *)

(** [timed] when a timer will end the wait; [now] when the call may not wait at all. *)
Inductive Patience : Type := now | timed | untimed.

Inductive Call : Type :=
| Get
| Insert (back : bool) (e : T) (p : Patience)   (* put, returns *)
| WaitNotEmpty (p : Patience).

Inductive Response : Type :=
| Got (e : option T)       (* [None] is the [T()] of a closed queue *)
| Inserted (e : T) (ok : bool)
| NotEmpty (ok : bool).

Definition patience (op : Call) : Patience :=
  match op with Get => untimed | Insert _ _ p => p | WaitNotEmpty p => p end.

(** The event that a call waits for. *)
Definition event_of (op : Call) (q : Queue) : Event :=
  match op with Insert _ _ _ => q.(notFull) | _ => q.(notEmpty) end.
Definition with_event (op : Call) (f : Event -> Event) (q : Queue) : Queue :=
  match op with Insert _ _ _ => with_notFull f q | _ => with_notEmpty f q end.

(** What a call answers when its wait ends without the event. *)
Definition give_up_with (op : Call) : Response :=
  match op with
  | Get => Got None
  | Insert _ e _ => Inserted e false
  | WaitNotEmpty _ => NotEmpty false
  end.

(** A call whose event is set; [None] to wait again. *)
Definition proceed (op : Call) (q : Queue) : option Response * Queue :=
  match op with
  | Get =>
      match q.(queue) with
      | e :: l => (Some (Got (Some e)), take_front e l q)
      | [] => if q.(m_closed) then (Some (Got None), q) else (None, with_notEmpty unset q)
      end
  | Insert back e _ => let '(ok, q) := insert back e q in (Some (Inserted e ok), q)
  | WaitNotEmpty _ => (Some (NotEmpty true), q)
  end.

Record System : Type := mkSys { q : Queue; blocked : list (option Call) }.

Inductive Action : Type :=
| Start (c : nat) (op : Call)
| Resume (c : nat) (late : bool)      (* the loop resumes a woken coroutine, its time over or not *)
| Expire (c : nat)                    (* the timer resumes a coroutine *)
| Kill (c : nat)                      (* an exception is raised in a waiting coroutine *)
| Forced (c : nat) (back : bool) (e : T)
| Remove (c : nat) (e : T)
| Clear
| SetCapacity (capacity : Z)
| Close
| NotifyNotEmpty.

Definition Step : Type := System * option (nat * Response).

(** A call that waits. *)
Definition block (c : nat) (op : Call) (sys : System) : Step :=
  (mkSys (with_event op (park c) sys.(q)) (<[c := Some op]> sys.(blocked)), None).

Definition answer (c : nat) (r : Response) (q' : Queue) (sys : System) : Step :=
  (mkSys q' (<[c := None]> sys.(blocked)), Some (c, r)).

(** A call whose event is set runs on. *)
Definition advance (c : nat) (op : Call) (sys : System) : Step :=
  match proceed op sys.(q) with
  | (Some r, q') => answer c r q' sys
  | (None, q') => block c op (mkSys q' sys.(blocked))
  end.

Definition exec (a : Action) (sys : System) : option Step :=
  match a with
  | Start c op =>
      st ← sys.(blocked) !! c;
      match st with
      | Some _ => None
      | None =>
          Some (if (event_of op sys.(q)).(flag) then advance c op sys
                else match patience op with
                     | now => answer c (give_up_with op) sys.(q) sys
                     | _ => block c op sys
                     end)
      end
  | Resume c late =>
      st ← sys.(blocked) !! c;
      match st with
      | None => None
      | Some op =>
          if bool_decide (c ∈ (event_of op sys.(q)).(woken)) then
            let q' := with_event op (leave c) sys.(q) in
            Some (if (event_of op q').(flag) then advance c op (mkSys q' sys.(blocked))
                  else match patience op, late with
                       | timed, true => answer c (give_up_with op) q' sys
                       | _, _ => block c op (mkSys q' sys.(blocked))
                       end)
          else None
      end
  | Expire c =>
      st ← sys.(blocked) !! c;
      match st with
      | Some op => match patience op with
                   | timed => Some (answer c (give_up_with op) (with_event op (leave c) sys.(q)) sys)
                   | _ => None
                   end
      | None => None
      end
  | Kill c =>
      st ← sys.(blocked) !! c;
      match st with
      | Some op => Some (mkSys (with_event op (leave c) sys.(q)) (<[c := None]> sys.(blocked)), None)
      | None => None
      end
  | Forced c back e =>
      let '(ok, q') := insert back e sys.(q) in Some (mkSys q' sys.(blocked), Some (c, Inserted e ok))
  | Remove c e => let '(_, q') := remove e sys.(q) in Some (mkSys q' sys.(blocked), None)
  | Clear => Some (mkSys (clear sys.(q)) sys.(blocked), None)
  | SetCapacity n => Some (mkSys (setCapacity n sys.(q)) sys.(blocked), None)
  | Close => Some (mkSys (close sys.(q)) sys.(blocked), None)
  | NotifyNotEmpty => Some (mkSys (with_notEmpty set sys.(q)) sys.(blocked), None)
  end.

Definition start (n : nat) (capacity : Z) : System := mkSys (newQueue capacity) (replicate n None).

Fixpoint execs (l : list Action) (sys : System) : option (System * list (nat * Response)) :=
  match l with
  | [] => Some (sys, [])
  | a :: l' =>
      st ← exec a sys;
      rest ← execs l' st.1;
      Some (rest.1, match st.2 with Some r => r :: rest.2 | None => rest.2 end)
  end.

End Queue.

(** ** Threads *)

(** A [ThreadQueue] has the same code over [ThreadEvent] and a lock: the wait ends, and
    only then is the lock taken, so that other threads can come between. *)
Section Threads.
Context {T : Type} (sizeOf : T -> Z).

Inductive ThreadAction : Type :=
| Pass (c : nat) (op : Call (T := T))    (* the wait of a call ends: its event is set *)
| Enter (c : nat).                       (* the call takes the lock and runs to its release *)

Record Threads : Type := mkThreads { tq : Queue (T := T); passed : list (option (Call (T := T))) }.

Definition texec (a : ThreadAction) (s : Threads) : option Threads :=
  match a with
  | Pass c op =>
      st ← s.(passed) !! c;
      match st with
      | Some _ => None
      | None => if (event_of op s.(tq)).(flag) then Some (mkThreads s.(tq) (<[c := Some op]> s.(passed))) else None
      end
  | Enter c =>
      st ← s.(passed) !! c;
      match st with
      | Some op => Some (mkThreads (proceed sizeOf op s.(tq)).2 (<[c := None]> s.(passed)))
      | None => None
      end
  end.

Fixpoint texecs (l : list ThreadAction) (s : Threads) : option Threads :=
  match l with
  | [] => Some s
  | a :: l' => s' ← texec a s; texecs l' s'
  end.

Definition tstart (n : nat) (capacity : Z) : Threads := mkThreads (newQueue capacity) (replicate n None).

End Threads.
