(* ===== verification/QueueProofs.v ===== *)
(** * Queues: the invariant of every execution

    The latches follow the contents: a queue with something in it, and a closed one,
    has [notEmpty] set; one with room, and a closed one, has [notFull] set; and nobody
    is parked at an event that is set. *)

From S2P Require Import Prelude Queue.

Section Proofs.
Context {T : Type} (sizeOf : T -> Z) (eqT : T -> T -> bool).
Hypothesis sizeOf_range : forall e, 0 <= sizeOf e.

Abbreviation QueueT := (Queue (T := T)).
Abbreviation SystemT := (System (T := T)).
Abbreviation CallT := (Call (T := T)).
Abbreviation ActionT := (Action (T := T)).

(** ** Events *)

Definition listed (ev : Event) : list nat := ev.(waiting) ++ ev.(woken).

Definition ev_ok (ev : Event) : Prop := ev.(flag) = true -> ev.(waiting) = [].

Lemma set_flag ev : (set ev).(flag) = true.
Proof. unfold set. by destruct (flag ev) eqn:E. Qed.

Lemma set_ok ev : ev_ok ev -> ev_ok (set ev).
Proof. unfold set. destruct (flag ev) eqn:E; by unfold ev_ok; cbn. Qed.

Lemma unset_ok ev : ev_ok (unset ev).
Proof. done. Qed.

Lemma leave_ok c ev : ev_ok ev -> ev_ok (leave c ev).
Proof. unfold ev_ok. cbn. intros H Hf. by rewrite H. Qed.

Lemma park_ok c ev : ev.(flag) = false -> ev_ok (park c ev).
Proof. unfold ev_ok. cbn. by intros ->. Qed.

Lemma set_listed ev c : c ∈ listed (set ev) <-> c ∈ listed ev.
Proof. unfold listed, set. destruct (flag ev); [done |]. cbn. rewrite !elem_of_app. naive_solver. Qed.

Lemma leave_listed c d ev : d ∈ listed (leave c ev) <-> d <> c /\ d ∈ listed ev.
Proof. unfold listed. cbn. rewrite !elem_of_app, !list_elem_of_filter. naive_solver. Qed.

Lemma park_listed c d ev : d ∈ listed (park c ev) <-> d = c \/ d ∈ listed ev.
Proof. unfold listed. cbn. rewrite !elem_of_app, list_elem_of_singleton. naive_solver. Qed.

(** ** The queue alone *)

Record core (q : QueueT) : Prop := {
  core_size : q.(currentSize) = total sizeOf q.(queue);
  core_notEmpty : q.(queue) <> [] \/ q.(m_closed) = true -> q.(notEmpty).(flag) = true;
  core_notFull : q.(currentSize) < q.(mCapacity) \/ q.(m_closed) = true -> q.(notFull).(flag) = true;
  core_empty_ok : ev_ok q.(notEmpty);
  core_full_ok : ev_ok q.(notFull)
}.

(** The same coroutines wait. *)
Definition same_waits (q q' : QueueT) : Prop :=
  (forall c, c ∈ listed q'.(notEmpty) <-> c ∈ listed q.(notEmpty))
  /\ (forall c, c ∈ listed q'.(notFull) <-> c ∈ listed q.(notFull)).

#[local] Hint Resolve set_ok unset_ok set_flag leave_ok : queue.
#[local] Hint Rewrite set_flag set_listed : queue.

Lemma sizes_nonneg l : 0 <= total sizeOf l.
Proof. apply total_nonneg, Forall_forall. auto. Qed.

Lemma core_insert back e q : core q -> total sizeOf q.(queue) + sizeOf e < 2 ^ 32 ->
  let r := insert sizeOf back e q in
  core r.2 /\ same_waits q r.2 /\ r.1 = negb q.(m_closed) /\ r.2.(m_closed) = q.(m_closed)
  /\ r.2.(mCapacity) = q.(mCapacity)
  /\ r.2.(queue) = (if q.(m_closed) then q.(queue) else if back then q.(queue) ++ [e] else e :: q.(queue)).
Proof.
  intros C Hb. pose proof C as [C1 C2 C3 C4 C5]. unfold insert.
  destruct (m_closed q) eqn:Hcl; [by split_and! |].
  pose proof (sizeOf_range e). pose proof (sizes_nonneg (queue q)).
  set (l := if back then queue q ++ [e] else e :: queue q).
  assert (Hl : total sizeOf l = total sizeOf (queue q) + sizeOf e).
  { unfold l. destruct back; [rewrite total_join |]; cbn; lia. }
  unfold wrapu. rewrite C1, Z.mod_small by lia. cbn.
  assert (Hw : forall f, (forall ev c, c ∈ listed (f ev) <-> c ∈ listed ev) ->
    same_waits q (with_notFull f (with_notEmpty set (with_items l (total sizeOf (queue q) + sizeOf e) q)))).
  { intros f Hf. split; intros c; cbn; [by rewrite set_listed | by rewrite Hf]. }
  destruct (_ >=? _) eqn:Hge; (split; [split; cbn; auto with queue | split_and!; try done]).
  - intros [? | ?]; [lia | congruence].
  - by apply Hw.
  - intros [? | ?]; [apply C3; lia | congruence].
  - by apply (Hw id).
Qed.

Lemma core_take e l q : core q -> q.(queue) = e :: l -> total sizeOf q.(queue) < 2 ^ 32 ->
  core (take_front sizeOf e l q) /\ same_waits q (take_front sizeOf e l q)
  /\ (take_front sizeOf e l q).(queue) = l /\ (take_front sizeOf e l q).(m_closed) = q.(m_closed)
  /\ (take_front sizeOf e l q).(mCapacity) = q.(mCapacity).
Proof.
  intros [C1 C2 C3 C4 C5] Hq Hb. unfold take_front. rewrite C1, Hq in *. cbn in Hb. cbn [total].
  pose proof (sizeOf_range e). pose proof (sizes_nonneg l).
  assert (Hs : wrapu 32 (sizeOf e + total sizeOf l - sizeOf e) = total sizeOf l).
  { unfold wrapu. rewrite Z.mod_small; lia. }
  rewrite Hs. destruct q as [qs ne nf cap size cl]. cbn in *.
  destruct l as [| e' l]; [destruct cl |]; cbn; case_test; (split; [split; cbn; auto with queue |]);
    try (split_and!; try done; split; intros c; cbn; by autorewrite with queue).
  all: try (intros [? | ?]; [congruence || lia | congruence]).
  all: intros [? | ?]; [lia | apply C3; auto].
Qed.

Lemma core_clear q : core q -> core (clear q) /\ same_waits q (clear q)
  /\ (clear q).(queue) = [] /\ (clear q).(m_closed) = q.(m_closed) /\ (clear q).(mCapacity) = q.(mCapacity).
Proof.
  intros [C1 C2 C3 C4 C5]. unfold clear. cbn. destruct (m_closed q) eqn:Hcl; cbn;
    (split; [split; cbn; auto with queue; intros [? | ?]; congruence |]);
    split_and!; try done; split; intros c; cbn; by autorewrite with queue.
Qed.

(** The event that follows the size. *)
Lemma core_refill q f l size cap : core q ->
  f = (if (size >=? cap) && negb q.(m_closed) then unset else set) ->
  (size < cap \/ q.(m_closed) = true -> (f q.(notFull)).(flag) = true) /\ ev_ok (f q.(notFull))
  /\ (forall c, c ∈ listed (f q.(notFull)) <-> c ∈ listed q.(notFull))
  /\ same_waits q (with_notFull f (with_items l size q)).
Proof.
  intros [C1 C2 C3 C4 C5] ->. assert (Hw : forall c ev, c ∈ listed
    ((if (size >=? cap) && negb q.(m_closed) then unset else set) ev) <-> c ∈ listed ev).
  { intros c ev. destruct (_ && _); [done | apply set_listed]. }
  split_and!; [| | done | split; intros c; [done | apply Hw]].
  - intros H. destruct (_ && _) eqn:E; [| apply set_flag]. apply andb_true_iff in E as [E1 E2].
    destruct H as [? | Hc]; [lia | by rewrite Hc in E2].
  - destruct (_ && _); auto with queue.
Qed.

Lemma core_setCapacity n q : core q -> core (setCapacity n q) /\ same_waits q (setCapacity n q).
Proof.
  intros C. pose proof C as [C1 C2 C3 C4 C5]. unfold setCapacity. cbn [currentSize mCapacity m_closed].
  destruct (core_refill q _ q.(queue) q.(currentSize) n C eq_refl) as (H1 & H2 & H3 & H4).
  split; [by split |]. split; [done | apply H3].
Qed.

Lemma core_close q : core q -> core (close q) /\ same_waits q (close q).
Proof.
  intros [C1 C2 C3 C4 C5]. unfold close. split; [split; cbn; auto with queue |].
  split; intros c; cbn; by autorewrite with queue.
Qed.

Lemma sweep_spec e l : total sizeOf l < 2 ^ 32 -> let r := sweep sizeOf eqT e l in
  r.1.1 = filter (fun x => eqT x e = false) l /\ r.1.2 = total sizeOf l - total sizeOf r.1.1
  /\ 0 <= r.2 /\ (r.2 >? 0) = existsb (fun x => eqT x e) l
  /\ (r.2 = 0 -> r.1.1 = l).
Proof.
  induction l as [| x l IH]; cbn [total sweep existsb]; intros Hb; [done |].
  pose proof (sizeOf_range x). pose proof (sizes_nonneg l). specialize (IH ltac:(lia)).
  destruct (sweep sizeOf eqT e l) as [[k s] n]. cbn [fst snd] in IH. destruct IH as (-> & -> & Hn & He & Hk).
  pose proof (sizes_nonneg (filter (fun x => eqT x e = false) l)).
  destruct (eqT x e) eqn:E; cbn [fst snd].
  - rewrite filter_cons_False by congruence. split_and!; [done | | lia | cbn; lia | lia].
    unfold wrapu. rewrite Z.mod_small; [lia |]. split; [| lia].
    pose proof (total_filter_le sizeOf (fun x => eqT x e = false) l sizeOf_range). lia.
  - rewrite filter_cons_True by done. cbn. split_and!; [done | lia | lia | done |].
    intros Hz. by rewrite Hk.
Qed.

Lemma core_remove e q : core q -> total sizeOf q.(queue) < 2 ^ 32 -> let r := remove sizeOf eqT e q in
  core r.2 /\ same_waits q r.2 /\ r.2.(m_closed) = q.(m_closed) /\ r.2.(mCapacity) = q.(mCapacity)
  /\ r.2.(queue) = filter (fun x => eqT x e = false) q.(queue)
  /\ r.1 = contains eqT e q.
Proof.
  intros C Hb. pose proof C as [C1 C2 C3 C4 C5]. unfold remove, contains.
  pose proof (sweep_spec e q.(queue) Hb) as Hs. destruct (sweep sizeOf eqT e q.(queue)) as [[k s] n].
  cbn [fst snd] in Hs. destruct Hs as (Hk & -> & Hn & He & H0).
  rewrite <- He. destruct (n >? 0) eqn:Hp; cbn [fst snd].
  2: { split_and!; try done. rewrite <- Hk. symmetry. apply H0. lia. }
  pose proof (sizes_nonneg k). pose proof (total_filter_le sizeOf (fun x => eqT x e = false) q.(queue) sizeOf_range).
  rewrite <- Hk in *. unfold wrapu. rewrite C1, Z.mod_small by lia.
  replace (total sizeOf (queue q) - (total sizeOf (queue q) - total sizeOf k)) with (total sizeOf k) by lia.
  destruct (core_refill q _ k (total sizeOf k) q.(mCapacity) C eq_refl) as (R1 & R2 & R3 & R4).
  assert (Hq : queue q <> []) by (intros Hq; by rewrite Hq in He).
  destruct q as [qs ne nf cap size cl]. cbn in *.
  destruct k as [| x k]; [destruct cl |]; cbn; (split; [split; cbn; auto with queue |]);
    try (split_and!; try done; split; intros c; cbn; by rewrite ?set_listed).
  intros [? | ?]; congruence.
Qed.

(** ** Queue and coroutines *)

Definition at_empty (op : CallT) : bool := match op with Insert _ _ _ => false | _ => true end.
Definition event (side : bool) (q : QueueT) : Event := if side then q.(notEmpty) else q.(notFull).

(** The events list the coroutines that wait for them. *)
Definition waits (q : QueueT) (bl : list (option CallT)) : Prop :=
  forall c side, c ∈ listed (event side q) <-> exists op, bl !! c = Some (Some op) /\ at_empty op = side.

Definition call_size (op : CallT) : Z := match op with Insert _ e _ => sizeOf e | _ => 0 end.
Definition waiting_size (st : option CallT) : Z := match st with Some op => call_size op | None => 0 end.

(** What is in the queue and what waiting calls will add. *)
Definition load (sys : SystemT) : Z := total sizeOf sys.(q).(queue) + total waiting_size sys.(blocked).

Record qinv (sys : SystemT) : Prop := {
  qinv_core : core sys.(q);
  qinv_waits : waits sys.(q) sys.(blocked)
}.

Lemma event_of_event op q : event_of op q = event (at_empty op) q.
Proof. by destruct op. Qed.

Lemma with_event_event op f q side : event side (with_event op f q) =
  if decide (side = at_empty op) then f (event side q) else event side q.
Proof. by destruct op, side. Qed.

Lemma with_event_queue op f (q : QueueT) : (with_event op f q).(queue) = q.(queue).
Proof. by destruct op. Qed.

Lemma with_event_closed op f (q : QueueT) : (with_event op f q).(m_closed) = q.(m_closed).
Proof. by destruct op. Qed.

Lemma waits_same q q' bl : same_waits q q' -> waits q bl -> waits q' bl.
Proof. intros [H1 H2] Hw c []; cbn; [rewrite H1; apply (Hw c true) | rewrite H2; apply (Hw c false)]. Qed.

Lemma waits_leave q bl c op : waits q bl -> bl !! c = Some (Some op) ->
  waits (with_event op (leave c) q) (<[c := None]> bl).
Proof.
  intros Hw Hc d side. pose proof (lookup_lt_Some _ _ _ Hc) as Hlt.
  rewrite with_event_event. destruct (decide (d = c)) as [-> | Hd].
  - rewrite list_lookup_insert_eq by done. destruct (decide (side = at_empty op)) as [-> | Hs].
    + rewrite leave_listed. naive_solver.
    + rewrite (Hw c side). naive_solver.
  - rewrite list_lookup_insert_ne, <- (Hw d side) by done.
    destruct (decide _); [rewrite leave_listed; naive_solver | done].
Qed.

Lemma waits_park q bl c op : waits q bl -> bl !! c = Some None ->
  waits (with_event op (park c) q) (<[c := Some op]> bl).
Proof.
  intros Hw Hc d side. pose proof (lookup_lt_Some _ _ _ Hc) as Hlt.
  rewrite with_event_event. destruct (decide (d = c)) as [-> | Hd].
  - rewrite list_lookup_insert_eq by done. destruct (decide (side = at_empty op)) as [-> | Hs].
    + rewrite park_listed. naive_solver.
    + rewrite (Hw c side). naive_solver.
  - rewrite list_lookup_insert_ne, <- (Hw d side) by done.
    destruct (decide _); [rewrite park_listed; naive_solver | done].
Qed.

Lemma core_with_event op f q : core q -> (forall ev, (f ev).(flag) = ev.(flag)) ->
  ev_ok (f (event_of op q)) -> core (with_event op f q).
Proof. intros [C1 C2 C3 C4 C5] Hf Hok. destruct op; split; cbn in *; rewrite ?Hf; done. Qed.

Lemma core_leave op c q : core q -> core (with_event op (leave c) q).
Proof.
  intros C. pose proof C as [C1 C2 C3 C4 C5]. apply core_with_event; [done | done |].
  apply leave_ok. by destruct op.
Qed.

Lemma core_park op c q : core q -> (event_of op q).(flag) = false -> core (with_event op (park c) q).
Proof. intros C Hf. apply core_with_event; [done | done |]. by apply park_ok. Qed.

Lemma waiting_nonneg (bl : list (option CallT)) : 0 <= total waiting_size bl.
Proof.
  apply total_nonneg, Forall_forall. intros [[| b e p | p] |] _; cbn; try done; auto.
Qed.

Lemma waiting_free (bl : list (option CallT)) c st op : bl !! c = Some st ->
  total waiting_size (<[c := op]> bl) = total waiting_size bl - waiting_size st + waiting_size op.
Proof. apply total_insert. Qed.

(** A step keeps the invariant, and the load grows by at most what the action brings. *)
Definition step_ok (sys : SystemT) (n : Z) (st : Step (T := T)) : Prop :=
  qinv st.1 /\ load st.1 <= load sys + n.

Lemma block_ok c op sys : qinv sys -> sys.(blocked) !! c = Some None ->
  (event_of op sys.(q)).(flag) = false -> step_ok sys (call_size op) (block c op sys).
Proof.
  intros [C W] Hc Hf. split.
  - split; cbn; [by apply core_park | by apply waits_park].
  - unfold load. cbn. rewrite with_event_queue, (waiting_free _ _ _ _ Hc). cbn. lia.
Qed.

Lemma answer_ok c r q' sys n : core q' -> same_waits sys.(q) q' -> waits sys.(q) sys.(blocked) ->
  sys.(blocked) !! c = Some None -> total sizeOf q'.(queue) <= total sizeOf sys.(q).(queue) + n ->
  step_ok sys n (answer c r q' sys).
Proof.
  intros C Hs W Hc Hl. unfold answer. rewrite list_insert_id by done. split.
  - split; [done | by eapply waits_same].
  - unfold load. cbn. lia.
Qed.

Lemma advance_ok c op sys : qinv sys -> sys.(blocked) !! c = Some None -> load sys + call_size op < 2 ^ 32 ->
  step_ok sys (call_size op) (advance sizeOf c op sys).
Proof.
  intros I Hc Hl. pose proof I as [C W]. unfold load in Hl.
  pose proof (waiting_nonneg sys.(blocked)). unfold advance. destruct op as [| back e p | p]; cbn in *.
  - destruct (queue (q sys)) as [| e l] eqn:Hq.
    + destruct (m_closed (q sys)) eqn:Hcl; [apply answer_ok; try done; lia |].
      assert (I' : qinv (mkSys (with_notEmpty unset (q sys)) (blocked sys))).
      { destruct C as [C1 C2 C3 C4 C5]. split; [| by apply (waits_same (q sys))].
        split; cbn; try done. rewrite Hq, Hcl. naive_solver. }
      destruct (block_ok c Get _ I' Hc eq_refl) as [H1 H2]. by split.
    + cbn in Hl. destruct (core_take e l (q sys) C Hq) as (H1 & H2 & H3 & _); [rewrite Hq; cbn; lia |].
      apply answer_ok; try done. rewrite H3, Hq. cbn. pose proof (sizeOf_range e). lia.
  - destruct (core_insert back e (q sys) C ltac:(lia)) as (H1 & H2 & _ & _ & _ & H6).
    destruct (insert sizeOf back e (q sys)) as [ok q']. cbn in *. apply answer_ok; try done. rewrite H6.
    pose proof (sizeOf_range e).
    destruct (m_closed (q sys)); [| destruct back]; rewrite ?total_join; cbn; lia.
  - apply answer_ok; try done; lia.
Qed.

(** ** Every action *)

Definition action_size (a : ActionT) : Z :=
  match a with Start _ op => call_size op | Forced _ _ e => sizeOf e | _ => 0 end.

Lemma action_size_nonneg a : 0 <= action_size a.
Proof. destruct a as [? [] | | | | | | | | |]; cbn; auto; lia. Qed.

(** A coroutine that is no longer listed can be taken for one that begins its call. *)
Lemma freed_ok sys c op : qinv sys -> sys.(blocked) !! c = Some (Some op) ->
  let sys' := mkSys (with_event op (leave c) sys.(q)) (<[c := None]> sys.(blocked)) in
  qinv sys' /\ sys'.(blocked) !! c = Some None /\ load sys' + call_size op = load sys.
Proof.
  intros [C W] Hc. cbn. pose proof (lookup_lt_Some _ _ _ Hc) as Hlt. split_and!.
  - split; cbn; [by apply core_leave | by apply waits_leave].
  - by apply list_lookup_insert_eq.
  - unfold load. cbn. rewrite with_event_queue, (waiting_free _ _ _ _ Hc). cbn. lia.
Qed.

Lemma advance_freed c op q' bl : advance sizeOf c op (mkSys q' bl) = advance sizeOf c op (mkSys q' (<[c := None]> bl)).
Proof.
  unfold advance, answer, block. cbn. destruct (proceed sizeOf op q') as [[r |] q'']; cbn;
    by rewrite list_insert_insert_eq.
Qed.

Lemma block_freed c op q' bl : block c op (mkSys q' bl) = block c op (mkSys q' (<[c := None]> bl) : SystemT).
Proof. unfold block. cbn. by rewrite list_insert_insert_eq. Qed.

Lemma answer_freed c r q' sys : answer c r q' sys = answer c r q' (mkSys sys.(q) (<[c := None]> sys.(blocked)) : SystemT).
Proof. unfold answer. cbn. by rewrite list_insert_insert_eq. Qed.

Lemma start_ok c op sys st : qinv sys -> load sys + call_size op < 2 ^ 32 ->
  exec sizeOf eqT (Start c op) sys = Some st -> step_ok sys (call_size op) st.
Proof.
  intros I Hl H. cbn in H. destruct (blocked sys !! c) as [[op' |] |] eqn:Hc; cbn in H; try done.
  injection H as <-. destruct (flag (event_of op (q sys))) eqn:Hf; [by apply advance_ok |].
  pose proof I as [C W]. assert (0 <= call_size op) by (by destruct op; cbn; auto).
  destruct (patience op); [| by apply block_ok..]. apply answer_ok; try done. lia.
Qed.

Lemma resume_ok c late sys st : qinv sys -> load sys < 2 ^ 32 ->
  exec sizeOf eqT (Resume c late) sys = Some st -> step_ok sys 0 st.
Proof.
  intros I Hl H. cbn in H. destruct (blocked sys !! c) as [[op |] |] eqn:Hc; cbn in H; try done.
  destruct (freed_ok sys c op I Hc) as (I' & Hc' & Hl'). cbn in Hc'.
  destruct (bool_decide _); [| done]. injection H as <-.
  assert (Hup : forall st', step_ok (mkSys (with_event op (leave c) sys.(q)) (<[c := None]> sys.(blocked)))
    (call_size op) st' -> step_ok sys 0 st') by (intros st' [G1 G2]; split; [done | lia]).
  assert (0 <= call_size op) by (by destruct op; cbn; auto).
  destruct (flag _) eqn:Hf.
  - rewrite advance_freed. apply Hup, advance_ok; try done. cbn. lia.
  - assert (Hb : step_ok sys 0 (block c op (mkSys (with_event op (leave c) (q sys)) (blocked sys)))).
    { rewrite block_freed. apply Hup, block_ok; try done. }
    destruct (patience op), late; try done.
    rewrite answer_freed. apply Hup. pose proof I' as [C W].
    apply (answer_ok _ _ _ (mkSys (with_event op (leave c) sys.(q)) (<[c := None]> sys.(blocked)))); try done.
    cbn. lia.
Qed.

Lemma exec_ok a sys st : qinv sys -> load sys + action_size a < 2 ^ 32 ->
  exec sizeOf eqT a sys = Some st -> step_ok sys (action_size a) st.
Proof.
  intros I Hl H. pose proof I as [C W]. pose proof (waiting_nonneg sys.(blocked)) as Hn.
  assert (Hlq : total sizeOf (queue (q sys)) + action_size a < 2 ^ 32) by (unfold load in Hl; lia).
  assert (Hq : forall q' r, core q' -> same_waits (q sys) q' ->
    total sizeOf q'.(queue) <= total sizeOf (queue (q sys)) + action_size a ->
    step_ok sys (action_size a) (mkSys q' (blocked sys), r)).
  { intros q' r H1 H2 H3. split; [split; [done | by eapply waits_same] |]. unfold load. cbn. lia. }
  destruct a as [c op | c late | c | c | c back e | c e | | n | |]; cbn [action_size] in *.
  - by eapply start_ok.
  - eapply resume_ok; [done | lia | done].
  - cbn in H. destruct (blocked sys !! c) as [[op |] |] eqn:Hc; cbn in H; try done.
    destruct (freed_ok sys c op I Hc) as (I' & Hc' & Hl').
    destruct (patience op); try done. injection H as <-. split; [done |]. cbn.
    assert (0 <= call_size op) by (by destruct op; cbn; auto). lia.
  - cbn in H. destruct (blocked sys !! c) as [[op |] |] eqn:Hc; cbn in H; try done.
    destruct (freed_ok sys c op I Hc) as (I' & Hc' & Hl'). injection H as <-. split; [done |]. cbn.
    assert (0 <= call_size op) by (by destruct op; cbn; auto). lia.
  - cbn in H. destruct (core_insert back e (q sys) C ltac:(lia)) as (H1 & H2 & _ & _ & _ & H6).
    destruct (insert sizeOf back e (q sys)) as [ok q']. cbn in *. injection H as <-. apply Hq; try done.
    rewrite H6. pose proof (sizeOf_range e).
    destruct (m_closed (q sys)); [| destruct back]; rewrite ?total_join; cbn; lia.
  - cbn in H. destruct (core_remove e (q sys) C ltac:(lia)) as (H1 & H2 & _ & _ & H5 & _).
    destruct (remove sizeOf eqT e (q sys)) as [ok q']. cbn in *. injection H as <-. apply Hq; try done.
    rewrite H5. pose proof (total_filter_le sizeOf (fun x => eqT x e = false) (queue (q sys)) sizeOf_range). lia.
  - injection H as <-. destruct (core_clear (q sys) C) as (H1 & H2 & H3 & _). apply Hq; try done.
    rewrite H3. cbn. pose proof (sizes_nonneg (queue (q sys))). lia.
  - injection H as <-. destruct (core_setCapacity n (q sys) C) as [H1 H2]. apply Hq; try done. cbn. lia.
  - injection H as <-. destruct (core_close (q sys) C) as [H1 H2]. apply Hq; try done. cbn. lia.
  - injection H as <-. apply Hq; [| split; intros d; cbn; by rewrite ?set_listed | cbn; lia].
    destruct C as [C1 C2 C3 C4 C5]. split; cbn; auto with queue.
Qed.

Lemma execs_ok l : forall sys sys' rs, qinv sys -> load sys + total action_size l < 2 ^ 32 ->
  execs sizeOf eqT l sys = Some (sys', rs) -> qinv sys' /\ load sys' <= load sys + total action_size l.
Proof.
  assert (Hpos : forall l, 0 <= total action_size l).
  { intros l'. apply total_nonneg, Forall_forall. intros [? [] | | | | | | | | |] _; cbn; auto; lia. }
  induction l as [| a l IH]; cbn; intros sys sys' rs I Hl H; [injection H as <- <-; by split; [| lia] |].
  destruct (exec sizeOf eqT a sys) as [st |] eqn:E; cbn in H; [| done].
  specialize (Hpos l). destruct (exec_ok a sys st I ltac:(lia) E) as [I' Hl'].
  destruct (execs sizeOf eqT l st.1) as [[sys1 rs1] |] eqn:E'; cbn in H; [| done]. injection H as <- _.
  destruct (IH _ _ _ I' ltac:(lia) E') as [G1 G2]. split; [done | lia].
Qed.

Lemma start_inv n capacity : qinv (start n capacity).
Proof.
  split; [split; cbn; try done; naive_solver |]. intros c side. split.
  - destruct side; by intros ?%not_elem_of_nil.
  - intros (op & Hc & _). apply lookup_replicate in Hc as [? _]. done.
Qed.

Lemma start_load n capacity : load (start n capacity) = 0.
Proof. unfold load. cbn. induction n; cbn in *; lia. Qed.

(** ** Draining the loop *)

Definition count (sys : SystemT) : Z := total (fun st => if st is Some _ then 1 else 0) sys.(blocked).
Definition pending (sys : SystemT) : nat := length sys.(q).(notEmpty).(woken) + length sys.(q).(notFull).(woken).

Lemma count_nonneg sys : 0 <= count sys.
Proof. apply total_nonneg, Forall_forall. by intros [|]. Qed.

Lemma leave_shorter c ev : c ∈ ev.(woken) -> (length (leave c ev).(woken) < length ev.(woken))%nat.
Proof. intros Hc. cbn. apply (length_filter_lt _ _ c); naive_solver. Qed.

(** To resume a coroutine ends its call or takes it off the loop. *)
Lemma resume_progress c op sys : sys.(blocked) !! c = Some (Some op) -> c ∈ (event_of op sys.(q)).(woken) ->
  exists st, exec sizeOf eqT (Resume c false) sys = Some st
  /\ (count st.1 < count sys \/ count st.1 = count sys /\ (pending st.1 < pending sys)%nat).
Proof.
  intros Hc Hw. cbn. rewrite Hc. cbn. rewrite bool_decide_true by done. eexists. split; [done |].
  assert (Hans : forall r q' sys', blocked sys' = blocked sys -> count (answer c r q' sys').1 < count sys).
  { intros r q' sys' Hb. unfold count, answer. cbn. rewrite Hb, (total_insert _ _ _ _ _ Hc). lia. }
  assert (Hblk : forall q' sys', blocked sys' = blocked sys -> sys'.(q) = q' ->
    q'.(notEmpty).(woken) = (with_event op (leave c) sys.(q)).(notEmpty).(woken) ->
    q'.(notFull).(woken) = (with_event op (leave c) sys.(q)).(notFull).(woken) ->
    count (block c op sys').1 = count sys /\ (pending (block c op sys').1 < pending sys)%nat).
  { intros q' sys' Hb <- H1 H2. unfold count, pending, block. cbn. rewrite Hb, (total_insert _ _ _ _ _ Hc).
    split; [lia |]. pose proof (leave_shorter _ _ Hw). destruct op; cbn in *; rewrite H1, H2; lia. }
  destruct (flag _) eqn:Hf.
  - unfold advance. destruct (proceed sizeOf op _) as [[r |] q'] eqn:Hp; [left; by apply Hans |].
    right. apply (Hblk q'); try done; destruct op as [| b e p | p]; cbn in Hp; try done;
      try (destruct (insert _ _ _ _); done);
      destruct (queue (q sys)); try done; destruct (m_closed (q sys)); try done; by injection Hp as <-.
  - right. destruct (patience op); by apply (Hblk (with_event op (leave c) (q sys))).
Qed.

Definition is_resume (a : ActionT) : Prop := match a with Resume _ _ => True | _ => False end.

Lemma resumes_size l : Forall is_resume l -> total action_size l = 0.
Proof. induction 1 as [| [] l Ha Hl IH]; cbn in *; try done. Qed.

Lemma drain k : forall m sys, count sys <= Z.of_nat k -> (pending sys <= m)%nat -> qinv sys -> load sys < 2 ^ 32 ->
  exists l sys' rs, Forall is_resume l /\ execs sizeOf eqT l sys = Some (sys', rs) /\ pending sys' = 0%nat.
Proof.
  induction k as [k IHk] using lt_wf_ind. induction m as [m IHm] using lt_wf_ind. intros sys Hk Hm I Hl.
  destruct (decide (pending sys = 0%nat)) as [Hz | Hz]; [by exists [], sys, [] |].
  assert (exists c op, sys.(blocked) !! c = Some (Some op) /\ c ∈ (event_of op sys.(q)).(woken)) as (c & op & Hc & Hw).
  { pose proof (qinv_waits _ I) as W. unfold pending in Hz.
    destruct (woken (notEmpty (q sys))) as [| c ws] eqn:E1; [destruct (woken (notFull (q sys))) as [| c ws] eqn:E2 |].
    - done.
    - destruct (proj1 (W c false)) as (op & Hop & Ha).
      { cbn. unfold listed. rewrite E2. apply elem_of_app. right. constructor. }
      exists c, op. split; [done |]. rewrite event_of_event, Ha. cbn. rewrite E2. constructor.
    - destruct (proj1 (W c true)) as (op & Hop & Ha).
      { cbn. unfold listed. rewrite E1. apply elem_of_app. right. constructor. }
      exists c, op. split; [done |]. rewrite event_of_event, Ha. cbn. rewrite E1. constructor. }
  destruct (resume_progress c op sys Hc Hw) as (st & Hst & Hlt).
  destruct (exec_ok (Resume c false) sys st I) as [I' Hl']; [cbn; lia | done |]. cbn in Hl'.
  assert (Hex : exists l sys' rs, Forall is_resume l /\ execs sizeOf eqT l st.1 = Some (sys', rs) /\ pending sys' = 0%nat).
  { pose proof (count_nonneg st.1). destruct Hlt as [Hlt | [Heq Hlt]].
    - apply (IHk (Z.to_nat (count st.1)) ltac:(lia) (pending st.1)); try done; lia.
    - apply (IHm (pending st.1) ltac:(lia)); try done; lia. }
  destruct Hex as (l & sys' & rs & Hr & He & Hp). exists (Resume c false :: l).
  eexists _, _. split; [by constructor |]. cbn [execs]. rewrite Hst. cbn. rewrite He. by split.
Qed.

(** Nobody waits at an event that is set, once the loop is done. *)
Lemma quiescent sys c op : qinv sys -> pending sys = 0%nat -> sys.(blocked) !! c = Some (Some op) ->
  sys.(q).(m_closed) = false /\ if at_empty op then sys.(q).(queue) = [] else sys.(q).(mCapacity) <= sys.(q).(currentSize).
Proof.
  intros [[C1 C2 C3 C4 C5] W] Hp Hc. unfold pending in Hp.
  assert (Hin : c ∈ waiting (event (at_empty op) (q sys))).
  { assert (c ∈ listed (event (at_empty op) (q sys))) as Hl by (apply W; by exists op).
    unfold listed in Hl. apply elem_of_app in Hl as [? | Hl]; [done |].
    destruct (at_empty op); cbn in Hl; apply list_elem_of_lookup in Hl as [i Hi%lookup_lt_Some]; lia. }
  assert (Hf : flag (event (at_empty op) (q sys)) <> true).
  { intros Hf. destruct (at_empty op); cbn in *; rewrite ?(C4 Hf), ?(C5 Hf) in Hin; by apply not_elem_of_nil in Hin. }
  destruct (at_empty op); cbn in Hf.
  - destruct (queue (q sys)) eqn:Hq; [| destruct Hf; apply C2; by left].
    destruct (m_closed (q sys)) eqn:Hcl; [| done]. destruct Hf. apply C2. by right.
  - destruct (m_closed (q sys)) eqn:Hcl; [destruct Hf; apply C3; by right |].
    split; [done |]. destruct (decide (mCapacity (q sys) <= currentSize (q sys))); [done |].
    destruct Hf. apply C3. lia.
Qed.

End Proofs.
