(* ===== verification/QueueSpec.v ===== *)
(** * Queues: the deque behind them

    The abstract deque whose calls happen at once, with the lemmas that every action of
    the queue is one of its steps; the room that the latch [notFull] stands for; and
    the bound that threads keep. *)

From S2P Require Import Prelude Queue QueueProofs.

(** ** The deque that the queue implements *)

Section Deque.
Context {T : Type} (eqT : T -> T -> bool).

(** The contents, and whether the deque is closed. *)
Definition Deque : Type := list T * bool.

Inductive deque_step : Call (T := T) -> Deque -> Response (T := T) -> Deque -> Prop :=
| deque_get e l b : deque_step Get (e :: l, b) (Got (Some e)) (l, b)
| deque_end : deque_step Get ([], true) (Got None) ([], true)
| deque_put e l p : deque_step (Insert true e p) (l, false) (Inserted e true) (l ++ [e], false)
| deque_return e l p : deque_step (Insert false e p) (l, false) (Inserted e true) (e :: l, false)
| deque_refuse e l back p : deque_step (Insert back e p) (l, true) (Inserted e false) (l, true)
| deque_late e d back p : p <> untimed -> deque_step (Insert back e p) d (Inserted e false) d
| deque_nothing d p : p <> untimed -> deque_step (WaitNotEmpty p) d (NotEmpty false) d
| deque_something d p : deque_step (WaitNotEmpty p) d (NotEmpty true) d.

(** The call that an action may answer, and the effect of those that answer none. *)
Definition call_of (a : Action (T := T)) (bl : list (option (Call (T := T)))) : option (Call (T := T)) :=
  match a with
  | Start _ op => Some op
  | Resume c _ | Expire c => mjoin (bl !! c)
  | Forced _ back e => Some (Insert back e untimed)
  | _ => None
  end.

Definition silent (a : Action (T := T)) (d : Deque) : Deque :=
  match a with
  | Remove _ e => (filter (fun x => eqT x e = false) d.1, d.2)
  | Clear => ([], d.2)
  | Close => (d.1, true)
  | _ => d
  end.

End Deque.

Definition deque_of {T} (q : Queue (T := T)) : list T * bool := (q.(queue), q.(m_closed)).

Section Refinement.
Context {T : Type} (sizeOf : T -> Z) (eqT : T -> T -> bool).
Hypothesis sizeOf_range : forall e, 0 <= sizeOf e.

Lemma with_event_deque op f (q : Queue (T := T)) : deque_of (with_event op f q) = deque_of q.
Proof. by destruct op. Qed.

(** A call that proceeds is answered as the deque answers, or finds nothing. *)
Lemma proceed_deque op q : core sizeOf q -> total sizeOf q.(queue) + call_size sizeOf op < 2 ^ 32 ->
  match proceed sizeOf op q with
  | (Some r, q') => deque_step op (deque_of q) r (deque_of q')
  | (None, q') => deque_of q' = deque_of q
  end.
Proof.
  intros C Hl. destruct op as [| back e p | p]; cbn.
  - destruct (queue q) as [| e l] eqn:Hq.
    + destruct (m_closed q) eqn:Hcl; unfold deque_of; cbn; rewrite ?Hq, ?Hcl; constructor.
    + cbn in Hl. destruct (core_take sizeOf sizeOf_range e l q C Hq) as (_ & _ & H3 & H4 & _); [rewrite Hq; cbn; lia |].
      unfold deque_of. rewrite H3, H4, Hq. constructor.
  - cbn in Hl. destruct (core_insert sizeOf sizeOf_range back e q C Hl) as (_ & _ & H3 & H4 & _ & H6).
    destruct (insert sizeOf back e q) as [ok q']. cbn in *. unfold deque_of. rewrite H3, H4, H6.
    destruct (m_closed q), back; constructor.
  - constructor.
Qed.

Lemma advance_deque c op sys : core sizeOf sys.(q) ->
  total sizeOf sys.(q).(queue) + call_size sizeOf op < 2 ^ 32 ->
  let st := advance sizeOf c op sys in
  match st.2 with
  | Some r => deque_step op (deque_of sys.(q)) r.2 (deque_of st.1.(q))
  | None => deque_of st.1.(q) = deque_of sys.(q)
  end.
Proof.
  intros C Hl. pose proof (proceed_deque op _ C Hl) as H. unfold advance.
  destruct (proceed sizeOf op (q sys)) as [[r |] q']; cbn; [done |]. by rewrite with_event_deque.
Qed.

Lemma give_up_deque op (d : Deque (T := T)) : patience op <> untimed -> deque_step op d (give_up_with op) d.
Proof. destruct op; cbn; intros Hp; [done | by constructor..]. Qed.

Lemma exec_deque a sys sys' r : qinv sizeOf sys -> load sizeOf sys + action_size sizeOf a < 2 ^ 32 ->
  exec sizeOf eqT a sys = Some (sys', r) ->
  match r with
  | Some (_, r) => exists op, call_of a sys.(blocked) = Some op /\ deque_step op (deque_of sys.(q)) r (deque_of sys'.(q))
  | None => deque_of sys'.(q) = silent eqT a (deque_of sys.(q))
  end.
Proof.
  intros I Hl H. pose proof I as [C W]. pose proof (waiting_nonneg sizeOf sizeOf_range sys.(blocked)) as Hn.
  unfold load in Hl. destruct a as [c op | c late | c | c | c back e | c e | | n | |]; cbn [exec] in H.
  - destruct (blocked sys !! c) as [[op' |] |] eqn:Hc; cbn in H; try done. injection H as H. cbn [action_size] in Hl.
    destruct (flag (event_of op (q sys))).
    + pose proof (advance_deque c op sys C ltac:(lia)) as Ha. rewrite H in Ha. cbn in Ha.
      destruct r as [[d r] |]; [by exists op | done].
    + destruct (patience op) eqn:Hp; injection H as <- <-; cbn; rewrite ?with_event_deque; try done.
      exists op. split; [done |]. apply give_up_deque. by rewrite Hp.
  - destruct (blocked sys !! c) as [[op |] |] eqn:Hc; cbn in H; try done.
    destruct (freed_ok sizeOf sys c op I Hc) as ([C' W'] & Hc' & Hl'). cbn in C', Hl'.
    destruct (bool_decide _); [| done]. injection H as H.
    destruct (flag _).
    + pose proof (advance_deque c op (mkSys (with_event op (leave c) (q sys)) (blocked sys)) C') as Ha.
      rewrite H in Ha. cbn in Ha. rewrite with_event_deque in Ha.
      assert (match r with Some r => deque_step op (deque_of (q sys)) r.2 (deque_of (q sys'))
                         | None => deque_of (q sys') = deque_of (q sys) end) as Hd.
      { apply Ha. rewrite with_event_queue. unfold load in Hl'. cbn in Hl', Hl.
        pose proof (waiting_nonneg sizeOf sizeOf_range (<[c := None]> sys.(blocked))).
        rewrite with_event_queue in Hl'. lia. }
      destruct r as [[d r] |]; [exists op; cbn; by rewrite Hc | done].
    + destruct (patience op) eqn:Hp, late; injection H as <- <-; cbn; rewrite ?with_event_deque; try done.
      exists op. rewrite Hc. split; [done |]. apply give_up_deque. by rewrite Hp.
  - destruct (blocked sys !! c) as [[op |] |] eqn:Hc; cbn in H; try done.
    destruct (patience op) eqn:Hp; try done. injection H as <- <-. cbn. rewrite with_event_deque, Hc.
    exists op. split; [done |]. apply give_up_deque. by rewrite Hp.
  - destruct (blocked sys !! c) as [[op |] |] eqn:Hc; cbn in H; try done. injection H as <- <-.
    cbn. by rewrite with_event_deque.
  - cbn [action_size] in Hl. pose proof (proceed_deque (Insert back e untimed) (q sys) C) as Hp. cbn in Hp.
    destruct (insert sizeOf back e (q sys)) as [ok q']. injection H as <- <-. cbn. eexists. split; [done |].
    apply Hp. lia.
  - destruct (core_remove sizeOf eqT sizeOf_range e (q sys) C) as (_ & _ & H3 & _ & H5 & _); [cbn in Hl; lia |].
    destruct (remove sizeOf eqT e (q sys)) as [ok q']. injection H as <- <-. unfold deque_of. cbn in *. by rewrite H3, H5.
  - injection H as <- <-. unfold deque_of. cbn.
    destruct (core_clear sizeOf (q sys) C) as (_ & _ & H3 & H4 & _). by rewrite H3, H4.
  - by injection H as <- <-.
  - by injection H as <- <-.
  - by injection H as <- <-.
Qed.

(** Only the call of the action is ever added to those that wait. *)
Lemma exec_blocked (P : Call (T := T) -> Prop) a sys sys' r :
  Forall (fun st => from_option P True st) sys.(blocked) -> (forall op, call_of a sys.(blocked) = Some op -> P op) ->
  exec sizeOf eqT a sys = Some (sys', r) -> Forall (fun st => from_option P True st) sys'.(blocked).
Proof.
  intros Hb Hop H.
  assert (Hadv : forall c op sys1 sys2 r, P op -> blocked sys1 = blocked sys -> advance sizeOf c op sys1 = (sys2, r) ->
    Forall (fun st => from_option P True st) sys2.(blocked)).
  { intros c op sys1 sys2 r' HP Hs. unfold advance.
    destruct (proceed sizeOf op (q sys1)) as [[x |] q']; intros [= <- <-]; cbn; rewrite Hs; by apply Forall_insert. }
  destruct a as [c op | c late | c | c | c back e | c e | | n | |]; cbn in H, Hop.
  - specialize (Hop op eq_refl). destruct (blocked sys !! c) as [[op' |] |] eqn:Hc; cbn in H; try done.
    injection H as H. destruct (flag _); [eapply Hadv; [done | | exact H]; done |].
    destruct (patience op); injection H as <- <-; cbn; by apply Forall_insert.
  - destruct (blocked sys !! c) as [[op |] |] eqn:Hc; cbn in H; try done. specialize (Hop op eq_refl).
    destruct (bool_decide _); [| done]. injection H as H. destruct (flag _); [eapply Hadv; [done | | exact H]; done |].
    destruct (patience op), late; injection H as <- <-; cbn; by apply Forall_insert.
  - destruct (blocked sys !! c) as [[op |] |] eqn:Hc; cbn in H; try done.
    destruct (patience op); try done. injection H as <- <-. cbn. by apply Forall_insert.
  - destruct (blocked sys !! c) as [[op |] |] eqn:Hc; cbn in H; try done. injection H as <- <-.
    cbn. by apply Forall_insert.
  - destruct (insert _ _ _ _). by injection H as <- <-.
  - destruct (remove _ _ _ _). by injection H as <- <-.
  - by injection H as <- <-.
  - by injection H as <- <-.
  - by injection H as <- <-.
  - by injection H as <- <-.
Qed.

(** ** In what order things come out *)

Definition gotten (rs : list (nat * Response (T := T))) : list T :=
  omap (fun r => match r.2 with Got (Some e) => Some e | _ => None end) rs.
Definition accepted (rs : list (nat * Response (T := T))) : list T :=
  omap (fun r => match r.2 with Inserted e true => Some e | _ => None end) rs.

Definition back_call (op : Call (T := T)) : Prop := match op with Insert back _ _ => back = true | _ => True end.
Definition plain (a : Action (T := T)) : Prop :=
  match a with
  | Start _ op => back_call op
  | Forced _ back _ => back = true
  | Remove _ _ | Clear => False
  | _ => True
  end.

Lemma plain_call a bl op : plain a -> Forall (fun st => from_option back_call True st) bl ->
  call_of a bl = Some op -> back_call op.
Proof.
  intros Ha Hb. destruct a as [c op' | c late | c | c | c back e | | | | |]; cbn in *; try done.
  - by intros [= <-].
  - destruct (bl !! c) as [[op' |] |] eqn:Hc; cbn; [| done..]. intros [= <-]. apply (Forall_lookup_1 _ _ _ _ Hb Hc).
  - destruct (bl !! c) as [[op' |] |] eqn:Hc; cbn; [| done..]. intros [= <-]. apply (Forall_lookup_1 _ _ _ _ Hb Hc).
  - by intros [= <-].
Qed.

Lemma execs_fifo l : forall sys sys' rs, qinv sizeOf sys -> load sizeOf sys + total (action_size sizeOf) l < 2 ^ 32 ->
  Forall plain l -> Forall (fun st => from_option back_call True st) sys.(blocked) ->
  execs sizeOf eqT l sys = Some (sys', rs) ->
  gotten rs ++ sys'.(q).(queue) = sys.(q).(queue) ++ accepted rs.
Proof.
  induction l as [| a l IH]; intros sys sys' rs I Hl Ha Hb H; cbn in H.
  { injection H as <- <-. cbn. by rewrite app_nil_r. }
  inversion Ha as [| ? ? Ha1 Ha2]; subst. cbn [total] in Hl.
  destruct (exec sizeOf eqT a sys) as [[sys1 r] |] eqn:E; cbn in H; [| done].
  destruct (execs sizeOf eqT l sys1) as [[sys2 rs2] |] eqn:E2; cbn in H; [| done]. injection H as <- <-.
  assert (Hpos : 0 <= total (action_size sizeOf) l).
  { apply total_nonneg, Forall_forall. intros [? [] | | | | | | | | |] _; cbn; auto; lia. }
  destruct (exec_ok sizeOf eqT sizeOf_range a sys _ I ltac:(lia) E) as [I1 Hl1]. cbn in I1, Hl1.
  assert (Hb1 : Forall (fun st => from_option back_call True st) sys1.(blocked)).
  { eapply exec_blocked; [exact Hb | | exact E]. intros op. by apply plain_call. }
  specialize (IH sys1 sys2 rs2 I1 ltac:(lia) Ha2 Hb1 E2).
  pose proof (exec_deque a sys sys1 r I ltac:(lia) E) as Hd. unfold deque_of in Hd.
  destruct r as [[c r] |].
  - destruct Hd as (op & Hop & Hd). apply plain_call in Hop; [| done | done].
    unfold gotten, accepted in *. cbn. inversion Hd; subst; cbn in *; rewrite IH;
      repeat match goal with E : _ = queue (q _) |- _ => rewrite <- E end; rewrite <- ?app_assoc; done.
  - unfold gotten, accepted in *. cbn. rewrite IH. destruct a; cbn in Hd, Ha1; try done; by injection Hd as -> _.
Qed.

(** ** A closed queue stays closed *)

Lemma deque_step_closed op (d d' : Deque (T := T)) r : deque_step op d r d' -> d'.2 = d.2.
Proof. by inversion 1. Qed.

Lemma resumes_closed l : forall sys sys' rs, qinv sizeOf sys -> load sizeOf sys < 2 ^ 32 -> Forall is_resume l ->
  execs sizeOf eqT l sys = Some (sys', rs) -> sys'.(q).(m_closed) = sys.(q).(m_closed).
Proof.
  induction l as [| a l IH]; cbn; intros sys sys' rs I Hl Ha H; [by injection H as <- _ |].
  inversion Ha as [| ? ? Ha1 Ha2]; subst. destruct a as [| c late | | | | | | | |]; cbn [is_resume] in Ha1; try done.
  destruct (exec sizeOf eqT (Resume c late) sys) as [[sys1 r] |] eqn:E; cbn in H; [| done].
  destruct (execs sizeOf eqT l sys1) as [[sys2 rs2] |] eqn:E2; cbn in H; [| done]. injection H as <- _.
  destruct (exec_ok sizeOf eqT sizeOf_range (Resume c late) sys _ I ltac:(cbn [action_size]; lia) E) as [I1 Hl1]. cbn in I1, Hl1.
  rewrite (IH sys1 sys2 rs2 I1 ltac:(lia) Ha2 E2).
  pose proof (exec_deque (Resume c late) sys sys1 r I ltac:(cbn [action_size]; lia) E) as Hd.
  destruct r as [[d r] |]; [destruct Hd as (op & _ & Hd); by apply deque_step_closed in Hd | by injection Hd].
Qed.

(** ** Capacity *)

Context (M cap : Z) (M_pos : 0 <= M) (cap_pos : 1 <= cap).

(** [notFull] is set only while there is room, and so a call adds at most one element
    beyond it. *)
Definition room (q : Queue (T := T)) : Prop :=
  q.(mCapacity) = cap /\ (q.(notFull).(flag) = true -> q.(m_closed) = true \/ q.(currentSize) < cap)
  /\ q.(currentSize) <= cap - 1 + M.

Lemma room_with_event op f q : (forall ev, (f ev).(flag) = ev.(flag)) -> room q -> room (with_event op f q).
Proof. unfold room. intros Hf. destruct op; cbn; by rewrite ?Hf. Qed.

Lemma room_refill q l size : room q -> 0 <= size <= cap - 1 + M ->
  room (with_notFull (if (size >=? q.(mCapacity)) && negb q.(m_closed) then unset else set) (with_items l size q)).
Proof.
  intros (R1 & R2 & R3) Hs. unfold room. cbn. rewrite R1. split_and!; [done | | lia].
  destruct (size >=? cap) eqn:E; cbn; [| intros _; right; lia].
  destruct (m_closed q) eqn:Hcl; cbn; [intros _; by left | done].
Qed.

Lemma room_insert back e q : core sizeOf q -> room q -> total sizeOf q.(queue) + sizeOf e < 2 ^ 32 ->
  sizeOf e <= M -> q.(notFull).(flag) = true -> room (insert sizeOf back e q).2.
Proof.
  intros C (R1 & R2 & R3) Hl He Hf. unfold insert. destruct (m_closed q) eqn:Hcl; [by unfold room; cbn; rewrite Hcl |].
  destruct (R2 Hf) as [? | Hroom]; [done |]. pose proof (sizeOf_range e). pose proof (sizes_nonneg sizeOf sizeOf_range (queue q)).
  rewrite (core_size _ _ C) in *. unfold wrapu. rewrite Z.mod_small by lia. cbn. unfold room. rewrite R1.
  destruct (_ >=? cap) eqn:E; cbn; split_and!; try done; try lia.
Qed.

Lemma room_take e l q : core sizeOf q -> room q -> q.(queue) = e :: l -> total sizeOf q.(queue) < 2 ^ 32 ->
  room (take_front sizeOf e l q).
Proof.
  intros C (R1 & R2 & R3) Hq Hl. pose proof (core_take sizeOf sizeOf_range e l q C Hq Hl) as ([C1 _ _ _ _] & _ & G3 & G4 & G5).
  pose proof (sizeOf_range e). pose proof (sizes_nonneg sizeOf sizeOf_range l).
  pose proof (core_size _ _ C) as Hs. rewrite Hq in Hs. cbn in Hs. rewrite G3 in C1.
  unfold room. rewrite G4, G5, C1. split_and!; [done | | lia].
  destruct (decide (total sizeOf l < cap)); [intros _; by right |]. unfold take_front.
  replace (wrapu 32 (q.(currentSize) - sizeOf e)) with (total sizeOf l).
  2: { unfold wrapu. rewrite Z.mod_small; rewrite Hq in Hl; cbn in Hl; lia. }
  destruct l as [| e' l]; cbn in *; [lia |]. case_test; [lia |]. intros Hf. destruct (R2 Hf); [by left | lia].
Qed.

Lemma room_remove e q : core sizeOf q -> room q -> total sizeOf q.(queue) < 2 ^ 32 ->
  room (remove sizeOf eqT e q).2.
Proof.
  intros C R Hl. pose proof R as (_ & _ & R3).
  destruct (core_remove sizeOf eqT sizeOf_range e q C Hl) as ([G1 _ _ _ _] & _ & _ & _ & G5 & _).
  pose proof (total_filter_le sizeOf (fun x => eqT x e = false) (queue q) sizeOf_range).
  pose proof (sizes_nonneg sizeOf sizeOf_range (filter (fun x => eqT x e = false) (queue q))).
  rewrite (core_size _ _ C) in R3. rewrite G5 in G1. clear G5.
  unfold remove in *. destruct (sweep sizeOf eqT e (queue q)) as [[k s] m].
  destruct (m >? 0); [| done]. cbn in *.
  destruct k as [| x k]; [destruct (m_closed q) eqn:Hcl |]; cbn in G1; cbn.
  - apply (room_refill q); [done | lia].
  - apply (room_refill (with_notEmpty unset q)); [done | cbn; lia].
  - apply (room_refill (with_notEmpty set q)); [done | cbn; lia].
Qed.

Definition modest (a : Action (T := T)) : Prop :=
  match a with Start _ op => call_size sizeOf op <= M | Forced _ _ _ | SetCapacity _ => False | _ => True end.

Lemma room_advance c op sys : core sizeOf sys.(q) -> room sys.(q) ->
  total sizeOf sys.(q).(queue) + call_size sizeOf op < 2 ^ 32 -> call_size sizeOf op <= M ->
  (event_of op sys.(q)).(flag) = true -> room (advance sizeOf c op sys).1.(q).
Proof.
  intros C R Hl Hm Hf. unfold advance. destruct op as [| back e p | p]; cbn in *.
  - destruct (queue (q sys)) as [| e l] eqn:Hq; [destruct (m_closed (q sys)) eqn:Hcl |]; cbn; try done.
    apply room_take; try done. rewrite Hq. cbn. cbn in Hl. lia.
  - pose proof (room_insert back e (q sys) C R Hl Hm Hf). by destruct (insert sizeOf back e (q sys)).
  - done.
Qed.

Definition call_modest (op : Call (T := T)) : Prop := call_size sizeOf op <= M.

Lemma modest_call a bl op : modest a -> Forall (fun st => from_option call_modest True st) bl ->
  call_of a bl = Some op -> call_modest op.
Proof.
  intros Ha Hb. destruct a as [c op' | c late | c | c | c back e | | | | |]; cbn in *; try done.
  - by intros [= <-].
  - destruct (bl !! c) as [[op' |] |] eqn:Hc; cbn; [| done..]. intros [= <-]. apply (Forall_lookup_1 _ _ _ _ Hb Hc).
  - destruct (bl !! c) as [[op' |] |] eqn:Hc; cbn; [| done..]. intros [= <-]. apply (Forall_lookup_1 _ _ _ _ Hb Hc).
Qed.

Lemma room_exec a sys sys' r : qinv sizeOf sys -> load sizeOf sys + action_size sizeOf a < 2 ^ 32 ->
  modest a -> Forall (fun st => from_option call_modest True st) sys.(blocked) -> room sys.(q) ->
  exec sizeOf eqT a sys = Some (sys', r) -> room sys'.(q).
Proof.
  intros I Hl Ha Hb R H. pose proof I as [C W]. pose proof (waiting_nonneg sizeOf sizeOf_range sys.(blocked)) as Hn.
  pose proof (fun op => modest_call a sys.(blocked) op Ha Hb) as Hop. unfold load in Hl.
  pose proof (sizes_nonneg sizeOf sizeOf_range (queue (q sys))).
  destruct a as [c op | c late | c | c | c back e | c e | | n | |]; cbn in H, Hl, Hop; try done.
  - destruct (blocked sys !! c) as [[op' |] |] eqn:Hc; cbn in H; try done. injection H as H.
    destruct (flag (event_of op (q sys))) eqn:Hf.
    + replace sys' with (advance sizeOf c op sys).1 by (by rewrite H). apply room_advance; try done. lia.
    + destruct (patience op); injection H as <- <-; cbn; try done; by apply room_with_event.
  - destruct (blocked sys !! c) as [[op |] |] eqn:Hc; cbn in H; try done. specialize (Hop op eq_refl).
    destruct (freed_ok sizeOf sys c op I Hc) as ([C' W'] & Hc' & Hl'). cbn in C'. unfold load in Hl'. cbn in Hl'.
    pose proof (waiting_nonneg sizeOf sizeOf_range (<[c := None]> sys.(blocked))).
    destruct (bool_decide _); [| done]. injection H as H. destruct (flag _) eqn:Hf.
    + replace sys' with (advance sizeOf c op (mkSys (with_event op (leave c) (q sys)) (blocked sys))).1 by (by rewrite H).
      apply room_advance; try done; [by apply room_with_event | cbn; lia].
    + destruct (patience op), late; injection H as <- <-; cbn; repeat (apply room_with_event; [done |]); done.
  - destruct (blocked sys !! c) as [[op |] |] eqn:Hc; cbn in H; try done.
    destruct (patience op); try done. injection H as <- <-. by apply room_with_event.
  - destruct (blocked sys !! c) as [[op |] |] eqn:Hc; cbn in H; try done. injection H as <- <-. by apply room_with_event.
  - pose proof (room_remove e (q sys) C R ltac:(lia)). destruct (remove sizeOf eqT e (q sys)).
    by injection H as <- <-.
  - injection H as <- <-. destruct R as (R1 & R2 & R3). unfold room, clear. cbn.
    destruct (m_closed (q sys)); cbn; split_and!; try done; try lia; intros _; right; lia.
  - injection H as <- <-. destruct R as (R1 & R2 & R3). unfold room. cbn. split_and!; try done. intros _. by left.
  - by injection H as <- <-.
Qed.

Lemma room_execs l : forall sys sys' rs, qinv sizeOf sys -> load sizeOf sys + total (action_size sizeOf) l < 2 ^ 32 ->
  Forall modest l -> Forall (fun st => from_option call_modest True st) sys.(blocked) -> room sys.(q) ->
  execs sizeOf eqT l sys = Some (sys', rs) -> room sys'.(q).
Proof.
  induction l as [| a l IH]; intros sys sys' rs I Hl Ha Hb R H; cbn in H; [by injection H as <- <- |].
  inversion Ha as [| ? ? Ha1 Ha2]; subst. cbn [total] in Hl.
  destruct (exec sizeOf eqT a sys) as [[sys1 r] |] eqn:E; cbn in H; [| done].
  destruct (execs sizeOf eqT l sys1) as [[sys2 rs2] |] eqn:E2; cbn in H; [| done]. injection H as <- <-.
  assert (Hpos : 0 <= total (action_size sizeOf) l).
  { apply total_nonneg, Forall_forall. intros [? [] | | | | | | | | |] _; cbn; auto; lia. }
  destruct (exec_ok sizeOf eqT sizeOf_range a sys _ I ltac:(lia) E) as [I1 Hl1]. cbn in I1, Hl1.
  apply (IH sys1 sys2 rs2 I1 ltac:(lia) Ha2); try done.
  - eapply exec_blocked; [exact Hb | | exact E]. intros op. by apply modest_call.
  - by eapply (room_exec a sys sys1 r I ltac:(lia)).
Qed.

End Refinement.

(** ** Threads pass the capacity *)

Section ThreadBound.
Context {T : Type} (cap : Z).

Definition one (_ : T) : Z := 1.

Definition inserting (st : option (Call (T := T))) : Z :=
  match st with Some (Insert _ _ _) => 1 | _ => 0 end.

Record tinv (s : Threads (T := T)) : Prop := {
  tinv_size : s.(tq).(currentSize) = zlen s.(tq).(queue);
  tinv_cap : s.(tq).(mCapacity) = cap;
  tinv_open : s.(tq).(m_closed) = false;
  tinv_flag : s.(tq).(notFull).(flag) = true -> s.(tq).(currentSize) < cap;
  tinv_bound : zlen s.(tq).(queue) + total inserting s.(passed) <= cap - 1 + zlen s.(passed)
}.

Lemma inserting_le (l : list (option (Call (T := T)))) : 0 <= total inserting l <= zlen l.
Proof. induction l as [| [[] |] l IH]; cbn; rewrite ?zlen_cons; cbn; try lia; done. Qed.

Lemma tinv_insert back e (q : Queue (T := T)) : q.(m_closed) = false -> q.(currentSize) = zlen q.(queue) ->
  zlen q.(queue) + 1 < 2 ^ 32 -> let q' := (insert one back e q).2 in
  zlen q'.(queue) = zlen q.(queue) + 1 /\ q'.(currentSize) = zlen q'.(queue) /\ q'.(mCapacity) = q.(mCapacity)
  /\ q'.(m_closed) = false
  /\ (q'.(notFull).(flag) = true -> q.(notFull).(flag) = true -> q'.(currentSize) < q.(mCapacity))
  /\ (q.(notFull).(flag) = false -> q'.(notFull).(flag) = false).
Proof.
  intros Ho Hs Hl. unfold insert, one. rewrite Ho, Hs. unfold wrapu.
  pose proof (zlen_nonneg q.(queue)). rewrite Z.mod_small by lia. cbn.
  assert (Hz : zlen (if back then queue q ++ [e] else e :: queue q) = zlen (queue q) + 1).
  { destruct back; zlen_lia. }
  destruct (_ >=? _) eqn:E; cbn; rewrite ?Hz; split_and!; try done; try lia.
Qed.

Lemma tinv_exec a s s' : cap - 1 + zlen s.(passed) < 2 ^ 32 -> tinv s -> texec one a s = Some s' ->
  tinv s' /\ zlen s'.(passed) = zlen s.(passed).
Proof.
  intros Hn [I1 I2 I3 I4 I5] H. pose proof (inserting_le s.(passed)) as Hp.
  assert (Hlen : forall c (x : option (Call (T := T))), zlen (<[c := x]> s.(passed)) = zlen s.(passed))
    by (intros; unfold zlen; by rewrite length_insert).
  pose proof (zlen_nonneg s.(tq).(queue)).
  destruct a as [c op | c]; cbn in H; destruct (passed s !! c) as [[op' |] |] eqn:Hc; cbn in H; try done.
  - destruct (flag (event_of op (tq s))) eqn:Hf; [| done]. injection H as <-. split; [| by apply Hlen].
    split; cbn; try done. rewrite (total_insert _ _ _ _ _ Hc), Hlen. cbn.
    pose proof (inserting_le (<[c := Some op]> s.(passed))) as Hq.
    rewrite (total_insert _ _ _ _ _ Hc), Hlen in Hq. cbn in Hq.
    destruct op; cbn in *; [lia | specialize (I4 Hf); lia | lia].
  - injection H as <-. split; [| by apply Hlen].
    assert (Ht : total inserting (<[c := None]> s.(passed)) = total inserting s.(passed) - inserting (Some op'))
      by (rewrite (total_insert _ _ _ _ _ Hc); cbn; lia).
    pose proof (total_ge inserting s.(passed) c _ ltac:(apply Forall_forall; by intros [[] |]) Hc) as Hge.
    destruct op' as [| back e p | p]; cbn in Ht, Hge |- *.
    + destruct (queue (tq s)) as [| e l] eqn:Hq; [rewrite I3; split; cbn; rewrite ?Hlen, ?Ht, ?Hq; try done; lia |].
      rewrite zlen_cons in *. pose proof (zlen_nonneg l). unfold take_front, one, wrapu. rewrite I1, Z.mod_small by lia.
      replace (zlen l + 1 - 1) with (zlen l) by lia. cbn. rewrite I3.
      destruct l as [| e' l]; cbn; rewrite ?I2; case_test; split; cbn; rewrite ?Hlen, ?Ht; try done; try lia;
        intros Hf; specialize (I4 Hf); lia.
    + destruct (tinv_insert back e (tq s) I3 I1 ltac:(lia)) as (G1 & G2 & G3 & G4 & G5 & G6).
      destruct (insert one back e (tq s)) as [ok q']. cbn in *.
      split; cbn; rewrite ?Hlen, ?Ht, ?G1, ?G3; try done; try lia.
      intros Hf. rewrite I2 in G5. apply G5; [done |]. destruct (flag (notFull (tq s))) eqn:E; [done |].
      by rewrite G6 in Hf.
    + split; cbn; rewrite ?Hlen, ?Ht; try done; lia.
Qed.

Lemma tinv_execs l : forall s s', cap - 1 + zlen s.(passed) < 2 ^ 32 -> tinv s -> texecs one l s = Some s' ->
  tinv s' /\ zlen s'.(passed) = zlen s.(passed).
Proof.
  induction l as [| a l IH]; cbn; intros s s' Hn I H; [by injection H as <- |].
  destruct (texec one a s) as [s1 |] eqn:E; cbn in H; [| done].
  destruct (tinv_exec a s s1 Hn I E) as [I1 Hl]. rewrite <- Hl. apply IH; [by rewrite Hl | done | done].
Qed.

End ThreadBound.
