(* ===== verification/QueueProps.v ===== *)
(** * Queues: what an execution guarantees

    Every execution of the queue is one of a deque whose calls happen at once; what is
    put comes out in order; nobody sleeps while there is work; closing releases
    everyone; and the capacity bounds what coroutines, but not threads, pile up.  The
    sizes offered in an execution are taken to add up to less than 2^32. *)

From S2P Require Import Prelude Queue QueueProofs QueueSpec.

Section Theorems.
Context {T : Type} (sizeOf : T -> Z) (eqT : T -> T -> bool).

(** C6: Every answer of a queue shared by coroutines (sizes below 2^32 in all), whatever
    waits, wakes, times out, is killed, cleared, resized or closed before it, is one step
    of a plain deque at that moment; the other steps do to the deque what clear, close and
    remove say. *)
Theorem queue_refines_deque n capacity l sys rs a sys' r : (forall e, 0 <= sizeOf e) ->
  total (action_size sizeOf) (l ++ [a]) < 2 ^ 32 ->
  execs sizeOf eqT l (start n capacity) = Some (sys, rs) -> exec sizeOf eqT a sys = Some (sys', r) ->
  match r with
  | Some (_, r) => exists op, call_of a sys.(blocked) = Some op
                   /\ deque_step op (deque_of sys.(q)) r (deque_of sys'.(q))
  | None => deque_of sys'.(q) = silent eqT a (deque_of sys.(q))
  end.
Proof.
  intros Hs Hl H Ha. rewrite total_join in Hl. cbn [total] in Hl.
  destruct (execs_ok sizeOf eqT Hs l _ sys rs (start_inv sizeOf n capacity)) as [I Hload]; [| done |].
  - rewrite start_load. pose proof (action_size_nonneg sizeOf Hs a). lia.
  - rewrite start_load in Hload. apply (exec_deque sizeOf eqT Hs a sys sys' r I); [lia | done].
Qed.

(** Without returns, removal and clearing, the elements that were taken followed by
    those in the queue are exactly the accepted elements in their order: none is lost,
    doubled or overtaken. *)
Theorem queue_first_in_first_out n capacity l sys rs : (forall e, 0 <= sizeOf e) ->
  total (action_size sizeOf) l < 2 ^ 32 -> Forall plain l ->
  execs sizeOf eqT l (start n capacity) = Some (sys, rs) ->
  gotten rs ++ sys.(q).(queue) = accepted rs.
Proof.
  intros Hs Hl Hp H. apply (execs_fifo sizeOf eqT Hs l _ sys rs (start_inv sizeOf n capacity)); try done.
  - rewrite start_load. lia.
  - by apply Forall_replicate.
Qed.

(** C22: After any execution the loop can resume every woken coroutine; then a coroutine
    that still waits has a reason to: the queue is open and empty, or open and full. After
    close nobody waits. *)
Theorem queue_no_lost_wakeup n capacity l sys rs : (forall e, 0 <= sizeOf e) ->
  total (action_size sizeOf) l < 2 ^ 32 -> execs sizeOf eqT l (start n capacity) = Some (sys, rs) ->
  exists l' sys' rs', Forall is_resume l' /\ execs sizeOf eqT l' sys = Some (sys', rs') /\ pending sys' = 0%nat
  /\ (forall c op, sys'.(blocked) !! c = Some (Some op) -> sys'.(q).(m_closed) = false
        /\ if at_empty op then sys'.(q).(queue) = [] else sys'.(q).(mCapacity) <= sys'.(q).(currentSize))
  /\ (sys.(q).(m_closed) = true -> forall c op, sys'.(blocked) !! c <> Some (Some op)).
Proof.
  intros Hs Hl H.
  destruct (execs_ok sizeOf eqT Hs l _ sys rs (start_inv sizeOf n capacity)) as [I Hload]; [by rewrite start_load | done |].
  rewrite start_load in Hload. pose proof (count_nonneg sys).
  destruct (drain sizeOf eqT Hs (Z.to_nat (count sys)) (pending sys) sys) as (l' & sys' & rs' & Hr & He & Hp); [lia.. | done | lia |].
  destruct (execs_ok sizeOf eqT Hs l' _ sys' rs' I) as [I' _]; [rewrite (resumes_size sizeOf l' Hr); lia | done |].
  exists l', sys', rs'. split_and!; try done.
  - intros c op. by apply quiescent with sizeOf.
  - intros Hc c op Hb. destruct (quiescent sizeOf sys' c op I' Hp Hb) as [Ho _].
    rewrite (resumes_closed sizeOf eqT Hs l' sys sys' rs' I ltac:(lia) Hr He) in Ho. congruence.
Qed.

(** The size counter is the sum of the sizes in the queue and, without forced
    insertion, exceeds the capacity by less than one element. *)
Theorem queue_bounded n cap M l sys rs : (forall e, 0 <= sizeOf e) -> 1 <= cap -> 0 <= M ->
  Forall (modest sizeOf M) l -> total (action_size sizeOf) l < 2 ^ 32 ->
  execs sizeOf eqT l (start n cap) = Some (sys, rs) ->
  total sizeOf sys.(q).(queue) = sys.(q).(currentSize) /\ sys.(q).(currentSize) <= cap - 1 + M.
Proof.
  intros Hs Hc HM Hm Hl H.
  destruct (execs_ok sizeOf eqT Hs l _ sys rs (start_inv sizeOf n cap)) as [I _]; [by rewrite start_load | done |].
  split; [symmetry; apply (core_size _ _ (qinv_core _ _ I)) |].
  apply (room_execs sizeOf eqT Hs M cap HM Hc l (start n cap) sys rs); try done.
  - apply start_inv.
  - by rewrite start_load.
  - by apply Forall_replicate.
  - unfold room. cbn. split_and!; [done | intros _; right; lia | lia].
Qed.

End Theorems.

(** Threads wait for room before they take the lock: n threads can fill a queue up to
    its capacity and n - 1 elements more, and three do fill one of capacity 1 with three
    elements. *)
Theorem threads_overrun {T} cap n : 1 <= cap -> cap - 1 + Z.of_nat n < 2 ^ 32 ->
  (forall l (s : Threads (T := T)), texecs one l (tstart n cap) = Some s ->
     zlen s.(tq).(queue) <= cap - 1 + Z.of_nat n)
  /\ exists (l : list (ThreadAction (T := Z))) s, texecs one l (tstart 3 1) = Some s /\ s.(tq).(queue) = [10; 11; 12].
Proof.
  intros Hc Hn. split.
  - intros l s H. assert (Hz : forall T', zlen (replicate n (@None (Call (T := T')))) = Z.of_nat n)
      by (intros; unfold zlen; by rewrite length_replicate).
    assert (Ht : total inserting (replicate n (@None (Call (T := T)))) = 0)
      by (clear; induction n as [| n IH]; cbn; [done | exact IH]).
    destruct (tinv_execs cap l (tstart n cap) s) as [[_ _ _ _ I5] Hl].
    + cbn. rewrite Hz. lia.
    + split; cbn; rewrite ?Hz, ?Ht; try done; zlen_lia.
    + done.
    + cbn in Hl. rewrite Hz in Hl. pose proof (inserting_le s.(passed)). lia.
  - exists [Pass 0 (Insert true 10 untimed); Pass 1 (Insert true 11 untimed); Pass 2 (Insert true 12 untimed);
            Enter 0; Enter 1; Enter 2]. eexists. by vm_compute.
Qed.

(** ** Witnesses *)

Definition unit_size (_ : Z) : Z := 1.

(** Three coroutines, room for one: a consumer waits, a producer fills the queue, a
    second one waits, and the loop resumes them. *)
Definition trace : list (Action (T := Z)) :=
  [Start 0 Get; Start 1 (Insert true 10 untimed); Start 2 (Insert true 11 untimed);
   Resume 0 false; Resume 2 false].

Definition after (l : list (Action (T := Z))) (sys : System (T := Z)) : System (T := Z) :=
  from_option fst sys (execs unit_size Z.eqb l sys).

Lemma queue_refines_deque_witness : exists rs,
  execs unit_size Z.eqb trace (start 3 1) = Some (after trace (start 3 1), rs)
  /\ exec unit_size Z.eqb (Start 0 Get) (after trace (start 3 1))
     = Some (after (trace ++ [Start 0 Get]) (start 3 1), Some (0%nat, Got (Some 11)))
  /\ deque_step Get ([11], false) (Got (Some 11)) ([], false).
Proof.
  eexists. split; [by vm_compute |]. split; [by vm_compute |].
  destruct (queue_refines_deque unit_size Z.eqb 3 1 trace (after trace (start 3 1))
    [(1%nat, Inserted 10 true); (0%nat, Got (Some 10)); (2%nat, Inserted 11 true)] (Start 0 Get)
    (after (trace ++ [Start 0 Get]) (start 3 1)) (Some (0%nat, Got (Some 11)))) as (op & Hop & Hd);
    [done | done | by vm_compute | by vm_compute |].
  injection Hop as <-. exact Hd.
Defined.

Lemma queue_first_in_first_out_witness : exists sys rs,
  execs unit_size Z.eqb trace (start 3 1) = Some (sys, rs) /\ gotten rs ++ sys.(q).(queue) = [10; 11].
Proof.
  do 2 eexists. split; [by vm_compute |].
  refine (queue_first_in_first_out unit_size Z.eqb 3 1 trace _ _ _ _ _ _); [done | done | | by vm_compute].
  by repeat constructor.
Defined.

Lemma queue_no_lost_wakeup_witness : exists sys rs l' sys' rs',
  execs unit_size Z.eqb [Start 0 Get; Start 1 Get; Close] (start 2 1) = Some (sys, rs)
  /\ execs unit_size Z.eqb l' sys = Some (sys', rs') /\ pending sys' = 0%nat
  /\ forall c op, sys'.(blocked) !! c <> Some (Some op).
Proof.
  edestruct (queue_no_lost_wakeup unit_size Z.eqb 2 1 [Start 0 Get; Start 1 Get; Close])
    as (l' & sys' & rs' & _ & H1 & H2 & _ & H3); [done | done | by vm_compute |].
  do 2 eexists. exists l', sys', rs'. split; [by vm_compute |]. split_and!; try done. by apply H3.
Defined.

Lemma queue_bounded_witness : exists sys rs,
  execs unit_size Z.eqb trace (start 3 1) = Some (sys, rs) /\ sys.(q).(currentSize) <= 1 - 1 + 1.
Proof.
  do 2 eexists. split; [by vm_compute |].
  eapply (queue_bounded unit_size Z.eqb 3 1 1 trace); [done | done | done | | done | by vm_compute].
  by repeat constructor.
Defined.

Definition both_pass : list (ThreadAction (T := Z)) :=
  [Pass 0 (Insert true 10 untimed); Pass 1 (Insert true 11 untimed); Enter 1; Enter 0].

Lemma threads_overrun_witness : exists s, texecs one both_pass (tstart 2 1) = Some s
  /\ s.(tq).(queue) = [11; 10] /\ zlen s.(tq).(queue) <= 2.
Proof.
  destruct (threads_overrun (T := Z) 1 2 ltac:(lia) ltac:(lia)) as [H _].
  destruct (texecs one both_pass (tstart 2 1)) as [s |] eqn:E; [| by vm_compute in E].
  exists s. split; [done |]. split; [| exact (H both_pass s E)]. vm_compute in E. by injection E as <-.
Defined.
