(* ===== verification/DataChannel.v ===== *)
(** * Channels over one connection ([src/src/data_channel.cpp])

    A [SocketChannel] multiplexes packets over a connection; a [VirtualChannel] hangs
    below another channel, which knows it by a number, and sends through it; a channel can
    be read and written as a stream ([DataChannelSocketLikeImpl]).  The
    channels of a process are objects that refer to each other: a parent holds weak
    pointers to its children ([subChannels]) and strong ones to those nobody has taken
    yet ([pendingChannels]), a child holds a raw pointer to its parent, and two plugged
    channels hold each other.  The model therefore keeps a store of objects; a raw or a
    strong pointer to an object that is gone is a [Fault].

    A coroutine runs until it waits, so the operations below are the stretches between
    two waits. *)

From stdpp Require Import gmap sorting.
From S2P Require Import Prelude Queue.

(** ** Packets and commands *)

Inductive ChannelError : Type :=
| NoError | RemotePeerClosedError | KeepaliveTimeoutError | ReceivingError | SendingError
| InvalidCommand | InvalidPacket | UserShutdown | PluggedChannelError | PakcetTooLarge
| PendingChannelLimitError | UnknownError | ProgrammingError.

Definition failed (e : ChannelError) : bool := match e with NoError => false | _ => true end.

Definition CommandChannelNumber : Z := 0.
Definition DataChannelNumber : Z := 1.

Definition MAKE_CHANNEL_REQUEST : Z := 1.
Definition CHANNEL_MADE_REQUEST : Z := 2.
Definition DESTROY_CHANNEL_REQUEST : Z := 3.
Definition SLOW_DOWN_REQUEST : Z := 4.
Definition GO_THROUGH_REQUEST : Z := 5.
Definition KEEPALIVE_REQUEST : Z := 6.

Definition packMakeChannelRequest (n : Z) : list Z := MAKE_CHANNEL_REQUEST :: be_encode 4 n.
Definition packChannelMadeRequest (n : Z) : list Z := CHANNEL_MADE_REQUEST :: be_encode 4 n.
Definition packDestoryChannelRequest (n : Z) : list Z := DESTROY_CHANNEL_REQUEST :: be_encode 4 n.
Definition packSlowDownRequest : list Z := [SLOW_DOWN_REQUEST].
Definition packGoThroughRequest : list Z := [GO_THROUGH_REQUEST].
Definition packKeepaliveRequest : list Z := [KEEPALIVE_REQUEST].

(** The command and, where the frame has one, the channel number. *)
Definition unpackCommand (data : list Z) : option (Z * option Z) :=
  let hasChannelNumber := zlen data =? 1 + 4 in
  if negb hasChannelNumber && negb (zlen data =? 1) then None else
  command ← head data;
  let requiresChannelNumber := (command =? MAKE_CHANNEL_REQUEST) || (command =? CHANNEL_MADE_REQUEST)
                               || (command =? DESTROY_CHANNEL_REQUEST) in
  let isShortCommand := (command =? GO_THROUGH_REQUEST) || (command =? SLOW_DOWN_REQUEST)
                        || (command =? KEEPALIVE_REQUEST) in
  if hasChannelNumber then
    if isShortCommand then None else Some (command, Some (be_decode (drop 1 data)))
  else if requiresChannelNumber then None else Some (command, None).

Inductive BlockFlag : Type := NonBlock | Block_And_Not_Wait_Sent | Block_Until_Sent.

(** [done] is the [ValueEvent] that a sender may wait for, by its identity. *)
Record WritingPacket : Type := mkPacket { packet : list Z; done : option nat; channelNumber : Z }.

Definition packet_size (p : WritingPacket) : Z := u32 (zlen p.(packet)).
Definition isValid (p : WritingPacket) : bool :=
  negb ((p.(channelNumber) =? 0) && (zlen p.(packet) =? 0) && negb (bool_decide (is_Some p.(done)))).

(** ** Objects *)

(** What the coroutine [receiving] is doing: reading from the connection; waiting in
    [receivingQueue.put] of a channel; waiting for a plugged channel to send what came for
    the channel [owner]; or gone.  [held] are the channels that its local variables keep
    alive. *)
Inductive Receiver : Type :=
| Reading
| Putting (held : list nat) (c : nat) (payload : list Z)
| Forwarding (held : list nat) (owner : nat)
| Gone.

(** The fields of [SocketChannelPrivate], and of the connection the bytes that have arrived
    ([inbox], followed by the end of the stream if [eof]) and those that were written. *)
Record Wire : Type := mkWire {
  sendingQueue : Queue (T := WritingPacket);
  maxPayload : Z;
  connected : bool;
  inbox : list Z;
  eof : bool;
  outbox : list Z;
  writing : option (list WritingPacket);   (* the batch of [doSend] while it is in [sendall] *)
  receiver : Receiver;
  lastActiveTimestamp : Z;
  lastKeepaliveTimestamp : Z;
  keepaliveTimeout : Z;
  keepaliveInterval : Z
}.

Inductive Kind : Type :=
| SocketChannel (s : Wire)
| VirtualChannel (parentChannel : option nat) (number : Z).

(** [Condition]: who waits, and who was notified but has yet to run. *)
Record Condition : Type := mkCondition { cwaiting : list nat; cnotified : list nat }.

Definition notify (cv : Condition) : Condition :=
  match cv.(cwaiting) with
  | [] => cv
  | t :: l => mkCondition l (cv.(cnotified) ++ [t])
  end.
Definition notifyAll (cv : Condition) : Condition := mkCondition [] (cv.(cnotified) ++ cv.(cwaiting)).

Record Channel : Type := mkChannel {
  kind : Kind;
  pole : Z;
  nextChannelNumber : Z;
  subChannels : gmap Z nat;
  pendingChannels : list (option nat);
  pendingChannelsNotEmpty : Condition;
  receivingQueue : Queue (T := list Z);
  slowDownRequested : bool;
  goThrough : bool;
  maxPendingChannelsCount : Z;
  error : ChannelError;
  pluggedChannel : option nat
}.

Section Setters.
Implicit Types (ch : Channel).
Definition with_kind k ch := mkChannel k ch.(pole) ch.(nextChannelNumber) ch.(subChannels) ch.(pendingChannels)
  ch.(pendingChannelsNotEmpty) ch.(receivingQueue) ch.(slowDownRequested) ch.(goThrough)
  ch.(maxPendingChannelsCount) ch.(error) ch.(pluggedChannel).
Definition with_next n ch := mkChannel ch.(kind) ch.(pole) n ch.(subChannels) ch.(pendingChannels)
  ch.(pendingChannelsNotEmpty) ch.(receivingQueue) ch.(slowDownRequested) ch.(goThrough)
  ch.(maxPendingChannelsCount) ch.(error) ch.(pluggedChannel).
Definition with_subs s ch := mkChannel ch.(kind) ch.(pole) ch.(nextChannelNumber) s ch.(pendingChannels)
  ch.(pendingChannelsNotEmpty) ch.(receivingQueue) ch.(slowDownRequested) ch.(goThrough)
  ch.(maxPendingChannelsCount) ch.(error) ch.(pluggedChannel).
Definition with_pending p cv ch := mkChannel ch.(kind) ch.(pole) ch.(nextChannelNumber) ch.(subChannels) p
  cv ch.(receivingQueue) ch.(slowDownRequested) ch.(goThrough)
  ch.(maxPendingChannelsCount) ch.(error) ch.(pluggedChannel).
Definition with_received q slow ch := mkChannel ch.(kind) ch.(pole) ch.(nextChannelNumber) ch.(subChannels)
  ch.(pendingChannels) ch.(pendingChannelsNotEmpty) q slow ch.(goThrough)
  ch.(maxPendingChannelsCount) ch.(error) ch.(pluggedChannel).
Definition with_gate g ch := mkChannel ch.(kind) ch.(pole) ch.(nextChannelNumber) ch.(subChannels) ch.(pendingChannels)
  ch.(pendingChannelsNotEmpty) ch.(receivingQueue) ch.(slowDownRequested) g
  ch.(maxPendingChannelsCount) ch.(error) ch.(pluggedChannel).
Definition with_error e ch := mkChannel ch.(kind) ch.(pole) ch.(nextChannelNumber) ch.(subChannels) ch.(pendingChannels)
  ch.(pendingChannelsNotEmpty) ch.(receivingQueue) ch.(slowDownRequested) ch.(goThrough)
  ch.(maxPendingChannelsCount) e ch.(pluggedChannel).
Definition with_plug p ch := mkChannel ch.(kind) ch.(pole) ch.(nextChannelNumber) ch.(subChannels) ch.(pendingChannels)
  ch.(pendingChannelsNotEmpty) ch.(receivingQueue) ch.(slowDownRequested) ch.(goThrough)
  ch.(maxPendingChannelsCount) ch.(error) p.
End Setters.

Section WireSetters.
Implicit Types (s : Wire).
Definition with_sending q s := mkWire q s.(maxPayload) s.(connected) s.(inbox) s.(eof) s.(outbox) s.(writing) s.(receiver)
  s.(lastActiveTimestamp) s.(lastKeepaliveTimestamp) s.(keepaliveTimeout) s.(keepaliveInterval).
Definition with_stream b i e s := mkWire s.(sendingQueue) s.(maxPayload) b i e s.(outbox) s.(writing) s.(receiver)
  s.(lastActiveTimestamp) s.(lastKeepaliveTimestamp) s.(keepaliveTimeout) s.(keepaliveInterval).
Definition with_writing o b s := mkWire s.(sendingQueue) s.(maxPayload) s.(connected) s.(inbox) s.(eof) o b s.(receiver)
  s.(lastActiveTimestamp) s.(lastKeepaliveTimestamp) s.(keepaliveTimeout) s.(keepaliveInterval).
Definition with_receiver r s := mkWire s.(sendingQueue) s.(maxPayload) s.(connected) s.(inbox) s.(eof) s.(outbox) s.(writing) r
  s.(lastActiveTimestamp) s.(lastKeepaliveTimestamp) s.(keepaliveTimeout) s.(keepaliveInterval).
Definition with_times a k s := mkWire s.(sendingQueue) s.(maxPayload) s.(connected) s.(inbox) s.(eof) s.(outbox) s.(writing) s.(receiver)
  a k s.(keepaliveTimeout) s.(keepaliveInterval).
End WireSetters.

(** The coroutines of a [SocketChannel]; [Coroutine::current()] is one of them or another. *)
Inductive Role : Type := Receiving | Sending | Keepalive.
#[export] Instance Role_eq_dec : EqDecision Role.
Proof. solve_decision. Defined.

(** Who called a [sendPacketRaw] that waits: a user, or the receiver of a connection. *)
Inductive Waiter : Type := User | ReceiverOf (r : nat).
#[export] Instance Waiter_eq_dec : EqDecision Waiter.
Proof. solve_decision. Defined.

(** A coroutine in [sendingQueue.put] of the connection [root]. *)
Record Parked : Type := mkParked { root : nat; waits : WritingPacket; caller : Waiter }.

(** [signals] are the values sent to the [ValueEvent]s, [awaiting] the coroutines in
    [done->tryWait]. *)
Record World : Type := mkWorld {
  objs : gmap nat Channel;
  fresh : nat;
  tokens : nat;
  signals : list (nat * bool);
  senders : list Parked;
  awaiting : list (nat * Waiter)
}.

Definition with_objs (o : gmap nat Channel) (w : World) : World :=
  mkWorld o w.(fresh) w.(tokens) w.(signals) w.(senders) w.(awaiting).
Definition with_waits (l : list Parked) (a : list (nat * Waiter)) (w : World) : World :=
  mkWorld w.(objs) w.(fresh) w.(tokens) w.(signals) l a.
Definition update (c : nat) (f : Channel -> Channel) (w : World) : World := with_objs (alter f c w.(objs)) w.

Definition on_wire (f : Wire -> Wire) (ch : Channel) : Channel :=
  match ch.(kind) with
  | SocketChannel s => with_kind (SocketChannel (f s)) ch
  | VirtualChannel _ _ => ch
  end.
Definition detach (ch : Channel) : Channel :=
  match ch.(kind) with
  | VirtualChannel _ n => with_kind (VirtualChannel None n) ch
  | SocketChannel _ => ch
  end.

Definition deref (c : nat) (w : World) : result Channel :=
  match w.(objs) !! c with Some ch => Ret ch | None => Fault end.

(** [done->send(ok)] for the packets that have one. *)
Definition signal (ok : bool) (l : list WritingPacket) (w : World) : World :=
  mkWorld w.(objs) w.(fresh) w.(tokens) (w.(signals) ++ map (fun t => (t, ok)) (omap done l)) w.(senders) w.(awaiting).

(** ** The queues *)

(** [get] until the queue is empty. *)
Fixpoint drain {T} (sizeOf : T -> Z) (l : list T) (q : Queue (T := T)) : Queue (T := T) :=
  match l with
  | [] => q
  | e :: l' => drain sizeOf l' (take_front sizeOf e l' q)
  end.

(** [putForcedly] of each. *)
Definition refill {T} (sizeOf : T -> Z) (l : list T) (q : Queue (T := T)) : Queue (T := T) :=
  fold_left (fun q e => (insert sizeOf true e q).2) l q.

Abbreviation psize := packet_size.
Definition bsize (p : list Z) : Z := u32 (zlen p).

(** ** Sending *)

Inductive Sent : Type :=
| Refused                  (* false *)
| Queued                   (* true *)
| WaitsRoom (p : WritingPacket)
| WaitsDone (t : nat).

(** [sendingQueue.put], up to its wait or to that for [done]. *)
Definition admit_packet (r : nat) (s : Wire) (p : WritingPacket) (w : World) : Sent * World :=
  if s.(sendingQueue).(notFull).(flag) then
    let '(ok, q) := insert psize true p s.(sendingQueue) in
    (if ok then match p.(done) with Some t => WaitsDone t | None => Queued end else Refused,
     update r (on_wire (with_sending q)) w)
  else (WaitsRoom p, w).

(** [SocketChannelPrivate::sendPacketRaw] and [VirtualChannelPrivate::sendPacketRaw]; the
    fuel is the number of ancestors.  With the result goes the connection that has it. *)
Fixpoint sendPacketRaw (fuel : nat) (c : nat) (n : Z) (data : list Z) (blocking : BlockFlag) (w : World) :
    result (Sent * nat * World) :=
  match fuel with
  | O => OutOfFuel
  | S fuel =>
      ch ← deref c w;
      match ch.(kind) with
      | SocketChannel s =>
          if failed ch.(error) || (zlen data =? 0) then Ret (Refused, c, w) else
          if u32 (zlen data) >? s.(maxPayload) then Ret (Refused, c, w) else
          match blocking with
          | NonBlock =>
              let '(ok, q) := insert psize true (mkPacket data None n) s.(sendingQueue) in
              Ret (if ok then Queued else Refused, c, update c (on_wire (with_sending q)) w)
          | Block_And_Not_Wait_Sent =>
              let '(r, w) := admit_packet c s (mkPacket data None n) w in Ret (r, c, w)
          | Block_Until_Sent =>
              let t := w.(tokens) in
              let w := mkWorld w.(objs) w.(fresh) (S t) w.(signals) w.(senders) w.(awaiting) in
              let '(r, w) := admit_packet c s (mkPacket data (Some t) n) w in Ret (r, c, w)
          end
      | VirtualChannel parent number =>
          match parent with
          | Some p =>
              if failed ch.(error) || (zlen data =? 0) then Ret (Refused, c, w) else
              sendPacketRaw fuel p number (be_encode 4 n ++ data) blocking w
          | None => Ret (Refused, c, w)
          end
      end
  end.

(** A command, sent with [NonBlock] and its result dropped. *)
Definition sendCommand (c : nat) (data : list Z) (w : World) : result World :=
  '(_, w) ← sendPacketRaw (S c) c CommandChannelNumber data NonBlock w; Ret w.

(** The coroutine [who] goes on to wait as [r] says. *)
Definition wait_for (who : Waiter) (r : Sent * nat * World) : World :=
  let '(s, c, w) := r in
  match s with
  | WaitsRoom p => with_waits (w.(senders) ++ [mkParked c p who]) w.(awaiting) w
  | WaitsDone t => with_waits w.(senders) (w.(awaiting) ++ [(t, who)]) w
  | _ => w
  end.

(** ** Closing *)

(** [SocketChannelPrivate::cleanSendingPacket] at the connection above [c], with the tests
    that the channels on the way add ([VirtualChannelPrivate::cleanSendingPacket]). *)
Fixpoint cleanSendingPacket (fuel : nat) (c : nat) (n : Z) (check : list Z -> bool) (w : World) : result World :=
  match fuel with
  | O => OutOfFuel
  | S fuel =>
      ch ← deref c w;
      match ch.(kind) with
      | SocketChannel s =>
          let l := s.(sendingQueue).(queue) in
          let hit p := (p.(channelNumber) =? n) && check p.(packet) in
          let reserved := base.filter (fun p => hit p = false) l in
          let q := refill psize reserved (drain psize l s.(sendingQueue)) in
          Ret (signal false (base.filter (fun p => hit p = true) l) (update c (on_wire (with_sending q)) w))
      | VirtualChannel parent number =>
          match parent with
          | Some p =>
              if failed ch.(error) then Ret w else
              cleanSendingPacket fuel p number (fun data =>
                if zlen data <? 4 then false else
                if negb (be_decode (take 4 data) =? n) then false else check (drop 4 data)) w
          | None => Ret w
          end
      end
  end.

Definition notifyChannelClose (c : nat) (n : Z) (w : World) : result World :=
  ch ← deref c w;
  if failed ch.(error) then Ret w else sendCommand c (packDestoryChannelRequest n) w.

Definition erase_sub (n : Z) (ch : Channel) : Channel := with_subs (delete n ch.(subChannels)) ch.

(** [SocketChannelPrivate::cleanChannel] and [VirtualChannelPrivate::cleanChannel]. *)
Definition cleanChannel (c : nat) (n : Z) (sendDestroyPacket : bool) (w : World) : result World :=
  ch ← deref c w;
  let found := bool_decide (is_Some (ch.(subChannels) !! n)) in
  let w := update c (erase_sub n) w in
  match ch.(kind) with
  | SocketChannel _ =>
      if negb found then Ret w else
      w ← (if sendDestroyPacket then notifyChannelClose c n w else Ret w);
      cleanSendingPacket (S c) c n (fun _ => true) w
  | VirtualChannel parent number =>
      match parent with
      | Some p =>
          if failed ch.(error) || negb found then Ret w else
          w ← (if sendDestroyPacket then notifyChannelClose c n w else Ret w);
          cleanSendingPacket (S p) p number (fun data =>
            if zlen data <? 4 then false else be_decode (take 4 data) =? n) w
      | None => Ret w
      end
  end.

(** [operations->kill("receiving")]: the coroutine unwinds, wherever it waits. *)
Definition killReceiving (r : nat) (w : World) : World :=
  let mine x := bool_decide (x = ReceiverOf r) in
  with_waits (base.filter (fun p => mine p.(caller) = false) w.(senders))
             (base.filter (fun a => mine a.2 = false) w.(awaiting))
             (update r (on_wire (with_receiver Gone)) w).

(** [operations->kill("sending")]: the guard of [doSend] fails the batch it was writing. *)
Definition killSending (r : nat) (s : Wire) (w : World) : World :=
  match s.(writing) with
  | Some batch => signal false batch (update r (on_wire (with_writing s.(outbox) None)) w)
  | None => w
  end.

(** What [SocketChannelPrivate::abort] does before [DataChannelPrivate::abort]; [current]
    is the coroutine that runs it. *)
Definition shutdown (current : option (nat * Role)) (r : nat) (s : Wire) (w : World) : World :=
  let l := s.(sendingQueue).(queue) in
  let q := drain psize l (close s.(sendingQueue)) in
  let w := update r (on_wire (fun s => with_sending q (with_stream false [] true s))) w in
  let w := signal false l w in
  let w := if bool_decide (current = Some (r, Receiving)) then w else killReceiving r w in
  if bool_decide (current = Some (r, Sending)) then w else killSending r s w.

Definition sorted_keys {V} (m : gmap Z V) : list Z := merge_sort Z.le (map_to_list m).*1.

(** Left to right, stopping where the loop body does. *)
Fixpoint loop {A} (f : A -> World -> result World) (l : list A) (w : World) : result World :=
  match l with
  | [] => Ret w
  | x :: l' => w ← f x w; loop f l' w
  end.

(** The queue of received packets closes, the takers get a null each, the gate opens. *)
Definition release_waiters (ch : Channel) : Channel :=
  let nulls := replicate (length ch.(pendingChannelsNotEmpty).(cwaiting)) None in
  with_gate true (with_pending (ch.(pendingChannels) ++ nulls) (notifyAll ch.(pendingChannelsNotEmpty))
                    (with_received (close ch.(receivingQueue)) ch.(slowDownRequested) ch)).

(** The loop over [subChannels]; an entry that is erased meanwhile is not visited. *)
Definition abort_sub (ab : nat -> World -> result World) (c : nat) (n : Z) (w : World) : result World :=
  ch ← deref c w;
  match ch.(subChannels) !! n with
  | Some s => match w.(objs) !! s with
              | Some _ => ab s (update s detach w)
              | None => Ret w
              end
  | None => Ret w
  end.

Definition abort_pending (ab : nat -> World -> result World) (p : option nat) (w : World) : result World :=
  match p with
  | Some s => _ ← deref s w; ab s (update s detach w)
  | None => Ret w
  end.

(** [DataChannelPrivate::abort], where [ab] is the virtual [abort]. *)
Definition baseAbort (ab : ChannelError -> nat -> World -> result World) (reason : ChannelError) (c : nat)
    (w : World) : result World :=
  ch ← deref c w;
  w ← match ch.(pluggedChannel) with
      | Some q => w ← ab reason q w; Ret (update c (with_plug None) w)
      | None => Ret w
      end;
  let w := update c release_waiters w in
  ch ← deref c w;
  w ← loop (abort_sub (ab ch.(error)) c) (sorted_keys ch.(subChannels)) w;
  let w := update c (with_subs ∅) w in
  ch ← deref c w;
  w ← loop (abort_pending (ab ch.(error))) ch.(pendingChannels) w;
  Ret (update c (fun ch => with_pending (base.filter (fun p => p = None) ch.(pendingChannels))
                             ch.(pendingChannelsNotEmpty) ch) w).

(** [SocketChannelPrivate::abort] and [VirtualChannelPrivate::abort].  Each call that gets
    past the first test turns one channel from working to failed. *)
Fixpoint abort (fuel : nat) (current : option (nat * Role)) (reason : ChannelError) (c : nat) (w : World) :
    result World :=
  match fuel with
  | O => OutOfFuel
  | S fuel =>
      ch ← deref c w;
      if failed ch.(error) then Ret w else
      let w := update c (with_error reason) w in
      w ← match ch.(kind) with
          | SocketChannel s => Ret (shutdown current c s w)
          | VirtualChannel (Some p) n => cleanChannel p n true w
          | VirtualChannel None _ => Ret w
          end;
      baseAbort (abort fuel current) reason c w
  end.

Definition abort_fuel (w : World) : nat := S (size w.(objs)).
Definition abortChannel (current : option (nat * Role)) (reason : ChannelError) (c : nat) (w : World) :
  result World := abort (abort_fuel w) current reason c w.

(** ** Channels below a channel *)

(** [SocketChannelPrivate::isBroken] and [VirtualChannelPrivate::isBroken]. *)
Fixpoint isBroken (fuel : nat) (c : nat) (w : World) : result bool :=
  match fuel with
  | O => OutOfFuel
  | S fuel =>
      ch ← deref c w;
      if failed ch.(error) then Ret true else
      match ch.(kind) with
      | SocketChannel s => Ret (negb s.(connected))
      | VirtualChannel (Some p) _ => isBroken fuel p w
      | VirtualChannel None _ => Ret true
      end
  end.

Definition PositivePole : Z := 1.
Definition NegativePole : Z := -1.

(** [DataChannelPrivate::DataChannelPrivate] *)
Definition newChannel (k : Kind) (pole : Z) (capacity maxPending : Z) : Channel :=
  mkChannel k pole (if pole =? NegativePole then 4294967295 else 2) ∅ [] (mkCondition [] [])
    (newQueue capacity) false true maxPending NoError None.

(** [setCapacity] on a queue made for 128 * 1024 bytes. *)
Definition makeChannelInternal (c : nat) (pole : Z) (n : Z) (w : World) : result (nat * World) :=
  ch ← deref c w;
  let id := w.(fresh) in
  let q := setCapacity ch.(receivingQueue).(mCapacity) (newQueue (128 * 1024)) in
  let new := newChannel (VirtualChannel (Some c) n) pole (128 * 1024) ch.(maxPendingChannelsCount) in
  let new := with_received q false new in
  let w := mkWorld (<[id := new]> w.(objs)) (S id) w.(tokens) w.(signals) w.(senders) w.(awaiting) in
  Ret (id, update c (fun ch => with_subs (<[n := id]> ch.(subChannels)) ch) w).

Definition makeChannel (c : nat) (w : World) : result (option nat * World) :=
  broken ← isBroken (S c) c w;
  if broken : bool then Ret (None, w) else
  ch ← deref c w;
  let n := ch.(nextChannelNumber) in
  let w := update c (with_next (u32 (n + ch.(pole)))) w in
  '(id, w) ← makeChannelInternal c PositivePole n w;
  w ← sendCommand c (packMakeChannelRequest n) w;
  Ret (Some id, w).

(** The number of a channel below another. *)
Definition number_of (c : nat) (w : World) : option Z :=
  ch ← w.(objs) !! c;
  match ch.(kind) with VirtualChannel _ n => Some n | SocketChannel _ => None end.

(** The position of the first pending channel with the number [n]. *)
Fixpoint find_pending (n : Z) (l : list (option nat)) (w : World) : option (nat * nat) :=
  match l with
  | [] => None
  | p :: l' =>
      match p with
      | Some s => if bool_decide (number_of s w = Some n) then Some (0%nat, s)
                  else '(i, s) ← find_pending n l' w; Some (S i, s)
      | None => '(i, s) ← find_pending n l' w; Some (S i, s)
      end
  end.

Definition peekChannel (c : nat) (n : Z) (w : World) : result (option nat) :=
  broken ← isBroken (S c) c w;
  if broken : bool then Ret None else
  ch ← deref c w;
  Ret (snd <$> find_pending n ch.(pendingChannels) w).

(** [takeChannel(channelNumber)] *)
Definition takeNumber (c : nat) (n : Z) (w : World) : result (option nat * World) :=
  broken ← isBroken (S c) c w;
  if broken : bool then Ret (None, w) else
  ch ← deref c w;
  match find_pending n ch.(pendingChannels) w with
  | Some (i, s) =>
      let rest := take i ch.(pendingChannels) ++ drop (S i) ch.(pendingChannels) in
      Ret (Some s, update c (with_pending rest ch.(pendingChannelsNotEmpty)) w)
  | None => Ret (None, w)
  end.

(** One turn of the loop of [takeChannel()] run by the coroutine [t]: the front of the
    pending channels, or [None] to wait. *)
Definition take_front_or_wait (c t : nat) (w : World) : result (option (option nat) * World) :=
  ch ← deref c w;
  let cv := ch.(pendingChannelsNotEmpty) in
  match ch.(pendingChannels) with
  | p :: rest => Ret (Some p, update c (with_pending rest cv) w)
  | [] => Ret (None, update c (with_pending [] (mkCondition (cv.(cwaiting) ++ [t]) cv.(cnotified))) w)
  end.

Definition takeChannel (c t : nat) (w : World) : result (option (option nat) * World) :=
  broken ← isBroken (S c) c w;
  if broken : bool then Ret (Some None, w) else take_front_or_wait c t w.

(** A taker that was notified runs again; [Condition::wait] returned true. *)
Definition takeResumed (c t : nat) (w : World) : result (option (option nat) * World) :=
  ch ← deref c w;
  let cv := ch.(pendingChannelsNotEmpty) in
  if bool_decide (t ∈ cv.(cnotified)) then
    let cv := mkCondition cv.(cwaiting) (base.filter (fun x => x <> t) cv.(cnotified)) in
    take_front_or_wait c t (update c (with_pending ch.(pendingChannels) cv) w)
  else Reject.

(** The loop of [enqueuePendingChannel]; every turn removes a channel; an
    abort of [c] itself would add a null for each taker. *)
Fixpoint drop_oldest (fuel : nat) (current : option (nat * Role)) (c : nat) (w : World) : result World :=
  ch ← deref c w;
  match ch.(pendingChannels) with
  | [] => Ret w
  | dropped :: rest =>
      if zlen ch.(pendingChannels) >? ch.(maxPendingChannelsCount) then
        match fuel with
        | O => OutOfFuel
        | S fuel =>
            let w := update c (with_pending rest ch.(pendingChannelsNotEmpty)) w in
            w ← match dropped with
                | Some s => abortChannel current PendingChannelLimitError s w
                | None => Ret w
                end;
            drop_oldest fuel current c w
        end
      else Ret w
  end.

Definition enqueuePendingChannel (current : option (nat * Role)) (c id : nat) (w : World) : result World :=
  let push ch := with_pending (ch.(pendingChannels) ++ [Some id]) (notify ch.(pendingChannelsNotEmpty)) ch in
  let w := update c push w in
  ch ← deref c w;
  if ch.(maxPendingChannelsCount) =? 0 then Ret w
  else drop_oldest (length ch.(pendingChannels) + length ch.(pendingChannelsNotEmpty).(cwaiting)) current c w.

(** ** Receiving *)

(** The four commands that concern channels; [n] is [channelNumber], which the frame of the
    first three carries. *)
Definition handleMake (current : option (nat * Role)) (c : nat) (n : Z) (w : World) : result (bool * World) :=
  ch ← deref c w;
  match ch.(subChannels) !! n with
  | Some _ => Ret (false, w)
  | None =>
      '(id, w) ← makeChannelInternal c NegativePole n w;
      w ← sendCommand c (packChannelMadeRequest n) w;
      w ← enqueuePendingChannel current c id w;
      Ret (true, w)
  end.

Definition handleMade (c : nat) (n : Z) (w : World) : result (bool * World) :=
  ch ← deref c w;
  match ch.(subChannels) !! n with
  | Some s =>
      match w.(objs) !! s with
      | Some _ => Ret (true, w)
      | None => w ← sendCommand c (packDestoryChannelRequest n) (update c (erase_sub n) w); Ret (true, w)
      end
  | None => w ← sendCommand c (packDestoryChannelRequest n) w; Ret (true, w)
  end.

Definition handleDestroy (current : option (nat * Role)) (c : nat) (n : Z) (w : World) : result (bool * World) :=
  peeked ← peekChannel c n w;
  ch ← deref c w;
  '(strong, w) ← match ch.(subChannels) !! n with
                 | Some s =>
                     w ← cleanChannel c n false w;
                     Ret (match peeked with
                          | Some _ => peeked
                          | None => match w.(objs) !! s with Some _ => Some s | None => None end
                          end, w)
                 | None => Ret (peeked, w)
                 end;
  w ← match strong with
      | Some s => abortChannel current RemotePeerClosedError s (update s detach w)
      | None => Ret w
      end;
  Ret (true, w).

Definition handleCommand (current : option (nat * Role)) (c : nat) (data : list Z) (w : World) :
    result (bool * World) :=
  match unpackCommand data with
  | None => Ret (false, w)
  | Some (command, number) =>
      let with_number (f : Z -> result (bool * World)) :=
        match number with Some n => f n | None => Fault end in
      if command =? MAKE_CHANNEL_REQUEST then with_number (fun n => handleMake current c n w)
      else if command =? CHANNEL_MADE_REQUEST then with_number (fun n => handleMade c n w)
      else if command =? DESTROY_CHANNEL_REQUEST then with_number (fun n => handleDestroy current c n w)
      else if command =? SLOW_DOWN_REQUEST then Ret (true, update c (with_gate false) w)
      else if command =? GO_THROUGH_REQUEST then Ret (true, update c (with_gate true) w)
      else if command =? KEEPALIVE_REQUEST then Ret (true, w)
      else if command <? 32 then Ret (false, w)
      else Ret (true, w)
  end.

(** [capacity() * 3 / 4] and [capacity() / 2], in 32 bits. *)
Definition wantsSlowDown (ch : Channel) : bool :=
  let q := ch.(receivingQueue) in
  negb ch.(slowDownRequested) && (q.(currentSize) >=? u32 (q.(mCapacity) * 3) / 4).
Definition wantsGoThrough (ch : Channel) : bool :=
  let q := ch.(receivingQueue) in
  ch.(slowDownRequested) && (q.(currentSize) <=? q.(mCapacity) / 2).

(** [receivingQueue.put]; the answer is not looked at. *)
Definition deliver (payload : list Z) (ch : Channel) : Channel :=
  with_received (insert bsize true payload ch.(receivingQueue)).2 ch.(slowDownRequested) ch.

Inductive Incoming : Type :=
| Handled (e : ChannelError)
| Waits (r : Receiver).

(** [handleIncomingPacket] of the channel [c], run by the receiver of the connection [r],
    which holds [held]; a nested packet is four bytes shorter than the one around it. *)
Fixpoint handleIncomingPacket (fuel : nat) (r : nat) (held : list nat) (c : nat) (n : Z) (payload : list Z)
    (w : World) : result (Incoming * World) :=
  match fuel with
  | O => OutOfFuel
  | S fuel =>
      ch ← deref c w;
      match ch.(pluggedChannel) with
      | Some q =>
          sent ← sendPacketRaw (S q) q n payload Block_Until_Sent w;
          let w := wait_for (ReceiverOf r) sent in
          match sent.1.1 with
          | Refused => Ret (Handled PluggedChannelError, w)
          | Queued => Ret (Handled NoError, w)
          | _ => Ret (Waits (Forwarding held c), w)
          end
      | None =>
          if n =? DataChannelNumber then
            w ← (if wantsSlowDown ch then
                   sendCommand c packSlowDownRequest (update c (with_received ch.(receivingQueue) true) w)
                 else Ret w);
            ch ← deref c w;
            if ch.(receivingQueue).(notFull).(flag) then Ret (Handled NoError, update c (deliver payload) w)
            else Ret (Waits (Putting held c payload), w)
          else if n =? CommandChannelNumber then
            '(ok, w) ← handleCommand (Some (r, Receiving)) c payload w;
            Ret (Handled (if ok : bool then NoError else InvalidCommand), w)
          else
            match ch.(subChannels) !! n with
            | None => Ret (Handled NoError, w)
            | Some s =>
                match w.(objs) !! s with
                | None => Ret (Handled NoError, update c (erase_sub n) w)
                | Some _ =>
                    if zlen payload <? 4 then Ret (Handled InvalidPacket, w) else
                    '(i, w) ← handleIncomingPacket fuel r (s :: held) s (be_decode (take 4 payload)) (drop 4 payload) w;
                    match i with
                    | Handled NoError => Ret (Handled NoError, w)
                    | Handled e => w ← abortChannel (Some (r, Receiving)) e s w; Ret (Handled NoError, w)
                    | Waits x => Ret (Waits x, w)
                    end
                end
            end
      end
  end.

(** ** The coroutines of a connection *)

Definition maxSendSize : Z := 64 * 1024.
Definition CHANNEL_HEAD_SIZE : Z := 4 + 4.

(** The inner loop of [doSend]: what joins the batch, whose size so far is [count]. *)
Fixpoint gather (l : list WritingPacket) (count : Z) (q : Queue (T := WritingPacket)) :
    list WritingPacket * Queue (T := WritingPacket) :=
  match l with
  | [] => ([], q)
  | p :: l' =>
      if count + CHANNEL_HEAD_SIZE <? maxSendSize then
        let q := take_front psize p l' q in
        if negb (isValid p) then ([], q) else
        if count + CHANNEL_HEAD_SIZE + zlen p.(packet) >? maxSendSize then ([], (insert psize false p q).2)
        else let '(batch, q) := gather l' (count + (CHANNEL_HEAD_SIZE + zlen p.(packet))) q in (p :: batch, q)
      else ([], q)
  end.

Definition frame (p : WritingPacket) : list Z :=
  be_encode 4 (u32 (zlen p.(packet))) ++ be_encode 4 p.(channelNumber) ++ p.(packet).

Definition wire_of (r : nat) (w : World) : result (Channel * Wire) :=
  ch ← deref r w;
  match ch.(kind) with SocketChannel s => Ret (ch, s) | VirtualChannel _ _ => Reject end.

(** A turn of [doSend] up to [sendall], which gets the bytes. *)
Definition doSend (r : nat) (w : World) : result World :=
  '(ch, s) ← wire_of r w;
  match s.(writing), s.(sendingQueue).(queue) with
  | None, p :: l =>
      let q := take_front psize p l s.(sendingQueue) in
      if negb (isValid p) then Ret (update r (on_wire (with_sending q)) w) else
      let '(batch, q) := gather l (CHANNEL_HEAD_SIZE + zlen p.(packet)) q in
      let batch := p :: batch in
      let w := update r (on_wire (with_sending q)) w in
      if failed ch.(error) then Ret (signal false batch w) else
      Ret (update r (on_wire (with_writing (s.(outbox) ++ concat (map frame batch)) (Some batch))) w)
  | _, _ => Reject
  end.

(** [sendall] returns. *)
Definition doSent (r : nat) (sentBytes time : Z) (w : World) : result World :=
  '(_, s) ← wire_of r w;
  match s.(writing) with
  | None => Reject
  | Some batch =>
      let stop s := with_writing s.(outbox) None s in
      if sentBytes =? zlen (concat (map frame batch)) then
        Ret (signal true batch (update r (on_wire (fun s => with_times s.(lastActiveTimestamp) time (stop s))) w))
      else
        w ← abortChannel (Some (r, Sending)) SendingError r w;
        Ret (signal false batch (update r (on_wire stop) w))
  end.

(** [connection->recvall(n)]; [None] while bytes are missing, nothing once it is aborted. *)
Definition recvall (n : Z) (s : Wire) : option (list Z * Wire) :=
  if negb s.(connected) then Some ([], s) else
  if n <=? zlen s.(inbox) then
    Some (take (Z.to_nat n) s.(inbox), with_stream s.(connected) (drop (Z.to_nat n) s.(inbox)) s.(eof) s)
  else if s.(eof) then Some (s.(inbox), with_stream s.(connected) [] true s)
  else None.

Inductive ReadResult : Type :=
| ReadPacket (n : Z) (payload : list Z)
| ReadError (e : ChannelError).

(** The reading half of a turn of [doReceive]. *)
Definition readPacket (s : Wire) : option (ReadResult * Wire) :=
  '(header, s) ← recvall 8 s;
  if negb (zlen header =? 8) then Some (ReadError ReceivingError, s) else
  let payloadSize := be_decode (take 4 header) in
  let channelNumber := be_decode (drop 4 header) in
  if payloadSize >? s.(maxPayload) then Some (ReadError PakcetTooLarge, s) else
  '(payload, s) ← recvall (s32 payloadSize) s;
  if negb (zlen payload =? u64 (s32 payloadSize)) then Some (ReadError InvalidPacket, s)
  else Some (ReadPacket channelNumber payload, s).

Definition set_receiver (x : Receiver) (r : nat) (w : World) : World := update r (on_wire (with_receiver x)) w.

(** The end of a turn of [doReceive]. *)
Definition received (r : nat) (time : Z) (i : Incoming) (w : World) : result World :=
  match i with
  | Handled NoError =>
      Ret (update r (on_wire (fun s => with_times time s.(lastKeepaliveTimestamp) s)) (set_receiver Reading r w))
  | Handled e => w ← abortChannel (Some (r, Receiving)) e r w; Ret (set_receiver Gone r w)
  | Waits x => Ret (set_receiver x r w)
  end.

Definition doReceive (r : nat) (time : Z) (w : World) : result World :=
  '(_, s) ← wire_of r w;
  match s.(receiver), readPacket s with
  | Reading, Some (got, s) =>
      let w := update r (on_wire (fun _ => s)) w in
      match got with
      | ReadError e => received r time (Handled e) w
      | ReadPacket n payload =>
          '(i, w) ← handleIncomingPacket (S (length payload)) r [] r n payload w;
          received r time i w
      end
  | _, _ => Reject
  end.

(** [receivingQueue.put] goes on, as there is room or the queue is closed. *)
Definition resumePut (r : nat) (time : Z) (w : World) : result World :=
  '(_, s) ← wire_of r w;
  match s.(receiver) with
  | Putting _ c payload =>
      ch ← deref c w;
      if ch.(receivingQueue).(notFull).(flag) then received r time (Handled NoError) (update c (deliver payload) w)
      else Reject
  | _ => Reject
  end.

(** [sendPacketRaw] of the plugged channel returned [ok] to [handleIncomingPacket] of [owner]. *)
Definition forwarded (r : nat) (time : Z) (ok : bool) (w : World) : result World :=
  '(_, s) ← wire_of r w;
  match s.(receiver) with
  | Forwarding _ owner =>
      if ok then received r time (Handled NoError) w
      else if bool_decide (owner = r) then received r time (Handled PluggedChannelError) w
      else
        w ← abortChannel (Some (r, Receiving)) PluggedChannelError owner w;
        received r time (Handled NoError) w
  | _ => Reject
  end.

(** A turn of [doKeepalive] after its sleep. *)
Definition doKeepalive (r : nat) (time : Z) (w : World) : result World :=
  '(ch, s) ← wire_of r w;
  if failed ch.(error) then Reject else
  let a := s.(lastActiveTimestamp) in
  let k := s.(lastKeepaliveTimestamp) in
  if (s.(keepaliveTimeout) >? 0) && (time >? a) && (time - a >? s.(keepaliveTimeout)) then
    abortChannel (Some (r, Keepalive)) KeepaliveTimeoutError r w
  else if (time >? k) && (time - k >? s.(keepaliveInterval)) && isEmpty s.(sendingQueue) then
    let p := mkPacket packKeepaliveRequest None CommandChannelNumber in
    Ret (update r (on_wire (fun s => with_sending (insert psize true p s.(sendingQueue)).2 (with_times a time s))) w)
  else Ret w.

(** ** What users call *)

(** [sendPacket] when the gate is open; [SendTimeout] below is the other case. *)
Definition sendPacket (c : nat) (data : list Z) (waitSent : bool) (w : World) : result (Sent * World) :=
  ch ← deref c w;
  if ch.(goThrough) then
    sent ← sendPacketRaw (S c) c DataChannelNumber data
             (if waitSent then Block_Until_Sent else Block_And_Not_Wait_Sent) w;
    Ret (sent.1.1, wait_for User sent)
  else Reject.

Definition sendPacketAsync (c : nat) (data : list Z) (w : World) : result (Sent * World) :=
  '(sent, _, w) ← sendPacketRaw (S c) c DataChannelNumber data NonBlock w; Ret (sent, w).

(** [None] to wait in [receivingQueue.get]. *)
Definition recvPacket (c : nat) (w : World) : result (option (list Z) * World) :=
  ch ← deref c w;
  if isEmpty ch.(receivingQueue) && failed ch.(error) then Ret (Some [], w) else
  if negb ch.(receivingQueue).(notEmpty).(flag) then Ret (None, w) else
  match proceed bsize Get ch.(receivingQueue) with
  | (Some (Got e), q) =>
      let w := update c (with_received q ch.(slowDownRequested)) w in
      let data := default [] e in
      if zlen data =? 0 then Ret (Some [], w) else
      if wantsGoThrough (with_received q ch.(slowDownRequested) ch) then
        w ← sendCommand c packGoThroughRequest (update c (with_received q false) w);
        Ret (Some data, w)
      else Ret (Some data, w)
  | (_, q) => Ret (None, update c (with_received q ch.(slowDownRequested)) w)
  end.

Definition setCapacityOf (c : nat) (capacity : Z) (w : World) : result World :=
  _ ← deref c w;
  Ret (update c (fun ch => with_received (setCapacity capacity ch.(receivingQueue)) ch.(slowDownRequested) ch) w).

Definition setMaxPacketSize (r : nat) (size : Z) (w : World) : result World :=
  _ ← wire_of r w;
  let size := if size =? 0 then 1024 * 64 else size in
  if size <? 64 then Ret w else
  let set s := mkWire s.(sendingQueue) (u32 (size - 4 - 4)) s.(connected) s.(inbox) s.(eof) s.(outbox) s.(writing)
                 s.(receiver) s.(lastActiveTimestamp) s.(lastKeepaliveTimestamp) s.(keepaliveTimeout)
                 s.(keepaliveInterval) in
  Ret (update r (on_wire set) w).

(** [maxPayloadSize]; 1400 for a broken virtual channel. *)
Fixpoint maxPayloadSize (fuel : nat) (c : nat) (w : World) : result Z :=
  match fuel with
  | O => OutOfFuel
  | S fuel =>
      ch ← deref c w;
      match ch.(kind) with
      | SocketChannel s => Ret s.(maxPayload)
      | VirtualChannel parent _ =>
          broken ← isBroken (S c) c w;
          match parent with
          | Some p => if broken : bool then Ret 1400 else n ← maxPayloadSize fuel p w; Ret (u32 (n - 4))
          | None => Ret 1400
          end
      end
  end.

(** The loops at the start of [exchange]: what was received by one goes out by the other. *)
Definition forward_received (src dst : nat) (w : World) : result World :=
  ch ← deref src w;
  loop (fun data w =>
          ch ← deref src w;
          let q := match ch.(receivingQueue).(queue) with
                   | e :: l => take_front bsize e l ch.(receivingQueue)
                   | [] => ch.(receivingQueue)
                   end in
          let w := update src (with_received q ch.(slowDownRequested)) w in
          '(_, w) ← sendPacketRaw (S dst) dst DataChannelNumber data NonBlock w; Ret w)
       ch.(receivingQueue).(queue) w.

(** [exchange] up to its first [recvPacket]. *)
Definition exchange (incoming outgoing : nat) (w : World) : result World :=
  _ ← deref incoming w; _ ← deref outgoing w;
  w ← forward_received incoming outgoing w;
  w ← forward_received outgoing incoming w;
  Ret (update outgoing (with_plug (Some incoming)) (update incoming (with_plug (Some outgoing)) w)).

(** ** A channel as a stream *)

(** [DataChannelSocketLikeImpl] over the channel [c]; [buf] is its buffer.  An answer is the
    number that the function returns and the bytes it stores; [None] to wait in [recvPacket]. *)
Definition bufferTake (size : Z) (buf : list Z) : (Z * list Z) * list Z :=
  let len := Z.min size (s32 (zlen buf)) in ((len, take (Z.to_nat len) buf), drop (Z.to_nat len) buf).

Definition streamPeek (size : Z) (buf : list Z) : Z * list Z :=
  if size <=? 0 then (-1, []) else (bufferTake size buf).1.

Definition streamRecv (c : nat) (size : Z) (buf : list Z) (w : World) :
    result (option (Z * list Z) * list Z * World) :=
  if size <=? 0 then Ret (Some (-1, []), buf, w) else
  if 0 <? zlen buf then let '(answer, buf) := bufferTake size buf in Ret (Some answer, buf, w) else
  '(packet, w) ← recvPacket c w;
  match packet with
  | None => Ret (None, [], w)
  | Some packet =>
      if zlen packet =? 0 then Ret (Some (0, []), packet, w)
      else let '(answer, buf) := bufferTake size packet in Ret (Some answer, buf, w)
  end.

(** The loop of [recvall]; false to wait. *)
Fixpoint fill (fuel : nat) (c : nat) (size : Z) (buf : list Z) (w : World) : result (bool * list Z * World) :=
  match fuel with
  | O => OutOfFuel
  | S fuel =>
      if zlen buf <? size then
        '(packet, w) ← recvPacket c w;
        match packet with
        | None => Ret (false, buf, w)
        | Some packet => if zlen packet =? 0 then Ret (true, buf, w) else fill fuel c size (buf ++ packet) w
        end
      else Ret (true, buf, w)
  end.

(** Each turn of the loop takes a packet that is queued. *)
Definition streamRecvall (c : nat) (size : Z) (buf : list Z) (w : World) :
    result (option (Z * list Z) * list Z * World) :=
  if size <=? 0 then Ret (Some (-1, []), buf, w) else
  ch ← deref c w;
  '(full, buf, w) ← fill (S (length ch.(receivingQueue).(queue))) c size buf w;
  if full : bool then let '(answer, buf) := bufferTake size buf in Ret (Some answer, buf, w)
  else Ret (None, buf, w).

(** [sendall]: the packets given to [sendPacket], whose [i]th call answers [ok i], and the
    number returned.  A negative length makes [std::string] throw. *)
Fixpoint streamSendall (fuel : nat) (ok : nat -> bool) (i : nat) (maxPayloadSize : Z) (data : list Z) :
    result (list (list Z) * Z) :=
  match data, fuel with
  | [], _ => Ret ([], 0)
  | _, O => OutOfFuel
  | _, S fuel =>
      let len := Z.min (zlen data) maxPayloadSize in
      if len <? 0 then Reject else
      if (len =? 0) || negb (ok i) then Ret ([take (Z.to_nat len) data], 0) else
      '(packets, count) ← streamSendall fuel ok (S i) maxPayloadSize (drop (Z.to_nat len) data);
      Ret (take (Z.to_nat len) data :: packets, len + count)
  end.

(** [send]: the packet, and what it answers if it is sent. *)
Definition streamSend (maxPayloadSize : Z) (data : list Z) : list Z * Z :=
  let len := Z.min (zlen data) maxPayloadSize in (take (Z.to_nat len) data, len).

(** ** Executions *)

Definition newWire (time : Z) : Wire :=
  mkWire (newQueue (64 * 1024)) (1024 * 64 - 4 * 2) true [] false [] None Reading time time (-1) (1000 * 2).

Definition refers (c : nat) (ch : Channel) : bool :=
  bool_decide (Some c ∈ ch.(pendingChannels)) || bool_decide (ch.(pluggedChannel) = Some c)
  || match ch.(kind) with
     | SocketChannel s => match s.(receiver) with
                          | Putting held d _ => bool_decide (c ∈ d :: held)
                          | Forwarding held d => bool_decide (c ∈ d :: held)
                          | _ => false
                          end
     | VirtualChannel _ _ => false
     end.

(** Another object, or a variable of the receiver of another, keeps [c] alive. *)
Definition referenced (c : nat) (w : World) : bool :=
  existsb (fun x => negb (bool_decide (x.1 = c)) && refers c x.2) (map_to_list w.(objs)).

Inductive Action : Type :=
| Open (pole time : Z)                        (* a SocketChannel over a new connection *)
| Make (c : nat)
| Take (c t : nat)
| TakeResume (c t : nat)
| TakeNumber (c : nat) (n : Z)
| Send (c : nat) (data : list Z) (waitSent : bool)
| SendAsync (c : nat) (data : list Z)
| Recv (c : nat)
| Abort (c : nat)
| Destroy (c : nat)                          (* the last reference goes away *)
| Exchange (c d : nat)
| SetCapacity (c : nat) (capacity : Z)
| SetMaxPacketSize (r : nat) (size : Z)
| Arrive (r : nat) (bytes : list Z)
| Hangup (r : nat)                           (* the peer ends the stream *)
| DoSend (r : nat)
| DoSent (r : nat) (sentBytes time : Z)
| DoReceive (r : nat) (time : Z)
| ResumePut (r : nat) (time : Z)
| DoKeepalive (r : nat) (time : Z)
| Admit (i : nat) (time : Z)                  (* a coroutine in [sendingQueue.put] goes on *)
| Complete (i : nat) (time : Z)               (* one in [done->tryWait] goes on *)
| SendTimeout (i : nat)                      (* the timer of one of a user's waits *)
| DoneTimeout (i : nat).

Inductive Answer : Type :=
| Nothing
| Waiting
| Object (c : option nat)
| Data (packet : list Z)
| Bool (b : bool).

Definition answer_sent (s : Sent) : Answer :=
  match s with Refused => Bool false | Queued => Bool true | _ => Waiting end.
Definition answer_taken (p : option (option nat)) : Answer :=
  match p with Some p => Object p | None => Waiting end.

Definition silent (r : result World) : result (World * Answer) := w ← r; Ret (w, Nothing).

Definition remove_at {A} (i : nat) (l : list A) : list A := take i l ++ drop (S i) l.

(** What the coroutine [who], which waited for [sendPacketRaw], does with its answer; a
    receiver ends with its connection. *)
Definition answered (who : Waiter) (time : Z) (ok : bool) (w : World) : result (World * Answer) :=
  match who with
  | User => Ret (w, Bool ok)
  | ReceiverOf r => if bool_decide (is_Some (w.(objs) !! r)) then silent (forwarded r time ok w) else Reject
  end.

Definition admit_parked (i : nat) (time : Z) (w : World) : result (World * Answer) :=
  match w.(senders) !! i with
  | None => Reject
  | Some p =>
      '(_, s) ← wire_of p.(root) w;
      match admit_packet p.(root) s p.(waits) (with_waits (remove_at i w.(senders)) w.(awaiting) w) with
      | (WaitsRoom _, _) => Reject
      | (WaitsDone t, w) => Ret (wait_for p.(caller) (WaitsDone t, p.(root), w), Nothing)
      | (Queued, w) => answered p.(caller) time true w
      | (Refused, w) => answered p.(caller) time false w
      end
  end.

Definition complete (i : nat) (time : Z) (w : World) : result (World * Answer) :=
  match w.(awaiting) !! i with
  | None => Reject
  | Some (t, who) =>
      match list_find (fun s => s.1 = t) w.(signals) with
      | Some (_, (_, ok)) => answered who time ok (with_waits w.(senders) (remove_at i w.(awaiting)) w)
      | None => Reject
      end
  end.

(** The destructor; that of a connection deletes [operations], which kills its coroutines. *)
Definition destroy (c : nat) (w : World) : result World :=
  ch ← deref c w;
  let cv := ch.(pendingChannelsNotEmpty) in
  if referenced c w || (0 <? zlen cv.(cwaiting) + zlen cv.(cnotified)) then Reject else
  w ← abortChannel None UserShutdown c w;
  ch ← deref c w;
  let w := match ch.(kind) with SocketChannel s => killSending c s (killReceiving c w) | _ => w end in
  Ret (with_objs (delete c w.(objs)) w).

(** The objects that whoever takes the step has a reference to. *)
Definition uses (a : Action) : list nat :=
  match a with
  | Open _ _ | Admit _ _ | Complete _ _ | SendTimeout _ | DoneTimeout _ => []
  | Make c | Take c _ | TakeResume c _ | TakeNumber c _ | Send c _ _ | SendAsync c _ | Recv c | Abort c | Destroy c
  | SetCapacity c _ | SetMaxPacketSize c _ | Arrive c _ | Hangup c | DoSend c | DoSent c _ _ | DoReceive c _
  | ResumePut c _ | DoKeepalive c _ => [c]
  | Exchange c d => [c; d]
  end.

Definition arrive (bytes : list Z) (last : bool) (s : Wire) : Wire :=
  if s.(connected) && negb s.(eof) then with_stream true (s.(inbox) ++ bytes) last s else s.

Definition exec (a : Action) (w : World) : result (World * Answer) :=
  if negb (forallb (fun c => bool_decide (is_Some (w.(objs) !! c))) (uses a)) then Reject else
  match a with
  | Open pole time =>
      let ch := newChannel (SocketChannel (newWire time)) pole (128 * 1024) 8 in
      Ret (mkWorld (<[w.(fresh) := ch]> w.(objs)) (S w.(fresh)) w.(tokens) w.(signals) w.(senders) w.(awaiting),
           Object (Some w.(fresh)))
  | Make c => '(id, w) ← makeChannel c w; Ret (w, Object id)
  | Take c t => '(p, w) ← takeChannel c t w; Ret (w, answer_taken p)
  | TakeResume c t => '(p, w) ← takeResumed c t w; Ret (w, answer_taken p)
  | TakeNumber c n => '(p, w) ← takeNumber c n w; Ret (w, Object p)
  | Send c data waitSent => '(s, w) ← sendPacket c data waitSent w; Ret (w, answer_sent s)
  | SendAsync c data => '(s, w) ← sendPacketAsync c data w; Ret (w, answer_sent s)
  | Recv c => '(p, w) ← recvPacket c w; Ret (w, match p with Some p => Data p | None => Waiting end)
  | Abort c => silent (abortChannel None UserShutdown c w)
  | Destroy c => silent (destroy c w)
  | Exchange c d => silent (exchange c d w)
  | SetCapacity c n => silent (setCapacityOf c n w)
  | SetMaxPacketSize r n => silent (setMaxPacketSize r n w)
  | Arrive r bytes => Ret (update r (on_wire (arrive bytes false)) w, Nothing)
  | Hangup r => Ret (update r (on_wire (arrive [] true)) w, Nothing)
  | DoSend r => silent (doSend r w)
  | DoSent r n time => silent (doSent r n time w)
  | DoReceive r time => silent (doReceive r time w)
  | ResumePut r time => silent (resumePut r time w)
  | DoKeepalive r time => silent (doKeepalive r time w)
  | Admit i time => admit_parked i time w
  | Complete i time => complete i time w
  | SendTimeout i =>
      match w.(senders) !! i with
      | Some (mkParked _ _ User) => Ret (with_waits (remove_at i w.(senders)) w.(awaiting) w, Bool false)
      | _ => Reject
      end
  | DoneTimeout i =>
      match w.(awaiting) !! i with
      | Some (_, User) => Ret (with_waits w.(senders) (remove_at i w.(awaiting)) w, Bool false)
      | _ => Reject
      end
  end.

Fixpoint execs (l : list Action) (w : World) : result World :=
  match l with
  | [] => Ret w
  | a :: l' => '(w, _) ← exec a w; execs l' w
  end.

Definition empty_world : World := mkWorld ∅ 0 0 [] [] [].
