(* ===== verification/DataChannelProofs.v ===== *)
(** * Channels: what closing does to the store

    Every working channel is listed by its parent under its number, and a strong pointer
    leads to an object.  The operations that close channels keep this, end within their
    fuel, and only take away: entries, references, parents, working channels. *)

From stdpp Require Import gmap sorting.
From S2P Require Import Prelude Queue DataChannel.

Implicit Types (w : World) (o : gmap nat Channel) (ch : Channel).

(** ** Results that are there *)

Definition returns {A} (Q : A -> Prop) (r : result A) : Prop := match r with Ret a => Q a | _ => False end.

Lemma returns_bind {A B} (P : A -> Prop) (Q : B -> Prop) r (k : A -> result B) :
  returns P r -> (forall a, P a -> returns Q (k a)) -> returns Q (r ≫= k).
Proof. destruct r; simpl; intros H Hk; try done. by apply Hk. Qed.

Lemma returns_mono {A} (P Q : A -> Prop) r : returns P r -> (forall a, P a -> Q a) -> returns Q r.
Proof. destruct r; simpl; auto. Qed.

Lemma returns_safe {A} (Q : A -> Prop) r : returns Q r -> safe Q r.
Proof. by destruct r. Qed.

(** ** What a channel points to *)

Definition held_by (x : Receiver) : list nat :=
  match x with
  | Putting held d _ => d :: held
  | Forwarding held d => d :: held
  | _ => []
  end.

Definition strong ch : list nat :=
  omap id ch.(pendingChannels) ++ option_list ch.(pluggedChannel)
  ++ match ch.(kind) with SocketChannel s => held_by s.(receiver) | VirtualChannel _ _ => [] end.

(** A closed queue has nothing left to send; a connection goes down with its queue. *)
Definition wire_ok (s : Wire) : Prop := (s.(sendingQueue).(m_closed) = true -> s.(sendingQueue).(queue) = [])
  /\ (s.(connected) = false -> s.(sendingQueue).(m_closed) = true).

(** The kind of a channel for good; a parent may be forgotten. *)
Definition kind_le (k k' : Kind) : Prop :=
  match k, k' with
  | SocketChannel s, SocketChannel s' => (wire_ok s -> wire_ok s') /\ (s'.(connected) = true -> s.(connected) = true)
      /\ (s'.(writing) = s.(writing) \/ s'.(writing) = None)
  | VirtualChannel p n, VirtualChannel p' n' => n' = n /\ (p' = p \/ p' = None)
  | _, _ => False
  end.

Definition pending_load ch : nat := length ch.(pendingChannels) + length ch.(pendingChannelsNotEmpty).(cwaiting).

(** Nobody waits for a packet any more. *)
Definition shut ch : Prop := ch.(receivingQueue).(m_closed) = true.

Record shrinks ch ch' : Prop := {
  shrinks_kind : kind_le ch.(kind) ch'.(kind);
  shrinks_error : failed ch.(error) = true -> ch'.(error) = ch.(error);
  shrinks_subs : ch'.(subChannels) ⊆ ch.(subChannels);
  shrinks_strong : strong ch' ⊆ strong ch;
  shrinks_pending : forall s, Some s ∈ ch'.(pendingChannels) -> Some s ∈ ch.(pendingChannels);
  shrinks_load : (pending_load ch' <= pending_load ch)%nat;
  shrinks_shut : shut ch -> shut ch'
}.

#[export] Instance kind_le_preorder : PreOrder kind_le.
Proof.
  split.
  - intros []; simpl; auto 6.
  - intros [] [] []; simpl; try done.
    { intros (? & ? & [<- | ->]) (? & ? & [-> | ->]); auto. }
    intros [-> Hp] [-> Hq]. split; [done |].
    destruct Hq as [-> | ->]; auto.
Qed.

#[export] Instance shrinks_preorder : PreOrder shrinks.
Proof.
  split.
  - intros ch. by split.
  - intros a b c [K1 E1 S1 R1 P1 L1 H1] [K2 E2 S2 R2 P2 L2 H2]. split; [by etrans | | by etrans | by etrans | auto | by etrans | auto].
    intros He. rewrite E2; [by apply E1 |]. by rewrite E1.
Qed.

Definition objs_rel (R : Channel -> Channel -> Prop) o o' : Prop := forall c, option_Forall2 R (o !! c) (o' !! c).

#[export] Instance objs_rel_preorder R `{!PreOrder R} : PreOrder (objs_rel R).
Proof.
  split.
  - intros o c. destruct (o !! c); constructor. reflexivity.
  - intros o1 o2 o3 H1 H2 c. specialize (H1 c). specialize (H2 c).
    inversion H1 as [a b Hab E1 E2 | E1 E2]; rewrite <- E2 in H2; inversion H2; subst; constructor. by etrans.
Qed.

Lemma objs_rel_fwd R o o' c ch : objs_rel R o o' -> o !! c = Some ch -> exists ch', o' !! c = Some ch' /\ R ch ch'.
Proof. intros H E. specialize (H c). rewrite E in H. inversion H. eauto. Qed.

Lemma objs_rel_bwd R o o' c ch' : objs_rel R o o' -> o' !! c = Some ch' -> exists ch, o !! c = Some ch /\ R ch ch'.
Proof. intros H E. specialize (H c). rewrite E in H. inversion H. eauto. Qed.

Lemma objs_rel_some R o o' c : objs_rel R o o' -> is_Some (o !! c) <-> is_Some (o' !! c).
Proof. intros H. specialize (H c). inversion H as [a b Hab E1 E2 | E1 E2]; rewrite <- ?E1, <- ?E2; by rewrite ?is_Some_alt. Qed.

Lemma objs_rel_mono (R R' : Channel -> Channel -> Prop) o o' :
  (forall a b, R a b -> R' a b) -> objs_rel R o o' -> objs_rel R' o o'.
Proof. intros H M c. specialize (M c). inversion M; constructor; auto. Qed.

Lemma objs_rel_alter R `{!PreOrder R} o c f : (forall ch, o !! c = Some ch -> R ch (f ch)) -> objs_rel R o (alter f c o).
Proof.
  intros H d. destruct (decide (d = c)) as [-> |].
  - rewrite lookup_alter_eq. destruct (o !! c); constructor. by apply H.
  - rewrite lookup_alter_ne by done. destruct (o !! d); constructor. reflexivity.
Qed.

(** ** The invariant of the store *)

(** [x] is a channel that need not be listed, while it is on its way out. *)
Definition linked (x : option nat) o : Prop := forall c ch p n, x <> Some c ->
  o !! c = Some ch -> ch.(error) = NoError -> ch.(kind) = VirtualChannel (Some p) n ->
  (p < c)%nat /\ exists pc, o !! p = Some pc /\ pc.(subChannels) !! n = Some c.

Definition refs_ok o : Prop := forall c ch s, o !! c = Some ch -> s ∈ strong ch -> is_Some (o !! s).

Definition wires_ok o : Prop := forall c ch s, o !! c = Some ch -> ch.(kind) = SocketChannel s -> wire_ok s.

(** What a channel lists or keeps pending is a child of its own, or of nobody any more. *)
Definition child_of (p : nat) ch : Prop := exists q n, ch.(kind) = VirtualChannel q n /\ (q = Some p \/ q = None).
Definition number_in ch : option Z := match ch.(kind) with VirtualChannel _ n => Some n | _ => None end.
Definition owned o : Prop := forall p pc s chs, o !! p = Some pc -> o !! s = Some chs ->
  (forall n, pc.(subChannels) !! n = Some s -> child_of p chs /\ number_in chs = Some n)
  /\ (Some s ∈ pc.(pendingChannels) -> child_of p chs).

Definition sound (x : option nat) o : Prop := linked x o /\ refs_ok o /\ wires_ok o /\ owned o.

(** A failed channel lists nothing and its connection is down; a listed channel works and
    knows its parent. *)
Definition offline ch : Prop := forall s, ch.(kind) = SocketChannel s -> s.(connected) = false.
Definition tidy o d : Prop := forall ch, o !! d = Some ch ->
  (failed ch.(error) = true -> ch.(subChannels) = ∅ /\ offline ch /\ shut ch)
  /\ forall n s chs, ch.(subChannels) !! n = Some s -> o !! s = Some chs ->
       chs.(error) = NoError /\ chs.(kind) = VirtualChannel (Some d) n.

(** A working channel other than a connection has a parent. *)
Definition rooted o d : Prop := forall ch n, o !! d = Some ch -> ch.(error) = NoError -> ch.(kind) <> VirtualChannel None n.

(** The completions that a connection owes: those of its queue and of the batch it writes. *)
Definition wire_tokens ch : list nat :=
  match ch.(kind) with
  | SocketChannel s => omap done (s.(sendingQueue).(queue) ++ default [] s.(writing))
  | VirtualChannel _ _ => []
  end.

Definition covered w (t : nat) : Prop :=
  t ∈ w.(signals).*1 \/ exists c ch, w.(objs) !! c = Some ch /\ t ∈ wire_tokens ch.

Record closing w w' : Prop := {
  closing_objs : objs_rel shrinks w.(objs) w'.(objs);
  closing_fresh : w'.(fresh) = w.(fresh);
  closing_tokens : w'.(tokens) = w.(tokens);
  closing_senders : w'.(senders) ⊆ w.(senders);
  closing_awaiting : w'.(awaiting) ⊆ w.(awaiting);
  closing_covered : forall t, covered w t -> covered w' t
}.

#[export] Instance closing_preorder : PreOrder closing.
Proof.
  split.
  - intros w. by split.
  - intros a b c [] []. split; try by etrans. all: auto.
Qed.

Lemma closing_shut w w' d ch ch' : closing w w' -> w.(objs) !! d = Some ch -> w'.(objs) !! d = Some ch' -> shut ch -> shut ch'.
Proof.
  intros C E E'. destruct (objs_rel_fwd _ _ _ _ _ (closing_objs _ _ C) E) as (? & E2 & H). simplify_eq. apply H.
Qed.

Section Closing.
Context (out : option nat).

(** The channels from [c] up are not the one on its way out. *)
Definition below (c : nat) : Prop := match out with Some s => (c < s)%nat | None => True end.

(** What an operation that closes something achieves. *)
Record closes w w' : Prop := {
  closes_closing : closing w w';
  closes_linked : linked out w'.(objs);
  closes_tidy : forall d, tidy w.(objs) d -> tidy w'.(objs) d;
  closes_rooted : forall d, rooted w.(objs) d -> rooted w'.(objs) d
}.

Lemma below_other c : below c -> out <> Some c.
Proof. unfold below. destruct out; [intros H E; simplify_eq; lia | done]. Qed.

Lemma below_lt c d : (d < c)%nat -> below c -> below d.
Proof. unfold below. destruct out; lia. Qed.

Lemma closes_refl w : linked out w.(objs) -> closes w w.
Proof. by split. Qed.

Lemma closes_trans w1 w2 w3 : closes w1 w2 -> closes w2 w3 -> closes w1 w3.
Proof. intros [] []. split; [by etrans | done | auto | auto]. Qed.

Lemma refs_ok_shrinks o o' : objs_rel shrinks o o' -> refs_ok o -> refs_ok o'.
Proof.
  intros H R c ch' s E Hs. destruct (objs_rel_bwd _ _ _ _ _ H E) as (ch & E' & Hch).
  apply (objs_rel_some _ _ _ s H). eapply R; [done |]. by apply (shrinks_strong _ _ Hch).
Qed.

Lemma wires_ok_shrinks o o' : objs_rel shrinks o o' -> wires_ok o -> wires_ok o'.
Proof.
  intros H W c ch' s' E Ek. destruct (objs_rel_bwd _ _ _ _ _ H E) as (ch & E' & [K _ _ _ _ _ _]).
  rewrite Ek in K. destruct (kind ch) as [s |] eqn:Es; [| done]. apply K. by eapply W.
Qed.

Lemma child_of_shrinks p ch ch' : shrinks ch ch' -> child_of p ch -> child_of p ch'.
Proof.
  intros [K _ _ _ _ _ _] (q & n & Ek & Hq). rewrite Ek in K. unfold child_of. destruct (kind ch') as [| q' n'] eqn:Ek'; [done |].
  simpl in K. exists q', n'. split; [done |]. destruct K as [_ [-> | ->]]; auto.
Qed.

Lemma number_in_shrinks ch ch' : shrinks ch ch' -> number_in ch' = number_in ch.
Proof. intros [K _ _ _ _ _ _]. unfold number_in. destruct (kind ch), (kind ch'); try done. simpl in K. by destruct K as [-> _]. Qed.

Lemma owned_shrinks o o' : objs_rel shrinks o o' -> owned o -> owned o'.
Proof.
  intros H O p pc' s chs' Ep Es. destruct (objs_rel_bwd _ _ _ _ _ H Ep) as (pc & Ep' & Hp).
  destruct (objs_rel_bwd _ _ _ _ _ H Es) as (chs & Es' & Hs). destruct (O p pc s chs Ep' Es') as [O1 O2]. split.
  - intros n Hn. rewrite (number_in_shrinks _ _ Hs). destruct (O1 n) as [Hc Hm]; [eapply lookup_weaken; [done | apply Hp] |].
    split; [by eapply child_of_shrinks | done].
  - intros Hn. eapply child_of_shrinks; [done |]. by apply O2, (shrinks_pending _ _ Hp).
Qed.

Lemma closing_sound x w w' : closing w w' -> linked out w'.(objs) -> sound x w.(objs) -> sound out w'.(objs).
Proof.
  intros [] L (_ & R & W & O). split; [done |].
  split; [by eapply refs_ok_shrinks |]. split; [by eapply wires_ok_shrinks | by eapply owned_shrinks].
Qed.

Lemma closes_sound w w' : closes w w' -> sound out w.(objs) -> sound out w'.(objs).
Proof. intros [C L _] S. by eapply closing_sound. Qed.

(** The entries of those that still need them are kept. *)
Lemma linked_shrinks o o' : objs_rel shrinks o o' -> linked out o ->
  (forall c ch p n pc pc', out <> Some c -> o' !! c = Some ch -> ch.(error) = NoError -> ch.(kind) = VirtualChannel (Some p) n ->
     o !! p = Some pc -> o' !! p = Some pc' -> pc.(subChannels) !! n = Some c -> pc'.(subChannels) !! n = Some c) ->
  linked out o'.
Proof.
  intros H L K c ch' p n Hx E He Hk. destruct (objs_rel_bwd _ _ _ _ _ H E) as (ch & E' & [Hkind Herr _ _ _ _ _]).
  assert (ch.(error) = NoError) as He'.
  { destruct (failed (error ch)) eqn:F; [| by destruct (error ch)]. rewrite Herr in He by done. by rewrite He in F. }
  rewrite Hk in Hkind. destruct (kind ch) as [| q m] eqn:Ek; [done |]. simpl in Hkind.
  destruct Hkind as [-> [<- |]]; [| done].
  destruct (L _ _ _ _ Hx E' He' Ek) as (Hlt & pc & Hp & Hs). split; [done |].
  destruct (objs_rel_fwd _ _ _ _ _ H Hp) as (pc' & Hp' & _). eauto.
Qed.

Lemma linked_same_subs o o' : objs_rel shrinks o o' ->
  (forall c ch ch', o !! c = Some ch -> o' !! c = Some ch' -> ch'.(subChannels) = ch.(subChannels)) ->
  linked out o -> linked out o'.
Proof. intros H S L. eapply linked_shrinks; eauto. intros * _ _ _ _ Hp Hp' Hs. by rewrite (S _ _ _ Hp Hp'). Qed.

(** ** Updates of one object *)

Lemma deref_some c w ch : w.(objs) !! c = Some ch -> deref c w = Ret ch.
Proof. unfold deref. by intros ->. Qed.

Lemma update_self c f w : update c f w = with_objs (alter f c w.(objs)) w.
Proof. done. Qed.

Lemma update_objs c f w : (update c f w).(objs) = alter f c w.(objs).
Proof. done. Qed.

Lemma update_here c f w ch : w.(objs) !! c = Some ch -> (update c f w).(objs) !! c = Some (f ch).
Proof. intros H. rewrite update_objs, lookup_alter_eq, H. done. Qed.

Lemma update_there c d f w : c <> d -> (update c f w).(objs) !! d = w.(objs) !! d.
Proof. intros H. rewrite update_objs. by apply lookup_alter_ne. Qed.

Lemma update_some c d f w : is_Some ((update c f w).(objs) !! d) <-> is_Some (w.(objs) !! d).
Proof.
  destruct (decide (c = d)) as [-> |]; [| by rewrite update_there].
  rewrite update_objs, lookup_alter_eq. by rewrite fmap_is_Some.
Qed.

Lemma update_closing c f w : (forall ch, w.(objs) !! c = Some ch -> shrinks ch (f ch)) ->
  (forall ch, w.(objs) !! c = Some ch -> wire_tokens ch ⊆ wire_tokens (f ch)) -> closing w (update c f w).
Proof.
  intros H T. split; try done.
  - by apply objs_rel_alter; [typeclasses eauto |].
  - intros t [Ht | (d & ch & E & Ht)]; [by left | right]. destruct (decide (c = d)) as [-> |].
    + exists d, (f ch). split; [by apply update_here | by apply T].
    + exists d, ch. by rewrite update_there.
Qed.

(** An update that leaves the entries alone, and the error of the channel too. *)
Definition kind_same (k k' : Kind) : Prop :=
  match k, k' with
  | SocketChannel _, SocketChannel _ => True
  | VirtualChannel _ _, VirtualChannel _ _ => k' = k
  | _, _ => False
  end.

Record mild ch ch' : Prop := {
  mild_shrinks : shrinks ch ch';
  mild_kind : kind_same ch.(kind) ch'.(kind);
  mild_subs : ch'.(subChannels) = ch.(subChannels);
  mild_error : ch'.(error) = ch.(error)
}.

Lemma mild_tidy o o' d : objs_rel mild o o' -> tidy o d -> tidy o' d.
Proof.
  intros M T ch' E'. destruct (objs_rel_bwd _ _ _ _ _ M E') as (ch & E & [[K _ _ _ _ _ Hsh] _ Hs He]).
  destruct (T ch E) as [T1 T2]. rewrite Hs, He. split.
  - intros F. destruct (T1 F) as [-> [Hoff Hs2]]. split; [done |]. split; [| by apply Hsh]. intros s' Ek'. rewrite Ek' in K.
    destruct (kind ch) as [s |] eqn:Ek; [| done]. destruct K as (_ & K & _). specialize (Hoff s Ek).
    destruct (connected s'); [| done]. rewrite K in Hoff; done.
  - intros n s chs' Hn Eo'. destruct (objs_rel_bwd _ _ _ _ _ M Eo') as (chs & Eo & [_ Hk _ He']).
    destruct (T2 n s chs Hn Eo) as [Herr Hkind]. rewrite Hkind in Hk. split; [congruence |]. by destruct (kind chs').
Qed.

Lemma mild_rooted o o' d : objs_rel mild o o' -> rooted o d -> rooted o' d.
Proof.
  intros M H ch' n E' He Hk. destruct (objs_rel_bwd _ _ _ _ _ M E') as (ch & E & [_ K _ He2]).
  apply (H ch n E); [congruence |]. rewrite Hk in K. destruct (kind ch); [done |]. simpl in K. congruence.
Qed.

Lemma mild_closes w w' : closing w w' -> objs_rel mild w.(objs) w'.(objs) -> linked out w.(objs) -> closes w w'.
Proof.
  intros C M L. split; [done | | | intros d; by apply mild_rooted].
  - eapply linked_same_subs; [apply C | | done]. intros c ch ch' E E'.
    destruct (objs_rel_fwd _ _ _ _ _ M E) as (? & E2 & Hm). simplify_eq. by apply mild_subs.
  - intros d. by apply mild_tidy.
Qed.

#[export] Instance mild_preorder : PreOrder mild.
Proof.
  split.
  - intros ch. split; [done | by destruct (kind ch) | done | done].
  - intros a b c [? Ka] [? Kb]. split; [by etrans | | congruence | congruence].
    destruct (kind a), (kind b), (kind c); simpl in *; try done. congruence.
Qed.

Lemma update_mild c f w : (forall ch, w.(objs) !! c = Some ch -> mild ch (f ch)) ->
  (forall ch, w.(objs) !! c = Some ch -> wire_tokens ch ⊆ wire_tokens (f ch)) ->
  linked out w.(objs) -> closes w (update c f w).
Proof.
  intros H T L. apply mild_closes; [| | done].
  - apply update_closing; [| done]. intros ch E. apply mild_shrinks. auto.
  - by apply objs_rel_alter; [typeclasses eauto |].
Qed.

(** ** Sending *)

Lemma insert_back {T} (sizeOf : T -> Z) e q :
  (insert sizeOf true e q).2.(queue) = if q.(m_closed) then q.(queue) else q.(queue) ++ [e].
Proof. unfold insert. destruct (m_closed q); [done |]. simpl. by destruct (_ >=? _). Qed.

Lemma insert_front {T} (sizeOf : T -> Z) e q :
  (insert sizeOf false e q).2.(queue) = if q.(m_closed) then q.(queue) else e :: q.(queue).
Proof. unfold insert. destruct (m_closed q); [done |]. simpl. by destruct (_ >=? _). Qed.

Lemma insert_closed {T} (sizeOf : T -> Z) back e q : (insert sizeOf back e q).2.(m_closed) = q.(m_closed).
Proof. unfold insert. destruct (m_closed q) eqn:E; [done |]. simpl. by destruct (_ >=? _). Qed.

Lemma insert_answer {T} (sizeOf : T -> Z) back e q : (insert sizeOf back e q).1 = negb q.(m_closed).
Proof. unfold insert. by destruct (m_closed q). Qed.

(** A wire that keeps its receiver and all that it owes. *)
Record wire_le (s s' : Wire) : Prop := {
  wire_receiver : s'.(receiver) = s.(receiver);
  wire_wire_ok : wire_ok s -> wire_ok s';
  wire_connected : s'.(connected) = true -> s.(connected) = true;
  wire_writing : s'.(writing) = s.(writing) \/ s'.(writing) = None;
  wire_owes : omap done (s.(sendingQueue).(queue) ++ default [] s.(writing))
              ⊆ omap done (s'.(sendingQueue).(queue) ++ default [] s'.(writing))
}.

Lemma on_wire_mild f ch :
  (forall s, ch.(kind) = SocketChannel s -> held_by (f s).(receiver) ⊆ held_by s.(receiver)) ->
  (forall s, ch.(kind) = SocketChannel s -> (wire_ok s -> wire_ok (f s))
     /\ ((f s).(connected) = true -> s.(connected) = true)
     /\ ((f s).(writing) = s.(writing) \/ (f s).(writing) = None)) -> mild ch (on_wire f ch).
Proof.
  intros H K. unfold on_wire. destruct (kind ch) as [s |] eqn:E; [| reflexivity].
  split; [split | by rewrite E |..]; simpl; try done.
  - rewrite E. exact (K s eq_refl).
  - unfold strong. simpl. rewrite E. specialize (H s eq_refl). set_solver.
Qed.

Lemma on_wire_closes r f w : (forall ch s, w.(objs) !! r = Some ch -> ch.(kind) = SocketChannel s -> wire_le s (f s)) ->
  linked out w.(objs) -> closes w (update r (on_wire f) w) /\ objs_rel mild w.(objs) (update r (on_wire f) w).(objs).
Proof.
  intros H L.
  assert (forall ch, w.(objs) !! r = Some ch -> mild ch (on_wire f ch)) as M.
  { intros ch E. apply on_wire_mild; intros s Es; [by rewrite (wire_receiver _ _ (H ch s E Es)) |].
    by destruct (H ch s E Es). }
  split; [| by apply objs_rel_alter; [typeclasses eauto |]].
  apply update_mild; [done | | done]. intros ch E. unfold wire_tokens, on_wire.
  destruct (kind ch) as [s |] eqn:Es; [simpl | by rewrite Es].
  apply (wire_owes _ _ (H ch s E Es)).
Qed.

Lemma insert_wire_le e s : wire_le s (with_sending (insert psize true e s.(sendingQueue)).2 s).
Proof.
  split; [done | | done | by left |]; simpl.
  - unfold wire_ok. simpl. rewrite insert_closed, insert_back. intros [K Kc]. split; [intros Hc; rewrite Hc; auto | done].
  - rewrite insert_back. destruct (m_closed _); [done |]. rewrite !omap_app. set_solver.
Qed.

(** Where a packet of [c] ends up: its connection, which is there. *)
Lemma sendPacketRaw_nonblock fuel : forall c n data w, (c < fuel)%nat -> below c -> is_Some (w.(objs) !! c) -> linked out w.(objs) ->
  returns (fun x => closes w x.2 /\ objs_rel mild w.(objs) x.2.(objs)) (sendPacketRaw fuel c n data NonBlock w).
Proof.
  induction fuel as [| fuel IH]; intros c n data w Hc Hb [ch E] L; [lia |]. simpl. rewrite (deref_some _ _ _ E). simpl.
  assert (closes w w /\ objs_rel mild w.(objs) w.(objs)) as R by (split; [by apply closes_refl | reflexivity]).
  destruct (kind ch) as [s | [p |] m] eqn:Ek; [| | done].
  - case_match; [done |]. case_match; [done |]. destruct (insert _ _ _ _) as [ok q] eqn:Eq. simpl.
    apply on_wire_closes; [| done]. intros ch' s' E' Es. simplify_eq. rewrite Ek in Es. simplify_eq.
    change q with ((ok, q).2). rewrite <- Eq. apply insert_wire_le.
  - destruct (failed (error ch)) eqn:F; [done |]. simpl. case_match; [done |].
    destruct (L c ch p m (below_other c Hb) E) as (Hp & pc & Hpc & _); [by destruct (error ch) | done |].
    apply IH; [lia | by eapply below_lt | by eexists | done].
Qed.

Lemma sendCommand_returns c data w : below c -> is_Some (w.(objs) !! c) -> linked out w.(objs) ->
  returns (fun w' => closes w w' /\ objs_rel mild w.(objs) w'.(objs)) (sendCommand c data w).
Proof.
  intros Hb E L. unfold sendCommand. eapply returns_bind; [apply sendPacketRaw_nonblock; [lia | done..] |].
  by intros [[s r] w'] H.
Qed.

Lemma notifyChannelClose_returns c n w : below c -> is_Some (w.(objs) !! c) -> linked out w.(objs) ->
  returns (fun w' => closes w w' /\ objs_rel mild w.(objs) w'.(objs)) (notifyChannelClose c n w).
Proof.
  intros Hb [ch E] L. unfold notifyChannelClose. rewrite (deref_some _ _ _ E). simpl.
  case_match; [split; [by apply closes_refl | reflexivity] | by apply sendCommand_returns; [| eexists |]].
Qed.

(** ** Packets that are withdrawn *)

Lemma take_front_queue {T} (sizeOf : T -> Z) e l q : (take_front sizeOf e l q).(queue) = l.
Proof. unfold take_front. destruct l; simpl; destruct (m_closed q) eqn:E; case_match; done. Qed.

Lemma take_front_capacity {T} (sizeOf : T -> Z) e l q : (take_front sizeOf e l q).(mCapacity) = q.(mCapacity).
Proof. unfold take_front. by repeat case_match. Qed.

Lemma take_front_closed {T} (sizeOf : T -> Z) e l q : (take_front sizeOf e l q).(m_closed) = q.(m_closed).
Proof. unfold take_front. destruct l; simpl; destruct (m_closed q) eqn:E; case_match; done. Qed.

Lemma drain_queue {T} (sizeOf : T -> Z) l : forall q, q.(queue) = l -> (drain sizeOf l q).(queue) = [].
Proof. induction l as [| e l IH]; intros q H; simpl; [done |]. apply IH, take_front_queue. Qed.

Lemma drain_closed {T} (sizeOf : T -> Z) l : forall q, (drain sizeOf l q).(m_closed) = q.(m_closed).
Proof. induction l as [| e l IH]; intros q; simpl; [done |]. by rewrite IH, take_front_closed. Qed.

Lemma refill_queue {T} (sizeOf : T -> Z) l : forall q, q.(m_closed) = false ->
  (refill sizeOf l q).(queue) = q.(queue) ++ l.
Proof.
  unfold refill. induction l as [| e l IH]; intros q H; simpl; [by rewrite app_nil_r |].
  rewrite IH, insert_back, H; [by rewrite <- app_assoc |].
  unfold insert. rewrite H. simpl. by case_match.
Qed.

Lemma refill_closed {T} (sizeOf : T -> Z) l : forall q, (refill sizeOf l q).(m_closed) = q.(m_closed).
Proof.
  unfold refill. induction l as [| e l IH]; intros q; simpl; [done |]. by rewrite IH, insert_closed.
Qed.

Lemma owed_cons p l : omap done (p :: l) = option_list (done p) ++ omap done l.
Proof. simpl. by destruct (done p). Qed.

Definition owes (s : Wire) : list nat := omap done (s.(sendingQueue).(queue) ++ default [] s.(writing)).

Lemma with_waits_closes l a w : l ⊆ w.(senders) -> a ⊆ w.(awaiting) -> linked out w.(objs) -> closes w (with_waits l a w).
Proof. intros. split; [split | | |]; try done. Qed.

(** A wire that stops owing what is signalled. *)
Lemma signal_closes r f ok l w :
  (forall ch s, w.(objs) !! r = Some ch -> ch.(kind) = SocketChannel s ->
     held_by (f s).(receiver) ⊆ held_by s.(receiver)
     /\ ((wire_ok s -> wire_ok (f s)) /\ ((f s).(connected) = true -> s.(connected) = true)
         /\ ((f s).(writing) = s.(writing) \/ (f s).(writing) = None))
     /\ owes s ⊆ owes (f s) ++ omap done l) ->
  linked out w.(objs) ->
  closes w (signal ok l (update r (on_wire f) w))
  /\ objs_rel mild w.(objs) (signal ok l (update r (on_wire f) w)).(objs).
Proof.
  intros H L.
  assert (objs_rel mild w.(objs) (update r (on_wire f) w).(objs)) as M.
  { apply objs_rel_alter; [typeclasses eauto |]. intros ch E. apply on_wire_mild; intros s Es; apply (H ch s E Es). }
  split; [| done]. apply mild_closes; [| done | done]. split; try done.
  - eapply objs_rel_mono; [apply mild_shrinks | done].
  - intros t [Ht | (d & ch & E & Ht)]; [left; simpl; rewrite fmap_app; set_solver |].
    destruct (decide (r = d)) as [<- |]; [| right; exists d, ch; cbn [objs signal]; by rewrite update_there].
    unfold wire_tokens in Ht. destruct (kind ch) as [s |] eqn:Es; [| set_solver].
    destruct (H ch s E Es) as (_ & _ & Ho). apply Ho in Ht. apply elem_of_app in Ht as [Ht | Ht].
    + right. exists r, (on_wire f ch). cbn [objs signal]. split; [by apply update_here |].
      unfold wire_tokens, on_wire. by rewrite Es.
    + left. cbn [signals signal]. rewrite fmap_app. apply elem_of_app. right.
      rewrite list_elem_of_fmap. exists (t, ok). split; [done |]. rewrite list_elem_of_fmap. eauto.
Qed.

Lemma partition_owes (hit : WritingPacket -> bool) l :
  omap done l ⊆ omap done (base.filter (fun p => hit p = false) l) ++ omap done (base.filter (fun p => hit p = true) l).
Proof.
  intros t Ht. apply list_elem_of_omap in Ht as (p & Hp & Hd). apply elem_of_app.
  destruct (hit p) eqn:E; [right | left]; apply list_elem_of_omap; exists p; rewrite list_elem_of_filter; auto.
Qed.

Lemma cleanSendingPacket_returns fuel : forall c n check w, (c < fuel)%nat -> below c -> is_Some (w.(objs) !! c) -> sound out w.(objs) ->
  returns (fun w' => closes w w' /\ objs_rel mild w.(objs) w'.(objs)) (cleanSendingPacket fuel c n check w).
Proof.
  induction fuel as [| fuel IH]; intros c n check w Hc Hb [ch E] S; [lia |]. simpl. rewrite (deref_some _ _ _ E). simpl.
  pose proof S as (L & _ & W & _).
  assert (closes w w /\ objs_rel mild w.(objs) w.(objs)) as R by (split; [by apply closes_refl | reflexivity]).
  destruct (kind ch) as [s | [p |] m] eqn:Ek; [| | done].
  - apply signal_closes; [| done]. intros ch' s' E' Es. simplify_eq. rewrite Ek in Es. simplify_eq.
    pose proof (W c ch s' E Ek) as [K Kc]. split; [done |]. unfold wire_ok, owes. simpl.
    destruct (m_closed (sendingQueue s')) eqn:Hcl.
    + rewrite (K eq_refl). simpl. rewrite ?(K eq_refl). split; [split; [intros _; by simpl | by auto] |]. by rewrite app_nil_r.
    + rewrite !refill_queue, !drain_queue by (done || by rewrite drain_closed). simpl. split.
      * split; [| by auto]. intros _. rewrite refill_closed, drain_closed, Hcl. by split.
      * rewrite !omap_app. intros t. rewrite !elem_of_app. intros [Ht | Ht]; [| auto].
        apply (partition_owes (fun p => (channelNumber p =? n) && check (packet p))) in Ht. apply elem_of_app in Ht as [|]; auto.
  - destruct (failed (error ch)) eqn:F; [done |].
    destruct (L c ch p m (below_other c Hb) E) as (Hp & pc & Hpc & _); [by destruct (error ch) | done |].
    apply IH; [lia | by eapply below_lt | by eexists | done].
Qed.

(** ** Channels that leave their parent *)

Lemma erase_sub_shrinks n ch : shrinks ch (erase_sub n ch).
Proof. split; simpl; [reflexivity | done | apply delete_subseteq | done | done | done | done]. Qed.

Lemma erase_closing c n w : closing w (update c (erase_sub n) w).
Proof. apply update_closing; intros ch E; [apply erase_sub_shrinks | done]. Qed.

Lemma cleanChannel_returns c n b w : below c -> is_Some (w.(objs) !! c) -> sound out w.(objs) ->
  linked out (alter (erase_sub n) c w.(objs)) ->
  returns (closes (update c (erase_sub n) w)) (cleanChannel c n b w).
Proof.
  intros Hb [ch E] S L. unfold cleanChannel. rewrite (deref_some _ _ _ E). cbn [mbind result_bind].
  pose proof (closing_sound _ _ _ (erase_closing c n w) L S) as S'.
  set (w1 := update c (erase_sub n) w) in *.
  assert (is_Some (w1.(objs) !! c)) as E1 by (by apply update_some; eexists).
  assert (forall w2, closes w1 w2 -> sound out w2.(objs)) as S2 by (intros w2 H; by eapply closes_sound).
  assert (returns (closes w1) (if b then notifyChannelClose c n w1 else Ret w1)) as N.
  { destruct b; [| apply closes_refl, S']. eapply returns_mono; [by apply notifyChannelClose_returns; [.. | apply S'] |].
    by intros a []. }
  destruct (kind ch) as [s | [p |] m] eqn:Ek; [| | apply closes_refl, S'].
  - destruct (bool_decide _); [cbn [negb orb] | apply closes_refl, S']. eapply returns_bind; [apply N |]. intros w2 C2.
    eapply returns_mono; [apply cleanSendingPacket_returns; [lia | done | | by apply S2] |].
    + apply (objs_rel_some _ _ _ _ (closing_objs _ _ (closes_closing _ _ C2))), E1.
    + intros w3 [C3 _]. exact (closes_trans _ _ _ C2 C3).
  - destruct (failed (error ch)) eqn:F; [apply closes_refl, S' |]. destruct (bool_decide _); [cbn [negb orb] | apply closes_refl, S'].
    eapply returns_bind; [apply N |]. intros w2 C2. destruct S as (L0 & _). destruct (L0 c ch p m (below_other c Hb) E) as (Hp & pc & Hpc & _); [by destruct (error ch) | done |].
    eapply returns_mono; [apply cleanSendingPacket_returns; [lia | by eapply below_lt | | by apply S2] |].
    + apply (objs_rel_some _ _ _ _ (closing_objs _ _ (closes_closing _ _ C2))), update_some. by eexists.
    + intros w3 [C3 _]. exact (closes_trans _ _ _ C2 C3).
Qed.

End Closing.

(** ** Aborting *)

Lemma mild_linked o o' out : objs_rel mild o o' -> linked out o -> linked out o'.
Proof.
  intros M L. eapply linked_same_subs; [eapply objs_rel_mono; [apply mild_shrinks | done] | | done].
  intros c ch ch' E E'. destruct (objs_rel_fwd _ _ _ _ _ M E) as (? & E2 & Hm). simplify_eq. by apply mild_subs.
Qed.

Lemma killReceiving_closes r w : linked None w.(objs) ->
  closes None w (killReceiving r w) /\ objs_rel mild w.(objs) (killReceiving r w).(objs).
Proof.
  intros L. unfold killReceiving.
  assert (forall ch, w.(objs) !! r = Some ch -> mild ch (on_wire (with_receiver Gone) ch)) as M.
  { intros ch E. apply on_wire_mild; intros s _; [set_solver | split; [done | split; [done | by left]]]. }
  split; [| by apply objs_rel_alter; [typeclasses eauto |]].
  eapply closes_trans; [apply (update_mild None r (on_wire (with_receiver Gone))); [done | | done] |].
  - intros ch E. unfold wire_tokens, on_wire. destruct (kind ch) eqn:Ek; [done | by rewrite Ek].
  - apply with_waits_closes.
    + intros p Hp. apply list_elem_of_filter in Hp. apply Hp.
    + intros a Ha. apply list_elem_of_filter in Ha. apply Ha.
    + eapply mild_linked; [| done]. by apply objs_rel_alter; [typeclasses eauto |].
Qed.

Lemma offline_shrinks ch ch' : shrinks ch ch' -> offline ch -> offline ch'.
Proof.
  intros [K _ _ _ _ _ _] H s' Ek'. rewrite Ek' in K. destruct (kind ch) as [s |] eqn:Ek; [| done].
  destruct K as (_ & K & _). specialize (H s Ek). destruct (connected s'); [| done]. by rewrite K in H.
Qed.

Lemma shutdown_closes cur r ch s w : w.(objs) !! r = Some ch -> ch.(kind) = SocketChannel s -> linked None w.(objs) ->
  closes None w (shutdown cur r s w) /\ forall ch', (shutdown cur r s w).(objs) !! r = Some ch' -> offline ch'.
Proof.
  intros E Ek L. unfold shutdown.
  set (q := drain psize _ _). set (f := fun s0 => with_sending q (with_stream false [] true s0)).
  set (l := queue (sendingQueue s)). set (w1 := signal false l (update r (on_wire f) w)).
  assert (closes None w w1 /\ objs_rel mild w.(objs) w1.(objs)) as [C1 M1].
  { apply signal_closes; [| done]. intros ch' s' E' Es. simplify_eq. rewrite Ek in Es. simplify_eq.
    split; [done |]. unfold wire_ok, owes. subst f q l. simpl. rewrite drain_queue by done.
    split; [split; [by rewrite drain_closed | split; [done | by left]] |].
    rewrite omap_app. simpl. set_solver. }
  assert (w1.(objs) !! r = Some (on_wire f ch)) as E1 by (subst w1; cbn [objs signal]; by apply update_here).
  assert (offline (on_wire f ch)) as Ho.
  { unfold on_wire. rewrite Ek. intros s0 E0. simpl in E0. by simplify_eq. }
  assert (forall w', objs_rel mild w1.(objs) w'.(objs) -> forall ch', w'.(objs) !! r = Some ch' -> offline ch') as Hoff.
  { intros w' M ch' E'. destruct (objs_rel_fwd _ _ _ _ _ M E1) as (? & E2 & Hm). simplify_eq.
    by eapply offline_shrinks; [apply mild_shrinks |]. }
  clearbody w1. set (w2 := if bool_decide (cur = Some (r, Receiving)) then w1 else killReceiving r w1).
  assert (closes None w1 w2 /\ objs_rel mild w1.(objs) w2.(objs)) as [C2 M2].
  { subst w2. case_match; [split; [apply closes_refl, C1 | reflexivity] | apply killReceiving_closes, C1]. }
  assert (forall ch2 s2, w2.(objs) !! r = Some ch2 -> ch2.(kind) = SocketChannel s2 -> s2.(writing) = s.(writing)) as Hw.
  { subst w2. intros ch2 s2 E2. case_match.
    - rewrite E1 in E2. simplify_eq. unfold on_wire. rewrite Ek. simpl. intros. by simplify_eq.
    - cbn [objs killReceiving with_waits] in E2. rewrite (update_here _ _ _ _ E1) in E2. simplify_eq.
      unfold on_wire. rewrite Ek. simpl. intros. by simplify_eq. }
  clearbody w2. pose proof (closes_trans _ _ _ _ C1 C2) as C.
  case_match; [by eauto |]. unfold killSending. destruct (writing s) as [b |] eqn:Ew; [| by eauto].
  assert (closes None w2 (signal false b (update r (on_wire (with_writing (outbox s) None)) w2))
    /\ objs_rel mild w2.(objs) (signal false b (update r (on_wire (with_writing (outbox s) None)) w2)).(objs)) as [C3 M3].
  { apply signal_closes; [| apply C]. intros ch' s' E' Es. split; [done |]. split; [split; [done | split; [done | by right]] |].
    unfold owes. simpl. rewrite (Hw _ _ E' Es), !omap_app. simpl. set_solver. }
  split; [by eapply closes_trans |]. apply Hoff. by etrans.
Qed.

(** [c] is the channel that is being aborted, whose entries go last. *)
Record closes_but (c : nat) w w' : Prop := {
  but_closing : closing w w';
  but_linked : linked None w'.(objs);
  but_tidy : forall d, d <> c -> tidy w.(objs) d -> tidy w'.(objs) d;
  but_rooted : forall d, rooted w.(objs) d -> rooted w'.(objs) d
}.

Lemma closes_closes_but c w w' : closes None w w' -> closes_but c w w'.
Proof. intros []. split; auto. Qed.

Lemma closes_but_trans c w1 w2 w3 : closes_but c w1 w2 -> closes_but c w2 w3 -> closes_but c w1 w3.
Proof. intros [] []. split; [by etrans | done | auto | auto]. Qed.

Lemma closes_but_sound c w w' : closes_but c w w' -> sound None w.(objs) -> sound None w'.(objs).
Proof.
  intros [C L _ _] S. by eapply closing_sound.
Qed.

Lemma closes_but_some c w w' d : closes_but c w w' -> is_Some (w.(objs) !! d) -> is_Some (w'.(objs) !! d).
Proof. intros [[H _ _ _ _ _] _ _ _] Hd. by apply (objs_rel_some _ _ _ d H). Qed.

Definition alive o : gset nat := dom (filter (fun x => failed x.2.(error) = false) o).

Lemma elem_of_alive o c : c ∈ alive o <-> exists ch, o !! c = Some ch /\ failed ch.(error) = false.
Proof.
  unfold alive. rewrite elem_of_dom. split.
  - intros [ch E]. apply map_lookup_filter_Some in E. eauto.
  - intros (ch & E & F). exists ch. by apply map_lookup_filter_Some.
Qed.

Lemma alive_shrinks o o' : objs_rel shrinks o o' -> alive o' ⊆ alive o.
Proof.
  intros H c. rewrite !elem_of_alive. intros (ch' & E' & F). destruct (objs_rel_bwd _ _ _ _ _ H E') as (ch & E & [_ He _ _ _ _ _]).
  exists ch. split; [done |]. destruct (failed (error ch)) eqn:F'; [| done]. rewrite He in F by done. congruence.
Qed.

Lemma alive_size o : (size (alive o) <= size o)%nat.
Proof. unfold alive. rewrite size_dom. apply map_size_filter. Qed.

(** What [c] lists under [n], if anything, has another parent or none. *)
Definition orphan o c (n : Z) : Prop := forall chc s chs m,
  o !! c = Some chc -> chc.(subChannels) !! n = Some s -> o !! s = Some chs -> chs.(kind) <> VirtualChannel (Some c) m.

Lemma orphan_shrinks o o' c n : objs_rel shrinks o o' -> orphan o c n -> orphan o' c n.
Proof.
  intros H O chc' s chs' m Ec Es Eo Ek.
  destruct (objs_rel_bwd _ _ _ _ _ H Ec) as (chc & Ec' & [_ _ Hsub _ _ _ _]).
  destruct (objs_rel_bwd _ _ _ _ _ H Eo) as (chs & Eo' & [Hk _ _ _ _ _ _]).
  assert (chc.(subChannels) !! n = Some s) as Es' by (by eapply lookup_weaken).
  rewrite Ek in Hk. destruct (kind chs) as [| q m'] eqn:Eq; [done |]. simpl in Hk.
  destruct Hk as [-> [<- |]]; [| done]. by apply (O chc s chs m' Ec' Es' Eo').
Qed.

Lemma elem_of_sorted_keys {V} (m : gmap Z V) n : n ∈ sorted_keys m <-> is_Some (m !! n).
Proof.
  unfold sorted_keys. rewrite merge_sort_Permutation, list_elem_of_fmap. split.
  - intros ([k v] & -> & H). apply elem_of_map_to_list in H. by eexists.
  - intros [v H]. exists (n, v). by rewrite elem_of_map_to_list.
Qed.

Lemma detach_shrinks ch : shrinks ch (detach ch).
Proof.
  unfold detach. destruct (kind ch) as [| p n] eqn:E; [reflexivity |].
  split; simpl; [rewrite E; simpl; auto | done | done | unfold strong; simpl; by rewrite E | done | done | done].
Qed.

Lemma detach_same ch : (detach ch).(subChannels) = ch.(subChannels) /\ (detach ch).(error) = ch.(error)
  /\ (forall s, (detach ch).(kind) = SocketChannel s -> ch.(kind) = SocketChannel s).
Proof. unfold detach. destruct (kind ch) eqn:E; [by rewrite E | done]. Qed.

Lemma detach_closing s w : closing w (update s detach w).
Proof.
  apply update_closing; intros ch E; [apply detach_shrinks |].
  unfold wire_tokens, detach. by destruct (kind ch) eqn:Ek; rewrite ?Ek.
Qed.

Lemma detach_other s d w ch' : (update s detach w).(objs) !! d = Some ch' ->
  exists ch, w.(objs) !! d = Some ch /\ ch'.(subChannels) = ch.(subChannels) /\ ch'.(error) = ch.(error)
  /\ (forall x, ch'.(kind) = SocketChannel x -> ch.(kind) = SocketChannel x) /\ (s <> d -> ch' = ch).
Proof.
  destruct (decide (s = d)) as [-> |]; [| rewrite update_there by done; eauto 6].
  rewrite update_objs, lookup_alter_eq. destruct (w.(objs) !! d) as [ch |]; [| done]. intros [= <-].
  exists ch. split; [done |]. destruct (detach_same ch) as (H1 & H2 & H3). by repeat split.
Qed.

Lemma detach_linked out s w : linked out w.(objs) -> linked out (update s detach w).(objs).
Proof.
  intros L. eapply linked_same_subs; [apply (detach_closing s w) | | done]. intros c ch ch' E E'.
  destruct (detach_other _ _ _ _ E') as (ch0 & E0 & Hs & _). by simplify_eq.
Qed.

(** A child of [c] forgets its parent. *)
Lemma detach_tidy_but c s w d : (forall ch, w.(objs) !! s = Some ch -> child_of c ch) -> d <> c ->
  tidy w.(objs) d -> tidy (update s detach w).(objs) d.
Proof.
  intros H Hd T ch' E'. destruct (detach_other _ _ _ _ E') as (ch & E & Hs & He & Hk & _).
  destruct (T ch E) as [T1 T2]. rewrite Hs, He. split.
  - intros F. destruct (T1 F) as [-> [Ho Hs2]]. split; [done |].
    split; [intros x Ex; by apply Ho, Hk | by apply (closing_shut w _ d ch ch' (detach_closing s w))].
  - intros n t cht' Hn Et'. destruct (detach_other _ _ _ _ Et') as (cht & Et & _ & _ & _ & Heq).
    destruct (decide (s = t)) as [<- | Hne]; [| rewrite (Heq Hne); by apply T2 with t].
    exfalso. destruct (T2 n s cht Hn Et) as [_ Hkind]. destruct (H cht Et) as (q & m & Hq & Hc). rewrite Hkind in Hq.
    simplify_eq. destruct Hc; simplify_eq.
Qed.

Section Base.
Context (ab : nat -> World -> result World) (c : nat) (N : nat).
Hypothesis Hab : forall d w, is_Some (w.(objs) !! d) -> sound None w.(objs) -> (size (alive w.(objs)) <= N)%nat ->
  returns (fun w' => closes None w w' /\ forall ch', w'.(objs) !! d = Some ch' -> failed ch'.(error) = true) (ab d w).

Lemma closing_alive w w' : closing w w' -> (size (alive w.(objs)) <= N)%nat -> (size (alive w'.(objs)) <= N)%nat.
Proof. intros C H. etrans; [| done]. apply subseteq_size, alive_shrinks, C. Qed.

(** [s] forgets its parent and is aborted. *)
Lemma detach_ab s chs w : w.(objs) !! s = Some chs -> child_of c chs -> sound None w.(objs) ->
  (size (alive w.(objs)) <= N)%nat ->
  returns (fun w' => closes_but c w w' /\ closing (update s detach w) w') (ab s (update s detach w)).
Proof.
  intros E Hc S Hn. pose proof (detach_closing s w) as C. eapply returns_mono; [apply Hab |].
  - apply update_some. by eexists.
  - eapply closing_sound; [done | apply detach_linked, S | done].
  - by eapply closing_alive.
  - intros w' [[C1 L1 T1 R1] F']. split; [| done]. split; [by etrans | done | |].
    + intros d Hd T. apply T1, (detach_tidy_but c); [| done | done]. intros. by simplify_eq.
    + intros d R. destruct (decide (s = d)) as [<- |]; [intros ch2 m E2 He; specialize (F' ch2 E2); by rewrite He in F' |].
      apply R1. intros ch2 m E2. rewrite update_there in E2 by done. by apply R.
Qed.

Lemma abort_sub_returns n w : is_Some (w.(objs) !! c) -> sound None w.(objs) -> (size (alive w.(objs)) <= N)%nat ->
  returns (fun w' => closes_but c w w' /\ orphan w'.(objs) c n) (abort_sub ab c n w).
Proof.
  intros [ch E] S Hn. unfold abort_sub. rewrite (deref_some _ _ _ E). cbn [mbind result_bind].
  assert (closes_but c w w) as R by (apply closes_closes_but, closes_refl, S).
  destruct (subChannels ch !! n) as [s |] eqn:Es.
  2: { split; [done |]. intros chc s' chs m Ec Es' Eo'. by simplify_eq. }
  destruct (w.(objs) !! s) as [chs |] eqn:Eo.
  2: { split; [done |]. intros chc s' chs m Ec Es' Eo'. by simplify_eq. }
  destruct S as (L & Rf & W & O). destruct (O c ch s chs E Eo) as [O1 _]. destruct (O1 n Es) as [Hc _].
  eapply returns_mono; [by apply (detach_ab s chs) |]. intros w' [C' C2]. split; [done |].
  eapply orphan_shrinks; [apply C2 |]. intros chc s' chs' m Ec Es' Eo'.
  destruct (detach_other _ _ _ _ Ec) as (ch0 & E0 & Hs0 & _). simplify_eq. rewrite Hs0 in Es'. simplify_eq.
  rewrite (update_here _ _ _ _ Eo) in Eo'. simplify_eq. unfold detach. by destruct (kind chs) eqn:Ek; [rewrite Ek |].
Qed.

Lemma abort_subs_returns ks : forall w, is_Some (w.(objs) !! c) -> sound None w.(objs) -> (size (alive w.(objs)) <= N)%nat ->
  returns (fun w' => closes_but c w w' /\ forall n, n ∈ ks -> orphan w'.(objs) c n) (loop (abort_sub ab c) ks w).
Proof.
  induction ks as [| n ks IH]; intros w E S Hn; simpl; [split; [apply closes_closes_but, closes_refl, S | set_solver] |].
  eapply returns_bind; [by apply abort_sub_returns |]. intros w1 [C1 O1].
  eapply returns_mono; [apply IH; [by eapply closes_but_some | by eapply closes_but_sound |] |].
  - eapply closing_alive; [apply C1 | done].
  - intros w2 [C2 O2]. split; [by eapply closes_but_trans |]. intros m Hm. apply elem_of_cons in Hm as [-> | Hm]; [| auto].
    eapply orphan_shrinks; [apply C2 | done].
Qed.

Lemma abort_pendings_returns l : forall w,
  (forall s, Some s ∈ l -> exists chs, w.(objs) !! s = Some chs /\ child_of c chs) -> sound None w.(objs) ->
  (size (alive w.(objs)) <= N)%nat -> returns (closes_but c w) (loop (abort_pending ab) l w).
Proof.
  induction l as [| p l IH]; intros w E S Hn; cbn [loop]; [apply closes_closes_but, closes_refl, S |].
  assert (returns (closes_but c w) (abort_pending ab p w)) as H1.
  { unfold abort_pending. destruct p as [s |]; [| apply closes_closes_but, closes_refl, S].
    destruct (E s) as (chs & Es & Hc); [set_solver |]. rewrite (deref_some _ _ _ Es). cbn [mbind result_bind].
    eapply returns_mono; [by apply (detach_ab s chs) | by intros w' []]. }
  eapply returns_bind; [apply H1 |]. intros w1 C1.
  eapply returns_mono; [apply IH; [| by eapply closes_but_sound |] |].
  - intros s Hs. destruct (E s) as (chs & Es & Hc); [set_solver |].
    destruct (objs_rel_fwd _ _ _ _ _ (closing_objs _ _ (but_closing _ _ _ C1)) Es) as (chs' & Es' & Hsh).
    exists chs'. split; [done | by eapply child_of_shrinks].
  - eapply closing_alive; [apply C1 | done].
  - intros w2 C2. by eapply closes_but_trans.
Qed.
End Base.

Lemma with_plug_mild ch : mild ch (with_plug None ch).
Proof. split; [split; simpl; [reflexivity | done | done | unfold strong; simpl; set_solver | done | done | done] | simpl; by destruct (kind ch) | done | done]. Qed.

Lemma release_waiters_mild ch : mild ch (release_waiters ch).
Proof.
  split; [split; simpl; [reflexivity | done | done | | | | done] | simpl; by destruct (kind ch) | done | done].
  2: { intros s H. apply elem_of_app in H as [| H]; [done |]. by apply elem_of_replicate in H as [? _]. }
  2: { unfold pending_load. simpl. rewrite length_app, length_replicate. lia. }
  unfold strong. simpl. rewrite omap_app. assert (omap id (replicate (length (cwaiting (pendingChannelsNotEmpty ch))) (None : option nat)) = []) as ->.
  { induction (length _); done. }
  by rewrite app_nil_r.
Qed.

Lemma forget_pending_mild ch : mild ch (with_pending (base.filter (fun p => p = None) ch.(pendingChannels)) ch.(pendingChannelsNotEmpty) ch).
Proof.
  split; [split; simpl; [reflexivity | done | done | | | | done] | simpl; by destruct (kind ch) | done | done].
  2: { intros s H. by apply list_elem_of_filter in H as [? _]. }
  2: { unfold pending_load. simpl. pose proof (length_filter (fun p : option nat => p = None) (pendingChannels ch)). lia. }
  unfold strong. simpl. assert (omap id (base.filter (fun p : option nat => p = None) (pendingChannels ch)) = []) as ->; [| set_solver].
  induction (pendingChannels ch) as [| p l IH]; [done |]. rewrite filter_cons. by case_decide; subst.
Qed.

(** Whether the list of [d] is in order depends on [d] and on who is listed. *)
Lemma tidy_elsewhere o o' d : o' !! d = o !! d ->
  (forall s chs', o' !! s = Some chs' -> exists chs, o !! s = Some chs /\ chs'.(error) = chs.(error) /\ chs'.(kind) = chs.(kind)) ->
  tidy o d -> tidy o' d.
Proof.
  intros Hd H T ch E. rewrite Hd in E. destruct (T ch E) as [T1 T2]. split; [done |].
  intros n s chs' Hn Es. destruct (H s chs' Es) as (chs & Es' & -> & ->). eauto.
Qed.

Lemma update_rooted c f w d : (forall ch, (f ch).(kind) = ch.(kind) /\ ((f ch).(error) = NoError -> ch.(error) = NoError)) ->
  rooted w.(objs) d -> rooted (update c f w).(objs) d.
Proof.
  intros H R ch' n E'. destruct (decide (c = d)) as [<- |]; [| rewrite update_there in E' by done; by apply R].
  rewrite update_objs, lookup_alter_eq in E'. destruct (w.(objs) !! c) as [ch |] eqn:E; [| done]. injection E' as <-.
  destruct (H ch) as [-> He]. intros ?%He. by apply R.
Qed.

Lemma clear_subs_closes_but c w : linked None w.(objs) ->
  (forall ch n, w.(objs) !! c = Some ch -> is_Some (ch.(subChannels) !! n) -> orphan w.(objs) c n) ->
  closes_but c w (update c (with_subs ∅) w).
Proof.
  intros L O. assert (forall ch, shrinks ch (with_subs ∅ ch)) as H.
  { intros ch. split; simpl; [reflexivity | done | apply map_empty_subseteq | done | done | done | done]. }
  assert (closing w (update c (with_subs ∅) w)) as C by (apply update_closing; intros ch E; [apply H | done]).
  split; [done | | |].
  - eapply linked_shrinks; [apply C | done |]. intros d ch p n pc pc' _ Ed Hd Hk Hp Hp' Hs.
    destruct (decide (c = p)) as [<- |]; [| rewrite update_there in Hp' by done; by simplify_eq].
    exfalso. destruct (decide (c = d)) as [<- |].
    + rewrite (update_here _ _ _ _ Hp) in Ed. simplify_eq. by apply (O _ n Hp (mk_is_Some _ _ Hs) _ _ _ n Hp Hs Hp).
    + rewrite update_there in Ed by done. by apply (O _ n Hp (mk_is_Some _ _ Hs) _ _ _ n Hp Hs Ed).
  - intros d Hd. apply tidy_elsewhere; [by apply update_there |]. intros s chs' E'.
    destruct (decide (c = s)) as [-> |]; [| rewrite update_there in E' by done; eauto].
    rewrite update_objs, lookup_alter_eq in E'. destruct (w.(objs) !! s) as [chs |]; [| done]. injection E' as <-. eauto.
  - intros d. by apply update_rooted.
Qed.

Lemma update_mild_closes c f w : (forall ch, mild ch (f ch)) -> (forall ch, wire_tokens (f ch) = wire_tokens ch) ->
  linked None w.(objs) -> closes None w (update c f w).
Proof. intros M T L. apply update_mild; intros; [apply M | by rewrite T | done]. Qed.

Section BaseAbort.
Context (ab : ChannelError -> nat -> World -> result World) (c N : nat).
Hypothesis Hab : forall e d w, failed e = true -> is_Some (w.(objs) !! d) -> sound None w.(objs) ->
  (size (alive w.(objs)) <= N)%nat ->
  returns (fun w' => closes None w w' /\ forall ch', w'.(objs) !! d = Some ch' -> failed ch'.(error) = true) (ab e d w).

Lemma still_failed w w' ch : closing w w' -> w.(objs) !! c = Some ch -> failed ch.(error) = true ->
  exists ch', w'.(objs) !! c = Some ch' /\ ch'.(error) = ch.(error) /\ shrinks ch ch'.
Proof.
  intros C E F. destruct (objs_rel_fwd _ _ _ _ _ (closing_objs _ _ C) E) as (ch' & E' & H).
  exists ch'. split; [done |]. split; [by apply shrinks_error | done].
Qed.

(** The plugged channel and the waiters. *)
Lemma unplug_returns reason ch w : w.(objs) !! c = Some ch -> failed reason = true -> sound None w.(objs) ->
  (size (alive w.(objs)) <= N)%nat ->
  returns (closes None w)
    (match ch.(pluggedChannel) with
     | Some q => w ← ab reason q w; Ret (update c (with_plug None) w)
     | None => Ret w
     end).
Proof.
  intros E F S Hn. destruct (pluggedChannel ch) as [q |] eqn:Eq; [| apply closes_refl, S].
  eapply returns_bind; [apply Hab; [done | | done | done] |].
  - destruct S as (_ & R & _). eapply R; [done |]. unfold strong. rewrite Eq. set_solver.
  - intros w1 [C1 _]. simpl. eapply closes_trans; [done |].
    apply update_mild_closes; [apply with_plug_mild | done | apply C1].
Qed.

Lemma pending_refs ch s w : sound None w.(objs) -> w.(objs) !! c = Some ch -> Some s ∈ ch.(pendingChannels) ->
  is_Some (w.(objs) !! s).
Proof.
  intros (_ & R & _) E H. eapply R; [done |]. unfold strong. apply elem_of_app. left.
  apply list_elem_of_omap. by exists (Some s).
Qed.

Lemma no_subs w w' ch : closing w w' -> w.(objs) !! c = Some ch -> ch.(subChannels) = ∅ -> offline ch -> shut ch ->
  tidy w'.(objs) c.
Proof.
  intros C E H Ho Hsh2 ch' E'. destruct (objs_rel_fwd _ _ _ _ _ (closing_objs _ _ C) E) as (? & E2 & Hsh).
  simplify_eq. assert (subChannels ch' = ∅) as Hs.
  { pose proof (shrinks_subs _ _ Hsh) as Hs. rewrite H in Hs. apply map_empty. intros n.
    destruct (subChannels ch' !! n) eqn:En; [| done]. by eapply lookup_weaken in En; [| exact Hs]. }
  rewrite Hs. split; [split; [done | split; [by eapply offline_shrinks | by apply Hsh]] |]. intros n s chs Hn. by rewrite lookup_empty in Hn.
Qed.

Lemma pending_children ch s w : sound None w.(objs) -> w.(objs) !! c = Some ch -> Some s ∈ ch.(pendingChannels) ->
  exists chs, w.(objs) !! s = Some chs /\ child_of c chs.
Proof.
  intros S E H. destruct (pending_refs ch s w S E H) as [chs Es]. exists chs. split; [done |].
  destruct S as (_ & _ & _ & O). by apply (O c ch s chs E Es).
Qed.

(** From the loop over the pending channels on. *)
Lemma abort_rest_returns ch w : w.(objs) !! c = Some ch -> failed ch.(error) = true -> ch.(subChannels) = ∅ ->
  offline ch -> shut ch -> sound None w.(objs) -> (size (alive w.(objs)) <= N)%nat ->
  returns (fun w' => closes_but c w w' /\ tidy w'.(objs) c)
    (w ← loop (abort_pending (ab ch.(error))) ch.(pendingChannels) w;
     Ret (update c (fun ch => with_pending (base.filter (fun p => p = None) ch.(pendingChannels))
                                ch.(pendingChannelsNotEmpty) ch) w)).
Proof.
  intros E F Hs Ho Hsh S Hn. eapply returns_bind; [apply (abort_pendings_returns (ab (error ch)) c N) |].
  - intros. by apply Hab.
  - intros s Hp. by eapply pending_children.
  - done.
  - done.
  - intros w1 C1. simpl.
    assert (closes None w1 (update c (fun ch => with_pending (base.filter (fun p => p = None) ch.(pendingChannels))
              ch.(pendingChannelsNotEmpty) ch) w1)) as C2.
    { apply update_mild_closes; [apply forget_pending_mild | done | apply C1]. }
    pose proof (closes_but_trans c _ _ _ C1 (closes_closes_but c _ _ C2)) as C. split; [done |].
    exact (no_subs _ _ _ (but_closing _ _ _ C) E Hs Ho Hsh).
Qed.

Lemma release_shut w ch : (update c release_waiters w).(objs) !! c = Some ch -> shut ch.
Proof.
  rewrite update_objs, lookup_alter_eq. destruct (w.(objs) !! c); [| done]. by intros [= <-].
Qed.

Lemma baseAbort_returns reason ch w : w.(objs) !! c = Some ch -> failed ch.(error) = true -> failed reason = true ->
  offline ch -> sound None w.(objs) -> (size (alive w.(objs)) <= N)%nat ->
  returns (fun w' => closes_but c w w' /\ tidy w'.(objs) c) (baseAbort ab reason c w).
Proof.
  intros E F Fr Ho S Hn. unfold baseAbort. rewrite (deref_some _ _ _ E). cbn [mbind result_bind].
  eapply returns_bind; [by apply unplug_returns |]. intros w1 C1.
  assert (closes None w1 (update c release_waiters w1)) as C2.
  { apply update_mild_closes; [apply release_waiters_mild | done | apply C1]. }
  pose proof (closes_closes_but c _ _ (closes_trans _ _ _ _ C1 C2)) as C.
  destruct (still_failed w _ ch (but_closing _ _ _ C) E F) as (ch2 & E2 & F2 & H2). rewrite <- F2 in F.
  pose proof (release_shut w1 ch2 E2) as Hsh2.
  set (w2 := update c release_waiters w1) in *. clearbody w2. clear C1 C2 w1.
  rewrite (deref_some _ _ _ E2). cbn [mbind result_bind].
  eapply returns_bind; [apply (abort_subs_returns (ab (error ch2)) c N) |].
  { intros. by apply Hab. } { by eexists. } { by eapply closes_but_sound. } { eapply closing_alive; [apply C | done]. }
  intros w3 [C3 O]. destruct (still_failed w2 w3 ch2 (but_closing _ _ _ C3) E2 F) as (ch3 & E3 & F3 & H3).
  assert (closes_but c w3 (update c (with_subs ∅) w3)) as C4.
  { apply clear_subs_closes_but; [apply C3 |]. intros ch' n E' [s Hs]. simplify_eq. apply O, elem_of_sorted_keys.
    exists s. eapply lookup_weaken; [done | apply H3]. }
  pose proof (closes_but_trans c _ _ _ C (closes_but_trans c _ _ _ C3 C4)) as C5.
  set (w4 := update c (with_subs ∅) w3) in *.
  assert (w4.(objs) !! c = Some (with_subs ∅ ch3)) as E4 by (by apply update_here).
  rewrite (deref_some _ _ _ E4). cbn [mbind result_bind].
  eapply returns_mono; [apply (abort_rest_returns (with_subs ∅ ch3)) |].
  { done. } { simpl. by rewrite F3. } { done. }
  { apply (offline_shrinks ch3 (with_subs ∅ ch3)); [| by eapply offline_shrinks, offline_shrinks].
    split; simpl; [reflexivity | done | apply map_empty_subseteq | done | done | done | done]. }
  { by apply H3. }
  { by eapply closes_but_sound. } { eapply closing_alive; [apply C5 | done]. }
  intros w5 [C6 S5]. split; [| done]. by eapply closes_but_trans.
Qed.
End BaseAbort.

Lemma with_error_shrinks e ch : failed ch.(error) = false -> shrinks ch (with_error e ch).
Proof. intros F. split; simpl; [reflexivity | by rewrite F | done | done | done | done | done]. Qed.

Lemma fail_closing c e ch w : w.(objs) !! c = Some ch -> failed ch.(error) = false ->
  closing w (update c (with_error e) w).
Proof.
  intros E F. apply update_closing; intros ch' E'; simplify_eq; [by apply with_error_shrinks | done].
Qed.

Lemma fail_linked c e ch w : w.(objs) !! c = Some ch -> failed ch.(error) = false -> linked None w.(objs) ->
  linked None (update c (with_error e) w).(objs).
Proof.
  intros E F L. eapply linked_same_subs; [by eapply fail_closing | | done]. intros d ch1 ch2 E1 E2.
  destruct (decide (c = d)) as [-> |].
  - rewrite (update_here _ _ _ _ E1) in E2. by simplify_eq.
  - rewrite update_there in E2 by done. by simplify_eq.
Qed.

(** Only the parent of [c] notices that it fails. *)
Lemma fail_tidy c e ch w d : w.(objs) !! c = Some ch -> d <> c -> (forall n, ch.(kind) <> VirtualChannel (Some d) n) ->
  tidy w.(objs) d -> tidy (update c (with_error e) w).(objs) d.
Proof.
  intros E Hd Hk T chd Ed. rewrite update_there in Ed by done. destruct (T chd Ed) as [T1 T2]. split; [done |].
  intros n s chs Hn Es. destruct (decide (c = s)) as [<- | Hne].
  - exfalso. by destruct (T2 n c ch Hn E) as [_ ?%Hk].
  - rewrite update_there in Es by done. by eapply T2.
Qed.

Lemma fail_alive c e ch w : w.(objs) !! c = Some ch -> failed ch.(error) = false -> failed e = true ->
  (size (alive (update c (with_error e) w).(objs)) < size (alive w.(objs)))%nat.
Proof.
  intros E F Fe. apply subset_size. split.
  - apply alive_shrinks, objs_rel_alter; [typeclasses eauto |]. intros ch' E'. simplify_eq. by apply with_error_shrinks.
  - intros H. assert (c ∈ alive w.(objs)) as Hc by (apply elem_of_alive; eauto).
    apply H in Hc. apply elem_of_alive in Hc as (ch' & E' & F'). rewrite (update_here _ _ _ _ E) in E'.
    simplify_eq. simpl in F'. congruence.
Qed.

(** A failed channel may be taken off the list of its parent. *)
Lemma erase_failed_linked c ch p n w : w.(objs) !! c = Some ch -> failed ch.(error) = true -> linked None w.(objs) ->
  (forall pc, w.(objs) !! p = Some pc -> pc.(subChannels) !! n = Some c) ->
  linked None (alter (erase_sub n) p w.(objs)).
Proof.
  intros E F L Hc. eapply linked_shrinks; [apply objs_rel_alter; [typeclasses eauto | intros; apply erase_sub_shrinks] | done |].
  intros d chd q m pc pc' _ Ed He Hk Hp Hp' Hs. destruct (decide (p = q)) as [<- |].
  2: { rewrite lookup_alter_ne in Hp' by done. by simplify_eq. }
  rewrite lookup_alter_eq, Hp in Hp'. injection Hp' as <-. cbn [erase_sub with_subs subChannels].
  destruct (decide (n = m)) as [<- |]; [| by rewrite lookup_delete_ne]. exfalso.
  rewrite (Hc pc Hp) in Hs. simplify_eq. destruct (decide (p = d)) as [<- |].
  - rewrite lookup_alter_eq, Hp in Ed. injection Ed as <-. simplify_eq. cbn in He. by rewrite He in F.
  - rewrite lookup_alter_ne in Ed by done. simplify_eq. by rewrite He in F.
Qed.

(** The list of the parent is in order again once [c] is off it. *)
Lemma fail_erase_tidy c e ch p n w d : w.(objs) !! c = Some ch -> ch.(kind) = VirtualChannel (Some p) n -> d <> c -> p <> c ->
  tidy w.(objs) d -> tidy (update p (erase_sub n) (update c (with_error e) w)).(objs) d.
Proof.
  intros E Ek Hd Hp T. destruct (decide (p = d)) as [<- | Hne].
  - intros pc' Ep'. rewrite update_objs, lookup_alter_eq, update_there in Ep' by done.
    destruct (w.(objs) !! p) as [pc |] eqn:Ep; [| done]. injection Ep' as <-. destruct (T pc Ep) as [T1 T2]. simpl. split.
    { intros F. destruct (T1 F) as [-> Ho]. split; [apply delete_empty | exact Ho]. }
    intros m s chs Hm Es. apply lookup_delete_Some in Hm as [Hnm Hm]. destruct (decide (c = s)) as [<- | Hcs].
    { destruct (T2 m c ch Hm E) as [_ Hk]. rewrite Ek in Hk. by simplify_eq. }
    destruct (decide (p = s)) as [<- | Hps].
    + destruct (T2 m p pc Hm Ep) as [He Hk]. rewrite lookup_alter_eq, lookup_alter_ne, Ep in Es by done.
      by injection Es as <-.
    + rewrite !lookup_alter_ne in Es by done. by eapply T2.
  - eapply tidy_elsewhere; [by rewrite update_there | | apply (fail_tidy c e ch); [done | done | | done]].
    + intros s chs' Es. destruct (decide (p = s)) as [<- |]; [| rewrite update_there in Es by done; eauto].
      rewrite update_objs, lookup_alter_eq in Es. destruct (objs _ !! p) as [pc |] eqn:Ep; [| done].
      injection Es as <-. eauto.
    + intros m Hk. rewrite Ek in Hk. by simplify_eq.
Qed.

(** The part of [abort] that is not common to the two kinds of channels. *)
Lemma leave_returns cur c e ch w : w.(objs) !! c = Some ch -> failed ch.(error) = false -> failed e = true ->
  sound None w.(objs) ->
  let w1 := update c (with_error e) w in
  returns (fun w2 => closes_but c w w2 /\ closing w1 w2 /\ forall ch2, w2.(objs) !! c = Some ch2 -> offline ch2)
    (match ch.(kind) with
     | SocketChannel s => Ret (shutdown cur c s w1)
     | VirtualChannel (Some p) n => cleanChannel p n true w1
     | VirtualChannel None _ => Ret w1
     end).
Proof.
  intros E F Fe S w1. pose proof (fail_closing c e ch w E F) as C. pose proof (fail_linked c e ch w E F (proj1 S)) as L1.
  pose proof (closing_sound None None _ _ C L1 S) as S1.
  assert (forall d, rooted w.(objs) d -> rooted w1.(objs) d) as R1.
  { intros d. apply update_rooted. intros x. split; [done |]. intros He. simpl in He. by rewrite He in Fe. }
  assert (w1.(objs) !! c = Some (with_error e ch)) as E1 by (by apply update_here).
  assert (forall w2, closing w1 w2 -> (forall s, ch.(kind) <> SocketChannel s) ->
            forall ch2, w2.(objs) !! c = Some ch2 -> offline ch2) as Hoff.
  { intros w2 C2 Hk ch2 E2. destruct (objs_rel_fwd _ _ _ _ _ (closing_objs _ _ C2) E1) as (? & E3 & Hsh).
    simplify_eq. eapply offline_shrinks; [done |]. intros s Es. by apply Hk in Es. }
  destruct (kind ch) as [s | [p |] n] eqn:Ek.
  - destruct (shutdown_closes cur c (with_error e ch) s w1) as [C2 Ho]; [done | done | done |].
    split; [| split; [apply C2 | exact Ho]]. split; [etrans; [done | apply C2] | apply C2 | |].
    + intros d Hd T. apply (closes_tidy _ _ _ C2). apply (fail_tidy c e ch); try done. intros n. by rewrite Ek.
    + intros d R. apply (closes_rooted _ _ _ C2). by apply R1.
  - destruct (proj1 S c ch p n) as (Hp & pc & Hpc & Hn); [done | done | by destruct (error ch) | done |].
    eapply returns_mono; [apply (cleanChannel_returns None); [done | apply update_some; by eexists | done |] |].
    + eapply erase_failed_linked; [done | done | done |]. intros pc' Hpc'.
      unfold w1 in Hpc'. rewrite update_there in Hpc' by lia. by simplify_eq.
    + intros w2 C2. assert (closing w1 w2) as C3 by (etrans; [apply erase_closing | apply C2]).
      split; [| split; [done | by apply Hoff]]. split; [by etrans | apply C2 | |].
      * intros d Hd T. apply (closes_tidy _ _ _ C2), (fail_erase_tidy c e ch); try done. lia.
      * intros d R. apply (closes_rooted _ _ _ C2), update_rooted; [done | by apply R1].
  - split; [| split; [done | by apply Hoff]]. split; [done | done | | done]. intros d Hd T.
    apply (fail_tidy c e ch); try done. intros m. by rewrite Ek.
Qed.

Lemma abort_returns fuel : forall cur e c w, (size (alive w.(objs)) < fuel)%nat -> failed e = true ->
  is_Some (w.(objs) !! c) -> sound None w.(objs) ->
  returns (fun w' => closes None w w' /\ forall ch', w'.(objs) !! c = Some ch' -> failed ch'.(error) = true)
    (abort fuel cur e c w).
Proof.
  induction fuel as [| fuel IH]; intros cur e c w Hn Fe [ch E] S; [lia |]. cbn [abort].
  rewrite (deref_some _ _ _ E). cbn [mbind result_bind].
  destruct (failed (error ch)) eqn:F; [split; [apply closes_refl, S | intros; by simplify_eq] |].
  pose proof (fail_alive c e ch w E F Fe) as Ha.
  eapply returns_bind; [by apply leave_returns |]. intros w2 (C & C2 & Ho). cbn beta in C2.
  set (w1 := update c (with_error e) w) in *.
  assert (w1.(objs) !! c = Some (with_error e ch)) as E1 by (by apply update_here).
  destruct (still_failed c w1 w2 _ C2 E1 Fe) as (ch2 & E2 & F2 & _).
  eapply returns_mono; [apply (baseAbort_returns (abort fuel cur) c (fuel - 1)) with (ch := ch2) |].
  - intros e' d w' Fe' Hd S' Hn'. apply IH; try done. lia.
  - done.
  - by rewrite F2.
  - done.
  - by apply Ho.
  - by eapply closes_but_sound.
  - apply (closing_alive (fuel - 1) _ _ C2). lia.
  - intros w3 [C3 S3]. split.
    2: { intros ch3 E3. destruct (still_failed c w2 w3 _ (but_closing _ _ _ C3) E2) as (? & E4 & F4 & _); [by rewrite F2 |].
         simplify_eq. by rewrite F4, F2. }
    destruct (closes_but_trans c _ _ _ C C3) as [Hc Hl Hs Hro]. split; [done | done | | done].
    intros d Sd. destruct (decide (d = c)) as [-> |]; [done | by apply Hs].
Qed.

Lemma abortChannel_returns cur e c w : failed e = true -> is_Some (w.(objs) !! c) -> sound None w.(objs) ->
  returns (fun w' => closes None w w' /\ forall ch', w'.(objs) !! c = Some ch' -> failed ch'.(error) = true)
    (abortChannel cur e c w).
Proof.
  intros Fe E S. unfold abortChannel, abort_fuel. apply abort_returns; try done.
  pose proof (alive_size (objs w)). lia.
Qed.
