(* ===== verification/DataChannelSafety.v ===== *)
(** * Channels: no operation touches an object that is gone

    The invariant of every execution in which the two ends do not use a number twice and
    nobody destroys a connection that a coroutine still waits in: each working channel is
    listed by its parent, strong pointers are good, and every coroutine that waits for a
    packet to be sent waits for one that is queued, being written or answered. *)

From stdpp Require Import gmap sorting.
From S2P Require Import Prelude Queue DataChannel DataChannelProofs.

Implicit Types (w : World) (o : gmap nat Channel) (ch : Channel).

(** A pending channel and the entry with its number are the same channel. *)
Definition pend_ok o : Prop := forall p pc s chs q n s',
  o !! p = Some pc -> Some s ∈ pc.(pendingChannels) -> o !! s = Some chs -> chs.(kind) = VirtualChannel q n ->
  pc.(subChannels) !! n = Some s' -> s' = s.

Definition has_wire o (r : nat) : Prop := exists ch s, o !! r = Some ch /\ ch.(kind) = SocketChannel s.

(** All that holds between two steps; [x] is a channel that is just losing its parent. *)
Record InvBut (x : option nat) w : Prop := {
  inv_sound : sound None w.(objs);
  inv_tidy : forall d, tidy w.(objs) d;
  inv_ids : forall c, is_Some (w.(objs) !! c) -> (c < w.(fresh))%nat;
  inv_weak : forall c ch n s, w.(objs) !! c = Some ch -> ch.(subChannels) !! n = Some s -> (s < w.(fresh))%nat;
  inv_pending : pend_ok w.(objs);
  inv_senders : forall p, p ∈ w.(senders) -> has_wire w.(objs) p.(root);
  inv_awaiting : forall t who, (t, who) ∈ w.(awaiting) -> covered w t;
  inv_rooted : forall d, x <> Some d -> rooted w.(objs) d
}.
Arguments inv_sound {x} w _.
Arguments inv_tidy {x} w _.
Arguments inv_ids {x} w _.
Arguments inv_weak {x} w _.
Arguments inv_pending {x} w _.
Arguments inv_senders {x} w _.
Arguments inv_awaiting {x} w _.
Arguments inv_rooted {x} w _.
Abbreviation Inv := (InvBut None).

Lemma has_wire_shrinks o o' r : objs_rel shrinks o o' -> has_wire o r -> has_wire o' r.
Proof.
  intros H (ch & s & E & Ek). destruct (objs_rel_fwd _ _ _ _ _ H E) as (ch' & E' & [K _ _ _ _ _ _]).
  rewrite Ek in K. destruct (kind ch') as [s' |] eqn:Ek'; [| done]. by exists ch', s'.
Qed.

Lemma pend_ok_shrinks o o' : objs_rel shrinks o o' -> pend_ok o -> pend_ok o'.
Proof.
  intros H P p pc' s chs' q n s' Ep Hs Es Ek Hn.
  destruct (objs_rel_bwd _ _ _ _ _ H Ep) as (pc & Ep' & Hpc).
  destruct (objs_rel_bwd _ _ _ _ _ H Es) as (chs & Es' & [K _ _ _ _ _ _]). rewrite Ek in K.
  destruct (kind chs) as [| q' m] eqn:Ekc; [done |]. simpl in K. destruct K as [-> _].
  apply (P p pc s chs q' m s' Ep' (shrinks_pending _ _ Hpc s Hs) Es' Ekc). eapply lookup_weaken; [done | apply Hpc].
Qed.

Lemma inv_closing x y w w' : InvBut x w -> closing w w' -> linked None w'.(objs) -> (forall d, tidy w'.(objs) d) ->
  (forall d, y <> Some d -> rooted w'.(objs) d) -> InvBut y w'.
Proof.
  intros I C L T Ro. pose proof C as [H Hf Ht Hsn Hs Hc]. destruct I. split; try done.
  - by eapply closing_sound.
  - intros c Hc'. rewrite Hf. by apply inv_ids0, (objs_rel_some _ _ _ c H).
  - intros c ch' n s E' Hn. destruct (objs_rel_bwd _ _ _ _ _ H E') as (ch & E & Hsh). rewrite Hf.
    eapply inv_weak0; [done |]. eapply lookup_weaken; [done | apply Hsh].
  - by eapply pend_ok_shrinks.
  - intros p Hp. eapply has_wire_shrinks; [done |]. auto.
  - intros t who Ht'. eauto.
Qed.

Lemma inv_closes {x} w w' : InvBut x w -> closes None w w' -> InvBut x w'.
Proof.
  intros I [C L T R]. eapply inv_closing; [done | done | done | intros d; apply T, I | intros d Hd; by apply R, I].
Qed.

Lemma inv_some w w' c : closes None w w' -> is_Some (w.(objs) !! c) -> is_Some (w'.(objs) !! c).
Proof. intros C. apply (objs_rel_some _ _ _ c (closing_objs _ _ (closes_closing _ _ _ C))). Qed.

Lemma inv_returns w c r : Inv w -> is_Some (w.(objs) !! c) -> returns (closes None w) r ->
  returns (fun w' => Inv w' /\ closing w w') r.
Proof.
  intros I E H. eapply returns_mono; [done |]. intros w' C. split; [by eapply inv_closes | apply C].
Qed.

(** No object goes away. *)
Definition keeps w w' : Prop := forall d, is_Some (w.(objs) !! d) -> is_Some (w'.(objs) !! d).

#[export] Instance keeps_preorder : PreOrder keeps.
Proof. split; [by intros w d | intros a b c H1 H2 d Hd; auto]. Qed.

Lemma closing_keeps w w' : closing w w' -> keeps w w'.
Proof. intros C d. apply (objs_rel_some _ _ _ d (closing_objs _ _ C)). Qed.

Lemma closes_keeps out w w' : closes out w w' -> keeps w w'.
Proof. intros C. apply closing_keeps, C. Qed.

Lemma update_keeps c f w : keeps w (update c f w).
Proof. intros d. by rewrite update_some. Qed.

#[export] Hint Resolve closing_keeps closes_keeps update_keeps : qtng.

(** ** Sending *)

(** What a call of [sendPacketRaw] may find: its answer is good for [wait_for]. *)
Definition sent_ok (x : Sent * nat * World) : Prop :=
  match x.1.1 with
  | WaitsRoom _ => has_wire x.2.(objs) x.1.2
  | WaitsDone t => covered x.2 t
  | _ => True
  end.

Lemma admit_packet_ok r ch s p w : Inv w -> w.(objs) !! r = Some ch -> ch.(kind) = SocketChannel s ->
  let x := admit_packet r s p w in
  Inv x.2 /\ objs_rel mild w.(objs) x.2.(objs) /\ sent_ok (x.1, r, x.2) /\ x.2.(senders) = w.(senders)
  /\ x.2.(awaiting) = w.(awaiting) /\ (match p.(done) with None => forall t, x.1 <> WaitsDone t | Some _ => x.1 <> Queued end).
Proof.
  intros I E Ek. unfold admit_packet.
  destruct (insert psize true p (sendingQueue s)) as [ok q] eqn:Ei.
  case_match; cbn [fst snd].
  2: { split; [done |]. split; [reflexivity |]. split; [by exists ch, s |]. by destruct (done p). }
  assert (q = (insert psize true p (sendingQueue s)).2) as Hq by (by rewrite Ei).
  destruct (on_wire_closes None r (with_sending q) w) as [C M]; [| apply I |].
  { intros ch' s' E' Es. simplify_eq. rewrite Ek in Es. simplify_eq. apply insert_wire_le. }
  split; [by eapply inv_closes |]. split; [done |]. split; [| split; [done | split; [done |]]].
  - destruct ok; [| done]. destruct (done p) as [t |] eqn:Ed; [| done]. unfold sent_ok. cbn [fst snd].
    right. exists r, (on_wire (with_sending q) ch). split; [by apply update_here |].
    unfold wire_tokens, on_wire. rewrite Ek. simpl. rewrite Hq, insert_back.
    assert (m_closed (sendingQueue s) = false) as ->.
    { pose proof (insert_answer psize true p (sendingQueue s)) as Ha. rewrite Ei in Ha. simpl in Ha. by destruct (m_closed _). }
    rewrite !omap_app. simpl. rewrite Ed. set_solver.
  - destruct ok, (done p); done.
Qed.

Definition bump w : World := mkWorld w.(objs) w.(fresh) (S w.(tokens)) w.(signals) w.(senders) w.(awaiting).

Lemma inv_bump w : Inv w -> Inv (bump w).
Proof. intros []. by split. Qed.

Lemma sendPacketRaw_ok fuel : forall c n data b w, (c < fuel)%nat -> is_Some (w.(objs) !! c) -> Inv w ->
  returns (fun x => Inv x.2 /\ objs_rel mild w.(objs) x.2.(objs) /\ sent_ok x) (sendPacketRaw fuel c n data b w).
Proof.
  induction fuel as [| fuel IH]; intros c n data b w Hc [ch E] I; [lia |]. cbn [sendPacketRaw].
  rewrite (deref_some _ _ _ E). cbn [mbind result_bind].
  assert (Inv w /\ objs_rel mild w.(objs) w.(objs)) as [_ R] by (split; [done | reflexivity]).
  destruct (kind ch) as [s | [p |] m] eqn:Ek; [| | done].
  - destruct (failed (error ch) || (zlen data =? 0)); [done |]. destruct (_ >? _); [done |]. destruct b.
    + destruct (insert _ _ _ _) as [ok q] eqn:Eq. cbn [returns snd].
      destruct (on_wire_closes None c (with_sending q) w) as [C M]; [| apply I |].
      { intros ch' s' E' Es. simplify_eq. rewrite Ek in Es. simplify_eq.
        change q with ((ok, q).2). rewrite <- Eq. apply insert_wire_le. }
      split; [by eapply inv_closes |]. split; [done |]. by destruct ok.
    + destruct (admit_packet_ok c ch s (mkPacket data None n) w I E Ek) as (I' & M & K & _).
      by destruct (admit_packet c s _ w).
    + destruct (admit_packet_ok c ch s (mkPacket data (Some (tokens w)) n) (bump w) (inv_bump w I) E Ek) as (I' & M & K & _).
      unfold bump in *. by destruct (admit_packet c s _ _).
  - destruct (failed (error ch)) eqn:F; [done |]. cbn [orb]. destruct (zlen data =? 0); [done |].
    destruct (proj1 (inv_sound _ I) c ch p m) as (Hp & pc & Hpc & _); [done | done | by destruct (error ch) | done |].
    apply IH; [lia | by eexists | done].
Qed.

Lemma inv_wait_for who x : Inv x.2 -> sent_ok x -> Inv (wait_for who x).
Proof.
  destruct x as [[s r] w]. unfold sent_ok. cbn [fst snd]. intros [] K. destruct s as [| | p | t]; simpl; try (by split).
  - split; try done. simpl. intros q Hq. apply elem_of_app in Hq as [Hq | Hq]; [auto |].
    apply list_elem_of_singleton in Hq. by subst.
  - split; try done. simpl. intros t' who' Hq. apply elem_of_app in Hq as [Hq | Hq].
    + destruct (inv_awaiting0 _ _ Hq) as [|]; [by left | by right].
    + apply list_elem_of_singleton in Hq. simplify_eq. destruct K; [by left | by right].
Qed.

Lemma wait_for_objs who x : (wait_for who x).(objs) = x.2.(objs).
Proof. destruct x as [[[] r] w]; done. Qed.

Lemma sendCommand_ok c data w : is_Some (w.(objs) !! c) -> Inv w ->
  returns (fun w' => Inv w' /\ objs_rel mild w.(objs) w'.(objs) /\ closes None w w') (sendCommand c data w).
Proof.
  intros E I. eapply returns_mono; [apply (sendCommand_returns None); [done | done | apply I] |].
  intros w' [C M]. split; [by eapply inv_closes | done].
Qed.

(** ** Making channels *)

Lemma isBroken_returns fuel : forall c w, (c < fuel)%nat -> is_Some (w.(objs) !! c) -> Inv w ->
  returns (fun b => b = false -> exists ch, w.(objs) !! c = Some ch /\ ch.(error) = NoError) (isBroken fuel c w).
Proof.
  induction fuel as [| fuel IH]; intros c w Hc [ch E] I; [lia |]. cbn [isBroken]. rewrite (deref_some _ _ _ E).
  cbn [mbind result_bind]. destruct (failed (error ch)) eqn:F; [done |].
  assert (ch.(error) = NoError) as He by (by destruct (error ch)).
  destruct (kind ch) as [s | [p |] m] eqn:Ek; [by simpl; eauto | | done].
  destruct (proj1 (inv_sound _ I) c ch p m) as (Hp & pc & Hpc & _); [done | done | done | done |].
  eapply returns_mono; [apply IH; [lia | by eexists | done] |]. eauto.
Qed.

(** [n] names nothing that [c] lists or keeps. *)
Definition unused ch (n : Z) o : Prop :=
  ch.(subChannels) !! n = None
  /\ forall s chs, Some s ∈ ch.(pendingChannels) -> o !! s = Some chs -> number_in chs <> Some n.

Definition add_sub (n : Z) (id : nat) ch : Channel := with_subs (<[n := id]> ch.(subChannels)) ch.

Section Make.
Context (c : nat) (ch new : Channel) (n : Z) (w : World).
Hypothesis I : Inv w.
Hypothesis E : w.(objs) !! c = Some ch.
Hypothesis He : ch.(error) = NoError.
Hypothesis Hn : unused ch n w.(objs).
Hypothesis Kn : new.(kind) = VirtualChannel (Some c) n.
Hypothesis En : new.(error) = NoError.
Hypothesis Sn : new.(subChannels) = ∅.
Hypothesis Pn : new.(pendingChannels) = [].
Hypothesis Gn : new.(pluggedChannel) = None.

Local Abbreviation id := w.(fresh).
Definition made_objs : gmap nat Channel := alter (add_sub n id) c (<[id := new]> w.(objs)).

Lemma fresh_none : w.(objs) !! id = None.
Proof. destruct (w.(objs) !! id) eqn:H; [| done]. pose proof (inv_ids _ I id (mk_is_Some _ _ H)). lia. Qed.

Lemma fresh_ne : c <> id.
Proof. pose proof (inv_ids _ I c (mk_is_Some _ _ E)). lia. Qed.

Lemma made_id : made_objs !! id = Some new.
Proof. unfold made_objs. rewrite lookup_alter_ne by apply fresh_ne. apply lookup_insert_eq. Qed.

Lemma made_c : made_objs !! c = Some (add_sub n id ch).
Proof.
  unfold made_objs. rewrite lookup_alter_eq, lookup_insert_ne; [by rewrite E |]. pose proof fresh_ne. done.
Qed.

Lemma made_inv d ch' : made_objs !! d = Some ch' ->
  (d = id /\ ch' = new) \/ (d = c /\ ch' = add_sub n id ch) \/ (d <> id /\ d <> c /\ w.(objs) !! d = Some ch').
Proof.
  intros H. destruct (decide (d = id)) as [-> | H1]; [left; rewrite made_id in H; by simplify_eq |].
  destruct (decide (d = c)) as [-> | H2]; [right; left; rewrite made_c in H; by simplify_eq |].
  right. right. unfold made_objs in H. rewrite lookup_alter_ne, lookup_insert_ne in H by done. done.
Qed.

(** What was there is there, with its kind, error and references. *)
Lemma made_old d ch0 : w.(objs) !! d = Some ch0 -> exists ch', made_objs !! d = Some ch'
  /\ ch'.(kind) = ch0.(kind) /\ ch'.(error) = ch0.(error) /\ (forall m s, ch0.(subChannels) !! m = Some s -> ch'.(subChannels) !! m = Some s).
Proof.
  intros H. assert (d <> id) as Hd by (intros ->; by rewrite fresh_none in H).
  destruct (decide (d = c)) as [-> | H2].
  - simplify_eq. exists (add_sub n id ch). split; [apply made_c |]. split; [done |]. split; [done |].
    intros m s Hm. simpl. rewrite lookup_insert_ne; [done |]. intros ->. destruct Hn as [Hn' _]. congruence.
  - exists ch0. unfold made_objs. by rewrite lookup_alter_ne, lookup_insert_ne by done.
Qed.

Lemma made_strong d ch' s : made_objs !! d = Some ch' -> s ∈ strong ch' -> is_Some (w.(objs) !! s).
Proof.
  intros H Hs. destruct (proj2 (inv_sound _ I)) as (R & _). destruct (made_inv _ _ H) as [[-> ->] | [[-> ->] | (_ & _ & H')]].
  - unfold strong in Hs. rewrite Kn, Pn, Gn in Hs. simpl in Hs. set_solver.
  - by apply (R c ch s E).
  - by apply (R d ch' s H').
Qed.

Lemma made_linked : linked None made_objs.
Proof.
  intros d ch' p m _ H Hd Hk. pose proof (proj1 (inv_sound _ I)) as L.
  destruct (made_inv _ _ H) as [[-> ->] | [[-> ->] | (_ & _ & H')]].
  - rewrite Kn in Hk. simplify_eq. split; [by apply (inv_ids _ I); eexists |].
    exists (add_sub n id ch). split; [apply made_c |]. simpl. apply lookup_insert_eq.
  - destruct (L c ch p m) as (Hp & pc & Ep & Hs); [done | done | done | done |]. split; [done |].
    destruct (made_old p pc Ep) as (pc' & Ep' & _ & _ & Hsub). eauto.
  - destruct (L d ch' p m) as (Hp & pc & Ep & Hs); [done | done | done | done |]. split; [done |].
    destruct (made_old p pc Ep) as (pc' & Ep' & _ & _ & Hsub). eauto.
Qed.

Lemma made_sub p pc' m s : made_objs !! p = Some pc' -> pc'.(subChannels) !! m = Some s ->
  (p = c /\ m = n /\ s = id)
  \/ exists pc, w.(objs) !! p = Some pc /\ pc.(subChannels) !! m = Some s /\ pc'.(error) = pc.(error) /\ pc'.(kind) = pc.(kind) /\ (s < id)%nat.
Proof.
  intros H Hm. destruct (made_inv _ _ H) as [[-> ->] | [[-> ->] | (_ & _ & H')]].
  - by rewrite Sn in Hm.
  - simpl in Hm. destruct (decide (n = m)) as [<- | Hne]; [left; rewrite lookup_insert_eq in Hm; by simplify_eq |].
    rewrite lookup_insert_ne in Hm by done. right. exists ch. repeat split; try done. by eapply (inv_weak _ I).
  - right. exists pc'. repeat split; try done. by eapply (inv_weak _ I).
Qed.

(** Objects other than the new one have the same kind and error as before. *)
Lemma made_before s chs' : made_objs !! s = Some chs' -> (s < id)%nat ->
  exists chs, w.(objs) !! s = Some chs /\ chs'.(kind) = chs.(kind) /\ chs'.(error) = chs.(error)
  /\ chs'.(pendingChannels) = chs.(pendingChannels).
Proof.
  intros H Hs. destruct (made_inv _ _ H) as [[-> ->] | [[-> ->] | (_ & _ & H')]]; [lia | | eauto]. by exists ch.
Qed.

Lemma made_pending p pc' s : made_objs !! p = Some pc' -> Some s ∈ pc'.(pendingChannels) ->
  exists pc, w.(objs) !! p = Some pc /\ Some s ∈ pc.(pendingChannels) /\ (s < id)%nat.
Proof.
  intros H Hs. assert (is_Some (w.(objs) !! s)) as Es.
  { eapply made_strong; [done |]. unfold strong. apply elem_of_app. left. apply list_elem_of_omap. by exists (Some s). }
  apply (inv_ids _ I) in Es. destruct (made_inv _ _ H) as [[-> ->] | [[-> ->] | (_ & _ & H')]]; [| by eauto..].
  rewrite Pn in Hs. set_solver.
Qed.

Lemma made_owned : owned made_objs.
Proof.
  destruct (inv_sound _ I) as (_ & _ & _ & O). intros p pc' s chs' Ep Es. split.
  - intros m Hm. destruct (made_sub _ _ _ _ Ep Hm) as [(-> & -> & ->) | (pc & Ep' & Hm' & _ & _ & Hlt)].
    + rewrite made_id in Es. simplify_eq. unfold child_of, number_in. rewrite Kn. eauto 6.
    + destruct (made_before _ _ Es Hlt) as (chs & Es' & Hk & _). unfold child_of, number_in. rewrite Hk.
      by apply (O p pc s chs Ep' Es').
  - intros Hp. destruct (made_pending _ _ _ Ep Hp) as (pc & Ep' & Hp' & Hlt).
    destruct (made_before _ _ Es Hlt) as (chs & Es' & Hk & _). unfold child_of. rewrite Hk. by apply (O p pc s chs Ep' Es').
Qed.

Lemma made_tidy d : tidy made_objs d.
Proof.
  intros ch' Ed. split.
  - intros F. destruct (made_inv _ _ Ed) as [[-> ->] | [[-> ->] | (_ & _ & H')]].
    + by rewrite En in F.
    + simpl in F. by rewrite He in F.
    + by apply (inv_tidy _ I d ch' H').
  - intros m s chs' Hm Es. destruct (made_sub _ _ _ _ Ed Hm) as [(-> & -> & ->) | (pc & Ep' & Hm' & _ & _ & Hlt)].
    + rewrite made_id in Es. simplify_eq. by rewrite En, Kn.
    + destruct (made_before _ _ Es Hlt) as (chs & Es' & -> & -> & _). by apply (proj2 (inv_tidy _ I d pc Ep') m s chs).
Qed.

Lemma made_pend_ok : pend_ok made_objs.
Proof.
  intros p pc' s chs' q m s' Ep Hs Es Ek Hm. destruct (made_pending _ _ _ Ep Hs) as (pc & Ep' & Hs' & Hlt).
  destruct (made_before _ _ Es Hlt) as (chs & Es' & Hk & _). rewrite Hk in Ek.
  destruct (made_sub _ _ _ _ Ep Hm) as [(-> & -> & ->) | (pc2 & Ep2 & Hm' & _)].
  - exfalso. destruct Hn as [_ Hu]. rewrite E in Ep'. simplify_eq. apply (Hu s chs Hs' Es'). unfold number_in. by rewrite Ek.
  - rewrite Ep' in Ep2. simplify_eq. by apply (inv_pending _ I p pc2 s chs q m s').
Qed.

Lemma made_Inv : Inv (mkWorld made_objs (S id) w.(tokens) w.(signals) w.(senders) w.(awaiting)).
Proof.
  split; simpl.
  - split; [apply made_linked |]. destruct (inv_sound _ I) as (_ & R & W & _). split; [| split; [| apply made_owned]].
    + intros d ch' s Ed Hs. destruct (made_strong _ _ _ Ed Hs) as [chs Es].
      destruct (made_old _ _ Es) as (chs' & Es' & _). by eexists.
    + intros d ch' s Ed Ek. destruct (made_inv _ _ Ed) as [[-> ->] | [[-> ->] | (_ & _ & H')]].
      * by rewrite Kn in Ek.
      * by apply (W c ch).
      * by apply (W d ch').
  - apply made_tidy.
  - intros d [ch' Ed]. destruct (made_inv _ _ Ed) as [[-> ->] | [[-> ->] | (_ & _ & H')]]; [lia | |].
    + pose proof (inv_ids _ I c (mk_is_Some _ _ E)). lia.
    + pose proof (inv_ids _ I d (mk_is_Some _ _ H')). lia.
  - intros d ch' m s Ed Hm. destruct (made_sub _ _ _ _ Ed Hm) as [(-> & -> & ->) | (pc & _ & _ & _ & _ & Hlt)]; lia.
  - apply made_pend_ok.
  - intros p Hp. destruct (inv_senders _ I p Hp) as (ch0 & s & E0 & Ek). destruct (made_old _ _ E0) as (ch' & E' & Hk & _).
    exists ch', s. by rewrite Hk.
  - intros t who Ht. destruct (inv_awaiting _ I t who Ht) as [| (d & ch0 & E0 & Ht')]; [by left | right].
    destruct (made_old _ _ E0) as (ch' & E' & Hk & _). exists d, ch'. split; [done |]. unfold wire_tokens. by rewrite Hk.
  - intros d _ ch' m Ed Hw Hk. destruct (made_inv _ _ Ed) as [[-> ->] | [[-> ->] | (_ & _ & H')]].
    + congruence.
    + by apply (inv_rooted _ I c ltac:(done) ch m).
    + by apply (inv_rooted _ I d ltac:(done) ch' m).
Qed.
End Make.

(** Changes that leave alone what channels there are and who lists whom. *)
Definition kind_alike (k k' : Kind) : Prop :=
  match k, k' with
  | SocketChannel s, SocketChannel s' =>
      (wire_ok s -> wire_ok s') /\ (s'.(connected) = true -> s.(connected) = true) /\ owes s ⊆ owes s'
  | VirtualChannel _ _, VirtualChannel _ _ => k' = k
  | _, _ => False
  end.

Record alike ch ch' : Prop := {
  alike_kind : kind_alike ch.(kind) ch'.(kind);
  alike_error : ch'.(error) = ch.(error);
  alike_subs : ch'.(subChannels) = ch.(subChannels);
  alike_shut : shut ch -> shut ch'
}.

Lemma alike_virtual ch ch' p n : alike ch ch' -> ch'.(kind) = VirtualChannel p n <-> ch.(kind) = VirtualChannel p n.
Proof. intros [K _ _]. destruct (kind ch), (kind ch'); simpl in K; [by split | done | done | by rewrite K]. Qed.

Lemma alike_child p ch ch' : alike ch ch' -> (child_of p ch <-> child_of p ch') /\ number_in ch' = number_in ch.
Proof.
  intros [K _ _]. unfold child_of, number_in. destruct (kind ch), (kind ch'); simpl in K; try done.
  - split; [| done]. by split; intros (? & ? & ? & _).
  - by simplify_eq.
Qed.

(** The references of an object, and its pending channels, may be others as long as they
    are good. *)
Lemma inv_alike w w' : objs_rel alike w.(objs) w'.(objs) ->
  (forall d ch' s, w'.(objs) !! d = Some ch' -> s ∈ strong ch' -> is_Some (w.(objs) !! s)) ->
  (forall p pc' s chs, w'.(objs) !! p = Some pc' -> Some s ∈ pc'.(pendingChannels) -> w.(objs) !! s = Some chs ->
     child_of p chs /\ forall n s', number_in chs = Some n -> pc'.(subChannels) !! n = Some s' -> s' = s) ->
  w'.(fresh) = w.(fresh) -> w'.(senders) = w.(senders) -> w'.(awaiting) = w.(awaiting) -> w'.(signals) = w.(signals) ->
  Inv w -> Inv w'.
Proof.
  intros H HR HP Hf Hs Ha Hg [(L & R & W & O) T D K P N A Ro].
  assert (forall d ch', w'.(objs) !! d = Some ch' -> exists ch, w.(objs) !! d = Some ch /\ alike ch ch') as B.
  { intros d ch'. by apply objs_rel_bwd. }
  assert (forall d, is_Some (w.(objs) !! d) <-> is_Some (w'.(objs) !! d)) as B' by (intros d; by eapply objs_rel_some).
  split; rewrite ?Hf, ?Hs, ?Ha.
  - split; [| split; [| split]].
    + intros c ch' p n _ E He Hk. destruct (B _ _ E) as (ch & E0 & Hal). rewrite (alike_virtual _ _ _ _ Hal) in Hk.
      destruct (L c ch p n) as (Hp & pc & Ep & Hn); [done | done | by rewrite <- (alike_error _ _ Hal) | done |]. split; [done |].
      destruct (objs_rel_fwd _ _ _ _ _ H Ep) as (pc' & Ep' & Hpc). exists pc'. split; [done |]. by rewrite (alike_subs _ _ Hpc).
    + intros c ch' s E Hin. by apply B', (HR c ch' s).
    + intros c ch' s' E Ek. destruct (B _ _ E) as (ch & E0 & [Hk _ _ _]). rewrite Ek in Hk.
      destruct (kind ch) as [s |] eqn:Ek0; [| done]. destruct Hk as (Hw & _). apply Hw. by eapply W.
    + intros p pc' s chs' Ep Es. destruct (B _ _ Ep) as (pc & Ep0 & Hpc), (B _ _ Es) as (chs & Es0 & Hcs).
      destruct (alike_child p _ _ Hcs) as [Hc Hm]. rewrite (alike_subs _ _ Hpc), Hm. destruct (O p pc s chs Ep0 Es0) as [O1 _].
      split; [intros n Hn; rewrite <- Hc; by apply O1 | intros Hin; apply Hc; by apply (HP p pc' s chs)].
  - intros d ch' E. destruct (B _ _ E) as (ch & E0 & [Hk He Hsub Hsh]). destruct (T d ch E0) as [T1 T2]. rewrite He, Hsub. split.
    + intros F. destruct (T1 F) as [-> [Ho Hs2]]. split; [done |]. split; [| by apply Hsh]. intros s' Es'. rewrite Es' in Hk.
      destruct (kind ch) as [s |] eqn:Ek0; [| done]. destruct Hk as (_ & Hc & _). specialize (Ho s Ek0).
      destruct (connected s'); [| done]. by rewrite Hc in Ho.
    + intros n s chs' Hn Es. destruct (B _ _ Es) as (chs & Es0 & Hcs). rewrite (alike_error _ _ Hcs), (alike_virtual _ _ _ _ Hcs).
      by apply (T2 n s chs).
  - intros c Hc. by apply D, B'.
  - intros c ch' n s E Hn. destruct (B _ _ E) as (ch & E0 & Hsm). rewrite (alike_subs _ _ Hsm) in Hn. by eapply K.
  - intros p pc' s chs' q n s' Ep Hp Es Ek Hn. destruct (B _ _ Es) as (chs & Es0 & Hcs).
    rewrite (alike_virtual _ _ _ _ Hcs) in Ek. apply (proj2 (HP p pc' s chs Ep Hp Es0) n); [unfold number_in; by rewrite Ek | done].
  - intros p Hp. destruct (N p Hp) as (ch & s & E0 & Ek). destruct (objs_rel_fwd _ _ _ _ _ H E0) as (ch' & E' & [Hk _ _ _]).
    rewrite Ek in Hk. destruct (kind ch') as [s' |] eqn:Ek'; [| done]. by exists ch', s'.
  - intros t who Ht. destruct (A t who Ht) as [Hin | (d & ch & E0 & Hin)]; [left; by rewrite Hg | right].
    destruct (objs_rel_fwd _ _ _ _ _ H E0) as (ch' & E' & [Hk _ _ _]). exists d, ch'. split; [done |].
    unfold wire_tokens in *. destruct (kind ch), (kind ch'); try done. by apply Hk.
  - intros d Hd ch' n E' He Hk. destruct (B _ _ E') as (ch & E0 & Hal). rewrite (alike_error _ _ Hal) in He.
    rewrite (alike_virtual _ _ _ _ Hal) in Hk. by apply (Ro d Hd ch n).
Qed.

Lemma kind_alike_refl k : kind_alike k k.
Proof. by destruct k. Qed.

Lemma alike_alter (f : Channel -> Channel) c o : (forall ch, o !! c = Some ch -> alike ch (f ch)) ->
  objs_rel alike o (alter f c o).
Proof.
  intros H d. destruct (decide (c = d)) as [-> |].
  - rewrite lookup_alter_eq. destruct (o !! d); constructor. by apply H.
  - rewrite lookup_alter_ne by done. destruct (o !! d); constructor. split; [apply kind_alike_refl | done | done | done].
Qed.

Lemma pending_good w c ch s chs : Inv w -> w.(objs) !! c = Some ch -> Some s ∈ ch.(pendingChannels) ->
  w.(objs) !! s = Some chs ->
  child_of c chs /\ forall n s', number_in chs = Some n -> ch.(subChannels) !! n = Some s' -> s' = s.
Proof.
  intros I E Hs Es. destruct (inv_sound _ I) as (_ & _ & _ & O). split; [by apply (O c ch s chs) |].
  intros n s' Hn Hs'. unfold number_in in Hn. destruct (kind chs) as [| q m] eqn:Ek; [done |]. simplify_eq.
  by apply (inv_pending _ I c ch s chs q n s').
Qed.

(** One object changes; only its references and pending channels need looking at. *)
Lemma inv_update_alike c f ch w : Inv w -> w.(objs) !! c = Some ch -> alike ch (f ch) ->
  (forall s, s ∈ strong (f ch) -> is_Some (w.(objs) !! s)) ->
  (forall s chs, Some s ∈ (f ch).(pendingChannels) -> w.(objs) !! s = Some chs ->
     child_of c chs /\ forall n s', number_in chs = Some n -> ch.(subChannels) !! n = Some s' -> s' = s) ->
  Inv (update c f w).
Proof.
  intros I E Ha Hr Hp. eapply (inv_alike w); try done.
  - apply alike_alter. intros. by simplify_eq.
  - intros d ch' s Ed Hs. destruct (decide (c = d)) as [<- |].
    + rewrite (update_here _ _ _ _ E) in Ed. injection Ed as <-. by apply Hr.
    + rewrite update_there in Ed by done. destruct (inv_sound _ I) as (_ & R & _). by eapply R.
  - intros p pc' s chs Ed Hs Es. destruct (decide (c = p)) as [<- |].
    + rewrite (update_here _ _ _ _ E) in Ed. injection Ed as <-. rewrite (alike_subs _ _ Ha). by apply Hp.
    + rewrite update_there in Ed by done. by apply (pending_good w).
Qed.

(** Changes to what the invariant does not speak of: queues of packets, gates, takers. *)
Record same ch ch' : Prop := {
  same_kind : ch'.(kind) = ch.(kind);
  same_error : ch'.(error) = ch.(error);
  same_subs : ch'.(subChannels) = ch.(subChannels);
  same_pending : ch'.(pendingChannels) = ch.(pendingChannels);
  same_plug : ch'.(pluggedChannel) = ch.(pluggedChannel);
  same_shut : shut ch -> shut ch'
}.

Lemma with_objs_id w : with_objs w.(objs) w = w.
Proof. by destruct w. Qed.

Lemma inv_update_same c f w : (forall ch, same ch (f ch)) -> Inv w -> Inv (update c f w).
Proof.
  intros H I. destruct (w.(objs) !! c) as [ch |] eqn:E.
  2: { unfold update. by rewrite alter_id, with_objs_id by (by intros ch' E'; simplify_eq). }
  destruct (H ch) as [Hk He Hs Hp Hg Hsh]. eapply inv_update_alike; [done | done | | |].
  - split; [rewrite Hk; apply kind_alike_refl | done | done | done].
  - intros s. unfold strong. rewrite Hk, Hp, Hg. destruct (inv_sound _ I) as (_ & R & _). by apply (R c ch s E).
  - intros s chs. rewrite Hp. intros. by apply (pending_good w).
Qed.

Lemma inv_received c ch q slow w : Inv w -> w.(objs) !! c = Some ch ->
  (ch.(receivingQueue).(m_closed) = true -> q.(m_closed) = true) -> Inv (update c (with_received q slow) w).
Proof.
  intros I E H. eapply inv_update_alike; [done | done | split; [apply kind_alike_refl | done | done | done] | |].
  - intros s. destruct (inv_sound _ I) as (_ & R & _). by apply (R c ch s E).
  - intros s chs. exact (pending_good w c ch s chs I E).
Qed.

Lemma deliver_same payload ch : same ch (deliver payload ch).
Proof. split; try done. unfold shut, deliver. simpl. by rewrite insert_closed. Qed.

Lemma makeChannelInternal_ok c pole n ch w : Inv w -> w.(objs) !! c = Some ch -> ch.(error) = NoError ->
  unused ch n w.(objs) ->
  returns (fun x => Inv x.2 /\ x.1 = w.(fresh) /\ (exists new, x.2.(objs) !! x.1 = Some new
             /\ new.(kind) = VirtualChannel (Some c) n)
           /\ x.2.(objs) !! c = Some (add_sub n x.1 ch) /\ keeps w x.2) (makeChannelInternal c pole n w).
Proof.
  intros I E He Hn. unfold makeChannelInternal. rewrite (deref_some _ _ _ E). cbn [mbind result_bind returns].
  set (new := with_received _ _ _).
  pose proof (made_Inv c ch new n w I E He Hn eq_refl eq_refl eq_refl eq_refl eq_refl) as I'.
  split; [exact I' |]. split; [done |]. split.
  - exists new. split; [apply (made_id c ch new n w I E) | done].
  - split; [apply (made_c c ch new n w I E) |]. intros d [ch0 E0].
    destruct (made_old c ch new n w I E Hn eq_refl d ch0 E0) as (ch' & E' & _). by exists ch'.
Qed.

Lemma makeChannel_ok c w : Inv w -> is_Some (w.(objs) !! c) ->
  (forall ch, w.(objs) !! c = Some ch -> unused ch ch.(nextChannelNumber) w.(objs)) ->
  returns (fun x => Inv x.2) (makeChannel c w).
Proof.
  intros I [ch E] Hu. unfold makeChannel. eapply returns_bind; [apply isBroken_returns; [lia | by eexists | done] |].
  intros [] Hb; [done |]. destruct (Hb eq_refl) as (ch' & E' & He). simplify_eq.
  rewrite (deref_some _ _ _ E). cbn [mbind result_bind].
  set (w1 := update c _ w). set (ch1 := with_next (u32 (nextChannelNumber ch + pole ch)) ch).
  assert (Inv w1) as I1 by (by apply inv_update_same).
  assert (w1.(objs) !! c = Some ch1) as E1 by (by apply update_here).
  eapply returns_bind; [apply (makeChannelInternal_ok c PositivePole (nextChannelNumber ch) ch1 w1 I1 E1 He) |].
  - destruct (Hu ch E) as [H1 H2]. split; [done |]. intros s chs Hs Es. unfold w1 in Es.
    destruct (decide (c = s)) as [<- |]; [| rewrite update_there in Es by done; by eapply H2].
    rewrite (update_here _ _ _ _ E) in Es. simplify_eq. by apply (H2 c ch).
  - intros [id w2] (I2 & _ & _ & E2 & _). cbn [fst snd] in *.
    eapply returns_bind; [apply sendCommand_ok; [by eexists | done] |]. by intros w3 (I3 & _).
Qed.

(** [pendingChannels.push_back] and [notify] of a new child. *)
Definition push_pending (id : nat) ch : Channel :=
  with_pending (ch.(pendingChannels) ++ [Some id]) (notify ch.(pendingChannelsNotEmpty)) ch.

Lemma push_ok c id ch chs w : Inv w -> w.(objs) !! c = Some ch -> w.(objs) !! id = Some chs -> child_of c chs ->
  (forall m s, number_in chs = Some m -> ch.(subChannels) !! m = Some s -> s = id) ->
  Inv (update c (push_pending id) w).
Proof.
  intros I E Ei Hc Hm.
  assert (forall s, Some s ∈ (push_pending id ch).(pendingChannels) -> Some s ∈ ch.(pendingChannels) \/ s = id) as Q.
  { intros s Hs. simpl in Hs. apply elem_of_app in Hs as [| Hs]; [by left |]. apply list_elem_of_singleton in Hs.
    simplify_eq. by right. }
  eapply inv_update_alike; [done | done | | |].
  - split; [apply kind_alike_refl | done | done | done].
  - intros s Hs. unfold strong in Hs. simpl in Hs. rewrite omap_app in Hs. simpl in Hs.
    destruct (inv_sound _ I) as (_ & R & _).
    assert (s ∈ strong ch \/ s = id) as [Hin | ->]; [unfold strong; set_solver | by apply (R c ch s E) | by eexists].
  - intros s chs' Hs Es. apply Q in Hs as [Hs | ->]; [by apply (pending_good w) | by simplify_eq].
Qed.

Lemma pop_mild p rest ch : ch.(pendingChannels) = p :: rest ->
  mild ch (with_pending rest ch.(pendingChannelsNotEmpty) ch)
  /\ pending_load ch = S (pending_load (with_pending rest ch.(pendingChannelsNotEmpty) ch)).
Proof.
  intros H. split; [| unfold pending_load; simpl; by rewrite H].
  split; [split; simpl | simpl; by destruct (kind ch) | done | done]; [reflexivity | done | done | | | | done].
  - unfold strong. simpl. rewrite H. destruct p; simpl; set_solver.
  - rewrite H. set_solver.
  - unfold pending_load. simpl. rewrite H. simpl. lia.
Qed.

Lemma pop_closes c p rest ch w : w.(objs) !! c = Some ch -> ch.(pendingChannels) = p :: rest -> linked None w.(objs) ->
  closes None w (update c (with_pending rest ch.(pendingChannelsNotEmpty)) w).
Proof.
  intros E H L. apply update_mild; [| | done]; intros ch' E'; simplify_eq; [by eapply pop_mild | done].
Qed.

Lemma abort_ok cur e c w : Inv w -> failed e = true -> is_Some (w.(objs) !! c) ->
  returns (fun w' => Inv w' /\ closes None w w') (abortChannel cur e c w).
Proof.
  intros I F E. eapply returns_mono; [apply abortChannel_returns; [done | done | apply I] |].
  intros w' [C _]. split; [by eapply inv_closes | done].
Qed.

Lemma drop_oldest_ok fuel : forall cur c ch w, Inv w -> w.(objs) !! c = Some ch -> (pending_load ch <= fuel)%nat ->
  returns (fun w' => Inv w' /\ closes None w w') (drop_oldest fuel cur c w).
Proof.
  induction fuel as [| fuel IH]; intros cur c ch w I E Hf; cbn [drop_oldest]; rewrite (deref_some _ _ _ E); cbn [mbind result_bind];
    destruct (pendingChannels ch) as [| p rest] eqn:Ep; try (split; [done | apply closes_refl, I]).
  { unfold pending_load in Hf. rewrite Ep in Hf. simpl in Hf. lia. }
  destruct (_ >? _); [| split; [done | apply closes_refl, I]].
  destruct (pop_mild p rest ch Ep) as [_ Hl]. pose proof (pop_closes c p rest ch w E Ep (proj1 (inv_sound _ I))) as C1.
  set (ch1 := with_pending rest (pendingChannelsNotEmpty ch) ch) in *. set (w1 := update c _ w) in *.
  assert (w1.(objs) !! c = Some ch1) as E1 by exact (update_here c (with_pending rest (pendingChannelsNotEmpty ch)) w ch E).
  pose proof (inv_closes _ _ I C1) as I1.
  assert (returns (fun w' => Inv w' /\ closes None w1 w')
    (match p with Some s => abortChannel cur PendingChannelLimitError s w1 | None => Ret w1 end)) as H2.
  { destruct p as [s |]; [| split; [done | apply closes_refl, I1]]. apply abort_ok; [done | done |].
    eapply inv_some; [done |]. eapply pending_refs; [apply I | done |]. rewrite Ep. set_solver. }
  eapply returns_bind; [apply H2 |]. intros w2 [I2 C2].
  destruct (objs_rel_fwd _ _ _ _ _ (closing_objs _ _ (closes_closing _ _ _ C2)) E1) as (ch2 & E2 & Hsh).
  eapply returns_mono; [apply (IH cur c ch2 w2 I2 E2) |].
  - pose proof (shrinks_load _ _ Hsh). lia.
  - intros w3 [I3 C3]. split; [done |]. exact (closes_trans _ _ _ _ C1 (closes_trans _ _ _ _ C2 C3)).
Qed.

Lemma enqueuePendingChannel_ok cur c id ch chs w : Inv w -> w.(objs) !! c = Some ch -> w.(objs) !! id = Some chs ->
  child_of c chs -> (forall m s, number_in chs = Some m -> ch.(subChannels) !! m = Some s -> s = id) ->
  returns (fun w' => Inv w' /\ keeps w w') (enqueuePendingChannel cur c id w).
Proof.
  intros I E Ei Hc Hm. unfold enqueuePendingChannel. change (fun ch => with_pending _ _ ch) with (push_pending id).
  pose proof (push_ok c id ch chs w I E Ei Hc Hm) as I1.
  assert ((update c (push_pending id) w).(objs) !! c = Some (push_pending id ch)) as E1 by (by apply update_here).
  rewrite (deref_some _ _ _ E1). cbn [mbind result_bind]. destruct (_ =? 0); [split; [done | apply update_keeps] |].
  eapply returns_mono; [by apply (drop_oldest_ok _ cur c _ _ I1 E1) |].
  intros w' [I2 C2]. split; [done |]. etrans; [apply update_keeps | by eapply closes_keeps].
Qed.

(** ** Commands *)

Lemma find_pending_spec n w l i s : find_pending n l w = Some (i, s) -> Some s ∈ l /\ number_of s w = Some n.
Proof.
  revert i. induction l as [| p l IH]; intros i; simpl; [done |]. destruct p as [t |].
  - case_bool_decide as Ht; [intros; simplify_eq; split; [set_solver | done] |].
    destruct (find_pending n l w) as [[j u] |]; simpl; [| done]. intros. simplify_eq. destruct (IH j eq_refl). set_solver.
  - destruct (find_pending n l w) as [[j u] |]; simpl; [| done]. intros. simplify_eq. destruct (IH j eq_refl). set_solver.
Qed.

Lemma peekChannel_ok c n ch w : Inv w -> w.(objs) !! c = Some ch ->
  returns (fun p => forall s, p = Some s -> Some s ∈ ch.(pendingChannels) /\ number_of s w = Some n) (peekChannel c n w).
Proof.
  intros I E. unfold peekChannel. eapply returns_bind; [apply isBroken_returns; [lia | by eexists | done] |].
  intros [] _; [by simpl |]. rewrite (deref_some _ _ _ E). cbn [mbind result_bind returns]. intros s Hs.
  destruct (find_pending n _ w) as [[i t] |] eqn:Hf; simpl in Hs; simplify_eq. by eapply find_pending_spec.
Qed.

Lemma number_of_in s w n : number_of s w = Some n -> exists chs, w.(objs) !! s = Some chs /\ number_in chs = Some n.
Proof. unfold number_of, number_in. destruct (w.(objs) !! s) as [chs |]; [| done]. simpl. eauto. Qed.

Lemma handleMake_ok cur c n ch w : Inv w -> w.(objs) !! c = Some ch -> ch.(error) = NoError ->
  (forall s chs, Some s ∈ ch.(pendingChannels) -> w.(objs) !! s = Some chs -> number_in chs <> Some n) ->
  returns (fun x => Inv x.2 /\ keeps w x.2) (handleMake cur c n w).
Proof.
  intros I E He Hu. unfold handleMake. rewrite (deref_some _ _ _ E). cbn [mbind result_bind].
  destruct (subChannels ch !! n) eqn:En; [by split |].
  eapply returns_bind; [by apply (makeChannelInternal_ok c NegativePole n ch w I E He) |].
  intros [id w1] (I1 & _ & (new & E1 & K1) & Ec & P1). cbn [fst snd] in *.
  eapply returns_bind; [apply sendCommand_ok; [by eexists | done] |]. intros w2 (I2 & M2 & C2).
  destruct (objs_rel_fwd _ _ _ _ _ M2 Ec) as (ch2 & Ec2 & [_ _ Hs _]).
  destruct (objs_rel_fwd _ _ _ _ _ M2 E1) as (new2 & E2 & [_ Hk _ _]). rewrite K1 in Hk.
  destruct (kind new2) as [| q m] eqn:K2; [done |]. simpl in Hk. simplify_eq.
  eapply returns_bind; [apply (enqueuePendingChannel_ok cur c id ch2 new2 w2 I2 Ec2 E2) |].
  - exists (Some c), n. auto.
  - intros m s. unfold number_in. rewrite K2, Hs. intros [= <-]. simpl. rewrite lookup_insert_eq. congruence.
  - intros w3 [I3 P3]. split; [done |]. etrans; [done |]. etrans; [by eapply closes_keeps | done].
Qed.

Lemma erase_tidy c n w d : tidy w.(objs) d -> tidy (update c (erase_sub n) w).(objs) d.
Proof.
  intros T ch' E'.
  assert (forall s chs', (update c (erase_sub n) w).(objs) !! s = Some chs' ->
    exists chs, w.(objs) !! s = Some chs /\ chs'.(error) = chs.(error) /\ chs'.(kind) = chs.(kind)
      /\ (chs' = chs \/ chs' = erase_sub n chs)) as B.
  { intros s chs' Es. destruct (decide (c = s)) as [-> |]; [| rewrite update_there in Es by done; by eauto 6].
    rewrite update_objs, lookup_alter_eq in Es. destruct (w.(objs) !! s) as [chs |]; [| done]. injection Es as <-. eauto 6. }
  destruct (B _ _ E') as (ch & E & He & Hk & Hs). destruct (T ch E) as [T1 T2]. split.
  - rewrite He. intros F. destruct (T1 F) as [H [Ho Hs2]]. unfold offline. rewrite Hk. split; [| by destruct Hs as [-> | ->]].
    destruct Hs as [-> | ->]; [done |]. simpl. by rewrite H, delete_empty.
  - intros m s chs' Hm Es. destruct (B _ _ Es) as (chs & Es0 & -> & -> & _). eapply T2; [| done].
    destruct Hs as [-> | ->]; [done |]. simpl in Hm. by apply lookup_delete_Some in Hm as [_ ?].
Qed.

(** An entry that nobody working needs may go. *)
Lemma erase_closes c n w : linked None w.(objs) ->
  (forall ch d chd, w.(objs) !! c = Some ch -> ch.(subChannels) !! n = Some d -> w.(objs) !! d = Some chd ->
     chd.(error) = NoError -> chd.(kind) <> VirtualChannel (Some c) n) ->
  closes None w (update c (erase_sub n) w).
Proof.
  intros L H. split; [apply erase_closing | | intros d; apply erase_tidy | intros d; by apply update_rooted].
  eapply linked_shrinks; [apply (erase_closing c n w) | done |]. intros d chd p m pc pc' _ Ed He Hk Hp Hp' Hs.
  destruct (decide (c = p)) as [<- |]; [| rewrite update_there in Hp' by done; by simplify_eq].
  rewrite (update_here _ _ _ _ Hp) in Hp'. injection Hp' as <-. simpl.
  destruct (decide (n = m)) as [<- |]; [| by rewrite lookup_delete_ne]. exfalso.
  destruct (decide (c = d)) as [<- |].
  - rewrite (update_here _ _ _ _ Hp) in Ed. injection Ed as <-. by apply (H pc c pc).
  - rewrite update_there in Ed by done. by apply (H pc d chd).
Qed.

Lemma handleMade_ok c n w : Inv w -> is_Some (w.(objs) !! c) -> returns (fun x => Inv x.2 /\ keeps w x.2) (handleMade c n w).
Proof.
  intros I [ch E]. unfold handleMade. rewrite (deref_some _ _ _ E). cbn [mbind result_bind].
  assert (forall w1, Inv w1 -> is_Some (w1.(objs) !! c) ->
    returns (fun x => Inv x.2 /\ keeps w1 x.2) (w ← sendCommand c (packDestoryChannelRequest n) w1; Ret (true, w))) as H.
  { intros w1 I1 E1. eapply returns_bind; [by apply sendCommand_ok |]. intros w2 (I2 & _ & C2).
    split; [done | by eapply closes_keeps]. }
  destruct (subChannels ch !! n) as [s |] eqn:En; [| by apply H; [| eexists]].
  destruct (w.(objs) !! s) as [chs |] eqn:Es; [by split |].
  eapply returns_mono; [apply H; [| apply update_some; by eexists] |].
  2: { intros x [I1 P1]. split; [done |]. etrans; [apply update_keeps | done]. }
  eapply inv_closes; [done |]. apply erase_closes; [apply I |]. intros. by simplify_eq.
Qed.

(** The entry of a working child is erased, and the child left to itself. *)
Lemma erase_linked_but c n s w : linked None w.(objs) ->
  (forall ch, w.(objs) !! c = Some ch -> ch.(subChannels) !! n = Some s) ->
  linked (Some s) (alter (erase_sub n) c w.(objs)).
Proof.
  intros L H d chd p m Hd Ed He Hk. destruct (decide (c = d)) as [<- |].
  - rewrite lookup_alter_eq in Ed. destruct (w.(objs) !! c) as [ch |] eqn:E; [| done]. injection Ed as <-.
    destruct (L c ch p m) as (Hp & pc & Ep & Hm); [done.. |]. split; [done |]. exists pc.
    rewrite lookup_alter_ne by lia. done.
  - rewrite lookup_alter_ne in Ed by done. destruct (L d chd p m) as (Hp & pc & Ep & Hm); [done.. |]. split; [done |].
    destruct (decide (c = p)) as [<- |]; [| exists pc; by rewrite lookup_alter_ne].
    exists (erase_sub n pc). rewrite lookup_alter_eq, Ep. split; [done |]. simpl. rewrite lookup_delete_ne; [done |].
    intros <-. rewrite (H pc Ep) in Hm. congruence.
Qed.

Lemma detach_relinked s o : linked (Some s) o -> linked None (alter detach s o).
Proof.
  intros L d ch' p n _ Ed He Hk. destruct (decide (s = d)) as [<- | Hne].
  - rewrite lookup_alter_eq in Ed. destruct (o !! s) as [ch |]; [| done]. injection Ed as <-. unfold detach in Hk.
    destruct (kind ch) eqn:Ek; [by rewrite Ek in Hk | done].
  - rewrite lookup_alter_ne in Ed by done. destruct (L d ch' p n) as (Hp & pc & Ep & Hn); [congruence | done.. |].
    split; [done |]. destruct (decide (s = p)) as [<- |]; [| exists pc; by rewrite lookup_alter_ne].
    exists (detach pc). rewrite lookup_alter_eq, Ep. split; [done |]. by destruct (detach_same pc) as [-> _].
Qed.

Lemma detach_rooted s w d : Some s <> Some d -> rooted w.(objs) d -> rooted (update s detach w).(objs) d.
Proof. intros Hd R ch' n E'. rewrite update_there in E' by congruence. by apply R. Qed.

(** A channel that has lost its parent fails. *)
Lemma abort_detached cur e s w : InvBut (Some s) w -> failed e = true -> is_Some (w.(objs) !! s) ->
  returns (fun w' => Inv w' /\ closes None w w') (abortChannel cur e s w).
Proof.
  intros I F E. eapply returns_mono; [apply abortChannel_returns; [done | done | apply I] |].
  intros w' [C F']. split; [| done]. eapply inv_closing; [done | apply C | apply C | intros d; apply C, I |].
  intros d _. destruct (decide (s = d)) as [<- |]; [| apply C, I; congruence].
  intros ch n E' He. specialize (F' ch E'). by rewrite He in F'.
Qed.

Lemma detach_tidy s w d : (forall ch n, w.(objs) !! d = Some ch -> ch.(subChannels) !! n <> Some s) ->
  tidy w.(objs) d -> tidy (update s detach w).(objs) d.
Proof.
  intros H T ch' E'. destruct (detach_other _ _ _ _ E') as (ch & E & Hs & He & Hk & _). destruct (T ch E) as [T1 T2].
  rewrite Hs, He. split.
  - intros F. destruct (T1 F) as [-> [Ho Hs2]]. split; [done |].
    split; [intros x Ex; by apply Ho, Hk | by apply (closing_shut w _ d ch ch' (detach_closing s w))].
  - intros n t cht Hn Et. destruct (detach_other _ _ _ _ Et) as (cht0 & Et0 & _ & _ & _ & Heq).
    destruct (decide (s = t)) as [<- | Hne]; [by destruct (H ch n E) |]. rewrite (Heq Hne). by eapply T2.
Qed.

(** Only its parent, under its number, lists a channel. *)
Lemma listed_once w c s chs d chd m : Inv w -> w.(objs) !! s = Some chs -> child_of c chs ->
  w.(objs) !! d = Some chd -> chd.(subChannels) !! m = Some s -> d = c /\ number_in chs = Some m.
Proof.
  intros I Es (q & k & Hk & Hq) Ed Hm. destruct (inv_tidy _ I d chd Ed) as [_ T]. destruct (T m s chs Hm Es) as [_ Hkind].
  unfold number_in. rewrite Hkind in *. simplify_eq. by destruct Hq; simplify_eq.
Qed.

Lemma detach_inv c s chs w : Inv w -> w.(objs) !! s = Some chs -> child_of c chs ->
  (forall ch n, w.(objs) !! c = Some ch -> number_in chs = Some n -> ch.(subChannels) !! n <> Some s) ->
  InvBut (Some s) (update s detach w).
Proof.
  intros I Es Hc Hn. eapply inv_closing; [done | apply detach_closing | apply detach_linked, I | | intros d Hd; by apply detach_rooted, I].
  intros d. apply detach_tidy; [| apply I]. intros chd m Ed Hm.
  destruct (listed_once _ _ _ _ _ _ _ I Es Hc Ed Hm) as [-> Hnum]. by apply (Hn chd m).
Qed.

(** The listed child under [n] is struck off and let go. *)
Lemma strike_ok c n s ch chs w : Inv w -> w.(objs) !! c = Some ch -> ch.(subChannels) !! n = Some s ->
  w.(objs) !! s = Some chs ->
  returns (fun w' => (InvBut (Some s) (update s detach w') /\ is_Some (w'.(objs) !! s)) /\ keeps w w') (cleanChannel c n false w).
Proof.
  intros I E Hn Es. pose proof (inv_sound _ I) as (L & R & W & O). destruct (inv_tidy _ I c ch E) as [_ T].
  destruct (T n s chs Hn Es) as [He Hk]. destruct (L s chs c n) as (Hlt & _); [done.. |].
  assert (linked (Some s) (alter (erase_sub n) c w.(objs))) as L1.
  { apply erase_linked_but; [done |]. intros. by simplify_eq. }
  eapply returns_mono; [apply (cleanChannel_returns (Some s)); [done | by eexists | | done] |].
  { split; [| done]. intros d chd p m _. by apply L. }
  intros w1 C1. assert (closing w w1) as C by (etrans; [apply erase_closing | apply C1]).
  split; [| by apply closing_keeps]. split; [| apply (objs_rel_some _ _ _ s (closing_objs _ _ C)); by eexists].
  eapply inv_closing; [done | | apply detach_relinked, C1 | |]; [etrans; [done | apply detach_closing] | |].
  2: { intros d Hd. apply detach_rooted; [done |]. apply (closes_rooted _ _ _ C1), update_rooted; [done | by apply I]. }
  intros d. apply detach_tidy; [| apply C1, erase_tidy, I]. intros chd1 m Ed1 Hm1.
  destruct (objs_rel_bwd _ _ _ _ _ (closing_objs _ _ (closes_closing _ _ _ C1)) Ed1) as (chd & Ed & Hsh).
  assert (chd.(subChannels) !! m = Some s) as Hm by (eapply lookup_weaken; [done | apply Hsh]).
  destruct (decide (c = d)) as [<- |].
  - rewrite (update_here _ _ _ _ E) in Ed. injection Ed as <-. simpl in Hm. apply lookup_delete_Some in Hm as [Hnm Hm].
    destruct (T m s chs Hm Es) as [_ Hk2]. rewrite Hk in Hk2. by simplify_eq.
  - rewrite update_there in Ed by done. destruct (inv_tidy _ I d chd Ed) as [_ Td].
    destruct (Td m s chs Hm Es) as [_ Hk2]. rewrite Hk in Hk2. by simplify_eq.
Qed.

(** What [peekChannel] finds is a child, and the only one with its number. *)
Lemma peeked_child c n ch s w : Inv w -> w.(objs) !! c = Some ch -> Some s ∈ ch.(pendingChannels) ->
  number_of s w = Some n ->
  exists chs, w.(objs) !! s = Some chs /\ number_in chs = Some n /\ child_of c chs
    /\ forall s', ch.(subChannels) !! n = Some s' -> s' = s.
Proof.
  intros I E Hin Hnum. apply number_of_in in Hnum as (chs & Es & Hnum). exists chs.
  destruct (inv_sound _ I) as (_ & _ & _ & O). destruct (O c ch s chs E Es) as [_ O2]. pose proof (O2 Hin) as Hc.
  repeat split; try done. intros s' Hs'. unfold number_in in Hnum. destruct (kind chs) as [| q m] eqn:Hk; [done |].
  simplify_eq. by eapply (inv_pending _ I c ch s chs q n).
Qed.

Lemma strike_dead_ok c n s ch w : Inv w -> w.(objs) !! c = Some ch -> ch.(subChannels) !! n = Some s ->
  w.(objs) !! s = None -> returns (fun w' => Inv w' /\ w'.(objs) !! s = None /\ keeps w w') (cleanChannel c n false w).
Proof.
  intros I E Hn Es.
  assert (closes None w (update c (erase_sub n) w)) as C0 by (apply erase_closes; [apply I | intros; by simplify_eq]).
  eapply returns_mono; [apply (cleanChannel_returns None c n false w); [done | by eexists | apply I | apply C0] |].
  intros w1 C1. pose proof (closes_trans _ _ _ _ C0 C1) as C. split; [by eapply inv_closes |].
  split; [| by eapply closes_keeps]. apply eq_None_not_Some. rewrite <- (objs_rel_some _ _ _ s (closing_objs _ _ (closes_closing _ _ _ C))), Es.
  by intros [].
Qed.

(** The channel that the command is about, struck off the list. *)
Lemma struck_ok c n ch peeked w : Inv w -> w.(objs) !! c = Some ch ->
  (forall s, peeked = Some s -> Some s ∈ ch.(pendingChannels) /\ number_of s w = Some n) ->
  returns (fun x => match x.1 with
                    | Some s => InvBut (Some s) (update s detach x.2) /\ is_Some (x.2.(objs) !! s)
                    | None => Inv x.2
                    end /\ keeps w x.2)
    (match ch.(subChannels) !! n with
     | Some s => w ← cleanChannel c n false w;
                 Ret (match peeked with
                      | Some _ => peeked
                      | None => match w.(objs) !! s with Some _ => Some s | None => None end
                      end, w)
     | None => Ret (peeked, w)
     end).
Proof.
  intros I E Hp.
  assert (forall s, peeked = Some s -> exists chs, w.(objs) !! s = Some chs /\ number_in chs = Some n /\ child_of c chs
            /\ forall s', ch.(subChannels) !! n = Some s' -> s' = s) as Hpk.
  { intros s Hs. destruct (Hp s Hs). by apply peeked_child. }
  destruct (subChannels ch !! n) as [s |] eqn:Hn.
  2: { cbn [returns fst snd]. split; [| done]. destruct peeked as [s |]; [| done].
       destruct (Hpk s eq_refl) as (chs & Es & Hnum & Hc & _). split; [| by eexists].
       eapply detach_inv; [done | done | done |]. intros ch' m E' Hm. rewrite Hnum in Hm. simplify_eq. by rewrite Hn. }
  assert (forall s0, peeked = Some s0 -> s0 = s) as Heq.
  { intros s0 Hs0. destruct (Hpk s0 Hs0) as (_ & _ & _ & _ & H). by rewrite (H s eq_refl). }
  destruct (w.(objs) !! s) as [chs |] eqn:Es.
  - eapply returns_bind; [by eapply strike_ok |]. intros w1 [[I1 E1] P1]. cbn [returns fst snd]. split; [| done].
    destruct peeked as [s0 |]; [by rewrite (Heq s0 eq_refl) |].
    destruct E1 as [chs1 E1]. rewrite E1. split; [done | by eexists].
  - eapply returns_bind; [by eapply strike_dead_ok |]. intros w1 (I1 & E1 & P1). cbn [returns fst snd]. split; [| done].
    destruct peeked as [s0 |]; [| by rewrite E1]. rewrite (Heq s0 eq_refl) in Hpk.
    destruct (Hpk s eq_refl) as (chs0 & Es0 & _). congruence.
Qed.

Lemma handleDestroy_ok cur c n w : Inv w -> is_Some (w.(objs) !! c) -> returns (fun x => Inv x.2 /\ keeps w x.2) (handleDestroy cur c n w).
Proof.
  intros I [ch E]. unfold handleDestroy. eapply returns_bind; [by apply peekChannel_ok |]. intros peeked Hp.
  rewrite (deref_some _ _ _ E). cbn [mbind result_bind].
  eapply returns_bind; [by apply struck_ok |]. intros [strong w1] [H P1]. cbn [fst snd] in *.
  destruct strong as [s |]; [| done]. destruct H as [I1 E1].
  eapply returns_bind; [apply abort_detached; [done | done | by apply update_some] |]. intros w2 [I2 C2].
  split; [done |]. etrans; [done |]. etrans; [apply update_keeps | by eapply closes_keeps].
Qed.

Lemma handleCommand_ok cur c data ch w : Inv w -> w.(objs) !! c = Some ch -> ch.(error) = NoError ->
  (forall n, unpackCommand data = Some (MAKE_CHANNEL_REQUEST, Some n) ->
     forall s chs, Some s ∈ ch.(pendingChannels) -> w.(objs) !! s = Some chs -> number_in chs <> Some n) ->
  returns (fun x => Inv x.2 /\ keeps w x.2) (handleCommand cur c data w).
Proof.
  intros I E He Hu. unfold handleCommand. destruct (unpackCommand data) as [[command number] |] eqn:Hd; [| by split].
  assert (is_Some (w.(objs) !! c)) as Hs by (by eexists).
  assert (forall g, Inv (update c (with_gate g) w)) as Ig by (intros g; by apply inv_update_same).
  assert ((command =? MAKE_CHANNEL_REQUEST) || (command =? CHANNEL_MADE_REQUEST) || (command =? DESTROY_CHANNEL_REQUEST) = true ->
    is_Some number) as Hnum.
  { unfold unpackCommand in Hd. destruct (negb _ && negb _); [done |]. destruct (head data) as [b |]; [| done]. cbn [mbind option_bind] in Hd.
    destruct (zlen data =? 1 + 4); case_match; simplify_eq; intros; [by eexists | congruence]. }
  destruct (command =? MAKE_CHANNEL_REQUEST) eqn:H1.
  { destruct (Hnum eq_refl) as [n ->]. apply Z.eqb_eq in H1. subst. by apply (handleMake_ok cur c n ch); [| | | apply Hu]. }
  destruct (command =? CHANNEL_MADE_REQUEST) eqn:H2.
  { destruct (Hnum eq_refl) as [n ->]. by apply handleMade_ok. }
  destruct (command =? DESTROY_CHANNEL_REQUEST) eqn:H3.
  { destruct (Hnum eq_refl) as [n ->]. by apply handleDestroy_ok. }
  repeat case_match; cbn [returns snd]; auto with qtng. all: by split.
Qed.
