(* ===== verification/DataChannelRuns.v ===== *)
(** * Channels: every execution keeps the invariant

    The steps of the coroutines of a connection, of its peer and of its users. *)

From stdpp Require Import gmap sorting.
From S2P Require Import Prelude Queue DataChannel DataChannelProofs DataChannelSafety.

Implicit Types (w : World) (o : gmap nat Channel) (ch : Channel).

(** ** Wires *)

Lemma on_wire_alike f ch :
  (forall s, ch.(kind) = SocketChannel s ->
     (wire_ok s -> wire_ok (f s)) /\ ((f s).(connected) = true -> s.(connected) = true) /\ owes s ⊆ owes (f s)) ->
  alike ch (on_wire f ch).
Proof.
  intros H. unfold on_wire. destruct (kind ch) as [s |] eqn:E; [| split; [rewrite E; apply kind_alike_refl | done | done | done]].
  split; [| done | done | done]. rewrite E. by apply H.
Qed.

Lemma strong_on_wire f ch s : s ∈ strong (on_wire f ch) ->
  s ∈ strong ch \/ exists x, ch.(kind) = SocketChannel x /\ s ∈ held_by (f x).(receiver).
Proof.
  unfold on_wire, strong. destruct (kind ch) as [x |] eqn:E; simpl; [| rewrite E; by left].
  rewrite !elem_of_app. intros [| [|]]; [left; auto | left; auto | right; eauto].
Qed.

Lemma pending_on_wire f ch : (on_wire f ch).(pendingChannels) = ch.(pendingChannels).
Proof. unfold on_wire. by destruct (kind ch). Qed.

(** A wire changes, and its receiver holds good references. *)
Lemma inv_wire r f w : Inv w ->
  (forall ch s, w.(objs) !! r = Some ch -> ch.(kind) = SocketChannel s ->
     ((wire_ok s -> wire_ok (f s)) /\ ((f s).(connected) = true -> s.(connected) = true) /\ owes s ⊆ owes (f s))
     /\ forall x, x ∈ held_by (f s).(receiver) -> is_Some (w.(objs) !! x)) ->
  Inv (update r (on_wire f) w).
Proof.
  intros I H. destruct (w.(objs) !! r) as [ch |] eqn:E.
  2: { unfold update. by rewrite alter_id, with_objs_id by (by intros ch' E'; simplify_eq). }
  eapply inv_update_alike; [done | done | | |].
  - apply on_wire_alike. intros s Ek. by apply (H ch).
  - intros s Hs. apply strong_on_wire in Hs as [Hs | (x & Ek & Hs)]; [| by apply (proj2 (H ch x eq_refl Ek))].
    destruct (inv_sound _ I) as (_ & R & _). by apply (R r ch).
  - intros s chs. rewrite pending_on_wire. intros. by apply (pending_good w).
Qed.

Lemma update_twice r f g w : update r (on_wire g) (update r (on_wire f) w) = update r (on_wire (fun s => g (f s))) w.
Proof.
  unfold update, with_objs. cbn [objs fresh tokens signals senders awaiting]. f_equal. apply map_eq. intros d.
  destruct (decide (r = d)) as [-> |]; [| by rewrite !lookup_alter_ne]. rewrite !lookup_alter_eq.
  destruct (w.(objs) !! d) as [ch |]; [| done]. simpl. f_equal.
  unfold on_wire. destruct (kind ch) eqn:E; [done | by rewrite E].
Qed.

Lemma set_receiver_ok x r w : Inv w -> (forall s, s ∈ held_by x -> is_Some (w.(objs) !! s)) -> Inv (set_receiver x r w).
Proof. intros I H. apply inv_wire; [done |]. by intros ch s E Ek. Qed.

(** ** Packets that come in *)

(** The channel that an incoming packet asks for, and the channel it would hang below. *)
Fixpoint names (fuel : nat) (c : nat) (n : Z) (payload : list Z) (w : World) : option (nat * Z) :=
  match fuel with
  | O => None
  | S fuel =>
      ch ← w.(objs) !! c;
      if bool_decide (is_Some ch.(pluggedChannel)) || (n =? DataChannelNumber) then None else
      if n =? CommandChannelNumber then
        match unpackCommand payload with
        | Some (command, Some k) => if command =? MAKE_CHANNEL_REQUEST then Some (c, k) else None
        | _ => None
        end
      else
        s ← ch.(subChannels) !! n;
        if zlen payload <? 4 then None else names fuel s (be_decode (take 4 payload)) (drop 4 payload) w
  end.

Definition pending_number (c : nat) (n : Z) w : bool :=
  match w.(objs) !! c with
  | Some ch => existsb (fun p => match p with Some s => bool_decide (number_of s w = Some n) | None => false end)
                 ch.(pendingChannels)
  | None => false
  end.

Lemma pending_number_spec c n ch w : w.(objs) !! c = Some ch -> pending_number c n w = false ->
  forall s chs, Some s ∈ ch.(pendingChannels) -> w.(objs) !! s = Some chs -> number_in chs <> Some n.
Proof.
  unfold pending_number. intros -> H s chs Hs Es Hn. apply not_true_iff_false in H. apply H, existsb_exists.
  exists (Some s). split; [by apply list_elem_of_In |]. apply bool_decide_eq_true. unfold number_of. by rewrite Es.
Qed.

Definition incoming_ok (x : Incoming * World) : Prop :=
  match x.1 with Waits r => forall s, s ∈ held_by r -> is_Some (x.2.(objs) !! s) | Handled _ => True end.

(** A data packet for [c] itself. *)
Lemma data_ok held c ch payload w : Inv w -> w.(objs) !! c = Some ch ->
  (forall s, s ∈ held -> is_Some (w.(objs) !! s)) ->
  returns (fun x => Inv x.2 /\ keeps w x.2 /\ incoming_ok x)
    (w ← (if wantsSlowDown ch then
            sendCommand c packSlowDownRequest (update c (with_received ch.(receivingQueue) true) w)
          else Ret w);
     ch ← deref c w;
     if ch.(receivingQueue).(notFull).(flag) then Ret (Handled NoError, update c (deliver payload) w)
     else Ret (Waits (Putting held c payload), w)).
Proof.
  intros I E Hh.
  assert (returns (fun w1 => Inv w1 /\ keeps w w1)
    (if wantsSlowDown ch then
       sendCommand c packSlowDownRequest (update c (with_received ch.(receivingQueue) true) w)
     else Ret w)) as H1.
  { destruct (wantsSlowDown ch); [| by split].
    eapply returns_mono; [apply sendCommand_ok; [apply update_some; by eexists | by apply (inv_received c ch)] |].
    intros w1 (I1 & _ & C1). split; [done |]. etrans; [apply update_keeps | by eapply closes_keeps]. }
  eapply returns_bind; [apply H1 |]. intros w1 [I1 P1]. destruct (P1 c (mk_is_Some _ _ E)) as [ch1 E1].
  rewrite (deref_some _ _ _ E1). cbn [mbind result_bind]. destruct (flag _); cbn [returns snd].
  - split; [apply inv_update_same; [apply deliver_same | done] |]. split; [etrans; [done | apply update_keeps] | done].
  - split; [done |]. split; [done |]. intros s Hs. apply elem_of_cons in Hs as [-> | Hs]; [by eexists | by apply P1, Hh].
Qed.

Lemma handleIncomingPacket_ok fuel : forall r held c ch n payload w, Inv w -> w.(objs) !! c = Some ch ->
  ch.(error) = NoError -> (length payload < fuel)%nat -> (forall s, s ∈ held -> is_Some (w.(objs) !! s)) ->
  (forall c' k, names fuel c n payload w = Some (c', k) -> pending_number c' k w = false) ->
  returns (fun x => Inv x.2 /\ keeps w x.2 /\ incoming_ok x) (handleIncomingPacket fuel r held c n payload w).
Proof.
  induction fuel as [| fuel IH]; intros r held c ch n payload w I E He Hf Hh Hn; [lia |]. cbn [handleIncomingPacket names] in *.
  rewrite (deref_some _ _ _ E). rewrite E in Hn. cbn [mbind result_bind option_bind] in *.
  destruct (pluggedChannel ch) as [q |] eqn:Eq.
  { eapply returns_bind; [apply sendPacketRaw_ok; [lia | | done] |].
    { destruct (inv_sound _ I) as (_ & R & _). apply (R c ch q E). unfold strong. rewrite Eq. set_solver. }
    intros x (I1 & M1 & K1). pose proof (inv_wait_for (ReceiverOf r) x I1 K1) as I2.
    assert (keeps w (wait_for (ReceiverOf r) x)) as P2.
    { intros d. rewrite wait_for_objs. apply (objs_rel_some _ _ _ d M1). }
    destruct (x.1.1) eqn:Ex; cbn [returns snd]; (split; [done |]); (split; [done |]); try done.
    - intros s Hs. apply elem_of_cons in Hs as [-> | Hs]; apply P2; [by eexists | by apply Hh].
    - intros s Hs. apply elem_of_cons in Hs as [-> | Hs]; apply P2; [by eexists | by apply Hh]. }
  rewrite bool_decide_eq_false_2 in Hn by (by intros []). cbn [orb] in Hn.
  destruct (n =? DataChannelNumber); [by apply data_ok |].
  destruct (n =? CommandChannelNumber).
  { eapply returns_bind; [apply (handleCommand_ok _ c payload ch w I E He) |].
    - intros k Hk. apply (pending_number_spec c); [done |]. apply Hn. by rewrite Hk.
    - intros [ok w1] [I1 P1]. by destruct ok. }
  destruct (subChannels ch !! n) as [s |] eqn:Es; [| done]. destruct (w.(objs) !! s) as [chs |] eqn:Eo.
  2: { cbn [returns snd]. split; [| split; [apply update_keeps | done]]. eapply inv_closes; [done |].
       apply erase_closes; [apply I |]. intros. by simplify_eq. }
  cbn [option_bind] in Hn. destruct (Z.ltb_spec (zlen payload) 4) as [Hlt | Hge]; [done |].
  destruct (inv_tidy _ I c ch E) as [_ T]. destruct (T n s chs Es Eo) as [Hes _].
  eapply returns_bind; [apply (IH r (s :: held) s chs) |]; try done.
  - rewrite length_drop. unfold zlen in Hge. lia.
  - intros x Hx. apply elem_of_cons in Hx as [-> | Hx]; [by eexists | by apply Hh].
  - intros [i w1] (I1 & P1 & K1). cbn [fst snd] in *. destruct i as [e | x]; [| done].
    destruct (failed e) eqn:Fe; [| by destruct e].
    assert (returns (fun x => Inv x.2 /\ keeps w x.2 /\ incoming_ok x)
      (w ← abortChannel (Some (r, Receiving)) e s w1; Ret (Handled NoError, w))) as H; [| by destruct e].
    eapply returns_bind; [apply abort_ok; [done | done | apply P1; by eexists] |]. intros w2 [I2 C2].
    split; [done |]. split; [etrans; [done | by eapply closes_keeps] | done].
Qed.

(** ** The coroutines of a connection *)

(** A wire whose stream and times change. *)
Definition stream_of (s s' : Wire) : Prop :=
  s'.(sendingQueue) = s.(sendingQueue) /\ s'.(writing) = s.(writing) /\ s'.(receiver) = s.(receiver)
  /\ s'.(connected) = s.(connected).

Lemma recvall_stream n s data s' : recvall n s = Some (data, s') -> stream_of s s' /\ (s.(connected) = false -> data = []).
Proof.
  unfold recvall. destruct (connected s) eqn:Hc; simpl; repeat case_match; intros; simplify_eq; by rewrite ?Hc.
Qed.

Lemma readPacket_stream s x s' : readPacket s = Some (x, s') ->
  stream_of s s' /\ (s.(connected) = false -> x = ReadError ReceivingError).
Proof.
  unfold readPacket. destruct (recvall 8 s) as [[header s1] |] eqn:H1; [| done]. cbn [mbind option_bind].
  destruct (recvall_stream _ _ _ _ H1) as [S1 C1].
  destruct (zlen header =? 8) eqn:Hh; cbn [negb].
  - assert (s.(connected) = false -> False) as K by (intros K; by rewrite (C1 K) in Hh).
    case_match; [intros; simplify_eq; split; [done | by intros ?%K] |]. destruct (recvall _ s1) as [[payload s2] |] eqn:H2; [| done]. cbn [mbind option_bind].
    destruct (recvall_stream _ _ _ _ H2) as [S2 _]. unfold stream_of in *. destruct S1 as (? & ? & ? & ?), S2 as (? & ? & ? & ?).
    case_match; intros; simplify_eq; (split; [repeat split; congruence | by intros ?%K]).
  - intros. simplify_eq. by split.
Qed.

Lemma wire_of_spec r w : is_Some (w.(objs) !! r) ->
  wire_of r w = Reject \/ exists ch s, w.(objs) !! r = Some ch /\ ch.(kind) = SocketChannel s /\ wire_of r w = Ret (ch, s).
Proof.
  intros [ch E]. unfold wire_of. rewrite (deref_some _ _ _ E). cbn [mbind result_bind].
  destruct (kind ch) as [s |] eqn:Ek; [right; eauto | by left].
Qed.

Lemma received_ok r time i w : Inv w -> is_Some (w.(objs) !! r) -> incoming_ok (i, w) ->
  returns Inv (received r time i w).
Proof.
  intros I E K. assert (forall w1, Inv w1 -> Inv (set_receiver Reading r w1) /\ Inv (set_receiver Gone r w1)) as Hs.
  { intros w1 I1. split; (apply set_receiver_ok; [done | cbn [held_by]; set_solver]). }
  destruct i as [e | x]; cbn [received]; [| by apply set_receiver_ok].
  destruct (failed e) eqn:Fe.
  - assert (returns Inv (w ← abortChannel (Some (r, Receiving)) e r w; Ret (set_receiver Gone r w))) as H; [| by destruct e].
    eapply returns_bind; [by apply abort_ok |]. intros w1 [I1 _]. by apply Hs.
  - destruct e; try done. cbn [returns]. apply inv_wire; [by apply Hs |]. intros ch s Es Ek. split; [done |].
    intros x Hx. destruct (inv_sound _ (proj1 (Hs w I))) as (_ & R & _). apply (R r ch); [done |].
    unfold strong. rewrite Ek. rewrite !elem_of_app. auto.
Qed.

(** The step does not reuse a number that is still in use on the other side of it. *)
Definition reads_reused (r : nat) w : bool :=
  match w.(objs) !! r with
  | Some ch =>
      match ch.(kind) with
      | SocketChannel s =>
          match readPacket s with
          | Some (ReadPacket n payload, s') =>
              let w := update r (on_wire (fun _ => s')) w in
              match names (S (length payload)) r n payload w with
              | Some (c, k) => pending_number c k w
              | None => false
              end
          | _ => false
          end
      | _ => false
      end
  | None => false
  end.

Lemma doReceive_ok r time w : Inv w -> is_Some (w.(objs) !! r) -> reads_reused r w = false ->
  safe Inv (doReceive r time w).
Proof.
  intros I E H. unfold doReceive. destruct (wire_of_spec r w E) as [-> | (ch & s & E' & Ek & ->)]; [done |].
  cbn [mbind result_bind]. unfold reads_reused in H. rewrite E', Ek in H.
  destruct (receiver s) eqn:Er; try done. destruct (readPacket s) as [[got s'] |] eqn:Hr; [| done].
  destruct (readPacket_stream _ _ _ Hr) as [(S1 & S2 & S3 & S4) Hoff]. set (w1 := update r (on_wire (fun _ => s')) w) in *.
  assert (Inv w1) as I1.
  { apply inv_wire; [done |]. intros ch0 s0 E0 Ek0. simplify_eq. rewrite Ek in Ek0. simplify_eq.
    unfold wire_ok, owes. rewrite S1, S2, S3, S4. split; [done |]. rewrite Er. set_solver. }
  assert (is_Some (w1.(objs) !! r)) as E1 by (by apply update_some).
  apply returns_safe. destruct got as [n payload | e]; [| by apply received_ok].
  assert (w1.(objs) !! r = Some (on_wire (fun _ => s') ch)) as Ec by (by apply update_here).
  eapply returns_bind; [apply (handleIncomingPacket_ok _ r [] r _ n payload w1 I1 Ec) |].
  - unfold on_wire. rewrite Ek. simpl. destruct (failed (error ch)) eqn:F; [| by destruct (error ch)]. exfalso.
    destruct (proj1 (inv_tidy _ I r ch E') F) as [_ [Ho _]]. discriminate (Hoff (Ho s Ek)).
  - lia.
  - set_solver.
  - intros c' k Hk. by rewrite Hk in H.
  - intros [i w2] (I2 & P2 & K2). apply received_ok; [done | by apply P2 | done].
Qed.

Lemma resumePut_ok r time w : Inv w -> is_Some (w.(objs) !! r) -> safe Inv (resumePut r time w).
Proof.
  intros I E. unfold resumePut. destruct (wire_of_spec r w E) as [-> | (ch & s & E' & Ek & ->)]; [done |].
  cbn [mbind result_bind]. destruct (receiver s) as [| held c payload | |] eqn:Er; try done.
  destruct (inv_sound _ I) as (_ & R & _). destruct (R r ch c E') as [chc Ec].
  { unfold strong. rewrite Ek, Er. simpl. set_solver. }
  rewrite (deref_some _ _ _ Ec). cbn [mbind result_bind]. destruct (flag _); [| done].
  apply returns_safe, received_ok; [apply inv_update_same; [apply deliver_same | done] | by apply update_some | done].
Qed.

Lemma forwarded_ok r time ok w : Inv w -> is_Some (w.(objs) !! r) -> safe Inv (forwarded r time ok w).
Proof.
  intros I E. unfold forwarded. destruct (wire_of_spec r w E) as [-> | (ch & s & E' & Ek & ->)]; [done |].
  cbn [mbind result_bind]. destruct (receiver s) as [| | held owner |] eqn:Er; try done.
  destruct (inv_sound _ I) as (_ & R & _). assert (is_Some (w.(objs) !! owner)) as Eo.
  { apply (R r ch owner E'). unfold strong. rewrite Ek, Er. simpl. set_solver. }
  apply returns_safe. destruct ok; [by apply received_ok |]. case_bool_decide; [by apply received_ok |].
  eapply returns_bind; [by apply abort_ok |]. intros w1 [I1 C1]. apply received_ok; [done | by eapply inv_some | done].
Qed.

Lemma gather_owes l : forall count q, q.(queue) = l -> q.(m_closed) = false ->
  let x := gather l count q in
  omap done l = omap done (x.1 ++ x.2.(queue)) /\ x.2.(m_closed) = false.
Proof.
  induction l as [| p l IH]; intros count q Hq Hc; cbv zeta; cbn [gather]; [cbn [fst snd app]; by rewrite Hq |].
  destruct (_ <? _); [| cbn [fst snd app]; by rewrite Hq]. pose proof (take_front_queue psize p l q) as Hq1.
  pose proof (take_front_closed psize p l q) as Hc1. rewrite Hc in Hc1.
  destruct (isValid p) eqn:Hv; cbn [negb].
  - destruct (_ >? _).
    + cbn [fst snd]. by rewrite insert_closed, insert_front, Hc1, Hq1.
    + specialize (IH (count + (CHANNEL_HEAD_SIZE + zlen (packet p))) _ Hq1 Hc1). simpl in IH.
      destruct (gather l _ _) as [batch q2]. cbn [fst snd] in *. destruct IH as [IH1 IH2]. split; [| done].
      cbn [app]. by rewrite !owed_cons, IH1.
  - cbn [fst snd]. rewrite Hq1, owed_cons. split; [| done]. unfold isValid in Hv.
    destruct (done p); [| done]. exfalso. rewrite bool_decide_eq_true_2 in Hv by eauto. by rewrite andb_false_r in Hv.
Qed.

Lemma doSend_ok r w : Inv w -> is_Some (w.(objs) !! r) -> safe Inv (doSend r w).
Proof.
  intros I E. unfold doSend. destruct (wire_of_spec r w E) as [-> | (ch & s & E' & Ek & ->)]; [done |].
  cbn [mbind result_bind]. destruct (writing s) eqn:Ew; [done |]. destruct (queue (sendingQueue s)) as [| p l] eqn:Eq; [done |].
  destruct (inv_sound _ I) as (_ & R & W & _). pose proof (W r ch s E' Ek) as Ws.
  assert (m_closed (sendingQueue s) = false) as Hc by (destruct (m_closed (sendingQueue s)) eqn:Hc; [by rewrite (proj1 Ws Hc) in Eq | done]).
  pose proof (take_front_queue psize p l (sendingQueue s)) as Hq1. pose proof (take_front_closed psize p l (sendingQueue s)) as Hc1.
  set (q1 := take_front psize p l (sendingQueue s)) in *. rewrite Hc in Hc1.
  assert (forall x, x ∈ held_by (receiver s) -> is_Some (w.(objs) !! x)) as Hh.
  { intros x Hx. apply (R r ch x E'). unfold strong. rewrite Ek, !elem_of_app. auto. }
  destruct (isValid p) eqn:Hv; cbn [negb safe].
  2: { apply inv_wire; [done |]. intros ch0 s0 E0 Ek0. simplify_eq. rewrite Ek in Ek0. simplify_eq. split; [| done].
       unfold wire_ok, owes. simpl. rewrite Hc1, Hq1, Eq, Hc. split; [by intros [_ K] |]. split; [done |].
       unfold isValid in Hv. cbn [app]. rewrite owed_cons. destruct (done p) eqn:Ed; [| done].
       rewrite bool_decide_eq_true_2 in Hv by eauto. by rewrite andb_false_r in Hv. }
  destruct (gather_owes l (CHANNEL_HEAD_SIZE + zlen (packet p)) q1 Hq1 Hc1) as [Ho Hc2].
  destruct (gather l _ q1) as [batch q2]. cbn [fst snd] in *.
  destruct (failed (error ch)).
  - cbn [safe]. eapply inv_closes; [done |]. apply signal_closes; [| apply I]. intros ch0 s0 E0 Ek0. simplify_eq. rewrite Ek in Ek0.
    simplify_eq. split; [done |]. unfold wire_ok, owes. cbn [with_sending with_writing sendingQueue writing]. rewrite Hc2, Eq, Hc, ?Ew. cbn [default]. rewrite !app_nil_r, !owed_cons, Ho, omap_app.
    split; [split; [by intros [_ K] | split; [done | by left]] |].
    set_solver.
  - cbn [safe]. rewrite update_twice. apply inv_wire; [done |]. intros ch0 s0 E0 Ek0. simplify_eq. rewrite Ek in Ek0. simplify_eq.
    split; [| done]. unfold wire_ok, owes. cbn [with_sending with_writing sendingQueue writing]. rewrite Hc2, Eq, Hc, ?Ew. split; [by intros [_ K] |]. split; [done |]. cbn [default].
    change (id (p :: batch)) with (p :: batch).
    rewrite app_nil_r, omap_app, !owed_cons, Ho, omap_app. set_solver.
Qed.

Lemma writing_left r ch s ch' s' w w' : closing w w' -> w.(objs) !! r = Some ch -> ch.(kind) = SocketChannel s ->
  w'.(objs) !! r = Some ch' -> ch'.(kind) = SocketChannel s' -> s'.(writing) = s.(writing) \/ s'.(writing) = None.
Proof.
  intros C E Ek E' Ek'. destruct (objs_rel_fwd _ _ _ _ _ (closing_objs _ _ C) E) as (? & E2 & [K _ _ _ _ _ _]).
  simplify_eq. rewrite Ek, Ek' in K. apply K.
Qed.

Lemma doSent_ok r n time w : Inv w -> is_Some (w.(objs) !! r) -> safe Inv (doSent r n time w).
Proof.
  intros I E. unfold doSent. destruct (wire_of_spec r w E) as [-> | (ch & s & E' & Ek & ->)]; [done |].
  cbn [mbind result_bind]. destruct (writing s) as [batch |] eqn:Ew; [| done].
  assert (forall s0, (s0.(writing) = Some batch \/ s0.(writing) = None) ->
    owes s0 ⊆ omap done (queue (sendingQueue s0)) ++ omap done batch) as Ho.
  { intros s0 [H | H]; unfold owes; rewrite H, omap_app; cbn [default]; unfold id; [done | set_solver]. }
  destruct (_ =? _); apply returns_safe.
  - cbn [returns]. eapply inv_closes; [done |]. apply signal_closes; [| apply I]. intros ch0 s0 E0 Ek0. simplify_eq.
    rewrite Ek in Ek0. simplify_eq. split; [done |]. split; [split; [done | split; [done | by right]] |].
    unfold owes at 2. cbn [with_times with_writing sendingQueue writing default]. rewrite app_nil_r. apply Ho. by left.
  - eapply returns_bind; [by apply abort_ok |]. intros w1 [I1 C1]. cbn [returns]. eapply inv_closes; [done |].
    apply signal_closes; [| apply I1]. intros ch0 s0 E0 Ek0.
    split; [done |]. split; [split; [done | split; [done | by right]] |].
    unfold owes at 2. cbn [with_writing sendingQueue writing default]. rewrite app_nil_r. apply Ho.
    destruct (writing_left r ch s ch0 s0 w w1) as [-> | ->]; [apply C1 | done.. | rewrite Ew; by left | by right].
Qed.

Lemma doKeepalive_ok r time w : Inv w -> is_Some (w.(objs) !! r) -> safe Inv (doKeepalive r time w).
Proof.
  intros I E. unfold doKeepalive. destruct (wire_of_spec r w E) as [-> | (ch & s & E' & Ek & ->)]; [done |].
  cbn [mbind result_bind]. destruct (failed (error ch)); [done |]. apply returns_safe.
  destruct (_ && _ && _); [eapply returns_mono; [by apply abort_ok | by intros w1 [I1 _]] |].
  destruct (_ && _ && _); [cbn [returns] | done]. eapply inv_closes; [done |]. apply on_wire_closes; [| apply I].
  intros ch0 s0 E0 Ek0. split; [done | | done | by left |].
  - apply (insert_wire_le _ s0).
  - apply (insert_wire_le _ s0).
Qed.

(** ** Users *)

Lemma sendPacket_ok c data b w : Inv w -> is_Some (w.(objs) !! c) -> safe (fun x => Inv x.2) (sendPacket c data b w).
Proof.
  intros I [ch E]. unfold sendPacket. rewrite (deref_some _ _ _ E). cbn [mbind result_bind]. destruct (goThrough ch); [| done].
  apply returns_safe. eapply returns_bind; [apply sendPacketRaw_ok; [lia | by eexists | done] |].
  intros x (I1 & _ & K1). cbn [returns snd]. by apply inv_wait_for.
Qed.

Lemma sendPacketAsync_ok c data w : Inv w -> is_Some (w.(objs) !! c) -> returns (fun x => Inv x.2) (sendPacketAsync c data w).
Proof.
  intros I E. unfold sendPacketAsync. eapply returns_bind; [apply sendPacketRaw_ok; [lia | done | done] |].
  intros [[sent r] w1] (I1 & _). done.
Qed.

Lemma recvPacket_ok c w : Inv w -> is_Some (w.(objs) !! c) -> returns (fun x => Inv x.2) (recvPacket c w).
Proof.
  intros I [ch E]. unfold recvPacket. rewrite (deref_some _ _ _ E). cbn [mbind result_bind].
  destruct (_ && _); [done |]. destruct (negb _); [done |].
  assert ((proceed bsize Get (receivingQueue ch)).2.(m_closed) = (receivingQueue ch).(m_closed)) as Hq.
  { simpl. destruct (queue _); [destruct (m_closed (receivingQueue ch)) eqn:Hm; simpl; congruence | apply take_front_closed]. }
  destruct (proceed _ _ _) as [response q]. cbn [snd] in Hq.
  assert (forall b, Inv (update c (with_received q b) w)) as Hr by (intros b; apply (inv_received c ch); [done | done | congruence]).
  destruct response as [[e | |] |]; try apply Hr.
  destruct (_ =? 0); [apply Hr |]. destruct (wantsGoThrough _); [| apply Hr].
  eapply returns_bind; [apply sendCommand_ok; [do 2 apply update_some; by eexists |] |].
  - eapply inv_received; [apply Hr | by apply update_here | done].
  - by intros w1 (I1 & _).
Qed.

Lemma forward_received_ok src dst w : Inv w -> is_Some (w.(objs) !! src) -> is_Some (w.(objs) !! dst) ->
  returns (fun w' => Inv w' /\ keeps w w') (forward_received src dst w).
Proof.
  intros I [ch E] Ed. unfold forward_received. rewrite (deref_some _ _ _ E). cbn [mbind result_bind].
  generalize (queue (receivingQueue ch)) as l. assert (is_Some (w.(objs) !! src)) as Es by (by eexists). clear ch E.
  intros l. revert w I Es Ed. induction l as [| data l IH]; intros w I [ch E] Ed; cbn [loop]; [by split |].
  rewrite (deref_some _ _ _ E). cbn [mbind result_bind]. set (w1 := update src _ w).
  assert (Inv w1) as I1.
  { apply (inv_received src ch); [done | done |]. destruct (queue _); [done | by rewrite take_front_closed]. }
  assert (is_Some (w1.(objs) !! dst)) as Ed1 by (by apply update_some).
  eapply returns_bind.
  { eapply returns_bind; [apply (sendPacketRaw_ok (S dst) dst DataChannelNumber data NonBlock w1); [lia | done | done] |].
    intros [[sent r] w2] (I2 & M2 & _). cbn [returns]. instantiate (1 := fun w' => Inv w' /\ keeps w1 w'). simpl.
    split; [done |]. intros d. apply (objs_rel_some _ _ _ d M2). }
  intros w2 [I2 P2]. assert (keeps w w2) as P by (etrans; [apply update_keeps | apply P2]).
  eapply returns_mono; [apply IH; [done | apply P; by eexists | by apply P] |].
  intros w3 [I3 P3]. split; [done |]. by etrans.
Qed.

Lemma plug_ok c d w : Inv w -> is_Some (w.(objs) !! d) -> Inv (update c (with_plug (Some d)) w).
Proof.
  intros I Hd. destruct (w.(objs) !! c) as [ch |] eqn:E.
  2: { unfold update. by rewrite alter_id, with_objs_id by (by intros ch' E'; simplify_eq). }
  eapply inv_update_alike; [done | done | split; [apply kind_alike_refl | done | done | done] | |].
  - intros s Hs. destruct (inv_sound _ I) as (_ & R & _). destruct (decide (s = d)) as [-> |]; [done |].
    apply (R c ch s E). unfold strong in *. simpl in Hs. set_solver.
  - intros s chs Hs Es. by apply (pending_good w).
Qed.

Lemma exchange_ok c d w : Inv w -> is_Some (w.(objs) !! c) -> is_Some (w.(objs) !! d) -> returns Inv (exchange c d w).
Proof.
  intros I Ec Ed. unfold exchange. pose proof Ec as [chc Ec0]. pose proof Ed as [chd Ed0].
  rewrite (deref_some _ _ _ Ec0), (deref_some _ _ _ Ed0). cbn [mbind result_bind].
  eapply returns_bind; [by apply forward_received_ok |]. intros w1 [I1 P1].
  eapply returns_bind; [apply forward_received_ok; [done | by apply P1 | by apply P1] |]. intros w2 [I2 P2]. cbn [returns].
  apply plug_ok; [apply plug_ok; [done | by apply P2, P1] | apply update_some; by apply P2, P1].
Qed.

Lemma take_front_or_wait_ok c t w : Inv w -> is_Some (w.(objs) !! c) ->
  returns (fun x => Inv x.2) (take_front_or_wait c t w).
Proof.
  intros I [ch E]. unfold take_front_or_wait. rewrite (deref_some _ _ _ E). cbn [mbind result_bind].
  destruct (pendingChannels ch) as [| p rest] eqn:Ep; cbn [returns snd].
  - apply (inv_update_alike c _ ch); [done | done | split; [apply kind_alike_refl | done | done | done] | |].
    + intros s Hs. destruct (inv_sound _ I) as (_ & R & _). apply (R c ch s E). unfold strong in *. by rewrite Ep.
    + simpl. set_solver.
  - eapply inv_closes; [done |]. eapply pop_closes; [done | done | apply I].
Qed.

Lemma takeChannel_ok c t w : Inv w -> is_Some (w.(objs) !! c) -> returns (fun x => Inv x.2) (takeChannel c t w).
Proof.
  intros I E. unfold takeChannel. eapply returns_bind; [apply isBroken_returns; [lia | done | done] |].
  intros [] _; [done | by apply take_front_or_wait_ok].
Qed.

Lemma takers_ok c cv ch w : Inv w -> w.(objs) !! c = Some ch -> Inv (update c (with_pending ch.(pendingChannels) cv) w).
Proof.
  intros I E. apply (inv_update_alike c _ ch); [done | done | split; [apply kind_alike_refl | done | done | done] | |].
  - intros s Hs. destruct (inv_sound _ I) as (_ & R & _). by apply (R c ch s E).
  - intros s chs. exact (pending_good w c ch s chs I E).
Qed.

Lemma takeResumed_ok c t w : Inv w -> is_Some (w.(objs) !! c) -> safe (fun x => Inv x.2) (takeResumed c t w).
Proof.
  intros I [ch E]. unfold takeResumed. rewrite (deref_some _ _ _ E). cbn [mbind result_bind]. case_bool_decide; [| done].
  apply returns_safe, take_front_or_wait_ok; [by apply takers_ok | apply update_some; by eexists].
Qed.

Lemma remove_at_subseteq {A} i (l : list A) : remove_at i l ⊆ l.
Proof. intros p. unfold remove_at. rewrite elem_of_app. intros [Hp | Hp]; [by eapply subseteq_take | by eapply subseteq_drop]. Qed.

Lemma takeNumber_ok c n w : Inv w -> is_Some (w.(objs) !! c) -> returns (fun x => Inv x.2) (takeNumber c n w).
Proof.
  intros I [ch E]. unfold takeNumber. eapply returns_bind; [apply isBroken_returns; [lia | by eexists | done] |].
  intros [] _; [done |]. rewrite (deref_some _ _ _ E). cbn [mbind result_bind].
  destruct (find_pending n _ w) as [[i s] |]; [| done]. cbn [returns snd].
  assert (take i ch.(pendingChannels) ++ drop (S i) ch.(pendingChannels) ⊆ ch.(pendingChannels)) as Hl.
  { apply (remove_at_subseteq i). }
  apply (inv_update_alike c _ ch); [done | done | split; [apply kind_alike_refl | done | done | done] | |].
  - intros s' Hs. destruct (inv_sound _ I) as (_ & R & _). apply (R c ch s' E). unfold strong in *. simpl in Hs.
    rewrite elem_of_app in Hs |- *. destruct Hs as [Hs | Hs]; [left | by right].
    apply list_elem_of_omap in Hs as (p & Hp & Es). apply list_elem_of_omap. eauto.
  - intros s' chs Hs. apply (pending_good w); [done | done | by apply Hl].
Qed.

Lemma setMaxPacketSize_ok r n w : Inv w -> is_Some (w.(objs) !! r) -> safe Inv (setMaxPacketSize r n w).
Proof.
  intros I E. unfold setMaxPacketSize. destruct (wire_of_spec r w E) as [-> | (ch & s & E' & Ek & ->)]; [done |].
  cbn [mbind result_bind]. destruct (_ <? 64); [done |]. cbn [safe]. apply inv_wire; [done |].
  intros ch0 s0 E0 Ek0. split; [done |]. intros x Hx. destruct (inv_sound _ I) as (_ & R & _).
  apply (R r ch0 x E0). unfold strong. rewrite Ek0, !elem_of_app. auto.
Qed.

Lemma arrive_ok bytes last r w : Inv w -> Inv (update r (on_wire (arrive bytes last)) w).
Proof.
  intros I. apply inv_wire; [done |]. intros ch s E Ek. destruct (inv_sound _ I) as (_ & R & _).
  assert (forall x, x ∈ held_by (receiver s) -> is_Some (w.(objs) !! x)) as Hh.
  { intros x Hx. apply (R r ch x E). unfold strong. rewrite Ek, !elem_of_app. auto. }
  unfold arrive. destruct (connected s && negb (eof s)) eqn:Hc; [| by split].
  apply andb_true_iff in Hc as [Hc _]. split; [| done]. split; [| done]. intros [K _]. by split.
Qed.

(** ** Objects that go away *)

Lemma delete_ok c ch w : Inv w -> w.(objs) !! c = Some ch -> failed ch.(error) = true -> wire_tokens ch = [] ->
  (forall d chd, d <> c -> w.(objs) !! d = Some chd -> c ∉ strong chd) -> (forall p, p ∈ w.(senders) -> p.(root) <> c) ->
  Inv (with_objs (delete c w.(objs)) w).
Proof.
  intros [(L & R & W & O) T D K P N A Ro] E F Ht Hr Hs.
  assert (forall d x, delete c w.(objs) !! d = Some x -> d <> c /\ w.(objs) !! d = Some x) as B.
  { intros d x Hd. by apply lookup_delete_Some in Hd as [? ?]. }
  split; cbn [objs with_objs fresh senders awaiting].
  - split; [| split; [| split]].
    + intros d chd p n _ Ed He Ek. destruct (B _ _ Ed) as [Hd Ed']. destruct (L d chd p n) as (Hp & pc & Ep & Hn); try done.
      split; [done |]. exists pc. rewrite lookup_delete_ne; [done |]. intros <-. simplify_eq.
      destruct (proj1 (T c ch E) F) as [Hsub _]. by rewrite Hsub, lookup_empty in Hn.
    + intros d chd s Ed Hin. destruct (B _ _ Ed) as [Hd Ed']. destruct (decide (c = s)) as [<- |]; [by eapply Hr in Hin |].
      rewrite lookup_delete_ne by done. by eapply R.
    + intros d chd s Ed. destruct (B _ _ Ed). by eapply W.
    + intros p pc s chs Ep Es. destruct (B _ _ Ep), (B _ _ Es). by apply O.
  - intros d chd Ed. destruct (B _ _ Ed) as [Hd Ed']. destruct (T d chd Ed') as [T1 T2]. split; [done |].
    intros n s chs Hn Es. destruct (B _ _ Es). by apply (T2 n s chs).
  - intros d [x Hd]. apply D. destruct (B _ _ Hd). by eexists.
  - intros d chd n s Ed. destruct (B _ _ Ed). by eapply K.
  - intros p pc s chs q n s' Ep Hp Es. destruct (B _ _ Ep), (B _ _ Es). by eapply P.
  - intros p Hp. destruct (N p Hp) as (x & s & Ex & Ek). exists x, s. rewrite lookup_delete_ne; [done |]. intros Hc. by apply (Hs p Hp).
  - intros t who Hw. destruct (A t who Hw) as [Hin | (d & chd & Ed & Hin)]; [by left | right]. exists d, chd.
    cbn [objs with_objs]. rewrite lookup_delete_ne; [done |]. intros <-. simplify_eq. rewrite Ht in Hin. set_solver.
  - intros d Hd x n Ed. destruct (B _ _ Ed). by apply (Ro d).
Qed.

Lemma killSending_closes r ch s w : w.(objs) !! r = Some ch -> ch.(kind) = SocketChannel s -> linked None w.(objs) ->
  closes None w (killSending r s w) /\ forall ch' s', (killSending r s w).(objs) !! r = Some ch' ->
    ch'.(kind) = SocketChannel s' -> s'.(writing) = None.
Proof.
  intros E Ek L. unfold killSending. destruct (writing s) as [b |] eqn:Ew.
  2: { split; [by apply closes_refl |]. intros ch' s' E' Ek'. simplify_eq. rewrite Ek in Ek'. by simplify_eq. }
  split.
  - apply signal_closes; [| done]. intros ch0 s0 E0 Ek0. simplify_eq. rewrite Ek in Ek0. simplify_eq.
    split; [done |]. split; [split; [done | split; [done | by right]] |].
    unfold owes. cbn [with_writing sendingQueue writing]. rewrite Ew, !omap_app. cbn [default]. set_solver.
  - intros ch' s'. cbn [objs signal]. rewrite (update_here _ _ _ _ E). intros [= <-]. unfold on_wire. rewrite Ek.
    simpl. intros [= <-]. done.
Qed.

Lemma killReceiving_writing r ch s w : w.(objs) !! r = Some ch -> ch.(kind) = SocketChannel s ->
  exists ch', (killReceiving r w).(objs) !! r = Some ch' /\ ch'.(kind) = SocketChannel (with_receiver Gone s).
Proof.
  intros E Ek. exists (on_wire (with_receiver Gone) ch). cbn [killReceiving with_waits objs].
  split; [by apply update_here |]. unfold on_wire. by rewrite Ek.
Qed.

(** The coroutines of a connection that is deleted leave nothing unanswered. *)
Lemma reap_closes c ch w : Inv w -> w.(objs) !! c = Some ch -> failed ch.(error) = true ->
  let w' := match ch.(kind) with SocketChannel s => killSending c s (killReceiving c w) | _ => w end in
  closes None w w' /\ forall ch', w'.(objs) !! c = Some ch' -> wire_tokens ch' = [].
Proof.
  intros I E F. cbv zeta. destruct (kind ch) as [s | p n] eqn:Ek.
  2: { split; [apply closes_refl, I |]. intros ch' E'. simplify_eq. unfold wire_tokens. by rewrite Ek. }
  destruct (killReceiving_closes c w) as [C1 _]; [apply I |].
  destruct (killReceiving_writing c ch s w E Ek) as (ch1 & E1 & Ek1).
  destruct (killSending_closes c ch1 _ (killReceiving c w) E1 Ek1) as [C2 Hw]; [apply C1 |].
  change (killSending c (with_receiver Gone s)) with (killSending c s) in *.
  split; [by eapply closes_trans |]. intros ch' E'. unfold wire_tokens. destruct (kind ch') as [s' |] eqn:Ek'; [| done].
  rewrite (Hw ch' s' E' Ek'). pose proof (inv_closes _ _ (inv_closes _ _ I C1) C2) as I2.
  destruct (still_failed c _ _ _ (closes_closing _ _ _ (closes_trans _ _ _ _ C1 C2)) E F) as (? & E2 & F2 & _). simplify_eq.
  assert (failed (error ch') = true) as F' by (by rewrite F2).
  destruct (proj1 (inv_tidy _ I2 c ch' E') F') as [_ [Ho _]]. destruct (inv_sound _ I2) as (_ & _ & W & _).
  destruct (W c ch' s' E' Ek') as [K1 K2]. by rewrite (K1 (K2 (Ho s' Ek'))).
Qed.

Lemma referenced_strong c w d chd : referenced c w = false -> d <> c -> w.(objs) !! d = Some chd -> c ∉ strong chd.
Proof.
  intros H Hd E. assert (refers c chd = false) as Hr.
  { destruct (refers c chd) eqn:Hr; [| done]. exfalso. assert (referenced c w = true) as Ht; [| by rewrite Ht in H].
    apply existsb_exists. exists (d, chd). rewrite <- list_elem_of_In, elem_of_map_to_list.
    split; [done |]. cbn [fst snd]. by rewrite Hr, bool_decide_eq_false_2. }
  unfold refers in Hr. rewrite !orb_false_iff, !bool_decide_eq_false in Hr. destruct Hr as [[H1 H2] H3].
  unfold strong. rewrite !elem_of_app. intros [Hc | [Hc | Hc]].
  - apply list_elem_of_omap in Hc as (p & Hp & Ep). unfold id in Ep. by subst.
  - destruct (pluggedChannel chd) as [q |]; simpl in Hc; [apply list_elem_of_singleton in Hc; by subst | set_solver].
  - destruct (kind chd) as [s |]; [| set_solver]. destruct (receiver s); simpl in Hc; try set_solver;
      by rewrite bool_decide_eq_false in H3.
Qed.

Lemma destroy_ok c w : Inv w -> is_Some (w.(objs) !! c) -> (forall p, p ∈ w.(senders) -> p.(root) <> c) ->
  safe Inv (destroy c w).
Proof.
  intros I [ch E] Hs. unfold destroy. rewrite (deref_some _ _ _ E). cbn [mbind result_bind].
  destruct (referenced c w) eqn:Hr; [done |]. cbn [orb]. destruct (_ <? _); [done |]. apply returns_safe.
  eapply returns_bind; [apply abortChannel_returns; [done | by eexists | apply I] |]. intros w1 [C1 F1].
  pose proof (inv_closes _ _ I C1) as I1. destruct (inv_some _ _ c C1 ltac:(by eexists)) as [ch1 E1].
  rewrite (deref_some _ _ _ E1). cbn [mbind result_bind returns].
  destruct (reap_closes c ch1 w1 I1 E1 (F1 ch1 E1)) as [C2 Ht]. set (w2 := match kind ch1 with _ => _ end) in *.
  pose proof (closes_trans _ _ _ _ C1 C2) as C. destruct (inv_some _ _ c C2 ltac:(by eexists)) as [ch2 E2].
  destruct (still_failed c _ _ _ (closes_closing _ _ _ C2) E1 (F1 ch1 E1)) as (? & E3 & F3 & _). simplify_eq.
  apply (delete_ok c ch2); [by eapply inv_closes | done | by rewrite F3, (F1 ch1 E1) | by apply Ht | |].
  - intros d chd Hd Ed. destruct (objs_rel_bwd _ _ _ _ _ (closing_objs _ _ (closes_closing _ _ _ C)) Ed) as (chd0 & Ed0 & Hsh).
    intros Hin. eapply (referenced_strong c w d chd0); [done | done | done |]. by apply (shrinks_strong _ _ Hsh).
  - intros p Hp. apply Hs. by apply (closing_senders _ _ (closes_closing _ _ _ C)).
Qed.

(** ** Coroutines that waited for a packet to be sent *)

Lemma answered_ok who time ok w : Inv w -> safe (fun x => Inv x.1) (answered who time ok w).
Proof.
  intros I. unfold answered. destruct who as [| r]; [done |]. case_bool_decide as E; [| done]. unfold silent.
  pose proof (forwarded_ok r time ok w I E) as H. by destruct (forwarded r time ok w).
Qed.

Lemma inv_waits l a w : l ⊆ w.(senders) -> a ⊆ w.(awaiting) -> Inv w -> Inv (with_waits l a w).
Proof. intros Hl Ha I. eapply inv_closes; [done |]. apply with_waits_closes; [done | done | apply I]. Qed.

Lemma admit_parked_ok i time w : Inv w -> safe (fun x => Inv x.1) (admit_parked i time w).
Proof.
  intros I. unfold admit_parked. destruct (w.(senders) !! i) as [p |] eqn:Ei; [| done].
  destruct (inv_senders _ I p) as (ch & s & E & Ek); [by eapply list_elem_of_lookup_2 |].
  unfold wire_of. rewrite (deref_some _ _ _ E). cbn [mbind result_bind]. rewrite Ek. cbn [mbind result_bind].
  set (w1 := with_waits _ _ w).
  assert (Inv w1) as I1 by (apply inv_waits; [apply remove_at_subseteq | done | done]).
  destruct (admit_packet_ok (root p) ch s (waits p) w1 I1 E Ek) as (I2 & _ & K & _).
  destruct (admit_packet _ s _ w1) as [[| | q | t] w2]; cbn [fst snd] in *; try done; [by apply answered_ok.. |].
  cbn [safe fst]. by apply inv_wait_for.
Qed.

Lemma complete_ok i time w : Inv w -> safe (fun x => Inv x.1) (complete i time w).
Proof.
  intros I. unfold complete. destruct (w.(awaiting) !! i) as [[t who] |]; [| done].
  destruct (list_find _ _) as [[? [? ok]] |]; [| done].
  apply answered_ok, inv_waits; [done | apply remove_at_subseteq | done].
Qed.

(** ** Runs *)

(** The three things that a program must leave alone: a number that the peer chose for a
    channel of ours, a number that names a channel still waiting to be taken, and a
    connection in which a coroutine waits. *)
Definition honest (a : Action) (w : World) : bool :=
  match a with
  | Make c =>
      match w.(objs) !! c with
      | Some ch => negb (bool_decide (is_Some (ch.(subChannels) !! ch.(nextChannelNumber)))
                         || pending_number c ch.(nextChannelNumber) w)
      | None => true
      end
  | DoReceive r _ => negb (reads_reused r w)
  | Destroy c => forallb (fun p => negb (bool_decide (p.(root) = c))) w.(senders)
  | _ => true
  end.

Fixpoint honest_run (l : list Action) (w : World) : bool :=
  match l with
  | [] => true
  | a :: l' => honest a w && match exec a w with Ret (w', _) => honest_run l' w' | _ => true end
  end.

Lemma safe_silent Q r : safe Q r -> safe (fun x : World * Answer => Q x.1) (silent r).
Proof. by destruct r. Qed.

Lemma safe_answer {A} (f : A -> Answer) (Q : World -> Prop) (r : result (A * World)) : safe (fun x => Q x.2) r ->
  safe (fun x : World * Answer => Q x.1) ('(p, w) ← r; Ret (w, f p)).
Proof. by destruct r as [[] | | |]. Qed.

Lemma open_ok pole time w : Inv w ->
  Inv (mkWorld (<[w.(fresh) := newChannel (SocketChannel (newWire time)) pole (128 * 1024) 8]> w.(objs))
         (S w.(fresh)) w.(tokens) w.(signals) w.(senders) w.(awaiting)).
Proof.
  intros [(L & R & W & O) T D K P N A Ro]. set (id := fresh w). set (new := newChannel _ _ _ _).
  assert (w.(objs) !! id = None) as Hn.
  { destruct (w.(objs) !! id) eqn:E; [| done]. assert (id < id)%nat; [apply D; by eexists | lia]. }
  assert (forall d x, <[id := new]> w.(objs) !! d = Some x -> (d = id /\ x = new) \/ (d <> id /\ w.(objs) !! d = Some x)) as B.
  { intros d x Hd. apply lookup_insert_Some in Hd as [[<- <-] | [? ?]]; auto. }
  assert (forall n s, new.(subChannels) !! n <> Some s) as Hnew by (intros n s; apply lookup_empty_Some).
  assert (forall d x, w.(objs) !! d = Some x -> <[id := new]> w.(objs) !! d = Some x) as B'.
  { intros d x Hd. rewrite lookup_insert_ne; [done |]. intros <-. by simplify_eq. }
  assert (forall p pc n s chs, w.(objs) !! p = Some pc -> pc.(subChannels) !! n = Some s ->
    <[id := new]> w.(objs) !! s = Some chs -> w.(objs) !! s = Some chs) as Bs.
  { intros p pc n s chs Ep Hs Es. destruct (B _ _ Es) as [[-> ->] | [_ ?]]; [| done]. pose proof (K p pc n id Ep Hs). unfold id in *. lia. }
  split; cbn [objs fresh senders awaiting].
  - split; [| split; [| split]].
    + intros d x p n _ Ed He Ek. destruct (B _ _ Ed) as [[-> ->] | [Hd Ed']]; [done |].
      destruct (L d x p n) as (Hp & pc & Ep & Hsub); try done. split; [done |]. exists pc. auto.
    + intros d x s Ed Hs. destruct (B _ _ Ed) as [[-> ->] | [Hd Ed']]; [by apply elem_of_nil in Hs |].
      destruct (R _ _ _ Ed' Hs) as [y Hy]. exists y. auto.
    + intros d x s Ed Ek. destruct (B _ _ Ed) as [[-> ->] | [Hd Ed']]; [| by eapply W]. simpl in Ek. by simplify_eq.
    + intros p pc s chs Ep Es. destruct (B _ _ Ep) as [[-> ->] | [Hp Ep']].
      { split; [intros n Hs; by apply Hnew in Hs | intros Hs; by apply elem_of_nil in Hs]. }
      split; [intros n Hs; eapply O; eauto |]. intros Hs. destruct (R p pc s Ep') as [y Hy].
      { unfold strong. rewrite elem_of_app. left. apply list_elem_of_omap. by exists (Some s). }
      rewrite (B' _ _ Hy) in Es. simplify_eq. by apply (O p pc s chs).
  - intros d x Ed. destruct (B _ _ Ed) as [[-> ->] | [Hd Ed']]; [split; [done |]; intros n s chs Hs; by apply Hnew in Hs |].
    destruct (T d x Ed') as [T1 T2]. split; [done |]. intros n s chs Hs Es. apply (T2 n s chs); [done |]. eauto.
  - intros d [x Ed]. destruct (B _ _ Ed) as [[-> ->] | [Hd Ed']]; [unfold id; lia |]. assert (d < fresh w)%nat; [apply D; by eexists | lia].
  - intros d x n s Ed Hs. destruct (B _ _ Ed) as [[-> ->] | [Hd Ed']]; [by apply Hnew in Hs |].
    pose proof (K _ _ _ _ Ed' Hs). lia.
  - intros p pc s chs q n s' Ep Hp Es Ek Hs. destruct (B _ _ Ep) as [[-> ->] | [Hd Ep']]; [by apply Hnew in Hs |].
    destruct (B _ _ Es) as [[-> ->] | [_ Es']]; [done |]. exact (P p pc s chs q n s' Ep' Hp Es' Ek Hs).
  - intros p Hp. destruct (N p Hp) as (x & s & Ex & Ek). exists x, s. auto.
  - intros t who Hw. destruct (A t who Hw) as [Hin | (d & x & Ed & Hin)]; [by left | right]. exists d, x. auto.
  - intros d Hd x n Ed. destruct (B _ _ Ed) as [[-> ->] | [_ Ed']]; [done | by apply (Ro d)].
Qed.

Lemma empty_ok : Inv empty_world.
Proof.
  assert (forall d x, empty_world.(objs) !! d <> Some x) as H by (intros d x; apply lookup_empty_Some).
  split; try (by intros p Hp; apply elem_of_nil in Hp); try (by intros t who Hp; apply elem_of_nil in Hp).
  - split; [| split; [| split]]; repeat intro; exfalso; by eapply H.
  - intros d x E. by apply H in E.
  - intros c [ch E]. by apply H in E.
  - intros c ch n s E. by apply H in E.
  - intros p pc s chs q n s' E. by apply H in E.
  - intros d _ ch n E. by apply H in E.
Qed.

Lemma action_ok a w : Inv w -> honest a w = true -> safe (fun x => Inv x.1) (exec a w).
Proof.
  intros I H. unfold exec. destruct (forallb _ (uses a)) eqn:U; [cbn [negb] | done].
  assert (forall c, c ∈ uses a -> is_Some (w.(objs) !! c)) as E.
  { intros c Hc. apply list_elem_of_In in Hc. rewrite forallb_forall in U. by apply U, bool_decide_eq_true in Hc. }
  destruct a; cbn [uses] in E; try (assert (is_Some (w.(objs) !! c)) as Ec by (apply E; set_solver));
    try (assert (is_Some (w.(objs) !! r)) as Er by (apply E; set_solver));
    try (apply safe_answer); try (apply safe_silent).
  - by apply open_ok.
  - apply returns_safe, makeChannel_ok; [done | done |]. intros ch Ech. simpl in H. rewrite Ech in H.
    apply negb_true_iff, orb_false_iff in H as [H1 H2]. apply bool_decide_eq_false in H1. split.
    + by destruct (subChannels ch !! nextChannelNumber ch) eqn:En; [destruct H1 |].
    + by apply pending_number_spec with c.
  - by apply returns_safe, takeChannel_ok.
  - by apply takeResumed_ok.
  - by apply returns_safe, takeNumber_ok.
  - by apply sendPacket_ok.
  - by apply returns_safe, sendPacketAsync_ok.
  - by apply returns_safe, recvPacket_ok.
  - apply returns_safe. eapply returns_mono; [by apply abort_ok | by intros w' []].
  - apply destroy_ok; [done | done |]. intros p Hp. simpl in H. rewrite forallb_forall in H.
    apply list_elem_of_In, H in Hp. by apply negb_true_iff, bool_decide_eq_false in Hp.
  - apply returns_safe, exchange_ok; [done | done | apply E; set_solver].
  - destruct Ec as [ch Ec]. unfold setCapacityOf. rewrite (deref_some _ _ _ Ec). cbn [mbind result_bind safe].
    by apply inv_update_same.
  - by apply setMaxPacketSize_ok.
  - by apply arrive_ok.
  - by apply arrive_ok.
  - by apply doSend_ok.
  - by apply doSent_ok.
  - apply doReceive_ok; [done | done |]. by apply negb_true_iff in H.
  - by apply resumePut_ok.
  - by apply doKeepalive_ok.
  - by apply admit_parked_ok.
  - by apply complete_ok.
  - destruct (senders w !! i) as [[? ? []] |]; try done. apply inv_waits; [apply remove_at_subseteq | done | done].
  - destruct (awaiting w !! i) as [[? []] |]; try done. apply inv_waits; [done | apply remove_at_subseteq | done].
Qed.

Lemma run_ok l : forall w, Inv w -> honest_run l w = true -> safe Inv (execs l w).
Proof.
  induction l as [| a l IH]; intros w I H; [done |]. cbn [execs honest_run] in *. apply andb_true_iff in H as [H1 H2].
  pose proof (action_ok a w I H1) as S. destruct (exec a w) as [[w' x] | | |]; try done. by apply IH.
Qed.
