(* ===== verification/DataChannelRoute.v ===== *)
(** * Channels: packets reach the channel they are sent on

    A channel is named by the numbers from its connection down to it.  What is sent on a
    channel travels wrapped in these numbers ([sendPacketRaw]), in frames on the connection
    ([doSend]), and is unwrapped on the way to the channel of the same name at the peer
    ([doReceive], [handleIncomingPacket]). *)

From stdpp Require Import gmap sorting.
From S2P Require Import Prelude Queue DataChannel DataChannelProofs DataChannelSafety DataChannelRuns.

Implicit Types (w : World) (o : gmap nat Channel) (ch : Channel).

(** ** Names *)

Fixpoint resolve (path : list Z) (c : nat) (w : World) : option nat :=
  match path with
  | [] => Some c
  | n :: path => ch ← w.(objs) !! c; s ← ch.(subChannels) !! n; _ ← w.(objs) !! s; resolve path s w
  end.

(** The number and the payload that the connection sees. *)
Fixpoint route (path : list Z) (n : Z) (data : list Z) : Z * list Z :=
  match path with
  | [] => (n, data)
  | m :: path => let x := route path n data in (m, be_encode 4 x.1 ++ x.2)
  end.

Definition is_number (n : Z) : Prop := 2 <= n < 2 ^ 32.

Lemma route_snoc path m n data : route (path ++ [m]) n data = route path m (be_encode 4 n ++ data).
Proof. induction path as [| k path IH]; [done |]. cbn [route app]. by rewrite IH. Qed.

Lemma zlen_route path n data : zlen (route path n data).2 = zlen data + 4 * zlen path.
Proof.
  induction path as [| m path IH]; [cbn [route snd]; unfold zlen; simpl; lia |].
  cbn [route snd]. rewrite zlen_app, zlen_be_encode, IH, zlen_cons. lia.
Qed.

Lemma route_number path n data : Forall is_number path -> 0 <= n < 2 ^ 32 -> 0 <= (route path n data).1 < 2 ^ 32.
Proof. intros H Hn. destruct path; [done |]. inversion H as [| ? ? [] ?]. cbn [route fst]. lia. Qed.

Lemma resolve_snoc path m c w : resolve (path ++ [m]) c w = p ← resolve path c w; resolve [m] p w.
Proof.
  revert c. induction path as [| k path IH]; intros c; [done |]. cbn [app]. cbn [resolve].
  destruct (w.(objs) !! c) as [ch |]; cbn [mbind option_bind]; [| done].
  destruct (subChannels ch !! k) as [s |]; cbn [mbind option_bind]; [| done].
  destruct (w.(objs) !! s) as [x |]; cbn [mbind option_bind]; [apply IH | done].
Qed.

Lemma resolve_one m c d w : resolve [m] c w = Some d ->
  exists ch chd, w.(objs) !! c = Some ch /\ ch.(subChannels) !! m = Some d /\ w.(objs) !! d = Some chd.
Proof.
  cbn [resolve]. destruct (w.(objs) !! c) as [ch |]; cbn [mbind option_bind]; [| done].
  destruct (subChannels ch !! m) as [s |] eqn:Es; cbn [mbind option_bind]; [| done].
  destruct (w.(objs) !! s) as [x |] eqn:Ex; cbn [mbind option_bind]; [| done]. intros [= <-]. eauto.
Qed.

(** ** Sending *)

Lemma sendPacketRaw_root k r ch s n data b w : w.(objs) !! r = Some ch -> ch.(kind) = SocketChannel s ->
  sendPacketRaw (S k) r n data b w = sendPacketRaw 1 r n data b w.
Proof. intros E Ek. cbn [sendPacketRaw]. rewrite (deref_some _ _ _ E). cbn [mbind result_bind]. by rewrite Ek. Qed.

Lemma sendPacketRaw_route path : forall r c ch s fuel n data b w, Inv w -> w.(objs) !! r = Some ch ->
  ch.(kind) = SocketChannel s -> resolve path r w = Some c -> (c < fuel)%nat -> 0 < zlen data ->
  sendPacketRaw fuel c n data b w = sendPacketRaw 1 r (route path n data).1 (route path n data).2 b w.
Proof.
  induction path as [| m path IH] using rev_ind; intros r c ch s fuel n data b w I E Ek Hr Hc Hd.
  - simpl in Hr. simplify_eq. destruct fuel; [lia |]. by eapply sendPacketRaw_root.
  - rewrite resolve_snoc in Hr. destruct (resolve path r w) as [p |] eqn:Hp; [| done]. cbn [mbind option_bind] in Hr.
    apply resolve_one in Hr as (chp & chc & Ep & Hm & Ec).
    destruct (proj2 (inv_tidy _ I p chp Ep) m c chc Hm Ec) as [He Hk].
    destruct (proj1 (inv_sound _ I) c chc p m) as [Hlt _]; [done | done | done | done |].
    destruct fuel as [| fuel]; [lia |]. cbn [sendPacketRaw]. rewrite (deref_some _ _ _ Ec). cbn [mbind result_bind].
    rewrite Hk, He. cbn [failed orb]. destruct (zlen data =? 0) eqn:H0; [lia |].
    rewrite route_snoc. apply (IH r p ch s); [done.. | lia | rewrite zlen_app, zlen_be_encode; lia].
Qed.

(** ** Frames *)

Lemma be4_split n l : 0 <= n < 2 ^ 32 -> be_decode (take 4 (be_encode 4 n ++ l)) = n /\ drop 4 (be_encode 4 n ++ l) = l.
Proof.
  intros H. pose proof (length_be_encode 4 n) as Hl.
  rewrite take_app_length', drop_app_length' by done. split; [| done]. by apply be_encode_decode_small.
Qed.

Definition framed (s : Wire) (n : Z) (payload : list Z) : Prop :=
  0 <= n < 2 ^ 32 /\ zlen payload <= s.(maxPayload) /\ zlen payload < 2 ^ 31.

Lemma recvall_here l rest s : s.(connected) = true -> s.(inbox) = l ++ rest ->
  recvall (zlen l) s = Some (l, with_stream true rest s.(eof) s).
Proof.
  intros Hc Hi. unfold recvall. rewrite Hc, Hi, zlen_app. pose proof (zlen_nonneg rest).
  cbn [negb]. destruct (_ <=? _) eqn:H0; [| lia]. by rewrite zlen_to_nat, take_app_length, drop_app_length.
Qed.

Lemma readPacket_frame p rest s : framed s p.(channelNumber) p.(packet) -> s.(connected) = true ->
  s.(inbox) = frame p ++ rest ->
  readPacket s = Some (ReadPacket p.(channelNumber) p.(packet), with_stream true rest s.(eof) s).
Proof.
  intros (Hn & Hm & Hs) Hc Hi. pose proof (zlen_nonneg (packet p)) as H0. unfold frame in Hi.
  assert (u32 (zlen (packet p)) = zlen (packet p)) as Hu by (unfold wrapu; apply Z.mod_small; lia).
  assert (s32 (zlen (packet p)) = zlen (packet p)) as Hw by (unfold wraps; rewrite Z.mod_small; lia).
  rewrite Hu, app_assoc, <- app_assoc in Hi. unfold readPacket.
  set (header := be_encode 4 (zlen (packet p)) ++ be_encode 4 (channelNumber p)) in *.
  assert (zlen header = 8) as Hh by (unfold header; by rewrite zlen_app, !zlen_be_encode).
  rewrite <- Hh at 1. rewrite (recvall_here header (packet p ++ rest) s Hc) by done. cbn [mbind option_bind].
  rewrite Hh. cbn [Z.eqb negb Pos.eqb]. unfold header.
  destruct (be4_split (zlen (packet p)) (be_encode 4 (channelNumber p))) as [-> ->]; [lia |].
  rewrite (be_encode_decode_small 4) by (simpl; lia). cbn [maxPayload with_stream].
  destruct (_ >? _) eqn:Hg; [lia |]. rewrite Hw.
  rewrite (recvall_here (packet p) rest) by done. cbn [mbind option_bind].
  assert (u64 (zlen (packet p)) = zlen (packet p)) as -> by (unfold wrapu; apply Z.mod_small; lia).
  by rewrite Z.eqb_refl.
Qed.

(** ** What an operation leaves as it is *)

(** How a channel is connected to others, what it has received, and where its stream is. *)
Definition face ch : (Z * bool + option nat * Z) * gmap Z nat * ChannelError * option nat :=
  (match ch.(kind) with SocketChannel s => inl (s.(maxPayload), s.(connected)) | VirtualChannel p n => inr (p, n) end,
   ch.(subChannels), ch.(error), ch.(pluggedChannel)).
Definition faces w := face <$> w.(objs).
Definition inboxes w : gmap nat (Queue (T := list Z)) := receivingQueue <$> w.(objs).
Definition stream_at ch : option (list Z * bool * Receiver) :=
  match ch.(kind) with SocketChannel s => Some (s.(inbox), s.(eof), s.(receiver)) | VirtualChannel _ _ => None end.
Definition streams w := stream_at <$> w.(objs).

Record aside w w' : Prop := {
  aside_faces : faces w' = faces w;
  aside_inboxes : inboxes w' = inboxes w;
  aside_streams : streams w' = streams w
}.

#[export] Instance aside_preorder : PreOrder aside.
Proof. split; [by split | intros a b c [] []; split; congruence]. Qed.

Lemma fmap_update {B} (g : Channel -> B) c f w : (forall ch, w.(objs) !! c = Some ch -> g (f ch) = g ch) ->
  g <$> (update c f w).(objs) = g <$> w.(objs).
Proof.
  intros H. apply map_eq. intros d. rewrite !lookup_fmap. destruct (decide (c = d)) as [<- |].
  - cbn [objs update with_objs]. rewrite lookup_alter_eq. destruct (w.(objs) !! c) as [ch |]; [| done]. simpl. by rewrite H.
  - by rewrite update_there.
Qed.

Lemma update_aside c f w : (forall ch, face (f ch) = face ch /\ receivingQueue (f ch) = receivingQueue ch
    /\ stream_at (f ch) = stream_at ch) -> aside w (update c f w).
Proof. intros H. split; apply fmap_update; intros ch _; apply H. Qed.

Lemma on_wire_aside c f w : (forall s, (f s).(maxPayload) = s.(maxPayload) /\ (f s).(connected) = s.(connected)
    /\ (f s).(inbox) = s.(inbox) /\ (f s).(eof) = s.(eof) /\ (f s).(receiver) = s.(receiver)) -> aside w (update c (on_wire f) w).
Proof.
  intros H. apply update_aside. intros ch. unfold on_wire, face, stream_at. destruct (kind ch) as [s |] eqn:Ek; [| by rewrite Ek].
  destruct (H s) as (H1 & H2 & H3 & H4 & H5). simpl. by rewrite H1, H2, H3, H4, H5.
Qed.

Lemma sendPacketRaw_aside fuel : forall c n data w x, sendPacketRaw fuel c n data NonBlock w = Ret x -> aside w x.2.
Proof.
  induction fuel as [| fuel IH]; intros c n data w x; [done |]. cbn [sendPacketRaw]. unfold deref.
  destruct (w.(objs) !! c) as [ch |]; [| done]. cbn [mbind result_bind]. destruct (kind ch) as [s | [p |] m].
  - destruct (_ || _); [intros; simplify_eq; reflexivity |]. destruct (_ >? _); [intros; simplify_eq; reflexivity |].
    destruct (insert _ _ _ _) as [ok q]. intros. simplify_eq. by apply on_wire_aside.
  - destruct (_ || _); [intros; simplify_eq; reflexivity | apply IH].
  - intros; simplify_eq; reflexivity.
Qed.

Lemma sendCommand_aside c data w : Inv w -> is_Some (w.(objs) !! c) ->
  returns (fun w' => Inv w' /\ aside w w') (sendCommand c data w).
Proof.
  intros I E. pose proof (sendCommand_ok c data w E I) as H. unfold sendCommand in *.
  destruct (sendPacketRaw _ _ _ _ _ w) as [[[s r] w'] | | |] eqn:Hs; try done. cbn [mbind result_bind returns] in *.
  split; [apply H | by apply (sendPacketRaw_aside _ _ _ _ _ _ Hs)].
Qed.

Lemma resolve_faces path : forall c w w', faces w' = faces w -> resolve path c w' = resolve path c w.
Proof.
  induction path as [| n path IH]; intros c w w' H; [done |]. cbn [resolve].
  pose proof (f_equal (lookup c) H) as Hc. unfold faces in Hc. rewrite !lookup_fmap in Hc.
  destruct (w.(objs) !! c) as [ch |], (w'.(objs) !! c) as [ch' |]; try done. cbn [mbind option_bind].
  assert (ch'.(subChannels) = ch.(subChannels)) as -> by (unfold face in Hc; simpl in Hc; congruence).
  destruct (subChannels ch !! n) as [s |]; [| done]. cbn [mbind option_bind].
  pose proof (f_equal (lookup s) H) as Hs. unfold faces in Hs. rewrite !lookup_fmap in Hs.
  destruct (w.(objs) !! s), (w'.(objs) !! s); try done. by apply IH.
Qed.

(** No channel on the way is plugged into another. *)
Fixpoint unplugged (path : list Z) (c : nat) (w : World) : bool :=
  match w.(objs) !! c with
  | Some ch =>
      bool_decide (ch.(pluggedChannel) = None)
      && match path with
         | [] => true
         | n :: path => match ch.(subChannels) !! n with Some s => unplugged path s w | None => false end
         end
  | None => false
  end.

Lemma unplugged_faces path : forall c w w', faces w' = faces w -> unplugged path c w' = unplugged path c w.
Proof.
  induction path as [| n path IH]; intros c w w' H; cbn [unplugged];
    (pose proof (f_equal (lookup c) H) as Hc; unfold faces in Hc; rewrite !lookup_fmap in Hc;
     destruct (w.(objs) !! c) as [ch |], (w'.(objs) !! c) as [ch' |]; try done;
     assert (ch'.(subChannels) = ch.(subChannels) /\ ch'.(pluggedChannel) = ch.(pluggedChannel)) as [Hsub ->]
       by (unfold face in Hc; simpl in Hc; split; congruence)); [done |].
  rewrite Hsub. destruct (subChannels ch !! n) as [s |]; [| done]. by rewrite (IH s w w' H).
Qed.

(** ** Receiving *)

Lemma resolve_next n path c d w : resolve (n :: path) c w = Some d -> exists ch s chs,
  w.(objs) !! c = Some ch /\ ch.(subChannels) !! n = Some s /\ w.(objs) !! s = Some chs /\ resolve path s w = Some d.
Proof.
  cbn [resolve]. destruct (w.(objs) !! c) as [ch |]; cbn [mbind option_bind]; [| done].
  destruct (subChannels ch !! n) as [s |] eqn:Es; cbn [mbind option_bind]; [| done].
  destruct (w.(objs) !! s) as [chs |] eqn:Ex; cbn [mbind option_bind]; [| done]. intros. exists ch, s, chs. auto.
Qed.

Lemma number_other n : is_number n -> (n =? DataChannelNumber) = false /\ (n =? CommandChannelNumber) = false.
Proof. unfold is_number, DataChannelNumber, CommandChannelNumber. lia. Qed.

(** What the channels on the way hand on as it is. *)
Definition handed_on (i : Incoming) : Prop := match i with Handled e => e = NoError | Waits _ => True end.

(** A packet is passed down to the channel it is for; [i] is what that makes of it, holding
    the channels on the way. *)
Lemma handle_route path : forall r held c d fuel n data i w w', resolve path c w = Some d -> unplugged path c w = true ->
  Forall is_number path -> 0 <= n < 2 ^ 32 -> (length path < fuel)%nat -> (forall held, handed_on (i held)) ->
  (forall held fuel, handleIncomingPacket (S fuel) r held d n data w = Ret (i held, w')) ->
  exists held', handleIncomingPacket fuel r held c (route path n data).1 (route path n data).2 w = Ret (i held', w').
Proof.
  induction path as [| m path IH]; intros r held c d fuel n data i w w' Hr Hu Hp Hn Hf Hi Hd.
  - simpl in Hr. simplify_eq. destruct fuel; [simpl in Hf; lia |]. exists held. apply Hd.
  - apply resolve_next in Hr as (ch & s & chs & Ec & Hm & Es & Hr). destruct fuel as [| fuel]; [simpl in Hf; lia |].
    cbn [unplugged] in Hu. rewrite Ec, Hm in Hu. apply andb_true_iff in Hu as [Hg Hu]. apply bool_decide_eq_true in Hg.
    inversion Hp as [| ? ? Hm2 Hp2]. subst. destruct (number_other m Hm2) as [N1 N2].
    destruct (IH r (s :: held) s d fuel n data i w w') as [held' Hx]; try done; [simpl in Hf; lia |]. exists held'.
    cbn [handleIncomingPacket route fst snd]. rewrite (deref_some _ _ _ Ec). cbn [mbind result_bind].
    rewrite Hg, N1, N2, Hm, Es. destruct (_ <? 4) eqn:Hl.
    { rewrite zlen_app, zlen_be_encode in Hl. pose proof (zlen_nonneg (route path n data).2). exfalso. apply Z.ltb_lt in Hl. lia. }
    destruct (be4_split (route path n data).1 (route path n data).2) as [-> ->]; [by apply route_number |].
    rewrite Hx. cbn [mbind result_bind]. specialize (Hi held'). destruct (i held') as [e |]; [by rewrite Hi | done].
Qed.

Lemma names_route path : forall c d fuel data w, resolve path c w = Some d -> unplugged path c w = true ->
  Forall is_number path -> names fuel c (route path DataChannelNumber data).1 (route path DataChannelNumber data).2 w = None.
Proof.
  induction path as [| m path IH]; intros c d fuel data w Hr Hu Hp; destruct fuel as [| fuel]; try done; cbn [names].
  - cbn [route fst snd]. destruct (w.(objs) !! c); [| done]. cbn [mbind option_bind]. by rewrite Z.eqb_refl, orb_true_r.
  - apply resolve_next in Hr as (ch & s & chs & Ec & Hm & Es & Hr).
    cbn [unplugged] in Hu. rewrite Ec, Hm in Hu. apply andb_true_iff in Hu as [Hg Hu]. apply bool_decide_eq_true in Hg.
    inversion Hp as [| ? ? Hm2 Hp2]. subst. destruct (number_other m Hm2) as [N1 N2]. cbn [route fst snd].
    rewrite Ec. cbn [mbind option_bind]. rewrite Hg, N1, N2, Hm. cbn [mbind option_bind].
    rewrite bool_decide_eq_false_2 by (by intros []). cbn [orb]. destruct (_ <? 4) eqn:Hl; [done |].
    destruct (be4_split (route path DataChannelNumber data).1 (route path DataChannelNumber data).2) as [-> ->].
    { apply route_number; [done | unfold DataChannelNumber; lia]. }
    by apply (IH s d).
Qed.

Definition put_back (data : list Z) (q : Queue (T := list Z)) : Queue (T := list Z) := (insert bsize true data q).2.

Lemma inboxes_deliver c data w : inboxes (update c (deliver data) w) = alter (put_back data) c (inboxes w).
Proof. unfold inboxes, update, with_objs. cbn [objs]. by apply fmap_alter. Qed.

(** A packet for the channel itself: the queue takes it, or the receiver waits with it. *)
Definition kept_or_put (c : nat) ch (data : list Z) (held : list nat) : Incoming :=
  if ch.(receivingQueue).(notFull).(flag) then Handled NoError else Waits (Putting held c data).

Lemma kept_handed_on c ch data held : handed_on (kept_or_put c ch data held).
Proof. unfold kept_or_put, handed_on. by destruct (flag _). Qed.

Lemma handle_data r c ch data w : Inv w -> w.(objs) !! c = Some ch -> ch.(pluggedChannel) = None ->
  exists w1, aside w w1 /\ Inv w1 /\ forall held fuel, handleIncomingPacket (S fuel) r held c DataChannelNumber data w
    = Ret (kept_or_put c ch data held, if ch.(receivingQueue).(notFull).(flag) then update c (deliver data) w1 else w1).
Proof.
  intros I E Hg.
  assert (exists w1, aside w w1 /\ Inv w1 /\
    (if wantsSlowDown ch then sendCommand c packSlowDownRequest (update c (with_received ch.(receivingQueue) true) w)
     else Ret w) = Ret w1) as (w1 & A & I1 & Hw).
  { destruct (wantsSlowDown ch); [| exists w; split; [reflexivity | done]].
    set (w0 := update c _ w). assert (Inv w0) as I0 by (by apply (inv_received c ch)).
    pose proof (sendCommand_aside c packSlowDownRequest w0 I0 ltac:(apply update_some; by eexists)) as H.
    destruct (sendCommand _ _ w0) as [w1 | | |]; try done. destruct H as [I1 A1]. exists w1. split; [| done].
    etrans; [| exact A1]. split; apply fmap_update; intros; by simplify_eq. }
  exists w1. split; [done |]. split; [done |]. intros held fuel. cbn [handleIncomingPacket].
  rewrite (deref_some _ _ _ E). cbn [mbind result_bind]. rewrite Hg, Z.eqb_refl.
  rewrite Hw. cbn [mbind result_bind].
  pose proof (f_equal (lookup c) (aside_inboxes _ _ A)) as Hq. unfold inboxes in Hq. rewrite !lookup_fmap, E in Hq.
  destruct (w1.(objs) !! c) as [ch1 |] eqn:E1; [| done]. injection Hq as Hq.
  rewrite (deref_some _ _ _ E1). cbn [mbind result_bind]. rewrite Hq. unfold kept_or_put. by destruct (flag _).
Qed.

Definition wire_at (r : nat) w : option Wire :=
  ch ← w.(objs) !! r; match ch.(kind) with SocketChannel s => Some s | VirtualChannel _ _ => None end.

Lemma wire_at_spec r s w : wire_at r w = Some s -> exists ch, w.(objs) !! r = Some ch /\ ch.(kind) = SocketChannel s.
Proof.
  unfold wire_at. destruct (w.(objs) !! r) as [ch |]; [| done]. cbn [mbind option_bind].
  destruct (kind ch) eqn:Ek; [| done]. intros. simplify_eq. eauto.
Qed.

Lemma wire_at_on_wire r f s w : wire_at r w = Some s -> wire_at r (update r (on_wire f) w) = Some (f s).
Proof.
  intros H. apply wire_at_spec in H as (ch & E & Ek). unfold wire_at. rewrite (update_here _ _ _ _ E). cbn [mbind option_bind].
  unfold on_wire. by rewrite Ek.
Qed.

Lemma wire_of_at r s w : wire_at r w = Some s -> exists ch, w.(objs) !! r = Some ch /\ wire_of r w = Ret (ch, s).
Proof.
  intros H. apply wire_at_spec in H as (ch & E & Ek). exists ch. split; [done |]. unfold wire_of.
  rewrite (deref_some _ _ _ E). cbn [mbind result_bind]. by rewrite Ek.
Qed.

(** What a connection says of itself stays. *)
Lemma aside_wire r s w w' : faces w' = faces w -> streams w' = streams w -> wire_at r w = Some s ->
  exists s', wire_at r w' = Some s' /\ s'.(maxPayload) = s.(maxPayload) /\ s'.(connected) = s.(connected)
    /\ s'.(inbox) = s.(inbox) /\ s'.(eof) = s.(eof) /\ s'.(receiver) = s.(receiver).
Proof.
  intros Hf Hs H. apply wire_at_spec in H as (ch & E & Ek).
  pose proof (f_equal (lookup r) Hf) as Hfr. pose proof (f_equal (lookup r) Hs) as Hsr.
  unfold faces in Hfr. unfold streams in Hsr. rewrite !lookup_fmap, E in Hfr. rewrite !lookup_fmap, E in Hsr. destruct (w'.(objs) !! r) as [ch' |] eqn:E'; [| done].
  unfold face, stream_at in *. simpl in *. rewrite Ek in Hfr, Hsr. unfold wire_at. rewrite E'. cbn [mbind option_bind].
  destruct (kind ch') as [s' |]; [| done]. exists s'. split; [done |]. repeat split; congruence.
Qed.

Record Message : Type := mkMessage { to : list Z; body : list Z }.

Definition packet_of (m : Message) : WritingPacket :=
  let x := route m.(to) DataChannelNumber m.(body) in mkPacket x.2 None x.1.

(** A message that a connection with packets up to [limit] carries. *)
Definition carried (limit : Z) (m : Message) : Prop :=
  Forall is_number m.(to) /\ 0 < zlen m.(body) /\ zlen m.(body) + 4 * zlen m.(to) <= limit
  /\ zlen m.(body) + 4 * zlen m.(to) < 2 ^ 31.

Lemma carried_framed m s : carried s.(maxPayload) m -> framed s (packet_of m).(channelNumber) (packet_of m).(packet).
Proof.
  intros (Hp & H0 & H1 & H2). unfold framed, packet_of. cbn [channelNumber packet]. rewrite zlen_route.
  split; [apply route_number; [done | unfold DataChannelNumber; lia] | lia].
Qed.

Lemma aside_channel c ch w w' : faces w' = faces w -> inboxes w' = inboxes w -> w.(objs) !! c = Some ch ->
  exists ch', w'.(objs) !! c = Some ch' /\ ch'.(receivingQueue) = ch.(receivingQueue)
    /\ ch'.(pluggedChannel) = ch.(pluggedChannel).
Proof.
  intros Hf Hq E. pose proof (f_equal (lookup c) Hf) as Hfc. pose proof (f_equal (lookup c) Hq) as Hqc.
  unfold faces in Hfc. unfold inboxes in Hqc. rewrite !lookup_fmap, E in Hfc. rewrite !lookup_fmap, E in Hqc.
  destruct (w'.(objs) !! c) as [ch' |]; [| done]. exists ch'. unfold face in Hfc. simpl in *. split; [done |]. split; congruence.
Qed.

Lemma unplugged_end path : forall c d ch w, resolve path c w = Some d -> unplugged path c w = true ->
  w.(objs) !! d = Some ch -> ch.(pluggedChannel) = None.
Proof.
  induction path as [| m path IH]; intros c d ch w Hr Hu E.
  - simpl in Hr. simplify_eq. cbn [unplugged] in Hu. rewrite E, andb_true_r in Hu. by apply bool_decide_eq_true in Hu.
  - apply resolve_next in Hr as (x & s & chs & Ec & Hm & Es & Hr). cbn [unplugged] in Hu. rewrite Ec, Hm in Hu.
    apply andb_true_iff in Hu as [_ Hu]. by apply (IH s d ch w).
Qed.

Lemma on_wire_face r f w : (forall s, (f s).(maxPayload) = s.(maxPayload) /\ (f s).(connected) = s.(connected)) ->
  faces (update r (on_wire f) w) = faces w.
Proof.
  intros H. apply fmap_update. intros ch _. unfold on_wire, face. destruct (kind ch) as [s |] eqn:Ek; [| by rewrite Ek].
  destruct (H s) as [H1 H2]. simpl. by rewrite H1, H2.
Qed.

Lemma stream_faces r s rest w : wire_at r w = Some s -> s.(connected) = true ->
  faces (update r (on_wire (fun _ => with_stream true rest s.(eof) s)) w) = faces w.
Proof.
  intros Hw Hc. apply wire_at_spec in Hw as (ch & E & Ek). apply fmap_update. intros x Ex. simplify_eq.
  unfold on_wire, face. rewrite Ek. simpl. by rewrite Hc.
Qed.

Lemma stream_inboxes r s rest w :
  inboxes (update r (on_wire (fun _ => with_stream true rest s.(eof) s)) w) = inboxes w.
Proof. apply fmap_update. intros x _. unfold on_wire. by destruct (kind x). Qed.

Lemma data_not_reused r c s m rest w : wire_at r w = Some s -> s.(receiver) = Reading -> s.(connected) = true ->
  s.(inbox) = frame (packet_of m) ++ rest -> carried s.(maxPayload) m -> resolve m.(to) r w = Some c ->
  unplugged m.(to) r w = true -> reads_reused r w = false.
Proof.
  intros Hw Hr Hc Hi Hm Hp Hu. pose proof (stream_faces r s rest w Hw Hc) as F1.
  pose proof (readPacket_frame _ rest s (carried_framed m s Hm) Hc Hi) as Hread.
  destruct (wire_at_spec r s w Hw) as (ch & E & Ek). unfold reads_reused. rewrite E, Ek, Hread. cbn [packet_of channelNumber packet].
  rewrite (names_route m.(to) r c); [done | by rewrite (resolve_faces _ _ _ _ F1) | by rewrite (unplugged_faces _ _ _ _ F1) | apply Hm].
Qed.

(** What [doReceive] does with a frame whose packet the channel it is for handles. *)
Lemma doReceive_route r c s time path n payload rest i w w2 : wire_at r w = Some s -> s.(receiver) = Reading ->
  s.(connected) = true ->
  s.(inbox) = frame (mkPacket (route path n payload).2 None (route path n payload).1) ++ rest ->
  Forall is_number path -> 0 <= n < 2 ^ 32 -> zlen payload + 4 * zlen path <= s.(maxPayload) ->
  zlen payload + 4 * zlen path < 2 ^ 31 -> resolve path r w = Some c -> unplugged path r w = true ->
  (forall held, handed_on (i held)) ->
  (forall held fuel, handleIncomingPacket (S fuel) r held c n payload
     (update r (on_wire (fun _ => with_stream true rest s.(eof) s)) w) = Ret (i held, w2)) ->
  exists held, doReceive r time w = received r time (i held) w2.
Proof.
  intros Hw Hr Hc Hi Hp Hn H1 H2 Hres Hu Hon Hh. destruct (wire_of_at r s w Hw) as (chr & Er & Hwo).
  destruct (wire_at_spec r s w Hw) as (chr' & Er' & Ekr). simplify_eq.
  assert (framed s (route path n payload).1 (route path n payload).2) as Hf.
  { split; [by apply route_number |]. rewrite zlen_route. lia. }
  pose proof (readPacket_frame (mkPacket _ None _) rest s Hf Hc Hi) as Hread.
  unfold doReceive. rewrite Hwo. cbn [mbind result_bind]. rewrite Hr, Hread. cbn [channelNumber packet].
  set (w1 := update r _ w) in *. assert (faces w1 = faces w) as F1 by (by apply (stream_faces r s)).
  destruct (handle_route path r [] r c (S (length (route path n payload).2)) n payload i w1 w2) as [held ->];
    [by rewrite (resolve_faces _ _ _ _ F1) | by rewrite (unplugged_faces _ _ _ _ F1) | done | done | | done | done | by exists held].
  pose proof (zlen_route path n payload) as Hz. unfold zlen in *. lia.
Qed.

Lemma received_handled r time w : received r time (Handled NoError) w
  = Ret (update r (on_wire (fun s => with_times time s.(lastKeepaliveTimestamp) (with_receiver Reading s))) w).
Proof. cbn [received]. unfold set_receiver. by rewrite update_twice. Qed.

Lemma stream_inv r s rest w : Inv w -> wire_at r w = Some s -> s.(receiver) = Reading -> s.(connected) = true ->
  Inv (update r (on_wire (fun _ => with_stream true rest s.(eof) s)) w).
Proof.
  intros I Hw Hr Hc. apply wire_at_spec in Hw as (ch & E & Ek). apply inv_wire; [done |].
  intros ch0 s0 E0 Ek0. simplify_eq. rewrite Ek in Ek0. simplify_eq.
  split; [split; [| done] |]; [unfold wire_ok; simpl; rewrite Hc; naive_solver |].
  intros x Hx. cbn in Hx. rewrite Hr in Hx. by apply elem_of_nil in Hx.
Qed.

(** The receiver after a message: where it is, with what it holds. *)
Definition after_message (c : nat) (full : bool) (data : list Z) (x : Receiver) : Prop :=
  if full then exists held, x = Putting held c data else x = Reading.

Lemma doReceive_data r c ch s time m rest w : Inv w -> wire_at r w = Some s -> s.(receiver) = Reading ->
  s.(connected) = true -> s.(inbox) = frame (packet_of m) ++ rest -> carried s.(maxPayload) m ->
  resolve m.(to) r w = Some c -> unplugged m.(to) r w = true -> w.(objs) !! c = Some ch ->
  let full := negb ch.(receivingQueue).(notFull).(flag) in
  exists w' s', doReceive r time w = Ret w' /\ Inv w' /\ faces w' = faces w
    /\ inboxes w' = (if full then inboxes w else alter (put_back m.(body)) c (inboxes w))
    /\ wire_at r w' = Some s' /\ s'.(inbox) = rest /\ s'.(eof) = s.(eof) /\ after_message c full m.(body) s'.(receiver).
Proof.
  intros I Hw Hr Hc Hi Hm Hp Hu E full. pose proof (stream_inv r s rest w I Hw Hr Hc) as I1.
  pose proof (stream_faces r s rest w Hw Hc) as F1. pose proof (stream_inboxes r s rest w) as Q1.
  pose proof (fun i w2 => doReceive_route r c s time m.(to) DataChannelNumber m.(body) rest i w w2 Hw Hr Hc Hi) as Hdo.
  pose proof (data_not_reused r c s m rest w Hw Hr Hc Hi Hm Hp Hu) as Hn.
  set (s1 := with_stream true rest s.(eof) s) in *. set (w1 := update r (on_wire (fun _ => s1)) w) in *.
  assert (wire_at r w1 = Some s1) as Hw1 by (apply (wire_at_on_wire r (fun _ => s1) s w Hw)).
  destruct (aside_channel c ch w w1 F1 Q1 E) as (ch1 & E1 & Hq1 & Hg1).
  destruct (handle_data r c ch1 m.(body) w1 I1 E1) as (w2 & A & I2 & Hh).
  { rewrite Hg1. by apply (unplugged_end m.(to) r c ch w). }
  destruct Hm as (Hpath & H0 & H1 & H2).
  destruct (Hdo (kept_or_put c ch1 m.(body)) _ Hpath ltac:(unfold DataChannelNumber; lia) H1 H2 Hp Hu (kept_handed_on c ch1 m.(body)) Hh) as [held Hdr].
  assert (is_Some (w.(objs) !! r)) as Er by (apply wire_at_spec in Hw as (x & ? & _); by eexists).
  pose proof (doReceive_ok r time w I Er Hn) as I'. rewrite Hdr in I' |- *. clear Hdo Hdr Hh Hn.
  unfold kept_or_put in *. rewrite Hq1 in *. unfold full. destruct (flag (notFull (receivingQueue ch))); cbn [negb].
  - rewrite received_handled in I' |- *. cbn [safe] in I'. set (w3 := update c (deliver m.(body)) w2) in *.
    assert (faces w3 = faces w2 /\ streams w3 = streams w2) as [F3 S3] by (by split; apply fmap_update).
    destruct (aside_wire r s1 w1 w3) as (s3 & Hw3 & _ & _ & Hi3 & He3 & _); [rewrite F3; apply A | rewrite S3; apply A | done |].
    eexists _, _. split; [done |]. split; [exact I' |]. split; [| split; [| split; [by apply wire_at_on_wire | done]]].
    + etrans; [| exact F1]. rewrite <- (aside_faces _ _ A), <- F3. apply on_wire_face. by intros.
    + rewrite <- Q1, <- (aside_inboxes _ _ A), <- inboxes_deliver. apply fmap_update. intros x _. unfold on_wire. by destruct (kind x).
  - cbn [received safe] in I' |- *. unfold set_receiver in *.
    destruct (aside_wire r s1 w1 w2) as (s3 & Hw3 & _ & _ & Hi3 & He3 & _); [apply A | apply A | done |].
    eexists _, _. split; [done |]. split; [exact I' |]. split; [| split; [| split; [by apply wire_at_on_wire |]]].
    + etrans; [| exact F1]. rewrite <- (aside_faces _ _ A). apply on_wire_face. by intros.
    + rewrite <- Q1, <- (aside_inboxes _ _ A). apply fmap_update. intros x _. unfold on_wire. by destruct (kind x).
    + split; [done |]. split; [done |]. by exists held.
Qed.

Lemma faces_wire r s s' w w' : faces w' = faces w -> wire_at r w = Some s -> wire_at r w' = Some s' ->
  s'.(maxPayload) = s.(maxPayload) /\ s'.(connected) = s.(connected).
Proof.
  intros Hf H H'. apply wire_at_spec in H as (ch & E & Ek). apply wire_at_spec in H' as (ch' & E' & Ek').
  pose proof (f_equal (lookup r) Hf) as Hr. unfold faces in Hr. rewrite !lookup_fmap, E, E' in Hr.
  unfold face in Hr. simpl in Hr. rewrite Ek, Ek' in Hr. split; congruence.
Qed.

(** ** Several messages *)

Definition stream (ms : list Message) : list Z := concat (map (fun m => frame (packet_of m)) ms).

(** What the messages hold for the channel [c] below [r]. *)
Definition mail (r c : nat) (ms : list Message) w : list (list Z) :=
  omap (fun m => if bool_decide (resolve m.(to) r w = Some c) then Some m.(body) else None) ms.

Definition load (l : list (list Z)) : Z := fold_right (fun d n => bsize d + n) 0 l.

(** The queue takes all of [l] without filling up. *)
Definition roomy (q : Queue (T := list Z)) (l : list (list Z)) : Prop :=
  l = [] \/ q.(m_closed) = false /\ q.(notFull).(flag) = true /\ 0 <= q.(currentSize)
            /\ q.(currentSize) + load l < q.(mCapacity) <= 2 ^ 32.

Lemma bsize_range d : 0 <= bsize d < 2 ^ 32.
Proof. unfold bsize, wrapu. apply Z.mod_pos_bound. lia. Qed.

Lemma load_nonneg l : 0 <= load l.
Proof. induction l as [| d l IH]; [done |]. cbn [load fold_right]. pose proof (bsize_range d). unfold load in IH. lia. Qed.

Lemma put_back_roomy q d l : roomy q (d :: l) -> roomy (put_back d q) l /\ (put_back d q).(queue) = q.(queue) ++ [d].
Proof.
  intros [[=] | (Hc & Hf & H0 & H1 & H2)]. unfold put_back. rewrite insert_back, Hc. split; [| done]. right.
  cbn [load fold_right] in H1. pose proof (bsize_range d). pose proof (load_nonneg l) as Hl. unfold load in Hl.
  unfold insert. rewrite Hc. cbn [with_notEmpty with_items currentSize mCapacity snd fst].
  assert (wrapu 32 (currentSize q + bsize d) = currentSize q + bsize d) as Hw by (unfold wrapu; apply Z.mod_small; lia).
  rewrite Hw. destruct (_ >=? _) eqn:Hg; [lia |]. simpl. rewrite Hf. split; [done |]. split; [done |]. unfold load. lia.
Qed.

Lemma mail_faces r c ms w w' : faces w' = faces w -> mail r c ms w' = mail r c ms w.
Proof.
  intros H. unfold mail. induction ms as [| m ms IH]; [done |]. cbn [omap list_omap]. by rewrite (resolve_faces _ _ _ _ H), IH.
Qed.

Lemma mail_cons r c m ms w :
  mail r c (m :: ms) w = if bool_decide (resolve m.(to) r w = Some c) then m.(body) :: mail r c ms w else mail r c ms w.
Proof. unfold mail. cbn [omap list_omap]. by case_bool_decide. Qed.

Lemma resolve_object path : forall r c w, resolve path r w = Some c -> is_Some (w.(objs) !! r) -> is_Some (w.(objs) !! c).
Proof.
  induction path as [| n path IH]; intros r c w H E; [simpl in H; by simplify_eq |].
  apply resolve_next in H as (ch & s & chs & _ & _ & Es & H). apply (IH s c w H). by eexists.
Qed.

Definition reachable_by (r : nat) w (m : Message) : Prop := is_Some (resolve m.(to) r w) /\ unplugged m.(to) r w = true.

Lemma receive_messages r time rest ms : forall s w, Inv w -> wire_at r w = Some s -> s.(receiver) = Reading ->
  s.(connected) = true -> s.(inbox) = stream ms ++ rest -> Forall (carried s.(maxPayload)) ms ->
  Forall (reachable_by r w) ms -> (forall c q, inboxes w !! c = Some q -> roomy q (mail r c ms w)) ->
  exists w', execs (replicate (length ms) (DoReceive r time)) w = Ret w' /\ Inv w' /\ faces w' = faces w
    /\ forall c, queue <$> inboxes w' !! c = (fun q => queue q ++ mail r c ms w) <$> inboxes w !! c.
Proof.
  induction ms as [| m ms IH]; intros s w I Hw Hr Hc Hi Hm Hp Hq.
  - exists w. split; [done |]. split; [done |]. split; [done |]. intros c.
    destruct (inboxes w !! c); [| done]. simpl. by rewrite app_nil_r.
  - apply Forall_cons_iff in Hm as [Hm Hms]. apply Forall_cons_iff in Hp as [[[c Hc2] Hu] Hps].
    assert (is_Some (w.(objs) !! r)) as Er by (apply wire_at_spec in Hw as (x & ? & _); by eexists).
    destruct (resolve_object _ _ _ _ Hc2 Er) as [ch E].
    assert (inboxes w !! c = Some ch.(receivingQueue)) as Eq by (unfold inboxes; by rewrite lookup_fmap, E).
    pose proof (Hq c _ Eq) as Hroom. rewrite mail_cons, bool_decide_eq_true_2 in Hroom by done.
    destruct (doReceive_data r c ch s time m (stream ms ++ rest) w) as (w1 & s1 & Hd & I1 & F1 & Q1 & Hw1 & Hi1 & _ & Hr1);
      try done.
    { rewrite Hi. unfold stream. cbn [map concat]. by rewrite <- app_assoc. }
    assert (flag (notFull (receivingQueue ch)) = true) as Hfl by (destruct Hroom as [[=] | (_ & ? & _)]; done).
    rewrite Hfl in Q1, Hr1. cbn [negb after_message] in Q1, Hr1.
    destruct (faces_wire r s s1 w w1 F1 Hw Hw1) as [Hmax Hcon].
    destruct (IH s1 w1) as (w' & He & I' & F' & Q'); try done; [congruence | by rewrite Hmax | | |].
    { eapply Forall_impl; [| exact Hps]. intros x [[d Hd1] Hd2]. split; [rewrite (resolve_faces _ _ _ _ F1); by eexists |].
      by rewrite (unplugged_faces _ _ _ _ F1). }
    { intros d q Hdq. rewrite (mail_faces _ _ _ _ _ F1). rewrite Q1 in Hdq. destruct (decide (c = d)) as [<- | Hne].
      - rewrite lookup_alter_eq, Eq in Hdq. simpl in Hdq. injection Hdq as <-. by apply put_back_roomy.
      - rewrite lookup_alter_ne in Hdq by done. specialize (Hq d q Hdq). rewrite mail_cons, bool_decide_eq_false_2 in Hq; [done |].
        congruence. }
    exists w'. split.
    { cbn [length replicate execs exec]. unfold exec. cbn [uses forallb]. rewrite bool_decide_eq_true_2 by done.
      cbn [andb negb]. unfold silent. rewrite Hd. cbn [mbind result_bind]. exact He. }
    split; [done |]. split; [by rewrite F' |]. intros d. rewrite Q', Q1, (mail_faces _ _ _ _ _ F1), mail_cons.
    destruct (decide (c = d)) as [<- | Hne].
    + rewrite lookup_alter_eq, Eq, bool_decide_eq_true_2 by done. simpl. f_equal.
      destruct (put_back_roomy _ _ _ Hroom) as [_ ->]. by rewrite <- app_assoc.
    + rewrite lookup_alter_ne, bool_decide_eq_false_2 by congruence. done.
Qed.

(** ** The sending side *)

Lemma faces_error r ch ch' w w' : faces w' = faces w -> w.(objs) !! r = Some ch -> w'.(objs) !! r = Some ch' ->
  ch'.(error) = ch.(error).
Proof.
  intros Hf E E'. pose proof (f_equal (lookup r) Hf) as Hr. unfold faces in Hr. rewrite !lookup_fmap, E, E' in Hr.
  unfold face in Hr. simpl in Hr. congruence.
Qed.

(** The connection works and nothing of it is being written. *)
Definition idle (r : nat) (s : Wire) w : Prop :=
  wire_at r w = Some s /\ (forall ch, w.(objs) !! r = Some ch -> ch.(error) = NoError)
  /\ s.(sendingQueue).(m_closed) = false /\ s.(writing) = None.

Lemma idle_on_wire r f s w : idle r s w -> (f s).(sendingQueue).(m_closed) = false -> (f s).(writing) = None ->
  idle r (f s) (update r (on_wire f) w).
Proof.
  intros (Hw & He & _) Hc Hn. split; [by apply wire_at_on_wire |]. split; [| done]. intros ch' E'.
  destruct (w.(objs) !! r) as [ch |] eqn:E; [| by apply wire_at_spec in Hw as (? & ? & _); simplify_eq].
  rewrite (update_here _ _ _ _ E) in E'. injection E' as <-. unfold on_wire. destruct (kind ch); exact (He ch eq_refl).
Qed.

Definition send_to (r : nat) w (m : Message) : Action := SendAsync (default 0%nat (resolve m.(to) r w)) m.(body).

Lemma send_raw r s c path n data w : Inv w -> idle r s w -> resolve path r w = Some c -> 0 < zlen data ->
  zlen data + 4 * zlen path <= s.(maxPayload) -> zlen data + 4 * zlen path < 2 ^ 32 ->
  let p := mkPacket (route path n data).2 None (route path n data).1 in
  sendPacketRaw (S c) c n data NonBlock w
  = Ret (Queued, r, update r (on_wire (with_sending (insert psize true p s.(sendingQueue)).2)) w).
Proof.
  intros I (Hw & He & Hcl & _) Hc H0 H1 H2. cbv zeta. destruct (wire_at_spec r s w Hw) as (ch & E & Ek).
  rewrite (sendPacketRaw_route path r c ch s) by (done || lia). cbn [sendPacketRaw].
  rewrite (deref_some _ _ _ E). cbn [mbind result_bind]. rewrite Ek, (He ch E). cbn [failed orb].
  pose proof (zlen_route path n data) as Hz. pose proof (zlen_nonneg path).
  destruct (_ =? 0) eqn:Hz0; [exfalso; lia |].
  assert (u32 (zlen (route path n data).2) <= maxPayload s) as Hu.
  { unfold wrapu. rewrite Z.mod_small by lia. lia. }
  destruct (_ >? _) eqn:Hg; [exfalso; lia |]. set (p := mkPacket _ None _).
  pose proof (insert_answer psize true p (sendingQueue s)) as Ha. rewrite Hcl in Ha.
  destruct (insert _ _ _ _) as [ok q']. simpl in Ha. by subst.
Qed.

Lemma queued_idle r s p w : idle r s w ->
  let s' := with_sending (insert psize true p s.(sendingQueue)).2 s in
  idle r s' (update r (on_wire (with_sending (insert psize true p s.(sendingQueue)).2)) w)
  /\ s'.(sendingQueue).(queue) = s.(sendingQueue).(queue) ++ [p].
Proof.
  intros Hs. pose proof Hs as (_ & _ & Hcl & Hn). cbv zeta. split.
  - apply (idle_on_wire r (with_sending _)); [done | | done]. simpl. by rewrite insert_closed.
  - simpl. by rewrite insert_back, Hcl.
Qed.

Lemma send_message r s m w : Inv w -> idle r s w -> carried s.(maxPayload) m -> is_Some (resolve m.(to) r w) ->
  exists w' s', exec (send_to r w m) w = Ret (w', Bool true) /\ Inv w' /\ faces w' = faces w /\ idle r s' w'
    /\ s'.(sendingQueue).(queue) = s.(sendingQueue).(queue) ++ [packet_of m] /\ s'.(outbox) = s.(outbox)
    /\ s'.(maxPayload) = s.(maxPayload).
Proof.
  intros I Hs (Hp & H0 & H1 & H2) [c Hc]. pose proof Hs as (Hw & _).
  destruct (wire_at_spec r s w Hw) as (ch & E & _).
  destruct (resolve_object _ _ _ _ Hc ltac:(by eexists)) as [chc Ec].
  unfold send_to. rewrite Hc. cbn [default]. unfold id. unfold exec. cbn [uses forallb].
  rewrite bool_decide_eq_true_2 by (by eexists). cbn [andb negb].
  pose proof (sendPacketAsync_ok c m.(body) w I ltac:(by eexists)) as I'. unfold sendPacketAsync in *.
  rewrite (send_raw r s c m.(to) _ _ w I Hs Hc H0 H1) in I' |- * by lia.
  cbn [mbind result_bind returns snd] in *. destruct (queued_idle r s (packet_of m) w Hs) as [Hi Hq].
  eexists _, _. split; [done |]. split; [exact I' |]. split; [by apply on_wire_face |]. split; [exact Hi |]. done.
Qed.

Lemma send_messages r ms : forall s w, Inv w -> idle r s w -> Forall (carried s.(maxPayload)) ms ->
  Forall (fun m => is_Some (resolve m.(to) r w)) ms ->
  exists w' s', execs (map (send_to r w) ms) w = Ret w' /\ Inv w' /\ faces w' = faces w /\ idle r s' w'
    /\ s'.(sendingQueue).(queue) = s.(sendingQueue).(queue) ++ map packet_of ms /\ s'.(outbox) = s.(outbox).
Proof.
  induction ms as [| m ms IH]; intros s w I Hs Hm Hp.
  - exists w, s. cbn [map]. by rewrite app_nil_r.
  - apply Forall_cons_iff in Hm as [Hm Hms]. apply Forall_cons_iff in Hp as [Hp Hps].
    destruct (send_message r s m w I Hs Hm Hp) as (w1 & s1 & He & I1 & F1 & Hs1 & Hq1 & Ho1 & Hmax).
    assert (map (send_to r w1) ms = map (send_to r w) ms) as Hmap.
    { apply map_ext. intros x. unfold send_to. by rewrite (resolve_faces _ _ _ _ F1). }
    destruct (IH s1 w1 I1 Hs1) as (w2 & s2 & He2 & I2 & F2 & Hs2 & Hq2 & Ho2); [by rewrite Hmax | |].
    { eapply Forall_impl; [| exact Hps]. intros x Hx. cbn beta. by rewrite (resolve_faces _ _ _ _ F1). }
    exists w2, s2. split; [| split; [done | split; [by rewrite F2 | split; [done |]]]].
    + cbn [map execs]. rewrite He. cbn [mbind result_bind]. by rewrite <- Hmap.
    + rewrite Hq2, Hq1, Ho2, Ho1, <- app_assoc. done.
Qed.

Lemma gather_prefix l : forall count q, q.(queue) = l -> q.(m_closed) = false -> Forall (fun p => isValid p = true) l ->
  let x := gather l count q in l = x.1 ++ x.2.(queue) /\ x.2.(m_closed) = false.
Proof.
  induction l as [| p l IH]; intros count q Hq Hc Hv; cbv zeta; cbn [gather]; [cbn [fst snd app]; by rewrite Hq |].
  apply Forall_cons_iff in Hv as [Hp Hv].
  destruct (_ <? _); [| cbn [fst snd app]; by rewrite Hq]. pose proof (take_front_queue psize p l q) as Hq1.
  pose proof (take_front_closed psize p l q) as Hc1. rewrite Hc in Hc1. rewrite Hp. cbn [negb]. destruct (_ >? _).
  - cbn [fst snd]. by rewrite insert_closed, insert_front, Hc1, Hq1.
  - specialize (IH (count + (CHANNEL_HEAD_SIZE + zlen (packet p))) _ Hq1 Hc1 Hv). simpl in IH.
    destruct (gather l _ _) as [batch q2]. cbn [fst snd] in *. destruct IH as [IH1 IH2]. split; [| done]. cbn [app]. by f_equal.
Qed.

Definition frames (l : list WritingPacket) : list Z := concat (map frame l).
Definition told (l : list WritingPacket) : list (nat * bool) := map (fun t => (t, true)) (omap done l).

Lemma frames_app l l' : frames (l ++ l') = frames l ++ frames l'.
Proof. unfold frames. by rewrite map_app, concat_app. Qed.
Lemma told_app l l' : told (l ++ l') = told l ++ told l'.
Proof. unfold told. by rewrite omap_app, map_app. Qed.

(** One batch goes out: nothing is lost, repeated or reordered, and its senders are told. *)
Lemma send_batch r s time w : idle r s w -> Forall (fun p => isValid p = true) s.(sendingQueue).(queue) ->
  s.(sendingQueue).(queue) <> [] ->
  exists batch w' s', execs [DoSend r; DoSent r (zlen (frames batch)) time] w = Ret w' /\ faces w' = faces w /\ idle r s' w'
    /\ s.(sendingQueue).(queue) = batch ++ s'.(sendingQueue).(queue) /\ batch <> []
    /\ s'.(outbox) = s.(outbox) ++ frames batch /\ w'.(signals) = w.(signals) ++ told batch.
Proof.
  intros Hs Hv Hne. pose proof Hs as (Hw & He & Hcl & Hn). destruct (queue (sendingQueue s)) as [| p l] eqn:Eq; [done |].
  destruct (wire_of_at r s w Hw) as (ch & E & Hwo). apply Forall_cons_iff in Hv as [Hp Hv].
  pose proof (take_front_queue psize p l (sendingQueue s)) as Hq1. pose proof (take_front_closed psize p l (sendingQueue s)) as Hc1.
  rewrite Hcl in Hc1. destruct (gather_prefix l (CHANNEL_HEAD_SIZE + zlen (packet p)) _ Hq1 Hc1 Hv) as [Hg Hc2].
  destruct (gather l _ _) as [batch q] eqn:Eg. cbn [fst snd] in *. set (b := p :: batch).
  set (f := fun s0 => with_writing (outbox s ++ frames b) (Some b) (with_sending q s0)).
  assert (doSend r w = Ret (update r (on_wire f) w)) as H1.
  { unfold doSend. rewrite Hwo. cbn [mbind result_bind]. rewrite Hn, Eq, Hp. cbn [negb]. rewrite Eg, (He ch E). cbn [failed].
    by rewrite update_twice. }
  set (w1 := update r (on_wire f) w) in *.
  assert (wire_at r w1 = Some (f s)) as Hw1 by (by apply wire_at_on_wire).
  destruct (wire_of_at r (f s) w1 Hw1) as (ch1 & E1 & Hwo1).
  set (g := fun s0 => with_times s0.(lastActiveTimestamp) time (with_writing s0.(outbox) None s0)).
  assert (doSent r (zlen (frames b)) time w1 = Ret (signal true b (update r (on_wire g) w1))) as H2.
  { unfold doSent. rewrite Hwo1. cbn [mbind result_bind f with_writing writing]. unfold frames. by rewrite Z.eqb_refl. }
  exists b, (signal true b (update r (on_wire g) w1)), (g (f s)). split; [| split; [| split; [| split; [| split; [| split]]]]].
  - cbn [execs]. unfold exec. cbn [uses forallb]. rewrite bool_decide_eq_true_2 by (by eexists). cbn [andb negb].
    unfold silent. rewrite H1. cbn [mbind result_bind]. rewrite bool_decide_eq_true_2 by (by eexists). cbn [andb negb].
    by rewrite H2.
  - change (faces (signal _ _ ?x)) with (faces x). unfold w1. rewrite update_twice. by apply on_wire_face.
  - change (idle r (g (f s)) (update r (on_wire g) w1)). unfold w1. rewrite update_twice.
    by apply (idle_on_wire r (fun s0 => g (f s0))).
  - cbn. unfold b. by rewrite Hg.
  - done.
  - done.
  - done.
Qed.

Definition sending_step (r : nat) (a : Action) : Prop :=
  match a with DoSend r' => r' = r | DoSent r' _ _ => r' = r | _ => False end.

Lemma run_app l l' w : execs (l ++ l') w = w ← execs l w; execs l' w.
Proof.
  revert w. induction l as [| a l IH]; intros w; [done |]. cbn [app execs].
  destruct (exec a w) as [[w1 x] | | |]; try done. cbn [mbind result_bind]. apply IH.
Qed.

(** The sender empties its queue. *)
Lemma send_all r (time : Z) n : forall s w, length s.(sendingQueue).(queue) = n -> idle r s w ->
  Forall (fun p => isValid p = true) s.(sendingQueue).(queue) ->
  exists steps w' s', Forall (sending_step r) steps /\ execs steps w = Ret w' /\ faces w' = faces w /\ idle r s' w'
    /\ s'.(sendingQueue).(queue) = [] /\ s'.(outbox) = s.(outbox) ++ frames s.(sendingQueue).(queue)
    /\ w'.(signals) = w.(signals) ++ told s.(sendingQueue).(queue).
Proof.
  induction n as [n IH] using lt_wf_ind. intros s w Hlen Hs Hv. destruct (queue (sendingQueue s)) as [| p l] eqn:Eq.
  - exists [], w, s. cbn. rewrite !app_nil_r. repeat split; try done; by apply Hs.
  - destruct (send_batch r s time w Hs) as (batch & w1 & s1 & He & F1 & Hs1 & Hq & Hb & Ho & Hg); [by rewrite Eq | by rewrite Eq |].
    rewrite Eq in Hq. rewrite Hq in Hv. apply Forall_app in Hv as [_ Hv].
    destruct (IH (length (queue (sendingQueue s1)))) with s1 w1 as (steps & w2 & s2 & Hst & He2 & F2 & Hs2 & Hq2 & Ho2 & Hg2); try done.
    { rewrite <- Hlen, Hq, length_app. destruct batch; [done |]. simpl. lia. }
    exists ([DoSend r; DoSent r (zlen (frames batch)) time] ++ steps), w2, s2. split; [by repeat constructor |].
    rewrite run_app, He. cbn [mbind result_bind]. rewrite Ho2, Ho, Hg2, Hg, Hq, frames_app, told_app, <- !app_assoc.
    rewrite F2. done.
Qed.

(** ** Back-pressure

    The receiver, its users and the network take turns: when the queue of a channel is full
    the receiver waits with the packet, and goes on when a user has made room. *)

(** A step of the receiving side of the connection [r]. *)
Definition listening (r : nat) (a : Action) : bool :=
  match a with
  | Arrive r' _ | DoReceive r' _ | ResumePut r' _ => bool_decide (r' = r)
  | Recv _ => true
  | _ => false
  end.

Definition arriving (a : Action) : list Z := match a with Arrive _ bytes => bytes | _ => [] end.

(** What a call of [recvPacket] on [c] returns. *)
Definition read_by (c : nat) (a : Action) (answer : Answer) : list (list Z) :=
  match a, answer with
  | Recv d, Data p => if bool_decide (d = c) then [p] else []
  | _, _ => []
  end.

Fixpoint gathered (c : nat) (l : list Action) (w : World) : list (list Z) :=
  match l with
  | [] => []
  | a :: l => match exec a w with Ret (w1, answer) => read_by c a answer ++ gathered c l w1 | _ => [] end
  end.

(** The packet for [c] with which a receiver waits. *)
Definition putting (c : nat) (x : Receiver) : list (list Z) :=
  match x with Putting _ d p => if bool_decide (d = c) then [p] else [] | _ => [] end.

Lemma inboxes_received c ch q slow w : w.(objs) !! c = Some ch -> inboxes (update c (with_received q slow) w) = <[c := q]> (inboxes w).
Proof.
  intros E. apply map_eq. intros d. unfold inboxes. rewrite lookup_fmap. destruct (decide (c = d)) as [<- | Hne].
  - by rewrite (update_here _ _ _ _ E), lookup_insert_eq.
  - by rewrite update_there, lookup_insert_ne, lookup_fmap by done.
Qed.

Lemma received_faces c q slow w : faces (update c (with_received q slow) w) = faces w /\ streams (update c (with_received q slow) w) = streams w.
Proof. by split; apply fmap_update. Qed.

(** What [recvPacket] does to a channel that works. *)
Definition taken_from (q q' : Queue (T := list Z)) (answer : option (list Z)) : Prop :=
  match answer with Some p => q.(queue) = p :: q'.(queue) | None => q'.(queue) = q.(queue) end.

Lemma recv_frame c ch w answer w' : Inv w -> w.(objs) !! c = Some ch -> recvPacket c w = Ret (answer, w') ->
  Inv w' /\ faces w' = faces w /\ streams w' = streams w
  /\ exists q', inboxes w' = <[c := q']> (inboxes w) /\ q'.(m_closed) = ch.(receivingQueue).(m_closed)
       /\ (ch.(error) = NoError -> ch.(receivingQueue).(m_closed) = false -> taken_from ch.(receivingQueue) q' answer).
Proof.
  intros I E H. pose proof (recvPacket_ok c w I ltac:(by eexists)) as I'. rewrite H in I'. split; [exact I' |]. clear I'.
  assert (inboxes w = <[c := ch.(receivingQueue)]> (inboxes w)) as Hid.
  { symmetry. apply insert_id. unfold inboxes. by rewrite lookup_fmap, E. }
  unfold recvPacket in H. rewrite (deref_some _ _ _ E) in H. cbn [mbind result_bind] in H. destruct (isEmpty _ && _) eqn:H1.
  { injection H as <- <-. split; [done |]. split; [done |]. exists ch.(receivingQueue). split; [done |]. split; [done |]. intros He.
    rewrite He, andb_false_r in H1. done. }
  destruct (negb _); [injection H as <- <-; split; [done |]; split; [done |]; exists ch.(receivingQueue); unfold taken_from; done |]. cbn [proceed] in H.
  destruct (queue (receivingQueue ch)) as [| e l] eqn:Eq.
  - destruct (m_closed (receivingQueue ch)) eqn:Ecl; injection H as <- <-; (split; [apply received_faces |]); (split; [apply received_faces |]);
      eexists; (split; [by apply (inboxes_received c ch) |]); (split; [done |]); [done |]. intros _ _. cbn. by rewrite Eq.
  - cbn [default] in H. unfold id in H. set (q := take_front bsize e l ch.(receivingQueue)) in *.
    assert (q.(m_closed) = ch.(receivingQueue).(m_closed)) as Hcl by apply take_front_closed.
    assert (forall answer, answer = Some e -> taken_from ch.(receivingQueue) q answer) as Ht.
    { intros ? ->. cbn. unfold q. by rewrite take_front_queue. }
    destruct (zlen e =? 0) eqn:H0.
    { injection H as <- <-. split; [apply received_faces |]. split; [apply received_faces |]. exists q.
      split; [by apply (inboxes_received c ch) |]. split; [done |]. intros _ _. apply Ht. f_equal. symmetry. apply zlen_0_nil. lia. }
    destruct (wantsGoThrough _).
    + set (w1 := update c (with_received q ch.(slowDownRequested)) w) in *. set (w2 := update c (with_received q false) w1) in *.
      assert (w1.(objs) !! c = Some (with_received q ch.(slowDownRequested) ch)) as E1 by (by apply update_here).
      assert (Inv w2) as I2.
      { apply (inv_received c (with_received q ch.(slowDownRequested) ch)); [| done | done]. apply (inv_received c ch); [done | done | by rewrite Hcl]. }
      pose proof (sendCommand_aside c packGoThroughRequest w2 I2 ltac:(do 2 apply update_some; by eexists)) as Hs.
      destruct (sendCommand _ _ w2) as [w3 | | |]; try done. destruct Hs as [_ [A1 A2 A3]]. injection H as <- <-. rewrite A1, A3, A2.
      split; [etrans; apply received_faces |]. split; [etrans; apply received_faces |]. exists q.
      split; [| split; [done | by auto]]. unfold w2. rewrite (inboxes_received c _ q false w1 E1). unfold w1.
      by rewrite (inboxes_received c ch _ _ _ E), insert_insert_eq.
    + injection H as <- <-. split; [apply received_faces |]. split; [apply received_faces |]. exists q.
      split; [by apply (inboxes_received c ch) |]. split; [done | by auto].
Qed.

(** While a frame is incomplete nothing is read. *)
Lemma readPacket_short p y fut s : framed s p.(channelNumber) p.(packet) -> s.(connected) = true -> s.(eof) = false ->
  s.(inbox) ++ fut = frame p ++ y -> zlen s.(inbox) < zlen (frame p) -> readPacket s = None.
Proof.
  intros (Hn & Hm & Hs) Hc He Hi Hl. pose proof (zlen_nonneg (packet p)) as H0. unfold frame in Hi, Hl.
  assert (u32 (zlen (packet p)) = zlen (packet p)) as Hu by (unfold wrapu; apply Z.mod_small; lia).
  assert (s32 (zlen (packet p)) = zlen (packet p)) as Hw by (unfold wraps; rewrite Z.mod_small; lia).
  rewrite Hu, app_assoc in Hi, Hl. set (header := be_encode 4 (zlen (packet p)) ++ be_encode 4 (channelNumber p)) in *.
  assert (zlen header = 8) as Hh by (unfold header; by rewrite zlen_app, !zlen_be_encode). rewrite zlen_app, Hh in Hl.
  assert (8 <= zlen (inbox s) -> recvall 8 s = Some (header, with_stream true (drop 8 (inbox s)) false s)) as Hhead.
  { intros H8. unfold recvall. rewrite Hc, He. cbn [negb]. rewrite (proj2 (Z.leb_le _ _) H8). change (Z.to_nat 8) with 8%nat. repeat f_equal.
    rewrite <- app_assoc in Hi. apply (f_equal (take 8)) in Hi. rewrite take_app_le in Hi by (unfold zlen in H8; lia).
    rewrite take_app_length' in Hi; [exact Hi |]. unfold zlen in Hh. lia. }
  unfold readPacket. destruct (decide (8 <= zlen (inbox s))) as [H8 | H8].
  2: { unfold recvall. rewrite Hc, He. cbn [negb]. by rewrite (proj2 (Z.leb_gt _ _)) by lia. }
  rewrite (Hhead H8). cbn [mbind option_bind].
  rewrite Hh. cbn [Z.eqb negb Pos.eqb]. unfold header. destruct (be4_split (zlen (packet p)) (be_encode 4 (channelNumber p))) as [-> ->]; [lia |].
  rewrite (be_encode_decode_small 4) by (simpl; lia). cbn [maxPayload with_stream]. destruct (_ >? _) eqn:Hg; [lia |]. rewrite Hw.
  unfold recvall. cbn [connected inbox eof with_stream negb]. change 8%nat with (Z.to_nat 8). rewrite zlen_drop by lia.
  destruct (_ <=? _) eqn:Hx; [exfalso; lia | done].
Qed.

Lemma frame_here p y fut (l : list Z) : l ++ fut = frame p ++ y -> zlen (frame p) <= zlen l -> exists x, l = frame p ++ x /\ x ++ fut = y.
Proof.
  intros E H. exists (drop (length (frame p)) l). assert (take (length (frame p)) l = frame p) as Ht.
  { apply (f_equal (take (length (frame p)))) in E. rewrite take_app_le, take_app_length in E by (unfold zlen in H; lia). done. }
  split; [by rewrite <- Ht at 1; rewrite take_drop |]. apply (f_equal (drop (length (frame p)))) in E.
  rewrite drop_app_le, drop_app_length in E by (unfold zlen in H; lia). done.
Qed.

Lemma zlen_frame p : 8 <= zlen (frame p).
Proof. unfold frame. rewrite !zlen_app, !zlen_be_encode. pose proof (zlen_nonneg (packet p)). lia. Qed.

Lemma stream_cons m ms : stream (m :: ms) = frame (packet_of m) ++ stream ms.
Proof. done. Qed.

Lemma mail_snoc r c ms m w : mail r c (ms ++ [m]) w = mail r c ms w ++ (if bool_decide (resolve m.(to) r w = Some c) then [m.(body)] else []).
Proof. unfold mail. rewrite omap_app. f_equal. cbn. by case_bool_decide. Qed.

Section Listening.
Context (r : nat) (sb : Wire) (ms : list Message) (b : World).
Hypothesis (Hsb : wire_at r b = Some sb) (Hcar : Forall (carried sb.(maxPayload)) ms) (Hway : Forall (reachable_by r b) ms).

(** [done] was read, [rest] is in the stream, of which [fut] is still to come; the users
    got [got]. *)
Definition accounted (done : list Message) (got : nat -> list (list Z)) w (x : Receiver) : Prop :=
  forall c ch0, b.(objs) !! c = Some ch0 -> ch0.(error) = NoError -> ch0.(receivingQueue).(m_closed) = false ->
    exists q, inboxes w !! c = Some q /\ q.(m_closed) = false
      /\ ch0.(receivingQueue).(queue) ++ mail r c done b = got c ++ q.(queue) ++ putting c x.

Record heard (done rest : list Message) (fut : list Z) (got : nat -> list (list Z)) w : Prop := {
  heard_inv : Inv w;
  heard_faces : faces w = faces b;
  heard_split : ms = done ++ rest;
  heard_wire : exists s, wire_at r w = Some s /\ s.(connected) = true /\ s.(eof) = false /\ s.(inbox) ++ fut = stream rest
    /\ accounted done got w s.(receiver)
}.

Lemma heard_ext done rest fut got got' w : (forall c, got' c = got c) -> heard done rest fut got w -> heard done rest fut got' w.
Proof.
  intros Hg [I F Hs (s & Hw & Hc & He & Hi & Ha)]. split; try done. exists s. repeat (split; [done |]). intros c ch0. rewrite Hg. apply Ha.
Qed.

Lemma heard_arrive done rest bytes fut got w : heard done rest (bytes ++ fut) got w ->
  heard done rest fut got (update r (on_wire (arrive bytes false)) w).
Proof.
  intros [I F Hs (s & Hw & Hc & He & Hi & Ha)].
  assert (arrive bytes false s = with_stream true (s.(inbox) ++ bytes) false s) as Harr by (unfold arrive; by rewrite Hc, He).
  assert (inboxes (update r (on_wire (arrive bytes false)) w) = inboxes w) as Q by (apply fmap_update; intros x _; unfold on_wire; by destruct (kind x)).
  split; [by apply arrive_ok | | done |].
  - rewrite <- F. apply on_wire_face. intros s0. unfold arrive. destruct (connected s0 && negb (eof s0)) eqn:Hx; [| done]. by destruct (connected s0).
  - exists (arrive bytes false s). split; [by apply wire_at_on_wire |]. rewrite Harr. cbn [connected eof inbox receiver with_stream].
    split; [done |]. split; [done |]. split; [by rewrite <- app_assoc |]. intros c ch0. rewrite Q. apply Ha.
Qed.

Lemma heard_receive done rest fut got time w w' : heard done rest fut got w -> doReceive r time w = Ret w' ->
  exists done' rest', heard done' rest' fut got w'.
Proof.
  intros [I F Hs (s & Hw & Hc & He & Hi & Ha)] H. destruct (wire_of_at r s w Hw) as (chr & Er & Hwo).
  destruct (faces_wire r sb s b w F Hsb Hw) as [Hmax _]. pose proof H as H'. unfold doReceive in H'. rewrite Hwo in H'. cbn [mbind result_bind] in H'.
  destruct (receiver s) eqn:Hr; try done. destruct rest as [| m rest].
  { exfalso. cbn in Hi. apply app_eq_nil in Hi as [Hi _]. unfold readPacket, recvall in H'. rewrite Hc, He, Hi in H'. done. }
  rewrite Hs in Hcar, Hway. apply Forall_app in Hcar as [_ Hcar']. apply Forall_cons_iff in Hcar' as [Hm _].
  apply Forall_app in Hway as [_ Hway']. apply Forall_cons_iff in Hway' as [[[c Hres] Hu] _]. rewrite <- Hmax in Hm.
  rewrite stream_cons in Hi. destruct (decide (zlen (frame (packet_of m)) <= zlen s.(inbox))) as [Hle | Hgt].
  2: { exfalso. rewrite (readPacket_short (packet_of m) (stream rest) fut s (carried_framed m s Hm) Hc He Hi) in H' by lia. done. }
  destruct (frame_here _ _ _ _ Hi Hle) as (x & Hx & Hfut). rewrite <- (resolve_faces _ _ _ _ F) in Hres. rewrite <- (unplugged_faces _ _ _ _ F) in Hu.
  destruct (resolve_object _ _ _ _ Hres ltac:(by eexists)) as [ch E].
  destruct (doReceive_data r c ch s time m x w I Hw Hr Hc Hx Hm Hres Hu E) as (w1 & s1 & Hd & I1 & F1 & Q1 & Hw1 & Hi1 & He1 & Hr1).
  rewrite Hd in H. injection H as <-. destruct (faces_wire r s s1 w w1 F1 Hw Hw1) as [_ Hc1].
  exists (done ++ [m]), rest. split; [done | congruence | by rewrite <- app_assoc |]. exists s1. split; [done |]. split; [congruence |].
  split; [congruence |]. split; [congruence |]. intros d ch0 E0 Her Hcl. destruct (Ha d ch0 E0 Her Hcl) as (q & Eq & Hq & Hsum).
  cbn [putting] in Hsum. rewrite app_nil_r in Hsum. rewrite mail_snoc, app_assoc, Hsum, <- (resolve_faces _ _ _ _ F), Hres.
  assert (inboxes w !! c = Some ch.(receivingQueue)) as Ecq by (unfold inboxes; by rewrite lookup_fmap, E).
  destruct (decide (c = d)) as [<- | Hne].
  - rewrite bool_decide_eq_true_2 by done. rewrite Eq in Ecq. injection Ecq as ->. destruct (flag _); cbn [negb after_message] in *.
    + exists (put_back m.(body) ch.(receivingQueue)). rewrite Q1, lookup_alter_eq, Eq, Hr1. split; [done |]. unfold put_back. rewrite insert_closed, insert_back, Hq.
      split; [done |]. cbn [putting]. by rewrite app_nil_r, <- app_assoc.
    + destruct Hr1 as [held ->]. exists ch.(receivingQueue). rewrite Q1. split; [done |]. split; [done |]. cbn [putting].
      by rewrite bool_decide_eq_true_2, <- app_assoc.
  - rewrite bool_decide_eq_false_2, app_nil_r by congruence. exists q. destruct (flag _); cbn [negb after_message] in *.
    + rewrite Q1, lookup_alter_ne, Hr1 by done. cbn [putting]. by rewrite app_nil_r.
    + destruct Hr1 as [held ->]. rewrite Q1. cbn [putting]. by rewrite bool_decide_eq_false_2, app_nil_r.
Qed.

Lemma heard_resume done rest fut got time w w' : heard done rest fut got w -> resumePut r time w = Ret w' -> heard done rest fut got w'.
Proof.
  intros [I F Hs (s & Hw & Hc & He & Hi & Ha)] H. destruct (wire_of_at r s w Hw) as (chr & Er & Hwo).
  pose proof (resumePut_ok r time w I ltac:(by eexists)) as I'. rewrite H in I'. unfold resumePut in H. rewrite Hwo in H. cbn [mbind result_bind] in H.
  destruct (receiver s) as [| held c p | |] eqn:Hr; try done. unfold deref in H. destruct (w.(objs) !! c) as [ch |] eqn:E; [| done].
  cbn [mbind result_bind] in H. destruct (flag _); [| done]. rewrite received_handled in H. injection H as <-.
  set (w1 := update c (deliver p) w) in *. assert (faces w1 = faces w /\ streams w1 = streams w) as [F1 S1] by (by split; apply fmap_update).
  destruct (aside_wire r s w w1 F1 S1 Hw) as (s1 & Hw1 & _ & Hc1 & Hi1 & He1 & _).
  split; [exact I' | rewrite <- F, <- F1; by apply on_wire_face | done |]. eexists. split; [by apply wire_at_on_wire |].
  cbn [connected eof inbox receiver with_times with_receiver]. split; [congruence |]. split; [congruence |]. split; [congruence |].
  intros d ch0 E0 Her Hcl. destruct (Ha d ch0 E0 Her Hcl) as (q & Eq & Hq & Hsum). cbn [putting] in *.
  assert (forall g, inboxes (update r (on_wire g) w1) = alter (put_back p) c (inboxes w)) as Q.
  { intros g. unfold w1. rewrite <- inboxes_deliver. apply fmap_update. intros x _. unfold on_wire. by destruct (kind x). }
  rewrite Q. destruct (decide (c = d)) as [<- | Hne].
  - rewrite bool_decide_eq_true_2 in Hsum by done. exists (put_back p q). rewrite lookup_alter_eq, Eq. split; [done |].
    unfold put_back. by rewrite insert_closed, insert_back, Hq, app_nil_r.
  - rewrite bool_decide_eq_false_2 in Hsum by done. exists q. by rewrite lookup_alter_ne.
Qed.

Lemma heard_recv done rest fut got c answer w w' : heard done rest fut got w -> is_Some (w.(objs) !! c) -> recvPacket c w = Ret (answer, w') ->
  heard done rest fut (fun d => got d ++ match answer with Some p => if bool_decide (c = d) then [p] else [] | None => [] end) w'.
Proof.
  intros [I F Hs (s & Hw & Hc & He & Hi & Ha)] [ch E] H. destruct (recv_frame c ch w answer w' I E H) as (I' & F1 & S1 & q' & Q & Hcl' & Ht).
  destruct (aside_wire r s w w' F1 S1 Hw) as (s1 & Hw1 & _ & Hc1 & Hi1 & He1 & Hr1). split; [done | congruence | done |].
  exists s1. split; [done |]. split; [congruence |]. split; [congruence |]. split; [congruence |]. rewrite Hr1.
  intros d ch0 E0 Her Hcl. destruct (Ha d ch0 E0 Her Hcl) as (q & Eq & Hq & Hsum). rewrite Hsum, Q. destruct (decide (c = d)) as [<- | Hne].
  - assert (inboxes w !! c = Some ch.(receivingQueue)) as Ecq by (unfold inboxes; by rewrite lookup_fmap, E).
    rewrite Eq in Ecq. injection Ecq as ->. specialize (Ht ltac:(by rewrite (faces_error c ch0 ch b w F E0 E)) Hq).
    exists q'. rewrite lookup_insert_eq. split; [done |]. split; [congruence |]. rewrite <- app_assoc. f_equal. rewrite bool_decide_eq_true_2 by done.
    destruct answer as [p |]; cbn [taken_from] in Ht; [by rewrite Ht | by rewrite Ht].
  - exists q. rewrite lookup_insert_ne by done. split; [done |]. split; [done |]. rewrite bool_decide_eq_false_2 by done.
    destruct answer; by rewrite app_nil_r.
Qed.

Lemma heard_step a done rest fut got w w' answer : listening r a = true -> heard done rest (arriving a ++ fut) got w -> exec a w = Ret (w', answer) ->
  exists done' rest', heard done' rest' fut (fun c => got c ++ read_by c a answer) w'.
Proof.
  intros Hl H E. assert (forall done rest w1, heard done rest fut got w1 -> heard done rest fut (fun c => got c ++ []) w1) as Hnil.
  { intros done1 rest1 w1. apply heard_ext. intros c. apply app_nil_r. }
  destruct a; try done; cbn [listening] in Hl; try (apply bool_decide_eq_true in Hl as ->); unfold exec in E; cbn [uses forallb] in E;
    (destruct (bool_decide _) eqn:Hd in E; [| done]); cbn [andb negb] in E.
  - destruct (recvPacket c w) as [[o w1] | | |] eqn:Er; try done. injection E as <- <-. exists done, rest. apply bool_decide_eq_true in Hd.
    pose proof (heard_recv _ _ _ _ _ _ _ _ H Hd Er) as H1. by destruct o.
  - injection E as <- <-. exists done, rest. cbn [read_by]. apply Hnil. by apply heard_arrive.
  - unfold silent in E. destruct (doReceive r time w) as [w1 | | |] eqn:Er; try done. injection E as <- <-. cbn [read_by arriving app] in *.
    destruct (heard_receive _ _ _ _ _ _ _ H Er) as (done' & rest' & H'). exists done', rest'. by apply Hnil.
  - unfold silent in E. destruct (resumePut r time w) as [w1 | | |] eqn:Er; try done. injection E as <- <-. exists done, rest. cbn [read_by arriving app] in *.
    apply Hnil. by apply (heard_resume _ _ _ _ time w).
Qed.

Lemma heard_run l : forall done rest fut got w w', forallb (listening r) l = true -> heard done rest (concat (map arriving l) ++ fut) got w ->
  execs l w = Ret w' -> exists done' rest', heard done' rest' fut (fun c => got c ++ gathered c l w) w'.
Proof.
  induction l as [| a l IH]; intros done rest fut got w w' Hl H E.
  - injection E as <-. exists done, rest. eapply heard_ext; [| exact H]. intros c. apply app_nil_r.
  - cbn [forallb map concat execs gathered] in *. apply andb_true_iff in Hl as [H1 H2]. destruct (exec a w) as [[w1 answer] | | |] eqn:Ea; try done.
    cbn [mbind result_bind] in E. rewrite <- app_assoc in H. destruct (heard_step a _ _ _ _ _ _ _ H1 H Ea) as (d1 & r1 & H3).
    destruct (IH _ _ _ _ _ _ H2 H3 E) as (d2 & r2 & H4). exists d2, r2. eapply heard_ext; [| exact H4]. intros c. apply app_assoc.
Qed.
End Listening.
