(* ===== verification/DataChannelProps.v ===== *)
(** * Channels: the properties of [data_channel.cpp] *)

From stdpp Require Import gmap sorting.
From S2P Require Import Prelude Queue DataChannel DataChannelProofs DataChannelSafety DataChannelRuns DataChannelRoute.

Implicit Types (w : World) (o : gmap nat Channel) (ch : Channel).

(** A state that an honest run leads to. *)
Definition reached w : Prop := exists l, honest_run l empty_world = true /\ execs l empty_world = Ret w.

Lemma reached_inv w : reached w -> Inv w.
Proof. intros (l & H & E). pose proof (run_ok l empty_world empty_ok H) as I. by rewrite E in I. Qed.

(** ** Memory safety *)

(** C4: In every run of calls, peers, coroutines, timeouts and destructors that leaves
    numbers in use and connections with parked senders alone, no object is touched after
    it is gone, every loop ends, and every waiting sender waits for a packet that is
    queued, being written or answered. *)
Theorem channels_memory_safe l : honest_run l empty_world = true -> safe Inv (execs l empty_world).
Proof. apply run_ok, empty_ok. Qed.

(** ** Delivery *)

Lemma arrive_chunks r chunks : forall s w, Inv w -> wire_at r w = Some s -> s.(connected) = true -> s.(eof) = false ->
  exists w' s', execs (map (Arrive r) chunks) w = Ret w' /\ Inv w' /\ faces w' = faces w /\ inboxes w' = inboxes w
    /\ wire_at r w' = Some s' /\ s'.(inbox) = s.(inbox) ++ concat chunks /\ s'.(receiver) = s.(receiver).
Proof.
  induction chunks as [| b chunks IH]; intros s w I Hw Hc He.
  - exists w, s. cbn [map concat]. by rewrite app_nil_r.
  - set (w1 := update r (on_wire (arrive b false)) w).
    assert (arrive b false s = with_stream true (s.(inbox) ++ b) false s) as Ha by (unfold arrive; by rewrite Hc, He).
    assert (wire_at r w1 = Some (with_stream true (s.(inbox) ++ b) false s)) as Hw1.
    { rewrite <- Ha. by apply wire_at_on_wire. }
    assert (faces w1 = faces w) as F1.
    { apply on_wire_face. intros s0. unfold arrive. destruct (connected s0 && negb (eof s0)) eqn:Hs; [| done]. by destruct (connected s0). }
    assert (inboxes w1 = inboxes w) as Q1 by (apply fmap_update; intros x _; unfold on_wire; by destruct (kind x)).
    assert (Inv w1) as I1 by (by apply arrive_ok).
    destruct (IH _ w1 I1 Hw1) as (w' & s' & Hx & I' & F' & Q' & Hw' & Hi' & Hr'); [done | done |].
    exists w', s'. split.
    { cbn [map execs]. unfold exec. cbn [uses forallb]. apply wire_at_spec in Hw as (ch & E & _).
      rewrite bool_decide_eq_true_2 by (by eexists). cbn [andb negb mbind result_bind]. exact Hx. }
    cbn [concat]. rewrite app_assoc, F', Q'. done.
Qed.

Lemma packet_of_valid m : 0 < zlen m.(body) -> isValid (packet_of m) = true.
Proof.
  intros H. unfold isValid, packet_of. cbn [channelNumber packet done]. rewrite zlen_route.
  pose proof (zlen_nonneg m.(to)). destruct (_ + _ =? 0) eqn:E; [lia |]. by rewrite andb_false_r.
Qed.

(** After the receiving side took the steps [l]: some of the messages were read, and what is
    read for a channel is what its users got, then what its queue has, then the packet with
    which the receiver waits; all of them were read if all bytes came and none is left. *)
Definition in_order (r : nat) (ms : list Message) (b : World) (l : list Action) (b' : World) : Prop :=
  exists done rest s, ms = done ++ rest /\ wire_at r b' = Some s
    /\ (forall c ch, b.(objs) !! c = Some ch -> ch.(error) = NoError -> ch.(receivingQueue).(m_closed) = false ->
        exists q, inboxes b' !! c = Some q
          /\ ch.(receivingQueue).(queue) ++ mail r c done b = gathered c l b ++ q.(queue) ++ putting c s.(receiver))
    /\ (concat (map arriving l) = stream ms -> s.(inbox) = [] -> rest = []).

Lemma stream_nil ms : stream ms = [] -> ms = [].
Proof.
  destruct ms as [| m ms]; [done |]. rewrite stream_cons. intros E. apply app_eq_nil in E as [E _].
  pose proof (zlen_frame (packet_of m)) as H. rewrite E in H. unfold zlen in H. cbn in H. lia.
Qed.

Lemma listening_in_order r s ms b l b' : Inv b -> wire_at r b = Some s -> s.(connected) = true -> s.(eof) = false ->
  s.(receiver) = Reading -> s.(inbox) = [] -> Forall (carried s.(maxPayload)) ms -> Forall (reachable_by r b) ms ->
  forallb (listening r) l = true -> concat (map arriving l) `prefix_of` stream ms -> execs l b = Ret b' -> in_order r ms b l b'.
Proof.
  intros I Hw Hc He Hr Hi Hm Hp Hl [fut Hfut] E.
  assert (heard r ms b [] ms (concat (map arriving l) ++ fut) (fun _ => []) b) as H0.
  { split; try done. exists s. rewrite Hi, Hr. split; [done |]. split; [done |]. split; [done |]. split; [done |].
    intros c ch E0 _ Hcl. exists ch.(receivingQueue). unfold inboxes. rewrite lookup_fmap, E0. cbn. by rewrite app_nil_r. }
  destruct (heard_run r s ms b Hw Hm Hp l _ _ _ _ _ _ Hl H0 E) as (done & rest & [_ _ Hs (s' & Hw' & _ & _ & Hin & Ha)]).
  exists done, rest, s'. split; [done |]. split; [done |]. split.
  - intros c ch E0 Her Hcl. destruct (Ha c ch E0 Her Hcl) as (q & Eq & _ & Hx). by exists q.
  - intros Hall Hnone. rewrite Hall in Hfut. apply stream_nil. rewrite <- Hin, Hnone. cbn [app].
    apply (f_equal length) in Hfut. rewrite length_app in Hfut. destruct fut; [done |]. cbn in Hfut. lia.
Qed.

(** C1: Messages sent (async, from an idle end) on channels nested to any depth, within
    the limits of both ends, are written as frames. In whatever order the bytes come, the
    peer receives and users read, full queues included, each channel of the same name
    yields its messages once and in order. *)
Theorem channels_deliver a b ra rb sa sb ms time :
  reached a -> idle ra sa a -> sa.(sendingQueue).(queue) = [] -> Forall (fun m => is_Some (resolve m.(to) ra a)) ms ->
  reached b -> wire_at rb b = Some sb -> sb.(connected) = true -> sb.(eof) = false -> sb.(receiver) = Reading ->
  sb.(inbox) = [] -> Forall (reachable_by rb b) ms -> Forall (carried (Z.min sa.(maxPayload) sb.(maxPayload))) ms ->
  (exists steps a' sa', Forall (sending_step ra) steps
    /\ execs (map (send_to ra a) ms ++ steps) a = Ret a' /\ wire_at ra a' = Some sa' /\ sa'.(outbox) = sa.(outbox) ++ stream ms)
  /\ (forall l b', forallb (listening rb) l = true -> concat (map arriving l) `prefix_of` stream ms -> execs l b = Ret b' ->
      in_order rb ms b l b')
  /\ (forall chunks, concat chunks = stream ms -> (forall c q, inboxes b !! c = Some q -> roomy q (mail rb c ms b)) ->
      exists b', execs (map (Arrive rb) chunks ++ replicate (length ms) (DoReceive rb time)) b = Ret b' /\ faces b' = faces b
        /\ forall c, queue <$> inboxes b' !! c = (fun q => queue q ++ mail rb c ms b) <$> inboxes b !! c).
Proof.
  intros Ia Hs Hq Ha Ib Hw Hc He Hr Hi Hb Hm. apply reached_inv in Ia, Ib.
  assert (Forall (carried sa.(maxPayload)) ms /\ Forall (carried sb.(maxPayload)) ms) as [Hma Hmb].
  { split; (eapply Forall_impl; [| exact Hm]); intros m (? & ? & ? & ?); (split; [done | lia]). }
  split; [| split; [intros l b' Hl Hpre E; by apply (listening_in_order rb sb) |]].
  - destruct (send_messages ra ms sa a Ia Hs Hma Ha) as (a1 & s1 & E1 & I1 & F1 & Hs1 & Hq1 & Ho1).
    rewrite Hq in Hq1. cbn [app] in Hq1.
    destruct (send_all ra time _ s1 a1 eq_refl Hs1) as (steps & a2 & s2 & Hst & E2 & _ & Hs2 & _ & Ho2 & _).
    { rewrite Hq1, Forall_map. eapply Forall_impl; [| exact Hm]. intros m (_ & ? & _). by apply packet_of_valid. }
    exists steps, a2, s2. rewrite run_app, E1. cbn [mbind result_bind]. split; [done |]. split; [done |]. split; [apply Hs2 |].
    rewrite Ho2, Ho1, Hq1. unfold frames, stream. by rewrite map_map.
  - intros chunks Hch Hroom. destruct (arrive_chunks rb chunks sb b Ib Hw Hc He) as (b1 & t1 & Eb & Ib1 & Fb1 & Qb1 & Hw1 & Hi1 & Hr1).
    destruct (faces_wire rb sb t1 b b1 Fb1 Hw Hw1) as [Hmax Hcon]. rewrite Hi in Hi1. cbn [app] in Hi1.
    destruct (receive_messages rb time [] ms t1 b1) as (b2 & Eb2 & _ & Fb2 & Qb2);
      [done | done | congruence | congruence | by rewrite app_nil_r, Hi1 | by rewrite Hmax | | |].
    { eapply Forall_impl; [| exact Hb]. intros m [H1 H2]. split; [by rewrite (resolve_faces _ _ _ _ Fb1) | by rewrite (unplugged_faces _ _ _ _ Fb1)]. }
    { intros c q. rewrite Qb1, (mail_faces _ _ _ _ _ Fb1). apply Hroom. }
    exists b2. rewrite run_app, Eb. cbn [mbind result_bind]. split; [done |]. split; [congruence |]. intros c.
    by rewrite Qb2, Qb1, (mail_faces _ _ _ _ _ Fb1).
Qed.

(** Two ends of a connection with a channel 2 and, below it, another channel 2. *)
Definition run_of (l : list Action) : World := match execs l empty_world with Ret w => w | _ => empty_world end.
Definition wire_in (r : nat) w : Wire := default (newWire 0) (wire_at r w).

Definition makers : list Action := [Open 1 0; Make 0; Make 1; DoSend 0; DoSent 0 30 0].
Definition takers : list Action :=
  [Open (-1) 0; Arrive 0 (wire_in 0 (run_of makers)).(outbox); DoReceive 0 0; DoReceive 0 0].
Definition some_messages : list Message := [mkMessage [2] [7]; mkMessage [2; 2] [8; 9]; mkMessage [] [1]; mkMessage [2; 2] [3]].

Lemma reached_run l : honest_run l empty_world = true -> execs l empty_world = Ret (run_of l) -> reached (run_of l).
Proof. intros. by exists l. Qed.

Ltac run_reached := apply reached_run; vm_compute; reflexivity.

(** [roomy], for every channel at once, as a test. *)
Definition room (r : nat) (ms : list Message) w : bool :=
  forallb (fun x => let q := x.2 in
    negb q.(m_closed) && q.(notFull).(flag) && (0 <=? q.(currentSize))
    && (q.(currentSize) + load (mail r x.1 ms w) <? q.(mCapacity)) && (q.(mCapacity) <=? 2 ^ 32)) (map_to_list (inboxes w)).

Lemma room_roomy r ms w c q : room r ms w = true -> inboxes w !! c = Some q -> roomy q (mail r c ms w).
Proof.
  intros H E. unfold room in H. rewrite forallb_forall in H. apply elem_of_map_to_list, list_elem_of_In in E.
  specialize (H _ E). cbn [fst snd] in H. rewrite !andb_true_iff, negb_true_iff, !Z.leb_le, Z.ltb_lt in H. right. tauto.
Qed.

Lemma channels_deliver_witness :
  (exists steps a' sa', Forall (sending_step 0) steps
    /\ execs (map (send_to 0 (run_of makers)) some_messages ++ steps) (run_of makers) = Ret a' /\ wire_at 0 a' = Some sa'
    /\ sa'.(outbox) = (wire_in 0 (run_of makers)).(outbox) ++ stream some_messages)
  /\ (forall l b', forallb (listening 0) l = true -> concat (map arriving l) `prefix_of` stream some_messages ->
      execs l (run_of takers) = Ret b' -> in_order 0 some_messages (run_of takers) l b')
  /\ (forall chunks, concat chunks = stream some_messages ->
      (forall c q, inboxes (run_of takers) !! c = Some q -> roomy q (mail 0 c some_messages (run_of takers))) ->
      exists b', execs (map (Arrive 0) chunks ++ replicate (length some_messages) (DoReceive 0 5)) (run_of takers) = Ret b'
        /\ faces b' = faces (run_of takers)
        /\ forall c, queue <$> inboxes b' !! c = (fun q => queue q ++ mail 0 c some_messages (run_of takers)) <$> inboxes (run_of takers) !! c).
Proof.
  apply (channels_deliver _ _ 0 0 (wire_in 0 (run_of makers)) (wire_in 0 (run_of takers))).
  - run_reached.
  - split; [vm_compute; reflexivity |]. split; [| vm_compute; split; reflexivity]. intros ch. vm_compute. by intros [= <-].
  - vm_compute. reflexivity.
  - repeat constructor; vm_compute; eexists; reflexivity.
  - run_reached.
  - vm_compute. reflexivity.
  - vm_compute. reflexivity.
  - vm_compute. reflexivity.
  - vm_compute. reflexivity.
  - vm_compute. reflexivity.
  - repeat constructor; vm_compute; (reflexivity || (eexists; reflexivity)).
  - repeat constructor; vm_compute; congruence.
Defined.

(** There is room for them. *)
Lemma some_messages_fit c q : inboxes (run_of takers) !! c = Some q -> roomy q (mail 0 c some_messages (run_of takers)).
Proof. apply room_roomy. vm_compute. reflexivity. Qed.

(** A queue of 2 bytes: the receiver waits with the third packet until a user takes the first. *)
Definition crowded : list Action :=
  [Arrive 0 (stream [mkMessage [] [1]; mkMessage [] [2]; mkMessage [] [3]]); DoReceive 0 0; DoReceive 0 0; DoReceive 0 0; Recv 0; ResumePut 0 0].

Lemma crowded_run : exists w, execs crowded (run_of [Open 1 0; SetCapacity 0 2]) = Ret w
  /\ gathered 0 crowded (run_of [Open 1 0; SetCapacity 0 2]) = [[1]] /\ queue <$> inboxes w !! 0%nat = Some [[2]; [3]].
Proof. eexists. split; [vm_compute; reflexivity |]. vm_compute. by split. Qed.

Lemma channels_memory_safe_witness : honest_run (takers ++ [Take 0 7; Recv 1; Abort 0; Destroy 2; Destroy 0]) empty_world = true
  /\ safe Inv (execs (takers ++ [Take 0 7; Recv 1; Abort 0; Destroy 2; Destroy 0]) empty_world).
Proof. split; [vm_compute; reflexivity | apply channels_memory_safe; vm_compute; reflexivity]. Defined.

(** ** Failure *)

Lemma abort_below path : forall c d w w', Inv w -> resolve path c w = Some d -> Inv w' -> closes None w w' ->
  (forall ch', w'.(objs) !! c = Some ch' -> failed ch'.(error) = true) ->
  forall chd, w'.(objs) !! d = Some chd -> failed chd.(error) = true.
Proof.
  induction path as [| m path IH] using rev_ind; intros c d w w' I Hr I' C F chd Ed.
  - simpl in Hr. simplify_eq. by apply F.
  - rewrite resolve_snoc in Hr. destruct (resolve path c w) as [p |] eqn:Hp; [| done]. cbn [mbind option_bind] in Hr.
    apply resolve_one in Hr as (chp & chd0 & Ep & Hm & Ed0). destruct (proj2 (inv_tidy _ I p chp Ep) m d chd0 Hm Ed0) as [_ Hk].
    pose proof (closing_objs _ _ (closes_closing _ _ _ C)) as M.
    destruct (objs_rel_fwd _ _ _ _ _ M Ep) as (chp' & Ep' & _).
    destruct (objs_rel_fwd _ _ _ _ _ M Ed0) as (? & E2 & [K _ _ _ _ _ _]). simplify_eq. rewrite Hk in K.
    assert (failed (error chp') = true) as Fp by exact (IH c p w w' I Hp I' C F chp' Ep').
    destruct (failed (error chd)) eqn:Fd; [done |]. exfalso. assert (error chd = NoError) as He by (by destruct (error chd)).
    destruct (kind chd) as [| q n] eqn:Ek; [done |]. destruct K as [-> [-> | ->]]; [| by apply (inv_rooted _ I' d ltac:(done) chd m)].
    destruct (proj1 (inv_sound _ I') d chd p m) as (_ & pc & Epc & Hn); [done.. |]. simplify_eq.
    destruct (proj1 (inv_tidy _ I' p chp' Ep') Fp) as [Hs _]. by rewrite Hs, lookup_empty in Hn.
Qed.

(** C9: In every state such a run reaches, abort of a channel returns, and every channel
    below it, at any depth, is then failed, lists nothing and has its queue of received
    packets closed; an aborted connection is down. *)
Theorem abort_takes_all_below cur e c path d w : reached w -> failed e = true -> resolve path c w = Some d ->
  is_Some (w.(objs) !! c) ->
  exists w' chd, abortChannel cur e c w = Ret w' /\ Inv w' /\ w'.(objs) !! d = Some chd /\ failed chd.(error) = true
    /\ chd.(subChannels) = ∅ /\ chd.(receivingQueue).(m_closed) = true
    /\ forall s, chd.(kind) = SocketChannel s -> s.(connected) = false.
Proof.
  intros I Fe Hr Ec. apply reached_inv in I.
  pose proof (abortChannel_returns cur e c w Fe Ec (inv_sound _ I)) as H.
  destruct (abortChannel cur e c w) as [w' | | |] eqn:Ha; try done. destruct H as [C F].
  pose proof (inv_closes _ _ I C) as I'. destruct (resolve_object _ _ _ _ Hr Ec) as [chd0 Ed0].
  destruct (inv_some _ _ d C ltac:(by eexists)) as [chd Ed]. exists w', chd.
  assert (failed (error chd) = true) as Fd by exact (abort_below path c d w w' I Hr I' C F chd Ed).
  destruct (proj1 (inv_tidy _ I' d chd Ed) Fd) as (Hs & Ho & Hsh). done.
Qed.

Lemma abort_takes_all_below_witness : exists w' chd, abortChannel None UserShutdown 0 (run_of makers) = Ret w' /\ Inv w'
  /\ w'.(objs) !! 2%nat = Some chd /\ failed chd.(error) = true /\ chd.(subChannels) = ∅
  /\ chd.(receivingQueue).(m_closed) = true /\ forall s, chd.(kind) = SocketChannel s -> s.(connected) = false.
Proof.
  apply (abort_takes_all_below None UserShutdown 0 [2; 2] 2 (run_of makers)).
  - run_reached.
  - reflexivity.
  - vm_compute. reflexivity.
  - vm_compute. eexists. reflexivity.
Defined.

(** ** Sizes *)

Lemma isBroken_route path : forall r c s fuel w, Inv w -> wire_at r w = Some s -> s.(connected) = true ->
  (forall ch, w.(objs) !! r = Some ch -> ch.(error) = NoError) -> resolve path r w = Some c -> (c < fuel)%nat ->
  isBroken fuel c w = Ret false.
Proof.
  induction path as [| m path IH] using rev_ind; intros r c s fuel w I Hw Hc He Hr Hf.
  - simpl in Hr. simplify_eq. destruct fuel; [lia |]. apply wire_at_spec in Hw as (ch & E & Ek). cbn [isBroken].
    rewrite (deref_some _ _ _ E). cbn [mbind result_bind]. by rewrite (He ch E), Ek, Hc.
  - rewrite resolve_snoc in Hr. destruct (resolve path r w) as [p |] eqn:Hp; [| done]. cbn [mbind option_bind] in Hr.
    apply resolve_one in Hr as (chp & chc & Ep & Hm & Ec).
    destruct (proj2 (inv_tidy _ I p chp Ep) m c chc Hm Ec) as [Hce Hk].
    destruct (proj1 (inv_sound _ I) c chc p m) as [Hlt _]; [done | done | done | done |].
    destruct fuel as [| fuel]; [lia |]. cbn [isBroken]. rewrite (deref_some _ _ _ Ec). cbn [mbind result_bind].
    rewrite Hce, Hk. cbn [failed]. apply (IH r p s); try done. lia.
Qed.

Lemma maxPayloadSize_route path : forall r c s fuel w, Inv w -> wire_at r w = Some s -> s.(connected) = true ->
  (forall ch, w.(objs) !! r = Some ch -> ch.(error) = NoError) -> resolve path r w = Some c -> (c < fuel)%nat ->
  0 <= s.(maxPayload) < 2 ^ 32 -> maxPayloadSize fuel c w = Ret (u32 (s.(maxPayload) - 4 * zlen path)).
Proof.
  induction path as [| m path IH] using rev_ind; intros r c s fuel w I Hw Hc He Hr Hf Hm.
  - simpl in Hr. simplify_eq. destruct fuel; [lia |]. apply wire_at_spec in Hw as (ch & E & Ek). cbn [maxPayloadSize].
    rewrite (deref_some _ _ _ E). cbn [mbind result_bind]. rewrite Ek. f_equal. unfold wrapu, zlen. simpl. rewrite Z.mod_small; lia.
  - pose proof (isBroken_route (path ++ [m]) r c s (S c) w I Hw Hc He Hr ltac:(lia)) as Hbr.
    rewrite resolve_snoc in Hr. destruct (resolve path r w) as [p |] eqn:Hp; [| done]. cbn [mbind option_bind] in Hr.
    apply resolve_one in Hr as (chp & chc & Ep & Hm2 & Ec).
    destruct (proj2 (inv_tidy _ I p chp Ep) m c chc Hm2 Ec) as [Hce Hk].
    destruct (proj1 (inv_sound _ I) c chc p m) as [Hlt _]; [done | done | done | done |].
    destruct fuel as [| fuel]; [lia |]. cbn [maxPayloadSize]. rewrite (deref_some _ _ _ Ec). cbn [mbind result_bind].
    rewrite Hk, Hbr. cbn [mbind result_bind]. rewrite (IH r p s fuel w) by (done || lia). cbn [mbind result_bind]. f_equal.
    rewrite zlen_app. unfold wrapu. rewrite Zminus_mod_idemp_l. f_equal. unfold zlen. simpl. lia.
Qed.

(** The size that a channel announces is its connection size less four bytes a level;
    a packet is accepted exactly up to that size, whatever the depth. *)
Theorem maxPayloadSize_exact r s c path w : reached w -> idle r s w -> s.(connected) = true -> resolve path r w = Some c ->
  4 * zlen path <= s.(maxPayload) < 2 ^ 32 ->
  exists n, maxPayloadSize (S c) c w = Ret n /\ n = s.(maxPayload) - 4 * zlen path
    /\ forall data, 0 < zlen data < 2 ^ 32 - 4 * zlen path ->
         exists w', sendPacketAsync c data w = Ret (if zlen data <=? n then Queued else Refused, w').
Proof.
  intros I (Hw & He & Hcl & _) Hc Hr Hm. apply reached_inv in I. pose proof (zlen_nonneg path).
  exists (s.(maxPayload) - 4 * zlen path). split; [| split; [done |]].
  { rewrite (maxPayloadSize_route path r c s) by (done || lia). f_equal. unfold wrapu. apply Z.mod_small. lia. }
  intros data Hd. destruct (wire_at_spec r s w Hw) as (ch & E & Ek). unfold sendPacketAsync.
  rewrite (sendPacketRaw_route path r c ch s) by (done || lia). cbn [sendPacketRaw].
  rewrite (deref_some _ _ _ E). cbn [mbind result_bind]. rewrite Ek, (He ch E). cbn [failed orb].
  pose proof (zlen_route path DataChannelNumber data) as Hz.
  destruct (_ =? 0) eqn:Hz0; [exfalso; lia |].
  assert (u32 (zlen (route path DataChannelNumber data).2) = zlen data + 4 * zlen path) as ->.
  { unfold wrapu. rewrite Z.mod_small by lia. lia. }
  destruct (_ >? _) eqn:Hg; destruct (_ <=? _) eqn:Hl; try (exfalso; lia); [cbn [mbind result_bind]; eauto |].
  pose proof (insert_answer psize true (mkPacket (route path DataChannelNumber data).2 None (route path DataChannelNumber data).1)
    (sendingQueue s)) as Ha. destruct (insert _ _ _ _) as [ok q]. simpl in Ha. rewrite Hcl in Ha. subst ok. cbn [mbind result_bind]. eauto.
Qed.

Lemma maxPayloadSize_exact_witness : exists n, maxPayloadSize 3 2 (run_of makers) = Ret n
  /\ n = (wire_in 0 (run_of makers)).(maxPayload) - 4 * zlen [2; 2]
  /\ forall data, 0 < zlen data < 2 ^ 32 - 4 * zlen [2; 2] ->
       exists w', sendPacketAsync 2 data (run_of makers) = Ret (if zlen data <=? n then Queued else Refused, w').
Proof.
  apply (maxPayloadSize_exact 0 (wire_in 0 (run_of makers)) 2 [2; 2] (run_of makers)).
  - run_reached.
  - split; [vm_compute; reflexivity |]. split; [| vm_compute; split; reflexivity]. intros ch. vm_compute. by intros [= <-].
  - vm_compute. reflexivity.
  - vm_compute. reflexivity.
  - vm_compute. split; congruence.
Defined.

(** ** Flow control *)

(** The packet and the frame of a command of the channel that [path] names. *)
Definition command_packet (path : list Z) (command : list Z) : WritingPacket :=
  let x := route path CommandChannelNumber command in mkPacket x.2 None x.1.

Lemma command_valid path command : 0 < zlen command -> isValid (command_packet path command) = true.
Proof.
  intros H. unfold isValid, command_packet. cbn [channelNumber packet done]. rewrite zlen_route.
  pose proof (zlen_nonneg path). destruct (_ + _ =? 0) eqn:E; [lia |]. by rewrite andb_false_r.
Qed.

Lemma received_idle r s c q slow w : idle r s w -> idle r s (update c (with_received q slow) w).
Proof.
  intros (Hw & He & Hcl & Hn). apply wire_at_spec in Hw as (ch & E & Ek).
  assert (exists ch', (update c (with_received q slow) w).(objs) !! r = Some ch' /\ ch'.(kind) = ch.(kind) /\ ch'.(error) = ch.(error))
    as (ch' & E' & Hk & Her).
  { destruct (decide (c = r)) as [<- |]; [exists (with_received q slow ch); split; [by apply update_here | done] |].
    exists ch. by rewrite update_there. }
  split; [unfold wire_at; rewrite E'; cbn [mbind option_bind]; by rewrite Hk, Ek |]. split; [| done].
  intros x Ex. simplify_eq. rewrite Her. by apply He.
Qed.

(** A reader that takes a packet and has caught up asks its peer to go on. *)
Lemma recv_asks r s path c ch data l w : Inv w -> idle r s w -> resolve path r w = Some c -> w.(objs) !! c = Some ch ->
  ch.(slowDownRequested) = true -> ch.(receivingQueue).(queue) = data :: l ->
  ch.(receivingQueue).(notEmpty).(flag) = true -> 0 < zlen data ->
  (take_front bsize data l ch.(receivingQueue)).(currentSize) <= ch.(receivingQueue).(mCapacity) / 2 ->
  1 + 4 * zlen path <= s.(maxPayload) -> 1 + 4 * zlen path < 2 ^ 31 ->
  exists w' s' ch', recvPacket c w = Ret (Some data, w') /\ idle r s' w' /\ s'.(outbox) = s.(outbox)
    /\ s'.(sendingQueue).(queue) = s.(sendingQueue).(queue) ++ [command_packet path packGoThroughRequest]
    /\ w'.(objs) !! c = Some ch' /\ ch'.(slowDownRequested) = false /\ ch'.(receivingQueue).(queue) = l.
Proof.
  intros I Hs Hr E Hslow Hq Hf Hd Hsize H1 H2. set (q := take_front bsize data l ch.(receivingQueue)) in *.
  set (w1 := update c (with_received q true) w). set (w2 := update c (with_received q false) w1).
  assert (q.(m_closed) = ch.(receivingQueue).(m_closed)) as Hqc by apply take_front_closed.
  assert (Inv w1) as I1 by (apply (inv_received c ch); [done | done | congruence]).
  assert (w1.(objs) !! c = Some (with_received q true ch)) as E1 by (by apply update_here).
  assert (w2.(objs) !! c = Some (with_received q false ch)) as E2
    by exact (update_here c (with_received q false) w1 _ E1).
  assert (Inv w2) as I2 by (by apply (inv_received c (with_received q true ch))).
  assert (idle r s w2) as Hs2 by (by do 2 apply received_idle).
  assert (faces w2 = faces w) as F2 by (etrans; by apply fmap_update).
  set (p := command_packet path packGoThroughRequest).
  assert (recvPacket c w = Ret (Some data, update r (on_wire (with_sending (insert psize true p s.(sendingQueue)).2)) w2)) as Hrecv.
  { unfold recvPacket. rewrite (deref_some _ _ _ E). cbn [mbind result_bind]. unfold isEmpty. rewrite Hq. cbn [andb].
    rewrite Hf. cbn [negb proceed]. rewrite Hq. fold q. cbn [default]. unfold id. destruct (zlen data =? 0) eqn:H0; [lia |].
    unfold wantsGoThrough. cbn [with_received slowDownRequested receivingQueue]. rewrite Hslow. cbn [andb].
    assert (q.(mCapacity) = ch.(receivingQueue).(mCapacity)) as Hcap by apply take_front_capacity.
    rewrite Hcap. destruct (_ <=? _) eqn:Hle; [| exfalso; apply Z.leb_gt in Hle; lia]. fold w1. fold w2. unfold sendCommand.
    rewrite (send_raw r s c path CommandChannelNumber packGoThroughRequest w2); [done | done | done | | done | |];
      [by rewrite (resolve_faces _ _ _ _ F2) | change (zlen packGoThroughRequest) with 1; lia..]. }
  destruct (queued_idle r s p w2 Hs2) as [Hi Hq'].
  assert (exists ch', (update r (on_wire (with_sending (insert psize true p s.(sendingQueue)).2)) w2).(objs) !! c = Some ch'
    /\ ch'.(slowDownRequested) = false /\ ch'.(receivingQueue) = q) as (ch' & E' & Hsl & Hrq).
  { destruct (decide (r = c)) as [-> |]; [| exists (with_received q false ch); by rewrite update_there].
    eexists. split; [by apply update_here |]. unfold on_wire. by destruct (kind (with_received q false ch)). }
  eexists _, _, ch'. split; [exact Hrecv |]. split; [exact Hi |]. split; [done |]. split; [exact Hq' |].
  split; [done |]. split; [done |]. rewrite Hrq. apply take_front_queue.
Qed.

(** The command opens the gate of the channel of the same name. *)
Lemma command_opens r s time path c w : Inv w -> wire_at r w = Some s -> s.(receiver) = Reading -> s.(connected) = true ->
  s.(inbox) = frame (command_packet path packGoThroughRequest) -> Forall is_number path ->
  1 + 4 * zlen path <= s.(maxPayload) -> 1 + 4 * zlen path < 2 ^ 31 -> resolve path r w = Some c ->
  unplugged path r w = true ->
  exists w' ch', doReceive r time w = Ret w' /\ w'.(objs) !! c = Some ch' /\ ch'.(goThrough) = true.
Proof.
  intros I Hw Hr Hc Hi Hp H1 H2 Hres Hu.
  set (w1 := update r (on_wire (fun _ => with_stream true [] s.(eof) s)) w).
  assert (is_Some (w.(objs) !! r)) as Er by (apply wire_at_spec in Hw as (x & ? & _); by eexists).
  destruct (resolve_object _ _ _ _ Hres Er) as [ch E].
  destruct (aside_channel c ch w w1 (stream_faces r s [] w Hw Hc) (stream_inboxes r s [] w) E) as (ch1 & E1 & _ & Hg1).
  assert (doReceive r time w = Ret (update r (on_wire (fun s => with_times time s.(lastKeepaliveTimestamp) (with_receiver Reading s)))
    (update c (with_gate true) w1))) as Hdo.
  { rewrite <- received_handled.
    destruct (doReceive_route r c s time path CommandChannelNumber packGoThroughRequest [] (fun _ => Handled NoError) w (update c (with_gate true) w1))
      as [_ Hx]; try done.
    - rewrite app_nil_r. exact Hi.
    - intros held fuel. fold w1. cbn [handleIncomingPacket]. rewrite (deref_some _ _ _ E1). cbn [mbind result_bind].
      by rewrite Hg1, (unplugged_end path r c ch w Hres Hu E). }
  set (w2 := update c (with_gate true) w1) in *. assert (w2.(objs) !! c = Some (with_gate true ch1)) as E2 by (by apply update_here).
  destruct (decide (r = c)) as [-> |].
  - eexists _, _. split; [exact Hdo |]. split; [by apply update_here |]. unfold on_wire. by destruct (kind (with_gate true ch1)).
  - eexists _, _. split; [exact Hdo |]. split; [by rewrite update_there |]. done.
Qed.

(** C23: A reader that asked its peer to slow down and takes a packet that leaves at most
    half of the capacity queues one command; written and received, it opens the gate of
    the channel of the same name at the peer. *)
Theorem reader_reopens_gate a b ra rb sa sb path ca cb ch data l time :
  reached a -> idle ra sa a -> sa.(sendingQueue).(queue) = [] -> resolve path ra a = Some ca ->
  a.(objs) !! ca = Some ch -> ch.(slowDownRequested) = true -> ch.(receivingQueue).(queue) = data :: l ->
  ch.(receivingQueue).(notEmpty).(flag) = true -> 0 < zlen data ->
  (take_front bsize data l ch.(receivingQueue)).(currentSize) <= ch.(receivingQueue).(mCapacity) / 2 ->
  reached b -> wire_at rb b = Some sb -> sb.(connected) = true -> sb.(eof) = false -> sb.(receiver) = Reading ->
  sb.(inbox) = [] -> resolve path rb b = Some cb -> unplugged path rb b = true ->
  Forall is_number path -> 1 + 4 * zlen path <= Z.min sa.(maxPayload) sb.(maxPayload) -> 1 + 4 * zlen path < 2 ^ 31 ->
  exists a1 cha steps a2 sa2 bytes b' chb, recvPacket ca a = Ret (Some data, a1)
    /\ a1.(objs) !! ca = Some cha /\ cha.(slowDownRequested) = false /\ cha.(receivingQueue).(queue) = l
    /\ Forall (sending_step ra) steps /\ execs steps a1 = Ret a2 /\ wire_at ra a2 = Some sa2
    /\ sa2.(outbox) = sa.(outbox) ++ bytes /\ execs [Arrive rb bytes; DoReceive rb time] b = Ret b'
    /\ b'.(objs) !! cb = Some chb /\ chb.(goThrough) = true.
Proof.
  intros Ia Hs Hq Hra Ea Hslow Hqa Hfl Hd Hsize Ib Hw Hc He Hr Hi Hrb Hu Hp Hm1 Hm2. apply reached_inv in Ia, Ib.
  destruct (recv_asks ra sa path ca ch data l a) as (a1 & s1 & cha & Hrecv & Hs1 & Ho1 & Hq1 & Ea1 & Hsl1 & Hl1); try done; [lia |].
  rewrite Hq in Hq1. cbn [app] in Hq1.
  destruct (send_all ra time _ s1 a1 eq_refl Hs1) as (steps & a2 & s2 & Hst & Hx & _ & Hs2 & _ & Ho2 & _).
  { rewrite Hq1. constructor; [| constructor]. by apply command_valid. }
  set (bytes := frame (command_packet path packGoThroughRequest)).
  destruct (arrive_chunks rb [bytes] sb b Ib Hw Hc He) as (b1 & t1 & Eb & Ib1 & Fb1 & _ & Hw1 & Hi1 & Hr1).
  destruct (faces_wire rb sb t1 b b1 Fb1 Hw Hw1) as [Hmax Hcon]. rewrite Hi in Hi1. cbn [app concat] in Hi1. rewrite app_nil_r in Hi1.
  destruct (command_opens rb t1 time path cb b1) as (b2 & chb & Hdo & Eb2 & Hg); try done; try congruence; [lia | | |].
  { by rewrite (resolve_faces _ _ _ _ Fb1). } { by rewrite (unplugged_faces _ _ _ _ Fb1). }
  exists a1, cha, steps, a2, s2, bytes, b2, chb. repeat (split; [done |]). split; [apply Hs2 |].
  split; [rewrite Ho2, Ho1, Hq1; unfold frames; cbn [map concat]; by rewrite app_nil_r |]. split; [| done].
  change [Arrive rb bytes; DoReceive rb time] with (map (Arrive rb) [bytes] ++ [DoReceive rb time]).
  rewrite run_app, Eb. cbn [mbind result_bind execs]. unfold exec. cbn [uses forallb].
  apply wire_at_spec in Hw1 as (x & Ex & _). rewrite bool_decide_eq_true_2 by (by eexists). cbn [andb negb]. unfold silent. by rewrite Hdo.
Qed.

(** A reader with a small queue, and its peer, whose gate it closed. *)
Definition slow_reader : list Action :=
  [Open 1 0; Make 0; SetCapacity 1 8; Arrive 0 (stream [mkMessage [2] (replicate 7 1); mkMessage [2] [9]]);
   DoReceive 0 0; DoReceive 0 0; DoSend 0; DoSent 0 26 0].
Definition its_peer : list Action :=
  [Open (-1) 0; Arrive 0 (wire_in 0 (run_of slow_reader)).(outbox); DoReceive 0 0; DoReceive 0 0].
Definition channel_in (c : nat) w : Channel := default (newChannel (VirtualChannel None 0) 1 1 1) (w.(objs) !! c).

Lemma reader_reopens_gate_witness :
  (channel_in 1 (run_of its_peer)).(goThrough) = false
  /\ exists a1 cha steps a2 sa2 bytes b' chb, recvPacket 1 (run_of slow_reader) = Ret (Some (replicate 7 1), a1)
    /\ a1.(objs) !! 1%nat = Some cha /\ cha.(slowDownRequested) = false /\ cha.(receivingQueue).(queue) = [[9]]
    /\ Forall (sending_step 0) steps /\ execs steps a1 = Ret a2 /\ wire_at 0 a2 = Some sa2
    /\ sa2.(outbox) = (wire_in 0 (run_of slow_reader)).(outbox) ++ bytes
    /\ execs [Arrive 0 bytes; DoReceive 0 5] (run_of its_peer) = Ret b'
    /\ b'.(objs) !! 1%nat = Some chb /\ chb.(goThrough) = true.
Proof.
  split; [vm_compute; reflexivity |].
  apply (reader_reopens_gate _ _ 0 0 (wire_in 0 (run_of slow_reader)) (wire_in 0 (run_of its_peer)) [2] 1 1
           (channel_in 1 (run_of slow_reader))).
  - run_reached.
  - split; [vm_compute; reflexivity |]. split; [| vm_compute; split; reflexivity]. intros ch. vm_compute. by intros [= <-].
  - vm_compute. reflexivity.
  - vm_compute. reflexivity.
  - vm_compute. reflexivity.
  - vm_compute. reflexivity.
  - vm_compute. reflexivity.
  - vm_compute. reflexivity.
  - vm_compute. reflexivity.
  - vm_compute. congruence.
  - run_reached.
  - vm_compute. reflexivity.
  - vm_compute. reflexivity.
  - vm_compute. reflexivity.
  - vm_compute. reflexivity.
  - vm_compute. reflexivity.
  - vm_compute. reflexivity.
  - vm_compute. reflexivity.
  - constructor; [| constructor]. vm_compute. split; congruence.
  - vm_compute. congruence.
  - vm_compute. reflexivity.
Defined.

(** ** Streams *)

(** [recvPacket] takes the front of the queue. *)
Lemma recv_next c ch data l w : Inv w -> w.(objs) !! c = Some ch -> ch.(receivingQueue).(queue) = data :: l ->
  ch.(receivingQueue).(notEmpty).(flag) = true -> 0 < zlen data ->
  exists w' ch', recvPacket c w = Ret (Some data, w') /\ Inv w' /\ w'.(objs) !! c = Some ch'
    /\ ch'.(receivingQueue) = take_front bsize data l ch.(receivingQueue).
Proof.
  intros I E Hq Hf Hd. pose proof (recvPacket_ok c w I ltac:(by eexists)) as I'.
  unfold recvPacket in *. rewrite (deref_some _ _ _ E) in *. cbn [mbind result_bind] in *. unfold isEmpty in *. rewrite Hq in *.
  cbn [andb] in *. rewrite Hf in *. cbn [negb proceed] in *. rewrite Hq in *. set (q := take_front bsize data l ch.(receivingQueue)) in *.
  cbn [default] in *. unfold id in *. destruct (zlen data =? 0) eqn:H0; [lia |]. destruct (wantsGoThrough _) eqn:Hwg.
  - set (w1 := update c _ (update c _ w)) in *.
    assert (w1.(objs) !! c = Some (with_received q false (with_received q ch.(slowDownRequested) ch))) as E1.
    { apply update_here. by apply update_here. }
    assert (Inv w1) as I1.
    { apply (inv_received c (with_received q ch.(slowDownRequested) ch)); [| by apply update_here | done].
      apply (inv_received c ch); [done | done |]. unfold q. by rewrite take_front_closed. }
    pose proof (sendCommand_aside c packGoThroughRequest w1 I1 ltac:(by eexists)) as Hs.
    destruct (sendCommand _ _ w1) as [w2 | | |]; try done. destruct Hs as [I2 A]. cbn [mbind result_bind].
    destruct (aside_channel c _ w1 w2 (aside_faces _ _ A) (aside_inboxes _ _ A) E1) as (ch2 & E2 & Hq2 & _).
    exists w2, ch2. by rewrite Hq2.
  - eexists _, _. split; [done |]. split; [exact I' |]. split; [by apply update_here | done].
Qed.

Lemma take_front_flag {T} (sizeOf : T -> Z) e x l q : q.(notEmpty).(flag) = true ->
  (take_front sizeOf e (x :: l) q).(notEmpty).(flag) = true.
Proof. intros H. unfold take_front. by destruct (_ <? _). Qed.

(** The loop of [recvall] gathers what it is asked for, if that has arrived. *)
Lemma fill_reads l : forall fuel c ch size buf w, Inv w -> w.(objs) !! c = Some ch -> ch.(receivingQueue).(queue) = l ->
  (l <> [] -> ch.(receivingQueue).(notEmpty).(flag) = true) -> Forall (fun p => 0 < zlen p) l -> (length l < fuel)%nat ->
  size <= zlen (buf ++ concat l) ->
  exists w' buf' ch', fill fuel c size buf w = Ret (true, buf', w') /\ Inv w' /\ w'.(objs) !! c = Some ch' /\ size <= zlen buf'
    /\ buf' ++ concat ch'.(receivingQueue).(queue) = buf ++ concat l.
Proof.
  induction l as [| p l IH]; intros fuel c ch size buf w I E Hq Hf Hp Hl Hs; (destruct fuel as [| fuel]; [simpl in Hl; lia |]);
    cbn [fill]; destruct (zlen buf <? size) eqn:Hlt.
  - exfalso. cbn [concat] in Hs. rewrite app_nil_r in Hs. lia.
  - exists w, buf, ch. rewrite Hq. split; [done |]. split; [done |]. split; [done |]. split; [lia | done].
  - apply Forall_cons_iff in Hp as [Hp Hps].
    destruct (recv_next c ch p l w I E Hq (Hf ltac:(done)) Hp) as (w1 & ch1 & -> & I1 & E1 & Hq1). cbn [mbind result_bind].
    destruct (zlen p =? 0) eqn:H0; [lia |].
    destruct (IH fuel c ch1 size (buf ++ p) w1) as (w2 & buf2 & ch2 & H2); try done.
    + by rewrite Hq1, take_front_queue.
    + intros Hne. rewrite Hq1. destruct l; [done |]. by apply take_front_flag, Hf.
    + simpl in Hl. lia.
    + by rewrite <- app_assoc.
    + exists w2, buf2, ch2. by rewrite <- app_assoc in H2.
  - exists w, buf, ch. rewrite Hq. split; [done |]. split; [done |]. split; [done |]. split; [lia | done].
Qed.

Lemma sendall_packets ok n fuel : forall data i, 0 < n -> (forall k, ok k = true) -> (length data <= fuel)%nat ->
  exists packets, streamSendall fuel ok i n data = Ret (packets, zlen data) /\ concat packets = data
    /\ Forall (fun p => 0 < zlen p <= n) packets.
Proof.
  induction fuel as [| fuel IH]; intros data i Hn Hok Hf; (destruct data as [| x data']; [by exists [] |]); [simpl in Hf; lia |].
  set (data := x :: data') in *.
  change (streamSendall (S fuel) ok i n data) with
    (let len := Z.min (zlen data) n in if len <? 0 then Reject else
     if (len =? 0) || negb (ok i) then Ret ([take (Z.to_nat len) data], 0) else
     '(packets, count) ← streamSendall fuel ok (S i) n (drop (Z.to_nat len) data);
     Ret (take (Z.to_nat len) data :: packets, len + count)). cbv zeta.
  assert (0 < zlen data) as H0 by (unfold data, zlen; simpl; lia). set (len := Z.min (zlen data) n).
  assert (0 < len <= n /\ len <= zlen data) as [Hl Hl2] by (unfold len; lia).
  destruct (len <? 0) eqn:H1; [lia |]. destruct (len =? 0) eqn:H2; [lia |]. rewrite Hok. cbn [orb negb].
  destruct (IH (drop (Z.to_nat len) data) (S i)) as (packets & -> & Hc & Hp); try done.
  - rewrite length_drop. unfold zlen in *. lia.
  - cbn [mbind result_bind]. eexists. split; [f_equal; f_equal; rewrite zlen_drop by lia; lia |].
    cbn [concat]. rewrite Hc, take_drop. split; [done |]. constructor; [| done]. rewrite zlen_take by lia. lia.
Qed.

(** C25: The packets into which sendall of the stream interface cuts its data, once in the
    queue of the channel at the other end, are put together again: recvall of any size
    returns the first bytes, and the rest stays to be read. *)
Theorem stream_reassembled ok n data packets w c ch size :
  0 < n -> (forall k, ok k = true) -> 0 < size <= zlen data -> zlen data < 2 ^ 31 ->
  streamSendall (length data) ok 0 n data = Ret (packets, zlen data) ->
  reached w -> w.(objs) !! c = Some ch -> ch.(receivingQueue).(queue) = packets ->
  ch.(receivingQueue).(notEmpty).(flag) = true ->
  exists w' buf ch', streamRecvall c size [] w = Ret (Some (size, take (Z.to_nat size) data), buf, w')
    /\ w'.(objs) !! c = Some ch' /\ buf ++ concat ch'.(receivingQueue).(queue) = drop (Z.to_nat size) data.
Proof.
  intros Hn Hok Hsize Hbig Hsend I E Hq Hf. apply reached_inv in I.
  destruct (sendall_packets ok n (length data) data 0 Hn Hok) as (packets' & Hsend' & Hc & Hp); [done |].
  rewrite Hsend in Hsend'. simplify_eq.
  destruct (fill_reads (queue (receivingQueue ch)) (S (length (queue (receivingQueue ch)))) c ch size [] w)
    as (w' & buf & ch' & Hfill & _ & E' & Hlen & Hrest); try done.
  { eapply Forall_impl; [| exact Hp]. cbn beta. lia. } { lia. }
  { cbn [app]. lia. }
  cbn [app] in Hrest. unfold streamRecvall. destruct (size <=? 0) eqn:Hs; [lia |]. rewrite (deref_some _ _ _ E).
  cbn [mbind result_bind]. rewrite Hfill. cbn [mbind result_bind]. unfold bufferTake.
  assert (zlen buf <= zlen (concat (queue (receivingQueue ch)))) as Hb.
  { rewrite <- Hrest, zlen_app. pose proof (zlen_nonneg (concat (queue (receivingQueue ch')))). lia. }
  assert (s32 (zlen buf) = zlen buf) as -> by (unfold wraps; rewrite Z.mod_small; lia).
  rewrite Z.min_l by lia. eexists _, _, ch'. split; [| split; [done |]].
  - rewrite <- Hrest, take_app_le by (unfold zlen in *; lia). done.
  - rewrite <- Hrest, drop_app_le by (unfold zlen in *; lia). done.
Qed.

Definition stream_reader : list Action :=
  [Open 1 0; Make 0; Arrive 0 (stream [mkMessage [2] [1; 2; 3]; mkMessage [2] [4; 5]]); DoReceive 0 0; DoReceive 0 0].

Lemma stream_reassembled_witness :
  exists w' buf ch', streamRecvall 1 4 [] (run_of stream_reader) = Ret (Some (4, take (Z.to_nat 4) [1; 2; 3; 4; 5]), buf, w')
    /\ w'.(objs) !! 1%nat = Some ch' /\ buf ++ concat ch'.(receivingQueue).(queue) = drop (Z.to_nat 4) [1; 2; 3; 4; 5].
Proof.
  apply (stream_reassembled (fun _ => true) 3 [1; 2; 3; 4; 5] [[1; 2; 3]; [4; 5]] (run_of stream_reader) 1
           (channel_in 1 (run_of stream_reader)) 4).
  - lia.
  - reflexivity.
  - vm_compute. split; congruence.
  - vm_compute. reflexivity.
  - vm_compute. reflexivity.
  - run_reached.
  - vm_compute. reflexivity.
  - vm_compute. reflexivity.
  - vm_compute. reflexivity.
Defined.

(** ** A taker that nobody wakes *)

(** [Q] of the answer, if there is one. *)
Definition yields {A} (Q : A -> Prop) (r : result A) : Prop := match r with Ret a => Q a | _ => True end.

Lemma yields_bind {A B} (P : A -> Prop) (Q : B -> Prop) r (k : A -> result B) :
  yields P r -> (forall a, P a -> yields Q (k a)) -> yields Q (r ≫= k).
Proof. destruct r; simpl; auto. Qed.

Lemma yields_mono {A} (P Q : A -> Prop) r : yields P r -> (forall a, P a -> Q a) -> yields Q r.
Proof. destruct r; simpl; auto. Qed.

Lemma yields_skip {A B} (Q : B -> Prop) r (k : A -> result B) : (forall a, yields Q (k a)) -> yields Q (r ≫= k).
Proof. destruct r; simpl; auto. Qed.

Section Stranded.
Context (c t : nat).

(** The channel has failed; [t] waits for a pending channel, of which there is none. *)
Record deserted ch : Prop := {
  des_failed : failed ch.(error) = true;
  des_offline : offline ch;
  des_pending : ch.(pendingChannels) = [];
  des_waits : t ∈ ch.(pendingChannelsNotEmpty).(cwaiting);
  des_asleep : t ∉ ch.(pendingChannelsNotEmpty).(cnotified)
}.

Record stranded w : Prop := {
  st_old : (c < w.(fresh))%nat;
  st_here : exists ch, w.(objs) !! c = Some ch /\ deserted ch;
  st_unlisted : forall d ch n, w.(objs) !! d = Some ch -> ch.(subChannels) !! n <> Some c
}.

(** A change of one object that does not concern the taker. *)
Definition tame (f : Channel -> Channel) : Prop :=
  (forall ch, deserted ch -> deserted (f ch)) /\ forall ch n, (f ch).(subChannels) !! n = Some c -> ch.(subChannels) !! n = Some c.

Lemma stranded_objs o w : (forall d ch, o !! d = Some ch -> exists ch0, w.(objs) !! d = Some ch0
    /\ forall n, ch.(subChannels) !! n = Some c -> ch0.(subChannels) !! n = Some c) ->
  (exists ch, o !! c = Some ch /\ deserted ch) -> stranded w -> stranded (with_objs o w).
Proof.
  intros Ho Hc [S1 _ S3]. split; [done | done |]. intros d ch n E Hn. destruct (Ho d ch E) as (ch0 & E0 & H0). by apply (S3 d ch0 n E0), H0.
Qed.

Lemma stranded_update d f w : d <> c \/ (forall ch, deserted ch -> deserted (f ch)) ->
  (forall ch n, (f ch).(subChannels) !! n = Some c -> ch.(subChannels) !! n = Some c) -> stranded w -> stranded (update d f w).
Proof.
  intros Hd Hs S. apply stranded_objs; [| | done].
  - intros e ch. destruct (decide (e = d)) as [-> | Hne].
    + rewrite lookup_alter_eq. destruct (w.(objs) !! d) as [ch0 |] eqn:E; [| done]. intros [= <-]. exists ch0. by split; [| apply Hs].
    + rewrite lookup_alter_ne by done. intros E. by exists ch.
  - destruct (st_here w S) as (ch & E & H). destruct (decide (d = c)) as [-> | Hne].
    + exists (f ch). rewrite lookup_alter_eq, E. split; [done |]. destruct Hd; [done | auto].
    + exists ch. by rewrite lookup_alter_ne.
Qed.

Lemma stranded_tame d f w : tame f -> stranded w -> stranded (update d f w).
Proof. intros [H1 H2]. apply stranded_update; [by right | done]. Qed.

Lemma stranded_waits l a w : stranded w -> stranded (with_waits l a w).
Proof. by intros [S1 S2 S3]. Qed.

Lemma stranded_signal ok l w : stranded w -> stranded (signal ok l w).
Proof. by intros [S1 S2 S3]. Qed.

Lemma tame_wire g : (forall s, s.(connected) = false -> (g s).(connected) = false) -> tame (on_wire g).
Proof.
  intros H. split.
  - intros ch [D1 D2 D3 D4 D5]. unfold on_wire. destruct (kind ch) as [s |] eqn:Ek; [| done].
    split; try done. intros s' [= <-]. apply H, D2, Ek.
  - intros ch n. unfold on_wire. by destruct (kind ch).
Qed.

Lemma tame_received q slow : tame (with_received q slow).
Proof. by split; [intros ch [] |]. Qed.
Lemma tame_deliver payload : tame (deliver payload).
Proof. split; [intros ch [] |]; done. Qed.
Lemma tame_gate g : tame (with_gate g).
Proof. by split; [intros ch [] |]. Qed.
Lemma tame_plug p : tame (with_plug p).
Proof. by split; [intros ch [] |]. Qed.
Lemma tame_next n : tame (with_next n).
Proof. by split; [intros ch [] |]. Qed.
Lemma tame_erase n : tame (erase_sub n).
Proof. split; [by intros ch [] |]. intros ch m. unfold erase_sub. cbn. intros H. by apply lookup_delete_Some in H as [_ H]. Qed.
Lemma tame_detach : tame detach.
Proof.
  split; intros ch; unfold detach; destruct (kind ch) eqn:Ek; try done. intros [D1 D2 D3 D4 D5]. by split.
Qed.
#[local] Hint Resolve tame_received tame_deliver tame_gate tame_plug tame_next tame_erase tame_detach : core.
#[local] Hint Resolve stranded_tame stranded_waits stranded_signal : core.
#[local] Hint Extern 4 (tame (on_wire _)) => apply tame_wire; try done : core.

(** *** Sending *)

Lemma admit_stranded r s p w : stranded w -> stranded (admit_packet r s p w).2.
Proof. intros S. unfold admit_packet. destruct (flag _); [| done]. destruct (insert _ _ _ _). cbn. auto. Qed.

Lemma raw_stranded fuel : forall d n data b w, stranded w -> yields (fun x => stranded x.2) (sendPacketRaw fuel d n data b w).
Proof.
  induction fuel as [| fuel IH]; intros d n data b w S; [done |]. cbn [sendPacketRaw]. apply yields_skip. intros ch.
  destruct (kind ch) as [s | [p |] m]; [| case_match; [done | by apply IH] | done].
  destruct (_ || _); [done |]. destruct (_ >? _); [done |]. destruct b; cbn zeta.
  - destruct (insert _ _ _ _). cbn. auto.
  - pose proof (admit_stranded d s (mkPacket data None n) w S) as H. by destruct (admit_packet _ _ _ _).
  - match goal with |- context [admit_packet d s ?p ?v] => assert (stranded (admit_packet d s p v).2) as H by (apply admit_stranded; by destruct S); by destruct (admit_packet d s p v) end.
Qed.

Lemma command_stranded d data w : stranded w -> yields stranded (sendCommand d data w).
Proof. intros S. unfold sendCommand. eapply yields_bind; [by apply raw_stranded |]. by intros [[? ?] ?]. Qed.

Lemma wait_stranded who x : stranded x.2 -> stranded (wait_for who x).
Proof. destruct x as [[s d] w]. cbn. destruct s; auto. Qed.

(** *** Closing *)

Lemma packets_stranded fuel : forall d n check w, stranded w -> yields stranded (cleanSendingPacket fuel d n check w).
Proof.
  induction fuel as [| fuel IH]; intros d n check w S; [done |]. cbn [cleanSendingPacket]. apply yields_skip. intros ch.
  destruct (kind ch) as [s | [p |] m]; [cbn; auto | case_match; [done | by apply IH] | done].
Qed.

Lemma clean_stranded d n b w : stranded w -> yields stranded (cleanChannel d n b w).
Proof.
  intros S. unfold cleanChannel. apply yields_skip. intros ch.
  assert (stranded (update d (erase_sub n) w)) as S1 by auto.
  assert (yields stranded (if b then notifyChannelClose d n (update d (erase_sub n) w) else Ret (update d (erase_sub n) w))) as S2.
  { destruct b; [| done]. unfold notifyChannelClose. apply yields_skip. intros ch'. case_match; [done |]. by apply command_stranded. }
  destruct (kind ch) as [s | [p |] m]; [destruct (negb _) | destruct (_ || negb _) | done]; try done;
    (eapply yields_bind; [exact S2 |]); intros w' S'; by apply packets_stranded.
Qed.

Lemma shutdown_stranded cur r s w : stranded w -> stranded (shutdown cur r s w).
Proof.
  intros S. unfold shutdown, killReceiving, killSending. cbn zeta. repeat case_match; auto 10.
Qed.

Lemma loop_stranded {A} (f : A -> World -> result World) l : (forall x w, stranded w -> yields stranded (f x w)) ->
  forall w, stranded w -> yields stranded (loop f l w).
Proof.
  intros H. induction l as [| x l IH]; intros w S; [done |]. cbn [loop]. eapply yields_bind; [by apply H |]. auto.
Qed.

Lemma base_stranded ab e d w : (forall e d w, stranded w -> yields stranded (ab e d w)) -> d <> c -> stranded w -> yields stranded (baseAbort ab e d w).
Proof.
  intros Hab Hd S. unfold baseAbort. apply yields_skip. intros ch.
  eapply (yields_bind stranded).
  { destruct (pluggedChannel ch); [| done]. eapply yields_bind; [by apply Hab |]. cbn. auto. }
  intros w1 S1. apply yields_skip. intros ch1.
  eapply (yields_bind stranded).
  { apply loop_stranded; [| apply stranded_update; [by left | done | done]]. intros n w2 S2. unfold abort_sub.
    apply yields_skip. intros ch2. case_match; [| done]. case_match; [| done]. auto. }
  intros w2 S2. apply yields_skip. intros ch2. eapply (yields_bind stranded).
  { apply loop_stranded; [| apply stranded_update; [by left | | done]; intros ? ?; cbn; by rewrite lookup_empty].
    intros p w3 S3. unfold abort_pending. destruct p; [| done]. apply yields_skip. auto. }
  intros w3 S3. cbn. apply stranded_update; [by left | done | done].
Qed.

(** A channel that has failed is not aborted again, so that it is another one. *)
Lemma abort_stranded fuel : forall cur e d w, stranded w -> yields stranded (abort fuel cur e d w).
Proof.
  induction fuel as [| fuel IH]; intros cur e d w S; [done |]. cbn [abort]. unfold deref. destruct (w.(objs) !! d) as [ch |] eqn:E; [| done].
  cbn [mbind result_bind]. destruct (failed (error ch)) eqn:Hf; [done |].
  assert (d <> c) as Hd. { intros ->. destruct (st_here w S) as (ch0 & E0 & [D1 _ _ _ _]). congruence. }
  assert (stranded (update d (with_error e) w)) as S1 by (apply stranded_update; [by left | done | done]).
  eapply (yields_bind stranded); [| intros w1 H1; apply base_stranded; auto].
  destruct (kind ch) as [s | [p |] n]; [| by apply clean_stranded | done]. cbn. by apply shutdown_stranded.
Qed.

Lemma abortChannel_stranded cur e d w : stranded w -> yields stranded (abortChannel cur e d w).
Proof. apply abort_stranded. Qed.
#[local] Hint Resolve abortChannel_stranded : core.

(** *** Channels below a channel *)

Lemma internal_stranded d pole n w : stranded w -> yields (fun x => stranded x.2) (makeChannelInternal d pole n w).
Proof.
  intros S. unfold makeChannelInternal. apply yields_skip. intros ch. cbn [yields snd].
  match goal with |- stranded (update _ ?f ?v) => set (g := f); set (w1 := v) end.
  assert (stranded w1) as S1.
  { destruct S as [S1 (ch0 & E & D) S3]. split; cbn; [lia | exists ch0; rewrite lookup_insert_ne by lia; done |].
    intros e che m. destruct (decide (e = w.(fresh))) as [-> | Hne]; [rewrite lookup_insert_eq | rewrite lookup_insert_ne by done; by apply S3].
    intros [= <-]. cbn. by rewrite lookup_empty. }
  pose proof (st_old w S) as Hold. clearbody w1. destruct S1 as [T1 (ch0 & E & D) T3]. split; [done | |].
  - destruct (decide (d = c)) as [-> | Hne]; [exists (g ch0) | exists ch0]; cbn.
    + rewrite lookup_alter_eq, E. split; [done |]. by destruct D.
    + by rewrite lookup_alter_ne.
  - intros e che m. cbn. destruct (decide (e = d)) as [-> | Hne].
    + rewrite lookup_alter_eq. destruct (objs w1 !! d) as [che0 |] eqn:E0; [| done]. intros [= <-]. unfold g. cbn.
      destruct (decide (n = m)) as [-> | Hm]; [rewrite lookup_insert_eq; intros [= Hx]; lia | rewrite lookup_insert_ne by done; by eapply T3].
    + rewrite lookup_alter_ne by done. apply T3.
Qed.

Lemma make_stranded d w : stranded w -> yields (fun x => stranded x.2) (makeChannel d w).
Proof.
  intros S. unfold makeChannel. apply yields_skip. intros []; [done |]. apply yields_skip. intros ch.
  eapply yields_bind; [apply internal_stranded; auto |]. intros [id w1] S1. eapply yields_bind; [by apply command_stranded |]. done.
Qed.

Lemma failed_broken w : stranded w -> isBroken (S c) c w = Ret true.
Proof. intros S. destruct (st_here w S) as (ch & E & [D _ _ _ _]). cbn [isBroken]. unfold deref. rewrite E. cbn. by rewrite D. Qed.

Lemma number_stranded d n w : stranded w -> yields (fun x => stranded x.2) (takeNumber d n w).
Proof.
  intros S. unfold takeNumber. destruct (decide (d = c)) as [-> | Hne]; [by rewrite failed_broken |].
  apply yields_skip. intros []; [done |]. apply yields_skip. intros ch. destruct (find_pending _ _ _) as [[i s] |]; [| done].
  cbn. apply stranded_update; [by left | done | done].
Qed.

Lemma front_stranded d t' w : stranded w -> yields (fun x => stranded x.2) (take_front_or_wait d t' w).
Proof.
  intros S. unfold take_front_or_wait, deref. destruct (w.(objs) !! d) as [ch |] eqn:E; [| done]. cbn [mbind result_bind].
  destruct (decide (d = c)) as [-> | Hne].
  - destruct (st_here w S) as (ch0 & E0 & [D1 D2 D3 D4 D5]). rewrite E0 in E. injection E as <-. rewrite D3. cbn.
    destruct S as [S1 S2 S3]. split; [done | |].
    + exists (with_pending [] (mkCondition (ch0.(pendingChannelsNotEmpty).(cwaiting) ++ [t']) ch0.(pendingChannelsNotEmpty).(cnotified)) ch0).
      cbn. rewrite lookup_alter_eq, E0. split; [done |]. split; cbn; try done. apply elem_of_app. by left.
    + intros e che m. cbn. destruct (decide (e = c)) as [-> | Hne]; [| rewrite lookup_alter_ne by done; apply S3].
      rewrite lookup_alter_eq, E0. intros [= <-]. cbn. by apply (S3 c).
  - destruct (pendingChannels ch); cbn; (apply stranded_update; [by left | done | done]).
Qed.

Lemma take_stranded d t' w : stranded w -> yields (fun x => stranded x.2) (takeChannel d t' w).
Proof.
  intros S. unfold takeChannel. destruct (decide (d = c)) as [-> | Hne]; [by rewrite failed_broken |].
  apply yields_skip. intros []; [done |]. by apply front_stranded.
Qed.

Lemma resumed_stranded d t' w : stranded w -> yields (fun x => stranded x.2) (takeResumed d t' w).
Proof.
  intros S. unfold takeResumed, deref. destruct (w.(objs) !! d) as [ch |] eqn:E; [| done]. cbn [mbind result_bind].
  destruct (bool_decide _); [| done]. apply front_stranded. destruct (decide (d = c)) as [-> | Hne]; [| apply stranded_update; [by left | done | done]].
  destruct S as [S1 (ch0 & E0 & [D1 D2 D3 D4 D5]) S3]. rewrite E0 in E. injection E as <-. split; [done | |].
  - eexists. cbn. rewrite lookup_alter_eq, E0. split; [done |]. split; cbn; try done. intros H. apply list_elem_of_filter in H as [_ H]. done.
  - intros e che m. cbn. destruct (decide (e = c)) as [-> | Hne]; [| rewrite lookup_alter_ne by done; apply S3].
    rewrite lookup_alter_eq, E0. intros [= <-]. cbn. by apply (S3 c).
Qed.

Lemma drop_stranded fuel : forall cur d w, d <> c -> stranded w -> yields stranded (drop_oldest fuel cur d w).
Proof.
  induction fuel as [| fuel IH]; intros cur d w Hd S; cbn [drop_oldest]; apply yields_skip; intros ch; (destruct (pendingChannels ch); [done |]); (case_match; [| done]); [done |].
  assert (stranded (update d (with_pending l (pendingChannelsNotEmpty ch)) w)) as S1 by (apply stranded_update; [by left | done | done]).
  eapply (yields_bind stranded); [| intros w1 S2; by apply IH]. destruct o; [by auto | done].
Qed.

Lemma enqueue_stranded cur d id w : d <> c -> stranded w -> yields stranded (enqueuePendingChannel cur d id w).
Proof.
  intros Hd S. unfold enqueuePendingChannel. cbn zeta.
  match goal with |- context [update d ?f w] => assert (stranded (update d f w)) as S1 by (apply stranded_update; [by left | done | done]) end.
  apply yields_skip. intros ch. case_match; [done |]. by apply drop_stranded.
Qed.

(** *** Receiving *)

Lemma handle_stranded cur d data w : d <> c -> stranded w -> yields (fun x => stranded x.2) (handleCommand cur d data w).
Proof.
  intros Hd S. unfold handleCommand. destruct (unpackCommand data) as [[command number] |]; [| done]. cbn zeta.
  destruct (_ =? MAKE_CHANNEL_REQUEST); [| destruct (_ =? CHANNEL_MADE_REQUEST); [| destruct (_ =? DESTROY_CHANNEL_REQUEST);
    [| destruct (_ =? SLOW_DOWN_REQUEST); [| destruct (_ =? GO_THROUGH_REQUEST); [| repeat case_match; done]]]]]; [| | | cbn; auto..]; (destruct number as [n |]; [| done]).
  - unfold handleMake. apply yields_skip. intros ch. case_match; [done |]. eapply yields_bind; [by apply internal_stranded |]. intros [id w1] S1.
    eapply yields_bind; [by apply command_stranded |]. intros w2 S2. eapply yields_bind; [by apply enqueue_stranded |]. done.
  - unfold handleMade. apply yields_skip. intros ch. repeat case_match; try done; (eapply yields_bind; [apply command_stranded; auto |]); done.
  - unfold handleDestroy. apply yields_skip. intros peeked. apply yields_skip. intros ch. eapply (yields_bind (fun x => stranded x.2)).
    { destruct (subChannels ch !! n); [| done]. eapply yields_bind; [by apply clean_stranded |]. done. }
    intros [strong w1] S1. cbn [snd] in S1. eapply (yields_bind stranded); [destruct strong; [auto | done] | done].
Qed.

Lemma incoming_stranded fuel : forall r held d n payload w, d <> c -> stranded w ->
  yields (fun x => stranded x.2) (handleIncomingPacket fuel r held d n payload w).
Proof.
  induction fuel as [| fuel IH]; intros r held d n payload w Hd S; [done |]. cbn [handleIncomingPacket].
  destruct (w.(objs) !! d) as [ch |] eqn:E; [rewrite (deref_some _ _ _ E) | unfold deref; by rewrite E]. cbn [mbind result_bind]. destruct (pluggedChannel ch) as [q |].
  { eapply yields_bind; [by apply raw_stranded |]. intros x Sx. apply (wait_stranded (ReceiverOf r)) in Sx. by destruct (x.1.1). }
  destruct (n =? DataChannelNumber).
  { eapply (yields_bind stranded). { destruct (wantsSlowDown ch); [apply command_stranded; auto | done]. }
    intros w1 S1. apply yields_skip. intros ch1. destruct (flag _); cbn; auto. }
  destruct (n =? CommandChannelNumber).
  { eapply yields_bind; [by apply handle_stranded |]. intros [ok w1] S1. done. }
  destruct (subChannels ch !! n) as [s |] eqn:Es; [| done]. destruct (w.(objs) !! s) as [chs |] eqn:Eo; [| cbn; auto].
  destruct (_ <? 4); [done |]. eapply yields_bind; [apply IH; [| done] |].
  - intros ->. by apply (st_unlisted w S d ch n E).
  - intros [i w1] S1. cbn [snd] in S1. destruct i as [e | x]; [| done].
    assert (yields (fun x => stranded x.2) (w ← abortChannel (Some (r, Receiving)) e s w1; Ret (Handled NoError, w))); [| by destruct e].
    eapply yields_bind; [by apply abortChannel_stranded |]. done.
Qed.

(** *** The coroutines of a connection *)

Lemma received_stranded r time i w : stranded w -> yields stranded (received r time i w).
Proof.
  intros S. unfold received, set_receiver. destruct i as [e | x]; [| cbn; auto].
  assert (yields stranded (w ← abortChannel (Some (r, Receiving)) e r w; Ret (update r (on_wire (with_receiver Gone)) w))).
  { eapply yields_bind; [by apply abortChannel_stranded |]. cbn. auto. }
  destruct e; try done. cbn. auto.
Qed.

Lemma doSend_stranded r w : stranded w -> yields stranded (doSend r w).
Proof.
  intros S. unfold doSend. apply yields_skip. intros [ch s]. destruct (writing s), (queue (sendingQueue s)); try done. cbn zeta.
  destruct (negb _); [cbn; auto |]. destruct (gather _ _ _). case_match; cbn; auto.
Qed.

Lemma doSent_stranded r n time w : stranded w -> yields stranded (doSent r n time w).
Proof.
  intros S. unfold doSent. apply yields_skip. intros [ch s]. destruct (writing s); [| done]. cbn zeta. case_match; [cbn; auto |].
  eapply yields_bind; [by apply abortChannel_stranded |]. cbn. auto.
Qed.

(** A failed connection reads nothing more. *)
Lemma readPacket_down s x s' : s.(connected) = false -> readPacket s = Some (x, s') -> s' = s /\ exists e, x = ReadError e.
Proof. intros H. unfold readPacket, recvall. rewrite H. cbn. intros [= <- <-]. eauto. Qed.

Lemma doReceive_stranded r time w : stranded w -> yields stranded (doReceive r time w).
Proof.
  intros S. unfold doReceive, wire_of. destruct (w.(objs) !! r) as [ch |] eqn:E; [rewrite (deref_some _ _ _ E) | unfold deref; by rewrite E].
  cbn [mbind result_bind]. destruct (kind ch) as [s |] eqn:Ek; [| done]. cbn [mbind result_bind].
  destruct (receiver s); try done. destruct (readPacket s) as [[x s'] |] eqn:Er; [| done]. destruct (decide (r = c)) as [-> | Hne].
  - destruct (st_here w S) as (ch0 & E0 & [D1 D2 D3 D4 D5]). rewrite E0 in E. injection E as <-.
    destruct (readPacket_down s x s' (D2 s Ek) Er) as [-> [e ->]]. apply received_stranded.
    apply stranded_update; [right | | done].
    + intros che [F1 F2 F3 F4 F5]. unfold on_wire. destruct (kind che); split; try done. intros sx [= <-]. by apply (D2 s).
    + intros che n. unfold on_wire. by destruct (kind che).
  - assert (stranded (update r (on_wire (fun _ => s')) w)) as S1.
    { apply stranded_update; [by left | | done]. intros che n. unfold on_wire. by destruct (kind che). }
    destruct x as [n payload | e]; [| by apply received_stranded].
    eapply yields_bind; [by apply incoming_stranded |]. intros [i w1] S2. by apply received_stranded.
Qed.

Lemma resume_stranded r time w : stranded w -> yields stranded (resumePut r time w).
Proof.
  intros S. unfold resumePut. apply yields_skip. intros [ch s]. destruct (receiver s); try done. apply yields_skip. intros ch1.
  destruct (flag _); [| done]. apply received_stranded. auto.
Qed.

Lemma forwarded_stranded r time ok w : stranded w -> yields stranded (forwarded r time ok w).
Proof.
  intros S. unfold forwarded. apply yields_skip. intros [ch s]. destruct (receiver s); try done. destruct ok; [by apply received_stranded |].
  case_match; [by apply received_stranded |]. eapply yields_bind; [by apply abortChannel_stranded |]. intros w1 S1. by apply received_stranded.
Qed.

Lemma doKeepalive_stranded r time w : stranded w -> yields stranded (doKeepalive r time w).
Proof.
  intros S. unfold doKeepalive. apply yields_skip. intros [ch s]. destruct (failed _); [done |]. cbn zeta.
  destruct (_ && _ && _); [by apply abortChannel_stranded |]. destruct (_ && _ && _); cbn; auto.
Qed.

(** *** What users call *)

Lemma recvPacket_stranded d w : stranded w -> yields (fun x => stranded x.2) (recvPacket d w).
Proof.
  intros S. unfold recvPacket. apply yields_skip. intros ch. destruct (_ && _); [done |]. destruct (negb _); [done |].
  destruct (proceed _ _ _) as [[[] |] q]; cbn; auto. destruct (zlen _ =? 0); [cbn; auto |]. destruct (wantsGoThrough _); [| cbn; auto].
  eapply yields_bind; [apply command_stranded; auto |]. done.
Qed.

Lemma forward_stranded src dst w : stranded w -> yields stranded (forward_received src dst w).
Proof.
  intros S. unfold forward_received. apply yields_skip. intros ch. apply loop_stranded; [| done]. intros data w1 S1. apply yields_skip. intros ch1.
  cbn zeta. eapply yields_bind; [apply raw_stranded; auto |]. by intros [[? ?] ?].
Qed.

Lemma exchange_stranded d e w : stranded w -> yields stranded (exchange d e w).
Proof.
  intros S. unfold exchange. apply yields_skip. intros _. apply yields_skip. intros _. eapply yields_bind; [by apply forward_stranded |]. intros w1 S1.
  eapply yields_bind; [by apply forward_stranded |]. cbn. auto.
Qed.

(** The channel of the taker is not destroyed. *)
Lemma destroy_stranded d w : stranded w -> yields stranded (destroy d w).
Proof.
  intros S. unfold destroy. destruct (w.(objs) !! d) as [ch |] eqn:E; [rewrite (deref_some _ _ _ E) | unfold deref; by rewrite E].
  cbn [mbind result_bind]. destruct (_ || _) eqn:Hr; [done |]. apply orb_false_iff in Hr as [_ Hr].
  assert (d <> c) as Hd.
  { intros ->. destruct (st_here w S) as (ch0 & E0 & [_ _ _ D4 _]). rewrite E0 in E. injection E as <-.
    destruct (cwaiting _) as [| x l]; [by apply elem_of_nil in D4 |]. rewrite zlen_cons in Hr. pose proof (zlen_nonneg l).
    pose proof (zlen_nonneg (cnotified (pendingChannelsNotEmpty ch0))). lia. }
  eapply yields_bind; [by apply abortChannel_stranded |]. intros w1 S1. apply yields_skip. intros ch1. cbn [yields].
  match goal with |- stranded (with_objs (delete d (objs ?v)) ?v) => assert (stranded v) as S2; [| revert S2; generalize v] end.
  { destruct (kind ch1); [| done]. unfold killSending, killReceiving. case_match; auto. }
  intros v S2. apply stranded_objs; [| | done].
  - intros e che H. apply lookup_delete_Some in H as [_ H]. by exists che.
  - destruct (st_here v S2) as (ch2 & E2 & D2). exists ch2. by rewrite lookup_delete_ne.
Qed.

Lemma answered_stranded who time ok w : stranded w -> yields (fun x => stranded x.1) (answered who time ok w).
Proof.
  intros S. destruct who as [| r]; [done |]. cbn. case_match; [| done]. unfold silent. eapply yields_bind; [by apply forwarded_stranded |]. done.
Qed.

Lemma admit_parked_stranded i time w : stranded w -> yields (fun x => stranded x.1) (admit_parked i time w).
Proof.
  intros S. unfold admit_parked. destruct (senders w !! i) as [p |]; [| done]. apply yields_skip. intros [ch s].
  pose proof (admit_stranded (root p) s (waits p) _ (stranded_waits (remove_at i (senders w)) (awaiting w) w S)) as H.
  destruct (admit_packet _ _ _ _) as [[] w1]; try done; cbn [snd] in H; [by apply answered_stranded | by apply answered_stranded |].
  cbn. by apply stranded_waits.
Qed.

Lemma complete_stranded i time w : stranded w -> yields (fun x => stranded x.1) (complete i time w).
Proof.
  intros S. unfold complete. destruct (awaiting w !! i) as [[x who] |]; [| done]. destruct (list_find _ _) as [[? [? ok]] |]; [| done].
  apply answered_stranded. auto.
Qed.

Lemma silent_stranded r : yields stranded r -> yields (fun x => stranded x.1) (silent r).
Proof. destruct r; done. Qed.

Lemma answer_stranded {A} (f : A -> Answer) (r : result (A * World)) : yields (fun x => stranded x.2) r ->
  yields (fun x => stranded x.1) ('(a, w) ← r; Ret (w, f a)).
Proof. destruct r as [[a w] | | |]; done. Qed.

Lemma open_stranded pole time w : stranded w -> yields (fun x => stranded x.1) (exec (Open pole time) w).
Proof.
  intros [S1 (ch & E & D) S3]. cbn. split; cbn; [lia | exists ch; by rewrite lookup_insert_ne by lia |]. intros d che n.
  destruct (decide (d = w.(fresh))) as [-> | Hne]; [rewrite lookup_insert_eq; intros [= <-]; cbn; by rewrite lookup_empty |].
  rewrite lookup_insert_ne by done. apply S3.
Qed.

Lemma action_stranded a w : stranded w -> yields (fun x => stranded x.1) (exec a w).
Proof.
  intros S. destruct a; try (by apply open_stranded); unfold exec; (destruct (negb _); [done |]);
    first [apply answer_stranded | apply silent_stranded | idtac].
  - by apply make_stranded.
  - by apply take_stranded.
  - by apply resumed_stranded.
  - by apply number_stranded.
  - unfold sendPacket. apply yields_skip. intros ch. destruct (goThrough ch); [| done]. eapply yields_bind; [by apply raw_stranded |].
    intros x Sx. cbn [yields snd]. by apply wait_stranded.
  - unfold sendPacketAsync. eapply yields_bind; [by apply raw_stranded |]. by intros [[? ?] ?].
  - by apply recvPacket_stranded.
  - by apply abortChannel_stranded.
  - by apply destroy_stranded.
  - by apply exchange_stranded.
  - unfold setCapacityOf. apply yields_skip. intros _. cbn. apply stranded_tame; [| done]. split; [by intros ch [] | done].
  - unfold setMaxPacketSize. apply yields_skip. intros _. cbn zeta. case_match; cbn; auto.
  - cbn. apply stranded_tame; [| done]. apply tame_wire. intros s H. unfold arrive. by rewrite H.
  - cbn. apply stranded_tame; [| done]. apply tame_wire. intros s H. unfold arrive. by rewrite H.
  - by apply doSend_stranded.
  - by apply doSent_stranded.
  - by apply doReceive_stranded.
  - by apply resume_stranded.
  - by apply doKeepalive_stranded.
  - by apply admit_parked_stranded.
  - by apply complete_stranded.
  - destruct (senders w !! i) as [[? ? []] |]; cbn; auto.
  - destruct (awaiting w !! i) as [[? []] |]; cbn; auto.
Qed.

Lemma run_stranded l : forall w, stranded w -> yields stranded (execs l w).
Proof.
  induction l as [| a l IH]; intros w S; [done |]. cbn [execs]. eapply yields_bind; [by apply action_stranded |]. intros [w1 x] S1. by apply IH.
Qed.

Lemma resumes_stranded ch w : Inv w -> w.(objs) !! c = Some ch -> failed ch.(error) = true -> ch.(pendingChannels) = [] ->
  t ∈ ch.(pendingChannelsNotEmpty).(cnotified) -> exists w1, exec (TakeResume c t) w = Ret (w1, Waiting) /\ stranded w1.
Proof.
  intros I E Hf Hp Ht. destruct (inv_tidy _ I c ch E) as [T _]. destruct (T Hf) as (_ & Off & _).
  assert (forall d chd n, w.(objs) !! d = Some chd -> chd.(subChannels) !! n <> Some c) as Hu.
  { intros d chd n Ed Hn. destruct (inv_tidy _ I d chd Ed) as [_ Td]. destruct (Td n c ch Hn E) as [Hx _]. by rewrite Hx in Hf. }
  set (rest := base.filter (fun x => x <> t) ch.(pendingChannelsNotEmpty).(cnotified)).
  set (ch1 := with_pending [] (mkCondition (ch.(pendingChannelsNotEmpty).(cwaiting) ++ [t]) rest) ch).
  exists (with_objs (<[c := ch1]> w.(objs)) w). split.
  - unfold exec. cbn [uses forallb]. rewrite bool_decide_eq_true_2 by (by eexists). cbn [andb negb]. unfold takeResumed.
    rewrite (deref_some _ _ _ E). cbn [mbind result_bind]. rewrite bool_decide_eq_true_2 by done. unfold take_front_or_wait, deref, update.
    cbn [objs with_objs]. rewrite lookup_alter_eq, E. cbn. rewrite Hp. cbn. unfold with_objs. cbn. do 3 f_equal. apply map_eq. intros d.
    destruct (decide (d = c)) as [-> | Hne]; [by rewrite !lookup_alter_eq, E, lookup_insert_eq |]. by rewrite !lookup_alter_ne, lookup_insert_ne by done.
  - split; cbn; [apply (inv_ids _ I); by eexists | |].
    + exists ch1. rewrite lookup_insert_eq. split; [done |]. split; cbn; try done; [apply elem_of_app; right; by apply elem_of_cons; left |].
      unfold rest. intros H. by apply list_elem_of_filter in H as [H _].
    + intros d chd n. destruct (decide (d = c)) as [-> | Hne]; [rewrite lookup_insert_eq; intros [= <-]; by apply (Hu c ch n E) |].
      rewrite lookup_insert_ne by done. apply Hu.
Qed.

Lemma stranded_sleeps w : stranded w -> exec (TakeResume c t) w = Reject.
Proof.
  intros S. destruct (st_here w S) as (ch & E & [_ _ _ _ D5]). unfold exec. cbn [uses forallb]. rewrite bool_decide_eq_true_2 by (by eexists).
  cbn [andb negb]. unfold takeResumed. rewrite (deref_some _ _ _ E). cbn [mbind result_bind]. by rewrite bool_decide_eq_false_2.
Qed.
End Stranded.

(** ** What is not safe *)

Definition from_peer (command : list Z) : list Z := frame (mkPacket command None CommandChannelNumber).
Definition block : list Z := replicate 60000 1.

(** Each of these three runs uses a freed parent: a peer takes the number that makeChannel
    uses next; a peer makes and destroys a number twice before it is taken; a connection is
    destroyed under a sender parked in its queue. *)
Theorem dishonest_runs_fault :
  execs [Open 1 0; Arrive 0 (from_peer (packMakeChannelRequest 2)); DoReceive 0 0; Take 0 7; Make 0; Destroy 0;
         SendAsync 1 [5]] empty_world = Fault
  /\ execs [Open 1 0; Arrive 0 (concat (map from_peer [packMakeChannelRequest 9; packDestoryChannelRequest 9;
                                                       packMakeChannelRequest 9; packDestoryChannelRequest 9]));
            DoReceive 0 0; DoReceive 0 0; DoReceive 0 0; DoReceive 0 0; Take 0 7; Take 0 7; Destroy 0; SendAsync 2 [5]]
       empty_world = Fault
  /\ execs [Open 1 0; Make 0; SendAsync 0 block; SendAsync 0 block; Send 1 [5] true; Destroy 0; Admit 0 0]
       empty_world = Fault.
Proof. vm_compute. repeat split. Qed.

(** C38: A coroutine in takeChannel that was notified of a channel waits again if the
    channel failed meanwhile and has no channel left to take; whatever happens afterwards,
    it is never resumed and still waits on the failed channel. *)
Theorem taker_stranded c t ch w : reached w -> w.(objs) !! c = Some ch -> failed ch.(error) = true -> ch.(pendingChannels) = [] ->
  t ∈ ch.(pendingChannelsNotEmpty).(cnotified) ->
  exists w1, exec (TakeResume c t) w = Ret (w1, Waiting)
    /\ forall l w', execs l w1 = Ret w' -> exec (TakeResume c t) w' = Reject
         /\ exists ch', w'.(objs) !! c = Some ch' /\ failed ch'.(error) = true /\ t ∈ ch'.(pendingChannelsNotEmpty).(cwaiting).
Proof.
  intros I E Hf Hp Ht. apply reached_inv in I. destruct (resumes_stranded c t ch w I E Hf Hp Ht) as (w1 & Ex & S). exists w1. split; [done |].
  intros l w' El. pose proof (run_stranded c t l w1 S) as S'. rewrite El in S'. split; [by apply stranded_sleeps |].
  destruct (st_here _ _ _ S') as (ch' & E' & [D1 _ _ D4 _]). by exists ch'.
Qed.

(** The peer makes a channel, whose taker is notified, and breaks the protocol. *)
Definition betrayed : World :=
  run_of [Open 1 0; Take 0 7; Arrive 0 (from_peer (packMakeChannelRequest 9) ++ from_peer [7]); DoReceive 0 0; DoReceive 0 0].

Lemma taker_stranded_witness : exists w1, exec (TakeResume 0 7) betrayed = Ret (w1, Waiting)
  /\ forall l w', execs l w1 = Ret w' -> exec (TakeResume 0 7) w' = Reject
       /\ exists ch', w'.(objs) !! 0%nat = Some ch' /\ failed ch'.(error) = true /\ 7%nat ∈ ch'.(pendingChannelsNotEmpty).(cwaiting).
Proof.
  apply (taker_stranded 0 7 (channel_in 0 betrayed) betrayed).
  - run_reached.
  - vm_compute. reflexivity.
  - vm_compute. reflexivity.
  - vm_compute. reflexivity.
  - vm_compute. left.
Defined.

(** exchange drains the queue of a channel whose peer was asked to slow down without
    asking it to go on, and what comes later passes by the queue: the gate of that peer
    stays closed. *)
Theorem exchange_keeps_gate_closed :
  let l := [Open 1 0; Open 1 0; SetCapacity 0 8; Arrive 0 (stream [mkMessage [] (replicate 7 1); mkMessage [] [9]]);
            DoReceive 0 0; DoReceive 0 0] in
  let ch := channel_in 0 (run_of (l ++ [Exchange 0 1])) in
  ch.(slowDownRequested) = true /\ ch.(receivingQueue).(queue) = [] /\ ch.(pluggedChannel) = Some 1%nat
  /\ (wire_in 0 (run_of (l ++ [Exchange 0 1]))).(sendingQueue).(queue) = [mkPacket packSlowDownRequest None CommandChannelNumber]
  /\ (wire_in 1 (run_of (l ++ [Exchange 0 1]))).(sendingQueue).(queue)
     = [mkPacket (replicate 7 1) None DataChannelNumber; mkPacket [9] None DataChannelNumber].
Proof. vm_compute. repeat split. Qed.
