(* ===== verification/Kcp.v ===== *)
(** * KCP: a reliable transport over datagrams ([src/src/kcp/ikcp.c])

    Both directions of a connection live in one control block.  The sender numbers the
    chunks of a message, keeps them until they are acknowledged and sends them again on a
    timeout or when later ones are acknowledged; the receiver puts them back in order.  The
    control block [ikcpcb] is split here into the parts that the functions change together.

    Segments and lists come from an allocator that may fail: [seg_alloc n] says whether the
    [n]th segment is there, [ikcp_malloc n] the same for the list of acknowledgements and
    the buffer.  Assertions are off, as in a release build.  A function that returns a code
    returns it with the control block; a [Fault] is a read or write outside of a buffer or
    an overflow of a signed integer. *)

From S2P Require Import Prelude.

(** ** Constants *)

Definition IKCP_RTO_NDL : Z := 30.
Definition IKCP_RTO_MIN : Z := 100.
Definition IKCP_RTO_DEF : Z := 200.
Definition IKCP_RTO_MAX : Z := 60000.
Definition IKCP_CMD_PUSH : Z := 81.
Definition IKCP_CMD_ACK : Z := 82.
Definition IKCP_CMD_WASK : Z := 83.
Definition IKCP_CMD_WINS : Z := 84.
Definition IKCP_CMD_ACKN : Z := 85.
Definition IKCP_ACKN_OVERHEAD : Z := 13.
Definition IKCP_ACKN_ENTRY : Z := 8.
Definition IKCP_ASK_SEND : Z := 1.
Definition IKCP_ASK_TELL : Z := 2.
Definition IKCP_WND_SND : Z := 32.
Definition IKCP_WND_RCV : Z := 128.
Definition IKCP_MTU_DEF : Z := 1400.
Definition IKCP_INTERVAL : Z := 100.
Definition IKCP_OVERHEAD : Z := 24.
Definition IKCP_DEADLINK : Z := 10.
Definition IKCP_THRESH_INIT : Z := 2.
Definition IKCP_THRESH_MIN : Z := 2.
Definition IKCP_PROBE_INIT : Z := 7000.
Definition IKCP_PROBE_LIMIT : Z := 120000.
Definition IKCP_FASTACK_LIMIT : Z := 5.

(** ** Bytes and comparisons *)

(** [ikcp_encode8u], [ikcp_encode16u], [ikcp_encode32u]: [n] bytes, the lowest first. *)
Fixpoint le_encode (n : nat) (v : Z) : list Z :=
  match n with
  | O => []
  | S n => v mod 256 :: le_encode n (v / 256)
  end.

Fixpoint le_decode (l : list Z) : Z :=
  match l with
  | [] => 0
  | b :: l => b + 256 * le_decode l
  end.

(** [ikcp_decode8u], [ikcp_decode16u], [ikcp_decode32u]: the value and the bytes behind. *)
Definition ikcp_decode (n : nat) (p : list Z) : result (Z * list Z) :=
  if (length p <? n)%nat then Fault else Ret (le_decode (take n p), drop n p).

Definition _imin_ (a b : Z) : Z := if a <=? b then a else b.
Definition _imax_ (a b : Z) : Z := if a >=? b then a else b.
Definition _ibound_ (lower middle upper : Z) : Z := _imin_ (_imax_ lower middle) upper.
Definition _itimediff (later earlier : Z) : Z := s32 (later - earlier).

(** The value of an expression of type [IINT32]. *)
Definition int32 (z : Z) : result Z := if (- 2 ^ 31 <=? z) && (z <? 2 ^ 31) then Ret z else Fault.

(** ** Segments and the control block *)

(** The fields of [IKCPSEG] that travel; [len] is the length of the data beside it. *)
Record Head : Type := mkHead { conv : Z; cmd : Z; frg : Z; wnd : Z; ts : Z; sn : Z; una : Z }.

(** A segment in [rcv_buf] and [rcv_queue]. *)
Record Segment : Type := mkSegment { head : Head; data : list Z }.

(** A segment in [snd_buf], with the fields that only a sender sets. *)
Record Sending : Type := mkSending {
  seg : Segment; resendts : Z; rto : Z; fastack : Z; xmit : Z; first_fastack_ts : Z
}.

Definition seg_sn (s : Sending) : Z := s.(seg).(head).(sn).

(** A segment in [snd_queue] has only [frg] and its data yet. *)
Definition Chunk : Type := Z * list Z.

Record Config : Type := mkConfig {
  kconv : Z; mtu : Z; mss : Z; buffer_size : Z; snd_wnd : Z; rcv_wnd : Z; interval : Z; nodelay : Z; rx_minrto : Z;
  fastresend : Z; fastlimit : Z; nocwnd : Z; stream : Z; dead_link : Z; ackn_mode : bool
}.

Record Tx : Type := mkTx {
  snd_una : Z; snd_nxt : Z; snd_queue : list Chunk; nsnd_que : Z; snd_buf : list Sending; nsnd_buf : Z
}.

(** [acklist] holds [ackcount] pairs of a number and a time stamp, with room for [ackblock]. *)
Record Rx : Type := mkRx {
  rcv_nxt : Z; rcv_queue : list Segment; nrcv_que : Z; rcv_buf : list Segment; nrcv_buf : Z;
  acklist : list (Z * Z); ackblock : Z
}.

Record Rtt : Type := mkRtt { rx_srtt : Z; rx_rttval : Z; rx_rto : Z }.

Record Window : Type := mkWindow { rmt_wnd : Z; cwnd : Z; incr : Z; ssthresh : Z }.

Record Probe : Type := mkProbe { probe : Z; ts_probe : Z; probe_wait : Z }.

Record Stats : Type := mkStats {
  timeouts : Z; xmit_fast : Z; loss_rto : Z; reorder_retire : Z; reorder_us_max : Z; reorder_samples : Z;
  sent_segs : Z
}.

Record Clock : Type := mkClock { current : Z; ts_flush : Z; updated : bool }.

(** [dead] is [state] other than 0; [allocs] counts the segments, [mallocs] the rest. *)
Record ikcpcb : Type := mkKcp {
  cfg : Config; tx : Tx; rx : Rx; rtt : Rtt; win : Window; prb : Probe; stats : Stats; clock : Clock;
  dead : bool; allocs : nat; mallocs : nat
}.

Section Setters.
Implicit Types k : ikcpcb.

Definition with_cfg c k := mkKcp c k.(tx) k.(rx) k.(rtt) k.(win) k.(prb) k.(stats) k.(clock) k.(dead) k.(allocs) k.(mallocs).
Definition with_tx t k := mkKcp k.(cfg) t k.(rx) k.(rtt) k.(win) k.(prb) k.(stats) k.(clock) k.(dead) k.(allocs) k.(mallocs).
Definition with_rx r k := mkKcp k.(cfg) k.(tx) r k.(rtt) k.(win) k.(prb) k.(stats) k.(clock) k.(dead) k.(allocs) k.(mallocs).
Definition with_rtt r k := mkKcp k.(cfg) k.(tx) k.(rx) r k.(win) k.(prb) k.(stats) k.(clock) k.(dead) k.(allocs) k.(mallocs).
Definition with_win w k := mkKcp k.(cfg) k.(tx) k.(rx) k.(rtt) w k.(prb) k.(stats) k.(clock) k.(dead) k.(allocs) k.(mallocs).
Definition with_prb p k := mkKcp k.(cfg) k.(tx) k.(rx) k.(rtt) k.(win) p k.(stats) k.(clock) k.(dead) k.(allocs) k.(mallocs).
Definition with_stats s k := mkKcp k.(cfg) k.(tx) k.(rx) k.(rtt) k.(win) k.(prb) s k.(clock) k.(dead) k.(allocs) k.(mallocs).
Definition with_clock c k := mkKcp k.(cfg) k.(tx) k.(rx) k.(rtt) k.(win) k.(prb) k.(stats) c k.(dead) k.(allocs) k.(mallocs).
Definition with_dead d k := mkKcp k.(cfg) k.(tx) k.(rx) k.(rtt) k.(win) k.(prb) k.(stats) k.(clock) d k.(allocs) k.(mallocs).
Definition count_alloc k := mkKcp k.(cfg) k.(tx) k.(rx) k.(rtt) k.(win) k.(prb) k.(stats) k.(clock) k.(dead) (S k.(allocs)) k.(mallocs).
Definition count_malloc k := mkKcp k.(cfg) k.(tx) k.(rx) k.(rtt) k.(win) k.(prb) k.(stats) k.(clock) k.(dead) k.(allocs) (S k.(mallocs)).
End Setters.

Section Kcp.
Context (seg_alloc ikcp_malloc : nat -> bool).
Implicit Types k : ikcpcb.

(** [ikcp_segment_new], which gives the control block back with the verdict. *)
Definition ikcp_segment_new k : bool * ikcpcb := (seg_alloc k.(allocs), count_alloc k).

(** Two allocations: the control block and its buffer. *)
Definition ikcp_create (c : Z) : option ikcpcb :=
  if negb (ikcp_malloc 0) then None else if negb (ikcp_malloc 1) then None else
  Some (mkKcp
    (mkConfig c IKCP_MTU_DEF (IKCP_MTU_DEF - IKCP_OVERHEAD) ((IKCP_MTU_DEF + IKCP_OVERHEAD) * 3)
       IKCP_WND_SND IKCP_WND_RCV IKCP_INTERVAL 0 IKCP_RTO_MIN 0 IKCP_FASTACK_LIMIT 0 0 IKCP_DEADLINK false)
    (mkTx 0 0 [] 0 [] 0) (mkRx 0 [] 0 [] 0 [] 0) (mkRtt 0 0 IKCP_RTO_DEF)
    (mkWindow IKCP_WND_RCV 0 0 IKCP_THRESH_INIT) (mkProbe 0 0 0) (mkStats 0 0 0 0 0 0 0)
    (mkClock 0 IKCP_INTERVAL false) false 0 2).

(** ** Receiving, for the user *)

(** The loop of [ikcp_peeksize]: the lengths up to the end of the message. *)
Fixpoint peek_length (q : list Segment) (length : Z) : Z :=
  match q with
  | [] => length
  | s :: q =>
      let length := s32 (length + zlen s.(data)) in
      if s.(head).(frg) =? 0 then length else peek_length q length
  end.

Definition ikcp_peeksize k : Z :=
  match k.(rx).(rcv_queue) with
  | [] => -1
  | s :: _ =>
      if s.(head).(frg) =? 0 then s32 (zlen s.(data)) else
      if k.(rx).(nrcv_que) <? u32 (s.(head).(frg) + 1) then -1 else
      peek_length k.(rx).(rcv_queue) 0
  end.

(** The loop that merges fragments: their data, their number, and what is behind them. *)
Fixpoint merge_fragments (q : list Segment) : list Z * Z * list Segment :=
  match q with
  | [] => ([], 0, [])
  | s :: q =>
      if s.(head).(frg) =? 0 then (s.(data), 1, q) else
      let '(d, n, rest) := merge_fragments q in (s.(data) ++ d, 1 + n, rest)
  end.

(** The loop that moves what is in order from [rcv_buf] to [rcv_queue]. *)
Fixpoint move_ready (rcv_wnd : Z) (buf : list Segment) (r : Rx) : Rx :=
  match buf with
  | [] => r
  | s :: buf =>
      if (s.(head).(sn) =? r.(rcv_nxt)) && (r.(nrcv_que) <? rcv_wnd) then
        move_ready rcv_wnd buf
          (mkRx (u32 (r.(rcv_nxt) + 1)) (r.(rcv_queue) ++ [s]) (u32 (r.(nrcv_que) + 1)) buf (u32 (r.(nrcv_buf) - 1))
             r.(acklist) r.(ackblock))
      else r
  end.

Definition move_available (rcv_wnd : Z) (r : Rx) : Rx := move_ready rcv_wnd r.(rcv_buf) r.

Definition ask_tell (p : Probe) : Probe := mkProbe (Z.lor p.(probe) IKCP_ASK_TELL) p.(ts_probe) p.(probe_wait).

(** The code, what is written to the buffer of [len] bytes, and the control block; a
    negative [len] asks for the message without taking it. *)
Definition ikcp_recv (len : Z) k : result (Z * list Z * ikcpcb) :=
  let ispeek := len <? 0 in
  match k.(rx).(rcv_queue) with
  | [] => Ret (-1, [], k)
  | _ :: _ =>
      len ← (if len <? 0 then int32 (- len) else Ret len);
      let peeksize := ikcp_peeksize k in
      if peeksize <? 0 then Ret (-2, [], k) else
      if peeksize >? len then Ret (-3, [], k) else
      let recover := k.(rx).(nrcv_que) >=? k.(cfg).(rcv_wnd) in
      let '(d, n, rest) := merge_fragments k.(rx).(rcv_queue) in
      if zlen d >? len then Fault else
      let r := k.(rx) in
      let r := if ispeek then r else
        mkRx r.(rcv_nxt) rest (u32 (r.(nrcv_que) - n)) r.(rcv_buf) r.(nrcv_buf) r.(acklist) r.(ackblock) in
      let r := move_available k.(cfg).(rcv_wnd) r in
      let k := with_rx r k in
      let k := if (r.(nrcv_que) <? k.(cfg).(rcv_wnd)) && recover then with_prb (ask_tell k.(prb)) k else k in
      Ret (s32 (zlen d), d, k)
  end.

(** ** Sending, for the user *)

Definition with_queue (q : list Chunk) (n : Z) k : ikcpcb :=
  let t := k.(tx) in with_tx (mkTx t.(snd_una) t.(snd_nxt) q n t.(snd_buf) t.(nsnd_buf)) k.

(** Stream mode: the last segment of the queue takes what fits.  The answer is [None] when
    there is no memory, else what is sent, the rest of the data and the control block. *)
Definition append_to_last (d : list Z) k : option (Z * list Z * ikcpcb) :=
  match list.last k.(tx).(snd_queue) with
  | Some (_, old) =>
      if zlen old <? k.(cfg).(mss) then
        let capacity := k.(cfg).(mss) - zlen old in
        let extend := if zlen d <? capacity then zlen d else capacity in
        let '(ok, k) := ikcp_segment_new k in
        if negb ok then None else
        let q := removelast k.(tx).(snd_queue) ++ [(0, old ++ take (Z.to_nat extend) d)] in
        Some (extend, drop (Z.to_nat extend) d, with_queue q k.(tx).(nsnd_que) k)
      else Some (0, d, k)
  | None => Some (0, d, k)
  end.

(** The loop over the fragments: [count - i] are left. *)
Fixpoint fragment (todo : nat) (d : list Z) (sent : Z) k : Z * ikcpcb :=
  match todo with
  | O => (sent, k)
  | S todo =>
      let size := if zlen d >? k.(cfg).(mss) then k.(cfg).(mss) else zlen d in
      let '(ok, k) := ikcp_segment_new k in
      if negb ok then (-2, k) else
      let f := if k.(cfg).(stream) =? 0 then Z.of_nat todo else 0 in
      fragment todo (drop (Z.to_nat size) d) (sent + size)
        (with_queue (k.(tx).(snd_queue) ++ [(f, take (Z.to_nat size) d)]) (u32 (k.(tx).(nsnd_que) + 1)) k)
  end.

Definition fragments (d : list Z) (sent : Z) k : Z * ikcpcb :=
  let len := zlen d in
  let count := if len <=? k.(cfg).(mss) then 1 else s32 (u32 (len + k.(cfg).(mss) - 1) / k.(cfg).(mss)) in
  if count >=? IKCP_WND_RCV then
    if negb (k.(cfg).(stream) =? 0) && (sent >? 0) then (sent, k) else (-2, k)
  else
  let count := if count =? 0 then 1 else count in
  fragment (Z.to_nat count) d sent k.

(** [buffer] has at least [len] bytes and [mss] is not 0, or the call faults. *)
Definition ikcp_send (buffer : list Z) (len : Z) k : result (Z * ikcpcb) :=
  if k.(cfg).(mss) =? 0 then Fault else
  if len <? 0 then Ret (-1, k) else
  d ← fetch_slice buffer 0 len;
  if k.(cfg).(stream) =? 0 then Ret (fragments d 0 k) else
  match append_to_last d k with
  | None => Ret (-2, count_alloc k)
  | Some (sent, d, k) => if zlen d <=? 0 then Ret (sent, k) else Ret (fragments d sent k)
  end.

(** ** Acknowledgements *)

Definition ikcp_update_ack (sample : Z) k : result ikcpcb :=
  let r := k.(rtt) in
  '(srtt, rttval) ←
    (if r.(rx_srtt) =? 0 then Ret (sample, Z.quot sample 2) else
     delta ← int32 (sample - r.(rx_srtt));
     three ← int32 (3 * r.(rx_rttval));
     let rttval := s32 (Z.quot (three + Z.abs delta) 4) in
     seven ← int32 (7 * r.(rx_srtt));
     sum ← int32 (seven + sample);
     let srtt := Z.quot sum 8 in
     Ret (if srtt <? 1 then 1 else srtt, rttval));
  four ← int32 (4 * rttval);
  let rto := s32 (u32 (srtt + _imax_ k.(cfg).(interval) (u32 four))) in
  Ret (with_rtt (mkRtt srtt rttval (s32 (_ibound_ (u32 k.(cfg).(rx_minrto)) (u32 rto) IKCP_RTO_MAX))) k).

Definition with_sending (una : Z) (buf : list Sending) (n : Z) k : ikcpcb :=
  let t := k.(tx) in with_tx (mkTx una t.(snd_nxt) t.(snd_queue) t.(nsnd_que) buf n) k.

Definition ikcp_shrink_buf k : ikcpcb :=
  let t := k.(tx) in
  with_sending (match t.(snd_buf) with s :: _ => seg_sn s | [] => t.(snd_nxt) end) t.(snd_buf) t.(nsnd_buf) k.

Definition ikcp_note_seg_retired (s : Sending) k : ikcpcb :=
  let c := k.(stats) in
  if s.(xmit) >=? 2 then
    with_stats (mkStats c.(timeouts) c.(xmit_fast) (u32 (c.(loss_rto) + 1)) c.(reorder_retire) c.(reorder_us_max)
                  c.(reorder_samples) c.(sent_segs)) k
  else if (s.(xmit) =? 1) && (s.(fastack) >? 0) && negb (s.(first_fastack_ts) =? 0) then
    let delay_ms := _itimediff k.(clock).(current) s.(first_fastack_ts) in
    let delay_ms := if delay_ms <? 0 then 0 else delay_ms in
    let delay_us := u32 (delay_ms * 1000) in
    with_stats (mkStats c.(timeouts) c.(xmit_fast) c.(loss_rto) (u32 (c.(reorder_retire) + 1))
                  (if delay_us >? c.(reorder_us_max) then delay_us else c.(reorder_us_max))
                  (u32 (c.(reorder_samples) + 1)) c.(sent_segs)) k
  else k.

(** The loop of [ikcp_parse_ack]: the segment with the number, and the list without it. *)
Fixpoint find_acked (n : Z) (l : list Sending) : option (Sending * list Sending) :=
  match l with
  | [] => None
  | s :: l =>
      if n =? seg_sn s then Some (s, l) else
      if _itimediff n (seg_sn s) <? 0 then None else
      '(x, l) ← find_acked n l; Some (x, s :: l)
  end.

(** A number in [snd_una, snd_nxt). *)
Definition in_flight (n : Z) k : bool :=
  negb ((_itimediff n k.(tx).(snd_una) <? 0) || (_itimediff n k.(tx).(snd_nxt) >=? 0)).

Definition ikcp_parse_ack (n : Z) k : ikcpcb :=
  if in_flight n k then
    match find_acked n k.(tx).(snd_buf) with
    | Some (s, l) =>
        let k := ikcp_note_seg_retired s k in
        with_sending k.(tx).(snd_una) l (u32 (k.(tx).(nsnd_buf) - 1)) k
    | None => k
    end
  else k.

(** The loop of [ikcp_parse_una]. *)
Fixpoint retire_before (n : Z) (l : list Sending) k : ikcpcb :=
  match l with
  | [] => k
  | s :: l =>
      if _itimediff n (seg_sn s) >? 0 then
        let k := ikcp_note_seg_retired s k in
        retire_before n l (with_sending k.(tx).(snd_una) l (u32 (k.(tx).(nsnd_buf) - 1)) k)
      else k
  end.

Definition ikcp_parse_una (n : Z) k : ikcpcb := retire_before n k.(tx).(snd_buf) k.

Definition skipped (now stamp : Z) (s : Sending) : Sending :=
  if _itimediff stamp s.(seg).(head).(ts) >=? 0 then
    mkSending s.(seg) s.(resendts) s.(rto) (u32 (s.(fastack) + 1)) s.(xmit)
      (if s.(fastack) =? 0 then now else s.(first_fastack_ts))
  else s.

(** The loop of [ikcp_parse_fastack]. *)
Fixpoint count_skipped (now n stamp : Z) (l : list Sending) : list Sending :=
  match l with
  | [] => []
  | s :: l' =>
      if _itimediff n (seg_sn s) <? 0 then l else
      (if n =? seg_sn s then s else skipped now stamp s) :: count_skipped now n stamp l'
  end.

Definition ikcp_parse_fastack (n stamp : Z) k : ikcpcb :=
  if in_flight n k then
    let t := k.(tx) in
    with_sending t.(snd_una) (count_skipped k.(clock).(current) n stamp t.(snd_buf)) t.(nsnd_buf) k
  else k.

(** [for (newblock = 8; newblock < newsize; newblock <<= 1);] *)
Fixpoint grow_block (fuel : nat) (newblock newsize : Z) : result Z :=
  match fuel with
  | O => OutOfFuel
  | S fuel => if newblock <? newsize then grow_block fuel (u32 (newblock * 2)) newsize else Ret newblock
  end.

Definition with_acks (l : list (Z * Z)) (block : Z) k : ikcpcb :=
  let r := k.(rx) in
  with_rx (mkRx r.(rcv_nxt) r.(rcv_queue) r.(nrcv_que) r.(rcv_buf) r.(nrcv_buf) l block) k.

(** The entry is dropped when there is no memory for a longer list. *)
Definition ikcp_ack_push (n stamp : Z) k : result ikcpcb :=
  let l := k.(rx).(acklist) in
  let newsize := u32 (u32 (zlen l) + 1) in
  if newsize >? k.(rx).(ackblock) then
    newblock ← grow_block 32 8 newsize;
    let ok := ikcp_malloc k.(mallocs) in
    let k := count_malloc k in
    Ret (if ok then with_acks (l ++ [(n, stamp)]) newblock k else k)
  else Ret (with_acks (l ++ [(n, stamp)]) k.(rx).(ackblock) k).

(** [maxack], [latest_ts] and [flag] of [ikcp_input]. *)
Definition Latest : Type := option (Z * Z).

Definition ikcp_ack_feed (n stamp : Z) (m : Latest) k : result (Latest * ikcpcb) :=
  k ← (let sample := _itimediff k.(clock).(current) stamp in
       if sample >=? 0 then ikcp_update_ack sample k else Ret k);
  let k := ikcp_shrink_buf (ikcp_parse_ack n k) in
  Ret (match m with
       | None => Some (n, stamp)
       | Some (maxack, latest_ts) =>
           if (_itimediff n maxack >? 0) && (_itimediff stamp latest_ts >? 0) then Some (n, stamp) else m
       end, k).

(** ** Data *)

(** The place of a new segment, looked for from the end of [rcv_buf]; [None] when it is
    there already. *)
Fixpoint insert_back (new : Segment) (rev_buf : list Segment) : option (list Segment) :=
  match rev_buf with
  | [] => Some [new]
  | s :: l =>
      if s.(head).(sn) =? new.(head).(sn) then None else
      if _itimediff new.(head).(sn) s.(head).(sn) >? 0 then Some (new :: s :: l) else
      l ← insert_back new l; Some (s :: l)
  end.

Definition ikcp_parse_data (new : Segment) k : ikcpcb :=
  let r := k.(rx) in
  let n := new.(head).(sn) in
  if (_itimediff n (u32 (r.(rcv_nxt) + k.(cfg).(rcv_wnd))) >=? 0) || (_itimediff n r.(rcv_nxt) <? 0) then k else
  let r := match insert_back new (rev r.(rcv_buf)) with
           | Some l => mkRx r.(rcv_nxt) r.(rcv_queue) r.(nrcv_que) (rev l) (u32 (r.(nrcv_buf) + 1)) r.(acklist) r.(ackblock)
           | None => r
           end in
  with_rx (move_available k.(cfg).(rcv_wnd) r) k.

(** ** Input *)

Definition with_rmt (w : Z) k : ikcpcb :=
  let c := k.(win) in with_win (mkWindow w c.(cwnd) c.(incr) c.(ssthresh)) k.

(** What every frame carries: the window of the peer and the first number it lacks. *)
Definition heard (w u : Z) k : ikcpcb := ikcp_shrink_buf (ikcp_parse_una u (with_rmt w k)).

(** The entries of a compact frame. *)
Fixpoint feed_acks (count : nat) (p : list Z) (m : Latest) k : result (list Z * Latest * ikcpcb) :=
  match count with
  | O => Ret (p, m, k)
  | S count =>
      '(asn, p) ← ikcp_decode 4 p;
      '(ats, p) ← ikcp_decode 4 p;
      '(m, k) ← ikcp_ack_feed asn ats m k;
      feed_acks count p m k
  end.

(** [IKCP_CMD_PUSH]: true when there is no memory for the segment. *)
Definition input_push (h : Head) (len : Z) (p : list Z) k : result (bool * ikcpcb) :=
  if _itimediff h.(sn) (u32 (k.(rx).(rcv_nxt) + k.(cfg).(rcv_wnd))) <? 0 then
    k ← ikcp_ack_push h.(sn) h.(ts) k;
    if _itimediff h.(sn) k.(rx).(rcv_nxt) >=? 0 then
      let '(ok, k) := ikcp_segment_new k in
      if negb ok then Ret (true, k) else
      d ← fetch_slice p 0 len;
      Ret (false, ikcp_parse_data (mkSegment h d) k)
    else Ret (false, k)
  else Ret (false, k).

Definition known_command (c : Z) : bool :=
  (c =? IKCP_CMD_PUSH) || (c =? IKCP_CMD_ACK) || (c =? IKCP_CMD_WASK) || (c =? IKCP_CMD_WINS).

(** A frame with [len] bytes at [p]: the marks of the acknowledgements, whether memory ran
    out, and the control block. *)
Definition input_segment (h : Head) (len : Z) (p : list Z) (m : Latest) (oom : bool) k :
    result (Latest * bool * ikcpcb) :=
  let k := heard h.(wnd) h.(una) k in
  if h.(cmd) =? IKCP_CMD_ACK then '(m, k) ← ikcp_ack_feed h.(sn) h.(ts) m k; Ret (m, oom, k)
  else if h.(cmd) =? IKCP_CMD_PUSH then '(lost, k) ← input_push h len p k; Ret (m, oom || lost, k)
  else if h.(cmd) =? IKCP_CMD_WASK then Ret (m, oom, with_prb (ask_tell k.(prb)) k)
  else Ret (m, oom, k).

(** The loop over the frames of a datagram; [Some code] when it returns from the function.
    A frame has at least 13 bytes. *)
Fixpoint input_loop (fuel : nat) (p : list Z) (size : Z) (m : Latest) (oom : bool) k :
    result (option Z * Latest * bool * ikcpcb) :=
  match fuel with
  | O => OutOfFuel
  | S fuel =>
      if size <? IKCP_ACKN_OVERHEAD then Ret (None, m, oom, k) else
      '(conv, p) ← ikcp_decode 4 p;
      if negb (conv =? k.(cfg).(kconv)) then Ret (Some (-1), m, oom, k) else
      '(cmd, p) ← ikcp_decode 1 p;
      if cmd =? IKCP_CMD_ACKN then
        '(count, p) ← ikcp_decode 2 p;
        '(wnd, p) ← ikcp_decode 2 p;
        '(una, p) ← ikcp_decode 4 p;
        let need := IKCP_ACKN_OVERHEAD + count * IKCP_ACKN_ENTRY in
        if size <? need then Ret (Some (-2), m, oom, k) else
        '(p, m, k) ← feed_acks (Z.to_nat count) p m (heard wnd una k);
        input_loop fuel p (size - need) m oom k
      else
      if size <? IKCP_OVERHEAD then Ret (None, m, oom, k) else
      '(frg, p) ← ikcp_decode 1 p;
      '(wnd, p) ← ikcp_decode 2 p;
      '(ts, p) ← ikcp_decode 4 p;
      '(sn, p) ← ikcp_decode 4 p;
      '(una, p) ← ikcp_decode 4 p;
      '(len, p) ← ikcp_decode 4 p;
      let size := size - IKCP_OVERHEAD in
      if (size <? len) || (s32 len <? 0) then Ret (Some (-2), m, oom, k) else
      if negb (known_command cmd) then Ret (Some (-3), m, oom, k) else
      '(m, oom, k) ← input_segment (mkHead conv cmd frg wnd ts sn una) len p m oom k;
      input_loop fuel (drop (Z.to_nat len) p) (size - len) m oom k
  end.

(** The congestion window after an acknowledgement. *)
Definition grow_window (mss : Z) (w : Window) : result Window :=
  if w.(cwnd) <? w.(rmt_wnd) then
    w ← (if w.(cwnd) <? w.(ssthresh) then
           Ret (mkWindow w.(rmt_wnd) (u32 (w.(cwnd) + 1)) (u32 (w.(incr) + mss)) w.(ssthresh))
         else
           let i := if w.(incr) <? mss then mss else w.(incr) in
           if i =? 0 then Fault else
           let i := u32 (i + (u32 (mss * mss) / i + mss / 16)) in
           let c := if u32 (u32 (w.(cwnd) + 1) * mss) <=? i then u32 (i + mss - 1) / (if mss >? 0 then mss else 1)
                    else w.(cwnd) in
           Ret (mkWindow w.(rmt_wnd) c i w.(ssthresh)));
    Ret (if w.(cwnd) >? w.(rmt_wnd) then mkWindow w.(rmt_wnd) w.(rmt_wnd) (u32 (w.(rmt_wnd) * mss)) w.(ssthresh)
         else w)
  else Ret w.

Definition ikcp_input (d : list Z) k : result (Z * ikcpcb) :=
  let prev_una := k.(tx).(snd_una) in
  if s32 (zlen d) <? IKCP_ACKN_OVERHEAD then Ret (-1, k) else
  '(code, m, oom, k) ← input_loop (S (length d)) d (zlen d) None false k;
  match code with
  | Some c => Ret (c, k)
  | None =>
      let k := match m with Some (maxack, latest_ts) => ikcp_parse_fastack maxack latest_ts k | None => k end in
      k ← (if _itimediff k.(tx).(snd_una) prev_una >? 0 then
             w ← grow_window k.(cfg).(mss) k.(win); Ret (with_win w k)
           else Ret k);
      Ret (if oom : bool then -2 else 0, k)
  end.

(** ** Output *)

(** The buffer of the control block: the datagrams given to [output], and what is written
    between [buffer] and [ptr]. *)
Record Out : Type := mkOut { outputs : list (list Z); pending : list Z }.

(** [ikcp_output(kcp, buffer, size); ptr = buffer;] *)
Definition ikcp_output (o : Out) : Out :=
  mkOut (if zlen o.(pending) =? 0 then o.(outputs) else o.(outputs) ++ [o.(pending)]) [].

Definition put (capacity : Z) (bytes : list Z) (o : Out) : result Out :=
  if zlen o.(pending) + zlen bytes <=? capacity then Ret (mkOut o.(outputs) (o.(pending) ++ bytes)) else Fault.

(** [if (size + need > mtu) { ikcp_output(...); ptr = buffer; }] *)
Definition make_room (need : Z) (c : Config) (o : Out) : Out :=
  if zlen o.(pending) + need >? c.(mtu) then ikcp_output o else o.

Definition ikcp_encode_seg (h : Head) (len : Z) : list Z :=
  le_encode 4 h.(conv) ++ le_encode 1 h.(cmd) ++ le_encode 1 h.(frg) ++ le_encode 2 h.(wnd) ++ le_encode 4 h.(ts)
    ++ le_encode 4 h.(sn) ++ le_encode 4 h.(una) ++ le_encode 4 len.

Definition ikcp_wnd_unused k : Z :=
  if k.(rx).(nrcv_que) <? k.(cfg).(rcv_wnd) then k.(cfg).(rcv_wnd) - k.(rx).(nrcv_que) else 0.

(** A segment without data. *)
Definition control k (c n stamp : Z) : Head :=
  mkHead k.(cfg).(kconv) c 0 (ikcp_wnd_unused k) stamp n k.(rx).(rcv_nxt).

Definition put_control k (c n stamp : Z) (o : Out) : result Out :=
  put k.(cfg).(buffer_size) (ikcp_encode_seg (control k c n stamp) 0) (make_room IKCP_OVERHEAD k.(cfg) o).

(** One segment per acknowledgement. *)
Fixpoint put_acks k (l : list (Z * Z)) (o : Out) : result Out :=
  match l with
  | [] => Ret o
  | (n, stamp) :: l => o ← put_control k IKCP_CMD_ACK n stamp o; put_acks k l o
  end.

Definition encode_entry (a : Z * Z) : list Z := le_encode 4 a.1 ++ le_encode 4 a.2.

Definition encode_ackn k (l : list (Z * Z)) : list Z :=
  le_encode 4 k.(cfg).(kconv) ++ le_encode 1 IKCP_CMD_ACKN ++ le_encode 2 (zlen l)
    ++ le_encode 2 (ikcp_wnd_unused k) ++ le_encode 4 k.(rx).(rcv_nxt) ++ concat (map encode_entry l).

(** Compact frames of as many entries as a datagram takes. *)
Fixpoint put_ackn (fuel : nat) k (l : list (Z * Z)) (o : Out) : result Out :=
  match fuel, l with
  | _, [] => Ret o
  | O, _ => OutOfFuel
  | S fuel, _ =>
      let per := Z.quot (k.(cfg).(mtu) - IKCP_ACKN_OVERHEAD) IKCP_ACKN_ENTRY in
      if per <=? 0 then Ret o else
      let batch := if zlen l >? per then per else zlen l in
      let need := IKCP_ACKN_OVERHEAD + batch * IKCP_ACKN_ENTRY in
      let o := if (zlen o.(pending) >? 0) && (zlen o.(pending) + need >? k.(cfg).(mtu)) then ikcp_output o else o in
      o ← put k.(cfg).(buffer_size) (encode_ackn k (take (Z.to_nat batch) l)) o;
      put_ackn fuel k (drop (Z.to_nat batch) l) o
  end.

Definition ikcp_flush_acks (o : Out) k : result (Out * ikcpcb) :=
  let l := k.(rx).(acklist) in
  if zlen l <=? 0 then Ret (o, k) else
  o ← (if k.(cfg).(ackn_mode) then put_ackn (length l) k l o else put_acks k l o);
  Ret (o, with_acks [] k.(rx).(ackblock) k).

(** ** Flushing *)

(** A window of 0 is probed, at growing intervals. *)
Definition probe_window (now rmt : Z) (p : Probe) : Probe :=
  if rmt =? 0 then
    if p.(probe_wait) =? 0 then mkProbe p.(probe) (u32 (now + IKCP_PROBE_INIT)) IKCP_PROBE_INIT
    else if _itimediff now p.(ts_probe) >=? 0 then
      let wait := if p.(probe_wait) <? IKCP_PROBE_INIT then IKCP_PROBE_INIT else p.(probe_wait) in
      let wait := u32 (wait + wait / 2) in
      let wait := if wait >? IKCP_PROBE_LIMIT then IKCP_PROBE_LIMIT else wait in
      mkProbe (Z.lor p.(probe) IKCP_ASK_SEND) (u32 (now + wait)) wait
    else p
  else mkProbe p.(probe) 0 0.

Definition put_probes (o : Out) k : result (Out * ikcpcb) :=
  let p := k.(prb) in
  o ← (if negb (Z.land p.(probe) IKCP_ASK_SEND =? 0) then put_control k IKCP_CMD_WASK 0 0 o else Ret o);
  o ← (if negb (Z.land p.(probe) IKCP_ASK_TELL =? 0) then put_control k IKCP_CMD_WINS 0 0 o else Ret o);
  Ret (o, with_prb (mkProbe 0 p.(ts_probe) p.(probe_wait)) k).

Definition send_window k : Z :=
  let c := _imin_ k.(cfg).(snd_wnd) k.(win).(rmt_wnd) in
  if k.(cfg).(nocwnd) =? 0 then _imin_ k.(win).(cwnd) c else c.

(** The loop that moves segments from [snd_queue] to [snd_buf] and numbers them. *)
Fixpoint number_segments (cwnd unused : Z) (q : list Chunk) k : ikcpcb :=
  match q with
  | [] => k
  | (f, d) :: q =>
      let t := k.(tx) in
      if _itimediff t.(snd_nxt) (u32 (t.(snd_una) + cwnd)) <? 0 then
        let now := k.(clock).(current) in
        let h := mkHead k.(cfg).(kconv) IKCP_CMD_PUSH f unused now t.(snd_nxt) k.(rx).(rcv_nxt) in
        number_segments cwnd unused q
          (with_tx (mkTx t.(snd_una) (u32 (t.(snd_nxt) + 1)) q (u32 (t.(nsnd_que) - 1))
                      (t.(snd_buf) ++ [mkSending (mkSegment h d) now (u32 k.(rtt).(rx_rto)) 0 0 0])
                      (u32 (t.(nsnd_buf) + 1))) k)
      else k
  end.

(** Why a segment is sent: for the first time, after a timeout, or because later ones are
    acknowledged. *)
Inductive Reason : Type := First | Timeout | Fast.

(** [needsend] and the fields set with it, [resent] being the threshold for [Fast]. *)
Definition due (resent rtomin : Z) k (s : Sending) : option (Reason * Sending) :=
  let now := k.(clock).(current) in
  if s.(xmit) =? 0 then
    let r := u32 k.(rtt).(rx_rto) in
    Some (First, mkSending s.(seg) (u32 (now + r + rtomin)) r s.(fastack) (u32 (s.(xmit) + 1)) s.(first_fastack_ts))
  else if _itimediff now s.(resendts) >=? 0 then
    let r := if k.(cfg).(nodelay) =? 0 then u32 (s.(rto) + _imax_ s.(rto) (u32 k.(rtt).(rx_rto)))
             else let step := if k.(cfg).(nodelay) <? 2 then s32 s.(rto) else k.(rtt).(rx_rto) in
                  u32 (s.(rto) + Z.quot step 2) in
    Some (Timeout, mkSending s.(seg) (u32 (now + r)) r s.(fastack) (u32 (s.(xmit) + 1)) s.(first_fastack_ts))
  else if (s.(fastack) >=? resent) && ((s32 s.(xmit) <=? k.(cfg).(fastlimit)) || (k.(cfg).(fastlimit) <=? 0)) then
    Some (Fast, mkSending s.(seg) (u32 (now + s.(rto))) s.(rto) 0 (u32 (s.(xmit) + 1)) s.(first_fastack_ts))
  else None.

Definition count_reason (r : Reason) (c : Stats) : Stats :=
  match r with
  | First => mkStats c.(timeouts) c.(xmit_fast) c.(loss_rto) c.(reorder_retire) c.(reorder_us_max) c.(reorder_samples)
               (u32 (c.(sent_segs) + 1))
  | Timeout => mkStats (u32 (c.(timeouts) + 1)) c.(xmit_fast) c.(loss_rto) c.(reorder_retire) c.(reorder_us_max)
                 c.(reorder_samples) c.(sent_segs)
  | Fast => mkStats c.(timeouts) (u32 (c.(xmit_fast) + 1)) c.(loss_rto) c.(reorder_retire) c.(reorder_us_max)
              c.(reorder_samples) c.(sent_segs)
  end.

(** The fields of the header that are set at every transmission. *)
Definition stamped k (unused : Z) (s : Sending) : Sending :=
  let h := s.(seg).(head) in
  mkSending (mkSegment (mkHead h.(conv) h.(cmd) h.(frg) unused k.(clock).(current) h.(sn) k.(rx).(rcv_nxt)) s.(seg).(data))
    s.(resendts) s.(rto) s.(fastack) s.(xmit) s.(first_fastack_ts).

Definition encode_data (s : Segment) : list Z := ikcp_encode_seg s.(head) (zlen s.(data)) ++ s.(data).

(** The loop over [snd_buf]; [change] and [lost] are the counters of the source. *)
Record Flushed : Type := mkFlushed { fout : Out; fstats : Stats; fdead : bool; change : bool; lost : bool }.

Definition transmit k (unused : Z) (r : Reason) (s : Sending) (f : Flushed) : result (Sending * Flushed) :=
  let s := stamped k unused s in
  o ← put k.(cfg).(buffer_size) (encode_data s.(seg)) (make_room (IKCP_OVERHEAD + zlen s.(seg).(data)) k.(cfg) f.(fout));
  Ret (s, mkFlushed o (count_reason r f.(fstats)) (f.(fdead) || (s.(xmit) >=? k.(cfg).(dead_link)))
            (match r with Fast => true | _ => f.(change) end) (match r with Timeout => true | _ => f.(lost) end)).

Fixpoint flush_segments k (resent rtomin unused : Z) (l : list Sending) (f : Flushed) : result (list Sending * Flushed) :=
  match l with
  | [] => Ret ([], f)
  | s :: l =>
      '(s, f) ← (match due resent rtomin k s with Some (r, s) => transmit k unused r s f | None => Ret (s, f) end);
      '(l, f) ← flush_segments k resent rtomin unused l f;
      Ret (s :: l, f)
  end.

Definition at_least (n x : Z) : Z := if x <? n then n else x.

(** The congestion window after losses, [c] being the window that was used. *)
Definition shrink_window (change lost : bool) (resent c inflight mss : Z) (w : Window) : Window :=
  let w := if change then
             let th := at_least IKCP_THRESH_MIN (inflight / 2) in
             mkWindow w.(rmt_wnd) (u32 (th + resent)) (u32 (u32 (th + resent) * mss)) th
           else w in
  let w := if lost then mkWindow w.(rmt_wnd) 1 mss (at_least IKCP_THRESH_MIN (c / 2)) else w in
  if w.(cwnd) <? 1 then mkWindow w.(rmt_wnd) 1 mss w.(ssthresh) else w.

(** [ikcp_flush]: the datagrams it outputs, and the control block. *)
Definition ikcp_flush k : result (list (list Z) * ikcpcb) :=
  if negb k.(clock).(updated) then Ret ([], k) else
  let unused := ikcp_wnd_unused k in
  '(o, k) ← ikcp_flush_acks (mkOut [] []) k;
  let k := with_prb (probe_window k.(clock).(current) k.(win).(rmt_wnd) k.(prb)) k in
  '(o, k) ← put_probes o k;
  let c := send_window k in
  let k := number_segments c unused k.(tx).(snd_queue) k in
  let resent := if k.(cfg).(fastresend) >? 0 then k.(cfg).(fastresend) else UINT32_MAX in
  let rtomin := if k.(cfg).(nodelay) =? 0 then Z.shiftr k.(rtt).(rx_rto) 3 else 0 in
  '(l, f) ← flush_segments k resent rtomin unused k.(tx).(snd_buf) (mkFlushed o k.(stats) k.(dead) false false);
  let o := ikcp_output f.(fout) in
  let k := with_dead f.(fdead) (with_stats f.(fstats) (with_sending k.(tx).(snd_una) l k.(tx).(nsnd_buf) k)) in
  let inflight := u32 (k.(tx).(snd_nxt) - k.(tx).(snd_una)) in
  Ret (o.(outputs), with_win (shrink_window f.(change) f.(lost) resent c inflight k.(cfg).(mss) k.(win)) k).

(** ** Time *)

Definition ikcp_update (now : Z) k : result (list (list Z) * ikcpcb) :=
  let flush := if k.(clock).(updated) then k.(clock).(ts_flush) else now in
  let slap := _itimediff now flush in
  let '(flush, slap) := if (slap >=? 10000) || (slap <? -10000) then (now, 0) else (flush, slap) in
  if slap >=? 0 then
    let flush := u32 (flush + k.(cfg).(interval)) in
    let flush := if _itimediff now flush >=? 0 then u32 (now + k.(cfg).(interval)) else flush in
    ikcp_flush (with_clock (mkClock now flush true) k)
  else Ret ([], with_clock (mkClock now flush true) k).

(** The loop of [ikcp_check]: [None] when a segment is due. *)
Fixpoint next_resend (now tm_packet : Z) (l : list Sending) : option Z :=
  match l with
  | [] => Some tm_packet
  | s :: l =>
      let diff := _itimediff s.(resendts) now in
      if diff <=? 0 then None else next_resend now (if diff <? tm_packet then diff else tm_packet) l
  end.

Definition ikcp_check (now : Z) k : Z :=
  if negb k.(clock).(updated) then now else
  let flush := k.(clock).(ts_flush) in
  let flush := if (_itimediff now flush >=? 10000) || (_itimediff now flush <? -10000) then now else flush in
  if _itimediff now flush >=? 0 then now else
  let tm_flush := _itimediff flush now in
  match next_resend now INT_MAX k.(tx).(snd_buf) with
  | None => now
  | Some tm_packet =>
      let minimal := if tm_packet <? tm_flush then tm_packet else tm_flush in
      let minimal := if minimal >=? k.(cfg).(interval) then k.(cfg).(interval) else minimal in
      u32 (now + minimal)
  end.

(** ** Settings *)

Definition ikcp_waitsnd k : Z := s32 (u32 (k.(tx).(nsnd_buf) + k.(tx).(nsnd_que))).

Definition ikcp_setmtu (m : Z) k : Z * ikcpcb :=
  if (m <? 50) || (m <? IKCP_OVERHEAD) then (-1, k) else
  let ok := ikcp_malloc k.(mallocs) in
  let k := count_malloc k in
  if negb ok then (-2, k) else
  let c := k.(cfg) in
  (0, with_cfg (mkConfig c.(kconv) m (u32 (m - IKCP_OVERHEAD)) (u32 (u32 (m + IKCP_OVERHEAD) * 3)) c.(snd_wnd) c.(rcv_wnd)
                  c.(interval) c.(nodelay) c.(rx_minrto) c.(fastresend) c.(fastlimit) c.(nocwnd) c.(stream)
                  c.(dead_link) c.(ackn_mode)) k).

Definition bound_interval (i : Z) : Z := if i >? 5000 then 5000 else if i <? 10 then 10 else i.

Definition ikcp_interval (i : Z) k : ikcpcb :=
  let c := k.(cfg) in
  with_cfg (mkConfig c.(kconv) c.(mtu) c.(mss) c.(buffer_size) c.(snd_wnd) c.(rcv_wnd) (bound_interval i) c.(nodelay)
              c.(rx_minrto) c.(fastresend) c.(fastlimit) c.(nocwnd) c.(stream) c.(dead_link) c.(ackn_mode)) k.

Definition ikcp_nodelay (delay i resend nc : Z) k : ikcpcb :=
  let c := k.(cfg) in
  with_cfg (mkConfig c.(kconv) c.(mtu) c.(mss) c.(buffer_size) c.(snd_wnd) c.(rcv_wnd)
              (if i >=? 0 then bound_interval i else c.(interval))
              (if delay >=? 0 then delay else c.(nodelay))
              (if delay >=? 0 then if delay =? 0 then IKCP_RTO_MIN else IKCP_RTO_NDL else c.(rx_minrto))
              (if resend >=? 0 then resend else c.(fastresend)) c.(fastlimit)
              (if nc >=? 0 then nc else c.(nocwnd)) c.(stream) c.(dead_link) c.(ackn_mode)) k.

Definition ikcp_wndsize (sndwnd rcvwnd : Z) k : ikcpcb :=
  let c := k.(cfg) in
  with_cfg (mkConfig c.(kconv) c.(mtu) c.(mss) c.(buffer_size)
              (if sndwnd >? 0 then _imin_ sndwnd 65535 else c.(snd_wnd))
              (if rcvwnd >? 0 then _imax_ (_imin_ rcvwnd 65535) IKCP_WND_RCV else c.(rcv_wnd))
              c.(interval) c.(nodelay) c.(rx_minrto) c.(fastresend) c.(fastlimit) c.(nocwnd) c.(stream) c.(dead_link)
              c.(ackn_mode)) k.

Definition ikcp_ackn_mode (enable : bool) k : ikcpcb :=
  let c := k.(cfg) in
  with_cfg (mkConfig c.(kconv) c.(mtu) c.(mss) c.(buffer_size) c.(snd_wnd) c.(rcv_wnd) c.(interval) c.(nodelay)
              c.(rx_minrto) c.(fastresend) c.(fastlimit) c.(nocwnd) c.(stream) c.(dead_link) enable) k.
End Kcp.
