(* ===== verification/KcpProofs.v ===== *)
(** * KCP: numbers, frames and the invariant of one end

    Sequence numbers are compared by the sign of their difference at 32 bits; numbers that
    are close stand for integers that grow without bound.  A datagram is a list of frames,
    for whatever bytes arrive, and reading it is the effect of its frames one by one. *)

From S2P Require Import Prelude Kcp.

Lemma result_bind_ret {A B} (r : result A) (k : A -> result B) b : r ≫= k = Ret b -> exists a, r = Ret a /\ k a = Ret b.
Proof. destruct r; simpl; intros H; try done. by eexists. Qed.

(** ** Sequence numbers *)

Lemma itimediff_u32 i j : - 2 ^ 31 <= i - j < 2 ^ 31 -> _itimediff (u32 i) (u32 j) = i - j.
Proof.
  intros H. unfold _itimediff, wraps, wrapu. change (2 ^ (32 - 1)) with (2 ^ 31).
  rewrite Zplus_mod, Zminus_mod_idemp_l, Zminus_mod_idemp_r, <- Zplus_mod, Z.mod_small; width_lia.
Qed.

Lemma itimediff_far i j : - 2 ^ 32 <= i - j < - 2 ^ 31 -> _itimediff (u32 i) (u32 j) = i - j + 2 ^ 32.
Proof.
  intros H. replace (u32 i) with (u32 (i + 2 ^ 32)) by (unfold wrapu; rewrite <- (Z.mul_1_l (2 ^ 32)) at 1; apply Z.mod_add; lia).
  rewrite itimediff_u32; lia.
Qed.

Lemma u32_small z : 0 <= z < 2 ^ 32 -> u32 z = z.
Proof. apply Z.mod_small. Qed.

Lemma u32_add i j : u32 (u32 i + j) = u32 (i + j).
Proof. unfold wrapu. by rewrite Zplus_mod_idemp_l. Qed.

Lemma u32_sub i j : u32 (u32 i - j) = u32 (i - j).
Proof. unfold wrapu. by rewrite Zminus_mod_idemp_l. Qed.

Lemma u32_inj i j : - 2 ^ 32 < i - j < 2 ^ 32 -> u32 i = u32 j -> i = j.
Proof.
  unfold wrapu. intros H E. assert ((i - j) mod 2 ^ 32 = 0) as E' by (by rewrite Zminus_mod, E, Z.sub_diag).
  apply Z.mod_divide in E' as [q Hq]; width_lia.
Qed.

Lemma u32_range z : 0 <= u32 z < 2 ^ 32.
Proof. unfold wrapu. apply Z.mod_pos_bound. lia. Qed.

Lemma s32_small z : - 2 ^ 31 <= z < 2 ^ 31 -> s32 z = z.
Proof. intros H. unfold wraps. change (2 ^ (32 - 1)) with (2 ^ 31). rewrite Z.mod_small; width_lia. Qed.

(** Any number is that of an integer near a given one. *)
Lemma near_number i n : 0 <= n < 2 ^ 32 -> u32 (i + _itimediff n (u32 i)) = n.
Proof.
  intros H. unfold _itimediff, wraps, wrapu. change (2 ^ (32 - 1)) with (2 ^ 31).
  set (z := n - i mod 2 ^ 32 + 2 ^ 31). rewrite <- (Z.mod_small n (2 ^ 32)) by done.
  replace (i + (z mod 2 ^ 32 - 2 ^ 31)) with (i - 2 ^ 31 + z mod 2 ^ 32) by lia. rewrite Zplus_mod_idemp_r.
  subst z. replace (i - 2 ^ 31 + (n - i mod 2 ^ 32 + 2 ^ 31)) with (n + i - i mod 2 ^ 32) by lia.
  rewrite Zminus_mod_idemp_r. f_equal. lia.
Qed.

Lemma itimediff_range a b : - 2 ^ 31 <= _itimediff a b < 2 ^ 31.
Proof. unfold _itimediff, wraps. change (2 ^ (32 - 1)) with (2 ^ 31). pose proof (Z.mod_pos_bound (a - b + 2 ^ 31) (2 ^ 32)). lia. Qed.

(** ** Bytes *)

Lemma length_le_encode n v : length (le_encode n v) = n.
Proof. revert v. induction n as [| n IH]; intros v; simpl; [done |]. by rewrite IH. Qed.

Lemma zlen_le_encode n v : zlen (le_encode n v) = Z.of_nat n.
Proof. unfold zlen. by rewrite length_le_encode. Qed.

Lemma le_encode_bytes n v : is_bytes (le_encode n v).
Proof. revert v. induction n as [| n IH]; intros v; constructor; [apply is_byte_mod | apply IH]. Qed.

Lemma le_decode_encode n v : 0 <= v < 256 ^ Z.of_nat n -> le_decode (le_encode n v) = v.
Proof.
  revert v. induction n as [| n IH]; intros v; [simpl; lia |]. rewrite Nat2Z.inj_succ, Z.pow_succ_r by lia. intros H.
  cbn [le_encode le_decode]. rewrite IH; [pose proof (Z.div_mod v 256); lia |].
  split; [apply Z.div_pos; lia | apply Z.div_lt_upper_bound; lia].
Qed.

Lemma le_decode_range l : is_bytes l -> 0 <= le_decode l < 256 ^ zlen l.
Proof.
  induction 1 as [| b l Hb _ IH]; [done |]. rewrite zlen_cons, Z.pow_add_r, Z.pow_1_r by (pose proof (zlen_nonneg l); lia).
  cbn [le_decode]. unfold is_byte in Hb. lia.
Qed.

Lemma decode_bytes n p : (n <= length p)%nat -> ikcp_decode n p = Ret (le_decode (take n p), drop n p).
Proof. intros H. unfold ikcp_decode. by rewrite (proj2 (Nat.ltb_ge _ _)). Qed.

Lemma decode_le n v rest : 0 <= v < 256 ^ Z.of_nat n -> ikcp_decode n (le_encode n v ++ rest) = Ret (v, rest).
Proof.
  intros H. rewrite decode_bytes by (rewrite length_app, length_le_encode; lia).
  rewrite take_app_length', drop_app_length', le_decode_encode by (by rewrite ?length_le_encode); done.
Qed.

(** ** Frames *)

(** A segment with its data, or a compact frame: window, first number lacked, entries. *)
Inductive Frame : Type :=
| Plain (h : Head) (d : list Z)
| Compact (w u : Z) (l : list (Z * Z)).

Definition encode_frame (c : Z) (f : Frame) : list Z :=
  match f with
  | Plain h d => ikcp_encode_seg h (zlen d) ++ d
  | Compact w u l => le_encode 4 c ++ le_encode 1 IKCP_CMD_ACKN ++ le_encode 2 (zlen l) ++ le_encode 2 w ++ le_encode 4 u
                       ++ concat (map encode_entry l)
  end.

(** The field of [n] bytes at an offset. *)
Definition field (p : list Z) (off n : nat) : Z := le_decode (take n (drop off p)).

Fixpoint entries (count : nat) (p : list Z) : list (Z * Z) :=
  match count with
  | O => []
  | S count => (field p 0 4, field p 4 4) :: entries count (drop 8 p)
  end.

(** The frames at the start of some bytes, and the code if what follows is refused. *)
Fixpoint frames_of (fuel : nat) (c : Z) (p : list Z) : list Frame * option Z :=
  match fuel with
  | O => ([], None)
  | S fuel =>
      if zlen p <? IKCP_ACKN_OVERHEAD then ([], None) else
      if negb (field p 0 4 =? c) then ([], Some (-1)) else
      if field p 4 1 =? IKCP_CMD_ACKN then
        let count := field p 5 2 in
        let need := IKCP_ACKN_OVERHEAD + count * IKCP_ACKN_ENTRY in
        if zlen p <? need then ([], Some (-2)) else
        let '(fs, e) := frames_of fuel c (drop (Z.to_nat need) p) in
        (Compact (field p 7 2) (field p 9 4) (entries (Z.to_nat count) (drop 13 p)) :: fs, e)
      else if zlen p <? IKCP_OVERHEAD then ([], None) else
        let len := field p 20 4 in
        if (zlen p - IKCP_OVERHEAD <? len) || (s32 len <? 0) then ([], Some (-2)) else
        if negb (known_command (field p 4 1)) then ([], Some (-3)) else
        let '(fs, e) := frames_of fuel c (drop (Z.to_nat len) (drop 24 p)) in
        (Plain (mkHead (field p 0 4) (field p 4 1) (field p 5 1) (field p 6 2) (field p 8 4) (field p 12 4) (field p 16 4))
           (take (Z.to_nat len) (drop 24 p)) :: fs, e)
  end.

Section Effects.
Context (seg_alloc ikcp_malloc : nat -> bool).
Implicit Types k : ikcpcb.

Fixpoint run_acks (l : list (Z * Z)) (m : Latest) k : result (Latest * ikcpcb) :=
  match l with
  | [] => Ret (m, k)
  | (n, stamp) :: l => '(m, k) ← ikcp_ack_feed n stamp m k; run_acks l m k
  end.

Definition run_frame (f : Frame) (m : Latest) (oom : bool) k : result (Latest * bool * ikcpcb) :=
  match f with
  | Plain h d => input_segment seg_alloc ikcp_malloc h (zlen d) d m oom k
  | Compact w u l => '(m, k) ← run_acks l m (heard w u k); Ret (m, oom, k)
  end.

Fixpoint run_frames (fs : list Frame) (m : Latest) (oom : bool) k : result (Latest * bool * ikcpcb) :=
  match fs with
  | [] => Ret (m, oom, k)
  | f :: fs => '(m, oom, k) ← run_frame f m oom k; run_frames fs m oom k
  end.

Lemma feed_acks_entries count p m k : (8 * count <= length p)%nat ->
  feed_acks count p m k = '(m, k) ← run_acks (entries count p) m k; Ret (drop (8 * count) p, m, k).
Proof.
  revert p m k. induction count as [| count IH]; intros p m k H; [by rewrite drop_0 |].
  cbn [feed_acks]. rewrite (decode_bytes 4) by lia. cbn [mbind result_bind].
  rewrite (decode_bytes 4) by (rewrite length_drop; lia). cbn [mbind result_bind].
  rewrite drop_drop. cbn [entries run_acks]. unfold field. rewrite drop_0. change (4 + 4)%nat with 8%nat.
  destruct (ikcp_ack_feed _ _ m k) as [[m' k'] | | |]; cbn [mbind result_bind]; try done.
  rewrite IH by (rewrite length_drop; lia). rewrite drop_drop. by replace (8 + 8 * count)%nat with (8 * S count)%nat by lia.
Qed.

(** Only the bytes of the segment are read. *)
Lemma input_segment_rest h d rest m oom k :
  input_segment seg_alloc ikcp_malloc h (zlen d) (d ++ rest) m oom k = input_segment seg_alloc ikcp_malloc h (zlen d) d m oom k.
Proof.
  unfold input_segment, input_push. assert (fetch_slice (d ++ rest) 0 (zlen d) = fetch_slice d 0 (zlen d)) as ->; [| done].
  unfold fetch_slice. pose proof (zlen_nonneg d). pose proof (zlen_nonneg rest). rewrite zlen_app. test_true. test_true.
  unfold slice. change (Z.to_nat 0) with 0%nat. by rewrite !drop_0, zlen_to_nat, take_app_length, firstn_all.
Qed.

(** ** What an effect leaves alone *)

Record keeps k k' : Prop := {
  keeps_cfg : k'.(cfg) = k.(cfg);
  keeps_clock : k'.(clock) = k.(clock);
  keeps_nxt : k'.(tx).(snd_nxt) = k.(tx).(snd_nxt);
  keeps_queue : k'.(tx).(snd_queue) = k.(tx).(snd_queue);
  keeps_count : k'.(tx).(nsnd_que) = k.(tx).(nsnd_que)
}.

Lemma keeps_refl k : keeps k k.
Proof. done. Qed.

Lemma keeps_trans k1 k2 k3 : keeps k1 k2 -> keeps k2 k3 -> keeps k1 k3.
Proof. intros [] []. split; congruence. Qed.

Lemma keeps_retired s k : keeps k (ikcp_note_seg_retired s k).
Proof. unfold ikcp_note_seg_retired. by repeat case_match. Qed.

Lemma keeps_before n l k : keeps k (retire_before n l k).
Proof.
  revert k. induction l as [| s l IH]; intros k; [done |]. cbn [retire_before]. case_match; [| done].
  eapply keeps_trans; [| apply IH]. eapply keeps_trans; [apply (keeps_retired s) | done].
Qed.

Lemma keeps_heard w u k : keeps k (heard w u k).
Proof.
  unfold heard, ikcp_parse_una. set (k1 := with_rmt w k). eapply (keeps_trans _ k1); [done |].
  eapply keeps_trans; [apply (keeps_before u k1.(tx).(snd_buf)) | done].
Qed.

Lemma keeps_parse_ack n k : keeps k (ikcp_parse_ack n k).
Proof.
  unfold ikcp_parse_ack. repeat case_match; [| done..]. eapply keeps_trans; [apply (keeps_retired s) | done].
Qed.

Lemma keeps_update_ack sample k k' : ikcp_update_ack sample k = Ret k' -> keeps k k'.
Proof.
  unfold ikcp_update_ack, int32. intros H. repeat (case_match; cbn [mbind result_bind] in *; simplify_eq); done.
Qed.

Lemma keeps_feed n stamp m k m' k' : ikcp_ack_feed n stamp m k = Ret (m', k') -> keeps k k'.
Proof.
  unfold ikcp_ack_feed. intros H. apply result_bind_ret in H as (k1 & H1 & H2). injection H2 as <- <-.
  apply (keeps_trans _ k1); [case_match; [by eapply keeps_update_ack | by injection H1 as <-] |].
  eapply keeps_trans; [apply (keeps_parse_ack n) | done].
Qed.

Lemma keeps_acks l m k m' k' : run_acks l m k = Ret (m', k') -> keeps k k'.
Proof.
  revert m k. induction l as [| [n stamp] l IH]; intros m k H; cbn [run_acks] in H; [by injection H as <- <- |].
  apply result_bind_ret in H as ([m1 k1] & H1 & H2). eapply keeps_trans; [by eapply keeps_feed | by eapply IH].
Qed.

Lemma keeps_ack_push n stamp k k' : ikcp_ack_push ikcp_malloc n stamp k = Ret k' -> keeps k k'.
Proof.
  unfold ikcp_ack_push. intros H. destruct (_ >? _); [| by injection H as <-].
  apply result_bind_ret in H as (nb & _ & H). injection H as <-. by case_match.
Qed.

Lemma keeps_push h len p k b k' : input_push seg_alloc ikcp_malloc h len p k = Ret (b, k') -> keeps k k'.
Proof.
  unfold input_push. intros H. destruct (_ <? 0); [| by injection H as <- <-].
  apply result_bind_ret in H as (k1 & H1 & H2). apply (keeps_trans _ k1); [by eapply keeps_ack_push |].
  destruct (_ >=? 0); [| by injection H2 as <- <-]. unfold ikcp_segment_new in H2.
  destruct (negb _); [by injection H2 as <- <- |].
  apply result_bind_ret in H2 as (d & _ & H2). injection H2 as <- <-. unfold ikcp_parse_data. by case_match.
Qed.

Lemma keeps_frame f m oom k m' oom' k' : run_frame f m oom k = Ret (m', oom', k') -> keeps k k'.
Proof.
  destruct f as [h d | w u l]; cbn [run_frame]; intros H.
  - unfold input_segment in H. eapply keeps_trans; [apply (keeps_heard h.(wnd) h.(una)) |].
    destruct (h.(cmd) =? IKCP_CMD_ACK); [| destruct (h.(cmd) =? IKCP_CMD_PUSH)].
    + apply result_bind_ret in H as ([m1 k1] & H1 & H2). injection H2 as <- <- <-. by eapply keeps_feed.
    + apply result_bind_ret in H as ([b k1] & H1 & H2). injection H2 as <- <- <-. by eapply keeps_push.
    + destruct (h.(cmd) =? IKCP_CMD_WASK); by injection H as <- <- <-.
  - apply result_bind_ret in H as ([m1 k1] & H1 & H2). injection H2 as <- <- <-.
    eapply keeps_trans; [apply (keeps_heard w u) | by eapply keeps_acks].
Qed.

(** ** A datagram is its frames *)

Lemma field_decode (off n : nat) p : (off + n <= length p)%nat ->
  ikcp_decode n (drop off p) = Ret (field p off n, drop (off + n) p).
Proof. intros H. rewrite decode_bytes by (rewrite length_drop; lia). by rewrite drop_drop. Qed.

Lemma field_range off n p : is_bytes p -> 0 <= field p off n < 256 ^ Z.of_nat n.
Proof.
  intros H. unfold field. assert (is_bytes (take n (drop off p))) as Hb by (by apply is_bytes_take, is_bytes_drop).
  pose proof (le_decode_range _ Hb). assert (256 ^ zlen (take n (drop off p)) <= 256 ^ Z.of_nat n); [| lia].
  apply Z.pow_le_mono_r; [lia |]. unfold zlen. rewrite length_take. lia.
Qed.

Lemma run_frames_cons f fs m oom k :
  run_frames (f :: fs) m oom k = '(m, oom, k) ← run_frame f m oom k; run_frames fs m oom k.
Proof. done. Qed.

(** [rest] is read after the frame, by a control block of the same conversation. *)
Lemma run_frame_then {B} f m oom k (g h : Latest -> bool -> ikcpcb -> result B) :
  (forall m' oom' k', k'.(cfg).(kconv) = k.(cfg).(kconv) -> g m' oom' k' = h m' oom' k') ->
  ('(m, oom, k) ← run_frame f m oom k; g m oom k) = ('(m, oom, k) ← run_frame f m oom k; h m oom k).
Proof.
  intros H. destruct (run_frame f m oom k) as [[[m' oom'] k'] | | |] eqn:E; cbn [mbind result_bind]; try done.
  apply H. apply keeps_frame in E as []. congruence.
Qed.

Lemma input_loop_compact fuel p m oom k : is_bytes p -> 13 + field p 5 2 * 8 <= zlen p ->
  field p 0 4 = k.(cfg).(kconv) -> field p 4 1 = IKCP_CMD_ACKN ->
  let need := 13 + field p 5 2 * 8 in
  input_loop seg_alloc ikcp_malloc (S fuel) p (zlen p) m oom k
  = '(m, oom, k) ← run_frame (Compact (field p 7 2) (field p 9 4) (entries (Z.to_nat (field p 5 2)) (drop 13 p))) m oom k;
    input_loop seg_alloc ikcp_malloc fuel (drop (Z.to_nat need) p) (zlen (drop (Z.to_nat need) p)) m oom k.
Proof.
  intros Hb Hl Hk Hc need. pose proof (field_range 5 2 p Hb) as Hn. change (256 ^ Z.of_nat 2) with 65536 in Hn.
  unfold zlen in Hl. cbn [input_loop]. unfold IKCP_ACKN_OVERHEAD, IKCP_ACKN_ENTRY. rewrite (proj2 (Z.ltb_ge _ _)) by (unfold zlen; lia).
  rewrite <- (drop_0 p) at 1. rewrite field_decode by lia. cbn [mbind result_bind Nat.add]. rewrite Hk, Z.eqb_refl. cbn [negb].
  rewrite field_decode by lia. cbn [mbind result_bind Nat.add]. rewrite Hc, Z.eqb_refl.
  do 3 (rewrite field_decode by lia; cbn [mbind result_bind Nat.add]). rewrite (proj2 (Z.ltb_ge _ _)) by (unfold zlen; lia).
  rewrite feed_acks_entries by (rewrite length_drop; lia). unfold run_frame.
  destruct (run_acks _ m (heard _ _ k)) as [[m' k'] | | |]; cbn [mbind result_bind]; try done.
  rewrite drop_drop. replace (13 + 8 * Z.to_nat (field p 5 2))%nat with (Z.to_nat need) by lia.
  do 2 f_equal. unfold zlen. rewrite length_drop. lia.
Qed.

Lemma input_loop_head fuel p m oom k : 13 <= zlen p -> field p 0 4 = k.(cfg).(kconv) -> field p 4 1 <> IKCP_CMD_ACKN ->
  input_loop seg_alloc ikcp_malloc (S fuel) p (zlen p) m oom k
  = if zlen p <? 24 then Ret (None, m, oom, k) else
    if (zlen p - 24 <? field p 20 4) || (s32 (field p 20 4) <? 0) then Ret (Some (-2), m, oom, k) else
    if negb (known_command (field p 4 1)) then Ret (Some (-3), m, oom, k) else
    '(m, oom, k) ← input_segment seg_alloc ikcp_malloc (mkHead (field p 0 4) (field p 4 1) (field p 5 1) (field p 6 2)
                     (field p 8 4) (field p 12 4) (field p 16 4)) (field p 20 4) (drop 24 p) m oom k;
    input_loop seg_alloc ikcp_malloc fuel (drop (Z.to_nat (field p 20 4)) (drop 24 p)) (zlen p - 24 - field p 20 4) m oom k.
Proof.
  intros Hl Hk Hc. cbn [input_loop]. unfold IKCP_ACKN_OVERHEAD, IKCP_OVERHEAD. rewrite (proj2 (Z.ltb_ge _ 13)) by done.
  unfold zlen in Hl. rewrite <- (drop_0 p) at 1. rewrite field_decode by lia. cbn [mbind result_bind Nat.add].
  rewrite <- Hk, Z.eqb_refl. cbn [negb]. rewrite field_decode by lia. cbn [mbind result_bind Nat.add].
  rewrite (proj2 (Z.eqb_neq _ _) Hc). destruct (zlen p <? 24) eqn:H24; [done |]. apply Z.ltb_ge in H24. unfold zlen in H24.
  do 6 (rewrite field_decode by lia; cbn [mbind result_bind Nat.add]). done.
Qed.

Lemma input_loop_plain fuel p m oom k : is_bytes p -> 24 <= zlen p -> field p 20 4 <= zlen p - 24 -> 0 <= s32 (field p 20 4) ->
  field p 0 4 = k.(cfg).(kconv) -> field p 4 1 <> IKCP_CMD_ACKN -> known_command (field p 4 1) = true ->
  let rest := drop (Z.to_nat (field p 20 4)) (drop 24 p) in
  input_loop seg_alloc ikcp_malloc (S fuel) p (zlen p) m oom k
  = '(m, oom, k) ← run_frame (Plain (mkHead (field p 0 4) (field p 4 1) (field p 5 1) (field p 6 2) (field p 8 4)
                                       (field p 12 4) (field p 16 4)) (take (Z.to_nat (field p 20 4)) (drop 24 p))) m oom k;
    input_loop seg_alloc ikcp_malloc fuel rest (zlen rest) m oom k.
Proof.
  intros Hb Hl Hlen Hs Hk Hc Hkc rest. pose proof (field_range 20 4 p Hb) as Hn. change (256 ^ Z.of_nat 4) with (2 ^ 32) in Hn.
  rewrite input_loop_head, (proj2 (Z.ltb_ge _ 24)), (proj2 (Z.ltb_ge _ (field p 20 4))), (proj2 (Z.ltb_ge (s32 _) 0)) by (done || lia).
  cbn [orb].
  rewrite Hkc. cbn [negb]. set (d := take (Z.to_nat (field p 20 4)) (drop 24 p)).
  assert (zlen d = field p 20 4) as Hd. { unfold d, zlen in *. rewrite length_take, length_drop. lia. }
  rewrite <- (take_drop (Z.to_nat (field p 20 4)) (drop 24 p)). fold d. rewrite <- Hd, input_segment_rest, zlen_to_nat. unfold run_frame.
  destruct (input_segment _ _ _ _ d m oom k) as [[[m' oom'] k'] | | |]; cbn [mbind result_bind]; try done.
  assert (drop (length d) (drop 24 p) = rest) as -> by (unfold rest; by rewrite <- Hd, zlen_to_nat).
  rewrite ?drop_app_length. f_equal. unfold rest, zlen in *. rewrite !length_drop. lia.
Qed.

(** What is refused, and what is left over. *)
Lemma input_loop_short_compact fuel p m oom k : is_bytes p -> 13 <= zlen p -> field p 0 4 = k.(cfg).(kconv) ->
  field p 4 1 = IKCP_CMD_ACKN -> (zlen p <? 13 + field p 5 2 * 8) = true ->
  input_loop seg_alloc ikcp_malloc (S fuel) p (zlen p) m oom k = Ret (Some (-2), m, oom, k).
Proof.
  intros Hb Hl Hk Hc Hn. cbn [input_loop]. unfold IKCP_ACKN_OVERHEAD, IKCP_ACKN_ENTRY. rewrite (proj2 (Z.ltb_ge _ 13)) by done.
  unfold zlen in Hl. rewrite <- (drop_0 p) at 1. rewrite field_decode by lia. cbn [mbind result_bind Nat.add].
  rewrite Hk, Z.eqb_refl. cbn [negb]. rewrite field_decode by lia. cbn [mbind result_bind Nat.add]. rewrite Hc, Z.eqb_refl.
  do 3 (rewrite field_decode by lia; cbn [mbind result_bind Nat.add]). by rewrite Hn.
Qed.

Lemma input_loop_frames fuel p m oom k : is_bytes p -> (length p < fuel)%nat ->
  input_loop seg_alloc ikcp_malloc fuel p (zlen p) m oom k
  = let '(fs, e) := frames_of fuel k.(cfg).(kconv) p in
    '(m, oom, k) ← run_frames fs m oom k; Ret (e, m, oom, k).
Proof.
  revert p m oom k. induction fuel as [| fuel IH]; intros p m oom k Hb Hl; [lia |].
  destruct (frames_of (S fuel) _ p) as [fs e] eqn:E. cbn [frames_of] in E. unfold IKCP_ACKN_OVERHEAD, IKCP_ACKN_ENTRY, IKCP_OVERHEAD in E.
  destruct (zlen p <? 13) eqn:H13; [injection E as <- <-; cbn [input_loop]; unfold IKCP_ACKN_OVERHEAD; by rewrite H13 |].
  apply Z.ltb_ge in H13.
  assert (forall f rest, is_bytes rest -> (length rest < length p)%nat ->
    (f :: (frames_of fuel k.(cfg).(kconv) rest).1, (frames_of fuel k.(cfg).(kconv) rest).2) = (fs, e) ->
    ('(m, oom, k) ← run_frame f m oom k; input_loop seg_alloc ikcp_malloc fuel rest (zlen rest) m oom k)
    = '(m, oom, k) ← run_frames fs m oom k; Ret (e, m, oom, k)) as step.
  { intros f rest Hr Hlr [= <- <-]. rewrite run_frames_cons.
    destruct (run_frame f m oom k) as [[[m' oom'] k'] | | |] eqn:Ef; cbn [mbind result_bind]; try done.
    rewrite IH by (done || lia). apply keeps_frame in Ef as []. rewrite keeps_cfg0. by destruct (frames_of fuel _ rest). }
  destruct (field p 0 4 =? kconv (cfg k)) eqn:Hk; cbn [negb] in E; [apply Z.eqb_eq in Hk |].
  2: { injection E as <- <-. cbn [input_loop]. unfold IKCP_ACKN_OVERHEAD. rewrite (proj2 (Z.ltb_ge _ 13)) by done.
       unfold zlen in H13. rewrite <- (drop_0 p) at 1. rewrite field_decode by lia. cbn [mbind result_bind]. by rewrite Hk. }
  destruct (field p 4 1 =? IKCP_CMD_ACKN) eqn:Hc; [apply Z.eqb_eq in Hc | apply Z.eqb_neq in Hc].
  - destruct (zlen p <? 13 + field p 5 2 * 8) eqn:Hneed.
    + injection E as <- <-. by apply input_loop_short_compact.
    + apply Z.ltb_ge in Hneed. rewrite input_loop_compact by done. pose proof (field_range 5 2 p Hb).
      apply step; [by apply is_bytes_drop | rewrite length_drop; unfold zlen in *; lia |].
      by destruct (frames_of fuel _ _).
  - destruct (zlen p <? 24) eqn:H24; [injection E as <- <-; rewrite input_loop_head, H24 by done; done |]. apply Z.ltb_ge in H24.
    destruct (_ || _) eqn:Hlen; [injection E as <- <-; rewrite input_loop_head, (proj2 (Z.ltb_ge _ 24)), Hlen by done; done |].
    destruct (negb (known_command _)) eqn:Hkc; [injection E as <- <-; rewrite input_loop_head, (proj2 (Z.ltb_ge _ 24)), Hlen, Hkc by done; done |].
    apply orb_false_iff in Hlen as [Hlen Hs]. apply Z.ltb_ge in Hlen, Hs. apply negb_false_iff in Hkc.
    rewrite input_loop_plain by (done || lia). pose proof (field_range 20 4 p Hb).
    apply step; [by do 2 apply is_bytes_drop | rewrite !length_drop; unfold zlen in *; lia |].
    by destruct (frames_of fuel _ _).
Qed.
End Effects.

(** ** Frames that are sent are read back *)

Lemma field_skip m v b off n : (m <= off)%nat -> field (le_encode m v ++ b) off n = field b (off - m) n.
Proof.
  intros H. unfold field. rewrite drop_app, length_le_encode. by rewrite (drop_ge (le_encode m v)) by (rewrite length_le_encode; lia).
Qed.

Lemma field_here n v b : 0 <= v < 256 ^ Z.of_nat n -> field (le_encode n v ++ b) 0 n = v.
Proof.
  intros H. unfold field. rewrite drop_0, take_app_length' by (by rewrite length_le_encode). by apply le_decode_encode.
Qed.

(** Compute a field of an encoding. *)
Ltac field_of := rewrite <- ?app_assoc; repeat (rewrite field_skip by lia; simpl (_ - _)%nat); rewrite field_here by (simpl; lia).

Record head_ok (c : Z) (h : Head) : Prop := {
  ok_conv : h.(conv) = c;
  ok_cmd : known_command h.(cmd) = true;
  ok_frg : 0 <= h.(frg) < 256;
  ok_wnd : 0 <= h.(wnd) < 65536;
  ok_ts : 0 <= h.(ts) < 2 ^ 32;
  ok_sn : 0 <= h.(sn) < 2 ^ 32;
  ok_una : 0 <= h.(una) < 2 ^ 32
}.

Definition entry_ok (a : Z * Z) : Prop := 0 <= a.1 < 2 ^ 32 /\ 0 <= a.2 < 2 ^ 32.

Definition frame_ok (c : Z) (f : Frame) : Prop :=
  match f with
  | Plain h d => head_ok c h /\ is_bytes d /\ zlen d < 2 ^ 31
  | Compact w u l => 0 <= w < 65536 /\ 0 <= u < 2 ^ 32 /\ zlen l < 65536 /\ Forall entry_ok l
  end.

Lemma known_range c : known_command c = true -> 81 <= c <= 84.
Proof. unfold known_command, IKCP_CMD_PUSH, IKCP_CMD_ACK, IKCP_CMD_WASK, IKCP_CMD_WINS. intros H. lia. Qed.

Lemma zlen_encode_seg h len : zlen (ikcp_encode_seg h len) = 24.
Proof. unfold ikcp_encode_seg. by rewrite !zlen_app, !zlen_le_encode. Qed.

Lemma drop_zlen_skip {A} (l1 l2 : list A) n : Z.to_nat n = length l1 -> drop (Z.to_nat n) (l1 ++ l2) = l2.
Proof. intros ->. apply drop_app_length. Qed.

Lemma length_entries l : length (concat (map encode_entry l)) = (8 * length l)%nat.
Proof.
  induction l as [| a l IH]; [done |]. cbn [map concat length]. rewrite length_app, IH. unfold encode_entry.
  rewrite length_app, !length_le_encode. lia.
Qed.

Lemma entries_encode l rest : Forall entry_ok l -> entries (length l) (concat (map encode_entry l) ++ rest) = l.
Proof.
  intros H. revert rest. induction H as [| [n stamp] l [Hn Hs] _ IH]; intros rest; [done |]. cbn [length entries map concat]. unfold encode_entry at 1 2 3.
  cbn [fst snd] in *. f_equal.
  - f_equal; by field_of.
  - rewrite <- app_assoc. rewrite (drop_app_length' (le_encode 4 n ++ le_encode 4 stamp)) by (by rewrite length_app, !length_le_encode). apply IH.
Qed.

Lemma frames_of_plain fuel c h d rest : 0 <= c < 2 ^ 32 -> frame_ok c (Plain h d) ->
  frames_of (S fuel) c (encode_frame c (Plain h d) ++ rest)
  = (Plain h d :: (frames_of fuel c rest).1, (frames_of fuel c rest).2).
Proof.
  intros Hc ([Hconv Hcmd Hfrg Hwnd Hts Hsn Huna] & Hb & Hl). pose proof (known_range _ Hcmd) as Hr. cbn [encode_frame].
  set (p := (ikcp_encode_seg h (zlen d) ++ d) ++ rest).
  assert (field p 0 4 = c) as E0 by (unfold p, ikcp_encode_seg; by field_of).
  assert (field p 4 1 = h.(cmd)) as E4 by (unfold p, ikcp_encode_seg; by field_of).
  assert (field p 5 1 = h.(frg)) as E5 by (unfold p, ikcp_encode_seg; by field_of).
  assert (field p 6 2 = h.(wnd)) as E6 by (unfold p, ikcp_encode_seg; by field_of).
  assert (field p 8 4 = h.(ts)) as E8 by (unfold p, ikcp_encode_seg; by field_of).
  assert (field p 12 4 = h.(sn)) as E12 by (unfold p, ikcp_encode_seg; by field_of).
  assert (field p 16 4 = h.(una)) as E16 by (unfold p, ikcp_encode_seg; by field_of).
  pose proof (zlen_nonneg d) as Hd. pose proof (zlen_nonneg rest) as Hrest.
  assert (field p 20 4 = zlen d) as E20 by (unfold p, ikcp_encode_seg; by field_of).
  assert (zlen p = 24 + zlen d + zlen rest) as Hp by (unfold p; rewrite !zlen_app, zlen_encode_seg; lia).
  assert (drop 24 p = d ++ rest) as Hdrop.
  { unfold p. rewrite <- app_assoc. apply drop_app_length'. pose proof (zlen_encode_seg h (zlen d)). unfold zlen in *. lia. }
  cbn [frames_of]. rewrite E0, E4, E5, E6, E8, E12, E16, E20, Hdrop, Hp. unfold IKCP_ACKN_OVERHEAD, IKCP_OVERHEAD, IKCP_CMD_ACKN.
  rewrite (proj2 (Z.ltb_ge _ 13)), Z.eqb_refl, (proj2 (Z.eqb_neq _ 85)), (proj2 (Z.ltb_ge _ 24)) by lia. cbn [negb].
  rewrite (proj2 (Z.ltb_ge _ (zlen d))), s32_small, (proj2 (Z.ltb_ge (zlen d) 0)), Hcmd by lia. cbn [negb orb].
  rewrite zlen_to_nat, drop_app_length, take_app_length. destruct (frames_of fuel c rest), h. cbn in *. by subst.
Qed.

Lemma frames_of_compact fuel c w u l rest : 0 <= c < 2 ^ 32 -> frame_ok c (Compact w u l) ->
  frames_of (S fuel) c (encode_frame c (Compact w u l) ++ rest)
  = (Compact w u l :: (frames_of fuel c rest).1, (frames_of fuel c rest).2).
Proof.
  intros Hc (Hw & Hu & Hl & He). cbn [encode_frame]. pose proof (zlen_nonneg l) as Hn. pose proof (zlen_nonneg rest).
  set (es := concat (map encode_entry l)). assert (zlen es = 8 * zlen l) as Hes by (unfold es, zlen; rewrite length_entries; lia).
  set (p := (le_encode 4 c ++ le_encode 1 IKCP_CMD_ACKN ++ le_encode 2 (zlen l) ++ le_encode 2 w ++ le_encode 4 u ++ es) ++ rest).
  assert (field p 0 4 = c) as E0 by (unfold p; by field_of).
  assert (field p 4 1 = IKCP_CMD_ACKN) as E4 by (unfold p, IKCP_CMD_ACKN; by field_of).
  assert (field p 5 2 = zlen l) as E5 by (unfold p; by field_of).
  assert (field p 7 2 = w) as E7 by (unfold p; by field_of).
  assert (field p 9 4 = u) as E9 by (unfold p; by field_of).
  assert (zlen p = 13 + 8 * zlen l + zlen rest) as Hp by (unfold p; rewrite !zlen_app, !zlen_le_encode; lia).
  assert (drop 13 p = es ++ rest) as H13.
  { unfold p. rewrite !app_assoc, <- app_assoc. apply drop_app_length'. by rewrite !length_app, !length_le_encode. }
  cbn [frames_of]. rewrite E0, E4, E5, E7, E9, H13, Hp, !Z.eqb_refl. unfold IKCP_ACKN_OVERHEAD, IKCP_ACKN_ENTRY.
  rewrite (proj2 (Z.ltb_ge _ 13)), (proj2 (Z.ltb_ge _ (13 + _))) by lia. cbn [negb].
  rewrite zlen_to_nat. unfold es at 1. rewrite entries_encode by done.
  assert (drop (Z.to_nat (13 + zlen l * 8)) p = rest) as ->.
  { replace (Z.to_nat (13 + zlen l * 8)) with (13 + length es)%nat by (unfold zlen in *; lia).
    by rewrite <- drop_drop, H13, drop_app_length. }
  by destruct (frames_of fuel c rest).
Qed.

Lemma frames_of_cons fuel c f rest : 0 <= c < 2 ^ 32 -> frame_ok c f ->
  frames_of (S fuel) c (encode_frame c f ++ rest) = (f :: (frames_of fuel c rest).1, (frames_of fuel c rest).2).
Proof. destruct f; [apply frames_of_plain | apply frames_of_compact]. Qed.

(** Datagrams made of frames that satisfy [Q]. *)
Definition encode_frames (c : Z) (fs : list Frame) : list Z := concat (map (encode_frame c) fs).

Lemma zlen_encode_frame c f : 13 <= zlen (encode_frame c f).
Proof.
  destruct f as [h d | w u l]; cbn [encode_frame].
  - rewrite zlen_app, zlen_encode_seg. pose proof (zlen_nonneg d). lia.
  - rewrite !zlen_app, !zlen_le_encode. pose proof (zlen_nonneg (concat (map encode_entry l))). lia.
Qed.

Lemma frames_of_encode c fs fuel : 0 <= c < 2 ^ 32 -> Forall (frame_ok c) fs -> (length (encode_frames c fs) < fuel)%nat ->
  frames_of fuel c (encode_frames c fs) = (fs, None).
Proof.
  intros Hc H. revert fuel. induction H as [| f fs Hf _ IH]; intros fuel Hl; destruct fuel as [| fuel]; try (simpl in Hl; lia); [done |].
  change (encode_frames c (f :: fs)) with (encode_frame c f ++ encode_frames c fs) in *.
  rewrite frames_of_cons by done. rewrite length_app in Hl. pose proof (zlen_encode_frame c f). unfold zlen in *.
  by rewrite IH by lia.
Qed.

Lemma encode_seg_bytes h len : is_bytes (ikcp_encode_seg h len).
Proof. unfold ikcp_encode_seg. repeat apply is_bytes_app_2; apply le_encode_bytes. Qed.

Lemma encode_entries_bytes l : is_bytes (concat (map encode_entry l)).
Proof.
  induction l as [| a l IH]; cbn [map concat]; [apply is_bytes_nil |].
  apply is_bytes_app_2; [apply is_bytes_app_2; apply le_encode_bytes | done].
Qed.

Lemma encode_frame_bytes c f : frame_ok c f -> is_bytes (encode_frame c f).
Proof.
  destruct f as [h d | w u l]; cbn [encode_frame frame_ok]; intros H.
  - apply is_bytes_app_2; [apply encode_seg_bytes | apply H].
  - repeat apply is_bytes_app_2; try apply le_encode_bytes. apply encode_entries_bytes.
Qed.

Lemma encode_frames_bytes c fs : Forall (frame_ok c) fs -> is_bytes (encode_frames c fs).
Proof.
  induction 1 as [| f fs Hf _ IH]; [apply is_bytes_nil |].
  change (encode_frames c (f :: fs)) with (encode_frame c f ++ encode_frames c fs).
  apply is_bytes_app_2; [by apply encode_frame_bytes | done].
Qed.
