(* ===== verification/KcpState.v ===== *)
(** * KCP: the invariant of one end

    The buffers of an end hold segments whose numbers, seen as integers that grow without
    bound, are in order and within a window.  Every operation keeps this, whatever arrives. *)

From stdpp Require Import sets.
From S2P Require Import Prelude Kcp KcpProofs.

(** ** Lists in order *)

(** The elements have numbers in [lo, hi), in order, with [P]. *)
Inductive numbered {A} (P : Z -> A -> Prop) : Z -> Z -> list A -> Prop :=
| numbered_nil lo hi : lo <= hi -> numbered P lo hi []
| numbered_cons lo hi i a l : lo <= i -> P i a -> numbered P (i + 1) hi l -> numbered P lo hi (a :: l).

Section Numbered.
Context {A : Type}.
Implicit Types (P Q : Z -> A -> Prop) (l : list A).

Lemma numbered_le P lo hi l : numbered P lo hi l -> lo + zlen l <= hi.
Proof. induction 1; rewrite ?zlen_nil, ?zlen_cons; lia. Qed.

Lemma numbered_wider P lo hi lo' hi' l : numbered P lo hi l -> lo' <= lo -> hi <= hi' -> numbered P lo' hi' l.
Proof.
  intros H. revert lo'. induction H as [lo hi H | lo hi i a l Hi Ha H IH]; intros lo' Hlo Hhi.
  - constructor. lia.
  - apply (numbered_cons P _ _ i); [lia | done |]. apply IH; lia.
Qed.

Lemma numbered_mono P Q lo hi l : numbered P lo hi l -> (forall i a, lo <= i < hi -> P i a -> Q i a) -> numbered Q lo hi l.
Proof.
  induction 1 as [lo hi H | lo hi i a l Hi Ha H IH]; intros HPQ; [by constructor |].
  pose proof (numbered_le _ _ _ _ H). pose proof (zlen_nonneg l).
  apply (numbered_cons Q _ _ i); [lia | apply HPQ; [lia | done] |]. apply IH. intros j b ??. apply HPQ; [lia | done].
Qed.

Lemma numbered_in P lo hi l a : numbered P lo hi l -> a ∈ l -> exists i, lo <= i < hi /\ P i a.
Proof.
  induction 1 as [lo hi H | lo hi i b l Hi Hb H IH]; intros Ha; [by apply elem_of_nil in Ha |].
  pose proof (numbered_le _ _ _ _ H). pose proof (zlen_nonneg l).
  apply elem_of_cons in Ha as [-> | Ha]; [exists i; split; [lia | done] |].
  destruct (IH Ha) as (j & ? & ?). exists j. split; [lia | done].
Qed.

Lemma numbered_snoc P lo i l a : numbered P lo i l -> P i a -> numbered P lo (i + 1) (l ++ [a]).
Proof.
  induction 1 as [lo hi H | lo hi j b l Hj Hb H IH]; intros Ha; simpl.
  - apply (numbered_cons P _ _ hi); [done | done |]. constructor. lia.
  - apply (numbered_cons P _ _ j); [done | done |]. by apply IH.
Qed.

Lemma numbered_app P lo hi l1 l2 : numbered P lo hi (l1 ++ l2) <-> exists m, lo <= m <= hi /\ numbered P lo m l1 /\ numbered P m hi l2.
Proof.
  revert lo. induction l1 as [| a l1 IH]; intros lo; simpl; split.
  - intros H. exists lo. pose proof (numbered_le _ _ _ _ H). pose proof (zlen_nonneg l2). split; [lia |]. split; [constructor; lia | done].
  - intros (m & Hm & _ & H). apply (numbered_wider P m hi); [done | lia | lia].
  - inversion 1 as [| ? ? i ? ? Hi Ha H']; subst. apply IH in H' as (m & Hm & H1 & H2). exists m. split; [lia |].
    split; [by apply (numbered_cons P _ _ i) | done].
  - intros (m & Hm & H1 & H2). inversion H1 as [| ? ? i ? ? Hi Ha H']; subst. apply (numbered_cons P _ _ i); [done | done |].
    apply IH. exists m. pose proof (numbered_le _ _ _ _ H'). pose proof (zlen_nonneg l1). split; [lia | done].
Qed.

Lemma numbered_sublist P lo hi l l' : numbered P lo hi l -> sublist l' l -> numbered P lo hi l'.
Proof.
  intros H. revert l'. induction H as [lo hi H | lo hi i a l Hi Ha H IH]; intros l' Hs.
  - apply sublist_nil_r in Hs as ->. by constructor.
  - apply sublist_cons_r in Hs as [Hs | (l2 & -> & Hs)].
    + eapply numbered_wider; [by apply IH | lia | lia].
    + apply (numbered_cons P _ _ i); [done | done | by apply IH].
Qed.

Lemma numbered_map {B} (f : A -> B) (P : Z -> B -> Prop) lo hi l :
  numbered P lo hi (map f l) <-> numbered (fun i a => P i (f a)) lo hi l.
Proof.
  revert lo. induction l as [| a l IH]; intros lo; simpl; split; inversion 1; subst; try (by constructor);
    eapply numbered_cons; eauto; by apply IH.
Qed.
End Numbered.

Lemma zlen_one {A} (a : A) : zlen [a] = 1.
Proof. done. Qed.

(** The elements have the numbers from [lo] on, without a gap. *)
Fixpoint consecutive {A} (P : Z -> A -> Prop) (lo : Z) (l : list A) : Prop :=
  match l with
  | [] => True
  | a :: l => P lo a /\ consecutive P (lo + 1) l
  end.

Lemma consecutive_snoc {A} (P : Z -> A -> Prop) lo l a :
  consecutive P lo l -> P (lo + zlen l) a -> consecutive P lo (l ++ [a]).
Proof.
  revert lo. induction l as [| b l IH]; intros lo; simpl; rewrite ?zlen_nil, ?zlen_cons; intros H Ha.
  - by rewrite Z.add_0_r in Ha.
  - destruct H as [Hb H]. split; [done |]. apply IH; [done |]. by replace (lo + 1 + zlen l) with (lo + (1 + zlen l)) by lia.
Qed.

(** ** The receiver *)

Abbreviation WND_MAX := 65536.

Definition seg_ok (s : Segment) : Prop := 0 <= s.(head).(frg) < 256 /\ zlen s.(data) < 65536.

Definition has_number (i : Z) (s : Segment) : Prop := s.(head).(sn) = u32 i.

Record rx_ok (P : Z -> Segment -> Prop) (R : Z) (r : Rx) : Prop := {
  rx_start : 0 <= R;
  rx_nxt : r.(rcv_nxt) = u32 R;
  rx_buf : numbered P R (R + WND_MAX) r.(rcv_buf);
  rx_buf_count : r.(nrcv_buf) = zlen r.(rcv_buf);
  rx_que_count : r.(nrcv_que) = zlen r.(rcv_queue);
  rx_que_max : zlen r.(rcv_queue) <= 65535;
  rx_segs : Forall seg_ok (r.(rcv_queue) ++ r.(rcv_buf));
  rx_acks : Forall entry_ok r.(acklist);
  rx_block : zlen r.(acklist) <= r.(ackblock)
}.

Section Receiver.
Context (P : Z -> Segment -> Prop) (P_number : forall i s, P i s -> has_number i s).

(** From the back, the place of a number in a list in order. *)
Lemma insert_back_ok i new lo hi l : 0 <= hi - lo < 2 ^ 31 -> numbered P lo hi l -> P i new -> lo <= i < hi ->
  match insert_back new (rev l) with
  | Some l' => numbered P lo hi (rev l') /\ Permutation (rev l') (new :: l)
  | None => exists s, s ∈ l /\ has_number i s
  end.
Proof.
  intros Hw Hl Hnew Hi. revert hi Hw Hl Hi. induction l as [| s l IH] using rev_ind; intros hi Hw Hl Hi.
  - simpl. split; [| done]. apply (numbered_cons P _ _ i); [lia | done |]. constructor. lia.
  - rewrite rev_unit. cbn [insert_back]. apply numbered_app in Hl as (m & Hm & Hl & Hs).
    inversion Hs as [| ? ? j ? ? Hj HPj Hnil]; subst. inversion Hnil; subst.
    pose proof (P_number _ _ HPj) as Ej. pose proof (P_number _ _ Hnew) as Ei. unfold has_number in Ej, Ei. rewrite Ej, Ei.
    destruct (u32 j =? u32 i) eqn:E; [exists s; split; [set_solver |]; unfold has_number; lia |].
    assert (i <> j) as Hne by (intros ->; by rewrite Z.eqb_refl in E). rewrite itimediff_u32 by lia.
    destruct (i - j >? 0) eqn:E2.
    + cbn [rev]. rewrite rev_involutive. split; [| by rewrite Permutation_app_comm]. rewrite <- app_assoc. apply numbered_app. exists m.
      split; [lia |]. split; [done |]. simpl. apply (numbered_cons P _ _ j); [done | done |].
      apply (numbered_cons P _ _ i); [lia | done |]. constructor. lia.
    + assert (i < j) as Hlt by lia.
      assert (numbered P lo j l) as Hl' by (apply (numbered_wider P lo m); [done | lia | lia]).
      specialize (IH j ltac:(lia) Hl' ltac:(lia)).
      destruct (insert_back new (rev l)) as [l' |]; cbn [mbind option_bind].
      * destruct IH as [IH1 IH2]. cbn [rev]. split; [| by rewrite IH2].
        eapply numbered_wider; [apply numbered_snoc; [done | exact HPj] | lia | lia].
      * destruct IH as (x & Hx & Hn). exists x. split; [set_solver | done].
Qed.

(** Number [i] has arrived. *)
Definition has (R : Z) (r : Rx) (i : Z) : Prop := i < R \/ R <= i < R + WND_MAX /\ exists s, s ∈ r.(rcv_buf) /\ P i s.

(** What waits for the user and what waits for its turn fit a window of [W]. *)
Definition fitting (W R : Z) (r : Rx) : Prop := zlen r.(rcv_queue) <= W /\ numbered P R (R + W) r.(rcv_buf).

(** [l] has gone from the buffer to the queue, and nothing that has arrived is lost. *)
Record moved (l : list Segment) (R : Z) (r r' : Rx) : Prop := {
  moved_ok : rx_ok P (R + zlen l) r';
  moved_next : consecutive P R l;
  moved_queue : r'.(rcv_queue) = r.(rcv_queue) ++ l;
  moved_acks : r'.(acklist) = r.(acklist);
  moved_has : forall i, has R r i -> has (R + zlen l) r' i;
  moved_split : r.(rcv_buf) = l ++ r'.(rcv_buf)
}.

Lemma consecutive_in lo l s : consecutive P lo l -> s ∈ l -> exists i, lo <= i < lo + zlen l /\ P i s.
Proof.
  revert lo. induction l as [| a l IH]; intros lo H Hs; [by apply elem_of_nil in Hs |]. rewrite zlen_cons. pose proof (zlen_nonneg l).
  destruct H as [Ha H]. apply elem_of_cons in Hs as [-> | Hs]; [exists lo; split; [lia | done] |].
  destruct (IH _ H Hs) as (i & ? & ?). exists i. split; [lia | done].
Qed.

(** The first segment of the buffer is the next one, and there is room. *)
Lemma move_one s buf r R : r.(rcv_buf) = s :: buf -> rx_ok P R r -> s.(head).(sn) = r.(rcv_nxt) -> r.(nrcv_que) < 65535 ->
  let r' := mkRx (u32 (r.(rcv_nxt) + 1)) (r.(rcv_queue) ++ [s]) (u32 (r.(nrcv_que) + 1)) buf (u32 (r.(nrcv_buf) - 1))
              r.(acklist) r.(ackblock) in
  moved [s] R r r'.
Proof.
  intros Eb [H0 Hn Hb Hc Hq Hm Hs Ha Hk] E Hlt r'. rewrite Eb in *. inversion Hb as [| ? ? i ? ? Hi HPi Hl]; subst.
  pose proof (numbered_le _ _ _ _ Hl) as Hle. pose proof (zlen_nonneg buf) as Hz. pose proof (zlen_nonneg (rcv_queue r)).
  assert (i = R) as -> by (apply u32_inj; [lia |]; rewrite <- (P_number _ _ HPi); congruence).
  split; rewrite ?zlen_one.
  - split; cbn [r' rcv_nxt rcv_buf nrcv_buf nrcv_que rcv_queue acklist ackblock]; [lia | by rewrite Hn, u32_add | | | | | | done | done].
    + apply (numbered_wider P (R + 1) (R + 65536)); [done | lia | lia].
    + rewrite Hc, zlen_cons, u32_small; lia.
    + rewrite Hq, zlen_app, zlen_one, u32_small; lia.
    + rewrite zlen_app, zlen_one. lia.
    + by rewrite <- app_assoc.
  - done.
  - done.
  - done.
  - intros i [Hi' | (Hi' & x & Hx & HPx)]; [left; lia |]. rewrite Eb in Hx. apply elem_of_cons in Hx as [-> | Hx].
    + left. assert (i = R); [| lia]. apply u32_inj; [lia |]. by rewrite <- (P_number _ _ HPx), <- (P_number _ _ HPi).
    + destruct (decide (i = R)); [left; lia |]. right. split; [lia |]. by exists x.
  - done.
Qed.

Lemma moved_none R r : rx_ok P R r -> moved [] R r r.
Proof. intros H. split; rewrite ?zlen_nil, ?Z.add_0_r, ?app_nil_r; done. Qed.

Lemma consecutive_app lo l1 l2 : consecutive P lo (l1 ++ l2) <-> consecutive P lo l1 /\ consecutive P (lo + zlen l1) l2.
Proof.
  revert lo. induction l1 as [| a l1 IH]; intros lo; simpl; rewrite ?zlen_nil, ?zlen_cons, ?Z.add_0_r; [tauto |].
  rewrite IH. replace (lo + 1 + zlen l1) with (lo + (1 + zlen l1)) by lia. tauto.
Qed.

Lemma moved_trans l1 l2 R r1 r2 r3 : moved l1 R r1 r2 -> moved l2 (R + zlen l1) r2 r3 -> moved (l1 ++ l2) R r1 r3.
Proof.
  intros [H1 C1 Q1 A1 S1 B1] [H2 C2 Q2 A2 S2 B2]. split; rewrite ?zlen_app, ?Z.add_assoc; [done | | | congruence | |].
  - by apply consecutive_app.
  - by rewrite Q2, Q1, app_assoc.
  - auto.
  - by rewrite B1, B2, app_assoc.
Qed.

Lemma move_ready_ok wnd buf r R : wnd <= 65535 -> r.(rcv_buf) = buf -> rx_ok P R r ->
  exists l, moved l R r (move_ready wnd buf r) /\ forall W, wnd <= W -> fitting W R r -> fitting W (R + zlen l) (move_ready wnd buf r).
Proof.
  intros Hw. revert r R. induction buf as [| s buf IH]; intros r R Eb H; cbn [move_ready];
    [exists []; split; [by apply moved_none | by rewrite zlen_nil, Z.add_0_r] |].
  destruct (_ && _) eqn:E; [| exists []; split; [by apply moved_none | by rewrite zlen_nil, Z.add_0_r]]. apply andb_true_iff in E as [E1 E2].
  apply Z.eqb_eq in E1. apply Z.ltb_lt in E2. pose proof (move_one s buf r R Eb H E1 ltac:(lia)) as M.
  cbv zeta in M. match type of M with moved _ _ _ ?r' => destruct (IH r' (R + zlen [s]) eq_refl (moved_ok _ _ _ _ M)) as (l & Ml & Fl) end.
  exists ([s] ++ l). split; [by eapply moved_trans |]. intros W HW [Fq Fb]. rewrite zlen_app, zlen_one, Z.add_assoc. rewrite zlen_one in Fl.
  apply Fl; [done |]. split; cbn [rcv_queue rcv_buf].
  - rewrite zlen_app, zlen_one. rewrite (rx_que_count _ _ _ H) in E2. lia.
  - rewrite Eb in Fb. inversion Fb as [| ? ? i ? ? Hi HPi Hl]; subst. destruct H as [_ Hn Hb _ _ _ _ _ _].
    pose proof (numbered_le _ _ _ _ Hl). pose proof (zlen_nonneg buf). apply (numbered_wider P (i + 1) (R + W)); [done | lia | lia].
Qed.

(** A new segment, whose number is near [R]. *)
Lemma parse_data_ok i new k R : 1 <= k.(cfg).(rcv_wnd) <= 65535 -> rx_ok P R k.(rx) -> P i new -> seg_ok new ->
  - 2 ^ 31 + WND_MAX <= i - R < 2 ^ 31 -> let k' := ikcp_parse_data new k in
  k' = with_rx k'.(rx) k /\ exists l, rx_ok P (R + zlen l) k'.(rx) /\ consecutive P R l /\ (forall j, has R k.(rx) j -> has (R + zlen l) k'.(rx) j)
    /\ (i < R + k.(cfg).(rcv_wnd) -> has (R + zlen l) k'.(rx) i)
    /\ (forall W, k.(cfg).(rcv_wnd) <= W <= WND_MAX -> fitting W R k.(rx) -> fitting W (R + zlen l) k'.(rx))
    /\ k'.(rx).(acklist) = k.(rx).(acklist) /\ k'.(rx).(rcv_queue) = k.(rx).(rcv_queue) ++ l
    /\ forall s, s ∈ l ++ k'.(rx).(rcv_buf) -> s ∈ k.(rx).(rcv_buf) \/ s = new.
Proof.
  intros Hw H HP Hs Hi. pose proof H as [H0 Hn Hb Hc Hq Hm Hss Ha Hk]. cbv zeta. unfold ikcp_parse_data. cbv zeta.
  replace (_itimediff (sn (head new)) (u32 (rcv_nxt (rx k) + rcv_wnd (cfg k)))) with (i - (R + rcv_wnd (cfg k)))
    by (rewrite (P_number _ _ HP), Hn, u32_add, itimediff_u32; lia).
  replace (_itimediff (sn (head new)) (rcv_nxt (rx k))) with (i - R) by (rewrite (P_number _ _ HP), Hn, itimediff_u32; lia).
  destruct (_ || _) eqn:E.
  { split; [by destruct k |]. exists []. rewrite zlen_nil, Z.add_0_r, app_nil_r. do 3 (split; [done |]). split; [| split; [done |]; split; [done |]; split; [done |]; by left].
    intros Hlt. left. apply orb_true_iff in E. lia. }
  apply orb_false_iff in E as [E1 E2]. split; [done |]. cbn [rx with_rx].
  pose proof (insert_back_ok i new R (R + WND_MAX) (rcv_buf (rx k)) ltac:(lia) Hb HP ltac:(lia)) as Hins.
  destruct (insert_back new _) as [l |] eqn:Eins.
  - destruct Hins as [Hnum Hperm]. set (r1 := mkRx _ _ _ (rev l) _ _ _).
    assert (zlen (rev l) = 1 + zlen (rcv_buf (rx k))) as Hlen by (unfold zlen; rewrite (Permutation_length Hperm); simpl; lia).
    pose proof (numbered_le _ _ _ _ Hb) as Hle. pose proof (zlen_nonneg (rcv_buf (rx k))) as Hz.
    assert (rx_ok P R r1) as H1.
    { split; cbn [r1 rcv_nxt rcv_buf nrcv_buf nrcv_que rcv_queue acklist ackblock]; try done.
      - rewrite Hc, Hlen, u32_small; lia.
      - apply Forall_app in Hss as [? ?]. apply Forall_app. split; [done |]. rewrite Hperm. by constructor. }
    destruct (move_ready_ok (rcv_wnd (cfg k)) (rev l) r1 R ltac:(lia) eq_refl H1) as (m & M & Fm). exists m.
    assert (forall j, has R (rx k) j -> has R r1 j) as Hmono.
    { intros j [Hj | (Hj & s & Hin & HPs)]; [by left |]. right. split; [done |]. exists s. split; [| done]. cbn [r1 rcv_buf]. rewrite Hperm. set_solver. }
    pose proof M as [M1 M2 M3 M4 M5 M6]. split; [done |]. split; [done |]. split; [by auto |]. split; [| split; [| split; [done |]; split; [done |]]].
    + intros Hlt. apply M5. right. split; [lia |]. exists new. split; [cbn [r1 rcv_buf]; rewrite Hperm; set_solver | done].
    + intros W HW [Fq Fb]. apply Fm; [lia |]. split; [done |]. cbn [r1 rcv_buf].
      pose proof (insert_back_ok i new R (R + W) (rcv_buf (rx k)) ltac:(lia) Fb HP ltac:(lia)) as Hw'. rewrite Eins in Hw'. apply Hw'.
    + intros s Hx. change (s ∈ m ++ rcv_buf (move_ready (rcv_wnd (cfg k)) (rev l) r1)) in Hx. rewrite <- M6 in Hx. cbn [r1 rcv_buf] in Hx. rewrite Hperm in Hx.
      apply elem_of_cons in Hx as [-> | Hx]; [by right | by left].
  - destruct Hins as (s & Hin & Hnum). destruct (move_ready_ok (rcv_wnd (cfg k)) _ (rx k) R ltac:(lia) eq_refl H) as (m & M & Fm). exists m.
    pose proof M as [M1 M2 M3 M4 M5 M6]. split; [done |]. split; [done |]. split; [done |].
    split; [| split; [intros W HW; apply Fm; lia |]; split; [done |]; split; [done |]; intros x Hx; left; by rewrite M6]. intros Hlt. apply M5. right. split; [lia |]. exists s. split; [done |].
    destruct (numbered_in _ _ _ _ _ Hb Hin) as (j & Hj & HPj).
    assert (i = j) as ->; [| done]. apply u32_inj; [lia |]. by rewrite <- Hnum, <- (P_number _ _ HPj).
Qed.
End Receiver.

(** ** The sender *)

(** [h] is everything that was numbered so far; segment [i] carries its [i]th chunk. *)
Definition sent_as (c : Z) (h : list Chunk) (i : Z) (s : Sending) : Prop :=
  let hd := s.(seg).(head) in
  hd.(conv) = c /\ hd.(cmd) = IKCP_CMD_PUSH /\ hd.(sn) = u32 i /\ 0 <= i /\ h !! Z.to_nat i = Some (hd.(frg), s.(seg).(data)).

Definition same_core (s s' : Sending) : Prop :=
  let hd := s.(seg).(head) in let hd' := s'.(seg).(head) in
  hd'.(conv) = hd.(conv) /\ hd'.(cmd) = hd.(cmd) /\ hd'.(sn) = hd.(sn) /\ hd'.(frg) = hd.(frg) /\ s'.(seg).(data) = s.(seg).(data).

Lemma sent_as_core c h i s s' : same_core s s' -> sent_as c h i s -> sent_as c h i s'.
Proof. intros (E1 & E2 & E3 & E4 & E5). unfold sent_as. rewrite E1, E2, E3, E4, E5. done. Qed.

Lemma numbered_core c h lo hi l l' : Forall2 same_core l l' -> numbered (sent_as c h) lo hi l -> numbered (sent_as c h) lo hi l'.
Proof.
  intros H. revert lo. induction H as [| s s' l l' Hs _ IH]; intros lo Hn; [by inversion Hn; constructor |].
  inversion Hn as [| ? ? i ? ? Hi HP Hl]; subst. apply (numbered_cons _ _ _ i); [done | by eapply sent_as_core | by apply IH].
Qed.

Definition chunk_ok (c : Chunk) : Prop := 0 <= c.1 < 128 /\ is_bytes c.2.

Record tx_ok (c : Z) (h : list Chunk) (U : Z) (t : Tx) : Prop := {
  tx_start : 0 <= U;
  tx_window : zlen h - U <= WND_MAX;
  tx_una : t.(snd_una) = u32 U;
  tx_nxt : t.(snd_nxt) = u32 (zlen h);
  tx_buf : numbered (sent_as c h) U (zlen h) t.(snd_buf);
  tx_buf_count : t.(nsnd_buf) = zlen t.(snd_buf);
  tx_que_count : t.(nsnd_que) = u32 (zlen t.(snd_queue));
  tx_chunks : Forall chunk_ok (h ++ t.(snd_queue))
}.

Definition rtt_ok (r : Rtt) : Prop := 0 <= r.(rx_srtt) < 2 ^ 28 /\ 0 <= r.(rx_rttval) < 2 ^ 28.

Definition win_ok (w : Window) : Prop := 0 <= w.(cwnd) /\ 0 <= w.(rmt_wnd).

Lemma same_core_refl s : same_core s s.
Proof. done. Qed.

Lemma same_core_trans s1 s2 s3 : same_core s1 s2 -> same_core s2 s3 -> same_core s1 s3.
Proof. unfold same_core. intuition congruence. Qed.

(** Every segment of [l'] comes from [l]. *)
Definition from (l l' : list Sending) : Prop := forall s', s' ∈ l' -> exists s, s ∈ l /\ same_core s s'.

Lemma from_refl l : from l l.
Proof. intros s Hs. by exists s. Qed.

Lemma from_trans l1 l2 l3 : from l1 l2 -> from l2 l3 -> from l1 l3.
Proof.
  intros H1 H2 s3 Hs. destruct (H2 _ Hs) as (s2 & Hs2 & E2). destruct (H1 _ Hs2) as (s1 & Hs1 & E1).
  exists s1. split; [done |]. by eapply same_core_trans.
Qed.

Lemma from_sublist l l' : sublist l' l -> from l l'.
Proof. intros H s Hs. exists s. split; [by eapply elem_of_sublist | done]. Qed.

Lemma sublist_zlen {A} (l l' : list A) : sublist l' l -> zlen l' <= zlen l.
Proof. intros H. apply sublist_length in H. unfold zlen. lia. Qed.

Lemma from_core l l' : Forall2 same_core l l' -> from l l' /\ forall s, s ∈ l -> exists s', s' ∈ l' /\ same_core s s'.
Proof.
  intros H. split; intros s Hs; apply list_elem_of_lookup in Hs as [i Hi].
  - destruct (Forall2_lookup_r _ _ _ _ _ H Hi) as (x & Hx & E). exists x. split; [by eapply list_elem_of_lookup_2 | done].
  - destruct (Forall2_lookup_l _ _ _ _ _ H Hi) as (x & Hx & E). exists x. split; [by eapply list_elem_of_lookup_2 | done].
Qed.

(** What acknowledgements change: [snd_buf], [snd_una], round trip times, windows and the
    statistics. *)
Record acked k k' : Prop := {
  acked_cfg : k'.(cfg) = k.(cfg);
  acked_rx : k'.(rx) = k.(rx);
  acked_clock : k'.(clock) = k.(clock);
  acked_allocs : k'.(allocs) = k.(allocs);
  acked_rtt : rtt_ok k.(rtt) -> rtt_ok k'.(rtt);
  acked_win : win_ok k.(win) -> win_ok k'.(win);
  acked_queue : k'.(tx).(snd_queue) = k.(tx).(snd_queue);
  acked_buf : from k.(tx).(snd_buf) k'.(tx).(snd_buf);
  acked_fewer : zlen k'.(tx).(snd_buf) <= zlen k.(tx).(snd_buf)
}.

Lemma acked_refl k : acked k k.
Proof. split; try done. apply from_refl. Qed.

Lemma acked_trans k1 k2 k3 : acked k1 k2 -> acked k2 k3 -> acked k1 k3.
Proof. intros [] []. split; try congruence; [auto.. | | lia]. by eapply from_trans. Qed.

Lemma acked_retired s k : acked k (ikcp_note_seg_retired s k) /\ (ikcp_note_seg_retired s k).(tx) = k.(tx).
Proof. unfold ikcp_note_seg_retired. repeat case_match; (split; [| done]); split; try done; apply from_refl. Qed.

Lemma shrink_ok c h U k : tx_ok c h U k.(tx) -> let k' := ikcp_shrink_buf k in
  acked k k' /\ k'.(tx).(snd_buf) = k.(tx).(snd_buf) /\ exists U', U <= U' /\ tx_ok c h U' k'.(tx).
Proof.
  intros [H0 Hw Hu Hn Hb Hc Hq Hk] k'. split; [split; try done; apply from_refl |]. split; [done |]. unfold k', ikcp_shrink_buf.
  destruct (snd_buf (tx k)) as [| s l] eqn:E; cbn [tx with_tx with_sending].
  - exists (zlen h). pose proof (numbered_le _ _ _ _ Hb) as Hle. rewrite zlen_nil in Hle. split; [lia |].
    split; cbn [snd_una snd_nxt snd_buf nsnd_buf nsnd_que snd_queue]; try done; try lia. constructor. lia.
  - inversion Hb as [| ? ? i ? ? Hi HP Hl]; subst. exists i. split; [done |].
    split; cbn [snd_una snd_nxt snd_buf nsnd_buf nsnd_que snd_queue]; try done; try lia; [apply HP |].
    by apply (numbered_cons _ _ _ i).
Qed.

Lemma tx_ok_buf c h U k l : tx_ok c h U k.(tx) -> numbered (sent_as c h) U (zlen h) l ->
  tx_ok c h U (with_sending k.(tx).(snd_una) l (zlen l) k).(tx).
Proof. intros [] H. by split. Qed.

Lemma retire_before_ok c h U n l k : k.(tx).(snd_buf) = l -> tx_ok c h U k.(tx) -> let k' := retire_before n l k in
  acked k k' /\ tx_ok c h U k'.(tx)
  /\ forall s, s ∈ l -> s ∈ k'.(tx).(snd_buf) \/ _itimediff n (seg_sn s) > 0.
Proof.
  revert k. induction l as [| s l IH]; intros k El H; cbn [retire_before]; cbv zeta; [split; [apply acked_refl |]; split; [done |]; set_solver |].
  destruct (_ >? 0) eqn:E; [| split; [apply acked_refl |]; split; [done |]; rewrite El; by left].
  destruct (acked_retired s k) as [A T]. set (k1 := ikcp_note_seg_retired s k) in *.
  pose proof H as [H0 Hw Hu Hn Hb Hc Hq Hk]. rewrite El in Hb, Hc. inversion Hb as [| ? ? i ? ? Hi HP Hl]; subst.
  assert (zlen l = u32 (nsnd_buf (tx k1) - 1)) as En.
  { rewrite T, Hc, zlen_cons. pose proof (numbered_le _ _ _ _ Hl). pose proof (zlen_nonneg l). rewrite u32_small; lia. }
  rewrite <- En. set (k2 := with_sending _ _ _ k1).
  assert (tx_ok c h U k2.(tx)) as H2.
  { apply tx_ok_buf; [by rewrite T |]. apply (numbered_wider _ (i + 1) (zlen h)); [done | lia | lia]. }
  destruct (IH k2 eq_refl H2) as (A2 & T2 & R2). split.
  - eapply acked_trans; [exact A |]. eapply acked_trans; [| exact A2]. split; try done; [apply from_sublist | apply sublist_zlen]; cbn; rewrite T, El; by constructor.
  - split; [done |]. intros x Hx. apply elem_of_cons in Hx as [-> | Hx]; [right; lia | by apply R2].
Qed.

Lemma heard_ok c h U w u k : 0 <= w -> tx_ok c h U k.(tx) -> let k' := heard w u k in
  acked k k' /\ (exists U', U <= U' /\ tx_ok c h U' k'.(tx))
  /\ forall s, s ∈ k.(tx).(snd_buf) -> s ∈ k'.(tx).(snd_buf) \/ _itimediff u (seg_sn s) > 0.
Proof.
  intros Hw H. cbv zeta. unfold heard, ikcp_parse_una. set (k1 := with_rmt w k).
  assert (acked k k1) as A1. { split; try done; [by intros [? _] |]. apply from_refl. }
  destruct (retire_before_ok c h U u (snd_buf (tx k1)) k1 eq_refl H) as (A2 & H2 & R2).
  destruct (shrink_ok c h U _ H2) as (A3 & E3 & H3). split; [by do 2 (eapply acked_trans; [eassumption |]) |].
  split; [done |]. rewrite E3. exact R2.
Qed.

Lemma find_acked_spec n l s l' : find_acked n l = Some (s, l') ->
  sublist l' l /\ n = seg_sn s /\ zlen l = 1 + zlen l' /\ forall x, x ∈ l -> x ∈ l' \/ x = s.
Proof.
  revert l'. induction l as [| y l IH]; intros l' H; cbn [find_acked] in H; [done |].
  destruct (n =? seg_sn y) eqn:E; [injection H as <- <- |].
  - split; [by constructor |]. split; [lia |]. split; [apply zlen_cons |]. set_solver.
  - destruct (_ <? 0); [done |]. destruct (find_acked n l) as [[x l2] |]; cbn in H; [| done]. injection H as <- <-.
    destruct (IH _ eq_refl) as (H1 & H2 & H3 & H4). split; [by constructor |]. split; [done |]. rewrite !zlen_cons.
    split; [lia |]. set_solver.
Qed.

Lemma parse_ack_ok c h U n k : tx_ok c h U k.(tx) -> let k' := ikcp_parse_ack n k in
  acked k k' /\ tx_ok c h U k'.(tx)
  /\ forall s, s ∈ k.(tx).(snd_buf) -> s ∈ k'.(tx).(snd_buf) \/ seg_sn s = n.
Proof.
  intros H. cbv zeta. unfold ikcp_parse_ack. destruct (in_flight n k); [| split; [apply acked_refl | by auto]].
  destruct (find_acked n _) as [[s l] |] eqn:E; [| split; [apply acked_refl | by auto]].
  apply find_acked_spec in E as (Hsub & Hn & Hlen & Hin). destruct (acked_retired s k) as [A T].
  set (k1 := ikcp_note_seg_retired s k) in *. pose proof H as [H0 Hw Hu Hnx Hb Hc Hq Hk].
  assert (u32 (nsnd_buf (tx k1) - 1) = zlen l) as ->.
  { rewrite T, Hc, Hlen. pose proof (numbered_le _ _ _ _ Hb). pose proof (zlen_nonneg l). rewrite u32_small; lia. }
  split.
  - eapply acked_trans; [exact A |]. split; try done; [apply from_sublist | apply sublist_zlen]; cbn; by rewrite T.
  - split; [apply tx_ok_buf; [by rewrite T | by eapply numbered_sublist] |].
    intros x Hx. destruct (Hin _ Hx) as [? | ->]; [by left | by right].
Qed.

Lemma int32_small z : - 2 ^ 31 <= z < 2 ^ 31 -> int32 z = Ret z.
Proof. intros H. unfold int32. by rewrite (proj2 (Z.leb_le _ _)), (proj2 (Z.ltb_lt _ _)) by lia. Qed.

Lemma update_ack_ok sample k : 0 <= sample < 2 ^ 28 -> rtt_ok k.(rtt) ->
  exists r, ikcp_update_ack sample k = Ret (with_rtt r k) /\ rtt_ok r
    /\ (0 <= k.(cfg).(rx_minrto) <= IKCP_RTO_MAX -> k.(cfg).(rx_minrto) <= r.(rx_rto) <= IKCP_RTO_MAX).
Proof.
  intros Hs [[Ha1 Ha2] [Hb1 Hb2]].
  assert (forall srtt rttval, 0 <= srtt < 2 ^ 28 -> 0 <= rttval < 2 ^ 28 ->
    exists r, (four ← int32 (4 * rttval);
       let rto := s32 (u32 (srtt + _imax_ k.(cfg).(interval) (u32 four))) in
       Ret (with_rtt (mkRtt srtt rttval (s32 (_ibound_ (u32 k.(cfg).(rx_minrto)) (u32 rto) IKCP_RTO_MAX))) k)) = Ret (with_rtt r k)
    /\ rtt_ok r /\ (0 <= k.(cfg).(rx_minrto) <= IKCP_RTO_MAX -> k.(cfg).(rx_minrto) <= r.(rx_rto) <= IKCP_RTO_MAX)) as fin.
  { intros srtt rttval H1 H2. rewrite int32_small by lia. cbn [mbind result_bind]. eexists. split; [done |]. split; [done |].
    cbn [rx_rto]. unfold IKCP_RTO_MAX. intros Hm. pose proof (u32_range (s32 (u32 (srtt + _imax_ (interval (cfg k)) (u32 (4 * rttval)))))) as Hr.
    rewrite (u32_small (rx_minrto _)) by lia. unfold _ibound_, _imin_, _imax_ in *. rewrite s32_small by (repeat case_match; lia).
    repeat case_match; lia. }
  unfold ikcp_update_ack. destruct (rx_srtt (rtt k) =? 0); cbn [mbind result_bind].
  - apply fin; [lia |]. rewrite Z.quot_div_nonneg by lia. split; [apply Z.div_pos; lia | apply Z.div_lt_upper_bound; lia].
  - do 4 (rewrite int32_small by lia; cbn [mbind result_bind]). rewrite (Z.quot_div_nonneg _ 4), (Z.quot_div_nonneg _ 8) by lia.
    pose proof (Z.div_pos (3 * rx_rttval (rtt k) + Z.abs (sample - rx_srtt (rtt k))) 4).
    pose proof (Z.div_lt_upper_bound (3 * rx_rttval (rtt k) + Z.abs (sample - rx_srtt (rtt k))) 4 (2 ^ 28)).
    pose proof (Z.div_lt_upper_bound (7 * rx_srtt (rtt k) + sample) 8 (2 ^ 28)).
    apply fin; [case_match; lia |]. rewrite s32_small; lia.
Qed.

(** The time stamp of an acknowledgement is not older than three days. *)
Definition timely k (stamp : Z) : Prop := _itimediff k.(clock).(current) stamp < 2 ^ 28.

Lemma feed_ok c h U n stamp m k : tx_ok c h U k.(tx) -> rtt_ok k.(rtt) -> timely k stamp ->
  exists m' k', ikcp_ack_feed n stamp m k = Ret (m', k') /\ acked k k' /\ (exists U', U <= U' /\ tx_ok c h U' k'.(tx))
    /\ forall s, s ∈ k.(tx).(snd_buf) -> s ∈ k'.(tx).(snd_buf) \/ seg_sn s = n.
Proof.
  intros H Hr Ht. unfold ikcp_ack_feed. unfold timely in Ht.
  assert (exists k1, (if _itimediff (current (clock k)) stamp >=? 0 then ikcp_update_ack (_itimediff (current (clock k)) stamp) k
                      else Ret k) = Ret k1 /\ acked k k1 /\ k1.(tx) = k.(tx)) as (k1 & -> & A1 & T1).
  { destruct (_ >=? 0) eqn:E; [| exists k; split; [done |]; split; [apply acked_refl | done]].
    destruct (update_ack_ok (_itimediff (current (clock k)) stamp) k) as (r & -> & Hrk & _); [lia | done |].
    eexists. split; [done |]. split; [| done]. split; try done. apply from_refl. }
  cbn [mbind result_bind]. rewrite <- T1 in H. destruct (parse_ack_ok c h U n k1 H) as (A2 & H2 & R2).
  destruct (shrink_ok c h U _ H2) as (A3 & E3 & H3). eexists _, _. split; [done |].
  split; [by do 2 (eapply acked_trans; [eassumption |]) |]. split; [done |]. rewrite E3, <- T1. exact R2.
Qed.

Lemma run_acks_ok c h U l m k : tx_ok c h U k.(tx) -> rtt_ok k.(rtt) -> Forall (fun a => timely k a.2) l ->
  exists m' k', run_acks l m k = Ret (m', k') /\ acked k k' /\ (exists U', U <= U' /\ tx_ok c h U' k'.(tx))
    /\ forall s, s ∈ k.(tx).(snd_buf) -> s ∈ k'.(tx).(snd_buf) \/ seg_sn s ∈ l.*1.
Proof.
  revert U m k. induction l as [| [n stamp] l IH]; intros U m k H Hr Hl; cbn [run_acks].
  - exists m, k. split; [done |]. split; [apply acked_refl |]. split; [by exists U | by left].
  - apply Forall_cons_iff in Hl as [Ha Hl]. destruct (feed_ok c h U n stamp m k H Hr Ha) as (m1 & k1 & -> & A1 & (U1 & HU1 & H1) & R1).
    cbn [mbind result_bind]. assert (Forall (fun a => timely k1 a.2) l) as Hl1.
    { eapply Forall_impl; [| exact Hl]. unfold timely. by rewrite (acked_clock _ _ A1). }
    destruct (IH U1 m1 k1 H1 (acked_rtt _ _ A1 Hr) Hl1) as (m2 & k2 & E & A2 & (U2 & HU2 & H2) & R2).
    exists m2, k2. split; [done |]. split; [by eapply acked_trans |]. split; [exists U2; split; [lia | done] |].
    intros s Hs. cbn [fmap list_fmap fst]. destruct (R1 s Hs) as [Hs1 | ->]; [| right; by left].
    destruct (R2 s Hs1) as [Hs2 | Hs2]; [by left | right; by right].
Qed.

Lemma count_skipped_core now n stamp l : Forall2 same_core l (count_skipped now n stamp l).
Proof.
  induction l as [| s l IH]; cbn [count_skipped]; [done |]. destruct (_ <? 0).
  - clear IH. induction (s :: l); by constructor.
  - constructor; [| done]. case_match; [done |]. unfold skipped. by case_match.
Qed.

Lemma fastack_ok c h U n stamp k : tx_ok c h U k.(tx) -> let k' := ikcp_parse_fastack n stamp k in
  acked k k' /\ tx_ok c h U k'.(tx) /\ forall s, s ∈ k.(tx).(snd_buf) -> exists s', s' ∈ k'.(tx).(snd_buf) /\ same_core s s'.
Proof.
  intros H. cbv zeta. unfold ikcp_parse_fastack. destruct (in_flight n k).
  - pose proof (count_skipped_core (current (clock k)) n stamp (snd_buf (tx k))) as F. destruct (from_core _ _ F) as [F1 F2].
    split; [split; try done; cbn; unfold zlen; by rewrite (Forall2_length F) |]. split; [| done]. pose proof H as [H0 Hw Hu Hn Hb Hc Hq Hk]. split; try done.
    + by eapply numbered_core.
    + cbn. rewrite Hc. unfold zlen. by rewrite (Forall2_length F).
  - split; [apply acked_refl |]. split; [done |]. intros s Hs. by exists s.
Qed.

Lemma grow_block_ok fuel e n : 0 <= e <= 31 -> n <= 2 ^ 31 -> 32 - e <= Z.of_nat fuel ->
  exists b, grow_block fuel (2 ^ e) n = Ret b /\ n <= b.
Proof.
  revert e. induction fuel as [| fuel IH]; intros e He Hn Hf; [lia |]. cbn [grow_block].
  destruct (2 ^ e <? n) eqn:E; [| exists (2 ^ e); split; [done | lia]].
  assert (e < 31). { apply Z.ltb_lt in E. apply (Z.pow_lt_mono_r_iff 2); lia. }
  assert (u32 (2 ^ e * 2) = 2 ^ (e + 1)) as ->.
  { rewrite Z.pow_add_r, Z.pow_1_r by lia. apply u32_small. split; [pose proof (Z.pow_nonneg 2 e); lia |].
    replace (2 ^ e * 2) with (2 ^ (e + 1)) by (rewrite Z.pow_add_r; lia). apply Z.pow_lt_mono_r; lia. }
  apply IH; lia.
Qed.

(** ** Data that arrives *)

Section Push.
Context (seg_alloc ikcp_malloc : nat -> bool) (P : Z -> Segment -> Prop) (P_number : forall i s, P i s -> has_number i s).

Lemma ack_push_ok n stamp R k : rx_ok P R k.(rx) -> entry_ok (n, stamp) -> zlen k.(rx).(acklist) < 2 ^ 31 ->
  exists k', ikcp_ack_push ikcp_malloc n stamp k = Ret k' /\ rx_ok P R k'.(rx)
    /\ k'.(rx).(rcv_buf) = k.(rx).(rcv_buf) /\ k'.(rx).(rcv_queue) = k.(rx).(rcv_queue) /\ k'.(rx).(rcv_nxt) = k.(rx).(rcv_nxt)
    /\ (k'.(rx).(acklist) = k.(rx).(acklist) /\ (exists x, ikcp_malloc x = false) \/ k'.(rx).(acklist) = k.(rx).(acklist) ++ [(n, stamp)])
    /\ k'.(cfg) = k.(cfg) /\ k'.(tx) = k.(tx) /\ k'.(rtt) = k.(rtt) /\ k'.(win) = k.(win) /\ k'.(clock) = k.(clock)
    /\ k'.(allocs) = k.(allocs).
Proof.
  intros H He Hl. pose proof (zlen_nonneg (acklist (rx k))) as Hz. unfold ikcp_ack_push. cbv zeta.
  rewrite (u32_small (zlen _)), u32_small by lia.
  assert (forall b, zlen (acklist (rx k)) + 1 <= b -> rx_ok P R (with_acks (acklist (rx k) ++ [(n, stamp)]) b k).(rx)) as Hok.
  { intros b Hb. destruct H. split; try done; cbn [rx with_rx with_acks acklist ackblock].
    - apply Forall_app. split; [done |]. by constructor.
    - rewrite zlen_app, zlen_one. lia. }
  destruct (_ >? _) eqn:E.
  - change 8 with (2 ^ 3). destruct (grow_block_ok 32 3 (zlen (acklist (rx k)) + 1)) as (b & -> & Hb); [lia.. |].
    cbn [mbind result_bind]. destruct (ikcp_malloc (mallocs k)) eqn:Em; eexists; (split; [done |]); (split; [| by eauto 20]).
    + by apply Hok.
    + done.
  - eexists. split; [done |]. split; [apply Hok; lia | by auto 20].
Qed.

(** What a segment of data does, when its number is near; [true] means that it is lost. *)
Lemma segment_ok i hd d k R : 1 <= k.(cfg).(rcv_wnd) <= 65535 -> rx_ok P R k.(rx) -> P i (mkSegment hd d) -> seg_ok (mkSegment hd d) ->
  entry_ok (hd.(sn), hd.(ts)) -> zlen k.(rx).(acklist) < 2 ^ 31 -> - 2 ^ 31 <= i - R < 2 ^ 31 ->
  exists b k' l, input_push seg_alloc ikcp_malloc hd (zlen d) d k = Ret (b, k')
    /\ rx_ok P (R + zlen l) k'.(rx) /\ consecutive P R l /\ k'.(rx).(rcv_queue) = k.(rx).(rcv_queue) ++ l
    /\ (k'.(rx).(acklist) = k.(rx).(acklist) /\ (R + k.(cfg).(rcv_wnd) <= i \/ i < R - 2 ^ 30 \/ exists x, ikcp_malloc x = false)
        \/ k'.(rx).(acklist) = k.(rx).(acklist) ++ [(hd.(sn), hd.(ts))] /\ i < R + k.(cfg).(rcv_wnd))
    /\ (i < R + k.(cfg).(rcv_wnd) -> b = false -> has P (R + zlen l) k'.(rx) i)
    /\ (forall j, has P R k.(rx) j -> has P (R + zlen l) k'.(rx) j)
    /\ (b = true -> seg_alloc k.(allocs) = false)
    /\ k'.(cfg) = k.(cfg) /\ k'.(tx) = k.(tx) /\ k'.(rtt) = k.(rtt) /\ k'.(win) = k.(win) /\ k'.(clock) = k.(clock)
    /\ (forall W, k.(cfg).(rcv_wnd) <= W <= WND_MAX -> fitting P W R k.(rx) -> fitting P W (R + zlen l) k'.(rx))
    /\ forall s, s ∈ l ++ k'.(rx).(rcv_buf) -> s ∈ k.(rx).(rcv_buf) \/ s = mkSegment hd d.
Proof.
  intros Hw H HP Hs He Ha Hi. pose proof (P_number _ _ HP) as En. unfold has_number in En. cbn [head] in En.
  assert (forall k1, rx_ok P R k1.(rx) -> k1.(rx).(rcv_buf) = k.(rx).(rcv_buf) -> forall j, has P R k.(rx) j -> has P R k1.(rx) j) as same.
  { intros k1 _ E j. unfold has. by rewrite E. }
  assert (forall k1 W, k1.(rx).(rcv_buf) = k.(rx).(rcv_buf) -> k1.(rx).(rcv_queue) = k.(rx).(rcv_queue) ->
    fitting P W R k.(rx) -> fitting P W R k1.(rx)) as keeps.
  { intros k1 W E1 E2. unfold fitting. by rewrite E1, E2. }
  unfold input_push. rewrite (rx_nxt _ _ _ H), u32_add, En.
  destruct (decide (i - (R + rcv_wnd (cfg k)) < - 2 ^ 31)) as [Hfar | Hfar].
  { rewrite (itimediff_far i) by lia. rewrite (proj2 (Z.ltb_ge _ 0)) by lia.
    exists false, k, []. rewrite zlen_nil, Z.add_0_r, app_nil_r. split; [done |]. split; [done |]. split; [done |]. split; [done |].
    split; [left; split; [done | right; left; lia] |]. split; [intros _ _; left; lia |]. do 8 (split; [done |]). by left. }
  rewrite itimediff_u32 by lia. destruct (_ <? 0) eqn:E1.
  2: { exists false, k, []. rewrite zlen_nil, Z.add_0_r, app_nil_r. split; [done |]. split; [done |]. split; [done |]. split; [done |].
       split; [left; split; [done | left; lia] |]. split; [lia |]. do 8 (split; [done |]). by left. }
  assert (i < R + rcv_wnd (cfg k)) as Hlt by lia.
  destruct (ack_push_ok (u32 i) (ts hd) R k H) as (k1 & -> & H1 & B1 & Q1 & N1 & L1 & C1 & T1 & RT1 & W1 & CL1 & AL1);
    [by rewrite <- En | done |]. cbn [mbind result_bind]. rewrite N1, (rx_nxt _ _ _ H), itimediff_u32 by lia.
  destruct (i - R >=? 0) eqn:E2.
  2: { exists false, k1, []. rewrite zlen_nil, Z.add_0_r, app_nil_r. split; [done |]. split; [done |]. split; [done |]. split; [done |].
       split; [destruct L1 as [[L1 L2] | L1]; [left; by auto | by right] |]. split; [intros _ _; left; lia |].
       split; [by apply same |]. do 6 (split; [done |]). split; [intros W _; by apply keeps |]. cbn. rewrite B1. by left. }
  unfold ikcp_segment_new. rewrite AL1. destruct (seg_alloc (allocs k)) eqn:Eal; cbn [negb].
  2: { exists true, (count_alloc k1), []. rewrite zlen_nil, Z.add_0_r, app_nil_r. split; [done |]. split; [done |]. split; [done |]. split; [done |].
       split; [destruct L1 as [[L1 L2] | L1]; [left; by auto | by right] |]. split; [done |].
       split; [by apply same |]. do 6 (split; [done |]). split; [intros W _; by apply keeps |]. cbn. rewrite B1. by left. }
  assert (fetch_slice d 0 (zlen d) = Ret d) as ->.
  { unfold fetch_slice, slice. pose proof (zlen_nonneg d). test_true. change (Z.to_nat 0) with 0%nat. by rewrite drop_0, zlen_to_nat, firstn_all. }
  cbn [mbind result_bind]. rewrite <- En in *.
  destruct (parse_data_ok P P_number i (mkSegment hd d) (count_alloc k1) R) as (Ek & l & M1 & M2 & M5 & Hh & Hf & M4 & M3 & M6); try done; [by rewrite <- C1 in Hw | lia |].
  eexists false, _, l. split; [done |]. set (k2 := ikcp_parse_data _ _) in *. rewrite Ek. cbn [rx with_rx cfg tx rtt win clock count_alloc].
  split; [done |]. split; [done |]. split; [by rewrite M3; cbn; rewrite Q1 |].
  split; [rewrite M4; destruct L1 as [[L1 L2] | L1]; [left; by auto | by right] |].
  split; [intros _ _; apply Hh; cbn; rewrite C1; lia |]. split; [intros j Hj; by apply M5, same |]. do 6 (split; [done |]).
  split; [intros W HW Fk; apply Hf; [cbn; by rewrite C1 | by apply keeps] |]. intros s Hs'. destruct (M6 s Hs') as [Hb | ->]; [left; by rewrite <- B1 | by right].
Qed.
End Push.

(** ** One end *)

Record cfg_ok (c : Config) : Prop := {
  cfg_conv : 0 <= c.(kconv) < 2 ^ 32;
  cfg_mtu : 50 <= c.(mtu) < 65536;
  cfg_mss : c.(mss) = c.(mtu) - 24;
  cfg_buffer : c.(buffer_size) = (c.(mtu) + 24) * 3;
  cfg_snd : 0 <= c.(snd_wnd) <= 65535;
  cfg_rcv : 128 <= c.(rcv_wnd) <= 65535
}.

(** [h] is what this end has numbered, [P] what holds of segments that arrive, and [R] the
    number, unbounded, of the next one that it lacks. *)
Record Wf (h : list Chunk) (P : Z -> Segment -> Prop) (R : Z) (k : ikcpcb) : Prop := {
  wf_cfg : cfg_ok k.(cfg);
  wf_tx : exists U, tx_ok k.(cfg).(kconv) h U k.(tx);
  wf_queued : Forall (fun c : Chunk => zlen c.2 <= k.(cfg).(mss)) k.(tx).(snd_queue);
  wf_sending : Forall (fun s : Sending => zlen s.(seg).(data) <= k.(cfg).(mss)) k.(tx).(snd_buf);
  wf_rx : rx_ok P R k.(rx);
  wf_rtt : rtt_ok k.(rtt);
  wf_win : win_ok k.(win);
  wf_now : 0 <= k.(clock).(current) < 2 ^ 32
}.

Lemma from_sizes n l l' : from l l' -> Forall (fun s : Sending => zlen s.(seg).(data) <= n) l ->
  Forall (fun s : Sending => zlen s.(seg).(data) <= n) l'.
Proof.
  intros H Hl. apply Forall_forall. intros s' Hs. apply list_elem_of_In in Hs. destruct (H _ Hs) as (s & Hin & E).
  destruct E as (_ & _ & _ & _ & ->). rewrite Forall_forall in Hl. apply Hl. by apply list_elem_of_In.
Qed.

(** Acknowledgements keep the invariant. *)
Lemma acked_wf h P R k k' : acked k k' -> (exists U, tx_ok k.(cfg).(kconv) h U k'.(tx)) -> Wf h P R k -> Wf h P R k'.
Proof.
  intros A T [W1 W2 W3 W4 W5 W6 W7 W8]. destruct A as [A1 A2 A4 A5 A6 A7 A8 A9 A10]. split; rewrite ?A1, ?A2, ?A4, ?A8; auto.
  by eapply from_sizes.
Qed.

Definition una_of (f : Frame) : Z := match f with Plain hd _ => hd.(una) | Compact _ u _ => u end.

Definition wnd_of (f : Frame) : Z := match f with Plain hd _ => hd.(wnd) | Compact w _ _ => w end.

Definition acks_of (f : Frame) : list (Z * Z) :=
  match f with
  | Plain hd _ => if hd.(cmd) =? IKCP_CMD_ACK then [(hd.(sn), hd.(ts))] else []
  | Compact _ _ l => l
  end.

Definition pushes (f : Frame) : option Segment :=
  match f with
  | Plain hd d => if hd.(cmd) =? IKCP_CMD_PUSH then Some (mkSegment hd d) else None
  | Compact _ _ _ => None
  end.

Section Frames.
Context (seg_alloc ikcp_malloc : nat -> bool) (P : Z -> Segment -> Prop) (P_number : forall i s, P i s -> has_number i s).
Context (B : Z -> Prop) (B_next : forall R l, B R -> consecutive P R l -> B (R + zlen l)).
Context (h : list Chunk).

(** What is supposed of a frame that arrives at an end in the state [k], with [R0] and more
    segments received. *)
Record arrives k (R0 : Z) (f : Frame) : Prop := {
  arr_wnd : 0 <= wnd_of f;
  arr_acks : Forall (fun a => timely k a.2) (acks_of f);
  arr_push : forall s, pushes f = Some s -> seg_ok s /\ entry_ok (s.(head).(sn), s.(head).(ts))
    /\ forall R, R0 <= R -> B R -> exists i, P i s /\ - 2 ^ 31 <= i - R < 2 ^ 31
}.

(** What frames do: [l] goes to the queue; entries of [fs] explain what left the buffer of
    the sender and what is to be acknowledged, [lost] being whether memory ran out. *)
Record effect (fs : list Frame) (lost : bool) k (R : Z) k' (l : list Segment) : Prop := {
  eff_wf : Wf h P (R + zlen l) k';
  eff_next : consecutive P R l;
  eff_queue : k'.(rx).(rcv_queue) = k.(rx).(rcv_queue) ++ l;
  eff_cfg : k'.(cfg) = k.(cfg);
  eff_clock : k'.(clock) = k.(clock);
  eff_unsent : k'.(tx).(snd_queue) = k.(tx).(snd_queue);
  eff_gone : forall s, s ∈ k.(tx).(snd_buf) -> (exists s', s' ∈ k'.(tx).(snd_buf) /\ same_core s s')
    \/ exists f, f ∈ fs /\ (_itimediff (una_of f) (seg_sn s) > 0 \/ seg_sn s ∈ (acks_of f).*1);
  eff_acks : forall a, a ∈ k'.(rx).(acklist) -> a ∈ k.(rx).(acklist)
    \/ exists f s i, f ∈ fs /\ pushes f = Some s /\ a = (s.(head).(sn), s.(head).(ts)) /\ P i s
         /\ (lost = false -> has P (R + zlen l) k'.(rx) i);
  eff_room : zlen k'.(rx).(acklist) <= zlen k.(rx).(acklist) + zlen fs;
  eff_has : forall i, has P R k.(rx) i -> has P (R + zlen l) k'.(rx) i;
  eff_got : lost = false -> forall f s i, f ∈ fs -> pushes f = Some s -> P i s ->
    R + zlen l - 2 ^ 30 <= i < R + k.(cfg).(rcv_wnd) ->
    has P (R + zlen l) k'.(rx) i /\ ((forall x, ikcp_malloc x = true) -> (s.(head).(sn), s.(head).(ts)) ∈ k'.(rx).(acklist));
  eff_kept : forall a, a ∈ k.(rx).(acklist) -> a ∈ k'.(rx).(acklist);
  eff_from : from k.(tx).(snd_buf) k'.(tx).(snd_buf);
  eff_fewer : zlen k'.(tx).(snd_buf) <= zlen k.(tx).(snd_buf);
  eff_fitting : forall W, k.(cfg).(rcv_wnd) <= W <= WND_MAX -> fitting P W R k.(rx) -> fitting P W (R + zlen l) k'.(rx);
  eff_source : forall s, s ∈ l ++ k'.(rx).(rcv_buf) -> s ∈ k.(rx).(rcv_buf) \/ exists f, f ∈ fs /\ pushes f = Some s
}.

(** Frames without data. *)
Lemma effect_acked f k R k' : Wf h P R k -> acked k k' -> (exists U, tx_ok k.(cfg).(kconv) h U k'.(tx)) -> pushes f = None ->
  (forall s, s ∈ k.(tx).(snd_buf) -> s ∈ k'.(tx).(snd_buf) \/ _itimediff (una_of f) (seg_sn s) > 0 \/ seg_sn s ∈ (acks_of f).*1) ->
  effect [f] false k R k' [].
Proof.
  intros W A T Hp Hg. pose proof (acked_wf _ _ _ _ _ A T W) as W'. destruct A as [A1 A2 A4 A5 A6 A7 A8 A9 A10].
  split; rewrite ?zlen_nil, ?Z.add_0_r, ?app_nil_r, ?A2; try done.
  - intros s Hs. destruct (Hg s Hs) as [? | ?]; [left; by exists s | right; exists f; split; [by left | done]].
  - by left.
  - rewrite zlen_one. lia.
  - intros _ g s i Hg' Hs. apply list_elem_of_singleton in Hg' as ->. congruence.
  - by left.
Qed.

Lemma frame_push hd d m oom k R R0 : Wf h P R k -> B R -> R0 <= R -> arrives k R0 (Plain hd d) -> zlen k.(rx).(acklist) < 2 ^ 31 ->
  hd.(cmd) = IKCP_CMD_PUSH -> exists m' lost k' l, run_frame seg_alloc ikcp_malloc (Plain hd d) m oom k = Ret (m', oom || lost, k')
    /\ effect [Plain hd d] lost k R k' l /\ (lost = true -> exists x, seg_alloc x = false).
Proof.
  intros W HB HR [A1 A2 A3] Ha Hc. pose proof W as [W1 [U W2] W3 W4 W5 W6 W7 W8].
  assert (pushes (Plain hd d) = Some (mkSegment hd d)) as Ep by (cbn [pushes]; by rewrite Hc, Z.eqb_refl).
  destruct (A3 _ Ep) as (Hs & He & Hn). destruct (Hn R HR HB) as (i & HP & Hi).
  cbn [run_frame]. unfold input_segment. rewrite Hc. change (IKCP_CMD_PUSH =? IKCP_CMD_ACK) with false.
  change (IKCP_CMD_PUSH =? IKCP_CMD_PUSH) with true. cbv iota.
  destruct (heard_ok _ h U hd.(wnd) hd.(una) k A1 W2) as (K & (U1 & HU1 & T1) & G). set (k1 := heard _ _ k) in *.
  pose proof (acked_wf _ _ _ _ _ K (ex_intro _ U1 T1) W) as [V1 _ V3 V4 V5 V6 V7 V8].
  destruct (segment_ok seg_alloc ikcp_malloc P P_number i hd d k1 R) as
    (b & k' & l & -> & X1 & X2 & X3 & X4 & X5 & X6 & X7 & X8 & X9 & X10 & X11 & X12 & X13 & X14); try done.
  { pose proof (cfg_rcv _ V1). lia. } { by rewrite (acked_rx _ _ K). }
  cbn [mbind result_bind]. destruct K as [K1 K2 K4 K5 K6 K7 K8 K9 K10]. rewrite K2, K1 in *.
  eexists m, b, k', l. split; [done |]. split; [| intros ->; eexists; by apply X7].
  split; try done.
  - split; rewrite ?X8, ?X9, ?X10, ?X11, ?X12, ?K1, ?K4; try done. by exists U1.
  - by rewrite X12.
  - by rewrite X9.
  - intros s Hs'. rewrite X9. destruct (G s Hs') as [? | ?]; [left; by exists s | right; exists (Plain hd d); split; [by left | by left]].
  - intros a Hin. destruct X4 as [[E _] | [E Hlt]]; rewrite E in Hin; [by left |]. apply elem_of_app in Hin as [Hin | Hin]; [by left |].
    apply list_elem_of_singleton in Hin as ->. right. exists (Plain hd d), (mkSegment hd d), i. split; [by left |]. split; [done |].
    split; [done |]. split; [done |]. by apply X5.
  - rewrite zlen_one. destruct X4 as [[-> _] | [-> _]]; [lia |]. rewrite zlen_app, zlen_one. lia.
  - intros Hb g s j Hg Es HPj Hlt. apply list_elem_of_singleton in Hg as ->. rewrite Ep in Es. injection Es as <-.
    assert (i = j) as ->.
    { pose proof (zlen_nonneg l). pose proof (cfg_rcv _ V1). apply u32_inj; [lia |]. by rewrite <- (P_number _ _ HP), <- (P_number _ _ HPj). }
    pose proof (zlen_nonneg l). split; [apply X5; [lia | done] |]. intros Hm.
    destruct X4 as [[_ [? | [? | [x Hx]]]] | [-> _]]; [lia | lia | by rewrite Hm in Hx |]. apply elem_of_app. right. by apply list_elem_of_singleton.
  - intros a Hin. destruct X4 as [[-> _] | [-> _]]; [done |]. apply elem_of_app. by left.
  - by rewrite X9.
  - by rewrite X9.
  - intros s Hin. destruct (X14 s Hin) as [? | ->]; [by left | right]. exists (Plain hd d). split; [by left | done].
Qed.

Lemma frame_effect f m oom k R R0 : Wf h P R k -> B R -> R0 <= R -> arrives k R0 f -> zlen k.(rx).(acklist) < 2 ^ 31 ->
  exists m' lost k' l, run_frame seg_alloc ikcp_malloc f m oom k = Ret (m', oom || lost, k')
    /\ effect [f] lost k R k' l /\ (lost = true -> exists x, seg_alloc x = false).
Proof.
  intros W HB HR A Ha. destruct f as [hd d | w u l].
  - destruct (decide (hd.(cmd) = IKCP_CMD_PUSH)) as [Hc | Hc]; [by eapply frame_push |].
    pose proof A as [A1 A2 _]. pose proof W as [_ [U W2] _ _ _ W6 _ _].
    assert (pushes (Plain hd d) = None) as Ep by (cbn [pushes]; by rewrite (proj2 (Z.eqb_neq _ _) Hc)).
    destruct (heard_ok _ h U hd.(wnd) hd.(una) k A1 W2) as (K & (U1 & HU1 & T1) & G).
    cbn [run_frame]. unfold input_segment. rewrite (proj2 (Z.eqb_neq _ _) Hc). set (k1 := heard _ _ k) in *.
    cbn [acks_of] in A2. destruct (hd.(cmd) =? IKCP_CMD_ACK) eqn:Ea.
    + apply Forall_cons_iff in A2 as [A2 _].
      destruct (feed_ok _ h U1 hd.(sn) hd.(ts) m k1 T1 (acked_rtt _ _ K W6)) as (m' & k2 & -> & K2 & (U2 & HU2 & T2) & G2);
        [unfold timely in *; by rewrite (acked_clock _ _ K) |]. cbn [mbind result_bind].
      exists m', false, k2, []. split; [by rewrite orb_false_r |]. split; [| done].
      apply effect_acked; [done | by eapply acked_trans | by exists U2 | done |]. intros s Hs. cbn [una_of acks_of]. rewrite Ea.
      destruct (G s Hs) as [Hs1 | ?]; [| by auto]. destruct (G2 s Hs1) as [? | ->]; [by left | right; right; by left].
    + assert (forall k2, acked k1 k2 -> k2.(tx) = k1.(tx) -> effect [Plain hd d] false k R k2 []) as fin.
      { intros k2 K2 E2. apply effect_acked; [done | by eapply acked_trans | exists U1; by rewrite E2 | done |].
        intros s Hs. rewrite E2. destruct (G s Hs) as [? | ?]; by auto. }
      destruct (hd.(cmd) =? IKCP_CMD_WASK); eexists m, false, _, []; rewrite orb_false_r; (split; [done |]); (split; [| done]).
      * apply fin; [| done]. split; try done. apply from_refl.
      * apply fin; [apply acked_refl | done].
  - pose proof A as [A1 A2 _]. pose proof W as [_ [U W2] _ _ _ W6 _ _].
    destruct (heard_ok _ h U w u k A1 W2) as (K & (U1 & HU1 & T1) & G). cbn [run_frame]. set (k1 := heard _ _ k) in *.
    destruct (run_acks_ok _ h U1 l m k1 T1 (acked_rtt _ _ K W6)) as (m' & k2 & -> & K2 & (U2 & HU2 & T2) & G2).
    { eapply Forall_impl; [| exact A2]. unfold timely. by rewrite (acked_clock _ _ K). }
    cbn [mbind result_bind]. exists m', false, k2, []. split; [by rewrite orb_false_r |]. split; [| done].
    apply effect_acked; [done | by eapply acked_trans | by exists U2 | done |]. intros s Hs. cbn [una_of acks_of].
    destruct (G s Hs) as [Hs1 | ?]; [| by auto]. destruct (G2 s Hs1) as [? | ?]; by auto.
Qed.

Lemma effect_nil k R : Wf h P R k -> effect [] false k R k [].
Proof.
  intros W. split; rewrite ?zlen_nil, ?Z.add_0_r, ?app_nil_r; try done.
  - intros s Hs. left. by exists s.
  - by left.
  - intros _ f s i Hf. by apply elem_of_nil in Hf.
  - apply from_refl.
  - by left.
Qed.

Lemma effect_app f fs b1 b2 k1 k2 k3 R l1 l2 : effect [f] b1 k1 R k2 l1 -> effect fs b2 k2 (R + zlen l1) k3 l2 ->
  effect (f :: fs) (b1 || b2) k1 R k3 (l1 ++ l2).
Proof.
  intros [E1 E2 E3 E4 E5 E6 E7 E8 E9 E10 E11 E12 E13 E14 E15 E16] [F1 F2 F3 F4 F5 F6 F7 F8 F9 F10 F11 F12 F13 F14 F15 F16].
  split; rewrite ?zlen_app, ?Z.add_assoc; try congruence; try done.
  - by apply consecutive_app.
  - by rewrite F3, E3, app_assoc.
  - intros s Hs. destruct (E7 s Hs) as [(s' & Hs' & Ec) | (g & Hg & Hr)].
    + destruct (F7 s' Hs') as [(s2 & Hs2 & Ec2) | (g & Hg & Hr)]; [left; exists s2; split; [done |]; by eapply same_core_trans |].
      right. exists g. split; [by right |]. unfold seg_sn in *. destruct Ec as (_ & _ & <- & _). done.
    + right. exists g. apply list_elem_of_singleton in Hg as ->. split; [by left | done].
  - intros a Hin. destruct (F8 a Hin) as [Hin1 | (g & s & i & Hg & Hs & Ea & HPi & Hh)].
    + destruct (E8 a Hin1) as [? | (g & s & i & Hg & Hs & Ea & HPi & Hh)]; [by left | right]. exists g, s, i.
      apply list_elem_of_singleton in Hg as ->. split; [by left |]. split; [done |]. split; [done |]. split; [done |].
      intros Hb. apply orb_false_iff in Hb as [Hb _]. by apply F10, Hh.
    + right. exists g, s, i. split; [by right |]. split; [done |]. split; [done |]. split; [done |].
      intros Hb. apply orb_false_iff in Hb as [_ Hb]. by apply Hh.
  - rewrite zlen_cons. rewrite zlen_one in E9. lia.
  - auto.
  - intros Hb g s i Hg Hs HPi Hlt. apply orb_false_iff in Hb as [Hb1 Hb2]. pose proof (zlen_nonneg l1). pose proof (zlen_nonneg l2).
    apply elem_of_cons in Hg as [-> | Hg].
    + destruct (E11 Hb1 f s i ltac:(by left) Hs HPi ltac:(lia)) as [H1 H2]. split; [by apply F10 |]. auto.
    + apply (F11 Hb2 g s i Hg Hs HPi). rewrite E4. lia.
  - auto.
  - by eapply from_trans.
  - lia.
  - intros W HW Fk. apply F15; [by rewrite E4 | by apply E15].
  - intros s Hs. rewrite <- app_assoc in Hs. apply elem_of_app in Hs as [Hs | Hs].
    + destruct (E16 s ltac:(apply elem_of_app; by left)) as [? | (g & Hg & Ep)]; [by left | right]. exists g. apply list_elem_of_singleton in Hg as ->. split; [by left | done].
    + destruct (F16 s Hs) as [Hb | (g & Hg & Ep)]; [| right; exists g; split; [by right | done]].
      destruct (E16 s ltac:(apply elem_of_app; by right)) as [? | (g & Hg & Ep)]; [by left | right]. exists g. apply list_elem_of_singleton in Hg as ->. split; [by left | done].
Qed.

Lemma arrives_same k k' R0 f : k'.(clock) = k.(clock) -> arrives k R0 f -> arrives k' R0 f.
Proof. intros E [A1 A2 A3]. split; [done | | done]. eapply Forall_impl; [| exact A2]. unfold timely. by rewrite E. Qed.

Lemma frames_effect fs m oom k R R0 : Wf h P R k -> B R -> R0 <= R -> Forall (arrives k R0) fs ->
  zlen k.(rx).(acklist) + zlen fs < 2 ^ 31 ->
  exists m' lost k' l, run_frames seg_alloc ikcp_malloc fs m oom k = Ret (m', oom || lost, k')
    /\ effect fs lost k R k' l /\ (lost = true -> exists x, seg_alloc x = false).
Proof.
  revert m oom k R. induction fs as [| f fs IH]; intros m oom k R W HB HR A Ha; cbn [run_frames].
  - exists m, false, k, []. split; [by rewrite orb_false_r |]. split; [by apply effect_nil | done].
  - apply Forall_cons_iff in A as [Af A]. rewrite zlen_cons in Ha. pose proof (zlen_nonneg fs) as Hz.
    destruct (frame_effect f m oom k R R0 W HB HR Af ltac:(lia)) as (m1 & b1 & k1 & l1 & -> & E1 & O1). cbn [mbind result_bind].
    pose proof E1 as [X1 X2 _ _ X5 _ _ _ X9 _ _ _ _ _ _ _]. pose proof (zlen_nonneg l1). rewrite zlen_one in X9.
    destruct (IH m1 (oom || b1) k1 (R + zlen l1) X1) as (m2 & b2 & k2 & l2 & E & E2 & O2); [by apply B_next | lia | | lia |].
    { eapply Forall_impl; [| exact A]. intros g. by apply arrives_same. }
    exists m2, (b1 || b2), k2, (l1 ++ l2). split; [by rewrite E, orb_assoc |]. split; [by eapply effect_app |].
    destruct b1; [by auto | exact O2].
Qed.

(** Changes of the sender that keep its segments. *)
Lemma effect_after fs lost k R k1 k2 l : effect fs lost k R k1 l -> acked k1 k2 ->
  (exists U, tx_ok k1.(cfg).(kconv) h U k2.(tx)) ->
  (forall s, s ∈ k1.(tx).(snd_buf) -> exists s', s' ∈ k2.(tx).(snd_buf) /\ same_core s s') -> effect fs lost k R k2 l.
Proof.
  intros [E1 E2 E3 E4 E5 E6 E7 E8 E9 E10 E11 E12 E13 E14 E15 E16] A T Hs. pose proof (acked_wf _ _ _ _ _ A T E1) as W.
  destruct A as [A1 A2 A4 A5 A6 A7 A8 A9 A10]. split; rewrite ?A2; try congruence; try done.
  - intros s Hin. destruct (E7 s Hin) as [(s1 & Hs1 & C1) | ?]; [| by right]. destruct (Hs s1 Hs1) as (s2 & Hs2 & C2).
    left. exists s2. split; [done |]. by eapply same_core_trans.
  - by eapply from_trans.
  - lia.
Qed.

Lemma frames_of_length fuel c p : is_bytes p -> zlen (frames_of fuel c p).1 * 13 <= zlen p.
Proof.
  revert p. induction fuel as [| fuel IH]; intros p Hb; [apply (zlen_nonneg p) |]. cbn [frames_of]. pose proof (field_range 5 2 p Hb).
  pose proof (zlen_nonneg p) as Hp. unfold IKCP_ACKN_OVERHEAD, IKCP_ACKN_ENTRY, IKCP_OVERHEAD.
  destruct (zlen p <? 13) eqn:E13; [change (0 * 13 <= zlen p); lia |]. destruct (negb (field p 0 4 =? c)); [change (0 * 13 <= zlen p); lia |].
  assert (forall f rest, is_bytes rest -> zlen rest + 13 <= zlen p -> zlen (let '(fs, e) := frames_of fuel c rest in (f :: fs, e)).1 * 13 <= zlen p) as step.
  { intros f rest Hr' Hr. specialize (IH rest Hr'). destruct (frames_of fuel c rest) as [fs e]. cbn [fst] in *. rewrite zlen_cons. lia. }
  destruct (_ =? IKCP_CMD_ACKN).
  - destruct (zlen p <? 13 + field p 5 2 * 8) eqn:En; [change (0 * 13 <= zlen p); lia |]. apply step; [by apply is_bytes_drop |]. unfold zlen in *. rewrite length_drop. lia.
  - destruct (zlen p <? 24) eqn:E24; [change (0 * 13 <= zlen p); lia |]. destruct (_ || _); [change (0 * 13 <= zlen p); lia |]. destruct (negb _); [change (0 * 13 <= zlen p); lia |].
    apply step; [by do 2 apply is_bytes_drop |]. unfold zlen in *. rewrite !length_drop. lia.
Qed.

Lemma grow_window_ok n w : 0 < n -> win_ok w -> exists w', grow_window n w = Ret w' /\ win_ok w'.
Proof.
  intros Hn [H1 H2]. unfold grow_window. destruct (cwnd w <? rmt_wnd w); [| by exists w].
  destruct (cwnd w <? ssthresh w); cbn [mbind result_bind].
  - eexists. split; [done |]. case_match; split; cbn [cwnd rmt_wnd]; try done. apply u32_range.
  - rewrite (proj2 (Z.eqb_neq _ 0)) by (case_match; lia). cbn [mbind result_bind]. eexists. split; [done |].
    cbn [cwnd rmt_wnd]. case_match; split; cbn [cwnd rmt_wnd]; try done. case_match; [| done].
    apply Z.div_pos; [apply u32_range | destruct (n >? 0) eqn:?; lia].
Qed.

Lemma input_effect d k R R0 : is_bytes d -> zlen d < 2 ^ 31 -> Wf h P R k -> B R -> R0 <= R ->
  let fs := (frames_of (S (length d)) k.(cfg).(kconv) d).1 in
  Forall (arrives k R0) fs -> zlen k.(rx).(acklist) + zlen d < 2 ^ 31 ->
  exists code lost k' l, ikcp_input seg_alloc ikcp_malloc d k = Ret (code, k') /\ effect fs lost k R k' l
    /\ (lost = true -> exists x, seg_alloc x = false).
Proof.
  intros Hb Hd W HB HR fs A Ha. pose proof (zlen_nonneg d) as Hz. unfold ikcp_input. rewrite s32_small by lia.
  destruct (zlen d <? IKCP_ACKN_OVERHEAD) eqn:E13.
  { exists (-1), false, k, []. split; [done |]. unfold fs. cbn [frames_of]. rewrite E13. split; [by apply effect_nil | done]. }
  rewrite input_loop_frames by (done || lia). pose proof (frames_of_length (S (length d)) (kconv (cfg k)) d Hb) as Hl. fold fs in Hl.
  destruct (frames_of _ _ d) as [fs' e] eqn:Ef. cbn [fst] in fs. subst fs. pose proof (zlen_nonneg fs').
  destruct (frames_effect fs' None false k R R0 W HB HR A ltac:(lia)) as (m & lost & k1 & l & -> & E & O). cbn [mbind result_bind orb].
  destruct e as [c |].
  { by exists c, lost, k1, l. }
  pose proof E as [E1 _ _ _ _ _ _ _ _ _ _ _ _ _ _ _]. pose proof E1 as [V1 [U V2] _ _ _ _ V7 _].
  set (k2 := match m with Some (x, y) => ikcp_parse_fastack x y k1 | None => k1 end).
  assert (effect fs' lost k R k2 l) as E2.
  { unfold k2. destruct m as [[x y] |]; [| done]. destruct (fastack_ok _ h U x y k1 V2) as (F1 & F2 & F3).
    eapply effect_after; [done | done | by exists U | done]. }
  pose proof E2 as [[Y1 [U2 Y2] _ _ _ _ Y7 _] _ _ _ _ _ _ _ _ _ _ _ _ _ _ _].
  exists (if lost then -2 else 0), lost. destruct (_ >? 0).
  - destruct (grow_window_ok (mss (cfg k2)) (win k2)) as (w & -> & Hw); [| done |].
    { destruct Y1. lia. }
    cbn [mbind result_bind]. eexists _, l. split; [done |]. split; [| done].
    eapply effect_after; [exact E2 | | by exists U2 | intros s Hs; by exists s]. split; try done. apply from_refl.
  - cbn [mbind result_bind]. exists k2, l. by split.
Qed.
End Frames.
