(* ===== verification/KcpOps.v ===== *)
(** * KCP: sending, receiving and flushing

    The calls of the user, and what a flush sends: everything that is written stays inside
    the buffer, the datagrams are no longer than the MTU and made of frames, and every
    pending acknowledgement and every segment that is due is in one of them. *)

From stdpp Require Import sets.
From S2P Require Import Prelude Kcp KcpProofs KcpState.

(** ** Chunks and messages

    A message goes into the queue as chunks that fit a datagram, labelled with the number of
    chunks behind them; it comes out of the queue of the receiver when all its chunks are
    there. *)

(** ** Chunks *)

Definition bytes_of (cs : list Chunk) : list Z := concat (map snd cs).

Lemma bytes_of_app cs1 cs2 : bytes_of (cs1 ++ cs2) = bytes_of cs1 ++ bytes_of cs2.
Proof. unfold bytes_of. by rewrite map_app, concat_app. Qed.

(** The chunks of one message: each is labelled with the number of those behind it. *)
Fixpoint labelled (cs : list Chunk) : Prop :=
  match cs with
  | [] => False
  | [(f, _)] => f = 0
  | (f, _) :: cs => f = zlen cs /\ labelled cs
  end.

Lemma labelled_cons f d cs : f = zlen cs -> cs = [] \/ labelled cs -> labelled ((f, d) :: cs).
Proof. destruct cs as [| c cs]; simpl; [by rewrite zlen_nil |]. intros -> [? | ?]; [done | by split]. Qed.

Definition chunk_of (s : Segment) : Chunk := (s.(head).(frg), s.(data)).

Lemma s32_range z : - 2 ^ 31 <= s32 z < 2 ^ 31.
Proof. unfold wraps. change (2 ^ (32 - 1)) with (2 ^ 31). pose proof (Z.mod_pos_bound (z + 2 ^ 31) (2 ^ 32)). lia. Qed.

Section User.
Context (seg_alloc ikcp_malloc : nat -> bool).
Implicit Types k : ikcpcb.

(** ** Sending *)

(** [k'] is [k] with chunks at the end of the queue. *)
Record queues k k' (q : list Chunk) : Prop := {
  qs_cfg : k'.(cfg) = k.(cfg);
  qs_rx : k'.(rx) = k.(rx);
  qs_rtt : k'.(rtt) = k.(rtt);
  qs_win : k'.(win) = k.(win);
  qs_clock : k'.(clock) = k.(clock);
  qs_una : k'.(tx).(snd_una) = k.(tx).(snd_una);
  qs_nxt : k'.(tx).(snd_nxt) = k.(tx).(snd_nxt);
  qs_buf : k'.(tx).(snd_buf) = k.(tx).(snd_buf);
  qs_nbuf : k'.(tx).(nsnd_buf) = k.(tx).(nsnd_buf);
  qs_queue : k'.(tx).(snd_queue) = q;
  qs_count : k.(tx).(nsnd_que) = u32 (zlen k.(tx).(snd_queue)) -> k'.(tx).(nsnd_que) = u32 (zlen q)
}.

(** The next [n] segments can be had. *)
Definition memory (n : nat) k : Prop := forall x, (k.(allocs) <= x < k.(allocs) + n)%nat -> seg_alloc x = true.

Lemma fragment_ok todo d sent k : memory todo k -> 0 < k.(cfg).(mss) -> zlen d <= Z.of_nat todo * k.(cfg).(mss) ->
  exists cs k', fragment seg_alloc todo d sent k = (sent + zlen d, k') /\ queues k k' (k.(tx).(snd_queue) ++ cs)
    /\ zlen cs = Z.of_nat todo /\ bytes_of cs = d /\ Forall (fun c : Chunk => zlen c.2 <= k.(cfg).(mss)) cs
    /\ if k.(cfg).(stream) =? 0 then cs = [] \/ labelled cs else Forall (fun c : Chunk => c.1 = 0) cs.
Proof.
  revert d sent k. induction todo as [| todo IH]; intros d sent k Hal Hm Hd; cbn [fragment].
  - assert (d = []) as -> by (apply zlen_0_nil; pose proof (zlen_nonneg d); lia). exists [], k. rewrite zlen_nil, Z.add_0_r, app_nil_r.
    split; [done |]. split; [by split |]. split; [done |]. split; [done |]. split; [done |]. case_match; [by left | done].
  - unfold ikcp_segment_new. rewrite Hal by lia. cbn [negb]. set (size := if zlen d >? mss (cfg k) then mss (cfg k) else zlen d).
    pose proof (zlen_nonneg d) as Hz. assert (0 <= size <= zlen d /\ size <= mss (cfg k)) as Hsz by (unfold size; case_match; lia).
    cbn [cfg tx count_alloc]. set (f := if stream (cfg k) =? 0 then Z.of_nat todo else 0). set (c := take (Z.to_nat size) d).
    set (k1 := with_queue _ _ _). destruct (IH (drop (Z.to_nat size) d) (sent + size) k1) as (cs & k' & -> & Q & Hn & Hb & Hs & Hl); [intros x Hx; apply Hal; cbn in Hx; lia | done | |].
    { rewrite zlen_drop by lia. cbn. unfold size. case_match; lia. }
    exists ((f, c) :: cs), k'. split; [f_equal; rewrite zlen_drop; lia |]. cbn [cfg with_queue with_tx count_alloc k1] in Hs, Hl.
    split; [destruct Q as [Q1 Q2 Q3 Q4 Q5 Q6 Q7 Q8 Q9 Q10 Q11]; split; try done |].
    + rewrite Q10. cbn. by rewrite <- app_assoc.
    + intros Hc. replace (zlen (snd_queue (tx k) ++ (f, c) :: cs)) with (zlen (snd_queue (tx k1) ++ cs)); [apply Q11 |].
      * cbn. by rewrite Hc, u32_add, zlen_app, zlen_one.
      * cbn. by rewrite <- app_assoc.
    + split; [rewrite zlen_cons; lia |]. split; [cbn; fold (bytes_of cs); rewrite Hb; apply take_drop |].
      split; [constructor; [cbn; unfold c; rewrite zlen_take by lia; lia | done] |].
      unfold f. destruct (stream (cfg k) =? 0); [right; by apply labelled_cons | by constructor].
Qed.

Lemma queues_same k : queues k k k.(tx).(snd_queue).
Proof. by split. Qed.

Lemma queues_trans k1 k2 k3 q2 q3 : queues k1 k2 q2 -> queues k2 k3 q3 -> queues k1 k3 q3.
Proof.
  intros [Q1 Q2 Q3 Q4 Q5 Q6 Q7 Q8 Q9 Q10 Q11] [S1 S2 S3 S4 S5 S6 S7 S8 S9 S10 S11]. split; try congruence.
  intros H. apply S11. by rewrite Q10, Q11.
Qed.

(** What becomes of the rest [d] of a message of which [sent] bytes are queued. *)
Inductive fragmented k (d : list Z) (sent : Z) : Z -> list Chunk -> Prop :=
| fragmented_none code : code < 0 -> (k.(cfg).(stream) = 0 \/ sent <= 0) -> fragmented k d sent code []
| fragmented_later : k.(cfg).(stream) <> 0 -> fragmented k d sent sent []
| fragmented_all cs : bytes_of cs = d -> Forall (fun c : Chunk => zlen c.2 <= k.(cfg).(mss)) cs -> zlen cs < 128 ->
    (k.(cfg).(stream) = 0 -> labelled cs) -> (k.(cfg).(stream) <> 0 -> Forall (fun c : Chunk => c.1 = 0) cs) ->
    fragmented k d sent (sent + zlen d) cs.

Lemma fragments_ok d sent k : memory 128 k -> cfg_ok k.(cfg) -> zlen d < 2 ^ 31 ->
  exists code k' cs, fragments seg_alloc d sent k = (code, k') /\ queues k k' (k.(tx).(snd_queue) ++ cs) /\ fragmented k d sent code cs.
Proof.
  intros Hm Hc Hd. pose proof (zlen_nonneg d) as Hz. unfold fragments.
  assert (26 <= mss (cfg k) < 65536) as Hmss by (destruct Hc; lia).
  set (count := if zlen d <=? mss (cfg k) then 1 else _).
  assert (1 <= count /\ zlen d <= count * mss (cfg k)) as [Hc1 Hc2].
  { unfold count. destruct (_ <=? _) eqn:E; [lia |]. rewrite (u32_small (zlen d + _ - 1)) by lia.
    pose proof (Z.div_mod (zlen d + mss (cfg k) - 1) (mss (cfg k)) ltac:(lia)) as Hdm.
    pose proof (Z.mod_pos_bound (zlen d + mss (cfg k) - 1) (mss (cfg k)) ltac:(lia)).
    pose proof (Z.div_le_lower_bound (zlen d + mss (cfg k) - 1) (mss (cfg k)) 1 ltac:(lia) ltac:(lia)).
    pose proof (Z.div_lt_upper_bound (zlen d + mss (cfg k) - 1) (mss (cfg k)) (2 ^ 31) ltac:(lia) ltac:(lia)).
    rewrite s32_small by lia. lia. }
  unfold IKCP_WND_RCV. destruct (count >=? 128) eqn:E.
  - destruct (negb (stream (cfg k) =? 0) && (sent >? 0)) eqn:Es.
    + exists sent, k, []. rewrite app_nil_r. split; [done |]. split; [apply queues_same |]. apply fragmented_later.
      apply andb_true_iff in Es as [Es _]. by apply negb_true_iff, Z.eqb_neq in Es.
    + exists (-2), k, []. rewrite app_nil_r. split; [done |]. split; [apply queues_same |]. apply fragmented_none; [lia |].
      apply andb_false_iff in Es as [Es | Es]; [left | right; lia]. by apply negb_false_iff, Z.eqb_eq in Es.
  - rewrite (proj2 (Z.eqb_neq count 0)) by lia.
    destruct (fragment_ok (Z.to_nat count) d sent k) as (cs & k' & -> & Q & Hn & Hb & Hs & Hl); [| lia | lia |].
    { intros x Hx. apply Hm. lia. }
    exists (sent + zlen d), k', cs. split; [done |]. split; [done |]. apply fragmented_all; try done; [lia | |]; intros Hst.
    + rewrite (proj2 (Z.eqb_eq _ _) Hst) in Hl. destruct Hl as [-> | ?]; [rewrite zlen_nil in Hn; lia | done].
    + by rewrite (proj2 (Z.eqb_neq _ _) Hst) in Hl.
Qed.

Lemma labelled_range cs : labelled cs -> Forall (fun c : Chunk => 0 <= c.1 < zlen cs) cs.
Proof.
  induction cs as [| [f d] cs IH]; [done |]. pose proof (zlen_nonneg cs) as Hz. rewrite zlen_cons. destruct cs as [| c cs].
  - cbn. intros ->. constructor; [cbn; lia | done].
  - intros [-> H]. constructor; [cbn [fst]; lia |]. eapply Forall_impl; [| by apply IH]. cbn. intros x Hx. lia.
Qed.

Lemma bytes_of_pieces cs : is_bytes (bytes_of cs) <-> Forall (fun c : Chunk => is_bytes c.2) cs.
Proof.
  induction cs as [| [f d] cs IH]; [split; intros; [done | apply is_bytes_nil] |].
  change (bytes_of ((f, d) :: cs)) with (d ++ bytes_of cs). rewrite is_bytes_app, IH, Forall_cons_iff. done.
Qed.

Lemma fragmented_chunks k d sent code cs : fragmented k d sent code cs -> is_bytes d -> Forall chunk_ok cs.
Proof.
  intros H Hb. inversion H as [| | cs' Hbs Hs Hn Hl Hz]; subst; [done | done |]. apply bytes_of_pieces in Hb.
  assert (Forall (fun c : Chunk => 0 <= c.1 < 128) cs) as Hf.
  { destruct (decide (stream (cfg k) = 0)) as [E | E].
    - eapply Forall_impl; [| apply labelled_range, Hl, E]. cbn. intros c Hc. lia.
    - eapply Forall_impl; [| apply Hz, E]. cbn. intros c ->. lia. }
  apply Forall_forall. intros c Hc. rewrite Forall_forall in Hf, Hb. split; [by apply Hf | by apply Hb].
Qed.

(** A longer queue of chunks that fit. *)
Lemma queues_wf h P R k k' q : Wf h P R k -> queues k k' q -> Forall chunk_ok q ->
  Forall (fun c : Chunk => zlen c.2 <= k.(cfg).(mss)) q -> Wf h P R k'.
Proof.
  intros [W1 [U W2] W3 W4 W5 W6 W7 W8] [Q1 Q2 Q3 Q4 Q5 Q6 Q7 Q8 Q9 Q10 Q11] Hq Hs.
  split; rewrite ?Q1, ?Q2, ?Q3, ?Q4, ?Q5, ?Q8, ?Q10; try done. exists U. destruct W2 as [T1 T2 T3 T4 T5 T6 T7 T8].
  split; rewrite ?Q6, ?Q7, ?Q8, ?Q9, ?Q10; try done; [by apply Q11 |].
  apply Forall_app in T8 as [T8 _]. by apply Forall_app.
Qed.

Lemma append_ok h P R d k : Wf h P R k -> memory 1 k -> is_bytes d ->
  exists sent k' q, append_to_last seg_alloc d k = Some (sent, drop (Z.to_nat sent) d, k') /\ 0 <= sent <= zlen d
    /\ queues k k' q /\ bytes_of q = bytes_of k.(tx).(snd_queue) ++ take (Z.to_nat sent) d
    /\ Wf h P R k' /\ (k.(allocs) <= k'.(allocs) <= S k.(allocs))%nat /\ (sent = 0 -> zlen d = 0 \/ q = k.(tx).(snd_queue)).
Proof.
  intros W Hm Hb. pose proof (zlen_nonneg d) as Hz. unfold append_to_last.
  assert (exists sent k' q, Some (0, d, k) = Some (sent, drop (Z.to_nat sent) d, k') /\ 0 <= sent <= zlen d
    /\ queues k k' q /\ bytes_of q = bytes_of k.(tx).(snd_queue) ++ take (Z.to_nat sent) d
    /\ Wf h P R k' /\ (k.(allocs) <= k'.(allocs) <= S k.(allocs))%nat /\ (sent = 0 -> zlen d = 0 \/ q = k.(tx).(snd_queue))) as none.
  { exists 0, k, (snd_queue (tx k)). rewrite drop_0, take_0, app_nil_r. split; [done |]. split; [lia |].
    split; [apply queues_same |]. split; [done |]. split; [done |]. split; [lia | by right]. }
  destruct (list.last (snd_queue (tx k))) as [[f old] |] eqn:El; [| done].
  destruct (zlen old <? mss (cfg k)) eqn:E; [| done]. apply last_Some in El as [q0 Eq].
  unfold ikcp_segment_new. rewrite Hm by lia. cbn [negb]. set (extend := if zlen d <? _ then _ else _).
  pose proof (zlen_nonneg old) as Ho. assert (0 <= extend <= zlen d /\ extend <= mss (cfg k) - zlen old) as Hx by (unfold extend; case_match; lia).
  cbn [tx count_alloc]. rewrite Eq, removelast_last. set (q := q0 ++ _). eexists extend, _, q. split; [done |]. split; [lia |].
  assert (queues k (with_queue q (nsnd_que (tx k)) (count_alloc k)) q) as Q.
  { split; try done. intros ->. rewrite Eq. unfold q. by rewrite !zlen_app, !zlen_one. }
  split; [done |]. split.
  - unfold q. rewrite !bytes_of_app, <- app_assoc. f_equal. cbn. by rewrite !app_nil_r.
  - split; [| cbn; split; [lia |]; intros H0; left; unfold extend in H0; case_match; lia]. eapply queues_wf; [done | exact Q | |].
    + destruct W as [_ [U W2] _ _ _ _ _ _]. pose proof (tx_chunks _ _ _ _ W2) as H. apply Forall_app in H as [_ H]. rewrite Eq in H.
      apply Forall_app in H as [H1 H2]. apply Forall_cons_iff in H2 as [[_ H2] _]. apply Forall_app. split; [done |].
      constructor; [| done]. split; cbn; [lia |]. apply is_bytes_app_2; [done | by apply is_bytes_take].
    + pose proof (wf_queued _ _ _ _ W) as H. rewrite Eq in H. apply Forall_app in H as [H1 H2]. apply Forall_app. split; [done |].
      constructor; [| done]. cbn. rewrite zlen_app, zlen_take; lia.
Qed.

Lemma fragments_wf h P R d sent k code k' cs : Wf h P R k -> is_bytes d -> queues k k' (k.(tx).(snd_queue) ++ cs) ->
  fragmented k d sent code cs -> Wf h P R k'.
Proof.
  intros W Hb Q F. pose proof W as [_ [U W2] W3 _ _ _ _ _]. eapply queues_wf; [done | done | |].
  - apply Forall_app. split; [| by eapply fragmented_chunks]. pose proof (tx_chunks _ _ _ _ W2) as H. by apply Forall_app in H as [_ H].
  - apply Forall_app. split; [done |]. by destruct F.
Qed.

(** What [ikcp_send] does with [d], when there is memory. *)
Record sends k (d : list Z) (code : Z) k' (q : list Chunk) : Prop := {
  sends_queues : queues k k' q;
  sends_none : code < 0 -> q = k.(tx).(snd_queue);
  sends_some : 0 <= code -> code <= zlen d /\ bytes_of q = bytes_of k.(tx).(snd_queue) ++ take (Z.to_nat code) d;
  sends_message : k.(cfg).(stream) = 0 -> 0 <= code -> code = zlen d /\ exists cs, labelled cs /\ q = k.(tx).(snd_queue) ++ cs /\ bytes_of cs = d
}.

Lemma send_ok h P R buffer len k : Wf h P R k -> memory 129 k -> is_bytes buffer -> 0 <= len <= zlen buffer -> len < 2 ^ 31 ->
  exists code k' q, ikcp_send seg_alloc buffer len k = Ret (code, k') /\ sends k (take (Z.to_nat len) buffer) code k' q /\ Wf h P R k'.
Proof.
  intros W Hm Hb Hl Hl2. pose proof (wf_cfg _ _ _ _ W) as Hc. unfold ikcp_send.
  rewrite (proj2 (Z.eqb_neq _ 0)) by (destruct Hc; lia). rewrite (proj2 (Z.ltb_ge len 0)) by lia.
  assert (fetch_slice buffer 0 len = Ret (take (Z.to_nat len) buffer)) as ->.
  { unfold fetch_slice, slice. test_true. change (Z.to_nat 0) with 0%nat. by rewrite drop_0. }
  cbn [mbind result_bind]. set (d := take _ buffer). assert (is_bytes d) as Hd by (by apply is_bytes_take).
  assert (zlen d = len) as Hdl by (apply zlen_take; lia). clearbody d.
  destruct (stream (cfg k) =? 0) eqn:Es; [apply Z.eqb_eq in Es | apply Z.eqb_neq in Es].
  - destruct (fragments_ok d 0 k) as (code & k' & cs & -> & Q & F); [intros x Hx; apply Hm; lia | done | lia |].
    exists code, k', (snd_queue (tx k) ++ cs). split; [done |]. split; [| by eapply fragments_wf].
    inversion F as [c Hc0 | | cs' Hbs Hs Hn Hlab Hz]; subst; [| done |].
    + split; [done | by rewrite app_nil_r | lia | lia].
    + pose proof (zlen_nonneg (bytes_of cs)). split; [done | lia | |].
      * intros _. rewrite Z.add_0_l, zlen_to_nat, firstn_all, bytes_of_app. split; [lia | done].
      * intros _ _. split; [lia |]. exists cs. split; [by apply Hlab | done].
  - destruct (append_ok h P R d k W) as (sent & k1 & q1 & -> & Hs & Q1 & Hb1 & W1 & Ha1 & H0); [intros x Hx; apply Hm; lia | done |].
    assert (zlen (drop (Z.to_nat sent) d) = zlen d - sent) as Hrest by (apply zlen_drop; lia).
    destruct (zlen (drop (Z.to_nat sent) d) <=? 0) eqn:Er.
    + exists sent, k1, q1. split; [done |]. split; [| done]. split; [done | lia | by intros _; split; [lia |] | done].
    + destruct (fragments_ok (drop (Z.to_nat sent) d) sent k1) as (code & k' & cs & -> & Q & F);
        [intros x Hx; apply Hm; lia | apply W1 | lia |].
      exists code, k', (q1 ++ cs). rewrite (qs_queue _ _ _ Q1) in Q. split; [done |].
      split; [| eapply fragments_wf; [exact W1 | by apply is_bytes_drop | by rewrite (qs_queue _ _ _ Q1) | done]].
      split; [by eapply queues_trans | | | done]; rewrite ?(qs_cfg _ _ _ Q1) in *.
      * inversion F as [c Hc0 [? | Hs0] | | cs' Hbs Hsz Hn Hlab Hz]; subst; rewrite ?(qs_cfg _ _ _ Q1) in *; [done | | lia | lia].
        intros _. rewrite app_nil_r. destruct (H0 ltac:(lia)) as [? | ?]; [lia | done].
      * inversion F as [c Hc0 | | cs' Hbs Hsz Hn Hlab Hz]; subst; [lia | |]; intros _.
        -- rewrite app_nil_r. split; [lia | done].
        -- rewrite bytes_of_app, Hb1, <- app_assoc, Hbs. split; [lia |]. f_equal.
           rewrite (take_ge _ (Z.to_nat (sent + _))), take_drop; [done |]. unfold zlen in *. lia.
Qed.

(** ** Receiving *)

Lemma merge_spec q d n rest : merge_fragments q = (d, n, rest) ->
  exists taken, q = taken ++ rest /\ n = zlen taken /\ d = bytes_of (map chunk_of taken) /\ (q <> [] -> taken <> [])
    /\ forall acc, - 2 ^ 31 <= acc < 2 ^ 31 -> peek_length q acc = s32 (acc + zlen d).
Proof.
  revert d n rest. induction q as [| s q IH]; intros d n rest; cbn [merge_fragments].
  - intros [= <- <- <-]. exists []. split; [done |]. split; [done |]. split; [done |]. split; [done |]. intros acc Ha.
    cbn [peek_length]. by rewrite zlen_nil, Z.add_0_r, s32_small.
  - destruct (frg (head s) =? 0) eqn:E.
    + intros [= <- <- <-]. exists [s]. split; [done |]. split; [done |]. split; [cbn; by rewrite app_nil_r |]. split; [done |].
      intros acc Ha. cbn [peek_length]. by rewrite E.
    + destruct (merge_fragments q) as [[d' n'] rest'] eqn:Em. intros [= <- <- <-]. destruct (IH _ _ _ eq_refl) as (tk & -> & -> & -> & _ & Hp).
      exists (s :: tk). split; [done |]. split; [by rewrite zlen_cons |]. split; [done |]. split; [done |]. intros acc Ha.
      cbn [peek_length]. rewrite E, Hp, zlen_app by apply s32_range. unfold wraps. change (2 ^ (32 - 1)) with (2 ^ 31). f_equal.
      replace ((acc + zlen (data s) + 2 ^ 31) mod 2 ^ 32 - 2 ^ 31 + zlen (bytes_of (map chunk_of tk)) + 2 ^ 31)
        with ((acc + zlen (data s) + 2 ^ 31) mod 2 ^ 32 + zlen (bytes_of (map chunk_of tk))) by lia.
      rewrite Zplus_mod_idemp_l. f_equal. lia.
Qed.

Lemma bytes_bound l : Forall seg_ok l -> zlen (bytes_of (map chunk_of l)) <= zlen l * 65535.
Proof.
  induction 1 as [| s l [_ Hs] _ IH]; [done |]. cbn [map]. change (bytes_of (chunk_of s :: map chunk_of l)) with (data s ++ bytes_of (map chunk_of l)).
  rewrite zlen_app, zlen_cons. lia.
Qed.

Lemma s32_nonneg z : 0 <= z < 2 ^ 32 -> 0 <= s32 z -> s32 z = z.
Proof.
  intros H. unfold wraps. change (2 ^ (32 - 1)) with (2 ^ 31). intros Hs. destruct (decide (z < 2 ^ 31)); [rewrite Z.mod_small; lia |].
  exfalso. replace (z + 2 ^ 31) with (z - 2 ^ 31 + 1 * 2 ^ 32) in Hs by lia. rewrite Z.mod_add, Z.mod_small in Hs; lia.
Qed.

(** What [ikcp_recv] does: nothing, or a message [d] of the segments [taken] comes out of
    the queue, and [l] goes to it from the buffer. *)
Inductive receives (P : Z -> Segment -> Prop) (R len : Z) k : Z -> list Z -> ikcpcb -> list Segment -> Prop :=
| receives_none code : code < 0 -> receives P R len k code [] k []
| receives_message d taken rest k' l : k.(rx).(rcv_queue) = taken ++ rest -> taken <> [] -> d = bytes_of (map chunk_of taken) ->
    zlen d <= len -> merge_fragments k.(rx).(rcv_queue) = (d, zlen taken, rest) -> 0 <= ikcp_peeksize k ->
    k'.(rx).(rcv_queue) = rest ++ l -> consecutive P R l -> receives P R len k (zlen d) d k' l
| receives_peek d k' l : len < 0 -> k'.(rx).(rcv_queue) = k.(rx).(rcv_queue) ++ l -> consecutive P R l ->
    receives P R len k (zlen d) d k' l.

Lemma peeksize_merge P R k d n rest : rx_ok P R k.(rx) -> k.(rx).(rcv_queue) <> [] -> merge_fragments k.(rx).(rcv_queue) = (d, n, rest) ->
  0 <= ikcp_peeksize k -> ikcp_peeksize k = zlen d /\ zlen d < 2 ^ 31.
Proof.
  intros H Hne E Hp. destruct (merge_spec _ _ _ _ E) as (tk & Eq & _ & Ed & _ & Hpl).
  assert (0 <= zlen d < 2 ^ 32) as Hd.
  { split; [apply zlen_nonneg |]. pose proof (rx_segs _ _ _ H) as Hs. apply Forall_app in Hs as [Hs _]. pose proof (rx_que_max _ _ _ H) as Hm.
    rewrite Eq in Hs, Hm. apply Forall_app in Hs as [Hs _]. pose proof (bytes_bound _ Hs) as Hb. rewrite zlen_app in Hm.
    pose proof (zlen_nonneg rest). rewrite Ed. lia. }
  assert (ikcp_peeksize k = s32 (zlen d)) as E1.
  { unfold ikcp_peeksize in *. destruct (rcv_queue (rx k)) as [| s q] eqn:Eqq; [done |]. cbn [merge_fragments] in E.
    destruct (frg (head s) =? 0) eqn:Ef; [by injection E as <- _ _ |]. destruct (_ <? _); [lia |].
    rewrite Hpl by lia. by rewrite Z.add_0_l. }
  rewrite E1 in *. pose proof (s32_range (zlen d)). rewrite (s32_nonneg (zlen d)) in * by done. lia.
Qed.

Lemma recv_ok h P (HP : forall i s, P i s -> has_number i s) R len k : Wf h P R k -> - 2 ^ 31 < len < 2 ^ 31 ->
  exists code d k' l, ikcp_recv len k = Ret (code, d, k') /\ receives P R len k code d k' l /\ Wf h P (R + zlen l) k'
    /\ k'.(tx) = k.(tx) /\ k'.(cfg) = k.(cfg) /\ k'.(clock) = k.(clock) /\ k'.(rx).(acklist) = k.(rx).(acklist)
    /\ (forall i, has P R k.(rx) i -> has P (R + zlen l) k'.(rx) i)
    /\ (forall W, k.(cfg).(rcv_wnd) <= W -> fitting P W R k.(rx) -> fitting P W (R + zlen l) k'.(rx))
    /\ k.(rx).(rcv_buf) = l ++ k'.(rx).(rcv_buf) /\ consecutive P R l.
Proof.
  intros W Hlen. pose proof W as [W1 W2 W3 W4 W5 W6 W7 W8]. unfold ikcp_recv.
  assert (forall code, code < 0 -> exists c d k' l, Ret (code, [], k) = Ret (c, d, k') /\ receives P R len k c d k' l /\ Wf h P (R + zlen l) k'
    /\ k'.(tx) = k.(tx) /\ k'.(cfg) = k.(cfg) /\ k'.(clock) = k.(clock) /\ k'.(rx).(acklist) = k.(rx).(acklist)
    /\ (forall i, has P R k.(rx) i -> has P (R + zlen l) k'.(rx) i)
    /\ (forall W, k.(cfg).(rcv_wnd) <= W -> fitting P W R k.(rx) -> fitting P W (R + zlen l) k'.(rx))
    /\ k.(rx).(rcv_buf) = l ++ k'.(rx).(rcv_buf) /\ consecutive P R l) as none.
  { intros code Hc. exists code, [], k, []. rewrite zlen_nil, Z.add_0_r. split; [done |]. split; [by constructor | by auto 20]. }
  destruct (rcv_queue (rx k)) as [| s0 q0] eqn:Eq; [apply none; lia |]. rewrite <- Eq. assert (rcv_queue (rx k) <> []) as Hne by congruence.
  assert ((if len <? 0 then int32 (- len) else Ret len) = Ret (Z.abs len)) as ->.
  { destruct (len <? 0) eqn:E; [rewrite int32_small by lia |]; f_equal; lia. }
  cbn [mbind result_bind]. destruct (ikcp_peeksize k <? 0) eqn:E1; [apply none; lia |].
  destruct (ikcp_peeksize k >? Z.abs len) eqn:E2; [apply none; lia |].
  destruct (merge_fragments (rcv_queue (rx k))) as [[d n] rest] eqn:Em.
  destruct (peeksize_merge P R k d n rest W5 Hne Em ltac:(lia)) as [Ep Hd]. pose proof (zlen_nonneg d) as Hd0.
  rewrite (s32_small (zlen d)) by lia. destruct (zlen d >? Z.abs len) eqn:E3; [lia |].
  destruct (merge_spec _ _ _ _ Em) as (tk & Etk & -> & Ed & Htk & _). specialize (Htk Hne).
  set (r1 := if len <? 0 then rx k else _). assert (rx_ok P R r1 /\ (forall i, has P R (rx k) i -> has P R r1 i)
    /\ acklist r1 = acklist (rx k) /\ (rcv_queue r1 = if len <? 0 then rcv_queue (rx k) else rest)
    /\ (forall W, fitting P W R (rx k) -> fitting P W R r1) /\ rcv_buf r1 = rcv_buf (rx k)) as (H1 & Hh & Ha & Hq & Hf & Hb).
  { unfold r1. destruct (len <? 0); [done |]. pose proof W5 as [X1 X2 X3 X4 X5 X6 X7 X8 X9]. rewrite Etk in X6, X7. rewrite zlen_app in X6. pose proof (zlen_nonneg tk). pose proof (zlen_nonneg rest).
    split; [| do 3 (split; [done |]); split; [| done]; intros W' [F1 F2]; split; [| done]; cbn; rewrite Etk, zlen_app in F1; lia].
    split; cbn [rcv_nxt rcv_buf nrcv_buf nrcv_que rcv_queue acklist ackblock]; try done; [| lia |].
    - rewrite X5, Etk, zlen_app, u32_small; lia.
    - rewrite <- app_assoc in X7. by apply Forall_app in X7 as [_ X7]. }
  destruct (move_ready_ok P HP (rcv_wnd (cfg k)) (rcv_buf r1) r1 R) as (l & [M1 M2 M3 M4 M5 M6] & Fl); [destruct W1; lia | done | done |].
  fold (move_available (rcv_wnd (cfg k)) r1) in *. set (r2 := move_available _ r1) in *.
  set (k1 := with_rx r2 k). set (k2 := if _ && _ then with_prb (ask_tell (prb k1)) k1 else k1).
  assert (Wf h P (R + zlen l) k2 /\ k2.(tx) = k.(tx) /\ k2.(cfg) = k.(cfg) /\ k2.(clock) = k.(clock) /\ k2.(rx) = r2) as (V1 & V2 & V3 & V4 & V5)
    by (unfold k2; destruct (_ && _); (split; [split; assumption | done])).
  exists (zlen d), d, k2, l. split; [done |]. split; [| rewrite V5; do 4 (split; [done |]); split; [congruence |]; split; [by auto |]; split; [intros W' HW' Fk; apply Fl; [done | by apply Hf] | by rewrite <- Hb]]. destruct (len <? 0) eqn:El.
  - apply receives_peek; [lia | by rewrite V5, M3, Hq | done].
  - apply (receives_message P R len k d tk rest); try done; [lia | lia |]. by rewrite V5, M3, Hq.
Qed.
End User.

(** ** Datagrams of frames *)

Definition framed (c : Z) (Q : Frame -> Prop) (d : list Z) (fs : list Frame) : Prop := d = encode_frames c fs /\ Forall Q fs.

Lemma encode_frames_snoc c fs f : encode_frames c (fs ++ [f]) = encode_frames c fs ++ encode_frame c f.
Proof. unfold encode_frames. by rewrite map_app, concat_app; simpl; rewrite app_nil_r. Qed.

Section Out.
Context (c : Config) (Q : Frame -> Prop).

Record out_ok (o : Out) : Prop := {
  out_pending : exists fs, framed c.(kconv) Q o.(pending) fs;
  out_size : zlen o.(pending) <= c.(mtu);
  out_sent : Forall (fun d => 0 < zlen d <= c.(mtu) /\ exists fs, framed c.(kconv) Q d fs) o.(outputs)
}.

(** The frame [f] is written. *)
Definition emits (o : Out) (f : Frame) : Prop :=
  exists d fs, d ∈ o.(outputs) ++ [o.(pending)] /\ framed c.(kconv) Q d fs /\ f ∈ fs.

Definition more (o o' : Out) : Prop := forall f, emits o f -> emits o' f.

Lemma more_refl o : more o o.
Proof. by intros f. Qed.

Lemma more_trans o1 o2 o3 : more o1 o2 -> more o2 o3 -> more o1 o3.
Proof. unfold more. auto. Qed.

Lemma output_ok o : out_ok o -> out_ok (ikcp_output o) /\ more o (ikcp_output o) /\ (ikcp_output o).(pending) = [].
Proof.
  intros [Hp Hs Ho]. pose proof (zlen_nonneg (pending o)). unfold ikcp_output. destruct (zlen (pending o) =? 0) eqn:E.
  - split; [split; cbn; [by exists [] | rewrite zlen_nil; lia | done] |]. split; [| done].
    intros f (d & fs & Hd & Hf & Hin). exists d, fs. split; [| done]. cbn. assert (pending o = []) as <- by (apply zlen_0_nil; lia). done.
  - split; [split; cbn; [by exists [] | rewrite zlen_nil; lia |] |].
    + apply Forall_app. split; [done |]. constructor; [split; [lia | done] | done].
    + split; [| done]. intros f (d & fs & Hd & Hf & Hin). exists d, fs. split; [| done]. cbn. set_solver.
Qed.

(** A frame that is written after making room for it. *)
Lemma put_ok o f : out_ok o -> Q f -> cfg_ok c -> zlen o.(pending) + zlen (encode_frame c.(kconv) f) <= c.(mtu) ->
  exists o', put c.(buffer_size) (encode_frame c.(kconv) f) o = Ret o' /\ out_ok o' /\ more o o' /\ emits o' f.
Proof.
  intros [(fs & Ep & Hfs) Hs Ho] Hf Hc Hl. unfold put. rewrite (proj2 (Z.leb_le _ _)) by (destruct Hc; lia).
  eexists. split; [done |].
  assert (framed (kconv c) Q (pending o ++ encode_frame (kconv c) f) (fs ++ [f])) as F.
  { split; [by rewrite encode_frames_snoc, <- Ep | apply Forall_app; by split; [| constructor]]. }
  split; [split; cbn; [by eexists | by rewrite zlen_app | done] |]. split.
  - intros g (d & gs & Hd & Hg & Hin). apply elem_of_app in Hd as [Hd | Hd].
    + exists d, gs. split; [| done]. cbn. apply elem_of_app. by left.
    + apply list_elem_of_singleton in Hd as ->. exists (pending o ++ encode_frame (kconv c) f), (gs ++ [f]). cbn. split; [set_solver |].
      destruct Hg as [Eg Hg]. split; [| set_solver]. split; [by rewrite encode_frames_snoc, <- Eg | apply Forall_app; by split; [| constructor]].
  - exists (pending o ++ encode_frame (kconv c) f), (fs ++ [f]). cbn. split; [set_solver |]. split; [done | set_solver].
Qed.

Lemma make_room_ok o f : out_ok o -> cfg_ok c -> zlen (encode_frame c.(kconv) f) <= c.(mtu) ->
  let o1 := make_room (zlen (encode_frame c.(kconv) f)) c o in
  out_ok o1 /\ more o o1 /\ zlen o1.(pending) + zlen (encode_frame c.(kconv) f) <= c.(mtu).
Proof.
  intros H Hc Hl. cbv zeta. unfold make_room. destruct (_ >? _) eqn:E; [| split; [done |]; split; [apply more_refl | lia]].
  destruct (output_ok o H) as (H1 & H2 & ->). split; [done |]. split; [done |]. rewrite zlen_nil. lia.
Qed.

Lemma put_frame_ok o f : out_ok o -> Q f -> cfg_ok c -> zlen (encode_frame c.(kconv) f) <= c.(mtu) ->
  exists o', put c.(buffer_size) (encode_frame c.(kconv) f) (make_room (zlen (encode_frame c.(kconv) f)) c o) = Ret o'
    /\ out_ok o' /\ more o o' /\ emits o' f.
Proof.
  intros H Hq Hc Hl. destruct (make_room_ok o f H Hc Hl) as (H1 & H2 & H3).
  destruct (put_ok _ f H1 Hq Hc H3) as (o' & E & H4 & H5 & H6). exists o'. split; [done |]. split; [done |].
  split; [by eapply more_trans | done].
Qed.
End Out.

(** ** Frames that an end sends *)

(** [h] is what it has numbered, [R] how much it has received, [acks] what it acknowledges,
    [sns] the numbers that wait for an acknowledgement. *)
Definition good (c : Z) (h : list Chunk) (R : Z) (acks : list (Z * Z)) (sns : list Z) (f : Frame) : Prop :=
  frame_ok c f /\ una_of f = u32 R /\ (forall a, a ∈ acks_of f -> a ∈ acks)
  /\ forall s, pushes f = Some s -> exists i, 0 <= i /\ zlen h - WND_MAX <= i < zlen h /\ s.(head).(sn) = u32 i
       /\ h !! Z.to_nat i = Some (s.(head).(frg), s.(data)) /\ s.(head).(sn) ∈ sns.

Lemma unused_range P R k : cfg_ok k.(cfg) -> rx_ok P R k.(rx) -> 0 <= ikcp_wnd_unused k < 65536.
Proof.
  intros Hc Hr. unfold ikcp_wnd_unused. pose proof (rx_que_count _ _ _ Hr). pose proof (zlen_nonneg (rcv_queue (rx k))). destruct Hc.
  case_match; lia.
Qed.

Section Control.
Context (k : ikcpcb) (P : Z -> Segment -> Prop) (R : Z) (h : list Chunk) (Hc : cfg_ok k.(cfg)) (Hr : rx_ok P R k.(rx)).
Context (acks : list (Z * Z)) (Hacks : forall a, a ∈ k.(rx).(acklist) -> a ∈ acks) (sns : list Z).
Abbreviation Q := (good k.(cfg).(kconv) h R acks sns).

Lemma control_good n stamp cm : known_command cm = true -> cm <> IKCP_CMD_PUSH -> 0 <= n < 2 ^ 32 -> 0 <= stamp < 2 ^ 32 ->
  (cm = IKCP_CMD_ACK -> (n, stamp) ∈ k.(rx).(acklist)) -> Q (Plain (control k cm n stamp) []).
Proof.
  intros Hk Hp Hn Hs Ha. pose proof (unused_range _ _ _ Hc Hr) as Hu. pose proof (u32_range R). split; [| split; [| split]].
  - split; [| split; [apply is_bytes_nil | rewrite zlen_nil; lia]]. split; cbn; try done; try lia. rewrite (rx_nxt _ _ _ Hr). lia.
  - cbn. apply Hr.
  - cbn. intros a Hin. destruct (cm =? IKCP_CMD_ACK) eqn:E; [| by apply elem_of_nil in Hin]. apply list_elem_of_singleton in Hin as ->.
    apply Hacks, Ha. lia.
  - intros s. cbn. by rewrite (proj2 (Z.eqb_neq _ _) Hp).
Qed.

Lemma put_control_ok n stamp cm o : known_command cm = true -> cm <> IKCP_CMD_PUSH -> 0 <= n < 2 ^ 32 -> 0 <= stamp < 2 ^ 32 ->
  (cm = IKCP_CMD_ACK -> (n, stamp) ∈ k.(rx).(acklist)) -> out_ok k.(cfg) Q o ->
  exists o', put_control k cm n stamp o = Ret o' /\ out_ok k.(cfg) Q o' /\ more k.(cfg) Q o o'
    /\ emits k.(cfg) Q o' (Plain (control k cm n stamp) []).
Proof.
  intros Hk Hp Hn Hs Ha Ho. pose proof (control_good n stamp cm Hk Hp Hn Hs Ha) as HQ. unfold put_control.
  assert (encode_frame (kconv (cfg k)) (Plain (control k cm n stamp) []) = ikcp_encode_seg (control k cm n stamp) 0) as E by (cbn [encode_frame]; by rewrite app_nil_r, zlen_nil).
  pose proof (put_frame_ok (cfg k) Q o (Plain (control k cm n stamp) []) Ho HQ Hc) as H. rewrite E, zlen_encode_seg in H.
  apply H. destruct Hc. lia.
Qed.

Lemma put_acks_ok l o : (forall a, a ∈ l -> a ∈ k.(rx).(acklist)) -> out_ok k.(cfg) Q o ->
  exists o', put_acks k l o = Ret o' /\ out_ok k.(cfg) Q o' /\ more k.(cfg) Q o o'
    /\ forall a, a ∈ l -> exists f, emits k.(cfg) Q o' f /\ a ∈ acks_of f.
Proof.
  revert o. induction l as [| [n stamp] l IH]; intros o Hl Ho; cbn [put_acks].
  - exists o. split; [done |]. split; [done |]. split; [apply more_refl |]. intros a Ha. by apply elem_of_nil in Ha.
  - pose proof (rx_acks _ _ _ Hr) as He. rewrite Forall_forall in He. destruct (He (n, stamp)) as [Hn Hs]; [apply list_elem_of_In, Hl; by left |].
    destruct (put_control_ok n stamp IKCP_CMD_ACK o) as (o1 & -> & H1 & M1 & E1); try done; [intros _; apply Hl; by left |].
    cbn [mbind result_bind]. destruct (IH o1) as (o2 & -> & H2 & M2 & E2); [intros a Ha; apply Hl; by right | done |].
    exists o2. split; [done |]. split; [done |]. split; [by eapply more_trans |]. intros a Ha. apply elem_of_cons in Ha as [-> | Ha]; [| by apply E2].
    exists (Plain (control k IKCP_CMD_ACK n stamp) []). split; [by apply M2 | cbn; by left].
Qed.

Lemma compact_good l : (forall a, a ∈ l -> a ∈ k.(rx).(acklist)) -> zlen l < 65536 ->
  Q (Compact (ikcp_wnd_unused k) k.(rx).(rcv_nxt) l).
Proof.
  intros Hl Hn. pose proof (unused_range _ _ _ Hc Hr) as Hu. pose proof (u32_range R). rewrite (rx_nxt _ _ _ Hr). split; [| split; [done |]; split; [by auto | done]].
  split; [lia |]. split; [lia |]. split; [done |]. apply Forall_forall. intros a Ha. pose proof (rx_acks _ _ _ Hr) as He.
  rewrite Forall_forall in He. apply He, list_elem_of_In, Hl, list_elem_of_In, Ha.
Qed.

Lemma zlen_encode_ackn l : zlen (encode_ackn k l) = 13 + zlen l * 8.
Proof.
  unfold encode_ackn. rewrite !zlen_app, !zlen_le_encode. unfold zlen. rewrite length_entries. lia.
Qed.

Lemma put_ackn_ok fuel l o : (length l <= fuel)%nat -> (forall a, a ∈ l -> a ∈ k.(rx).(acklist)) -> out_ok k.(cfg) Q o ->
  exists o', put_ackn fuel k l o = Ret o' /\ out_ok k.(cfg) Q o' /\ more k.(cfg) Q o o'
    /\ forall a, a ∈ l -> exists f, emits k.(cfg) Q o' f /\ a ∈ acks_of f.
Proof.
  revert l o. induction fuel as [| fuel IH]; intros l o Hf Hl Ho.
  { destruct l; [| simpl in Hf; lia]. exists o. split; [done |]. split; [done |]. split; [apply more_refl |]. intros a Ha. by apply elem_of_nil in Ha. }
  destruct l as [| a0 l0] eqn:El; [exists o; split; [done |]; split; [done |]; split; [apply more_refl |]; intros a Ha; by apply elem_of_nil in Ha |].
  rewrite <- El in *. assert (1 <= zlen l) as Hl1 by (rewrite El, zlen_cons; pose proof (zlen_nonneg l0); lia).
  assert (put_ackn (S fuel) k l o = let per := Z.quot (k.(cfg).(mtu) - IKCP_ACKN_OVERHEAD) IKCP_ACKN_ENTRY in
      if per <=? 0 then Ret o else
      let batch := if zlen l >? per then per else zlen l in
      let need := IKCP_ACKN_OVERHEAD + batch * IKCP_ACKN_ENTRY in
      let o := if (zlen o.(pending) >? 0) && (zlen o.(pending) + need >? k.(cfg).(mtu)) then ikcp_output o else o in
      o ← put k.(cfg).(buffer_size) (encode_ackn k (take (Z.to_nat batch) l)) o;
      put_ackn fuel k (drop (Z.to_nat batch) l) o) as -> by (by rewrite El).
  cbv zeta. unfold IKCP_ACKN_OVERHEAD, IKCP_ACKN_ENTRY. set (per := Z.quot _ 8).
  assert (1 <= per /\ per * 8 <= mtu (cfg k) - 13 /\ per < 65536) as Hper.
  { unfold per. destruct Hc. rewrite Z.quot_div_nonneg by lia. pose proof (Z.div_mod (mtu (cfg k) - 13) 8).
    pose proof (Z.mod_pos_bound (mtu (cfg k) - 13) 8). lia. }
  rewrite (proj2 (Z.leb_gt per 0)) by lia. set (batch := if zlen l >? per then per else zlen l).
  assert (1 <= batch <= zlen l /\ batch <= per) as Hb by (unfold batch; case_match; lia).
  set (l1 := take (Z.to_nat batch) l). assert (zlen l1 = batch) as Hl1' by (apply zlen_take; lia).
  set (o1 := if _ && _ then ikcp_output o else o).
  assert (out_ok (cfg k) Q o1 /\ more (cfg k) Q o o1 /\ zlen (pending o1) + (13 + batch * 8) <= mtu (cfg k)) as (H1 & M1 & S1).
  { unfold o1. destruct (_ && _) eqn:E.
    - destruct (output_ok _ _ _ Ho) as (X1 & X2 & ->). split; [done |]. split; [done |]. rewrite zlen_nil. lia.
    - split; [done |]. split; [apply more_refl |]. pose proof (zlen_nonneg (pending o)). apply andb_false_iff in E. lia. }
  assert (encode_ackn k l1 = encode_frame (kconv (cfg k)) (Compact (ikcp_wnd_unused k) (rcv_nxt (rx k)) l1)) as Ee by done.
  pose proof (zlen_encode_ackn l1) as Hz. rewrite Ee in *.
  assert (forall a, a ∈ l1 -> a ∈ l) as Hsub by (intros a Ha; eapply subseteq_take; exact Ha).
  destruct (put_ok (cfg k) Q o1 (Compact (ikcp_wnd_unused k) (rcv_nxt (rx k)) l1) H1) as (o2 & -> & H2 & M2 & E2); [| done | lia |].
  { apply compact_good; [by auto | lia]. }
  cbn [mbind result_bind]. destruct (IH (drop (Z.to_nat batch) l) o2) as (o3 & -> & H3 & M3 & E3); [rewrite length_drop; unfold zlen in *; lia | | done |].
  { intros a Ha. apply Hl. eapply subseteq_drop. exact Ha. }
  exists o3. split; [done |]. split; [done |]. split; [by do 2 (eapply more_trans; [eassumption |]) |]. intros a Ha.
  rewrite <- (take_drop (Z.to_nat batch) l) in Ha. apply elem_of_app in Ha as [Ha | Ha]; [| by apply E3].
  eexists. split; [apply M3, E2 | done].
Qed.

Lemma flush_acks_ok o : out_ok k.(cfg) Q o ->
  exists o', ikcp_flush_acks o k = Ret (o', with_acks [] k.(rx).(ackblock) k) /\ out_ok k.(cfg) Q o' /\ more k.(cfg) Q o o'
    /\ forall a, a ∈ k.(rx).(acklist) -> exists f, emits k.(cfg) Q o' f /\ a ∈ acks_of f.
Proof.
  intros Ho. unfold ikcp_flush_acks. destruct (zlen (acklist (rx k)) <=? 0) eqn:E.
  - assert (acklist (rx k) = []) as El by (apply zlen_0_nil; pose proof (zlen_nonneg (acklist (rx k))); lia).
    exists o. split; [| split; [done |]; split; [apply more_refl |]; rewrite El; intros a Ha; by apply elem_of_nil in Ha].
    unfold with_acks. rewrite <- El. by destruct k as [? ? [] ? ? ? ? ? ? ? ?].
  - destruct (ackn_mode (cfg k)).
    + destruct (put_ackn_ok (length (acklist (rx k))) (acklist (rx k)) o) as (o' & -> & H1 & M1 & E1); try done. by exists o'.
    + destruct (put_acks_ok (acklist (rx k)) o) as (o' & -> & H1 & M1 & E1); try done. by exists o'.
Qed.

Lemma put_probes_ok o : out_ok k.(cfg) Q o ->
  exists o', put_probes o k = Ret (o', with_prb (mkProbe 0 k.(prb).(ts_probe) k.(prb).(probe_wait)) k) /\ out_ok k.(cfg) Q o' /\ more k.(cfg) Q o o'.
Proof.
  intros Ho. unfold put_probes.
  assert (forall (b : bool) cm o, cm = IKCP_CMD_WASK \/ cm = IKCP_CMD_WINS -> out_ok (cfg k) Q o ->
    exists o', (if b then put_control k cm 0 0 o else Ret o) = Ret o' /\ out_ok (cfg k) Q o' /\ more (cfg k) Q o o') as one.
  { intros b cm o0 Hcm H0. destruct b; [| exists o0; split; [done |]; split; [done | apply more_refl]].
    destruct (put_control_ok 0 0 cm o0) as (o' & E & H1 & M1 & _); try done; [by destruct Hcm as [-> | ->].. |]. by exists o'. }
  destruct (one (negb (Z.land (probe (prb k)) IKCP_ASK_SEND =? 0)) IKCP_CMD_WASK o) as (o1 & -> & H1 & M1); [by left | done |].
  cbn [mbind result_bind].
  destruct (one (negb (Z.land (probe (prb k)) IKCP_ASK_TELL =? 0)) IKCP_CMD_WINS o1) as (o2 & -> & H2 & M2); [by right | done |].
  cbn [mbind result_bind]. exists o2. split; [done |]. split; [done |]. by eapply more_trans.
Qed.
End Control.

(** ** Numbering *)

(** [k'] has numbered the chunks [cs] of the queue of [k]. *)
Record numbers k k' (cs : list Chunk) : Prop := {
  num_cfg : k'.(cfg) = k.(cfg);
  num_rx : k'.(rx) = k.(rx);
  num_rtt : k'.(rtt) = k.(rtt);
  num_win : k'.(win) = k.(win);
  num_clock : k'.(clock) = k.(clock);
  num_una : k'.(tx).(snd_una) = k.(tx).(snd_una);
  num_queue : k.(tx).(snd_queue) = cs ++ k'.(tx).(snd_queue);
  num_buf : exists new, k'.(tx).(snd_buf) = k.(tx).(snd_buf) ++ new /\ Forall (fun s => s.(xmit) = 0) new
    /\ map (fun s => s.(seg).(data)) new = cs.*2
}.

Lemma lookup_app_here {A} (l : list A) a rest : (l ++ a :: rest) !! Z.to_nat (zlen l) = Some a.
Proof. rewrite zlen_to_nat. by apply list_lookup_middle. Qed.

Lemma sent_as_more c h cs i s : sent_as c h i s -> sent_as c (h ++ cs) i s.
Proof.
  intros (H1 & H2 & H3 & H4 & H5). do 4 (split; [done |]). apply lookup_app_l_Some. exact H5.
Qed.

Lemma number_ok wnd unused q h U k : 0 <= wnd <= 65535 -> k.(tx).(snd_queue) = q -> tx_ok k.(cfg).(kconv) h U k.(tx) ->
  exists cs, let k' := number_segments wnd unused q k in
    numbers k k' cs /\ tx_ok k.(cfg).(kconv) (h ++ cs) U k'.(tx) /\ (zlen h - U <= wnd -> zlen (h ++ cs) - U <= wnd)
    /\ (cs = q \/ wnd <= zlen (h ++ cs) - U) /\ zlen k'.(tx).(snd_buf) <= Z.max (zlen k.(tx).(snd_buf)) wnd
    /\ (forall i, zlen h <= i < zlen (h ++ cs) -> exists s, s ∈ k'.(tx).(snd_buf) /\ seg_sn s = u32 i)
    /\ forall s, s ∈ k'.(tx).(snd_buf) -> s ∈ k.(tx).(snd_buf) \/ exists i, zlen h <= i < zlen (h ++ cs) /\ seg_sn s = u32 i.
Proof.
  intros Hw. revert h k. induction q as [| [f d] q IH]; intros h k Eq H; cbn [number_segments]; cbv zeta.
  { exists []. rewrite !app_nil_r. split; [split; try done; exists []; by rewrite app_nil_r |]. split; [done |]. split; [done |]. split; [by left |]. split; [lia |]. split; [lia | by left]. }
  pose proof H as [T1 T2 T3 T4 T5 T6 T7 T8]. pose proof (numbered_le _ _ _ _ T5) as Hle. pose proof (zlen_nonneg (snd_buf (tx k))) as Hz.
  rewrite T3, T4, u32_add, itimediff_u32 by lia. destruct (_ <? 0) eqn:E.
  2: { exists []. rewrite !app_nil_r. split; [split; try done; exists []; by rewrite app_nil_r |]. split; [done |].
       split; [done |]. split; [right; lia |]. split; [lia |]. split; [lia | by left]. }
  set (s := mkSending _ _ _ _ _ _). set (k1 := with_tx _ k).
  assert (tx_ok (kconv (cfg k1)) (h ++ [(f, d)]) U k1.(tx)) as H1.
  { assert (zlen (h ++ [(f, d)]) = zlen h + 1) as Hl by (by rewrite zlen_app, zlen_one).
    split; cbn [k1 tx with_tx snd_una snd_nxt snd_buf nsnd_buf nsnd_que snd_queue cfg]; rewrite ?Hl; try done; try lia.
    - by rewrite u32_add.
    - apply numbered_snoc; [eapply numbered_mono; [exact T5 |]; intros; by apply sent_as_more |].
      split; [done |]. split; [done |]. split; [done |]. split; [lia |]. apply lookup_app_here.
    - rewrite T6, zlen_app, zlen_one, u32_small; lia.
    - rewrite T7, Eq, u32_sub, zlen_cons. f_equal. lia.
    - rewrite Eq in T8. by rewrite <- app_assoc. }
  destruct (IH (h ++ [(f, d)]) k1 eq_refl H1) as (cs & N & H2 & Hwn & Hmax & Hbuf & Hnew & Hold). rewrite <- !app_assoc in *.
  exists ((f, d) :: cs). split.
  - destruct N as [N1 N2 N3 N4 N5 N6 N7 (new & N8 & N9 & N10)]. split; try done; [by rewrite N6, T3 | rewrite Eq; simpl; f_equal; exact N7 |].
    exists (s :: new). split; [by rewrite N8; cbn; rewrite <- app_assoc |]. split; [by constructor |]. cbn. by rewrite N10.
  - split; [exact H2 |]. split.
    + intros _. apply Hwn. rewrite zlen_app, zlen_one. lia.
    + split; [destruct Hmax as [-> | ?]; [by left | by right] |]. split.
      { pose proof (numbered_le _ _ _ _ (tx_buf _ _ _ _ H1)) as Hk1. rewrite zlen_app, zlen_one in Hk1. lia. }
      split.
      * intros i Hi. destruct (decide (i = zlen h)) as [-> | Hne]; [| apply Hnew; rewrite zlen_app, zlen_one; split; [lia | apply Hi]].
        destruct N as [_ _ _ _ _ _ _ (new & N8 & _)]. exists s. split; [| done]. rewrite N8. cbn. set_solver.
      * intros x Hx. destruct (Hold x Hx) as [Hin | (i & [Hi1 Hi2] & Ei)]; [| right; exists i; rewrite zlen_app, zlen_one in Hi1; split; [split; [lia | exact Hi2] | done]].
        cbn in Hin. apply elem_of_app in Hin as [Hin | Hin]; [by left | right]. apply list_elem_of_singleton in Hin as ->.
        exists (zlen h). split; [| by rewrite <- T4]. cbn [app]. rewrite zlen_app, zlen_cons. pose proof (zlen_nonneg cs). lia.
Qed.

(** ** Transmission *)

Lemma due_core resent rtomin k s r s' : due resent rtomin k s = Some (r, s') -> same_core s s'.
Proof. unfold due. intros H. repeat case_match; by simplify_eq. Qed.

(** A segment that is not due was sent, and its time has not come. *)
Lemma due_none resent rtomin k s : due resent rtomin k s = None -> s.(xmit) <> 0 /\ _itimediff k.(clock).(current) s.(resendts) < 0.
Proof.
  unfold due. destruct (s.(xmit) =? 0) eqn:E1; [done |]. destruct (_ >=? 0) eqn:E2; [done |]. intros _. lia.
Qed.

Section Segments.
Context (k : ikcpcb) (P : Z -> Segment -> Prop) (R : Z) (h : list Chunk) (acks : list (Z * Z)) (sns : list Z).
Context (Hc : cfg_ok k.(cfg)) (Hr : rx_ok P R k.(rx)) (Hnow : 0 <= k.(clock).(current) < 2 ^ 32) (Hh : Forall chunk_ok h).
Context (unused : Z) (Hu : 0 <= unused < 65536).
Abbreviation Q := (good k.(cfg).(kconv) h R acks sns).

Definition fit (s : Sending) : Prop := zlen s.(seg).(data) <= k.(cfg).(mss).

Lemma stamped_good i s : sent_as k.(cfg).(kconv) h i s -> fit s -> zlen h - WND_MAX <= i < zlen h -> seg_sn s ∈ sns ->
  Q (Plain (stamped k unused s).(seg).(head) s.(seg).(data)).
Proof.
  intros (H1 & H2 & H3 & H4 & H5) Hf Hi Hsn. unfold fit in Hf. pose proof (u32_range i). pose proof (u32_range R).
  assert (chunk_ok (frg (head (seg s)), data (seg s))) as [Hfr Hby].
  { rewrite Forall_forall in Hh. apply Hh. apply list_elem_of_In, list_elem_of_lookup. by exists (Z.to_nat i). }
  cbn [fst snd] in Hfr, Hby. destruct Hc as [C1 C2 C3 C4 C5 C6]. split; [| split; [| split]].
  - split; [| split; [done | lia]]. split; cbn; try done; try lia; [by rewrite H2 | rewrite (rx_nxt _ _ _ Hr); lia].
  - cbn. apply Hr.
  - cbn. rewrite H2. change (IKCP_CMD_PUSH =? IKCP_CMD_ACK) with false. intros a Ha. by apply elem_of_nil in Ha.
  - intros x. cbn. rewrite H2. change (IKCP_CMD_PUSH =? IKCP_CMD_PUSH) with true. intros [= <-]. exists i. cbn. done.
Qed.

Lemma flush_segments_ok resent rtomin U l f : zlen h - U <= WND_MAX -> numbered (sent_as k.(cfg).(kconv) h) U (zlen h) l -> Forall fit l ->
  Forall (fun s => seg_sn s ∈ sns) l -> out_ok k.(cfg) Q f.(fout) ->
  exists l' f', flush_segments k resent rtomin unused l f = Ret (l', f') /\ Forall2 same_core l l' /\ out_ok k.(cfg) Q f'.(fout)
    /\ more k.(cfg) Q f.(fout) f'.(fout)
    /\ forall s, s ∈ l' -> (exists g x, emits k.(cfg) Q f'.(fout) g /\ pushes g = Some x /\ x.(head).(sn) = seg_sn s)
         \/ s ∈ l /\ s.(xmit) <> 0 /\ _itimediff k.(clock).(current) s.(resendts) < 0.
Proof.
  intros Hw. revert U Hw f. induction l as [| s l IH]; intros U Hw f Hn Hf Hsn Ho; cbn [flush_segments].
  { exists [], f. split; [done |]. split; [done |]. split; [done |]. split; [apply more_refl |]. intros s Hs. by apply elem_of_nil in Hs. }
  inversion Hn as [| ? ? i ? ? Hi HP Hl]; subst. apply Forall_cons_iff in Hf as [Hfs Hf]. apply Forall_cons_iff in Hsn as [Hs0 Hsn].
  pose proof (numbered_le _ _ _ _ Hl) as Hle. pose proof (zlen_nonneg l) as Hz.
  destruct (due resent rtomin k s) as [[r s1] |] eqn:Ed.
  - pose proof (due_core _ _ _ _ _ _ Ed) as C1. pose proof (sent_as_core _ _ _ _ _ C1 HP) as HP1.
    assert (fit s1) as Hfs1 by (unfold fit; destruct C1 as (_ & _ & _ & _ & ->); done).
    assert (seg_sn s1 ∈ sns) as Hs1 by (unfold seg_sn; destruct C1 as (_ & _ & -> & _); done).
    pose proof (stamped_good i s1 HP1 Hfs1 ltac:(lia) Hs1) as HQ. set (s2 := stamped k unused s1) in *. unfold transmit. fold s2.
    set (g := Plain (head (seg s2)) (data (seg s1))) in HQ.
    assert (encode_data (seg s2) = encode_frame (kconv (cfg k)) g) as Eg by done.
    assert (zlen (encode_frame (kconv (cfg k)) g) = IKCP_OVERHEAD + zlen (data (seg s2))) as Ez by (unfold g; cbn [encode_frame]; by rewrite zlen_app, zlen_encode_seg).
    rewrite <- Ez, Eg. destruct (put_frame_ok (cfg k) Q (fout f) g Ho HQ Hc) as (o1 & -> & H1 & M1 & E1).
    { rewrite Ez. unfold fit in Hfs1. unfold IKCP_OVERHEAD. destruct Hc. cbn. lia. }
    cbn [mbind result_bind]. set (f1 := mkFlushed _ _ _ _ _).
    destruct (IH (i + 1) ltac:(lia) f1 Hl Hf Hsn H1) as (l' & f' & -> & F2 & H2 & M2 & E2). cbn [mbind result_bind].
    exists (s2 :: l'), f'. split; [done |]. split; [constructor; [| done]; eapply same_core_trans; [exact C1 | done] |].
    split; [done |]. split; [by eapply more_trans |]. intros x Hx. apply elem_of_cons in Hx as [-> | Hx].
    + left. exists g, (mkSegment (head (seg s2)) (data (seg s1))). split; [by apply M2 |].
      destruct HP1 as (_ & Hcm & _). unfold g, s2. cbn. by rewrite Hcm.
    + destruct (E2 x Hx) as [? | (? & ? & ?)]; [by left | right]. split; [by right | done].
  - cbn [mbind result_bind]. destruct (IH (i + 1) ltac:(lia) f Hl Hf Hsn Ho) as (l' & f' & -> & F2 & H2 & M2 & E2). cbn [mbind result_bind].
    exists (s :: l'), f'. split; [done |]. split; [by constructor |]. split; [done |]. split; [done |].
    intros x Hx. apply elem_of_cons in Hx as [-> | Hx].
    + right. split; [by left |]. by eapply due_none.
    + destruct (E2 x Hx) as [? | (? & ? & ?)]; [by left | right]. split; [by right | done].
Qed.
End Segments.

(** ** A flush *)

Lemma core_numbers l l' : Forall2 same_core l l' -> map seg_sn l' = map seg_sn l.
Proof. induction 1 as [| s s' l l' H _ IH]; [done |]. cbn. rewrite IH. f_equal. unfold seg_sn. by destruct H as (_ & _ & -> & _). Qed.

Lemma encode_frames_nil c fs : encode_frames c fs = [] -> fs = [].
Proof.
  destruct fs as [| f fs]; [done |]. change (encode_frames c (f :: fs)) with (encode_frame c f ++ encode_frames c fs). intros H.
  apply app_eq_nil in H as [E _]. pose proof (zlen_encode_frame c f) as Hz. rewrite E, zlen_nil in Hz. lia.
Qed.

(** The frame [f] is in one of the datagrams. *)
Definition carries (c : Z) (Q : Frame -> Prop) (outs : list (list Z)) (f : Frame) : Prop :=
  exists d fs, d ∈ outs /\ framed c Q d fs /\ f ∈ fs.

Lemma emits_output c Q o f : out_ok c Q o -> emits c Q o f -> carries c.(kconv) Q (ikcp_output o).(outputs) f.
Proof.
  intros Ho He. destruct (output_ok c Q o Ho) as (_ & M & Ep). destruct (M f He) as (d & fs & Hd & Hf & Hin).
  rewrite Ep in Hd. apply elem_of_app in Hd as [Hd | Hd]; [by exists d, fs |]. apply list_elem_of_singleton in Hd as ->.
  destruct Hf as [Hf _]. symmetry in Hf. apply encode_frames_nil in Hf as ->. by apply elem_of_nil in Hin.
Qed.

Record flushes (P : Z -> Segment -> Prop) (h : list Chunk) (R : Z) k (outs : list (list Z)) k' (cs : list Chunk) : Prop := {
  fl_wf : Wf (h ++ cs) P R k';
  fl_queue : k.(tx).(snd_queue) = cs ++ k'.(tx).(snd_queue);
  fl_outs : Forall (fun d => 0 < zlen d <= k.(cfg).(mtu)
    /\ exists fs, framed k.(cfg).(kconv) (good k.(cfg).(kconv) (h ++ cs) R k.(rx).(acklist) (map seg_sn k'.(tx).(snd_buf))) d fs) outs;
  fl_count : zlen cs <= WND_MAX;
  fl_cfg : k'.(cfg) = k.(cfg);
  fl_clock : k'.(clock) = k.(clock);
  fl_rx : k'.(rx) = (with_acks [] k.(rx).(ackblock) k).(rx);
  fl_buf : forall s, s ∈ k.(tx).(snd_buf) -> exists s', s' ∈ k'.(tx).(snd_buf) /\ same_core s s';
  fl_new : forall i, zlen h <= i < zlen (h ++ cs) -> exists s, s ∈ k'.(tx).(snd_buf) /\ seg_sn s = u32 i;
  fl_acks : forall a, a ∈ k.(rx).(acklist) ->
    exists f, carries k.(cfg).(kconv) (good k.(cfg).(kconv) (h ++ cs) R k.(rx).(acklist) (map seg_sn k'.(tx).(snd_buf))) outs f /\ a ∈ acks_of f;
  fl_sent : forall s, s ∈ k'.(tx).(snd_buf) ->
    (exists f x, carries k.(cfg).(kconv) (good k.(cfg).(kconv) (h ++ cs) R k.(rx).(acklist) (map seg_sn k'.(tx).(snd_buf))) outs f
       /\ pushes f = Some x /\ x.(head).(sn) = seg_sn s)
    \/ s ∈ k.(tx).(snd_buf) /\ _itimediff k.(clock).(current) s.(resendts) < 0;
  fl_from : forall s', s' ∈ k'.(tx).(snd_buf) -> (exists s, s ∈ k.(tx).(snd_buf) /\ seg_sn s = seg_sn s')
    \/ exists i, zlen h <= i < zlen (h ++ cs) /\ seg_sn s' = u32 i;
  fl_window : zlen k'.(tx).(snd_buf) <= Z.max (zlen k.(tx).(snd_buf)) k.(cfg).(snd_wnd)
}.

Lemma send_window_range k : cfg_ok k.(cfg) -> win_ok k.(win) -> 0 <= send_window k <= 65535.
Proof. intros [] []. unfold send_window, _imin_. repeat case_match; lia. Qed.

Lemma shrink_window_ok change lost resent c inflight mss w : win_ok w -> win_ok (shrink_window change lost resent c inflight mss w).
Proof.
  intros [H1 H2]. unfold shrink_window. destruct change, lost; cbn; try (split; cbn; lia);
    (case_match; split; cbn; try done; try lia; apply u32_range).
Qed.

Lemma flush_ok P h R k : Wf h P R k -> k.(clock).(updated) = true ->
  exists outs k' cs, ikcp_flush k = Ret (outs, k') /\ flushes P h R k outs k' cs.
Proof.
  intros W Hup. pose proof W as [W1 [U W2] W3 W4 W5 W6 W7 W8].
  pose proof (unused_range _ _ _ W1 W5) as Hun. unfold ikcp_flush. rewrite Hup. cbn [negb].
  set (k1 := with_acks [] (ackblock (rx k)) k).
  set (k2 := with_prb (probe_window (current (clock k1)) (rmt_wnd (win k1)) (prb k1)) k1).
  set (k3 := with_prb (mkProbe 0 (ts_probe (prb k2)) (probe_wait (prb k2))) k2). set (c := send_window k3).
  assert (rx_ok P R k1.(rx)) as R1.
  { destruct W5 as [X1 X2 X3 X4 X5 X6 X7 X8 X9]. split; try done. cbn. pose proof (zlen_nonneg (acklist (rx k))). rewrite zlen_nil. lia. }
  destruct (number_ok c (ikcp_wnd_unused k) (snd_queue (tx k3)) h U k3) as (cs & N & T & _ & _ & Hbuf & Hnew & Hold);
    [by apply send_window_range | done | done |]. cbv zeta in N, T, Hbuf, Hnew, Hold. set (k4 := number_segments _ _ _ k3) in *.
  set (sns := map seg_sn (snd_buf (tx k4))). set (Q := good (kconv (cfg k)) (h ++ cs) R (acklist (rx k)) sns).
  assert (out_ok (cfg k) Q (mkOut [] [])) as O0. { split; cbn; [by exists [] | rewrite zlen_nil; destruct W1; lia | done]. }
  destruct (flush_acks_ok k P R (h ++ cs) W1 W5 (acklist (rx k)) ltac:(done) sns _ O0) as (o1 & -> & O1 & M1 & E1). cbn [mbind result_bind].
  fold k1 k2.
  destruct (put_probes_ok k2 P R (h ++ cs) W1 R1 (acklist (rx k)) ltac:(cbn; set_solver) sns o1 O1) as (o2 & -> & O2 & M2). cbn [mbind result_bind].
  fold k3 c k4. destruct N as [N1 N2 N3 N4 N5 N6 N7 (new & N8 & N9 & N10)].
  pose proof T as [T1 T2 T3 T4 T5 T6 T7 T8].
  set (resent := if fastresend (cfg k4) >? 0 then _ else _). set (rtomin := if nodelay (cfg k4) =? 0 then _ else _).
  assert (k4.(cfg) = k.(cfg)) as C4 by exact N1. assert (k4.(clock) = k.(clock)) as CL4 by exact N5.
  assert (k4.(rx) = k1.(rx)) as RX4 by exact N2. assert (Forall chunk_ok (h ++ cs)) as Hck by (by apply Forall_app in T8 as [? _]).
  assert (Forall (fit k4) (snd_buf (tx k4))) as Hfit.
  { rewrite N8. apply Forall_app. unfold fit. rewrite C4. split; [done |]. change (snd_queue (tx k3)) with (snd_queue (tx k)) in N7.
    rewrite N7 in W3. apply Forall_app in W3 as [W3 _]. apply Forall_forall. intros s Hs. rewrite Forall_forall in W3.
    assert (data (seg s) ∈ cs.*2) as Hd by (rewrite <- N10; apply list_elem_of_In; by apply (in_map (fun s => data (seg s)))).
    apply list_elem_of_fmap in Hd as (x & -> & Hx). by apply W3, list_elem_of_In. }
  destruct (flush_segments_ok k4 P R (h ++ cs) (acklist (rx k)) sns ltac:(by rewrite C4) ltac:(by rewrite RX4) ltac:(by rewrite CL4) Hck
    (ikcp_wnd_unused k) Hun resent rtomin U (snd_buf (tx k4)) (mkFlushed o2 (stats k4) (dead k4) false false) T2)
    as (l & f & -> & F & O3 & M3 & E3); [by rewrite C4 | done | | by rewrite C4 |].
  { apply Forall_forall. intros s Hs. apply list_elem_of_In. unfold sns. by apply in_map. }
  cbn [mbind result_bind]. rewrite C4 in O3, M3, E3.
  eexists _, _, cs. split; [done |]. destruct (output_ok _ _ _ O3) as (O4 & _ & _). destruct (from_core _ _ F) as [F1 F2].
  assert (map seg_sn l = sns) as El by (by apply core_numbers).
  split; cbn [cfg tx rx rtt win clock with_win with_dead with_stats with_sending with_tx snd_queue snd_buf snd_nxt snd_una nsnd_buf nsnd_que];
    rewrite ?El.
  - split; cbn [cfg tx rx rtt win clock with_win with_dead with_stats with_sending with_tx snd_queue snd_buf snd_nxt snd_una nsnd_buf nsnd_que];
      rewrite ?C4, ?CL4, ?RX4; try done.
    + exists U. split; try done; [by eapply numbered_core |]. cbn. rewrite T6. unfold zlen. by rewrite (Forall2_length F).
    + change (snd_queue (tx k3)) with (snd_queue (tx k)) in N7. rewrite N7 in W3. by apply Forall_app in W3 as [_ W3].
    + eapply from_sizes; [exact F1 |]. unfold fit in Hfit. by rewrite C4 in Hfit.
    + by rewrite N3.
    + apply shrink_window_ok. by rewrite N4.
  - exact N7.
  - apply O4.
  - rewrite zlen_app in T2. destruct W2 as [_ _ _ _ W2 _ _ _]. pose proof (numbered_le _ _ _ _ W2). pose proof (zlen_nonneg (snd_buf (tx k))). lia.
  - done.
  - done.
  - exact N2.
  - intros s Hs. apply F2. rewrite N8. apply elem_of_app. by left.
  - intros i Hi. destruct (Hnew i Hi) as (s & Hs & Es). destruct (F2 s Hs) as (s' & Hs' & Ec). exists s'. split; [done |].
    rewrite <- Es. unfold seg_sn. by destruct Ec as (_ & _ & -> & _).
  - intros a Ha. destruct (E1 a Ha) as (g & Hg & Hin). exists g. split; [| done]. apply (emits_output (cfg k)); [done |]. by apply M3, M2.
  - intros s Hs. destruct (E3 s Hs) as [(g & x & Hg & Hp & Hx) | (Hin & Hx & Hd)].
    + left. exists g, x. split; [by apply (emits_output (cfg k)) | done].
    + right. rewrite N8 in Hin. apply elem_of_app in Hin as [Hin | Hin]; [by rewrite CL4 in Hd |].
      rewrite Forall_forall in N9. by apply list_elem_of_In, N9 in Hin.
  - intros s' Hs'. destruct (F1 s' Hs') as (s & Hs & Ec). assert (seg_sn s = seg_sn s') as Es by (unfold seg_sn; by destruct Ec as (_ & _ & -> & _)).
    destruct (Hold s Hs) as [? | (i & Hi & Ei)]; [left; by exists s | right]. exists i. split; [done | congruence].
  - assert (c <= snd_wnd (cfg k)) by (unfold c, send_window, _imin_; cbn; repeat case_match; lia).
    change (tx k3) with (tx k) in Hbuf. unfold zlen in *. rewrite <- (Forall2_length F). lia.
Qed.

Lemma wf_clock h P R k cl : 0 <= cl.(current) < 2 ^ 32 -> Wf h P R k -> Wf h P R (with_clock cl k).
Proof. intros Hc [W1 W2 W3 W4 W5 W6 W7 W8]. by split. Qed.

(** [ikcp_update] sets the clock and flushes, or not. *)
Lemma update_ok P h R now k : Wf h P R k -> 0 <= now < 2 ^ 32 -> exists cl outs k' cs, cl.(current) = now
  /\ ikcp_update now k = Ret (outs, k')
  /\ (outs = [] /\ cs = [] /\ k' = with_clock cl k /\ k.(clock).(updated) = true \/ flushes P h R (with_clock cl k) outs k' cs).
Proof.
  intros W Hn. unfold ikcp_update.
  set (fl := if updated (clock k) then ts_flush (clock k) else now).
  destruct (if _ || _ then (now, 0) else _) as [flush slap] eqn:E. destruct (slap >=? 0) eqn:Es.
  - match goal with |- context [ikcp_flush (with_clock ?c k)] => set (cl := c) end.
    destruct (flush_ok P h R (with_clock cl k) (wf_clock _ _ _ _ cl Hn W) eq_refl) as (outs & k' & cs & Ef & F).
    exists cl, outs, k', cs. split; [done |]. split; [exact Ef | by right].
  - exists (mkClock now flush true), [], (with_clock (mkClock now flush true) k), []. split; [done |]. split; [done |]. left.
    split; [done |]. split; [done |]. split; [done |]. destruct (updated (clock k)) eqn:Eu; [done |]. exfalso. subst fl.
    unfold _itimediff in E. rewrite Z.sub_diag in E. change (s32 0) with 0 in E. cbn in E. injection E as _ <-. lia.
Qed.
