(* ===== verification/KcpSystem.v ===== *)
(** * KCP: two ends and a network

    Each end has users that send and receive, a clock that calls [ikcp_update], settings, and
    a network that delivers any datagram the other end ever sent, at any time, any number of
    times, or never.  The invariant relates the two ends through what each has numbered. *)

From stdpp Require Import sets.
From S2P Require Import Prelude Kcp KcpProofs KcpState KcpOps.

(** ** Two ends and a network *)

(** ** Ends and events *)

(** An end, with what its users sent and received, the datagrams it output, and two counts
    without a bound: of the segments it numbered and of those it received in order.  With a
    datagram goes the count of segments numbered when it was output. *)
Record Peer : Type := mkPeer {
  kcb : ikcpcb; said : list (list Z); got : list (list Z); count : Z; taken : Z; wire : list (Z * list Z)
}.

Inductive Event : Type :=
| Send (d : list Z)
| Recv (len : Z)
| Update (now : Z)
| Input (n : nat)                              (* the [n]th datagram of the other end arrives *)
| SetPacketSize (m : Z)
| SetNodelay (delay interval resend nc : Z)
| SetWindow (snd rcv : Z)
| SetCompact (enable : bool)
| Hurry.                                       (* [updateKcp]: the next update flushes *)

Definition with_kcb (k : ikcpcb) (p : Peer) : Peer := mkPeer k p.(said) p.(got) p.(count) p.(taken) p.(wire).

(** [KcpStream::setPacketSize] *)
Definition setPacketSize (ikcp_malloc : nat -> bool) (m : Z) (k : ikcpcb) : ikcpcb :=
  if (m >=? 65535) || (m <? 50) then k else
  if ikcp_waitsnd k >? 0 then k else (ikcp_setmtu ikcp_malloc m k).2.

(** [KcpStreamPrivate::updateKcp] *)
Definition updateKcp (k : ikcpcb) : ikcpcb := with_clock (mkClock k.(clock).(current) k.(clock).(ts_flush) false) k.

Definition act (seg_alloc ikcp_malloc : nat -> bool) (e : Event) (me other : Peer) : result Peer :=
  let k := me.(kcb) in
  match e with
  | Send d =>
      '(code, k) ← ikcp_send seg_alloc d (zlen d) k;
      Ret (mkPeer k (if code <? 0 then me.(said) else me.(said) ++ [take (Z.to_nat code) d]) me.(got) me.(count) me.(taken) me.(wire))
  | Recv len =>
      '(code, d, k') ← ikcp_recv len k;
      Ret (mkPeer k' me.(said) (if (code <? 0) || (len <? 0) then me.(got) else me.(got) ++ [d]) me.(count)
             (me.(taken) + u32 (k'.(rx).(rcv_nxt) - k.(rx).(rcv_nxt))) me.(wire))
  | Update now =>
      '(outs, k') ← ikcp_update now k;
      let n := me.(count) + u32 (k'.(tx).(snd_nxt) - k.(tx).(snd_nxt)) in
      Ret (mkPeer k' me.(said) me.(got) n me.(taken) (me.(wire) ++ map (fun d => (n, d)) outs))
  | Input n =>
      match other.(wire) !! n with
      | Some (_, d) =>
          '(_, k') ← ikcp_input seg_alloc ikcp_malloc d k;
          Ret (mkPeer k' me.(said) me.(got) me.(count) (me.(taken) + u32 (k'.(rx).(rcv_nxt) - k.(rx).(rcv_nxt))) me.(wire))
      | None => Ret me
      end
  | SetPacketSize m => Ret (with_kcb (setPacketSize ikcp_malloc m k) me)
  | SetNodelay delay i resend nc => Ret (with_kcb (ikcp_nodelay delay i resend nc k) me)
  | SetWindow snd rcv => Ret (with_kcb (ikcp_wndsize snd rcv k) me)
  | SetCompact b => Ret (with_kcb (ikcp_ackn_mode b k) me)
  | Hurry => Ret (with_kcb (updateKcp k) me)
  end.

(** The two ends; [true] is the first. *)
Record World : Type := mkWorld { west : Peer; east : Peer }.

Section System.
Context (seg_alloc ikcp_malloc : bool -> nat -> bool).

Definition exec (side : bool) (e : Event) (w : World) : result World :=
  if side then p ← act (seg_alloc true) (ikcp_malloc true) e w.(west) w.(east); Ret (mkWorld p w.(east))
  else p ← act (seg_alloc false) (ikcp_malloc false) e w.(east) w.(west); Ret (mkWorld w.(west) p).

Fixpoint run (l : list (bool * Event)) (w : World) : result World :=
  match l with
  | [] => Ret w
  | (side, e) :: l => w ← exec side e w; run l w
  end.

(** ** Runs that are considered *)

Definition frames_in (c : Z) (d : list Z) : list Frame := (frames_of (S (length d)) c d).1.

(** A datagram is not older than 2^30 segments, and the receiver not further behind; the
    time stamps it echoes are not older than three days. *)
Definition near (stamp : Z) (me other : Peer) : bool := (other.(count) - stamp <? 2 ^ 30) && (other.(count) - me.(taken) <? 2 ^ 30).

Definition timely_frames (k : ikcpcb) (d : list Z) : bool :=
  forallb (fun f => forallb (fun a => _itimediff k.(clock).(current) a.2 <? 2 ^ 28) (acks_of f)) (frames_in k.(cfg).(kconv) d).

Definition has_memory (seg_alloc : nat -> bool) (k : ikcpcb) : bool := forallb seg_alloc (seq k.(allocs) 129).

Definition sane (seg_alloc : nat -> bool) (e : Event) (me other : Peer) : bool :=
  let k := me.(kcb) in
  match e with
  | Send d => bytes_ok d && (zlen d <? 2 ^ 31) && has_memory seg_alloc k
  | Recv len => (- 2 ^ 31 <? len) && (len <? 2 ^ 31)
  | Update now => (0 <=? now) && (now <? 2 ^ 32)
  | Input n =>
      match other.(wire) !! n with
      | Some (stamp, d) => near stamp me other && timely_frames k d && (zlen k.(rx).(acklist) <? 2 ^ 30)
      | None => true
      end
  | SetPacketSize _ => zlen k.(tx).(snd_queue) + zlen k.(tx).(snd_buf) <? 2 ^ 31
  | _ => true
  end.

Definition sane_event (side : bool) (e : Event) (w : World) : bool :=
  if side then sane (seg_alloc true) e w.(west) w.(east) else sane (seg_alloc false) e w.(east) w.(west).

Fixpoint sane_run (l : list (bool * Event)) (w : World) : bool :=
  match l with
  | [] => true
  | (side, e) :: l => sane_event side e w && match exec side e w with Ret w => sane_run l w | _ => true end
  end.
End System.

(** ** What is known of segments and datagrams *)

(** Segment [s] is the [i]th that the other end numbered. *)
Definition got_as (h : list Chunk) (i : Z) (s : Segment) : Prop :=
  has_number i s /\ 0 <= i /\ h !! Z.to_nat i = Some (chunk_of s).

Lemma got_as_number h i s : got_as h i s -> has_number i s.
Proof. by intros [? _]. Qed.

Lemma got_as_more h cs i s : got_as h i s -> got_as (h ++ cs) i s.
Proof. intros (H1 & H2 & H3). split; [done |]. split; [done |]. by apply lookup_app_l_Some. Qed.

Lemma got_as_lt h i s : got_as h i s -> 0 <= i < zlen h.
Proof. intros (_ & H1 & H2). apply lookup_lt_Some in H2. unfold zlen. lia. Qed.

Lemma rx_ok_mono (P Q : Z -> Segment -> Prop) R r : (forall i s, P i s -> Q i s) -> rx_ok P R r -> rx_ok Q R r.
Proof. intros H [X1 X2 X3 X4 X5 X6 X7 X8 X9]. split; try done. eapply numbered_mono; [done |]. auto. Qed.

Lemma Wf_mono h (P Q : Z -> Segment -> Prop) R k : (forall i s, P i s -> Q i s) -> Wf h P R k -> Wf h Q R k.
Proof. intros H [W1 W2 W3 W4 W5 W6 W7 W8]. split; try done. by eapply rx_ok_mono. Qed.

(** Consecutive segments continue the received part of [h]. *)
Lemma consecutive_take h R l : 0 <= R <= zlen h -> consecutive (got_as h) R l ->
  R + zlen l <= zlen h /\ take (Z.to_nat (R + zlen l)) h = take (Z.to_nat R) h ++ map chunk_of l.
Proof.
  revert R. induction l as [| s l IH]; intros R HR H.
  - rewrite zlen_nil, Z.add_0_r, app_nil_r. split; [lia | done].
  - destruct H as [Hs H]. pose proof (got_as_lt _ _ _ Hs) as Hlt. destruct (IH (R + 1) ltac:(lia) H) as [H1 H2]. rewrite zlen_cons.
    replace (R + (1 + zlen l)) with (R + 1 + zlen l) by lia. split; [lia |]. rewrite H2. cbn [map].
    replace (Z.to_nat (R + 1)) with (S (Z.to_nat R)) by lia. destruct Hs as (_ & _ & Hs). by rewrite (take_S_r _ _ _ Hs), <- app_assoc.
Qed.

Record frame_sent (c : Z) (h : list Chunk) (stamp : Z) (f : Frame) : Prop := {
  fs_ok : frame_ok c f;
  fs_push : forall s, pushes f = Some s -> zlen s.(data) < 65536 /\ exists i, stamp - WND_MAX <= i < stamp /\ got_as h i s
}.

Definition wire_ok (c : Z) (h : list Chunk) (x : Z * list Z) : Prop :=
  x.1 <= zlen h /\ is_bytes x.2 /\ zlen x.2 < 65536 /\ Forall (frame_sent c h x.1) (frames_in c x.2).

Lemma wire_ok_more c h cs x : wire_ok c h x -> wire_ok c (h ++ cs) x.
Proof.
  intros (H1 & H2 & H3 & H4). split; [rewrite zlen_app; pose proof (zlen_nonneg cs); lia |]. split; [done |]. split; [done |].
  eapply Forall_impl; [| exact H4]. intros f [F1 F2]. split; [done |]. intros s Hs. destruct (F2 s Hs) as (Hz & i & Hi & Hg).
  split; [done |]. exists i. split; [done | by apply got_as_more].
Qed.

Lemma frames_in_encode c fs : 0 <= c < 2 ^ 32 -> Forall (frame_ok c) fs -> frames_in c (encode_frames c fs) = fs.
Proof. intros Hc H. unfold frames_in. by rewrite frames_of_encode by (done || lia). Qed.

(** What a flush outputs. *)
Lemma frame_shorter c fs f : f ∈ fs -> zlen (encode_frame c f) <= zlen (encode_frames c fs).
Proof.
  intros Hf. induction fs as [| g fs IH]; [by apply elem_of_nil in Hf |].
  change (encode_frames c (g :: fs)) with (encode_frame c g ++ encode_frames c fs). rewrite zlen_app.
  pose proof (zlen_nonneg (encode_frame c g)). pose proof (zlen_nonneg (encode_frames c fs)).
  apply elem_of_cons in Hf as [-> | Hf]; [lia |]. specialize (IH Hf). lia.
Qed.

Lemma pushes_shorter c f s : pushes f = Some s -> zlen s.(data) <= zlen (encode_frame c f).
Proof.
  destruct f as [hd d |]; cbn [pushes]; [| done]. destruct (_ =? _); [| done]. intros [= <-]. cbn [data encode_frame].
  rewrite zlen_app, zlen_encode_seg. lia.
Qed.

Lemma framed_in c h R acks sns d fs : 0 <= c < 2 ^ 32 -> zlen d < 65536 -> framed c (good c h R acks sns) d fs ->
  is_bytes d /\ frames_in c d = fs /\ Forall (frame_sent c h (zlen h)) fs.
Proof.
  intros Hc Hz [-> H]. assert (Forall (frame_ok c) fs) as Hok by (eapply Forall_impl; [| exact H]; by intros f [? _]).
  split; [by apply encode_frames_bytes |]. split; [by apply frames_in_encode |]. apply Forall_forall. intros f Hf.
  rewrite Forall_forall in H. destruct (H f Hf) as (F1 & F2 & F3 & F4). apply list_elem_of_In in Hf. split; [done |]. intros s Hs.
  pose proof (frame_shorter c fs f Hf). pose proof (pushes_shorter c f s Hs). split; [lia |].
  destruct (F4 s Hs) as (i & Hi & Hi2 & Hn & Hl & _). exists i. split; [lia |]. split; [done |]. by split.
Qed.

(** ** The invariant *)

Definition peer_ok (h ho : list Chunk) (p : Peer) : Prop := Wf h (got_as ho) p.(taken) p.(kcb) /\ p.(count) = zlen h.

(** What [a] sent, what it has numbered of it, and what [b] has of that; [css] are the
    chunks of the messages, when [a] sends messages. *)
Record link_ok (h : list Chunk) (a b : Peer) : Prop := {
  lk_taken : b.(taken) <= zlen h;
  lk_said : bytes_of (h ++ a.(kcb).(tx).(snd_queue)) = concat a.(said);
  lk_got : exists del, take (Z.to_nat b.(taken)) h = del ++ map chunk_of b.(kcb).(rx).(rcv_queue) /\ bytes_of del = concat b.(got)
    /\ (a.(kcb).(cfg).(stream) = 0 -> exists done todo, h ++ a.(kcb).(tx).(snd_queue) = concat (done ++ todo) /\ Forall labelled (done ++ todo)
         /\ map bytes_of (done ++ todo) = a.(said) /\ del = concat done /\ map bytes_of done = b.(got));
  lk_wire : Forall (wire_ok a.(kcb).(cfg).(kconv) h) a.(wire)
}.

(** [a] has numbered [ha], [b] has numbered [hb]. *)
Record pair_ok (ha hb : list Chunk) (a b : Peer) : Prop := {
  pair_a : peer_ok ha hb a;
  pair_b : peer_ok hb ha b;
  pair_ab : link_ok ha a b;
  pair_ba : link_ok hb b a;
  pair_conv : a.(kcb).(cfg).(kconv) = b.(kcb).(cfg).(kconv)
}.

Lemma pair_swap ha hb a b : pair_ok ha hb a b -> pair_ok hb ha b a.
Proof. by intros []. Qed.

Lemma bytes_of_prefix cs1 cs2 : cs1 `prefix_of` cs2 -> bytes_of cs1 `prefix_of` bytes_of cs2.
Proof. intros [cs ->]. rewrite bytes_of_app. by eexists. Qed.

(** What was received is the beginning of what was sent. *)
Lemma link_bytes h a b : link_ok h a b -> concat b.(got) `prefix_of` concat a.(said).
Proof.
  intros [_ Hs (del & Ht & Hd & _) _]. rewrite <- Hs, <- Hd. apply bytes_of_prefix.
  trans (take (Z.to_nat (taken b)) h); [rewrite Ht; by eexists |]. trans h; [apply prefix_take | by eexists].
Qed.

Lemma link_messages h a b : link_ok h a b -> a.(kcb).(cfg).(stream) = 0 -> b.(got) `prefix_of` a.(said).
Proof.
  intros [_ _ (del & _ & _ & Hm) _] H0. destruct (Hm H0) as (dn & td & _ & _ & <- & _ & <-). rewrite map_app. by eexists.
Qed.

(** ** Events *)

(** An end whose segments stay where they are. *)
Record unmoved (a a' : Peer) : Prop := {
  um_said : a'.(said) = a.(said);
  um_got : a'.(got) = a.(got);
  um_taken : a'.(taken) = a.(taken);
  um_wire : a'.(wire) = a.(wire);
  um_queue : a'.(kcb).(tx).(snd_queue) = a.(kcb).(tx).(snd_queue);
  um_rcv : a'.(kcb).(rx).(rcv_queue) = a.(kcb).(rx).(rcv_queue);
  um_conv : a'.(kcb).(cfg).(kconv) = a.(kcb).(cfg).(kconv);
  um_stream : a'.(kcb).(cfg).(stream) = a.(kcb).(cfg).(stream)
}.

Lemma link_unmoved h a a' b b' : unmoved a a' -> unmoved b b' -> link_ok h a b -> link_ok h a' b'.
Proof.
  intros [A1 A2 A3 A4 A5 A6 A7 A8] [B1 B2 B3 B4 B5 B6 B7 B8] [L1 L2 L3 L4].
  split; rewrite ?A1, ?A4, ?A5, ?A7, ?A8, ?B2, ?B3, ?B6; done.
Qed.

Lemma unmoved_refl a : unmoved a a.
Proof. done. Qed.

Lemma pair_unmoved ha hb a a' b : unmoved a a' -> peer_ok ha hb a' -> pair_ok ha hb a b -> pair_ok ha hb a' b.
Proof.
  intros U H [P1 P2 P3 P4 P5]. split; [done | done | | | by rewrite (um_conv _ _ U)].
  - by eapply link_unmoved; [done | apply unmoved_refl |].
  - by eapply link_unmoved; [apply unmoved_refl | done |].
Qed.

Section Settings.
Context (ikcp_malloc : nat -> bool).

Lemma Wf_cfg h P R k c : cfg_ok c -> c.(kconv) = k.(cfg).(kconv) -> c.(mss) = k.(cfg).(mss) -> Wf h P R k -> Wf h P R (with_cfg c k).
Proof. intros Hc E1 E2 [W1 W2 W3 W4 W5 W6 W7 W8]. split; cbn; rewrite ?E1, ?E2; done. Qed.

Lemma waitsnd_none h P R k : Wf h P R k -> zlen k.(tx).(snd_queue) + zlen k.(tx).(snd_buf) < 2 ^ 31 -> ikcp_waitsnd k <= 0 ->
  k.(tx).(snd_queue) = [] /\ k.(tx).(snd_buf) = [].
Proof.
  intros W Hl Hw. destruct (wf_tx _ _ _ _ W) as [U T]. pose proof (zlen_nonneg (snd_queue (tx k))). pose proof (zlen_nonneg (snd_buf (tx k))).
  unfold ikcp_waitsnd in Hw. rewrite (tx_buf_count _ _ _ _ T), (tx_que_count _ _ _ _ T), (u32_small (zlen (snd_queue _))), u32_small, s32_small in Hw by lia.
  split; apply zlen_0_nil; lia.
Qed.

Lemma setPacketSize_ok h P R m k : Wf h P R k -> zlen k.(tx).(snd_queue) + zlen k.(tx).(snd_buf) < 2 ^ 31 ->
  Wf h P R (setPacketSize ikcp_malloc m k).
Proof.
  intros W Hl. unfold setPacketSize. destruct (_ || _) eqn:E; [done |]. destruct (ikcp_waitsnd k >? 0) eqn:Ew; [done |].
  destruct (waitsnd_none h P R k W Hl ltac:(lia)) as [Eq Eb]. unfold ikcp_setmtu. destruct ((m <? 50) || (m <? IKCP_OVERHEAD)); [done |].
  destruct (ikcp_malloc (mallocs k)); cbn [negb snd]; [| destruct W; split; assumption].
  pose proof W as [W1 W2 W3 W4 W5 W6 W7 W8]. split; cbn; rewrite ?Eq, ?Eb; try done.
  apply orb_false_iff in E as [E1 E2]. destruct W1 as [C1 C2 C3 C4 C5 C6]. unfold IKCP_OVERHEAD.
  split; cbn; try done; [lia | rewrite u32_small; lia |]. rewrite (u32_small (m + 24)), u32_small; lia.
Qed.
End Settings.

Lemma nodelay_ok h P R d i r n k : Wf h P R k -> Wf h P R (ikcp_nodelay d i r n k).
Proof. intros W. apply Wf_cfg; try done. destruct (wf_cfg _ _ _ _ W). by split. Qed.

Lemma wndsize_ok h P R s r k : Wf h P R k -> Wf h P R (ikcp_wndsize s r k).
Proof.
  intros W. apply Wf_cfg; try done. destruct (wf_cfg _ _ _ _ W). split; cbn; try done; unfold _imin_, _imax_, IKCP_WND_RCV; repeat case_match; lia.
Qed.

Lemma ackn_mode_ok h P R b k : Wf h P R k -> Wf h P R (ikcp_ackn_mode b k).
Proof. intros W. apply Wf_cfg; try done. destruct (wf_cfg _ _ _ _ W). by split. Qed.

(** ** Nothing is forgotten

    While fewer than 2^31 segments are numbered: each of them has arrived or is still kept by
    the sender, and only what has arrived is acknowledged. *)

Definition arrived (h : list Chunk) (b : Peer) (i : Z) : Prop := has (got_as h) b.(taken) b.(kcb).(rx) i.

Definition acknowledged (h : list Chunk) (b : Peer) (x : Z * Z) : Prop := exists i, x.1 = u32 i /\ 0 <= i < zlen h /\ arrived h b i.

Definition truthful (h : list Chunk) (b : Peer) (f : Frame) : Prop :=
  (exists R, una_of f = u32 R /\ 0 <= R <= b.(taken)) /\ forall x, x ∈ acks_of f -> acknowledged h b x.

Record lossless (h : list Chunk) (a b : Peer) : Prop := {
  nl_kept : forall i, 0 <= i < zlen h -> arrived h b i \/ exists s, s ∈ a.(kcb).(tx).(snd_buf) /\ seg_sn s = u32 i;
  nl_acks : forall x, x ∈ b.(kcb).(rx).(acklist) -> acknowledged h b x;
  nl_wire : forall x f, x ∈ b.(wire) -> f ∈ frames_in b.(kcb).(cfg).(kconv) x.2 -> truthful h b f
}.

Definition no_loss (h : list Chunk) (a b : Peer) : Prop := zlen h < 2 ^ 31 -> lossless h a b.

Lemma arrived_more h cs b i : arrived h b i -> arrived (h ++ cs) b i.
Proof. intros [? | (? & s & ? & ?)]; [by left | right]. split; [done |]. exists s. split; [done | by apply got_as_more]. Qed.

(** The receiver changes: what has arrived stays, what is new is explained. *)
Lemma lossless_receiver h a b b' : (forall i, arrived h b i -> arrived h b' i) -> b.(taken) <= b'.(taken) ->
  (forall x, x ∈ b'.(kcb).(rx).(acklist) -> x ∈ b.(kcb).(rx).(acklist) \/ acknowledged h b' x) ->
  (forall x f, x ∈ b'.(wire) -> f ∈ frames_in b'.(kcb).(cfg).(kconv) x.2 ->
     x ∈ b.(wire) /\ f ∈ frames_in b.(kcb).(cfg).(kconv) x.2 \/ truthful h b' f) ->
  lossless h a b -> lossless h a b'.
Proof.
  intros Ha Ht Hx Hw [N1 N2 N3].
  assert (forall x, acknowledged h b x -> acknowledged h b' x) as Hk by (intros x (i & ? & ? & ?); exists i; by auto).
  split.
  - intros i Hi. destruct (N1 i Hi) as [? | ?]; auto.
  - intros x Hin. destruct (Hx x Hin) as [? | ?]; auto.
  - intros x f Hin Hf. destruct (Hw x f Hin Hf) as [[H1 H2] | ?]; [| done]. destruct (N3 x f H1 H2) as [(R & E & HR) Hacks].
    split; [exists R; split; [done | lia] | by auto].
Qed.

(** The sender changes: [cs] is numbered, and what leaves is explained by a frame. *)
Lemma lossless_sender h cs a a' b : zlen (h ++ cs) < 2 ^ 31 ->
  (forall i, zlen h <= i < zlen (h ++ cs) -> exists s, s ∈ a'.(kcb).(tx).(snd_buf) /\ seg_sn s = u32 i) ->
  (forall s, s ∈ a.(kcb).(tx).(snd_buf) -> (exists s', s' ∈ a'.(kcb).(tx).(snd_buf) /\ same_core s s')
     \/ exists x f, x ∈ b.(wire) /\ f ∈ frames_in b.(kcb).(cfg).(kconv) x.2
          /\ (_itimediff (una_of f) (seg_sn s) > 0 \/ seg_sn s ∈ (acks_of f).*1)) ->
  b.(taken) <= zlen h -> lossless h a b -> lossless (h ++ cs) a' b.
Proof.
  intros Hl Hnew Hgone Hb [N1 N2 N3]. pose proof (zlen_nonneg cs) as Hz. rewrite zlen_app in Hl, Hnew.
  assert (forall x, acknowledged h b x -> acknowledged (h ++ cs) b x) as Hk.
  { intros x (i & ? & ? & ?). exists i. rewrite zlen_app. split; [done |]. split; [lia | by apply arrived_more]. }
  split; [| by auto |].
  - intros i Hi. rewrite zlen_app in Hi. destruct (decide (i < zlen h)) as [Hlt | ?]; [| right; apply Hnew; lia].
    destruct (N1 i ltac:(lia)) as [? | (s & Hs & En)]; [left; by apply arrived_more |].
    destruct (Hgone s Hs) as [(s' & Hs' & Ec) | (x & f & Hx & Hf & Hr)].
    + right. exists s'. split; [done |]. rewrite <- En. unfold seg_sn. by destruct Ec as (_ & _ & -> & _).
    + left. destruct (N3 x f Hx Hf) as [(R & Eu & HR) Hacks]. destruct Hr as [Hr | Hr].
      * rewrite Eu, En, itimediff_u32 in Hr by lia. left. lia.
      * apply list_elem_of_fmap in Hr as (y & Ey & Hy). destruct (Hacks y Hy) as (j & Ej & Hj & Haj).
        assert (i = j) as -> by (apply u32_inj; [lia | congruence]). by apply arrived_more.
  - intros x f Hx Hf. destruct (N3 x f Hx Hf) as [HR Hacks]. split; [done | by auto].
Qed.

(** An end that forgets nothing and says nothing. *)
Record calm (h : list Chunk) (a a' : Peer) : Prop := {
  calm_buf : a'.(kcb).(tx).(snd_buf) = a.(kcb).(tx).(snd_buf);
  calm_acks : a'.(kcb).(rx).(acklist) = a.(kcb).(rx).(acklist);
  calm_wire : a'.(wire) = a.(wire);
  calm_conv : a'.(kcb).(cfg).(kconv) = a.(kcb).(cfg).(kconv);
  calm_stream : a'.(kcb).(cfg).(stream) = a.(kcb).(cfg).(stream);
  calm_taken : a.(taken) <= a'.(taken);
  calm_arrived : forall i, arrived h a i -> arrived h a' i
}.

(** The invariant, with what holds when memory does not run out. *)
Definition kept (full : Prop) (ha hb : list Chunk) (a b : Peer) : Prop :=
  pair_ok ha hb a b /\ (full -> no_loss ha a b /\ no_loss hb b a).

Lemma kept_swap full ha hb a b : kept full ha hb a b -> kept full hb ha b a.
Proof. intros [H1 H2]. split; [by apply pair_swap |]. intros F. destruct (H2 F). by split. Qed.

Lemma kept_calm full ha hb a a' b : calm hb a a' -> pair_ok ha hb a' b -> kept full ha hb a b -> kept full ha hb a' b.
Proof.
  intros [C1 C2 C3 C4 _ C5 C6] H [I L]. split; [done |]. intros F. destruct (L F) as [L1 L2]. split; intros Hz.
  - rewrite <- (app_nil_r ha). apply (lossless_sender ha [] a); [by rewrite app_nil_r | rewrite app_nil_r; lia | | apply I | by apply L1].
    intros s Hs. left. exists s. by rewrite C1.
  - apply (lossless_receiver hb b a); [done | done | | | by apply L2].
    + rewrite C2. by left.
    + rewrite C3, C4. by left.
Qed.

(** ** Events that move segments *)

Section Moves.
Context (seg_alloc ikcp_malloc : nat -> bool).

Lemma memory_of k : has_memory seg_alloc k = true -> memory seg_alloc 129 k.
Proof. intros H x Hx. unfold has_memory in H. rewrite forallb_forall in H. apply H, in_seq. lia. Qed.

Lemma send_event ha hb a b d : pair_ok ha hb a b -> sane seg_alloc (Send d) a b = true ->
  exists a', act seg_alloc ikcp_malloc (Send d) a b = Ret a' /\ pair_ok ha hb a' b /\ calm hb a a'.
Proof.
  intros [[W Hn] P2 P3 P4 P5] Hs. cbn [sane] in Hs. apply andb_true_iff in Hs as [Hs Hm]. apply andb_true_iff in Hs as [Hb Hl].
  apply bytes_ok_spec in Hb. pose proof (zlen_nonneg d) as Hz.
  destruct (send_ok seg_alloc ha (got_as hb) (taken a) d (zlen d) (kcb a) W (memory_of _ Hm) Hb) as (code & k' & q & E & S & W'); [lia | lia |].
  cbn [act]. rewrite E. cbn [mbind result_bind]. eexists. split; [done |]. rewrite zlen_to_nat, firstn_all in S.
  destruct S as [Q S1 S2 S3]. pose proof Q as [Q1 Q2 Q3 Q4 Q5 Q6 Q7 Q8 Q9 Q10 Q11].
  split; [| split; cbn; try done; [by rewrite Q2 | by rewrite Q1 | by rewrite Q1 | unfold arrived; cbn; by rewrite Q2]].
  split; [by split | done | | | cbn; by rewrite Q1].
  - destruct P3 as [L1 L2 (del & L3 & L4 & L5) L6]. split; cbn [taken said kcb wire]; rewrite ?Q1; try done.
    + rewrite Q10. destruct (code <? 0) eqn:Ec; [rewrite S1 by lia; done |]. destruct S2 as [_ S2]; [lia |].
      rewrite bytes_of_app, S2, app_assoc, <- bytes_of_app, L2, concat_app. simpl. by rewrite app_nil_r.
    + exists del. split; [done |]. split; [done |]. intros H0. destruct (L5 H0) as (dn & td & M1 & M2 & M3 & M4 & M5). rewrite Q10.
      destruct (code <? 0) eqn:Ec; [rewrite S1 by lia; by exists dn, td |].
      destruct (S3 H0) as (Ecode & cs & C1 & C2 & C3); [lia |]. exists dn, (td ++ [cs]). rewrite C2, !app_assoc.
      split; [rewrite M1, (concat_app (dn ++ td)); f_equal; cbn [concat]; by rewrite app_nil_r |].
      split; [apply Forall_app; split; [done | by constructor] |]. split; [| done].
      rewrite map_app, M3. simpl. by rewrite C3, Ecode, zlen_to_nat, firstn_all.
  - destruct P4 as [L1 L2 L3 L6]. by split; cbn [taken said kcb wire got]; rewrite ?Q2.
Qed.

(** The labels end a message where it ends. *)
Lemma merge_message cs rest q : labelled cs -> map chunk_of q `prefix_of` cs ++ rest -> zlen cs <= zlen q ->
  exists tk q', q = tk ++ q' /\ map chunk_of tk = cs /\ merge_fragments q = (bytes_of cs, zlen tk, q').
Proof.
  revert q. induction cs as [| [f d] cs IH]; intros q Hl Hp Hz; [done |].
  destruct q as [| s q]; [rewrite zlen_cons, zlen_nil in Hz; pose proof (zlen_nonneg cs); lia |]. rewrite !zlen_cons in Hz.
  cbn [map app] in Hp. pose proof (prefix_cons_inv_1 _ _ _ _ Hp) as Es. apply prefix_cons_inv_2 in Hp.
  unfold chunk_of in Es. injection Es as Ef Ed. cbn [merge_fragments]. rewrite Ef, Ed. destruct cs as [| c cs].
  - cbn in Hl. subst f. cbn. exists [s], q. split; [done |]. split; [cbn; unfold chunk_of; by rewrite Ef, Ed |].
    by rewrite app_nil_r.
  - destruct Hl as [Hf Hl]. rewrite (proj2 (Z.eqb_neq f 0)) by (rewrite zlen_cons in Hf; pose proof (zlen_nonneg cs); lia).
    destruct (IH q Hl Hp ltac:(lia)) as (tk & q' & E1 & E2 & E3). rewrite E3. exists (s :: tk), q'. split; [by rewrite E1 |].
    split; [cbn; rewrite E2; unfold chunk_of; by rewrite Ef, Ed |]. by rewrite zlen_cons.
Qed.

(** The count of segments received follows [rcv_nxt]. *)
Lemma advance P P' R r r' n : rx_ok P R r -> rx_ok P' (R + n) r' -> 0 <= n < 2 ^ 32 -> u32 (r'.(rcv_nxt) - r.(rcv_nxt)) = n.
Proof.
  intros H H' Hn. rewrite (rx_nxt _ _ _ H), (rx_nxt _ _ _ H'). unfold wrapu.
  rewrite <- Zminus_mod. replace (R + n - R) with n by lia. by apply Z.mod_small.
Qed.

Lemma labelled_first f d cs : labelled ((f, d) :: cs) -> f = zlen cs.
Proof. destruct cs; [done |]. by intros [-> _]. Qed.

(** A message that is taken out is the next one that was sent. *)
Lemma next_message k P R (td : list (list Chunk)) x d tk rest : rx_ok P R k.(rx) -> Forall labelled td ->
  map chunk_of k.(rx).(rcv_queue) `prefix_of` concat td ++ x -> (td = [] -> x = []) ->
  k.(rx).(rcv_queue) = tk ++ rest -> tk <> [] -> merge_fragments k.(rx).(rcv_queue) = (d, zlen tk, rest) -> 0 <= ikcp_peeksize k ->
  exists cs td', td = cs :: td' /\ map chunk_of tk = cs /\ d = bytes_of cs.
Proof.
  intros H Hl Hp Hx Eq Hne Em Hpk. destruct td as [| cs td].
  { rewrite (Hx eq_refl) in Hp. apply prefix_nil_inv, map_eq_nil in Hp. rewrite Hp in Eq. by destruct tk. }
  apply Forall_cons_iff in Hl as [Hcs _]. cbn [concat] in Hp. rewrite <- app_assoc in Hp.
  assert (zlen cs <= zlen (rcv_queue (rx k))) as Hz.
  { unfold ikcp_peeksize in Hpk. destruct (rcv_queue (rx k)) as [| s q] eqn:Eqq; [lia |]. destruct cs as [| [f d0] cs]; [done |].
    cbn [map app] in Hp. pose proof (prefix_cons_inv_1 _ _ _ _ Hp) as Es. unfold chunk_of in Es. injection Es as Ef _.
    apply labelled_first in Hcs as Hf. pose proof (zlen_nonneg q). pose proof (zlen_nonneg cs). rewrite !zlen_cons.
    unfold Chunk in *. destruct (frg (head s) =? 0) eqn:E0; [apply Z.eqb_eq in E0; lia |]. destruct (_ <? _) eqn:E1; [lia |]. rewrite (rx_que_count _ _ _ H), Eqq, zlen_cons in E1.
    pose proof (rx_segs _ _ _ H) as Hs. rewrite Eqq in Hs. apply Forall_cons_iff in Hs as [[Hr _] _]. rewrite u32_small in E1 by lia. lia. }
  destruct (merge_message cs _ _ Hcs Hp Hz) as (tk' & q' & E1 & E2 & E3). rewrite Em in E3. injection E3 as -> Hlen ->.
  exists cs, td. split; [done |]. split; [| done]. rewrite <- E2. f_equal. rewrite Eq in E1. by apply app_inv_tail in E1.
Qed.

Lemma prefix_of_part {A} (l1 l2 l3 x : list A) n : take n l1 = l2 ++ l3 -> l1 ++ x = l2 ++ l3 ++ drop n l1 ++ x.
Proof. intros E. by rewrite <- (take_drop n l1) at 1; rewrite E, <- !app_assoc. Qed.

Lemma recv_event ha hb a b len : pair_ok ha hb a b -> sane seg_alloc (Recv len) a b = true ->
  exists a', act seg_alloc ikcp_malloc (Recv len) a b = Ret a' /\ pair_ok ha hb a' b /\ calm hb a a'.
Proof.
  intros [[W Hn] P2 P3 P4 P5] Hs. cbn [sane] in Hs. cbn [act].
  destruct (recv_ok ha (got_as hb) (got_as_number hb) (taken a) len (kcb a) W ltac:(lia)) as (code & d & k' & l & -> & Rc & W' & T & C & Cl & Al & Hh & _).
  cbn [mbind result_bind]. eexists. split; [done |].
  assert (zlen l <= 65535) as Hl.
  { pose proof (rx_que_max _ _ _ (wf_rx _ _ _ _ W')) as Hm. pose proof (zlen_nonneg l).
    destruct Rc as [| ? ? ? ? ? ? ? ? ? ? ? Hq | ? ? ? ? Hq]; [rewrite zlen_nil; lia | |]; rewrite Hq, zlen_app in Hm;
      [pose proof (zlen_nonneg rest) | pose proof (zlen_nonneg (rcv_queue (rx (kcb a))))]; lia. }
  pose proof (zlen_nonneg l) as Hl0. rewrite (advance _ _ _ _ _ (zlen l) (wf_rx _ _ _ _ W) (wf_rx _ _ _ _ W')) by lia.
  split; [| split; cbn; try done; [by rewrite T | by rewrite C | by rewrite C | lia]].
  split; [by split | done | | | cbn; by rewrite C].
  { destruct P3 as [L1 L2 L3 L6]. split; cbn [taken said kcb wire got]; rewrite ?T, ?C; done. }
  destruct P4 as [L1 L2 (del & L3 & L4 & L5) L6]. pose proof (rx_start _ _ _ (wf_rx _ _ _ _ W)) as H0.
  assert (consecutive (got_as hb) (taken a) l) as Hc by (by destruct Rc).
  destruct (consecutive_take hb (taken a) l ltac:(lia) Hc) as [Ht1 Ht2]. rewrite L3 in Ht2.
  split; cbn [taken said kcb wire got]; try done.
  destruct Rc as [code Hc0 | d tk rest k' l Eq Hne Ed Hdl Em Hpk Eq' _ | d k' l Hneg Eq' _].
  - exists del. rewrite (proj2 (Z.ltb_lt code 0) Hc0). cbn [orb map] in *. rewrite app_nil_r in Ht2. done.
  - pose proof (zlen_nonneg d). rewrite (proj2 (Z.ltb_ge (zlen d) 0)), (proj2 (Z.ltb_ge len 0)) by lia. cbn [orb].
    exists (del ++ map chunk_of tk). rewrite Ht2, Eq', Eq, !map_app, <- !app_assoc. split; [done |].
    split; [by rewrite bytes_of_app, concat_app, L4, Ed; cbn; rewrite app_nil_r |]. intros Hst.
    destruct (L5 Hst) as (dn & td & M1 & M2 & M3 & M4 & M5). apply Forall_app in M2 as [M2 M2'].
    pose proof (prefix_of_part _ _ _ (snd_queue (tx (kcb b))) _ L3) as Hpre. rewrite M1, concat_app, M4 in Hpre. apply app_inv_head in Hpre.
    destruct (next_message (kcb a) (got_as hb) (taken a) td [] d tk rest) as (cs & td' & -> & E1 & E2); try done.
    { apply W. } { rewrite app_nil_r, Hpre. by eexists. }
    exists (dn ++ [cs]), td'. rewrite <- app_assoc. cbn [app]. split; [done |]. split; [by apply Forall_app |]. split; [done |].
    split; [rewrite concat_app, M4, E1; cbn; by rewrite app_nil_r |]. rewrite map_app, M5. cbn. by rewrite E2.
  - rewrite (proj2 (Z.ltb_lt len 0) Hneg), orb_true_r. exists del. rewrite Ht2, Eq', map_app, <- app_assoc. done.
Qed.

(** A flush, between the two ends. *)
Lemma flush_event ha hb a b cl outs k' cs : pair_ok ha hb a b -> flushes (got_as hb) ha (taken a) (with_clock cl (kcb a)) outs k' cs ->
  let n := count a + zlen cs in
  pair_ok (ha ++ cs) hb (mkPeer k' (said a) (got a) n (taken a) (wire a ++ map (fun d => (n, d)) outs)) b.
Proof.
  intros [[W Hn] [V Hm] P3 P4 P5] [F1 F2 F3 F4 F5 F6 F7 F8 F9 F10 F11 _ _] n. cbn [with_clock cfg tx rx clock] in *.
  pose proof (zlen_nonneg cs) as Hz. assert (n = zlen (ha ++ cs)) as En by (unfold n; rewrite zlen_app; lia).
  split; [by split | | | | cbn; by rewrite F5].
  - split; [| done]. eapply Wf_mono; [| exact V]. intros i s. apply got_as_more.
  - destruct P3 as [L1 L2 (del & L3 & L4 & L5) L6]. split; cbn [taken said kcb wire got].
    + rewrite zlen_app. lia.
    + by rewrite <- app_assoc, <- F2.
    + exists del. pose proof (rx_start _ _ _ (wf_rx _ _ _ _ V)) as H0. rewrite take_app_le by (unfold zlen in *; lia). split; [done |]. split; [done |].
      rewrite F5, <- app_assoc, <- F2. done.
    + rewrite F5. apply Forall_app. split; [eapply Forall_impl; [| exact L6]; intros x; apply wire_ok_more |].
      apply Forall_map. eapply Forall_impl; [| exact F3]. cbn beta. intros d (Hd & fs & Hf). pose proof (wf_cfg _ _ _ _ W) as [C1 C2 _ _ _ _].
      assert (zlen d < 65536) as Hd' by lia. destruct (framed_in _ _ _ _ _ _ _ C1 Hd' Hf) as (G1 & G2 & G3).
      split; cbn [fst snd]; [lia |]. split; [done |]. split; [lia |]. rewrite G2, En. done.
  - destruct P4 as [L1 L2 (del & L3 & L4 & L5) L6]. split; cbn [taken said kcb wire got]; try done. exists del. by rewrite F7.
Qed.

Lemma flush_kept full ha hb a b cl outs k' cs : kept full ha hb a b -> flushes (got_as hb) ha (taken a) (with_clock cl (kcb a)) outs k' cs ->
  let n := count a + zlen cs in
  kept full (ha ++ cs) hb (mkPeer k' (said a) (got a) n (taken a) (wire a ++ map (fun d => (n, d)) outs)) b.
Proof.
  intros [I L] F n. split; [by apply (flush_event _ _ _ _ cl) |]. intros Hf. destruct (L Hf) as [L1 L2].
  destruct F as [F1 F2 F3 F4 F5 F6 F7 F8 F9 F10 F11 _ _]. cbn [with_clock cfg tx rx clock] in *. pose proof I as [[W Hn] P2 P3 P4 P5].
  pose proof (zlen_nonneg cs) as Hz. split; intros Hlt.
  - apply (lossless_sender ha cs a); [done | done | | apply P3 | apply L1; rewrite zlen_app in Hlt; lia]. intros s Hs. left. by apply F8.
  - apply (lossless_receiver hb b a); cbn [kcb wire taken]; [| done | | | by apply L2].
    + intros i. unfold arrived. cbn. by rewrite F7.
    + intros x. rewrite F7. cbn. intros Hx. by apply elem_of_nil in Hx.
    + intros x f Hx Hfr. rewrite F5 in Hfr. apply elem_of_app in Hx as [Hx | Hx]; [by left | right].
      apply list_elem_of_fmap in Hx as (d & -> & Hd). cbn [snd] in Hfr. rewrite Forall_forall in F3. apply list_elem_of_In, F3 in Hd as (Hd & fs & Hfs).
      pose proof (wf_cfg _ _ _ _ W) as [C1 C2 _ _ _ _]. assert (zlen d < 65536) as Hd' by lia.
      destruct (framed_in _ _ _ _ _ _ _ C1 Hd' Hfs) as (_ & G2 & _). rewrite G2 in Hfr. destruct Hfs as [_ Hgood]. rewrite Forall_forall in Hgood.
      apply list_elem_of_In, Hgood in Hfr as (_ & Eu & Ha & _). split.
      * exists (taken a). split; [done |]. cbn. pose proof (rx_start _ _ _ (wf_rx _ _ _ _ W)). lia.
      * intros y Hy. destruct (nl_acks _ _ _ (L2 Hlt) y (Ha y Hy)) as (i & ? & ? & Hi). exists i. split; [done |]. split; [done |].
        unfold arrived in *. cbn. by rewrite F7.
Qed.

Lemma flush_count P h R k cl outs k' cs : Wf h P R k -> flushes P h R (with_clock cl k) outs k' cs ->
  u32 (k'.(tx).(snd_nxt) - k.(tx).(snd_nxt)) = zlen cs.
Proof.
  intros W [F1 _ _ F4 _ _ _ _ _ _ _ _ _]. destruct (wf_tx _ _ _ _ W) as [U T]. destruct (wf_tx _ _ _ _ F1) as [U' T'].
  rewrite (tx_nxt _ _ _ _ T), (tx_nxt _ _ _ _ T'), zlen_app. unfold wrapu. rewrite <- Zminus_mod.
  replace (zlen h + zlen cs - zlen h) with (zlen cs) by lia. pose proof (zlen_nonneg cs). apply Z.mod_small. lia.
Qed.

Lemma update_event full ha hb a b now : kept full ha hb a b -> sane seg_alloc (Update now) a b = true ->
  exists a' cs, act seg_alloc ikcp_malloc (Update now) a b = Ret a' /\ kept full (ha ++ cs) hb a' b
    /\ a'.(kcb).(cfg).(stream) = a.(kcb).(cfg).(stream).
Proof.
  intros [I L] Hs. cbn [sane] in Hs. cbn [act]. destruct (pair_a _ _ _ _ I) as [W Hn].
  destruct (update_ok (got_as hb) ha (taken a) now (kcb a) W ltac:(lia)) as (cl & outs & k' & cs & Ec & -> & Hc). cbn [mbind result_bind].
  exists (mkPeer k' (said a) (got a) (count a + zlen cs) (taken a) (wire a ++ map (fun d => (count a + zlen cs, d)) outs)), cs.
  destruct Hc as [(-> & -> & -> & _) | F].
  - cbn [with_clock tx]. rewrite Z.sub_diag. change (zlen (@nil Chunk)) with 0. change (u32 0) with 0. rewrite Z.add_0_r. cbn [map]. split; [done |]. rewrite app_nil_r.
    split; [| done]. apply (kept_calm _ _ _ a); [| | by split].
    + split; cbn; try done. apply app_nil_r.
    + apply (pair_unmoved _ _ a); [split; try done; apply app_nil_r | | done]. split; [| done]. apply wf_clock; [by rewrite Ec; lia | done].
  - pose proof F as [_ _ _ _ F5 _ _ _ _ _ _ _ _]. split; [| split; [by apply (flush_kept _ _ _ _ _ cl) | cbn; by rewrite F5]].
    by rewrite (flush_count _ _ _ _ _ _ _ _ W F).
Qed.

(** What is supposed of a datagram holds of one that the other end sent. *)
Lemma arrives_sent ha hb a b stamp d : pair_ok ha hb a b -> wire_ok a.(kcb).(cfg).(kconv) hb (stamp, d) ->
  near stamp a b = true -> timely_frames a.(kcb) d = true ->
  Forall (arrives (got_as hb) (fun R => 0 <= R <= zlen hb) a.(kcb) a.(taken)) (frames_in a.(kcb).(cfg).(kconv) d).
Proof.
  intros [[W Hn] [V Hm] _ _ _] (H1 & H2 & H3 & H4) Hnear Ht. cbn [fst snd] in *. unfold near in Hnear.
  apply andb_true_iff in Hnear as [N1 N2]. apply Z.ltb_lt in N1, N2.
  unfold timely_frames in Ht. rewrite forallb_forall in Ht. apply Forall_forall. intros f Hf. rewrite Forall_forall in H4.
  destruct (H4 f Hf) as [Fok Fp]. specialize (Ht f Hf). split.
  - destruct f as [hd x | w u l]; cbn [wnd_of]; [destruct Fok as [[] _]; lia | destruct Fok as (? & _); lia].
  - apply Forall_forall. intros x Hx. rewrite forallb_forall in Ht. specialize (Ht x Hx). unfold timely. lia.
  - intros s Hs. destruct (Fp s Hs) as (Hz & i & Hi & Hg). destruct f as [hd x |]; [| done]. cbn [pushes] in Hs. destruct (_ =? _); [| done].
    injection Hs as <-. destruct Fok as [[O1 O2 O3 O4 O5 O6 O7] _]. split; [by split |]. split; [by split |].
    intros R HR [HB1 HB2]. exists i. split; [done |]. lia.
Qed.

Lemma got_as_next hb R l : 0 <= R <= zlen hb -> consecutive (got_as hb) R l -> 0 <= R + zlen l <= zlen hb.
Proof. intros H Hc. destruct (consecutive_take hb R l H Hc) as [H1 _]. pose proof (zlen_nonneg l). lia. Qed.

(** What frames that arrived do to the two ends. *)
Lemma input_pair ha hb a b fs lost k' l : pair_ok ha hb a b -> effect ikcp_malloc (got_as hb) ha fs lost (kcb a) (taken a) k' l ->
  pair_ok ha hb (mkPeer k' (said a) (got a) (count a) (taken a + u32 (k'.(rx).(rcv_nxt) - (kcb a).(rx).(rcv_nxt))) (wire a)) b.
Proof.
  intros [[W Hn] P2 P3 P4 P5] E. destruct E as [E1 E2 E3 E4 E5 E6 _ _ _ _ _ _ _ _ _ _].
  pose proof (zlen_nonneg l) as Hl0. pose proof (rx_que_max _ _ _ (wf_rx _ _ _ _ E1)) as Hl. rewrite E3, zlen_app in Hl.
  pose proof (zlen_nonneg (rcv_queue (rx (kcb a)))). rewrite (advance _ _ _ _ _ (zlen l) (wf_rx _ _ _ _ W) (wf_rx _ _ _ _ E1)) by lia.
  split; [by split | done | | | cbn; by rewrite E4].
  - destruct P3 as [L1 L2 L3 L6]. split; cbn [taken said kcb wire got]; rewrite ?E4, ?E6; done.
  - destruct P4 as [L1 L2 (del & L3 & L4 & L5) L6]. pose proof (rx_start _ _ _ (wf_rx _ _ _ _ W)) as H0.
    destruct (consecutive_take hb (taken a) l ltac:(lia) E2) as [Ht1 Ht2]. split; cbn [taken said kcb wire got]; try done.
    exists del. split; [| done]. by rewrite Ht2, L3, E3, map_app, app_assoc.
Qed.

Lemma input_kept full ha hb a b x lost k' l : kept full ha hb a b -> x ∈ wire b -> (full -> lost = false) ->
  effect ikcp_malloc (got_as hb) ha (frames_in (kcb a).(cfg).(kconv) x.2) lost (kcb a) (taken a) k' l ->
  kept full ha hb (mkPeer k' (said a) (got a) (count a) (taken a + u32 (k'.(rx).(rcv_nxt) - (kcb a).(rx).(rcv_nxt))) (wire a)) b.
Proof.
  intros [I L] Hx Hlost E. split; [by eapply input_pair |]. intros Hf. destruct (L Hf) as [L1 L2]. specialize (Hlost Hf). subst lost.
  pose proof I as [[W Hn] P2 P3 P4 P5]. destruct E as [E1 E2 E3 E4 E5 E6 E7 E8 E9 E10 E11 E12 E13 _ _ _].
  pose proof (zlen_nonneg l) as Hl0. pose proof (rx_que_max _ _ _ (wf_rx _ _ _ _ E1)) as Hl. rewrite E3, zlen_app in Hl.
  pose proof (zlen_nonneg (rcv_queue (rx (kcb a)))). rewrite (advance _ _ _ _ _ (zlen l) (wf_rx _ _ _ _ W) (wf_rx _ _ _ _ E1)) by lia.
  split; intros Hlt.
  - rewrite <- (app_nil_r ha). apply (lossless_sender ha [] a); [by rewrite app_nil_r | rewrite app_nil_r; lia | | apply P3 | by apply L1].
    intros s Hs. destruct (E7 s Hs) as [? | (f & Hfr & Hr)]; [by left | right]. exists x, f. rewrite <- P5. done.
  - apply (lossless_receiver hb b a); cbn [kcb wire taken]; [exact E10 | lia | | rewrite E4; by left | by apply L2].
    intros y Hy. destruct (E8 y Hy) as [? | (f & s & i & Hfr & Hs & -> & HP & Hi)]; [by left | right]. exists i.
    split; [by apply got_as_number in HP |]. split; [by eapply got_as_lt | by apply Hi].
Qed.

(** What a datagram of the other end does. *)
Lemma input_sent ha hb a b n stamp d : pair_ok ha hb a b -> wire b !! n = Some (stamp, d) -> sane seg_alloc (Input n) a b = true ->
  exists code lost k' l, ikcp_input seg_alloc ikcp_malloc d (kcb a) = Ret (code, k')
    /\ effect ikcp_malloc (got_as hb) ha (frames_in (kcb a).(cfg).(kconv) d) lost (kcb a) (taken a) k' l
    /\ (lost = true -> exists x, seg_alloc x = false).
Proof.
  intros I En Hs. cbn [sane] in Hs. rewrite En in Hs.
  apply andb_true_iff in Hs as [Hs Ha]. apply andb_true_iff in Hs as [Hnear Ht]. pose proof I as [[W Hn] [V Hm] P3 P4 P5].
  assert (wire_ok (kconv (cfg (kcb a))) hb (stamp, d)) as Hw.
  { rewrite P5. destruct P4 as [_ _ _ L6]. rewrite Forall_forall in L6. apply L6. apply list_elem_of_In. by eapply list_elem_of_lookup_2. }
  pose proof (arrives_sent _ _ _ _ _ _ I Hw Hnear Ht) as Harr. destruct Hw as (_ & Hb & Hz & _). cbn [snd] in *. pose proof (zlen_nonneg d).
  pose proof (rx_start _ _ _ (wf_rx _ _ _ _ W)) as H0. destruct P4 as [L1 _ _ _].
  apply (input_effect seg_alloc ikcp_malloc (got_as hb) (got_as_number hb) (fun R => 0 <= R <= zlen hb) (got_as_next hb) ha d (kcb a)
    (taken a) (taken a) Hb ltac:(lia) W (conj H0 L1) ltac:(lia) Harr ltac:(lia)).
Qed.

Lemma input_event full ha hb a b n : kept full ha hb a b -> (full -> forall x, seg_alloc x = true) -> sane seg_alloc (Input n) a b = true ->
  exists a', act seg_alloc ikcp_malloc (Input n) a b = Ret a' /\ kept full ha hb a' b /\ a'.(kcb).(cfg).(stream) = a.(kcb).(cfg).(stream).
Proof.
  intros K Hfull Hs. cbn [act]. destruct (wire b !! n) as [[stamp d] |] eqn:En; [| by exists a].
  destruct (input_sent ha hb a b n stamp d (proj1 K) En Hs) as (code & lost & k' & l & -> & E & Hlost).
  cbn [mbind result_bind]. eexists. split; [done |]. split; [| cbn; by rewrite (eff_cfg _ _ _ _ _ _ _ _ _ E)].
  eapply (input_kept _ _ _ _ _ (stamp, d)); [done | by eapply list_elem_of_lookup_2 | | exact E].
  intros Hf. destruct lost; [| done]. destruct (Hlost eq_refl) as [y Hy]. by rewrite Hfull in Hy.
Qed.
End Moves.
