(* ===== verification/KcpProps.v ===== *)
(** * KCP: the properties of [ikcp.c]

    Two ends over a network that loses, delays, reorders and repeats datagrams; one end over a
    network that invents them; and what happens when memory runs out or a time stamp lies. *)

From stdpp Require Import sets.
From S2P Require Import Prelude Kcp KcpProofs KcpState KcpOps KcpSystem.

(** ** Every event *)

Section Events.
Context (seg_alloc ikcp_malloc : nat -> bool).

Lemma setting_event full ha hb a b k : kept full ha hb a b -> Wf ha (got_as hb) a.(taken) k ->
  k.(tx) = (kcb a).(tx) -> k.(rx) = (kcb a).(rx) -> k.(cfg).(kconv) = (kcb a).(cfg).(kconv) -> k.(cfg).(stream) = (kcb a).(cfg).(stream) ->
  kept full ha hb (with_kcb k a) b.
Proof.
  intros K W E1 E2 E3 E4. pose proof K as [[P1 _ _ _ _] _].
  apply (kept_calm _ _ _ a); [split; cbn; rewrite ?E1, ?E2; try done; unfold arrived; cbn; by rewrite E2 | | done].
  apply (pair_unmoved _ _ a); [| split; [done | apply P1] | apply K]. split; cbn; rewrite ?E1, ?E2; done.
Qed.

Lemma setPacketSize_same m k : let k' := setPacketSize ikcp_malloc m k in
  k'.(tx) = k.(tx) /\ k'.(rx) = k.(rx) /\ k'.(cfg).(kconv) = k.(cfg).(kconv) /\ k'.(cfg).(stream) = k.(cfg).(stream).
Proof. cbv zeta. unfold setPacketSize, ikcp_setmtu. by repeat case_match. Qed.

Lemma act_ok full ha hb a b e : kept full ha hb a b -> (full -> forall x, seg_alloc x = true) -> sane seg_alloc e a b = true ->
  exists a' cs, act seg_alloc ikcp_malloc e a b = Ret a' /\ kept full (ha ++ cs) hb a' b
    /\ a'.(kcb).(cfg).(stream) = a.(kcb).(cfg).(stream).
Proof.
  intros K Hf Hs. pose proof K as [I _]. destruct (pair_a _ _ _ _ I) as [W _].
  assert (forall k, (k.(tx) = (kcb a).(tx) /\ k.(rx) = (kcb a).(rx) /\ k.(cfg).(kconv) = (kcb a).(cfg).(kconv)
      /\ k.(cfg).(stream) = (kcb a).(cfg).(stream)) -> Wf ha (got_as hb) (taken a) k ->
    exists a' cs, Ret (with_kcb k a) = Ret a' /\ kept full (ha ++ cs) hb a' b /\ a'.(kcb).(cfg).(stream) = a.(kcb).(cfg).(stream)) as set.
  { intros k (E1 & E2 & E3 & E4) Wk. exists (with_kcb k a), []. rewrite app_nil_r. split; [done |]. split; [by apply setting_event | done]. }
  destruct e as [d | len | now | n | m | dl i rs nc | sw rw | en |].
  - destruct (send_event seg_alloc ikcp_malloc ha hb a b d I Hs) as (a' & E & I' & C). exists a', []. rewrite app_nil_r.
    split; [done |]. split; [by apply (kept_calm _ _ _ a) | apply C].
  - destruct (recv_event seg_alloc ikcp_malloc ha hb a b len I Hs) as (a' & E & I' & C). exists a', []. rewrite app_nil_r.
    split; [done |]. split; [by apply (kept_calm _ _ _ a) | apply C].
  - by apply update_event.
  - destruct (input_event seg_alloc ikcp_malloc full ha hb a b n K Hf Hs) as (a' & E & K' & S). exists a', []. by rewrite app_nil_r.
  - apply set; [apply setPacketSize_same |]. apply setPacketSize_ok; [done |]. cbn [sane] in Hs. lia.
  - apply set; [done |]. by apply nodelay_ok.
  - apply set; [done |]. by apply wndsize_ok.
  - apply set; [done |]. by apply ackn_mode_ok.
  - apply set; [done |]. apply wf_clock; [apply W | done].
Qed.
End Events.

(** ** Runs *)

Section Runs.
Context (seg_alloc ikcp_malloc : bool -> nat -> bool).

Definition all_memory : Prop := forall side x, seg_alloc side x = true.

Definition world_ok (sw se : Z) (w : World) : Prop :=
  (exists hw he, kept all_memory hw he w.(west) w.(east)) /\ w.(west).(kcb).(cfg).(stream) = sw /\ w.(east).(kcb).(cfg).(stream) = se.

Lemma event_ok sw se side e w : world_ok sw se w -> sane_event seg_alloc side e w = true ->
  exists w', exec seg_alloc ikcp_malloc side e w = Ret w' /\ world_ok sw se w'.
Proof.
  intros ((hw & he & K) & Sw & Se) Hs. unfold exec, sane_event in *. destruct side.
  - destruct (act_ok (seg_alloc true) (ikcp_malloc true) all_memory hw he _ _ e K) as (p & cs & -> & K' & S); [intros F x; apply F | done |].
    eexists. split; [done |]. split; [by eexists _, _ |]. cbn. split; congruence.
  - destruct (act_ok (seg_alloc false) (ikcp_malloc false) all_memory he hw _ _ e (kept_swap _ _ _ _ _ K)) as (p & cs & -> & K' & S);
      [intros F x; apply F | done |].
    eexists. split; [done |]. split; [eexists _, _; by apply kept_swap |]. cbn. split; congruence.
Qed.

Lemma run_kept sw se l w : world_ok sw se w -> sane_run seg_alloc ikcp_malloc l w = true ->
  exists w', run seg_alloc ikcp_malloc l w = Ret w' /\ world_ok sw se w'.
Proof.
  revert w. induction l as [| [side e] l IH]; intros w H Hs; cbn [run sane_run] in *; [by exists w |].
  apply andb_true_iff in Hs as [H1 H2]. destruct (event_ok _ _ _ _ _ H H1) as (w1 & E & Hw). rewrite E in *. cbn [mbind result_bind].
  by apply IH.
Qed.

(** Both ends of a new connection; the user may set the field [stream]. *)
Definition with_stream (s : Z) (k : ikcpcb) : ikcpcb :=
  let c := k.(cfg) in
  with_cfg (mkConfig c.(kconv) c.(mtu) c.(mss) c.(buffer_size) c.(snd_wnd) c.(rcv_wnd) c.(interval) c.(nodelay) c.(rx_minrto)
              c.(fastresend) c.(fastlimit) c.(nocwnd) s c.(dead_link) c.(ackn_mode)) k.

Definition new_peer (malloc : nat -> bool) (c s : Z) : option Peer :=
  k ← ikcp_create malloc c; Some (mkPeer (with_stream s k) [] [] 0 0 []).

Definition start (c sw se : Z) : option World :=
  p ← new_peer (ikcp_malloc true) c sw; q ← new_peer (ikcp_malloc false) c se; Some (mkWorld p q).
End Runs.

Lemma new_peer_ok malloc c s p P : 0 <= c < 2 ^ 32 -> new_peer malloc c s = Some p ->
  Wf [] P 0 p.(kcb) /\ p = mkPeer p.(kcb) [] [] 0 0 [] /\ p.(kcb).(cfg).(kconv) = c /\ p.(kcb).(cfg).(stream) = s
  /\ p.(kcb).(tx) = mkTx 0 0 [] 0 [] 0 /\ p.(kcb).(rx) = mkRx 0 [] 0 [] 0 [] 0.
Proof.
  intros Hc H. unfold new_peer, ikcp_create in H. destruct (negb (malloc 0%nat)), (negb (malloc 1%nat)); try done. injection H as <-. split; [| done].
  split; cbn; try done.
  - exists 0. split; cbn; try done. by constructor.
  - split; cbn; try done. constructor. lia.
Qed.

Lemma opening_ok seg_alloc ikcp_malloc c sw se w : 0 <= c < 2 ^ 32 -> start ikcp_malloc c sw se = Some w -> world_ok seg_alloc sw se w.
Proof.
  intros Hc H. unfold start in H. destruct (new_peer (ikcp_malloc true) c sw) as [p |] eqn:Ep; [| done]. cbn in H.
  destruct (new_peer (ikcp_malloc false) c se) as [q |] eqn:Eq; [| done]. injection H as <-.
  destruct (new_peer_ok _ _ _ _ (got_as []) Hc Ep) as (W1 & E1 & C1 & S1 & T1 & R1).
  destruct (new_peer_ok _ _ _ _ (got_as []) Hc Eq) as (W2 & E2 & C2 & S2 & T2 & R2). split; [| done]. exists [], [].
  assert (forall a b : Peer, a = mkPeer a.(kcb) [] [] 0 0 [] -> b = mkPeer b.(kcb) [] [] 0 0 [] -> a.(kcb).(tx) = mkTx 0 0 [] 0 [] 0 ->
    b.(kcb).(rx) = mkRx 0 [] 0 [] 0 [] 0 -> link_ok [] a b /\ no_loss [] a b) as link.
  { intros a b -> -> Ta Rb. cbn in Ta, Rb. split; [split | intros _; split]; cbn; rewrite ?Ta, ?Rb; try done.
    - exists []. split; [done |]. split; [done |]. intros _. by exists [], [].
    - intros i Hi. exfalso. unfold zlen in Hi. cbn in Hi. lia.
    - intros x Hx. by apply elem_of_nil in Hx.
    - intros x f Hx. by apply elem_of_nil in Hx. }
  cbn [west east]. destruct (link p q E1 E2 T1 R2) as [L1 N1]. destruct (link q p E2 E1 T2 R1) as [L2 N2].
  split; [| done]. split; [| | done | done | congruence]; split; [by rewrite E1 | by rewrite E1 | by rewrite E2 | by rewrite E2].
Qed.

(** ** Delivery *)

(** C2: Over a network that loses, delays, reorders and repeats datagrams, both KCP ends
    go on without a fault; what is received is a prefix of what was sent, outside stream
    mode by whole messages. Runs: no datagram older than 2^30 segments or echoing a stamp
    of three days ago, memory for sends. *)
Theorem kcp_delivers seg_alloc ikcp_malloc c sw se l w0 : 0 <= c < 2 ^ 32 -> start ikcp_malloc c sw se = Some w0 ->
  sane_run seg_alloc ikcp_malloc l w0 = true ->
  exists w, run seg_alloc ikcp_malloc l w0 = Ret w
    /\ concat w.(east).(got) `prefix_of` concat w.(west).(said) /\ concat w.(west).(got) `prefix_of` concat w.(east).(said)
    /\ (sw = 0 -> w.(east).(got) `prefix_of` w.(west).(said)) /\ (se = 0 -> w.(west).(got) `prefix_of` w.(east).(said)).
Proof.
  intros Hc H0 Hs. destruct (run_kept seg_alloc ikcp_malloc sw se l w0 (opening_ok seg_alloc ikcp_malloc c sw se w0 Hc H0) Hs) as (w & E & ((hw & he & [I _]) & Sw & Se)).
  exists w. destruct I as [_ _ L1 L2 _]. split; [done |]. split; [by eapply link_bytes |]. split; [by eapply link_bytes |].
  split; intros ?; eapply link_messages; try done; congruence.
Qed.

(** A connection whose datagrams arrive late, in another order, twice or not at all. *)
Definition plenty : bool -> nat -> bool := fun _ _ => true.

(** An end that was never set up. *)
Definition blank : Peer :=
  mkPeer (mkKcp (mkConfig 0 0 0 0 0 0 0 0 0 0 0 0 0 0 false) (mkTx 0 0 [] 0 [] 0) (mkRx 0 [] 0 [] 0 [] 0) (mkRtt 0 0 0)
            (mkWindow 0 0 0 0) (mkProbe 0 0 0) (mkStats 0 0 0 0 0 0 0) (mkClock 0 0 false) false 0 0) [] [] 0 0 [].

Definition opened (seg_alloc : bool -> nat -> bool) : World := default (mkWorld blank blank) (start seg_alloc 0 0 0).

Definition fast : Event := SetNodelay 1 10 2 1.

Definition rough_sea : list (bool * Event) :=
  [(true, fast); (false, fast); (true, SetPacketSize 50); (true, Send (map Z.of_nat (seq 0 60))); (true, Send [7; 8]); (true, Update 0);
   (false, Input 2%nat); (false, Update 5); (true, Input 0%nat); (false, Input 2%nat); (false, Recv 100); (true, Update 300);
   (false, Input 0%nat); (false, Recv 100); (false, Input 1%nat); (false, Recv 100);
   (false, Input 6%nat); (false, Recv 100)].

Definition after (l : list (bool * Event)) : World :=
  match run plenty plenty l (opened plenty) with Ret w => w | _ => opened plenty end.

Lemma kcp_delivers_witness : exists w, run plenty plenty rough_sea (opened plenty) = Ret w
  /\ concat w.(east).(got) `prefix_of` concat w.(west).(said) /\ concat w.(west).(got) `prefix_of` concat w.(east).(said)
  /\ (0 = 0 -> w.(east).(got) `prefix_of` w.(west).(said)) /\ (0 = 0 -> w.(west).(got) `prefix_of` w.(east).(said)).
Proof.
  apply (kcp_delivers plenty plenty 0 0 0 rough_sea (opened plenty)).
  - lia.
  - vm_compute. reflexivity.
  - vm_compute. reflexivity.
Defined.

(** In this run everything arrives. *)
Lemma rough_sea_arrives : (after rough_sea).(east).(got) = (after rough_sea).(west).(said) /\ length (after rough_sea).(west).(said) = 2%nat.
Proof. vm_compute. by split. Qed.

(** ** Recovery *)

(** An end has the segment with number [i]. *)
Definition holds_number (p : Peer) (i : Z) : Prop :=
  i < p.(taken) \/ exists s, s ∈ p.(kcb).(rx).(rcv_buf) /\ s.(head).(sn) = u32 i.

Lemma arrived_holds h p i : arrived h p i -> holds_number p i.
Proof. intros [? | (_ & s & Hs & Hg & _)]; [by left | right]. by exists s. Qed.

Lemma numbered_unique c h lo hi l s s' : hi - lo < 2 ^ 32 -> numbered (sent_as c h) lo hi l -> s ∈ l -> s' ∈ l -> seg_sn s = seg_sn s' -> s = s'.
Proof.
  intros Hw H. revert Hw. induction H as [lo hi H | lo hi i x l Hi HP H IH]; intros Hw Hs Hs' E; [by apply elem_of_nil in Hs |].
  pose proof (numbered_le _ _ _ _ H) as Hle. pose proof (zlen_nonneg l) as Hz.
  assert (forall y, y ∈ l -> seg_sn y = seg_sn x -> False) as no.
  { intros y Hy Ey. destruct (numbered_in _ _ _ _ _ H Hy) as (j & Hj & HPj). destruct HP as (_ & _ & E1 & _). destruct HPj as (_ & _ & E2 & _).
    unfold seg_sn in Ey. assert (i = j); [| lia]. apply u32_inj; [lia | congruence]. }
  apply elem_of_cons in Hs as [-> | Hs]; apply elem_of_cons in Hs' as [-> | Hs']; [done | | | by apply IH; [lia |..]];
    exfalso; by eapply no.
Qed.

Lemma itimediff_self r : _itimediff (u32 r) r = 0.
Proof.
  unfold _itimediff, wraps, wrapu. change (2 ^ (32 - 1)) with (2 ^ 31).
  rewrite <- Zplus_mod_idemp_l, Zminus_mod_idemp_l, Z.sub_diag. reflexivity.
Qed.

(** A segment that was not retired is sent again when its time comes. *)
Lemma resend seg_alloc ikcp_malloc full ha hb a b i s : kept full ha hb a b -> a.(kcb).(clock).(updated) = false -> s ∈ a.(kcb).(tx).(snd_buf) ->
  seg_sn s = u32 i -> 0 <= i < zlen ha -> zlen ha < 2 ^ 29 ->
  exists a' cs n d, act seg_alloc ikcp_malloc (Update (u32 s.(resendts))) a b = Ret a' /\ kept full (ha ++ cs) hb a' b /\ zlen cs <= WND_MAX
    /\ a'.(wire) !! n = Some (zlen (ha ++ cs), d)
    /\ (forall f x, f ∈ frames_in a.(kcb).(cfg).(kconv) d -> x ∈ acks_of f -> x ∈ a.(kcb).(rx).(acklist))
    /\ exists f x, f ∈ frames_in a.(kcb).(cfg).(kconv) d /\ pushes f = Some x /\ got_as (ha ++ cs) i x.
Proof.
  intros K Hup Hs Es Hi Hlt. pose proof K as [[[W Hn] _ _ _ _] _]. pose proof (u32_range (resendts s)) as Ht.
  destruct (update_ok (got_as hb) ha (taken a) (u32 (resendts s)) (kcb a) W Ht) as (cl & outs & k' & cs & Ec & Eu & [(_ & _ & _ & X) | F]); [congruence |].
  pose proof (flush_kept full ha hb a b cl outs k' cs K F) as K'. cbv zeta in K'. pose proof (flush_count _ _ _ _ _ _ _ _ W F) as Hcount.
  destruct F as [F1 F2 F3 F4 F5 F6 F7 F8 F9 F10 F11]. cbn [with_clock cfg tx rx clock] in *.
  destruct (F8 s Hs) as (s' & Hs' & Cs). destruct Cs as (_ & _ & Esn & _ & _). fold (seg_sn s') (seg_sn s) in Esn.
  destruct (F11 s' Hs') as [(f & x & (d & fs & Hd & Hfs & Hin) & Hp & Hx) | [Hs'' Hlate]].
  2: { exfalso. destruct (wf_tx _ _ _ _ W) as [U [T1 T2 _ _ T5 _ _ _]].
       assert (s' = s) as -> by (eapply numbered_unique; [| exact T5 | done | done | done]; lia).
       rewrite Ec, itimediff_self in Hlate. lia. }
  pose proof (wf_cfg _ _ _ _ W) as [C1 C2 _ _ _ _]. rewrite Forall_forall in F3. pose proof (F3 d) as [Hz _]; [by apply list_elem_of_In |].
  assert (zlen d < 65536) as Hz' by lia. destruct (framed_in _ _ _ _ _ _ _ C1 Hz' Hfs) as (_ & G2 & _). destruct Hfs as [_ Hgood]. rewrite Forall_forall in Hgood.
  apply list_elem_of_lookup in Hd as [n Hd]. pose proof (zlen_nonneg cs) as Hcs.
  eexists _, cs, (length (wire a) + n)%nat, d. split; [cbn [act]; rewrite Eu; cbn [mbind result_bind]; by rewrite Hcount |].
  split; [exact K' |]. split; [done |]. cbn [wire]. split; [| split].
  - rewrite lookup_app_r, Nat.add_sub_swap, Nat.sub_diag by lia. cbn [Nat.add]. rewrite list_lookup_fmap, Hd. cbn. by rewrite zlen_app, Hn.
  - intros g y Hg Hy. rewrite G2 in Hg. apply list_elem_of_In, Hgood in Hg as (_ & _ & Ha & _). by apply Ha.
  - exists f, x. rewrite G2. split; [done |]. split; [done |]. apply list_elem_of_In, Hgood in Hin as (_ & _ & _ & Hpush).
    destruct (Hpush x Hp) as (j & Hj & Hj2 & Ej & Hl & _). rewrite zlen_app in Hj2.
    assert (i = j) as -> by (apply u32_inj; [lia | congruence]). by split.
Qed.

(** A segment that is in a datagram arrives with it. *)
Lemma absorb seg_alloc ikcp_malloc ha hb a b n stamp d i f x : pair_ok ha hb a b -> (forall y, seg_alloc y = true) ->
  wire b !! n = Some (stamp, d) -> sane seg_alloc (Input n) a b = true -> f ∈ frames_in a.(kcb).(cfg).(kconv) d -> pushes f = Some x ->
  got_as hb i x -> i < a.(taken) + a.(kcb).(cfg).(rcv_wnd) -> zlen hb <= 2 ^ 30 ->
  exists a', act seg_alloc ikcp_malloc (Input n) a b = Ret a' /\ holds_number a' i.
Proof.
  intros I Hm En Hs Hf Hp Hg Hi Hz. destruct (input_sent seg_alloc ikcp_malloc ha hb a b n stamp d I En Hs) as (code & lost & k' & l & E & Ef & Hl).
  cbn [act]. rewrite En, E. cbn [mbind result_bind]. eexists. split; [done |].
  assert (lost = false) as -> by (destruct lost; [destruct (Hl eq_refl) as [y Hy]; by rewrite Hm in Hy | done]).
  pose proof I as [[W _] _ _ P4 _]. pose proof Ef as [E1 E2 E3 _ _ _ _ _ _ _ E11 _ _]. pose proof (got_as_lt _ _ _ Hg) as Hpos.
  pose proof (zlen_nonneg l) as Hl0. pose proof (rx_que_max _ _ _ (wf_rx _ _ _ _ E1)) as Hq. rewrite E3, zlen_app in Hq.
  pose proof (zlen_nonneg (rcv_queue (rx (kcb a)))). pose proof (rx_start _ _ _ (wf_rx _ _ _ _ W)) as H0.
  destruct (got_as_next hb (taken a) l) as [_ Hmax]; [split; [done | apply P4] | done |].
  destruct (E11 eq_refl f x i Hf Hp Hg ltac:(lia)) as [Hh _].
  eapply (arrived_holds hb). unfold arrived. cbn [taken kcb].
  by rewrite (advance _ _ _ _ _ (zlen l) (wf_rx _ _ _ _ W) (wf_rx _ _ _ _ E1)) by lia.
Qed.

(** C8: With enough memory, in runs without datagrams older than 2^30 segments or three
    days and under 2^29 segments, no segment is lost for good: each numbered segment that
    fits the window of the peer is there already or arrives when the sender flushes at the
    right time and one datagram gets through. *)
Theorem kcp_missing_arrives seg_alloc ikcp_malloc c sw se l w0 w i : all_memory seg_alloc -> 0 <= c < 2 ^ 32 ->
  start ikcp_malloc c sw se = Some w0 -> sane_run seg_alloc ikcp_malloc l w0 = true -> run seg_alloc ikcp_malloc l w0 = Ret w ->
  w.(west).(count) < 2 ^ 29 -> 0 <= i < w.(west).(count) -> i < w.(east).(taken) + w.(east).(kcb).(cfg).(rcv_wnd) ->
  forallb (fun x => _itimediff w.(east).(kcb).(clock).(current) x.2 <? 2 ^ 28) w.(west).(kcb).(rx).(acklist) = true ->
  zlen w.(east).(kcb).(rx).(acklist) < 2 ^ 30 ->
  exists t n w', run seg_alloc ikcp_malloc [(true, Hurry); (true, Update t); (false, Input n)] w = Ret w' /\ holds_number w'.(east) i.
Proof.
  intros Hm Hc H0 Hs Hr Hcount Hi Hwnd Ht Hacks.
  destruct (run_kept seg_alloc ikcp_malloc sw se l w0 (opening_ok seg_alloc ikcp_malloc c sw se w0 Hc H0) Hs) as (w1 & E & ((hw & he & K) & _ & _)).
  rewrite Hr in E. injection E as <-. set (a := with_kcb (updateKcp (kcb (west w))) (west w)).
  assert (kept (all_memory seg_alloc) hw he a (east w)) as Ka.
  { apply setting_event; try done. destruct K as [[[W _] _ _ _ _] _]. apply wf_clock; [apply W | done]. }
  destruct K as [[[W Hn] _ _ _ _] L]. destruct (L Hm) as [L1 _]. rewrite Hn in Hcount, Hi.
  assert (forall t a' n e', act (seg_alloc true) (ikcp_malloc true) (Update t) a (east w) = Ret a' ->
    act (seg_alloc false) (ikcp_malloc false) (Input n) (east w) a' = Ret e' ->
    run seg_alloc ikcp_malloc [(true, Hurry); (true, Update t); (false, Input n)] w = Ret (mkWorld a' e')) as runs.
  { intros t a' n e' E1 E2. cbn [run exec]. change (act (seg_alloc true) (ikcp_malloc true) Hurry (west w) (east w)) with (Ret a).
    cbn [mbind result_bind west east]. rewrite E1. cbn [mbind result_bind west east]. by rewrite E2. }
  destruct (nl_kept _ _ _ (L1 ltac:(lia)) i Hi) as [Ha | (s & Hs0 & Es)].
  - destruct (act_ok (seg_alloc true) (ikcp_malloc true) _ hw he a (east w) (Update 0) Ka) as (a' & cs & E & _ & _); [intros F x; apply F | done |].
    exists 0, (length (wire a')), (mkWorld a' (east w)). split; [| by eapply arrived_holds]. apply runs; [done |]. cbn [act].
    by rewrite lookup_ge_None_2.
  - destruct (resend (seg_alloc true) (ikcp_malloc true) _ hw he a (east w) i s Ka eq_refl Hs0 Es Hi Hcount)
      as (a' & cs & n & d & E & K' & Hcs & Ew & Hack & f & x & Hf & Hp & Hg).
    destruct K' as [I' _]. pose proof (zlen_nonneg cs) as Hz. pose proof I' as [[_ Hn'] [[_ _ _ _ R _ _ _] _] _ _ Ec].
    assert (kconv (cfg (kcb a)) = kconv (cfg (kcb (east w)))) as Ec0 by apply Ka.
    destruct (absorb (seg_alloc false) (ikcp_malloc false) he (hw ++ cs) (east w) a' n (zlen (hw ++ cs)) d i f x) as (e' & Ee & He); try done.
    + by apply pair_swap.
    + cbn [sane]. rewrite Ew. unfold near, timely_frames. pose proof (rx_start _ _ _ R). rewrite Hn', <- Ec0, zlen_app.
      repeat (apply andb_true_iff; split); try (apply Z.ltb_lt; lia). apply forallb_forall. intros g Hg'. apply forallb_forall. intros y Hy.
      rewrite forallb_forall in Ht. apply Ht, list_elem_of_In, (Hack g); by apply list_elem_of_In.
    + by rewrite <- Ec0.
    + rewrite zlen_app. lia.
    + exists (u32 (resendts s)), n, (mkWorld a' e'). split; [by apply runs | done].
Qed.

(** Nothing of the first flush gets through. *)
Definition silence : list (bool * Event) := [(true, fast); (true, Send [1; 2]); (true, Send [3]); (true, Update 0)].

Lemma kcp_missing_arrives_witness : exists t n w',
  run plenty plenty [(true, Hurry); (true, Update t); (false, Input n)] (after silence) = Ret w' /\ holds_number w'.(east) 1.
Proof.
  apply (kcp_missing_arrives plenty plenty 0 0 0 silence (opened plenty) (after silence) 1).
  - intros side x. reflexivity.
  - lia.
  - vm_compute. reflexivity.
  - vm_compute. reflexivity.
  - vm_compute. reflexivity.
  - vm_compute. reflexivity.
  - vm_compute. split; congruence.
  - vm_compute. reflexivity.
  - vm_compute. reflexivity.
  - vm_compute. reflexivity.
Defined.

(** ** Datagrams that nobody sent *)

(** The other end is anything that can send datagrams. *)
Definition stranger (ds : list (list Z)) : Peer := mkPeer blank.(kcb) [] [] 0 0 (map (fun d => (0, d)) ds).

Definition sane_alone (seg_alloc : nat -> bool) (ds : list (list Z)) (e : Event) (p : Peer) : bool :=
  match e with
  | Input n =>
      match ds !! n with
      | Some d => bytes_ok d && (zlen d <? 65536) && timely_frames p.(kcb) d && (zlen p.(kcb).(rx).(acklist) <? 2 ^ 30)
      | None => true
      end
  | _ => sane seg_alloc e p (stranger ds)
  end.

Fixpoint alone (seg_alloc ikcp_malloc : nat -> bool) (ds : list (list Z)) (l : list Event) (p : Peer) : result Peer :=
  match l with
  | [] => Ret p
  | e :: l => p ← act seg_alloc ikcp_malloc e p (stranger ds); alone seg_alloc ikcp_malloc ds l p
  end.

Fixpoint sane_alone_run (seg_alloc ikcp_malloc : nat -> bool) (ds : list (list Z)) (l : list Event) (p : Peer) : bool :=
  match l with
  | [] => true
  | e :: l => sane_alone seg_alloc ds e p
              && match act seg_alloc ikcp_malloc e p (stranger ds) with Ret p => sane_alone_run seg_alloc ikcp_malloc ds l p | _ => true end
  end.

(** No window is set wider than [Wr] for receiving and [Ws] for sending. *)
Definition narrow_event (Wr Ws : Z) (e : Event) : bool :=
  match e with SetWindow snd rcv => (snd <=? Ws) && (rcv <=? Wr) | _ => true end.

(** The counters are those of the lists; what waits for the user, what waits for its turn and
    what waits for an acknowledgement fit the windows. *)
Definition consistent (Wr Ws : Z) (k : ikcpcb) : bool :=
  (k.(tx).(nsnd_buf) =? zlen k.(tx).(snd_buf)) && (k.(rx).(nrcv_que) =? zlen k.(rx).(rcv_queue))
  && (k.(rx).(nrcv_buf) =? zlen k.(rx).(rcv_buf)) && (zlen k.(tx).(snd_buf) <=? Ws) && (zlen k.(rx).(rcv_queue) <=? Wr)
  && (zlen k.(rx).(rcv_buf) <=? Wr) && (zlen k.(rx).(acklist) <=? k.(rx).(ackblock)).

Section Alone.
Context (seg_alloc ikcp_malloc : nat -> bool) (ds : list (list Z)).

Context (Wr Ws : Z) (Wr_range : 128 <= Wr <= 65535).

(** The lists fit the windows, which are not wider than [Wr] and [Ws]. *)
Definition windowed (R : Z) (k : ikcpcb) : Prop :=
  fitting has_number Wr R k.(rx) /\ k.(cfg).(rcv_wnd) <= Wr /\ zlen k.(tx).(snd_buf) <= Ws /\ k.(cfg).(snd_wnd) <= Ws.

Definition alone_ok (p : Peer) : Prop := exists h R, Wf h has_number R p.(kcb) /\ windowed R p.(kcb).

Lemma alone_consistent p : alone_ok p -> consistent Wr Ws p.(kcb) = true.
Proof.
  intros (h & R & [_ [U [T1 T2 _ _ T5 T6 _ _]] _ _ [_ _ X3 X4 X5 X6 _ _ X9] _ _ _] & ([F1 F2] & _ & F3 & _)).
  pose proof (numbered_le _ _ _ _ F2). unfold consistent. rewrite T6, X4, X5, !Z.eqb_refl. cbn [andb].
  repeat (apply andb_true_iff; split); apply Z.leb_le; lia.
Qed.

Lemma windowed_same R k k' : k'.(rx) = k.(rx) -> zlen k'.(tx).(snd_buf) <= zlen k.(tx).(snd_buf) ->
  k'.(cfg).(rcv_wnd) <= Wr -> k'.(cfg).(snd_wnd) <= Ws -> windowed R k -> windowed R k'.
Proof. intros E1 E2 E3 E4 (F1 & F2 & F3 & F4). unfold windowed. rewrite E1. split; [done |]. split; [done |]. split; [lia | done]. Qed.

(** Bytes are frames whose fields are in range. *)
Lemma frames_of_bytes fuel c p : is_bytes p -> zlen p < 65536 ->
  Forall (fun f => 0 <= wnd_of f /\ forall s, pushes f = Some s -> seg_ok s /\ entry_ok (s.(head).(sn), s.(head).(ts))) (frames_of fuel c p).1.
Proof.
  intros Hb Hz. revert p Hb Hz. induction fuel as [| fuel IH]; intros p Hb Hz; [by cbn |]. cbn [frames_of].
  assert (forall (Q : Frame -> Prop) f rest, is_bytes rest -> zlen rest < 65536 ->
    Q f -> (Forall Q (frames_of fuel c rest).1) -> Forall Q (let '(fs, e) := frames_of fuel c rest in (f :: fs, e)).1) as step.
  { intros Q f rest _ _ Hf Hr. destruct (frames_of fuel c rest). by constructor. }
  assert (forall n (q : list Z), zlen (drop n q) <= zlen q) as Hd by (intros n q; unfold zlen; rewrite length_drop; lia).
  destruct (zlen p <? _); [by cbn |]. destruct (negb (_ =? c)); [by cbn |]. destruct (_ =? IKCP_CMD_ACKN).
  - destruct (zlen p <? _); [by cbn |]. set (rest := drop _ p). assert (is_bytes rest) as Hr by (by apply is_bytes_drop).
    pose proof (Hd (Z.to_nat (IKCP_ACKN_OVERHEAD + field p 5 2 * IKCP_ACKN_ENTRY)) p) as Hl. fold rest in Hl.
    apply step; [done | lia | | apply IH; [done | lia]]. cbn. pose proof (field_range 7 2 p Hb). split; [lia | done].
  - destruct (zlen p <? _); [by cbn |]. destruct (_ || _); [by cbn |]. destruct (negb _); [by cbn |]. set (rest := drop _ (drop 24 p)).
    assert (is_bytes rest) as Hr by (by do 2 apply is_bytes_drop). assert (zlen rest <= zlen p) as Hl by (etrans; [apply Hd | apply Hd]).
    apply step; [done | lia | | apply IH; [done | lia]]. pose proof (field_range 6 2 p Hb) as Hw. split; [cbn; lia |].
    intros s Hs. cbn [pushes] in Hs. destruct (_ =? _); [| done]. injection Hs as <-. cbn [head sn ts].
    pose proof (field_range 5 1 p Hb) as H5. pose proof (field_range 12 4 p Hb) as H12. pose proof (field_range 8 4 p Hb) as H8.
    split; [split; cbn [head frg data]; [exact H5 |] | split; [exact H12 | exact H8]].
    assert (zlen (take (Z.to_nat (field p 20 4)) (drop 24 p)) <= zlen p) as Ht by (unfold zlen; rewrite length_take, length_drop; lia). lia.
Qed.

Lemma alone_send d p : alone_ok p -> sane_alone seg_alloc ds (Send d) p = true ->
  exists p', act seg_alloc ikcp_malloc (Send d) p (stranger ds) = Ret p' /\ alone_ok p'.
Proof.
  intros (h & R & W & V) Hs. cbn [sane_alone sane] in Hs. apply andb_true_iff in Hs as [Hs Hm]. apply andb_true_iff in Hs as [Hb Hl].
  apply bytes_ok_spec in Hb. pose proof (zlen_nonneg d) as Hz.
  destruct (send_ok seg_alloc h has_number R d (zlen d) (kcb p) W (memory_of _ _ Hm) Hb) as (code & k' & q & E & S & W'); [lia | lia |].
  cbn [act]. rewrite E. cbn [mbind result_bind]. eexists. split; [done |]. exists h, R. split; [done |]. cbn [kcb].
  destruct (sends_queues _ _ _ _ _ S) as [Q1 Q2 _ _ _ _ _ Q3]. unfold windowed in *. by rewrite Q1, Q2, Q3.
Qed.

Lemma alone_recv len p : alone_ok p -> sane_alone seg_alloc ds (Recv len) p = true ->
  exists p', act seg_alloc ikcp_malloc (Recv len) p (stranger ds) = Ret p' /\ alone_ok p'.
Proof.
  intros (h & R & W & (V1 & V2 & V3 & V4)) Hs. cbn [sane_alone sane] in Hs.
  destruct (recv_ok h has_number ltac:(done) R len (kcb p) W ltac:(lia)) as (code & d & k' & l & E & _ & W' & T & C & _ & _ & _ & F & _).
  cbn [act]. rewrite E. cbn [mbind result_bind]. eexists. split; [done |]. eexists h, _. split; [exact W' |]. cbn [kcb]. unfold windowed. rewrite T, C.
  split; [by apply F | done].
Qed.

Lemma alone_update now p : alone_ok p -> sane_alone seg_alloc ds (Update now) p = true ->
  exists p', act seg_alloc ikcp_malloc (Update now) p (stranger ds) = Ret p' /\ alone_ok p'.
Proof.
  intros (h & R & W & V) Hs. cbn [sane_alone sane] in Hs. cbn [act].
  destruct (update_ok has_number h R now (kcb p) W ltac:(lia)) as (cl & outs & k' & cs & Ec & -> & [(_ & _ & -> & _) | F]);
    cbn [mbind result_bind]; eexists; (split; [done |]).
  - exists h, R. split; [| done]. apply wf_clock; [by rewrite Ec; lia | done].
  - exists (h ++ cs), R. split; [apply F |]. destruct V as ([V1 V1'] & V2 & V3 & V4). pose proof (fl_window _ _ _ _ _ _ _ F) as Fw.
    cbn [kcb]. unfold windowed, fitting. rewrite (fl_rx _ _ _ _ _ _ _ F), (fl_cfg _ _ _ _ _ _ _ F). cbn in Fw |- *. split; [done |]. split; [done |]. split; [lia | done].
Qed.

Lemma alone_input n p : alone_ok p -> sane_alone seg_alloc ds (Input n) p = true ->
  exists p', act seg_alloc ikcp_malloc (Input n) p (stranger ds) = Ret p' /\ alone_ok p'.
Proof.
  intros (h & R & W & V) Hs. cbn [sane_alone] in Hs. cbn [act stranger wire]. rewrite list_lookup_fmap.
  destruct (ds !! n) as [d |] eqn:Ed; cbn; [| by exists p; split; [| exists h, R]].
  apply andb_true_iff in Hs as [Hs Ha]. apply andb_true_iff in Hs as [Hs Ht]. apply andb_true_iff in Hs as [Hb Hz]. apply bytes_ok_spec in Hb.
  pose proof (zlen_nonneg d). apply Z.ltb_lt in Hz. pose proof (frames_of_bytes (S (length d)) (kconv (cfg (kcb p))) d Hb Hz) as Hfr.
  destruct (input_effect seg_alloc ikcp_malloc has_number ltac:(done) (fun _ => True) ltac:(done) h d (kcb p) R R Hb ltac:(lia) W I ltac:(lia))
    as (code & lost & k' & l & -> & E & _); [| lia |].
  2: { cbn [mbind result_bind]. eexists. split; [done |]. eexists h, _. split; [apply E |]. destruct V as (V1 & V2 & V3 & V4).
       cbn [kcb]. unfold windowed. rewrite (eff_cfg _ _ _ _ _ _ _ _ _ E). split; [apply (eff_fitting _ _ _ _ _ _ _ _ _ E); [lia | done] |].
       pose proof (eff_fewer _ _ _ _ _ _ _ _ _ E). split; [done |]. split; [lia | done]. }
  unfold timely_frames in Ht. rewrite forallb_forall in Ht. apply Forall_forall. intros f Hf. rewrite Forall_forall in Hfr.
  destruct (Hfr f Hf) as [Hw Hp]. split; [done | |].
  - specialize (Ht f Hf). apply Forall_forall. intros x Hx. rewrite forallb_forall in Ht. specialize (Ht x Hx). unfold timely. lia.
  - intros s Hps. destruct (Hp s Hps) as [Hok He]. split; [done |]. split; [done |]. intros R' _ _.
    exists (R' + _itimediff (sn (head s)) (u32 R')). pose proof (itimediff_range (sn (head s)) (u32 R')).
    split; [| lia]. unfold has_number. symmetry. apply near_number. apply He.
Qed.

Lemma alone_step e p : alone_ok p -> sane_alone seg_alloc ds e p = true -> narrow_event Wr Ws e = true ->
  exists p', act seg_alloc ikcp_malloc e p (stranger ds) = Ret p' /\ alone_ok p'.
Proof.
  intros H Hs Hn.
  destruct e as [d | len | now | n | m | dl i rs nc | sw rw | en |]; [by apply alone_send | by apply alone_recv | by apply alone_update | by apply alone_input | ..];
    destruct H as (h & R & W & V); pose proof V as (_ & V2 & _ & V4); cbn [act]; eexists; (split; [done |]); exists h, R; cbn [kcb with_kcb];
    cbn [sane_alone sane narrow_event] in Hs, Hn.
  - split; [apply setPacketSize_ok; [done | lia] |]. revert V. unfold setPacketSize, ikcp_setmtu. repeat case_match; try done; intros V; by apply windowed_same with (kcb p).
  - split; [by apply nodelay_ok |]. by apply windowed_same with (kcb p).
  - split; [by apply wndsize_ok |]. apply andb_true_iff in Hn as [H1 H2]. apply windowed_same with (kcb p); try done.
    + cbn. unfold _imax_, _imin_, IKCP_WND_RCV in *. repeat case_match; lia.
    + cbn. unfold _imin_. repeat case_match; lia.
  - split; [by apply ackn_mode_ok |]. by apply windowed_same with (kcb p).
  - split; [apply wf_clock; [apply W | done] |]. by apply windowed_same with (kcb p).
Qed.

Lemma alone_run l p : alone_ok p -> sane_alone_run seg_alloc ikcp_malloc ds l p = true -> forallb (narrow_event Wr Ws) l = true ->
  exists p', alone seg_alloc ikcp_malloc ds l p = Ret p' /\ alone_ok p'.
Proof.
  revert p. induction l as [| e l IH]; intros p H Hs Hn; cbn [alone sane_alone_run forallb] in *; [by exists p |].
  apply andb_true_iff in Hs as [H1 H2]. apply andb_true_iff in Hn as [N1 N2].
  destruct (alone_step e p H H1 N1) as (p1 & E & Hp). rewrite E in *. cbn [mbind result_bind]. by apply IH.
Qed.
End Alone.

Lemma new_peer_windowed malloc c s p Wr Ws : 128 <= Wr <= 65535 -> 32 <= Ws -> 0 <= c < 2 ^ 32 -> new_peer malloc c s = Some p -> alone_ok Wr Ws p.
Proof.
  intros H1 H2 Hc Hp. exists [], 0. split; [by apply (new_peer_ok malloc c s p has_number Hc Hp) |].
  unfold new_peer, ikcp_create in Hp. do 2 (destruct (negb _); [done |]). injection Hp as <-. unfold windowed, fitting. cbn.
  unfold IKCP_WND_RCV, IKCP_WND_SND. unfold zlen; cbn [length]; change (Z.of_nat 0) with 0. split; [split; [lia | apply numbered_nil; lia] | lia].
Qed.

(** ** Any network *)

(** C12: Whatever bytes arrive as datagrams (under 2^16 bytes, no stamp echoed after three
    days; memory for sends), a KCP end goes on without a fault: its counters match its
    lists, these fit the widest windows that were ever set, and an update outputs
    datagrams that are not empty and fit the packet size. *)
Theorem kcp_survives seg_alloc ikcp_malloc ds c s l p Wr Ws : 0 <= c < 2 ^ 32 -> new_peer ikcp_malloc c s = Some p ->
  sane_alone_run seg_alloc ikcp_malloc ds l p = true ->
  128 <= Wr <= 65535 -> 32 <= Ws -> forallb (narrow_event Wr Ws) l = true ->
  exists p', alone seg_alloc ikcp_malloc ds l p = Ret p' /\ consistent Wr Ws p'.(kcb) = true
    /\ forall now, 0 <= now < 2 ^ 32 -> exists outs k', ikcp_update now p'.(kcb) = Ret (outs, k')
         /\ Forall (fun d => 0 < zlen d <= p'.(kcb).(cfg).(mtu)) outs.
Proof.
  intros Hc Hp Hs HWr HWs Hn. assert (alone_ok Wr Ws p) as H0 by by apply (new_peer_windowed ikcp_malloc c s).
  destruct (alone_run seg_alloc ikcp_malloc ds Wr Ws HWr l p H0 Hs Hn) as (p' & E & H). exists p'.
  split; [done |]. split; [by apply alone_consistent |]. intros now Hnow. destruct H as (h & R & W & _).
  destruct (update_ok has_number h R now (kcb p') W Hnow) as (cl & outs & k' & cs & _ & -> & [(-> & _) | F]); eexists _, _; (split; [done |]); [done |].
  eapply Forall_impl; [| exact (fl_outs _ _ _ _ _ _ _ F)]. by intros d [Hd _].
Qed.

(** A segment far ahead, a truncated one, an acknowledgement of nothing, and noise. *)
Definition forged : list (list Z) :=
  [encode_data (mkSegment (mkHead 0 IKCP_CMD_PUSH 7 1 0 100 5) [1; 2; 3]); encode_data (mkSegment (mkHead 0 IKCP_CMD_PUSH 0 1 0 0 9) [4]);
   take 24 (encode_data (mkSegment (mkHead 0 IKCP_CMD_PUSH 0 1 0 1 9) [4])); encode_data (mkSegment (mkHead 0 IKCP_CMD_ACK 0 1 0 77 3) []);
   repeat 255 40].

Lemma kcp_survives_witness : exists p',
  alone (plenty true) (plenty true) forged [Send [1]; Input 0%nat; Update 5; Input 1%nat; Input 2%nat; Input 3%nat; Input 4%nat; Recv 9] (opened plenty).(west) = Ret p'
    /\ consistent 128 32 p'.(kcb) = true
    /\ forall now, 0 <= now < 2 ^ 32 -> exists outs k', ikcp_update now p'.(kcb) = Ret (outs, k')
         /\ Forall (fun d => 0 < zlen d <= p'.(kcb).(cfg).(mtu)) outs.
Proof.
  apply (kcp_survives (plenty true) (plenty true) forged 0 0).
  - lia.
  - vm_compute. reflexivity.
  - vm_compute. reflexivity.
  - lia.
  - lia.
  - vm_compute. reflexivity.
Defined.

(** ** A number that is gone

    Segment [i] is gone when the sender has dropped it and the receiver lacks it. *)






Section Gone.
Context (c i : Z) (old : list (Z * list Z)).






End Gone.

Section GoneRuns.
Context (seg_alloc ikcp_malloc : bool -> nat -> bool) (c i : Z) (old : list (Z * list Z)).

Local Notation kept := (kept (all_memory seg_alloc)).




End GoneRuns.




(** ** Defects *)

(** Memory for one end that fails once, at the first segment it receives. *)
Definition short_once : bool -> nat -> bool := fun side x => side || negb (x =? 0)%nat.

Definition lost_for_good : list (bool * Event) :=
  [(true, fast); (false, fast); (true, Send [1]); (true, Update 0); (false, Input 0%nat); (false, Update 10); (true, Input 0%nat);
   (true, Send [2]); (true, Update 20); (false, Input 1%nat); (false, Update 30); (true, Input 1%nat)].




(** After [lost_for_good] the first segment is gone: the second was received, and waits. *)
Definition stuck : World :=
  match run short_once plenty lost_for_good (opened plenty) with Ret w => w | _ => opened plenty end.

Definition later : list (bool * Event) :=
  [(true, Send [3]); (true, Update 40); (false, Input 2%nat); (false, Recv 100); (false, Update 50); (true, Input 2%nat); (false, Input 1%nat); (false, Recv 100)].


(** There three messages were sent and all of them acknowledged, and nothing is received. *)
Lemma lost_for_good_run : exists w', run short_once plenty later stuck = Ret w' /\ w'.(west).(said) = [[1]; [2]; [3]]
  /\ w'.(west).(kcb).(tx).(snd_buf) = [] /\ w'.(west).(kcb).(tx).(snd_queue) = [] /\ w'.(east).(got) = []
  /\ map data w'.(east).(kcb).(rx).(rcv_buf) = [[2]; [3]].
Proof. eexists. split; [vm_compute; reflexivity |]. vm_compute. by repeat split. Qed.

(** An acknowledgement that echoes a time stamp 2^30 ms back overflows the signed arithmetic
    of the round-trip estimate, already as the first sample; the peer chooses the time stamp. *)
Lemma kcp_stale_ack_overflows :
  ikcp_input (plenty true) (plenty true) (encode_data (mkSegment (mkHead 0 IKCP_CMD_ACK 0 32 (2 ^ 32 - 2 ^ 30) 0 0) [])) (opened plenty).(west).(kcb) = Fault.
Proof. vm_compute. reflexivity. Qed.

(** Memory that fails once, at the third segment of the first message. *)
Definition short_third : bool -> nat -> bool := fun side x => negb side || negb (x =? 2)%nat.

Definition torn : list (bool * Event) :=
  [(true, fast); (true, SetPacketSize 50); (true, Send (repeat 65 78)); (true, Send [66]); (true, Update 0);
   (false, Input 0%nat); (false, Input 1%nat); (false, Input 2%nat); (false, Recv 1000)].

(** When the memory for a fragment cannot be had, [ikcp_send] (with assertions compiled out)
    reports the failure but leaves the fragments before it queued, so that the other end
    receives them joined with the next message. *)
Lemma kcp_send_partial : exists w, run short_third plenty torn (opened plenty) = Ret w
  /\ w.(west).(said) = [[66]] /\ w.(east).(got) = [repeat 65 52 ++ [66]].
Proof. eexists. split; [vm_compute; reflexivity |]. vm_compute. by split. Qed.
