(* ===== verification/Utf8.v ===== *)
(** * UTF-8 ([src/src/utils/string_utils.cpp])

    The decoder and validator [utf8ToCodepoints], the encoder [codepointsToUtf8], and
    that they are inverse to each other: exactly the encodings of sequences of scalar
    values are accepted. *)

From S2P Require Import Prelude.

(** ** The code *)

(** The loop over the [extra] continuation bytes. *)
Fixpoint continuation (extra : nat) (cp : Z) (l : list Z) : option (Z * list Z) :=
  match extra with
  | O => Some (cp, l)
  | S extra' =>
      match l with
      | [] => None
      | cc :: l' =>
          if negb (Z.land cc 0xC0 =? 0x80) then None
          else continuation extra' (Z.lor (Z.shiftl cp 6) (Z.land cc 0x3F)) l'
      end
  end.

(** The first byte: the bits it carries, and how many bytes follow. *)
Definition lead (c : Z) : option (Z * nat) :=
  if c <=? 0x7F then Some (c, 0%nat)
  else if Z.land c 0xE0 =? 0xC0 then Some (Z.land c 0x1F, 1%nat)
  else if Z.land c 0xF0 =? 0xE0 then Some (Z.land c 0x0F, 2%nat)
  else if Z.land c 0xF8 =? 0xF0 then Some (Z.land c 0x07, 3%nat)
  else None.

(** The tests on a complete code point. *)
Definition refused (extra : nat) (cp : Z) : bool :=
  (cp >? 0x10FFFF) || ((cp >=? 0xD800) && (cp <=? 0xDFFF))
  || ((extra =? 1)%nat && (cp <? 0x80)) || ((extra =? 2)%nat && (cp <? 0x800))
  || ((extra =? 3)%nat && (cp <? 0x10000)).

Fixpoint utf8Loop (fuel : nat) (l : list Z) : option (list Z) :=
  match l, fuel with
  | [], _ => Some []
  | c :: l', S fuel' =>
      d ← lead c;
      if Z.of_nat d.2 >=? zlen l then None else
      r ← continuation d.2 d.1 l';
      if refused d.2 r.1 then None else
      cps ← utf8Loop fuel' r.2;
      Some (r.1 :: cps)
  | _, O => None
  end.

Definition utf8ToCodepoints (text : list Z) : option (list Z) := utf8Loop (length text) text.

Definition isValidUtf8 (text : list Z) : bool := bool_decide (is_Some (utf8ToCodepoints text)).

Definition encodeCodepoint (cp : Z) : list Z :=
  if cp <=? 0x7F then [u8 cp]
  else if cp <=? 0x7FF then [u8 (Z.lor 0xC0 (Z.shiftr cp 6)); u8 (Z.lor 0x80 (Z.land cp 0x3F))]
  else if cp <=? 0xFFFF then
    [u8 (Z.lor 0xE0 (Z.shiftr cp 12)); u8 (Z.lor 0x80 (Z.land (Z.shiftr cp 6) 0x3F)); u8 (Z.lor 0x80 (Z.land cp 0x3F))]
  else
    [u8 (Z.lor 0xF0 (Z.shiftr cp 18)); u8 (Z.lor 0x80 (Z.land (Z.shiftr cp 12) 0x3F));
     u8 (Z.lor 0x80 (Z.land (Z.shiftr cp 6) 0x3F)); u8 (Z.lor 0x80 (Z.land cp 0x3F))].

Definition codepointsToUtf8 (cps : list Z) : list Z := concat (map encodeCodepoint cps).

(** ** Bits *)

(** Scalar values: code points that are not surrogates. *)
Definition scalar (cp : Z) : Prop := 0 <= cp <= 0x10FFFF /\ ~ (0xD800 <= cp <= 0xDFFF).

#[export] Instance scalar_dec cp : Decision (scalar cp).
Proof. unfold scalar. apply _. Defined.

Lemma land_low_mask b : is_byte b ->
  Z.land b 0xC0 = b / 64 * 64 /\ Z.land b 0xE0 = b / 32 * 32 /\ Z.land b 0xF0 = b / 16 * 16 /\ Z.land b 0xF8 = b / 8 * 8
  /\ Z.land b 0x3F = b mod 64 /\ Z.land b 0x1F = b mod 32 /\ Z.land b 0x0F = b mod 16 /\ Z.land b 0x07 = b mod 8.
Proof.
  intros Hb. assert (H : forall n : nat, (n < 256)%nat -> let b := Z.of_nat n in
    Z.land b 0xC0 = b / 64 * 64 /\ Z.land b 0xE0 = b / 32 * 32 /\ Z.land b 0xF0 = b / 16 * 16 /\ Z.land b 0xF8 = b / 8 * 8
    /\ Z.land b 0x3F = b mod 64 /\ Z.land b 0x1F = b mod 32 /\ Z.land b 0x0F = b mod 16 /\ Z.land b 0x07 = b mod 8).
  { intros n Hn. do 256 (destruct n as [| n]; [by vm_compute |]). lia. }
  unfold is_byte in Hb. specialize (H (Z.to_nat b) ltac:(lia)). cbv zeta in H. by rewrite Z2Nat.id in H by lia.
Qed.

Lemma lor_add a b k : 0 <= k -> 0 <= b < 2 ^ k -> a mod 2 ^ k = 0 -> Z.lor a b = a + b.
Proof.
  intros Hk Hb Ha. replace a with (a / 2 ^ k * 2 ^ k) by (pose proof (Z.div_mod a (2 ^ k)); lia).
  by rewrite lor_high.
Qed.

(** The bytes of an encoding, by division. *)
Lemma encodeCodepoint_div cp : 0 <= cp <= 0x10FFFF -> encodeCodepoint cp =
  if cp <=? 0x7F then [cp]
  else if cp <=? 0x7FF then [192 + cp / 64; 128 + cp mod 64]
  else if cp <=? 0xFFFF then [224 + cp / 4096; 128 + cp / 64 mod 64; 128 + cp mod 64]
  else [240 + cp / 262144; 128 + cp / 4096 mod 64; 128 + cp / 64 mod 64; 128 + cp mod 64].
Proof.
  intros Hc. unfold encodeCodepoint. rewrite !land_63, !shiftr_div by lia. change (2 ^ 6) with 64.
  change (2 ^ 12) with 4096. change (2 ^ 18) with 262144.
  assert (Hlow : forall x, u8 (Z.lor 0x80 (x mod 64)) = 128 + x mod 64).
  { intros x. rewrite (lor_add _ _ 6) by dm_lia. unfold wrapu. rewrite Z.mod_small; dm_lia. }
  rewrite !Hlow. repeat case_test; f_equal; unfold wrapu.
  - rewrite Z.mod_small; lia.
  - rewrite (lor_add _ _ 5) by dm_lia. rewrite Z.mod_small; dm_lia.
  - rewrite (lor_add _ _ 4) by dm_lia. rewrite Z.mod_small; dm_lia.
  - rewrite (lor_add _ _ 3) by dm_lia. rewrite Z.mod_small; dm_lia.
Qed.

Lemma encodeCodepoint_bytes cp : is_bytes (encodeCodepoint cp).
Proof. unfold encodeCodepoint. repeat case_test; repeat constructor; apply is_byte_mod. Qed.

Lemma codepointsToUtf8_bytes cps : is_bytes (codepointsToUtf8 cps).
Proof.
  unfold codepointsToUtf8. induction cps as [| cp cps IH]; cbn; [constructor |].
  apply is_bytes_app_2; [apply encodeCodepoint_bytes | done].
Qed.

(** A continuation byte adds six bits. *)
Lemma continuation_step extra cp b l : is_byte b ->
  continuation (S extra) cp (b :: l) =
    if b / 64 =? 2 then continuation extra (cp * 64 + b mod 64) l else None.
Proof.
  intros Hb. cbn [continuation]. destruct (land_low_mask b Hb) as (-> & _ & _ & _ & -> & _).
  rewrite lor_shiftl by (change (2 ^ 6) with 64; dm_lia). change (2 ^ 6) with 64.
  replace (b / 64 * 64 =? 0x80) with (b / 64 =? 2) by lia. by destruct (b / 64 =? 2).
Qed.

Lemma lead_div c : is_byte c -> lead c =
  if c <=? 127 then Some (c, 0%nat)
  else if c / 32 =? 6 then Some (c mod 32, 1%nat)
  else if c / 16 =? 14 then Some (c mod 16, 2%nat)
  else if c / 8 =? 30 then Some (c mod 8, 3%nat)
  else None.
Proof.
  intros Hc. unfold lead. destruct (land_low_mask c Hc) as (_ & -> & -> & -> & _ & -> & -> & ->).
  replace (c / 32 * 32 =? 0xC0) with (c / 32 =? 6) by lia. replace (c / 16 * 16 =? 0xE0) with (c / 16 =? 14) by lia.
  by replace (c / 8 * 8 =? 0xF0) with (c / 8 =? 30) by lia.
Qed.

Lemma scalar_accepted cp : scalar cp -> refused (if cp <=? 0x7F then 0 else if cp <=? 0x7FF then 1
  else if cp <=? 0xFFFF then 2 else 3) cp = false.
Proof. intros [H1 H2]. unfold refused. repeat case_test; cbn; lia. Qed.

Lemma room_for {A} n (l : list A) : (n < length l)%nat -> (Z.of_nat n >=? zlen l) = false.
Proof. unfold zlen. lia. Qed.

(** ** Decoding what was encoded *)

Ltac utf8_step B := rewrite continuation_step by (exact B); replace (_ =? 2) with true by dm_lia.

Lemma utf8Loop_encode cp rest fuel : scalar cp ->
  utf8Loop (S fuel) (encodeCodepoint cp ++ rest) = cps ← utf8Loop fuel rest; Some (cp :: cps).
Proof.
  intros Hs. pose proof Hs as [Hr Hn]. pose proof (scalar_accepted cp Hs) as Ha.
  pose proof (encodeCodepoint_bytes cp) as Hb. rewrite (encodeCodepoint_div cp Hr) in *.
  revert Ha Hb. case_test; [| case_test; [| case_test]]; intros Ha Hb.
  - inversion Hb as [| ? ? B0 _]; subst. cbn [app utf8Loop]. rewrite lead_div by done. test_true.
    cbn [mbind option_bind snd fst]. rewrite room_for by (cbn; lia).
    cbn [continuation mbind option_bind snd fst]. by rewrite Ha.
  - inversion Hb as [| ? ? B0 R0]; inversion R0 as [| ? ? B1 _]; subst.
    cbn [app utf8Loop]. rewrite lead_div by done. replace (_ <=? 127) with false by dm_lia. replace (_ / 32 =? 6) with true by dm_lia.
    cbn [mbind option_bind snd fst]. rewrite room_for by (cbn; lia). utf8_step B1.
    cbn [continuation mbind option_bind snd fst]. replace (_ * 64 + _) with cp by dm_lia. by rewrite Ha.
  - inversion Hb as [| ? ? B0 R0]; inversion R0 as [| ? ? B1 R1]; inversion R1 as [| ? ? B2 _]; subst.
    cbn [app utf8Loop]. rewrite lead_div by done. replace (_ <=? 127) with false by dm_lia. replace (_ / 32 =? 6) with false by dm_lia.
    replace (_ / 16 =? 14) with true by dm_lia.
    cbn [mbind option_bind snd fst]. rewrite room_for by (cbn; lia). utf8_step B1. utf8_step B2.
    cbn [continuation mbind option_bind snd fst]. replace (_ * 64 + _) with cp by dm_lia. by rewrite Ha.
  - inversion Hb as [| ? ? B0 R0]; inversion R0 as [| ? ? B1 R1]; inversion R1 as [| ? ? B2 R2];
      inversion R2 as [| ? ? B3 _]; subst.
    cbn [app utf8Loop]. rewrite lead_div by done. replace (_ <=? 127) with false by dm_lia. replace (_ / 32 =? 6) with false by dm_lia.
    replace (_ / 16 =? 14) with false by dm_lia. replace (_ / 8 =? 30) with true by dm_lia.
    cbn [mbind option_bind snd fst]. rewrite room_for by (cbn; lia). utf8_step B1. utf8_step B2. utf8_step B3.
    cbn [continuation mbind option_bind snd fst]. replace (_ * 64 + _) with cp by dm_lia. by rewrite Ha.
Qed.

(** ** Encoding what was decoded *)

Lemma continuation_rest n : forall cp l cp' l', continuation n cp l = Some (cp', l') -> (length l' <= length l)%nat.
Proof.
  induction n as [| n IH]; intros cp l cp' l' H; cbn in H; [by injection H as _ -> |].
  destruct l as [| b l]; [done |]. destruct (negb _); [done |]. apply IH in H. cbn. lia.
Qed.

Lemma utf8Loop_fuel f1 : forall f2 l, (length l <= f1)%nat -> (length l <= f2)%nat -> utf8Loop f1 l = utf8Loop f2 l.
Proof.
  induction f1 as [| f1 IH]; intros f2 [| c l] H1 H2; try done; [by destruct f2 | cbn in H1; lia | by destruct f2 |].
  destruct f2 as [| f2]; [cbn in H2; lia |]. cbn [utf8Loop]. destruct (lead c) as [[v extra] |]; [| done].
  cbn [mbind option_bind fst snd]. destruct (_ >=? _); [done |].
  destruct (continuation extra v l) as [[cp rest] |] eqn:E; [| done]. cbn [mbind option_bind fst snd].
  destruct (refused extra cp); [done |]. apply continuation_rest in E. cbn in H1, H2.
  by rewrite (IH f2) by lia.
Qed.

Lemma continuation_inv n cp l cp' rest : is_bytes l -> continuation (S n) cp l = Some (cp', rest) ->
  exists b l', l = b :: l' /\ is_byte b /\ is_bytes l' /\ b / 64 = 2 /\ continuation n (cp * 64 + b mod 64) l' = Some (cp', rest).
Proof.
  intros Hl H. destruct l as [| b l]; [done |]. inversion Hl; subst. rewrite continuation_step in H by done.
  destruct (b / 64 =? 2) eqn:E; [| done]. exists b, l. split_and!; try done. lia.
Qed.

(** A code point that passes the tests was written in its one encoding. *)
Lemma decode_one c l v extra cp rest : is_byte c -> is_bytes l -> lead c = Some (v, extra) ->
  continuation extra v l = Some (cp, rest) -> refused extra cp = false ->
  scalar cp /\ c :: l = encodeCodepoint cp ++ rest /\ is_bytes rest.
Proof.
  intros Hc Hl Hd Hk Hr. rewrite lead_div in Hd by done. unfold is_byte in Hc. unfold refused in Hr.
  destruct (c <=? 127) eqn:E1; [| destruct (c / 32 =? 6) eqn:E2; [| destruct (c / 16 =? 14) eqn:E3;
    [| destruct (c / 8 =? 30) eqn:E4; [| done]]]]; injection Hd as <- <-; cbn [Nat.eqb andb orb] in Hr.
  - cbn in Hk. injection Hk as <- <-. split; [unfold scalar; lia |]. split; [| done].
    rewrite encodeCodepoint_div by lia. by test_true.
  - apply continuation_inv in Hk as (b & l1 & -> & Hb & Hl1 & Hb2 & Hk); [| done].
    cbn in Hk. injection Hk as Hk <-. unfold is_byte in Hb.
    assert (Hs : scalar cp) by (unfold scalar; dm_lia). split; [done |]. split; [| done].
    rewrite encodeCodepoint_div by apply Hs. replace (cp <=? 0x7F) with false by lia.
    replace (cp <=? 0x7FF) with true by dm_lia. cbn. f_equal; [dm_lia |]. f_equal. dm_lia.
  - apply continuation_inv in Hk as (b & l1 & -> & Hb & Hl1 & Hb2 & Hk); [| done].
    apply continuation_inv in Hk as (b' & l2 & -> & Hb' & Hl2 & Hb2' & Hk); [| done].
    cbn in Hk. injection Hk as Hk <-. unfold is_byte in Hb, Hb'.
    assert (Hs : scalar cp) by (unfold scalar; dm_lia). split; [done |]. split; [| done].
    rewrite encodeCodepoint_div by apply Hs. replace (cp <=? 0x7F) with false by lia.
    replace (cp <=? 0x7FF) with false by lia. replace (cp <=? 0xFFFF) with true by dm_lia.
    cbn. f_equal; [dm_lia |]. f_equal; [dm_lia |]. f_equal. dm_lia.
  - apply continuation_inv in Hk as (b & l1 & -> & Hb & Hl1 & Hb2 & Hk); [| done].
    apply continuation_inv in Hk as (b' & l2 & -> & Hb' & Hl2 & Hb2' & Hk); [| done].
    apply continuation_inv in Hk as (b'' & l3 & -> & Hb'' & Hl3 & Hb2'' & Hk); [| done].
    cbn in Hk. injection Hk as Hk <-. unfold is_byte in Hb, Hb', Hb''.
    assert (Hs : scalar cp) by (unfold scalar; dm_lia). split; [done |]. split; [| done].
    rewrite encodeCodepoint_div by apply Hs. replace (cp <=? 0x7F) with false by lia.
    replace (cp <=? 0x7FF) with false by lia. replace (cp <=? 0xFFFF) with false by lia.
    cbn. f_equal; [dm_lia |]. f_equal; [dm_lia |]. f_equal; [dm_lia |]. f_equal. dm_lia.
Qed.

Lemma utf8Loop_sound fuel : forall l cps, is_bytes l -> utf8Loop fuel l = Some cps ->
  Forall scalar cps /\ codepointsToUtf8 cps = l.
Proof.
  induction fuel as [| fuel IH]; intros [| c l] cps Hl H; cbn [utf8Loop] in H; try done;
    try (injection H as <-; split; [constructor | done]).
  inversion Hl as [| ? ? Hc Hl']; subst. destruct (lead c) as [[v extra] |] eqn:E1; [| done].
  cbn [mbind option_bind fst snd] in H. destruct (_ >=? _); [done |].
  destruct (continuation extra v l) as [[cp rest] |] eqn:E2; [| done]. cbn [mbind option_bind fst snd] in H.
  destruct (refused extra cp) eqn:E3; [done |].
  destruct (utf8Loop fuel rest) as [cps' |] eqn:E4; [| done]. cbn in H. injection H as <-.
  destruct (decode_one c l v extra cp rest Hc Hl' E1 E2 E3) as (Hs & He & Hr).
  destruct (IH rest cps' Hr E4) as [Hcs Hcu]. split; [by constructor |].
  rewrite He. unfold codepointsToUtf8 in *. cbn. by rewrite Hcu.
Qed.

Lemma utf8_complete cps : Forall scalar cps -> utf8ToCodepoints (codepointsToUtf8 cps) = Some cps.
Proof.
  unfold utf8ToCodepoints. induction 1 as [| cp cps Hs Hcs IH]; [done |].
  change (codepointsToUtf8 (cp :: cps)) with (encodeCodepoint cp ++ codepointsToUtf8 cps).
  assert (Hlen : (0 < length (encodeCodepoint cp))%nat) by (unfold encodeCodepoint; repeat case_test; cbn; lia).
  rewrite (utf8Loop_fuel _ (S (length (encodeCodepoint cp ++ codepointsToUtf8 cps)))) by lia.
  rewrite utf8Loop_encode by done. rewrite (utf8Loop_fuel _ (length (codepointsToUtf8 cps))); [by rewrite IH | | done].
  rewrite length_app. lia.
Qed.

Lemma utf8_sound l cps : is_bytes l -> utf8ToCodepoints l = Some cps -> Forall scalar cps /\ codepointsToUtf8 cps = l.
Proof. apply utf8Loop_sound. Qed.

(** ** What is accepted *)

(** C31: A byte string decodes to a list of code points exactly when these are Unicode
    scalar values and their encoding is that string: no overlong form, surrogate or
    truncated sequence is accepted. *)
Theorem utf8_decodes_exactly_encodings l cps : is_bytes l ->
  utf8ToCodepoints l = Some cps <-> Forall scalar cps /\ codepointsToUtf8 cps = l.
Proof.
  intros Hl. split; [by apply utf8_sound |]. intros [Hs <-]. by apply utf8_complete.
Qed.

Lemma utf8_decodes_exactly_encodings_witness :
  utf8ToCodepoints [0x61; 0xE2; 0x82; 0xAC; 0xF0; 0x9F; 0x98; 0x80] = Some [0x61; 0x20AC; 0x1F600].
Proof.
  apply utf8_decodes_exactly_encodings; [closed_bytes |]. split; [| by vm_compute].
  repeat constructor; unfold scalar; lia.
Defined.
