(* ===== verification/WebSocket.v ===== *)
(** * WebSocket connections ([src/src/websocket.cpp])

    The frame codec, the fragmentation of what is sent, and [doReceive] with the buffer
    that it fills from the socket.  The socket delivers its bytes in chunks of any size;
    the random mask keys and the success of each [sendall] are parameters.  What goes to
    [receivingQueue] and to the socket is recorded in the state. *)

From S2P Require Import Prelude Utf8.

(** ** Frames *)

Definition ContinuationFrame : Z := 0x0.
Definition TextFrame : Z := 0x1.
Definition BinaryFrame : Z := 0x2.
Definition CloseFrame : Z := 0x8.
Definition PingFrame : Z := 0x9.
Definition PongFrame : Z := 0xa.

Record WebSocketFrame : Type := mkFrame {
  fin : bool;
  rsv1 : bool;
  rsv2 : bool;
  rsv3 : bool;
  opcode : Z;
  maskkey : Z;
  payload : list Z
}.

Definition newFrame : WebSocketFrame := mkFrame false false false false 0 0 [].

Definition set_payload (p : list Z) (f : WebSocketFrame) : WebSocketFrame :=
  mkFrame f.(fin) f.(rsv1) f.(rsv2) f.(rsv3) f.(opcode) f.(maskkey) p.
Definition set_opcode (c : Z) (f : WebSocketFrame) : WebSocketFrame :=
  mkFrame f.(fin) f.(rsv1) f.(rsv2) f.(rsv3) c f.(maskkey) f.(payload).
Definition set_fin (b : bool) (f : WebSocketFrame) : WebSocketFrame :=
  mkFrame b f.(rsv1) f.(rsv2) f.(rsv3) f.(opcode) f.(maskkey) f.(payload).
Definition set_maskkey (k : Z) (f : WebSocketFrame) : WebSocketFrame :=
  mkFrame f.(fin) f.(rsv1) f.(rsv2) f.(rsv3) f.(opcode) k f.(payload).

(** The payload length and the size of the header so far, or what [feedHeader] returns. *)
Definition payloadLength (packet : list Z) (len : Z) : Z + Z * Z :=
  if len <=? 125 then inr (len, 2)
  else if len =? 126 then
    if zlen packet >=? 2 + 2 then inr (be_decode (slice packet 2 2), 2 + 2) else inl (-1)
  else
    if zlen packet >=? 2 + 8 then
      let len := be_decode (slice packet 2 8) in
      if negb (Z.land len (Z.shiftl 1 63) =? 0) then inl (-2) else inr (len, 2 + 8)
    else inl (-1).

(** [-1] for a header that is not complete, [-2] for one that is wrong; or the frame,
    whether it is masked, its payload length, and what follows the header. *)
Definition feedHeader (packet : list Z) : Z + WebSocketFrame * bool * Z * list Z :=
  match packet with
  | b0 :: b1 :: _ =>
      let frame := mkFrame (negb (Z.shiftr (Z.land b0 0x80) 7 =? 0)) (negb (Z.shiftr (Z.land b0 0x40) 6 =? 0))
        (negb (Z.shiftr (Z.land b0 0x20) 5 =? 0)) (negb (Z.shiftr (Z.land b0 0x10) 4 =? 0)) (Z.land b0 0x0f) 0 [] in
      let hasMask := negb (Z.land b1 0x80 =? 0) in
      match payloadLength packet (Z.land b1 0x7f) with
      | inl e => inl e
      | inr (len, headerSize) =>
          if hasMask then
            if zlen packet >=? headerSize + 4 then
              inr (set_maskkey (be_decode (slice packet headerSize 4)) frame, hasMask, len,
                   drop (Z.to_nat (headerSize + 4)) packet)
            else inl (-1)
          else inr (frame, hasMask, len, drop (Z.to_nat headerSize) packet)
      end
  | _ => inl (-1)
  end.

(** The loop of [applyMaskTo]. *)
Definition applyMask (key : Z) (src : list Z) : list Z :=
  imap (fun j b => Z.lxor b (default 0 (be_encode 4 key !! (j mod 4)%nat))) src.

Definition toByteArray (f : WebSocketFrame) : list Z :=
  let len := zlen f.(payload) in
  let b0 := Z.lor (if f.(fin) then 0x80 else 0) f.(opcode) in
  let b1 := if f.(maskkey) >? 0 then 0x80 else 0 in
  let head :=
    if len <=? 125 then [b0; Z.lor b1 len]
    else if len <=? 65535 then b0 :: Z.lor b1 126 :: be_encode 2 len
    else b0 :: Z.lor b1 127 :: be_encode 8 len in
  if f.(maskkey) >? 0 then head ++ be_encode 4 f.(maskkey) ++ applyMask f.(maskkey) f.(payload)
  else head ++ f.(payload).

(** ** Close frames *)

Definition NoError : Z := 0.
Definition NormalClosure : Z := 1000.
Definition GoingAway : Z := 1001.
Definition ProtocolError : Z := 1002.
Definition NoStatusRcvd : Z := 1005.
Definition AbnormalClosure : Z := 1006.
Definition InvalidData : Z := 1007.
Definition MessageTooBig : Z := 1009.
Definition InternalError : Z := 1011.

Definition isOpCodeReserved (code : Z) : bool :=
  ((code >? BinaryFrame) && (code <? CloseFrame)) || (code >? PongFrame).

Definition isCloseCodeValid (closeCode : Z) : bool :=
  ((closeCode >=? 1000) && (closeCode <=? 1014) && negb (closeCode =? 1004) && negb (closeCode =? 1005)
   && negb (closeCode =? 1006))
  || ((closeCode >=? 3000) && (closeCode <=? 4999)).

Record ClosePayload : Type := mkClose { valid : bool; closeCode : Z; closeReason : list Z }.

Definition parseClosePayload (p : list Z) : ClosePayload :=
  let protocolError := mkClose false ProtocolError (str "protocol error") in
  match p with
  | [] => mkClose true NoStatusRcvd []
  | [_] => protocolError
  | c0 :: c1 :: reason =>
      let code := be_decode [c0; c1] in
      if negb (isCloseCodeValid code) then protocolError
      else match reason with
           | [] => mkClose true code []
           | _ => if isValidUtf8 reason then mkClose true code reason else protocolError
           end
  end.

Definition makeClosePayload (code : Z) (reason : list Z) : list Z :=
  if (code <? 0) || (code >? 1024 * 64) then []
  else take (Z.to_nat (Z.min 125 (zlen reason + 2))) (be_encode 2 code ++ reason).

(** ** The connection *)

Inductive PacketType : Type := Unknown | Binary | Text.
Inductive State : Type := Closed | Open | Closing.
Inductive Side : Type := Client | Server.

#[export] Instance PacketType_eq_dec : EqDecision PacketType.
Proof. solve_decision. Defined.
#[export] Instance State_eq_dec : EqDecision State.
Proof. solve_decision. Defined.
#[export] Instance Side_eq_dec : EqDecision Side.
Proof. solve_decision. Defined.

(** [received] is what went to [receivingQueue], [sent] what went to the socket; [keys]
    counts the mask keys drawn. *)
Record Connection : Type := mkConn {
  state : State;
  side : Side;
  maxPayloadSize : Z;
  errorCode : Z;
  errorString : list Z;
  received : list (PacketType * list Z);
  sent : list (list Z);
  keys : nat
}.

Definition newConnection (s : Side) (max : Z) : Connection := mkConn Open s max NoError [] [] [] 0.

Definition set_state (st : State) (c : Connection) : Connection :=
  mkConn st c.(side) c.(maxPayloadSize) c.(errorCode) c.(errorString) c.(received) c.(sent) c.(keys).
Definition set_error (code : Z) (reason : list Z) (c : Connection) : Connection :=
  mkConn c.(state) c.(side) c.(maxPayloadSize) code reason c.(received) c.(sent) c.(keys).
Definition deliver (t : PacketType) (p : list Z) (c : Connection) : Connection :=
  mkConn c.(state) c.(side) c.(maxPayloadSize) c.(errorCode) c.(errorString) (c.(received) ++ [(t, p)]) c.(sent) c.(keys).
Definition push_sent (p : list Z) (c : Connection) : Connection :=
  mkConn c.(state) c.(side) c.(maxPayloadSize) c.(errorCode) c.(errorString) c.(received) (c.(sent) ++ [p]) c.(keys).
Definition draw_keys (n : nat) (c : Connection) : Connection :=
  mkConn c.(state) c.(side) c.(maxPayloadSize) c.(errorCode) c.(errorString) c.(received) c.(sent) (c.(keys) + n).

Definition mustMask (c : Connection) : bool := bool_decide (c.(side) = Client).

(** The text of an error, where [setErrorCode] has one. *)
Definition errorText (code : Z) : list Z :=
  if code =? 1000 then str "OK" else if code =? 1001 then str "going away"
  else if code =? 1002 then str "protocol error" else if code =? 1003 then str "unsupported data"
  else if code =? 1005 then str "no status received [internal]"
  else if code =? 1006 then str "abnormal closure [internal]"
  else if code =? 1007 then str "invalid frame payload data" else if code =? 1008 then str "policy violation"
  else if code =? 1009 then str "message too big" else if code =? 1010 then str "mandatory extension"
  else if code =? 1011 then str "internal error" else if code =? 1012 then str "service restart"
  else if code =? 1013 then str "try again later" else if code =? 1014 then str "bad gateway"
  else if code =? 1015 then str "TLS handshake failure [internal]" else [].

Definition setErrorCode (code : Z) (reason : list Z) (c : Connection) : Connection :=
  set_error code (if bool_decide (reason = []) then errorText code else c.(errorString)) c.

Definition abort (code : Z) (c : Connection) : Connection :=
  if negb (c.(errorCode) =? NoError) then c
  else set_state Closed (setErrorCode code c.(errorString) c).

(** ** Reading from the socket *)

(** What [doReceive] gets from its buffer and socket: the next header, then its payload.
    The bytes that follow are those of [unread]. *)
Inductive Next : Type :=
| Ended                                              (* the socket has no more bytes *)
| Malformed                                          (* [feedHeader] returned -2 *)
| Header (frame : WebSocketFrame) (frameMasked : bool) (payloadSize : Z).

Class Reader (R : Type) : Type := {
  unread : R -> list Z;
  nextHeader : R -> result (Next * R);
  nextPayload : Z -> R -> result (option (list Z) * R)
}.

(** All the bytes at hand. *)
#[export] Instance whole : Reader (list Z) := {
  unread l := l;
  nextHeader l :=
    match feedHeader l with
    | inl e => Ret (if e =? -2 then Malformed else Ended, l)
    | inr (frame, frameMasked, payloadSize, rest) => Ret (Header frame frameMasked payloadSize, rest)
    end;
  nextPayload n l :=
    if zlen l <? n then Ret (None, l) else Ret (Some (take (Z.to_nat n) l), drop (Z.to_nat n) l)
}.

(** The buffer of [doReceive] before a socket: its size, its [usedSize] bytes, and the
    chunks that [recv] will return, an empty one for the end. *)
Record Wire : Type := mkWire { bufSize : Z; used : list Z; chunks : list (list Z) }.

(** [recvBytes]. *)
Definition recvBytes (w : Wire) : option Wire :=
  match w.(chunks) with
  | [] => None
  | c :: cs =>
      let n := Z.to_nat (w.(bufSize) - zlen w.(used)) in
      match take n c with
      | [] => None
      | got => Some (mkWire w.(bufSize) (w.(used) ++ got) (if (length c <=? n)%nat then cs else drop n c :: cs))
      end
  end.

(** The body of the loop once there are bytes; [again] is the next turn. *)
Definition parseHeader (again : bool -> Wire -> result (Next * Wire)) (needMoreData : bool) (w : Wire)
    : result (Next * Wire) :=
  if zlen w.(used) <? 2 then again needMoreData w
  else match feedHeader w.(used) with
       | inl e => if e =? -2 then Ret (Malformed, w) else again true w
       | inr (frame, frameMasked, payloadSize, rest) =>
           Ret (Header frame frameMasked payloadSize, mkWire w.(bufSize) rest w.(chunks))
       end.

Fixpoint headerLoop (fuel : nat) (needMoreData : bool) (w : Wire) : result (Next * Wire) :=
  match fuel with
  | O => OutOfFuel
  | S fuel' =>
      if (zlen w.(used) <? 2) || needMoreData then
        match recvBytes w with
        | None => Ret (Ended, w)
        | Some w => parseHeader (headerLoop fuel') needMoreData w
        end
      else parseHeader (headerLoop fuel') needMoreData w
  end.

Fixpoint payloadLoop (fuel : nat) (payloadSize : Z) (got : list Z) (w : Wire) : result (option (list Z) * Wire) :=
  match fuel with
  | O => OutOfFuel
  | S fuel' =>
      if negb (zlen got <? payloadSize) then Ret (Some got, w) else
      let size := Z.min (payloadSize - zlen got) (zlen w.(used)) in
      let got := got ++ take (Z.to_nat size) w.(used) in
      let w := mkWire w.(bufSize) (drop (Z.to_nat size) w.(used)) w.(chunks) in
      if zlen got >=? payloadSize then Ret (Some got, w)
      else match recvBytes w with
           | None => Ret (None, w)
           | Some w => payloadLoop fuel' payloadSize got w
           end
  end.

Definition wire_bytes (w : Wire) : list Z := w.(used) ++ concat w.(chunks).

#[export] Instance wired : Reader Wire := {
  unread := wire_bytes;
  nextHeader w := headerLoop (S (S (length (wire_bytes w)))) false w;
  nextPayload n w := payloadLoop (S (S (length (wire_bytes w)))) n [] w
}.

(** The head of [doReceive]. *)
Definition firstBuffer (headBytes : list Z) (cs : list (list Z)) : Wire :=
  mkWire (Z.max (1024 * 64) (zlen headBytes)) headBytes cs.

(** ** Receiving *)

Section Connection.
(** [makeMaskkey], by the number of the draw; whether the n-th [sendall] sends it all. *)
Context (makeMaskkey : nat -> Z) (sendall : nat -> bool).

Definition sendBytes (packet : list Z) (c : Connection) : bool * Connection :=
  if sendall (length c.(sent)) then (true, push_sent packet c) else (false, abort AbnormalClosure c).

Definition makeControlFrame (type : Z) (c : Connection) : WebSocketFrame * Connection :=
  let frame := set_opcode type (set_fin true newFrame) in
  if mustMask c then (set_maskkey (makeMaskkey c.(keys)) frame, draw_keys 1 c) else (frame, c).

Definition isControl (code : Z) : bool := (code =? CloseFrame) || (code =? PingFrame) || (code =? PongFrame).

(** The tests between header and payload; [Some] when the connection ends there. *)
Definition checkHeader (frame : WebSocketFrame) (frameMasked : bool) (payloadSize : Z) (c : Connection)
    : option Connection :=
  if payloadSize >? c.(maxPayloadSize) then
    let '(closeFrame, c) := makeControlFrame CloseFrame c in
    let closeFrame := set_payload (makeClosePayload MessageTooBig (str "the frame is too big to process.")) closeFrame in
    let '(ok, c) := sendBytes (toByteArray closeFrame) c in
    Some (if ok then abort MessageTooBig c else c)
  else if negb (Bool.eqb frameMasked (bool_decide (c.(side) = Server))) then Some (abort ProtocolError c)
  else if frame.(rsv1) || frame.(rsv2) || frame.(rsv3) then Some (abort ProtocolError c)
  else if isOpCodeReserved frame.(opcode) then Some (abort ProtocolError c)
  else if isControl frame.(opcode)
          && (negb frame.(fin) || (payloadSize >? 125) || ((frame.(opcode) =? CloseFrame) && (payloadSize =? 1)))
  then Some (abort ProtocolError c)
  else None.

(** The message in parts: [tmpType] and [tmpPayload]. *)
Definition Partial : Type := PacketType * list Z.

Inductive Handled : Type :=
| Go (tmp : Partial) (c : Connection)
| Stop (c : Connection).

(** The first frame of a message. *)
Definition beginMessage (t : PacketType) (frame : WebSocketFrame) (tmp : Partial) (c : Connection) : Handled :=
  if frame.(fin) then
    if bool_decide (t = Text) && negb (isValidUtf8 frame.(payload)) then Stop (abort InvalidData c)
    else Go tmp (deliver t frame.(payload) c)
  else if negb (bool_decide (tmp.1 = Unknown)) || negb (bool_decide (tmp.2 = [])) then Stop (abort ProtocolError c)
  else Go (t, frame.(payload)) c.

Definition continueMessage (frame : WebSocketFrame) (tmp : Partial) (c : Connection) : Handled :=
  if bool_decide (tmp.1 = Unknown) then Stop (abort ProtocolError c) else
  let tmpPayload := tmp.2 ++ frame.(payload) in
  if frame.(fin) then
    if bool_decide (tmp.1 = Text) && negb (isValidUtf8 tmpPayload) then Stop (abort InvalidData c)
    else Go (Unknown, []) (deliver tmp.1 tmpPayload c)
  else Go (tmp.1, tmpPayload) c.

Definition handleClose (frame : WebSocketFrame) (tmp : Partial) (c : Connection) : Handled :=
  let result := parseClosePayload frame.(payload) in
  let finish c := abort (if result.(valid) then result.(closeCode) else ProtocolError)
                        (set_error c.(errorCode) result.(closeReason) c) in
  match c.(state) with
  | Open =>
      let '(closeFrame, c) := makeControlFrame CloseFrame (set_state Closing c) in
      let closeFrame := set_payload (if result.(valid) then frame.(payload)
                                     else makeClosePayload ProtocolError (str "protocol error")) closeFrame in
      let '(ok, c) := sendBytes (toByteArray closeFrame) c in
      Stop (if ok then finish c else c)
  | Closing => Stop (finish c)
  | Closed => Go tmp c
  end.

Definition handleFrame (frame : WebSocketFrame) (tmp : Partial) (c : Connection) : Handled :=
  if frame.(opcode) =? ContinuationFrame then continueMessage frame tmp c
  else if frame.(opcode) =? TextFrame then beginMessage Text frame tmp c
  else if frame.(opcode) =? BinaryFrame then beginMessage Binary frame tmp c
  else if frame.(opcode) =? CloseFrame then handleClose frame tmp c
  else if frame.(opcode) =? PingFrame then
    let '(pongFrame, c) := makeControlFrame PongFrame c in
    let '(ok, c) := sendBytes (toByteArray (set_payload frame.(payload) pongFrame)) c in
    if ok then Go tmp c else Stop c
  else if frame.(opcode) =? PongFrame then Go tmp c
  else Stop (abort ProtocolError c).

(** The loop of [doReceive]. *)
Fixpoint receiveLoop {R} `{Reader R} (fuel : nat) (tmp : Partial) (r : R) (c : Connection) : result Connection :=
  match fuel with
  | O => OutOfFuel
  | S fuel' =>
      next ← nextHeader r;
      match next.1 with
      | Ended => Ret (abort AbnormalClosure c)
      | Malformed => Ret (abort ProtocolError c)
      | Header frame frameMasked payloadSize =>
          match checkHeader frame frameMasked payloadSize c with
          | Some c => Ret c
          | None =>
              data ← nextPayload payloadSize next.2;
              match data.1 with
              | None => Ret (abort AbnormalClosure c)
              | Some p =>
                  let p := if frameMasked && (payloadSize >? 0) then applyMask frame.(maskkey) p else p in
                  match handleFrame (set_payload p frame) tmp c with
                  | Go tmp c => receiveLoop fuel' tmp data.2 c
                  | Stop c => Ret c
                  end
              end
          end
      end
  end.

Definition receiveAll {R} `{Reader R} (r : R) (c : Connection) : result Connection :=
  receiveLoop (S (length (unread r))) (Unknown, []) r c.

Definition doReceive (headBytes : list Z) (cs : list (list Z)) (c : Connection) : result Connection :=
  receiveAll (firstBuffer headBytes cs) c.

(** ** Sending *)

(** The slices of [fragmentFrame], from the [i]th on.  [blockSize * i] is a product of
    [int]s; a negative length makes [substr] go to the end. *)
Definition block_at (blockSize : Z) (p : list Z) (i : Z) : result (list Z) :=
  let start := blockSize * i in
  if start >? INT_MAX then Fault else
  let len := Z.min (s32 (zlen p - start)) blockSize in
  let rest := drop (Z.to_nat start) p in
  Ret (if len <? 0 then rest else take (Z.to_nat len) rest).

Fixpoint blocks (n : nat) (blockSize : Z) (p : list Z) (i : Z) : result (list (list Z)) :=
  match n with
  | O => Ret []
  | S n' => b ← block_at blockSize p i; l ← blocks n' blockSize p (i + 1); Ret (b :: l)
  end.

(** Keys are drawn one for each frame; [fin] and [opcode] are set at the ends. *)
Fixpoint continuationFrames (mask : bool) (key : nat) (l : list (list Z)) : list WebSocketFrame :=
  match l with
  | [] => []
  | p :: l' =>
      mkFrame (bool_decide (l' = [])) false false false ContinuationFrame (if mask then makeMaskkey key else 0) p
      :: continuationFrames mask (S key) l'
  end.

(** A negative number of frames makes [vector] throw. *)
Definition fragmentFrame (t : PacketType) (p : list Z) (blockSize : Z) (c : Connection)
    : result (list WebSocketFrame * Connection) :=
  let n := s32 ((zlen p + blockSize - 1) / blockSize) in
  let nFrames := if n =? 0 then 1 else n in
  if nFrames <? 0 then Reject else
  parts ← (if nFrames =? 1 then Ret [p] else blocks (Z.to_nat nFrames) blockSize p 0);
  let c' := if mustMask c then draw_keys (length parts) c else c in
  match continuationFrames (mustMask c) c.(keys) parts with
  | [] => Ret ([], c')
  | first :: rest => Ret (set_opcode (if bool_decide (t = Text) then TextFrame else BinaryFrame) first :: rest, c')
  end.

Fixpoint sendFrames (frames : list WebSocketFrame) (c : Connection) : bool * Connection :=
  match frames with
  | [] => (true, c)
  | frame :: frames' =>
      if negb (c.(errorCode) =? NoError) then (false, c) else
      let '(ok, c) := sendBytes (toByteArray frame) c in
      if ok then sendFrames frames' c else (false, c)
  end.

(** The packets that [doSend] takes from [sendingQueue], until one fails. *)
Fixpoint doSend (outgoingSize : Z) (packets : list (PacketType * list Z)) (c : Connection) : result Connection :=
  match packets with
  | [] => Ret c
  | (t, p) :: packets' =>
      if bool_decide (t = Unknown) then Ret (abort InternalError c) else
      '(frames, c) ← fragmentFrame t p outgoingSize c;
      let '(ok, c) := sendFrames frames c in
      if ok : bool then doSend outgoingSize packets' c else Ret c
  end.

End Connection.
