(* ===== verification/WebSocketProofs.v ===== *)
(** * WebSocket connections: reading and framing

    The buffered reader of [doReceive] sees the bytes of the stream and not the chunks
    they come in; a frame is read back from what [toByteArray] wrote. *)

From S2P Require Import Prelude Utf8 WebSocket.

(** ** Headers and what follows them *)

Lemma slice_app_l {A} (l l' : list A) off n : 0 <= off -> 0 <= n -> off + n <= zlen l ->
  slice (l ++ l') off n = slice l off n.
Proof.
  intros Ho Hn Hl. unfold slice, zlen in *. rewrite drop_app_le by lia. rewrite take_app_le; [done |].
  rewrite length_drop. lia.
Qed.

Lemma payloadLength_app l l' len : (exists r, payloadLength l len = inr r) \/ payloadLength l len = inl (-2) ->
  payloadLength (l ++ l') len = payloadLength l len.
Proof.
  intros H. unfold payloadLength in *. pose proof (zlen_nonneg l'). pose proof (zlen_app l l').
  destruct (len <=? 125); [done |]. destruct (len =? 126).
  - destruct (zlen l >=? 2 + 2) eqn:E; [| naive_solver]. rewrite slice_app_l by lia.
    by replace (zlen (l ++ l') >=? 2 + 2) with true by lia.
  - destruct (zlen l >=? 2 + 8) eqn:E; [| naive_solver]. rewrite slice_app_l by lia.
    by replace (zlen (l ++ l') >=? 2 + 8) with true by lia.
Qed.

Lemma payloadLength_inr l len n hs : payloadLength l len = inr (n, hs) -> 2 <= zlen l -> 2 <= hs <= 10 /\ hs <= zlen l.
Proof.
  unfold payloadLength. intros H Hl. destruct (len <=? 125); [injection H as <- <-; lia |]. destruct (len =? 126).
  - destruct (zlen l >=? 2 + 2) eqn:E; [| done]. injection H as <- <-. lia.
  - destruct (zlen l >=? 2 + 8) eqn:E; [| done]. destruct (negb _); [done |]. injection H as <- <-. lia.
Qed.

Lemma payloadLength_inl l len e : payloadLength l len = inl e -> e = -2 \/ e = -1 /\ zlen l < 10.
Proof.
  unfold payloadLength. intros H. destruct (len <=? 125); [done |]. destruct (len =? 126).
  - destruct (zlen l >=? 2 + 2) eqn:E; [done |]. injection H as <-. right. lia.
  - destruct (zlen l >=? 2 + 8) eqn:E; [| injection H as <-; right; lia].
    destruct (negb _); [injection H as <-; by left | done].
Qed.

(** A header that is complete does not depend on what follows. *)
Lemma feedHeader_app l l' f m n rest : feedHeader l = inr (f, m, n, rest) ->
  feedHeader (l ++ l') = inr (f, m, n, rest ++ l').
Proof.
  destruct l as [| b0 [| b1 l]]; try done. cbn [feedHeader app]. set (p := b0 :: b1 :: l).
  change (b0 :: b1 :: l ++ l') with (p ++ l'). assert (Hp : 2 <= zlen p) by (unfold p; zlen_lia).
  destruct (payloadLength p (Z.land b1 0x7f)) as [e | [len hs]] eqn:E; [done |].
  rewrite payloadLength_app, E by (left; by eexists).
  destruct (payloadLength_inr p _ _ _ E Hp) as [H1 H2]. pose proof (zlen_app p l'). pose proof (zlen_nonneg l').
  destruct (negb (Z.land b1 0x80 =? 0)).
  - destruct (zlen p >=? hs + 4) eqn:E4; [| done]. replace (zlen (p ++ l') >=? hs + 4) with true by lia.
    rewrite slice_app_l by lia. rewrite drop_app_le by (unfold zlen in *; lia). by intros [= <- <- <- <-].
  - rewrite drop_app_le by (unfold zlen in *; lia). by intros [= <- <- <- <-].
Qed.

Lemma feedHeader_wrong_app l l' : feedHeader l = inl (-2) -> feedHeader (l ++ l') = inl (-2).
Proof.
  destruct l as [| b0 [| b1 l]]; try done. cbn [feedHeader app]. set (p := b0 :: b1 :: l).
  change (b0 :: b1 :: l ++ l') with (p ++ l').
  destruct (payloadLength p (Z.land b1 0x7f)) as [e | [len hs]] eqn:E.
  - intros [= ->]. rewrite payloadLength_app, E by (by right). done.
  - destruct (negb (Z.land b1 0x80 =? 0)); [| done]. by destruct (zlen p >=? hs + 4).
Qed.

(** Fourteen bytes always complete it. *)
Lemma feedHeader_inl l e : feedHeader l = inl e -> e = -2 \/ e = -1 /\ zlen l < 14.
Proof.
  destruct l as [| b0 [| b1 l]]; try (intros [= <-]; right; zlen_lia). cbn [feedHeader]. set (p := b0 :: b1 :: l).
  assert (Hp : 2 <= zlen p) by (unfold p; zlen_lia).
  destruct (payloadLength p (Z.land b1 0x7f)) as [e' | [len hs]] eqn:E.
  - intros [= <-]. apply payloadLength_inl in E as [-> | [-> ?]]; [by left | right; lia].
  - destruct (payloadLength_inr p _ _ _ E Hp) as [H1 H2]. destruct (negb (Z.land b1 0x80 =? 0)); [| done].
    destruct (zlen p >=? hs + 4) eqn:E4; [done |]. intros [= <-]. right. lia.
Qed.

(** A header takes at least two bytes off. *)
Lemma feedHeader_rest l f m n rest : feedHeader l = inr (f, m, n, rest) -> zlen rest + 2 <= zlen l.
Proof.
  destruct l as [| b0 [| b1 l]]; try done. cbn [feedHeader]. set (p := b0 :: b1 :: l).
  assert (Hp : 2 <= zlen p) by (unfold p; zlen_lia).
  destruct (payloadLength p (Z.land b1 0x7f)) as [e' | [len hs]] eqn:E; [done |].
  destruct (payloadLength_inr p _ _ _ E Hp) as [H1 H2]. destruct (negb (Z.land b1 0x80 =? 0)).
  - destruct (zlen p >=? hs + 4) eqn:E4; [| done]. intros [= _ _ _ <-]. rewrite zlen_drop by lia. lia.
  - intros [= _ _ _ <-]. rewrite zlen_drop by lia. lia.
Qed.

(** ** Readers that give the bytes of a stream *)

Definition header_of (l : list Z) : Next * list Z :=
  match feedHeader l with
  | inl e => (if e =? -2 then Malformed else Ended, l)
  | inr (frame, frameMasked, payloadSize, rest) => (Header frame frameMasked payloadSize, rest)
  end.

(** What [doReceive] relies on: the next header and payload are those of the stream, and
    after either the reader stands behind it. *)
Class ReaderLaws (R : Type) `{Reader R} (ok : R -> Prop) : Prop := {
  header_law r : ok r -> exists next r', nextHeader r = Ret (next, r') /\ next = (header_of (unread r)).1
    /\ (forall f m n, next = Header f m n -> ok r' /\ unread r' = (header_of (unread r)).2);
  payload_law n r : ok r ->
    if zlen (unread r) <? n then exists r', nextPayload n r = Ret (None, r')
    else exists r', nextPayload n r = Ret (Some (take (Z.to_nat n) (unread r)), r')
         /\ ok r' /\ unread r' = drop (Z.to_nat n) (unread r)
}.

#[export] Instance whole_laws : ReaderLaws (list Z) (fun _ => True).
Proof.
  split.
  - intros l _. cbn. unfold header_of. destruct (feedHeader l) as [e | [[[f m] n] rest]].
    + do 2 eexists. split; [done |]. split; [done |]. by destruct (e =? -2).
    + do 2 eexists. split; [done |]. split; [done |]. by intros f' m' n' _.
  - intros n l _. cbn. destruct (zlen l <? n); by eexists.
Qed.

(** A buffer of at least sixteen bytes and a socket that returns what it has. *)
Definition wire_ok (w : Wire) : Prop :=
  16 <= w.(bufSize) /\ zlen w.(used) <= w.(bufSize) /\ Forall (fun c => c <> []) w.(chunks).

Lemma recvBytes_ok w : wire_ok w -> zlen w.(used) < w.(bufSize) ->
  match recvBytes w with
  | None => wire_bytes w = w.(used)
  | Some w' => wire_ok w' /\ wire_bytes w' = wire_bytes w /\ zlen w.(used) < zlen w'.(used)
  end.
Proof.
  intros (H1 & H2 & H3) Hs. unfold recvBytes, wire_bytes. destruct w.(chunks) as [| c cs] eqn:Hc.
  { cbn. by rewrite app_nil_r. }
  inversion H3 as [| ? ? Hne Hcs]; subst. set (n := Z.to_nat (bufSize w - zlen (used w))).
  assert (Hn : Z.of_nat n = bufSize w - zlen (used w)) by lia. destruct (take n c) as [| b got] eqn:Ht.
  { destruct c, n; cbn in Ht; try done; lia. }
  rewrite <- Ht. assert (Hlen : (0 < length (take n c))%nat) by (rewrite Ht; cbn; lia).
  assert (Hle : (length (take n c) <= n)%nat) by (rewrite length_take; lia).
  split_and!; cbn.
  - split_and!; cbn; [done | rewrite zlen_app; unfold zlen in *; lia |].
    destruct (length c <=? n)%nat eqn:El; [done |]. constructor; [| done].
    intros Hd. apply (f_equal length) in Hd. rewrite length_drop in Hd. change (length []) with 0%nat in Hd.
    apply Nat.leb_gt in El. lia.
  - destruct (length c <=? n)%nat eqn:El; cbn; rewrite <- app_assoc; f_equal.
    + by rewrite take_ge by (by apply Nat.leb_le).
    + by rewrite (app_assoc (take n c)), take_drop.
  - rewrite zlen_app. unfold zlen. lia.
Qed.

Lemma header_of_app l l' : zlen l < 2 \/ feedHeader l = inl (-1) \/
  header_of (l ++ l') = ((header_of l).1, if feedHeader l is inr _ then (header_of l).2 ++ l' else l ++ l').
Proof.
  destruct (decide (zlen l < 2)) as [? | Hl]; [by left |]. right.
  destruct (feedHeader l) as [e | [[[f m] n] rest]] eqn:E.
  - destruct (feedHeader_inl l e E) as [-> | [-> _]]; [right | by left].
    unfold header_of. by rewrite (feedHeader_wrong_app l l' E), E.
  - right. unfold header_of. by rewrite (feedHeader_app l l' _ _ _ _ E), E.
Qed.

Lemma feedHeader_short l : zlen l < 2 -> feedHeader l = inl (-1).
Proof. destruct l as [| b0 [| b1 l]]; try done. intros H. zlen_lia. Qed.

(** Bytes of the stream that are not in the buffer yet. *)
Definition ahead (w : Wire) : nat := length (concat w.(chunks)).

Lemma ahead_bytes w : length (wire_bytes w) = (length w.(used) + ahead w)%nat.
Proof. unfold wire_bytes, ahead. by rewrite length_app. Qed.

Definition header_result (w : Wire) (res : result (Next * Wire)) : Prop :=
  exists next w', res = Ret (next, w') /\ next = (header_of (wire_bytes w)).1
    /\ (forall f m n, next = Header f m n -> wire_ok w' /\ wire_bytes w' = (header_of (wire_bytes w)).2).

Lemma headerLoop_ok fuel : forall (need : bool) w, wire_ok w ->
  (ahead w + (if need then 0 else 1) < fuel)%nat ->
  (need = true -> feedHeader w.(used) = inl (-1)) ->
  header_result w (headerLoop fuel need w).
Proof.
  induction fuel as [| fuel IH]; intros need w Hw Hf Hneed; [lia |]. cbn [headerLoop].
  assert (Hparse : forall w1, wire_ok w1 -> wire_bytes w1 = wire_bytes w -> (ahead w1 < fuel)%nat ->
    (zlen (used w1) < 2 -> (ahead w1 + (if need then 0 else 1) < fuel)%nat) -> header_result w (parseHeader (headerLoop fuel) need w1)).
  { intros w1 Hw1 Hb Hf1 Hf2. unfold header_result. rewrite <- Hb. unfold parseHeader. case_test.
    - apply IH; [done | by apply Hf2 | intros _; by apply feedHeader_short].
    - destruct (feedHeader (used w1)) as [e | [[[f m] n] rest]] eqn:E1.
      + destruct (feedHeader_inl _ _ E1) as [-> | [-> _]].
        * cbn. do 2 eexists. split; [done |]. unfold wire_bytes, header_of.
          by rewrite (feedHeader_wrong_app _ _ E1).
        * cbn. apply IH; [done | lia | done].
      + do 2 eexists. split; [done |]. unfold wire_bytes, header_of. cbn.
        rewrite (feedHeader_app _ _ _ _ _ _ E1). split; [done |]. intros f' m' n' _. split; [| done].
        destruct Hw1 as (G1 & G2 & G3). split_and!; cbn; [done | | done].
        pose proof (feedHeader_rest _ _ _ _ _ E1). lia. }
  destruct ((zlen (used w) <? 2) || need) eqn:Hr.
  - assert (Hshort : feedHeader (used w) = inl (-1)).
    { destruct need; [by apply Hneed |]. apply feedHeader_short. lia. }
    assert (Hroom : zlen (used w) < bufSize w).
    { destruct Hw as (G1 & _). destruct (feedHeader_inl _ _ Hshort) as [? | [_ ?]]; lia. }
    pose proof (recvBytes_ok w Hw Hroom) as Hrecv. destruct (recvBytes w) as [w1 |].
    + destruct Hrecv as (G1 & G2 & G3).
      assert (Hless : (ahead w1 < ahead w)%nat).
      { pose proof (ahead_bytes w). pose proof (ahead_bytes w1). rewrite G2 in *. unfold zlen in G3. lia. }
      apply Hparse; try done; intros; lia.
    + do 2 eexists. split; [done |]. rewrite Hrecv. unfold header_of. rewrite Hshort. by split.
  - destruct need; [by rewrite orb_true_r in Hr |]. apply Hparse; try done; [lia |]. intros. lia.
Qed.

Lemma payloadLoop_ok n fuel : forall got w, wire_ok w -> (ahead w < fuel)%nat ->
  zlen got <= Z.max 0 n ->
  if zlen got + zlen (wire_bytes w) <? n then exists w', payloadLoop fuel n got w = Ret (None, w')
  else exists w', payloadLoop fuel n got w = Ret (Some (got ++ take (Z.to_nat (n - zlen got)) (wire_bytes w)), w')
       /\ wire_ok w' /\ wire_bytes w' = drop (Z.to_nat (n - zlen got)) (wire_bytes w).
Proof.
  induction fuel as [| fuel IH]; intros got w Hw Hf Hg; [lia |]. cbn [payloadLoop].
  pose proof (zlen_nonneg got). pose proof (zlen_nonneg (wire_bytes w)). pose proof (zlen_nonneg (used w)).
  destruct (zlen got <? n) eqn:E; cbn [negb].
  2: { replace (_ <? n) with false by lia. replace (Z.to_nat (n - zlen got)) with 0%nat by lia.
       cbn. rewrite app_nil_r. by eexists. }
  pose proof Hw as (W1 & W2 & W3). set (sz := Z.min (n - zlen got) (zlen (used w))).
  assert (Hz : zlen (got ++ take (Z.to_nat sz) (used w)) = zlen got + sz) by (rewrite zlen_app, zlen_take; lia).
  assert (Hlen : zlen (wire_bytes w) = zlen (used w) + Z.of_nat (ahead w)) by (unfold zlen; rewrite ahead_bytes; lia).
  rewrite Hz. destruct (zlen got + sz >=? n) eqn:E2.
  - assert (Hs : sz = n - zlen got) by lia. replace (_ <? n) with false by lia. rewrite <- Hs.
    eexists. split; [unfold wire_bytes; by rewrite take_app_le by (unfold zlen in *; lia) |].
    split; [split_and!; cbn; try done; rewrite zlen_drop; lia |].
    unfold wire_bytes. cbn. by rewrite drop_app_le by (unfold zlen in *; lia).
  - assert (Hs : sz = zlen (used w)) by lia.
    assert (Ht : take (Z.to_nat sz) (used w) = used w) by (apply take_ge; unfold zlen in *; lia).
    assert (Hd : drop (Z.to_nat sz) (used w) = []) by (apply drop_ge; unfold zlen in *; lia).
    rewrite Ht, Hd. rewrite Ht in Hz. set (w1 := mkWire (bufSize w) [] (chunks w)).
    assert (Hw1 : wire_ok w1) by (split_and!; cbn; try done; rewrite ?zlen_nil; lia).
    pose proof (recvBytes_ok w1 Hw1) as Hrecv. cbn in Hrecv. rewrite zlen_nil in Hrecv. specialize (Hrecv ltac:(lia)).
    destruct (recvBytes w1) as [w2 |].
    + destruct Hrecv as (G1 & G2 & G3). change (wire_bytes w1) with (concat (chunks w)) in G2.
      assert (Hless : (ahead w2 < ahead w)%nat).
      { pose proof (ahead_bytes w2) as Hb. rewrite G2 in Hb. fold (ahead w) in Hb. unfold zlen in G3. lia. }
      specialize (IH (got ++ used w) w2 G1 ltac:(lia) ltac:(lia)). rewrite G2, Hz in IH. rewrite Hlen.
      assert (Hc : zlen (concat (chunks w)) = Z.of_nat (ahead w)) by done. rewrite Hc in IH.
      replace (zlen got + (zlen (used w) + Z.of_nat (ahead w)) <? n) with (zlen got + sz + Z.of_nat (ahead w) <? n) by (f_equal; lia).
      destruct (_ <? n) eqn:E3; [done |]. destruct IH as (w' & -> & Ho & Hb). exists w'.
      replace (Z.to_nat (n - zlen got)) with (length (used w) + Z.to_nat (n - (zlen got + sz)))%nat by (unfold zlen in *; lia).
      unfold wire_bytes at 1 3. rewrite take_app_add, drop_app_add, app_assoc. done.
    + change (wire_bytes w1) with (concat (chunks w)) in Hrecv. assert (Ha : ahead w = 0%nat) by (unfold ahead; by rewrite Hrecv).
      replace (_ <? n) with true by lia. by eexists.
Qed.

#[export] Instance wired_laws : ReaderLaws Wire wire_ok.
Proof.
  split.
  - intros w Hw. cbn [nextHeader wired]. pose proof (ahead_bytes w). apply headerLoop_ok; [done | lia | done].
  - intros n w Hw. cbn [nextPayload unread wired]. pose proof (ahead_bytes w).
    pose proof (payloadLoop_ok n (S (S (length (wire_bytes w)))) [] w Hw ltac:(lia)) as H1.
    rewrite zlen_nil, Z.sub_0_r in H1. cbn [app] in H1. apply H1. lia.
Qed.

Lemma firstBuffer_ok headBytes cs : Forall (fun c => c <> []) cs -> wire_ok (firstBuffer headBytes cs).
Proof. intros Hc. split_and!; cbn; try done; lia. Qed.

(** ** The receiver depends on the stream alone *)

Section Receive.
Context (makeMaskkey : nat -> Z) (sendall : nat -> bool).

Lemma receiveLoop_stream {R} `{ReaderLaws R ok} fuel : forall tmp (r : R) c, ok r ->
  receiveLoop makeMaskkey sendall fuel tmp r c = receiveLoop makeMaskkey sendall fuel tmp (unread r) c.
Proof.
  induction fuel as [| fuel IH]; intros tmp r c Hr; [done |]. cbn [receiveLoop].
  destruct (header_law r Hr) as (next & r1 & Hn & Hnext & Hok). rewrite Hn.
  cbn [nextHeader whole]. unfold header_of in *.
  destruct (feedHeader (unread r)) as [e | [[[f m] n] rest]]; cbn in *; subst next.
  - by destruct (e =? -2).
  - destruct (checkHeader _ _ _ _ _ _); [done |]. destruct (Hok f m n eq_refl) as [Hr1 Hu]. cbn [fst snd].
    pose proof (payload_law n r1 Hr1) as Hp. rewrite Hu in Hp. cbn.
    destruct (zlen rest <? n).
    + by destruct Hp as (r2 & ->).
    + destruct Hp as (r2 & -> & Hr2 & Hu2). cbn. destruct (handleFrame _ _ _ _ _); [| done].
      rewrite (IH _ _ _ Hr2). by rewrite Hu2.
Qed.

(** A frame takes bytes off, so the loop ends. *)
Lemma receiveLoop_ends fuel : forall tmp (l : list Z) c, (length l < fuel)%nat ->
  exists c', receiveLoop makeMaskkey sendall fuel tmp l c = Ret c'.
Proof.
  induction fuel as [| fuel IH]; intros tmp l c Hl; [lia |]. cbn.
  destruct (feedHeader l) as [e | [[[f m] n] rest]] eqn:E; cbn; [destruct (e =? -2); by eexists |].
  destruct (checkHeader _ _ _ _ _ _); [by eexists |]. destruct (zlen rest <? n); cbn; [by eexists |].
  destruct (handleFrame _ _ _ _ _); [| by eexists]. apply IH. apply feedHeader_rest in E.
  rewrite length_drop. unfold zlen in E. lia.
Qed.

End Receive.

(** ** Frames on the wire *)

Lemma first_byte (b : bool) code : 0 <= code < 16 -> let b0 := Z.lor (if b then 0x80 else 0) code in
  negb (Z.shiftr (Z.land b0 0x80) 7 =? 0) = b /\ Z.shiftr (Z.land b0 0x40) 6 = 0 /\ Z.shiftr (Z.land b0 0x20) 5 = 0
  /\ Z.shiftr (Z.land b0 0x10) 4 = 0 /\ Z.land b0 0x0f = code /\ is_byte b0.
Proof.
  intros Hc. replace code with (Z.of_nat (Z.to_nat code)) by lia. assert (Hn : (Z.to_nat code < 16)%nat) by lia.
  revert Hn. generalize (Z.to_nat code). intros n Hn.
  do 16 (destruct n as [| n]; [destruct b; by vm_compute |]). lia.
Qed.

Lemma second_byte (b : bool) len : 0 <= len < 128 -> let b1 := Z.lor (if b then 0x80 else 0) len in
  negb (Z.land b1 0x80 =? 0) = b /\ Z.land b1 0x7f = len /\ is_byte b1.
Proof.
  intros Hc. replace len with (Z.of_nat (Z.to_nat len)) by lia. assert (Hn : (Z.to_nat len < 128)%nat) by lia.
  revert Hn. generalize (Z.to_nat len). intros n Hn.
  do 128 (destruct n as [| n]; [destruct b; by vm_compute |]). lia.
Qed.

(** A frame that this side may send. *)
Definition frame_ok (f : WebSocketFrame) : Prop :=
  f.(rsv1) = false /\ f.(rsv2) = false /\ f.(rsv3) = false /\ 0 <= f.(opcode) < 16
  /\ 0 <= f.(maskkey) < 2 ^ 32 /\ zlen f.(payload) < 2 ^ 63.

Definition masked (f : WebSocketFrame) : bool := f.(maskkey) >? 0.
Definition body (f : WebSocketFrame) : list Z :=
  if masked f then applyMask f.(maskkey) f.(payload) else f.(payload).

(** The first two bytes and the extended length. *)
Definition frame_head (f : WebSocketFrame) : list Z :=
  let len := zlen f.(payload) in
  let b0 := Z.lor (if f.(fin) then 0x80 else 0) f.(opcode) in
  let b1 := if f.(maskkey) >? 0 then 0x80 else 0 in
  if len <=? 125 then [b0; Z.lor b1 len]
  else if len <=? 65535 then b0 :: Z.lor b1 126 :: be_encode 2 len
  else b0 :: Z.lor b1 127 :: be_encode 8 len.

Lemma toByteArray_parts f : toByteArray f =
  frame_head f ++ (if masked f then be_encode 4 f.(maskkey) else []) ++ body f.
Proof. unfold toByteArray, frame_head, body, masked. by destruct (maskkey f >? 0). Qed.

Lemma extended_length k b0 b1 v rest : let p := (b0 :: b1 :: be_encode k v) ++ rest in
  2 + Z.of_nat k <= zlen p /\ slice p 2 (Z.of_nat k) = be_encode k v
  /\ zlen (b0 :: b1 :: be_encode k v) = 2 + Z.of_nat k.
Proof.
  cbv zeta. split_and!.
  - rewrite zlen_app, !zlen_cons, zlen_be_encode. pose proof (zlen_nonneg rest). lia.
  - change ((b0 :: b1 :: be_encode k v) ++ rest) with ([b0; b1] ++ be_encode k v ++ rest).
    apply slice_app_mid'; [done | by rewrite zlen_be_encode].
  - rewrite !zlen_cons, zlen_be_encode. lia.
Qed.

(** The length field says how long the payload is. *)
Lemma payloadLength_head f rest : frame_ok f -> exists b0 b1 l,
  frame_head f = b0 :: b1 :: l
  /\ b0 = Z.lor (if f.(fin) then 0x80 else 0) f.(opcode)
  /\ negb (Z.land b1 0x80 =? 0) = masked f
  /\ payloadLength (frame_head f ++ rest) (Z.land b1 0x7f) = inr (zlen f.(payload), zlen (frame_head f)).
Proof.
  intros (_ & _ & _ & _ & _ & Hl). pose proof (zlen_nonneg f.(payload)).
  unfold frame_head, masked. case_test; [| case_test]; (do 3 eexists; split; [done |]; split; [done |]).
  - destruct (second_byte (maskkey f >? 0) (zlen (payload f)) ltac:(lia)) as (H1 & H2 & _).
    split; [done |]. rewrite H2. unfold payloadLength. by test_true.
  - destruct (second_byte (maskkey f >? 0) 126 ltac:(lia)) as (H1 & H2 & _).
    split; [done |]. rewrite H2. unfold payloadLength.
    destruct (extended_length 2 (Z.lor (if fin f then 0x80 else 0) (opcode f))
      (Z.lor (if maskkey f >? 0 then 0x80 else 0) 126) (zlen (payload f)) rest) as (G1 & G2 & G3).
    change (Z.of_nat 2) with 2 in G1, G2, G3. rewrite G3. replace (126 <=? 125) with false by done. replace (126 =? 126) with true by done.
    replace (_ >=? 2 + 2) with true by lia. rewrite G2, be_encode_decode_small; [done |].
    change (256 ^ Z.of_nat 2) with 65536. lia.
  - destruct (second_byte (maskkey f >? 0) 127 ltac:(lia)) as (H1 & H2 & _).
    split; [done |]. rewrite H2. unfold payloadLength.
    destruct (extended_length 8 (Z.lor (if fin f then 0x80 else 0) (opcode f))
      (Z.lor (if maskkey f >? 0 then 0x80 else 0) 127) (zlen (payload f)) rest) as (G1 & G2 & G3).
    change (Z.of_nat 8) with 8 in G1, G2, G3. rewrite G3. replace (127 <=? 125) with false by done. replace (127 =? 126) with false by done.
    replace (_ >=? 2 + 8) with true by lia. rewrite G2.
    rewrite be_encode_decode_small by (change (256 ^ Z.of_nat 8) with (2 ^ 64); lia).
    change (Z.shiftl 1 63) with (2 ^ 63). rewrite land_pow2_testbit, (testbit_small _ 63) by lia. done.
Qed.

(** The header of a frame is read back, and its body follows. *)
Lemma feedHeader_toByteArray f rest : frame_ok f ->
  feedHeader (toByteArray f ++ rest) =
    inr (mkFrame f.(fin) false false false f.(opcode) (if masked f then f.(maskkey) else 0) [],
         masked f, zlen f.(payload), body f ++ rest).
Proof.
  intros Hf. rewrite toByteArray_parts, <- !app_assoc. pose proof Hf as (_ & _ & _ & Ho & Hk & _).
  set (tail := (if masked f then be_encode 4 (maskkey f) else []) ++ body f ++ rest).
  destruct (payloadLength_head f tail Hf) as (b0 & b1 & l & Hh & H0 & H1 & Hp). rewrite Hh in *. cbn [app feedHeader].
  change (b0 :: b1 :: l ++ tail) with ((b0 :: b1 :: l) ++ tail). rewrite Hp, H1.
  destruct (first_byte (fin f) (opcode f) Ho) as (F1 & F2 & F3 & F4 & F5 & _). rewrite <- H0 in *.
  rewrite F1, F2, F3, F4, F5. unfold set_maskkey. cbn [fin rsv1 rsv2 rsv3 opcode payload negb Z.eqb].
  destruct (masked f) eqn:Hm; unfold tail.
  - rewrite slice_app_mid' by (rewrite ?zlen_be_encode; done).
    pose proof (zlen_nonneg (body f ++ rest)) as Hnn.
    rewrite (zlen_app (b0 :: b1 :: l)), (zlen_app (be_encode 4 _)), zlen_be_encode.
    change (Z.of_nat 4) with 4. test_true.
    rewrite be_encode_decode_small by (change (256 ^ Z.of_nat 4) with (2 ^ 32); lia).
    do 2 f_equal. rewrite app_assoc. replace (zlen (b0 :: b1 :: l) + 4) with (zlen ((b0 :: b1 :: l) ++ be_encode 4 (maskkey f)))
      by (rewrite zlen_app, zlen_be_encode; done). apply drop_zlen_app.
  - do 2 f_equal. apply drop_zlen_app.
Qed.

(** Masking twice is not masking. *)
Lemma applyMask_twice k l : applyMask k (applyMask k l) = l.
Proof.
  unfold applyMask. apply list_eq. intros i. rewrite !list_lookup_imap. destruct (l !! i) as [b |]; [| done]. cbn.
  f_equal. by rewrite Z.lxor_assoc, Z.lxor_nilpotent, Z.lxor_0_r.
Qed.

Lemma zlen_applyMask k l : zlen (applyMask k l) = zlen l.
Proof. unfold zlen, applyMask. by rewrite length_imap. Qed.

Lemma zlen_body f : zlen (body f) = zlen f.(payload).
Proof. unfold body. destruct (masked f); [apply zlen_applyMask | done]. Qed.
