(* ===== verification/WebSocketExchange.v ===== *)
(** * WebSocket connections: from [doSend] to [doReceive]

    What one side sends, cut into frames and masked, is what the other side delivers. *)

From S2P Require Import Prelude Utf8 WebSocket WebSocketProofs.

Section Exchange.
Context (makeMaskkey : nat -> Z) (sendall : nat -> bool).

(** ** One frame *)

Lemma handleFrame_ext f f' tmp c : f.(fin) = f'.(fin) -> f.(opcode) = f'.(opcode) -> f.(payload) = f'.(payload) ->
  handleFrame makeMaskkey sendall f tmp c = handleFrame makeMaskkey sendall f' tmp c.
Proof.
  intros H1 H2 H3. unfold handleFrame, continueMessage, beginMessage, handleClose. by rewrite H1, H2, H3.
Qed.

Lemma receive_frame fuel tmp f rest c : frame_ok f ->
  checkHeader makeMaskkey sendall f (masked f) (zlen f.(payload)) c = None ->
  receiveLoop makeMaskkey sendall (S fuel) tmp (toByteArray f ++ rest) c =
    match handleFrame makeMaskkey sendall f tmp c with
    | Go tmp c => receiveLoop makeMaskkey sendall fuel tmp rest c
    | Stop c => Ret c
    end.
Proof.
  intros Hf Hc. cbn [receiveLoop nextHeader whole]. rewrite feedHeader_toByteArray by done. cbn [mbind fst snd].
  pose proof Hf as (R1 & R2 & R3 & _).
  assert (Hc' : checkHeader makeMaskkey sendall (mkFrame (fin f) false false false (opcode f) (if masked f then maskkey f else 0) [])
    (masked f) (zlen (payload f)) c = None).
  { revert Hc. unfold checkHeader. cbn. by rewrite R1, R2, R3. }
  unfold mbind, result_bind. cbn [fst snd]. rewrite Hc'. cbn [nextPayload whole].
  pose proof (zlen_body f) as Hb. pose proof (zlen_nonneg rest).
  rewrite zlen_app, Hb. replace (_ <? _) with false by lia.
  rewrite <- Hb, zlen_to_nat, take_app_length, drop_app_length. cbn [fst snd].
  set (p := if masked f && (zlen (body f) >? 0) then _ else _).
  assert (Hp : p = payload f).
  { unfold p. rewrite Hb. unfold body. destruct (masked f) eqn:Hm; [| done]. cbn.
    destruct (zlen (payload f) >? 0) eqn:Hz; [apply applyMask_twice |].
    assert (Hn : payload f = []) by (apply zlen_0_nil; pose proof (zlen_nonneg (payload f)); lia). by rewrite Hn. }
  rewrite Hp. by rewrite (handleFrame_ext _ f).
Qed.

(** ** A message in parts *)

(** The sides differ, and so does what they expect of masks. *)
Definition peers (mask : bool) (d : Connection) : Prop := mask = bool_decide (d.(side) = Server).

Hypothesis keys_in_range : forall n, 1 <= makeMaskkey n < 2 ^ 32.

Lemma data_header_passes f d : peers (masked f) d -> frame_ok f -> f.(opcode) <= BinaryFrame ->
  zlen f.(payload) <= d.(maxPayloadSize) -> checkHeader makeMaskkey sendall f (masked f) (zlen f.(payload)) d = None.
Proof.
  intros Hp (R1 & R2 & R3 & Ho & _) Hop Hl. unfold checkHeader. test_false. rewrite <- Hp, Bool.eqb_reflx.
  rewrite R1, R2, R3. cbn. unfold isOpCodeReserved, isControl, BinaryFrame, CloseFrame, PingFrame, PongFrame in *.
  replace (_ || _) with false by lia. by replace (_ || _) with false by lia.
Qed.

Definition deliver_all (ps : list (PacketType * list Z)) (d : Connection) : Connection :=
  fold_left (fun d p => deliver p.1 p.2 d) ps d.

Definition key_for (mask : bool) (k : nat) : Z := if mask then makeMaskkey k else 0.

Lemma data_frame_ok b code mask k p : 0 <= code < 16 -> zlen p < 2 ^ 63 ->
  let f := mkFrame b false false false code (key_for mask k) p in frame_ok f /\ masked f = mask.
Proof.
  intros Hc Hp. unfold frame_ok, masked, key_for. cbn. pose proof (keys_in_range k).
  destruct mask; split_and!; try done; lia.
Qed.

(** The parts after the first one. *)
Lemma receive_continuations t mask l : forall k acc d fuel rest, t <> Unknown -> l <> [] -> peers mask d ->
  Forall (fun p => zlen p <= d.(maxPayloadSize) /\ zlen p < 2 ^ 63) l ->
  (t = Text -> isValidUtf8 (acc ++ concat l) = true) ->
  receiveLoop makeMaskkey sendall (length l + fuel) (t, acc)
    (concat (map toByteArray (continuationFrames makeMaskkey mask k l)) ++ rest) d =
  receiveLoop makeMaskkey sendall fuel (Unknown, []) rest (deliver t (acc ++ concat l) d).
Proof.
  induction l as [| p l IH]; intros k acc d fuel rest Ht Hne Hp Hl Hu; [done |].
  inversion Hl as [| ? ? [Hp1 Hp2] Hl']; subst. cbn [length Nat.add continuationFrames map concat]. rewrite <- app_assoc.
  destruct (data_frame_ok (bool_decide (l = [])) ContinuationFrame mask k p) as [Hf Hm]; [done | done |].
  unfold key_for in *. rewrite receive_frame; [| done | by apply data_header_passes; rewrite ?Hm].
  unfold handleFrame, continueMessage. cbn [opcode Z.eqb ContinuationFrame fin payload fst snd].
  rewrite (bool_decide_false (t = Unknown)) by done.
  destruct (decide (l = [])) as [-> | Hn].
  - rewrite (bool_decide_true ([] = [])) by done. cbn [concat map continuationFrames app length Nat.add] in *.
    rewrite app_nil_r in *.
    replace (bool_decide (t = Text) && negb (isValidUtf8 (acc ++ p))) with false; [done |].
    destruct (decide (t = Text)) as [Htext | Htext]; [| by rewrite bool_decide_false].
    by rewrite (Hu Htext), andb_false_r.
  - rewrite (bool_decide_false (l = [])) by done. rewrite IH; try done.
    + by rewrite <- app_assoc.
    + by rewrite <- app_assoc.
Qed.

(** A whole message, as [fragmentFrame] cuts it. *)
Lemma receive_message t mask l k d fuel rest : t <> Unknown -> l <> [] -> peers mask d ->
  Forall (fun p => zlen p <= d.(maxPayloadSize) /\ zlen p < 2 ^ 63) l ->
  (t = Text -> isValidUtf8 (concat l) = true) ->
  match continuationFrames makeMaskkey mask k l with
  | [] => False
  | first :: others =>
      receiveLoop makeMaskkey sendall (length l + fuel) (Unknown, [])
        (concat (map toByteArray (set_opcode (if bool_decide (t = Text) then TextFrame else BinaryFrame) first :: others)) ++ rest) d
      = receiveLoop makeMaskkey sendall fuel (Unknown, []) rest (deliver t (concat l) d)
  end.
Proof.
  destruct l as [| p l]; intros Ht Hne Hp Hl Hu; [done |]. inversion Hl as [| ? ? [Hp1 Hp2] Hl']; subst.
  cbn [continuationFrames map concat length Nat.add]. rewrite <- app_assoc. unfold set_opcode.
  cbn [fin rsv1 rsv2 rsv3 maskkey payload].
  set (code := if bool_decide (t = Text) then TextFrame else BinaryFrame).
  assert (Hcode : code = TextFrame /\ t = Text \/ code = BinaryFrame /\ t = Binary).
  { unfold code. destruct t; [done | right | left]; done. }
  destruct (data_frame_ok (bool_decide (l = [])) code mask k p) as [Hf Hm]; [unfold TextFrame, BinaryFrame in Hcode; lia | done |].
  unfold key_for in *. rewrite receive_frame; [| done | apply data_header_passes; rewrite ?Hm; try done;
    unfold TextFrame, BinaryFrame in *; cbn; lia].
  assert (Hh : handleFrame makeMaskkey sendall (mkFrame (bool_decide (l = [])) false false false code
    (if mask then makeMaskkey k else 0) p) (Unknown, []) d = beginMessage t (mkFrame (bool_decide (l = [])) false false false code
    (if mask then makeMaskkey k else 0) p) (Unknown, []) d).
  { unfold handleFrame. cbn [opcode]. by destruct Hcode as [[-> ->] | [-> ->]]. }
  rewrite Hh. unfold beginMessage. cbn [fin payload fst snd].
  destruct (decide (l = [])) as [-> | Hn].
  - rewrite (bool_decide_true ([] = [])) by done. cbn [concat app] in *. rewrite app_nil_r in *.
    replace (bool_decide (t = Text) && negb (isValidUtf8 p)) with false; [done |].
    destruct (decide (t = Text)) as [Htext | Htext]; [| by rewrite bool_decide_false].
    by rewrite (Hu Htext), andb_false_r.
  - rewrite (bool_decide_false (l = [])) by done. cbn [negb orb]. by apply receive_continuations.
Qed.

(** ** Cutting *)

(** Within [INT_MAX] the slices are those of the message from [bs * i] on. *)
Lemma blocks_cut n : forall bs p i, 1 <= bs -> 0 <= i -> zlen p <= INT_MAX -> bs * (i + Z.of_nat n - 1) < zlen p <= bs * (i + Z.of_nat n) ->
  exists l, blocks n bs p i = Ret l /\ length l = n /\ concat l = drop (Z.to_nat (bs * i)) p /\ Forall (fun b => zlen b <= bs) l.
Proof.
  induction n as [| n IH]; intros bs p i Hb Hi Hp Hn; cbn [blocks].
  - exists []. split_and!; try done. cbn. symmetry. apply drop_ge. unfold zlen in *. lia.
  - assert (bs * i <= bs * (i + Z.of_nat (S n) - 1)) as Hle by (apply Z.mul_le_mono_nonneg_l; lia).
    pose proof (Z.mul_nonneg_nonneg bs i ltac:(lia) Hi). unfold block_at. rewrite Z.gtb_ltb, (proj2 (Z.ltb_ge _ _)) by lia.
    assert (s32 (zlen p - bs * i) = zlen p - bs * i) as ->.
    { unfold wraps. change (2 ^ (32 - 1)) with 2147483648. change (2 ^ 32) with 4294967296. unfold INT_MAX in *. rewrite Z.mod_small; lia. }
    rewrite (proj2 (Z.ltb_ge (Z.min _ _) 0)) by lia. cbn [mbind result_bind].
    destruct n as [| n].
    + exists [take (Z.to_nat (Z.min (zlen p - bs * i) bs)) (drop (Z.to_nat (bs * i)) p)]. split_and!; [done | done | |].
      * cbn [concat]. rewrite app_nil_r. apply take_ge. rewrite length_drop. unfold zlen in *. lia.
      * repeat constructor. unfold zlen. rewrite length_take. lia.
    + destruct (IH bs p (i + 1)) as (l & -> & Hl & Hc & Hs); [lia | lia | done | replace (i + 1 + Z.of_nat (S n)) with (i + Z.of_nat (S (S n))) by lia; lia |].
      cbn [mbind result_bind]. eexists. split_and!; [done | cbn; lia | |].
      * cbn [concat]. rewrite Hc. assert (bs * (i + 1) <= zlen p).
        { etrans; [| apply Z.lt_le_incl, Hn]. apply Z.mul_le_mono_nonneg_l; lia. }
        rewrite Z.min_r by lia. rewrite <- (take_drop (Z.to_nat bs) (drop (Z.to_nat (bs * i)) p)) at 2. rewrite drop_drop. do 3 f_equal. lia.
      * constructor; [unfold zlen; rewrite length_take; lia | done].
Qed.

(** The parts of a message: they make it up, and none is too long. *)
Lemma fragmentFrame_parts t p bs c : 1 <= bs -> zlen p <= INT_MAX ->
  exists parts, parts <> [] /\ concat parts = p /\ Forall (fun b => zlen b <= bs) parts
  /\ fragmentFrame makeMaskkey t p bs c =
     Ret (match continuationFrames makeMaskkey (mustMask c) c.(keys) parts with
          | [] => []
          | first :: others => set_opcode (if bool_decide (t = Text) then TextFrame else BinaryFrame) first :: others
          end, if mustMask c then draw_keys (length parts) c else c).
Proof.
  intros Hb Hp. pose proof (zlen_nonneg p). unfold fragmentFrame.
  set (n := s32 ((zlen p + bs - 1) / bs)).
  assert (Hn : n = (zlen p + bs - 1) / bs).
  { unfold n, wraps. change (2 ^ (32 - 1)) with 2147483648. unfold INT_MAX in Hp.
    assert (0 <= (zlen p + bs - 1) / bs <= zlen p).
    { split; [apply Z.div_pos; lia |]. destruct (decide (zlen p = 0)) as [-> |].
      - rewrite Z.div_small; lia.
      - apply Z.div_le_upper_bound; nia. }
    change (2 ^ 32) with 4294967296. rewrite Z.mod_small; lia. }
  assert (bs * (n - 1) < zlen p <= bs * n) as Hmul.
  { rewrite Hn. pose proof (Z.div_mod (zlen p + bs - 1) bs). pose proof (Z.mod_pos_bound (zlen p + bs - 1) bs). nia. }
  assert (Hn0 : 0 <= n) by (rewrite Hn; apply Z.div_pos; lia). clearbody n.
  assert (exists parts, parts <> [] /\ concat parts = p /\ Forall (fun b => zlen b <= bs) parts /\ (if n =? 0 then 1 else n) >= 0
    /\ (if (if n =? 0 then 1 else n) =? 1 then Ret [p] else blocks (Z.to_nat (if n =? 0 then 1 else n)) bs p 0) = Ret parts)
    as (parts & H1 & H2 & H3 & H4 & H5).
  { destruct (decide (n <= 1)) as [Hle | Hgt].
    - exists [p]. split_and!; [done | cbn; by rewrite app_nil_r | repeat constructor; nia | case_match; lia |].
      by replace ((if n =? 0 then 1 else n) =? 1) with true by (case_match; lia).
    - replace (n =? 0) with false by lia. replace (n =? 1) with false by lia.
      destruct (blocks_cut (Z.to_nat n) bs p 0) as (l & -> & Hl & Hc & Hs); [lia | lia | done | rewrite Z2Nat.id by lia; nia |].
      exists l. rewrite Z.mul_0_r, drop_0 in Hc. split_and!; try done; [| lia]. intros ->. cbn in Hl. lia. }
  exists parts. split_and!; try done. rewrite (proj2 (Z.ltb_ge _ 0)) by lia. rewrite H5. cbn [mbind result_bind]. by destruct (continuationFrames _ _ _ _).
Qed.

(** ** Sending *)

Hypothesis sends : forall n, sendall n = true.

Definition push_all (l : list (list Z)) (c : Connection) : Connection :=
  mkConn c.(state) c.(side) c.(maxPayloadSize) c.(errorCode) c.(errorString) c.(received) (c.(sent) ++ l) c.(keys).

Lemma sendFrames_all frames c : c.(errorCode) = NoError ->
  sendFrames sendall frames c = (true, push_all (map toByteArray frames) c).
Proof.
  revert c. induction frames as [| f frames IH]; intros c Hc.
  - unfold push_all. cbn. rewrite app_nil_r. by destruct c.
  - cbn [sendFrames map]. rewrite Hc. cbn [negb Z.eqb NoError]. unfold sendBytes. rewrite sends.
    rewrite IH by done. f_equal. unfold push_all, push_sent. cbn. by rewrite <- app_assoc.
Qed.

Definition packet_ok (p : PacketType * list Z) : Prop :=
  p.1 <> Unknown /\ zlen p.2 <= INT_MAX /\ (p.1 = Text -> isValidUtf8 p.2 = true).

(** What [doSend] puts on the wire is taken by the receiver as the packets. *)
Lemma doSend_received bs ps : forall c, 1 <= bs -> Forall packet_ok ps -> c.(errorCode) = NoError ->
  exists frames c', doSend makeMaskkey sendall bs ps c = Ret c' /\ c'.(sent) = c.(sent) ++ map toByteArray frames
  /\ c'.(errorCode) = NoError
  /\ forall d fuel rest, peers (mustMask c) d -> bs <= d.(maxPayloadSize) <= INT_MAX ->
     receiveLoop makeMaskkey sendall (length frames + fuel) (Unknown, []) (concat (map toByteArray frames) ++ rest) d
     = receiveLoop makeMaskkey sendall fuel (Unknown, []) rest (deliver_all ps d).
Proof.
  induction ps as [| [t p] ps IH]; intros c Hb Hps Hc.
  { exists [], c. cbn. rewrite app_nil_r. by split_and!. }
  inversion Hps as [| ? ? (Ht & Hp & Hu) Hps']; subst. cbn [fst snd] in *. cbn [doSend].
  rewrite (bool_decide_false (t = Unknown)) by done.
  destruct (fragmentFrame_parts t p bs c Hb Hp) as (parts & Hne & Hcat & Hsmall & Hfrag). rewrite Hfrag. cbn [mbind result_bind].
  set (frames := match continuationFrames _ _ _ _ with [] => [] | _ => _ end).
  set (c1 := if mustMask c then draw_keys (length parts) c else c).
  assert (Hc1 : c1.(errorCode) = NoError /\ c1.(sent) = c.(sent) /\ c1.(side) = c.(side))
    by (unfold c1; by destruct (mustMask c)). destruct Hc1 as (Hc1 & Hs1 & Hd1).
  rewrite sendFrames_all by done.
  destruct (IH (push_all (map toByteArray frames) c1) Hb Hps' Hc1) as (fs & c2 & H0 & H1 & H2 & H3).
  exists (frames ++ fs), c2. cbn [sent push_all] in H1. rewrite map_app, H1, Hs1, <- app_assoc. split_and!; [done | done | done |].
  intros d fuel rest Hpe Hmax.
  assert (Hlen : length frames = length parts).
  { unfold frames. clear. generalize (keys c) as k. destruct parts as [| x parts]; [done |].
    intros k. cbn. f_equal. revert k. induction parts as [| y parts IH]; intros k; cbn; [done |]. by rewrite <- (IH (S k)). }
  rewrite concat_app, length_app, Hlen, <- app_assoc, <- Nat.add_assoc.
  pose proof (receive_message t (mustMask c) parts (keys c) d (length fs + fuel)
    (concat (map toByteArray fs) ++ rest) Ht Hne Hpe) as Hm.
  unfold frames in *. destruct (continuationFrames makeMaskkey (mustMask c) (keys c) parts) as [| first others].
  { exfalso. destruct parts; [done |]. done. }
  rewrite Hm.
  - rewrite Hcat. apply H3; [| done]. unfold peers, mustMask in *. cbn [side push_all deliver]. by rewrite Hd1.
  - eapply Forall_impl, Hsmall. cbn. intros x Hx. split; [lia |].
    unfold INT_MAX in Hmax. lia.
  - by rewrite Hcat.
Qed.

(** ** The buffer and fuel *)

Lemma doReceive_stream headBytes cs c : Forall (fun b => b <> []) cs ->
  doReceive makeMaskkey sendall headBytes cs c = receiveAll makeMaskkey sendall (headBytes ++ concat cs) c.
Proof.
  intros Hc. unfold doReceive, receiveAll. pose proof (firstBuffer_ok headBytes cs Hc) as Hok.
  rewrite (receiveLoop_stream makeMaskkey sendall _ _ _ _ Hok).
  by change (unread (firstBuffer headBytes cs)) with (headBytes ++ concat cs).
Qed.

Lemma receiveLoop_more (f1 : nat) : forall f2 tmp (l : list Z) c c', (f1 <= f2)%nat ->
  receiveLoop makeMaskkey sendall f1 tmp l c = Ret c' -> receiveLoop makeMaskkey sendall f2 tmp l c = Ret c'.
Proof.
  induction f1 as [| f1 IH]; intros f2 tmp l c c' Hf H; [done |]. destruct f2 as [| f2]; [lia |].
  cbn [receiveLoop nextHeader whole] in *.
  destruct (feedHeader l) as [e | [[[f m] n] rest]]; cbn in H |- *; [by destruct (e =? -2) |].
  destruct (checkHeader _ _ _ _ _ _); [done |]. destruct (zlen rest <? n); cbn in H |- *; [done |].
  destruct (handleFrame _ _ _ _ _); [| done]. eapply IH; [lia | done].
Qed.

(** A receiver that was given any amount of fuel has the one answer. *)
Lemma receiveAll_unique f tmp (l : list Z) c c' : receiveLoop makeMaskkey sendall f tmp l c = Ret c' ->
  receiveLoop makeMaskkey sendall (S (length l)) tmp l c = Ret c'.
Proof.
  intros H. destruct (receiveLoop_ends makeMaskkey sendall (S (length l)) tmp l c) as [c'' H']; [lia |].
  pose proof (receiveLoop_more f (Nat.max f (S (length l))) _ _ _ _ ltac:(lia) H) as G1.
  pose proof (receiveLoop_more (S (length l)) (Nat.max f (S (length l))) _ _ _ _ ltac:(lia) H') as G2.
  congruence.
Qed.

End Exchange.
