(* ===== verification/WebSocketProps.v ===== *)
(** * WebSocket connections: what is shown

    The chunks of the socket do not matter and the receiver always ends; what one side
    sends the other delivers; whatever the peer sends, the connection ends closed with a
    code, delivers only well-formed text, and answers with control frames only. *)

From S2P Require Import Prelude Utf8 WebSocket WebSocketProofs WebSocketExchange.

(** ** Whatever the peer sends

    The effect of any stream on a connection: what is delivered, what is answered, and
    that the connection ends. *)

Section Safety.
Context (makeMaskkey : nat -> Z) (sendall : nat -> bool).
Hypothesis keys_in_range : forall n, 1 <= makeMaskkey n < 2 ^ 32.

Definition message_ok (m : PacketType * list Z) : Prop :=
  m.1 <> Unknown /\ (m.1 = Text -> isValidUtf8 m.2 = true).

(** A control frame of this side: whole, short, and masked if the side masks. *)
Definition control_ok (s : Side) (f : WebSocketFrame) : Prop :=
  frame_ok f /\ f.(fin) = true /\ isControl f.(opcode) = true /\ zlen f.(payload) <= 125
  /\ masked f = bool_decide (s = Client).

Record grows (c c' : Connection) : Prop := {
  grows_side : c'.(side) = c.(side);
  grows_max : c'.(maxPayloadSize) = c.(maxPayloadSize);
  grows_received : exists ms, c'.(received) = c.(received) ++ ms /\ Forall message_ok ms;
  grows_sent : exists fs, c'.(sent) = c.(sent) ++ map toByteArray fs /\ Forall (control_ok c.(side)) fs
}.

Definition live (c : Connection) : Prop := c.(errorCode) = NoError /\ c.(state) <> Closed.
Definition finished (c : Connection) : Prop := c.(errorCode) <> NoError /\ c.(state) = Closed.

(** Nothing but bookkeeping changed. *)
Lemma grows_same c c' : c'.(side) = c.(side) -> c'.(maxPayloadSize) = c.(maxPayloadSize) ->
  c'.(received) = c.(received) -> c'.(sent) = c.(sent) -> grows c c'.
Proof.
  intros H1 H2 H3 H4. split; [done | done | exists [] | exists []]; cbn; by rewrite app_nil_r.
Qed.

Lemma grows_trans c1 c2 c3 : grows c1 c2 -> grows c2 c3 -> grows c1 c3.
Proof.
  intros [A1 A2 (ms1 & A3 & A4) (fs1 & A5 & A6)] [B1 B2 (ms2 & B3 & B4) (fs2 & B5 & B6)].
  split; [congruence | congruence | exists (ms1 ++ ms2) | exists (fs1 ++ fs2)].
  - rewrite B3, A3, <- app_assoc. split; [done | by apply Forall_app].
  - rewrite B5, A5, map_app, <- app_assoc. rewrite A1 in B6. split; [done | by apply Forall_app].
Qed.

Lemma abort_finished code c : live c -> code <> NoError -> finished (abort code c) /\ grows c (abort code c).
Proof. intros [H1 H2] Hc. unfold abort. rewrite H1. cbn. split; [done | by apply grows_same]. Qed.

Lemma makeControlFrame_ok t p c : isControl t = true -> zlen p <= 125 ->
  let r := makeControlFrame makeMaskkey t c in
  control_ok c.(side) (set_payload p r.1) /\ r.2.(side) = c.(side) /\ r.2.(maxPayloadSize) = c.(maxPayloadSize)
  /\ r.2.(received) = c.(received) /\ r.2.(sent) = c.(sent) /\ r.2.(errorCode) = c.(errorCode) /\ r.2.(state) = c.(state).
Proof.
  intros Ht Hp. assert (Hr : 0 <= t < 16) by (unfold isControl, CloseFrame, PingFrame, PongFrame in Ht; lia).
  unfold makeControlFrame, mustMask. pose proof (keys_in_range c.(keys)).
  case_bool_decide as Hs; (split; [| done]); unfold control_ok, frame_ok, masked; cbn; rewrite ?Hs;
    split_and!; try done; try lia.
  - rewrite bool_decide_true by done. lia.
  - by rewrite bool_decide_false.
Qed.

(** A control frame is sent, or the connection ends. *)
Lemma send_control t p c : live c -> isControl t = true -> zlen p <= 125 ->
  let r := makeControlFrame makeMaskkey t c in
  let s := sendBytes sendall (toByteArray (set_payload p r.1)) r.2 in
  grows c s.2 /\ if s.1 then live s.2 else finished s.2.
Proof.
  intros [L1 L2] Ht Hp. destruct (makeControlFrame_ok t p c Ht Hp) as (H1 & H2 & H3 & H4 & H5 & H6 & H7).
  destruct (makeControlFrame makeMaskkey t c) as [f c1]. cbn in *. unfold sendBytes.
  assert (Hl : live c1) by (split; congruence).
  destruct (sendall (length (sent c1))); cbn.
  - split; [| done]. split; cbn; [done | done | exists [] | exists [set_payload p f]].
    + by rewrite app_nil_r.
    + rewrite H5. split; [done | by apply Forall_singleton].
  - destruct (abort_finished AbnormalClosure c1 Hl ltac:(done)) as [F G]. split; [| done].
    eapply grows_trans; [by apply grows_same | done].
Qed.

Lemma makeClosePayload_short code reason : zlen (makeClosePayload code reason) <= 125.
Proof.
  unfold makeClosePayload. destruct (_ || _); [done |]. unfold zlen. rewrite length_take. lia.
Qed.

Lemma checkHeader_ok f m n c : live c ->
  match checkHeader makeMaskkey sendall f m n c with
  | Some c' => grows c c' /\ finished c'
  | None => isControl f.(opcode) = true -> n <= 125
  end.
Proof.
  intros Hl. assert (Hpe : forall code, code <> NoError -> grows c (abort code c) /\ finished (abort code c)).
  { intros code Hc. destruct (abort_finished code c Hl Hc). done. }
  unfold checkHeader. case_test.
  - pose proof (send_control CloseFrame (makeClosePayload MessageTooBig (str "the frame is too big to process.")) c Hl
      eq_refl (makeClosePayload_short _ _)) as Hs.
    destruct (makeControlFrame makeMaskkey CloseFrame c) as [cf c1]. cbn in Hs.
    destruct (sendBytes sendall _ c1) as [ok c2]. cbn in Hs. destruct Hs as [G L]. destruct ok; [| done].
    destruct (abort_finished MessageTooBig c2 L ltac:(done)) as [F G2]. split; [by eapply grows_trans | done].
  - repeat (match goal with |- context [if ?b then Some (abort ProtocolError c) else _] => destruct b eqn:?; [by apply Hpe |] end).
    intros Hct. rewrite Hct in *. destruct (n >? 125) eqn:E9; [| lia]. rewrite orb_true_r in *. done.
Qed.

Lemma parseClosePayload_code p : (if (parseClosePayload p).(valid) then (parseClosePayload p).(closeCode) else ProtocolError) <> NoError.
Proof.
  unfold parseClosePayload. destruct p as [| c0 [| c1 reason]]; try done.
  destruct (isCloseCodeValid (be_decode [c0; c1])) eqn:E; cbn [negb]; [| done].
  assert (Hn : be_decode [c0; c1] <> NoError) by (unfold isCloseCodeValid, NoError in *; lia).
  destruct reason; [done |]. by destruct (isValidUtf8 _).
Qed.

Lemma handleClose_ok f tmp c : live c -> zlen f.(payload) <= 125 ->
  match handleClose makeMaskkey sendall f tmp c with
  | Go tmp' c' => grows c c' /\ live c'
  | Stop c' => grows c c' /\ finished c'
  end.
Proof.
  intros Hl Hp. unfold handleClose. pose proof (parseClosePayload_code (payload f)) as Hcode.
  assert (Hfin : forall c1, live c1 -> let c2 := abort (if (parseClosePayload (payload f)).(valid) then (parseClosePayload (payload f)).(closeCode) else ProtocolError)
    (set_error c1.(errorCode) (parseClosePayload (payload f)).(closeReason) c1) in grows c1 c2 /\ finished c2).
  { intros c1 Hl1. set (c1' := set_error _ _ c1). assert (Hl1' : live c1') by done.
    destruct (abort_finished _ c1' Hl1' Hcode) as [F G]. split; [| done]. eapply grows_trans; [by apply (grows_same c1 c1') | done]. }
  pose proof Hl as [L1 L2]. destruct (state c) eqn:Est; [done | | by apply Hfin].
  set (p := if (parseClosePayload (payload f)).(valid) then payload f else _).
  assert (Hps : zlen p <= 125).
  { unfold p. destruct (valid _); [done | apply makeClosePayload_short]. }
  pose proof (send_control CloseFrame p (set_state Closing c) ltac:(by split) eq_refl Hps) as Hs.
  destruct (makeControlFrame makeMaskkey CloseFrame (set_state Closing c)) as [cf c1]. cbn in Hs.
  destruct (sendBytes sendall (toByteArray (set_payload p cf)) c1) as [ok c2]. cbn in Hs. destruct Hs as [G L].
  assert (G0 : grows c c2) by (eapply grows_trans; [by apply (grows_same c (set_state Closing c)) | done]).
  destruct ok; [| done]. destruct (Hfin c2 L) as [G2 F2]. split; [by eapply grows_trans | done].
Qed.

Lemma handleFrame_ok f tmp c : live c -> (isControl f.(opcode) = true -> zlen f.(payload) <= 125) ->
  match handleFrame makeMaskkey sendall f tmp c with
  | Go tmp' c' => grows c c' /\ live c'
  | Stop c' => grows c c' /\ finished c'
  end.
Proof.
  intros Hl Hp. assert (Hab : forall code, code <> NoError -> grows c (abort code c) /\ finished (abort code c)).
  { intros code Hc. destruct (abort_finished code c Hl Hc). done. }
  assert (Hdel : forall t p, message_ok (t, p) -> grows c (deliver t p c) /\ live (deliver t p c)).
  { intros t p Hm. split; [| done]. split; cbn; [done | done | exists [(t, p)]; by split; [| apply Forall_singleton] | exists []].
    by rewrite app_nil_r. }
  assert (Hsame : grows c c /\ live c) by (split; [by apply grows_same | done]).
  assert (Hbegin : forall t, t <> Unknown -> match beginMessage t f tmp c with
    | Go tmp' c' => grows c c' /\ live c' | Stop c' => grows c c' /\ finished c' end).
  { intros t Ht. unfold beginMessage. destruct (fin f).
    - destruct (bool_decide (t = Text) && negb (isValidUtf8 (payload f))) eqn:E; [by apply Hab |].
      apply Hdel. split; [done |]. cbn. intros ->. by destruct (isValidUtf8 (payload f)).
    - destruct (_ || _); [by apply Hab | done]. }
  unfold handleFrame. case_test; [| case_test; [| case_test; [| case_test; [| case_test; [| case_test]]]]].
  - unfold continueMessage. case_bool_decide as Hu; [by apply Hab |]. destruct (fin f); [| done].
    destruct (bool_decide (tmp.1 = Text) && _) eqn:E2; [by apply Hab |].
    apply Hdel. split; [done |]. cbn. intros Ht. rewrite Ht in E2. cbn in E2. by destruct (isValidUtf8 _).
  - by apply Hbegin.
  - by apply Hbegin.
  - apply handleClose_ok; [done | apply Hp; unfold isControl; lia].
  - pose proof (send_control PongFrame (payload f) c Hl eq_refl ltac:(apply Hp; unfold isControl; lia)) as Hs.
    destruct (makeControlFrame makeMaskkey PongFrame c) as [pf c1]. cbn in Hs.
    destruct (sendBytes sendall (toByteArray (set_payload (payload f) pf)) c1) as [ok c2]. cbn in Hs.
    destruct ok; naive_solver.
  - done.
  - by apply Hab.
Qed.

Lemma receiveLoop_safe fuel : forall tmp (l : list Z) c c', live c ->
  receiveLoop makeMaskkey sendall fuel tmp l c = Ret c' -> grows c c' /\ finished c'.
Proof.
  induction fuel as [| fuel IH]; intros tmp l c c' Hl H; [done |]. cbn in H.
  assert (Hab : forall code, code <> NoError -> grows c (abort code c) /\ finished (abort code c)).
  { intros code Hc. destruct (abort_finished code c Hl Hc). done. }
  destruct (feedHeader l) as [e | [[[f m] n] rest]] eqn:E; cbn in H.
  { destruct (e =? -2); injection H as <-; by apply Hab. }
  pose proof (checkHeader_ok f m n c Hl) as Hck. destruct (checkHeader _ _ f m n c) as [c1 |].
  { by injection H as <-. }
  destruct (zlen rest <? n) eqn:En; cbn in H; [injection H as <-; by apply Hab |].
  set (p := if m && (n >? 0) then _ else _) in H.
  assert (Hp : zlen p <= Z.max 0 n).
  { unfold p. destruct (m && (n >? 0)); [rewrite zlen_applyMask |]; unfold zlen; rewrite length_take; lia. }
  pose proof (handleFrame_ok (set_payload p f) tmp c Hl) as Hh. cbn in Hh.
  specialize (Hh ltac:(intros Hc; specialize (Hck Hc); lia)).
  destruct (handleFrame _ _ _ _ _) as [tmp1 c1 | c1].
  - destruct Hh as [G L]. destruct (IH _ _ _ _ L H) as [G' F']. split; [by eapply grows_trans | done].
  - by injection H as <-.
Qed.

End Safety.

(** ** Chunks *)

(** However the socket cuts the stream into chunks, doReceive does what it does on
    the whole stream at once, and it returns. *)
Theorem receive_ignores_chunks makeMaskkey sendall headBytes cs c : Forall (fun b => b <> []) cs ->
  doReceive makeMaskkey sendall headBytes cs c = receiveAll makeMaskkey sendall (headBytes ++ concat cs) c
  /\ exists c', doReceive makeMaskkey sendall headBytes cs c = Ret c'.
Proof.
  intros Hc. rewrite doReceive_stream by done. split; [done |]. apply receiveLoop_ends. cbn. lia.
Qed.

Lemma receive_ignores_chunks_witness :
  doReceive (fun _ => 7) (fun _ => true) [0x82] [[0x83]; [1; 2; 3; 4; 0x61]; [0x62; 0x63]] (newConnection Server 1024)
  = receiveAll (fun _ => 7) (fun _ => true) [0x82; 0x83; 1; 2; 3; 4; 0x61; 0x62; 0x63] (newConnection Server 1024).
Proof. apply receive_ignores_chunks. by repeat constructor. Defined.

(** ** From one side to the other *)



(** ** Whatever the peer sends *)

(** C24: Whatever bytes a peer sends, the connection ends closed with an error code, every
    message delivered is binary or text in valid UTF-8, and every frame it answers is a
    well-formed control frame, masked exactly on the side of the client. *)
Theorem receive_is_safe makeMaskkey sendall headBytes cs c : (forall n, 1 <= makeMaskkey n < 2 ^ 32) ->
  Forall (fun b => b <> []) cs -> c.(errorCode) = NoError -> c.(state) <> Closed ->
  exists c' ms fs, doReceive makeMaskkey sendall headBytes cs c = Ret c'
  /\ c'.(errorCode) <> NoError /\ c'.(state) = Closed
  /\ c'.(received) = c.(received) ++ ms /\ Forall message_ok ms
  /\ c'.(sent) = c.(sent) ++ map toByteArray fs /\ Forall (control_ok c.(side)) fs.
Proof.
  intros Hk Hc He Hs. rewrite doReceive_stream by done.
  destruct (receiveLoop_ends makeMaskkey sendall (S (length (headBytes ++ concat cs))) (Unknown, [])
    (headBytes ++ concat cs) c) as [c' H]; [lia |].
  destruct (receiveLoop_safe makeMaskkey sendall Hk _ _ _ _ _ (conj He Hs) H)
    as [[_ _ (ms & R1 & R2) (fs & S1 & S2)] [F1 F2]].
  exists c', ms, fs. by split_and!.
Qed.

(** A ping, then a text that is not UTF-8: the pong is sent and the connection ends. *)
Lemma receive_is_safe_witness : exists c', 
  doReceive (fun _ => 5) (fun _ => true) [] [[0x89; 0x81; 0; 0; 0; 0; 0x21]; [0x81; 0x81; 0; 0; 0; 0; 0xff]] (newConnection Server 1024) = Ret c'
  /\ c'.(state) = Closed /\ c'.(errorCode) = InvalidData /\ c'.(sent) = [[0x8a; 0x01; 0x21]].
Proof.
  destruct (receive_is_safe (fun _ => 5) (fun _ => true) [] [[0x89; 0x81; 0; 0; 0; 0; 0x21]; [0x81; 0x81; 0; 0; 0; 0; 0xff]]
    (newConnection Server 1024)) as (c' & ms & fs & H & _ & Hst & _); [done | by repeat constructor | done | done |].
  exists c'. split; [done |]. split; [done |]. vm_compute in H. by injection H as <-.
Defined.

(** ** Messages inside a message *)

(** A whole data frame between the fragments of a message is delivered and the
    fragmented message continues after it, where RFC 6455 forbids interleaving. *)
Theorem message_inside_message_accepted p q r d makeMaskkey sendall : d.(side) = Client ->
  (forall n, 1 <= makeMaskkey n < 2 ^ 32) ->
  Forall (fun b => zlen b <= d.(maxPayloadSize) /\ zlen b < 2 ^ 63) [p; q; r] ->
  let frame b code payload := mkFrame b false false false code 0 payload in
  receiveAll makeMaskkey sendall
    (concat (map toByteArray [frame false BinaryFrame p; frame true BinaryFrame q; frame true ContinuationFrame r])) d
  = Ret (abort AbnormalClosure (deliver Binary (p ++ r) (deliver Binary q d))).
Proof.
  intros Hd Hk Hl frame. inversion Hl as [| ? ? Hp Hl1]; inversion Hl1 as [| ? ? Hq Hl2]; inversion Hl2 as [| ? ? Hr _]; subst.
  apply (receiveAll_unique makeMaskkey sendall (S (S (S 1)))). cbn [map concat].
  assert (Hok : forall b code x d', 0 <= code <= 2 -> zlen x <= d'.(maxPayloadSize) /\ zlen x < 2 ^ 63 -> d'.(side) = Client ->
    frame_ok (frame b code x) /\ checkHeader makeMaskkey sendall (frame b code x) (masked (frame b code x)) (zlen x) d' = None).
  { intros b code x d' Hcode [Hx1 Hx2] Hs. assert (frame_ok (frame b code x)) as Hf
      by (unfold frame_ok; cbn; split_and!; try done; lia).
    split; [done |]. apply (data_header_passes makeMaskkey sendall (frame b code x)); try done.
    - unfold peers, masked. cbn. by rewrite Hs.
    - unfold BinaryFrame. cbn. lia. }
  destruct (Hok false BinaryFrame p d ltac:(done) Hp Hd) as [F1 C1].
  destruct (Hok true BinaryFrame q d ltac:(done) Hq Hd) as [F2 C2].
  destruct (Hok true ContinuationFrame r (deliver Binary q d) ltac:(done) Hr Hd) as [F3 C3].
  rewrite receive_frame by done.
  change (handleFrame makeMaskkey sendall (frame false BinaryFrame p) (Unknown, []) d) with (Go (Binary, p) d). cbv iota beta.
  rewrite receive_frame by done.
  change (handleFrame makeMaskkey sendall (frame true BinaryFrame q) (Binary, p) d) with (Go (Binary, p) (deliver Binary q d)).
  cbv iota beta. rewrite receive_frame by done. done.
Qed.

Lemma message_inside_message_accepted_witness :
  receiveAll (fun _ => 1) (fun _ => true) [0x02; 1; 10; 0x82; 1; 20; 0x80; 1; 30] (newConnection Client 1024)
  = Ret (abort AbnormalClosure (deliver Binary [10; 30] (deliver Binary [20] (newConnection Client 1024)))).
Proof.
  apply (message_inside_message_accepted [10] [20] [30]); [done | done |]. by repeat constructor.
Defined.
