(* ===== verification/WebSocketAbort.v ===== *)
(** * WebSocket connections: who is woken by [abort]

    [WebSocketConnectionPrivate::abort] releases the callers of [recv] with one empty
    packet each, counting them with [getting] as it goes; but the first [put] wakes them
    all, and then [getting] is zero.  One packet serves one of them. *)

From S2P Require Import Prelude WebSocket Queue QueueProofs QueueSpec.

Abbreviation Packet := (PacketType * list Z)%type.
Definition unknown : Packet := (Unknown, []).

Definition packet_size (_ : Packet) : Z := 1.
Definition packet_eqb (a b : Packet) : bool := bool_decide (a = b).

(** [for (uint32_t i = 0; i < receivingQueue.getting(); ++i) receivingQueue.put(...)],
    where [put] does not wait because the queue is empty. *)
Fixpoint putUnknown (fuel : nat) (i : Z) (rq : Queue (T := Packet)) : result (Queue (T := Packet)) :=
  match fuel with
  | O => OutOfFuel
  | S fuel' =>
      if i <? getting rq then putUnknown fuel' (i + 1) (insert packet_size true unknown rq).2 else Ret rq
  end.

Lemma packet_size_range e : 0 <= packet_size e.
Proof. done. Qed.

(** The first [put] empties the list of those that wait. *)
Lemma putUnknown_once rq fuel : rq.(m_closed) = false -> rq.(notEmpty).(flag) = false -> rq.(notEmpty).(waiting) <> [] ->
  putUnknown (S (S fuel)) 0 rq = Ret (insert packet_size true unknown rq).2.
Proof.
  intros Hc Hf Hw. assert (Hg : 0 < getting rq).
  { unfold getting. destruct (waiting (notEmpty rq)); [done |]. rewrite zlen_cons. pose proof (zlen_nonneg l). lia. }
  cbn [putUnknown]. replace (0 <? getting rq) with true by lia.
  assert (H0 : getting (insert packet_size true unknown rq).2 = 0).
  { unfold insert. rewrite Hc. destruct rq as [qs ne nf cap sz cl]. cbn in *. unfold getting, set.
    destruct (_ >=? _); cbn; by rewrite Hf. }
  by rewrite H0.
Qed.

(** ** Callers of [recv] only *)

Definition all_get (sys : System (T := Packet)) : Prop :=
  Forall (fun st => from_option (fun op => op = Get) True st) sys.(blocked).

(** To resume one of them answers it with a packet, or puts it back. *)
Lemma resume_get c late sys sys' r : all_get sys -> sys.(q).(m_closed) = false ->
  exec packet_size packet_eqb (Resume c late) sys = Some (sys', r) ->
  (exists e, r = Some (c, Got (Some e)) /\ count sys' = count sys - 1) \/ (r = None /\ count sys' = count sys).
Proof.
  intros Ha Hc H. cbn in H. destruct (blocked sys !! c) as [[op |] |] eqn:Hb; cbn in H; try done.
  pose proof (Forall_lookup_1 _ _ _ _ Ha Hb) as Hop. cbn in Hop. subst op. cbn in H.
  destruct (bool_decide _); [| done]. injection H as H.
  assert (Hblk : forall q', count (mkSys q' (<[c := Some Get]> sys.(blocked))) = count sys).
  { intros q'. unfold count. cbn. rewrite (total_insert _ _ _ _ _ Hb). lia. }
  destruct (flag _).
  - unfold advance in H. cbn in H. destruct (queue (q sys)) as [| e l] eqn:Hq; [rewrite Hc in H |]; injection H as <- <-.
    + right. by split.
    + left. exists e. split; [done |]. unfold count. cbn. rewrite (total_insert _ _ _ _ _ Hb). lia.
  - injection H as <- <-. right. by split.
Qed.

Lemma resumes_get l : forall sys sys' rs, qinv packet_size sys -> load packet_size sys < 2 ^ 32 -> all_get sys ->
  sys.(q).(m_closed) = false -> Forall is_resume l -> execs packet_size packet_eqb l sys = Some (sys', rs) ->
  count sys' = count sys - zlen (gotten rs) /\ accepted rs = [].
Proof.
  induction l as [| a l IH]; intros sys sys' rs I Hl Ha Hc Hr H; cbn in H.
  { injection H as <- <-. cbn. split; [rewrite zlen_nil; lia | done]. }
  inversion Hr as [| ? ? Hr1 Hr2]; subst. destruct a as [| c late | | | | | | | |]; cbn [is_resume] in Hr1; try done.
  destruct (exec packet_size packet_eqb (Resume c late) sys) as [[sys1 r] |] eqn:E; cbn in H; [| done].
  destruct (execs packet_size packet_eqb l sys1) as [[sys2 rs2] |] eqn:E2; cbn in H; [| done]. injection H as <- <-.
  destruct (exec_ok packet_size packet_eqb packet_size_range (Resume c late) sys _ I ltac:(cbn [action_size]; lia) E) as [I1 Hl1].
  cbn [fst action_size] in I1, Hl1.
  assert (Ha1 : all_get sys1).
  { eapply (exec_blocked packet_size packet_eqb (fun op => op = Get)); [exact Ha | | exact E].
    intros op Hop. cbn in Hop. destruct (blocked sys !! c) as [[op' |] |] eqn:Hb; try done. cbn in Hop. injection Hop as <-.
    apply (Forall_lookup_1 _ _ _ _ Ha Hb). }
  assert (Hc1 : sys1.(q).(m_closed) = false).
  { rewrite <- Hc. apply (resumes_closed packet_size packet_eqb packet_size_range [Resume c late] sys sys1
      (match r with Some r => [r] | None => [] end) I Hl); [by repeat constructor |]. cbn [execs]. rewrite E. by destruct r. }
  destruct (IH sys1 sys2 rs2 I1 ltac:(lia) Ha1 Hc1 Hr2 E2) as [G1 G2].
  destruct (resume_get c late sys sys1 r Ha Hc E) as [(e & -> & Hn) | [-> Hn]].
  - change (gotten ((c, Got (Some e)) :: rs2)) with (e :: gotten rs2). rewrite zlen_cons.
    split; [lia | exact G2].
  - split; [cbn [snd]; lia | exact G2].
Qed.

(** ** The callers of [recv] after [abort] *)

Definition receivers (n : nat) : list (Action (T := Packet)) := map (fun c => Start c Get) (seq 0 n).

(** The state with [n] callers of [recv] in an open, empty queue. *)
Definition parked (n : nat) (capacity : Z) : System (T := Packet) :=
  mkSys (mkQueue [] (mkEvent false (seq 0 n) []) (set newEvent) capacity 0 false) (replicate n (Some Get)).

Lemma start_insert n c (x : option (Call (T := Packet))) : (c < n)%nat ->
  <[c := x]> (replicate c x ++ replicate (n - c) None) = replicate (S c) x ++ replicate (n - S c) None.
Proof.
  intros Hc. replace (n - c)%nat with (S (n - S c)) by lia. rewrite (replicate_S (n - S c)).
  rewrite insert_app_r_alt by (rewrite length_replicate; lia). rewrite length_replicate, Nat.sub_diag.
  change (<[0%nat := x]> (None :: replicate (n - S c) None)) with (x :: replicate (n - S c) (@None (Call (T := Packet)))).
  by rewrite replicate_S_end, <- app_assoc.
Qed.

Lemma receivers_park n capacity : forall k c, (c + k = n)%nat ->
  execs packet_size packet_eqb (map (fun c => Start c Get) (seq c k))
    (mkSys (mkQueue [] (mkEvent false (seq 0 c) []) (set newEvent) capacity 0 false) (replicate c (Some Get) ++ replicate (n - c) None))
  = Some (parked n capacity, []).
Proof.
  induction k as [| k IH]; intros c Hc; cbn [seq map execs].
  - replace c with n by lia. rewrite Nat.sub_diag, app_nil_r. done.
  - assert (Hl : (replicate c (Some Get) ++ replicate (n - c) None) !! c = Some (@None (Call (T := Packet)))).
    { rewrite lookup_app_r by (rewrite length_replicate; lia). rewrite length_replicate, Nat.sub_diag.
      apply lookup_replicate_2. lia. }
    cbn [exec blocked]. rewrite Hl. cbn [mbind option_bind event_of q notEmpty flag patience].
    unfold block. cbn [with_event blocked q]. rewrite start_insert by lia. cbn [fst snd].
    unfold with_notEmpty, park. cbn [queue notEmpty notFull mCapacity currentSize m_closed flag waiting woken].
    replace (seq 0 c ++ [c]) with (seq 0 (S c)) by (by rewrite seq_S).
    rewrite (IH (S c)) by lia. done.
Qed.

Lemma parked_count n capacity : count (parked n capacity) = Z.of_nat n.
Proof. unfold count, parked. cbn [blocked]. induction n as [| n IH]; cbn [replicate total] in *; lia. Qed.

Lemma receivers_size l : total (action_size packet_size) (map (fun c => Start c Get) l) = 0.
Proof. induction l as [| c l IH]; cbn; [done | exact IH]. Qed.

Lemma parked_run n capacity : execs packet_size packet_eqb (receivers n) (start n capacity) = Some (parked n capacity, []).
Proof. pose proof (receivers_park n capacity n 0 eq_refl) as H. rewrite Nat.sub_0_r in H. exact H. Qed.

(** After the one packet. *)
Definition served (n : nat) (capacity : Z) : System (T := Packet) :=
  mkSys (insert packet_size true unknown (parked n capacity).(q)).2 (parked n capacity).(blocked).

Lemma served_inv n capacity : qinv packet_size (served n capacity) /\ load packet_size (served n capacity) <= 1.
Proof.
  destruct (execs_ok packet_size packet_eqb packet_size_range (receivers n) _ _ _ (start_inv packet_size n capacity)
    ltac:(rewrite start_load; unfold receivers; by rewrite receivers_size) (parked_run n capacity)) as [I L].
  rewrite start_load in L. unfold receivers in L. rewrite receivers_size in L.
  destruct (exec_ok packet_size packet_eqb packet_size_range (Forced 0 true unknown) (parked n capacity)
    (served n capacity, Some (0%nat, Inserted unknown true)) I) as [I' L'].
  - cbn [action_size]. unfold packet_size at 2. lia.
  - done.
  - cbn [fst action_size] in *. unfold packet_size in L' at 3. split; [done | lia].
Qed.

Lemma served_queue n capacity : (served n capacity).(q).(queue) = [unknown] /\ (served n capacity).(q).(m_closed) = false
  /\ all_get (served n capacity) /\ count (served n capacity) = Z.of_nat n.
Proof.
  split_and!; [unfold served, insert; cbn; by destruct (_ >=? _).. | | apply parked_count].
  unfold all_get. cbn. by apply Forall_replicate.
Qed.

(** C40: When n coroutines wait in recv, abort puts one packet only: at most one of them
    ever returns, the others wait for ever. *)
Theorem abort_strands_receivers n capacity : (1 <= n)%nat ->
  exists sys rq, execs packet_size packet_eqb (receivers n) (start n capacity) = Some (sys, [])
  /\ putUnknown (S n) 0 sys.(q) = Ret rq
  /\ forall l sys' rs, Forall is_resume l ->
       execs packet_size packet_eqb l (mkSys rq sys.(blocked)) = Some (sys', rs) ->
       zlen (gotten rs) <= 1 /\ Z.of_nat n - 1 <= count sys'.
Proof.
  intros Hn. exists (parked n capacity), (served n capacity).(q). split; [apply parked_run |]. split.
  { destruct n as [| n]; [lia |]. by apply putUnknown_once. }
  intros l sys' rs Hr H. change (mkSys _ _) with (served n capacity) in H.
  destruct (served_inv n capacity) as [I L]. destruct (served_queue n capacity) as (Q1 & Q2 & Q3 & Q4).
  destruct (resumes_get l _ sys' rs I ltac:(lia) Q3 Q2 Hr H) as [G1 G2].
  assert (Hf : gotten rs ++ sys'.(q).(queue) = (served n capacity).(q).(queue) ++ accepted rs).
  { apply (execs_fifo packet_size packet_eqb packet_size_range l _ sys' rs I); try done.
    - rewrite (resumes_size packet_size l Hr). lia.
    - eapply Forall_impl, Hr. by intros [].
    - eapply Forall_impl, Q3. intros [op |]; [| done]. cbn. by intros ->. }
  rewrite Q1, G2, app_nil_r in Hf. apply (f_equal zlen) in Hf. rewrite zlen_app, zlen_cons, zlen_nil in Hf.
  pose proof (zlen_nonneg (queue (q sys'))). lia.
Qed.

Lemma abort_strands_receivers_witness : exists sys rq,
  execs packet_size packet_eqb (receivers 2) (start 2 256) = Some (sys, []) /\ putUnknown 3 0 sys.(q) = Ret rq
  /\ exists sys' rs, execs packet_size packet_eqb [Resume 0 false; Resume 1 false] (mkSys rq sys.(blocked)) = Some (sys', rs)
     /\ 1 <= count sys'.
Proof.
  destruct (abort_strands_receivers 2 256) as (sys & rq & H1 & H2 & H3); [lia |].
  exists sys, rq. split; [done |]. split; [done |]. pose proof H1 as E1. vm_compute in E1. injection E1 as <-.
  pose proof H2 as E2. vm_compute in E2. injection E2 as <-.
  do 2 eexists. split; [by vm_compute |].
  eapply (H3 [Resume 0 false; Resume 1 false]); [by repeat constructor | by vm_compute].
Defined.
