(* ===== verification/Punycode.v ===== *)
(** * Punycode and domain names ([src/src/utils/punycode.cpp], [string_utils.cpp])

    The bootstring codec of RFC 3492 with its 32-bit arithmetic, and [toAce] and
    [fromAce], which apply it label by label. *)

From S2P Require Import Prelude Utf8.

Definition kBase : Z := 36.
Definition kTMin : Z := 1.
Definition kTMax : Z := 26.
Definition kSkew : Z := 38.
Definition kDamp : Z := 700.
Definition kInitialBias : Z := 72.
Definition kInitialN : Z := 128.
Definition kMaxCodepoint : Z := 0x10FFFF.
Definition kInvalidDigit : Z := kBase.

(** ** Digits and thresholds *)

Definition encodeDigit (d : Z) : Z := if d <? 26 then u8 (97 + d) else u8 (48 + (d - 26)).

Definition decodeDigit (c : Z) : Z :=
  if (c >=? 48) && (c <=? 57) then c - 48 + 26
  else if (c >=? 65) && (c <=? 90) then c - 65
  else if (c >=? 97) && (c <=? 122) then c - 97
  else kInvalidDigit.

(** The loop of [adapt]; eight rounds bring any 32-bit number down. *)
Fixpoint adaptLoop (fuel : nat) (delta k : Z) : Z * Z :=
  match fuel with
  | O => (delta, k)
  | S fuel' =>
      if delta >? (kBase - kTMin) * kTMax / 2 then adaptLoop fuel' (delta / (kBase - kTMin)) (u32 (k + kBase))
      else (delta, k)
  end.

Definition adapt (delta numpoints : Z) (firsttime : bool) : Z :=
  let delta := if firsttime then delta / kDamp else delta / 2 in
  let delta := u32 (delta + delta / numpoints) in
  let '(delta, k) := adaptLoop 8 delta 0 in
  u32 (k + u32 ((kBase - kTMin + 1) * delta) / u32 (delta + kSkew)).

Definition threshold (k bias : Z) : Z :=
  if k <=? bias then kTMin else if k >=? u32 (bias + kTMax) then kTMax else u32 (k - bias).

(** ** Encoding *)

(** A number as digits; [q] shrinks at least tenfold in each round. *)
Fixpoint encodeNumber (fuel : nat) (q k bias : Z) : result (list Z) :=
  match fuel with
  | O => OutOfFuel
  | S fuel' =>
      let t := threshold k bias in
      if q <? t then Ret [encodeDigit q]
      else
        rest ← encodeNumber fuel' ((q - t) / (kBase - t)) (u32 (k + kBase)) bias;
        Ret (encodeDigit (t + (q - t) mod (kBase - t)) :: rest)
  end.

Record Encoder : Type := mkEnc { delta : Z; bias : Z; h : Z; output : list Z }.

(** The body of the inner loop, for the code point [n]. *)
Definition encodeStep (n b cp : Z) (e : Encoder) : result Encoder :=
  let d := if cp <? n then u32 (e.(delta) + 1) else e.(delta) in
  if (cp <? n) && (d =? 0) then Reject else
  if cp =? n then
    digits ← encodeNumber 40 d kBase e.(bias);
    Ret (mkEnc 0 (adapt d (u32 (e.(h) + 1)) (e.(h) =? b)) (e.(h) + 1) (e.(output) ++ digits))
  else Ret (mkEnc d e.(bias) e.(h) e.(output)).

Fixpoint encodePass (n b : Z) (input : list Z) (e : Encoder) : result Encoder :=
  match input with
  | [] => Ret e
  | cp :: input' => e ← encodeStep n b cp e; encodePass n b input' e
  end.

(** The smallest code point that is not less than [n]. *)
Definition smallest (n : Z) (input : list Z) : Z :=
  fold_left (fun m cp => if (cp >=? n) && (cp <? m) then cp else m) input 0xFFFFFFFF.

Fixpoint encodeLoop (fuel : nat) (n b : Z) (input : list Z) (e : Encoder) : result (list Z) :=
  match fuel with
  | O => OutOfFuel
  | S fuel' =>
      if negb (e.(h) <? zlen input) then Ret e.(output) else
      let m := smallest n input in
      if u32 (m - n) >? (0xFFFFFFFF - e.(delta)) / (e.(h) + 1) then Reject else
      let d := u32 (e.(delta) + u32 (u32 (m - n) * u32 (e.(h) + 1))) in
      e ← encodePass m b input (mkEnc d e.(bias) e.(h) e.(output));
      encodeLoop fuel' (u32 (m + 1)) b input (mkEnc (u32 (e.(delta) + 1)) e.(bias) e.(h) e.(output))
  end.

Definition basic (cp : Z) : bool := cp <? 0x80.

Definition punycodeEncode (input : list Z) : result (list Z) :=
  if existsb (fun cp => cp >? kMaxCodepoint) input then Reject else
  let basics := filter (fun cp => basic cp = true) input in
  let b := zlen basics in
  if b =? zlen input then Ret basics else
  let out := if b >? 0 then basics ++ [45] else basics in
  encodeLoop (S (length input)) kInitialN b input (mkEnc 0 kInitialBias b out).

(** ** Decoding *)

(** A number from digits, added to [i]; what is left of the input. *)
Fixpoint decodeNumber (i w k bias : Z) (l : list Z) : result (Z * list Z) :=
  match l with
  | [] => Reject
  | ch :: l' =>
      let digit := decodeDigit ch in
      if digit >=? kBase then Reject
      else if digit >? (0xFFFFFFFF - i) / w then Reject
      else
        let i := u32 (i + u32 (digit * w)) in
        let t := threshold k bias in
        if digit <? t then Ret (i, l')
        else if w >? 0xFFFFFFFF / (kBase - t) then Reject
        else decodeNumber i (u32 (w * (kBase - t))) (u32 (k + kBase)) bias l'
  end.

Fixpoint decodeLoop (fuel : nat) (i n bias : Z) (l : list Z) (out : list Z) : result (list Z) :=
  match l, fuel with
  | [], _ => Ret out
  | _, O => OutOfFuel
  | _, S fuel' =>
      r ← decodeNumber i 1 kBase bias l;
      let '(i', l') := r in
      let outPlus1 := u32 (zlen out + 1) in
      let bias := adapt (u32 (i' - i)) outPlus1 (i =? 0) in
      let n := u32 (n + i' / outPlus1) in
      let at_ := i' mod outPlus1 in
      if n >? kMaxCodepoint then Reject
      else decodeLoop fuel' (u32 (at_ + 1)) n bias l' (take (Z.to_nat at_) out ++ n :: drop (Z.to_nat at_) out)
  end.

(** [input.rfind('-')]: what comes before the last dash, and the rest. *)
Fixpoint rfindDash (l : list Z) : option (list Z * list Z) :=
  match l with
  | [] => None
  | c :: l' =>
      match rfindDash l' with
      | Some (pre, post) => Some (c :: pre, post)
      | None => if c =? 45 then Some ([], l') else None
      end
  end.

Definition punycodeDecode (input : list Z) : result (list Z) :=
  let pre := match rfindDash input with Some (pre, _) => pre | None => [] end in
  if existsb (fun c => c >=? 0x80) pre then Reject else
  let post := match rfindDash input with Some (c :: pre, post) => post | _ => input end in
  decodeLoop (length input) 0 kInitialN kInitialBias post pre.

(** ** Domain names *)

Definition dot : Z := 46.

(** [split(text, '.')] *)
Fixpoint split (sep : Z) (text : list Z) : list (list Z) :=
  match text with
  | [] => [[]]
  | ch :: text' =>
      if ch =? sep then [] :: split sep text'
      else match split sep text' with
           | [] => [[ch]]
           | part :: parts => (ch :: part) :: parts
           end
  end.

Definition isAceLabel (label : list Z) : bool :=
  match label with
  | x :: n :: d1 :: d2 :: _ => ((x =? 120) || (x =? 88)) && ((n =? 110) || (n =? 78)) && (d1 =? 45) && (d2 =? 45)
  | _ => false
  end.

Definition pureAscii (label : list Z) : bool := forallb (fun ch => negb (ch >=? 0x80)) label.

Definition toAceLabel (label : list Z) : result (list Z) :=
  if pureAscii label then Ret label
  else match utf8ToCodepoints label with
       | None => Reject
       | Some cps => encoded ← punycodeEncode cps; Ret (str "xn--" ++ encoded)
       end.

Definition fromAceLabel (label : list Z) : result (list Z) :=
  if negb (isAceLabel label) then Ret label
  else cps ← punycodeDecode (drop 4 label); Ret (codepointsToUtf8 cps).

(** The loop that both share: labels, a dot between two of them, and no empty label
    but the last. *)
Fixpoint mapLabels (f : list Z -> result (list Z)) (labels : list (list Z)) : result (list Z) :=
  match labels with
  | [] => Ret []
  | label :: labels' =>
      part ← match label with
             | [] => match labels' with [] => Ret [] | _ => Reject end
             | _ => f label
             end;
      match labels' with
      | [] => Ret part
      | _ => rest ← mapLabels f labels'; Ret (part ++ dot :: rest)
      end
  end.

(** The empty string stands for a refusal. *)
Definition or_empty (r : result (list Z)) : result (list Z) :=
  match r with Reject => Ret [] | _ => r end.

Definition toAce (domain : list Z) : result (list Z) :=
  match domain with [] => Ret [] | _ => or_empty (mapLabels toAceLabel (split dot domain)) end.

Definition fromAce (domain : list Z) : result (list Z) :=
  match domain with [] => Ret [] | _ => or_empty (mapLabels fromAceLabel (split dot domain)) end.
