(* ===== verification/PunycodeProofs.v ===== *)
(** * Punycode: decoding what was encoded

    The decoder replays the insertions of the encoder: after each number it stands at
    the code point and place that the encoder had reached.  Labels of up to a hundred
    code points keep every number clear of the 32-bit bounds. *)

From S2P Require Import Prelude Utf8 Punycode.

(** ** Filters *)

Lemma filter_same (P Q : Z -> Prop) `{forall x, Decision (P x)} `{forall x, Decision (Q x)} (l : list Z) :
  (forall x, x ∈ l -> P x <-> Q x) -> filter P l = filter Q l.
Proof.
  induction l as [| x l IH]; intros Hl; [done |].
  assert (Hx : P x <-> Q x) by (apply Hl; constructor).
  assert (Hr : filter P l = filter Q l) by (apply IH; intros y Hy; apply Hl; by constructor).
  destruct (decide (P x)); [rewrite !filter_cons_True by tauto | rewrite !filter_cons_False by tauto]; by rewrite Hr.
Qed.

Lemma filter_all (P : Z -> Prop) `{forall x, Decision (P x)} (l : list Z) : zlen (filter P l) = zlen l -> filter P l = l.
Proof.
  induction l as [| x l IH]; [done |]. destruct (decide (P x)).
  - rewrite filter_cons_True, !zlen_cons by done. intros Hl. f_equal. apply IH. lia.
  - rewrite filter_cons_False, zlen_cons by done. pose proof (length_filter P l). unfold zlen. lia.
Qed.

Lemma filter_fewer (P : Z -> Prop) `{forall x, Decision (P x)} (l : list Z) :
  zlen (filter P l) < zlen l -> exists x, x ∈ l /\ ~ P x.
Proof.
  induction l as [| x l IH]; [cbn; lia |]. destruct (decide (P x)) as [Hp | Hp].
  - rewrite filter_cons_True, !zlen_cons by done. intros Hl. destruct IH as (y & Hy & Hn); [lia |].
    exists y. split; [by constructor | done].
  - intros _. exists x. split; [constructor | done].
Qed.

(** ** Digits and thresholds *)

Lemma digit_roundtrip d : 0 <= d < 36 -> decodeDigit (encodeDigit d) = d /\ 48 <= encodeDigit d <= 122.
Proof.
  intros Hd. unfold encodeDigit, wrapu. case_test.
  - rewrite Z.mod_small by lia. unfold decodeDigit. replace (_ && _) with false by lia.
    replace (_ && _) with false by lia. replace (_ && _) with true by lia. lia.
  - rewrite Z.mod_small by lia. unfold decodeDigit. replace (_ && _) with true by lia. lia.
Qed.

Lemma adaptLoop_range fuel : forall delta k, 0 <= delta <= 455 * 35 ^ Z.of_nat fuel -> 0 <= k -> k + 36 * Z.of_nat fuel < 2 ^ 32 ->
  let r := adaptLoop fuel delta k in 0 <= r.1 <= 455 /\ 0 <= r.2 <= k + 36 * Z.of_nat fuel.
Proof.
  induction fuel as [| fuel IH]; intros delta k Hd Hk Hm; cbn [adaptLoop].
  - cbn in *. lia.
  - change ((kBase - kTMin) * kTMax / 2) with 455. rewrite Nat2Z.inj_succ, Z.pow_succ_r in Hd by lia. case_test.
    + change (kBase - kTMin) with 35. unfold wrapu, kBase. rewrite Z.mod_small by lia.
      assert (Hq : 0 <= delta / 35 <= 455 * 35 ^ Z.of_nat fuel).
      { split; [apply Z.div_pos; lia |]. apply Z.div_le_upper_bound; lia. }
      pose proof (IH (delta / 35) (k + 36) Hq ltac:(lia) ltac:(lia)) as Hr. cbn zeta in *. lia.
    + cbn [fst snd]. lia.
Qed.

Lemma adapt_range delta n first : 0 <= delta < 2 ^ 32 -> 1 <= n -> 0 <= adapt delta n first <= 400.
Proof.
  intros Hd Hn. unfold adapt, kDamp. set (d := if first then delta / 700 else delta / 2).
  assert (H1 : 0 <= d) by (unfold d; destruct first; apply Z.div_pos; lia).
  set (d1 := u32 (d + d / n)). assert (H2 : 0 <= d1 < 2 ^ 32) by (unfold d1, wrapu; apply Z.mod_pos_bound; lia).
  pose proof (adaptLoop_range 8 d1 0) as Hr. assert (H3 : 2 ^ 32 <= 455 * 35 ^ Z.of_nat 8) by (vm_compute; congruence).
  destruct (adaptLoop 8 d1 0) as [d2 k]. cbn [fst snd] in Hr. destruct Hr as [R1 R2]; [lia | lia | lia |].
  change (kBase - kTMin + 1) with 36. unfold kSkew, wrapu. change (Z.of_nat 8) with 8 in R2.
  rewrite (Z.mod_small (36 * d2)), (Z.mod_small (d2 + 38)) by lia.
  assert (0 <= 36 * d2 / (d2 + 38) <= 36).
  { split; [apply Z.div_pos; lia |]. apply Z.div_le_upper_bound; lia. }
  rewrite Z.mod_small; lia.
Qed.

Lemma threshold_range k bias : 0 <= bias <= 400 -> 0 <= k < 2 ^ 32 -> 1 <= threshold k bias <= 26.
Proof.
  intros Hb Hk. unfold threshold, kTMin, kTMax, wrapu. rewrite (Z.mod_small (bias + 26)) by lia.
  case_test; [lia |]. case_test; [lia |]. rewrite Z.mod_small; lia.
Qed.

(** ** Numbers *)

Lemma encodeNumber_total fuel : forall q k bias, 0 <= q < 10 ^ Z.of_nat fuel -> 0 <= bias <= 400 -> 0 <= k < 2 ^ 32 ->
  exists digits, encodeNumber (S fuel) q k bias = Ret digits.
Proof.
  induction fuel as [| fuel IH]; intros q k bias Hq Hb Hk; cbn [encodeNumber];
    pose proof (threshold_range k bias Hb Hk) as Ht; set (t := threshold k bias) in *.
  - cbn in Hq. replace (q <? t) with true by lia. by eexists.
  - case_test; [by eexists |]. rewrite Nat2Z.inj_succ, Z.pow_succ_r in Hq by lia.
    destruct (IH ((q - t) / (kBase - t)) (u32 (k + kBase)) bias) as [ds Hds]; [| done | |].
    + unfold kBase. split; [apply Z.div_pos; lia |]. apply Z.div_lt_upper_bound; [lia |]. nia.
    + unfold wrapu. apply Z.mod_pos_bound. lia.
    + cbn [encodeNumber] in Hds. rewrite Hds. by eexists.
Qed.

Lemma encodeNumber_digits fuel : forall q k bias digits, 0 <= q -> 0 <= bias <= 400 -> 0 <= k < 2 ^ 32 ->
  encodeNumber fuel q k bias = Ret digits -> digits <> [] /\ Forall (fun c => 48 <= c <= 122) digits.
Proof.
  induction fuel as [| fuel IH]; intros q k bias digits Hq Hb Hk H; [done |]. cbn [encodeNumber] in H.
  pose proof (threshold_range k bias Hb Hk) as Ht. set (t := threshold k bias) in *.
  destruct (q <? t) eqn:E.
  - injection H as <-. split; [done |]. apply Forall_singleton. apply digit_roundtrip. lia.
  - destruct (encodeNumber fuel _ _ _) as [ds | | |] eqn:E2; try done. injection H as <-. split; [done |].
    apply IH in E2 as [_ Hds]; [| apply Z.div_pos; unfold kBase; lia | done | unfold wrapu; apply Z.mod_pos_bound; lia].
    constructor; [| done]. apply digit_roundtrip. unfold kBase.
    pose proof (Z.mod_pos_bound (q - t) (36 - t)). lia.
Qed.

(** A number is read back, at any weight that leaves room. *)
Lemma number_roundtrip fuel : forall q k bias digits i w rest, 0 <= q -> 0 <= bias <= 400 -> 0 <= k < 2 ^ 32 ->
  encodeNumber fuel q k bias = Ret digits -> 0 <= i -> 1 <= w -> i + q * w < 2 ^ 32 -> q * w * 35 < 2 ^ 32 ->
  decodeNumber i w k bias (digits ++ rest) = Ret (i + q * w, rest).
Proof.
  induction fuel as [| fuel IH]; intros q k bias digits i w rest Hq Hb Hk H Hi Hw Hm H35; [done |]. cbn [encodeNumber] in H.
  pose proof (threshold_range k bias Hb Hk) as Ht. set (t := threshold k bias) in *.
  destruct (q <? t) eqn:E.
  - injection H as <-. cbn [app decodeNumber]. destruct (digit_roundtrip q ltac:(lia)) as [-> _].
    fold t. replace (q >=? kBase) with false by (unfold kBase; lia).
    assert (q <= (0xFFFFFFFF - i) / w) by (apply Z.div_le_lower_bound; [lia | rewrite Z.mul_comm; lia]).
    replace (q >? _) with false by lia. rewrite E. unfold wrapu.
    rewrite (Z.mod_small (q * w)) by nia. rewrite Z.mod_small by nia. done.
  - destruct (encodeNumber fuel _ _ _) as [ds | | |] eqn:E2; try done. injection H as <-.
    unfold kBase in *. set (r := (q - t) mod (36 - t)) in *. set (q1 := (q - t) / (36 - t)) in *.
    assert (Hr : 0 <= r < 36 - t) by (apply Z.mod_pos_bound; lia).
    assert (Hq1 : 0 <= q1) by (apply Z.div_pos; lia).
    assert (Hd : q = t + r + (36 - t) * q1) by (unfold r, q1; pose proof (Z.div_mod (q - t) (36 - t)); lia).
    clearbody r q1.
    assert (Hdw : (t + r) * w + q1 * (w * (36 - t)) = q * w) by (rewrite Hd; ring).
    assert (Hpos : 0 <= q1 * (w * (36 - t))) by (apply Z.mul_nonneg_nonneg; [lia | apply Z.mul_nonneg_nonneg; lia]).
    assert (Hposd : 0 <= (t + r) * w) by (apply Z.mul_nonneg_nonneg; lia).
    assert (Hw36 : 1 <= w * (36 - t) <= w * 35) by (split; [nia | apply Z.mul_le_mono_nonneg_l; lia]).
    assert (Hwq : w * 35 <= q * w * 35) by (assert (1 * w <= q * w) by (apply Z.mul_le_mono_nonneg_r; lia); lia).
    cbn [app decodeNumber]. destruct (digit_roundtrip (t + r) ltac:(lia)) as [-> _]. fold t.
    replace (t + r >=? kBase) with false by (unfold kBase; lia).
    assert (t + r <= (0xFFFFFFFF - i) / w) by (apply Z.div_le_lower_bound; [lia | rewrite Z.mul_comm; lia]).
    replace (t + r >? _) with false by lia. replace (t + r <? t) with false by lia. unfold kBase.
    assert (w <= 0xFFFFFFFF / (36 - t)) by (apply Z.div_le_lower_bound; [lia | rewrite Z.mul_comm; lia]).
    replace (w >? _) with false by lia. unfold wrapu in *.
    rewrite (Z.mod_small ((t + r) * w)) by lia. rewrite (Z.mod_small (i + _)) by lia.
    rewrite (Z.mod_small (w * (36 - t))) by lia.
    rewrite (IH q1 _ bias ds _ _ rest); try done; try lia.
    + do 2 f_equal. lia.
    + apply Z.mod_pos_bound. lia.
Qed.

(** ** The decoder follows the encoder *)

Section Follow.
Context (input : list Z).
Hypothesis input_range : Forall (fun cp => 0 <= cp <= kMaxCodepoint) input.
Hypothesis input_short : zlen input <= 100.

Definition basics : list Z := filter (fun cp => cp < 128) input.

(** What has been inserted when the encoder, at code point [n], has gone through [pre]. *)
Definition before (n : Z) (pre : list Z) : list Z := filter (fun cp => cp <= n) pre.
Definition after_ (n : Z) (todo : list Z) : list Z := filter (fun cp => cp < n) todo.
Definition inserted (n : Z) (pre todo : list Z) : list Z := before n pre ++ after_ n todo.

(** The encoder [e] is at [n], between [pre] and [todo]; the decoder, given the digits [ds]
    so far, stands at place [i] of code point [nd]. *)
Record follows (n : Z) (pre todo : list Z) (e : Encoder) (i nd : Z) (ds : list Z) (cnt : nat) : Prop := {
  fol_input : pre ++ todo = input;
  fol_h : e.(h) = zlen (inserted n pre todo);
  fol_delta : e.(delta) = (n - nd) * (e.(h) + 1) + zlen (before n pre) - i;
  fol_place : 0 <= i <= e.(h) /\ 128 <= nd <= n /\ (nd = n -> i <= zlen (before n pre));
  fol_first : (i =? 0) = (e.(h) =? zlen basics) /\ zlen basics <= e.(h);
  fol_bias : 0 <= e.(bias) <= 400;
  fol_digits : Forall (fun c => 48 <= c <= 122) ds /\ (cnt <= length ds)%nat;
  fol_output : e.(output) = (if zlen basics >? 0 then basics ++ [45] else basics) ++ ds;
  fol_decoder : forall F rest, decodeLoop (cnt + F) 0 kInitialN kInitialBias (ds ++ rest) basics
                = decodeLoop F i nd e.(bias) rest (inserted n pre todo)
}.

Lemma inserted_short n pre todo : pre ++ todo = input -> 0 <= zlen (before n pre) <= zlen (inserted n pre todo)
  /\ zlen (inserted n pre todo) <= 100.
Proof.
  intros Hp. unfold inserted, before, after_. rewrite zlen_app.
  pose proof (zlen_nonneg (filter (fun cp => cp <= n) pre)). pose proof (zlen_nonneg (filter (fun cp => cp < n) todo)).
  rewrite <- Hp, zlen_app in input_short. unfold zlen in *.
  pose proof (length_filter (fun cp => cp <= n) pre). pose proof (length_filter (fun cp => cp < n) todo). lia.
Qed.

(** The distance is small: the number for it fits. *)
Lemma follows_delta n pre todo e i nd ds cnt : follows n pre todo e i nd ds cnt -> n <= kMaxCodepoint ->
  0 <= e.(delta) <= kMaxCodepoint * 101 + 100.
Proof.
  intros [F1 F2 F3 F4 F5 F6 F7 F8 F9] Hn. destruct (inserted_short n pre todo F1) as [H1 H2].
  rewrite <- F2 in *. rewrite F3. unfold kMaxCodepoint in *. destruct F4 as (P1 & P2 & P3).
  split; [| nia]. destruct (decide (nd = n)) as [-> |]; [specialize (P3 eq_refl); lia | nia].
Qed.

(** One number: the decoder goes to [n] and inserts it. *)
Lemma decode_insert n pre todo e i nd ds cnt digits rest F : follows n pre todo e i nd ds cnt ->
  n <= kMaxCodepoint -> encodeNumber 40 e.(delta) kBase e.(bias) = Ret digits ->
  decodeLoop (S F) i nd e.(bias) (digits ++ rest) (inserted n pre todo) =
    decodeLoop F (zlen (before n pre) + 1) n (adapt e.(delta) (u32 (e.(h) + 1)) (e.(h) =? zlen basics)) rest
      (before n pre ++ n :: after_ n todo).
Proof.
  intros Hf Hn He. pose proof (follows_delta _ _ _ _ _ _ _ _ Hf Hn) as Hd.
  destruct Hf as [F1 F2 F3 F4 F5 F6 F7 F8 F9]. destruct F4 as (P1 & P2 & P3).
  destruct (inserted_short n pre todo F1) as [H1 H2]. unfold kMaxCodepoint in *.
  assert (Hne : digits <> []) by (eapply (encodeNumber_digits 40); [| | | exact He]; [lia | done | unfold kBase; lia]).
  assert (Hnum : decodeNumber i 1 kBase e.(bias) (digits ++ rest) = Ret (i + e.(delta) * 1, rest)).
  { eapply (number_roundtrip 40); try done; try lia; unfold kBase; lia. }
  destruct digits as [| c digits]; [done |]. cbn [app decodeLoop] in *. rewrite Hnum. cbn [mbind result_bind].
  rewrite Z.mul_1_r, <- F2. set (p := zlen (before n pre)) in *. rewrite <- F2 in *.
  assert (Hu : u32 (e.(h) + 1) = e.(h) + 1) by (unfold wrapu; rewrite Z.mod_small; lia). rewrite Hu.
  replace (i + e.(delta) - i) with e.(delta) by lia.
  assert (Hud : u32 e.(delta) = e.(delta)) by (unfold wrapu; rewrite Z.mod_small; lia). rewrite Hud, (proj1 F5).
  assert (Hpos : i + e.(delta) = (n - nd) * (e.(h) + 1) + p) by lia. rewrite Hpos.
  rewrite Z.div_add_l, (Z.div_small p), Z.add_0_r by lia.
  replace (((n - nd) * (e.(h) + 1) + p) mod (e.(h) + 1)) with p by (rewrite Z.add_comm, Z.mod_add, Z.mod_small; lia).
  replace (nd + (n - nd)) with n by lia.
  assert (Hun : u32 n = n) by (unfold wrapu; rewrite Z.mod_small; lia). rewrite Hun. unfold kMaxCodepoint. test_false.
  assert (Hup : u32 (p + 1) = p + 1) by (unfold wrapu; rewrite Z.mod_small; lia). rewrite Hup.
  unfold inserted. unfold p at 2 3. rewrite zlen_to_nat, take_app_length, drop_app_length. done.
Qed.

Lemma before_snoc n pre cp : before n (pre ++ [cp]) = before n pre ++ (if decide (cp <= n) then [cp] else []).
Proof. unfold before. by rewrite list.filter_app. Qed.

Lemma after_cons n cp todo : after_ n (cp :: todo) = (if decide (cp < n) then [cp] else []) ++ after_ n todo.
Proof. unfold after_. by case_decide; [rewrite filter_cons_True | rewrite filter_cons_False]. Qed.

(** One code point of the pass. *)
Lemma follows_step n pre cp todo e i nd ds cnt : follows n pre (cp :: todo) e i nd ds cnt -> 128 <= n <= kMaxCodepoint ->
  exists e' i' nd' ds' cnt', encodeStep n (zlen basics) cp e = Ret e' /\ follows n (pre ++ [cp]) todo e' i' nd' ds' cnt'.
Proof.
  intros Hf Hn. pose proof (follows_delta _ _ _ _ _ _ _ _ Hf ltac:(lia)) as Hd.
  pose proof Hf as [F1 F2 F3 F4 F5 F6 F7 F8 F9]. destruct F4 as (P1 & P2 & P3).
  assert (Hp : (pre ++ [cp]) ++ todo = input) by (by rewrite <- app_assoc).
  assert (Hin : zlen (before n (pre ++ [cp])) = zlen (before n pre) + (if decide (cp <= n) then 1 else 0)).
  { rewrite before_snoc, zlen_app. by case_decide. }
  unfold encodeStep. destruct (decide (cp = n)) as [-> | Hne]; [| destruct (decide (cp < n)) as [Hlt | Hge]].
  - replace (n <? n) with false by lia. rewrite Z.eqb_refl. cbn [andb].
    destruct (encodeNumber_total 39 e.(delta) kBase e.(bias)) as [digits Hdig];
      [unfold kMaxCodepoint in *; cbn; lia | done | unfold kBase; lia |].
    rewrite Hdig. cbn [mbind result_bind].
    pose proof (fun rest F => decode_insert n pre (n :: todo) e i nd ds cnt digits rest F Hf ltac:(lia) Hdig) as Hins.
    destruct (encodeNumber_digits 40 e.(delta) kBase e.(bias) digits) as [Hdn Hdr]; [lia | done | unfold kBase; lia | done |].
    assert (Hout : before n (pre ++ [n]) ++ after_ n todo = before n pre ++ n :: after_ n (n :: todo)).
    { rewrite before_snoc, after_cons, decide_True, decide_False by lia. by rewrite <- app_assoc. }
    rewrite decide_True in Hin by lia.
    assert (Hlen : zlen (inserted n (pre ++ [n]) todo) = e.(h) + 1).
    { unfold inserted in *. rewrite Hout, F2, !zlen_app, zlen_cons. lia. }
    pose proof (inserted_short n pre (n :: todo) F1). pose proof (inserted_short n (pre ++ [n]) todo Hp).
    eexists _, (zlen (before n pre) + 1), n, (ds ++ digits), (S cnt). split; [done |].
    split; cbn [delta bias h output]; try done; try lia.
    + apply adapt_range; [unfold kMaxCodepoint in *; lia |]. unfold wrapu. rewrite Z.mod_small; lia.
    + destruct F7 as [F7a F7b]. split; [by apply Forall_app |]. rewrite length_app. destruct digits; [done |]. cbn. lia.
    + by rewrite F8, <- app_assoc.
    + intros F rest. rewrite <- app_assoc. replace (S cnt + F)%nat with (cnt + S F)%nat by lia.
      rewrite F9, Hins. unfold inserted. by rewrite Hout.
  - replace (cp <? n) with true by lia. replace (cp =? n) with false by lia.
    assert (Hu : u32 (e.(delta) + 1) = e.(delta) + 1) by (unfold wrapu, kMaxCodepoint in *; rewrite Z.mod_small; lia).
    rewrite Hu. replace (e.(delta) + 1 =? 0) with false by lia. cbn [andb].
    assert (Hout : before n (pre ++ [cp]) ++ after_ n todo = before n pre ++ after_ n (cp :: todo)).
    { rewrite before_snoc, after_cons, !decide_True by lia. by rewrite <- app_assoc. }
    rewrite decide_True in Hin by lia.
    eexists _, i, nd, ds, cnt. split; [done |].
    split; cbn [delta bias h output]; unfold inserted in *; rewrite ?Hout; try done; lia.
  - replace (cp <? n) with false by lia. replace (cp =? n) with false by lia. cbn [andb].
    assert (Hout : before n (pre ++ [cp]) ++ after_ n todo = before n pre ++ after_ n (cp :: todo)).
    { rewrite before_snoc, after_cons, !decide_False by lia. by rewrite app_nil_r. }
    rewrite decide_False in Hin by lia.
    eexists _, i, nd, ds, cnt. split; [done |].
    split; cbn [delta bias h output]; unfold inserted in *; rewrite ?Hout; try done; lia.
Qed.

Lemma follows_pass n todo : forall pre e i nd ds cnt, follows n pre todo e i nd ds cnt -> 128 <= n <= kMaxCodepoint ->
  exists e' i' nd' ds' cnt', encodePass n (zlen basics) todo e = Ret e' /\ follows n input [] e' i' nd' ds' cnt'.
Proof.
  induction todo as [| cp todo IH]; intros pre e i nd ds cnt Hf Hn.
  - exists e, i, nd, ds, cnt. split; [done |]. assert (pre = input) as <-; [| done].
    rewrite <- (fol_input _ _ _ _ _ _ _ _ Hf). by rewrite app_nil_r.
  - destruct (follows_step n pre cp todo e i nd ds cnt Hf Hn) as (e1 & i1 & nd1 & ds1 & cnt1 & He & Hf1).
    cbn [encodePass]. rewrite He. cbn [mbind result_bind]. by apply (IH (pre ++ [cp]) e1 i1 nd1 ds1 cnt1).
Qed.

(** To the next code point, and over those that do not occur. *)
Lemma after_next n : after_ (n + 1) input = before n input.
Proof. unfold after_, before. apply list_filter_iff. intros. lia. Qed.

Lemma follows_next n e i nd ds cnt : follows n input [] e i nd ds cnt -> n <= kMaxCodepoint ->
  follows (n + 1) [] input (mkEnc (u32 (e.(delta) + 1)) e.(bias) e.(h) e.(output)) i nd ds cnt.
Proof.
  intros Hf Hn. pose proof (follows_delta _ _ _ _ _ _ _ _ Hf Hn) as Hd.
  destruct Hf as [F1 F2 F3 F4 F5 F6 F7 F8 F9]. unfold inserted in *.
  change (before (n + 1) []) with (@nil Z). change (after_ n []) with (@nil Z) in *. rewrite app_nil_r in *.
  assert (Hu : u32 (e.(delta) + 1) = e.(delta) + 1) by (unfold wrapu, kMaxCodepoint in *; rewrite Z.mod_small; lia).
  rewrite Hu. split; cbn [delta bias h output]; unfold inserted;
    change (before (n + 1) []) with (@nil Z); cbn [app]; rewrite ?after_next, ?zlen_nil; try done; try lia.
Qed.

Lemma follows_jump n m e i nd ds cnt : follows n [] input e i nd ds cnt -> n <= m <= kMaxCodepoint ->
  (forall cp, cp ∈ input -> n <= cp -> m <= cp) ->
  u32 (m - n) = m - n /\ m - n <= (0xFFFFFFFF - e.(delta)) / (e.(h) + 1)
  /\ follows m [] input (mkEnc (u32 (e.(delta) + u32 (u32 (m - n) * u32 (e.(h) + 1)))) e.(bias) e.(h) e.(output)) i nd ds cnt.
Proof.
  intros Hf Hm Hno. pose proof (follows_delta _ _ _ _ _ _ _ _ Hf ltac:(lia)) as Hd.
  destruct Hf as [F1 F2 F3 F4 F5 F6 F7 F8 F9]. destruct (inserted_short n [] input F1) as [H1 H2]. rewrite <- F2 in *.
  assert (Hsame : after_ m input = after_ n input).
  { unfold after_. apply filter_same. intros cp Hcp. split; [| lia]. intros Hlt.
    destruct (decide (cp < n)); [done |]. specialize (Hno cp Hcp ltac:(lia)). lia. }
  destruct F4 as (P1 & P2 & P3). change (before n []) with (@nil Z) in *. rewrite zlen_nil in *. unfold kMaxCodepoint in *.
  assert (Hmul : 0 <= (m - n) * (e.(h) + 1) <= 0x10FFFF * 101) by (split; [apply Z.mul_nonneg_nonneg; lia |]; apply Z.mul_le_mono_nonneg; lia).
  assert (Hu1 : u32 (m - n) = m - n) by (unfold wrapu; rewrite Z.mod_small; lia).
  assert (Hu2 : u32 (e.(h) + 1) = e.(h) + 1) by (unfold wrapu; rewrite Z.mod_small; lia).
  split; [done |]. split.
  { apply Z.div_le_lower_bound; [lia |]. rewrite Z.mul_comm. lia. }
  rewrite Hu1, Hu2. assert (Hu3 : u32 ((m - n) * (e.(h) + 1)) = (m - n) * (e.(h) + 1)) by (unfold wrapu; rewrite Z.mod_small; lia).
  rewrite Hu3. assert (Hu4 : u32 (e.(delta) + (m - n) * (e.(h) + 1)) = e.(delta) + (m - n) * (e.(h) + 1)) by (unfold wrapu; rewrite Z.mod_small; lia).
  rewrite Hu4. split; cbn [delta bias h output]; unfold inserted in *; change (before m []) with (@nil Z);
    change (before n []) with (@nil Z) in *; cbn [app] in *; rewrite ?Hsame, ?zlen_nil; try done; try lia.
Qed.

(** The smallest code point left is one of the input. *)
Lemma smallest_spec n l acc : let m := fold_left (fun m cp => if (cp >=? n) && (cp <? m) then cp else m) l acc in
  (m = acc \/ m ∈ l /\ n <= m) /\ m <= acc /\ (forall cp, cp ∈ l -> n <= cp -> m <= cp).
Proof.
  revert acc. induction l as [| x l IH]; intros acc; cbn [fold_left].
  - split_and!; [by left | lia | by intros ? ?%not_elem_of_nil].
  - destruct (IH (if (x >=? n) && (x <? acc) then x else acc)) as (H1 & H2 & H3). split_and!.
    + destruct H1 as [H1 | [H1 H1']]; [| right; split; [by constructor | done]].
      destruct ((x >=? n) && (x <? acc)) eqn:E; [| by left]. right. rewrite H1. split; [constructor | lia].
    + destruct ((x >=? n) && (x <? acc)) eqn:E; lia.
    + intros cp Hcp Hn. apply elem_of_cons in Hcp as [-> | Hcp]; [| by apply H3].
      destruct ((x >=? n) && (x <? acc)) eqn:E; lia.
Qed.

(** A pass inserts at least one code point. *)
Lemma pass_grows m l : zlen (after_ m l) <= zlen (before m l) /\ (m ∈ l -> zlen (after_ m l) < zlen (before m l)).
Proof.
  unfold before, after_. induction l as [| x l [IH1 IH2]]; [split; [done | by intros ?%not_elem_of_nil] |].
  destruct (decide (x < m)) as [Hlt | Hge]; [| destruct (decide (x = m)) as [-> | Hne]].
  - rewrite !filter_cons_True, !zlen_cons by lia. split; [lia |].
    intros [-> | Hm]%elem_of_cons; [lia |]. specialize (IH2 Hm). lia.
  - rewrite filter_cons_False, filter_cons_True, zlen_cons by lia. lia.
  - rewrite !filter_cons_False by lia. split; [done |].
    intros [-> | Hm]%elem_of_cons; [done |]. by apply IH2.
Qed.

Definition prefix : list Z := if zlen basics >? 0 then basics ++ [45] else basics.

Lemma encodeLoop_ok fuel : forall n e i nd ds cnt, follows n [] input e i nd ds cnt ->
  zlen input - e.(h) < Z.of_nat fuel ->
  exists ds' cnt', encodeLoop fuel n (zlen basics) input e = Ret (prefix ++ ds')
  /\ Forall (fun c => 48 <= c <= 122) ds' /\ (cnt' <= length ds')%nat
  /\ forall F, decodeLoop (cnt' + F) 0 kInitialN kInitialBias ds' basics = Ret input.
Proof.
  induction fuel as [| fuel IH]; intros n e i nd ds cnt Hf Hfuel.
  { exfalso. pose proof (fol_h _ _ _ _ _ _ _ _ Hf) as Hh. unfold inserted in Hh. cbn in Hh.
    pose proof (length_filter (fun cp => cp < n) input). unfold zlen, after_ in *. lia. }
  cbn [encodeLoop]. destruct (e.(h) <? zlen input) eqn:E; cbn [negb].
  2: { pose proof Hf as [F1 F2 F3 F4 F5 F6 F7 F8 F9]. exists ds, cnt. rewrite F8. split; [done |].
       destruct F7. split; [done |]. split; [done |]. intros F. specialize (F9 F []). rewrite app_nil_r in F9. rewrite F9.
       unfold inserted in *. cbn [app before filter] in *. change (before n []) with (@nil Z) in *. cbn [app] in *.
       assert (Hall : after_ n input = input).
       { apply filter_all. pose proof (length_filter (fun cp => cp < n) input).
         unfold zlen, after_ in *. lia. }
       rewrite Hall. by destruct F. }
  assert (Hex : exists cp, cp ∈ input /\ n <= cp).
  { destruct (filter_fewer (fun cp => cp < n) input) as (cp & Hcp & Hn); [| exists cp; split; [done | lia]].
    pose proof (fol_h _ _ _ _ _ _ _ _ Hf) as Hh. unfold inserted in Hh. cbn in Hh. unfold after_ in Hh. lia. }
  destruct Hex as (cp & Hcp & Hncp). pose proof (proj1 (list.Forall_forall _ _) input_range) as Hr.
  destruct (smallest_spec n input 0xFFFFFFFF) as (S1 & S2 & S3). fold (smallest n input) in *. set (m := smallest n input) in *.
  assert (Hm : m ∈ input /\ n <= m).
  { destruct S1 as [S1 | S1]; [| done]. specialize (S3 cp Hcp Hncp). specialize (Hr cp Hcp). unfold kMaxCodepoint in *. lia. }
  destruct Hm as [Hmin Hnm]. pose proof (Hr m Hmin) as Hmr. cbn beta in Hmr.
  destruct (follows_jump n m e i nd ds cnt Hf ltac:(lia) S3) as (J1 & J2 & J3).
  rewrite J1 in *. replace (m - n >? _) with false by lia.
  pose proof (fol_place _ _ _ _ _ _ _ _ J3) as (_ & P2 & _).
  destruct (follows_pass m input [] _ i nd ds cnt J3 ltac:(lia)) as (e1 & i1 & nd1 & ds1 & cnt1 & He1 & Hf1).
  rewrite He1. cbn [mbind result_bind].
  pose proof (follows_next m e1 i1 nd1 ds1 cnt1 Hf1 ltac:(lia)) as Hf2.
  assert (Hu : u32 (m + 1) = m + 1) by (unfold wrapu, kMaxCodepoint in *; rewrite Z.mod_small; lia). rewrite Hu.
  apply (IH (m + 1) _ i1 nd1 ds1 cnt1 Hf2). cbn [h].
  pose proof (fol_h _ _ _ _ _ _ _ _ Hf1) as H1. pose proof (fol_h _ _ _ _ _ _ _ _ J3) as H0. cbn [h] in H0.
  unfold inserted in H0, H1. change (before m []) with (@nil Z) in H0. change (after_ m []) with (@nil Z) in H1.
  rewrite app_nil_r in H1. cbn [app] in H0. pose proof (proj2 (pass_grows m input) Hmin). lia.
Qed.

End Follow.
