(* ===== verification/PunycodeProps.v ===== *)
(** * Punycode and domain names: what is shown

    Labels and domain names survive the way to ASCII and back; the decoder lets its code
    point wrap around. *)

From S2P Require Import Prelude Utf8 Punycode PunycodeProofs.

(** ** Labels *)

(** A label that needs encoding: code points, at most a hundred, not all of them basic. *)
Definition encodable (input : list Z) : Prop :=
  Forall (fun cp => 0 <= cp <= kMaxCodepoint) input /\ zlen input <= 100 /\ Exists (fun cp => 128 <= cp) input.

Lemma basics_filter input : filter (fun cp => basic cp = true) input = basics input.
Proof. unfold basics, basic. apply filter_same. intros. lia. Qed.

Lemma basics_fewer input : Exists (fun cp => 128 <= cp) input -> zlen (basics input) < zlen input.
Proof.
  unfold basics. induction 1 as [x l Hx | x l Hl IH].
  - rewrite filter_cons_False, zlen_cons by lia. pose proof (length_filter (fun cp => cp < 128) l). unfold zlen. lia.
  - destruct (decide (x < 128)).
    + rewrite filter_cons_True, !zlen_cons by done. lia.
    + rewrite filter_cons_False, zlen_cons by lia. lia.
Qed.

Lemma rfindDash_none l : Forall (fun c => 48 <= c <= 122) l -> rfindDash l = None.
Proof. induction 1 as [| c l Hc Hl IH]; [done |]. cbn. rewrite IH. by replace (c =? 45) with false by lia. Qed.

Lemma rfindDash_last pre l : Forall (fun c => 48 <= c <= 122) l -> rfindDash (pre ++ 45 :: l) = Some (pre, l).
Proof. intros Hl. induction pre as [| c pre IH]; cbn; [by rewrite rfindDash_none | by rewrite IH]. Qed.

Lemma follows_start input : Forall (fun cp => 0 <= cp <= kMaxCodepoint) input ->
  follows input kInitialN [] input (mkEnc 0 kInitialBias (zlen (basics input)) (prefix input)) 0 kInitialN [] 0.
Proof.
  intros Hr. assert (Hi : inserted kInitialN [] input = basics input) by done.
  split; cbn [delta bias h output]; try done; try (rewrite Hi; done).
  - pose proof (zlen_nonneg (basics input)). pose proof (zlen_nonneg (before kInitialN [])).
    split_and!; unfold kInitialN in *; lia.
  - split; [symmetry; apply Z.eqb_refl | lia].
  - by rewrite app_nil_r.
Qed.

(** Decoding undoes encoding. *)
Lemma punycode_inverse input : encodable input ->
  exists s, punycodeEncode input = Ret s /\ punycodeDecode s = Ret input
  /\ forall c, c ∈ s -> c ∈ input \/ c = 45 \/ 48 <= c <= 122.
Proof.
  intros (Hr & Hl & Hx). pose proof (basics_fewer input Hx) as Hb. pose proof (zlen_nonneg (basics input)).
  destruct (encodeLoop_ok input Hr Hl (S (length input)) kInitialN _ 0 kInitialN [] 0 (follows_start input Hr))
    as (ds & cnt & He & Hd & Hc & Hdec); [cbn [h]; unfold zlen in *; lia |].
  exists (prefix input ++ ds). unfold punycodeEncode. rewrite basics_filter.
  replace (existsb _ input) with false.
  2: { symmetry. clear - Hr. induction Hr as [| x l Hx Hl IH]; [done |]. cbn. rewrite IH. unfold kMaxCodepoint in *. lia. }
  replace (zlen (basics input) =? zlen input) with false by lia. split; [exact He |].
  split; cycle 1.
  { intros c [Hc' | Hc']%elem_of_app; [| right; right; by apply (proj1 (list.Forall_forall _ _) Hd)].
    unfold prefix in Hc'. destruct (_ >? 0); [apply elem_of_app in Hc' as [Hc' | ->%list_elem_of_singleton]; [| by right; left] |];
      left; unfold basics in Hc'; by apply list_elem_of_filter in Hc' as [_ ?]. }
  unfold punycodeDecode, prefix. destruct (zlen (basics input) >? 0) eqn:E.
  - rewrite <- app_assoc. cbn [app]. rewrite rfindDash_last by done.
    replace (existsb _ (basics input)) with false.
    2: { symmetry. unfold basics. clear. induction input as [| x l IH]; [done |].
         destruct (decide (x < 128)); [rewrite filter_cons_True by done; cbn; rewrite IH; lia | by rewrite filter_cons_False by done]. }
    destruct (basics input) as [| x bs] eqn:Hbs; [by rewrite zlen_nil in E |].
    replace (length ((x :: bs) ++ 45%Z :: ds)) with (cnt + (length ((x :: bs) ++ 45%Z :: ds) - cnt))%nat; [apply Hdec |].
    rewrite length_app. cbn. lia.
  - assert (Hn : basics input = []) by (apply zlen_0_nil; lia). rewrite Hn in *. cbn [app].
    rewrite rfindDash_none by done. cbn [existsb].
    replace (length ds) with (cnt + (length ds - cnt))%nat by lia. apply Hdec.
Qed.

(** Encoding and decoding are inverse on labels of at most a hundred code points. *)
Theorem punycode_roundtrip input : encodable input ->
  exists s, punycodeEncode input = Ret s /\ punycodeDecode s = Ret input.
Proof. intros H. destruct (punycode_inverse input H) as (s & H1 & H2 & _). by exists s. Qed.

Lemma punycode_roundtrip_witness : exists s,
  punycodeEncode [0x62; 0xfc; 0x63; 0x68; 0x65; 0x72] = Ret s /\ punycodeDecode s = Ret [0x62; 0xfc; 0x63; 0x68; 0x65; 0x72].
Proof.
  apply punycode_roundtrip. unfold encodable, kMaxCodepoint. split_and!; [| done | right; left; lia].
  repeat constructor; lia.
Defined.

(** The code point of the Punycode decoder wraps at 32 bits before it is compared
    with the largest one: the label xn--sy902716a is read as the letter A. *)
Theorem punycodeDecode_wraps : punycodeDecode (str "sy902716a") = Ret (str "A")
  /\ fromAce (str "xn--sy902716a.com") = Ret (str "A.com").
Proof. split; by vm_compute. Qed.

(** ** Domain names *)

(** A label that comes back from ASCII: plain ASCII that does not look encoded, or UTF-8
    of at most a hundred code points. *)
Definition label_ok (label : list Z) : Prop :=
  is_bytes label /\
  (if pureAscii label then isAceLabel label = false
   else exists cps, utf8ToCodepoints label = Some cps /\ zlen cps <= 100).

Fixpoint join (labels : list (list Z)) : list Z :=
  match labels with
  | [] => []
  | [label] => label
  | label :: labels' => label ++ dot :: join labels'
  end.

Lemma split_nonempty text : split dot text <> [].
Proof. destruct text as [| c text]; [done |]. cbn. case_test; [done |]. by destruct (split dot text). Qed.

Lemma join_split text : join (split dot text) = text.
Proof.
  induction text as [| c text IH]; [done |]. cbn [split]. pose proof (split_nonempty text) as Hn. case_test.
  - subst c. destruct (split dot text) as [| part parts]; [done |]. cbn [join] in *. by rewrite IH.
  - destruct (split dot text) as [| part parts]; [done |]. destruct parts; cbn [join app] in *; by rewrite IH.
Qed.

Lemma split_no_dot text : Forall (fun l => dot ∉ l) (split dot text).
Proof.
  induction text as [| c text IH]; cbn; [repeat constructor; apply not_elem_of_nil |]. case_test.
  - constructor; [apply not_elem_of_nil | done].
  - destruct (split dot text) as [| part parts]; [by repeat constructor; rewrite list_elem_of_singleton |].
    inversion IH; subst. constructor; [| done]. rewrite not_elem_of_cons. by split.
Qed.

Lemma split_join labels : labels <> [] -> Forall (fun l => dot ∉ l) labels -> split dot (join labels) = labels.
Proof.
  assert (Hone : forall l, dot ∉ l -> split dot l = [l]).
  { intros l. induction l as [| c l IH]; [done |]. rewrite not_elem_of_cons. intros [Hc Hl]. cbn.
    rewrite IH by done. by replace (c =? dot) with false by lia. }
  induction labels as [| l labels IH]; [done |]. intros _ Hf. inversion Hf as [| ? ? Hl Hls]; subst.
  destruct labels as [| l' labels]; [by apply Hone |]. change (join (l :: l' :: labels)) with (l ++ dot :: join (l' :: labels)).
  specialize (IH ltac:(done) Hls). clear Hone Hf. induction l as [| c l IHl].
  - cbn [app split]. rewrite Z.eqb_refl. by rewrite IH.
  - rewrite not_elem_of_cons in Hl. destruct Hl as [Hc Hl]. cbn [app split].
    replace (c =? dot) with false by lia. by rewrite (IHl Hl).
Qed.

(** ASCII code points are their own encoding. *)
Lemma ascii_utf8 cps : Forall scalar cps -> Forall (fun cp => cp < 128) cps -> codepointsToUtf8 cps = cps.
Proof.
  unfold codepointsToUtf8. induction 1 as [| cp cps [Hr _] Hs IH]; intros Ha; [done |].
  inversion Ha as [| ? ? Hc Ha']; subst. cbn. rewrite IH by done. unfold encodeCodepoint, wrapu.
  test_true. by rewrite Z.mod_small by lia.
Qed.

Lemma ascii_byte cp cps : 0 <= cp < 128 -> cp ∈ cps -> cp ∈ codepointsToUtf8 cps.
Proof.
  intros Hc. unfold codepointsToUtf8. induction cps as [| x cps IH]; [by intros ?%not_elem_of_nil |].
  cbn. rewrite elem_of_app, elem_of_cons. intros [<- | Hin]; [left | right; by apply IH].
  unfold encodeCodepoint, wrapu. test_true. rewrite Z.mod_small by lia. constructor.
Qed.

(** One label, there and back. *)
Lemma label_roundtrip label : label_ok label -> dot ∉ label -> exists l', toAceLabel label = Ret l'
  /\ fromAceLabel l' = Ret label /\ dot ∉ l' /\ (label = [] <-> l' = []).
Proof.
  intros [Hb Hok] Hdot. unfold toAceLabel. destruct (pureAscii label) eqn:Ha.
  { exists label. unfold fromAceLabel. rewrite Hok. by split_and!. }
  destruct Hok as (cps & Hu & Hl). rewrite Hu. destruct (utf8_sound label cps Hb Hu) as [Hs He].
  assert (Hx : encodable cps).
  { split_and!; [eapply Forall_impl, Hs; intros cp [? _]; unfold kMaxCodepoint; lia | done |].
    destruct (decide (Exists (fun cp => 128 <= cp) cps)) as [| Hn]; [done |]. exfalso.
    assert (Hall' : Forall (fun cp => cp < 128) cps).
    { apply list.Forall_forall. intros cp Hcp. destruct (decide (cp < 128)); [done |].
      destruct Hn. apply list.Exists_exists. exists cp. split; [done | lia]. }
    rewrite (ascii_utf8 cps Hs Hall') in He. subst cps. enough (pureAscii label = true) by congruence.
    unfold pureAscii. apply Is_true_true, forallb_True, list.Forall_forall. intros c Hc.
    pose proof (proj1 (list.Forall_forall _ _) Hall' c Hc) as Hlt. cbn in Hlt. apply Is_true_true. lia. }
  destruct (punycode_inverse cps Hx) as (s & H1 & H2 & H3). rewrite H1. cbn [mbind result_bind].
  exists (str "xn--" ++ s). split; [done |]. unfold fromAceLabel. split_and!.
  - change (isAceLabel (str "xn--" ++ s)) with true. cbn [negb]. change (drop 4 (str "xn--" ++ s)) with s.
    rewrite H2. cbn. by rewrite He.
  - rewrite elem_of_app. intros [Hin | Hin]; [by vm_compute in Hin; repeat (apply elem_of_cons in Hin as [? | Hin]; [done |]); apply not_elem_of_nil in Hin |].
    destruct (H3 dot Hin) as [Hc | [Hc | Hc]]; [| by vm_compute in Hc | unfold dot in Hc; lia].
    apply Hdot. rewrite <- He. apply ascii_byte; [unfold dot; lia | done].
  - split; [intros ->; by vm_compute in Ha | done].
Qed.

(** Only the last label may be empty. *)
Fixpoint proper (labels : list (list Z)) : Prop :=
  match labels with
  | [] | [_] => True
  | label :: labels' => label <> [] /\ proper labels'
  end.

Lemma mapLabels_cons f label labels : label <> [] \/ labels = [] -> (label = [] -> f label = Ret []) ->
  mapLabels f (label :: labels) =
    part ← f label; match labels with [] => Ret part | _ => rest ← mapLabels f labels; Ret (part ++ dot :: rest) end.
Proof.
  intros Hl He. cbn [mapLabels]. destruct label as [| c label]; [| done].
  destruct Hl as [? | ->]; [done |]. by rewrite He.
Qed.

Lemma labels_roundtrip labels : labels <> [] -> Forall label_ok labels -> Forall (fun l => dot ∉ l) labels -> proper labels ->
  exists labels', mapLabels toAceLabel labels = Ret (join labels') /\ mapLabels fromAceLabel labels' = Ret (join labels)
  /\ labels' <> [] /\ Forall (fun l => dot ∉ l) labels' /\ (labels = [[]] <-> labels' = [[]]).
Proof.
  induction labels as [| label labels IH]; [done |]. intros _ Hok Hdot Hp.
  inversion Hok as [| ? ? Hl Hls]; inversion Hdot as [| ? ? Hd Hds]; subst.
  destruct (label_roundtrip label Hl Hd) as (l' & H1 & H2 & H3 & H4).
  assert (Hto : label = [] -> toAceLabel label = Ret []) by (by intros ->).
  assert (Hfrom : l' = [] -> fromAceLabel l' = Ret []) by (by intros ->).
  destruct labels as [| label2 labels].
  - exists [l']. rewrite !mapLabels_cons by (done || by right). rewrite H1, H2. cbn.
    split_and!; try done; [by repeat constructor |]. split; intros [= E]; f_equal; by apply H4.
  - destruct Hp as [Hne Hp]. destruct (IH ltac:(done) Hls Hds Hp) as (ls' & G1 & G2 & G3 & G4 & _).
    destruct ls' as [| x ls']; [done |]. exists (l' :: x :: ls').
    rewrite (mapLabels_cons toAceLabel label), (mapLabels_cons fromAceLabel l') by (done || left; tauto). rewrite H1, H2, G1, G2. cbn [mbind result_bind].
    split_and!; try done. by constructor.
Qed.

(** C30: A domain name whose labels are ASCII without the prefix xn-- or UTF-8 of at most
    100 code points, only the last perhaps empty, is turned into its ASCII form and back
    unchanged, through the variable-length numbers and the adapting bias of Punycode. *)
Theorem domain_name_roundtrip domain : Forall label_ok (split dot domain) -> proper (split dot domain) ->
  exists s, toAce domain = Ret s /\ fromAce s = Ret domain.
Proof.
  intros Hok Hp. destruct (labels_roundtrip (split dot domain) (split_nonempty domain) Hok (split_no_dot domain) Hp)
    as (ls & H1 & H2 & H3 & H4 & H5). rewrite join_split in H2.
  destruct domain as [| c domain]; [by exists [] |]. exists (join ls). unfold toAce. rewrite H1. split; [done |].
  unfold fromAce. destruct (join ls) as [| c' s] eqn:Hj.
  - exfalso. destruct ls as [| l [| l2 ls]]; [done | | by destruct l]. cbn in Hj. subst l.
    assert (split dot (c :: domain) = [[]]) as E by (by apply H5).
    pose proof (join_split (c :: domain)) as Hjs. by rewrite E in Hjs.
  - rewrite <- Hj, split_join, H2 by done. done.
Qed.

Lemma domain_name_roundtrip_witness : exists s,
  toAce [0x62; 0xc3; 0xbc; 46; 0x64; 0x65; 46] = Ret s /\ fromAce s = Ret [0x62; 0xc3; 0xbc; 46; 0x64; 0x65; 46].
Proof.
  apply domain_name_roundtrip; [| done].
  assert (H : split dot [0x62; 0xc3; 0xbc; 46; 0x64; 0x65; 46] = [[0x62; 0xc3; 0xbc]; [0x64; 0x65]; []]) by done.
  rewrite H. constructor; [| constructor; [| constructor; [| constructor]]].
  - split; [closed_bytes |]. exists [0x62; 0xfc]. by vm_compute.
  - split; [closed_bytes | done].
  - split; [closed_bytes | done].
Defined.
