(* ===== verification/Base64.v ===== *)
(** * Base64 ([src/src/utils/string_utils.cpp])

    [bytesToBase64] and [base64ToBytes], whose accumulator is an [int] that is shifted
    without ever being reduced: its low bits are all that is read, so the wrap-around
    of a 32-bit machine does not show. *)

From S2P Require Import Prelude.

(** ** The code *)

Definition alphabet : list Z := str "ABCDEFGHIJKLMNOPQRSTUVWXYZabcdefghijklmnopqrstuvwxyz0123456789+/".

(** [table[i & 63]] *)
Definition symbol (i : Z) : Z := default 0 (alphabet !! Z.to_nat (Z.land i 63)).

Fixpoint bytesToBase64 (data : list Z) : list Z :=
  match data with
  | b0 :: b1 :: b2 :: data' =>
      let n := Z.lor (Z.lor (Z.shiftl b0 16) (Z.shiftl b1 8)) b2 in
      symbol (Z.shiftr n 18) :: symbol (Z.shiftr n 12) :: symbol (Z.shiftr n 6) :: symbol n :: bytesToBase64 data'
  | [b0; b1] =>
      let n := Z.lor (Z.shiftl b0 16) (Z.shiftl b1 8) in
      [symbol (Z.shiftr n 18); symbol (Z.shiftr n 12); symbol (Z.shiftr n 6); 61]
  | [b0] =>
      let n := Z.shiftl b0 16 in
      [symbol (Z.shiftr n 18); symbol (Z.shiftr n 12); 61; 61]
  | [] => []
  end.

(** The 256 entries of the table of [base64ToBytes], by the ranges it has. *)
Definition value (ch : Z) : Z :=
  if (65 <=? ch) && (ch <=? 90) then ch - 65
  else if (97 <=? ch) && (ch <=? 122) then ch - 97 + 26
  else if (48 <=? ch) && (ch <=? 57) then ch - 48 + 52
  else if ch =? 43 then 62 else if ch =? 47 then 63 else -1.

(** The body of the loop: [buffer], [bits], and what is pushed. *)
Definition push (st : Z * Z * list Z) (ch : Z) : Z * Z * list Z :=
  let '(buffer, bits, out) := st in
  if (ch =? 61) || (ch =? 10) || (ch =? 13) || (ch =? 32) || (ch =? 9) then st
  else if value ch <? 0 then st
  else
    let buffer := Z.lor (wraps 32 (Z.shiftl buffer 6)) (value ch) in
    let bits := bits + 6 in
    if bits >=? 8 then (buffer, bits - 8, out ++ [Z.land (Z.shiftr buffer (bits - 8)) 0xff])
    else (buffer, bits, out).

Definition base64ToBytes (data : list Z) : list Z := (fold_left push data (0, 0, [])).2.

(** ** One symbol *)

Lemma symbol_value i : value (symbol i) = i mod 64 /\ 43 <= symbol i <= 122 /\ symbol i <> 61.
Proof.
  unfold symbol. rewrite land_63. pose proof (Z.mod_pos_bound i 64 ltac:(lia)) as Hb.
  replace (i mod 64) with (Z.of_nat (Z.to_nat (i mod 64))) at 2 by lia.
  assert (Hn : (Z.to_nat (i mod 64) < 64)%nat) by lia. revert Hn. generalize (Z.to_nat (i mod 64)). clear. intros n Hn.
  do 64 (destruct n as [| n]; [by vm_compute |]). lia.
Qed.

(** The shift loses only high bits. *)
Lemma shifted buffer v : 0 <= v < 64 -> exists k, Z.lor (wraps 32 (Z.shiftl buffer 6)) v = buffer * 64 + v + k * 2 ^ 32.
Proof.
  intros Hv. rewrite shiftl_mul by lia. change (2 ^ 6) with 64. unfold wraps. change (2 ^ (32 - 1)) with 2147483648.
  change (2 ^ 32) with 4294967296. set (w := (buffer * 64 + 2147483648) mod 4294967296 - 2147483648).
  exists (- ((buffer * 64 + 2147483648) / 4294967296)). assert (Hw : w = w / 64 * 2 ^ 6) by (change (2 ^ 6) with 64; unfold w; dm_lia).
  rewrite Hw, lor_high, <- Hw by lia. unfold w. pose proof (Z.div_mod (buffer * 64 + 2147483648) 4294967296). lia.
Qed.

(** The accumulator after a symbol, modulo the bits that wait. *)
Lemma push_symbol buffer bits out i p : bits = 0 \/ bits = 2 \/ bits = 4 \/ bits = 6 -> buffer mod 2 ^ bits = p ->
  exists buffer', push (buffer, bits, out) (symbol i) =
    (if bits <? 2 then (buffer', bits + 6, out)
     else (buffer', bits - 2, out ++ [(p * 64 + i mod 64) / 2 ^ (bits - 2)]))
  /\ buffer' mod 2 ^ (if bits <? 2 then bits + 6 else bits - 2) =
     (p * 64 + i mod 64) mod 2 ^ (if bits <? 2 then bits + 6 else bits - 2).
Proof.
  intros Hb Hp. destruct (symbol_value i) as (Hv & Hr & Hne). pose proof (Z.mod_pos_bound i 64 ltac:(lia)) as Hm.
  unfold push. replace (_ || _) with false by lia. rewrite Hv. replace (i mod 64 <? 0) with false by lia.
  set (v := i mod 64) in *. clearbody v. clear Hv Hr Hne. destruct (shifted buffer v Hm) as [k ->].
  change (2 ^ 32) with 4294967296. set (b := buffer * 64 + v + k * 4294967296). exists b.
  destruct Hb as [-> | [-> | [-> | ->]]];
    [change (0 + 6) with 6 | change (2 + 6) with 8 | change (4 + 6) with 10 | change (6 + 6) with 12].
  - change (2 ^ 0) with 1 in Hp. change (0 <? 2) with true. change (6 >=? 8) with false.
    split; [done |]. change (2 ^ (0 + 6)) with 64. unfold b. dm_lia.
  - change (2 ^ 2) with 4 in Hp. change (2 <? 2) with false. change (8 >=? 8) with true. rewrite land_255, shiftr_div by lia.
    change (2 ^ (8 - 8)) with 1. change (2 ^ (2 - 2)) with 1. split; [do 3 f_equal; unfold b; dm_lia | unfold b; dm_lia].
  - change (2 ^ 4) with 16 in Hp. change (4 <? 2) with false. change (10 >=? 8) with true. rewrite land_255, shiftr_div by lia.
    change (2 ^ (10 - 8)) with 4. change (2 ^ (4 - 2)) with 4. split; [do 3 f_equal; unfold b; dm_lia | unfold b; dm_lia].
  - change (2 ^ 6) with 64 in Hp. change (6 <? 2) with false. change (12 >=? 8) with true. rewrite land_255, shiftr_div by lia.
    change (2 ^ (12 - 8)) with 16. change (2 ^ (6 - 2)) with 16.
    assert (exists m, b = p * 64 + v + m * 4096) as [m ->] by (exists (buffer / 64 + k * 1048576); unfold b; dm_lia).
    split; [do 3 f_equal; dm_lia | dm_lia].
Qed.

(** ** Groups of three bytes *)

Lemma push_two buffer out i j : exists buffer',
  fold_left push [symbol i; symbol j] (buffer, 0, out) = (buffer', 4, out ++ [(i mod 64 * 64 + j mod 64) / 16])
  /\ buffer' mod 16 = j mod 16.
Proof.
  destruct (push_symbol buffer 0 out i 0) as (b & Hb & Hm); [auto | apply Z.mod_1_r |].
  cbn [fold_left]. rewrite Hb. change (0 <? 2) with true in *. cbn iota in *. change (0 + 6) with 6 in *.
  destruct (push_symbol b 6 out j (i mod 64)) as (b' & Hb' & Hm'); [auto | rewrite Hm; change (2 ^ 6) with 64; dm_lia |].
  exists b'. rewrite Hb'. change (6 <? 2) with false in *. cbn iota in *. change (2 ^ (6 - 2)) with 16 in *.
  split; [done | dm_lia].
Qed.

Lemma push_three buffer out i j k : exists buffer',
  fold_left push [symbol i; symbol j; symbol k] (buffer, 0, out) =
    (buffer', 2, out ++ [(i mod 64 * 64 + j mod 64) / 16; (j mod 16 * 64 + k mod 64) / 4])
  /\ buffer' mod 4 = k mod 4.
Proof.
  destruct (push_two buffer out i j) as (b & Hb & Hm). cbn [fold_left] in *. rewrite Hb.
  destruct (push_symbol b 4 (out ++ [(i mod 64 * 64 + j mod 64) / 16]) k (j mod 16)) as (b' & Hb' & Hm'); [auto | done |].
  exists b'. rewrite Hb'. change (4 <? 2) with false in *. cbn iota in *. change (2 ^ (4 - 2)) with 4 in *.
  rewrite <- app_assoc. split; [done | dm_lia].
Qed.

Lemma push_four buffer out i j k l : exists buffer',
  fold_left push [symbol i; symbol j; symbol k; symbol l] (buffer, 0, out) =
    (buffer', 0, out ++ [(i mod 64 * 64 + j mod 64) / 16; (j mod 16 * 64 + k mod 64) / 4; k mod 4 * 64 + l mod 64]).
Proof.
  destruct (push_three buffer out i j k) as (b & Hb & Hm). cbn [fold_left] in *. rewrite Hb.
  destruct (push_symbol b 2 (out ++ [(i mod 64 * 64 + j mod 64) / 16; (j mod 16 * 64 + k mod 64) / 4]) l (k mod 4))
    as (b' & Hb' & _); [auto | done |].
  exists b'. rewrite Hb'. change (2 <? 2) with false in *. cbn iota. change (2 ^ (2 - 2)) with 1.
  rewrite Z.div_1_r, <- app_assoc. done.
Qed.

(** Padding is skipped. *)
Lemma push_padding st : push st 61 = st.
Proof. by destruct st as [[??] ?]. Qed.

(** The group's number. *)
Lemma group_number b0 b1 b2 : is_byte b0 -> is_byte b1 -> is_byte b2 ->
  Z.lor (Z.lor (Z.shiftl b0 16) (Z.shiftl b1 8)) b2 = b0 * 65536 + b1 * 256 + b2.
Proof.
  unfold is_byte. intros. rewrite (lor_shiftl b0), shiftl_mul by (rewrite ?shiftl_mul; lia).
  change (2 ^ 16) with 65536. change (2 ^ 8) with 256.
  replace (b0 * 65536 + b1 * 256) with ((b0 * 256 + b1) * 2 ^ 8) by lia. rewrite lor_high; lia.
Qed.

Lemma decode_encoded data : forall buffer out, is_bytes data ->
  exists buffer' bits, fold_left push (bytesToBase64 data) (buffer, 0, out) = (buffer', bits, out ++ data).
Proof.
  induction data as [data IH] using (induction_ltof1 _ length). intros buffer out Hd.
  destruct data as [| b0 [| b1 [| b2 data]]].
  - exists buffer, 0. by rewrite app_nil_r.
  - apply Forall_cons_1 in Hd as [H0 _]. cbn [bytesToBase64]. set (n := Z.shiftl b0 16).
    destruct (push_two buffer out (Z.shiftr n 18) (Z.shiftr n 12)) as (b & Hb & _). cbn [fold_left] in *.
    rewrite Hb, !push_padding. exists b, 4. do 3 f_equal. unfold n, is_byte in *. rewrite !shiftr_div, shiftl_mul by lia.
    change (2 ^ 18) with 262144. change (2 ^ 12) with 4096. change (2 ^ 16) with 65536. dm_lia.
  - apply Forall_cons_1 in Hd as [H0 Hd]. apply Forall_cons_1 in Hd as [H1 _]. cbn [bytesToBase64].
    rewrite <- (Z.lor_0_r (Z.lor (Z.shiftl b0 16) (Z.shiftl b1 8))), group_number by (done || (unfold is_byte; lia)). set (n := _ + _).
    destruct (push_three buffer out (Z.shiftr n 18) (Z.shiftr n 12) (Z.shiftr n 6)) as (b & Hb & _). cbn [fold_left] in *.
    rewrite Hb, !push_padding. exists b, 2. unfold is_byte in *. rewrite !shiftr_div by lia.
    change (2 ^ 18) with 262144. change (2 ^ 12) with 4096. change (2 ^ 6) with 64. unfold n. repeat f_equal; dm_lia.
  - apply Forall_cons_1 in Hd as [H0 Hd]. apply Forall_cons_1 in Hd as [H1 Hd]. apply Forall_cons_1 in Hd as [H2 Hd].
    cbn [bytesToBase64]. rewrite group_number by done. set (n := _ + _).
    destruct (push_four buffer out (Z.shiftr n 18) (Z.shiftr n 12) (Z.shiftr n 6) n) as (b & Hb). cbn [fold_left] in *.
    rewrite Hb. destruct (IH data ltac:(unfold ltof; cbn; lia) b (out ++ [b0; b1; b2]) Hd) as (b' & bits & Hr).
    exists b', bits. rewrite <- app_assoc in Hr. cbn [app] in Hr. rewrite <- Hr. f_equal. unfold is_byte in *. rewrite !shiftr_div by lia.
    change (2 ^ 18) with 262144. change (2 ^ 12) with 4096. change (2 ^ 6) with 64. unfold n. repeat f_equal; dm_lia.
Qed.

(** ** The round trip *)

(** What is encoded is decoded to the same bytes, for every length. *)
Theorem base64_roundtrip data : is_bytes data -> base64ToBytes (bytesToBase64 data) = data.
Proof. intros Hd. unfold base64ToBytes. by destruct (decode_encoded data 0 [] Hd) as (b & bits & ->). Qed.

Lemma base64_roundtrip_witness :
  is_bytes (str "qtng!") /\ bytesToBase64 (str "qtng!") = str "cXRuZyE=" /\
  base64ToBytes (bytesToBase64 (str "qtng!")) = str "qtng!".
Proof.
  assert (H : is_bytes (str "qtng!")) by closed_bytes.
  split; [exact H | split; [by vm_compute | exact (base64_roundtrip _ H)]].
Defined.
