(* ===== verification/NoiseSocket.v ===== *)
(** * Noise over a stream socket

    [NoiseSocket] of [src/src/noise.cpp]: every message of the handshake and every
    [sendall] is a frame of a 16-bit length and its bytes on the stream of another
    socket. Then two such sockets, each run by a coroutine that calls [handshake] and
    afterwards [sendall] and [recv], on a network that delivers the bytes in pieces of
    any size. *)

From S2P Require Import Prelude CryptoApi NoiseCrypto Noise.

(** ** The socket below *)

(** What a [SocketLike] has: the bytes that have arrived, whether its stream has ended
    behind them, and how many more bytes it takes before it breaks ([None]: it does not). *)
Record Backend : Type := mkBackend { arrived : list Z; ended : bool; credit : option Z }.

Definition set_arrived (l : list Z) (k : Backend) : Backend := mkBackend l k.(ended) k.(credit).
Definition set_credit (c : option Z) (k : Backend) : Backend := mkBackend k.(arrived) k.(ended) c.

(** [sendall]: whether all bytes were taken, and those that went out. *)
Definition backendSend (data : list Z) (k : Backend) : bool * list Z * Backend :=
  match k.(credit) with
  | None => (true, data, k)
  | Some c =>
      if zlen data <=? c then (true, data, set_credit (Some (c - zlen data)) k)
      else (false, take (Z.to_nat c) data, set_credit (Some 0) k)
  end.

(** An error text. *)
Definition text (m : String.string) : String.string := m.
Arguments text m%_string_scope.

(** A call that reads either blocks or returns. *)
Inductive Outcome (A : Type) : Type := Blocked | Returns (a : A).
Arguments Blocked {A}.
Arguments Returns {A} a.

(** [recvall], which returns fewer bytes only at the end of the stream. *)
Definition backendRecv (n : Z) (k : Backend) : Outcome (list Z * Backend) :=
  if n <=? zlen k.(arrived) then
    Returns (take (Z.to_nat n) k.(arrived), set_arrived (drop (Z.to_nat n) k.(arrived)) k)
  else if k.(ended) then Returns (k.(arrived), set_arrived [] k)
  else Blocked.

(** ** Frames *)

(** An error, if any, and the bytes that went out. *)
Definition writeFrame (payload : list Z) (k : Backend) : option String.string * list Z * Backend :=
  if zlen payload >? kMaxFramePayload then (Some (text "frame too large or null socket"), [], k) else
  let len := wrapu 16 (zlen payload) in
  let '(ok, hdr, k) := backendSend [Z.land (Z.shiftr len 8) 0xff; Z.land len 0xff] k in
  if negb ok then (Some (text "failed to send frame header"), hdr, k)
  else if negb (zlen payload =? 0) then
    let '(ok, body, k) := backendSend payload k in
    (if ok : bool then None else Some (text "failed to send frame payload"), hdr ++ body, k)
  else (None, hdr, k).

Definition readFrame (k : Backend) : Outcome ((String.string + list Z) * Backend) :=
  match backendRecv 2 k with
  | Blocked => Blocked
  | Returns ([h0; h1], k) =>
      let len := Z.lor (Z.shiftl h0 8) h1 in
      if len >? 0 then
        match backendRecv len k with
        | Blocked => Blocked
        | Returns (payload, k) =>
            if zlen payload =? len then Returns (inr payload, k)
            else Returns (inl (text "failed to read frame payload"), k)
        end
      else Returns (inr [], k)
  | Returns (_, k) => Returns (inl (text "failed to read frame header"), k)
  end.

(** ** The socket *)

(** [NoiseSocketPrivate] *)
Record NoiseSocket : Type := mkSocket {
  ns_hs : HS;
  ns_send : CipherState;
  ns_recv : CipherState;
  ns_role : NoiseRole;
  ns_ready : bool;
  ns_gotPeerPayload : bool;
  ns_peerPayload : list Z;
  ns_error : String.string;
  recvBuf : list Z
}.

(** Assignments to the members. *)
Definition set_ns_error (m : String.string) (d : NoiseSocket) : NoiseSocket :=
  mkSocket d.(ns_hs) d.(ns_send) d.(ns_recv) d.(ns_role) d.(ns_ready) d.(ns_gotPeerPayload) d.(ns_peerPayload) m d.(recvBuf).
Arguments set_ns_error m%_string_scope d.
Definition set_ns_hs (hs : HS) (d : NoiseSocket) : NoiseSocket :=
  mkSocket hs d.(ns_send) d.(ns_recv) d.(ns_role) d.(ns_ready) d.(ns_gotPeerPayload) d.(ns_peerPayload) d.(ns_error) d.(recvBuf).
Definition set_ns_ciphers (s r : CipherState) (ready : bool) (d : NoiseSocket) : NoiseSocket :=
  mkSocket d.(ns_hs) s r d.(ns_role) ready d.(ns_gotPeerPayload) d.(ns_peerPayload) d.(ns_error) d.(recvBuf).
Definition set_ns_payload (p : list Z) (d : NoiseSocket) : NoiseSocket :=
  mkSocket d.(ns_hs) d.(ns_send) d.(ns_recv) d.(ns_role) d.(ns_ready) true p d.(ns_error) d.(recvBuf).
Definition set_recvBuf (b : list Z) (d : NoiseSocket) : NoiseSocket :=
  mkSocket d.(ns_hs) d.(ns_send) d.(ns_recv) d.(ns_role) d.(ns_ready) d.(ns_gotPeerPayload) d.(ns_peerPayload) d.(ns_error) b.

(** Where a coroutine is in [handshake]: before it, at the top of its loop with
    [sentLocalPayload], or back from it. *)
Inductive Phase : Type := Begin | Looping (sentLocalPayload : bool) | Returned (ok : bool).

Section Socket.
Context `{C : NoiseCrypto}.

Definition ns_initialize (config : NoiseConfig) : bool * NoiseSocket :=
  let '(ok, hs) := initialize config in
  let d := mkSocket hs (newCipher config.(cfg_cipher)) (newCipher config.(cfg_cipher)) config.(cfg_role) false false []
             String.EmptyString [] in
  match ok with
  | None => (false, set_ns_error hs.(error) d)
  | Some _ => (true, d)
  end.

Definition splitIfHandshakeComplete (d : NoiseSocket) : bool * NoiseSocket :=
  if negb d.(ns_hs).(complete) then (true, d) else
  let '(o, hs) := split d.(ns_hs) in
  let d := set_ns_hs hs d in
  match o with
  | None => (false, set_ns_ciphers d.(ns_send) d.(ns_recv) false (set_ns_error hs.(error) d))
  | Some (s, r) => (true, set_ns_ciphers s r true d)
  end.

(** The two lambdas of [handshake] *)
Definition sendHandshake (draw : option (list Z)) (hsPayload : list Z) (d : NoiseSocket) (k : Backend) :
  bool * NoiseSocket * list Z * Backend :=
  let '(o, hs) := writeMessage draw hsPayload d.(ns_hs) in
  let d := set_ns_hs hs d in
  match o with
  | None => (false, set_ns_error hs.(error) d, [], k)
  | Some msg =>
      let '(ok, d) := splitIfHandshakeComplete d in
      if negb ok then (false, d, [], k) else
      let '(e, out, k) := writeFrame msg k in
      match e with
      | Some e => (false, set_ns_error e d, out, k)
      | None => (true, d, out, k)
      end
  end.

Definition recvHandshake (d : NoiseSocket) (k : Backend) : Outcome (bool * NoiseSocket * Backend) :=
  match readFrame k with
  | Blocked => Blocked
  | Returns (inl e, k) => Returns (false, set_ns_error e d, k)
  | Returns (inr msg, k) =>
      let '(o, hs) := readMessage msg d.(ns_hs) in
      let d := set_ns_hs hs d in
      match o with
      | None => Returns (false, set_ns_error hs.(error) d, k)
      | Some peerPayload =>
          let d := if negb d.(ns_gotPeerPayload) then set_ns_payload peerPayload d else d in
          let '(ok, d) := splitIfHandshakeComplete d in
          Returns (ok, d, k)
      end
  end.

(** [while (!d->ready)], and [return d->ready] behind it *)
Definition loopTop (sentLocalPayload : bool) (d : NoiseSocket) : Phase :=
  if d.(ns_ready) then Returned true else Looping sentLocalPayload.

(** [handshake], from where it is to the next time it waits for a frame: one round of its
    loop, or what is before the loop. [draw] is what the generator of keys gives. *)
Definition handshakeTurn (draw : option (list Z)) (payload : list Z) (ph : Phase) (d : NoiseSocket) (k : Backend) :
  Phase * NoiseSocket * list Z * Backend :=
  match ph with
  | Returned _ => (ph, d, [], k)
  | Begin =>
      let d := set_ns_error String.EmptyString d in
      if d.(ns_ready) then (Returned true, d, [], k)
      else if bool_decide (d.(ns_role) = Initiator) then
        let '(ok, d, out, k) := sendHandshake draw payload d k in
        (if ok : bool then loopTop true d else Returned false, d, out, k)
      else (loopTop false d, d, [], k)
  | Looping sent =>
      match recvHandshake d k with
      | Blocked => (ph, d, [], k)
      | Returns (false, d, k) => (Returned false, d, [], k)
      | Returns (true, d, k) =>
          if d.(ns_ready) then (Returned true, d, [], k)
          else
            let '(ok, d, out, k) := sendHandshake draw (if sent then [] else payload) d k in
            (if ok : bool then loopTop true d else Returned false, d, out, k)
      end
  end.

(** [send] is the same. The data are not longer than an [int32_t] can say. *)
Definition sendall (data : list Z) (d : NoiseSocket) (k : Backend) : Z * NoiseSocket * list Z * Backend :=
  let d := set_ns_error String.EmptyString d in
  if negb d.(ns_ready) then (-1, set_ns_error "handshake not complete" d, [], k) else
  let '(wire, _, c) := encryptWithAd [] data d.(ns_send) in
  let d := set_ns_ciphers c d.(ns_recv) d.(ns_ready) d in
  if zlen wire <? kTagLen then (-1, set_ns_error "encrypt failed" d, [], k) else
  let '(e, out, k) := writeFrame wire k in
  match e with
  | Some e => (-1, set_ns_error e d, out, k)
  | None => (zlen data, d, out, k)
  end.

(** The end of [recv] *)
Definition takeBuffered (size : Z) (d : NoiseSocket) (k : Backend) : Z * list Z * NoiseSocket * Backend :=
  let n := Z.min size (zlen d.(recvBuf)) in
  (n, take (Z.to_nat n) d.(recvBuf), set_recvBuf (drop (Z.to_nat n) d.(recvBuf)) d, k).

(** What is returned, and the bytes written to the caller's memory. *)
Definition recv (size : Z) (d : NoiseSocket) (k : Backend) : Outcome (Z * list Z * NoiseSocket * Backend) :=
  if size <=? 0 then Returns (-1, [], d, k)
  else if negb (zlen d.(recvBuf) =? 0) then Returns (takeBuffered size d k)
  else
    match readFrame k with
    | Blocked => Blocked
    | Returns (inl e, k) => Returns (-1, [], set_ns_error e d, k)
    | Returns (inr frame, k) =>
        if negb d.(ns_ready) then Returns (-1, [], set_ns_error "handshake not complete" d, k) else
        let '(msg, c) := decryptWithAd [] frame d.(ns_recv) in
        let d := set_ns_ciphers d.(ns_send) c d.(ns_ready) d in
        if negb c.(lastDecryptOk) then Returns (-1, [], set_ns_error "decrypt failed" d, k) else
        let d := set_recvBuf msg d in
        if zlen msg =? 0 then Returns (0, [], d, k) else Returns (takeBuffered size d k)
    end.

(** ** Two sockets and the network between them *)

(** A side: its socket, where its coroutine is, the bytes on their way to it, the payload
    it gives to [handshake], the bytes that [recv] has given it and those that [sendall]
    has taken from it. *)
Record Peer : Type := mkPeer {
  sock : NoiseSocket;
  phase : Phase;
  back : Backend;
  travelling : list Z;
  payload : list Z;
  received : list Z;
  sent : list Z
}.

Record System : Type := mkSystem { initiator : Peer; responder : Peer }.

Definition peer (ro : NoiseRole) (S : System) : Peer := match ro with Initiator => S.(initiator) | Responder => S.(responder) end.
Definition set_peer (ro : NoiseRole) (p : Peer) (S : System) : System :=
  match ro with Initiator => mkSystem p S.(responder) | Responder => mkSystem S.(initiator) p end.
Definition opposite (ro : NoiseRole) : NoiseRole := match ro with Initiator => Responder | Responder => Initiator end.

(** Bytes that go out of [ro] travel to the other side. *)
Definition put_on_wire (ro : NoiseRole) (out : list Z) (S : System) : System :=
  let p := peer (opposite ro) S in
  set_peer (opposite ro) (mkPeer p.(sock) p.(phase) p.(back) (p.(travelling) ++ out) p.(payload) p.(received) p.(sent)) S.

Inductive Action : Type :=
| Arrive (ro : NoiseRole) (n : nat)                (* [n] of the bytes on the way to [ro] arrive *)
| Turn (ro : NoiseRole) (draw : list Z)            (* the coroutine of [ro] runs on in [handshake] *)
| Send (ro : NoiseRole) (data : list Z)            (* back from it, it calls [sendall] *)
| Recv (ro : NoiseRole) (size : Z).                (* or [recv] *)

Definition exec (a : Action) (S : System) : System :=
  match a with
  | Arrive ro n =>
      let p := peer ro S in
      set_peer ro (mkPeer p.(sock) p.(phase) (set_arrived (p.(back).(arrived) ++ take n p.(travelling)) p.(back))
                     (drop n p.(travelling)) p.(payload) p.(received) p.(sent)) S
  | Turn ro draw =>
      let p := peer ro S in
      let '(ph, d, out, k) := handshakeTurn (Some draw) p.(payload) p.(phase) p.(sock) p.(back) in
      put_on_wire ro out (set_peer ro (mkPeer d ph k p.(travelling) p.(payload) p.(received) p.(sent)) S)
  | Send ro data =>
      let p := peer ro S in
      match p.(phase) with
      | Returned true =>
          let '(ret, d, out, k) := sendall data p.(sock) p.(back) in
          put_on_wire ro out (set_peer ro (mkPeer d p.(phase) k p.(travelling) p.(payload) p.(received)
                                             (if ret <? 0 then p.(sent) else p.(sent) ++ data)) S)
      | _ => S
      end
  | Recv ro size =>
      let p := peer ro S in
      match p.(phase) with
      | Returned true =>
          match recv size p.(sock) p.(back) with
          | Blocked => S
          | Returns (_, bytes, d, k) =>
              set_peer ro (mkPeer d p.(phase) k p.(travelling) p.(payload) (p.(received) ++ bytes) p.(sent)) S
          end
      | _ => S
      end
  end.

Definition execs (acts : list Action) (S : System) : System := fold_left (fun S a => exec a S) acts S.

(** Two sockets that are connected, before their coroutines call [handshake]. *)
Definition connected (i r : NoiseSocket) (pi pr : list Z) : System :=
  let fresh d p := mkPeer d Begin (mkBackend [] false None) [] p [] [] in
  mkSystem (fresh i pi) (fresh r pr).
End Socket.
