(* ===== verification/NoiseSocketSystem.v ===== *)
(** * Noise over a stream socket: frames, and two connected sockets in every order of events *)

From S2P Require Import Prelude CryptoApi NoiseCrypto Noise NoiseProofs NoiseTokens NoiseHandshake.
From S2P Require Import NoiseProps NoiseSessionProofs NoiseSocket.

(** ** Frames and the bytes they carry *)

(** ** Frames *)

Definition frame_of (p : list Z) : list Z := zlen p / 256 :: zlen p mod 256 :: p.

(** A socket that neither ends nor breaks. *)
Definition sound (k : Backend) : Prop := k.(ended) = false /\ k.(credit) = None.

Lemma writeFrame_sound p k : sound k -> zlen p <= 65535 -> writeFrame p k = (None, frame_of p, k).
Proof.
  intros [_ Hc] Hp. pose proof (zlen_nonneg p). unfold writeFrame, kMaxFramePayload, backendSend, wrapu. rewrite Hc.
  replace (zlen p >? 65535) with false by lia. change (2 ^ 16) with 65536. rewrite (Z.mod_small (zlen p)) by lia.
  rewrite !land_255, shiftr_div by lia. change (2 ^ 8) with 256. cbn [negb]. unfold frame_of.
  replace (zlen p / 256 mod 256) with (zlen p / 256) by dm_lia.
  destruct (Z.eqb_spec (zlen p) 0) as [E | E]; cbn [negb app].
  - destruct p; [done |]. exfalso. revert E. rewrite zlen_cons. zlen_lia.
  - by rewrite Hc.
Qed.

Lemma frame_length (p : list Z) : 0 <= zlen p <= 65535 -> Z.lor (Z.shiftl (zlen p / 256) 8) (zlen p mod 256) = zlen p.
Proof.
  intros Hp. rewrite lor_shiftl by (try lia; apply Z.mod_pos_bound; lia). change (2 ^ 8) with 256. dm_lia.
Qed.

Lemma backendRecv_app l rest k : k.(arrived) = l ++ rest -> backendRecv (zlen l) k = Returns (l, set_arrived rest k).
Proof.
  intros E. unfold backendRecv. rewrite E, zlen_app. pose proof (zlen_nonneg rest).
  replace (zlen l <=? zlen l + zlen rest) with true by lia. by rewrite zlen_to_nat, take_app_length, drop_app_length.
Qed.

Lemma readFrame_frame p rest k : zlen p <= 65535 -> k.(arrived) = frame_of p ++ rest ->
  readFrame k = Returns (inr p, set_arrived rest k).
Proof.
  intros Hp E. pose proof (zlen_nonneg p). unfold readFrame.
  rewrite (backendRecv_app [zlen p / 256; zlen p mod 256] (p ++ rest) k E : backendRecv 2 k = _).
  rewrite frame_length by lia. destruct (Z.gtb_spec (zlen p) 0) as [Hz | Hz].
  - rewrite (backendRecv_app p rest (set_arrived (p ++ rest) k) eq_refl), Z.eqb_refl. done.
  - destruct p; [done |]. exfalso. revert Hz. rewrite zlen_cons. zlen_lia.
Qed.

Lemma backendRecv_short n k : sound k -> zlen k.(arrived) < n -> backendRecv n k = Blocked.
Proof. intros [He _] Hn. unfold backendRecv. by replace (n <=? _) with false by lia; rewrite He. Qed.

(** The beginning of a stream that starts with a frame: the call waits for the frame, or
    has all of it. *)
Lemma readFrame_prefix p rest tail k : sound k -> zlen p <= 65535 -> k.(arrived) ++ tail = frame_of p ++ rest ->
  (readFrame k = Blocked /\ tail <> []) \/
  (exists rest', k.(arrived) = frame_of p ++ rest' /\ rest = rest' ++ tail /\ readFrame k = Returns (inr p, set_arrived rest' k)).
Proof.
  intros Hk Hp E. pose proof (zlen_nonneg p).
  destruct (decide (length (frame_of p) <= length k.(arrived))%nat) as [Hl | Hl].
  - right. exists (drop (length (frame_of p)) k.(arrived)).
    assert (Ea : k.(arrived) = frame_of p ++ drop (length (frame_of p)) k.(arrived)).
    { rewrite <- (take_drop (length (frame_of p)) k.(arrived)) at 1. f_equal.
      apply (f_equal (take (length (frame_of p)))) in E. by rewrite take_app_le, take_app_length in E. }
    split; [done |]. split; [| by apply readFrame_frame].
    rewrite Ea, <- app_assoc in E. by apply app_inv_head in E.
  - left. split; [| intros ->; apply Hl; rewrite app_nil_r in E; rewrite E, length_app; lia].
    unfold readFrame. destruct (Z.lt_ge_cases (zlen k.(arrived)) 2) as [H2 | H2]; [by rewrite backendRecv_short |].
    destruct k.(arrived) as [| h0 [| h1 a]] eqn:Ea; [zlen_lia.. |]. cbn [app frame_of] in E. injection E as -> -> E.
    rewrite (backendRecv_app [zlen p / 256; zlen p mod 256] a k Ea : backendRecv 2 k = _). rewrite frame_length by lia.
    assert (Hz : zlen a < zlen p) by (unfold frame_of in Hl; cbn [length] in Hl; unfold zlen; lia). pose proof (zlen_nonneg a).
    replace (zlen p >? 0) with true by lia. by rewrite backendRecv_short.
Qed.

Lemma readFrame_nothing k : sound k -> k.(arrived) = [] -> readFrame k = Blocked.
Proof. intros Hk E. unfold readFrame. rewrite backendRecv_short; [done | done |]. rewrite E. by vm_compute. Qed.

(** ** The bytes of a direction *)

(** Texts that [sendall] can carry. *)
Definition good_text (p : list Z) : Prop := 0 < zlen p <= 65519.

Section Stream.
Context `{L : NoiseCryptoLaws}.

Definition sealed (c : CipherState) (n : Z) (p : list Z) : list Z :=
  evp_seal c.(algorithm) c.(aeadKey) (encodeNonce c.(algorithm) n) [] p.

Fixpoint frames (c : CipherState) (n : Z) (ps : list (list Z)) : list Z :=
  match ps with [] => [] | p :: ps' => frame_of (sealed c n p) ++ frames c (n + 1) ps' end.

Definition same_key (c c' : CipherState) : Prop := c'.(algorithm) = c.(algorithm) /\ c'.(aeadKey) = c.(aeadKey).

(** One direction: [cs] seals, [cr] opens, [buf] is opened and not yet taken, [wire] is
    on the way, and all of it is what was sent beyond what was received. *)
Definition streaming (cs cr : CipherState) (buf wire received sent : list Z) : Prop :=
  keyed cs /\ keyed cr /\ same_key cs cr /\ 0 <= cr.(nonce) /\
  exists ps, Forall good_text ps /\ wire = frames cs cr.(nonce) ps /\ cs.(nonce) = cr.(nonce) + Z.of_nat (length ps)
    /\ sent = received ++ buf ++ concat ps.

Lemma frames_key c c' n ps : same_key c c' -> frames c' n ps = frames c n ps.
Proof.
  intros [Ha Hk]. revert n. induction ps as [| p ps IH]; intros n; [done |]. cbn [frames]. unfold sealed. by rewrite Ha, Hk, IH.
Qed.

Lemma frames_snoc c n ps p : frames c n (ps ++ [p]) = frames c n ps ++ frame_of (sealed c (n + Z.of_nat (length ps)) p).
Proof.
  revert n. induction ps as [| q ps IH]; intros n; cbn [app frames length].
  - by rewrite app_nil_r, Z.add_0_r.
  - rewrite IH, <- app_assoc. do 4 f_equal. lia.
Qed.

Lemma decrypt_sealed cs cr p : keyed cr -> same_key cs cr -> 0 <= cr.(nonce) < MaxNonce -> zlen p <= INT_MAX - 16 ->
  decryptWithAd [] (sealed cs cr.(nonce) p) cr = (p, withNonce (cr.(nonce) + 1) (withOk true cr)).
Proof.
  intros [Hh Hk] [Ha Hak] Hn Hp. pose proof (zlen_nonneg p).
  unfold decryptWithAd, decryptWithNonce, transportNonceAllowed, kTagLen, aeadOpen, sealed. unfold MaxNonce, INT_MAX in *.
  change (hasKey (withOk false cr)) with (hasKey cr). cbn [algorithm aeadKey withOk nonce].
  rewrite Hh, Hk, evp_seal_length, encodeNonce_length. change (zlen (@nil Z)) with 0. cbn [negb Z.eqb Pos.eqb orb].
  replace (zlen p + 16 <? 16) with false by lia. replace (cr.(nonce) <=? 2 ^ 64 - 2) with true by lia.
  replace (zlen p + 16 >? 2147483647) with false by lia. cbn [negb orb Z.gtb Z.compare].
  rewrite Ha, Hak, evp_open_seal. cbn [lastDecryptOk withOk nonce]. unfold wrapu. by rewrite Z.mod_small by lia.
Qed.

Lemma sendall_frame d k p : keyed d.(ns_send) -> d.(ns_ready) = true -> sound k -> good_text p ->
  0 <= d.(ns_send).(nonce) < MaxNonce ->
  sendall p d k = (zlen p, set_ns_ciphers (withNonce (d.(ns_send).(nonce) + 1) d.(ns_send)) d.(ns_recv) true
                             (set_ns_error String.EmptyString d), frame_of (sealed d.(ns_send) d.(ns_send).(nonce) p), k).
Proof.
  intros Hs Hrd Hk Hp Hmax. pose proof (zlen_nonneg p). unfold sendall.
  change (ns_ready (set_ns_error _ d)) with (ns_ready d). rewrite Hrd. cbn [negb].
  change (ns_send (set_ns_error _ d)) with (ns_send d). unfold good_text, INT_MAX in *.
  rewrite encrypt_packet by (try done; unfold INT_MAX; lia). fold (sealed d.(ns_send) d.(ns_send).(nonce) p).
  assert (Hz : zlen (sealed d.(ns_send) d.(ns_send).(nonce) p) = zlen p + 16) by apply evp_seal_length.
  rewrite Hz. unfold kTagLen. replace (zlen p + 16 <? 16) with false by lia. by rewrite writeFrame_sound by (try done; lia).
Qed.

Lemma sendall_streams d k cr buf wire recd snt p : streaming d.(ns_send) cr buf wire recd snt -> d.(ns_ready) = true ->
  sound k -> good_text p -> d.(ns_send).(nonce) < MaxNonce ->
  exists out, sendall p d k = (zlen p, set_ns_ciphers (withNonce (d.(ns_send).(nonce) + 1) d.(ns_send)) d.(ns_recv) true
                                         (set_ns_error String.EmptyString d), out, k)
    /\ streaming (withNonce (d.(ns_send).(nonce) + 1) d.(ns_send)) cr buf (wire ++ out) recd (snt ++ p).
Proof.
  intros (Hs & Hr & Hsk & Hn0 & ps & Hps & -> & Hn & ->) Hrd Hk Hp Hmax. eexists.
  split; [apply sendall_frame; [done.. | lia] |]. split; [by destruct Hs |]. do 3 (split; [done |]). exists (ps ++ [p]).
  split; [apply Forall_app; split; [done | by apply Forall_singleton] |]. split; [| split].
  - rewrite frames_snoc, <- Hn. by rewrite (frames_key d.(ns_send) (withNonce _ d.(ns_send))).
  - cbn [nonce withNonce]. rewrite length_app. cbn [length]. lia.
  - rewrite concat_app. cbn [concat]. by rewrite app_nil_r, <- !app_assoc.
Qed.

Lemma takeBuffered_streams size d k cs wire recd snt : streaming cs d.(ns_recv) d.(recvBuf) wire recd snt -> 0 < size ->
  d.(recvBuf) <> [] ->
  exists bs, takeBuffered size d k = (zlen bs, bs, set_recvBuf (drop (length bs) d.(recvBuf)) d, k) /\ bs <> []
    /\ streaming cs d.(ns_recv) (drop (length bs) d.(recvBuf)) wire (recd ++ bs) snt.
Proof.
  intros (Hs & Hr & Hsk & Hn0 & ps & Hps & -> & Hn & ->) Hsz Hb. unfold takeBuffered.
  set (n := Z.min size (zlen d.(recvBuf))). set (bs := take (Z.to_nat n) d.(recvBuf)).
  assert (Hz : 0 < zlen d.(recvBuf)) by (destruct d.(recvBuf); [done | rewrite zlen_cons; zlen_lia]).
  assert (Hl : length bs = Z.to_nat n) by (unfold bs; rewrite length_take; unfold zlen in *; lia).
  exists bs. rewrite Hl. split; [do 3 f_equal; unfold zlen; lia |]. split; [intros E; rewrite E in Hl; cbn in Hl; lia |].
  do 4 (split; [done |]). exists ps. do 3 (split; [done |]). rewrite <- app_assoc. f_equal. rewrite app_assoc. f_equal.
  symmetry. apply take_drop.
Qed.

(** [recv] on a stream: it waits, or it gives the next bytes. *)
Lemma recv_streams size d k cs tail recd snt : streaming cs d.(ns_recv) d.(recvBuf) (k.(arrived) ++ tail) recd snt ->
  d.(ns_ready) = true -> sound k -> 0 < size -> cs.(nonce) <= MaxNonce ->
  (recv size d k = Blocked /\ d.(recvBuf) = [] /\ (tail = [] -> recd = snt)) \/
  (exists bs c buf k', recv size d k = Returns (zlen bs, bs, set_recvBuf buf (set_ns_ciphers d.(ns_send) c true d), k') /\ bs <> []
    /\ sound k' /\ streaming cs c buf (k'.(arrived) ++ tail) (recd ++ bs) snt).
Proof.
  intros Hst Hrd Hk Hsz Hmax. unfold recv. replace (size <=? 0) with false by lia.
  assert (Hself : set_ns_ciphers d.(ns_send) d.(ns_recv) true d = d) by (destruct d; cbn in *; by subst).
  destruct (Z.eqb_spec (zlen d.(recvBuf)) 0) as [Ez | Ez]; cbn [negb].
  - assert (Eb : d.(recvBuf) = []) by (destruct d.(recvBuf); [done | rewrite zlen_cons in Ez; zlen_lia]).
    pose proof Hst as (Hs & Hr & Hsk & Hn0 & ps & Hps & Ew & Hn & Hsnt). rewrite Eb in Hsnt. destruct ps as [| p ps].
    + left. cbn [frames] in Ew. apply app_eq_nil in Ew as [Ea _]. rewrite readFrame_nothing by done. do 2 (split; [done |]).
      intros _. cbn [concat] in Hsnt. by rewrite !app_nil_r in Hsnt.
    + cbn [frames] in Ew. apply Forall_cons_1 in Hps as [Hp Hps]. cbn [length] in Hn. unfold good_text in Hp.
      assert (Hz : zlen (sealed cs (nonce (ns_recv d)) p) = zlen p + 16) by apply evp_seal_length.
      destruct (readFrame_prefix _ _ tail k Hk ltac:(rewrite Hz; lia) Ew) as [[-> Ht] | (rest & Ea & Er & ->)];
        [left; do 2 (split; [done |]); done |]. right. rewrite Hrd. cbn [negb].
      rewrite decrypt_sealed by (try done; unfold INT_MAX; lia). cbn [lastDecryptOk withNonce withOk negb].
      replace (zlen p =? 0) with false by lia. set (c := withNonce _ _).
      set (d1 := set_recvBuf p _).
      destruct (takeBuffered_streams size d1 (set_arrived rest k) cs (rest ++ tail) recd snt) as (bs & -> & Hne & Hst'); [| done | intros E; cbn in E; subst p; change (zlen (@nil Z)) with 0 in Hp; lia |].
      { split; [done |]. split; [by destruct Hr |]. split; [by destruct Hsk |]. split; [cbn; lia |]. exists ps. split; [done |].
        split; [| split; [cbn; lia |]].
        - cbn [nonce withNonce withOk ns_recv d1 set_recvBuf set_ns_ciphers c]. by rewrite <- Er.
        - by rewrite Hsnt. }
      exists bs, c, (drop (length bs) p), (set_arrived rest k). split; [| done]. done.
  - right. destruct (takeBuffered_streams size d k cs (k.(arrived) ++ tail) recd snt Hst Hsz) as (bs & -> & Hne & Hst').
    { intros E. by rewrite E in Ez. }
    exists bs, d.(ns_recv), (drop (length bs) d.(recvBuf)), k. rewrite Hself. done.
Qed.
End Stream.

(** ** The two sides of a system *)

Lemma opposite_twice ro : opposite (opposite ro) = ro.
Proof. by destruct ro. Qed.

Lemma opposite_ne ro : opposite ro <> ro.
Proof. by destruct ro. Qed.

Lemma role_cases a ro : ro = a \/ ro = opposite a.
Proof. destruct a, ro; auto. Qed.

Lemma peer_set_same ro p S : peer ro (set_peer ro p S) = p.
Proof. by destruct ro. Qed.

Lemma peer_set_opposite ro p S : peer (opposite ro) (set_peer ro p S) = peer (opposite ro) S.
Proof. by destruct ro. Qed.

(** All bytes on the way arrive, and both coroutines run on. *)
Definition flush `{C : NoiseCrypto} (S : System) : System :=
  exec (Arrive Responder (length S.(responder).(travelling))) (exec (Arrive Initiator (length S.(initiator).(travelling))) S).

Definition settle `{C : NoiseCrypto} (d1 d2 : list Z) (S : System) : System :=
  exec (Turn Responder d2) (exec (Turn Initiator d1) (flush S)).

Definition settleAll `{C : NoiseCrypto} (ds : list (list Z * list Z)) (S : System) : System :=
  foldl (fun S d => settle d.1 d.2 S) S ds.

Definition wired (out : list Z) (p : Peer) : Peer :=
  mkPeer p.(sock) p.(phase) p.(back) (p.(travelling) ++ out) p.(payload) p.(received) p.(sent).

Lemma peer_put_same ro out S : peer ro (put_on_wire ro out S) = peer ro S.
Proof. by destruct ro. Qed.

Lemma peer_put_opposite ro out S : peer (opposite ro) (put_on_wire ro out S) = wired out (peer (opposite ro) S).
Proof. by destruct ro. Qed.

Lemma wired_nil p : wired [] p = p.
Proof. unfold wired. rewrite app_nil_r. by destruct p. Qed.

(** The bytes that a side has not read. *)
Definition inbound (p : Peer) : list Z := p.(back).(arrived) ++ p.(travelling).

Lemma inbound_wired out p : inbound (wired out p) = inbound p ++ out.
Proof. unfold inbound. cbn. apply app_assoc. Qed.

(** ** The stages of a session *)

Definition short (ms : list (list Token.t)) : Prop := Forall (fun ts => zlen ts <= 5) ms.

(** The largest payload that fits a frame beside keys and tags. *)
Definition payload_limit : Z := 65279.

Section Session.
Context `{L : NoiseCryptoLaws}.
Variables (ci cr : NoiseConfig) (local : NoiseRole -> list Z) (k : Known).
Hypothesis Hlocal : forall ro, zlen (local ro) <= payload_limit.
Hypothesis Hknown : forall ro, k.(s_of) ro = true.

Definition heard (ro : NoiseRole) (p : Peer) : Prop :=
  p.(sock).(ns_gotPeerPayload) = true /\ p.(sock).(ns_peerPayload) = local (opposite ro).

(** In the middle of the handshake, waiting for a message. *)
Definition waiting (hs : HS) (p : Peer) : Prop :=
  p.(sock).(ns_hs) = hs /\ p.(sock).(ns_role) = hs.(role) /\ p.(sock).(ns_ready) = false /\ p.(sock).(recvBuf) = []
  /\ sound p.(back) /\ p.(received) = [] /\ p.(sent) = [].

(** Back from the handshake, with the hash [H]. *)
Definition opened (ro : NoiseRole) (H : list Z) (p : Peer) : Prop :=
  p.(phase) = Returned true /\ p.(sock).(ns_ready) = true /\ sound p.(back) /\ heard ro p
  /\ p.(sock).(ns_hs).(h) = H /\ p.(sock).(ns_hs).(rs) = (side ci cr (opposite ro)).(localStatic).(publicKey).

Definition sides (a : NoiseRole) (x y : HS) : Prop :=
  x.(role) = a /\ y.(role) = opposite a /\ x.(s) = (side ci cr a).(localStatic) /\ y.(s) = (side ci cr (opposite a)).(localStatic).

Definition starting (i r : Peer) : Prop :=
  exists hi hr, on_turn k hi hr /\ sides Initiator hi hr /\ short (remainingMessages hi)
    /\ (2 <= length (remainingMessages hi) <= 3)%nat
    /\ waiting hi i /\ i.(phase) = Begin /\ inbound i = [] /\ i.(sock).(ns_gotPeerPayload) = false
    /\ waiting hr r /\ (r.(phase) = Begin \/ r.(phase) = Looping false) /\ inbound r = []
    /\ r.(sock).(ns_gotPeerPayload) = false.

(** What the sender [pa] of the message on the way does: it waits for the answer, or it
    has finished and may have sent texts behind the message. *)
Definition sender (a : NoiseRole) (ha : HS) (more : bool) (sentB : bool) (tail : list Z) (pa : Peer) : Prop :=
  if more then
    waiting ha pa /\ pa.(phase) = Looping true /\ inbound pa = [] /\ tail = []
    /\ (heard a pa \/ pa.(sock).(ns_gotPeerPayload) = false /\ sentB = false)
  else
    opened a ha.(h) pa /\ exists c1 c2, (split ha).1 = Some (c1, c2)
      /\ streaming pa.(sock).(ns_send) c1 [] tail [] pa.(sent)
      /\ streaming c2 pa.(sock).(ns_recv) pa.(sock).(recvBuf) (inbound pa) pa.(received) [].

(** A message of [a] is on the way; [n] more follow it. *)
Definition flight (a : NoiseRole) (n : nat) (began : bool) (pa pb : Peer) : Prop :=
  exists ha hb hb' msg q tail sentB, readMessage msg hb = (Some q, hb') /\ zlen msg <= 65535
    /\ on_turn k hb' ha /\ sides a ha hb' /\ short (remainingMessages hb') /\ length (remainingMessages hb') = n
    /\ waiting hb pb /\ hb.(role) = opposite a
    /\ pb.(phase) = (if began then Looping sentB else Begin) /\ (began = false -> a = Initiator /\ sentB = false)
    /\ inbound pb = frame_of msg ++ tail
    /\ (pb.(sock).(ns_gotPeerPayload) = false /\ q = local a \/ heard (opposite a) pb)
    /\ sender a ha (negb (Nat.eqb n 0)) sentB tail pa.

(** Both sides are back from the handshake. *)
Definition running (S : System) : Prop :=
  exists H, forall ro, opened ro H (peer ro S)
    /\ streaming (peer (opposite ro) S).(sock).(ns_send) (peer ro S).(sock).(ns_recv) (peer ro S).(sock).(recvBuf)
         (inbound (peer ro S)) (peer ro S).(received) (peer (opposite ro) S).(sent).

Definition limits (b : Z) (S : System) : Prop :=
  forall ro, (peer ro S).(payload) = local ro /\ 0 <= (peer ro S).(sock).(ns_send).(nonce) <= b.

(** The stage, by the rounds of delivery and turns after which the handshake is over. *)
Definition stage (m : nat) (S : System) : Prop :=
  running S \/ (starting S.(initiator) S.(responder) /\ (4 <= m)%nat)
  \/ exists a n began, flight a n began (peer a S) (peer (opposite a) S) /\ (n <= 2)%nat
       /\ (n + (if began then 1 else 2) <= m)%nat.

(** ** Arrival of bytes *)

(** The same side, with other bytes of the same stream arrived. *)
Definition similar (p p' : Peer) : Prop :=
  p'.(sock) = p.(sock) /\ p'.(phase) = p.(phase) /\ inbound p' = inbound p /\ p'.(payload) = p.(payload)
  /\ p'.(received) = p.(received) /\ p'.(sent) = p.(sent) /\ p'.(back).(ended) = p.(back).(ended)
  /\ p'.(back).(credit) = p.(back).(credit).

Lemma similar_refl p : similar p p.
Proof. done. Qed.

Lemma waiting_similar hs p p' : similar p p' -> waiting hs p -> waiting hs p'.
Proof. intros (E1 & _ & _ & _ & E5 & E6 & E7 & E8). unfold waiting, sound. by rewrite E1, E5, E6, E7, E8. Qed.

Lemma opened_similar ro H p p' : similar p p' -> opened ro H p -> opened ro H p'.
Proof. intros (E1 & E2 & _ & _ & _ & _ & E7 & E8). unfold opened, heard, sound. by rewrite E1, E2, E7, E8. Qed.

Lemma sender_similar a ha more sentB tail p p' : similar p p' -> sender a ha more sentB tail p -> sender a ha more sentB tail p'.
Proof.
  intros Hs. pose proof Hs as (E1 & E2 & E3 & _ & E5 & E6 & _). destruct more; cbn [sender].
  - intros (Hw & Hrest). split; [by eapply waiting_similar |]. unfold heard. by rewrite E1, E2, E3.
  - intros (Ho & Hrest). split; [by eapply opened_similar |]. by rewrite E1, E3, E5, E6.
Qed.

Lemma flight_similar a n began pa pb pa' pb' : similar pa pa' -> similar pb pb' ->
  flight a n began pa pb -> flight a n began pa' pb'.
Proof.
  intros Ha Hb (ha & hb & hb' & msg & q & tail & sentB & H1 & H2 & H3 & H4 & H5 & H6 & H7 & H8 & H9 & H10 & H11 & H12 & H13).
  exists ha, hb, hb', msg, q, tail, sentB. do 6 (split; [done |]). split; [by eapply waiting_similar |]. split; [done |].
  pose proof Hb as (E1 & E2 & E3 & _). unfold heard in *. rewrite E1, E2, E3. do 4 (split; [done |]). by eapply sender_similar.
Qed.

Lemma starting_similar i r i' r' : similar i i' -> similar r r' -> starting i r -> starting i' r'.
Proof.
  intros Hi Hr (hi & hr & H1 & H2 & H3 & H4 & H5 & H6 & H7 & H8 & H9 & H10 & H11 & H12). exists hi, hr. do 4 (split; [done |]).
  split; [by eapply waiting_similar |]. pose proof Hi as (E1 & E2 & E3 & _). rewrite E1, E2, E3. do 3 (split; [done |]).
  split; [by eapply waiting_similar |]. destruct Hr as (F1 & F2 & F3 & _). by rewrite F1, F2, F3.
Qed.

Lemma running_similar S S' : (forall ro, similar (peer ro S) (peer ro S')) -> running S -> running S'.
Proof.
  intros Hs (H & Hr). exists H. intros ro. destruct (Hr ro) as [Ho Hst]. split; [by eapply opened_similar |].
  destruct (Hs ro) as (E1 & _ & E3 & _ & E5 & _), (Hs (opposite ro)) as (F1 & _ & _ & _ & _ & F6 & _).
  by rewrite E1, E3, E5, F1, F6.
Qed.

Lemma stage_similar m S S' : (forall ro, similar (peer ro S) (peer ro S')) -> stage m S -> stage m S'.
Proof.
  intros Hs [Hr | [[Hst Hm] | (a & n & began & Hf & Hn)]].
  - left. by eapply running_similar.
  - right. left. split; [| done]. exact (starting_similar _ _ _ _ (Hs Initiator) (Hs Responder) Hst).
  - right. right. exists a, n, began. split; [by eapply flight_similar | done].
Qed.

Lemma limits_similar b S S' : (forall ro, similar (peer ro S) (peer ro S')) -> limits b S -> limits b S'.
Proof. intros Hs Hl ro. destruct (Hs ro) as (-> & _ & _ & -> & _). apply Hl. Qed.

Lemma arrive_similar ro n S ro' : similar (peer ro' S) (peer ro' (exec (Arrive ro n) S)).
Proof.
  destruct (role_cases ro ro') as [-> | ->]; cbn [exec].
  - rewrite peer_set_same. unfold similar, inbound. cbn. split; [done |]. split; [done |].
    split; [by rewrite <- app_assoc, take_drop | done].
  - rewrite peer_set_opposite. apply similar_refl.
Qed.

(** ** A message is written *)

Lemma split_not_yet d : d.(ns_hs).(complete) = false -> splitIfHandshakeComplete d = (true, d).
Proof. intros E. unfold splitIfHandshakeComplete. by rewrite E. Qed.

Lemma split_done d c1 c2 : d.(ns_hs).(complete) = true -> (split d.(ns_hs)).1 = Some (c1, c2) ->
  splitIfHandshakeComplete d = (true, set_ns_ciphers c1 c2 true (set_ns_hs (split d.(ns_hs)).2 d)).
Proof.
  intros E Es. unfold splitIfHandshakeComplete. rewrite E. cbn [negb]. destruct (split d.(ns_hs)) as [o hs]. cbn [fst snd] in *. by subst o.
Qed.

Lemma split_h hs : (split hs).2.(h) = hs.(h).
Proof. unfold split. by destruct (negb _); [| destruct (negb _); [| destruct (_ || _)%bool]]. Qed.

Lemma sendHandshake_goes draw pl d kk msg w' d' : writeMessage draw pl d.(ns_hs) = (Some msg, w') -> zlen msg <= 65535 ->
  sound kk -> splitIfHandshakeComplete (set_ns_hs w' d) = (true, d') ->
  sendHandshake draw pl d kk = (true, d', frame_of msg, kk).
Proof. intros Ew Hm Hk Es. unfold sendHandshake. rewrite Ew, Es. cbn [negb]. by rewrite writeFrame_sound. Qed.

Lemma streaming_start c : keyed c -> c.(nonce) = 0 -> streaming c c [] [] [] [].
Proof. intros Hk Hn. do 3 (split; [done |]). split; [lia |]. exists []. split; [constructor |]. cbn. split; [done |]. split; [lia | done]. Qed.

(** Both have their ciphers when no message remains. *)
Lemma last_message a x y : on_turn k x y -> sides a y x -> remainingMessages x = [] ->
  x.(complete) = true /\ y.(complete) = true /\ x.(h) = y.(h)
  /\ y.(rs) = (side ci cr (opposite a)).(localStatic).(publicKey) /\ x.(rs) = (side ci cr a).(localStatic).(publicKey)
  /\ exists c1 c2, (split x).1 = Some (c1, c2) /\ (split y).1 = Some (c2, c1)
       /\ keyed c1 /\ keyed c2 /\ c1.(nonce) = 0 /\ c2.(nonce) = 0.
Proof.
  intros Ht (Ry & Rx & Sy & Sx) Hrem.
  destruct (ended_agrees ci cr k x y Ht Hrem Hknown) as (Hcx & Hcy & _ & Hh & Hrx & Hry & c1 & c2 & E1 & E2 & _).
  { intros d [-> | ->]; [by rewrite Rx, Sx | by rewrite Ry, Sy]. }
  rewrite Ry in Hrx. rewrite Rx in Hry. do 5 (split; [done |]). exists c1, c2. split; [done |]. split; [done |]. by eapply split_good.
Qed.

Lemma not_last x y : on_turn k x y -> remainingMessages x <> [] -> x.(complete) = false /\ y.(complete) = false.
Proof.
  intros (n & k0 & (Ht & _) & _ & _ & _ & Hc & _) Hne. rewrite bool_decide_false in Hc by done. split; [done |].
  rewrite <- Hc. apply Ht.
Qed.

(** The state of a socket that is about to write. *)
Definition speaking (a : NoiseRole) (w : HS) (d : NoiseSocket) : Prop :=
  d.(ns_hs) = w /\ d.(ns_role) = a /\ d.(ns_ready) = false /\ d.(recvBuf) = [].

Definition told (a : NoiseRole) (d : NoiseSocket) : Prop :=
  d.(ns_gotPeerPayload) = true /\ d.(ns_peerPayload) = local (opposite a).

Lemma speaks a w r ts ms draw pl d kk pb (began sentB : bool) :
  on_turn k w r -> sides a w r -> remainingMessages w = ts :: ms -> short (ts :: ms) -> zlen draw = 32 ->
  zlen pl <= payload_limit -> speaking a w d -> sound kk ->
  waiting r pb -> inbound pb = [] -> pb.(phase) = (if began then Looping sentB else Begin) ->
  (began = false -> a = Initiator /\ sentB = false) ->
  (pb.(sock).(ns_gotPeerPayload) = false /\ pl = local a \/ heard (opposite a) pb) ->
  (told a d \/ d.(ns_gotPeerPayload) = false /\ sentB = false /\ ms <> []) ->
  exists d' out, sendHandshake (Some draw) pl d kk = (true, d', out, kk)
    /\ (d'.(ns_send) = d.(ns_send) \/ d'.(ns_send).(nonce) = 0)
    /\ forall tr pay, kk.(arrived) ++ tr = [] ->
         flight a (length ms) began (mkPeer d' (loopTop true d') kk tr pay [] []) (wired out pb).
Proof.
  intros Ht Hsd Er Hsh Hd Hpl (Ew & Ero & Erd & Eb) Hk Hw Hib Hph Hbg Hgot Htold. apply Forall_cons_1 in Hsh as [Hts Hms].
  unfold payload_limit in Hpl. pose proof (zlen_nonneg pl).
  destruct (turn_passes k w r ts ms draw pl Ht Er Hd) as (msg & w' & r' & E1 & E2 & Ht' & Er' & Mw & Mr & Hz); [unfold INT_MAX; lia |].
  assert (Hmsg : zlen msg <= 65535) by lia. rewrite <- Ew in E1.
  assert (Hsd' : sides a w' r').
  { destruct Hsd as (R1 & R2 & S1 & S2), Mw as (Wr & _ & _ & _ & Ws), Mr as (Rr & _ & _ & _ & Rs).
    split; [congruence |]. split; [congruence |]. split; congruence. }
  assert (Hbase : forall d', (forall tr pay, kk.(arrived) ++ tr = [] ->
      sender a w' (negb (Nat.eqb (length ms) 0)) sentB [] (mkPeer d' (loopTop true d') kk tr pay [] [])) ->
      forall tr pay, kk.(arrived) ++ tr = [] ->
        flight a (length ms) began (mkPeer d' (loopTop true d') kk tr pay [] []) (wired (frame_of msg) pb)).
  { intros d' Hsn tr pay Htr. exists w', r, r', msg, pl, [], sentB. do 4 (split; [done |]). rewrite Er'. do 2 (split; [done |]).
    split; [done |]. split; [apply Hsd |]. do 2 (split; [done |]). split; [by rewrite inbound_wired, Hib, app_nil_r |].
    split; [done | by apply Hsn]. }
  destruct ms as [| t2 ms].
  - destruct (last_message a r' w' Ht' Hsd' Er') as (_ & Hc & Hh & Hrs & _ & c1 & c2 & S1 & S2 & K1 & K2 & N1 & N2).
    do 2 eexists. split; [by eapply sendHandshake_goes; [exact E1 | done | done | apply split_done; [exact Hc | exact S2]] |].
    split; [by right |]. apply Hbase. intros tr pay Htr. cbn [length Nat.eqb negb sender]. split.
    + split; [done |]. split; [done |]. split; [done |]. split; [by destruct Htold as [? | (_ & _ & ?)] |].
      cbn. by rewrite split_h, split_rs.
    + exists c2, c1. split; [done |]. cbn. unfold inbound. cbn. rewrite Eb, Htr. split; by apply streaming_start.
  - destruct (not_last r' w' Ht') as [_ Hc]; [by rewrite Er' |].
    do 2 eexists. split; [by eapply sendHandshake_goes; [exact E1 | done | done | by apply split_not_yet] |].
    split; [by left |]. apply Hbase. intros tr pay Htr. cbn [length Nat.eqb negb sender].
    split; [split; [done |]; split; [cbn; rewrite Ero; symmetry; apply Hsd' | done] |].
    split; [unfold loopTop; cbn; by rewrite Erd |]. split; [done |]. split; [done |]. by destruct Htold as [? | (? & ? & _)]; [left | right].
Qed.
(** ** Turns *)

Lemma turn_idle ro draw S : handshakeTurn (Some draw) (peer ro S).(payload) (peer ro S).(phase) (peer ro S).(sock) (peer ro S).(back)
    = ((peer ro S).(phase), (peer ro S).(sock), [], (peer ro S).(back)) -> exec (Turn ro draw) S = S.
Proof.
  intros E. cbn [exec]. rewrite E. unfold put_on_wire. rewrite app_nil_r. by destruct S as [[] []], ro.
Qed.

(** A side that waits, and nothing has arrived. *)
Lemma turn_waits ro draw S sentB : (peer ro S).(phase) = Looping sentB -> sound (peer ro S).(back) ->
  (peer ro S).(back).(arrived) = [] -> exec (Turn ro draw) S = S.
Proof.
  intros Hp Hk Ha. apply turn_idle. rewrite Hp. cbn [handshakeTurn]. unfold recvHandshake. by rewrite readFrame_nothing.
Qed.

Lemma turn_back ro draw S ok : (peer ro S).(phase) = Returned ok -> exec (Turn ro draw) S = S.
Proof. intros Hp. apply turn_idle. by rewrite Hp. Qed.

(** The peers after a turn that did something. *)
Lemma turn_peers ro draw S ph d out kk :
  handshakeTurn (Some draw) (peer ro S).(payload) (peer ro S).(phase) (peer ro S).(sock) (peer ro S).(back) = (ph, d, out, kk) ->
  peer ro (exec (Turn ro draw) S)
    = mkPeer d ph kk (peer ro S).(travelling) (peer ro S).(payload) (peer ro S).(received) (peer ro S).(sent)
  /\ peer (opposite ro) (exec (Turn ro draw) S) = wired out (peer (opposite ro) S).
Proof.
  intros E. cbn [exec]. rewrite E. rewrite peer_put_same, peer_put_opposite, peer_set_same, peer_set_opposite. done.
Qed.

Lemma limits_turn b S ro draw ph d out kk : 0 <= b -> limits b S ->
  handshakeTurn (Some draw) (peer ro S).(payload) (peer ro S).(phase) (peer ro S).(sock) (peer ro S).(back) = (ph, d, out, kk) ->
  d.(ns_send) = (peer ro S).(sock).(ns_send) \/ d.(ns_send).(nonce) = 0 -> limits b (exec (Turn ro draw) S).
Proof.
  intros Hb Hl E Hd. destruct (turn_peers _ _ _ _ _ _ _ E) as [E1 E2]. intros ro'. destruct (role_cases ro ro') as [-> | ->].
  - rewrite E1. cbn. destruct (Hl ro) as [-> Hn]. split; [done |]. destruct Hd as [-> | ->]; lia.
  - rewrite E2. apply Hl.
Qed.

(** What a side knows after it has read a message. *)
Definition after_read (q : list Z) (hs : HS) (d : NoiseSocket) : NoiseSocket :=
  if negb d.(ns_gotPeerPayload) then set_ns_payload q (set_ns_hs hs d) else set_ns_hs hs d.

Lemma told_after a q hs d : d.(ns_gotPeerPayload) = false /\ q = local (opposite a) \/ told a d -> told a (after_read q hs d).
Proof. unfold after_read, told. destruct d; cbn. intros [[-> ->] | [-> H]]; done. Qed.

Lemma recvHandshake_reads d kk msg rest q hs d' ok : readFrame kk = Returns (inr msg, rest) ->
  readMessage msg d.(ns_hs) = (Some q, hs) -> splitIfHandshakeComplete (after_read q hs d) = (ok, d') ->
  recvHandshake d kk = Returns (ok, d', rest).
Proof.
  intros Ef Em Es. unfold recvHandshake. rewrite Ef, Em. unfold after_read in Es.
  change (ns_gotPeerPayload (set_ns_hs hs d)) with (ns_gotPeerPayload d). by rewrite Es.
Qed.
(** The last message is read: the session runs. *)
Lemma read_last a S draw msg rest hb hb' q tail sentB ha :
  (peer (opposite a) S).(phase) = Looping sentB -> waiting hb (peer (opposite a) S) ->
  readFrame (peer (opposite a) S).(back) = Returns (inr msg, set_arrived rest (peer (opposite a) S).(back)) ->
  tail = rest ++ (peer (opposite a) S).(travelling) ->
  readMessage msg hb = (Some q, hb') -> on_turn k hb' ha -> sides a ha hb' -> remainingMessages hb' = [] ->
  ((peer (opposite a) S).(sock).(ns_gotPeerPayload) = false /\ q = local a \/ heard (opposite a) (peer (opposite a) S)) ->
  sender a ha false sentB tail (peer a S) ->
  exists d kk, handshakeTurn (Some draw) (peer (opposite a) S).(payload) (Looping sentB) (peer (opposite a) S).(sock) (peer (opposite a) S).(back)
      = (Returned true, d, [], kk) /\ d.(ns_send).(nonce) = 0 /\ running (exec (Turn (opposite a) draw) S).
Proof.
  intros Hph (Ehs & Hro & Hrd & Hbuf & Hk & Hrc & Hst) Ef -> Em Ht Hsd Hrem Hgot (Ho & c1 & c2 & Es & S1 & S2).
  set (p := peer (opposite a) S) in *.
  destruct (last_message a hb' ha Ht Hsd Hrem) as (Hc & _ & Hh & _ & Hrs & x1 & x2 & E1 & E2 & K1 & K2 & N1 & N2).
  rewrite Es in E2. injection E2 as -> ->. rewrite <- Ehs in Em.
  assert (Hhs : (after_read q hb' p.(sock)).(ns_hs) = hb') by (unfold after_read; by destruct (negb _)).
  assert (Hspl : splitIfHandshakeComplete (after_read q hb' p.(sock)) = (true, set_ns_ciphers x1 x2 true (set_ns_hs (split hb').2 (after_read q hb' p.(sock))))).
  { rewrite (split_done _ x1 x2); rewrite Hhs; done. }
  pose proof (recvHandshake_reads _ _ _ _ _ _ _ _ Ef Em Hspl) as Er. set (d := set_ns_ciphers _ _ _ _) in *.
  assert (E : handshakeTurn (Some draw) p.(payload) (Looping sentB) p.(sock) p.(back) = (Returned true, d, [], set_arrived rest p.(back))).
  { cbn [handshakeTurn]. by rewrite Er. }
  exists d, (set_arrived rest p.(back)). split; [done |]. split; [done |]. rewrite <- Hph in E.
  destruct (turn_peers (opposite a) draw S _ _ _ _ E) as [P1 P2]. fold p in P1. rewrite opposite_twice, wired_nil in P2.
  assert (Htold : told (opposite a) d).
  { assert (H := told_after (opposite a) q hb' p.(sock)). rewrite opposite_twice in H. specialize (H Hgot). exact H. }
  exists ha.(h). intros ro. destruct (role_cases a ro) as [-> | ->]; rewrite ?opposite_twice, ?P1, ?P2; cbn.
  - split; [done |]. by rewrite Hst.
  - split; [| cbn; unfold inbound; cbn; rewrite Hrc]. 
    + split; [done |]. split; [done |]. split; [done |]. split; [exact Htold |]. cbn. rewrite split_h, split_rs, opposite_twice. done.
    + replace (recvBuf (after_read q hb' (sock p))) with (@nil Z) by (unfold after_read; by destruct (negb _)). done.
Qed.
(** A message that is not the last is read and answered. *)
Lemma read_more a S n draw msg rest hb hb' q tail sentB ha :
  (peer (opposite a) S).(phase) = Looping sentB -> waiting hb (peer (opposite a) S) ->
  readFrame (peer (opposite a) S).(back) = Returns (inr msg, set_arrived rest (peer (opposite a) S).(back)) ->
  tail = rest ++ (peer (opposite a) S).(travelling) ->
  readMessage msg hb = (Some q, hb') -> on_turn k hb' ha -> sides a ha hb' -> hb.(role) = opposite a ->
  short (remainingMessages hb') -> length (remainingMessages hb') = Datatypes.S n -> zlen draw = 32 ->
  (peer (opposite a) S).(payload) = local (opposite a) ->
  ((peer (opposite a) S).(sock).(ns_gotPeerPayload) = false /\ q = local a \/ heard (opposite a) (peer (opposite a) S)) ->
  sender a ha true sentB tail (peer a S) ->
  exists ph d out kk, handshakeTurn (Some draw) (peer (opposite a) S).(payload) (Looping sentB) (peer (opposite a) S).(sock) (peer (opposite a) S).(back)
      = (ph, d, out, kk) /\ (d.(ns_send) = (peer (opposite a) S).(sock).(ns_send) \/ d.(ns_send).(nonce) = 0)
    /\ flight (opposite a) n true (peer (opposite a) (exec (Turn (opposite a) draw) S)) (peer a (exec (Turn (opposite a) draw) S)).
Proof.
  intros Hph (Ehs & Hro & Hrd & Hbuf & Hk & Hrc & Hst) Ef Et Em Ht Hsd Hrole Hsh Hlen Hdr Hpay Hgot (Hw & Hpa & Hin & -> & Hha).
  set (p := peer (opposite a) S) in *. destruct (remainingMessages hb') as [| ts ms] eqn:Erem; [done |]. injection Hlen as Hlen.
  destruct (not_last hb' ha Ht) as [Hc _]; [by rewrite Erem |]. rewrite <- Ehs in Em.
  assert (Hhs : (after_read q hb' p.(sock)).(ns_hs) = hb') by (unfold after_read; by destruct (negb _)).
  assert (Hfr : (after_read q hb' p.(sock)).(ns_ready) = false /\ (after_read q hb' p.(sock)).(recvBuf) = []
    /\ (after_read q hb' p.(sock)).(ns_role) = opposite a /\ (after_read q hb' p.(sock)).(ns_send) = p.(sock).(ns_send)).
  { unfold after_read. destruct (negb _); cbn; rewrite Hro; done. }
  destruct Hfr as (F1 & F2 & F3 & F4).
  pose proof (recvHandshake_reads _ _ _ _ _ _ _ _ Ef Em (split_not_yet _ ltac:(by rewrite Hhs))) as Er.
  assert (Htold : told (opposite a) (after_read q hb' p.(sock))) by (apply told_after; by rewrite opposite_twice).
  destruct (speaks (opposite a) hb' ha ts ms draw (if sentB then [] else p.(payload)) (after_read q hb' p.(sock))
    (set_arrived rest p.(back)) (peer a S) true true) as (d & out & Es & Hsend & Hfl); try done.
  - destruct Hsd as (? & ? & ? & ?). unfold sides. by rewrite opposite_twice.
  - destruct sentB; [by vm_compute | rewrite Hpay; apply Hlocal].
  - destruct Hha as [Hh | [Hg ->]]; [right; by rewrite opposite_twice | left]. done.
  - by left.
  - exists (loopTop true d), d, out, (set_arrived rest p.(back)).
    assert (E : handshakeTurn (Some draw) p.(payload) (Looping sentB) p.(sock) p.(back) = (loopTop true d, d, out, set_arrived rest p.(back))).
    { cbn [handshakeTurn]. rewrite Er, F1, Es. done. }
    split; [done |]. rewrite F4 in Hsend. split; [done |]. rewrite <- Hph in E.
    destruct (turn_peers (opposite a) draw S _ _ _ _ E) as [P1 P2]. fold p in P1. rewrite opposite_twice in P2.
    rewrite P1, P2, Hrc, Hst, <- Hlen. apply Hfl. done.
Qed.

(** The turn of the side that waits for the message. *)
Lemma flight_turn a n began S draw b : flight a n began (peer a S) (peer (opposite a) S) -> 0 <= b -> limits b S ->
  zlen draw = 32 ->
  let S' := exec (Turn (opposite a) draw) S in
  limits b S' /\
  ((flight a n true (peer a S') (peer (opposite a) S') /\ (began = true -> (peer (opposite a) S).(travelling) <> []))
   \/ (n = 0%nat /\ running S')
   \/ exists n', n = Datatypes.S n' /\ flight (opposite a) n' true (peer (opposite a) S') (peer a S')).
Proof.
  intros Hf Hb Hl Hdr S'. pose proof Hf as (ha & hb & hb' & msg & q & tail & sentB & Em & Hmsg & Ht & Hsd & Hsh & Hn & Hw & Hrole & Hph & Hbg & Hin & Hgot & Hsn).
  set (p := peer (opposite a) S) in *. destruct began.
  - pose proof Hw as (_ & _ & _ & _ & Hk & _).
    destruct (readFrame_prefix msg tail p.(travelling) p.(back) Hk Hmsg Hin) as [[Ef Htr] | (rest & Ea & Et & Ef)].
    + assert (E : S' = S). { apply turn_idle. fold p. rewrite Hph. cbn [handshakeTurn]. unfold recvHandshake. by rewrite Ef. }
      rewrite E. split; [done |]. left. done.
    + destruct n as [| n].
      * destruct (read_last a S draw msg rest hb hb' q tail sentB ha) as (d & kk & E & Hnc & Hrun); try done.
        { by apply nil_length_inv. }
        fold p in E. rewrite <- Hph in E. split; [| by right; left]. eapply limits_turn; [done | done | exact E | by right].
      * destruct (read_more a S n draw msg rest hb hb' q tail sentB ha) as (ph & d & out & kk & E & Hnc & Hfl); try done.
        { apply Hl. }
        fold p in E. rewrite <- Hph in E. split; [by eapply limits_turn |]. right. right. by exists n.
  - destruct (Hbg eq_refl) as [-> ->]. pose proof Hw as (Ehs & Hro & Hrd & Hbuf & Hk & Hrc & Hst).
    assert (E : handshakeTurn (Some draw) p.(payload) p.(phase) p.(sock) p.(back)
      = (Looping false, set_ns_error String.EmptyString p.(sock), [], p.(back))).
    { rewrite Hph. cbn [handshakeTurn]. change (ns_ready (set_ns_error _ (sock p))) with (ns_ready (sock p)).
      change (ns_role (set_ns_error _ (sock p))) with (ns_role (sock p)). rewrite Hrd, Hro, Hrole. cbn [opposite].
      rewrite bool_decide_false by done. unfold loopTop. change (ns_ready (set_ns_error _ (sock p))) with (ns_ready (sock p)). by rewrite ?Hrd. }
    destruct (turn_peers _ draw S _ _ _ _ E) as [P1 P2]. rewrite opposite_twice, wired_nil in P2.
    split; [eapply limits_turn; [done | done | exact E | by left] |]. left. split; [| done].
    unfold S'. rewrite P2. change (peer (opposite Initiator)) with (peer Responder) in *. rewrite P1.
    exists ha, hb, hb', msg, q, tail, false. done.
Qed.
Lemma inbound_nothing p : inbound p = [] -> p.(back).(arrived) = [].
Proof. intros E. by apply app_eq_nil in E as [-> _]. Qed.

(** The turn of the side that has sent the message. *)
Lemma sender_turn a n began S draw : flight a n began (peer a S) (peer (opposite a) S) -> exec (Turn a draw) S = S.
Proof.
  intros (ha & hb & hb' & msg & q & tail & sentB & _ & _ & _ & _ & _ & _ & _ & _ & _ & _ & _ & _ & Hsn).
  unfold sender in Hsn. destruct (negb _).
  - destruct Hsn as ((_ & _ & _ & _ & Hk & _) & Hph & Hin & _). by eapply turn_waits; [| | apply inbound_nothing].
  - destruct Hsn as ((Hph & _) & _). by eapply turn_back.
Qed.

Definition begun (p : Peer) : bool := match p.(phase) with Begin => false | _ => true end.

Lemma start_initiator S draw b : starting S.(initiator) S.(responder) -> 0 <= b -> limits b S -> zlen draw = 32 ->
  let S' := exec (Turn Initiator draw) S in
  limits b S' /\ exists n, (n <= 2)%nat /\
    flight Initiator n (begun S.(responder)) (peer Initiator S') (peer Responder S').
Proof.
  intros (hi & hr & Ht & Hsd & Hsh & Hlen & Hw & Hph & Hin & Hg & Hwr & Hphr & Hinr & Hgr) Hb Hl Hdr S'.
  destruct (remainingMessages hi) as [| ts ms] eqn:Er; [cbn in Hlen; lia |]. cbn [length] in Hlen.
  pose proof Hw as (Ehs & Hro & Hrd & Hbuf & Hk & Hrc & Hst). destruct (Hl Initiator) as [Hpay _]. cbn [peer] in Hpay.
  destruct (speaks Initiator hi hr ts ms draw (payload (initiator S)) (set_ns_error String.EmptyString S.(initiator).(sock))
    S.(initiator).(back) S.(responder) (begun S.(responder)) false) as (d & out & Es & Hsend & Hfl); try done.
  - rewrite Hpay. apply Hlocal.
  - split; [done |]. split; [cbn; rewrite Hro; apply Hsd | done].
  - unfold begun. by destruct Hphr as [-> | ->].
  - left. by rewrite Hpay.
  - right. split; [done |]. split; [done |]. intros ->. cbn in Hlen. lia.
  - assert (E : handshakeTurn (Some draw) (peer Initiator S).(payload) (peer Initiator S).(phase) (peer Initiator S).(sock) (peer Initiator S).(back)
      = (loopTop true d, d, out, S.(initiator).(back))).
    { cbn [peer]. rewrite Hph. cbn [handshakeTurn]. change (ns_ready (set_ns_error _ (sock (initiator S)))) with (ns_ready (sock (initiator S))).
      change (ns_role (set_ns_error _ (sock (initiator S)))) with (ns_role (sock (initiator S))). rewrite Hrd, Hro, (proj1 Hsd).
      rewrite bool_decide_true by done. by rewrite Es. }
    split; [by eapply limits_turn |]. exists (length ms). split; [lia |].
    destruct (turn_peers Initiator draw S _ _ _ _ E) as [P1 P2]. cbn [opposite] in P2. unfold S'. rewrite P1, P2. cbn [peer].
    rewrite Hrc, Hst. by apply Hfl.
Qed.

Lemma start_responder S draw b : starting S.(initiator) S.(responder) -> 0 <= b -> limits b S ->
  let S' := exec (Turn Responder draw) S in
  limits b S' /\ starting S'.(initiator) S'.(responder) /\ S'.(responder).(phase) <> Begin.
Proof.
  intros Hs Hb Hl S'. pose proof Hs as (hi & hr & Ht & Hsd & Hsh & Hlen & Hw & Hph & Hin & Hg & Hwr & Hphr & Hinr & Hgr).
  pose proof Hwr as (Ehs & Hro & Hrd & Hbuf & Hk & Hrc & Hst). destruct Hphr as [Hphr | Hphr].
  - assert (E : handshakeTurn (Some draw) (peer Responder S).(payload) (peer Responder S).(phase) (peer Responder S).(sock) (peer Responder S).(back)
      = (Looping false, set_ns_error String.EmptyString S.(responder).(sock), [], S.(responder).(back))).
    { cbn [peer]. rewrite Hphr. cbn [handshakeTurn]. change (ns_ready (set_ns_error _ (sock (responder S)))) with (ns_ready (sock (responder S))).
      change (ns_role (set_ns_error _ (sock (responder S)))) with (ns_role (sock (responder S))). rewrite Hrd, Hro.
      replace (role hr) with Responder by (symmetry; apply Hsd). rewrite bool_decide_false by done. unfold loopTop.
      change (ns_ready (set_ns_error _ (sock (responder S)))) with (ns_ready (sock (responder S))). by rewrite ?Hrd. }
    split; [eapply limits_turn; [done | done | exact E | by left] |].
    destruct (turn_peers Responder draw S _ _ _ _ E) as [P1 P2]. rewrite wired_nil in P2. cbn [peer opposite] in P1, P2.
    unfold S'. rewrite P1, P2. split; [| done]. exists hi, hr. do 8 (split; [done |]). split; [done |]. split; [by right | done].
  - assert (E : S' = S) by (eapply turn_waits; [exact Hphr | exact Hk | by apply inbound_nothing]). rewrite E.
    split; [done |]. split; [done |]. by rewrite Hphr.
Qed.

Lemma stage_turn m b S ro draw : stage m S -> 0 <= b -> limits b S -> zlen draw = 32 ->
  stage m (exec (Turn ro draw) S) /\ limits b (exec (Turn ro draw) S).
Proof.
  intros [Hr | [[Hst Hm] | (a & n & began & Hf & Hn & Hm)]] Hb Hl Hdr.
  - pose proof Hr as (H & Hr'). destruct (Hr' ro) as ((Hph & _) & _). rewrite (turn_back _ _ _ _ Hph). by split; [left |].
  - destruct ro.
    + destruct (start_initiator S draw b Hst Hb Hl Hdr) as (Hl' & n & Hn & Hf). split; [| done]. right. right.
      eexists _, _, _. split; [exact Hf |]. split; [done |]. destruct (begun _); lia.
    + destruct (start_responder S draw b Hst Hb Hl) as (Hl' & Hst' & _). split; [| done]. right. by left.
  - destruct (role_cases a ro) as [-> | ->].
    + rewrite (sender_turn _ _ _ _ _ Hf). split; [| done]. right. right. by exists a, n, began.
    + destruct (flight_turn a n began S draw b Hf Hb Hl Hdr) as (Hl' & [[Hf' _] | [[_ Hr] | (n' & -> & Hf')]]); (split; [| done]).
      * right. right. exists a, n, true. split; [done |]. split; [done |]. destruct began; lia.
      * by left.
      * right. right. exists (opposite a), n', true. rewrite opposite_twice. split; [done |]. destruct began; lia.
Qed.
(** ** Texts *)

Lemma send_idle ro data S : (peer ro S).(phase) <> Returned true -> exec (Send ro data) S = S.
Proof. intros H. cbn [exec]. by destruct (phase (peer ro S)) as [| | []]. Qed.

Lemma recv_idle ro size S : (peer ro S).(phase) <> Returned true -> exec (Recv ro size) S = S.
Proof. intros H. cbn [exec]. by destruct (phase (peer ro S)) as [| | []]. Qed.

(** A call of [sendall], with the other end of its direction. *)
Lemma send_step ro data S cr' buf wire recd : (peer ro S).(phase) = Returned true -> (peer ro S).(sock).(ns_ready) = true ->
  sound (peer ro S).(back) -> good_text data -> (peer ro S).(sock).(ns_send).(nonce) < MaxNonce ->
  streaming (peer ro S).(sock).(ns_send) cr' buf wire recd (peer ro S).(sent) ->
  exists out c, let S' := exec (Send ro data) S in
    peer ro S' = mkPeer (set_ns_ciphers c (peer ro S).(sock).(ns_recv) true (set_ns_error String.EmptyString (peer ro S).(sock)))
                   (Returned true) (peer ro S).(back) (peer ro S).(travelling) (peer ro S).(payload) (peer ro S).(received)
                   ((peer ro S).(sent) ++ data)
    /\ peer (opposite ro) S' = wired out (peer (opposite ro) S)
    /\ c.(nonce) = (peer ro S).(sock).(ns_send).(nonce) + 1
    /\ streaming c cr' buf (wire ++ out) recd ((peer ro S).(sent) ++ data).
Proof.
  intros Hph Hrd Hk Hd Hmax Hst. destruct (sendall_streams _ _ _ _ _ _ _ data Hst Hrd Hk Hd Hmax) as (out & E & Hst').
  exists out. eexists. cbn [exec]. rewrite Hph, E. pose proof (zlen_nonneg data). replace (zlen data <? 0) with false by lia.
  rewrite peer_put_same, peer_put_opposite, peer_set_same, peer_set_opposite. do 2 (split; [done |]). by split.
Qed.

Lemma opened_send ro H p c : opened ro H p -> forall tr, opened ro H (mkPeer (set_ns_ciphers c p.(sock).(ns_recv) true
  (set_ns_error String.EmptyString p.(sock))) (Returned true) p.(back) p.(travelling) p.(payload) p.(received) tr).
Proof. by intros (Hph & Hrd & Hk & Hh & Hrest) tr. Qed.

Lemma limits_send b S S' ro c : limits b S -> 0 <= c.(nonce) <= b + 1 ->
  (peer ro S').(payload) = (peer ro S).(payload) -> (peer ro S').(sock).(ns_send) = c ->
  (peer (opposite ro) S').(payload) = (peer (opposite ro) S).(payload) ->
  (peer (opposite ro) S').(sock) = (peer (opposite ro) S).(sock) -> limits (b + 1) S'.
Proof.
  intros Hl Hc E1 E2 E3 E4 ro'. destruct (role_cases ro ro') as [-> | ->]; [rewrite E1, E2 | rewrite E3, E4].
  - split; [apply Hl | done].
  - destruct (Hl (opposite ro)) as [-> Hn]. split; [done | lia].
Qed.

Lemma running_send b S ro data : running S -> limits b S -> b < MaxNonce -> good_text data ->
  running (exec (Send ro data) S) /\ limits (b + 1) (exec (Send ro data) S).
Proof.
  intros (H & Hr) Hl Hb Hd. destruct (Hr ro) as [Ho Hst], (Hr (opposite ro)) as [Ho' Hst']. rewrite opposite_twice in Hst'.
  destruct (Hl ro) as [_ Hn]. pose proof Ho as (Hph & Hrd & Hk & _).
  destruct (send_step ro data S _ _ _ _ Hph Hrd Hk Hd ltac:(lia) Hst') as (out & c & P1 & P2 & Hc & Hst2). split.
  - exists H. intros ro'. destruct (role_cases ro ro') as [-> | ->]; rewrite ?opposite_twice, P1, P2.
    + split; [by apply opened_send | exact Hst].
    + split; [exact Ho' |]. by rewrite inbound_wired.
  - eapply (limits_send b S _ ro c); [done | | by rewrite P1 | by rewrite P1 | by rewrite P2 | by rewrite P2]. lia.
Qed.

Lemma flight_send b S a n began ro data : flight a n began (peer a S) (peer (opposite a) S) -> limits b S -> b < MaxNonce ->
  good_text data -> let S' := exec (Send ro data) S in
  flight a n began (peer a S') (peer (opposite a) S') /\ limits (b + 1) S'.
Proof.
  intros Hf Hl Hb Hd S'. assert (Hidle : (peer ro S).(phase) <> Returned true ->
    flight a n began (peer a S') (peer (opposite a) S') /\ limits (b + 1) S').
  { intros Hne. unfold S'. rewrite send_idle by done. split; [done |]. intros ro'. destruct (Hl ro') as [-> ?]. split; [done | lia]. }
  pose proof Hf as (ha & hb & hb' & msg & q & tail & sentB & H1 & H2 & H3 & H4 & H5 & H6 & H7 & H8 & H9 & H10 & H11 & H12 & Hsn).
  destruct (role_cases a ro) as [-> | ->]; [| apply Hidle; rewrite H9; by destruct began]. unfold sender in Hsn.
  destruct (negb _) eqn:En; [apply Hidle; by destruct Hsn as (_ & -> & _) |].
  destruct Hsn as (Ho & c1 & c2 & Es & S1 & S2). destruct (Hl a) as [_ Hn]. pose proof Ho as (Hph & Hrd & Hk & _).
  destruct (send_step a data S _ _ _ _ Hph Hrd Hk Hd ltac:(lia) S1) as (out & c & P1 & P2 & Hc & Hst2). fold S' in P1, P2. split.
  - rewrite P1, P2. exists ha, hb, hb', msg, q, (tail ++ out), sentB. do 10 (split; [done |]).
    split; [by rewrite inbound_wired, H11, <- app_assoc |]. split; [done |]. rewrite En. split; [by apply opened_send |].
    exists c1, c2. done.
  - eapply (limits_send b S _ a c); [done | | by rewrite P1 | by rewrite P1 | by rewrite P2 | by rewrite P2]. lia.
Qed.

Lemma stage_send m b S ro data : stage m S -> limits b S -> b < MaxNonce -> good_text data ->
  stage m (exec (Send ro data) S) /\ limits (b + 1) (exec (Send ro data) S).
Proof.
  intros [Hr | [[Hst Hm] | (a & n & began & Hf & Hn)]] Hl Hb Hd.
  - destruct (running_send b S ro data Hr Hl Hb Hd). split; [by left | done].
  - rewrite send_idle; [split; [right; by left |]; intros ro'; destruct (Hl ro') as [-> ?]; split; [done | lia] |].
    destruct Hst as (hi & hr & _ & _ & _ & _ & _ & Hph & _ & _ & _ & Hphr & _).
    destruct ro; cbn [peer]; [by rewrite Hph | by destruct Hphr as [-> | ->]].
  - destruct (flight_send b S a n began ro data Hf Hl Hb Hd). split; [| done]. right. right. by exists a, n, began.
Qed.
(** A call of [recv], with the other end of its direction: nothing happens, or the next
    bytes come. *)
Lemma recv_step ro size S cs snt : (peer ro S).(phase) = Returned true -> (peer ro S).(sock).(ns_ready) = true ->
  sound (peer ro S).(back) -> cs.(nonce) <= MaxNonce ->
  streaming cs (peer ro S).(sock).(ns_recv) (peer ro S).(sock).(recvBuf) (inbound (peer ro S)) (peer ro S).(received) snt ->
  let S' := exec (Recv ro size) S in
  (S' = S /\ (0 < size -> (peer ro S).(travelling) = [] -> (peer ro S).(received) = snt)) \/
  (exists bs c buf k', bs <> [] /\ sound k'
    /\ peer ro S' = mkPeer (set_recvBuf buf (set_ns_ciphers (peer ro S).(sock).(ns_send) c true (peer ro S).(sock))) (Returned true) k'
                      (peer ro S).(travelling) (peer ro S).(payload) ((peer ro S).(received) ++ bs) (peer ro S).(sent)
    /\ peer (opposite ro) S' = peer (opposite ro) S
    /\ streaming cs c buf (k'.(arrived) ++ (peer ro S).(travelling)) ((peer ro S).(received) ++ bs) snt).
Proof.
  intros Hph Hrd Hk Hmax Hst. cbn [exec]. rewrite Hph. destruct (Z.ltb_spec 0 size) as [Hs | Hs].
  - destruct (recv_streams size _ _ _ _ _ _ Hst Hrd Hk Hs Hmax) as [(-> & _ & Hfin) | (bs & c & buf & k' & -> & Hne & Hk' & Hst')].
    + left. split; [done |]. intros _. exact Hfin.
    + right. exists bs, c, buf, k'. rewrite peer_set_same, peer_set_opposite. done.
  - left. unfold recv. replace (size <=? 0) with true by lia. rewrite app_nil_r, <- Hph. split; [by destruct S as [[] []], ro |]. lia.
Qed.

Lemma opened_recv ro H p c buf k' tr : opened ro H p -> sound k' -> opened ro H (mkPeer (set_recvBuf buf
  (set_ns_ciphers p.(sock).(ns_send) c true p.(sock))) (Returned true) k' p.(travelling) p.(payload) tr p.(sent)).
Proof. by intros (Hph & Hrd & Hk & Hh & Hrest) Hk'. Qed.

Lemma limits_recv b S S' ro : limits b S ->
  (peer ro S').(payload) = (peer ro S).(payload) -> (peer ro S').(sock).(ns_send) = (peer ro S).(sock).(ns_send) ->
  peer (opposite ro) S' = peer (opposite ro) S -> limits b S'.
Proof.
  intros Hl E1 E2 E3 ro'. destruct (role_cases ro ro') as [-> | ->]; [rewrite E1, E2 | rewrite E3]; apply Hl.
Qed.

Lemma running_recv b S ro size : running S -> limits b S -> b <= MaxNonce ->
  running (exec (Recv ro size) S) /\ limits b (exec (Recv ro size) S).
Proof.
  intros Hrun Hl Hb. pose proof Hrun as (H & Hr). destruct (Hr ro) as [Ho Hst], (Hr (opposite ro)) as [Ho' Hst']. rewrite opposite_twice in Hst'.
  destruct (Hl (opposite ro)) as [_ Hn]. pose proof Ho as (Hph & Hrd & Hk & _).
  destruct (recv_step ro size S (peer (opposite ro) S).(sock).(ns_send) _ Hph Hrd Hk ltac:(lia) Hst) as [[-> _] | (bs & c & buf & k' & _ & Hk' & P1 & P2 & Hst2)]; [done |].
  split; [| by eapply limits_recv; [done | rewrite P1 | rewrite P1 | rewrite P2]].
  exists H. intros ro'. destruct (role_cases ro ro') as [-> | ->]; rewrite ?opposite_twice, P1, P2.
  - split; [by apply opened_recv | exact Hst2].
  - split; [exact Ho' | exact Hst'].
Qed.

Lemma flight_recv b S a n began ro size : flight a n began (peer a S) (peer (opposite a) S) -> limits b S -> b <= MaxNonce ->
  let S' := exec (Recv ro size) S in flight a n began (peer a S') (peer (opposite a) S') /\ limits b S'.
Proof.
  intros Hf Hl Hb S'. assert (Hidle : (peer ro S).(phase) <> Returned true ->
    flight a n began (peer a S') (peer (opposite a) S') /\ limits b S') by (intros Hne; unfold S'; by rewrite recv_idle).
  pose proof Hf as (ha & hb & hb' & msg & q & tail & sentB & H1 & H2 & H3 & H4 & H5 & H6 & H7 & H8 & H9 & H10 & H11 & H12 & Hsn).
  destruct (role_cases a ro) as [-> | ->]; [| apply Hidle; rewrite H9; by destruct began]. unfold sender in Hsn.
  destruct (negb _) eqn:En; [apply Hidle; by destruct Hsn as (_ & -> & _) |].
  destruct Hsn as (Ho & c1 & c2 & Es & S1 & S2). pose proof Ho as (Hph & Hrd & Hk & _).
  assert (N2 : c2.(nonce) = 0) by (by destruct (split_good _ _ _ Es) as (_ & _ & _ & ?)).
  destruct (recv_step a size S c2 _ Hph Hrd Hk ltac:(rewrite N2; unfold MaxNonce; lia) S2)
    as [[E _] | (bs & c & buf & k' & _ & Hk' & P1 & P2 & Hst2)]; [unfold S'; by rewrite E |]. fold S' in P1, P2.
  split; [| by eapply limits_recv; [done | rewrite P1 | rewrite P1 | rewrite P2]].
  rewrite P1, P2. exists ha, hb, hb', msg, q, tail, sentB. do 12 (split; [done |]). rewrite En. split; [by apply opened_recv |].
  exists c1, c2. done.
Qed.

Lemma stage_recv m b S ro size : stage m S -> limits b S -> b <= MaxNonce ->
  stage m (exec (Recv ro size) S) /\ limits b (exec (Recv ro size) S).
Proof.
  intros [Hr | [[Hst Hm] | (a & n & began & Hf & Hn)]] Hl Hb.
  - destruct (running_recv b S ro size Hr Hl Hb). split; [by left | done].
  - rewrite recv_idle; [split; [right; by left | done] |].
    destruct Hst as (hi & hr & _ & _ & _ & _ & _ & Hph & _ & _ & _ & Hphr & _).
    destruct ro; cbn [peer]; [by rewrite Hph | by destruct Hphr as [-> | ->]].
  - destruct (flight_recv b S a n began ro size Hf Hl Hb). split; [| done]. right. right. by exists a, n, began.
Qed.

(** ** Any order of events *)

Definition fair_action (a : Action) : Prop :=
  match a with Turn _ draw => zlen draw = 32 | Send _ data => good_text data | _ => True end.

Lemma stage_exec m b S a : stage m S -> 0 <= b < MaxNonce -> limits b S -> fair_action a ->
  stage m (exec a S) /\ limits (b + 1) (exec a S).
Proof.
  intros Hs Hb Hl Ha. assert (Hup : forall S', limits b S' -> limits (b + 1) S').
  { intros S' Hl' ro. destruct (Hl' ro) as [-> ?]. split; [done | lia]. }
  destruct a as [ro n | ro draw | ro data | ro size].
  - pose proof (arrive_similar ro n S). split; [by eapply stage_similar | by eapply Hup, limits_similar].
  - destruct (stage_turn m b S ro draw Hs ltac:(lia) Hl Ha). auto.
  - apply stage_send; [done | done | lia | done].
  - destruct (stage_recv m b S ro size Hs Hl ltac:(lia)). auto.
Qed.

Lemma stage_execs m b S acts : stage m S -> 0 <= b -> b + zlen acts <= MaxNonce -> limits b S -> Forall fair_action acts ->
  stage m (execs acts S) /\ limits (b + zlen acts) (execs acts S).
Proof.
  revert b S. induction acts as [| a acts IH]; intros b S Hs Hb Hn Hl Hf.
  - change (zlen (@nil Action)) with 0. by rewrite Z.add_0_r.
  - rewrite zlen_cons in *. pose proof (zlen_nonneg acts). apply Forall_cons_1 in Hf as [Ha Hf].
    destruct (stage_exec m b S a Hs ltac:(lia) Hl Ha) as [Hs' Hl']. cbn [execs fold_left]. rewrite Z.add_assoc.
    apply IH; try done; lia.
Qed.
(** ** The handshake ends *)

Lemma flush_travelling S ro : (peer ro (flush S)).(travelling) = [].
Proof. unfold flush. destruct ro; cbn; apply drop_all. Qed.

Lemma flush_similar S ro : similar (peer ro S) (peer ro (flush S)).
Proof.
  unfold flush. set (S1 := exec (Arrive Initiator _) S).
  pose proof (arrive_similar Initiator (length (travelling (initiator S))) S ro) as H1. fold S1 in H1.
  pose proof (arrive_similar Responder (length (travelling (responder S))) S1 ro) as H2.
  unfold similar in *. intuition congruence.
Qed.

Lemma settle_flight a n began m b S d1 d2 : flight a n began (peer a S) (peer (opposite a) S) ->
  (n <= 2)%nat -> (n + (if began then 1 else 2) <= Datatypes.S m)%nat ->
  (forall ro, (peer ro S).(travelling) = []) -> 0 <= b -> limits b S -> zlen d1 = 32 -> zlen d2 = 32 ->
  stage m (exec (Turn Responder d2) (exec (Turn Initiator d1) S)) /\ limits b (exec (Turn Responder d2) (exec (Turn Initiator d1) S)).
Proof.
  intros Hf Hn Hm Htr Hb Hl Hd1 Hd2. destruct a.
  - rewrite (sender_turn _ _ _ _ d1 Hf).
    destruct (flight_turn Initiator n began S d2 b Hf Hb Hl Hd2) as (Hl' & [[Hf' Hbg] | [[_ Hr] | (n' & -> & Hf')]]); (split; [| done]).
    + right. right. exists Initiator, n, true. split; [done |]. split; [done |]. destruct began; [| lia].
      exfalso. by apply Hbg, Htr.
    + by left.
    + right. right. exists Responder, n', true. split; [done |]. destruct began; lia.
  - destruct (flight_turn Responder n began S d1 b Hf Hb Hl Hd1) as (Hl' & Hnext). cbn [opposite] in *.
    apply stage_turn; [| done | done | done]. destruct Hnext as [[Hf' Hbg] | [[_ Hr] | (n' & -> & Hf')]].
    + destruct began; [exfalso; by apply Hbg, Htr |].
      destruct Hf as (ha & hb & hb' & msg & q & tail & sentB & _ & _ & _ & _ & _ & _ & _ & _ & _ & Hbg' & _). by destruct (Hbg' eq_refl).
    + by left.
    + right. right. exists Initiator, n', true. split; [done |]. destruct began; lia.
Qed.

Lemma settle_stage m b S d1 d2 : stage (Datatypes.S m) S -> 0 <= b -> limits b S -> zlen d1 = 32 -> zlen d2 = 32 ->
  stage m (settle d1 d2 S) /\ limits b (settle d1 d2 S).
Proof.
  intros Hs Hb Hl Hd1 Hd2. unfold settle.
  assert (Hl0 : limits b (flush S)) by (eapply limits_similar; [apply flush_similar | done]).
  apply (stage_similar _ _ (flush S) (flush_similar S)) in Hs. destruct Hs as [Hr | [[Hst Hm] | (a & n & began & Hf & Hn & Hm)]].
  - destruct (stage_turn m b (flush S) Initiator d1) as [H1 H2]; [by left | done.. |]. by apply stage_turn.
  - destruct (start_initiator (flush S) d1 b Hst Hb Hl0 Hd1) as (Hl1 & n & Hn & Hf).
    destruct (flight_turn Initiator n _ _ d2 b Hf Hb Hl1 Hd2) as (Hl2 & [[Hf' _] | [[_ Hr] | (n' & -> & Hf')]]); (split; [| done]).
    + right. right. exists Initiator, n, true. split; [done |]. lia.
    + by left.
    + right. right. exists Responder, n', true. split; [done |]. lia.
  - eapply settle_flight; try done. apply flush_travelling.
Qed.

Lemma settles ds m b S : stage m S -> (m <= length ds)%nat -> 0 <= b -> limits b S ->
  Forall (fun d => zlen d.1 = 32 /\ zlen d.2 = 32) ds -> running (settleAll ds S).
Proof.
  revert m S. induction ds as [| [d1 d2] ds IH]; intros m S Hs Hm Hb Hl Hd.
  - destruct Hs as [Hr | [[_ H] | (a & n & began & _ & _ & H)]]; [done | cbn in Hm; lia | destruct began; cbn in Hm; lia].
  - apply Forall_cons_1 in Hd as [[H1 H2] Hd]. cbn [settleAll foldl fst snd]. destruct m as [| m].
    + destruct (settle_stage 0 b S d1 d2) as [Hs' Hl']; [| done.. |].
      { destruct Hs as [Hr | [[_ H] | (a & n & began & _ & _ & H)]]; [by left | lia | destruct began; lia]. }
      eapply (IH 0%nat); [done | lia | done..].
    + destruct (settle_stage m b S d1 d2 Hs Hb Hl H1 H2) as [Hs' Hl']. cbn [length] in Hm. eapply (IH m); [done | lia | done..].
Qed.
End Session.
