(* ===== verification/NoiseSocketProps.v ===== *)
(** * Noise over a stream socket: a session in every order of events *)

From S2P Require Import Prelude CryptoApi NoiseCrypto Noise NoiseProofs NoiseTokens NoiseHandshake NoiseProps.
From S2P Require Import NoiseSessionProofs NoiseSocket NoiseSocketSystem.

Definition payloads (pi pr : list Z) (ro : NoiseRole) : list Z := match ro with Initiator => pi | Responder => pr end.

Section Start.
Context `{L : NoiseCryptoLaws}.

Lemma pattern_sizes c : (match c.(cfg_pskModifier) with NoPsk => True
    | m => pskSlot m <= (patternTokens c.(cfg_pattern)).(nMessages) end) ->
  let ms := take (Z.to_nat (configTokens c).(nMessages)) (configTokens c).(messages) in
  short ms /\ (2 <= length ms <= 3)%nat.
Proof.
  unfold configTokens, short. destruct (c.(cfg_pattern)), (c.(cfg_pskModifier)); cbv zeta; cbn [pskSlot patternTokens nMessages];
    intros Hs; try lia; (split; [apply (bool_decide_eq_true_1 _); by vm_compute | vm_compute; lia]).
Qed.

Lemma session_starts ci cr pi pr : matching ci cr ->
  exists i r k, ns_initialize ci = (true, i) /\ ns_initialize cr = (true, r) /\ (forall ro, k.(s_of) ro = true)
    /\ stage ci cr (payloads pi pr) k 4 (connected i r pi pr) /\ limits (payloads pi pr) 0 (connected i r pi pr).
Proof.
  intros Hm. destruct (handshake_starts ci cr Hm) as (hi & hr & k & Ei & Er & Ht & Hall & Iro & Rro & Is & Rs & Hrem & _).
  assert (Hslot : match ci.(cfg_pskModifier) with NoPsk => True
    | m => pskSlot m <= (patternTokens ci.(cfg_pattern)).(nMessages) end).
  { destruct Hm as (_ & _ & _ & _ & _ & _ & _ & _ & (_ & _ & _ & _ & _ & Hs & _) & _). destruct (ci.(cfg_pskModifier)); [done | apply Hs..]. }
  destruct (pattern_sizes ci Hslot) as [Hsh Hlen]. rewrite <- Hrem in Hsh, Hlen.
  unfold ns_initialize. rewrite Ei, Er. do 2 eexists. exists k. do 2 (split; [reflexivity |]). split; [done |].
  destruct Hm as (Hri & Hrr & _). split.
  - right. left. split; [| lia]. exists hi, hr. split; [done |]. split; [by split |]. do 2 (split; [done |]).
    split; [split; [done |]; split; [cbn; congruence |]; done |]. do 3 (split; [done |]).
    split; [split; [done |]; split; [cbn; congruence |]; done |]. split; [by left |]. done.
  - by intros [].
Qed.

(** What was received is what was sent, as far as it came. *)
Lemma stage_prefix ci cr local k m S ro : stage ci cr local k m S ->
  exists ahead, (peer (opposite ro) S).(sent) = (peer ro S).(received) ++ ahead.
Proof.
  intros [(H & Hr) | [[(hi & hr & _ & _ & _ & _ & (_ & _ & _ & _ & _ & R1 & T1) & _ & _ & _ & (_ & _ & _ & _ & _ & R2 & T2) & _) _] | (a & n & began & Hf & _)]].
  - destruct (Hr ro) as [_ (_ & _ & _ & _ & ps & _ & _ & _ & ->)]. by eexists.
  - exists []. by destruct ro; cbn [peer opposite]; rewrite ?R1, ?R2, ?T1, ?T2.
  - destruct Hf as (ha & hb & hb' & msg & q & tail & sentB & _ & _ & _ & _ & _ & _ & (_ & _ & _ & _ & _ & Rb & Tb) & _ & _ & _ & _ & _ & Hsn).
    destruct (role_cases a ro) as [-> | ->]; [| rewrite opposite_twice, Rb; by eexists]. rewrite Tb. unfold sender in Hsn.
    destruct (negb _); [exists []; destruct Hsn as ((_ & _ & _ & _ & _ & -> & _) & _); done |].
    destruct Hsn as (_ & c1 & c2 & _ & _ & (_ & _ & _ & _ & ps & _ & _ & _ & E)). rewrite E. by eexists.
Qed.

Lemma stage_progress ci cr local k m b S ro size : stage ci cr local k m S -> limits local b S -> b <= MaxNonce -> 0 < size ->
  (peer ro S).(phase) = Returned true -> (peer ro S).(travelling) = [] -> (peer ro S).(received) <> (peer (opposite ro) S).(sent) ->
  exists bs, bs <> [] /\ (peer ro (exec (Recv ro size) S)).(received) = (peer ro S).(received) ++ bs.
Proof.
  intros Hs Hl Hb Hsz Hph Htr Hne. pose proof (stage_prefix _ _ _ _ _ _ ro Hs) as [ahead Epre].
  destruct Hs as [(H & Hr) | [[(hi & hr & _ & _ & _ & _ & _ & P1 & _ & _ & _ & P2 & _) _] | (a & n & began & Hf & _)]].
  - destruct (Hr ro) as [(_ & Hrd & Hk & _) Hst]. destruct (Hl (opposite ro)) as [_ Hn].
    destruct (recv_step ro size S (peer (opposite ro) S).(sock).(ns_send) _ Hph Hrd Hk ltac:(lia) Hst)
      as [[_ Hfin] | (bs & c & buf & k' & Hbs & _ & E1 & _)]; [by specialize (Hfin Hsz Htr) |].
    exists bs. by rewrite E1.
  - exfalso. destruct ro; cbn [peer] in Hph; [congruence | destruct P2; congruence].
  - exfalso. destruct Hf as (ha & hb & hb' & msg & q & tail & sentB & _ & _ & _ & _ & _ & _ & (_ & _ & _ & _ & _ & Rb & Tb) & _ & Hpb & _).
    destruct (role_cases a ro) as [-> | ->]; [| rewrite Hpb in Hph; by destruct began].
    rewrite Tb in *. symmetry in Epre. apply app_eq_nil in Epre as [E _]. by rewrite E in Hne.
Qed.
End Start.

(** C13: From any state that two connected Noise sockets with matching configurations and
    payloads to 65279 bytes can reach, four rounds of delivery and turns end both
    handshakes with success: the hashes are equal and each side has the static key and the
    payload of the other. *)
Theorem noise_socket_handshake_ends `{L : NoiseCryptoLaws} ci cr pi pr acts ds :
  matching ci cr -> zlen pi <= payload_limit -> zlen pr <= payload_limit ->
  Forall fair_action acts -> zlen acts <= MaxNonce ->
  length ds = 4%nat -> Forall (fun d => zlen d.1 = 32 /\ zlen d.2 = 32) ds ->
  exists i r, ns_initialize ci = (true, i) /\ ns_initialize cr = (true, r)
    /\ let S := settleAll ds (execs acts (connected i r pi pr)) in
       S.(initiator).(sock).(ns_hs).(h) = S.(responder).(sock).(ns_hs).(h)
       /\ forall ro, (peer ro S).(phase) = Returned true /\ (peer ro S).(sock).(ns_peerPayload) = payloads pi pr (opposite ro)
            /\ (peer ro S).(sock).(ns_hs).(rs) = (side ci cr (opposite ro)).(localStatic).(publicKey).
Proof.
  intros Hm Hpi Hpr Ha Hn Hlen Hds. destruct (session_starts ci cr pi pr Hm) as (i & r & k & Ei & Er & Hall & Hs & Hl).
  assert (Hloc : forall ro, zlen (payloads pi pr ro) <= payload_limit) by (by intros []). exists i, r. do 2 (split; [done |]). cbv zeta.
  destruct (stage_execs ci cr _ k Hloc Hall 4 0 _ acts Hs ltac:(lia) ltac:(lia) Hl Ha) as [Hs' Hl'].
  destruct (settles ci cr _ k Hloc Hall ds 4 (0 + zlen acts) _ Hs' ltac:(lia) ltac:(pose proof (zlen_nonneg acts); lia) Hl' Hds) as (H & Hr).
  split.
  - destruct (Hr Initiator) as [(_ & _ & _ & _ & E1 & _) _], (Hr Responder) as [(_ & _ & _ & _ & E2 & _) _]. cbn [peer] in *. congruence.
  - intros ro. by destruct (Hr ro) as [(E1 & _ & _ & (_ & E2) & _ & E3) _].
Qed.

(** C3: Over every order of arrivals, turns, reads and sends of 1 to 65519 bytes of two
    connected Noise sockets, what one side has received is a prefix of what the other has
    sent, each way; and when all bytes have arrived, a read returns something as long as
    anything is missing. *)
Theorem noise_socket_is_a_stream `{L : NoiseCryptoLaws} ci cr pi pr acts :
  matching ci cr -> zlen pi <= payload_limit -> zlen pr <= payload_limit ->
  Forall fair_action acts -> zlen acts <= MaxNonce ->
  exists i r, ns_initialize ci = (true, i) /\ ns_initialize cr = (true, r)
    /\ let S := execs acts (connected i r pi pr) in
       forall ro, (exists ahead, (peer (opposite ro) S).(sent) = (peer ro S).(received) ++ ahead)
         /\ (forall size, 0 < size -> (peer ro S).(phase) = Returned true -> (peer ro S).(travelling) = [] ->
              (peer ro S).(received) <> (peer (opposite ro) S).(sent) ->
              exists bs, bs <> [] /\ (peer ro (exec (Recv ro size) S)).(received) = (peer ro S).(received) ++ bs).
Proof.
  intros Hm Hpi Hpr Ha Hn. destruct (session_starts ci cr pi pr Hm) as (i & r & k & Ei & Er & Hall & Hs & Hl).
  assert (Hloc : forall ro, zlen (payloads pi pr ro) <= payload_limit) by (by intros []). exists i, r. do 2 (split; [done |]). cbv zeta.
  destruct (stage_execs ci cr _ k Hloc Hall 4 0 _ acts Hs ltac:(lia) ltac:(lia) Hl Ha) as [Hs' Hl'].
  intros ro. split; [by eapply stage_prefix |]. intros size Hsz. by eapply stage_progress.
Qed.

(** ** Witnesses *)

Definition toy_draw : list Z := replicate 32 11.

(** The texts are sent as soon as the handshake has returned, and arrive in pieces. *)
Definition toy_actions : list Action :=
  [Turn Initiator toy_draw; Turn Responder toy_draw; Arrive Responder 3; Turn Responder toy_draw; Arrive Responder 500;
   Turn Responder toy_draw; Send Responder [1; 2; 3]; Arrive Initiator 500; Turn Initiator toy_draw; Send Initiator [4];
   Recv Initiator 2; Recv Initiator 2; Arrive Responder 1; Recv Responder 9].

Lemma toy_actions_fair : Forall fair_action toy_actions.
Proof. repeat (apply Forall_cons; [first [exact I | reflexivity | split; reflexivity || (vm_compute; congruence)] |]). constructor. Qed.

Lemma noise_socket_handshake_ends_witness :
  exists i r, @ns_initialize toy_noise (toy_config Initiator) = (true, i) /\ @ns_initialize toy_noise (toy_config Responder) = (true, r)
    /\ let S := @settleAll toy_noise (replicate 4 (toy_draw, toy_draw)) (@execs toy_noise (take 3 toy_actions) (connected i r [7] [8; 9])) in
       S.(initiator).(sock).(ns_hs).(h) = S.(responder).(sock).(ns_hs).(h)
       /\ forall ro, (peer ro S).(phase) = Returned true /\ (peer ro S).(sock).(ns_peerPayload) = payloads [7] [8; 9] (opposite ro)
            /\ (peer ro S).(sock).(ns_hs).(rs)
               = (side (toy_config Initiator) (toy_config Responder) (opposite ro)).(localStatic).(publicKey).
Proof.
  refine (@noise_socket_handshake_ends toy_noise toy_noise_laws (toy_config Initiator) (toy_config Responder) [7] [8; 9]
    (take 3 toy_actions) (replicate 4 (toy_draw, toy_draw)) toy_matching _ _ _ _ _ _).
  - vm_compute. congruence.
  - vm_compute. congruence.
  - apply Forall_take, toy_actions_fair.
  - vm_compute. congruence.
  - reflexivity.
  - repeat (apply Forall_cons; [split; reflexivity |]). constructor.
Defined.

Lemma noise_socket_is_a_stream_witness :
  exists i r, @ns_initialize toy_noise (toy_config Initiator) = (true, i) /\ @ns_initialize toy_noise (toy_config Responder) = (true, r)
    /\ let S := @execs toy_noise toy_actions (connected i r [7] [8; 9]) in
       forall ro, (exists ahead, (peer (opposite ro) S).(sent) = (peer ro S).(received) ++ ahead)
         /\ (forall size, 0 < size -> (peer ro S).(phase) = Returned true -> (peer ro S).(travelling) = [] ->
              (peer ro S).(received) <> (peer (opposite ro) S).(sent) ->
              exists bs, bs <> [] /\ (peer ro (@exec toy_noise (Recv ro size) S)).(received) = (peer ro S).(received) ++ bs).
Proof.
  refine (@noise_socket_is_a_stream toy_noise toy_noise_laws (toy_config Initiator) (toy_config Responder) [7] [8; 9]
    toy_actions toy_matching _ _ toy_actions_fair _).
  - vm_compute. congruence.
  - vm_compute. congruence.
  - vm_compute. congruence.
Defined.

(** The run of the witness: both texts are on their way, and one has been read. *)
Example toy_run :
  let S := @execs toy_noise toy_actions (connected (@ns_initialize toy_noise (toy_config Initiator)).2
             (@ns_initialize toy_noise (toy_config Responder)).2 [7] [8; 9]) in
  S.(initiator).(received) = [1; 2; 3] /\ S.(responder).(received) = [] /\ S.(initiator).(sent) = [4]
  /\ S.(responder).(phase) = Returned true.
Proof. by vm_compute. Qed.

(** ** A text that does not fit a frame *)

(** What an AEAD is for: a ciphertext opens under its own nonce only. *)
Definition nonce_bound `{C : NoiseCrypto} : Prop :=
  forall a key n n' ad p, zlen n = 12 -> zlen n' = 12 -> n <> n' -> evp_open a key n ad (evp_seal a key n' ad p) = None.

Lemma encodeNonce_inj a n n' : 0 <= n < 2 ^ 64 -> 0 <= n' < 2 ^ 64 -> encodeNonce a n = encodeNonce a n' -> n = n'.
Proof.
  intros Hn Hn' E. unfold encodeNonce in E. apply app_inv_head in E.
  assert (Eb : be_encode 8 n = be_encode 8 n') by (destruct (bool_decide _); [done | by apply rev_inj]).
  rewrite <- (be_encode_decode_small 8 n), <- (be_encode_decode_small 8 n') by (change (2 ^ (8 * Z.of_nat 8)) with (2 ^ 64); lia).
  by rewrite Eb.
Qed.

(** The refused text: nothing is written, and the nonce is spent. *)
Lemma sendall_oversized `{L : NoiseCryptoLaws} d k p : keyed d.(ns_send) -> d.(ns_ready) = true -> 0 <= d.(ns_send).(nonce) < MaxNonce ->
  65519 < zlen p <= INT_MAX - 16 ->
  exists d1, sendall p d k = (-1, d1, [], k) /\ d1.(ns_ready) = true
    /\ d1.(ns_send) = withNonce (d.(ns_send).(nonce) + 1) d.(ns_send).
Proof.
  intros Hk Hrd Hn Hp. unfold sendall. change (ns_ready (set_ns_error _ d)) with (ns_ready d). rewrite Hrd. cbn [negb].
  change (ns_send (set_ns_error _ d)) with (ns_send d). rewrite encrypt_packet by (try done; lia).
  rewrite evp_seal_length. unfold kTagLen, writeFrame, kMaxFramePayload. replace (zlen p + 16 <? 16) with false by lia.
  rewrite evp_seal_length. replace (zlen p + 16 >? 65535) with true by lia. eexists. by split.
Qed.

Lemma decrypt_other_nonce `{L : NoiseCryptoLaws} cs cr n p : nonce_bound -> keyed cr -> same_key cs cr ->
  0 <= cr.(nonce) <= MaxNonce -> 0 <= n <= MaxNonce -> n <> cr.(nonce) ->
  decryptWithAd [] (sealed cs n p) cr = ([], withOk false cr).
Proof.
  intros Hnb [Hh Hk] [Ha Hak] Hn Hn' Hne. pose proof (zlen_nonneg p).
  unfold decryptWithAd, decryptWithNonce, transportNonceAllowed, kTagLen, aeadOpen, sealed. unfold MaxNonce in *.
  change (hasKey (withOk false cr)) with (hasKey cr). cbn [algorithm aeadKey withOk nonce].
  rewrite Hh, Hk, evp_seal_length, encodeNonce_length. change (zlen (@nil Z)) with 0. cbn [negb Z.eqb Pos.eqb orb].
  replace (zlen p + 16 <? 16) with false by lia. replace (cr.(nonce) <=? 2 ^ 64 - 2) with true by lia. cbn [negb orb Z.gtb Z.compare].
  case_test; [done |]. rewrite Ha, Hak, Hnb; [done | apply encodeNonce_length | apply encodeNonce_length |].
  intros E0. apply Hne. symmetry. eapply encodeNonce_inj, E0; lia.
Qed.

(** sendall refuses a text of more than 65519 bytes after it has encrypted it:
    nothing is written, but the nonce is spent, so with an AEAD that binds its nonce the
    next text is sent and cannot be decrypted. *)
Theorem oversized_text_ends_stream `{L : NoiseCryptoLaws} d k dr kr p q size recd snt :
  nonce_bound -> streaming d.(ns_send) dr.(ns_recv) [] [] recd snt -> dr.(recvBuf) = [] ->
  d.(ns_ready) = true -> dr.(ns_ready) = true -> sound k -> sound kr -> kr.(arrived) = [] ->
  d.(ns_send).(nonce) < MaxNonce - 1 -> 65519 < zlen p <= INT_MAX - 16 -> good_text q -> 0 < size ->
  exists d1 d2 out dr', sendall p d k = (-1, d1, [], k) /\ sendall q d1 k = (zlen q, d2, out, k)
    /\ recv size dr (set_arrived out kr) = Returns (-1, [], dr', kr)
    /\ dr'.(ns_recv).(nonce) = d.(ns_send).(nonce) /\ d2.(ns_send).(nonce) = d.(ns_send).(nonce) + 2.
Proof.
  intros Hnb (Hs & Hr & Hsk & Hn0 & ps & _ & Ew & Hn & _) Hbuf Hrd Hrr Hk Hkr Har Hmax Hp Hq Hsz.
  destruct ps as [| x ps]; [| by destruct x]. cbn [length] in Hn. rewrite Z.add_0_r in Hn.
  destruct (sendall_oversized d k p Hs Hrd ltac:(lia) Hp) as (d1 & E1 & R1 & C1).
  assert (Hk1 : keyed d1.(ns_send)) by (rewrite C1; by destruct Hs).
  exists d1. do 3 eexists. split; [done |]. split; [apply sendall_frame; [done.. | rewrite C1; cbn; lia] |]. rewrite C1.
  cbn [nonce withNonce]. unfold recv. replace (size <=? 0) with false by lia. rewrite Hbuf. change (zlen (@nil Z)) with 0. cbn [Z.eqb negb].
  set (wire := sealed _ _ q). assert (Hz : zlen wire = zlen q + 16) by apply evp_seal_length. unfold good_text in Hq.
  rewrite (readFrame_frame wire []) by (cbn; rewrite ?app_nil_r; done || lia). rewrite Hrr. cbn [negb].
  assert (E : decryptWithAd [] wire dr.(ns_recv) = ([], withOk false dr.(ns_recv))).
  { apply decrypt_other_nonce; try done; cbn; lia. }
  rewrite E. cbn [lastDecryptOk withOk negb]. split; [destruct kr as [a e c]; cbn in Har; subst a; reflexivity |]. cbn. lia.
Qed.

(** An AEAD that checks its nonce, without secrecy. *)
Definition strict_tag (n : list Z) : list Z := take 16 (n ++ replicate 16 0).
Definition strict_noise : NoiseCrypto := {|
  evp_seal := fun _ _ n _ p => p ++ strict_tag n;
  evp_open := fun _ _ n _ c => if bool_decide (drop (length c - 16) c = strict_tag n) then Some (take (length c - 16) c) else None;
  md_available := fun _ => true;
  evp_digest := fun md m => replicate (md_size md) (zlen m mod 256);
  evp_hmac := fun md _ _ => replicate (md_size md) 9;
  x25519_public := fun k => k;
  x25519 := fun _ _ => Some (replicate 32 3)
|}.

Lemma strict_tag_length n : length (strict_tag n) = 16%nat.
Proof. unfold strict_tag. rewrite length_take, length_app, length_replicate. lia. Qed.

Lemma strict_noise_laws : @NoiseCryptoLaws strict_noise.
Proof.
  destruct toy_noise_laws as [_ _ H3 H4 H5 H6]. split; [| | exact H3 | exact H4 | exact H5 | exact H6]; cbn; intros.
  - rewrite zlen_app. unfold zlen. by rewrite strict_tag_length.
  - rewrite length_app, strict_tag_length, Nat.add_sub, take_app_length, drop_app_length. by rewrite bool_decide_true.
Qed.

Lemma strict_noise_bound : @nonce_bound strict_noise.
Proof.
  intros a key n n' ad p Hn Hn' Hne. cbn. rewrite length_app, strict_tag_length, Nat.add_sub, drop_app_length.
  rewrite bool_decide_false; [done |]. intros E. apply Hne. apply (f_equal (take 12)) in E. unfold strict_tag in E.
  unfold zlen in *. rewrite !take_take, !take_app_le in E by lia. rewrite !take_ge in E by lia. done.
Qed.

(** A socket with its keys. *)
Definition toy_socket : NoiseSocket :=
  let c := initializeKey (replicate 32 5) (newCipher ChaCha20Poly1305) in
  mkSocket newHS c c Initiator true true [] String.EmptyString [].

Lemma oversized_text_ends_stream_witness :
  exists d1 d2 out dr', @sendall strict_noise (replicate 65520 1) toy_socket (mkBackend [] false None) = (-1, d1, [], mkBackend [] false None)
    /\ @sendall strict_noise [7] d1 (mkBackend [] false None) = (1, d2, out, mkBackend [] false None)
    /\ @recv strict_noise 10 toy_socket (mkBackend out false None) = Returns (-1, [], dr', mkBackend [] false None)
    /\ dr'.(ns_recv).(nonce) = 0 /\ d2.(ns_send).(nonce) = 2.
Proof.
  refine (@oversized_text_ends_stream strict_noise strict_noise_laws toy_socket (mkBackend [] false None) toy_socket (mkBackend [] false None)
    (replicate 65520 1) [7] 10 [] [] strict_noise_bound _ eq_refl eq_refl eq_refl (conj eq_refl eq_refl) (conj eq_refl eq_refl) eq_refl _ _ _ _).
  - apply streaming_start; [by split |]. reflexivity.
  - vm_compute. reflexivity.
  - unfold zlen. rewrite length_replicate. split; [vm_compute; reflexivity | vm_compute; congruence].
  - split; [reflexivity | vm_compute; congruence].
  - reflexivity.
Defined.
